(* ===== verification/_CoqProject ===== *)
-Q . S2P
Prelude.v
Json.v
Regexp.v
OpenApi.v
SpecDocument.v
SpecKeys.v
SpecDiff.v
SpecDiffProofs.v
Roles.v
Leases.v
ClaimQueue.v
Users.v
Sso.v
EgressPolicy.v
EgressReading.v
Outbox.v
JobQueues.v
Settings.v
AuditLog.v
AccessTables.v
CredentialTables.v
AccountTables.v
AccessWorkflow.v
SsoSettings.v
World.v
AccessStore.v
AccountStore.v
LeaseFence.v
KeyedSerializer.v
Provisioner.v
AccessDecisions.v
TransactionRetry.v
LruCache.v
RevisionMemo.v
SettingGeneration.v
Crypto.v
SealedOutbox.v
OutboxWorker.v
JobWorkers.v
GatewayJobWorker.v
AccessRevocation.v
AccessApproval.v
AccessRequests.v
AccessLogic.v
AccessTransactions.v
AccessPrograms.v
AccessRefinement.v
TeardownWorker.v
AccountRecovery.v
Auth.v
AuthPlugin.v
UsersService.v
SsoService.v
AccountLogic.v
AccountPrograms.v
AccountInvariants.v
AccountService.v
SignIn.v
PasswordReset.v
RequestSessions.v
AccountAdministration.v
SsoSignIn.v
CredentialStore.v
Credentials.v
CredentialIssue.v
CredentialReconcile.v
CredentialIdentities.v
CredentialSweep.v
CredentialMirror.v
CredentialLogic.v
CredentialStatements.v
CredentialSample.v
CredentialRevocation.v
CredentialIssuance.v
CredentialRotation.v
CredentialReconciled.v
CredentialSteps.v
CredentialSweeping.v
CredentialRecovered.v
CredentialDisabled.v
