(* ===== verification/Prelude.v ===== *)
(** * ferrum-nexus: the portal's state machines, verified

    ferrum-nexus is the portal of an API gateway (Ferrum Edge): a TypeScript
    server over one SQL or document store, which any number of instances share,
    an HTTP admin API of the gateway, and an SMTP relay. What it promises (an
    e-mail is not sent twice, a disabled account loses its gateway access, a
    section that lost its lock commits nothing, an approval ends in a grant or is
    given back) has to survive crashes, failing
    statements, lost acknowledgements and other instances. This development models
    the code that carries these promises and proves them for every schedule.

    ** The files and the code

    Files follow the directories of [server/src] and [shared/src].

    - [Prelude]: numbers with their IEEE comparisons, exact rounding, strings,
      stable sorting, [UPDATE ... WHERE] and [SELECT ... WHERE] on a map, tactics
      and the hint database [nexus].
    - [Json]: JSON values and their text, objects with their own keys, page bounds,
      and the reading of such a text, as [JSON.parse] does it.
    - [Regexp]: the regular expressions of the specifications' keys and addresses.
    - [OpenApi]: [shared/src/openapi.ts], the reading of references in a document.
    - [SpecDocument], [SpecKeys], [SpecDiff]: [publishing/spec-document.ts],
      [spec-keys.ts] and [spec-diff.ts]: the document a provider submits, the one
      the catalog shows and the routes publish, and the comparison of two
      revisions. [SpecDiffProofs] holds its theorems.
    - [Sso]: [sso/mapping.ts], [shared/src/sso.ts] and the pure rules of
      [sso/service.ts] that apply them.
    - [EgressPolicy]: [ferrum-admin/egress-policy.ts] and the check of
      [ferrum-admin/client.ts] that holds a write back; [EgressReading]
      holds its theorems.
    - [Roles]: [shared/src/roles.ts], [error-codes.ts], [server/src/lib/errors.ts];
      exceptions are values of [exn], results of [res].
    - [Leases], [Users], [Outbox], [JobQueues], [Settings], [AuditLog]: the
      repositories of [db/adapters/sqlite/index.ts], one function per statement
      on a [gmap] keyed by the primary key. [ClaimQueue] is the interface of the
      claimed rows (outbox and job queues); [Leases.LeaseRepo] that of the lock
      table.
    - [World], [LeaseFence], [KeyedSerializer]: the asynchronous code.
      [World] is the monad of an [async] function; [LeaseFence] is
      [lib/lease-fence.ts] and the SQLite transaction; [KeyedSerializer] is
      [lib/keyed-serializer.ts].
    - [AccessTables], [AccessStore], [Provisioner]: the requests, grants and
      consumers of the adapter, the statements the services make on them, and
      [credentials/consumers.ts], the groups of an identity on the gateway.
    - [AccessDecisions], [AccessRevocation], [AccessApproval], [AccessRequests]:
      [access/service.ts], one function per operation and per closure.
      [AccessWorkflow] is its abstract specification, a step relation on
      requests, grants and jobs; [AccessLogic], [AccessTransactions], [AccessPrograms] and [AccessRefinement] prove that
      the service implements it.
    - [TransactionRetry], [LruCache], [RevisionMemo], [SettingGeneration],
      [Crypto]: [db/adapters/transaction-retry.ts] and the files of [lib/] of
      those names.
    - [SealedOutbox], [OutboxWorker]: [email/sealed-outbox.ts] and
      [email/outbox-worker.ts].
    - [JobWorkers], [GatewayJobWorker], [TeardownWorker], [AccountRecovery]:
      [access/gateway-job-worker.ts], [credentials/teardown-worker.ts] with
      [runGatewayTeardown] of [credentials/service.ts], and
      [credentials/account-recovery.ts].
    - [CredentialTables], [CredentialStore]: the credentials and the registered
      identities of the adapter, and the statements on them.
    - [AccountTables], [AccountStore], [SsoSettings]: the users, sessions, links by
      e-mail, identities, proofs, locks, organizations and preferences of the
      adapter, the calls on them, and [sso/config.ts] with [sso/settings.ts].
    - [Auth], [AuthPlugin], [UsersService]: [auth/service.ts] with
      [password-change.ts]; [middleware/auth-plugin.ts] with [session-lifetime.ts],
      [api-route.ts] and [expiry-sweep.ts]; [users/service.ts]. [AccountLogic],
      [AccountPrograms] and [AccountInvariants] carry the invariants of the account
      tables through every operation, [AccountService] states them over sequences
      of calls, on a sample portal, and [SignIn], [PasswordReset], [RequestSessions] and [AccountAdministration] hold the theorems on the calls.
    - [SsoService]: [sso/service.ts] with the secrets of [sso/settings.ts]: the
      sealed attempt, the callback ([planSignIn], [planExplicitLink], then the
      transaction [sign_in_commit]), [deprovision], the save of the settings and the
      links of an account. [SsoSignIn] holds its theorems.
    - [Credentials], [CredentialIssue], [CredentialReconcile],
      [CredentialIdentities], [CredentialSweep]: [credentials/service.ts], its
      positions and revocations, issue and rotation, reconciliation, the identities
      of an account with its disabling and restoring, and the sweep a password
      reset owes. [CredentialMirror], [CredentialLogic] and
      [CredentialStatements] are what their theorems share, [CredentialSample] is a
      sample gateway, and [CredentialRevocation], [CredentialIssuance],
      [CredentialRotation] and [CredentialReconciled] hold the theorems on one
      consumer and type. [CredentialSteps] and [CredentialSweeping] are
      shared by the theorems on all the keys of an
      account: [CredentialRecovered], [CredentialDisabled].

    ** How the asynchronous code is modelled

    A function of the server is a value of [World.M]: it takes the world (the
    database, the held leases, what left the process, the counters of the current
    result object) and answers [Ok] or [Throw] with the world it leaves. What
    the code does not control is a schedule: [w_env n] is the turn of the n-th
    awaited operation, and says what the other processes did to the database
    before it ([t_rivals], any function), the clock, the identifiers and random
    values drawn, whether the operation fails, and what the relay answers. So a
    theorem over all worlds is a theorem over all interleavings and failures.
    Inside a transaction [t_rivals] does not run ([BEGIN IMMEDIATE] holds the
    write lock), and a throw puts the database back. The renewal timer of a
    lease and every other instance are part of [t_rivals].

    [World.leads], [ends], [yields] and [moded] are the program logic: [leads
    env I J m] says that [m], run on the schedule [env] where [I] holds, ends
    where [J] holds; [ends] looks at the answer too; [moded] also knows whether a
    transaction is open. Their rules follow the monad's combinators.

    Code a component is handed (the credentials service of the workers, the
    access service of the gateway worker, the gateway's HTTP client, the
    primitives of [node:crypto]) is a type class of operations with a class of
    laws; the witnesses instantiate it. [AccessApproval.access_service] is the
    modelled access service as the gateway worker's instance of its interface.

    ** How the access service is specified

    [AccessWorkflow.move] lists what may happen to the three tables at once: a
    request is filed, decided with the job that settles it, released or cancelled
    by that job's claimant, a grant is created by it, widened, revoked and
    restored together with its request, a job is dropped when nothing is owed.
    [workflow_ok] is the invariant of its reachable states. [access_schedule] asks
    of the other processes that what they do between two statements is moves too:
    other instances run this same service, which the theorem shows to move only so.
    [Outsiders] asks of the interfaces (gateway client, notices, read rules) that
    they leave the three tables to moves. [AccessLogic.guar] is the program logic:
    a program keeps the invariant, makes moves, and what it knows of a row is
    [stable] under the moves of others.

    ** How the credentials service is specified

    The gateway shows an array of entries without identities, so the service finds
    an entry by counting rows. [CredentialMirror.mirrored t a] says that the rows
    of one consumer and type can be lined up with the gateway's array; it allows
    for the one entry, or the one row, a lost acknowledgement leaves. The gateway's
    calls are [CredentialDeps], and [CredentialStatements.GatewayArray] is what they
    do to the array: a call that throws was applied or was not. The theorems on one
    consumer and type hold beside others that leave its rows alone, since they do
    not hold the consumer's key. Those on all the keys of an account let the others
    act: [CredentialSweeping.sweeping] says how the table may change during a
    recovery, and [CredentialDisabled.left_alone] during a disabling.
    [CredentialSteps.answers] is their logic; it says nothing of an operation that
    throws.

    ** How the accounts are specified

    [AccountService.account_call] is one call of the four services, [serve] runs it
    and [serve_all] a sequence. [AccountLogic.stays env tx P m] says that [m] keeps
    a predicate of the account tables, beside other processes that keep it too
    ([account_rivals]) and with the interfaces it is handed keeping it
    ([AccountPrograms.deps_stay]); the class [AccountInvariant] lists the statements
    that have to keep it, so each invariant is one instance and the programs are
    walked once. [SignIn.committed_within] says what the transaction inside a call
    found and left, so that the theorems on a call hold whatever the other processes
    do around it. [SsoSignIn.only_rivals] relates the database a call began with to
    the one its transaction found: only the other processes' writes lie between, so
    [entitled] says by what right a plan was made and [opens] what the commit, which
    reads the account again, did with it. The OpenID Connect client and the cipher
    are [SsoService.SsoDeps]; the client is asked to leave the account tables alone.

    ** What the theorems show

    - Mutual exclusion: a lease has one holder; a token that holds its key at
      commit held it throughout; a transaction is atomic and commits only under
      live leases; what a leased section commits is fenced; fences are taken in
      one order; a leased section gives its key back; the queue of a process runs one section per key, in order, and
      never sticks; lock keys of different operations differ.
    - Queues: a lost claim on an outbox row or a job is never regained and its
      former owner settles nothing; settled messages stay settled; abandoned jobs
      are recovered; a job leaves its queue only by its holder.
    - Delivery: one message at most per claimed row, never re-queued once the
      relay may have it; nothing is sent on a lost claim or to an address the
      account gave up; a tick is bounded and never throws; sealed content opens
      only on its own row.
    - Revocation: the job of a disabled account outlives every tick until the
      gateway confirmed; a recovery blocks new credentials until confirmed, or
      until the audit row of eight failures commits with the unblocking; the
      access worker accounts for every claimed job.
    - Access: every operation of the service, with every failure of a statement
      or of the gateway, makes moves of the workflow and keeps its invariant (a
      refinement); so after any calls an identity has one pending request and one
      active grant at most per API, and an approval has its active grant or the
      job that settles it; an account that may review nothing decides nothing.
    - Credentials: with any failure of a statement or lost answer of the gateway, an
      issue, a rotation and a revocation leave the rows a mirror of the gateway's
      array and no other active key loses its row or its entry; a reconciliation
      restores the mirror from any drift; a password reset's sweep, which ends,
      leaves no key older than its cutoff, and a disabling none at all.
    - Accounts: the tables stay well formed; a portal that has a super admin keeps
      one; an account that is not active has no session, as far as sessions are
      issued in the transaction that read the account. A sign-in admits only who may
      sign in at its commit, and a failing one tells nothing; a registration gives
      no role but the founder's; a reset link works once, for an hour, and settles
      the account; a guarded request has a live session and its token, and a session
      lives between its idle time and its age; an administrator changes and ends
      what the rules allow, in one transaction; an address is released only from an
      account that nothing can act for.
    - Reads: settings read together are one state of the database; the memo never
      answers with a replaced value; the cache keeps its bounds.
    - Documents: the memoising resolver of references agrees with one that follows
      every reference afresh, and so does the comparison of revisions; every
      difference it reports is one a document declares, and moving a parameter
      between a path and its operations reports none; what the routes publish has
      the gateway's servers only, and what the catalog shows has no upstream.
    - Egress: a policy written out is read back; a write is let through only
      under the profile the gateway reports; the data planes a verdict counts are
      distinct, in the policy's state and seen within its window.
    - Single sign-on: a role is the highest one claimed, administrators are only
      made by an explicit mapping, an address counts only in its own domain. A
      callback that signs in answers its own browser's attempt and opens the account
      the subject is linked to; a first link is made only by right; claims promote
      no account that an untrusted provider can open, and end its older sessions;
      the settings are saved over what was read, and a provider that is cut off takes
      its links and sessions with it.
    - Retries: the loops end within their attempts, the delays stay in their
      windows, and MongoDB's re-runs within their budget.

    ** Bounds and fuel

    The loop of [takeLease] has fuel [KeyedSerializer.lease_fuel], shown to be
    enough on a clock that moves; a caller given too little gets an exception no
    theorem depends on. The retries of a restored grant ([restoreUnderKeys],
    [restoreUnderFreshProxy]) stop after the deadline of the clock; their fuel is
    an argument, running out is the outcome of a late attempt, and the theorems
    hold for every fuel. A listing read page by page has a bound on its pages as
    fuel ([CredentialIdentities.collect_pages], [CredentialSweep.sweep_pages]), and
    running out of it throws; [CredentialRecovered] shows that the bound of the
    sweep is not met above the number of live keys. The loop of a reset that cancels
    the pending requests ([Auth.cancel_pages]) has one round more than there are
    requests, which is enough. The other loops are structural on what bounds them: a
    batch size, a number of attempts, a list.

    ** Abstractions

    Documents are trees of JSON, the identity of an object in one being its place;
    their numbers are integers; the agents' stamp of a document is not modelled.
    Text is ASCII; ISO timestamps are milliseconds since the epoch; [Math.random()]
    is a fraction with denominator [random_den], and [Math.round] is exact on
    fractions; columns with JSON are values or their text. A table's [SELECT]
    order is that of its [ORDER BY], ties broken by the id where SQLite leaves
    them open. Logs, timers, [start] and [stop] are not modelled: a tick may be
    run at any time and stopped at any step.

    Hashes are parameters: no property of scrypt or SHA-256 is assumed beyond what a
    theorem names. The lists in the details of an error are left out, cookies are
    the values set, and the identity of a user in a request is the row itself.

    The records [decorate] joins to an answer of the access service are left out,
    as are the notices' texts behind their template keys. A commit of SQLite is
    acknowledged or has not happened: the rereads the service makes for a lost
    acknowledgement are there and find what was committed.

    ** Not modelled yet

    The sagas of publishing, the CAPTCHA, the OpenID Connect client, messaging, the catalog's listings, the administration
    services, the gateway's HTTP client, the other database adapters (MongoDB,
    PostgreSQL, MySQL: the same repositories in other dialects), migrations,
    templates, routes and the other middleware, configuration, and the web application; of
    the credentials service, the one-off scan of legacy rows. What is left
    of the core is publishing: its sagas write the gateway and the store in turn. *)

From Stdlib Require Export Lia Sorted.
From stdpp Require Export base pretty gmap strings list numbers.
(* Last, so that its lemmas on lists are not hidden by the Standard Library's. *)
From stdpp Require Export list_relations.

(** ** Computations that may throw *)

(** A JavaScript computation returns a value or throws. *)
Inductive res (E A : Type) : Type :=
| Ok (a : A)
| Throw (e : E).
Arguments Ok {E A} a.
Arguments Throw {E A} e.

#[export] Instance res_eq_dec {E A} `{EqDecision E} `{EqDecision A} : EqDecision (res E A).
Proof. solve_decision. Defined.

Definition is_ok {E A} (r : res E A) : bool :=
  match r with Ok _ => true | Throw _ => false end.

Definition res_map {E A B} (f : A -> B) (r : res E A) : res E B :=
  match r with Ok a => Ok (f a) | Throw e => Throw e end.

(** ** JavaScript numbers

    Counts, sizes, durations and epoch milliseconds are integers. A number that
    a caller passes in can also be one of the three non-finite values, which
    compare as IEEE 754 says: every comparison with [NaN] is false. *)

Inductive jsnum : Type :=
| Fin (z : Z)
| PosInf
| NegInf
| NaN.

#[export] Instance jsnum_eq_dec : EqDecision jsnum.
Proof. solve_decision. Defined.

(** [a > b] for a finite [b]. *)
Definition jsnum_gtb (a : jsnum) (b : Z) : bool :=
  match a with
  | Fin z => bool_decide (b < z)%Z
  | PosInf => true
  | NegInf | NaN => false
  end.

(** [a < b] for a finite [b]. *)
Definition jsnum_ltb (a : jsnum) (b : Z) : bool :=
  match a with
  | Fin z => bool_decide (z < b)%Z
  | NegInf => true
  | PosInf | NaN => false
  end.

(** [Number.isFinite]. *)
Definition jsnum_finite (a : jsnum) : bool :=
  match a with Fin _ => true | _ => false end.

(** [Math.random()] is a multiple of [2^-53] in [[0, 1)]: its numerator over
    this denominator is the integer the model carries. *)
Definition random_den : Z := (2 ^ 53)%Z.

Definition random_ok (r : Z) : Prop := (0 <= r < random_den)%Z.

(** [Math.round(n / d)] for [d > 0]: halves round towards positive infinity. *)
Definition round_div (n d : Z) : Z := ((2 * n + d) / (2 * d))%Z.

(** ** Tactics *)

(** Split every [match] or [if] of the goal or of the hypotheses. *)
Ltac split_matches :=
  repeat (case_match; simplify_eq/=; try done).

(** Turn the boolean tests of the context into propositions. *)
Ltac bool_to_prop :=
  repeat match goal with
  | H : (_ && _)%bool = true |- _ => apply andb_true_iff in H as [? ?]
  | H : (_ && _)%bool = false |- _ => apply andb_false_iff in H
  | H : (_ || _)%bool = true |- _ => apply orb_true_iff in H
  | H : (_ || _)%bool = false |- _ => apply orb_false_iff in H as [? ?]
  | H : negb _ = true |- _ => apply negb_true_iff in H
  | H : negb _ = false |- _ => apply negb_false_iff in H
  | H : bool_decide _ = true |- _ => apply bool_decide_eq_true_1 in H
  | H : bool_decide _ = false |- _ => apply bool_decide_eq_false_1 in H
  end.

(** Evaluate the tests of the goal that the context decides. *)
Ltac rewrite_bools :=
  repeat match goal with E : _ = _ :> bool |- _ => rewrite E; clear E end.

Create HintDb nexus.

(** ** Arithmetic shared by the back-off computations *)

Lemma round_div_bounds (n d lo hi : Z) :
  (0 < d)%Z -> (lo * d <= n)%Z -> (n <= hi * d)%Z ->
  (lo <= round_div n d <= hi)%Z.
Proof.
  intros Hd Hlo Hhi. unfold round_div. split.
  - apply Z.div_le_lower_bound; lia.
  - apply Z.lt_succ_r, Z.div_lt_upper_bound; lia.
Qed.

Lemma round_div_exact (q d : Z) : (0 < d)%Z -> round_div (q * d) d = q.
Proof.
  intros Hd. pose proof (round_div_bounds (q * d) d q q Hd). lia.
Qed.

#[export] Hint Resolve round_div_bounds : nexus.

(** Sums. *)
Fixpoint z_sum (l : list Z) : Z :=
  match l with [] => 0%Z | x :: l' => (x + z_sum l')%Z end.

#[export] Instance z_sum_perm : Proper ((≡ₚ) ==> (=)) z_sum.
Proof. induction 1; simpl in *; lia. Qed.

Lemma z_sum_app (l1 l2 : list Z) : z_sum (l1 ++ l2) = (z_sum l1 + z_sum l2)%Z.
Proof. induction l1 as [|x l1 IH]; simpl in *; lia. Qed.

Lemma z_sum_submseteq (l1 l2 : list Z) :
  l1 ⊆+ l2 -> Forall (fun n => 0 <= n)%Z l2 -> (z_sum l1 <= z_sum l2)%Z.
Proof.
  intros (l & ->)%submseteq_Permutation. rewrite z_sum_app. intros [_ Hl]%Forall_app.
  induction Hl as [|x l Hx _ IH]; simpl in *; lia.
Qed.

(** ** Strings

    Text is ASCII: [toLowerCase] and [trim] act on the ASCII letters and the
    ASCII white space. *)

Definition ascii_lower (c : Ascii.ascii) : Ascii.ascii :=
  let n := Ascii.nat_of_ascii c in
  if decide (65 <= n <= 90)%nat then Ascii.ascii_of_nat (n + 32) else c.

Fixpoint toLowerCase (s : string) : string :=
  match s with
  | EmptyString => EmptyString
  | String c s' => String (ascii_lower c) (toLowerCase s')
  end.

(** Tab, line feed, vertical tab, form feed, carriage return and space. *)
Definition is_space (c : Ascii.ascii) : bool :=
  let n := Ascii.nat_of_ascii c in
  bool_decide (9 <= n <= 13)%nat || bool_decide (n = 32)%nat.

Fixpoint trim_start (s : string) : string :=
  match s with
  | EmptyString => EmptyString
  | String c s' => if is_space c then trim_start s' else s
  end.

Definition string_rev (s : string) : string := String.rev s.

Definition trim (s : string) : string := string_rev (trim_start (string_rev (trim_start s))).

Fixpoint startsWith (prefix s : string) : bool :=
  match prefix, s with
  | EmptyString, _ => true
  | String a p', String b s' => bool_decide (a = b) && startsWith p' s'
  | String _ _, EmptyString => false
  end.

(** [s.slice(n)] for [0 <= n]. *)
Fixpoint slice_from (n : nat) (s : string) : string :=
  match n, s with
  | O, _ => s
  | S n', String _ s' => slice_from n' s'
  | S _, EmptyString => EmptyString
  end.

(** [s.split(c)]. *)
Fixpoint split_on (c : Ascii.ascii) (s : string) : list string :=
  match s with
  | EmptyString => [EmptyString]
  | String a s' =>
      if decide (a = c) then EmptyString :: split_on c s'
      else match split_on c s' with
           | [] => [String a EmptyString]
           | word :: words => String a word :: words
           end
  end.

Definition endsWith (suffix s : string) : bool :=
  bool_decide (String.length suffix <= String.length s)%nat &&
  bool_decide (slice_from (String.length s - String.length suffix) s = suffix).

(** [a < b] on strings: lexicographic by code unit. *)
Definition string_ltb (a b : string) : bool :=
  match String.compare a b with Lt => true | _ => false end.

Definition string_leb (a b : string) : bool :=
  match String.compare a b with Gt => false | _ => true end.

Lemma string_app_cons c (a b : string) : String c a +:+ b = String c (a +:+ b).
Proof. reflexivity. Qed.

Lemma string_app_nil_l (b : string) : EmptyString +:+ b = b.
Proof. reflexivity. Qed.

Lemma string_app_assoc (a b c : string) : (a +:+ b) +:+ c = a +:+ (b +:+ c).
Proof. induction a as [|x a IH]; [done|]. rewrite !string_app_cons. by rewrite IH. Qed.

Lemma startsWith_app (p s : string) : startsWith p (p +:+ s) = true.
Proof.
  induction p as [|c p IH]; [done|]. rewrite string_app_cons. simpl.
  by rewrite bool_decide_eq_true_2, IH.
Qed.

Lemma string_app_inj_l (a b c : string) : a +:+ b = a +:+ c -> b = c.
Proof.
  induction a as [|x a IH]; [done|]. rewrite !string_app_cons. intros H. injection H. apply IH.
Qed.

Lemma string_length_app a b : String.length (a +:+ b) = (String.length a + String.length b)%nat.
Proof. induction a as [|c a IH]; [done|]. rewrite string_app_cons. simpl. by rewrite IH. Qed.

Lemma string_app_eq_nil (s1 s2 : string) :
  s1 +:+ s2 = EmptyString -> s1 = EmptyString /\ s2 = EmptyString.
Proof. by destruct s1, s2. Qed.

Lemma string_app_nil_r (s : string) : s +:+ EmptyString = s.
Proof. induction s as [|c s IH]; [done|]. by rewrite string_app_cons, IH. Qed.

Lemma ascii_compare_spec (a b : Ascii.ascii) :
  Ascii.compare a b = N.compare (Ascii.N_of_ascii a) (Ascii.N_of_ascii b).
Proof. reflexivity. Qed.

Lemma string_compare_trans (a b c : string) :
  String.compare a b <> Gt -> String.compare b c <> Gt -> String.compare a c <> Gt.
Proof.
  revert b c. induction a as [|x a IH]; intros [|y b] [|z c]; simpl; try done.
  rewrite !ascii_compare_spec.
  destruct (N.compare_spec (Ascii.N_of_ascii x) (Ascii.N_of_ascii y)) as [Hxy|Hxy|Hxy];
  destruct (N.compare_spec (Ascii.N_of_ascii y) (Ascii.N_of_ascii z)) as [Hyz|Hyz|Hyz]; try done;
  destruct (N.compare_spec (Ascii.N_of_ascii x) (Ascii.N_of_ascii z)) as [Hxz|Hxz|Hxz];
  try done; try lia; eauto.
Qed.

Lemma string_leb_trans (a b c : string) :
  string_leb a b = true -> string_leb b c = true -> string_leb a c = true.
Proof.
  unfold string_leb. intros Hab Hbc. pose proof (string_compare_trans a b c) as H.
  destruct (String.compare a b), (String.compare b c), (String.compare a c); try done;
    exfalso; by apply H.
Qed.

Lemma string_leb_total (a b : string) : string_leb a b = true \/ string_leb b a = true.
Proof.
  unfold string_leb. rewrite (String.compare_antisym b a).
  destruct (String.compare a b); simpl; auto.
Qed.

Lemma string_leb_antisym (a b : string) :
  string_leb a b = true -> string_leb b a = true -> a = b.
Proof.
  unfold string_leb. rewrite (String.compare_antisym b a). intros Hab Hba.
  apply String.compare_eq_iff. by destruct (String.compare a b).
Qed.

(** ** Stable sorting

    [Array.prototype.sort] is stable, so its result is determined by the
    comparison: insertion after the elements that compare below or equal. *)
Section Sort.
Context {A : Type} (le : A -> A -> bool).

Fixpoint insert_by (x : A) (l : list A) : list A :=
  match l with
  | [] => [x]
  | y :: l' => if le x y then x :: l else y :: insert_by x l'
  end.

Fixpoint sort_by (l : list A) : list A :=
  match l with
  | [] => []
  | x :: l' => insert_by x (sort_by l')
  end.

Lemma insert_by_perm (x : A) (l : list A) : insert_by x l ≡ₚ x :: l.
Proof.
  induction l as [|y l IH]; simpl; [done|].
  destruct (le x y); [done|]. rewrite IH. apply Permutation_swap.
Qed.

Lemma sort_by_perm (l : list A) : sort_by l ≡ₚ l.
Proof. induction l as [|x l IH]; simpl; [done|]. by rewrite insert_by_perm, IH. Qed.

Context (le_total : forall x y, le x y = true \/ le y x = true).
Context (le_trans : forall x y z, le x y = true -> le y z = true -> le x z = true).

Lemma insert_by_sorted (x : A) (l : list A) :
  StronglySorted (fun a b => le a b = true) l ->
  StronglySorted (fun a b => le a b = true) (insert_by x l).
Proof.
  induction 1 as [|y l Hs IH Hy]; simpl; [repeat constructor|].
  destruct (le x y) eqn:Hxy.
  - constructor; [by constructor|]. constructor; [done|].
    eapply Forall_impl; [exact Hy|]. intros z Hyz. eauto.
  - constructor; [done|]. rewrite insert_by_perm. constructor; [|done].
    destruct (le_total x y); congruence.
Qed.

Lemma sort_by_sorted (l : list A) : StronglySorted (fun a b => le a b = true) (sort_by l).
Proof. induction l; simpl; [constructor|]. by apply insert_by_sorted. Qed.
End Sort.

(** In a sorted list an element that comes earlier compares below or equal. *)
Lemma sorted_lookup {A} (R : A -> A -> Prop) (l : list A) (i j : nat) (x y : A) :
  StronglySorted R l -> (i < j)%nat -> l !! i = Some x -> l !! j = Some y -> R x y.
Proof.
  intros Hs. revert i j. induction Hs as [|z l Hs IH Hz]; intros i j Hij Hi Hj; [done|].
  destruct j as [|j]; [lia|]. simpl in Hj. destruct i as [|i]; simpl in Hi.
  - injection Hi as <-. by apply (Forall_lookup_1 _ _ _ _ Hz Hj).
  - eapply IH; [|done..]. lia.
Qed.

(** Lexicographic comparison: the first comparison that is not [Eq] decides. *)
Definition then_by (a b : comparison) : comparison := match a with Eq => b | _ => a end.

(** SQL [ORDER BY column ASC] with SQLite's "NULLs first". *)
Definition compare_null_first (a b : option Z) : comparison :=
  match a, b with
  | None, None => Eq
  | None, Some _ => Lt
  | Some _, None => Gt
  | Some x, Some y => Z.compare x y
  end.

Definition leb_of (c : comparison) : bool := match c with Gt => false | _ => true end.

(** [Math.max(1, Math.floor(limit))]. *)
Definition sql_limit (limit : Z) : nat := Z.to_nat (Z.max 1 limit).

Lemma insert_by_elem {A} (le : A -> A -> bool) (x y : A) (l : list A) :
  y ∈ insert_by le x l <-> y = x \/ y ∈ l.
Proof. by rewrite (insert_by_perm le x l), elem_of_cons. Qed.

Lemma sort_by_elem {A} (le : A -> A -> bool) (y : A) (l : list A) :
  y ∈ sort_by le l <-> y ∈ l.
Proof. by rewrite (sort_by_perm le l). Qed.

(** ** Tables

    A table is a finite map from the primary key to the row. *)

(** [UPDATE ... WHERE p]: [f] on every row that satisfies [p]; the count is the
    number of rows the statement changed. *)
Definition update_where {R} (p : R -> bool) (f : R -> R) (t : gmap string R)
    : gmap string R * Z :=
  ((fun r => if p r then f r else r) <$> t,
   Z.of_nat (size (filter (fun '(_, r) => p r = true) t))).

(** The rows a [SELECT ... WHERE p] reads, in no particular order. *)
Definition rows_where {R} (p : R -> bool) (t : gmap string R) : list R :=
  map snd (filter (fun '(_, r) => p r = true) (map_to_list t)).

Lemma update_where_lookup {R} (p : R -> bool) (f : R -> R) (t t' : gmap string R) (n : Z) k :
  update_where p f t = (t', n) ->
  t' !! k = (fun r => if p r then f r else r) <$> t !! k.
Proof. unfold update_where. intros. simplify_eq. by rewrite lookup_fmap. Qed.

Lemma rows_where_spec {R} (p : R -> bool) (t : gmap string R) (r : R) :
  r ∈ rows_where p t <-> exists k, t !! k = Some r /\ p r = true.
Proof.
  unfold rows_where. rewrite list_elem_of_fmap. split.
  - intros ([k r'] & -> & Hin). apply list_elem_of_filter in Hin as [Hp Hin].
    apply elem_of_map_to_list in Hin. eauto.
  - intros (k & Hk & Hp). exists (k, r). split; [done|].
    apply list_elem_of_filter. by rewrite elem_of_map_to_list.
Qed.
