(* ===== verification/Json.v ===== *)
(** * JSON

    Values and their objects, deep equality ([isDeepStrictEqual] of [node:util]),
    the text [JSON.stringify] gives values, and the page bounds every
    listing shares ([clampPageSize] of [shared/src/constants.ts], [page] of
    [server/src/db/adapters/sqlite/sql.ts]). Then the reading of a text
    ([JSON.parse]), an executable parser. *)

From Stdlib Require Import Ascii.
From S2P Require Import Prelude.
Open Scope Z_scope.

#[warnings="-register-all"]
Inductive json : Type :=
| JNull
| JBool (b : bool)
| JNum (n : Z)
| JStr (s : string)
| JArr (l : list json)
| JObj (l : list (string * json)).

Definition dquote : Ascii.ascii := "034"%char.
Definition backslash : Ascii.ascii := "092"%char.

Definition hex_digit (n : nat) : Ascii.ascii :=
  if decide (n < 10)%nat then Ascii.ascii_of_nat (48 + n) else Ascii.ascii_of_nat (87 + n).

(** The escape of one character. *)
Definition json_escape (c : Ascii.ascii) : string :=
  let n := Ascii.nat_of_ascii c in
  let short e := String backslash (String e EmptyString) in
  if decide (c = dquote) then short dquote
  else if decide (c = backslash) then short backslash
  else if decide (n = 8)%nat then short "b"%char
  else if decide (n = 9)%nat then short "t"%char
  else if decide (n = 10)%nat then short "n"%char
  else if decide (n = 12)%nat then short "f"%char
  else if decide (n = 13)%nat then short "r"%char
  else if decide (n < 32)%nat
  then String backslash (String "u"%char (String "0"%char (String "0"%char
         (String (hex_digit (n / 16)) (String (hex_digit (n mod 16)) EmptyString)))))
  else String c EmptyString.

Fixpoint json_escaped (s : string) : string :=
  match s with
  | EmptyString => EmptyString
  | String c s' => json_escape c +:+ json_escaped s'
  end.

Definition json_quote (s : string) : string :=
  String dquote (json_escaped s +:+ String dquote EmptyString).

Fixpoint join (sep : string) (l : list string) : string :=
  match l with
  | [] => EmptyString
  | [x] => x
  | x :: l' => x +:+ sep +:+ join sep l'
  end.

Fixpoint json_stringify (v : json) : string :=
  match v with
  | JNull => "null"
  | JBool b => if b then "true" else "false"
  | JNum n => pretty n
  | JStr s => json_quote s
  | JArr l => "[" +:+ join "," (map json_stringify l) +:+ "]"
  | JObj l => "{" +:+ join "," (map (fun '(k, v) => json_quote k +:+ ":" +:+ json_stringify v) l) +:+ "}"
  end.

(** Induction that reaches the elements of an array and the members of an object. *)
Section JsonInd.
Variable P : json -> Prop.
Hypothesis Hnull : P JNull.
Hypothesis Hbool : forall b, P (JBool b).
Hypothesis Hnum : forall n, P (JNum n).
Hypothesis Hstr : forall s, P (JStr s).
Hypothesis Harr : forall l, Forall P l -> P (JArr l).
Hypothesis Hobj : forall l, Forall (fun kv => P kv.2) l -> P (JObj l).

Fixpoint json_nested_ind (v : json) : P v :=
  match v with
  | JNull => Hnull
  | JBool b => Hbool b
  | JNum n => Hnum n
  | JStr s => Hstr s
  | JArr l => Harr l ((fix go l := match l return Forall P l with
                                   | [] => Forall_nil_2 P
                                   | x :: l' => Forall_cons_2 P x l' (json_nested_ind x) (go l')
                                   end) l)
  | JObj l => Hobj l ((fix go l := match l return Forall (fun kv => P kv.2) l with
                                   | [] => Forall_nil_2 _
                                   | kv :: l' => Forall_cons_2 (fun kv => P kv.2) kv l'
                                                   (json_nested_ind kv.2) (go l')
                                   end) l)
  end.
End JsonInd.

(** ** Objects

    An object is the list of its own members in enumeration order, with
    distinct keys. *)

(** [hasOwnProperty] and the member's value. *)
Fixpoint json_own (key : string) (members : list (string * json)) : option json :=
  match members with
  | [] => None
  | (k, v) :: rest => if decide (k = key) then Some v else json_own key rest
  end.


(** [typeof v === 'object' && v !== null && !Array.isArray(v)]. *)
Definition json_record (v : option json) : option (list (string * json)) :=
  match v with Some (JObj members) => Some members | _ => None end.

Definition json_string (v : option json) : option string :=
  match v with Some (JStr s) => Some s | _ => None end.

Definition json_array (v : option json) : option (list json) :=
  match v with Some (JArr items) => Some items | _ => None end.

(** [delete object[key]]. *)
Definition json_delete (key : string) (members : list (string * json)) : list (string * json) :=
  List.filter (fun kv => negb (bool_decide (kv.1 = key))) members.

(** [object[key] = value]: an own member keeps its place, a new one comes last. *)
Fixpoint json_set (key : string) (value : json) (members : list (string * json))
    : list (string * json) :=
  match members with
  | [] => [(key, value)]
  | (k, v) :: rest => if decide (k = key) then (k, value) :: rest else (k, v) :: json_set key value rest
  end.

(** Every object of the value has distinct keys. *)
Fixpoint json_wf (v : json) : Prop :=
  match v with
  | JArr l => (fix all l := match l with [] => True | x :: l' => json_wf x /\ all l' end) l
  | JObj l => NoDup l.*1 /\
              (fix all l := match l with [] => True | (_, x) :: l' => json_wf x /\ all l' end) l
  | _ => True
  end.

(** [isDeepStrictEqual] on JSON: objects are equal when they have the same
    members, in any order. *)
Fixpoint json_deep_equal (a b : json) : bool :=
  match a, b with
  | JNull, JNull => true
  | JBool x, JBool y => Bool.eqb x y
  | JNum x, JNum y => Z.eqb x y
  | JStr x, JStr y => String.eqb x y
  | JArr l, JArr l' =>
      (fix pairwise l l' := match l, l' with
                            | [], [] => true
                            | x :: l, y :: l' => json_deep_equal x y && pairwise l l'
                            | _, _ => false
                            end) l l'
  | JObj l, JObj l' =>
      Nat.eqb (length l) (length l') &&
      (fix same l := match l with
                     | [] => true
                     | (k, x) :: l => match json_own k l' with
                                      | Some y => json_deep_equal x y && same l
                                      | None => false
                                      end
                     end) l
  | _, _ => false
  end.

(** The same on members that may be absent. *)
Definition deep_equal (a b : option json) : bool :=
  match a, b with
  | None, None => true
  | Some x, Some y => json_deep_equal x y
  | _, _ => false
  end.

Lemma json_own_in (key : string) (v : json) (members : list (string * json)) :
  json_own key members = Some v -> (key, v) ∈ members.
Proof.
  induction members as [|[k x] members IH]; simpl; [done|].
  case_decide as Hk; [intros [= ->]; subst; left|right; auto].
Qed.

Lemma json_own_nodup (key : string) (v : json) (members : list (string * json)) :
  NoDup members.*1 -> (key, v) ∈ members -> json_own key members = Some v.
Proof.
  induction members as [|[k x] members IH]; csimpl; intros Hnd Hin; [by apply elem_of_nil in Hin|].
  apply NoDup_cons in Hnd as [Hk Hnd]. apply elem_of_cons in Hin as [[= -> ->]|Hin].
  - by rewrite decide_True.
  - rewrite decide_False; [by apply IH|]. intros ->. apply Hk.
    apply list_elem_of_fmap. by exists (key, v).
Qed.

Lemma json_own_none (key : string) (members : list (string * json)) :
  json_own key members = None <-> key ∉ members.*1.
Proof.
  induction members as [|[k x] members IH]; csimpl; [set_solver|].
  rewrite not_elem_of_cons. case_decide as Hk.
  - split; [done|]. intros [Hne _]. by rewrite Hk in Hne.
  - rewrite IH. split; [|by intros [_ ?]]. intros Hn. split; [|done]. by intros ->.
Qed.

Lemma json_wf_elem (l : list json) (v : json) : json_wf (JArr l) -> v ∈ l -> json_wf v.
Proof.
  induction l as [|x l IH]; simpl; intros Hwf Hin; [by apply elem_of_nil in Hin|].
  apply elem_of_cons in Hin as [->|Hin]; [apply Hwf|apply IH; [apply Hwf|done]].
Qed.

Lemma json_wf_member (l : list (string * json)) (kv : string * json) :
  json_wf (JObj l) -> kv ∈ l -> json_wf kv.2.
Proof.
  simpl. intros [_ Hwf] Hin. induction l as [|[k x] l IH]; [by apply elem_of_nil in Hin|].
  apply elem_of_cons in Hin as [->|Hin]; [apply Hwf|apply IH; [apply Hwf|done]].
Qed.

Lemma json_deep_equal_refl (v : json) : json_wf v -> json_deep_equal v v = true.
Proof.
  induction v as [|b|n|s|l IH|l IH] using json_nested_ind; intros Hwf; simpl; try done.
  - apply Bool.eqb_reflx.
  - apply Z.eqb_refl.
  - apply String.eqb_refl.
  - induction IH as [|x l Hx _ IHl]; [done|]. destruct Hwf as [Hwx Hwl].
    by rewrite Hx, (IHl Hwl).
  - rewrite Nat.eqb_refl. simpl.
    assert (Hsub : forall kv, kv ∈ l -> json_own kv.1 l = Some kv.2 /\ json_deep_equal kv.2 kv.2 = true).
    { intros kv Hin. split; [apply json_own_nodup; [apply Hwf|by destruct kv]|].
      rewrite Forall_forall in IH. apply IH; [done|]. by apply (json_wf_member l). }
    assert (Hall : forall l1, (forall kv, kv ∈ l1 -> kv ∈ l) ->
      (fix same l2 := match l2 with
                      | [] => true
                      | (k, x) :: l2 => match json_own k l with
                                        | Some y => json_deep_equal x y && same l2
                                        | None => false
                                        end
                      end) l1 = true); [|by apply Hall].
    induction l1 as [|[k x] l1 IH1]; intros Hin; [done|].
    destruct (Hsub (k, x)) as [Hown Heq]; [apply Hin; left|]. simpl in Hown, Heq. rewrite Hown, Heq.
    apply IH1. intros kv Hkv. apply Hin. by right.
Qed.

Lemma deep_equal_refl (v : option json) :
  (forall x, v = Some x -> json_wf x) -> deep_equal v v = true.
Proof. destruct v as [x|]; simpl; [|done]. intros H. by apply json_deep_equal_refl, H. Qed.

(** ** Members after a write *)

Lemma json_own_set_eq (key : string) (v : json) (m : list (string * json)) :
  json_own key (json_set key v m) = Some v.
Proof.
  induction m as [|[k x] m IH]; simpl; [by rewrite decide_True|].
  case_decide as Hk; simpl; [by rewrite decide_True|by rewrite decide_False].
Qed.

Lemma json_own_set_ne (k key : string) (v : json) (m : list (string * json)) :
  k <> key -> json_own k (json_set key v m) = json_own k m.
Proof.
  intros Hne. induction m as [|[k' x] m IH]; simpl; [by rewrite decide_False|].
  repeat (case_decide; simpl); congruence.
Qed.

Lemma json_own_delete_eq (key : string) (m : list (string * json)) :
  json_own key (json_delete key m) = None.
Proof.
  apply json_own_none. intros ([k x] & -> & Hin)%list_elem_of_fmap.
  apply list_elem_of_In, filter_In in Hin as [_ Hin]. simpl in Hin.
  by rewrite bool_decide_eq_true_2 in Hin.
Qed.

Lemma json_own_delete_ne (k key : string) (m : list (string * json)) :
  k <> key -> json_own k (json_delete key m) = json_own k m.
Proof.
  intros Hne. induction m as [|[k' x] m IH]; simpl; [done|].
  case_bool_decide; simpl; [|by rewrite IH]. subst. by rewrite decide_False.
Qed.

Lemma json_delete_absent (key : string) (m : list (string * json)) :
  json_own key m = None -> json_delete key m = m.
Proof.
  induction m as [|[k x] m IH]; simpl; [done|]. case_decide as Hk; [done|].
  intros Hown. rewrite bool_decide_eq_false_2 by done. simpl. by rewrite IH.
Qed.

Lemma json_set_same (key : string) (v : json) (m : list (string * json)) :
  json_own key m = Some v -> json_set key v m = m.
Proof.
  induction m as [|[k x] m IH]; simpl; [done|]. case_decide as Hk; [by intros [= ->]|].
  intros Hown. by rewrite IH.
Qed.

Lemma json_own_map (f : string -> json -> json) (k : string) (m : list (string * json)) :
  json_own k (map (fun kv => (kv.1, f kv.1 kv.2)) m) = f k <$> json_own k m.
Proof. induction m as [|[k' x] m IH]; simpl; [done|]. case_decide; [by subst|done]. Qed.

(** ** Pages *)

Definition DEFAULT_PAGE_SIZE : Z := 25.
Definition MAX_PAGE_SIZE : Z := 200.

Definition clampPageSize (limit : option jsnum) : Z :=
  match limit with
  | Some (Fin n) => if decide (n < 1) then 1 else Z.min n MAX_PAGE_SIZE
  | _ => DEFAULT_PAGE_SIZE
  end.

Definition page_offset (offset : option jsnum) : Z :=
  match offset with
  | Some (Fin n) => if decide (0 < n) then n else 0
  | _ => 0
  end.

(** A condition that is not asked for holds. *)
Definition asked {A} (value : option A) (condition : A -> bool) : bool :=
  match value with Some a => condition a | None => true end.

(** ** JSON text

    [JSON.parse], which every column with JSON and every stored setting goes
    through, as an executable parser of the texts the model carries: characters of
    one byte, and integers. [JSON_parse_stringify] says that it reads back what
    [JSON.stringify] writes. *)

Open Scope N_scope.

(** ** The parser

    Each function answers with what is left of the text. *)

Definition is_json_space (c : ascii) : bool :=
  let n := nat_of_ascii c in
  bool_decide (n = 32 \/ n = 9 \/ n = 10 \/ n = 13)%nat.

Fixpoint skip_spaces (s : string) : string :=
  match s with
  | String c s' => if is_json_space c then skip_spaces s' else s
  | EmptyString => s
  end.

Fixpoint expect (word s : string) : option string :=
  match word, s with
  | EmptyString, _ => Some s
  | String a word', String b s' => if decide (a = b) then expect word' s' else None
  | _, _ => None
  end.

(** The value of a digit. *)
Definition digit_value (c : ascii) : option N :=
  let n := N_of_ascii c in
  if decide (48 <= n /\ n <= 57) then Some (n - 48) else None.

(** The digits at the front, after [acc]. *)
Fixpoint read_digits (acc : N) (s : string) : N * string :=
  match s with
  | String c s' => match digit_value c with
                   | Some d => read_digits (10 * acc + d) s'
                   | None => (acc, s)
                   end
  | EmptyString => (acc, s)
  end.

(** [int] of the grammar: no digit follows a leading zero. *)
Definition read_natural (s : string) : option (N * string) :=
  match s with
  | String c s' =>
      match digit_value c with
      | Some 0 => Some (0, s')
      | Some d => Some (read_digits d s')
      | None => None
      end
  | EmptyString => None
  end.

Definition minus_sign : ascii := "-".

Definition read_number (s : string) : option (Z * string) :=
  match s with
  | String c s' =>
      if decide (c = minus_sign)
      then '(n, rest) ← read_natural s'; Some (- Z.of_N n, rest)%Z
      else '(n, rest) ← read_natural s; Some (Z.of_N n, rest)
  | EmptyString => None
  end.

(** A hexadecimal digit, in either case. *)
Definition hex_value (c : ascii) : option nat :=
  let n := nat_of_ascii c in
  if decide (48 <= n /\ n <= 57)%nat then Some (n - 48)%nat
  else if decide (97 <= n /\ n <= 102)%nat then Some (n - 87)%nat
  else if decide (65 <= n /\ n <= 70)%nat then Some (n - 55)%nat
  else None.

(** The character after a backslash and what follows it. *)
Definition read_escape (s : string) : option (ascii * string) :=
  match s with
  | String c s' =>
      if decide (c = dquote) then Some (dquote, s')
      else if decide (c = backslash) then Some (backslash, s')
      else if decide (c = "/"%char) then Some ("/"%char, s')
      else if decide (c = "b"%char) then Some (ascii_of_nat 8, s')
      else if decide (c = "t"%char) then Some (ascii_of_nat 9, s')
      else if decide (c = "n"%char) then Some (ascii_of_nat 10, s')
      else if decide (c = "f"%char) then Some (ascii_of_nat 12, s')
      else if decide (c = "r"%char) then Some (ascii_of_nat 13, s')
      else if decide (c = "u"%char) then
        match s' with
        | String "0" (String "0" (String h (String l rest))) =>
            hi ← hex_value h; lo ← hex_value l; Some (ascii_of_nat (16 * hi + lo), rest)
        | _ => None
        end
      else None
  | EmptyString => None
  end.

(** The characters up to the closing quote; a control character is refused. The
    fuel is the length of the text. *)
Fixpoint read_string (fuel : nat) (s : string) : option (string * string) :=
  match fuel, s with
  | S fuel', String c s' =>
      if decide (c = dquote) then Some (EmptyString, s')
      else if decide (c = backslash) then
        '(a, rest) ← read_escape s'; '(t, rest) ← read_string fuel' rest; Some (String a t, rest)
      else if decide (nat_of_ascii c < 32)%nat then None
      else '(t, rest) ← read_string fuel' s'; Some (String c t, rest)
  | _, _ => None
  end.

Definition JSON_string (s : string) : option (string * string) := read_string (String.length s) s.

(** The text after the next character that is not a space, which must be [c]. *)
Definition after (c : ascii) (s : string) : option string :=
  match skip_spaces s with
  | String d s' => if decide (d = c) then Some s' else None
  | EmptyString => None
  end.

(** A repeated member keeps its first place and its last value ([json_set]). *)
Fixpoint read_value (fuel : nat) (s : string) : option (json * string) :=
  match fuel with
  | O => None
  | S fuel' =>
      match skip_spaces s with
      | EmptyString => None
      | String c rest as s =>
          if decide (c = "{"%char) then
            match after "}" rest with
            | Some rest' => Some (JObj [], rest')
            | None => '(members, rest') ← read_members fuel' [] rest; Some (JObj members, rest')
            end
          else if decide (c = "["%char) then
            match after "]" rest with
            | Some rest' => Some (JArr [], rest')
            | None => '(items, rest') ← read_items fuel' rest; Some (JArr items, rest')
            end
          else if decide (c = dquote) then '(t, rest') ← JSON_string rest; Some (JStr t, rest')
          else if decide (c = "n"%char) then rest' ← expect "null" s; Some (JNull, rest')
          else if decide (c = "t"%char) then rest' ← expect "true" s; Some (JBool true, rest')
          else if decide (c = "f"%char) then rest' ← expect "false" s; Some (JBool false, rest')
          else '(n, rest') ← read_number s; Some (JNum n, rest')
      end
  end
with read_items (fuel : nat) (s : string) : option (list json * string) :=
  match fuel with
  | O => None
  | S fuel' =>
      '(v, rest) ← read_value fuel' s;
      match after "," rest with
      | Some rest' => '(items, rest'') ← read_items fuel' rest'; Some (v :: items, rest'')
      | None => rest' ← after "]" rest; Some ([v], rest')
      end
  end
with read_members (fuel : nat) (acc : list (string * json)) (s : string)
    : option (list (string * json) * string) :=
  match fuel with
  | O => None
  | S fuel' =>
      rest ← after dquote s;
      '(k, rest1) ← JSON_string rest;
      rest2 ← after ":" rest1;
      '(v, rest3) ← read_value fuel' rest2;
      match after "," rest3 with
      | Some rest4 => read_members fuel' (json_set k v acc) rest4
      | None => rest4 ← after "}" rest3; Some (json_set k v acc, rest4)
      end
  end.

(** A value takes a round and each element or member one more: twice the length
    of the text is enough. *)
Definition JSON_parse (s : string) : option json :=
  match read_value (2 * String.length s) s with
  | Some (v, rest) => if decide (skip_spaces rest = EmptyString) then Some v else None
  | None => None
  end.

(** ** Numbers *)

Lemma N_go_app x s r : pretty_N_go x s +:+ r = pretty_N_go x (s +:+ r).
Proof.
  revert s. induction (N.lt_wf_0 x) as [x _ IH]; intros s.
  destruct (decide (0 < x)) as [Hx|Hx].
  - rewrite (pretty_N_go_step x s), (pretty_N_go_step x (s +:+ r)) by done. rewrite IH; [done|by apply N.div_lt].
  - replace x with 0 by lia. by rewrite !pretty_N_go_0.
Qed.

Lemma digit_of_char x : x < 10 -> digit_value (pretty_N_char x) = Some x.
Proof.
  intros Hx.
  assert (x = 0 \/ x = 1 \/ x = 2 \/ x = 3 \/ x = 4 \/ x = 5 \/ x = 6 \/ x = 7 \/ x = 8 \/ x = 9) as H by lia.
  repeat (destruct H as [->|H]; [done|]). by subst.
Qed.

Lemma read_digits_go x s : read_digits 0 (pretty_N_go x s) = read_digits x s.
Proof.
  revert s. induction (N.lt_wf_0 x) as [x _ IH]; intros s.
  destruct (decide (0 < x)) as [Hx|Hx].
  - rewrite pretty_N_go_step by done. rewrite IH by (by apply N.div_lt). simpl.
    rewrite digit_of_char by (by apply N.mod_lt). f_equal. symmetry. by apply N.div_mod.
  - replace x with 0 by lia. by rewrite pretty_N_go_0.
Qed.

(** The first digit of a positive number is not zero. *)
Lemma go_first_digit x s : 0 < x ->
  exists d s', 0 < d < 10 /\ pretty_N_go x s = String (pretty_N_char d) s'.
Proof.
  revert s. induction (N.lt_wf_0 x) as [x _ IH]; intros s Hx. rewrite pretty_N_go_step by done.
  destruct (decide (x < 10)) as [Hs|Hs].
  - rewrite N.div_small, N.mod_small, pretty_N_go_0 by done. by exists x, s.
  - apply IH; [by apply N.div_lt|]. apply N.div_str_pos. lia.
Qed.

(** What follows a number does not extend it. *)
Definition number_end (s : string) : Prop :=
  match s with String c _ => digit_value c = None | EmptyString => True end.

Lemma read_digits_end n s : number_end s -> read_digits n s = (n, s).
Proof. destruct s as [|c s]; simpl; [done|]. by intros ->. Qed.

Lemma read_natural_pretty (n : N) s : number_end s -> read_natural (pretty n +:+ s) = Some (n, s).
Proof.
  intros He. unfold pretty, pretty_N. case_decide as Hn; [by subst|].
  rewrite N_go_app, string_app_nil_l.
  pose proof (read_digits_go n s) as Hd. rewrite (read_digits_end n) in Hd by done.
  destruct (go_first_digit n s) as (d & s' & Hd9 & Heq); [lia|]. rewrite Heq in *. simpl in *.
  rewrite digit_of_char in * by lia. rewrite N.mul_0_r, N.add_0_l in Hd. destruct d; [lia|]. by rewrite Hd.
Qed.

Lemma digit_not (c d : ascii) n : digit_value c = Some n -> digit_value d = None -> c <> d.
Proof. intros Hc Hd ->. congruence. Qed.

Lemma pretty_N_first (n : N) s : exists c r x, pretty n +:+ s = String c r /\ digit_value c = Some x.
Proof.
  unfold pretty, pretty_N. case_decide as Hn; [by exists "0"%char, s, 0|]. rewrite N_go_app.
  destruct (go_first_digit n (EmptyString +:+ s)) as (d & s' & Hd & ->); [lia|].
  eexists _, _, d. split; [done|]. apply digit_of_char. lia.
Qed.

Lemma read_number_pretty (z : Z) s : number_end s -> read_number (pretty z +:+ s) = Some (z, s).
Proof.
  intros He. destruct z as [|p|p].
  - done.
  - change (pretty (Z.pos p)) with (pretty (N.pos p)).
    destruct (pretty_N_first (N.pos p) s) as (c & r & x & Heq & Hc). unfold read_number. rewrite Heq.
    rewrite decide_False by (by eapply digit_not). rewrite <- Heq.
    rewrite read_natural_pretty by done. done.
  - change (pretty (Z.neg p)) with ("-" +:+ pretty (N.pos p)).
    change ("-" +:+ pretty (N.pos p)) with (String minus_sign (pretty (N.pos p))). rewrite string_app_cons.
    unfold read_number. rewrite decide_True by done. by rewrite read_natural_pretty.
Qed.

(** ** Strings *)

Lemma read_escaped fuel c s :
  read_string (S fuel) (json_escape c +:+ s) =
    ('(t, rest) ← read_string fuel s; Some (String c t, rest)).
Proof. destruct c as [[] [] [] [] [] [] [] []]; reflexivity. Qed.

Lemma read_string_escaped s : forall fuel rest, (String.length s < fuel)%nat ->
  read_string fuel (json_escaped s +:+ String dquote rest) = Some (s, rest).
Proof.
  induction s as [|c s IH]; intros [|fuel] rest Hf; simpl in Hf; try lia; [done|].
  simpl json_escaped. rewrite string_app_assoc, read_escaped, IH by lia. done.
Qed.

Lemma escaped_length s : (String.length s <= String.length (json_escaped s))%nat.
Proof.
  induction s as [|c s IH]; simpl; [done|]. rewrite string_length_app.
  assert (1 <= String.length (json_escape c))%nat; [|lia].
  destruct c as [[] [] [] [] [] [] [] []]; vm_compute; lia.
Qed.

Lemma JSON_string_escaped s rest : JSON_string (json_escaped s +:+ String dquote rest) = Some (s, rest).
Proof.
  apply read_string_escaped. rewrite string_length_app. pose proof (escaped_length s). simpl. lia.
Qed.

Lemma json_quote_app s r : json_quote s +:+ r = String dquote (json_escaped s +:+ String dquote r).
Proof.
  unfold json_quote. rewrite string_app_cons, string_app_assoc. by rewrite string_app_cons.
Qed.

(** ** Values *)

(** The rounds a value takes. *)
Fixpoint rounds (v : json) : nat :=
  match v with
  | JArr l => S (list_sum (map (fun x => S (rounds x)) l))
  | JObj l => S (list_sum (map (fun kv => S (rounds kv.2)) l))
  | _ => 1
  end.

Lemma after_eq c s : is_json_space c = false -> after c (String c s) = Some s.
Proof. intros Hc. unfold after. simpl. rewrite Hc. by rewrite decide_True. Qed.

Lemma after_ne c d s : is_json_space d = false -> d <> c -> after c (String d s) = None.
Proof. intros Hd Hne. unfold after. simpl. rewrite Hd. by rewrite decide_False. Qed.

(** What a value may start with. *)
Definition value_start (c : ascii) : bool :=
  bool_decide (c = "{"%char) || bool_decide (c = "["%char) || bool_decide (c = dquote)
  || bool_decide (c = "n"%char) || bool_decide (c = "t"%char) || bool_decide (c = "f"%char)
  || bool_decide (c = minus_sign) || bool_decide (is_Some (digit_value c)).

Lemma value_start_plain c : value_start c = true -> is_json_space c = false /\ c <> "]"%char.
Proof. destruct c as [[] [] [] [] [] [] [] []]; vm_compute; by intros. Qed.

Lemma pretty_Z_first (z : Z) s : exists c r, pretty z +:+ s = String c r
  /\ (c = minus_sign \/ is_Some (digit_value c)).
Proof.
  destruct z as [|p|p]; [by eexists _, _; split; [done|right; eexists]| |by eexists _, _; split; [done|left]].
  change (pretty (Z.pos p)) with (pretty (N.pos p)).
  destruct (pretty_N_first (N.pos p) s) as (c & r & x & -> & Hc). exists c, r. split; [done|]. right. by exists x.
Qed.

Lemma stringify_first v s : exists c r, json_stringify v +:+ s = String c r /\ value_start c = true.
Proof.
  destruct v as [|[]|n|t|l|l]; try (by eexists _, _; split; [done|]).
  destruct (pretty_Z_first n s) as (c & r & Heq & Hc). exists c, r. split; [exact Heq|].
  unfold value_start. destruct Hc as [->|Hc]; [done|]. rewrite (bool_decide_eq_true_2 _ Hc). by rewrite orb_true_r.
Qed.

(** One round on a text that starts with the value. *)
Lemma read_value_head fuel c rest : is_json_space c = false ->
  read_value (S fuel) (String c rest) =
    (let s := String c rest in
     if decide (c = "{"%char) then
       match after "}" rest with
       | Some rest' => Some (JObj [], rest')
       | None => '(members, rest') ← read_members fuel [] rest; Some (JObj members, rest')
       end
     else if decide (c = "["%char) then
       match after "]" rest with
       | Some rest' => Some (JArr [], rest')
       | None => '(items, rest') ← read_items fuel rest; Some (JArr items, rest')
       end
     else if decide (c = dquote) then '(t, rest') ← JSON_string rest; Some (JStr t, rest')
     else if decide (c = "n"%char) then rest' ← expect "null" s; Some (JNull, rest')
     else if decide (c = "t"%char) then rest' ← expect "true" s; Some (JBool true, rest')
     else if decide (c = "f"%char) then rest' ← expect "false" s; Some (JBool false, rest')
     else '(n, rest') ← read_number s; Some (JNum n, rest')).
Proof. intros Hc. cbn [read_value skip_spaces]. by rewrite Hc. Qed.

(** A number is read when nothing else starts the text. *)
Lemma read_value_number fuel c r : c = minus_sign \/ is_Some (digit_value c) ->
  read_value (S fuel) (String c r) = ('(n, rest') ← read_number (String c r); Some (JNum n, rest')).
Proof.
  intros Hc. rewrite read_value_head.
  2: { destruct Hc as [->|[x Hx]]; [done|]. unfold is_json_space. apply bool_decide_eq_false_2.
    intros Hs. unfold digit_value in Hx. case_decide as Hd; [|done]. unfold nat_of_ascii in Hs. lia. }
  assert (H : forall d, d <> minus_sign -> digit_value d = None -> c <> d).
  { intros d Hm Hd ->. destruct Hc as [?|[? ?]]; [done|congruence]. }
  cbn zeta. by rewrite !decide_False by (by apply H).
Qed.

Lemma number_end_of c s : digit_value c = None -> number_end (String c s).
Proof. done. Qed.

Lemma json_set_fresh k v acc : json_own k acc = None -> json_set k v acc = acc ++ [(k, v)].
Proof.
  induction acc as [|[k' x] acc IH]; simpl; [done|]. case_decide; [done|]. intros Hn. by rewrite IH.
Qed.

Lemma read_items_stringify l : Forall (fun v => forall fuel rest, (rounds v <= fuel)%nat -> number_end rest ->
    read_value fuel (json_stringify v +:+ rest) = Some (v, rest)) l ->
  l <> [] -> forall fuel rest, (list_sum (map (fun x => S (rounds x)) l) <= fuel)%nat ->
  read_items fuel (join "," (map json_stringify l) +:+ String "]" rest) = Some (l, rest).
Proof.
  induction 1 as [|v l Hv Hl IH]; intros Hne fuel rest Hf; [done|]. simpl in Hf.
  destruct fuel as [|fuel]; [lia|]. destruct l as [|v' l].
  - cbn [map join read_items]. rewrite Hv; [|lia|done]. cbn [mbind option_bind].
    rewrite after_ne, after_eq by done. done.
  - change (join "," (map json_stringify (v :: v' :: l)))
      with (json_stringify v +:+ "," +:+ join "," (map json_stringify (v' :: l))).
    rewrite !string_app_assoc. cbn [read_items]. rewrite Hv; [|lia|done].
    change ("," +:+ ?x) with (String "," x). cbn [mbind option_bind]. rewrite after_eq by done.
    rewrite IH; [done|done|simpl in *; lia].
Qed.

Definition member_text (kv : string * json) : string := json_quote kv.1 +:+ ":" +:+ json_stringify kv.2.

Lemma read_members_stringify l : Forall (fun kv => forall fuel rest, (rounds kv.2 <= fuel)%nat -> number_end rest ->
    read_value fuel (json_stringify kv.2 +:+ rest) = Some (kv.2, rest)) l ->
  l <> [] -> NoDup l.*1 -> forall fuel acc rest, (forall kv, kv ∈ l -> json_own kv.1 acc = None) ->
  (list_sum (map (fun kv => S (rounds kv.2)) l) <= fuel)%nat ->
  read_members fuel acc (join "," (map member_text l) +:+ String "}" rest) = Some (acc ++ l, rest).
Proof.
  induction 1 as [|[k v] l Hv Hl IH]; intros Hne Hnd fuel acc rest Hacc Hf; [done|]. simpl in Hf, Hv.
  destruct fuel as [|fuel]; [lia|].
  assert (Hk : json_own k acc = None) by (apply (Hacc (k, v)); left).
  assert (Hfirst : forall r, read_members (S fuel) acc (member_text (k, v) +:+ r) =
    '(v', rest3) ← read_value fuel (json_stringify v +:+ r);
    match after "," rest3 with
    | Some rest4 => read_members fuel (json_set k v' acc) rest4
    | None => rest4 ← after "}" rest3; Some (json_set k v' acc, rest4)
    end).
  { intros r. unfold member_text. cbn [fst snd]. rewrite !string_app_assoc, json_quote_app. cbn [read_members].
    rewrite after_eq by done. cbn [mbind option_bind]. rewrite JSON_string_escaped. cbn [mbind option_bind].
    change (":" +:+ ?x) with (String ":" x). by rewrite after_eq. }
  destruct l as [|kv l].
  - cbn [map join]. rewrite Hfirst, Hv; [|lia|done]. cbn [mbind option_bind].
    rewrite after_ne, after_eq by done. cbn [mbind option_bind]. by rewrite json_set_fresh.
  - change (join "," (map member_text ((k, v) :: kv :: l)))
      with (member_text (k, v) +:+ "," +:+ join "," (map member_text (kv :: l))).
    rewrite !string_app_assoc, Hfirst, Hv; [|lia|done]. cbn [mbind option_bind].
    change ("," +:+ ?x) with (String "," x). rewrite after_eq, json_set_fresh by done.
    csimpl in Hnd. apply NoDup_cons in Hnd as [Hkn Hnd].
    rewrite IH; [by rewrite <- app_assoc|done|done| |simpl in *; lia].
    intros kv' Hin. apply json_own_none. rewrite fmap_app, not_elem_of_app. split.
    + apply json_own_none, Hacc. by right.
    + intros Heq%list_elem_of_singleton. apply Hkn. simpl in Heq. rewrite <- Heq.
      change (kv'.1 ∈ (kv :: l).*1). apply list_elem_of_fmap. by exists kv'.
Qed.

(** Enough rounds read a value and leave what follows it. *)
Lemma read_value_stringify v : json_wf v -> forall fuel rest, (rounds v <= fuel)%nat -> number_end rest ->
  read_value fuel (json_stringify v +:+ rest) = Some (v, rest).
Proof.
  induction v as [|b|n|s|l IH|l IH] using json_nested_ind; intros Hwf [|fuel] rest Hf He; try (simpl in Hf; lia).
  - done.
  - by destruct b.
  - destruct (pretty_Z_first n rest) as (c & r & Heq & Hc). change (json_stringify (JNum n)) with (pretty n).
    pose proof (read_number_pretty n rest He) as Hn. rewrite Heq in *.
    rewrite read_value_number, Hn by done. done.
  - change (json_stringify (JStr s)) with (json_quote s). rewrite json_quote_app.
    rewrite read_value_head by done. repeat rewrite decide_False by done. rewrite decide_True by done.
    by rewrite JSON_string_escaped.
  - destruct l as [|x l]; [done|].
    change (json_stringify (JArr (x :: l)) +:+ rest)
      with (String "[" ((join "," (map json_stringify (x :: l)) +:+ "]") +:+ rest)).
    rewrite string_app_assoc. change ("]" +:+ rest) with (String "]" rest).
    assert (Hi : read_items fuel (join "," (map json_stringify (x :: l)) +:+ String "]" rest) = Some (x :: l, rest)).
    { apply read_items_stringify; [|done|simpl in *; lia]. apply Forall_forall. intros y Hy.
      rewrite Forall_forall in IH. apply IH; [done|]. by apply (json_wf_elem (x :: l)). }
    assert (Ha : after "]" (join "," (map json_stringify (x :: l)) +:+ String "]" rest) = None).
    { assert (Hs : exists c r, join "," (map json_stringify (x :: l)) +:+ String "]" rest = String c r /\ value_start c = true).
      { destruct l as [|y l]; [apply stringify_first|].
        change (join "," (map json_stringify (x :: y :: l)))
          with (json_stringify x +:+ "," +:+ join "," (map json_stringify (y :: l))).
        rewrite !string_app_assoc. apply stringify_first. }
      destruct Hs as (c & r & -> & Hc). apply value_start_plain in Hc as [Hc Hn]. by apply after_ne. }
    rewrite read_value_head by done. rewrite decide_False, decide_True by done. by rewrite Ha, Hi.
  - destruct l as [|kv l]; [done|].
    change (json_stringify (JObj (kv :: l)) +:+ rest)
      with (String "{" ((join "," (map (fun '(k, v) => json_quote k +:+ ":" +:+ json_stringify v) (kv :: l)) +:+ "}") +:+ rest)).
    rewrite string_app_assoc. change ("}" +:+ rest) with (String "}" rest).
    replace (map (fun '(k, v) => json_quote k +:+ ":" +:+ json_stringify v) (kv :: l))
      with (map member_text (kv :: l)) by (apply map_ext; by intros []).
    assert (Hi : read_members fuel [] (join "," (map member_text (kv :: l)) +:+ String "}" rest) = Some (kv :: l, rest)).
    { apply (read_members_stringify (kv :: l)); [|done|apply Hwf|done|simpl in *; lia]. apply Forall_forall.
      intros y Hy. rewrite Forall_forall in IH. apply IH; [done|]. by apply (json_wf_member (kv :: l)). }
    assert (Ha : after "}" (join "," (map member_text (kv :: l)) +:+ String "}" rest) = None).
    { destruct kv as [k v]. destruct l; simpl; unfold member_text at 1; simpl; rewrite ?string_app_assoc, json_quote_app;
        by apply after_ne. }
    rewrite read_value_head by done. rewrite decide_True by done. by rewrite Ha, Hi.
Qed.

Lemma joined_length (l : list string) :
  (list_sum (map (fun s => S (String.length s)) l) <= S (String.length (join "," l)))%nat.
Proof.
  induction l as [|s [|s' l] IH]; [simpl; lia..|].
  change (join "," (s :: s' :: l)) with (s +:+ "," +:+ join "," (s' :: l)).
  rewrite !string_length_app. simpl in *. lia.
Qed.

Lemma list_sum_le {A} (f g : A -> nat) (l : list A) :
  Forall (fun x => (f x <= g x)%nat) l -> (list_sum (map f l) <= list_sum (map g l))%nat.
Proof. induction 1; simpl in *; lia. Qed.

Lemma list_sum_double {A} (f : A -> nat) (l : list A) :
  list_sum (map (fun x => 2 * f x)%nat l) = (2 * list_sum (map f l))%nat.
Proof. induction l as [|x l IH]; simpl in *; lia. Qed.

Lemma rounds_length v : (rounds v <= 2 * String.length (json_stringify v))%nat.
Proof.
  assert (Hlist : forall {A} (f : A -> nat) (g : A -> string) l,
    Forall (fun x => (f x <= 2 * String.length (g x))%nat) l ->
    (list_sum (map (fun x => S (f x)) l) <= 2 * S (String.length (join "," (map g l))))%nat).
  { intros A f g l H. etrans; [apply (list_sum_le _ (fun x => 2 * S (String.length (g x)))%nat)|].
    - eapply Forall_impl; [exact H|]. simpl. intros. lia.
    - rewrite list_sum_double. pose proof (joined_length (map g l)) as Hj. rewrite map_map in Hj. lia. }
  induction v as [|[]|n|s|l IH|l IH] using json_nested_ind.
  1-3: simpl; lia.
  - destruct (pretty_Z_first n "") as (c & r & Heq & _). simpl. rewrite string_app_nil_r in Heq.
    rewrite Heq. simpl. lia.
  - simpl. lia.
  - specialize (Hlist _ rounds json_stringify l IH).
    change (json_stringify (JArr l)) with ("[" +:+ join "," (map json_stringify l) +:+ "]").
    rewrite !string_length_app. simpl in *. lia.
  - assert (H : Forall (fun kv => (rounds kv.2 <= 2 * String.length (member_text kv))%nat) l).
    { eapply Forall_impl; [exact IH|]. intros [k v] Hv. unfold member_text. rewrite !string_length_app. simpl in *. lia. }
    specialize (Hlist _ (fun kv => rounds kv.2) member_text l H).
    change (json_stringify (JObj l))
      with ("{" +:+ join "," (map (fun '(k, v) => json_quote k +:+ ":" +:+ json_stringify v) l) +:+ "}").
    rewrite (map_ext (fun '(k, v) => json_quote k +:+ ":" +:+ json_stringify v) member_text) by (by intros []).
    rewrite !string_length_app. simpl in *. lia.
Qed.

(** ** Reading back what was written *)

(** [JSON.parse(JSON.stringify(v))] is [v], for every value whose objects
    have distinct members: what a column or a setting keeps is what is read. *)
Theorem JSON_parse_stringify (v : json) (Hwf : json_wf v) : JSON_parse (json_stringify v) = Some v.
Proof.
  unfold JSON_parse. pose proof (read_value_stringify v Hwf _ "" (rounds_length v) I) as H.
  rewrite string_app_nil_r in H. by rewrite H.
Qed.

(** Nested members, a negative number, an escaped string and a control character. *)
Lemma JSON_parse_stringify_witness :
  let v := JObj [("policy", JStr "sso_only"); ("n", JArr [JNum (-20); JBool true; JNull]);
                 (String dquote (String (ascii_of_nat 10) EmptyString), JObj [])] in
  json_stringify v <> "" /\ JSON_parse (json_stringify v) = Some v.
Proof. intros v. split; [vm_compute; discriminate|]. apply JSON_parse_stringify. vm_compute. repeat constructor; set_solver. Defined.
