(* ===== verification/Regexp.v ===== *)
(** * Regular expressions

    The patterns the code tests text against: anchored at both ends, without
    groups that capture, back references or look-around. [in_re] is the
    language of a pattern, [re_test] decides it by derivatives, and
    [re_test_spec] says that they agree. *)

From S2P Require Import Prelude.

Inductive regexp : Type :=
| RNone
| REmpty
| RClass (p : Ascii.ascii -> bool)
| RSeq (r1 r2 : regexp)
| RAlt (r1 r2 : regexp)
| RStar (r : regexp).

(** [r+], [r?] and [r{0,n}]. *)
Definition RPlus (r : regexp) : regexp := RSeq r (RStar r).
Definition ROpt (r : regexp) : regexp := RAlt REmpty r.
Fixpoint RUpTo (n : nat) (r : regexp) : regexp :=
  match n with O => REmpty | S n' => ROpt (RSeq r (RUpTo n' r)) end.

(** A character written as itself. *)
Definition RChar (c : Ascii.ascii) : regexp := RClass (fun c' => bool_decide (c' = c)).

(** The words of a pattern. *)
Inductive in_re : regexp -> string -> Prop :=
| in_empty : in_re REmpty EmptyString
| in_class p c : p c = true -> in_re (RClass p) (String c EmptyString)
| in_seq r1 r2 s1 s2 : in_re r1 s1 -> in_re r2 s2 -> in_re (RSeq r1 r2) (s1 +:+ s2)
| in_alt_l r1 r2 s : in_re r1 s -> in_re (RAlt r1 r2) s
| in_alt_r r1 r2 s : in_re r2 s -> in_re (RAlt r1 r2) s
| in_star_nil r : in_re (RStar r) EmptyString
| in_star_cons r s1 s2 : in_re r s1 -> in_re (RStar r) s2 -> in_re (RStar r) (s1 +:+ s2).

#[export] Hint Constructors in_re : nexus.

Fixpoint nullable (r : regexp) : bool :=
  match r with
  | RNone | RClass _ => false
  | REmpty | RStar _ => true
  | RSeq r1 r2 => nullable r1 && nullable r2
  | RAlt r1 r2 => nullable r1 || nullable r2
  end.

(** What may follow the character [c]. *)
Fixpoint derive (c : Ascii.ascii) (r : regexp) : regexp :=
  match r with
  | RNone | REmpty => RNone
  | RClass p => if p c then REmpty else RNone
  | RSeq r1 r2 =>
      if nullable r1 then RAlt (RSeq (derive c r1) r2) (derive c r2) else RSeq (derive c r1) r2
  | RAlt r1 r2 => RAlt (derive c r1) (derive c r2)
  | RStar r1 => RSeq (derive c r1) (RStar r1)
  end.

(** [/^...$/.test(s)]. *)
Fixpoint re_test (r : regexp) (s : string) : bool :=
  match s with
  | EmptyString => nullable r
  | String c s' => re_test (derive c r) s'
  end.

(** ** The test decides the language *)

Lemma nullable_spec (r : regexp) : nullable r = true <-> in_re r EmptyString.
Proof.
  split.
  - induction r; simpl; intros H; bool_to_prop; eauto with nexus; try done.
    + apply (in_seq r1 r2 EmptyString EmptyString); auto.
    + destruct H; eauto with nexus.
  - remember EmptyString as s eqn:Hs. induction 1; simpl; try done;
      try (apply string_app_eq_nil in Hs as [-> ->]);
      rewrite ?IHin_re1, ?IHin_re2, ?IHin_re, ?orb_true_r by done; done.
Qed.

Lemma derive_sound (r : regexp) (c : Ascii.ascii) (s : string) :
  in_re (derive c r) s -> in_re r (String c s).
Proof.
  revert s. induction r as [| |p|r1 IH1 r2 IH2|r1 IH1 r2 IH2|r IH]; simpl; intros s H.
  - inversion H.
  - inversion H.
  - destruct (p c) eqn:Hp; inversion H; subst. by constructor.
  - assert (Hseq : forall s', in_re (RSeq (derive c r1) r2) s' -> in_re (RSeq r1 r2) (String c s')).
    { intros s' Hs. inversion Hs; subst.
      apply (in_seq r1 r2 (String c s1) s2); eauto. }
    destruct (nullable r1) eqn:Hn; [|by apply Hseq].
    inversion H; subst; [by apply Hseq|].
    apply nullable_spec in Hn. apply (in_seq r1 r2 EmptyString (String c s)); eauto.
  - inversion H; subst; eauto with nexus.
  - inversion H; subst. apply (in_star_cons r (String c s1) s2); eauto.
Qed.

Lemma derive_complete (r : regexp) (c : Ascii.ascii) (s : string) :
  in_re r (String c s) -> in_re (derive c r) s.
Proof.
  remember (String c s) as cs eqn:Hcs. intros H. revert c s Hcs.
  induction H as [|p c' Hp|r1 r2 s1 s2 H1 IH1 H2 IH2|r1 r2 s H IH|r1 r2 s H IH|r
                 |r s1 s2 H1 IH1 H2 IH2]; simpl; intros c s0 Hcs; simplify_eq/=.
  - rewrite Hp. constructor.
  - destruct s1 as [|c1 s1]; [|rewrite string_app_cons in Hcs]; simplify_eq/=.
    + apply nullable_spec in H1. rewrite H1. apply in_alt_r. auto.
    + destruct (nullable r1); [apply in_alt_l|]; constructor; auto.
  - apply in_alt_l; auto.
  - apply in_alt_r; auto.
  - destruct s1 as [|c1 s1]; [|rewrite string_app_cons in Hcs]; simplify_eq/=; [by auto|].
    constructor; auto.
Qed.

Lemma re_test_spec (r : regexp) (s : string) : re_test r s = true <-> in_re r s.
Proof.
  revert r. induction s as [|c s IH]; intros r; simpl; [apply nullable_spec|].
  rewrite IH. split; [apply derive_sound|apply derive_complete].
Qed.

(** ** Repeated classes *)

Fixpoint string_all (p : Ascii.ascii -> bool) (s : string) : bool :=
  match s with
  | EmptyString => true
  | String c s' => p c && string_all p s'
  end.

Lemma string_all_app (p : Ascii.ascii -> bool) (s1 s2 : string) :
  string_all p (s1 +:+ s2) = string_all p s1 && string_all p s2.
Proof. induction s1 as [|c s1 IH]; simpl; [done|]. by rewrite IH, andb_assoc. Qed.

Lemma in_class_inv (p : Ascii.ascii -> bool) (s : string) :
  in_re (RClass p) s -> exists c, s = String c EmptyString /\ p c = true.
Proof. inversion 1; subst. eauto. Qed.

Lemma in_star_class (p : Ascii.ascii -> bool) (s : string) :
  in_re (RStar (RClass p)) s <-> string_all p s = true.
Proof.
  split.
  - remember (RStar (RClass p)) as r eqn:Hr. induction 1; simplify_eq/=; [done|].
    rename select (in_re (RClass p) _) into H1. apply in_class_inv in H1 as (c & -> & Hp).
    simpl. rewrite Hp. by apply IHin_re2.
  - induction s as [|c s IH]; simpl; intros H; [constructor|]. bool_to_prop.
    apply (in_star_cons (RClass p) (String c EmptyString) s); auto with nexus.
Qed.

Lemma in_plus_class (p : Ascii.ascii -> bool) (s : string) :
  in_re (RPlus (RClass p)) s <-> s <> EmptyString /\ string_all p s = true.
Proof.
  split.
  - inversion 1; subst. rename select (in_re (RClass p) _) into H1.
    apply in_class_inv in H1 as (c & -> & Hp). simpl. rewrite Hp. split; [done|].
    by apply in_star_class.
  - intros [Hne Hall]. destruct s as [|c s]; [done|]. simpl in Hall. bool_to_prop.
    apply (in_seq (RClass p) _ (String c EmptyString) s); [by constructor|by apply in_star_class].
Qed.

Lemma in_char (c : Ascii.ascii) (s : string) : in_re (RChar c) s <-> s = String c EmptyString.
Proof.
  split.
  - intros (c' & -> & Hc)%in_class_inv. by bool_to_prop; subst.
  - intros ->. constructor. by apply bool_decide_eq_true_2.
Qed.

Lemma in_seq_inv (r1 r2 : regexp) (s : string) :
  in_re (RSeq r1 r2) s <-> exists s1 s2, s = s1 +:+ s2 /\ in_re r1 s1 /\ in_re r2 s2.
Proof.
  split; [inversion 1; subst; eauto|]. intros (s1 & s2 & -> & H1 & H2). by constructor.
Qed.
