(* ===== verification/OpenApi.v ===== *)
(** * OpenAPI references and parameters

    [shared/src/openapi.ts]: JSON pointers, the resolver that follows local
    references with a memo, the identity of a parameter with its own memo, and
    the parameters an operation inherits from its path item. Documents are
    trees: the object a pointer names is known by the place it has in the
    document, which stands for its identity. *)

From Stdlib Require Import Ascii.
From S2P Require Import Prelude Json Regexp.
Open Scope Z_scope.

Definition MAX_SPEC_DEPTH : Z := 200.
Definition MAX_OPENAPI_REF_HOPS : Z := 32.
Definition MAX_OPENAPI_POINTER_SEGMENTS : Z := MAX_SPEC_DEPTH.
Definition MAX_OPENAPI_REF_LENGTH : Z := 2048.

(** ** Pointers *)

(** Where a value is in its document: the keys and indices that lead to it. *)
Inductive place_step : Type := Member (key : string) | Element (index : nat).

#[export] Instance place_step_eq_dec : EqDecision place_step.
Proof. solve_decision. Defined.

#[export] Instance place_step_countable : Countable place_step.
Proof.
  apply (inj_countable' (fun s => match s with Member k => inl k | Element i => inr i end)
                        (fun s => match s with inl k => Member k | inr i => Element i end)).
  by intros [].
Defined.

Abbreviation place := (list place_step).

(** A value of the document, and an object of it. *)
Abbreviation node := (place * json)%type.
Abbreviation object := (place * list (string * json))%type.

Definition unhex_digit (c : ascii) : option nat :=
  let n := nat_of_ascii c in
  if decide (48 <= n <= 57)%nat then Some (n - 48)%nat
  else if decide (65 <= n <= 70)%nat then Some (n - 55)%nat
  else if decide (97 <= n <= 102)%nat then Some (n - 87)%nat
  else None.

(** [decodeURIComponent]; [None] when it throws, and for text outside ASCII,
    which names no member of an ASCII document. *)
Fixpoint decodeURIComponent (s : string) : option string :=
  match s with
  | EmptyString => Some EmptyString
  | String "%" (String hi (String lo rest)) =>
      match unhex_digit hi, unhex_digit lo with
      | Some h, Some l =>
          if decide (16 * h + l < 128)%nat
          then String (ascii_of_nat (16 * h + l)) <$> decodeURIComponent rest else None
      | _, _ => None
      end
  | String "%" _ => None
  | String c rest => String c <$> decodeURIComponent rest
  end.

(** [s.replace(/ab/g, r)]. *)
Fixpoint replace_pair (a b : ascii) (r : string) (s : string) : string :=
  match s with
  | String x ((String y rest) as tail) =>
      if decide (x = a /\ y = b) then r +:+ replace_pair a b r rest
      else String x (replace_pair a b r tail)
  | _ => s
  end.

Definition unescape_segment (decoded : string) : string :=
  replace_pair "~" "0" "~" (replace_pair "~" "1" "/" decoded).

Definition is_digit (c : ascii) : bool := bool_decide (48 <= nat_of_ascii c <= 57)%nat.

(** [0], or digits that do not start with [0]. *)
Definition ARRAY_INDEX : regexp :=
  RAlt (RChar "0")
    (RSeq (RClass (fun c => is_digit c && negb (bool_decide (c = "0"%char)))) (RStar (RClass is_digit))).

(** [Number(s)] for a string of digits. *)
Definition decimal_value (s : string) : Z :=
  (fix go (acc : Z) (s : string) := match s with
   | EmptyString => acc
   | String c s' => go (10 * acc + Z.of_nat (nat_of_ascii c - 48)) s'
   end) 0 s.

(** One step of the walk: an element of an array or an own member. *)
Definition pointer_step (current : node) (segment : string) : option node :=
  match current with
  | (at_, JArr items) =>
      if re_test ARRAY_INDEX segment
      then let index := decimal_value segment in
           if decide (Z.of_nat (length items) <= index) then None
           else (fun v => (at_ ++ [Element (Z.to_nat index)], v)) <$> items !! Z.to_nat index
      else None
  | (at_, JObj members) => (fun v => (at_ ++ [Member segment], v)) <$> json_own segment members
  | _ => None
  end.

Record OpenApiResolveStats : Type := { pointerLookups : Z; pointerSegments : Z }.

(** The walk over the segments, and how many of them it decoded. *)
Fixpoint walk_segments (current : node) (segments : list string) (count : Z) : option node * Z :=
  match segments with
  | [] => (Some current, count)
  | rawSegment :: rest =>
      match decodeURIComponent rawSegment with
      | None => (None, count + 1)
      | Some decoded =>
          match pointer_step current (unescape_segment decoded) with
          | None => (None, count + 1)
          | Some next => walk_segments next rest (count + 1)
          end
      end
  end.

Definition slash : ascii := "/"%char.

Fixpoint count_char (c : ascii) (s : string) : Z :=
  match s with
  | EmptyString => 0
  | String a s' => (if decide (a = c) then 1 else 0) + count_char c s'
  end.

(** [walkPointer], with the counters it adds to. *)
Definition walkPointer (document : json) (ref : string) (stats : OpenApiResolveStats)
    : option node * OpenApiResolveStats :=
  let lookups := pointerLookups stats + 1 in
  let none := (None, {| pointerLookups := lookups; pointerSegments := pointerSegments stats |}) in
  if decide (MAX_OPENAPI_REF_LENGTH < Z.of_nat (String.length ref)) then none
  else if decide (ref = "#"%string)
  then (Some ([], document), {| pointerLookups := lookups; pointerSegments := pointerSegments stats |})
  else if negb (startsWith "#/" ref) then none
  else if decide (MAX_OPENAPI_POINTER_SEGMENTS < 1 + count_char slash (slice_from 2 ref)) then none
  else
    let '(found, count) := walk_segments ([], document) (split_on slash (slice_from 2 ref)) 0 in
    (found, {| pointerLookups := lookups; pointerSegments := pointerSegments stats + count |}).

Definition no_stats : OpenApiResolveStats := {| pointerLookups := 0; pointerSegments := 0 |}.

Definition resolveOpenApiPointer (document : json) (ref : string) : option json :=
  snd <$> fst (walkPointer document ref no_stats).

(** ** References *)

Definition openApiRefOf (members : list (string * json)) : option string :=
  json_string (json_own "$ref" members).

(** The leading digits of a text, and the rest. *)
Fixpoint take_digits (s : string) : string * string :=
  match s with
  | String c s' => if is_digit c then (String c (fst (take_digits s')), snd (take_digits s'))
                   else (EmptyString, s)
  | EmptyString => (EmptyString, EmptyString)
  end.

(** [/^(\d+)\.(\d+)/.exec(s)]. *)
Definition major_minor (s : string) : option (Z * Z) :=
  match take_digits s with
  | ((String _ _) as major, String "." rest) =>
      match take_digits rest with
      | ((String _ _) as minor, _) => Some (decimal_value major, decimal_value minor)
      | _ => None
      end
  | _ => None
  end.

Definition openApiRefSiblingsApply (specVersion : option string) : bool :=
  match specVersion ≫= (fun v => major_minor (trim v)) with
  | Some (major, minor) =>
      bool_decide (3 < major) || (bool_decide (major = 3) && bool_decide (1 <= minor))
  | None => false
  end.

Inductive OpenApiRefFailure : Type := External | Missing | Cycle | Depth.

#[export] Instance OpenApiRefFailure_eq_dec : EqDecision OpenApiRefFailure.
Proof. solve_decision. Defined.

Record OpenApiRefOverrides : Type := {
  ov_summary : option string;
  ov_description : option string;
}.

Definition NO_OVERRIDES : OpenApiRefOverrides := {| ov_summary := None; ov_description := None |}.

Inductive OpenApiRefResolution : Type :=
| Resolved (value : object) (overrides : OpenApiRefOverrides)
| Unresolved (ref : string) (reason : OpenApiRefFailure).

(** [length] counts the lookups the chain takes. *)
Inductive ChainOutcome : Type :=
| Leads (value : object) (overrides : OpenApiRefOverrides) (length : Z)
| Fails (ref : string) (reason : OpenApiRefFailure) (length : Z).

Definition outcome_length (o : ChainOutcome) : Z :=
  match o with Leads _ _ n | Fails _ _ n => n end.

Definition own_text (key : string) (members : list (string * json)) : option string :=
  json_string (json_own key members).

Definition mergeOverrides (outer : list (string * json)) (inner : OpenApiRefOverrides)
    : OpenApiRefOverrides := {|
  ov_summary := match own_text "summary" outer with Some s => Some s | None => ov_summary inner end;
  ov_description :=
    match own_text "description" outer with Some s => Some s | None => ov_description inner end;
|}.

(** A resolver's state: its memo, and the counters of its caller. *)
Record resolver : Type := {
  r_outcomes : gmap string ChainOutcome;
  r_stats : OpenApiResolveStats;
}.

Definition memoise (ref : string) (o : ChainOutcome) (r : resolver) : resolver :=
  {| r_outcomes := <[ref := o]> (r_outcomes r); r_stats := r_stats r |}.

Section Resolver.
Context (document : json) (siblingsApply : bool).

(** A link of the chain being followed: the reference and the object it names. *)
Abbreviation link := (string * list (string * json))%type.

(** What a chain's outcome is one link earlier. *)
Definition extend_outcome (target : list (string * json)) (tail : ChainOutcome) : ChainOutcome :=
  match tail with
  | Leads value overrides n =>
      Leads value (if siblingsApply then mergeOverrides target overrides else NO_OVERRIDES) (n + 1)
  | Fails ref Cycle n => Fails ref Cycle n
  | Fails ref reason n => Fails ref reason (n + 1)
  end.

(** [onChain.get(ref)]. *)
Definition on_chain (ref : string) (chain : list link) : option nat :=
  fst <$> list_find (fun l => l.1 = ref) chain.

(** The loop of [follow]: the chain it leaves and the outcome at its end. *)
Fixpoint follow_loop (fuel : nat) (r : resolver) (chain : list link) (ref : string)
    : option (resolver * list link * ChainOutcome) :=
  match fuel with
  | O => None
  | S fuel' =>
      match r_outcomes r !! ref with
      | Some memoised => Some (r, chain, memoised)
      | None =>
          match on_chain ref chain with
          | Some cycleStart =>
              let r' := fold_left (fun r l => memoise l.1 (Fails l.1 Cycle 0) r)
                          (drop cycleStart chain) r in
              (fun tail => (r', take cycleStart chain, tail)) <$> r_outcomes r' !! ref
          | None =>
              if negb (startsWith "#" ref)
              then Some (memoise ref (Fails ref External 0) r, chain, Fails ref External 0)
              else
                let '(found, stats) := walkPointer document ref (r_stats r) in
                let r := {| r_outcomes := r_outcomes r; r_stats := stats |} in
                match found with
                | Some (at_, JObj target) =>
                    match openApiRefOf target with
                    | None =>
                        let tail := Leads (at_, target) NO_OVERRIDES 1 in
                        Some (memoise ref tail r, chain, tail)
                    | Some next => follow_loop fuel' r (chain ++ [(ref, target)]) next
                    end
                | _ => Some (memoise ref (Fails ref Missing 1) r, chain, Fails ref Missing 1)
                end
          end
      end
  end.

(** Back along the chain, from its last link. *)
Fixpoint unwind (links : list link) (r : resolver) (tail : ChainOutcome) : resolver :=
  match links with
  | [] => r
  | (ref, target) :: rest =>
      let tail := extend_outcome target tail in
      unwind rest (memoise ref tail r) tail
  end.

Definition follow (fuel : nat) (r : resolver) (start : string) : option (resolver * ChainOutcome) :=
  match r_outcomes r !! start with
  | Some known => Some (r, known)
  | None =>
      match follow_loop fuel r [] start with
      | Some (r, chain, tail) =>
          let r := unwind (reverse chain) r tail in
          (fun o => (r, o)) <$> r_outcomes r !! start
      | None => None
      end
  end.

(** What [resolve] answers for a reference whose chain has the outcome. *)
Definition resolution_of (value : object) (ref : string) (outcome : ChainOutcome)
    : OpenApiRefResolution :=
  if decide (MAX_OPENAPI_REF_HOPS < outcome_length outcome) then Unresolved ref Depth
  else match outcome with
       | Fails ref' reason _ => Unresolved ref' reason
       | Leads target overrides _ =>
           Resolved target (if siblingsApply then mergeOverrides value.2 overrides else NO_OVERRIDES)
       end.

Definition resolve (fuel : nat) (r : resolver) (value : object)
    : option (resolver * OpenApiRefResolution) :=
  match openApiRefOf value.2 with
  | None => Some (r, Resolved value NO_OVERRIDES)
  | Some ref => (fun '(r, o) => (r, resolution_of value ref o)) <$> follow fuel r ref
  end.

(** ** The reference definition

    What one chain of references leads to, without a memo: the references met so
    far are remembered, so a loop is noticed where it closes. *)

Inductive hop : Type :=
| Ends (o : ChainOutcome)
| Hops (target : list (string * json)) (next : string).

Definition hop_of (ref : string) : hop :=
  if negb (startsWith "#" ref) then Ends (Fails ref External 0)
  else match fst (walkPointer document ref no_stats) with
       | Some (at_, JObj target) =>
           match openApiRefOf target with
           | None => Ends (Leads (at_, target) NO_OVERRIDES 1)
           | Some next => Hops target next
           end
       | _ => Ends (Fails ref Missing 1)
       end.

Fixpoint chase (fuel : nat) (visited : list string) (ref : string) : option ChainOutcome :=
  match fuel with
  | O => None
  | S fuel' =>
      if decide (ref ∈ visited) then Some (Fails ref Cycle 0)
      else match hop_of ref with
           | Ends o => Some o
           | Hops target next => extend_outcome target <$> chase fuel' (ref :: visited) next
           end
  end.
End Resolver.

(** [resolve] by that definition. *)
Definition resolve_afresh (document : json) (siblingsApply : bool) (fuel : nat) (value : object)
    : option OpenApiRefResolution :=
  match openApiRefOf value.2 with
  | None => Some (Resolved value NO_OVERRIDES)
  | Some ref => resolution_of siblingsApply value ref <$> chase document siblingsApply fuel [] ref
  end.

(** The calls of one resolver, in order. *)
Fixpoint resolve_all (document : json) (siblingsApply : bool) (fuel : nat) (r : resolver)
    (values : list object) : option (resolver * list OpenApiRefResolution) :=
  match values with
  | [] => Some (r, [])
  | value :: rest =>
      match resolve document siblingsApply fuel r value with
      | None => None
      | Some (r, resolution) =>
          (fun '(r, resolutions) => (r, resolution :: resolutions)) <$>
            resolve_all document siblingsApply fuel r rest
      end
  end.

Definition new_resolver (stats : OpenApiResolveStats) : resolver :=
  {| r_outcomes := ∅; r_stats := stats |}.

(** ** Every reference of a document *)

(** The [$ref] strings of every object of the value. *)
Fixpoint refs_of (v : json) : list string :=
  match v with
  | JArr l => (fix all l := match l with [] => [] | x :: l' => refs_of x ++ all l' end) l
  | JObj l =>
      option_list (openApiRefOf l) ++
      (fix all l := match l with [] => [] | (_, x) :: l' => refs_of x ++ all l' end) l
  | _ => []
  end.

(** Enough for a chain from any reference: each link but the first was written
    in the document. *)
Definition follow_fuel (document : json) : nat := length (refs_of document) + 2.

(** ** Parameters *)

Section Parameters.
(** [compact], as the keyer's caller passes it: the identity when it does not. *)
Context (compact : string -> string).

Definition parameterKey (location name : string) : string :=
  let folded := if decide (location = "header"%string) then toLowerCase name else name in
  let where_ := compact location in
  pretty (Z.of_nat (String.length where_)) +:+ ":" +:+ where_ +:+
    String zero (compact folded).

(** [parameterKeyOf], with the code units it charges for. *)
Definition parameterKeyOf (resolution : option OpenApiRefResolution) : option (string * Z) :=
  match resolution with
  | Some (Resolved value _) =>
      match own_text "name" value.2, own_text "in" value.2 with
      | Some name, Some location =>
          Some (parameterKey location name,
                Z.of_nat (String.length location) + Z.of_nat (String.length name))
      | _, _ => None
      end
  | _ => None
  end.
End Parameters.

Record KeyedOpenApiParameter : Type := {
  kp_parameter : json;
  kp_resolution : option OpenApiRefResolution;
  kp_key : option string;
  kp_inherited : bool;
}.

Definition mergeOpenApiParameters (pathParameters operationParameters : list KeyedOpenApiParameter)
    : list KeyedOpenApiParameter :=
  let overridden := omap kp_key operationParameters in
  List.filter (fun entry => match kp_key entry with
                            | None => true
                            | Some key => negb (bool_decide (key ∈ overridden))
                            end) pathParameters ++ operationParameters.

(** [keyOf] of a keyer: the identity, what [onKey] is charged for it (nothing for
    an object keyed before), and the identities read so far, by object. *)
Definition keyOf (compact : string -> string) (keys : gmap place (option string))
    (resolution : option OpenApiRefResolution)
    : option string * option Z * gmap place (option string) :=
  match resolution with
  | Some (Resolved value _) =>
      match keys !! value.1 with
      | Some known => (known, None, keys)
      | None =>
          let key := parameterKeyOf compact resolution in
          (fst <$> key, snd <$> key, <[value.1 := fst <$> key]> keys)
      end
  | _ => (None, None, keys)
  end.

(** ** Following a chain *)

Section ResolverFacts.
Context (document : json) (siblingsApply : bool).

Abbreviation at_hop := (hop_of document).
Abbreviation extend := (extend_outcome siblingsApply).
Abbreviation link := (string * list (string * json))%type.

(** What [chase] computes, as a relation. *)
Inductive chases : list string -> string -> ChainOutcome -> Prop :=
| chases_cycle visited ref : ref ∈ visited -> chases visited ref (Fails ref Cycle 0)
| chases_ends visited ref o : ref ∉ visited -> at_hop ref = Ends o -> chases visited ref o
| chases_hops visited ref target next o :
    ref ∉ visited -> at_hop ref = Hops target next ->
    chases (ref :: visited) next o -> chases visited ref (extend target o).

Lemma chases_det visited ref o1 o2 : chases visited ref o1 -> chases visited ref o2 -> o1 = o2.
Proof.
  intros H. revert o2. induction H as [| |v r t n o Hv Hh _ IH]; intros o2 H2; inversion H2; subst;
    try done; try congruence. f_equal; [congruence|]. apply IH. congruence.
Qed.

Lemma chase_sound fuel visited ref o :
  chase document siblingsApply fuel visited ref = Some o -> chases visited ref o.
Proof.
  revert visited ref o. induction fuel as [|fuel IH]; intros visited ref o; simpl; [done|].
  case_decide as Hv; [intros [= <-]; by constructor|].
  destruct (hop_of document ref) as [o'|target next] eqn:Hh.
  - intros [= <-]. by constructor.
  - destruct (chase _ _ fuel (ref :: visited) next) as [o'|] eqn:Hc; [|done]. intros [= <-].
    eapply chases_hops; eauto.
Qed.

(** The references a chain from [ref] passes through. *)
Inductive reaches : string -> string -> Prop :=
| reaches_refl ref : reaches ref ref
| reaches_hop ref target next ref' :
    at_hop ref = Hops target next -> reaches next ref' -> reaches ref ref'.

Lemma chases_visited visited visited' ref o :
  chases visited ref o ->
  (forall x, reaches ref x -> x ∈ visited <-> x ∈ visited') ->
  chases visited' ref o.
Proof.
  intros H. revert visited'. induction H as [v r Hv|v r o Hv Hh|v r t n o Hv Hh Hc IH]; intros v' Heq.
  - constructor. apply Heq; [constructor|done].
  - constructor; [|done]. rewrite <- Heq; [done|constructor].
  - eapply chases_hops; [|done|].
    + rewrite <- Heq; [done|constructor].
    + apply IH. intros x Hx. rewrite !elem_of_cons, Heq; [done|]. by eapply reaches_hop.
Qed.

(** [walks links from to]: the links are the hops from [from] to [to]. *)
Fixpoint walks (links : list link) (from to : string) : Prop :=
  match links with
  | [] => from = to
  | (ref, target) :: rest => from = ref /\ exists next, at_hop ref = Hops target next /\ walks rest next to
  end.

Lemma walks_app l1 l2 from to :
  walks (l1 ++ l2) from to <-> exists mid, walks l1 from mid /\ walks l2 mid to.
Proof.
  revert from. induction l1 as [|[ref target] l1 IH]; intros from; simpl.
  - split; [by eauto|by intros (mid & -> & ?)].
  - setoid_rewrite IH. naive_solver.
Qed.

Lemma walks_snoc links ref target from next :
  walks links from ref -> at_hop ref = Hops target next -> walks (links ++ [(ref, target)]) from next.
Proof. intros Hw Hh. apply walks_app. exists ref. simpl. eauto. Qed.

Lemma walks_reaches links from to : walks links from to -> reaches from to.
Proof.
  revert from. induction links as [|[ref target] links IH]; intros from; simpl.
  - intros ->. constructor.
  - intros (-> & next & Hh & Hw). eapply reaches_hop; eauto.
Qed.

(** Walking a chain that runs into a reference already met. *)
Lemma walks_cycle links visited from to :
  walks links from to -> NoDup links.*1 -> (forall l, l ∈ links -> l.1 ∉ visited) ->
  to ∈ links.*1 ++ visited -> chases visited from (Fails to Cycle 0).
Proof.
  revert visited from. induction links as [|[ref target] links IH]; intros visited from; csimpl.
  - intros -> _ _ Hto. by constructor.
  - intros (-> & next & Hh & Hw) Hnd Hdis Hto. apply NoDup_cons in Hnd as [Hnew Hnd].
    change (Fails to Cycle 0) with (extend target (Fails to Cycle 0)).
    eapply chases_hops; [|done|].
    + apply (Hdis (ref, target)). left.
    + apply IH; [done|done| |set_solver].
      intros l Hl. rewrite not_elem_of_cons. split; [|apply Hdis; by right].
      intros Heq. apply Hnew. rewrite <- Heq. apply list_elem_of_fmap. eauto.
Qed.

(** ** The memo *)

(** Every outcome a resolver has memoised is that of a chain followed afresh, and
    the memo is closed under following. *)
Definition memo_ok (m : gmap string ChainOutcome) : Prop :=
  forall ref o, m !! ref = Some o ->
    chases [] ref o /\ forall target next, at_hop ref = Hops target next -> is_Some (m !! next).

Lemma memo_ok_empty : memo_ok ∅.
Proof. intros ref o. by rewrite lookup_empty. Qed.

Lemma memo_closed m ref x : memo_ok m -> is_Some (m !! ref) -> reaches ref x -> is_Some (m !! x).
Proof.
  intros Hm Hin Hr. induction Hr as [|r t n x Hh _ IH]; [done|]. apply IH.
  destruct Hin as [o Ho]. by eapply Hm.
Qed.

Lemma memo_ok_insert m ref o :
  memo_ok m -> chases [] ref o ->
  (forall target next, at_hop ref = Hops target next -> is_Some (<[ref := o]> m !! next)) ->
  memo_ok (<[ref := o]> m).
Proof.
  intros Hm Hc Hn r o'. destruct (decide (r = ref)) as [->|Hne].
  - rewrite lookup_insert_eq. intros [= <-]. eauto.
  - rewrite lookup_insert_ne by done. intros Hr. destruct (Hm _ _ Hr) as [Hcr Hnr]. split; [done|].
    intros t n Hh. destruct (decide (n = ref)) as [->|]; [by rewrite lookup_insert_eq|].
    rewrite lookup_insert_ne by done. eauto.
Qed.

Lemma memo_ok_ends m ref o : memo_ok m -> at_hop ref = Ends o -> memo_ok (<[ref := o]> m).
Proof.
  intros Hm Hh. apply memo_ok_insert; [done| |congruence].
  constructor; [by intros ?%elem_of_nil|done].
Qed.

(** The link before a memoised reference. *)
Lemma memo_ok_extend m ref target next tail :
  memo_ok m -> m !! ref = None -> at_hop ref = Hops target next -> m !! next = Some tail ->
  memo_ok (<[ref := extend target tail]> m).
Proof.
  intros Hm Hnew Hh Hnext. apply memo_ok_insert; [done| |].
  - eapply chases_hops; [by intros ?%elem_of_nil|done|].
    eapply chases_visited; [by apply Hm|]. intros x Hx. split; [by intros ?%elem_of_nil|].
    intros ->%list_elem_of_singleton.
    destruct (memo_closed m next ref) as [o Ho]; eauto. congruence.
  - intros t n Hh'. rewrite Hh in Hh'. injection Hh' as <- <-.
    destruct (decide (next = ref)) as [->|]; [by rewrite lookup_insert_eq|].
    rewrite lookup_insert_ne by done. eauto.
Qed.

Definition memoise_cycle (links : list link) (r : resolver) : resolver :=
  fold_left (fun r l => memoise l.1 (Fails l.1 Cycle 0) r) links r.

Lemma memoise_cycle_lookup links r x :
  r_outcomes (memoise_cycle links r) !! x =
  if decide (x ∈ links.*1) then Some (Fails x Cycle 0) else r_outcomes r !! x.
Proof.
  unfold memoise_cycle. revert r. induction links as [|[ref t] links IH]; intros r; csimpl; [done|].
  rewrite IH. simpl. destruct (decide (x ∈ links.*1)) as [Hin|Hin].
  - rewrite decide_True; [done|]. by right.
  - destruct (decide (x = ref)) as [->|Hne].
    + rewrite lookup_insert_eq, decide_True; [done|]. by left.
    + rewrite lookup_insert_ne by done. rewrite decide_False; [done|]. by rewrite not_elem_of_cons.
Qed.

Lemma memoise_cycle_stats links r : r_stats (memoise_cycle links r) = r_stats r.
Proof. unfold memoise_cycle. revert r. induction links as [|l links IH]; intros r; [done|]. simpl. by rewrite IH. Qed.

(** A loop, from any of its links back to it. *)
Lemma loop_chases links ref l :
  walks links ref ref -> NoDup links.*1 -> l ∈ links -> chases [] l.1 (Fails l.1 Cycle 0).
Proof.
  intros Hw Hnd Hl. apply list_elem_of_split in Hl as (before & after & ->).
  apply walks_app in Hw as (mid & Hb & Ha). destruct l as [m t]. pose proof Ha as [-> _].
  apply (walks_cycle ((m, t) :: after ++ before)).
  - change (walks (((m, t) :: after) ++ before) m m). apply walks_app. eauto.
  - rewrite app_comm_cons. rewrite fmap_app in *. by rewrite Permutation_app_comm.
  - by intros ? _ ?%elem_of_nil.
  - csimpl. by left.
Qed.

Lemma memo_ok_cycle r links ref :
  memo_ok (r_outcomes r) -> walks links ref ref -> NoDup links.*1 ->
  memo_ok (r_outcomes (memoise_cycle links r)).
Proof.
  intros Hm Hw Hnd x o. rewrite memoise_cycle_lookup. case_decide as Hx.
  - intros [= <-]. apply list_elem_of_fmap in Hx as (l & -> & Hl).
    split; [by eapply loop_chases|]. intros target next Hh. rewrite memoise_cycle_lookup.
    apply list_elem_of_split in Hl as (before & after & ->). destruct l as [m t]; simpl in Hh.
    apply walks_app in Hw as (mid & Hb & -> & n & Hh' & Ha).
    assert (n = next) as -> by congruence. rewrite decide_True; [done|].
    destruct after as [|[a ta] after].
    + simpl in Ha. subst next. destruct before as [|[b tb] before]; simpl in Hb.
      * subst m. csimpl. by left.
      * destruct Hb as [-> _]. csimpl. by left.
    + destruct Ha as [-> _]. rewrite fmap_app. csimpl. set_solver.
  - intros Ho. destruct (Hm _ _ Ho) as [Hc Hn]. split; [done|]. intros target next Hh.
    rewrite memoise_cycle_lookup. case_decide; [done|]. eauto.
Qed.

(** ** The loop *)

Lemma walkPointer_found ref stats stats' :
  fst (walkPointer document ref stats) = fst (walkPointer document ref stats').
Proof. unfold walkPointer. repeat case_match; simplify_eq/=; done. Qed.

Lemma walkPointer_lookups ref stats :
  pointerLookups (snd (walkPointer document ref stats)) = pointerLookups stats + 1.
Proof. unfold walkPointer. by repeat case_match; simplify_eq/=. Qed.

Lemma on_chain_some ref chain i :
  on_chain ref chain = Some i -> exists t rest, drop i chain = (ref, t) :: rest.
Proof.
  unfold on_chain. destruct (list_find _ chain) as [[j [r t]]|] eqn:Hf; [|done].
  simpl. intros [= ->]. apply list_find_Some in Hf as (Hj & Hr & _). simpl in Hr. subst r.
  exists t, (drop (S i) chain). by apply drop_S.
Qed.

Lemma on_chain_none ref chain : on_chain ref chain = None -> ref ∉ chain.*1.
Proof.
  unfold on_chain. intros Hn Hin. apply fmap_None in Hn. apply list_find_None in Hn.
  apply list_elem_of_fmap in Hin as (l & -> & Hl). rewrite Forall_forall in Hn. by apply (Hn l).
Qed.

(** A chain being followed: its links are hops, none memoised, none repeated. *)
Record chain_ok (m : gmap string ChainOutcome) (start : string) (chain : list link) (ref : string)
    : Prop := {
  chain_walks : walks chain start ref;
  chain_nodup : NoDup chain.*1;
  chain_new : forall x, x ∈ chain.*1 -> m !! x = None;
}.

Lemma chain_ok_snoc m start chain ref target next :
  chain_ok m start chain ref -> ref ∉ chain.*1 -> m !! ref = None -> at_hop ref = Hops target next ->
  chain_ok m start (chain ++ [(ref, target)]) next.
Proof.
  intros Hc Hout Hknown Hh. destruct Hc as [Hw Hnd Hnew]. constructor.
  - by eapply walks_snoc.
  - rewrite fmap_app. apply NoDup_app. split_and!; [done| |apply NoDup_singleton].
    intros x Hx ->%list_elem_of_singleton. done.
  - intros x. rewrite fmap_app. intros [Hx| ->%list_elem_of_singleton]%elem_of_app; [by apply Hnew|done].
Qed.

(** What the loop leaves: a memo that is right at the end of the chain. *)
Definition loop_done (start : string) (r : resolver) (chain : list link) (tail : ChainOutcome) : Prop :=
  memo_ok (r_outcomes r) /\
  exists ref, chain_ok (r_outcomes r) start chain ref /\ r_outcomes r !! ref = Some tail.

Lemma loop_done_ends start r chain ref o :
  memo_ok (r_outcomes r) -> chain_ok (r_outcomes r) start chain ref -> ref ∉ chain.*1 ->
  at_hop ref = Ends o -> loop_done start (memoise ref o r) chain o.
Proof.
  intros Hm [Hw Hnd Hnew] Hout Hh. split; [by apply memo_ok_ends|]. exists ref.
  split; [|apply lookup_insert_eq]. constructor; [done|done|]. intros x Hx. simpl.
  rewrite lookup_insert_ne; [by apply Hnew|]. by intros <-.
Qed.

Lemma loop_done_cycle start r chain ref i :
  memo_ok (r_outcomes r) -> chain_ok (r_outcomes r) start chain ref -> on_chain ref chain = Some i ->
  loop_done start (memoise_cycle (drop i chain) r) (take i chain) (Fails ref Cycle 0).
Proof.
  intros Hm [Hw Hnd Hnew] Hi. destruct (on_chain_some _ _ _ Hi) as (t & rest & Hdrop).
  rewrite <- (take_drop i chain) in Hw, Hnd. apply walks_app in Hw as (mid & Ht & Hd).
  rewrite fmap_app in Hnd. apply NoDup_app in Hnd as (Hnt & Hdis & Hnd).
  assert (mid = ref) as -> by (rewrite Hdrop in Hd; apply Hd).
  split; [by eapply memo_ok_cycle|]. exists ref. split.
  - constructor; [done|done|]. intros x Hx. rewrite memoise_cycle_lookup, decide_False by auto.
    apply Hnew. rewrite <- (take_drop i chain), fmap_app. set_solver.
  - rewrite memoise_cycle_lookup, decide_True; [done|]. rewrite Hdrop. csimpl. by left.
Qed.

Lemma follow_loop_done fuel r start chain ref r' chain' tail :
  memo_ok (r_outcomes r) -> chain_ok (r_outcomes r) start chain ref ->
  follow_loop document fuel r chain ref = Some (r', chain', tail) ->
  loop_done start r' chain' tail.
Proof.
  revert r chain ref. induction fuel as [|fuel IH]; intros r chain ref Hm Hc; cbn [follow_loop]; [done|].
  destruct (r_outcomes r !! ref) as [known|] eqn:Hknown.
  { intros [= <- <- <-]. split; [done|]. by exists ref. }
  destruct (on_chain ref chain) as [i|] eqn:Hi.
  { fold (memoise_cycle (drop i chain) r).
    pose proof (loop_done_cycle _ _ _ _ _ Hm Hc Hi) as Hdone.
    destruct (on_chain_some _ _ _ Hi) as (t & rest & Hdrop).
    rewrite memoise_cycle_lookup, decide_True; [by intros [= <- <- <-]|].
    rewrite Hdrop. csimpl. by left. }
  apply on_chain_none in Hi. pose proof (eq_refl (at_hop ref)) as Hh.
  unfold hop_of at 2 in Hh. destruct (startsWith "#" ref); cbn [negb] in *.
  2: { intros [= <- <- <-]. by eapply loop_done_ends. }
  rewrite (walkPointer_found ref no_stats (r_stats r)) in Hh.
  destruct (walkPointer document ref (r_stats r)) as [found stats]. simpl in Hh.
  set (r1 := {| r_outcomes := r_outcomes r; r_stats := stats |}).
  assert (Hc1 : chain_ok (r_outcomes r1) start chain ref) by done.
  destruct found as [[at_ [| | | | |target]]|];
    try (intros [= <- <- <-]; by eapply (loop_done_ends start r1)).
  destruct (openApiRefOf target) as [next|].
  2: { intros [= <- <- <-]. by eapply (loop_done_ends start r1). }
  apply IH; [done|]. by eapply chain_ok_snoc.
Qed.

(** ** Unwinding *)

Lemma unwind_done start r chain tail :
  loop_done start r chain tail ->
  memo_ok (r_outcomes (unwind siblingsApply (reverse chain) r tail)) /\
  is_Some (r_outcomes (unwind siblingsApply (reverse chain) r tail) !! start).
Proof.
  revert r tail. induction chain as [|[ref target] chain IH] using rev_ind; intros r tail.
  - intros (Hm & ref & [-> _ _] & Ht). simpl. eauto.
  - intros (Hm & ref' & [Hw Hnd Hnew] & Ht). rewrite reverse_app. simpl.
    apply walks_app in Hw as (mid & Hw & -> & next & Hh & Hn). simpl in Hn. subst next.
    rewrite fmap_app in Hnd, Hnew. apply NoDup_app in Hnd as (Hnd & Hdis & _).
    apply IH. split.
    + eapply memo_ok_extend; [done| |done|done]. apply Hnew. set_solver.
    + exists ref. split; [|apply lookup_insert_eq]. constructor; [done|done|].
      intros x Hx. simpl. rewrite lookup_insert_ne; [apply Hnew; set_solver|].
      intros <-. apply (Hdis ref Hx). by apply list_elem_of_singleton.
Qed.

Lemma follow_sound fuel r start r' o :
  memo_ok (r_outcomes r) -> follow document siblingsApply fuel r start = Some (r', o) ->
  memo_ok (r_outcomes r') /\ chases [] start o.
Proof.
  intros Hm. unfold follow. destruct (r_outcomes r !! start) as [known|] eqn:Hk.
  { intros [= <- <-]. split; [done|]. by apply Hm. }
  destruct (follow_loop document fuel r [] start) as [[[r1 chain] tail]|] eqn:Hl; [|done].
  assert (Hc : chain_ok (r_outcomes r) start [] start).
  { constructor; [done|constructor|by intros x ?%elem_of_nil]. }
  pose proof (follow_loop_done _ _ _ _ _ _ _ _ Hm Hc Hl) as Hd.
  destruct (unwind_done _ _ _ _ Hd) as [Hm' Hs].
  destruct Hs as [o' Ho]. rewrite Ho. intros [= <- <-]. split; [done|]. by apply Hm'.
Qed.

(** ** Termination and cost *)

Lemma refs_of_elem (items : list json) (v : json) (ref : string) :
  v ∈ items -> ref ∈ refs_of v -> ref ∈ refs_of (JArr items).
Proof.
  induction items as [|x items IH]; intros Hv Hr; [by apply elem_of_nil in Hv|].
  simpl. apply elem_of_app. apply elem_of_cons in Hv as [->|Hv]; [by left|right; by apply IH].
Qed.

Lemma refs_of_member (members : list (string * json)) (kv : string * json) (ref : string) :
  kv ∈ members -> ref ∈ refs_of kv.2 -> ref ∈ refs_of (JObj members).
Proof.
  intros Hv Hr. simpl. apply elem_of_app. right.
  induction members as [|[k x] members IH]; [by apply elem_of_nil in Hv|].
  apply elem_of_app. apply elem_of_cons in Hv as [->|Hv]; [by left|right; by apply IH].
Qed.

Lemma pointer_step_refs current segment next ref :
  pointer_step current segment = Some next -> ref ∈ refs_of next.2 -> ref ∈ refs_of current.2.
Proof.
  destruct current as [at_ [| | | |items|members]]; simpl; try done.
  - destruct (re_test ARRAY_INDEX segment); [|done]. case_decide; [done|].
    destruct (items !! _) as [v|] eqn:Hv; [|done]. intros [= <-] Hr.
    by eapply (refs_of_elem items v), Hr; eapply list_elem_of_lookup_2.
  - destruct (json_own segment members) as [v|] eqn:Hv; [|done]. intros [= <-] Hr.
    by eapply (refs_of_member members (segment, v)), Hr; apply json_own_in.
Qed.

Lemma walk_segments_refs segments current count found ref :
  fst (walk_segments current segments count) = Some found ->
  ref ∈ refs_of found.2 -> ref ∈ refs_of current.2.
Proof.
  revert current count. induction segments as [|segment segments IH]; intros current count;
    cbn [walk_segments]; [by intros [= <-]|].
  destruct (decodeURIComponent segment) as [decoded|]; [|done].
  destruct (pointer_step current (unescape_segment decoded)) as [next|] eqn:Hn; [|done].
  intros Hf Hr. eapply pointer_step_refs; [done|]. by eapply IH.
Qed.

(** Each reference a chain hops to was written in the document. *)
Lemma hops_written ref target next :
  at_hop ref = Hops target next -> next ∈ refs_of document.
Proof.
  unfold hop_of. destruct (negb _); [done|].
  destruct (fst (walkPointer document ref no_stats)) as [[at_ v]|] eqn:Hw; [|done].
  destruct v as [| | | | |members]; try done.
  destruct (openApiRefOf members) as [next'|] eqn:Hr; [|done]. intros [= <- <-].
  assert (Hin : next' ∈ refs_of (JObj members)).
  { simpl. rewrite Hr. simpl. left. }
  unfold walkPointer in Hw. do 2 (case_decide; [by simplify_eq/=; first [done|exact Hin]|]).
  destruct (negb _); [done|]. case_decide; [done|].
  destruct (walk_segments _ _ _) as [found count] eqn:Hs. simpl in Hw. subst found.
  eapply (walk_segments_refs _ ([], document)); [by rewrite Hs|done].
Qed.

Lemma memoise_cycle_size links r :
  NoDup links.*1 -> (forall x, x ∈ links.*1 -> r_outcomes r !! x = None) ->
  size (r_outcomes (memoise_cycle links r)) = (size (r_outcomes r) + length links)%nat.
Proof.
  unfold memoise_cycle. revert r. induction links as [|[ref t] links IH]; intros r; csimpl; [lia|].
  intros [Hn Hnd]%NoDup_cons Hnew. rewrite IH; [simpl|done|].
  - rewrite map_size_insert_None; [lia|]. apply Hnew. by left.
  - intros x Hx. simpl. rewrite lookup_insert_ne; [apply Hnew; by right|]. by intros <-.
Qed.

(** What the memo may hold, and what it has cost: a lookup for each reference
    memoised or on the chain. *)
Definition within (U : list string) (base : Z) (r : resolver) (chain : list link) : Prop :=
  (forall x, is_Some (r_outcomes r !! x) -> x ∈ U) /\
  (forall x, x ∈ chain.*1 -> x ∈ U) /\
  pointerLookups (r_stats r) <= base + Z.of_nat (size (r_outcomes r)) + Z.of_nat (length chain).

Lemma within_memoise U base r chain ref o stats :
  within U base r chain -> r_outcomes r !! ref = None -> ref ∈ U ->
  pointerLookups stats <= pointerLookups (r_stats r) + 1 ->
  within U base (memoise ref o {| r_outcomes := r_outcomes r; r_stats := stats |}) chain.
Proof.
  intros (Hm & Hc & Hn) Hnew Href Hs. split_and!; [|done|].
  - intros x. simpl. destruct (decide (x = ref)) as [->|]; [done|]. rewrite lookup_insert_ne; auto.
  - simpl. rewrite map_size_insert_None by done. lia.
Qed.

Lemma within_cycle U base r chain i :
  within U base r chain -> NoDup chain.*1 -> (forall x, x ∈ chain.*1 -> r_outcomes r !! x = None) ->
  within U base (memoise_cycle (drop i chain) r) (take i chain).
Proof.
  intros (Hm & Hc & Hn) Hnd Hnew.
  pose proof (take_drop i chain) as Hsplit. rewrite <- Hsplit in Hn, Hnd. rewrite length_app in Hn.
  rewrite fmap_app in Hnd. apply NoDup_app in Hnd as (_ & _ & Hnd).
  assert (Hin : forall x, x ∈ (take i chain).*1 \/ x ∈ (drop i chain).*1 -> x ∈ chain.*1).
  { intros x. rewrite <- elem_of_app, <- fmap_app. by rewrite Hsplit. }
  split_and!.
  - intros x. rewrite memoise_cycle_lookup. case_decide; auto.
  - auto.
  - rewrite memoise_cycle_stats, memoise_cycle_size by auto. lia.
Qed.

(** From any reference whose chain stays inside [W], whose members are the start
    and what the document wrote, the loop ends within its fuel. *)
Lemma follow_loop_total W U base fuel r start chain ref :
  memo_ok (r_outcomes r) -> chain_ok (r_outcomes r) start chain ref ->
  within U base r chain -> refs_of document ⊆ W -> W ⊆ U -> ref ∈ W ->
  (forall x, x ∈ chain.*1 -> x ∈ W) -> (length W < fuel + length chain)%nat ->
  exists r' chain' tail,
    follow_loop document fuel r chain ref = Some (r', chain', tail) /\ within U base r' chain'.
Proof.
  intros Hm Hc Hwithin HdW HWU. revert r chain ref Hm Hc Hwithin.
  induction fuel as [|fuel IH]; intros r chain ref Hm Hc Hwithin Href HcW Hfuel.
  { exfalso. assert (length chain.*1 <= length W)%nat as Hlen.
    { apply submseteq_length, NoDup_submseteq; [apply Hc|exact HcW]. }
    rewrite length_fmap in Hlen. lia. }
  cbn [follow_loop]. destruct (r_outcomes r !! ref) as [known|] eqn:Hknown; [by eauto 10|].
  destruct (on_chain ref chain) as [i|] eqn:Hi.
  { fold (memoise_cycle (drop i chain) r).
    destruct (on_chain_some _ _ _ Hi) as (t & rest & Hdrop).
    rewrite memoise_cycle_lookup, decide_True by (rewrite Hdrop; csimpl; left).
    simpl. do 3 eexists. split; [done|]. apply within_cycle; [done|apply Hc..]. }
  apply on_chain_none in Hi. destruct (negb (startsWith "#" ref)) eqn:Hhash.
  { do 3 eexists. split; [done|].
    pose proof (within_memoise U base r chain ref (Fails ref External 0) (r_stats r)) as Hext.
    destruct r. apply Hext; [done..|auto|simpl; lia]. }
  destruct (walkPointer document ref (r_stats r)) as [found stats] eqn:Hw.
  assert (Hl : pointerLookups stats = pointerLookups (r_stats r) + 1).
  { rewrite <- (walkPointer_lookups ref). by rewrite Hw. }
  destruct found as [[at_ [| | | | |target]]|];
    try (do 3 eexists; split; [done|]; apply within_memoise; [done..|auto|lia]).
  destruct (openApiRefOf target) as [next|] eqn:Hr.
  2: { do 3 eexists. split; [done|]. apply within_memoise; [done..|auto|lia]. }
  assert (Hh : at_hop ref = Hops target next).
  { unfold hop_of. rewrite Hhash, (walkPointer_found _ _ (r_stats r)), Hw. simpl. by rewrite Hr. }
  apply IH.
  - done.
  - by eapply chain_ok_snoc.
  - destruct Hwithin as (H1 & H2 & H3). split_and!; [done| |simpl; rewrite length_app; simpl; lia].
    intros x. rewrite fmap_app. intros [Hx| ->%list_elem_of_singleton]%elem_of_app; auto.
  - apply HdW. by eapply hops_written.
  - intros x. rewrite fmap_app. intros [Hx| ->%list_elem_of_singleton]%elem_of_app; auto.
  - rewrite length_app. simpl. lia.
Qed.

Lemma unwind_within U base r start chain tail ref :
  within U base r chain -> chain_ok (r_outcomes r) start chain ref ->
  within U base (unwind siblingsApply (reverse chain) r tail) [].
Proof.
  revert r tail ref. induction chain as [|[ref target] chain IH] using rev_ind; intros r tail ref'.
  - intros Hin _. exact Hin.
  - intros (H1 & H2 & H3) [Hw Hnd Hnew]. rewrite reverse_app. simpl.
    apply walks_app in Hw as (mid & Hw & -> & next & Hh & Hn).
    rewrite fmap_app in Hnd, Hnew, H2. apply NoDup_app in Hnd as (Hnd & Hdis & _).
    assert (Href : r_outcomes r !! ref = None) by (apply Hnew; set_solver).
    eapply (IH _ _ ref).
    + split_and!; simpl.
      * intros x. destruct (decide (x = ref)) as [->|]; [set_solver|]. rewrite lookup_insert_ne; auto.
      * intros x Hx. apply H2. set_solver.
      * rewrite length_app in H3. rewrite map_size_insert_None by done. simpl in H3. lia.
    + constructor; [done|done|]. intros x Hx. simpl. rewrite lookup_insert_ne; [apply Hnew; set_solver|].
      intros <-. apply (Hdis ref Hx). by apply list_elem_of_singleton.
Qed.

(** Following a reference ends, answers like a chain followed afresh, and costs
    at most a lookup for each reference newly memoised. *)
Lemma follow_correct U base r start :
  memo_ok (r_outcomes r) -> within U base r [] -> refs_of document ⊆ U -> start ∈ U ->
  exists r' o, follow document siblingsApply (follow_fuel document) r start = Some (r', o) /\
    memo_ok (r_outcomes r') /\ within U base r' [] /\ chases [] start o.
Proof.
  intros Hm Hin Hd Hs. unfold follow.
  destruct (r_outcomes r !! start) as [known|] eqn:Hk.
  { exists r, known. split_and!; [done..|]. by apply Hm. }
  assert (Hc : chain_ok (r_outcomes r) start [] start).
  { constructor; [done|constructor|by intros x ?%elem_of_nil]. }
  destruct (follow_loop_total (start :: refs_of document) U base (follow_fuel document) r start [] start)
    as (r1 & chain & tail & Hl & Hin1); try done.
  - set_solver.
  - set_solver.
  - left.
  - by intros x ?%elem_of_nil.
  - simpl. unfold follow_fuel. lia.
  - rewrite Hl. pose proof (follow_loop_done _ _ _ _ _ _ _ _ Hm Hc Hl) as Hd1.
    destruct (unwind_done _ _ _ _ Hd1) as [Hm' [o Ho]]. rewrite Ho. simpl. do 2 eexists.
    destruct Hd1 as (_ & ref & Hc1 & _).
    split_and!; [done|done|by eapply unwind_within|by apply Hm'].
Qed.

(** [chase] finds what the relation says within the same fuel. *)
Lemma chase_complete W fuel visited ref o :
  chases visited ref o -> NoDup visited -> visited ⊆ W -> ref ∈ W -> refs_of document ⊆ W ->
  (length W < fuel + length visited)%nat -> chase document siblingsApply fuel visited ref = Some o.
Proof.
  intros Hc. revert fuel. induction Hc as [v ref Hv|v ref o Hv Hh|v ref t n o Hv Hh Hc IH];
    intros fuel Hnd HvW Hr HdW Hfuel;
    (destruct fuel as [|fuel];
      [exfalso; pose proof (submseteq_length _ _ (NoDup_submseteq _ _ Hnd HvW)); lia|]); simpl.
  - by rewrite decide_True.
  - by rewrite decide_False, Hh.
  - rewrite decide_False, Hh by done.
    assert (n ∈ W) by (apply HdW; by eapply hops_written).
    rewrite (IH fuel); [done|by apply NoDup_cons|set_solver|done|done|simpl; lia].
Qed.

Lemma chases_afresh ref o :
  chases [] ref o -> chase document siblingsApply (follow_fuel document) [] ref = Some o.
Proof.
  intros Hc. eapply (chase_complete (ref :: refs_of document)); try done.
  - constructor.
  - by intros x ?%elem_of_nil.
  - left.
  - set_solver.
  - simpl. unfold follow_fuel. lia.
Qed.

Lemma resolve_within U base r value :
  memo_ok (r_outcomes r) -> within U base r [] -> refs_of document ⊆ U ->
  (forall ref, openApiRefOf value.2 = Some ref -> ref ∈ U) ->
  exists r' result,
    resolve document siblingsApply (follow_fuel document) r value = Some (r', result) /\
    memo_ok (r_outcomes r') /\ within U base r' [] /\
    resolve_afresh document siblingsApply (follow_fuel document) value = Some result.
Proof.
  intros Hm Hin Hd Hv. unfold resolve, resolve_afresh.
  destruct (openApiRefOf value.2) as [ref|] eqn:Hr; [|by eauto 10].
  destruct (follow_correct U base r ref Hm Hin Hd (Hv ref eq_refl)) as (r1 & o & Hf & Hm1 & Hin1 & Hc).
  rewrite Hf, (chases_afresh ref o Hc). simpl. eauto 10.
Qed.

(** One call, from any memo that is right. *)
Lemma resolve_correct r value :
  memo_ok (r_outcomes r) ->
  exists r' result,
    resolve document siblingsApply (follow_fuel document) r value = Some (r', result) /\
    memo_ok (r_outcomes r') /\
    resolve_afresh document siblingsApply (follow_fuel document) value = Some result.
Proof.
  intros Hm.
  set (U := (map_to_list (r_outcomes r)).*1 ++ refs_of document ++ option_list (openApiRefOf value.2)).
  destruct (resolve_within U (pointerLookups (r_stats r)) r value Hm) as (r' & result & H1 & H2 & _ & H3).
  - split_and!; [|by intros x ?%elem_of_nil|lia]. intros x [o Ho]. apply elem_of_app. left.
    apply list_elem_of_fmap. exists (x, o). split; [done|]. by apply elem_of_map_to_list.
  - unfold U. set_solver.
  - intros ref Href. unfold U. rewrite Href. simpl. set_solver.
  - eauto 10.
Qed.

Lemma resolve_all_correct U base r values :
  memo_ok (r_outcomes r) -> within U base r [] -> refs_of document ⊆ U ->
  omap (openApiRefOf ∘ snd) values ⊆ U ->
  exists r' results,
    resolve_all document siblingsApply (follow_fuel document) r values = Some (r', results) /\
    within U base r' [] /\
    Forall2 (fun value result =>
      resolve_afresh document siblingsApply (follow_fuel document) value = Some result) values results.
Proof.
  revert r. induction values as [|value values IH]; intros r Hm Hin Hd Hv; simpl.
  { exists r, []. split_and!; [done|done|constructor]. }
  destruct (resolve_within U base r value Hm Hin Hd) as (r1 & result & -> & Hm1 & Hin1 & Hafresh).
  { intros ref Href. apply Hv, list_elem_of_omap. exists value. split; [left|done]. }
  destruct (IH r1 Hm1 Hin1 Hd) as (r2 & results & -> & Hin2 & Hall).
  { intros x Hx. apply Hv. simpl. destruct (openApiRefOf value.2); [by right|done]. }
  simpl. exists r2, (result :: results). split_and!; [done|done|by constructor].
Qed.
End ResolverFacts.

(** ** Places

    The value at a place; what is resolved is at its place. *)
Definition place_value (v : json) (s : place_step) : option json :=
  match v, s with
  | JObj members, Member key => json_own key members
  | JArr items, Element index => items !! index
  | _, _ => None
  end.

Definition json_at (document : json) (at_ : place) : option json :=
  fold_left (fun v s => v ≫= fun v => place_value v s) at_ (Some document).

Lemma json_at_app (document : json) (at1 at2 : place) :
  json_at document (at1 ++ at2) = json_at document at1 ≫= fun v => json_at v at2.
Proof.
  unfold json_at. rewrite fold_left_app. destruct (fold_left _ at1 _) as [v|]; [done|].
  simpl. induction at2; [done|]. simpl. done.
Qed.

Lemma pointer_step_at (document : json) (current next : node) (segment : string) :
  json_at document current.1 = Some current.2 -> pointer_step current segment = Some next ->
  json_at document next.1 = Some next.2.
Proof.
  destruct current as [at_ v]. simpl. intros Hat. destruct v as [| | | |items|members]; simpl; try done.
  - destruct (re_test ARRAY_INDEX segment); [|done]. case_decide; [done|].
    destruct (items !! _) as [x|] eqn:Hx; [|done]. intros [= <-]. simpl.
    by rewrite json_at_app, Hat.
  - destruct (json_own segment members) as [x|] eqn:Hx; [|done]. intros [= <-]. simpl.
    by rewrite json_at_app, Hat.
Qed.

Lemma walk_segments_at (document : json) (segments : list string) (current found : node) (count : Z) :
  json_at document current.1 = Some current.2 ->
  fst (walk_segments current segments count) = Some found ->
  json_at document found.1 = Some found.2.
Proof.
  revert current count. induction segments as [|segment segments IH]; intros current count Hat;
    cbn [walk_segments]; [by intros [= <-]|].
  destruct (decodeURIComponent segment) as [decoded|]; [|done].
  destruct (pointer_step current (unescape_segment decoded)) as [next|] eqn:Hn; [|done].
  apply IH. by eapply pointer_step_at.
Qed.

Lemma walkPointer_at (document : json) (ref : string) (stats : OpenApiResolveStats) (found : node) :
  fst (walkPointer document ref stats) = Some found -> json_at document found.1 = Some found.2.
Proof.
  unfold walkPointer. case_decide; [done|]. case_decide; [by intros [= <-]|].
  destruct (negb _); [done|]. case_decide; [done|].
  destruct (walk_segments _ _ _) as [found' count] eqn:Hs. simpl. intros ->.
  eapply (walk_segments_at document _ ([], document)); [done|by rewrite Hs].
Qed.

Lemma chase_at (document : json) (siblingsApply : bool) fuel visited ref value overrides n :
  chase document siblingsApply fuel visited ref = Some (Leads value overrides n) ->
  json_at document value.1 = Some (JObj value.2).
Proof.
  revert visited ref overrides n. induction fuel as [|fuel IH]; intros visited ref overrides n;
    cbn [chase]; [done|]. case_decide; [done|].
  destruct (hop_of document ref) as [o|target next] eqn:Hh.
  - intros [= ->]. unfold hop_of in Hh. destruct (negb _); [done|].
    destruct (fst (walkPointer document ref no_stats)) as [[at_ v]|] eqn:Hw; [|done].
    apply walkPointer_at in Hw. destruct v; try done. destruct (openApiRefOf _); [done|].
    by injection Hh as <- _ _.
  - destruct (chase _ _ fuel _ next) as [[v ov m|r reason m]|] eqn:Hc; [..|done]; simpl.
    + intros [= <- _ _]. by eapply IH.
    + by destruct reason.
Qed.

Lemma resolve_afresh_at (document : json) (siblingsApply : bool) fuel value target overrides :
  json_at document value.1 = Some (JObj value.2) ->
  resolve_afresh document siblingsApply fuel value = Some (Resolved target overrides) ->
  json_at document target.1 = Some (JObj target.2).
Proof.
  intros Hat. unfold resolve_afresh. destruct (openApiRefOf value.2) as [ref|]; [|by intros [= <- _]].
  destruct (chase _ _ _ _ _) as [o|] eqn:Hc; [|done]. simpl. unfold resolution_of.
  case_decide; [done|]. destruct o as [v ov n|]; [|done]. intros [= <- _]. by eapply chase_at.
Qed.

(** One resolver, whatever it has memoised by the calls before, answers every
    reference exactly like a chain followed afresh: it ends (a loop is reported
    as [cycle], a chain longer than the limit as [depth]), and all the calls
    together look up each distinct reference string at most once. *)
Theorem resolver_follows_afresh (document : json) (siblingsApply : bool)
    (stats : OpenApiResolveStats) (values : list object) :
  exists r results,
    resolve_all document siblingsApply (follow_fuel document) (new_resolver stats) values
      = Some (r, results) /\
    Forall2 (fun value result =>
      resolve_afresh document siblingsApply (follow_fuel document) value = Some result) values results /\
    pointerLookups (r_stats r) <= pointerLookups stats +
      Z.of_nat (length (remove_dups (omap (openApiRefOf ∘ snd) values ++ refs_of document))).
Proof.
  set (U := omap (openApiRefOf ∘ snd) values ++ refs_of document).
  destruct (resolve_all_correct document siblingsApply U (pointerLookups stats) (new_resolver stats) values)
    as (r & results & Hr & (Hdom & _ & Hcost) & Hall).
  - apply memo_ok_empty.
  - split_and!; [|by intros x ?%elem_of_nil|simpl; lia].
    intros x [o Ho]. simpl in Ho. by rewrite lookup_empty in Ho.
  - unfold U. set_solver.
  - unfold U. set_solver.
  - exists r, results. split_and!; [done|done|].
    assert (size (r_outcomes r) <= length (remove_dups U))%nat; [|simpl in Hcost; lia].
    rewrite <- length_map_to_list, <- (length_fmap fst).
    apply submseteq_length, NoDup_submseteq; [apply NoDup_fst_map_to_list|].
    intros x ([k o] & -> & Hx)%list_elem_of_fmap. apply elem_of_map_to_list in Hx.
    apply elem_of_remove_dups. eauto.
Qed.

(** A cycle, a pointer with both escapes spelled in two ways, an external and a
    dangling reference. *)
Example resolver_example :
  let document := JObj [("a", JObj [("$ref", JStr "#/b")]); ("b", JObj [("$ref", JStr "#/a")]);
                        ("c", JObj [("$ref", JStr "#/x~1y/0")]);
                        ("x/y", JArr [JObj [("name", JStr "id"); ("in", JStr "query")]])]%string in
  let at_ ref := ([], [("$ref", JStr ref)])%string in
  snd <$> resolve_all document false (follow_fuel document) (new_resolver no_stats)
            [at_ "#/a"; at_ "#/c"; at_ "#/x%7E1y/0"; at_ "http://x"; at_ "#/d"]%string =
  Some [Unresolved "#/a" Cycle;
        Resolved ([Member "x/y"; Element 0], [("name", JStr "id"); ("in", JStr "query")]) NO_OVERRIDES;
        Resolved ([Member "x/y"; Element 0], [("name", JStr "id"); ("in", JStr "query")]) NO_OVERRIDES;
        Unresolved "http://x" External; Unresolved "#/d" Missing]%string.
Proof. vm_compute. reflexivity. Qed.
