(* ===== verification/SpecDocument.v ===== *)
(** * The document submitted to the gateway

    [server/src/publishing/spec-document.ts]: the provider's OpenAPI document
    as the importer of API specs receives it under [routes] enforcement, without
    any server base but the gateway's, and as the catalog shows it, with every
    server the gateway's. *)

From S2P Require Import Prelude Json OpenApi.
Open Scope Z_scope.

Definition OPENAPI_VALIDATOR_PLUGIN : string := "openapi_validator".

(** [value == null]. *)
Definition is_nullish (v : option json) : bool :=
  match v with None | Some JNull => true | _ => false end.

Definition handOwnedPlugins (configs : list (list (string * json))) : list (list (string * json)) :=
  List.filter (fun config =>
    is_nullish (json_own "api_spec_id" config) &&
    negb (bool_decide (json_string (json_own "plugin_name" config) = Some OPENAPI_VALIDATOR_PLUGIN)))
    configs.

Definition ROUTES_VALIDATE_EXTENSION : list (string * json) :=
  [("mode", JStr "block");
   ("request", JObj [("enabled", JBool false)]);
   ("response", JObj [("enabled", JBool false)]);
   ("fail_on_unknown_operation", JBool true)]%string.

Definition NON_SUBMITTABLE_PROXY_FIELDS : list string :=
  ["namespace"; "created_at"; "updated_at"; "api_spec_id"; "plugins"]%string.

Definition submittableProxyBody (proxy : list (string * json)) : list (string * json) :=
  fold_left (fun body field => json_delete field body) NON_SUBMITTABLE_PROXY_FIELDS proxy.

Definition OPENAPI_OPERATION_KEYS : list string :=
  ["get"; "put"; "post"; "delete"; "options"; "head"; "patch"; "trace"]%string.

(** [key in object]. *)
Definition in_object (key : string) (members : list (string * json)) : bool :=
  match json_own key members with Some _ => true | None => false end.

(** [copy[key] = rewrite(copy[key])] of a member the object has. *)
Definition edit_member (key : string) (rewrite : json -> json) (members : list (string * json))
    : list (string * json) :=
  match json_own key members with
  | Some v => json_set key (rewrite v) members
  | None => members
  end.

(** ** The strip of [routes] *)

(** One round of the loop over the methods: the operation is read from the item,
    and written to its copy. *)
Definition method_round (item : list (string * json)) (copy : list (string * json)) (method : string)
    : list (string * json) :=
  match json_own method item with
  | Some (JObj operation) =>
      if in_object "servers" operation
      then json_set method (JObj (json_delete "servers" operation)) copy
      else copy
  | _ => copy
  end.

Definition pathItemWithoutServers (item : json) : json :=
  match item with
  | JObj members =>
      let copy := if in_object "servers" members then json_delete "servers" members else members in
      JObj (fold_left (method_round members) OPENAPI_OPERATION_KEYS copy)
  | _ => item
  end.

Definition pathItemsWithoutServers (holdsPathItem : string -> bool) (container : json) : json :=
  match container with
  | JObj members =>
      JObj (map (fun kv => (kv.1, if holdsPathItem kv.1 then pathItemWithoutServers kv.2 else kv.2)) members)
  | _ => container
  end.

Definition callbacksWithoutServers (container : json) : json :=
  match container with
  | JObj members =>
      JObj (map (fun kv => (kv.1, pathItemsWithoutServers (fun _ => true) kv.2)) members)
  | _ => container
  end.

Definition RESOLVABLE_PATH_ITEM_POINTERS : list string :=
  ["#/paths/"; "#/components/pathItems/"; "#/webhooks/"]%string.

(** [SPEC_INVALID] with the reason [unresolvable_path_item_ref] and the path. *)
Inductive spec_invalid : Type := UnresolvablePathItemRef (path : string).

Inductive SpecEnforcementLevel : Type := DocsOnly | Routes.

#[export] Instance SpecEnforcementLevel_eq_dec : EqDecision SpecEnforcementLevel.
Proof. solve_decision. Defined.

(** [typeof item.$ref === 'string' ? item.$ref : ''] starts with a pointer that is
    rewritten. *)
Definition resolvable_ref (reference : json) : bool :=
  let reference := match reference with JStr s => s | _ => EmptyString end in
  existsb (fun pointer => startsWith pointer reference) RESOLVABLE_PATH_ITEM_POINTERS.

(** A path template whose item the gateway would resolve outside the rewrite. *)
Definition refused_path (kv : string * json) : bool :=
  startsWith "/" kv.1 &&
  match kv.2 with
  | JObj item => match json_own "$ref" item with
                 | Some reference => negb (resolvable_ref reference)
                 | None => false
                 end
  | _ => false
  end.

Definition assertRoutesSubmittable (enforcement : SpecEnforcementLevel)
    (document : list (string * json)) : res spec_invalid unit :=
  if decide (enforcement = Routes) then
    match json_record (json_own "paths" document) with
    | None => Ok tt
    | Some paths =>
        match List.find refused_path paths with
        | Some (template, _) => Throw (UnresolvablePathItemRef template)
        | None => Ok tt
        end
    end
  else Ok tt.

Definition servers_of (serverUrl : string) : json := JArr [JObj [("url"%string, JStr serverUrl)]].

(** [rewriteSpecServers] in its [routes] scope. *)
Definition rewriteSpecServers_routes (document : list (string * json)) (serverUrl : string)
    : list (string * json) :=
  let submitted := json_set "servers" (servers_of serverUrl) document in
  let submitted := edit_member "paths" (pathItemsWithoutServers (startsWith "/")) submitted in
  let submitted := edit_member "webhooks" (pathItemsWithoutServers (fun _ => true)) submitted in
  match json_own "components" submitted with
  | Some (JObj components) =>
      let components := edit_member "pathItems" (pathItemsWithoutServers (fun _ => true)) components in
      let components := edit_member "callbacks" callbacksWithoutServers components in
      json_set "components" (JObj components) submitted
  | _ => submitted
  end.

(** For an API without agents: their stamp is applied to this document. *)
Definition routesSpecDocument (document proxy : list (string * json))
    : res spec_invalid (list (string * json)) :=
  match assertRoutesSubmittable Routes document with
  | Throw e => Throw e
  | Ok _ =>
      let submitted := List.filter (fun kv => negb (startsWith "x-ferrum-" kv.1)) document in
      let rewritten := rewriteSpecServers_routes submitted "/" in
      let rewritten := json_set "x-ferrum-proxy" (JObj proxy) rewritten in
      Ok (json_set "x-ferrum-validate" (JObj ROUTES_VALIDATE_EXTENSION) rewritten)
  end.

(** ** The catalog's scope

    The closures of the walk, each named by what it rewrites: [map] keeps
    members with a key [x-…], [registry] rewrites them all. *)
Inductive catalog_role : Type :=
| RPaths | RPathItem | ROperation
| RCallbackMap    (** [map(copy.callbacks, callback)] *)
| RCallback       (** [map(value, pathItem)], a callback and the webhooks *)
| RResponseMap    (** [map(copy.responses, response)] *)
| RResponse | RLinks | RLink | RComponents
| RPathItems | RCallbacks | RResponses    (** the registries of the components *)
| RServers        (** replaced by [servers] *)
| RServer         (** replaced by [{ url: serverUrl }] *)
| ROpaque.        (** left as it is *)

#[export] Instance catalog_role_eq_dec : EqDecision catalog_role.
Proof. solve_decision. Defined.

Definition is_extension (key : string) : bool := startsWith "x-" key.

(** What becomes of a member of the object the closure is given. *)
Definition catalog_child (r : catalog_role) (key : string) : catalog_role :=
  match r with
  | RPaths => if startsWith "/" key then RPathItem else ROpaque
  | RPathItem =>
      if decide (key = "servers"%string) then RServers
      else if decide (key ∈ OPENAPI_OPERATION_KEYS) then ROperation else ROpaque
  | ROperation =>
      if decide (key = "servers"%string) then RServers
      else if decide (key = "callbacks"%string) then RCallbackMap
      else if decide (key = "responses"%string) then RResponseMap else ROpaque
  | RCallbackMap => if is_extension key then ROpaque else RCallback
  | RCallback => if is_extension key then ROpaque else RPathItem
  | RResponseMap => if is_extension key then ROpaque else RResponse
  | RResponse => if decide (key = "links"%string) then RLinks else ROpaque
  | RLinks => RLink
  | RLink => if decide (key = "server"%string) then RServer else ROpaque
  | RComponents =>
      if decide (key = "pathItems"%string) then RPathItems
      else if decide (key = "callbacks"%string) then RCallbacks
      else if decide (key = "links"%string) then RLinks
      else if decide (key = "responses"%string) then RResponses else ROpaque
  | RPathItems => RPathItem
  | RCallbacks => RCallback
  | RResponses => RResponse
  | RServers | RServer | ROpaque => ROpaque
  end.

Fixpoint catalog_rewrite (serverUrl : string) (r : catalog_role) (v : json) : json :=
  match r with
  | RServers => servers_of serverUrl
  | RServer => JObj [("url"%string, JStr serverUrl)]
  | ROpaque => v
  | _ =>
      match v with
      | JObj members =>
          JObj (map (fun '(key, child) =>
                       (key, catalog_rewrite serverUrl (catalog_child r key) child)) members)
      | _ => v
      end
  end.

(** [rewriteSpecServers] in its [catalog] scope. *)
Definition rewriteSpecServers_catalog (document : list (string * json)) (serverUrl : string)
    : list (string * json) :=
  let copy := json_set "servers" (servers_of serverUrl) document in
  let copy := edit_member "paths" (catalog_rewrite serverUrl RPaths) copy in
  let copy := edit_member "webhooks" (catalog_rewrite serverUrl RCallback) copy in
  edit_member "components" (catalog_rewrite serverUrl RComponents) copy.

(** ** What is at a place *)

Lemma json_at_cons (v : json) (s : place_step) (p : place) :
  json_at v (s :: p) = place_value v s ≫= fun x => json_at x p.
Proof. by apply (json_at_app v [s] p). Qed.

Lemma json_at_nil (v : json) : json_at v [] = Some v.
Proof. done. Qed.

Lemma json_own_edit (k key : string) (f : json -> json) (m : list (string * json)) :
  json_own k (edit_member key f m) = (if decide (k = key) then f else id) <$> json_own k m.
Proof.
  unfold edit_member. destruct (json_own key m) as [v|] eqn:Hown; case_decide as Hk; subst.
  - by rewrite json_own_set_eq, Hown.
  - rewrite json_own_set_ne by done. by destruct (json_own k m).
  - by rewrite Hown.
  - by destruct (json_own k m).
Qed.

(** *** The catalog's document *)

(** The closure that rewrites the value at a place, from the closure at the root of it. *)
Fixpoint catalog_role_at (r : catalog_role) (p : place) : catalog_role :=
  match p with
  | [] => r
  | Member key :: p => catalog_role_at (catalog_child r key) p
  | Element _ :: p => ROpaque
  end.

(** A place inside what the walk replaces. *)
Fixpoint inside_replaced (r : catalog_role) (p : place) : bool :=
  match p with
  | [] => false
  | s :: p =>
      bool_decide (r = RServers \/ r = RServer) ||
      match s with
      | Member key => inside_replaced (catalog_child r key) p
      | Element _ => false
      end
  end.

Definition step_role (r : catalog_role) (s : place_step) : catalog_role :=
  match s with Member key => catalog_child r key | Element _ => ROpaque end.

Lemma catalog_opaque (serverUrl : string) (v : json) : catalog_rewrite serverUrl ROpaque v = v.
Proof. by destruct v. Qed.

Lemma catalog_map (f : string -> json -> json) (members : list (string * json)) :
  map (fun '(key, child) => (key, f key child)) members =
  map (fun kv => (kv.1, f kv.1 kv.2)) members.
Proof. apply map_ext. by intros []. Qed.

(** One step: the member of the rewritten object is the rewritten member. *)
Lemma catalog_step (serverUrl : string) (r : catalog_role) (v : json) (s : place_step) :
  r <> RServers -> r <> RServer ->
  place_value (catalog_rewrite serverUrl r v) s =
  catalog_rewrite serverUrl (step_role r s) <$> place_value v s.
Proof.
  intros H1 H2. destruct (decide (r = ROpaque)) as [->|H3].
  { rewrite catalog_opaque. destruct s; simpl;
      (destruct (place_value v _) as [x|]; simpl; [by rewrite catalog_opaque|done]). }
  destruct v as [| | | |items|members]; try by destruct r, s.
  - destruct s as [key|i]; [by destruct r|]. cbn [step_role].
    replace (catalog_rewrite serverUrl r (JArr items)) with (JArr items) by (by destruct r).
    simpl. destruct (items !! i) as [x|]; simpl; [by rewrite catalog_opaque|done].
  - destruct s as [key|i]; [|by destruct r]. cbn [step_role].
    replace (catalog_rewrite serverUrl r (JObj members)) with
      (JObj (map (fun kv => (kv.1, catalog_rewrite serverUrl (catalog_child r kv.1) kv.2)) members)).
    + apply (json_own_map (fun k x => catalog_rewrite serverUrl (catalog_child r k) x)).
    + rewrite <- (catalog_map (fun k x => catalog_rewrite serverUrl (catalog_child r k) x)).
      by destruct r.
Qed.

Lemma catalog_at (serverUrl : string) (r : catalog_role) (v : json) (p : place) :
  inside_replaced r p = false ->
  json_at (catalog_rewrite serverUrl r v) p =
  catalog_rewrite serverUrl (catalog_role_at r p) <$> json_at v p.
Proof.
  revert r v. induction p as [|s p IH]; intros r v; [done|].
  simpl. rewrite orb_false_iff, bool_decide_eq_false. intros [Hr Hp].
  rewrite !json_at_cons, catalog_step by naive_solver.
  destruct (place_value v s) as [x|]; [|done]. simpl. destruct s as [key|i]; simpl; [by apply IH|].
  rewrite catalog_opaque. destruct (json_at x p); simpl; [by rewrite catalog_opaque|done].
Qed.

(** The closure a member of the document itself is given to. *)
Definition catalog_root (key : string) : catalog_role :=
  if decide (key = "servers"%string) then RServers
  else if decide (key = "paths"%string) then RPaths
  else if decide (key = "webhooks"%string) then RCallback
  else if decide (key = "components"%string) then RComponents
  else ROpaque.

Lemma catalog_root_own (document : list (string * json)) (serverUrl key : string) :
  json_own key (rewriteSpecServers_catalog document serverUrl) =
  if decide (key = "servers"%string) then Some (servers_of serverUrl)
  else catalog_rewrite serverUrl (catalog_root key) <$> json_own key document.
Proof.
  unfold rewriteSpecServers_catalog, catalog_root. rewrite !json_own_edit.
  repeat (case_decide; simplify_eq); rewrite ?json_own_set_eq, ?json_own_set_ne by done;
    try done; destruct (json_own _ document); simpl; rewrite ?catalog_opaque; done.
Qed.

(** What the catalog shows where the provider's document has a value. *)
Definition catalog_shows (serverUrl : string) (r : catalog_role) (before after : option json) : Prop :=
  match r with
  | RServers => after = (fun _ => servers_of serverUrl) <$> before
  | RServer => after = (fun _ => JObj [("url"%string, JStr serverUrl)]) <$> before
  | ROpaque => after = before
  | _ => match before with
         | Some (JObj members) =>
             exists members', after = Some (JObj members') /\ members'.*1 = members.*1
         | _ => after = before
         end
  end.

Lemma catalog_rewrite_shows (serverUrl : string) (r : catalog_role) (before : option json) :
  catalog_shows serverUrl r before (catalog_rewrite serverUrl r <$> before).
Proof.
  assert (Hmap : forall (f : string -> json -> json) members,
    (map (fun '(key, child) => (key, f key child)) members : list (string * json)).*1 = members.*1).
  { intros f members. rewrite catalog_map. induction members as [|[k x] m IH]; [done|]. csimpl. by f_equal. }
  destruct before as [[| | | |items|members]|]; destruct r; simpl; try done;
    (eexists; split; [reflexivity|]); apply (Hmap (fun key child => catalog_rewrite _ _ child)).
Qed.

(** The document the catalog shows names no server but the gateway's at any
    place where OpenAPI has servers or a link's server, at whatever depth of
    callbacks, and is otherwise the provider's: every place the walk does not
    reach (a schema, an example, an extension) holds exactly what it held, every
    object it walks keeps its members in order. *)
Theorem catalog_shows_gateway (document : list (string * json)) (serverUrl : string) :
  let shown := rewriteSpecServers_catalog document serverUrl in
  json_own "servers" shown = Some (servers_of serverUrl) /\
  forall key p, key <> "servers"%string -> inside_replaced (catalog_root key) p = false ->
    catalog_shows serverUrl (catalog_role_at (catalog_root key) p)
      (json_at (JObj document) (Member key :: p)) (json_at (JObj shown) (Member key :: p)).
Proof.
  intros shown. split; [unfold shown; by rewrite catalog_root_own|].
  intros key p Hne Hp. rewrite !json_at_cons. simpl. unfold shown.
  rewrite catalog_root_own, decide_False by done.
  destruct (json_own key document) as [v|]; simpl.
  - rewrite catalog_at by done. apply catalog_rewrite_shows.
  - apply (catalog_rewrite_shows serverUrl _ None).
Qed.

(** *** The submitted document *)

Inductive strip_role : Type :=
| SPaths | SItems | SCallbacks | SComponents | SPathItem | SOperation
| SServers    (** removed *)
| SOpaque.    (** left as it is *)

#[export] Instance strip_role_eq_dec : EqDecision strip_role.
Proof. solve_decision. Defined.

Definition strip_child (r : strip_role) (key : string) : strip_role :=
  match r with
  | SPaths => if startsWith "/" key then SPathItem else SOpaque
  | SItems => SPathItem
  | SCallbacks => SItems
  | SComponents =>
      if decide (key = "pathItems"%string) then SItems
      else if decide (key = "callbacks"%string) then SCallbacks else SOpaque
  | SPathItem =>
      if decide (key = "servers"%string) then SServers
      else if decide (key ∈ OPENAPI_OPERATION_KEYS) then SOperation else SOpaque
  | SOperation => if decide (key = "servers"%string) then SServers else SOpaque
  | SServers | SOpaque => SOpaque
  end.

Definition strip_step (r : strip_role) (s : place_step) : strip_role :=
  match s with Member key => strip_child r key | Element _ => SOpaque end.

Definition operationWithoutServers (v : json) : json :=
  match v with JObj operation => JObj (json_delete "servers" operation) | _ => v end.

Definition componentsWithoutServers (v : json) : json :=
  match v with
  | JObj components =>
      JObj (edit_member "callbacks" callbacksWithoutServers
              (edit_member "pathItems" (pathItemsWithoutServers (fun _ => true)) components))
  | _ => v
  end.

(** What the walk does to a value, by where it is. *)
Definition stripped (r : strip_role) : json -> json :=
  match r with
  | SPaths => pathItemsWithoutServers (startsWith "/")
  | SItems => pathItemsWithoutServers (fun _ => true)
  | SCallbacks => callbacksWithoutServers
  | SComponents => componentsWithoutServers
  | SPathItem => pathItemWithoutServers
  | SOperation => operationWithoutServers
  | SServers | SOpaque => id
  end.

(** The removed places. *)
Fixpoint removed (r : strip_role) (p : place) : bool :=
  bool_decide (r = SServers) || match p with [] => false | s :: p => removed (strip_step r s) p end.

Fixpoint strip_role_at (r : strip_role) (p : place) : strip_role :=
  match p with [] => r | s :: p => strip_role_at (strip_step r s) p end.

Lemma method_fold_own (item copy : list (string * json)) (keys : list string) (k : string) :
  json_own k (fold_left (method_round item) keys copy) =
  if decide (k ∈ keys) then
    match json_own k item with
    | Some (JObj operation) =>
        if in_object "servers" operation then Some (JObj (json_delete "servers" operation))
        else json_own k copy
    | _ => json_own k copy
    end
  else json_own k copy.
Proof.
  revert copy. induction keys as [|key keys IH]; intros copy; simpl; [done|].
  rewrite IH. unfold method_round. destruct (decide (k = key)) as [->|Hne].
  - rewrite (decide_True (P := key ∈ key :: keys)) by set_solver.
    destruct (json_own key item) as [[| | | | |operation]|]; try (by case_decide).
    destruct (in_object "servers" operation); [|by case_decide].
    rewrite json_own_set_eq. by case_decide.
  - rewrite (decide_ext (k ∈ key :: keys) (k ∈ keys)) by set_solver.
    assert (Hstep : json_own k (match json_own key item with
                                | Some (JObj operation) =>
                                    if in_object "servers" operation
                                    then json_set key (JObj (json_delete "servers" operation)) copy
                                    else copy
                                | _ => copy
                                end) = json_own k copy).
    { destruct (json_own key item) as [[| | | | |operation]|]; try done.
      destruct (in_object "servers" operation); [by apply json_own_set_ne|done]. }
    by rewrite Hstep.
Qed.

Lemma in_object_false (key : string) (m : list (string * json)) :
  in_object key m = false -> json_own key m = None.
Proof. unfold in_object. by destruct (json_own key m). Qed.

Lemma delete_if_in (key : string) (m : list (string * json)) :
  (if in_object key m then json_delete key m else m) = json_delete key m.
Proof.
  destruct (in_object key m) eqn:Hin; [done|]. by rewrite json_delete_absent by by apply in_object_false.
Qed.

(** The members of a path item after the strip. *)
Lemma path_item_own (members : list (string * json)) (k : string) :
  json_own k (fold_left (method_round members) OPENAPI_OPERATION_KEYS
                (if in_object "servers" members then json_delete "servers" members else members)) =
  if decide (k = "servers"%string) then None
  else (if decide (k ∈ OPENAPI_OPERATION_KEYS) then operationWithoutServers else id) <$> json_own k members.
Proof.
  rewrite method_fold_own, delete_if_in. destruct (decide (k = "servers"%string)) as [->|Hne].
  - rewrite decide_False by (unfold OPENAPI_OPERATION_KEYS; set_solver). by rewrite json_own_delete_eq.
  - rewrite json_own_delete_ne by done. case_decide; [|by destruct (json_own k members)].
    destruct (json_own k members) as [[| | | | |operation]|]; simpl; try done.
    destruct (in_object "servers" operation) eqn:Hin; [done|].
    by rewrite json_delete_absent by by apply in_object_false.
Qed.

Lemma strip_opaque (v : json) : stripped SOpaque v = v.
Proof. done. Qed.

Lemma id_fmap {A} (o : option A) : id <$> o = o.
Proof. by destruct o. Qed.

#[local] Arguments startsWith : simpl never.

Lemma strip_step_at (r : strip_role) (v : json) (s : place_step) :
  r <> SServers ->
  place_value (stripped r v) s =
  if decide (strip_step r s = SServers) then None else stripped (strip_step r s) <$> place_value v s.
Proof.
  intros Hr. destruct v as [| | | |items|members];
    try (by destruct r, s as [key|i]; simpl; repeat case_decide).
  - replace (stripped r (JArr items)) with (JArr items) by (by destruct r).
    destruct s as [key|i]; simpl; [by case_decide|by rewrite id_fmap].
  - destruct s as [key|i]; [|by destruct r]. destruct r; try done;
      cbn [place_value stripped strip_step strip_child pathItemsWithoutServers callbacksWithoutServers
           componentsWithoutServers pathItemWithoutServers operationWithoutServers].
    + rewrite (json_own_map (fun k x => if startsWith "/" k then pathItemWithoutServers x else x)).
      destruct (startsWith "/" key); rewrite decide_False by done; [done|by destruct (json_own key members)].
    + by rewrite (json_own_map (fun _ x => pathItemWithoutServers x)).
    + by rewrite (json_own_map (fun _ x => pathItemsWithoutServers (fun _ => true) x)).
    + rewrite !json_own_edit. repeat (case_decide; simplify_eq); simpl; by rewrite ?id_fmap.
    + rewrite path_item_own. repeat (case_decide; simplify_eq); simpl; by rewrite ?id_fmap.
    + destruct (decide (key = "servers"%string)) as [->|Hne]; [by rewrite json_own_delete_eq|].
      rewrite json_own_delete_ne, decide_False by done. by rewrite id_fmap.
    + by rewrite id_fmap.
Qed.

Lemma strip_at (r : strip_role) (v : json) (p : place) :
  r <> SServers ->
  json_at (stripped r v) p =
  if removed r p then None else stripped (strip_role_at r p) <$> json_at v p.
Proof.
  revert r v. induction p as [|s p IH]; intros r v Hr; simpl;
    rewrite bool_decide_eq_false_2 by done; [done|].
  rewrite !json_at_cons, strip_step_at by done. simpl.
  destruct (decide (strip_step r s = SServers)) as [Hs|Hs].
  - rewrite Hs. by destruct p.
  - destruct (place_value v s) as [x|]; simpl; [by apply IH|]. by destruct (removed _ p).
Qed.

(** What the walk does to a member of the document itself. *)
Definition strip_root (key : string) : strip_role :=
  if decide (key = "paths"%string) then SPaths
  else if decide (key = "webhooks"%string) then SItems
  else if decide (key = "components"%string) then SComponents
  else SOpaque.

(** The rewrite, one member after the other. *)
Lemma rewrite_routes_edits (document : list (string * json)) (serverUrl : string) :
  rewriteSpecServers_routes document serverUrl =
  edit_member "components" (stripped SComponents)
    (edit_member "webhooks" (stripped SItems)
      (edit_member "paths" (stripped SPaths)
        (json_set "servers" (servers_of serverUrl) document))).
Proof.
  unfold rewriteSpecServers_routes. cbn [stripped].
  generalize (edit_member "webhooks" (pathItemsWithoutServers (fun _ => true))
    (edit_member "paths" (pathItemsWithoutServers (startsWith "/"))
      (json_set "servers" (servers_of serverUrl) document))) as submitted.
  intros submitted. unfold edit_member at 3. destruct (json_own "components" submitted) as [[]|] eqn:Hown;
    try done; symmetry; by apply json_set_same.
Qed.

Lemma rewrite_routes_own (document : list (string * json)) (serverUrl key : string) :
  json_own key (rewriteSpecServers_routes document serverUrl) =
  if decide (key = "servers"%string) then Some (servers_of serverUrl)
  else stripped (strip_root key) <$> json_own key document.
Proof.
  rewrite rewrite_routes_edits, !json_own_edit. unfold strip_root.
  repeat (case_decide; simplify_eq); rewrite ?json_own_set_eq, ?json_own_set_ne by done; try done;
    by rewrite ?id_fmap.
Qed.

Lemma strip_root_kept (key : string) : strip_root key <> SServers.
Proof. unfold strip_root. by repeat case_decide. Qed.

Lemma stripped_object (r : strip_role) (v : json) :
  match v with
  | JObj _ => exists members, stripped r v = JObj members
  | _ => stripped r v = v
  end.
Proof. destruct v; [by destruct r..|]. destruct r; simpl; eauto. Qed.

(** A member of the document, value for value. *)
Lemma strip_member (key : string) (v : option json) (p : place) :
  if removed (strip_root key) p then (stripped (strip_root key) <$> v) ≫= (fun x => json_at x p) = None
  else match v ≫= fun x => json_at x p with
       | Some (JObj _) =>
           exists members, (stripped (strip_root key) <$> v) ≫= (fun x => json_at x p) = Some (JObj members)
       | before => (stripped (strip_root key) <$> v) ≫= (fun x => json_at x p) = before
       end.
Proof.
  destruct v as [v|]; simpl; [|by destruct (removed _ p)].
  rewrite strip_at by apply strip_root_kept. destruct (removed _ p); [done|].
  destruct (json_at v p) as [x|]; simpl; [|done].
  pose proof (stripped_object (strip_role_at (strip_root key) p) x) as Hx.
  destruct x; try by rewrite Hx. destruct Hx as [members ->]. by exists members.
Qed.

(** *** What is submitted *)

Lemma json_own_filter_keys (keep : string -> bool) (k : string) (m : list (string * json)) :
  json_own k (List.filter (fun kv => keep kv.1) m) = if keep k then json_own k m else None.
Proof.
  induction m as [|[k' x] m IH]; simpl; [by destruct (keep k)|].
  destruct (keep k') eqn:Hk'; simpl; case_decide as Heq; subst; rewrite ?Hk'; try done.
  by rewrite IH, Hk'.
Qed.

(** The keys of the gateway's extensions. *)
Abbreviation is_ferrum := (startsWith "x-ferrum-").

Definition submitted_of (document : list (string * json)) : list (string * json) :=
  rewriteSpecServers_routes (List.filter (fun kv => negb (is_ferrum kv.1)) document) "/".

Definition stamped (proxy submitted : list (string * json)) : list (string * json) :=
  json_set "x-ferrum-validate" (JObj ROUTES_VALIDATE_EXTENSION)
    (json_set "x-ferrum-proxy" (JObj proxy) submitted).

Lemma submitted_own (document : list (string * json)) (key : string) :
  json_own key (submitted_of document) =
  if is_ferrum key then None
  else if decide (key = "servers"%string) then Some (servers_of "/")
  else stripped (strip_root key) <$> json_own key document.
Proof.
  unfold submitted_of. rewrite rewrite_routes_own.
  rewrite (json_own_filter_keys (fun k => negb (is_ferrum k))).
  destruct (decide (key = "servers"%string)) as [->|Hne]; [done|]. by destruct (is_ferrum key).
Qed.

Lemma stamped_own (document proxy : list (string * json)) (key : string) :
  is_ferrum key = false ->
  json_own key (stamped proxy (submitted_of document)) =
  if decide (key = "servers"%string) then Some (servers_of "/")
  else stripped (strip_root key) <$> json_own key document.
Proof.
  intros Hkey. unfold stamped.
  rewrite !json_own_set_ne by (intros ->; by vm_compute in Hkey). by rewrite submitted_own, Hkey.
Qed.

(** The rewrite changes no reference. *)
Lemma refused_path_stripped (kv : string * json) :
  refused_path (kv.1, if startsWith "/" kv.1 then pathItemWithoutServers kv.2 else kv.2) = refused_path kv.
Proof.
  destruct kv as [k v]. unfold refused_path. cbn [fst snd]. destruct (startsWith "/" k); [|done].
  destruct v as [| | | | |item]; try done. unfold pathItemWithoutServers. rewrite path_item_own.
  rewrite decide_False by done. rewrite decide_False by (unfold OPENAPI_OPERATION_KEYS; set_solver).
  by rewrite id_fmap.
Qed.

Lemma find_map {A B} (f : A -> B) (P : B -> bool) (l : list A) :
  List.find P (map f l) = f <$> List.find (fun x => P (f x)) l.
Proof. induction l as [|x l IH]; simpl; [done|]. by destruct (P (f x)). Qed.

Lemma find_ext_bool {A} (P Q : A -> bool) (l : list A) :
  (forall x, P x = Q x) -> List.find P l = List.find Q l.
Proof. intros H. induction l as [|x l IH]; simpl; [done|]. by rewrite H, IH. Qed.

Lemma assert_stamped (document proxy : list (string * json)) :
  assertRoutesSubmittable Routes document = Ok tt ->
  assertRoutesSubmittable Routes (stamped proxy (submitted_of document)) = Ok tt.
Proof.
  unfold assertRoutesSubmittable. rewrite !decide_True, stamped_own by done.
  rewrite decide_False by done. change (strip_root "paths") with SPaths.
  destruct (json_own "paths" document) as [[| | | | |paths]|]; simpl; try done.
  rewrite find_map, (find_ext_bool (fun kv => refused_path
    (kv.1, if startsWith "/" kv.1 then pathItemWithoutServers kv.2 else kv.2)) refused_path)
    by apply refused_path_stripped.
  by destruct (List.find refused_path paths) as [[]|].
Qed.

(** ** The rewrite settles *)

Lemma method_round_settled (item copy : list (string * json)) (keys : list string) :
  (forall k operation, k ∈ keys -> json_own k item = Some (JObj operation) ->
     json_own "servers" operation = None) ->
  fold_left (method_round item) keys copy = copy.
Proof.
  induction keys as [|key keys IH]; intros Hkeys; [done|]. cbn [fold_left].
  assert (Hstep : method_round item copy key = copy).
  { unfold method_round. destruct (json_own key item) as [[| | | | |operation]|] eqn:Hop; try done.
    unfold in_object. by rewrite (Hkeys key operation) by (done || left). }
  rewrite Hstep. apply IH. intros k operation Hk. apply Hkeys. by right.
Qed.

Lemma path_item_settled (v : json) :
  pathItemWithoutServers (pathItemWithoutServers v) = pathItemWithoutServers v.
Proof.
  destruct v as [| | | | |members]; try done. unfold pathItemWithoutServers at 2 3.
  set (result := fold_left _ _ _).
  assert (Hown : forall k, json_own k result = if decide (k = "servers"%string) then None
    else (if decide (k ∈ OPENAPI_OPERATION_KEYS) then operationWithoutServers else id) <$> json_own k members).
  { intros k. apply path_item_own. }
  unfold pathItemWithoutServers. unfold in_object. rewrite Hown, decide_True by done.
  rewrite method_round_settled; [done|]. intros k operation Hk Hop.
  rewrite Hown, decide_False, decide_True in Hop by (try done; intros ->; by vm_compute in Hk).
  destruct (json_own k members) as [[| | | | |op]|]; simpl in Hop; try done.
  injection Hop as <-. apply json_own_delete_eq.
Qed.

Lemma map_members_settled (f : string -> json -> json) (members : list (string * json)) :
  (forall k v, f k (f k v) = f k v) ->
  map (fun kv => (kv.1, f kv.1 kv.2)) (map (fun kv => (kv.1, f kv.1 kv.2)) members) =
  map (fun kv => (kv.1, f kv.1 kv.2)) members.
Proof. intros Hf. rewrite map_map. apply map_ext. intros [k v]. simpl. by rewrite Hf. Qed.

Lemma path_items_settled (holds : string -> bool) (v : json) :
  pathItemsWithoutServers holds (pathItemsWithoutServers holds v) = pathItemsWithoutServers holds v.
Proof.
  destruct v as [| | | | |members]; try done. unfold pathItemsWithoutServers. f_equal.
  apply (map_members_settled (fun k x => if holds k then pathItemWithoutServers x else x)).
  intros k x. destruct (holds k); [apply path_item_settled|done].
Qed.

Lemma callbacks_settled (v : json) :
  callbacksWithoutServers (callbacksWithoutServers v) = callbacksWithoutServers v.
Proof.
  destruct v as [| | | | |members]; try done. unfold callbacksWithoutServers. f_equal.
  apply (map_members_settled (fun _ => pathItemsWithoutServers (fun _ => true))).
  intros _ x. apply path_items_settled.
Qed.

Lemma edit_settled (key : string) (f : json -> json) (m : list (string * json)) :
  (forall v, json_own key m = Some v -> f v = v) -> edit_member key f m = m.
Proof.
  intros Hf. unfold edit_member. destruct (json_own key m) as [v|] eqn:Hown; [|done].
  rewrite Hf by done. by apply json_set_same.
Qed.

Lemma components_settled (v : json) :
  componentsWithoutServers (componentsWithoutServers v) = componentsWithoutServers v.
Proof.
  destruct v as [| | | | |members]; try done. unfold componentsWithoutServers. f_equal.
  rewrite (edit_settled "pathItems"), (edit_settled "callbacks"); [done|..].
  - intros v. rewrite json_own_edit, decide_True by done.
    destruct (json_own _ _); simpl; [|done]. intros [= <-]. apply callbacks_settled.
  - intros v. rewrite !json_own_edit, decide_False, decide_True by done.
    destruct (json_own _ _); simpl; [|done]. intros [= <-]. apply path_items_settled.
Qed.

Lemma strip_root_settled (key : string) (v : json) :
  stripped (strip_root key) (stripped (strip_root key) v) = stripped (strip_root key) v.
Proof.
  unfold strip_root. repeat case_decide; simpl;
    [apply path_items_settled|apply path_items_settled|apply components_settled|done].
Qed.

Lemma filter_all_keys (keep : string -> bool) (m : list (string * json)) :
  (forall k, keep k = false -> json_own k m = None) ->
  List.filter (fun kv => keep kv.1) m = m.
Proof.
  intros Hkeep. apply forallb_filter_id, forallb_forall. intros [k v] Hin. simpl.
  destruct (keep k) eqn:Hk; [done|]. apply list_elem_of_In in Hin.
  specialize (Hkeep k Hk). apply json_own_none in Hkeep. destruct Hkeep.
  apply list_elem_of_fmap. by exists (k, v).
Qed.

Lemma filter_set_out (keep : string -> bool) (key : string) (v : json) (m : list (string * json)) :
  keep key = false -> List.filter (fun kv => keep kv.1) (json_set key v m) =
                      List.filter (fun kv => keep kv.1) m.
Proof.
  intros Hk. induction m as [|[k x] m IH]; simpl; [by rewrite Hk|].
  case_decide as Heq; simpl; [by subst; rewrite Hk|]. by rewrite IH.
Qed.

Lemma submitted_settled (document proxy : list (string * json)) :
  submitted_of (stamped proxy (submitted_of document)) = submitted_of document.
Proof.
  unfold submitted_of at 1. unfold stamped.
  rewrite !(filter_set_out (fun k => negb (is_ferrum k))) by done.
  rewrite (filter_all_keys (fun k => negb (is_ferrum k))).
  - rewrite rewrite_routes_edits, json_set_same by (by rewrite submitted_own).
    assert (Hsame : forall key, is_ferrum key = false -> key <> "servers"%string ->
      edit_member key (stripped (strip_root key)) (submitted_of document) = submitted_of document).
    { intros key Hf Hs. apply edit_settled. intros v. rewrite submitted_own, Hf, decide_False by done.
      destruct (json_own key document); [|done]. intros [= <-]. apply strip_root_settled. }
    change SPaths with (strip_root "paths"). rewrite Hsame by done.
    change SItems with (strip_root "webhooks"). rewrite Hsame by done.
    change SComponents with (strip_root "components"). by apply Hsame.
  - intros k Hk%negb_false_iff. by rewrite submitted_own, Hk.
Qed.

Lemma routes_unfold (document proxy : list (string * json)) :
  routesSpecDocument document proxy =
  match assertRoutesSubmittable Routes document with
  | Ok _ => Ok (stamped proxy (submitted_of document))
  | Throw e => Throw e
  end.
Proof. unfold routesSpecDocument. by destruct (assertRoutesSubmittable Routes document). Qed.

(** Every path template that refers to an item refers where the walk goes. *)
Definition references_stripped (document : list (string * json)) : Prop :=
  forall paths path item reference,
    json_own "paths" document = Some (JObj paths) -> (path, JObj item) ∈ paths ->
    startsWith "/" path = true -> json_own "$ref" item = Some reference ->
    exists text pointer, reference = JStr text /\ pointer ∈ RESOLVABLE_PATH_ITEM_POINTERS /\
                         startsWith pointer text = true.

Lemma assert_submittable_spec (document : list (string * json)) :
  match assertRoutesSubmittable Routes document with
  | Ok _ => references_stripped document
  | Throw (UnresolvablePathItemRef path) => ~ references_stripped document
  end.
Proof.
  unfold assertRoutesSubmittable. rewrite decide_True by done.
  destruct (json_own "paths" document) as [[| | | | |paths]|] eqn:Hpaths; simpl;
    try (intros ? ? ? ? ?; congruence).
  destruct (List.find refused_path paths) as [[path v]|] eqn:Hfind.
  - apply find_some in Hfind as [Hin Href]. intros Hall. unfold refused_path in Href.
    cbn [fst snd] in Href. apply andb_prop in Href as [Hslash Href]. destruct v as [| | | | |item]; try done.
    destruct (json_own "$ref" item) as [reference|] eqn:Hr; [|done].
    destruct (Hall paths path item reference) as (text & pointer & -> & Hp & Hs); try done.
    { by apply list_elem_of_In. }
    unfold resolvable_ref in Href. apply negb_true_iff, not_true_iff_false in Href. apply Href.
    apply existsb_exists. exists pointer. split; [by apply list_elem_of_In|done].
  - intros paths' path item reference Heq Hin Hslash Hr. rewrite Hpaths in Heq. injection Heq as <-.
    pose proof (find_none _ _ Hfind (path, JObj item) (proj1 (list_elem_of_In _ _) Hin)) as Hno.
    unfold refused_path in Hno. cbn [fst snd] in Hno. rewrite Hslash, Hr in Hno. simpl in Hno.
    apply negb_false_iff, existsb_exists in Hno as (pointer & Hp & Hs). apply list_elem_of_In in Hp.
    destruct reference as [| | |text| |];
      try (exfalso; unfold RESOLVABLE_PATH_ITEM_POINTERS in Hp;
           repeat (apply elem_of_cons in Hp as [->|Hp]; [done|]); by apply elem_of_nil in Hp).
    by exists text, pointer.
Qed.

(** A document is submitted only when every path that refers to an item
    refers into what the walk strips, and otherwise refused. The submitted
    document has the gateway's own server and extensions and no other extension
    of the gateway's; no path item of its paths, webhooks, component path items or
    component callbacks, and no operation of one, has servers of its own; all
    else is the provider's, value for value; and submitting it again changes nothing. *)
Theorem routes_document (document proxy : list (string * json)) :
  match routesSpecDocument document proxy with
  | Throw (UnresolvablePathItemRef path) => ~ references_stripped document
  | Ok submitted =>
      references_stripped document /\
      json_own "servers" submitted = Some (servers_of "/") /\
      json_own "x-ferrum-proxy" submitted = Some (JObj proxy) /\
      json_own "x-ferrum-validate" submitted = Some (JObj ROUTES_VALIDATE_EXTENSION) /\
      (forall key, is_ferrum key = true -> is_Some (json_own key submitted) ->
         key = "x-ferrum-proxy"%string \/ key = "x-ferrum-validate"%string) /\
      (forall key p, is_ferrum key = false -> key <> "servers"%string ->
         if removed (strip_root key) p then json_at (JObj submitted) (Member key :: p) = None
         else match json_at (JObj document) (Member key :: p) with
              | Some (JObj _) => exists members, json_at (JObj submitted) (Member key :: p) = Some (JObj members)
              | before => json_at (JObj submitted) (Member key :: p) = before
              end) /\
      routesSpecDocument submitted proxy = Ok submitted
  end.
Proof.
  rewrite routes_unfold. pose proof (assert_submittable_spec document) as Hspec.
  destruct (assertRoutesSubmittable Routes document) as [[]|[path]] eqn:Hassert; [|done].
  split_and!; [done|by rewrite stamped_own| | | | |].
  - unfold stamped. by rewrite json_own_set_ne, json_own_set_eq.
  - unfold stamped. by rewrite json_own_set_eq.
  - intros key Hf [v Hv]. unfold stamped in Hv.
    destruct (decide (key = "x-ferrum-validate"%string)); [by right|]. rewrite json_own_set_ne in Hv by done.
    destruct (decide (key = "x-ferrum-proxy"%string)); [by left|]. rewrite json_own_set_ne in Hv by done.
    by rewrite submitted_own, Hf in Hv.
  - intros key p Hf Hs. rewrite !json_at_cons. simpl. rewrite stamped_own, decide_False by done.
    apply strip_member.
  - by rewrite routes_unfold, assert_stamped, submitted_settled.
Qed.

(** A body of an existing proxy holds every field but those the importer sets. *)
Lemma submittable_body_own (proxy : list (string * json)) (k : string) :
  json_own k (submittableProxyBody proxy) =
  if decide (k ∈ NON_SUBMITTABLE_PROXY_FIELDS) then None else json_own k proxy.
Proof.
  unfold submittableProxyBody. revert proxy. generalize NON_SUBMITTABLE_PROXY_FIELDS as fields.
  induction fields as [|field fields IH]; intros proxy; cbn [fold_left];
    [by rewrite decide_False by set_solver|].
  rewrite IH. destruct (decide (k = field)) as [->|Hne].
  - rewrite json_own_delete_eq, (decide_True (P := field ∈ field :: fields)) by set_solver.
    by case_decide.
  - rewrite json_own_delete_ne by done. by rewrite (decide_ext (k ∈ field :: fields) (k ∈ fields)) by set_solver.
Qed.

(** ** Samples *)

(** A path that refers to a path item inside an operation's callback. *)
Definition sample_deep_reference : list (string * json) :=
  [("paths", JObj
     [("/a", JObj [("$ref", JStr "#/paths/~1b/post/callbacks/done/x")]);
      ("/b", JObj [("post", JObj [("callbacks", JObj [("done", JObj [("x",
         JObj [("servers", JArr [JObj [("url", JStr "/other")]]); ("get", JObj [])])])])])])])]%string.

(** It is submitted, and the item the path refers to keeps its servers. *)
Example deep_reference_keeps_servers :
  match routesSpecDocument sample_deep_reference [] with
  | Ok submitted =>
      resolveOpenApiPointer (JObj submitted) "#/paths/~1b/post/callbacks/done/x" =
      Some (JObj [("servers", JArr [JObj [("url", JStr "/other")]]); ("get", JObj [])])%string
  | Throw _ => False
  end.
Proof. reflexivity. Qed.

Theorem catalog_shows_gateway_witness :
  json_at (JObj (rewriteSpecServers_catalog sample_deep_reference "https://edge"))
    [Member "paths"; Member "/b"; Member "post"; Member "callbacks"; Member "done"; Member "x"; Member "servers"] =
  Some (servers_of "https://edge").
Proof.
  exact (proj2 (catalog_shows_gateway sample_deep_reference "https://edge") "paths"
    [Member "/b"; Member "post"; Member "callbacks"; Member "done"; Member "x"; Member "servers"]
    ltac:(discriminate) eq_refl).
Defined.
