(* ===== verification/SpecKeys.v ===== *)
(** * Comparison keys of provider text

    [server/src/publishing/spec-keys.ts]: texts as keys of bounded length, and
    what keying them costs a comparison. *)

From Stdlib Require Import Ascii.
From S2P Require Import Prelude Json Regexp OpenApi.
Open Scope Z_scope.

Definition SPEC_KEY_CODE_UNITS_PER_UNIT : Z := 256.

Definition MAX_VERBATIM_KEY_LENGTH : Z := 64.

(** What [node:crypto] provides: the SHA-256 digest of the text's code units, in
    base64. *)
Class Sha256 : Type := sha256_base64 : string -> string.

(** No two texts collide. *)
Class CollisionFree `{Sha256} : Prop :=
  sha256_inj : forall a b, sha256_base64 a = sha256_base64 b -> a = b.

Definition compactSpecKey `{Sha256} (text : string) : string :=
  if decide (Z.of_nat (String.length text) <= MAX_VERBATIM_KEY_LENGTH) then "=" +:+ text
  else "#" +:+ pretty (Z.of_nat (String.length text)) +:+ ":" +:+ sha256_base64 text.

(** ** The charge for keying *)

(** The closure's [total] and [charged]. *)
Record KeyTextCharge : Type := { kt_total : Z; kt_charged : Z }.

Definition createKeyTextCharge : KeyTextCharge := {| kt_total := 0; kt_charged := 0 |}.

(** The units to [spend], none when nothing is due. *)
Definition spendUpTo (units : Z) (k : KeyTextCharge) : option Z * KeyTextCharge :=
  let due := units - kt_charged k in
  if decide (due <= 0) then (None, k) else (Some due, {| kt_total := kt_total k; kt_charged := units |}).

Definition charge (codeUnits : Z) (k : KeyTextCharge) : option Z * KeyTextCharge :=
  let total := kt_total k + codeUnits in
  spendUpTo (total / SPEC_KEY_CODE_UNITS_PER_UNIT) {| kt_total := total; kt_charged := kt_charged k |}.

(** [Math.ceil(n / d)]. *)
Definition ceil_div (n d : Z) : Z := (n + d - 1) / d.

Definition settle (k : KeyTextCharge) : option Z * KeyTextCharge :=
  spendUpTo (ceil_div (kt_total k) SPEC_KEY_CODE_UNITS_PER_UNIT) k.

(** The units a sequence of charges spends. *)
Fixpoint charge_all (units : list Z) (k : KeyTextCharge) : Z * KeyTextCharge :=
  match units with
  | [] => (0, k)
  | n :: rest =>
      let '(due, k) := charge n k in
      let '(spent, k) := charge_all rest k in
      (default 0 due + spent, k)
  end.

(** ** Facts *)

(** Between calls the charge has spent the whole units the total has passed. *)
Definition charge_exact (k : KeyTextCharge) : Prop :=
  0 <= kt_total k /\ kt_charged k = kt_total k / SPEC_KEY_CODE_UNITS_PER_UNIT.

Lemma charge_spec (n : Z) (k : KeyTextCharge) :
  charge_exact k -> 0 <= n ->
  charge_exact (charge n k).2 /\ kt_total (charge n k).2 = kt_total k + n /\
  default 0 (charge n k).1 = (kt_total k + n) / SPEC_KEY_CODE_UNITS_PER_UNIT
                             - kt_total k / SPEC_KEY_CODE_UNITS_PER_UNIT /\
  (forall due, (charge n k).1 = Some due -> 0 < due).
Proof.
  intros [Hk Hc] Hn. unfold charge, spendUpTo, charge_exact, SPEC_KEY_CODE_UNITS_PER_UNIT in *.
  pose proof (Z.div_le_mono (kt_total k) (kt_total k + n) 256).
  simpl. rewrite Hc. case_decide; simpl; split_and!; try done; try lia.
  - intros due [= <-]. lia.
Qed.

Lemma key_settle_spec (k : KeyTextCharge) :
  charge_exact k ->
  default 0 (settle k).1 = ceil_div (kt_total k) SPEC_KEY_CODE_UNITS_PER_UNIT
                           - kt_total k / SPEC_KEY_CODE_UNITS_PER_UNIT /\
  (forall due, (settle k).1 = Some due -> 0 < due).
Proof.
  intros [Hk Hc]. unfold settle, spendUpTo, ceil_div, SPEC_KEY_CODE_UNITS_PER_UNIT in *.
  pose proof (Z.div_le_mono (kt_total k) (kt_total k + 256 - 1) 256).
  rewrite Hc. case_decide; simpl; split_and!; try done; try lia.
  - intros due [= <-]. lia.
Qed.

(** Keying any texts and settling costs their total length in units, rounded up
    once. *)
Lemma charge_all_total (units : list Z) (k : KeyTextCharge) :
  charge_exact k -> Forall (fun n => 0 <= n) units ->
  let '(spent, k') := charge_all units k in
  charge_exact k' /\ kt_total k' = kt_total k + z_sum units /\
  spent + default 0 (settle k').1 = ceil_div (kt_total k + z_sum units) SPEC_KEY_CODE_UNITS_PER_UNIT
                                    - kt_total k / SPEC_KEY_CODE_UNITS_PER_UNIT.
Proof.
  intros Hk Hn. revert k Hk. induction Hn as [|n units Hn _ IH]; intros k Hk; simpl.
  - destruct (key_settle_spec k Hk) as [-> _]. rewrite Z.add_0_r. split_and!; [done|lia|lia].
  - destruct (charge_spec n k Hk Hn) as (Hk1 & Ht & Hd & _). destruct (charge n k) as [due k1].
    simpl in *. specialize (IH k1 Hk1). destruct (charge_all units k1) as [spent k2].
    destruct IH as (Hk2 & Ht2 & Hs). rewrite Ht in *.
    split_and!; [done|lia|]. rewrite Hd, Z.add_assoc. lia.
Qed.

Lemma pretty_N_go_digits (n : N) (s : string) :
  string_all is_digit s = true -> string_all is_digit (pretty_N_go n s) = true.
Proof.
  revert s. induction (N.lt_wf_0 n) as [n _ IH]. intros s Hs.
  destruct (decide (n = 0)%N) as [->|Hn]; [done|]. rewrite pretty_N_go_step by lia.
  apply IH; [apply N.div_lt; lia|]. cbn [string_all]. rewrite Hs, andb_true_r.
  unfold pretty_N_char. by repeat case_match.
Qed.

Lemma pretty_nonneg_digits (n : Z) : 0 <= n -> string_all is_digit (pretty n) = true.
Proof.
  intros Hn. destruct n as [|p|p]; [done| |lia]. unfold pretty, pretty_Z.
  change (string_all is_digit (pretty (N.pos p)) = true). unfold pretty, pretty_N.
  case_decide; [done|]. by apply pretty_N_go_digits.
Qed.

(** A text that starts with digits and a colon is read in one way. *)
Lemma digits_colon_inj (d1 d2 s1 s2 : string) :
  string_all is_digit d1 = true -> string_all is_digit d2 = true ->
  d1 +:+ String ":" s1 = d2 +:+ String ":" s2 -> d1 = d2 /\ s1 = s2.
Proof.
  revert d2. induction d1 as [|c d1 IH]; intros [|c2 d2] H1 H2 Heq;
    rewrite ?string_app_cons, ?string_app_nil_l in Heq; simplify_eq/=; bool_to_prop; try done.
  by destruct (IH d2) as [-> ->].
Qed.

Lemma string_app_inj_length (a1 a2 b1 b2 : string) :
  String.length a1 = String.length a2 -> a1 +:+ b1 = a2 +:+ b2 -> a1 = a2 /\ b1 = b2.
Proof.
  revert a2. induction a1 as [|c a1 IH]; intros [|c2 a2] Hl Heq;
    rewrite ?string_app_cons, ?string_app_nil_l in Heq; simplify_eq/=; try done.
  by destruct (IH a2) as [-> ->].
Qed.

Lemma pretty_length_inj (a b : string) :
  pretty (Z.of_nat (String.length a)) = pretty (Z.of_nat (String.length b)) ->
  String.length a = String.length b.
Proof. intros H. apply (inj pretty) in H. lia. Qed.

Lemma compactSpecKey_inj `{CollisionFree} (a b : string) :
  compactSpecKey a = compactSpecKey b -> a = b.
Proof.
  unfold compactSpecKey. repeat case_decide; intros Heq.
  - by apply string_app_inj_l in Heq.
  - done.
  - done.
  - apply string_app_inj_l in Heq.
    apply (digits_colon_inj _ _ (sha256_base64 a) (sha256_base64 b)) in Heq as [_ Heq];
      [by apply sha256_inj|apply pretty_nonneg_digits; lia..].
Qed.

(** A header's name is compared without its case. *)
Definition folded_name (location name : string) : string :=
  if decide (location = "header"%string) then toLowerCase name else name.

(** Two parameters share a comparison key exactly when they have the same
    [in] and the same name (without its case for a header), whatever characters
    and lengths they have: no [in] and [name] run together into another pair's
    key, and a short text never shares a key with a long one. *)
Theorem parameter_key_identity `{CollisionFree} (location1 name1 location2 name2 : string) :
  parameterKey compactSpecKey location1 name1 = parameterKey compactSpecKey location2 name2 <->
  location1 = location2 /\ folded_name location1 name1 = folded_name location2 name2.
Proof.
  unfold parameterKey, folded_name. split; [|by intros [<- <-]].
  intros [Hlen Heq]%digits_colon_inj; [|apply pretty_nonneg_digits; lia..].
  apply pretty_length_inj in Hlen.
  apply string_app_inj_length in Heq as [Hloc Hname]; [|done].
  injection Hname as Hname. apply compactSpecKey_inj in Hloc, Hname. done.
Qed.

Definition plain_digest : Sha256 := fun text => text.

Theorem parameter_key_identity_witness :
  parameterKey (@compactSpecKey plain_digest) "header" "X-Trace" =
    parameterKey (@compactSpecKey plain_digest) "header" "x-trace" <->
  "header"%string = "header"%string /\
    folded_name "header" "X-Trace" = folded_name "header" "x-trace".
Proof. apply (@parameter_key_identity plain_digest (fun a b H => H)). Defined.
