(* ===== verification/SpecDiff.v ===== *)
(** * The comparison of two revisions

    [server/src/publishing/spec-diff.ts]: the operations of an OpenAPI document
    with their effective parameters, compared operation by operation within a
    fixed budget of work. *)

From Stdlib Require Import Ascii.
From S2P Require Import Prelude Json OpenApi SpecKeys.
Open Scope Z_scope.

Definition OPERATION_KEYS : list string :=
  ["get"; "put"; "post"; "delete"; "options"; "head"; "patch"; "trace"]%string.

Definition OPERATION_MEMBERS : list string :=
  ["summary"; "description"; "operationId"; "tags"; "parameters"; "requestBody"; "responses";
   "callbacks"; "deprecated"; "security"; "servers"]%string.

Definition MAX_SPEC_RENDER_UNITS : Z := 100000.
Definition MAX_SPEC_DIFF_UNITS : Z := 5 * MAX_SPEC_RENDER_UNITS.

(** [key.toUpperCase()] of a method. *)
Definition ascii_upper (c : ascii) : ascii :=
  let n := nat_of_ascii c in
  if decide (97 <= n <= 122)%nat then ascii_of_nat (n - 32) else c.

Fixpoint toUpperCase (s : string) : string :=
  match s with
  | EmptyString => EmptyString
  | String c s' => String (ascii_upper c) (toUpperCase s')
  end.

Definition operation_key (key path : string) : string := toUpperCase key +:+ " " +:+ path.

(** ** Work within a budget

    What [diffSpecDocuments] closes over: the units spent, the charge for keyed
    text, and the resolver and keyer of the document at hand. *)
Record diff_state : Type := {
  d_units : Z;
  d_text : KeyTextCharge;
  d_resolver : resolver;
  d_keys : gmap place (option string);
}.

(** [BudgetExhausted], which the comparison catches; the other is the bound of
    the model's recursion, which nothing reaches. *)
Inductive diff_exn : Type := BudgetExhausted | OutOfFuel.

#[export] Instance diff_exn_eq_dec : EqDecision diff_exn.
Proof. solve_decision. Defined.

Definition Spend (A : Type) : Type := Z -> diff_state -> res diff_exn A * diff_state.

#[export] Instance Spend_ret : MRet Spend := fun A a _ st => (Ok a, st).
#[export] Instance Spend_bind : MBind Spend := fun A B k m limit st =>
  match m limit st with
  | (Ok a, st) => k a limit st
  | (Throw e, st) => (Throw e, st)
  end.

Definition spend (amount : Z) : Spend unit := fun limit st =>
  let units := d_units st + amount in
  let st := {| d_units := units; d_text := d_text st; d_resolver := d_resolver st; d_keys := d_keys st |} in
  if decide (limit < units) then (Throw BudgetExhausted, st) else (Ok tt, st).

Definition set_text (k : KeyTextCharge) (st : diff_state) : diff_state :=
  {| d_units := d_units st; d_text := k; d_resolver := d_resolver st; d_keys := d_keys st |}.

(** [keyText.charge] and [keyText.settle], whose [spend] this is. *)
Definition pay (f : KeyTextCharge -> option Z * KeyTextCharge) : Spend unit := fun limit st =>
  let '(due, k) := f (d_text st) in
  match due with
  | Some amount => spend amount limit (set_text k st)
  | None => (Ok tt, set_text k st)
  end.

Definition set_resolver (r : resolver) (st : diff_state) : diff_state :=
  {| d_units := d_units st; d_text := d_text st; d_resolver := r; d_keys := d_keys st |}.

Definition set_keys (keys : gmap place (option string)) (st : diff_state) : diff_state :=
  {| d_units := d_units st; d_text := d_text st; d_resolver := d_resolver st; d_keys := keys |}.

(** [resolver.resolve]. The comparison does not apply reference siblings. *)
Definition spend_resolve (document : json) (value : object) : Spend OpenApiRefResolution :=
  fun limit st =>
    match resolve document false (follow_fuel document) (d_resolver st) value with
    | Some (r, resolution) => (Ok resolution, set_resolver r st)
    | None => (Throw OutOfFuel, st)
    end.

(** ** The result *)

Record SpecOperationRef : Type := { so_method : string; so_path : string }.

Record SpecOperationChange : Type := { sc_ref : SpecOperationRef; sc_changes : list string }.

Record SpecInfoChange : Type := {
  si_field : string;
  si_from : option string;
  si_to : option string;
}.

Record SpecDiff {summary : Type} : Type := {
  sd_from : option summary;
  sd_to : option summary;
  sd_added_operations : list SpecOperationRef;
  sd_removed_operations : list SpecOperationRef;
  sd_changed_operations : list SpecOperationChange;
  sd_added_paths : list string;
  sd_removed_paths : list string;
  sd_info_changes : list SpecInfoChange;
  sd_servers_changed : bool;
  sd_potentially_breaking : list SpecOperationRef;
  sd_complete : bool;
  sd_changed : bool;
}.
Arguments SpecDiff : clear implicits.

(** A document with the summary the diff reports for it. *)
Record diff_input {summary : Type} : Type := {
  di_document : list (string * json);
  di_summary : option summary;
}.
Arguments diff_input : clear implicits.

Section Diff.
Context `{Sha256}.

(** [keyer.keyOf], with [onKey] charging the text before the key is kept. *)
Definition spend_keyOf (resolution : option OpenApiRefResolution) : Spend (option string) :=
  fun limit st =>
    let '(key, codeUnits, keys) := keyOf compactSpecKey (d_keys st) resolution in
    match codeUnits with
    | Some n =>
        match pay (charge n) limit st with
        | (Ok _, st) => (Ok key, set_keys keys st)
        | (Throw e, st) => (Throw e, st)
        end
    | None => (Ok key, set_keys keys st)
    end.

(** One entry of [keyOpenApiParameters]. *)
Definition key_parameter (document : json) (inherited : bool) (at_ : place) (parameter : json)
    : Spend KeyedOpenApiParameter :=
  resolution ← match parameter with
               | JObj members =>
                   found ← spend_resolve document (at_, members); mret (Some found)
               | _ => mret None
               end;
  key ← spend_keyOf resolution;
  mret {| kp_parameter := parameter; kp_resolution := resolution; kp_key := key;
          kp_inherited := inherited |}.

(** [keyOpenApiParameters]. *)
Fixpoint keyOpenApiParameters (document : json) (inherited : bool) (at_ : place) (index : nat)
    (parameters : list json) : Spend (list KeyedOpenApiParameter) :=
  match parameters with
  | [] => mret []
  | parameter :: rest =>
      entry ← key_parameter document inherited (at_ ++ [Element index]) parameter;
      entries ← keyOpenApiParameters document inherited at_ (S index) rest;
      mret (entry :: entries)
  end.

(** [keyed] of [operationsOf]. *)
Definition keyed_parameters (document : json) (parameters : option json) (inherited : bool) (at_ : place)
    : Spend (list KeyedOpenApiParameter) :=
  let items := default [] (json_array parameters) in
  spend (Z.of_nat (length items)) ;;
  keyOpenApiParameters document inherited at_ 0 items.

(** The comparison by identity: [left.key < right.key]. *)
Definition entry_le (left right : string * json) : bool := string_leb left.1 right.1.

Definition canonicalParameters (parameters : list KeyedOpenApiParameter) : list json :=
  let keyed := omap (fun entry => (fun key => (key, kp_parameter entry)) <$> kp_key entry) parameters in
  let unkeyed := List.filter (fun entry => match kp_key entry with None => true | _ => false end)
                   parameters in
  map snd (sort_by entry_le keyed) ++ map kp_parameter unkeyed.

Definition path_item_place (path : string) : place := [Member "paths"; Member path].

(** An operation as the comparison holds it: its effective parameters in place of
    the written ones. *)
Definition normalized_operation (operation : list (string * json)) (effective : list json) : json :=
  let written := json_own "parameters" operation in
  let rest := json_delete "parameters" operation in
  match effective with
  | _ :: _ => JObj (json_set "parameters" (JArr effective) rest)
  | [] => match written with
          | None | Some (JArr _) => JObj rest
          | Some _ => JObj operation
          end
  end.

(** One round of the loop over [OPERATION_KEYS]: the operations so far and the
    path item's keyed parameters, once read. *)
Definition operation_round (document : json) (path : string) (item : list (string * json))
    (acc : list (string * json) * option (list KeyedOpenApiParameter)) (key : string)
    : Spend (list (string * json) * option (list KeyedOpenApiParameter)) :=
  let '(operations, shared) := acc in
  match json_record (json_own key item) with
  | None => mret acc
  | Some operation =>
      spend 1 ;;
      shared ← match shared with
               | Some shared => mret shared
               | None => keyed_parameters document (json_own "parameters" item) true
                           (path_item_place path ++ [Member "parameters"])
               end;
      own ← keyed_parameters document (json_own "parameters" operation) false
              (path_item_place path ++ [Member key; Member "parameters"]);
      spend (Z.of_nat (length shared) + Z.of_nat (length own)) ;;
      let effective := canonicalParameters (mergeOpenApiParameters shared own) in
      mret (json_set (operation_key key path) (normalized_operation operation effective) operations,
            Some shared)
  end.

Fixpoint operation_rounds (document : json) (path : string) (item : list (string * json))
    (keys : list string) (acc : list (string * json) * option (list KeyedOpenApiParameter))
    : Spend (list (string * json)) :=
  match keys with
  | [] => mret acc.1
  | key :: rest =>
      acc ← operation_round document path item acc key;
      operation_rounds document path item rest acc
  end.

(** The loop over the path items. *)
Fixpoint path_rounds (document : json) (items : list (string * json)) (operations : list (string * json))
    : Spend (list (string * json)) :=
  match items with
  | [] => mret operations
  | (path, JObj item) :: rest =>
      operations ← operation_rounds document path item OPERATION_KEYS (operations, None);
      path_rounds document rest operations
  | _ :: rest => path_rounds document rest operations
  end.

(** A new resolver and a new keyer, with the counters of the one before. *)
Definition open_document : Spend unit := fun _ st =>
  (Ok tt, {| d_units := d_units st; d_text := d_text st;
             d_resolver := new_resolver (r_stats (d_resolver st)); d_keys := ∅ |}).

(** The operations of a document, keyed [METHOD path], in insertion order. *)
Definition operationsOf (document : list (string * json)) : Spend (list (string * json)) :=
  match json_record (json_own "paths" document) with
  | None => mret []
  | Some paths => open_document ;; path_rounds (JObj document) paths []
  end.

Definition operation_keys_of_item (path : string) (item : list (string * json))
    (operations : list (string * json)) : list (string * json) :=
  fold_left (fun operations key =>
    match json_record (json_own key item) with
    | Some operation => json_set (operation_key key path) (JObj operation) operations
    | None => operations
    end) OPERATION_KEYS operations.

Definition operationKeysOf (document : list (string * json)) : list (string * json) :=
  match json_record (json_own "paths" document) with
  | None => []
  | Some paths =>
      fold_left (fun operations kv =>
        match kv.2 with
        | JObj item => operation_keys_of_item kv.1 item operations
        | _ => operations
        end) paths []
  end.

Definition is_some {A} (o : option A) : bool := match o with Some _ => true | None => false end.

Definition pathsOf (document : list (string * json)) : list string :=
  match json_record (json_own "paths" document) with
  | None => []
  | Some paths =>
      map fst (List.filter (fun kv =>
        match kv.2 with
        | JObj item => existsb (fun key => is_some (json_record (json_own key item))) OPERATION_KEYS
        | _ => false
        end) paths)
  end.

(** ** The comparison *)

(** The text before and after the first space. *)
Fixpoint refOf (key : string) : SpecOperationRef :=
  match key with
  | EmptyString => {| so_method := EmptyString; so_path := EmptyString |}
  | String c rest =>
      if decide (c = " "%char) then {| so_method := EmptyString; so_path := rest |}
      else {| so_method := String c (so_method (refOf rest)); so_path := so_path (refOf rest) |}
  end.

(** The members of an operation; the comparison stores nothing else. *)
Definition operation_members (operation : json) : list (string * json) :=
  match operation with JObj members => members | _ => [] end.

Definition memberChanges (before after : list (string * json)) : list string :=
  List.filter (fun member => negb (deep_equal (json_own member before) (json_own member after)))
    OPERATION_MEMBERS ++
  (if existsb (fun key => negb (bool_decide (key ∈ OPERATION_MEMBERS)) &&
                          negb (deep_equal (json_own key before) (json_own key after)))
        (before.*1 ++ after.*1)
   then ["other"%string] else []).

Definition infoChanges (before after : list (string * json)) : list SpecInfoChange :=
  let left := default [] (json_record (json_own "info" before)) in
  let right := default [] (json_record (json_own "info" after)) in
  omap (fun field =>
    let from := json_string (json_own field left) in
    let to := json_string (json_own field right) in
    if decide (from = to) then None
    else Some {| si_field := field; si_from := from; si_to := to |})
    ["title"; "version"; "description"]%string.

Definition nonempty {A} (l : list A) : bool := match l with [] => false | _ => true end.

(** The lists of the result, from the operations of both documents. *)
Definition compare_operations {summary : Type} (from to : diff_input summary)
    (before after : list (string * json)) (complete : bool) : SpecDiff summary :=
  let added := omap (fun kv => match json_own kv.1 before with
                               | None => Some (refOf kv.1)
                               | Some _ => None
                               end) after in
  let changed := omap (fun kv =>
    match json_own kv.1 before with
    | None => None
    | Some previous =>
        if negb complete then None
        else match memberChanges (operation_members previous) (operation_members kv.2) with
             | [] => None
             | changes => Some {| sc_ref := refOf kv.1; sc_changes := changes |}
             end
    end) after in
  let removed := omap (fun kv => match json_own kv.1 after with
                                 | None => Some (refOf kv.1)
                                 | Some _ => None
                                 end) before in
  let beforePaths := pathsOf (di_document from) in
  let afterPaths := pathsOf (di_document to) in
  let info := infoChanges (di_document from) (di_document to) in
  let serversChanged := negb (deep_equal (json_own "servers" (di_document from))
                                         (json_own "servers" (di_document to))) in
  {| sd_from := di_summary from;
     sd_to := di_summary to;
     sd_added_operations := added;
     sd_removed_operations := removed;
     sd_changed_operations := changed;
     sd_added_paths := List.filter (fun path => negb (bool_decide (path ∈ beforePaths))) afterPaths;
     sd_removed_paths := List.filter (fun path => negb (bool_decide (path ∈ afterPaths))) beforePaths;
     sd_info_changes := info;
     sd_servers_changed := serversChanged;
     sd_potentially_breaking := removed;
     sd_complete := complete;
     sd_changed := negb complete || nonempty added || nonempty removed || nonempty changed ||
                   nonempty info || serversChanged |}.

Definition initial_diff_state (stats : OpenApiResolveStats) : diff_state :=
  {| d_units := 0; d_text := createKeyTextCharge; d_resolver := new_resolver stats; d_keys := ∅ |}.

(** Both documents, folded. *)
Definition fold_documents (from to : list (string * json))
    : Spend (list (string * json) * list (string * json)) :=
  before ← operationsOf from;
  after ← operationsOf to;
  mret (before, after).

(** When only the final part unit of keyed text is refused, both documents were
    folded already and are compared as they are, incomplete. *)
Definition diffSpecDocuments {summary : Type} (from to : diff_input summary)
    (stats : OpenApiResolveStats) (unitLimit : Z) (unchecked : bool) : res diff_exn (SpecDiff summary) :=
  let unfolded := compare_operations from to (operationKeysOf (di_document from))
                    (operationKeysOf (di_document to)) false in
  if unchecked then Ok unfolded
  else match fold_documents (di_document from) (di_document to) unitLimit (initial_diff_state stats) with
       | (Ok (before, after), st) =>
           match pay settle unitLimit st with
           | (Ok _, _) => Ok (compare_operations from to before after true)
           | (Throw BudgetExhausted, _) => Ok (compare_operations from to before after false)
           | (Throw OutOfFuel, _) => Throw OutOfFuel
           end
       | (Throw BudgetExhausted, _) => Ok unfolded
       | (Throw OutOfFuel, _) => Throw OutOfFuel
       end.

(** ** The reference definition

    The same operations without a budget, a memo or a resolver: every reference
    is followed afresh and every identity read anew. *)

Definition resolved_afresh (document : json) (at_ : place) (parameter : json)
    : option OpenApiRefResolution :=
  match parameter with
  | JObj members => resolve_afresh document false (follow_fuel document) (at_, members)
  | _ => None
  end.

Definition keyed_afresh (document : json) (inherited : bool) (at_ : place) (index : nat)
    (parameters : list json) : list KeyedOpenApiParameter :=
  imap (fun i parameter =>
    let resolution := resolved_afresh document (at_ ++ [Element (index + i)]) parameter in
    {| kp_parameter := parameter; kp_resolution := resolution;
       kp_key := fst <$> parameterKeyOf compactSpecKey resolution; kp_inherited := inherited |})
    parameters.

Definition shared_afresh (document : json) (path : string) (item : list (string * json))
    : list KeyedOpenApiParameter :=
  keyed_afresh document true (path_item_place path ++ [Member "parameters"]) 0
    (default [] (json_array (json_own "parameters" item))).

Definition own_afresh (document : json) (path key : string) (operation : list (string * json))
    : list KeyedOpenApiParameter :=
  keyed_afresh document false (path_item_place path ++ [Member key; Member "parameters"]) 0
    (default [] (json_array (json_own "parameters" operation))).

(** The parameters an operation takes, in comparison order. *)
Definition effective_parameters (document : json) (path key : string)
    (item operation : list (string * json)) : list json :=
  canonicalParameters (mergeOpenApiParameters (shared_afresh document path item)
                                              (own_afresh document path key operation)).

Definition item_operations (document : json) (path : string) (item : list (string * json))
    (keys : list string) (operations : list (string * json)) : list (string * json) :=
  fold_left (fun operations key =>
    match json_record (json_own key item) with
    | Some operation =>
        json_set (operation_key key path)
          (normalized_operation operation (effective_parameters document path key item operation))
          operations
    | None => operations
    end) keys operations.

Definition paths_operations (document : json) (items operations : list (string * json))
    : list (string * json) :=
  fold_left (fun operations kv =>
    match kv.2 with
    | JObj item => item_operations document kv.1 item OPERATION_KEYS operations
    | _ => operations
    end) items operations.

Definition operations_afresh (document : list (string * json)) : list (string * json) :=
  match json_record (json_own "paths" document) with
  | None => []
  | Some paths => paths_operations (JObj document) paths []
  end.
End Diff.
