(* ===== verification/SpecDiffProofs.v ===== *)
(** * The comparison of two revisions: theorems

    A program logic for the budget of [SpecDiff], and what it shows of the
    comparison: the answer is the reference definition's, within a cost the
    documents bound; then what the report of a comparison says of the documents. *)

From Stdlib Require Import Ascii.
From stdpp Require Import sorting.
From S2P Require Import Prelude Json OpenApi SpecKeys SpecDiff.
Open Scope Z_scope.

(** ** Work within a budget

    [spends P m Q]: from a state where [P] holds, [m] has one outcome [a] and one
    final state, where [Q] holds, and reaches them under every limit that the
    units of the final state respect; under a smaller one it is refused. *)
Definition spends {A} (P : diff_state -> Prop) (m : Spend A) (Q : A -> diff_state -> Prop) : Prop :=
  forall st, P st -> exists a st', Q a st' /\ d_units st <= d_units st' /\
    forall limit,
      (d_units st' <= limit -> m limit st = (Ok a, st')) /\
      (d_units st <= limit < d_units st' -> (m limit st).1 = Throw BudgetExhausted).

Lemma spends_ret {A} (P : diff_state -> Prop) (a : A) :
  spends P (mret a) (fun a' st => a' = a /\ P st).
Proof. intros st Hst. exists a, st. split_and!; [done|done|lia|]. intros limit. split; [done|intros; lia]. Qed.

Lemma spends_bind {A B} (P : diff_state -> Prop) (m : Spend A) (Q : A -> diff_state -> Prop)
    (k : A -> Spend B) (R : B -> diff_state -> Prop) :
  spends P m Q -> (forall a, spends (Q a) (k a) R) -> spends P (m ≫= k) R.
Proof.
  intros Hm Hk st Hst. destruct (Hm st Hst) as (a & st1 & Hq & Hle1 & Hrun1).
  destruct (Hk a st1 Hq) as (b & st2 & Hr & Hle2 & Hrun2). exists b, st2.
  split_and!; [done|lia|]. intros limit. unfold mbind, Spend_bind. split.
  - intros Hlimit. destruct (Hrun1 limit) as [-> _]; [|lia]. by apply Hrun2.
  - intros Hlimit. destruct (decide (d_units st1 <= limit)).
    + destruct (Hrun1 limit) as [-> _]; [|lia]. apply Hrun2. lia.
    + destruct (Hrun1 limit) as [_ Hthrow]. destruct (m limit st) as [r st'].
      simpl in Hthrow. by rewrite Hthrow by lia.
Qed.

Lemma spends_conseq {A} (P P' : diff_state -> Prop) (m : Spend A) (Q Q' : A -> diff_state -> Prop) :
  spends P' m Q' -> (forall st, P st -> P' st) -> (forall a st, Q' a st -> Q a st) -> spends P m Q.
Proof.
  intros Hm HP HQ st Hst. destruct (Hm st (HP st Hst)) as (a & st' & Hq & H). exists a, st'. eauto.
Qed.

(** A fact of the initial state that the computation may use. *)
Lemma spends_given {A} (P : diff_state -> Prop) (m : Spend A) (Q : A -> diff_state -> Prop) :
  (forall st0, P st0 -> spends (fun st => st = st0) m Q) -> spends P m Q.
Proof. intros Hm st Hst. exact (Hm st Hst st eq_refl). Qed.

(** A computation that neither spends nor throws. *)
Lemma spends_free {A} (P : diff_state -> Prop) (m : Spend A) (Q : A -> diff_state -> Prop) :
  (forall st, P st -> exists a st', (forall limit, m limit st = (Ok a, st')) /\ Q a st' /\
     d_units st' = d_units st) -> spends P m Q.
Proof.
  intros Hm st Hst. destruct (Hm st Hst) as (a & st' & Hrun & Hq & Hu). exists a, st'.
  split_and!; [done|lia|]. intros limit. split; [done|intros; lia].
Qed.

Lemma spends_spend (P : diff_state -> Prop) (amount : Z) :
  0 <= amount ->
  spends P (spend amount) (fun _ st => exists st0, P st0 /\
    st = {| d_units := d_units st0 + amount; d_text := d_text st0;
            d_resolver := d_resolver st0; d_keys := d_keys st0 |}).
Proof.
  intros Hamount st Hst. unfold spend. eexists tt, _. split; [by eauto|]. simpl. split; [lia|].
  intros limit. split; intros Hlimit.
  - by rewrite decide_False by lia.
  - by rewrite decide_True by lia.
Qed.

(** What has been paid for the structure: the units that are not for text. *)
Definition structure_units (st : diff_state) : Z := d_units st - kt_charged (d_text st).

Section Facts.
Context `{Sha256}.
Context (document : json).

Definition identity_of (members : list (string * json)) : option string :=
  fst <$> parameterKeyOf compactSpecKey (Some (Resolved ([], members) NO_OVERRIDES)).

(** The code units of an object's [in] and [name], when it has both. *)
Definition text_of (members : list (string * json)) : Z :=
  default 0 (snd <$> parameterKeyOf compactSpecKey (Some (Resolved ([], members) NO_OVERRIDES))).

Lemma parameterKeyOf_resolved (value : object) (overrides : OpenApiRefOverrides) :
  parameterKeyOf compactSpecKey (Some (Resolved value overrides)) =
  parameterKeyOf compactSpecKey (Some (Resolved ([], value.2) NO_OVERRIDES)).
Proof. done. Qed.

Definition text_at (at_ : place) : Z :=
  match json_at document at_ with Some (JObj members) => text_of members | _ => 0 end.

(** The text of the objects a keyer has read. *)
Definition keys_text (keys : gmap place (option string)) : Z :=
  z_sum (text_at <$> (map_to_list keys).*1).

(** The state of one document's folding: a right memo, identities read from the
    objects they belong to, and the text charged: [base] before this document and
    that of each object read. *)
Record folding (base structure : Z) (st : diff_state) : Prop := {
  f_memo : memo_ok document false (r_outcomes (d_resolver st));
  f_keys : forall at_ key, d_keys st !! at_ = Some key ->
             exists members, json_at document at_ = Some (JObj members) /\ key = identity_of members;
  f_text : charge_exact (d_text st);
  f_total : kt_total (d_text st) = base + keys_text (d_keys st);
  f_units : structure_units st = structure;
}.

Lemma folding_eq (base structure structure' : Z) (st : diff_state) :
  structure = structure' -> folding base structure st -> folding base structure' st.
Proof. by intros ->. Qed.

Lemma text_of_nonneg (members : list (string * json)) : 0 <= text_of members.
Proof. unfold text_of, parameterKeyOf. repeat case_match; simplify_eq/=; lia. Qed.

Lemma keys_text_insert (keys : gmap place (option string)) (at_ : place) (key : option string) :
  keys !! at_ = None -> keys_text (<[at_ := key]> keys) = text_at at_ + keys_text keys.
Proof.
  intros Hnew. unfold keys_text. rewrite (map_to_list_insert keys) by done. done.
Qed.

(** A charge for text adds to the units what it adds to the charged ones. *)
Lemma spends_charge (base structure : Z) (n : Z) (at_ : place) (key : option string)
    (keys : gmap place (option string)) :
  0 <= n -> n = text_at at_ ->
  (exists members, json_at document at_ = Some (JObj members) /\ key = identity_of members) ->
  keys !! at_ = None ->
  spends (fun st => folding base structure st /\ d_keys st = keys) (pay (charge n))
    (fun _ st => folding base structure (set_keys (<[at_ := key]> keys) st)).
Proof.
  intros Hn Htext Hkey Hnew st [Hst <-]. destruct Hst as [Hmemo Hkeys Hexact Htotal Hunits].
  destruct (charge_spec n (d_text st) Hexact Hn) as (Hexact' & Htotal' & Hdue & Hpos).
  unfold pay. destruct (charge n (d_text st)) as [due k]. simpl in *.
  assert (Hdone : forall st', d_text st' = k -> d_keys st' = d_keys st ->
            d_resolver st' = d_resolver st -> structure_units st' = structure ->
            folding base structure (set_keys (<[at_ := key]> (d_keys st)) st')).
  { intros st' Ht Hk Hr Hu. constructor; simpl.
    - by rewrite Hr.
    - intros a key'. destruct (decide (a = at_)) as [->|].
      + rewrite lookup_insert_eq. by intros [= <-].
      + rewrite lookup_insert_ne by done. apply Hkeys.
    - by rewrite Ht.
    - rewrite Ht, keys_text_insert by done. lia.
    - done. }
  assert (Hcharged : kt_charged k = kt_charged (d_text st) + default 0 due).
  { destruct Hexact as [_ ->]. destruct Hexact' as [_ ->]. rewrite Htotal'. lia. }
  destruct due as [amount|]; simpl in *.
  - specialize (Hpos amount eq_refl).
    destruct (spends_spend (fun st' => st' = set_text k st) amount ltac:(lia) (set_text k st) eq_refl)
      as (a & st' & (st0 & -> & ->) & Hle & Hrun).
    eexists a, _. split_and!; [|exact Hle|exact Hrun].
    apply Hdone; try done. unfold structure_units in *. simpl in *. lia.
  - exists tt, (set_text k st). split_and!; [|simpl; lia|intros limit; simpl; split; [done|intros; lia]].
    apply Hdone; try done. unfold structure_units in *. simpl in *. lia.
Qed.

Lemma spends_resolve (base structure : Z) (value : object) :
  spends (folding base structure) (spend_resolve document value)
    (fun resolution st => folding base structure st /\
       resolve_afresh document false (follow_fuel document) value = Some resolution).
Proof.
  apply spends_free. intros st [Hmemo Hkeys Hexact Htotal Hunits]. unfold spend_resolve.
  destruct (resolve_correct document false (d_resolver st) value Hmemo) as (r & res & -> & Hr & Hafresh).
  exists res, (set_resolver r st). split; [done|]. split; [|done]. split; [by constructor|done].
Qed.

Lemma spends_keyOf (base structure : Z) (resolution : option OpenApiRefResolution) :
  (forall value overrides, resolution = Some (Resolved value overrides) ->
     json_at document value.1 = Some (JObj value.2)) ->
  spends (folding base structure) (spend_keyOf resolution)
    (fun key st => folding base structure st /\ key = fst <$> parameterKeyOf compactSpecKey resolution).
Proof.
  intros Hat [u t r keys] Hst. set (st := {| d_units := u |}) in *. unfold spend_keyOf, keyOf.
  destruct resolution as [[value overrides|ref reason]|];
    [|exists None, st; (split; [by split|]; split; [lia|]; intros limit; split; [done|intros; lia])..].
  specialize (Hat value overrides eq_refl). rewrite parameterKeyOf_resolved.
  destruct (d_keys st !! value.1) as [known|] eqn:Hknown.
  { exists known, st. destruct (f_keys _ _ _ Hst _ _ Hknown) as (members & Hm & ->).
    rewrite Hat in Hm. injection Hm as <-.
    split; [by split|]. split; [lia|]. intros limit. split; [done|intros; lia]. }
  assert (Hid : exists members, json_at document value.1 = Some (JObj members) /\
                  identity_of value.2 = identity_of members) by eauto.
  assert (Htext : text_at value.1 = text_of value.2) by (unfold text_at; by rewrite Hat).
  pose proof (text_of_nonneg value.2) as Hpos. unfold identity_of, text_of in *.
  destruct (parameterKeyOf compactSpecKey (Some (Resolved ([], value.2) NO_OVERRIDES))) as [[key n]|];
    simpl in *.
  - destruct (spends_charge base structure n value.1 (Some key) keys Hpos (eq_sym Htext) Hid Hknown st)
      as (a & st' & Hkeep & Hle & Hrun); [done|].
    exists (Some key), (set_keys (<[value.1 := Some key]> keys) st').
    split; [by split|]. split; [done|]. intros limit. specialize (Hrun limit). split; intros Hlimit.
    + by rewrite (proj1 Hrun) by exact Hlimit.
    + pose proof (proj2 Hrun Hlimit) as Hthrow. destruct (pay (charge n) limit st) as [res st2].
      simpl in Hthrow. by rewrite Hthrow.
  - exists None, (set_keys (<[value.1 := None]> keys) st). split; [|split; [done|]].
    + split; [|done]. destruct Hst as [Hmemo Hkeys Hexact Htotal Hunits]. constructor; try done.
      * simpl. intros at_ key. destruct (decide (at_ = value.1)) as [->|].
        -- rewrite lookup_insert_eq. by intros [= <-].
        -- rewrite lookup_insert_ne by done. apply Hkeys.
      * simpl in *. rewrite keys_text_insert by done. lia.
    + intros limit. split; [done|simpl; intros; lia].
Qed.

(** ** The parameters of one list *)

Lemma json_at_under (at_ : place) (v : json) (s : place_step) :
  json_at document at_ = Some v -> json_at document (at_ ++ [s]) = place_value v s.
Proof. intros Hat. by rewrite json_at_app, Hat. Qed.

Lemma spends_key_parameter (base structure : Z) (inherited : bool) (at_ : place) (parameter : json) :
  json_at document at_ = Some parameter ->
  spends (folding base structure) (key_parameter document inherited at_ parameter)
    (fun entry st => folding base structure st /\
       let resolution := resolved_afresh document at_ parameter in
       entry = {| kp_parameter := parameter; kp_resolution := resolution;
                  kp_key := fst <$> parameterKeyOf compactSpecKey resolution;
                  kp_inherited := inherited |}).
Proof.
  intros Hat. unfold key_parameter.
  eapply (spends_bind _ _ (fun resolution st => folding base structure st /\
    resolution = resolved_afresh document at_ parameter)).
  { unfold resolved_afresh. destruct parameter;
      try (eapply spends_conseq; [apply spends_ret|done|by intros ? ? [-> ?]]).
    eapply spends_bind; [apply spends_resolve|]. intros found. simpl.
    eapply spends_conseq; [apply spends_ret|by intros st Hst; exact Hst|].
    by intros ? ? (-> & ? & ->). }
  intros resolution. apply spends_given. intros st0 [Hst0 ->].
  eapply (spends_bind _ _ (fun key st => folding base structure st /\
    key = fst <$> parameterKeyOf compactSpecKey (resolved_afresh document at_ parameter))).
  { eapply spends_conseq; [apply spends_keyOf|by intros st ->|done].
    intros value overrides. unfold resolved_afresh. destruct parameter as [| | | | |members]; try done.
    by apply resolve_afresh_at. }
  intros key. eapply spends_conseq; [apply spends_ret|by intros st Hst; exact Hst|].
  by intros ? ? (-> & ? & ->).
Qed.

Lemma spends_keyOpenApiParameters (base structure : Z) (inherited : bool) (at_ : place)
    (index : nat) (items : list json) :
  (forall i parameter, items !! i = Some parameter ->
     json_at document (at_ ++ [Element (index + i)]) = Some parameter) ->
  spends (folding base structure) (keyOpenApiParameters document inherited at_ index items)
    (fun entries st => folding base structure st /\
       entries = keyed_afresh document inherited at_ index items).
Proof.
  revert index. induction items as [|parameter items IH]; intros index Hat; cbn [keyOpenApiParameters].
  { eapply spends_conseq; [apply spends_ret|done|by intros ? ? [-> ?]]. }
  pose proof (Hat 0%nat parameter eq_refl) as H0. rewrite Nat.add_0_r in H0.
  eapply spends_bind; [by apply spends_key_parameter|]. intros entry.
  apply spends_given. intros st0 [Hst0 ->].
  eapply spends_bind.
  { eapply spends_conseq; [apply (IH (S index))|by intros st ->|done].
    intros i p Hp. rewrite Nat.add_succ_l, <- Nat.add_succ_r. by apply Hat. }
  intros entries. eapply spends_conseq; [apply spends_ret|by intros st Hst; exact Hst|].
  intros ? ? (-> & ? & ->). split; [done|]. unfold keyed_afresh. cbn [imap].
  rewrite Nat.add_0_r. f_equal. apply imap_ext. intros i p _. simpl.
  by rewrite Nat.add_succ_r.
Qed.

Definition array_items (v : option json) : list json := default [] (json_array v).

Lemma spends_keyed (base structure : Z) (inherited : bool) (at_ : place) (parameters : option json) :
  json_at document at_ = parameters ->
  spends (folding base structure) (keyed_parameters document parameters inherited at_)
    (fun entries st =>
       folding base (structure + Z.of_nat (length (array_items parameters))) st /\
       entries = keyed_afresh document inherited at_ 0 (array_items parameters)).
Proof.
  intros Hat. unfold keyed_parameters. fold (array_items parameters).
  eapply spends_bind; [apply spends_spend; lia|]. intros [].
  eapply spends_conseq;
    [apply (spends_keyOpenApiParameters base (structure + Z.of_nat (length (array_items parameters))))| |].
  - intros i p Hp. unfold array_items in Hp. destruct parameters as [[| | | |items|]|]; try done.
    rewrite (json_at_under _ (JArr items)) by done. exact Hp.
  - intros st (st0 & [Hmemo Hkeys Hexact Htotal Hunits] & ->). constructor; try done.
    unfold structure_units in *. simpl. lia.
  - by intros entries st [? ->].
Qed.

(** ** The operations of one path item *)

(** What an item's operations cost besides text: one each, the entries keyed (the
    path item's once), and the entries merged. *)
Definition list_units (members : list (string * json)) : Z :=
  Z.of_nat (length (array_items (json_own "parameters" members))).

Fixpoint item_units (item : list (string * json)) (keys : list string) (seen : bool) : Z :=
  match keys with
  | [] => 0
  | key :: rest =>
      match json_record (json_own key item) with
      | None => item_units item rest seen
      | Some operation =>
          1 + (if seen then 0 else list_units item) + list_units operation +
          (list_units item + list_units operation) + item_units item rest true
      end
  end.

Definition paths_units (items : list (string * json)) : Z :=
  z_sum ((fun kv => match kv.2 with JObj item => item_units item OPERATION_KEYS false | _ => 0 end)
           <$> items).

Lemma keyed_afresh_length (inherited : bool) (at_ : place) (index : nat) (items : list json) :
  length (keyed_afresh document inherited at_ index items) = length items.
Proof. apply length_imap. Qed.

Lemma spends_units (base structure : Z) (amount : Z) :
  0 <= amount ->
  spends (folding base structure) (spend amount) (fun _ => folding base (structure + amount)).
Proof.
  intros Ha. eapply spends_conseq; [by apply spends_spend|by intros st Hst; exact Hst|].
  intros _ st (st0 & [Hmemo Hkeys Hexact Htotal Hunits] & ->). constructor; try done.
  unfold structure_units in *. simpl. lia.
Qed.

(** The keyed parameters of the path item, read at its first operation. *)
Definition shared_seen (path : string) (item : list (string * json)) (seen : bool)
    : option (list KeyedOpenApiParameter) :=
  if seen then Some (shared_afresh document path item) else None.

Lemma spends_shared (base structure : Z) (path : string) (item : list (string * json)) (seen : bool) :
  json_at document (path_item_place path) = Some (JObj item) ->
  spends (folding base structure)
    (match shared_seen path item seen with
     | Some shared => mret shared
     | None => keyed_parameters document (json_own "parameters" item) true
                 (path_item_place path ++ [Member "parameters"])
     end)
    (fun shared st =>
       folding base (structure + if seen then 0 else list_units item) st /\
       shared = shared_afresh document path item).
Proof.
  intros Hat. destruct seen; simpl.
  - rewrite Z.add_0_r. eapply spends_conseq; [apply spends_ret|by intros st Hst; exact Hst|].
    by intros ? ? [-> ?].
  - apply spends_keyed. exact (json_at_under _ _ (Member "parameters") Hat).
Qed.

Lemma spends_operation_round (base structure : Z) (path key : string)
    (item operation operations : list (string * json)) (seen : bool) :
  json_at document (path_item_place path) = Some (JObj item) ->
  json_record (json_own key item) = Some operation ->
  spends (folding base structure)
    (operation_round document path item (operations, shared_seen path item seen) key)
    (fun acc st =>
       folding base (structure + (1 + (if seen then 0 else list_units item) + list_units operation +
                                  (list_units item + list_units operation))) st /\
       acc = (json_set (operation_key key path)
                (normalized_operation operation (effective_parameters document path key item operation))
                operations, shared_seen path item true)).
Proof.
  intros Hat Hop. unfold operation_round. rewrite Hop.
  eapply spends_bind; [apply spends_units; lia|]. intros [].
  eapply spends_bind; [by apply spends_shared|]. intros shared.
  apply spends_given. intros st0 [Hst0 ->].
  eapply spends_bind.
  { eapply spends_conseq; [apply spends_keyed|by intros st ->; exact Hst0|by intros a st Hq; exact Hq].
    assert (Hop_at : json_at document (path_item_place path ++ [Member key]) = Some (JObj operation)).
    { rewrite (json_at_under _ _ (Member key) Hat). simpl. unfold json_record in Hop.
      destruct (json_own key item) as [[]|]; by simplify_eq. }
    exact (json_at_under _ _ (Member "parameters") Hop_at). }
  intros own. apply spends_given. intros st1 [Hst1 ->].
  eapply spends_bind.
  { eapply spends_conseq; [apply spends_units; lia|by intros st ->; exact Hst1|by intros a st Hq; exact Hq]. }
  intros []. eapply spends_conseq; [apply spends_ret|by intros st Hst; exact Hst|].
  intros acc st [-> Hst]. split; [|done].
  eapply folding_eq, Hst. unfold list_units, array_items, shared_afresh, own_afresh.
  rewrite !keyed_afresh_length. lia.
Qed.

Lemma spends_operation_rounds (base structure : Z) (path : string)
    (item operations : list (string * json)) (keys : list string) (seen : bool) :
  json_at document (path_item_place path) = Some (JObj item) ->
  spends (folding base structure)
    (operation_rounds document path item keys (operations, shared_seen path item seen))
    (fun result st => folding base (structure + item_units item keys seen) st /\
       result = item_operations document path item keys operations).
Proof.
  intros Hat. revert structure operations seen.
  induction keys as [|key keys IH]; intros structure operations seen; cbn [operation_rounds item_units].
  { rewrite Z.add_0_r. eapply spends_conseq; [apply spends_ret|by intros st Hst; exact Hst|].
    by intros ? ? [-> ?]. }
  destruct (json_record (json_own key item)) as [operation|] eqn:Hop.
  - eapply spends_bind; [by apply spends_operation_round|]. intros acc.
    apply spends_given. intros st0 [Hst0 ->].
    eapply spends_conseq; [apply IH|by intros st ->; exact Hst0|].
    intros result st [Hst ->]. split; [by rewrite <- Z.add_assoc in Hst|].
    unfold item_operations. simpl. by rewrite Hop.
  - eapply (spends_bind _ _ (fun acc st => folding base structure st /\
      acc = (operations, shared_seen path item seen))).
    { unfold operation_round. rewrite Hop.
      eapply spends_conseq; [apply spends_ret|by intros st Hst; exact Hst|]. by intros ? ? [-> ?]. }
    intros acc. apply spends_given. intros st0 [Hst0 ->].
    eapply spends_conseq; [apply IH|by intros st ->; exact Hst0|].
    intros result st [Hst ->]. split; [done|]. unfold item_operations. simpl. by rewrite Hop.
Qed.

Lemma spends_path_rounds (base structure : Z) (items operations : list (string * json)) :
  (forall path item, (path, JObj item) ∈ items ->
     json_at document (path_item_place path) = Some (JObj item)) ->
  spends (folding base structure) (path_rounds document items operations)
    (fun result st => folding base (structure + paths_units items) st /\
       result = paths_operations document items operations).
Proof.
  revert structure operations.
  induction items as [|[path value] items IH]; intros structure operations Hat; cbn [path_rounds].
  { unfold paths_units. simpl. rewrite Z.add_0_r.
    eapply spends_conseq; [apply spends_ret|by intros st Hst; exact Hst|]. by intros ? ? [-> ?]. }
  assert (Hrest : forall p i, (p, JObj i) ∈ items -> json_at document (path_item_place p) = Some (JObj i)).
  { intros p i Hin. apply Hat. by right. }
  destruct value as [| | | | |item]; try (by apply IH).
  eapply spends_bind.
  { apply (spends_operation_rounds base structure path item operations OPERATION_KEYS false).
    apply Hat. left. }
  intros ops. apply spends_given. intros st0 [Hst0 ->].
  eapply spends_conseq; [by apply IH|by intros st ->; exact Hst0|].
  intros result st [Hst ->]. split; [|done]. eapply folding_eq, Hst.
  unfold paths_units. rewrite fmap_cons. cbn [z_sum snd]. lia.
Qed.
End Facts.

(** ** The text of a document *)

(** Every key and string of the value; what else its scalars add is not counted. *)
Fixpoint text_size (v : json) : Z :=
  match v with
  | JStr s => Z.of_nat (String.length s)
  | JArr l => (fix all l := match l with [] => 0 | x :: l' => text_size x + all l' end) l
  | JObj l => (fix all l := match l with
                            | [] => 0
                            | (k, x) :: l' => Z.of_nat (String.length k) + text_size x + all l'
                            end) l
  | _ => 0
  end.

(** The text each object's identity is made of, by place. *)
Fixpoint object_texts `{Sha256} (at_ : place) (v : json) : list (place * Z) :=
  match v with
  | JArr l => (fix all i l := match l with
                              | [] => []
                              | x :: l' => object_texts (at_ ++ [Element i]) x ++ all (S i) l'
                              end) O l
  | JObj l => (at_, text_of l) ::
              (fix all l := match l with
                            | [] => []
                            | (k, x) :: l' => object_texts (at_ ++ [Member k]) x ++ all l'
                            end) l
  | _ => []
  end.

Lemma text_size_nonneg (v : json) : 0 <= text_size v.
Proof.
  induction v as [|b|n|s|l IH|l IH] using json_nested_ind; simpl; try lia.
  - induction IH; lia.
  - induction IH as [|[k x] l Hx _ IHl]; simpl in *; lia.
Qed.

Lemma object_texts_elem `{Sha256} (at_ : place) (items : list json) (i : nat) (x : json) e :
  items !! i = Some x -> e ∈ object_texts (at_ ++ [Element i]) x -> e ∈ object_texts at_ (JArr items).
Proof.
  intros Hi He. simpl.
  assert (Hgen : forall k, e ∈ object_texts (at_ ++ [Element (k + i)]) x ->
    e ∈ (fix all i l := match l with
                        | [] => []
                        | x :: l' => object_texts (at_ ++ [Element i]) x ++ all (S i) l'
                        end) k items); [|by apply (Hgen 0%nat)].
  clear He. revert i Hi. induction items as [|y items IH]; intros i Hi k He; [done|].
  apply elem_of_app. destruct i as [|i].
  - injection Hi as ->. rewrite Nat.add_0_r in He. by left.
  - right. apply (IH i Hi). by rewrite Nat.add_succ_l, <- Nat.add_succ_r.
Qed.

Lemma object_texts_member `{Sha256} (at_ : place) (members : list (string * json)) (k : string) (x : json) e :
  (k, x) ∈ members -> e ∈ object_texts (at_ ++ [Member k]) x -> e ∈ object_texts at_ (JObj members).
Proof.
  intros Hin He. simpl. right. induction members as [|[k' x'] members IH]; [by apply elem_of_nil in Hin|].
  apply elem_of_app. apply elem_of_cons in Hin as [[= <- <-]|Hin]; [by left|right; auto].
Qed.

Lemma object_texts_at `{Sha256} (at_ at' : place) (v : json) (members : list (string * json)) :
  json_at v at' = Some (JObj members) -> (at_ ++ at', text_of members) ∈ object_texts at_ v.
Proof.
  revert at_ v. induction at' as [|s at' IH]; intros at_ v.
  - intros [= ->]. rewrite app_nil_r. simpl. left.
  - change (s :: at') with ([s] ++ at'). rewrite json_at_app. intros Hat.
    rewrite app_assoc. change (json_at v [s]) with (place_value v s) in Hat.
    destruct v as [| | | |items|members'], s as [key|index]; simpl in Hat; try done.
    + destruct (items !! index) as [x|] eqn:Hx; [|done]. eapply object_texts_elem; [done|]. by apply IH.
    + destruct (json_own key members') as [x|] eqn:Hx; [|done].
      eapply object_texts_member; [by apply json_own_in|]. by apply IH.
Qed.

Lemma z_sum_nonneg {A} (f : A -> Z) (l : list A) : Forall (fun x => 0 <= f x) l -> 0 <= z_sum (f <$> l).
Proof. induction 1; csimpl; lia. Qed.

(** A member's share of a sum, and that two members with different keys count apart. *)
Lemma json_own_sum (f : string * json -> Z) (members : list (string * json)) (k : string) (v : json) :
  Forall (fun kv => 0 <= f kv) members -> json_own k members = Some v ->
  f (k, v) <= z_sum (f <$> members).
Proof.
  intros Hf Hown. apply json_own_in, list_elem_of_split in Hown as (l1 & l2 & ->).
  apply Forall_app in Hf as [Hf1 Hf2]. apply Forall_cons in Hf2 as [_ Hf2].
  rewrite fmap_app, z_sum_app. csimpl.
  pose proof (z_sum_nonneg f l1 Hf1). pose proof (z_sum_nonneg f l2 Hf2). lia.
Qed.

Lemma json_own_sum2 (f : string * json -> Z) (members : list (string * json)) k1 k2 v1 v2 :
  Forall (fun kv => 0 <= f kv) members -> k1 <> k2 ->
  json_own k1 members = Some v1 -> json_own k2 members = Some v2 ->
  f (k1, v1) + f (k2, v2) <= z_sum (f <$> members).
Proof.
  intros Hf Hne. induction Hf as [|[k v] members Hkv Hf IH]; csimpl; [done|].
  destruct (decide (k = k1)) as [Hk1|Hk1], (decide (k = k2)) as [Hk2|Hk2]; intros H1 H2; simplify_eq.
  - pose proof (json_own_sum f members k2 v2 Hf H2). lia.
  - pose proof (json_own_sum f members k1 v1 Hf H1). lia.
  - specialize (IH H1 H2). lia.
Qed.

(** What a member of an object adds to the text beyond its objects' identities. *)
Definition member_slack `{Sha256} (at_ : place) (kv : string * json) : Z :=
  Z.of_nat (String.length kv.1) + text_size kv.2 -
  z_sum (snd <$> object_texts (at_ ++ [Member kv.1]) kv.2).

Lemma object_texts_obj `{Sha256} (at_ : place) (members : list (string * json)) :
  text_size (JObj members) - z_sum (snd <$> object_texts at_ (JObj members)) =
  z_sum (member_slack at_ <$> members) - text_of members.
Proof.
  csimpl. cut (forall l, (fix all l := match l with
      | [] => 0 | (k, x) :: l' => Z.of_nat (String.length k) + text_size x + all l' end) l -
    z_sum (snd <$> (fix all l := match l with
      | [] => [] | (k, x) :: l' => object_texts (at_ ++ [Member k]) x ++ all l' end) l) =
    z_sum (member_slack at_ <$> l)); [intros Hl; specialize (Hl members); lia|].
  induction l as [|[k x] l IH]; csimpl; [done|]. rewrite fmap_app, z_sum_app.
  unfold member_slack at 1. simpl. lia.
Qed.

Lemma text_of_slack `{Sha256} (at_ : place) (members : list (string * json)) :
  Forall (fun kv => 0 <= member_slack at_ kv) members -> text_of members <= z_sum (member_slack at_ <$> members).
Proof.
  intros Hf. pose proof (z_sum_nonneg _ members Hf).
  unfold text_of, parameterKeyOf, own_text, json_string. simpl.
  destruct (json_own "name" members) as [[| | |name| |]|] eqn:Hname; simpl; try lia.
  destruct (json_own "in" members) as [[| | |location| |]|] eqn:Hin; simpl; try lia.
  pose proof (json_own_sum2 _ members "name" "in" _ _ Hf ltac:(done) Hname Hin) as Hsum.
  unfold member_slack at 1 2 in Hsum. simpl in Hsum. lia.
Qed.

(** The identities of all the objects of a document are part of its text. *)
Lemma object_texts_size `{Sha256} (v : json) (at_ : place) :
  z_sum (snd <$> object_texts at_ v) <= text_size v.
Proof.
  revert at_. induction v as [|b|n|s|l IH|l IH] using json_nested_ind; intros at_; csimpl; try lia.
  - generalize O. induction IH as [|x l Hx _ IHl]; intros i; simpl; [done|].
    rewrite fmap_app, z_sum_app. specialize (Hx (at_ ++ [Element i])). specialize (IHl (S i)). lia.
  - assert (Hslack : Forall (fun kv => 0 <= member_slack at_ kv) l).
    { eapply Forall_impl; [exact IH|]. intros [k x] Hx. specialize (Hx (at_ ++ [Member k])).
      unfold member_slack. simpl in *. lia. }
    pose proof (object_texts_obj at_ l). pose proof (text_of_slack at_ l Hslack). csimpl in *. lia.
Qed.

Lemma object_texts_nonneg `{Sha256} (v : json) (at_ : place) :
  Forall (fun n => 0 <= n) (snd <$> object_texts at_ v).
Proof.
  revert at_. induction v as [|b|n|s|l IH|l IH] using json_nested_ind; intros at_; csimpl;
    try by constructor.
  - generalize O. induction IH as [|x l Hx _ IHl]; intros i; [constructor|].
    rewrite fmap_app. apply Forall_app. split; [apply Hx|apply IHl].
  - constructor; [apply text_of_nonneg|].
    induction IH as [|[k x] l Hx _ IHl]; [constructor|].
    rewrite fmap_app. apply Forall_app. split; [apply Hx|apply IHl].
Qed.

Lemma keys_text_bound `{Sha256} (document : json) (keys : gmap place (option string)) :
  (forall at_ key, keys !! at_ = Some key ->
     exists members, json_at document at_ = Some (JObj members)) ->
  0 <= keys_text document keys <= text_size document.
Proof.
  intros Hkeys. unfold keys_text. set (places := (map_to_list keys).*1).
  assert (Hobj : forall at_, at_ ∈ places -> exists members, json_at document at_ = Some (JObj members)).
  { intros at_ ([a key] & -> & Hin)%list_elem_of_fmap. apply elem_of_map_to_list in Hin. eauto. }
  split.
  { apply z_sum_nonneg, Forall_forall. intros at_ Hin. destruct (Hobj _ Hin) as [m Hm].
    unfold text_at. rewrite Hm. apply text_of_nonneg. }
  set (pairs := (fun at_ => (at_, text_at document at_)) <$> places).
  assert (Hsub : pairs ⊆+ object_texts [] document).
  { apply NoDup_submseteq.
    - apply (NoDup_fmap_1 fst). unfold pairs. rewrite <- list_fmap_compose.
      rewrite (list_fmap_ext _ id); [|done]. rewrite list_fmap_id. apply NoDup_fst_map_to_list.
    - intros e (at_ & -> & Hin)%list_elem_of_fmap. destruct (Hobj _ Hin) as [m Hm].
      unfold text_at. rewrite Hm. by apply (object_texts_at [] at_). }
  transitivity (z_sum (snd <$> object_texts [] document)); [|apply object_texts_size].
  transitivity (z_sum (snd <$> pairs)).
  - unfold pairs. rewrite <- list_fmap_compose. done.
  - apply z_sum_submseteq; [by apply fmap_submseteq|apply object_texts_nonneg].
Qed.

(** ** Both documents *)

Section Documents.
Context `{Sha256}.

Definition document_units (document : list (string * json)) : Z :=
  match json_record (json_own "paths" document) with
  | Some paths => paths_units paths
  | None => 0
  end.

(** Between the documents: the text and the structure paid for so far. *)
Definition between (text structure : Z) (st : diff_state) : Prop :=
  charge_exact (d_text st) /\ kt_total (d_text st) = text /\ structure_units st = structure.

Lemma spends_operationsOf (document : list (string * json)) (text structure : Z) :
  json_wf (JObj document) ->
  spends (between text structure) (operationsOf document)
    (fun operations st => operations = operations_afresh document /\
       exists text', text <= text' <= text + text_size (JObj document) /\
         between text' (structure + document_units document) st).
Proof.
  intros Hwf. unfold operationsOf, operations_afresh, document_units.
  destruct (json_record (json_own "paths" document)) as [paths|] eqn:Hpaths.
  2: { eapply spends_conseq; [apply spends_ret|by intros st Hst; exact Hst|].
       intros ops st [-> Hst]. split; [done|]. exists text. rewrite Z.add_0_r. split; [|done].
       pose proof (text_size_nonneg (JObj document)). lia. }
  eapply (spends_bind _ _ (fun _ => folding (JObj document) text structure)).
  { apply spends_free. intros st (Hexact & Htotal & Hunits). unfold open_document.
    eexists tt, _. split; [done|]. split; [|done]. constructor; simpl.
    - apply memo_ok_empty.
    - intros at_ key. by rewrite lookup_empty.
    - done.
    - unfold keys_text. rewrite map_to_list_empty. simpl. lia.
    - done. }
  intros []. eapply spends_conseq; [apply spends_path_rounds|by intros st Hst; exact Hst|].
  - intros path item Hin. unfold json_record in Hpaths.
    destruct (json_own "paths" document) as [[| | | | |paths']|] eqn:Hown; simplify_eq.
    unfold json_at, path_item_place. simpl. rewrite Hown. simpl. apply json_own_nodup; [|done].
    apply (json_wf_member document ("paths"%string, JObj paths)); [done|by apply json_own_in].
  - intros ops st [[Hmemo Hkeys Hexact Htotal Hunits] ->]. split; [done|].
    exists (kt_total (d_text st)).
    destruct (keys_text_bound (JObj document) (d_keys st)) as [Hlo Hhi].
    { intros at_ key Hkey. destruct (Hkeys _ _ Hkey) as (m & Hm & _). eauto. }
    split; [lia|]. split; [done|]. split; [done|exact Hunits].
Qed.

Lemma spends_fold_documents (from to : list (string * json)) :
  json_wf (JObj from) -> json_wf (JObj to) ->
  spends (between 0 0) (fold_documents from to)
    (fun result st => result = (operations_afresh from, operations_afresh to) /\
       exists text, 0 <= text <= text_size (JObj from) + text_size (JObj to) /\
         between text (document_units from + document_units to) st).
Proof.
  intros Hf Ht. unfold fold_documents.
  eapply spends_bind; [by apply spends_operationsOf|]. intros before.
  apply spends_given. intros st0 (-> & text1 & Hb1 & Hst0).
  eapply spends_bind.
  { eapply spends_conseq; [by apply (spends_operationsOf to text1 (0 + document_units from))
      |by intros st ->; exact Hst0|by intros a st Hq; exact Hq]. }
  intros after. eapply spends_conseq; [apply spends_ret|by intros st Hst; exact Hst|].
  intros result st (-> & -> & text2 & Hb2 & Hst). split; [done|]. exists text2. split; [lia|exact Hst].
Qed.

(** ** Keys *)

Lemma json_set_keys (key : string) (v v' : json) (m m' : list (string * json)) :
  m.*1 = m'.*1 -> (json_set key v m).*1 = (json_set key v' m').*1.
Proof.
  revert m'. induction m as [|[k x] m IH]; intros [|[k' x'] m'] Heq; csimpl in *; simplify_eq; [done|].
  case_decide; csimpl; [congruence|]. f_equal. by apply IH.
Qed.

(** The fold only changes what an operation holds, never which there are. *)
Lemma operations_keys (document : list (string * json)) :
  (operations_afresh document).*1 = (operationKeysOf document).*1.
Proof.
  unfold operations_afresh, operationKeysOf, paths_operations.
  destruct (json_record (json_own "paths" document)) as [paths|]; [|done].
  cut (forall ops ops' : list (string * json), ops.*1 = ops'.*1 ->
    (fold_left (fun operations kv => match kv.2 with
       | JObj item => item_operations (JObj document) kv.1 item OPERATION_KEYS operations
       | _ => operations end) paths ops).*1 =
    (fold_left (fun operations kv => match kv.2 with
       | JObj item => operation_keys_of_item kv.1 item operations
       | _ => operations end) paths ops').*1); [intros Hcut; by apply Hcut|].
  induction paths as [|[path v] paths IH]; intros ops ops' Heq; cbn [fold_left]; [done|].
  apply IH. destruct v as [| | | | |item]; try done. unfold item_operations, operation_keys_of_item.
  cbn [fst snd]. clear IH. revert ops ops' Heq. generalize OPERATION_KEYS as keys.
  induction keys as [|key keys IHk]; intros ops ops' Heq; cbn [fold_left]; [done|].
  apply IHk. destruct (json_record (json_own key item)) as [operation|]; [|done].
  by apply json_set_keys.
Qed.

Lemma omap_absent {A} (f : string -> A) (l l' m m' : list (string * json)) :
  l.*1 = l'.*1 -> m.*1 = m'.*1 ->
  omap (fun kv => match json_own kv.1 m with None => Some (f kv.1) | Some _ => None end) l =
  omap (fun kv => match json_own kv.1 m' with None => Some (f kv.1) | Some _ => None end) l'.
Proof.
  intros Hl Hm. revert l' Hl. induction l as [|[k v] l IH]; intros [|[k' v'] l'] Hl; csimpl in *;
    simplify_eq; [done|].
  assert (Hiff : json_own k' m = None <-> json_own k' m' = None) by (by rewrite !json_own_none, Hm).
  rewrite (IH l') by done.
  destruct (json_own k' m), (json_own k' m'); naive_solver.
Qed.

Lemma omap_none {A B} (l : list A) : omap (fun _ => @None B) l = [].
Proof. by induction l. Qed.

(** An incomplete comparison reads nothing but the keys. *)
Lemma compare_incomplete {summary : Type} (from to : diff_input summary) before before' after after' :
  before.*1 = before'.*1 -> after.*1 = after'.*1 ->
  compare_operations from to before after false = compare_operations from to before' after' false.
Proof.
  intros Hb Ha. unfold compare_operations.
  rewrite (omap_absent refOf after after' before before') by done.
  rewrite (omap_absent refOf before before' after after') by done.
  assert (Hnone : forall b a : list (string * json),
    omap (fun kv => match json_own kv.1 b with
                    | None => None
                    | Some previous =>
                        if negb false then @None SpecOperationChange
                        else match memberChanges (operation_members previous) (operation_members kv.2) with
                             | [] => None
                             | changes => Some {| sc_ref := refOf kv.1; sc_changes := changes |}
                             end
                    end) a = []).
  { intros b a. induction a as [|[k v] a IH]; [done|]. simpl in *. by destruct (json_own k b). }
  by rewrite !Hnone.
Qed.

Lemma diff_cost {summary : Type} (from to : diff_input summary)
    (stats : OpenApiResolveStats) :
  json_wf (JObj (di_document from)) -> json_wf (JObj (di_document to)) ->
  exists cost,
    cost <= document_units (di_document from) + document_units (di_document to) +
            ceil_div (text_size (JObj (di_document from)) + text_size (JObj (di_document to)))
                     SPEC_KEY_CODE_UNITS_PER_UNIT /\
    forall unitLimit unchecked, 0 <= unitLimit ->
      diffSpecDocuments from to stats unitLimit unchecked =
      Ok (if negb unchecked && bool_decide (cost <= unitLimit)
          then compare_operations from to (operations_afresh (di_document from))
                 (operations_afresh (di_document to)) true
          else compare_operations from to (operationKeysOf (di_document from))
                 (operationKeysOf (di_document to)) false).
Proof.
  intros Hf Ht.
  destruct (spends_fold_documents _ _ Hf Ht (initial_diff_state stats))
    as (result & st & (-> & text & Htext & Hexact & Htotal & Hunits) & Hle & Hrun).
  { split; [by split|]. done. }
  destruct (key_settle_spec _ Hexact) as [Hdue Hpos]. rewrite Htotal in Hdue.
  exists (d_units st + default 0 (settle (d_text st)).1). split.
  - destruct Hexact as [_ Hcharged]. rewrite Htotal in Hcharged. unfold structure_units in Hunits.
    rewrite Hdue. unfold ceil_div, SPEC_KEY_CODE_UNITS_PER_UNIT in *.
    pose proof (Z.div_le_mono (text + 256 - 1)
      (text_size (JObj (di_document from)) + text_size (JObj (di_document to)) + 256 - 1) 256). lia.
  - intros unitLimit unchecked Hlimit. unfold diffSpecDocuments.
    destruct unchecked; [done|]. destruct (Hrun unitLimit) as [Hok Hthrow]. simpl in Hle, Hthrow.
    destruct (decide (d_units st <= unitLimit)) as [Hfits|Hover].
    + rewrite Hok by done. unfold pay. destruct (settle (d_text st)) as [[due|] k]; simpl in *.
      * specialize (Hpos due eq_refl). unfold spend. simpl. case_decide.
        -- rewrite bool_decide_eq_false_2 by lia.
           by rewrite (compare_incomplete from to _ _ _ _ (operations_keys _) (operations_keys _)).
        -- by rewrite bool_decide_eq_true_2 by lia.
      * by rewrite bool_decide_eq_true_2 by lia.
    + destruct (fold_documents _ _ unitLimit _) as [res st']. simpl in Hthrow. rewrite Hthrow by lia.
      rewrite bool_decide_eq_false_2; [done|]. destruct (settle (d_text st)) as [[due|] k]; simpl in *;
        [specialize (Hpos due eq_refl)|]; lia.
Qed.

(** Within any budget, and whatever memo, cache and order of charges it works
    with, the comparison answers what the reference definition answers: complete
    when the work the pair costs is within the limit, and otherwise only the
    operations added and removed; it always returns. The cost is a function of
    the two documents, at most one unit per operation, keyed entry and merged
    entry and one per 256 code units of text, rounded up once. *)
Theorem diff_follows_afresh {summary : Type} (from to : diff_input summary)
    (stats : OpenApiResolveStats) :
  json_wf (JObj (di_document from)) -> json_wf (JObj (di_document to)) ->
  exists cost,
    cost <= document_units (di_document from) + document_units (di_document to) +
            ceil_div (text_size (JObj (di_document from)) + text_size (JObj (di_document to)))
                     SPEC_KEY_CODE_UNITS_PER_UNIT /\
    forall unitLimit unchecked, 0 <= unitLimit ->
      diffSpecDocuments from to stats unitLimit unchecked =
      Ok (if negb unchecked && bool_decide (cost <= unitLimit)
          then compare_operations from to (operations_afresh (di_document from))
                 (operations_afresh (di_document to)) true
          else compare_operations from to (operationKeysOf (di_document from))
                 (operationKeysOf (di_document to)) false).
Proof. exact (diff_cost from to stats). Qed.

(** ** Accepted documents *)

(** How many operations a path item has, and the parameter rows under them: the
    item's under each, and their own. *)
Fixpoint item_count (item : list (string * json)) (keys : list string) : Z :=
  match keys with
  | [] => 0
  | key :: rest =>
      (match json_record (json_own key item) with Some _ => 1 | None => 0 end) + item_count item rest
  end.

Fixpoint item_rows (item : list (string * json)) (keys : list string) : Z :=
  match keys with
  | [] => 0
  | key :: rest =>
      match json_record (json_own key item) with
      | Some operation => list_units item + list_units operation
      | None => 0
      end + item_rows item rest
  end.

Definition over_items (f : list (string * json) -> Z) (document : list (string * json)) : Z :=
  match json_record (json_own "paths" document) with
  | Some paths => z_sum ((fun kv => match kv.2 with JObj item => f item | _ => 0 end) <$> paths)
  | None => 0
  end.

Definition operation_count : list (string * json) -> Z :=
  over_items (fun item => item_count item OPERATION_KEYS).

Definition parameter_rows : list (string * json) -> Z :=
  over_items (fun item => item_rows item OPERATION_KEYS).

Lemma item_units_bound (item : list (string * json)) (keys : list string) (seen : bool) :
  item_units item keys seen <= item_count item keys + 2 * item_rows item keys.
Proof.
  revert seen. induction keys as [|key keys IH]; intros seen; cbn [item_units item_count item_rows]; [lia|].
  assert (Hlen : forall members, 0 <= list_units members) by (intros; unfold list_units; lia).
  destruct (json_record (json_own key item)) as [operation|].
  - specialize (IH true). pose proof (Hlen item). pose proof (Hlen operation). destruct seen; lia.
  - specialize (IH seen). lia.
Qed.

Lemma document_units_bound (document : list (string * json)) :
  document_units document <= operation_count document + 2 * parameter_rows document.
Proof.
  unfold document_units, operation_count, parameter_rows, over_items, paths_units.
  destruct (json_record (json_own "paths" document)) as [paths|]; [|lia].
  induction paths as [|[path v] paths IH]; [simpl; lia|].
  rewrite !fmap_cons. cbn [z_sum snd]. destruct v as [| | | | |item]; try lia.
  pose proof (item_units_bound item OPERATION_KEYS false). lia.
Qed.

Definition MAX_SPEC_OPERATIONS : Z := 3000.
Definition MAX_SPEC_BYTES : Z := 2 * 1024 * 1024.
Definition MAX_SPEC_EXPANDED_BYTES : Z := 2 * MAX_SPEC_BYTES.
Definition MAX_SPEC_KEY_UNITS : Z := ceil_div MAX_SPEC_EXPANDED_BYTES SPEC_KEY_CODE_UNITS_PER_UNIT.

(** What the upload checks leave of a document, as far as the comparison reads it. *)
Definition accepted (document : list (string * json)) : Prop :=
  json_wf (JObj document) /\ operation_count document <= MAX_SPEC_OPERATIONS /\
  parameter_rows document <= MAX_SPEC_RENDER_UNITS /\
  text_size (JObj document) <= MAX_SPEC_EXPANDED_BYTES.

(** C40: two documents within the limits of an upload are always compared to the
    end by the default budget, whatever their shape: only a document that was
    never checked can make the comparison incomplete. *)
Theorem accepted_revisions_compared {summary : Type} (from to : diff_input summary)
    (stats : OpenApiResolveStats) :
  accepted (di_document from) -> accepted (di_document to) ->
  diffSpecDocuments from to stats MAX_SPEC_DIFF_UNITS false =
  Ok (compare_operations from to (operations_afresh (di_document from))
        (operations_afresh (di_document to)) true).
Proof.
  intros (Hf & Hfo & Hfr & Hft) (Ht & Hto & Htr & Htt).
  destruct (diff_cost from to stats Hf Ht) as (cost & Hcost & Hdiff).
  rewrite Hdiff by (unfold MAX_SPEC_DIFF_UNITS, MAX_SPEC_RENDER_UNITS; lia).
  rewrite bool_decide_eq_true_2; [done|].
  pose proof (document_units_bound (di_document from)).
  pose proof (document_units_bound (di_document to)).
  unfold ceil_div, SPEC_KEY_CODE_UNITS_PER_UNIT in Hcost.
  pose proof (Z.div_le_mono
    (text_size (JObj (di_document from)) + text_size (JObj (di_document to)) + 256 - 1)
    (2 * MAX_SPEC_EXPANDED_BYTES + 256 - 1) 256 ltac:(lia) ltac:(lia)) as Hdiv.
  replace ((2 * MAX_SPEC_EXPANDED_BYTES + 256 - 1) / 256) with 32768 in Hdiv by reflexivity.
  unfold MAX_SPEC_DIFF_UNITS, MAX_SPEC_OPERATIONS, MAX_SPEC_RENDER_UNITS in *. lia.
Qed.
End Documents.

(** ** Sample revisions *)

Definition sample_id : json := JObj [("name", JStr "id"); ("in", JStr "path")]%string.

(** A shared parameter and two operations. *)
Definition sample_before : list (string * json) :=
  [("info", JObj [("title", JStr "Billing")]);
   ("paths", JObj [("/invoices/{id}",
      JObj [("parameters", JArr [sample_id]); ("get", JObj []); ("put", JObj [])])])]%string.

(** The parameter moved down, one operation gone and one new. *)
Definition sample_after : list (string * json) :=
  [("info", JObj [("title", JStr "Billing")]);
   ("paths", JObj [("/invoices/{id}",
      JObj [("get", JObj [("parameters", JArr [sample_id])]); ("post", JObj [])])])]%string.

Definition sample_input (document : list (string * json)) : diff_input unit :=
  {| di_document := document; di_summary := None |}.

Definition sample_stats : OpenApiResolveStats := {| pointerLookups := 0; pointerSegments := 0 |}.

Ltac solve_json_wf :=
  cbv; repeat match goal with |- _ /\ _ => split end;
  try exact I; apply (bool_decide_unpack _); vm_compute; exact I.

Lemma sample_before_wf : json_wf (JObj (di_document (sample_input sample_before))).
Proof. solve_json_wf. Qed.

Lemma sample_after_wf : json_wf (JObj (di_document (sample_input sample_after))).
Proof. solve_json_wf. Qed.

Example sample_diff :
  @diffSpecDocuments plain_digest unit (sample_input sample_before) (sample_input sample_after)
    sample_stats MAX_SPEC_DIFF_UNITS false =
  Ok {| sd_from := None; sd_to := None;
        sd_added_operations := [{| so_method := "POST"; so_path := "/invoices/{id}" |}];
        sd_removed_operations := [{| so_method := "PUT"; so_path := "/invoices/{id}" |}];
        sd_changed_operations := []; sd_added_paths := []; sd_removed_paths := [];
        sd_info_changes := []; sd_servers_changed := false;
        sd_potentially_breaking := [{| so_method := "PUT"; so_path := "/invoices/{id}" |}];
        sd_complete := true; sd_changed := true |}.
Proof. vm_compute. reflexivity. Qed.

Theorem diff_follows_afresh_witness :
  exists cost, cost <= 10 /\
    forall unitLimit unchecked, 0 <= unitLimit ->
      @diffSpecDocuments plain_digest unit (sample_input sample_before) (sample_input sample_after)
        sample_stats unitLimit unchecked =
      Ok (if negb unchecked && bool_decide (cost <= unitLimit)
          then compare_operations (sample_input sample_before) (sample_input sample_after)
                 (@operations_afresh plain_digest sample_before)
                 (@operations_afresh plain_digest sample_after) true
          else compare_operations (sample_input sample_before) (sample_input sample_after)
                 (operationKeysOf sample_before) (operationKeysOf sample_after) false).
Proof.
  destruct (@diff_follows_afresh plain_digest unit _ _ sample_stats
    sample_before_wf sample_after_wf) as (cost & Hcost & Hdiff).
  exists cost. split; [|exact Hdiff]. eapply Z.le_trans; [exact Hcost|]. vm_compute. discriminate.
Defined.

Theorem accepted_revisions_compared_witness :
  accepted sample_before /\ accepted sample_after /\
  @diffSpecDocuments plain_digest unit (sample_input sample_before) (sample_input sample_after)
    sample_stats MAX_SPEC_DIFF_UNITS false =
  Ok (compare_operations (sample_input sample_before) (sample_input sample_after)
        (@operations_afresh plain_digest sample_before) (@operations_afresh plain_digest sample_after) true).
Proof.
  assert (Hb : accepted sample_before) by (split; [exact sample_before_wf|split_and!; vm_compute; discriminate]).
  assert (Ha : accepted sample_after) by (split; [exact sample_after_wf|split_and!; vm_compute; discriminate]).
  split; [exact Hb|]. split; [exact Ha|].
  exact (@accepted_revisions_compared plain_digest unit (sample_input sample_before)
    (sample_input sample_after) sample_stats Hb Ha).
Defined.

(** ** The comparison of two revisions: what it reports

    The operations an answer of [SpecDiff] names, a document against itself, and
    the comparison order of parameters. *)

(** ** What the comparison reports *)

(** The document declares the method under the path. *)
Definition declares (document : list (string * json)) (r : SpecOperationRef) : Prop :=
  exists paths item key,
    json_own "paths" document = Some (JObj paths) /\ (so_path r, JObj item) ∈ paths /\
    key ∈ OPERATION_KEYS /\ so_method r = toUpperCase key /\
    is_Some (json_record (json_own key item)).

Lemma refOf_operation_key (key path : string) :
  key ∈ OPERATION_KEYS ->
  refOf (operation_key key path) = {| so_method := toUpperCase key; so_path := path |}.
Proof.
  unfold OPERATION_KEYS. intros Hkey.
  repeat (apply elem_of_cons in Hkey as [->|Hkey]; [reflexivity|]). by apply elem_of_nil in Hkey.
Qed.

Lemma json_set_key_in (k key : string) (v : json) (m : list (string * json)) :
  k ∈ (json_set key v m).*1 <-> k = key \/ k ∈ m.*1.
Proof.
  induction m as [|[k' v'] m IH]; csimpl; [set_solver|].
  case_decide as Hk; csimpl; [set_solver|]. rewrite !elem_of_cons, IH. naive_solver.
Qed.

(** The keys are those of the declared operations. *)
Lemma operation_keys_of_item_in (path : string) (item ops : list (string * json)) (k : string) :
  k ∈ (operation_keys_of_item path item ops).*1 <->
  k ∈ ops.*1 \/ exists key, key ∈ OPERATION_KEYS /\ k = operation_key key path /\
                  is_Some (json_record (json_own key item)).
Proof.
  unfold operation_keys_of_item. revert ops. generalize OPERATION_KEYS as keys.
  induction keys as [|key keys IH]; intros ops; cbn [fold_left]; [set_solver|].
  rewrite IH. setoid_rewrite elem_of_cons.
  destruct (json_record (json_own key item)) as [operation|] eqn:Hop.
  - rewrite json_set_key_in. naive_solver.
  - split; [naive_solver|]. intros [Hin|(key' & [->|Hin] & -> & Hsome)]; [auto| |naive_solver].
    rewrite Hop in Hsome. by destruct Hsome.
Qed.

Lemma operationKeysOf_in (document : list (string * json)) (k : string) :
  k ∈ (operationKeysOf document).*1 <->
  exists r, declares document r /\ exists key, key ∈ OPERATION_KEYS /\ so_method r = toUpperCase key /\
              k = operation_key key (so_path r).
Proof.
  unfold operationKeysOf, declares.
  destruct (json_own "paths" document) as [[| | | | |paths]|] eqn:Hpaths; simpl;
    try (split; [by intros ?%elem_of_nil|naive_solver]).
  assert (Hgen : forall ops : list (string * json),
    k ∈ (fold_left (fun operations kv => match kv.2 with
           | JObj item => operation_keys_of_item kv.1 item operations
           | _ => operations end) paths ops).*1 <->
    k ∈ ops.*1 \/ exists path item key, (path, JObj item) ∈ paths /\ key ∈ OPERATION_KEYS /\
                    k = operation_key key path /\ is_Some (json_record (json_own key item))).
  { clear Hpaths. induction paths as [|[path v] paths IH]; intros ops; cbn [fold_left].
    { set_solver. }
    rewrite IH. setoid_rewrite (elem_of_cons paths). destruct v as [| | | | |item]; cbn [fst snd];
      try (split; [naive_solver|intros [?|(p & i & key & [[=]|?] & ?)]; naive_solver]).
    rewrite operation_keys_of_item_in. split.
    - intros [[?|(key & ? & -> & ?)]|(p & i & key & ? & ?)]; [by left|right..].
      + exists path, item, key. split_and!; auto.
      + exists p, i, key. naive_solver.
    - intros [?|(p & i & key & [[= -> ->]|Hin] & ? & -> & ?)]; [by auto|left; right; by eauto|right].
      exists p, i, key. split_and!; auto. }
  rewrite Hgen. split.
  - intros [?%elem_of_nil|(path & item & key & Hin & Hkey & -> & Hop)]; [done|].
    exists {| so_method := toUpperCase key; so_path := path |}. naive_solver.
  - intros ([method path] & (paths' & item & key & [= <-] & Hin & Hkey & Hm & Hop) &
      key' & Hkey' & Hm' & ->).
    simpl in *. right. exists path, item, key.
    split_and!; try done. unfold operation_key. congruence.
Qed.

Lemma operationKeysOf_declares (document : list (string * json)) (r : SpecOperationRef) :
  declares document r <-> exists k, k ∈ (operationKeysOf document).*1 /\ refOf k = r.
Proof.
  setoid_rewrite operationKeysOf_in. split.
  - intros Hd. pose proof Hd as (paths & item & key & _ & _ & Hkey & Hm & _).
    exists (operation_key key (so_path r)). split; [exists r; split; [done|by exists key]|].
    rewrite refOf_operation_key by done. destruct r. simpl in *. by subst.
  - intros (k & ([method path] & Hd & key & Hkey & Hm & ->) & <-). simpl in *.
    by rewrite refOf_operation_key, <- Hm by done.
Qed.

(** A key names one operation. *)
Lemma refOf_inj (d1 d2 : list (string * json)) (k1 k2 : string) :
  k1 ∈ (operationKeysOf d1).*1 -> k2 ∈ (operationKeysOf d2).*1 -> refOf k1 = refOf k2 -> k1 = k2.
Proof.
  rewrite !operationKeysOf_in.
  intros ([m1 p1] & _ & key1 & Hk1 & Hm1 & ->) ([m2 p2] & _ & key2 & Hk2 & Hm2 & ->). simpl in *.
  rewrite !refOf_operation_key by done. intros [= Hup ->]. unfold operation_key. congruence.
Qed.

(** The references one document's keys have and the other's lack. *)
Lemma only_in_spec (l m : list (string * json)) (d1 d2 : list (string * json)) (r : SpecOperationRef) :
  l.*1 = (operationKeysOf d1).*1 -> m.*1 = (operationKeysOf d2).*1 ->
  r ∈ omap (fun kv => match json_own kv.1 m with None => Some (refOf kv.1) | Some _ => None end) l <->
  declares d1 r /\ ~ declares d2 r.
Proof.
  intros Hl Hm. rewrite list_elem_of_omap, !operationKeysOf_declares. split.
  - intros ([k v] & Hin & Hown). simpl in Hown. destruct (json_own k m) eqn:Hk; [done|].
    injection Hown as <-. apply json_own_none in Hk. rewrite Hm in Hk.
    assert (Hkl : k ∈ (operationKeysOf d1).*1).
    { rewrite <- Hl. apply list_elem_of_fmap. by exists (k, v). }
    split; [by eauto|]. intros (k' & Hk' & Hr). by rewrite (refOf_inj _ _ _ _ Hk' Hkl Hr) in Hk'.
  - intros [(k & Hk & <-) Hno]. rewrite <- Hl in Hk. apply list_elem_of_fmap in Hk as ([k' v] & -> & Hin).
    exists (k', v). split; [done|]. simpl. destruct (json_own k' m) as [w|] eqn:Hown; [|done].
    exfalso. apply Hno. exists k'. split; [|done]. rewrite <- Hm. apply list_elem_of_fmap.
    exists (k', w). split; [done|]. by apply json_own_in.
Qed.

(** ** A document against itself *)

(** The members an object has are well formed. *)
Definition members_wf (members : list (string * json)) : Prop :=
  forall k x, json_own k members = Some x -> json_wf x.

Lemma members_wf_obj (members : list (string * json)) : json_wf (JObj members) -> members_wf members.
Proof. intros Hwf k x Hown%json_own_in. by apply (json_wf_member members (k, x)). Qed.

Lemma json_own_set (k key : string) (v x : json) (m : list (string * json)) :
  json_own k (json_set key v m) = Some x -> x = v \/ json_own k m = Some x.
Proof.
  induction m as [|[k' v'] m IH]; simpl; [case_decide; naive_solver|].
  repeat (case_decide; simpl); naive_solver.
Qed.

Lemma json_own_delete (k key : string) (x : json) (m : list (string * json)) :
  json_own k (json_delete key m) = Some x -> json_own k m = Some x.
Proof.
  induction m as [|[k' v'] m IH]; simpl; [done|]. case_bool_decide as Hk; simpl.
  - intros Hown. specialize (IH Hown). case_decide as Hk'; [|done]. subst.
    apply json_own_in in Hown. apply list_elem_of_In, filter_In in Hown as [_ Hown]. simpl in Hown.
    by rewrite bool_decide_eq_true_2 in Hown.
  - case_decide; [done|exact IH].
Qed.

Section Same.
Context `{Sha256}.

Lemma canonicalParameters_in (entries : list KeyedOpenApiParameter) (x : json) :
  x ∈ canonicalParameters entries -> x ∈ kp_parameter <$> entries.
Proof.
  unfold canonicalParameters. rewrite elem_of_app. intros [Hx|Hx].
  - apply list_elem_of_In, in_map_iff in Hx as ([k y] & <- & Hin). apply list_elem_of_In in Hin.
    apply sort_by_elem, list_elem_of_omap in Hin as (entry & Hin & Hkey).
    destruct (kp_key entry); [|done]. injection Hkey as _ <-. apply list_elem_of_fmap. eauto.
  - apply list_elem_of_In, in_map_iff in Hx as (entry & <- & Hin). apply filter_In in Hin as [Hin _].
    apply list_elem_of_fmap. exists entry. by rewrite list_elem_of_In.
Qed.

Lemma keyed_afresh_parameters (document : json) inherited at_ index (items : list json) :
  kp_parameter <$> keyed_afresh document inherited at_ index items = items.
Proof.
  unfold keyed_afresh. revert index. induction items as [|x items IH]; intros index; [done|].
  rewrite imap_cons. cbn [fmap list_fmap kp_parameter]. f_equal.
  rewrite <- (IH (S index)) at 2. f_equal. apply imap_ext. intros i y _. simpl.
  by rewrite Nat.add_succ_r.
Qed.

Lemma effective_in (document : json) (path key : string) (item operation : list (string * json)) (x : json) :
  x ∈ effective_parameters document path key item operation ->
  x ∈ array_items (json_own "parameters" item) \/ x ∈ array_items (json_own "parameters" operation).
Proof.
  unfold effective_parameters. intros Hx%canonicalParameters_in.
  unfold mergeOpenApiParameters in Hx. rewrite fmap_app, elem_of_app in Hx. destruct Hx as [Hx|Hx].
  - left. apply list_elem_of_fmap in Hx as (entry & -> & Hin).
    apply list_elem_of_In, filter_In in Hin as [Hin _]. apply list_elem_of_In in Hin.
    unfold array_items. rewrite <- (keyed_afresh_parameters document true
      (path_item_place path ++ [Member "parameters"]) 0). by apply list_elem_of_fmap_2.
  - right. unfold own_afresh in Hx. by rewrite keyed_afresh_parameters in Hx.
Qed.

Lemma array_items_wf (v : option json) (x : json) :
  (forall y, v = Some y -> json_wf y) -> x ∈ array_items v -> json_wf x.
Proof.
  intros Hwf Hin. destruct v as [[| | | |items|]|]; simpl in Hin;
    try by apply elem_of_nil in Hin. apply (json_wf_elem items); [by apply Hwf|done].
Qed.

Lemma normalized_operation_wf (operation : list (string * json)) (effective : list json) :
  members_wf operation -> (forall x, x ∈ effective -> json_wf x) ->
  members_wf (operation_members (normalized_operation operation effective)).
Proof.
  intros Hop Heff. unfold normalized_operation.
  assert (Hrest : members_wf (json_delete "parameters" operation)).
  { intros k x Hown%json_own_delete. by eapply Hop. }
  destruct effective as [|e effective]; simpl.
  - destruct (json_own "parameters" operation) as [[]|]; simpl; try done.
  - intros k x [->|Hown]%json_own_set; [|by eapply Hrest].
    revert Heff. generalize (e :: effective) as l. induction l as [|y l IH]; simpl; [done|].
    intros Heff. split; [apply Heff; left|]. apply IH. intros z Hz. apply Heff. by right.
Qed.

(** Every operation held is an object of well-formed members. *)
Definition operations_wf (operations : list (string * json)) : Prop :=
  forall k v, json_own k operations = Some v -> members_wf (operation_members v).

Lemma item_operations_wf (document : json) (path : string) (item : list (string * json)) keys ops :
  json_wf (JObj item) -> operations_wf ops ->
  operations_wf (item_operations document path item keys ops).
Proof.
  intros Hitem. revert ops. unfold item_operations.
  induction keys as [|key keys IH]; intros ops Hops; simpl; [exact Hops|].
  apply IH. destruct (json_own key item) as [[| | | | |operation]|] eqn:Hop; simpl; try exact Hops.
  intros k v [->|Hown]%json_own_set; [|by eapply Hops].
  assert (Hopwf : json_wf (JObj operation)) by (by apply (members_wf_obj item Hitem _ _ Hop)).
  apply normalized_operation_wf; [by apply members_wf_obj|].
  intros x [Hx|Hx]%effective_in; eapply array_items_wf, Hx; intros y Hy.
  - by apply (members_wf_obj item Hitem _ _ Hy).
  - by apply (members_wf_obj operation Hopwf _ _ Hy).
Qed.

Lemma operations_afresh_wf (document : list (string * json)) :
  json_wf (JObj document) -> operations_wf (operations_afresh document).
Proof.
  intros Hwf. unfold operations_afresh, paths_operations.
  destruct (json_own "paths" document) as [[| | | | |paths]|] eqn:Hpaths; try done.
  cbn [json_record].
  assert (Hitems : forall path item, (path, JObj item) ∈ paths -> json_wf (JObj item)).
  { intros path item. apply (json_wf_member paths (path, JObj item)).
    by apply (members_wf_obj document Hwf _ _ Hpaths). }
  assert (Hops : operations_wf []) by done. revert Hops Hitems. clear.
  generalize (@nil (string * json)) as ops.
  induction paths as [|[path v] paths IH]; intros ops Hops Hitems; cbn [fold_left snd fst]; [exact Hops|].
  apply IH; [|intros p i Hin; apply (Hitems p i); by right].
  destruct v as [| | | | |item]; try exact Hops.
  apply item_operations_wf; [apply (Hitems path); left|exact Hops].
Qed.

Lemma memberChanges_same (members : list (string * json)) :
  members_wf members -> memberChanges members members = [].
Proof.
  intros Hwf. unfold memberChanges.
  assert (Heq : forall k, deep_equal (json_own k members) (json_own k members) = true).
  { intros k. apply deep_equal_refl. intros x Hx. by eapply Hwf. }
  assert (Hnil : forall l, List.filter (fun member =>
    negb (deep_equal (json_own member members) (json_own member members))) l = []).
  { induction l as [|k l IH]; simpl; [done|]. by rewrite Heq. }
  rewrite Hnil. simpl.
  assert (Hex : existsb (fun key => negb (bool_decide (key ∈ OPERATION_MEMBERS)) &&
    negb (deep_equal (json_own key members) (json_own key members))) (members.*1 ++ members.*1) = false).
  { apply not_true_iff_false. rewrite existsb_exists. intros (k & _ & Hk). by rewrite Heq, andb_false_r in Hk. }
  by rewrite Hex.
Qed.
Lemma json_set_nodup (key : string) (v : json) (m : list (string * json)) :
  NoDup m.*1 -> NoDup (json_set key v m).*1.
Proof.
  induction m as [|[k x] m IH]; csimpl; intros Hnd; [by apply NoDup_singleton|].
  apply NoDup_cons in Hnd as [Hk Hnd]. case_decide as Heq; csimpl; apply NoDup_cons.
  - by split.
  - split; [|by apply IH]. rewrite json_set_key_in. naive_solver.
Qed.

Lemma operations_afresh_nodup (document : list (string * json)) :
  NoDup (operations_afresh document).*1.
Proof.
  rewrite operations_keys. unfold operationKeysOf.
  destruct (json_record (json_own "paths" document)) as [paths|]; [|by apply NoDup_nil].
  assert (Hnd : NoDup (@nil (string * json)).*1) by by apply NoDup_nil.
  revert Hnd. generalize (@nil (string * json)) as ops.
  induction paths as [|[path v] paths IH]; intros ops Hnd; cbn [fold_left snd fst]; [done|].
  apply IH. destruct v as [| | | | |item]; try done.
  unfold operation_keys_of_item. revert ops Hnd. generalize OPERATION_KEYS as keys.
  induction keys as [|key keys IHk]; intros ops Hnd; cbn [fold_left]; [done|].
  apply IHk. destruct (json_record _); [by apply json_set_nodup|done].
Qed.

Lemma omap_nil_iff {A B} (f : A -> option B) (l : list A) :
  (forall x, x ∈ l -> f x = None) -> omap f l = [].
Proof.
  induction l as [|x l IH]; intros Hf; simpl; [done|].
  rewrite (Hf x) by left. apply IH. intros y Hy. apply Hf. by right.
Qed.

Lemma infoChanges_same (document : list (string * json)) : infoChanges document document = [].
Proof. unfold infoChanges. apply omap_nil_iff. intros field _. by case_decide. Qed.

Lemma filter_known (l : list string) :
  List.filter (fun path => negb (bool_decide (path ∈ l))) l = [].
Proof.
  cut (forall m, (forall x, x ∈ m -> x ∈ l) ->
    List.filter (fun path => negb (bool_decide (path ∈ l))) m = []); [intros Hcut; by apply Hcut|].
  induction m as [|x m IH]; intros Hm; simpl; [done|].
  rewrite bool_decide_eq_true_2 by (apply Hm; left). apply IH. intros y Hy. apply Hm. by right.
Qed.

(** A complete comparison of a document with itself finds nothing. *)
Lemma compare_same {summary : Type} (from to : diff_input summary) :
  json_wf (JObj (di_document from)) -> di_document from = di_document to ->
  sd_changed (compare_operations from to (operations_afresh (di_document from))
                (operations_afresh (di_document to)) true) = false.
Proof.
  intros Hwf Heq. unfold compare_operations. rewrite <- Heq, infoChanges_same, deep_equal_refl
    by (intros x Hx; by apply (members_wf_obj _ Hwf _ _ Hx)).
  pose proof (operations_afresh_nodup (di_document from)) as Hnd.
  pose proof (operations_afresh_wf _ Hwf) as Hops.
  assert (Hown : forall kv, kv ∈ operations_afresh (di_document from) ->
    json_own kv.1 (operations_afresh (di_document from)) = Some kv.2).
  { intros [k v] Hin. by apply json_own_nodup. }
  assert (Habsent : omap (fun kv => match json_own kv.1 (operations_afresh (di_document from)) with
                                    | None => Some (refOf kv.1)
                                    | Some _ => None
                                    end) (operations_afresh (di_document from)) = []).
  { apply omap_nil_iff. intros kv Hin. by rewrite Hown. }
  cbn [sd_changed]. rewrite Habsent, omap_nil_iff; [done|].
  intros kv Hin. rewrite Hown by done. simpl. rewrite memberChanges_same; [done|].
  by eapply Hops, Hown.
Qed.

(** What a comparison reports of two lists of operations with the declared keys. *)
Lemma compare_declared {summary : Type} (from to : diff_input summary) before after complete :
  before.*1 = (operationKeysOf (di_document from)).*1 ->
  after.*1 = (operationKeysOf (di_document to)).*1 ->
  let d := compare_operations from to before after complete in
  (forall r, r ∈ sd_added_operations d <-> declares (di_document to) r /\ ~ declares (di_document from) r) /\
  (forall r, r ∈ sd_removed_operations d <-> declares (di_document from) r /\ ~ declares (di_document to) r) /\
  (forall c, c ∈ sd_changed_operations d ->
     declares (di_document from) (sc_ref c) /\ declares (di_document to) (sc_ref c)).
Proof.
  intros Hb Ha d. unfold d, compare_operations. cbn [sd_added_operations sd_removed_operations
    sd_changed_operations]. split_and!; [intros r; by apply only_in_spec..|].
  intros c Hc. apply list_elem_of_omap in Hc as ([k v] & Hin & Hc). cbn [fst snd] in Hc.
  destruct (json_own k before) as [previous|] eqn:Hown; [|done].
  destruct (negb complete); [done|].
  assert (Href : sc_ref c = refOf k).
  { destruct (memberChanges _ _); [done|]. by injection Hc as <-. }
  rewrite Href, !operationKeysOf_declares.
  split; exists k; (split; [|done]); [rewrite <- Hb|rewrite <- Ha]; apply list_elem_of_fmap;
    [exists (k, previous)|exists (k, v)]; (split; [done|]); [by apply json_own_in|done].
Qed.

(** C37: every comparison, complete or not, lists as added exactly the operations
    the new document declares and the old does not, as removed and as potentially
    breaking exactly those the old declares and the new does not, and as changed
    only operations of both. An incomplete one names no change and says there may
    be some; a complete one of a document with itself says there is none. *)
Theorem diff_reports_declared {summary : Type} (from to : diff_input summary)
    (stats : OpenApiResolveStats) (unitLimit : Z) (unchecked : bool) (d : SpecDiff summary) :
  json_wf (JObj (di_document from)) -> json_wf (JObj (di_document to)) -> 0 <= unitLimit ->
  diffSpecDocuments from to stats unitLimit unchecked = Ok d ->
  (forall r, r ∈ sd_added_operations d <-> declares (di_document to) r /\ ~ declares (di_document from) r) /\
  (forall r, r ∈ sd_removed_operations d <-> declares (di_document from) r /\ ~ declares (di_document to) r) /\
  sd_potentially_breaking d = sd_removed_operations d /\
  (forall c, c ∈ sd_changed_operations d ->
     declares (di_document from) (sc_ref c) /\ declares (di_document to) (sc_ref c)) /\
  (sd_complete d = false -> sd_changed_operations d = [] /\ sd_changed d = true) /\
  (di_document from = di_document to -> sd_complete d = true -> sd_changed d = false).
Proof.
  intros Hf Ht Hlimit Hd. destruct (diff_cost from to stats Hf Ht) as (cost & _ & Hdiff).
  rewrite Hdiff in Hd by done. injection Hd as <-. destruct (negb unchecked && _).
  - destruct (compare_declared from to _ _ true (operations_keys (di_document from))
      (operations_keys (di_document to))) as (Hadd & Hrem & Hchg).
    split_and!; [exact Hadd|exact Hrem|done|exact Hchg|done|]. intros Heq _. by apply compare_same.
  - destruct (compare_declared from to (operationKeysOf (di_document from))
      (operationKeysOf (di_document to)) false) as (Hadd & Hrem & Hchg); [done..|].
    split_and!; [exact Hadd|exact Hrem|done|exact Hchg| |done]. intros _. split; [|done].
    unfold compare_operations. cbn [sd_changed_operations]. apply omap_nil_iff.
    intros kv _. by destruct (json_own _ _).
Qed.

(** ** Parameters in comparison order *)

(** A parameter with an identity, as the comparison sorts it. *)
Definition keyed_entry (entry : KeyedOpenApiParameter) : option (string * json) :=
  (fun key => (key, kp_parameter entry)) <$> kp_key entry.

Definition unkeyed_entry (entry : KeyedOpenApiParameter) : bool :=
  match kp_key entry with None => true | _ => false end.

(** The parameter under another list. *)
Definition moved (inherited : bool) (e : KeyedOpenApiParameter) : KeyedOpenApiParameter :=
  {| kp_parameter := kp_parameter e; kp_resolution := kp_resolution e; kp_key := kp_key e;
     kp_inherited := inherited |}.

Lemma omap_keyed_entry (entries : list KeyedOpenApiParameter) :
  (omap keyed_entry entries).*1 = omap kp_key entries.
Proof.
  induction entries as [|e entries IH]; [done|]. csimpl. unfold keyed_entry at 1.
  destruct (kp_key e); csimpl; [by rewrite IH|done].
Qed.

(** Lists with the same identities, each once, are in the same order. *)
Lemma canonicalParameters_perm (entries entries' : list KeyedOpenApiParameter) :
  omap keyed_entry entries ≡ₚ omap keyed_entry entries' ->
  List.filter unkeyed_entry entries = List.filter unkeyed_entry entries' ->
  NoDup (omap kp_key entries) ->
  canonicalParameters entries = canonicalParameters entries'.
Proof.
  intros Hperm Hun Hnd. unfold canonicalParameters. fold keyed_entry. fold unkeyed_entry.
  rewrite Hun. f_equal. f_equal. apply (sorting.StronglySorted_unique_strong (fun a b => entry_le a b = true)).
  - intros [k1 x1] [k2 x2] H1 H2 Hle Hge. unfold entry_le in *. simpl in *.
    assert (k1 = k2) as <- by by apply string_leb_antisym.
    f_equal. rewrite sort_by_elem in H1, H2. rewrite <- Hperm in H2.
    apply (json_own_nodup k1 x1) in H1; [|by rewrite omap_keyed_entry].
    apply (json_own_nodup k1 x2) in H2; [|by rewrite omap_keyed_entry]. congruence.
  - apply sort_by_sorted; unfold entry_le; intros; [apply string_leb_total|by eapply string_leb_trans].
  - apply sort_by_sorted; unfold entry_le; intros; [apply string_leb_total|by eapply string_leb_trans].
  - by rewrite !sort_by_perm.
Qed.

(** What an operation does not override. *)
Definition kept (overridden : list string) (entry : KeyedOpenApiParameter) : bool :=
  match kp_key entry with None => true | Some key => negb (bool_decide (key ∈ overridden)) end.

Lemma omap_keys_filter (f : KeyedOpenApiParameter -> bool) (entries : list KeyedOpenApiParameter) k :
  k ∈ omap kp_key (List.filter f entries) <->
  exists e, e ∈ entries /\ f e = true /\ kp_key e = Some k.
Proof.
  rewrite list_elem_of_omap. setoid_rewrite list_elem_of_In. setoid_rewrite filter_In. naive_solver.
Qed.

Lemma merged_keys_nodup (shared own : list KeyedOpenApiParameter) :
  NoDup (omap kp_key shared) -> NoDup (omap kp_key own) ->
  NoDup (omap kp_key (mergeOpenApiParameters shared own)).
Proof.
  intros Hs Ho. unfold mergeOpenApiParameters. fold (kept (omap kp_key own)).
  rewrite omap_app. apply NoDup_app. split_and!; [|intros k Hk Hin|done].
  - revert Hs. induction shared as [|e shared IH]; [done|]. simpl.
    destruct (kp_key e) as [key|] eqn:Hkey.
    + rewrite NoDup_cons. intros [Hk Hnd]. specialize (IH Hnd).
      destruct (kept _ e); [|done]. simpl. rewrite Hkey. apply NoDup_cons. split; [|done].
      intros (e' & Hin & _ & He')%omap_keys_filter. apply Hk, list_elem_of_omap. by exists e'.
    + intros Hnd. destruct (kept _ e); simpl; [rewrite Hkey|]; by apply IH.
  - apply omap_keys_filter in Hk as (e & _ & Hf & Hkey). unfold kept in Hf. rewrite Hkey in Hf.
    by rewrite bool_decide_eq_true_2 in Hf.
Qed.

Lemma filter_kept_perm (k : string) (overridden overridden' : list string)
    (entries : list KeyedOpenApiParameter) :
  overridden' ≡ₚ k :: overridden -> k ∉ omap kp_key entries ->
  List.filter (kept overridden') entries = List.filter (kept overridden) entries.
Proof.
  intros Hperm Hk. symmetry. apply filter_ext_in. intros e Hin%list_elem_of_In. unfold kept.
  destruct (kp_key e) as [key|] eqn:Hkey; [|done]. f_equal. apply bool_decide_ext.
  rewrite Hperm, elem_of_cons. split; [by right|]. intros [->|?]; [|done].
  exfalso. apply Hk, list_elem_of_omap. by exists e.
Qed.

Section Moved.
Context (s1 s2 o1 o2 : list KeyedOpenApiParameter) (e : KeyedOpenApiParameter) (k : string).
Hypothesis Hkey : kp_key e = Some k.

Lemma merge_kept :
  k ∉ omap kp_key (o1 ++ o2) ->
  mergeOpenApiParameters (s1 ++ e :: s2) (o1 ++ o2) =
  (List.filter (kept (omap kp_key (o1 ++ o2))) s1 ++
   e :: List.filter (kept (omap kp_key (o1 ++ o2))) s2) ++ o1 ++ o2.
Proof.
  intros Hown. unfold mergeOpenApiParameters. fold (kept (omap kp_key (o1 ++ o2))).
  rewrite List.filter_app. simpl. unfold kept at 2. rewrite Hkey.
  by rewrite bool_decide_eq_false_2.
Qed.

Lemma merge_moved :
  k ∉ omap kp_key s1 -> k ∉ omap kp_key s2 ->
  mergeOpenApiParameters (s1 ++ s2) (o1 ++ moved false e :: o2) =
  (List.filter (kept (omap kp_key (o1 ++ o2))) s1 ++
   List.filter (kept (omap kp_key (o1 ++ o2))) s2) ++ o1 ++ moved false e :: o2.
Proof.
  intros H1 H2. unfold mergeOpenApiParameters. fold (kept (omap kp_key (o1 ++ moved false e :: o2))).
  assert (Hperm : omap kp_key (o1 ++ moved false e :: o2) ≡ₚ k :: omap kp_key (o1 ++ o2)).
  { rewrite !omap_app. simpl. rewrite Hkey. by rewrite Permutation_middle. }
  by rewrite List.filter_app, !(filter_kept_perm k _ _ _ Hperm).
Qed.
End Moved.

(** The fold of shared parameters neither invents nor hides a change: moving
    a parameter with an identity from the path item down onto the operation, at
    any place, leaves the operation's parameters as they are compared exactly as
    they were, and so does removing a path-item parameter the operation overrides. *)
Theorem moved_parameter_unchanged (s1 s2 o1 o2 : list KeyedOpenApiParameter)
    (e : KeyedOpenApiParameter) (k : string) :
  kp_key e = Some k ->
  NoDup (omap kp_key (s1 ++ e :: s2)) -> NoDup (omap kp_key (o1 ++ o2)) ->
  (k ∉ omap kp_key (o1 ++ o2) ->
   canonicalParameters (mergeOpenApiParameters (s1 ++ s2) (o1 ++ moved false e :: o2)) =
   canonicalParameters (mergeOpenApiParameters (s1 ++ e :: s2) (o1 ++ o2))) /\
  (k ∈ omap kp_key (o1 ++ o2) ->
   canonicalParameters (mergeOpenApiParameters (s1 ++ s2) (o1 ++ o2)) =
   canonicalParameters (mergeOpenApiParameters (s1 ++ e :: s2) (o1 ++ o2))).
Proof.
  intros Hkey Hs Ho.
  assert (Hk : k ∉ omap kp_key s1 /\ k ∉ omap kp_key s2).
  { rewrite omap_app in Hs. simpl in Hs. rewrite Hkey in Hs.
    apply NoDup_app in Hs as (_ & Hdis & [Hn _]%NoDup_cons). split; [|done].
    intros Hin. apply (Hdis k Hin). left. }
  destruct Hk as [Hk1 Hk2]. split; intros Hown.
  - symmetry. apply canonicalParameters_perm; [| |by apply merged_keys_nodup];
      rewrite (merge_moved s1 s2 o1 o2 e k), (merge_kept s1 s2 o1 o2 e k) by done;
      rewrite ?omap_app, ?List.filter_app; cbn [omap list_omap List.filter].
    + assert (He : keyed_entry e = Some (k, kp_parameter e)) by (unfold keyed_entry; by rewrite Hkey).
      change (keyed_entry (moved false e)) with (keyed_entry e). rewrite !He. solve_Permutation.
    + assert (He : unkeyed_entry e = false) by (unfold unkeyed_entry; by rewrite Hkey).
      change (unkeyed_entry (moved false e)) with (unkeyed_entry e). by rewrite !He.
  - f_equal. unfold mergeOpenApiParameters. fold (kept (omap kp_key (o1 ++ o2))).
    rewrite !List.filter_app. simpl. unfold kept at 4. rewrite Hkey.
    by rewrite bool_decide_eq_true_2.
Qed.
End Same.

(** ** Witnesses *)

Theorem diff_reports_declared_witness :
  exists d,
    @diffSpecDocuments plain_digest unit (sample_input sample_before) (sample_input sample_after)
      sample_stats MAX_SPEC_DIFF_UNITS false = Ok d /\
    forall r, r ∈ sd_removed_operations d <-> declares sample_before r /\ ~ declares sample_after r.
Proof.
  eexists. split; [exact sample_diff|].
  exact (proj1 (proj2 (@diff_reports_declared plain_digest unit _ _ sample_stats
    MAX_SPEC_DIFF_UNITS false _ sample_before_wf sample_after_wf ltac:(vm_compute; discriminate)
    sample_diff))).
Defined.

Definition sample_keyed (name : string) : KeyedOpenApiParameter :=
  {| kp_parameter := JObj [("name"%string, JStr name)]; kp_resolution := None; kp_key := Some name;
     kp_inherited := true |}.

Theorem moved_parameter_unchanged_witness :
  canonicalParameters (mergeOpenApiParameters [sample_keyed "b"]
    [sample_keyed "c"; moved false (sample_keyed "a")]) =
  canonicalParameters (mergeOpenApiParameters [sample_keyed "b"; sample_keyed "a"] [sample_keyed "c"]).
Proof.
  refine (proj1 (moved_parameter_unchanged [sample_keyed "b"] [] [sample_keyed "c"] []
    (sample_keyed "a") "a" eq_refl _ _) _); apply (bool_decide_unpack _); vm_compute; exact I.
Defined.
