(* ===== verification/Roles.v ===== *)
(** * Roles and error codes

    [shared/src/roles.ts] and [shared/src/error-codes.ts] with the error type of
    [server/src/lib/errors.ts]: the strictly ordered roles and the capabilities
    derived from them, the closed set of error codes with the HTTP status of
    each, and the values a Nexus computation throws. *)

From S2P Require Import Prelude.
Open Scope Z_scope.

(** ** Roles *)

Inductive Role : Type := client | provider | admin | super_admin.

#[export] Instance Role_eq_dec : EqDecision Role.
Proof. solve_decision. Defined.

Definition role_name (r : Role) : string :=
  match r with
  | client => "client"
  | provider => "provider"
  | admin => "admin"
  | super_admin => "super_admin"
  end.

Definition ROLE_ORDER : list string :=
  ["client"; "provider"; "admin"; "super_admin"]%string.

Definition REGISTRABLE_ROLES : list string := ["client"; "provider"]%string.

Definition ELEVATED_ROLES : list string := ["admin"; "super_admin"]%string.

(** [Array.prototype.indexOf]: the first position holding [x], or [-1]. *)
Fixpoint index_of_from (i : Z) (x : string) (l : list string) : Z :=
  match l with
  | [] => -1
  | y :: l' => if decide (x = y) then i else index_of_from (i + 1) x l'
  end.

Definition index_of (x : string) (l : list string) : Z := index_of_from 0 x l.

(** The guards take an untyped value: anything but a string is refused. *)
Definition isRole (value : option string) : bool :=
  match value with Some s => bool_decide (s ∈ ROLE_ORDER) | None => false end.

Definition isRegistrableRole (value : option string) : bool :=
  match value with Some s => bool_decide (s ∈ REGISTRABLE_ROLES) | None => false end.

(** [roleRank] looks the name up at run time, so it is a function of strings:
    an unknown name ranks [-1]. *)
Definition roleRank (role : string) : Z := index_of role ROLE_ORDER.

Definition roleAtLeast (a b : string) : bool := bool_decide (roleRank b <= roleRank a).

Record Capabilities : Type := {
  can_publish_apis : bool;
  can_review_access_requests : bool;
  can_manage_users : bool;
  can_manage_settings : bool;
  can_view_audit_log : bool;
  can_use_god_mode : bool;
}.

Definition capabilitiesFor (role : string) : Capabilities := {|
  can_publish_apis := roleAtLeast role "provider";
  can_review_access_requests := roleAtLeast role "provider";
  can_manage_users := roleAtLeast role "admin";
  can_manage_settings := roleAtLeast role "admin";
  can_view_audit_log := roleAtLeast role "admin";
  can_use_god_mode := roleAtLeast role "super_admin";
|}.

(** The capabilities as a set, for comparing two roles. *)
Definition capability_list (c : Capabilities) : list bool :=
  [can_publish_apis c; can_review_access_requests c; can_manage_users c;
   can_manage_settings c; can_view_audit_log c; can_use_god_mode c].

Definition capabilities_le (c1 c2 : Capabilities) : Prop :=
  Forall2 (fun b1 b2 => b1 = true -> b2 = true) (capability_list c1) (capability_list c2).

(** ** Error codes *)

Inductive ErrorCode : Type :=
| VALIDATION_FAILED | UNAUTHORIZED | FORBIDDEN | NOT_FOUND | CONFLICT | CSRF_MISMATCH
| CAPTCHA_FAILED | CAPTCHA_SELF_TEST_FAILED | RATE_LIMITED | QUOTA_EXCEEDED
| EMAIL_NOT_VERIFIED | USER_DISABLED | LAST_SUPER_ADMIN
| ACCESS_DISRUPTION_CONFIRMATION_REQUIRED | SHOW_ONCE_ALREADY | EDGE_UNAVAILABLE
| EDGE_ERROR | EDGE_REJECTED_SPEC | EDGE_PROTOCOL_ERROR | EDGE_NAMESPACE_UNSERVED
| SPEC_INVALID | OUTBOX_FAILURE | INTERNAL.

#[export] Instance ErrorCode_eq_dec : EqDecision ErrorCode.
Proof. solve_decision. Defined.

Definition ERROR_CODE_STATUS (code : ErrorCode) : Z :=
  match code with
  | VALIDATION_FAILED => 400
  | UNAUTHORIZED => 401
  | FORBIDDEN => 403
  | NOT_FOUND => 404
  | CONFLICT => 409
  | CSRF_MISMATCH => 403
  | CAPTCHA_FAILED => 400
  | CAPTCHA_SELF_TEST_FAILED => 400
  | RATE_LIMITED => 429
  | QUOTA_EXCEEDED => 429
  | EMAIL_NOT_VERIFIED => 403
  | USER_DISABLED => 403
  | LAST_SUPER_ADMIN => 409
  | ACCESS_DISRUPTION_CONFIRMATION_REQUIRED => 409
  | SHOW_ONCE_ALREADY => 410
  | EDGE_UNAVAILABLE => 502
  | EDGE_ERROR => 502
  | EDGE_REJECTED_SPEC => 400
  | EDGE_PROTOCOL_ERROR => 502
  | EDGE_NAMESPACE_UNSERVED => 409
  | SPEC_INVALID => 400
  | OUTBOX_FAILURE => 500
  | INTERNAL => 500
  end.

(** ** Thrown values

    A thrown object is a [NexusError] (it has a code) or any other [Error] (a
    driver failure: no code). [details] keeps the fields the code attaches, as
    key and text. The first two marks stand for membership in the [WeakSet]s
    [refusals] of [lease-fence.ts] and [timeouts] of [keyed-serializer.ts],
    which are keyed by the identity of the thrown object, and
    [ex_unacknowledged] for [instanceof MailDeliveredUnacknowledgedError]. *)
Record exn : Type := {
  ex_code : option ErrorCode;
  ex_message : string;
  ex_details : list (string * string);
  ex_lease_lost : bool;
  ex_lock_timeout : bool;
  ex_unacknowledged : bool;
}.

#[export] Instance exn_eq_dec : EqDecision exn.
Proof. solve_decision. Defined.

Definition nexusError (code : ErrorCode) (message : string)
    (details : list (string * string)) : exn := {|
  ex_code := Some code;
  ex_message := message;
  ex_details := details;
  ex_lease_lost := false;
  ex_lock_timeout := false;
  ex_unacknowledged := false;
|}.

Definition statusCode (e : exn) : option Z := ERROR_CODE_STATUS <$> ex_code e.

Definition isNexusError (e : exn) : bool := bool_decide (is_Some (ex_code e)).

Definition conflict (message : string) (details : list (string * string)) : exn :=
  nexusError CONFLICT message details.

Definition notFound (what : string) (id : option string) : exn :=
  nexusError NOT_FOUND
    (match id with
     | Some id => if decide (id = "") then what +:+ " was not found"
                  else what +:+ " '" +:+ id +:+ "' was not found"
     | None => what +:+ " was not found"
     end)%string [].

Definition forbidden (message : string) : exn := nexusError FORBIDDEN message [].

Definition validationFailed (message : string) (details : list (string * string)) : exn :=
  nexusError VALIDATION_FAILED message details.

Definition quotaExceeded (message : string) (details : list (string * string)) : exn :=
  nexusError QUOTA_EXCEEDED message details.

(** A failure of the database driver or of another library. *)
Definition driverError (message : string) : exn := {|
  ex_code := None;
  ex_message := message;
  ex_details := [];
  ex_lease_lost := false;
  ex_lock_timeout := false;
  ex_unacknowledged := false;
|}.

(** ** Lemmas *)

Lemma roleRank_of (r : Role) :
  roleRank (role_name r) =
    match r with client => 0 | provider => 1 | admin => 2 | super_admin => 3 end.
Proof. by destruct r. Qed.

Lemma roleRank_name_inj (r1 r2 : Role) :
  roleRank (role_name r1) = roleRank (role_name r2) -> r1 = r2.
Proof. rewrite !roleRank_of. destruct r1, r2; intros; done || lia. Qed.

Lemma index_of_from_not_in (x : string) (l : list string) (i : Z) :
  x ∉ l -> index_of_from i x l = -1.
Proof.
  revert i; induction l as [|y l IH]; intros i Hx; simpl; [done|].
  apply not_elem_of_cons in Hx as [Hne Hx].
  rewrite decide_False by done. auto.
Qed.

Lemma roleRank_unknown (s : string) : isRole (Some s) = false -> roleRank s = -1.
Proof. intros H. simpl in H. bool_to_prop. by apply index_of_from_not_in. Qed.

Lemma isRole_iff (s : string) : isRole (Some s) = true <-> exists r, s = role_name r.
Proof.
  simpl. rewrite bool_decide_eq_true. unfold ROLE_ORDER. split.
  - intros H. apply list_elem_of_In in H as [<-|[<-|[<-|[<-|[]]]]];
      [exists client|exists provider|exists admin|exists super_admin]; done.
  - intros [r ->]. destruct r; simpl; set_solver.
Qed.

(** Roles are totally ordered by [roleAtLeast]; a name that is not a role
    satisfies no requirement that names a role; and a role that is at least
    another holds every capability of it. *)
Theorem roles_totally_ordered :
  (forall a b, roleAtLeast (role_name a) (role_name b) || roleAtLeast (role_name b) (role_name a) = true)
  /\ (forall a b, roleAtLeast (role_name a) (role_name b) = true ->
        roleAtLeast (role_name b) (role_name a) = true -> a = b)
  /\ (forall s b, isRole (Some s) = false -> roleAtLeast s (role_name b) = false)
  /\ (forall a b, roleAtLeast a b = true -> capabilities_le (capabilitiesFor b) (capabilitiesFor a)).
Proof.
  repeat split.
  - intros a b; by destruct a, b.
  - intros a b; by destruct a, b.
  - intros s b Hs. unfold roleAtLeast. rewrite (roleRank_unknown _ Hs), roleRank_of.
    apply bool_decide_eq_false_2. destruct b; lia.
  - intros a b Hab. unfold roleAtLeast in Hab. bool_to_prop.
    assert (Hmono : forall c, roleAtLeast b c = true -> roleAtLeast a c = true).
    { intros c Hc. unfold roleAtLeast in *. bool_to_prop.
      apply bool_decide_eq_true_2. lia. }
    unfold capabilities_le, capability_list; simpl. repeat constructor; auto.
Qed.
