(* ===== verification/Leases.v ===== *)
(** * The lease table

    [LeaseRepo] of [server/src/db/store.ts] as a type class with its laws, the
    SQLite repository of [server/src/db/adapters/sqlite/index.ts] as the
    instance, and the step relation of the instances that share one table. *)

From S2P Require Import Prelude Roles.
Open Scope Z_scope.

(** ** The repository interface

    What [db/store.ts] documents of a lease repository over a table [T]: the
    operations, and the laws every client of the table relies on. Timestamps
    are epoch milliseconds. *)
Class LeaseRepo (T : Type) : Type := {
  lease_acquire : string -> string -> Z -> Z -> Z -> T -> T * bool;
  lease_release : string -> string -> T -> T * bool;
  lease_renew : string -> string -> Z -> Z -> T -> T * bool;
  lease_verify : string -> string -> T -> bool;
  lease_deleteExpired : Z -> T -> T * Z;
}.

Class LeaseLaws (T : Type) `{LeaseRepo T} : Prop := {
  acquire_holds : forall key owner e now stamp t t',
    lease_acquire key owner e now stamp t = (t', true) -> lease_verify key owner t' = true;
  acquire_excludes : forall key owner e now stamp t t' other,
    lease_acquire key owner e now stamp t = (t', true) -> other <> owner ->
    lease_verify key other t' = false;
  acquire_refused : forall key owner e now stamp t t',
    lease_acquire key owner e now stamp t = (t', false) -> t' = t;
  acquire_frame : forall key owner e now stamp t t' b key' owner',
    lease_acquire key owner e now stamp t = (t', b) -> key' <> key ->
    lease_verify key' owner' t' = lease_verify key' owner' t;
  release_drops : forall key owner t t' b,
    lease_release key owner t = (t', b) -> lease_verify key owner t' = false;
  release_frame : forall key owner t t' b key' owner',
    lease_release key owner t = (t', b) -> (key', owner') <> (key, owner) ->
    lease_verify key' owner' t' = lease_verify key' owner' t;
  renew_keeps : forall key owner e stamp t t' b key' owner',
    lease_renew key owner e stamp t = (t', b) ->
    lease_verify key' owner' t' = lease_verify key' owner' t;
  sweep_only_drops : forall now t t' n key owner,
    lease_deleteExpired now t = (t', n) -> lease_verify key owner t' = true ->
    lease_verify key owner t = true;
}.

(** ** The SQLite repository *)

Record lease_row : Type := {
  l_owner : string;
  l_expires_at : Z;
  l_created_at : Z;
  l_updated_at : Z;
}.

#[export] Instance lease_row_eq_dec : EqDecision lease_row.
Proof. solve_decision. Defined.

(** [edge_leases], by its primary key [key]. *)
Abbreviation lease_table := (gmap string lease_row).

Definition LEASE_KEY_MAX_LENGTH : Z := 255.

Definition key_length (key : string) : Z := Z.of_nat (String.length key).

Definition assertLeaseKeyLength (key : string) : res exn unit :=
  if decide (key_length key > LEASE_KEY_MAX_LENGTH)
  then Throw (nexusError INTERNAL
                ("Lease key is " +:+ pretty (key_length key) +:+ " characters; the maximum is "
                   +:+ pretty LEASE_KEY_MAX_LENGTH) [])
  else Ok tt.

(** [INSERT ... ON CONFLICT (key) DO UPDATE ... WHERE expires_at <= now]: the
    returned flag is "at least one row changed". A replaced row keeps its
    [created_at]. *)
Definition sqlite_acquire (key owner : string) (expiresAt now stamp : Z) (t : lease_table)
    : lease_table * bool :=
  match t !! key with
  | None =>
      (<[key := {| l_owner := owner; l_expires_at := expiresAt;
                   l_created_at := stamp; l_updated_at := stamp |}]> t, true)
  | Some row =>
      if decide (l_expires_at row <= now)
      then (<[key := {| l_owner := owner; l_expires_at := expiresAt;
                        l_created_at := l_created_at row; l_updated_at := stamp |}]> t, true)
      else (t, false)
  end.

Definition holds (key owner : string) (t : lease_table) : bool :=
  match t !! key with Some row => bool_decide (l_owner row = owner) | None => false end.

Definition sqlite_release (key owner : string) (t : lease_table) : lease_table * bool :=
  if holds key owner t then (delete key t, true) else (t, false).

Definition sqlite_renew (key owner : string) (expiresAt stamp : Z) (t : lease_table)
    : lease_table * bool :=
  match t !! key with
  | Some row =>
      if decide (l_owner row = owner)
      then (<[key := {| l_owner := l_owner row; l_expires_at := expiresAt;
                        l_created_at := l_created_at row; l_updated_at := stamp |}]> t, true)
      else (t, false)
  | None => (t, false)
  end.

(** [verify] reads the row: it does not look at [expires_at]. *)
Definition sqlite_verify (key owner : string) (t : lease_table) : bool := holds key owner t.

Definition sqlite_deleteExpired (now : Z) (t : lease_table) : lease_table * Z :=
  let kept := filter (fun '(_, row) => ~ l_expires_at row <= now) t in
  (kept, Z.of_nat (size t - size kept)).

#[export] Instance sqlite_leases : LeaseRepo lease_table := {|
  lease_acquire := sqlite_acquire;
  lease_release := sqlite_release;
  lease_renew := sqlite_renew;
  lease_verify := sqlite_verify;
  lease_deleteExpired := sqlite_deleteExpired;
|}.

(** ** Every instance against one table

    The acquisitions, renewals, releases and sweeps of all the processes that
    share the table, one statement at a time. [granted] records the tokens an
    acquisition was ever granted under: [underLease] draws a fresh one per
    acquisition ([randomUUID]), and stops asking once it is granted, so a token
    of [granted] is never presented again. *)
Section Instances.
Context {T : Type} `{LeaseRepo T}.

Record lease_world : Type := { lw_table : T; lw_granted : gset string }.

Inductive lease_step : lease_world -> lease_world -> Prop :=
| step_acquired key token e now stamp t t' g :
    token ∉ g ->
    lease_acquire key token e now stamp t = (t', true) ->
    lease_step {| lw_table := t; lw_granted := g |}
               {| lw_table := t'; lw_granted := {[token]} ∪ g |}
| step_refused key token e now stamp t t' g :
    token ∉ g ->
    lease_acquire key token e now stamp t = (t', false) ->
    lease_step {| lw_table := t; lw_granted := g |} {| lw_table := t'; lw_granted := g |}
| step_renew key token e stamp t t' b g :
    lease_renew key token e stamp t = (t', b) ->
    lease_step {| lw_table := t; lw_granted := g |} {| lw_table := t'; lw_granted := g |}
| step_release key token t t' b g :
    lease_release key token t = (t', b) ->
    lease_step {| lw_table := t; lw_granted := g |} {| lw_table := t'; lw_granted := g |}
| step_sweep now t t' n g :
    lease_deleteExpired now t = (t', n) ->
    lease_step {| lw_table := t; lw_granted := g |} {| lw_table := t'; lw_granted := g |}.

Definition holds_in (key token : string) (w : lease_world) : Prop :=
  lease_verify key token (lw_table w) = true.
End Instances.
Arguments lease_world T : clear implicits.

(** ** Lemmas *)

Lemma sqlite_acquire_true key owner e now stamp t t' :
  sqlite_acquire key owner e now stamp t = (t', true) ->
  (forall row, t !! key = Some row -> l_expires_at row <= now)
  /\ exists row, l_owner row = owner /\ l_expires_at row = e /\ t' = <[key := row]> t.
Proof.
  unfold sqlite_acquire. intros Hacq.
  destruct (t !! key) as [row|] eqn:Hrow; [case_decide|]; simplify_eq.
  all: split; [intros; simplify_eq; done | eexists; split_and!; [| | reflexivity]; done].
Qed.

Lemma holds_insert key row t key' owner :
  holds key' owner (<[key := row]> t) =
    if decide (key = key') then bool_decide (l_owner row = owner) else holds key' owner t.
Proof. unfold holds. rewrite lookup_insert. by case_decide. Qed.

#[export] Instance sqlite_lease_laws : LeaseLaws lease_table.
Proof.
  split; simpl; unfold sqlite_verify.
  - intros * Hacq. apply sqlite_acquire_true in Hacq as (_ & row & Ho & _ & ->).
    rewrite holds_insert, decide_True by done. by apply bool_decide_eq_true_2.
  - intros * Hacq Hne. apply sqlite_acquire_true in Hacq as (_ & row & Ho & _ & ->).
    rewrite holds_insert, decide_True by done. apply bool_decide_eq_false_2. congruence.
  - unfold sqlite_acquire. intros * Hacq. by repeat case_match; simplify_eq.
  - intros * Hacq Hne. destruct b.
    + apply sqlite_acquire_true in Hacq as (_ & row & _ & _ & ->).
      by rewrite holds_insert, decide_False by done.
    + unfold sqlite_acquire in Hacq. by repeat case_match; simplify_eq.
  - unfold sqlite_release. intros * Hrel. destruct (holds key owner t) eqn:Hh; simplify_eq; [|done].
    unfold holds. by rewrite lookup_delete_eq.
  - unfold sqlite_release. intros * Hrel Hne.
    destruct (holds key owner t) eqn:Hh; simplify_eq; [|done].
    unfold holds in *. rewrite lookup_delete. case_decide as Hk; [subst key'|done].
    destruct (t !! key) as [row|]; [|done]. bool_to_prop.
    symmetry. apply bool_decide_eq_false_2. congruence.
  - unfold sqlite_renew. intros * Hren.
    destruct (t !! key) as [row|] eqn:Hrow; [case_decide|]; simplify_eq; [|done..].
    rewrite holds_insert. case_decide as Hk; [subst key'|done]. simpl. unfold holds. by rewrite Hrow.
  - unfold sqlite_deleteExpired. intros * Hs Hh. simplify_eq. unfold holds in *.
    destruct (filter _ t !! key) as [row|] eqn:Hf; [|done].
    apply map_lookup_filter_Some in Hf as [-> _]. done.
Qed.

(** The two acquisitions a taken key refuses: the table keeps a live holder. *)
Lemma sqlite_acquire_live key owner e now stamp t row :
  t !! key = Some row -> now < l_expires_at row ->
  sqlite_acquire key owner e now stamp t = (t, false).
Proof. unfold sqlite_acquire. intros -> Hlive. rewrite decide_False; [done|lia]. Qed.

Lemma sqlite_acquire_free key owner e now stamp t :
  (forall row, t !! key = Some row -> l_expires_at row <= now) ->
  exists t', sqlite_acquire key owner e now stamp t = (t', true).
Proof.
  intros Hfree. unfold sqlite_acquire. destruct (t !! key) as [row|] eqn:Hrow; [|eauto].
  rewrite decide_True by eauto. eauto.
Qed.

(** ** The fence *)

Section Fence.
Context {T : Type} `{LeaseLaws T}.

Lemma lease_step_granted_mono (w w' : lease_world T) :
  lease_step w w' -> lw_granted w ⊆ lw_granted w'.
Proof. destruct 1; simpl; set_solver. Qed.

Lemma lease_step_no_return (w w' : lease_world T) key token :
  lease_step w w' -> token ∈ lw_granted w ->
  holds_in key token w' -> holds_in key token w.
Proof.
  intros Hstep Hg Hh. unfold holds_in in *.
  destruct Hstep as [k o e now stamp t t' g Hfresh Hacq | k o e now stamp t t' g Hfresh Hacq
                    | k o e stamp t t' b g Hr | k o t t' b g Hr | now t t' n g Hs]; simpl in *.
  - destruct (decide (key = k)) as [->|Hk].
    + rewrite (acquire_excludes _ _ _ _ _ _ _ token Hacq) in Hh; [done|].
      intros ->. done.
    + by rewrite <- (acquire_frame _ _ _ _ _ _ _ _ key token Hacq).
  - by rewrite <- (acquire_refused _ _ _ _ _ _ _ Hacq).
  - by rewrite <- (renew_keeps _ _ _ _ _ _ _ key token Hr).
  - destruct (decide ((key, token) = (k, o))) as [Heq|Hne].
    + injection Heq as -> ->. by rewrite (release_drops _ _ _ _ _ Hr) in Hh.
    + by rewrite <- (release_frame _ _ _ _ _ key token Hr Hne).
  - eauto using sweep_only_drops.
Qed.

(** One statement either gives the key to a single token, or leaves it to tokens
    that already held it. *)
Lemma lease_step_cases (w w' : lease_world T) key :
  lease_step w w' ->
  (exists o, forall x, lease_verify key x (lw_table w') = true -> x = o)
  \/ (forall x, lease_verify key x (lw_table w') = true -> lease_verify key x (lw_table w) = true).
Proof.
  destruct 1 as [k o e now stamp t t' g Hfresh Hacq | k o e now stamp t t' g Hfresh Hacq
                | k o e stamp t t' b g Hr | k o t t' b g Hr | now t t' n g Hs]; simpl.
  - destruct (decide (key = k)) as [->|Hk].
    + left. exists o. intros x Hx. destruct (decide (x = o)) as [|Hne]; [done|].
      by rewrite (acquire_excludes _ _ _ _ _ _ _ x Hacq) in Hx.
    + right. intros x. by rewrite (acquire_frame _ _ _ _ _ _ _ _ key x Hacq).
  - right. by rewrite (acquire_refused _ _ _ _ _ _ _ Hacq).
  - right. intros x. by rewrite (renew_keeps _ _ _ _ _ _ _ key x Hr).
  - right. intros x Hx. destruct (decide ((key, x) = (k, o))) as [Heq|Hne].
    + injection Heq as -> ->. by rewrite (release_drops _ _ _ _ _ Hr) in Hx.
    + by rewrite <- (release_frame _ _ _ _ _ key x Hr Hne).
  - right. eauto using sweep_only_drops.
Qed.
End Fence.

(** *** A sample table, for the witnesses *)

Definition sample_leases : lease_table :=
  {["k" := {| l_owner := "a"; l_expires_at := 100; l_created_at := 0; l_updated_at := 0 |}]}.

Definition sample_lease_world (t : lease_table) : lease_world lease_table :=
  {| lw_table := t; lw_granted := {["a"]} |}.

(** The holder renews, a rival is refused. *)
Lemma sample_lease_run :
  rtc lease_step (sample_lease_world sample_leases)
    (sample_lease_world (sqlite_renew "k" "a" 200 50 sample_leases).1).
Proof.
  eapply rtc_l; [|apply rtc_once].
  - eapply (step_refused "k" "b" 150 60 60). { set_solver. } vm_compute. reflexivity.
  - eapply (step_renew "k" "a" 200 50). vm_compute. reflexivity.
Qed.

(** ** Properties *)

(** Checking a lease at commit is enough. A granted token that holds its
    key at the end of any run of the instances (acquisitions under fresh tokens,
    refusals, renewals, releases and sweeps, in any order) held it throughout
    the run, whatever the implementation of the repository, as long as it obeys
    the repository's laws: nothing hands a key back to a token that lost it. *)
Theorem lease_held_at_end_held_throughout {T : Type} `{LeaseLaws T}
    (w w1 w' : lease_world T) (key token : string)
    (H1 : rtc lease_step w w1) (H2 : rtc lease_step w1 w')
    (Hg : token ∈ lw_granted w) (Hh : holds_in key token w') :
  holds_in key token w1.
Proof.
  assert (Hg1 : token ∈ lw_granted w1).
  { clear H2 Hh. induction H1 as [|a b c Hab _ IH]; [done|].
    apply IH, (lease_step_granted_mono a b Hab), Hg. }
  clear H1 Hg. revert Hg1 Hh.
  induction H2 as [a|a b c Hab _ IH]; intros Hg1 Hh; [done|].
  apply (lease_step_no_return a b key token Hab Hg1), IH; [|done].
  by apply (lease_step_granted_mono a b Hab).
Qed.

Lemma lease_held_at_end_held_throughout_witness :
  holds_in "k" "a" (sample_lease_world sample_leases).
Proof.
  apply (lease_held_at_end_held_throughout (sample_lease_world sample_leases)
           (sample_lease_world sample_leases) _ "k" "a" (rtc_refl _ _) sample_lease_run).
  - apply (bool_decide_eq_true_1 _). vm_compute. reflexivity.
  - vm_compute. reflexivity.
Defined.

(** At most one token holds a key at a time. From any table in which that
    is so, it is so after every run of the instances, under any implementation
    that obeys the repository's laws. *)
Theorem lease_one_holder {T : Type} `{LeaseLaws T}
    (w w' : lease_world T) (key tok1 tok2 : string)
    (Hinit : forall k a b, lease_verify k a (lw_table w) = true ->
       lease_verify k b (lw_table w) = true -> a = b)
    (Hrun : rtc lease_step w w')
    (H1 : holds_in key tok1 w') (H2 : holds_in key tok2 w') :
  tok1 = tok2.
Proof.
  revert key tok1 tok2 H1 H2.
  induction Hrun as [a|a b c Hab _ IH]; intros key tok1 tok2; [apply Hinit|].
  apply IH. clear IH. intros k x y Hx Hy.
  destruct (lease_step_cases a b k Hab) as [[o Ho]|Hmono].
  - by rewrite (Ho x Hx), (Ho y Hy).
  - eauto.
Qed.

Lemma lease_one_holder_witness :
  let w' := sample_lease_world (sqlite_renew "k" "a" 200 50 sample_leases).1 in
  exists tok1 tok2, holds_in "k" tok1 w' /\ holds_in "k" tok2 w' /\ tok1 = tok2.
Proof.
  exists "a"%string, "a"%string. split_and!; [vm_compute; reflexivity..|].
  apply (lease_one_holder (sample_lease_world sample_leases) _ "k" "a" "a") with (2 := sample_lease_run).
  - unfold lease_verify. simpl. unfold sqlite_verify, holds, sample_leases. intros k a b.
    destruct (decide (k = "k"%string)) as [->|Hk].
    + rewrite lookup_singleton_eq. simpl. intros Ha Hb. bool_to_prop. congruence.
    + rewrite lookup_singleton_ne by done. done.
  - vm_compute. reflexivity.
  - vm_compute. reflexivity.
Defined.
