(* ===== verification/ClaimQueue.v ===== *)
(** * Fenced claims

    What the outbox and the three job queues promise a worker that claims a row:
    a claim is the pair of the row's id and its generation, it is held while the
    row is [sending] under that generation, and once lost it is never held
    again. The class is the interface; each table's repository is an instance,
    and its statements are shown to refine [fenced_step]. *)

From S2P Require Import Prelude.

(** What a claim reads of a row. *)
Class ClaimRow (R : Type) : Type := {
  cr_generation : R -> string;
  cr_sending : R -> bool;
}.

Section ClaimQueue.
Context {R : Type} `{ClaimRow R}.
Implicit Types (t : gmap string R) (used : gset string).

(** The claim [(id, g)] is held. *)
Definition claim_held (id g : string) (t : gmap string R) : bool :=
  match t !! id with
  | Some r => bool_decide (cr_generation r = g) && cr_sending r
  | None => false
  end.

(** One statement of the repository, seen from the claims: it may end claims,
    and it may start claims under generations nobody has used. *)
Inductive fenced_step : gmap string R * gset string -> gmap string R * gset string -> Prop :=
| fenced_intro t t' used used' :
    used ⊆ used' ->
    (forall id g, claim_held id g t' = true -> claim_held id g t = true \/ g ∉ used) ->
    fenced_step (t, used) (t', used').

Lemma fenced_run_used s s' : rtc fenced_step s s' -> s.2 ⊆ s'.2.
Proof. induction 1 as [|a b c Hab _ IH]; [done|]. destruct Hab; simpl in *. set_solver. Qed.

(** A claim whose generation is known and that is not held will not be held
    again. *)
Lemma claim_lost_forever s s' id g :
  rtc fenced_step s s' -> g ∈ s.2 -> claim_held id g s.1 = false -> claim_held id g s'.1 = false.
Proof.
  induction 1 as [|a b c Hab _ IH]; intros Hg Hlost; [done|].
  destruct Hab as [t t' used used' Hused Hstep]; simpl in *.
  apply IH; simpl; [set_solver|].
  destruct (claim_held id g t') eqn:Hh; [|done].
  destruct (Hstep id g Hh) as [Hold|Hfresh]; [congruence|done].
Qed.
End ClaimQueue.

(** A statement that rewrites the rows one by one, and gives no row a claim it
    did not have, is a fenced step. *)
Lemma fenced_rowwise {R} `{ClaimRow R} (t t' : gmap string R) (used : gset string) :
  (forall id r', t' !! id = Some r' -> cr_sending r' = true ->
     exists r, t !! id = Some r /\ cr_sending r = true /\ cr_generation r = cr_generation r') ->
  fenced_step (t, used) (t', used).
Proof.
  intros Hrow. constructor; [done|]. intros id g Hh. left. unfold claim_held in *.
  destruct (t' !! id) as [r'|] eqn:Hr'; [|done]. bool_to_prop.
  destruct (Hrow id r' Hr') as (r & -> & Hs & Hg); [done|].
  rewrite Hs, bool_decide_eq_true_2; [done|congruence].
Qed.

(** How a table may change without giving an old claim back: a row that is
    [sending] afterwards was [sending] before under the same generation, or
    carries a generation the statement drew. *)
Section ClaimsChange.
Context {R : Type} `{ClaimRow R}.
Implicit Types (t : gmap string R).

Definition claims_change (drawn : string -> Prop) (t t' : gmap string R) : Prop :=
  forall id r', t' !! id = Some r' -> cr_sending r' = true ->
    (exists r, t !! id = Some r /\ cr_sending r = true /\ cr_generation r = cr_generation r')
    \/ drawn (cr_generation r').

Lemma claims_change_refl drawn t : claims_change drawn t t.
Proof. intros id r' Hr Hs. left. eauto. Qed.

Lemma claims_change_insert drawn t id r' :
  (cr_sending r' = true ->
     (exists r, t !! id = Some r /\ cr_sending r = true /\ cr_generation r = cr_generation r')
     \/ drawn (cr_generation r')) ->
  claims_change drawn t (<[id := r']> t).
Proof.
  intros Hr' id2 r2. rewrite lookup_insert. case_decide as Hid.
  - intros [= <-] Hs. subst id2. auto.
  - apply claims_change_refl.
Qed.

Lemma claims_change_subseteq drawn t t' : t' ⊆ t -> claims_change drawn t t'.
Proof. intros Hsub id r' Hr Hs. left. exists r'. split_and!; [|done..]. by eapply lookup_weaken. Qed.

Lemma claims_change_fenced t t' (used used' : gset string) :
  used ⊆ used' -> claims_change (fun g => g ∉ used) t t' -> fenced_step (t, used) (t', used').
Proof.
  intros Hu Hc. constructor; [done|]. intros id g Hh. unfold claim_held in *.
  destruct (t' !! id) as [r'|] eqn:Hr'; [|done]. bool_to_prop. subst g.
  destruct (Hc id r' Hr') as [(r & -> & Hs & Hg)|Hd]; [done| |by right].
  left. rewrite Hs, bool_decide_eq_true_2; done.
Qed.
End ClaimsChange.
