(* ===== verification/Users.v ===== *)
(** * Accounts

    The [users] table of the SQLite adapter
    ([server/src/db/adapters/sqlite/index.ts]) with the operations the
    background workers and the access service rely on, and the released-address
    rule of [shared/src/constants.ts]. *)

From S2P Require Import Prelude Roles.
Open Scope Z_scope.

Inductive UserStatus : Type := UserActive | UserDisabled.

#[export] Instance UserStatus_eq_dec : EqDecision UserStatus.
Proof. solve_decision. Defined.

(** [UserRecord] with the [email_lifecycle_fence] column beside it. *)
Record UserRecord : Type := {
  u_id : string;
  u_email : string;
  u_password_hash : string;
  u_display_name : string;
  u_role : Role;
  u_org_id : option string;
  u_company : option string;
  u_phone : option string;
  u_status : UserStatus;
  u_email_verified : bool;
  u_last_login_at : option Z;
  u_created_at : Z;
  u_updated_at : Z;
  u_email_fence : string;
}.

#[export] Instance UserRecord_eq_dec : EqDecision UserRecord.
Proof. solve_decision. Defined.

(** [users], by its primary key [id]. *)
Abbreviation user_table := (gmap string UserRecord).

Definition RELEASED_EMAIL_DOMAIN : string := "released.nexus.invalid".

Definition isReleasedEmail (email : string) : bool :=
  endsWith ("@" +:+ RELEASED_EMAIL_DOMAIN) (toLowerCase (trim email)).

Definition users_findById (id : string) (t : user_table) : option UserRecord := t !! id.

(** [lower(email)] is unique, so at most one row matches. *)
Definition users_findByEmail (email : string) (t : user_table) : option UserRecord :=
  snd <$> head (filter (fun '(_, u) => toLowerCase (u_email u) = toLowerCase (trim email))
                  (map_to_list t)).

Definition set_email_fence (fence : string) (u : UserRecord) : UserRecord := {|
  u_id := u_id u; u_email := u_email u; u_password_hash := u_password_hash u;
  u_display_name := u_display_name u; u_role := u_role u; u_org_id := u_org_id u;
  u_company := u_company u; u_phone := u_phone u; u_status := u_status u;
  u_email_verified := u_email_verified u; u_last_login_at := u_last_login_at u;
  u_created_at := u_created_at u; u_updated_at := u_updated_at u; u_email_fence := fence;
|}.

(** A real write on the account row, refused for a released address and for an
    address the account no longer holds. *)
Definition lockEmailRecipient (id email fence : string) (t : user_table) : user_table * bool :=
  if isReleasedEmail email then (t, false)
  else match t !! id with
       | Some u => if decide (u_email u = toLowerCase (trim email))
                   then (<[id := set_email_fence fence u]> t, true)
                   else (t, false)
       | None => (t, false)
       end.

Lemma lockEmailRecipient_true id email fence t t' :
  lockEmailRecipient id email fence t = (t', true) ->
  isReleasedEmail email = false
  /\ exists u, t !! id = Some u /\ u_email u = toLowerCase (trim email)
               /\ t' = <[id := set_email_fence fence u]> t.
Proof.
  unfold lockEmailRecipient. intros H.
  destruct (isReleasedEmail email); [done|].
  destruct (t !! id) as [u|]; [|done]. case_decide; simplify_eq. eauto.
Qed.

(** Only the fence column changes. *)
Lemma lockEmailRecipient_frame id email fence t t' b id' :
  lockEmailRecipient id email fence t = (t', b) ->
  set_email_fence "" <$> t' !! id' = set_email_fence "" <$> t !! id'.
Proof.
  unfold lockEmailRecipient. intros H.
  destruct (isReleasedEmail email); [by simplify_eq|].
  destruct (t !! id) as [u|] eqn:Hu; [|by simplify_eq].
  case_decide; simplify_eq; [|done].
  rewrite lookup_insert. case_decide; [subst|done]. by rewrite Hu.
Qed.
