(* ===== verification/Sso.v ===== *)
(** * What an identity provider's claims do to an account

    [server/src/sso/mapping.ts] with the provider settings of
    [shared/src/sso.ts] and the rules of [server/src/sso/service.ts] that are
    functions of them: which role and organization a set of claims maps to, what
    a sign-in changes on the account, which accounts are never linked
    automatically, which addresses a provider may assert, and where a sign-in
    returns to. *)

From Stdlib Require Import Ascii.
From S2P Require Import Prelude Json Regexp Roles Users.

(** ** Provider settings *)

(** [SsoMappableRole]: the roles claims may confer. *)
Inductive SsoMappableRole : Type := Sso_client | Sso_provider | Sso_admin.

#[export] Instance SsoMappableRole_eq_dec : EqDecision SsoMappableRole.
Proof. solve_decision. Defined.

(** Every mappable role is a role. *)
Definition sso_role (r : SsoMappableRole) : Role :=
  match r with Sso_client => client | Sso_provider => provider | Sso_admin => admin end.

Record SsoRoleMapping : Type := {
  rm_claim : string;
  rm_value : string;
  rm_role : SsoMappableRole;
}.

Record SsoOrgMapping : Type := {
  om_claim : string;
  om_value : string;
  om_org_id : string;
}.

Record SsoProviderSettings : Type := {
  sp_id : string;
  sp_display_name : string;
  sp_issuer : string;
  sp_client_id : string;
  sp_scopes : list string;
  sp_enabled : bool;
  sp_jit_provisioning : bool;
  sp_link_existing_accounts : bool;
  sp_require_verified_email : bool;
  sp_allowed_email_domains : list string;
  sp_disable_local_password_for_linked : bool;
  sp_sync_roles : bool;
  sp_default_role : option SsoMappableRole;
  sp_role_mappings : list SsoRoleMapping;
  sp_org_mappings : list SsoOrgMapping;
}.

(** ** Claims *)

(** The claims an ID token carried: the members of a JSON object. *)
Definition Claims : Type := list (string * json).

(** [None] is [undefined]. *)
Fixpoint walk (current : option json) (segments : list string) : option json :=
  match segments with
  | [] => current
  | segment :: rest =>
      match current with
      | Some (JObj record) =>
          match json_own segment record with
          | Some v => walk (Some v) rest
          | None => None
          end
      | _ => None
      end
  end.

(** The text of one item of a claim; an object, an array or [null] has none. *)
Definition item_text (item : option json) : list string :=
  match item with
  | Some (JStr s) => [s]
  | Some (JNum n) => [pretty n]
  | Some (JBool b) => [if b then "true" else "false"]%string
  | _ => []
  end.

Definition claimValues (claims : Claims) (path : string) : list string :=
  let value := match json_own path claims with
               | Some v => Some v
               | None => walk (Some (JObj claims)) (split_on "."%char path)
               end in
  let flat := match value with
              | Some (JArr items) => map Some items
              | _ => [value]
              end in
  flat ≫= item_text.

Definition claim_matches (claims : Claims) (claim value : string) : bool :=
  bool_decide (value ∈ claimValues claims claim).

(** [matches] on a rule of each kind. *)
Definition role_rule_matches (claims : Claims) (m : SsoRoleMapping) : bool :=
  claim_matches claims (rm_claim m) (rm_value m).
Definition org_rule_matches (claims : Claims) (m : SsoOrgMapping) : bool :=
  claim_matches claims (om_claim m) (om_value m).

(** ** The mapping *)

Record ClaimMapping : Type := {
  cm_role : option SsoMappableRole;
  cm_roleMapping : option SsoRoleMapping;
  cm_orgId : option (option string);  (* [None] is [undefined], [Some None] is [null] *)
  cm_orgMapping : option SsoOrgMapping;
}.

Definition sso_rank (r : SsoMappableRole) : Z := roleRank (role_name (sso_role r)).

(** One round of the loop over [role_mappings]. *)
Definition consider_role (claims : Claims) (best : option SsoRoleMapping) (m : SsoRoleMapping)
    : option SsoRoleMapping :=
  if negb (role_rule_matches claims m) then best
  else match best with
       | None => Some m
       | Some b => if bool_decide (sso_rank (rm_role b) < sso_rank (rm_role m))%Z
                   then Some m else best
       end.

Definition best_role_mapping (claims : Claims) (rules : list SsoRoleMapping)
    : option SsoRoleMapping :=
  fold_left (consider_role claims) rules None.

Definition mapClaims (provider : SsoProviderSettings) (claims : Claims) : ClaimMapping :=
  let roleMapping := best_role_mapping claims (sp_role_mappings provider) in
  let role := match roleMapping with
              | Some m => Some (rm_role m)
              | None => sp_default_role provider
              end in
  match sp_org_mappings provider with
  | [] => {| cm_role := role; cm_roleMapping := roleMapping;
             cm_orgId := None; cm_orgMapping := None |}
  | rules =>
      let orgMapping := List.find (org_rule_matches claims) rules in
      {| cm_role := role; cm_roleMapping := roleMapping;
         cm_orgId := Some (om_org_id <$> orgMapping); cm_orgMapping := orgMapping |}
  end.

(** ** What a sign-in changes *)

(** The patch's members; [None] is a member that is absent. *)
Record ClaimsPatch : Type := {
  cp_role : option SsoMappableRole;
  cp_org_id : option (option string);
}.

Definition planClaimsChange (account : UserRecord) (mapping : ClaimMapping)
    (provider : SsoProviderSettings) (orgExists : bool) : option ClaimsPatch :=
  if decide (u_role account = super_admin) then None
  else
    let role := match cm_role mapping with
                | Some r => if sp_sync_roles provider && negb (bool_decide (sso_role r = u_role account))
                            then Some r else None
                | None => None
                end in
    let org := match cm_orgId mapping with
               | Some mapped =>
                   let target := if orgExists then mapped else None in
                   if decide (target = u_org_id account) then None else Some target
               | None => None
               end in
    match role, org with
    | None, None => None
    | _, _ => Some {| cp_role := role; cp_org_id := org |}
    end.

(** The row after [users.updateIfMatches] with the patch, at time [at_ms]; a
    sign-in that plans nothing writes nothing. *)
Definition apply_claims_patch (at_ms : Z) (patch : option ClaimsPatch) (u : UserRecord) : UserRecord :=
  match patch with
  | None => u
  | Some p => {|
      u_id := u_id u; u_email := u_email u; u_password_hash := u_password_hash u;
      u_display_name := u_display_name u;
      u_role := from_option sso_role (u_role u) (cp_role p);
      u_org_id := default (u_org_id u) (cp_org_id p);
      u_company := u_company u; u_phone := u_phone u; u_status := u_status u;
      u_email_verified := u_email_verified u; u_last_login_at := u_last_login_at u;
      u_created_at := u_created_at u; u_updated_at := at_ms;
      u_email_fence := u_email_fence u |}
  end.

Definition role_at_least (a b : Role) : bool := roleAtLeast (role_name a) (role_name b).

Definition privilegedAutoLink (account : UserRecord) (mapping : ClaimMapping)
    (provider : SsoProviderSettings) : bool :=
  if role_at_least (u_role account) admin then true
  else match planClaimsChange account mapping provider false ≫= cp_role with
       | Some mapped => role_at_least (sso_role mapped) admin
       | None => false
       end.

Definition grantsAdmin (provider : SsoProviderSettings) : bool :=
  if negb (sp_sync_roles provider) then false
  else
    let roles := sp_default_role provider :: map (Some ∘ rm_role) (sp_role_mappings provider) in
    existsb (fun role => match role with
                         | Some r => role_at_least (sso_role r) admin
                         | None => false
                         end) roles.

(** ** Addresses *)

Definition at_sign : Ascii.ascii := "@"%char.

(** [[^\s@]]. *)
Definition email_atom (c : Ascii.ascii) : bool := negb (is_space c || bool_decide (c = at_sign)).

(** [/^[^\s@]+@[^\s@]+\.[^\s@]+$/]. *)
Definition EMAIL_SHAPE : regexp :=
  RSeq (RPlus (RClass email_atom)) (RSeq (RChar at_sign)
    (RSeq (RPlus (RClass email_atom)) (RSeq (RChar "."%char) (RPlus (RClass email_atom))))).

Definition MAX_EMAIL_LENGTH : Z := 320.

Definition normalizeEmailClaim (value : option json) : option string :=
  match value with
  | Some (JStr s) =>
      let email := toLowerCase (trim s) in
      if decide (Z.of_nat (String.length email) = 0 \/
                 (MAX_EMAIL_LENGTH < Z.of_nat (String.length email)))%Z then None
      else if re_test EMAIL_SHAPE email then Some email else None
  | _ => None
  end.

Definition emailVerifiedClaim (value : option json) : bool :=
  match value with Some (JBool true) => true | _ => false end.

(** [s.indexOf(c)] and [s.lastIndexOf(c)]; [None] is [-1]. *)
Fixpoint indexOf (c : Ascii.ascii) (s : string) : option nat :=
  match s with
  | EmptyString => None
  | String a s' => if decide (a = c) then Some O else S <$> indexOf c s'
  end.

Fixpoint lastIndexOf (c : Ascii.ascii) (s : string) : option nat :=
  match s with
  | EmptyString => None
  | String a s' =>
      match lastIndexOf c s' with
      | Some i => Some (S i)
      | None => if decide (a = c) then Some O else None
      end
  end.

Definition emailDomainAllowed (email : string) (allowed : list string) : bool :=
  match allowed with
  | [] => true
  | _ => match lastIndexOf at_sign email with
         | None => false
         | Some i => bool_decide (slice_from (S i) email ∈ allowed)
         end
  end.

(** [s.slice(0, n)]. *)
Fixpoint slice_to (n : nat) (s : string) : string :=
  match n, s with
  | S n', String c s' => String c (slice_to n' s')
  | _, _ => EmptyString
  end.

Definition MAX_DISPLAY_NAME_LENGTH : nat := 200.

(** The first claim of the list that is a string and not blank. *)
Fixpoint first_name (claims : Claims) (keys : list string) : option string :=
  match keys with
  | [] => None
  | key :: rest =>
      match json_own key claims with
      | Some (JStr value) =>
          if decide (trim value = EmptyString) then first_name claims rest
          else Some (slice_to MAX_DISPLAY_NAME_LENGTH (trim value))
      | _ => first_name claims rest
      end
  end.

Definition displayNameFromClaims (claims : Claims) (email : string) : string :=
  match first_name claims ["name"; "preferred_username"]%string with
  | Some name => name
  | None =>
      slice_to MAX_DISPLAY_NAME_LENGTH
        match indexOf at_sign email with
        | Some (S i) => slice_to (S i) email
        | _ => email
        end
  end.

(** [OidcError] with its reason, a value of [SSO_ERROR_REASONS]. *)
Inductive domain_refusal : Type := email_required | email_not_verified | email_domain_not_allowed.

Definition checkDomains (email : option string) (emailVerified : bool) (domains : list string)
    : res domain_refusal unit :=
  match domains with
  | [] => Ok tt
  | _ =>
      match email with
      | None => Throw email_required
      | Some e =>
          if negb emailVerified then Throw email_not_verified
          else if negb (emailDomainAllowed e domains) then Throw email_domain_not_allowed
          else Ok tt
      end
  end.

(** ** Where a sign-in returns to *)

(** [/[\u0000-\u001f\u007f\\]/]. *)
Definition control_or_backslash (c : Ascii.ascii) : bool :=
  let n := Ascii.nat_of_ascii c in
  bool_decide (n < 32)%nat || bool_decide (n = 127)%nat || bool_decide (n = 92)%nat.

Definition query_or_fragment (c : Ascii.ascii) : bool :=
  bool_decide (c = "?"%char) || bool_decide (c = "#"%char).

(** The text before the first [?] or [#]. *)
Fixpoint path_of (s : string) : string :=
  match s with
  | EmptyString => EmptyString
  | String c s' => if query_or_fragment c then EmptyString else String c (path_of s')
  end.

(** [value === segment || value.startsWith(segment + '/')]. *)
Definition under_path (segment path : string) : bool :=
  bool_decide (path = segment) || startsWith (segment +:+ "/") path.

Definition safeReturnPath (value : option string) : string :=
  match value with
  | None => "/"
  | Some v =>
      if decide (v = EmptyString \/ 512 < String.length v)%nat then "/"
      else if negb (startsWith "/" v) || startsWith "//" v then "/"
      else if negb (string_all (fun c => negb (control_or_backslash c)) v) then "/"
      else if under_path "/api" (path_of v) then "/"
      else if under_path "/login" (path_of v) then "/"
      else v
  end.


(** ** The mapping's rules *)

Lemma consider_role_spec (claims : Claims) (rules : list SsoRoleMapping) :
  match best_role_mapping claims rules with
  | Some rule =>
      exists before after, rules = before ++ rule :: after /\
        role_rule_matches claims rule = true /\
        (forall r, r ∈ before -> role_rule_matches claims r = true ->
                   (sso_rank (rm_role r) < sso_rank (rm_role rule))%Z) /\
        (forall r, r ∈ after -> role_rule_matches claims r = true ->
                   (sso_rank (rm_role r) <= sso_rank (rm_role rule))%Z)
  | None => forall r, r ∈ rules -> role_rule_matches claims r = false
  end.
Proof.
  unfold best_role_mapping. induction rules as [|m rules IH] using rev_ind.
  { intros r Hr. by apply elem_of_nil in Hr. }
  rewrite fold_left_app. simpl. unfold consider_role at 1.
  destruct (fold_left (consider_role claims) rules None) as [best|].
  - destruct IH as (before & after & -> & Hbest & Hbefore & Hafter).
    destruct (role_rule_matches claims m) eqn:Hm; [simpl; case_bool_decide as Hlt|]; simpl.
    + exists (before ++ best :: after), []. split_and!; [done|done| |set_solver].
      intros r [Hr|[->|Hr]%elem_of_cons]%elem_of_app Hmr; [|done|];
        [specialize (Hbefore r Hr Hmr)|specialize (Hafter r Hr Hmr)]; lia.
    + exists before, (after ++ [m]). rewrite <- app_assoc. split_and!; [done|done|done|].
      intros r [Hr| ->%list_elem_of_singleton]%elem_of_app Hmr; [by apply Hafter|lia].
    + exists before, (after ++ [m]). rewrite <- app_assoc. split_and!; [done|done|done|].
      intros r [Hr| ->%list_elem_of_singleton]%elem_of_app Hmr; [by apply Hafter|congruence].
  - destruct (role_rule_matches claims m) eqn:Hm; simpl; [|set_solver].
    exists rules, []. split_and!; [done|done| |set_solver].
    intros r Hr Hmr. rewrite (IH r Hr) in Hmr. done.
Qed.

Lemma find_first {A} (p : A -> bool) (l : list A) :
  match List.find p l with
  | Some x => exists before after, l = before ++ x :: after /\ p x = true /\
                (forall y, y ∈ before -> p y = false)
  | None => forall y, y ∈ l -> p y = false
  end.
Proof.
  induction l as [|x l IH]; simpl; [intros y Hy; by apply elem_of_nil in Hy|].
  destruct (p x) eqn:Hx.
  - exists [], l. split_and!; [done|done|]. intros y Hy. by apply elem_of_nil in Hy.
  - destruct (List.find p l) as [z|].
    + destruct IH as (before & after & -> & Hz & Hbefore). exists (x :: before), after.
      split_and!; [done|done|]. intros y Hy. apply elem_of_cons in Hy as [->|Hy]; auto.
    + intros y Hy. apply elem_of_cons in Hy as [->|Hy]; auto.
Qed.

(** The role of a sign-in is that of the earliest of the highest-ranked rules
    its claims match, and the provider's default when they match none; the
    organization is that of the first matching rule, none when no rule matches,
    and not managed at all by a provider without organization rules. *)
Theorem mapped_role_is_highest (provider : SsoProviderSettings) (claims : Claims) :
  let mapping := mapClaims provider claims in
  match cm_roleMapping mapping with
  | Some rule =>
      cm_role mapping = Some (rm_role rule) /\
      exists before after, sp_role_mappings provider = before ++ rule :: after /\
        role_rule_matches claims rule = true /\
        (forall r, r ∈ before -> role_rule_matches claims r = true ->
                   (sso_rank (rm_role r) < sso_rank (rm_role rule))%Z) /\
        (forall r, r ∈ after -> role_rule_matches claims r = true ->
                   (sso_rank (rm_role r) <= sso_rank (rm_role rule))%Z)
  | None =>
      cm_role mapping = sp_default_role provider /\
      forall r, r ∈ sp_role_mappings provider -> role_rule_matches claims r = false
  end /\
  match cm_orgId mapping with
  | None => sp_org_mappings provider = []
  | Some None => forall r, r ∈ sp_org_mappings provider -> org_rule_matches claims r = false
  | Some (Some org) =>
      exists before rule after, sp_org_mappings provider = before ++ rule :: after /\
        om_org_id rule = org /\ org_rule_matches claims rule = true /\
        forall r, r ∈ before -> org_rule_matches claims r = false
  end.
Proof.
  pose proof (consider_role_spec claims (sp_role_mappings provider)) as Hrole.
  pose proof (find_first (org_rule_matches claims) (sp_org_mappings provider)) as Horg.
  intros mapping. unfold mapping, mapClaims. split.
  - destruct (sp_org_mappings provider); simpl;
      destruct (best_role_mapping claims (sp_role_mappings provider)); eauto.
  - destruct (sp_org_mappings provider) as [|rule rules]; [done|]. cbv [cm_orgId].
    destruct (List.find _ _) as [found|]; simpl in *; [|done].
    destruct Horg as (before & after & Heq & Hm & Hb). exists before, found, after. done.
Qed.

(** ** What a sign-in changes *)

Lemma sso_role_not_super (r : SsoMappableRole) : sso_role r <> super_admin.
Proof. by destruct r. Qed.

Lemma sso_role_inj (r1 r2 : SsoMappableRole) : sso_role r1 = sso_role r2 -> r1 = r2.
Proof. by destruct r1, r2. Qed.

(** The two members of the patch, each with the condition it is there. *)
Lemma plan_role_spec (account : UserRecord) (mapping : ClaimMapping)
    (provider : SsoProviderSettings) (orgExists : bool) :
  planClaimsChange account mapping provider orgExists ≫= cp_role =
  match cm_role mapping with
  | Some r => if bool_decide (u_role account <> super_admin) && sp_sync_roles provider &&
                 bool_decide (sso_role r <> u_role account) then Some r else None
  | None => None
  end.
Proof.
  unfold planClaimsChange. case_decide as Hs.
  { rewrite bool_decide_eq_false_2 by tauto. by destruct (cm_role mapping). }
  rewrite (bool_decide_eq_true_2 (_ <> super_admin)) by done.
  destruct (cm_role mapping) as [r|]; simpl; [rewrite bool_decide_not|];
    [destruct (sp_sync_roles provider && _)|];
    by repeat (case_match || case_decide); simplify_eq/=.
Qed.

Lemma plan_org_spec (account : UserRecord) (mapping : ClaimMapping)
    (provider : SsoProviderSettings) (orgExists : bool) :
  planClaimsChange account mapping provider orgExists ≫= cp_org_id =
  match cm_orgId mapping with
  | Some mapped =>
      let target := if orgExists then mapped else None in
      if bool_decide (u_role account <> super_admin) && bool_decide (target <> u_org_id account)
      then Some target else None
  | None => None
  end.
Proof.
  unfold planClaimsChange. destruct (cm_orgId mapping) as [o|];
    repeat (case_decide || case_match); simplify_eq/=; try done;
    repeat case_bool_decide; simplify_eq/=; done.
Qed.

(** A plan without members is no plan. *)
Lemma plan_none (account : UserRecord) (mapping : ClaimMapping)
    (provider : SsoProviderSettings) (orgExists : bool) :
  let plan := planClaimsChange account mapping provider orgExists in
  plan = None <-> plan ≫= cp_role = None /\ plan ≫= cp_org_id = None.
Proof.
  intros plan. split; [by intros ->|]. subst plan. unfold planClaimsChange.
  case_decide; [done|]. intros [Hr Ho]. by repeat case_match; simplify_eq/=.
Qed.

Lemma patched_role (at_ms : Z) (plan : option ClaimsPatch) (u : UserRecord) :
  u_role (apply_claims_patch at_ms plan u) = from_option sso_role (u_role u) (plan ≫= cp_role).
Proof. by destruct plan. Qed.

Lemma patched_org (at_ms : Z) (plan : option ClaimsPatch) (u : UserRecord) :
  u_org_id (apply_claims_patch at_ms plan u) = default (u_org_id u) (plan ≫= cp_org_id).
Proof. by destruct plan. Qed.

Lemma claims_role_after (account : UserRecord) (mapping : ClaimMapping)
    (provider : SsoProviderSettings) (orgExists : bool) (at_ms : Z) :
  u_role (apply_claims_patch at_ms (planClaimsChange account mapping provider orgExists) account) =
  match cm_role mapping with
  | Some r => if bool_decide (u_role account <> super_admin) && sp_sync_roles provider
              then sso_role r else u_role account
  | None => u_role account
  end.
Proof.
  rewrite patched_role, plan_role_spec. destruct (cm_role mapping) as [r|]; [|done].
  destruct (_ && sp_sync_roles provider); simpl; [|done].
  case_bool_decide as Hd; by simpl.
Qed.

Lemma claims_org_after (account : UserRecord) (mapping : ClaimMapping)
    (provider : SsoProviderSettings) (orgExists : bool) (at_ms : Z) :
  u_org_id (apply_claims_patch at_ms (planClaimsChange account mapping provider orgExists) account) =
  match cm_orgId mapping with
  | Some mapped => if bool_decide (u_role account <> super_admin)
                   then if orgExists then mapped else None else u_org_id account
  | None => u_org_id account
  end.
Proof.
  rewrite patched_org, plan_org_spec. destruct (cm_orgId mapping) as [o|]; [|done]. simpl.
  case_bool_decide; simpl; [|done].
  case_bool_decide as Hd; by simpl.
Qed.

(** One sign-in settles the account: what it planned, once applied, leaves
    nothing for the same claims to change, an account is written only when its
    role or organization really changes, and a super administrator is neither
    changed nor made; the role becomes the mapped one exactly when the provider
    syncs roles, and the organization the mapped one while it exists, else none. *)
Theorem claims_change_settles (account : UserRecord) (mapping : ClaimMapping)
    (provider : SsoProviderSettings) (orgExists : bool) (at_ms : Z) :
  let plan := planClaimsChange account mapping provider orgExists in
  let after := apply_claims_patch at_ms plan account in
  planClaimsChange after mapping provider orgExists = None /\
  (plan <> None <-> u_role after <> u_role account \/ u_org_id after <> u_org_id account) /\
  (u_role after = super_admin <-> u_role account = super_admin) /\
  u_role after =
    match cm_role mapping with
    | Some r => if bool_decide (u_role account <> super_admin) && sp_sync_roles provider
                then sso_role r else u_role account
    | None => u_role account
    end /\
  u_org_id after =
    match cm_orgId mapping with
    | Some mapped => if bool_decide (u_role account <> super_admin)
                     then if orgExists then mapped else None else u_org_id account
    | None => u_org_id account
    end.
Proof.
  intros plan after.
  pose proof (claims_role_after account mapping provider orgExists at_ms) as Hr.
  pose proof (claims_org_after account mapping provider orgExists at_ms) as Ho.
  fold plan after in Hr, Ho.
  assert (Hsuper : u_role after = super_admin <-> u_role account = super_admin).
  { rewrite Hr. destruct (cm_role mapping) as [r|]; [|done].
    case_bool_decide as Hd; simpl; [|done]. destruct (sp_sync_roles provider); [|done].
    split; [by intros ?%sso_role_not_super|done]. }
  split_and!; [| |exact Hsuper|exact Hr|exact Ho].
  - apply plan_none. rewrite plan_role_spec, plan_org_spec.
    rewrite (bool_decide_ext _ (u_role account <> super_admin)) by (by rewrite Hsuper).
    rewrite Hr, Ho. split.
    + destruct (cm_role mapping); [|done].
      destruct (_ && sp_sync_roles provider); [|done]. by rewrite bool_decide_eq_false_2 by auto.
    + destruct (cm_orgId mapping); [|done]. simpl.
      case_bool_decide; [|done]. by rewrite bool_decide_eq_false_2 by auto.
  - unfold plan at 1. rewrite plan_none, plan_role_spec, plan_org_spec, Hr, Ho.
    destruct (cm_role mapping), (cm_orgId mapping); repeat case_bool_decide;
      destruct (sp_sync_roles provider); simpl; repeat case_bool_decide; naive_solver.
Qed.

(** ** Administrators *)

(** A rule that fires, or the default, is what [grantsAdmin] looks at. *)
Lemma mapped_role_source (provider : SsoProviderSettings) (claims : Claims) (r : SsoMappableRole) :
  cm_role (mapClaims provider claims) = Some r ->
  sp_default_role provider = Some r \/
  exists rule, rule ∈ sp_role_mappings provider /\ rm_role rule = r.
Proof.
  pose proof (consider_role_spec claims (sp_role_mappings provider)) as Hspec.
  assert (cm_role (mapClaims provider claims) =
    match best_role_mapping claims (sp_role_mappings provider) with
    | Some m => Some (rm_role m) | None => sp_default_role provider end) as ->.
  { unfold mapClaims. by destruct (sp_org_mappings provider). }
  destruct (best_role_mapping _ _) as [rule|]; [|by left].
  destruct Hspec as (before & after & -> & _). intros [= <-]. right. exists rule.
  split; [set_solver|done].
Qed.

Lemma grantsAdmin_of_role (provider : SsoProviderSettings) (r : SsoMappableRole) :
  sp_sync_roles provider = true ->
  sp_default_role provider = Some r \/
    (exists rule, rule ∈ sp_role_mappings provider /\ rm_role rule = r) ->
  role_at_least (sso_role r) admin = true ->
  grantsAdmin provider = true.
Proof.
  intros Hsync Hsource Hr. unfold grantsAdmin. rewrite Hsync. cbv [negb].
  apply existsb_exists. exists (Some r). split; [|done].
  destruct Hsource as [->|(rule & Hin & <-)]; [by left|right].
  apply in_map_iff. exists rule. split; [done|]. by apply list_elem_of_In.
Qed.

(** Claims make an administrator only of an account that is one already, or
    through a provider the deployment trusts to grant the role, on a sign-in that
    the automatic-link check refuses; that check reads the account before the
    organization is looked up, and its answer holds whatever the lookup finds. *)
Theorem claims_reach_admin_guarded (account : UserRecord) (provider : SsoProviderSettings)
    (claims : Claims) (orgExists : bool) (at_ms : Z) :
  let mapping := mapClaims provider claims in
  let after := apply_claims_patch at_ms (planClaimsChange account mapping provider orgExists) account in
  role_at_least (u_role after) admin = true ->
  privilegedAutoLink account mapping provider = true /\
  (role_at_least (u_role account) admin = true \/ grantsAdmin provider = true).
Proof.
  intros mapping after. unfold after. rewrite patched_role, plan_role_spec.
  unfold privilegedAutoLink. rewrite plan_role_spec.
  destruct (role_at_least (u_role account) admin) eqn:Hadmin; [by auto|].
  destruct (cm_role mapping) as [r|] eqn:Hr; simpl; [|congruence].
  destruct (sp_sync_roles provider) eqn:Hsync; rewrite ?andb_false_r; simpl; [|congruence].
  destruct (_ && _); simpl; [|congruence]. intros Hra. split; [done|right].
  by eapply grantsAdmin_of_role, Hra; [|apply (mapped_role_source provider claims)].
Qed.

Definition corp : SsoProviderSettings := {|
  sp_id := "corp"; sp_display_name := "Corporate SSO"; sp_issuer := "https://idp.example.com";
  sp_client_id := "nexus"; sp_scopes := ["openid"; "email"]; sp_enabled := true;
  sp_jit_provisioning := true; sp_link_existing_accounts := true;
  sp_require_verified_email := true; sp_allowed_email_domains := ["example.com"];
  sp_disable_local_password_for_linked := false; sp_sync_roles := true;
  sp_default_role := Some Sso_client;
  sp_role_mappings := [
    {| rm_claim := "groups"; rm_value := "api-publishers"; rm_role := Sso_provider |};
    {| rm_claim := "realm_access.roles"; rm_value := "portal-admins"; rm_role := Sso_admin |}];
  sp_org_mappings := [] |}%string.

Definition developer : UserRecord := {|
  u_id := "u1"; u_email := "dev@example.com"; u_password_hash := "scrypt"; u_display_name := "Dev";
  u_role := client; u_org_id := None; u_company := None; u_phone := None; u_status := UserActive;
  u_email_verified := true; u_last_login_at := None; u_created_at := 0; u_updated_at := 0;
  u_email_fence := "f0" |}%string.

Definition admin_claims : Claims :=
  [("groups", JArr [JStr "api-publishers"; JNum 7]);
   ("realm_access", JObj [("roles", JArr [JStr "portal-admins"])])]%string.

Theorem claims_reach_admin_guarded_witness :
  privilegedAutoLink developer (mapClaims corp admin_claims) corp = true /\
  (role_at_least (u_role developer) admin = true \/ grantsAdmin corp = true).
Proof. apply (claims_reach_admin_guarded developer corp admin_claims false 5). vm_compute. reflexivity. Defined.

(** ** Addresses *)

(** The words of [EMAIL_SHAPE]: one [@] between parts without spaces, and a dot
    inside the second part. *)
Lemma email_shape_spec (s : string) :
  re_test EMAIL_SHAPE s = true <->
  exists local host tld, s = local +:+ String at_sign (host +:+ String "."%char tld) /\
    Forall (fun part => part <> EmptyString /\ string_all email_atom part = true) [local; host; tld].
Proof.
  rewrite re_test_spec. unfold EMAIL_SHAPE. split.
  - intros (local & r1 & -> & Hl%in_plus_class & (at_ & r2 & -> & ->%in_char &
      (host & r3 & -> & Hh%in_plus_class & (dot & tld & -> & ->%in_char &
       Ht%in_plus_class)%in_seq_inv)%in_seq_inv)%in_seq_inv)%in_seq_inv.
    exists local, host, tld. split; [done|]. rewrite !Forall_cons. naive_solver.
  - intros (local & host & tld & -> & Hall). rewrite !Forall_cons in Hall.
    destruct Hall as (Hl & Hh & Ht & _).
    apply in_seq; [by apply in_plus_class|].
    apply (in_seq _ _ (String at_sign EmptyString)); [by apply in_char|].
    apply in_seq; [by apply in_plus_class|].
    apply (in_seq _ _ (String "."%char EmptyString)); [by apply in_char|by apply in_plus_class].
Qed.

Definition no_at (s : string) : bool := string_all (fun c => negb (bool_decide (c = at_sign))) s.

Lemma email_atom_no_at (s : string) : string_all email_atom s = true -> no_at s = true.
Proof.
  unfold no_at. induction s as [|c s IH]; simpl; [done|]. intros H. bool_to_prop.
  unfold email_atom in H. bool_to_prop. rewrite IH by done.
  by rewrite bool_decide_eq_false_2 by done.
Qed.

(** A text splits in one way at its only [@]. *)
Lemma at_split_unique (l1 d1 l2 d2 : string) :
  no_at l1 = true -> no_at d1 = true ->
  l1 +:+ String at_sign d1 = l2 +:+ String at_sign d2 -> l1 = l2 /\ d1 = d2.
Proof.
  unfold no_at. revert l2. induction l1 as [|c l1 IH]; intros [|c2 l2] Hl Hd Heq;
    rewrite ?string_app_cons, ?string_app_nil_l in Heq; simplify_eq/=; try done;
    rewrite ?string_all_app in *; simpl in *; bool_to_prop; try done.
  by destruct (IH l2) as [-> ->].
Qed.

Lemma lastIndexOf_none (s : string) : no_at s = true -> lastIndexOf at_sign s = None.
Proof.
  unfold no_at. induction s as [|c s IH]; simpl; [done|]. intros H. bool_to_prop.
  rewrite IH by done. by rewrite decide_False.
Qed.

Lemma domain_of_split (local domain : string) :
  no_at domain = true ->
  lastIndexOf at_sign (local +:+ String at_sign domain) = Some (String.length local) /\
  slice_from (S (String.length local)) (local +:+ String at_sign domain) = domain.
Proof.
  intros Hd. induction local as [|c local [IH1 IH2]]; rewrite ?string_app_cons, ?string_app_nil_l.
  - simpl. by rewrite lastIndexOf_none.
  - simpl in *. by rewrite IH1.
Qed.

Lemma string_all_rev (p : Ascii.ascii -> bool) (s : string) :
  string_all p (String.rev s) = string_all p s.
Proof.
  unfold String.rev.
  assert (H : forall acc, string_all p (String.rev_app s acc) = string_all p s && string_all p acc).
  { induction s as [|c s IH]; intros acc; simpl; [done|]. rewrite IH. simpl.
    by rewrite andb_assoc, (andb_comm (p c)). }
  rewrite H. simpl. by rewrite andb_true_r.
Qed.

Lemma rev_app_involutive (s1 s2 s3 : string) :
  String.rev_app (String.rev_app s1 s2) s3 = String.rev_app s2 (s1 +:+ s3).
Proof. revert s2. induction s1 as [|c s1 IH]; intros s2; [done|]. simpl. by rewrite IH. Qed.

Lemma trim_start_no_space (s : string) :
  string_all (fun c => negb (is_space c)) s = true -> trim_start s = s.
Proof. destruct s as [|c s]; simpl; [done|]. intros H. bool_to_prop. by case_match. Qed.

Lemma trim_no_space (s : string) :
  string_all (fun c => negb (is_space c)) s = true -> trim s = s.
Proof.
  intros H. unfold trim, string_rev. rewrite (trim_start_no_space s) by done.
  rewrite trim_start_no_space by (by rewrite string_all_rev).
  unfold String.rev. rewrite rev_app_involutive. simpl. apply string_app_nil_r.
Qed.

Lemma ascii_lower_idemp (c : Ascii.ascii) : ascii_lower (ascii_lower c) = ascii_lower c.
Proof. destruct c as [[] [] [] [] [] [] [] []]; vm_compute; reflexivity. Qed.

Lemma toLowerCase_idemp (s : string) : toLowerCase (toLowerCase s) = toLowerCase s.
Proof. induction s as [|c s IH]; simpl; [done|]. by rewrite ascii_lower_idemp, IH. Qed.

Lemma string_all_impl (p q : Ascii.ascii -> bool) (s : string) :
  (forall c, p c = true -> q c = true) -> string_all p s = true -> string_all q s = true.
Proof.
  intros Hpq. induction s as [|c s IH]; simpl; [done|]. intros H. bool_to_prop.
  by rewrite Hpq, IH.
Qed.

Lemma email_no_space (s : string) :
  re_test EMAIL_SHAPE s = true -> string_all (fun c => negb (is_space c)) s = true.
Proof.
  intros (local & host & tld & -> & Hall)%email_shape_spec. rewrite !Forall_cons in Hall.
  assert (Hatom : forall part, string_all email_atom part = true ->
                  string_all (fun c => negb (is_space c)) part = true).
  { intros part. apply string_all_impl. unfold email_atom. intros c H. bool_to_prop. by rewrite H. }
  destruct Hall as ((_ & Hl) & (_ & Hh) & (_ & Ht) & _).
  rewrite string_all_app. simpl. rewrite string_all_app. simpl. by rewrite !Hatom.
Qed.

Lemma normalizeEmailClaim_inv (value : option json) (e : string) :
  normalizeEmailClaim value = Some e ->
  re_test EMAIL_SHAPE e = true /\ toLowerCase e = e /\
  (0 < Z.of_nat (String.length e) <= MAX_EMAIL_LENGTH)%Z.
Proof.
  unfold normalizeEmailClaim. destruct value as [[| | |s| |]|]; try done.
  case_decide as Hlen; [done|]. case_match eqn:Hre; [|done]. intros [= <-].
  split_and!; [done|apply toLowerCase_idemp|lia|lia].
Qed.

(** An address a provider asserts is accepted in one form only: reading it
    again changes nothing, it splits in one way into a mailbox and a domain, and
    the domain rules, deployment's or provider's, admit it exactly when there is
    no list, or when the provider verified it and that domain is on the list; an
    address can therefore not smuggle an allowed domain into its mailbox. *)
Theorem asserted_address_domain (value : option json) (e : string) :
  normalizeEmailClaim value = Some e ->
  normalizeEmailClaim (Some (JStr e)) = Some e /\
  (Z.of_nat (String.length e) <= MAX_EMAIL_LENGTH)%Z /\
  exists mailbox domain, e = mailbox +:+ String at_sign domain /\
    (forall m d, e = m +:+ String at_sign d -> m = mailbox /\ d = domain) /\
    (forall verified allowed,
       checkDomains (Some e) verified allowed = Ok tt <->
       allowed = [] \/ (verified = true /\ domain ∈ allowed)).
Proof.
  intros (Hre & Hlow & Hlen)%normalizeEmailClaim_inv. split_and!; [|lia|].
  { unfold normalizeEmailClaim. rewrite trim_no_space by (by apply email_no_space).
    rewrite Hlow, Hre. by rewrite decide_False by lia. }
  apply email_shape_spec in Hre as (local & host & tld & -> & Hall).
  rewrite !Forall_cons in Hall. destruct Hall as ((_ & Hl) & (_ & Hh) & (_ & Ht) & _).
  assert (Hd : no_at (host +:+ String "."%char tld) = true).
  { apply email_atom_no_at in Hh, Ht. unfold no_at in *. rewrite string_all_app. simpl.
    by rewrite Hh, Ht. }
  exists local, (host +:+ String "."%char tld). split_and!; [done| |].
  - intros m d Heq. by destruct (at_split_unique _ _ _ _ (email_atom_no_at _ Hl) Hd Heq).
  - intros verified allowed. destruct (domain_of_split local _ Hd) as [Hi Hs].
    unfold checkDomains, emailDomainAllowed. rewrite Hi, Hs.
    destruct allowed as [|a allowed]; [naive_solver|].
    destruct verified; simpl; [|naive_solver]. case_bool_decide; naive_solver.
Qed.

Theorem asserted_address_domain_witness :
  let e := "dev@corp.example.com"%string in
  normalizeEmailClaim (Some (JStr e)) = Some e /\
  (Z.of_nat (String.length e) <= MAX_EMAIL_LENGTH)%Z /\
  exists mailbox domain, e = mailbox +:+ String at_sign domain /\
    (forall m d, e = m +:+ String at_sign d -> m = mailbox /\ d = domain) /\
    (forall verified allowed,
       checkDomains (Some e) verified allowed = Ok tt <->
       allowed = [] \/ (verified = true /\ domain ∈ allowed)).
Proof.
  apply (asserted_address_domain (Some (JStr "  Dev@Corp.example.com "))). vm_compute. reflexivity.
Defined.

(** ** Return paths *)

(** A path of this origin, by the rules [safeReturnPath] applies: it starts with
    one slash, has no backslash or control character, and as written is neither
    an API route nor the sign-in page. *)
Definition same_origin_path (path : string) : bool :=
  startsWith "/" path && negb (startsWith "//" path) &&
  string_all (fun c => negb (control_or_backslash c)) path &&
  negb (under_path "/api" (path_of path)) && negb (under_path "/login" (path_of path)) &&
  bool_decide (String.length path <= 512)%nat.

Lemma safeReturnPath_fixed (path : string) :
  same_origin_path path = true -> safeReturnPath (Some path) = path.
Proof.
  unfold same_origin_path, safeReturnPath. intros H. bool_to_prop.
  rewrite decide_False; [by rewrite_bools|].
  intros [->|?]; [done|lia].
Qed.

Lemma safeReturnPath_same_origin (value : option string) :
  same_origin_path (safeReturnPath value) = true.
Proof.
  unfold safeReturnPath. destruct value as [v|]; [|done].
  case_decide as Hlen; [done|].
  destruct (negb (startsWith "/" v) || startsWith "//" v) eqn:H1; [done|].
  destruct (negb (string_all _ v)) eqn:H2; [done|].
  destruct (under_path "/api" (path_of v)) eqn:H3; [done|].
  destruct (under_path "/login" (path_of v)) eqn:H4; [done|].
  bool_to_prop. unfold same_origin_path. rewrite_bools. by rewrite bool_decide_eq_true_2 by lia.
Qed.

(** A sign-in returns to a path of this origin, whatever the query asked for,
    and the check made when the attempt starts and again when it is read back
    from the cookie changes nothing the second time. *)
Theorem return_path_same_origin (value : option string) :
  same_origin_path (safeReturnPath value) = true /\
  safeReturnPath (Some (safeReturnPath value)) = safeReturnPath value /\
  (safeReturnPath value = "/"%string \/ value = Some (safeReturnPath value)).
Proof.
  pose proof (safeReturnPath_same_origin value) as H.
  split_and!; [done|by apply safeReturnPath_fixed|].
  unfold safeReturnPath. destruct value as [v|]; [|by left].
  repeat (case_decide || case_match); auto.
Qed.

(** The check reads the path as written: a dot segment hides an API route that
    the browser will resolve. *)
Lemma return_path_hides_api_route :
  safeReturnPath (Some "/./api/auth/me"%string) = "/./api/auth/me"%string.
Proof. vm_compute. reflexivity. Qed.

(** ** Display names *)

Lemma slice_to_length (n : nat) (s : string) : (String.length (slice_to n s) <= n)%nat.
Proof. revert s. induction n as [|n IH]; intros [|c s]; simpl; try lia. specialize (IH s). lia. Qed.

Lemma slice_to_nonempty (n : nat) (s : string) :
  (0 < n)%nat -> s <> EmptyString -> slice_to n s <> EmptyString.
Proof. destruct n, s; simpl; try done; lia. Qed.

Lemma first_name_some (claims : Claims) (keys : list string) (name : string) :
  first_name claims keys = Some name ->
  exists v, name = slice_to MAX_DISPLAY_NAME_LENGTH v /\ v <> EmptyString.
Proof.
  induction keys as [|key keys IH]; cbn [first_name]; [done|].
  destruct (json_own key claims) as [[| | |v| |]|]; try done.
  case_decide as Hv; [done|]. intros [= <-]. eauto.
Qed.

(** A provisioned account always has a name, no longer than the portal stores. *)
Lemma displayName_bounds (claims : Claims) (email : string) :
  email <> EmptyString ->
  displayNameFromClaims claims email <> EmptyString /\
  (String.length (displayNameFromClaims claims email) <= MAX_DISPLAY_NAME_LENGTH)%nat.
Proof.
  intros He. unfold displayNameFromClaims.
  destruct (first_name claims _) as [name|] eqn:Hname.
  - apply first_name_some in Hname as (v & -> & Hv).
    split; [by apply slice_to_nonempty; [apply Nat.lt_0_succ|]|apply slice_to_length].
  - split; [|apply slice_to_length]. apply slice_to_nonempty; [apply Nat.lt_0_succ|].
    destruct (indexOf at_sign email) as [[|i]|]; try done. by destruct email.
Qed.
