(* ===== verification/EgressPolicy.v ===== *)
(** * The gateway's egress policy

    [server/src/ferrum-admin/egress-policy.ts]: the closed reading of the policy a
    gateway reports and of what its data planes attested, the record of when this
    process saw each data plane, and what of it admits a write; with
    [readEgressPolicy] and [assertBackendEgress] of [ferrum-admin/client.ts]. Times
    are integers of milliseconds. *)

From Stdlib Require Import Ascii.
From S2P Require Import Prelude Json.
Open Scope Z_scope.

(** ** The policy *)

Inductive EgressMode : Type := ModeBoth | ModePublic | ModePrivate.
Inductive IpClass : Type := PublicClass | PrivateReserved.
Inductive EnforcementScope : Type :=
  LocalDataPlane | UnservedNamespace | AdmissionOnly | NoDataPlane.

#[export] Instance EgressMode_eq_dec : EqDecision EgressMode.
Proof. solve_decision. Defined.
#[export] Instance IpClass_eq_dec : EqDecision IpClass.
Proof. solve_decision. Defined.
#[export] Instance EnforcementScope_eq_dec : EqDecision EnforcementScope.
Proof. solve_decision. Defined.

Definition mode_name (m : EgressMode) : string :=
  match m with ModeBoth => "both" | ModePublic => "public" | ModePrivate => "private" end.
Definition class_name (c : IpClass) : string :=
  match c with PublicClass => "public" | PrivateReserved => "private-reserved" end.
Definition scope_name (s : EnforcementScope) : string :=
  match s with
  | LocalDataPlane => "local-data-plane"
  | UnservedNamespace => "unserved-namespace"
  | AdmissionOnly => "admission-only"
  | NoDataPlane => "no-data-plane"
  end.

Record DataPlaneEgressPolicy : Type := {
  dp_mode : EgressMode;
  dp_mode_allowed_ip_classes : list IpClass;
  dp_mode_blocked_ip_classes : list IpClass;
  dp_dangerous_ranges_blocked : bool;
  dp_allow_cidr_overrides_present : bool;
  dp_deny_cidr_overrides_present : bool;
  dp_public_only_guaranteed : bool;
}.

#[export] Instance DataPlaneEgressPolicy_eq_dec : EqDecision DataPlaneEgressPolicy.
Proof. solve_decision. Defined.

(** The entry's [attestation] is [reported] when it has a policy, [unknown] when
    it has none. *)
Record DataPlaneEgressEntry : Type := {
  de_node_id : string;
  de_connected_at : string;
  de_policy : option DataPlaneEgressPolicy;
}.

Record DataPlaneEgressAttestation : Type := {
  connected_data_planes : Z;
  reporting_data_planes : Z;
  unknown_data_planes : Z;
  weakest_policy : option DataPlaneEgressPolicy;
  weakest_policy_complete : bool;
  all_connected_public_only_guaranteed : bool;
  data_planes : list DataPlaneEgressEntry;
}.

Record BackendEgressPolicy : Type := {
  be_namespace : string;
  be_enforcement_scope : EnforcementScope;
  be_mode : EgressMode;
  be_mode_allowed_ip_classes : list IpClass;
  be_mode_blocked_ip_classes : list IpClass;
  be_dangerous_ranges_blocked : bool;
  be_allow_cidr_overrides_present : bool;
  be_deny_cidr_overrides_present : bool;
  be_public_only_guaranteed : bool;
  be_data_plane_attestation : option DataPlaneEgressAttestation;
}.

Definition KEYS : list string :=
  ["schema_version"; "ip_classification"; "namespace"; "policy_scope"; "enforcement_scope"; "mode";
   "mode_allowed_ip_classes"; "mode_blocked_ip_classes"; "dangerous_ranges_blocked";
   "allow_cidr_overrides_present"; "deny_cidr_overrides_present"; "evaluation_order";
   "public_only_guaranteed"]%string.
Definition EVALUATION_ORDER : list string :=
  ["allow-cidrs"; "deny-cidrs"; "dangerous-ranges"; "ip-mode"]%string.
Definition DATA_PLANE_ATTESTATION_KEY : string := "data_plane_attestation".
Definition ATTESTATION_KEYS : list string :=
  ["source"; "connected_data_planes"; "reporting_data_planes"; "unknown_data_planes";
   "weakest_policy"; "weakest_policy_complete"; "all_connected_public_only_guaranteed";
   "data_planes"]%string.
Definition DATA_PLANE_ENTRY_KEYS : list string :=
  ["node_id"; "connected_at"; "attestation"; "policy"]%string.
Definition DATA_PLANE_POLICY_KEYS : list string :=
  ["mode"; "mode_allowed_ip_classes"; "mode_blocked_ip_classes"; "dangerous_ranges_blocked";
   "allow_cidr_overrides_present"; "deny_cidr_overrides_present"; "public_only_guaranteed"]%string.

(** ** Dates *)

(** The groups of [RFC3339_DATE_TIME]: the fraction without its point, and the
    offset with its sign, absent for [Z]. *)
Record date_time : Type := {
  dt_year : Z; dt_month : Z; dt_day : Z; dt_hour : Z; dt_minute : Z; dt_second : Z;
  dt_fraction : option string;
  dt_offset : option (bool * Z * Z);
}.

Definition digit_value (c : ascii) : option Z :=
  let n := nat_of_ascii c in
  if decide (48 <= n <= 57)%nat then Some (Z.of_nat n - 48) else None.

(** [\d{n}] and the number it writes. *)
Fixpoint take_number (n : nat) (acc : Z) (s : string) : option (Z * string) :=
  match n with
  | O => Some (acc, s)
  | S n => match s with
           | String c s => d ← digit_value c; take_number n (10 * acc + d) s
           | EmptyString => None
           end
  end.

Definition take_char (accepted : list ascii) (s : string) : option (ascii * string) :=
  match s with
  | String c s => if decide (c ∈ accepted) then Some (c, s) else None
  | EmptyString => None
  end.

(** [\d*]. *)
Fixpoint take_all_digits (s : string) : string * string :=
  match s with
  | String c s' => match digit_value c with
                   | Some _ => let '(digits, rest) := take_all_digits s' in (String c digits, rest)
                   | None => (EmptyString, s)
                   end
  | EmptyString => (EmptyString, EmptyString)
  end.

(** [(\.\d+)?]. *)
Definition take_fraction (s : string) : option string * string :=
  match take_char ["."%char] s with
  | Some (_, rest) => match take_all_digits rest with
                      | (EmptyString, _) => (None, s)
                      | (digits, rest) => (Some digits, rest)
                      end
  | None => (None, s)
  end.

(** [(?:[Zz]|([+-])(\d{2}):(\d{2}))$]. *)
Definition take_offset (s : string) : option (option (bool * Z * Z)) :=
  match take_char ["Z"%char; "z"%char] s with
  | Some (_, EmptyString) => Some None
  | Some _ => None
  | None =>
      '(sign, s) ← take_char ["+"%char; "-"%char] s;
      '(hours, s) ← take_number 2 0 s;
      '(_, s) ← take_char [":"%char] s;
      '(minutes, s) ← take_number 2 0 s;
      match s with
      | EmptyString => Some (Some (bool_decide (sign = "-"%char), hours, minutes))
      | _ => None
      end
  end.

(** [RFC3339_DATE_TIME.exec]. *)
Definition date_time_exec (s : string) : option date_time :=
  '(year, s) ← take_number 4 0 s;
  '(_, s) ← take_char ["-"%char] s;
  '(month, s) ← take_number 2 0 s;
  '(_, s) ← take_char ["-"%char] s;
  '(day, s) ← take_number 2 0 s;
  '(_, s) ← take_char ["T"%char; "t"%char] s;
  '(hour, s) ← take_number 2 0 s;
  '(_, s) ← take_char [":"%char] s;
  '(minute, s) ← take_number 2 0 s;
  '(_, s) ← take_char [":"%char] s;
  '(second, s) ← take_number 2 0 s;
  let '(fraction, s) := take_fraction s in
  offset ← take_offset s;
  Some {| dt_year := year; dt_month := month; dt_day := day; dt_hour := hour; dt_minute := minute;
          dt_second := second; dt_fraction := fraction; dt_offset := offset |}.

Definition leap_year (year : Z) : bool :=
  bool_decide (year mod 4 = 0) && (negb (bool_decide (year mod 100 = 0)) || bool_decide (year mod 400 = 0)).

Definition month_lengths (leap : bool) : list Z :=
  [31; if leap then 29 else 28; 31; 30; 31; 30; 31; 31; 30; 31; 30; 31].

Definition isRfc3339DateTime (value : option json) : bool :=
  match json_string value ≫= date_time_exec with
  | None => false
  | Some t =>
      let days := if decide (1 <= dt_month t)
                  then default 0 (month_lengths (leap_year (dt_year t)) !! Z.to_nat (dt_month t - 1))
                  else 0 in
      bool_decide (1 <= dt_day t) && bool_decide (dt_day t <= days) && bool_decide (dt_hour t <= 23) &&
      bool_decide (dt_minute t <= 59) && bool_decide (dt_second t <= 60) &&
      match dt_offset t with
      | None => true
      | Some (_, hours, minutes) => bool_decide (hours <= 23) && bool_decide (minutes <= 59)
      end
  end.

(** *** [Date.UTC] *)

Definition day_from_year (y : Z) : Z :=
  365 * (y - 1970) + (y - 1969) / 4 - (y - 1901) / 100 + (y - 1601) / 400.

Definition date_utc (year month day hour minute second : Z) : Z :=
  let year := if decide (0 <= year <= 99) then 1900 + year else year in
  let y := year + month / 12 in
  let days := day_from_year y + z_sum (take (Z.to_nat (month mod 12)) (month_lengths (leap_year y))) +
              (day - 1) in
  days * 86400000 + hour * 3600000 + minute * 60000 + second * 1000.

(** *** [Math.ceil(Number(`0.${digits}`) * 1000)]

    Doubles are [m * 2^(-e)]. [round_double n d] is the double nearest to the
    positive [n / d], ties to even. *)
Definition floor_log2 (n d : Z) : Z :=
  let l := Z.log2 n - Z.log2 d in
  if decide (d * 2 ^ Z.max 0 l <= n * 2 ^ Z.max 0 (- l)) then l else l - 1.

Definition round_half_even (n d : Z) : Z :=
  let q := n / d in
  let twice := 2 * (n mod d) in
  if decide (twice < d) then q
  else if decide (d < twice) then q + 1
  else if Z.even q then q else q + 1.

Definition round_double (n d : Z) : Z * Z :=
  if decide (n = 0) then (0, 0)
  else
    let e := Z.min 1074 (52 - floor_log2 n d) in
    (round_half_even (n * 2 ^ Z.max 0 e) (d * 2 ^ Z.max 0 (- e)), e).

Definition fraction_millis (digits : string) : Z :=
  let n := match take_number (String.length digits) 0 digits with Some (n, _) => n | None => 0 end in
  let '(m, e) := round_double n (10 ^ Z.of_nat (String.length digits)) in
  let '(m, e) := round_double (m * 1000) (2 ^ e) in
  - ((- m) / 2 ^ e).

(** [NaN] is [None]. *)
Definition rfc3339Millis (value : string) : option Z :=
  t ← date_time_exec value;
  let fraction := match dt_fraction t with None => 0 | Some digits => fraction_millis digits end in
  let offsetMinutes := match dt_offset t with
                       | None => 0
                       | Some (negative, hours, minutes) =>
                           (if negative : bool then -1 else 1) * (hours * 60 + minutes)
                       end in
  let utc := date_utc (dt_year t) (dt_month t - 1) (dt_day t) (dt_hour t) (dt_minute t) (dt_second t) in
  Some (utc + fraction - offsetMinutes * 60000).

Example millis_of_edge_date : rfc3339Millis "2026-07-04T09:30:15.069+02:00" = Some 1783150215069.
Proof. vm_compute. reflexivity. Qed.

(** ** The closed reading *)

Definition hasExactKeys (row : list (string * json)) (keys : list string) : bool :=
  bool_decide (length row = length keys) &&
  forallb (fun key => match json_own key row with Some _ => true | None => false end) keys.

Definition json_bool (v : option json) : option bool :=
  match v with Some (JBool b) => Some b | _ => None end.

Definition json_number (v : option json) : option Z :=
  match v with Some (JNum n) => Some n | _ => None end.

(** [value === expected], for a string and for a boolean. *)
Definition is_text (v : option json) (expected : string) : bool :=
  bool_decide (json_string v = Some expected).
Definition is_flag (v : option json) (expected : bool) : bool := bool_decide (json_bool v = Some expected).
Definition is_number (v : option json) (expected : Z) : bool :=
  bool_decide (json_number v = Some expected).

Definition exactArray (value : option json) (expected : list string) : bool :=
  match json_array value with
  | Some items =>
      bool_decide (length items = length expected) &&
      forallb (fun '(entry, text) => is_text (Some entry) text) (zip items expected)
  | None => false
  end.

Definition read_mode (v : option json) : option EgressMode :=
  List.find (fun m => is_text v (mode_name m)) [ModeBoth; ModePublic; ModePrivate].

Definition read_scope (v : option json) : option EnforcementScope :=
  List.find (fun s => is_text v (scope_name s))
    [LocalDataPlane; UnservedNamespace; AdmissionOnly; NoDataPlane].

(** Edge's class lists of a mode: allowed and blocked. *)
Definition modeClasses (mode : EgressMode) : list IpClass * list IpClass :=
  match mode with
  | ModeBoth => ([PublicClass; PrivateReserved], [])
  | ModePublic => ([PublicClass], [PrivateReserved])
  | ModePrivate => ([PrivateReserved], [PublicClass])
  end.

Definition SUPPORTED_EGRESS_POLICY_SCHEMA : Z := 2.

Definition isUnsupportedEgressPolicySchema (value : json) : bool :=
  match value with
  | JObj row => match json_number (json_own "schema_version" row) with
                | Some version => negb (bool_decide (version = SUPPORTED_EGRESS_POLICY_SCHEMA))
                | None => false
                end
  | _ => false
  end.

Inductive DataPlaneAttestationProblem : Type := Malformed | Inconsistent | OutOfScope.

#[export] Instance DataPlaneAttestationProblem_eq_dec : EqDecision DataPlaneAttestationProblem.
Proof. solve_decision. Defined.

Definition is_public_only (mode : EgressMode) (allowOverrides : bool) : bool :=
  bool_decide (mode = ModePublic) && negb allowOverrides.

Definition parseDataPlanePolicy (value : json) : option DataPlaneEgressPolicy :=
  match value with
  | JObj row =>
      if negb (hasExactKeys row DATA_PLANE_POLICY_KEYS) then None
      else
        mode ← read_mode (json_own "mode" row);
        let classes := modeClasses mode in
        if negb (exactArray (json_own "mode_allowed_ip_classes" row) (class_name <$> classes.1) &&
                 exactArray (json_own "mode_blocked_ip_classes" row) (class_name <$> classes.2)) then None
        else
          dangerous ← json_bool (json_own "dangerous_ranges_blocked" row);
          allowOverrides ← json_bool (json_own "allow_cidr_overrides_present" row);
          denyOverrides ← json_bool (json_own "deny_cidr_overrides_present" row);
          if is_flag (json_own "public_only_guaranteed" row) (is_public_only mode allowOverrides)
          then Some {| dp_mode := mode;
                       dp_mode_allowed_ip_classes := classes.1;
                       dp_mode_blocked_ip_classes := classes.2;
                       dp_dangerous_ranges_blocked := dangerous;
                       dp_allow_cidr_overrides_present := allowOverrides;
                       dp_deny_cidr_overrides_present := denyOverrides;
                       dp_public_only_guaranteed := is_public_only mode allowOverrides |}
          else None
  | _ => None
  end.

Definition parseDataPlaneEntry (value : json) : option DataPlaneEgressEntry :=
  match value with
  | JObj row =>
      if negb (hasExactKeys row DATA_PLANE_ENTRY_KEYS) then None
      else
        node_id ← json_string (json_own "node_id" row);
        connected_at ← json_string (json_own "connected_at" row);
        if bool_decide (node_id = EmptyString) || negb (isRfc3339DateTime (json_own "connected_at" row))
        then None
        else
          let entry policy := {| de_node_id := node_id; de_connected_at := connected_at;
                                 de_policy := policy |} in
          let written := json_own "policy" row in
          if is_text (json_own "attestation" row) "reported"
          then (fun policy => entry (Some policy)) <$> (written ≫= parseDataPlanePolicy)
          else if is_text (json_own "attestation" row) "unknown"
          then match written with Some JNull => Some (entry None) | _ => None end
          else None
  | _ => None
  end.

Definition weakenPolicy (a b : DataPlaneEgressPolicy) : DataPlaneEgressPolicy :=
  let publicAllowed := negb (bool_decide (dp_mode a = ModePrivate)) || negb (bool_decide (dp_mode b = ModePrivate)) in
  let privateAllowed := negb (bool_decide (dp_mode a = ModePublic)) || negb (bool_decide (dp_mode b = ModePublic)) in
  let mode := if negb privateAllowed then ModePublic
              else if negb publicAllowed then ModePrivate else ModeBoth in
  let classes := modeClasses mode in
  let allowOverrides := dp_allow_cidr_overrides_present a || dp_allow_cidr_overrides_present b in
  {| dp_mode := mode;
     dp_mode_allowed_ip_classes := classes.1;
     dp_mode_blocked_ip_classes := classes.2;
     dp_dangerous_ranges_blocked := dp_dangerous_ranges_blocked a && dp_dangerous_ranges_blocked b;
     dp_allow_cidr_overrides_present := allowOverrides;
     dp_deny_cidr_overrides_present := dp_deny_cidr_overrides_present a && dp_deny_cidr_overrides_present b;
     dp_public_only_guaranteed := is_public_only mode allowOverrides |}.

(** The policy as it is written, which [isDeepStrictEqual] compares. *)
Definition policy_json (p : DataPlaneEgressPolicy) : json :=
  let classes l := JArr (map (fun c => JStr (class_name c)) l) in
  JObj [("mode", JStr (mode_name (dp_mode p)));
        ("mode_allowed_ip_classes", classes (dp_mode_allowed_ip_classes p));
        ("mode_blocked_ip_classes", classes (dp_mode_blocked_ip_classes p));
        ("dangerous_ranges_blocked", JBool (dp_dangerous_ranges_blocked p));
        ("allow_cidr_overrides_present", JBool (dp_allow_cidr_overrides_present p));
        ("deny_cidr_overrides_present", JBool (dp_deny_cidr_overrides_present p));
        ("public_only_guaranteed", JBool (dp_public_only_guaranteed p))]%string.

Definition weakest_json (weakest : option DataPlaneEgressPolicy) : json :=
  match weakest with Some p => policy_json p | None => JNull end.

(** The loop over the streams: the entries, the weakest of their policies and how
    many reported; [None] for a malformed one. *)
Fixpoint read_planes (planes : list json) (weakest : option DataPlaneEgressPolicy) (reporting : Z)
    : option (list DataPlaneEgressEntry * option DataPlaneEgressPolicy * Z) :=
  match planes with
  | [] => Some ([], weakest, reporting)
  | plane :: rest =>
      entry ← parseDataPlaneEntry plane;
      let '(weakest, reporting) :=
        match de_policy entry with
        | None => (weakest, reporting)
        | Some policy =>
            (Some (match weakest with None => policy | Some w => weakenPolicy w policy end), reporting + 1)
        end in
      '(entries, weakest, reporting) ← read_planes rest weakest reporting;
      Some (entry :: entries, weakest, reporting)
  end.

(** [Number.isSafeInteger]. *)
Definition safe_integer (n : Z) : bool := bool_decide (- (2 ^ 53 - 1) <= n <= 2 ^ 53 - 1).

Definition guarantees (weakest : option DataPlaneEgressPolicy) : bool :=
  match weakest with Some p => dp_public_only_guaranteed p | None => false end.

Definition readDataPlaneAttestation (value : option json)
    : res DataPlaneAttestationProblem DataPlaneEgressAttestation :=
  match value with
  | Some (JObj row) =>
      if negb (hasExactKeys row ATTESTATION_KEYS) then Throw Malformed
      else
        match json_number (json_own "connected_data_planes" row), json_array (json_own "data_planes" row) with
        | Some connected, Some planes =>
            if negb (is_text (json_own "source" row) "configsync-subscribe") ||
               negb (safe_integer connected) || bool_decide (connected < 0)
            then Throw Malformed
            else
              match read_planes planes None 0 with
              | None => Throw Malformed
              | Some (entries, weakest, reporting) =>
                  let written := json_own "weakest_policy" row in
                  let readable := match written with
                                  | Some JNull => true
                                  | Some v => match parseDataPlanePolicy v with Some _ => true | None => false end
                                  | None => false
                                  end in
                  if negb readable then Throw Malformed
                  else
                    let complete := bool_decide (0 < connected) && bool_decide (reporting = connected) in
                    let all := complete && guarantees weakest in
                    if bool_decide (Z.of_nat (length planes) = connected) &&
                       is_number (json_own "reporting_data_planes" row) reporting &&
                       is_number (json_own "unknown_data_planes" row) (connected - reporting) &&
                       deep_equal written (Some (weakest_json weakest)) &&
                       is_flag (json_own "weakest_policy_complete" row) complete &&
                       is_flag (json_own "all_connected_public_only_guaranteed" row) all
                    then Ok {| connected_data_planes := connected;
                               reporting_data_planes := reporting;
                               unknown_data_planes := connected - reporting;
                               weakest_policy := weakest;
                               weakest_policy_complete := complete;
                               all_connected_public_only_guaranteed := all;
                               data_planes := entries |}
                    else Throw Inconsistent
              end
        | _, _ => Throw Malformed
        end
  | _ => Throw Malformed
  end.

Record BackendEgressPolicyReading : Type := {
  br_policy : BackendEgressPolicy;
  br_attestationProblem : option DataPlaneAttestationProblem;
}.

Definition with_attestation (attestation : option DataPlaneEgressAttestation) (p : BackendEgressPolicy)
    : BackendEgressPolicy :=
  {| be_namespace := be_namespace p; be_enforcement_scope := be_enforcement_scope p; be_mode := be_mode p;
     be_mode_allowed_ip_classes := be_mode_allowed_ip_classes p;
     be_mode_blocked_ip_classes := be_mode_blocked_ip_classes p;
     be_dangerous_ranges_blocked := be_dangerous_ranges_blocked p;
     be_allow_cidr_overrides_present := be_allow_cidr_overrides_present p;
     be_deny_cidr_overrides_present := be_deny_cidr_overrides_present p;
     be_public_only_guaranteed := be_public_only_guaranteed p;
     be_data_plane_attestation := attestation |}.

(** The policy of the process, without its attestation. *)
Definition read_process_policy (row : list (string * json)) (namespace : string)
    : option BackendEgressPolicy :=
  if negb (hasExactKeys row KEYS) then None
  else if negb (is_number (json_own "schema_version" row) SUPPORTED_EGRESS_POLICY_SCHEMA &&
                is_text (json_own "ip_classification" row) "ferrum-private-reserved-v1" &&
                is_text (json_own "namespace" row) namespace &&
                is_text (json_own "policy_scope" row) "process") then None
  else
    scope ← read_scope (json_own "enforcement_scope" row);
    mode ← read_mode (json_own "mode" row);
    dangerous ← json_bool (json_own "dangerous_ranges_blocked" row);
    allowOverrides ← json_bool (json_own "allow_cidr_overrides_present" row);
    denyOverrides ← json_bool (json_own "deny_cidr_overrides_present" row);
    publicOnly ← json_bool (json_own "public_only_guaranteed" row);
    let classes := modeClasses mode in
    if exactArray (json_own "mode_allowed_ip_classes" row) (class_name <$> classes.1) &&
       exactArray (json_own "mode_blocked_ip_classes" row) (class_name <$> classes.2) &&
       exactArray (json_own "evaluation_order" row) EVALUATION_ORDER &&
       Bool.eqb publicOnly (bool_decide (scope = LocalDataPlane) && is_public_only mode allowOverrides)
    then Some {| be_namespace := namespace; be_enforcement_scope := scope; be_mode := mode;
                 be_mode_allowed_ip_classes := classes.1; be_mode_blocked_ip_classes := classes.2;
                 be_dangerous_ranges_blocked := dangerous;
                 be_allow_cidr_overrides_present := allowOverrides;
                 be_deny_cidr_overrides_present := denyOverrides;
                 be_public_only_guaranteed := publicOnly;
                 be_data_plane_attestation := None |}
    else None.

Definition readBackendEgressPolicy (value : json) (namespace : string)
    : option BackendEgressPolicyReading :=
  match value with
  | JObj members =>
      policy ← read_process_policy (json_delete DATA_PLANE_ATTESTATION_KEY members) namespace;
      match json_own DATA_PLANE_ATTESTATION_KEY members with
      | None => Some {| br_policy := policy; br_attestationProblem := None |}
      | Some _ as attestation =>
          if negb (bool_decide (be_enforcement_scope policy = AdmissionOnly))
          then Some {| br_policy := policy; br_attestationProblem := Some OutOfScope |}
          else match readDataPlaneAttestation attestation with
               | Throw problem => Some {| br_policy := policy; br_attestationProblem := Some problem |}
               | Ok attestation => Some {| br_policy := with_attestation (Some attestation) policy;
                                           br_attestationProblem := None |}
               end
      end
  | _ => None
  end.

Definition parseBackendEgressPolicy (value : json) (namespace : string) : option BackendEgressPolicy :=
  match readBackendEgressPolicy value namespace with
  | Some {| br_policy := policy; br_attestationProblem := None |} => Some policy
  | _ => None
  end.

(** ** The verdict *)

Definition provesLocalPublicEgress (policy : BackendEgressPolicy) : bool :=
  bool_decide (be_enforcement_scope policy = LocalDataPlane) && be_public_only_guaranteed policy.

Inductive DataPlaneAttestationVerdict : Type :=
| Guaranteed | AttestationAbsent | AttestationUnreadable | DataPlanesNotPublicOnly
| ExpectedDataPlanesUnset | FewerDataPlanesThanExpected | DataPlaneRecentlyConnected
| DataPlaneClockSkew | NotControlPlane.

#[export] Instance DataPlaneAttestationVerdict_eq_dec : EqDecision DataPlaneAttestationVerdict.
Proof. solve_decision. Defined.

Definition DATA_PLANE_SETTLE_MS : Z := 60000.
Definition CLOCK_SKEW_ALLOWANCE_MS : Z := 30000.
Definition STREAM_AGE_CEILING_MS : Z := 86401000.
Definition SETTLED_AGE_MS : Z := DATA_PLANE_SETTLE_MS + CLOCK_SKEW_ALLOWANCE_MS.
Definition MAX_PLAUSIBLE_AGE_MS : Z := STREAM_AGE_CEILING_MS + CLOCK_SKEW_ALLOWANCE_MS.

Record DataPlaneFreshness : Type := {
  readAt : option Z;
  gatewayDate : option Z;
  settledNodeIds : option (list string);
}.

(** [expectedDataPlanes], when it is an inventory. *)
Definition isExpectedDataPlanes (value : option jsnum) : option Z :=
  match value with
  | Some (Fin n) => if safe_integer n && bool_decide (0 < n) then Some n else None
  | _ => None
  end.

Definition entry_public_only (entry : DataPlaneEgressEntry) : bool :=
  match de_policy entry with
  | Some policy => is_public_only (dp_mode policy) (dp_allow_cidr_overrides_present policy)
  | None => false
  end.

Definition allPublicOnly (a : DataPlaneEgressAttestation) : bool :=
  all_connected_public_only_guaranteed a && weakest_policy_complete a &&
  bool_decide (0 < connected_data_planes a) && bool_decide (unknown_data_planes a = 0) &&
  bool_decide (Z.of_nat (length (data_planes a)) = connected_data_planes a) &&
  forallb entry_public_only (data_planes a).

(** [-skew <= clock - connectedAt <= ceiling]; false of [NaN]. *)
Definition plausible_on (connectedAt : option Z) (clock : Z) : bool :=
  match connectedAt with
  | Some t => bool_decide (- CLOCK_SKEW_ALLOWANCE_MS <= clock - t) &&
              bool_decide (clock - t <= MAX_PLAUSIBLE_AGE_MS)
  | None => false
  end.

Definition settled_on (connectedAt : option Z) (clock : Z) : bool :=
  match connectedAt with Some t => bool_decide (SETTLED_AGE_MS <= clock - t) | None => false end.

(** [Math.min], [NaN] when either is. *)
Definition min_time (a b : option Z) : option Z :=
  match a, b with Some a, Some b => Some (Z.min a b) | _, _ => None end.

(** One round over the entries: each node's earliest stream, and whether every
    age is plausible. *)
Definition connected_round (clocks : list Z) (acc : gmap string (option Z) * bool)
    (entry : DataPlaneEgressEntry) : gmap string (option Z) * bool :=
  let '(firstConnected, plausible) := acc in
  let connectedAt := rfc3339Millis (de_connected_at entry) in
  let known := default connectedAt (firstConnected !! de_node_id entry) in
  (<[de_node_id entry := min_time known connectedAt]> firstConnected,
   plausible && forallb (plausible_on connectedAt) clocks).

Definition is_settled (sighted : option (list string)) (ageReadable : bool) (clocks : list Z)
    (nodeId : string) (connectedAt : option Z) : bool :=
  match sighted with Some ids => bool_decide (nodeId ∈ ids) | None => false end ||
  (ageReadable && forallb (settled_on connectedAt) clocks).

Definition clocks_of (now : Z) (freshness : DataPlaneFreshness) : list Z :=
  default now (readAt freshness) :: match gatewayDate freshness with Some d => [d] | None => [] end.

Definition is_defined {A} (o : option A) : bool := match o with Some _ => true | None => false end.

(** [now] is [Date.now()]. *)
Definition dataPlaneAttestationVerdict (now : Z) (policy : BackendEgressPolicy)
    (expectedDataPlanes : option jsnum) (freshness : DataPlaneFreshness) : DataPlaneAttestationVerdict :=
  if negb (bool_decide (be_enforcement_scope policy = AdmissionOnly)) then NotControlPlane
  else
    match be_data_plane_attestation policy with
    | None => AttestationAbsent
    | Some attestation =>
        if negb (allPublicOnly attestation) then DataPlanesNotPublicOnly
        else
          match isExpectedDataPlanes expectedDataPlanes with
          | None => ExpectedDataPlanesUnset
          | Some expected =>
              let clocks := clocks_of now freshness in
              let '(firstConnected, plausible) :=
                fold_left (connected_round clocks) (data_planes attestation) (∅, true) in
              if bool_decide (Z.of_nat (size firstConnected) < expected) then FewerDataPlanesThanExpected
              else
                let ageReadable := plausible && is_defined (gatewayDate freshness) in
                let settled := length (List.filter (fun '(nodeId, connectedAt) =>
                  is_settled (settledNodeIds freshness) ageReadable clocks nodeId connectedAt)
                  (map_to_list firstConnected)) in
                if bool_decide (expected <= Z.of_nat settled) then Guaranteed
                else if plausible then DataPlaneRecentlyConnected else DataPlaneClockSkew
          end
    end.

Definition provesDataPlanePublicEgress (now : Z) (policy : BackendEgressPolicy)
    (expectedDataPlanes : option jsnum) (freshness : DataPlaneFreshness) : bool :=
  bool_decide (dataPlaneAttestationVerdict now policy expectedDataPlanes freshness = Guaranteed).

Definition provesPublicEgress (now : Z) (policy : BackendEgressPolicy)
    (expectedDataPlanes : option jsnum) (freshness : DataPlaneFreshness) : bool :=
  provesLocalPublicEgress policy || provesDataPlanePublicEgress now policy expectedDataPlanes freshness.

(** What the operator is told, nothing when there is nothing to tell. *)
Definition describeDataPlaneAttestation (verdict : DataPlaneAttestationVerdict) : option string :=
  match verdict with
  | AttestationAbsent =>
      Some "the control plane reports no data-plane egress attestation (Edge v0.9.14 adds it)"%string
  | AttestationUnreadable => Some "the data-plane egress attestation is unreadable and was set aside"%string
  | DataPlanesNotPublicOnly =>
      Some "not every connected data plane attests public-only egress, or none is connected"%string
  | ExpectedDataPlanesUnset =>
      Some "NEXUS_EXPECTED_DATA_PLANES is not set, so the data-plane attestation cannot grant it"%string
  | FewerDataPlanesThanExpected =>
      Some "fewer distinct data planes (node_id) are connected to the control plane than NEXUS_EXPECTED_DATA_PLANES"%string
  | DataPlaneRecentlyConnected =>
      Some "a data plane connected too recently to rule out a restarted data plane still being counted twice; retry shortly"%string
  | DataPlaneClockSkew =>
      Some "a data plane's connected_at is implausible against Nexus's or the gateway's clock; check clock synchronization"%string
  | Guaranteed | NotControlPlane => None
  end.

(** ** Sightings *)

Definition SIGHTING_RETENTION_MS : Z := 15 * 60000.
Definition MAX_SIGHTINGS : Z := 20000.

Record sighting : Type := { sg_first : Z; sg_last : Z }.

(** The [Map], in insertion order. *)
Abbreviation sightings := (list (string * sighting)).

Definition sighting_of (nodeId : string) (m : sightings) : option sighting :=
  snd <$> List.find (fun kv => bool_decide (kv.1 = nodeId)) m.

(** [sighting.last = ...] of the entry the map holds. *)
Definition set_last (nodeId : string) (last : Z) (m : sightings) : sightings :=
  map (fun kv => if decide (kv.1 = nodeId)
                 then (kv.1, {| sg_first := sg_first kv.2; sg_last := last |}) else kv) m.

(** One listed node: a new sighting, or the known one seen again; and the nodes
    settled so far. *)
Definition see_node (seenAt startedAt : Z) (acc : sightings * list string) (nodeId : string)
    : sightings * list string :=
  let '(m, settled) := acc in
  match sighting_of nodeId m with
  | None => (m ++ [(nodeId, {| sg_first := seenAt; sg_last := seenAt |})], settled)
  | Some s =>
      (set_last nodeId (Z.max (sg_last s) seenAt) m,
       if decide (DATA_PLANE_SETTLE_MS <= startedAt - sg_first s) then settled ++ [nodeId] else settled)
  end.

(** The loop that forgets: over the entries in order, [size] how many the map holds. *)
Fixpoint forget (seenAt : Z) (listed : list string) (size : Z) (m : sightings) : sightings :=
  match m with
  | [] => []
  | (nodeId, s) :: rest =>
      if decide (nodeId ∈ listed) then (nodeId, s) :: forget seenAt listed size rest
      else if decide (SIGHTING_RETENTION_MS < seenAt - sg_last s \/ MAX_SIGHTINGS < size)
      then forget seenAt listed (size - 1) rest
      else (nodeId, s) :: forget seenAt listed size rest
  end.

(** A [Set] of the values: each once, in the order of its first occurrence. *)
Definition distinct (l : list string) : list string := reverse (remove_dups (reverse l)).

(** The nodes an answer lists. *)
Definition listed_nodes (policy : BackendEgressPolicy) : list string :=
  match be_enforcement_scope policy, be_data_plane_attestation policy with
  | AdmissionOnly, Some attestation => distinct (map de_node_id (data_planes attestation))
  | _, _ => []
  end.

(** [seenAt] is [now()]. *)
Definition observe (policy : BackendEgressPolicy) (startedAt seenAt : Z) (m : sightings)
    : list string * sightings :=
  let listed := listed_nodes policy in
  let '(m, settled) := fold_left (see_node seenAt startedAt) listed (m, []) in
  (settled, forget seenAt listed (Z.of_nat (length m)) m).

(** ** Admission *)

Inductive EgressProfile : Type := PublicGuaranteed | PrivateUpstreamsOptIn | UnattestedEdgeOptIn.

#[export] Instance EgressProfile_eq_dec : EqDecision EgressProfile.
Proof. solve_decision. Defined.

Record BackendEgressAdmission : Type := {
  egress_profile : EgressProfile;
  enforcement_scope : EnforcementScope;
}.

Record EgressAdmissionOptions : Type := {
  allowPrivateUpstreams : option bool;
  allowUnattestedEdgeEgress : option bool;
  expectedDataPlanes : option jsnum;
}.

Record BackendEgressAssessment : Type := {
  publicEgressGuaranteed : bool;
  admission : option BackendEgressAdmission;
  dataPlaneAttestation : DataPlaneAttestationVerdict;
}.

Definition assessBackendEgress (now : Z) (reading : BackendEgressPolicyReading)
    (options : EgressAdmissionOptions) (freshness : DataPlaneFreshness) : BackendEgressAssessment :=
  let policy := br_policy reading in
  let usable := negb (is_defined (br_attestationProblem reading)) in
  let guaranteed := usable && provesPublicEgress now policy (expectedDataPlanes options) freshness in
  let verdict := if usable then dataPlaneAttestationVerdict now policy (expectedDataPlanes options) freshness
                 else AttestationUnreadable in
  let granted profile := Some {| egress_profile := profile; enforcement_scope := be_enforcement_scope policy |} in
  {| publicEgressGuaranteed := guaranteed;
     admission :=
       if guaranteed then granted PublicGuaranteed
       else if bool_decide (allowPrivateUpstreams options = Some true) then granted PrivateUpstreamsOptIn
       else if bool_decide (allowUnattestedEdgeEgress options = Some true) && be_public_only_guaranteed policy
       then granted UnattestedEdgeOptIn
       else None;
     dataPlaneAttestation := verdict |}.

Definition admitBackendEgress (now : Z) (policy : BackendEgressPolicy)
    (options : EgressAdmissionOptions) (freshness : DataPlaneFreshness) : option BackendEgressAdmission :=
  admission (assessBackendEgress now {| br_policy := policy; br_attestationProblem := None |} options freshness).

(** ** One read of the client *)

(** What the transport answers a read with: the body and the [Date] header, and
    the two clocks when the request was sent and when its answer was read. *)
Record egress_answer : Type := {
  ea_value : json;
  ea_date : option Z;
  ea_readAt : Z;
  ea_startedAt : Z;
  ea_seenAt : Z;
}.

Inductive egress_refusal : Type :=
| UnsupportedSchema
| InvalidEgressPolicy
| BackendEgressUnverified (why : DataPlaneAttestationVerdict).

Definition readEgressPolicy (namespace : string) (answer : egress_answer) (m : sightings)
    : res egress_refusal (BackendEgressPolicyReading * DataPlaneFreshness) * sightings :=
  if isUnsupportedEgressPolicySchema (ea_value answer) then (Throw UnsupportedSchema, m)
  else
    match readBackendEgressPolicy (ea_value answer) namespace with
    | None => (Throw InvalidEgressPolicy, m)
    | Some reading =>
        let '(settled, m) :=
          if is_defined (br_attestationProblem reading) then ([], m)
          else observe (br_policy reading) (ea_startedAt answer) (ea_seenAt answer) m in
        (Ok (reading, {| readAt := Some (ea_readAt answer); gatewayDate := ea_date answer;
                         settledNodeIds := Some settled |}), m)
    end.

Definition assertBackendEgress (namespace : string) (deps : EgressAdmissionOptions)
    (answer : egress_answer) (m : sightings) : res egress_refusal BackendEgressAdmission * sightings :=
  match readEgressPolicy namespace answer m with
  | (Throw e, m) => (Throw e, m)
  | (Ok (reading, freshness), m) =>
      let assessment := assessBackendEgress (ea_readAt answer) reading deps freshness in
      match admission assessment with
      | Some admitted => (Ok admitted, m)
      | None => (Throw (BackendEgressUnverified (dataPlaneAttestation assessment)), m)
      end
  end.
