(* ===== verification/EgressReading.v ===== *)
(** * The gateway's egress policy: the closed reading

    What a policy that was read says of itself, and that it is read back from
    its own document: the reading accepts exactly the self-consistent policies. Then what a
    verdict over the fleet's data planes counts. *)

From S2P Require Import Prelude Json EgressPolicy.
Open Scope Z_scope.

(** ** Documents *)

Definition entry_json (e : DataPlaneEgressEntry) : json :=
  JObj [("node_id", JStr (de_node_id e)); ("connected_at", JStr (de_connected_at e));
        ("attestation", JStr (match de_policy e with Some _ => "reported" | None => "unknown" end));
        ("policy", weakest_json (de_policy e))]%string.

Definition attestation_json (a : DataPlaneEgressAttestation) : json :=
  JObj [("source", JStr "configsync-subscribe");
        ("connected_data_planes", JNum (connected_data_planes a));
        ("reporting_data_planes", JNum (reporting_data_planes a));
        ("unknown_data_planes", JNum (unknown_data_planes a));
        ("weakest_policy", weakest_json (weakest_policy a));
        ("weakest_policy_complete", JBool (weakest_policy_complete a));
        ("all_connected_public_only_guaranteed", JBool (all_connected_public_only_guaranteed a));
        ("data_planes", JArr (map entry_json (data_planes a)))]%string.

Definition names (classes : list IpClass) : json := JArr (map (fun c => JStr (class_name c)) classes).

Definition process_members (p : BackendEgressPolicy) : list (string * json) :=
  [("schema_version", JNum SUPPORTED_EGRESS_POLICY_SCHEMA);
   ("ip_classification", JStr "ferrum-private-reserved-v1");
   ("namespace", JStr (be_namespace p));
   ("policy_scope", JStr "process");
   ("enforcement_scope", JStr (scope_name (be_enforcement_scope p)));
   ("mode", JStr (mode_name (be_mode p)));
   ("mode_allowed_ip_classes", names (be_mode_allowed_ip_classes p));
   ("mode_blocked_ip_classes", names (be_mode_blocked_ip_classes p));
   ("dangerous_ranges_blocked", JBool (be_dangerous_ranges_blocked p));
   ("allow_cidr_overrides_present", JBool (be_allow_cidr_overrides_present p));
   ("deny_cidr_overrides_present", JBool (be_deny_cidr_overrides_present p));
   ("evaluation_order", JArr (map JStr EVALUATION_ORDER));
   ("public_only_guaranteed", JBool (be_public_only_guaranteed p))]%string.

Definition policy_document (p : BackendEgressPolicy) : json :=
  JObj (process_members p ++
        match be_data_plane_attestation p with
        | Some a => [(DATA_PLANE_ATTESTATION_KEY, attestation_json a)]
        | None => []
        end).

(** ** Self-consistent policies *)

Definition plane_policy_ok (p : DataPlaneEgressPolicy) : Prop :=
  (dp_mode_allowed_ip_classes p, dp_mode_blocked_ip_classes p) = modeClasses (dp_mode p) /\
  dp_public_only_guaranteed p = is_public_only (dp_mode p) (dp_allow_cidr_overrides_present p).

Definition entry_ok (e : DataPlaneEgressEntry) : Prop :=
  de_node_id e <> EmptyString /\ isRfc3339DateTime (Some (JStr (de_connected_at e))) = true /\
  (forall p, de_policy e = Some p -> plane_policy_ok p).

(** The policies the streams reported, in order, and the weakest of them. *)
Definition reports (planes : list DataPlaneEgressEntry) : list DataPlaneEgressPolicy := omap de_policy planes.

Definition weakest_of (policies : list DataPlaneEgressPolicy) : option DataPlaneEgressPolicy :=
  match policies with [] => None | p :: rest => Some (fold_left weakenPolicy rest p) end.

Definition attestation_ok (a : DataPlaneEgressAttestation) : Prop :=
  Forall entry_ok (data_planes a) /\
  connected_data_planes a = Z.of_nat (length (data_planes a)) /\
  connected_data_planes a <= 2 ^ 53 - 1 /\
  reporting_data_planes a = Z.of_nat (length (reports (data_planes a))) /\
  unknown_data_planes a = connected_data_planes a - reporting_data_planes a /\
  weakest_policy a = weakest_of (reports (data_planes a)) /\
  weakest_policy_complete a =
    (bool_decide (0 < connected_data_planes a) &&
     bool_decide (reporting_data_planes a = connected_data_planes a)) /\
  all_connected_public_only_guaranteed a =
    (weakest_policy_complete a && guarantees (weakest_policy a)).

Definition policy_ok (namespace : string) (p : BackendEgressPolicy) : Prop :=
  be_namespace p = namespace /\
  (be_mode_allowed_ip_classes p, be_mode_blocked_ip_classes p) = modeClasses (be_mode p) /\
  be_public_only_guaranteed p =
    (bool_decide (be_enforcement_scope p = LocalDataPlane) &&
     is_public_only (be_mode p) (be_allow_cidr_overrides_present p)) /\
  (forall a, be_data_plane_attestation p = Some a ->
     be_enforcement_scope p = AdmissionOnly /\ attestation_ok a).

(** ** What is read is self-consistent *)

Lemma weaken_ok (a b : DataPlaneEgressPolicy) : plane_policy_ok (weakenPolicy a b).
Proof. unfold plane_policy_ok, weakenPolicy. cbn. by destruct (modeClasses _). Qed.

Lemma weakest_ok (policies : list DataPlaneEgressPolicy) (w : DataPlaneEgressPolicy) :
  Forall plane_policy_ok policies -> weakest_of policies = Some w -> plane_policy_ok w.
Proof.
  destruct policies as [|p rest]; [done|]. intros [Hp _]%Forall_cons [= <-].
  revert p Hp. induction rest as [|q rest IH]; intros p Hp; [done|]. apply IH, weaken_ok.
Qed.

Lemma parseDataPlanePolicy_ok (v : json) (p : DataPlaneEgressPolicy) :
  parseDataPlanePolicy v = Some p -> plane_policy_ok p.
Proof.
  unfold parseDataPlanePolicy. destruct v as [| | | | |row]; try done.
  destruct (negb (hasExactKeys _ _)); [done|].
  destruct (read_mode _) as [mode|]; [|done]. simpl. destruct (negb _); [done|].
  destruct (json_bool (json_own "dangerous_ranges_blocked" row)) as [d|]; [|done].
  destruct (json_bool (json_own "allow_cidr_overrides_present" row)) as [a|]; [|done].
  destruct (json_bool (json_own "deny_cidr_overrides_present" row)) as [n|]; [|done].
  simpl. destruct (is_flag _ _); [|done]. intros [= <-]. split; [|done]. simpl. by destruct (modeClasses mode).
Qed.

Lemma parseDataPlaneEntry_ok (v : json) (e : DataPlaneEgressEntry) :
  parseDataPlaneEntry v = Some e -> entry_ok e.
Proof.
  unfold parseDataPlaneEntry. destruct v as [| | | | |row]; try done.
  destruct (negb (hasExactKeys _ _)); [done|].
  destruct (json_own "node_id" row) as [[| | |id| |]|]; try done. simpl.
  destruct (json_own "connected_at" row) as [[| | |at_| |]|] eqn:Hat; try done. simpl.
  destruct (bool_decide (id = EmptyString)) eqn:Hid; [done|]. apply bool_decide_eq_false in Hid. simpl.
  destruct (isRfc3339DateTime (Some (JStr at_))) eqn:Hdate; [|done]. simpl.
  destruct (is_text _ "reported"%string).
  - destruct (json_own "policy" row ≫= parseDataPlanePolicy) as [p|] eqn:Hp; [|done]. intros [= <-].
    split_and!; [done|done|]. intros p' [= <-].
    destruct (json_own "policy" row); [|done]. by apply parseDataPlanePolicy_ok in Hp.
  - destruct (is_text _ "unknown"%string); [|done]. destruct (json_own "policy" row) as [[]|]; try done.
    intros [= <-]. by split_and!.
Qed.

(** The weakest so far, and the rest of the streams' reports. *)
Definition weaken_all (weakest : option DataPlaneEgressPolicy) (policies : list DataPlaneEgressPolicy)
    : option DataPlaneEgressPolicy :=
  match weakest with Some w => Some (fold_left weakenPolicy policies w) | None => weakest_of policies end.

Lemma read_planes_ok (planes : list json) weakest reporting entries weakest' reporting' :
  read_planes planes weakest reporting = Some (entries, weakest', reporting') ->
  Forall entry_ok entries /\ length entries = length planes /\
  weakest' = weaken_all weakest (reports entries) /\
  reporting' = reporting + Z.of_nat (length (reports entries)).
Proof.
  revert weakest reporting entries. induction planes as [|plane planes IH]; intros weakest reporting entries; simpl.
  { intros [= <- <- <-]. split_and!; [constructor|done|by destruct weakest|simpl; lia]. }
  destruct (parseDataPlaneEntry plane) as [e|] eqn:He; [|done]. simpl.
  apply parseDataPlaneEntry_ok in He.
  destruct (de_policy e) as [p|] eqn:Hp.
  - destruct (read_planes planes _ _) as [[[es w] r]|] eqn:Hrest; [|done]. intros [= <- <- <-].
    apply IH in Hrest as (Hes & Hlen & Hw & Hr). split_and!; [by constructor|simpl; lia| |].
    + simpl. rewrite Hp, Hw. by destruct weakest.
    + simpl. rewrite Hp. simpl. lia.
  - destruct (read_planes planes _ _) as [[[es w] r]|] eqn:Hrest; [|done]. intros [= <- <- <-].
    apply IH in Hrest as (Hes & Hlen & Hw & Hr). split_and!; [by constructor|simpl; lia| |];
      simpl; by rewrite Hp.
Qed.

Lemma readDataPlaneAttestation_ok (v : option json) (a : DataPlaneEgressAttestation) :
  readDataPlaneAttestation v = Ok a -> attestation_ok a.
Proof.
  unfold readDataPlaneAttestation. destruct v as [[| | | | |row]|]; try done.
  destruct (negb (hasExactKeys _ _)); [done|].
  destruct (json_number (json_own "connected_data_planes" row)) as [connected|]; [|done].
  destruct (json_array (json_own "data_planes" row)) as [planes|]; [|done].
  destruct (negb (is_text _ _) || negb (safe_integer connected) || _) eqn:Hchecks; [done|].
  apply orb_false_iff in Hchecks as [[_ Hsafe]%orb_false_iff Hpos].
  apply negb_false_iff, bool_decide_eq_true in Hsafe. apply bool_decide_eq_false in Hpos.
  destruct (read_planes planes None 0) as [[[entries weakest] reporting]|] eqn:Hplanes; [|done].
  apply read_planes_ok in Hplanes as (Hes & Hlen & Hw & Hr). simpl in Hw, Hr.
  destruct (negb _); [done|]. destruct (bool_decide _ && _ && _ && _ && _ && _) eqn:Hall; [|done].
  repeat (apply andb_prop in Hall as [Hall _]). apply bool_decide_eq_true in Hall.
  intros [= <-]. unfold attestation_ok. cbn. split_and!; try done; lia.
Qed.

Lemma read_process_ok (row : list (string * json)) (namespace : string) (p : BackendEgressPolicy) :
  read_process_policy row namespace = Some p ->
  policy_ok namespace p /\ be_data_plane_attestation p = None.
Proof.
  unfold read_process_policy. destruct (negb (hasExactKeys _ _)); [done|]. destruct (negb _); [done|].
  destruct (read_scope _) as [scope|]; [|done]. destruct (read_mode _) as [mode|]; [|done]. simpl.
  destruct (json_bool (json_own "dangerous_ranges_blocked" row)) as [d|]; [|done].
  destruct (json_bool (json_own "allow_cidr_overrides_present" row)) as [a|]; [|done].
  destruct (json_bool (json_own "deny_cidr_overrides_present" row)) as [n|]; [|done].
  destruct (json_bool (json_own "public_only_guaranteed" row)) as [g|]; [|done]. simpl.
  destruct (_ && _ && _ && Bool.eqb g _) eqn:Hall; [|done]. apply andb_prop in Hall as [_ Hg].
  apply Bool.eqb_prop in Hg. intros [= <-]. split; [|done].
  split_and!; [done|simpl; by destruct (modeClasses mode)|done|done].
Qed.

Lemma read_ok (v : json) (namespace : string) (reading : BackendEgressPolicyReading) :
  readBackendEgressPolicy v namespace = Some reading -> policy_ok namespace (br_policy reading).
Proof.
  unfold readBackendEgressPolicy. destruct v as [| | | | |members]; try done.
  destruct (read_process_policy _ namespace) as [p|] eqn:Hp; [|done]. cbn [mbind option_bind].
  apply read_process_ok in Hp as [Hok Hnone].
  destruct (json_own _ members) as [w|]; [|by intros [= <-]].
  destruct (negb _) eqn:Hscope; [by intros [= <-]|]. apply negb_false_iff, bool_decide_eq_true in Hscope.
  destruct (readDataPlaneAttestation (Some w)) as [a|] eqn:Ha; intros [= <-]; [|exact Hok].
  apply readDataPlaneAttestation_ok in Ha. destruct Hok as (? & ? & ? & _).
  split_and!; try done. intros a' [= <-]. done.
Qed.

(** ** A self-consistent policy is read back *)

Lemma read_mode_name (m : EgressMode) : read_mode (Some (JStr (mode_name m))) = Some m.
Proof. by destruct m. Qed.

Lemma read_scope_name (s : EnforcementScope) : read_scope (Some (JStr (scope_name s))) = Some s.
Proof. by destruct s. Qed.

Lemma exactArray_names (classes : list IpClass) :
  exactArray (Some (names classes)) (class_name <$> classes) = true.
Proof.
  unfold exactArray, names. simpl. rewrite length_map, length_fmap, bool_decide_eq_true_2 by done. simpl.
  induction classes as [|c classes IH]; [done|]. csimpl. rewrite IH. unfold is_text.
  by rewrite bool_decide_eq_true_2.
Qed.

Lemma parse_policy_json (p : DataPlaneEgressPolicy) :
  plane_policy_ok p -> parseDataPlanePolicy (policy_json p) = Some p.
Proof.
  destruct p as [mode allowed blocked d a n g]. intros [Hc Hg]. simpl in *. subst g.
  destruct mode; injection Hc as -> ->; destruct d, a, n; reflexivity.
Qed.

Lemma policy_json_wf (p : DataPlaneEgressPolicy) : plane_policy_ok p -> json_wf (policy_json p).
Proof.
  destruct p as [mode allowed blocked d a n g]. intros [Hc _]. simpl in Hc.
  destruct mode; injection Hc as -> ->;
    (cbv -[mode_name]; repeat match goal with |- _ /\ _ => split end; try exact I;
     apply (bool_decide_unpack _); vm_compute; exact I).
Qed.

Lemma parse_entry_json (e : DataPlaneEgressEntry) :
  entry_ok e -> parseDataPlaneEntry (entry_json e) = Some e.
Proof.
  destruct e as [id at_ policy]. intros (Hid & Hdate & Hp). simpl in *.
  unfold parseDataPlaneEntry, entry_json. cbn [de_node_id de_connected_at de_policy].
  cbn -[isRfc3339DateTime parseDataPlanePolicy policy_json].
  rewrite Hdate, bool_decide_eq_false_2 by done. cbn -[parseDataPlanePolicy policy_json].
  destruct policy as [p|]; [|done]. cbn -[parseDataPlanePolicy policy_json].
  rewrite parse_policy_json by (by apply Hp). done.
Qed.

Lemma read_planes_json (entries : list DataPlaneEgressEntry) weakest reporting :
  Forall entry_ok entries ->
  read_planes (map entry_json entries) weakest reporting =
  Some (entries, weaken_all weakest (reports entries), reporting + Z.of_nat (length (reports entries))).
Proof.
  intros Hok. revert weakest reporting. induction Hok as [|e entries He _ IH]; intros weakest reporting.
  { simpl. by destruct weakest; rewrite Z.add_0_r. }
  cbn [map read_planes]. rewrite parse_entry_json by done. cbn [mbind option_bind].
  destruct (de_policy e) as [p|] eqn:Hp; rewrite IH; simpl; rewrite Hp; simpl.
  - do 2 f_equal; [|lia]. f_equal. by destruct weakest.
  - done.
Qed.

Lemma weakest_readable (weakest : option DataPlaneEgressPolicy) :
  (forall w, weakest = Some w -> plane_policy_ok w) ->
  match weakest_json weakest with
  | JNull => true
  | _ => match parseDataPlanePolicy (weakest_json weakest) with Some _ => true | None => false end
  end = true /\
  json_deep_equal (weakest_json weakest) (weakest_json weakest) = true.
Proof.
  intros Hok. destruct weakest as [w|]; [|done]. simpl weakest_json. split.
  - rewrite parse_policy_json by by apply Hok. done.
  - apply json_deep_equal_refl, policy_json_wf. by apply Hok.
Qed.

Lemma reports_ok (entries : list DataPlaneEgressEntry) :
  Forall entry_ok entries -> Forall plane_policy_ok (reports entries).
Proof.
  intros Hok. apply Forall_forall. intros p (e & He & Hp)%list_elem_of_omap.
  rewrite Forall_forall in Hok. destruct (Hok e He) as (_ & _ & H). by apply H.
Qed.

Lemma read_attestation_json (a : DataPlaneEgressAttestation) :
  attestation_ok a -> readDataPlaneAttestation (Some (attestation_json a)) = Ok a.
Proof.
  destruct a as [connected reporting unknown weakest complete all planes].
  intros (Hes & Hc & Hmax & Hr & Hu & Hw & Hcomp & Hall). simpl in *.
  destruct (weakest_readable weakest) as [Hread Hdeep].
  { intros w Hw'. rewrite Hw in Hw'. by eapply weakest_ok, Hw'; apply reports_ok. }
  unfold readDataPlaneAttestation, attestation_json.
  cbn -[read_planes safe_integer weakest_json deep_equal is_number is_flag json_deep_equal Z.add].
  assert (Hsafe : safe_integer connected = true) by (apply bool_decide_eq_true_2; lia).
  rewrite Hsafe, (bool_decide_eq_false_2 (connected < 0)) by lia. simpl orb.
  rewrite read_planes_json by done. cbn [weaken_all]. rewrite <- Hw, Z.add_0_l, <- Hr.
  cbn -[safe_integer weakest_json deep_equal is_number is_flag json_deep_equal].
  rewrite Hread, Hdeep, length_map, <- Hc, bool_decide_eq_true_2, <- Hcomp, <- Hall, <- Hu by done.
  unfold is_number, is_flag. by rewrite !bool_decide_eq_true_2.
Qed.

Lemma process_members_own (p : BackendEgressPolicy) (namespace : string) :
  policy_ok namespace p ->
  read_process_policy (process_members p) namespace = Some (with_attestation None p).
Proof.
  destruct p as [ns scope mode allowed blocked d a n g att]. intros (Hns & Hc & Hg & _). simpl in *. subst ns g.
  unfold read_process_policy. set (row := process_members _).
  replace (hasExactKeys row KEYS) with true by reflexivity.
  replace (json_own "schema_version" row) with (Some (JNum 2)) by reflexivity.
  replace (json_own "ip_classification" row) with (Some (JStr "ferrum-private-reserved-v1")) by reflexivity.
  replace (json_own "namespace" row) with (Some (JStr namespace)) by reflexivity.
  replace (json_own "policy_scope" row) with (Some (JStr "process")) by reflexivity.
  replace (json_own "enforcement_scope" row) with (Some (JStr (scope_name scope))) by reflexivity.
  replace (json_own "mode" row) with (Some (JStr (mode_name mode))) by reflexivity.
  replace (json_own "mode_allowed_ip_classes" row) with (Some (names allowed)) by reflexivity.
  replace (json_own "mode_blocked_ip_classes" row) with (Some (names blocked)) by reflexivity.
  replace (json_own "dangerous_ranges_blocked" row) with (Some (JBool d)) by reflexivity.
  replace (json_own "allow_cidr_overrides_present" row) with (Some (JBool a)) by reflexivity.
  replace (json_own "deny_cidr_overrides_present" row) with (Some (JBool n)) by reflexivity.
  replace (json_own "public_only_guaranteed" row) with
    (Some (JBool (bool_decide (scope = LocalDataPlane) && is_public_only mode a))) by reflexivity.
  replace (exactArray (json_own "evaluation_order" row) EVALUATION_ORDER) with true by reflexivity.
  replace (is_number (Some (JNum 2)) SUPPORTED_EGRESS_POLICY_SCHEMA) with true by reflexivity.
  rewrite read_scope_name, read_mode_name.
  assert (Htext : is_text (Some (JStr namespace)) namespace = true) by (unfold is_text; by rewrite bool_decide_eq_true_2).
  rewrite Htext. cbn [negb andb mbind option_bind json_bool].
  replace (is_text _ "ferrum-private-reserved-v1") with true by reflexivity.
  replace (is_text _ "process") with true by reflexivity. cbn [negb andb].
  destruct (modeClasses mode) as [al bl]. injection Hc as -> ->. cbn [fst snd].
  by rewrite !exactArray_names, Bool.eqb_reflx.
Qed.

Lemma read_document (p : BackendEgressPolicy) (namespace : string) :
  policy_ok namespace p ->
  readBackendEgressPolicy (policy_document p) namespace =
  Some {| br_policy := p; br_attestationProblem := None |}.
Proof.
  intros Hok. unfold readBackendEgressPolicy, policy_document.
  pose proof (process_members_own p namespace Hok) as Hread.
  destruct Hok as (_ & _ & _ & Hatt). destruct (be_data_plane_attestation p) as [a|] eqn:Ha.
  - destruct (Hatt a eq_refl) as [Hscope Hok].
    replace (json_delete _ _) with (process_members p) by reflexivity.
    rewrite Hread. cbn [mbind option_bind].
    replace (json_own _ _) with (Some (attestation_json a)) by reflexivity.
    cbn [with_attestation be_enforcement_scope]. rewrite Hscope. simpl negb.
    rewrite read_attestation_json by done. destruct p. simpl in *. by subst.
  - replace (json_delete _ _) with (process_members p) by reflexivity. rewrite Hread. cbn [mbind option_bind].
    replace (json_own _ _) with (@None json) by reflexivity. destruct p. simpl in *. by subst.
Qed.


(** ** What a write was admitted under *)

(** The serving process itself enforces public-only egress. *)
Definition locally_public (p : BackendEgressPolicy) : Prop :=
  be_enforcement_scope p = LocalDataPlane /\ be_mode p = ModePublic /\
  be_allow_cidr_overrides_present p = false.

Lemma public_only_local (namespace : string) (p : BackendEgressPolicy) :
  policy_ok namespace p -> be_public_only_guaranteed p = true -> locally_public p.
Proof.
  intros (_ & _ & Hg & _) Hp. rewrite Hp in Hg. symmetry in Hg. unfold is_public_only in Hg.
  apply andb_prop in Hg as [Hs [Hm Ho]%andb_prop].
  apply bool_decide_eq_true in Hs, Hm. by apply negb_true_iff in Ho.
Qed.

Lemma proves_public (namespace : string) (now : Z) (p : BackendEgressPolicy) planes freshness :
  policy_ok namespace p -> provesPublicEgress now p planes freshness = true ->
  locally_public p \/
  be_enforcement_scope p = AdmissionOnly /\
  dataPlaneAttestationVerdict now p planes freshness = Guaranteed.
Proof.
  intros Hok [Hlocal|Hplanes]%orb_prop.
  - left. apply andb_prop in Hlocal as [_ Hp]. by eapply public_only_local.
  - right. apply bool_decide_eq_true in Hplanes. split; [|done].
    unfold dataPlaneAttestationVerdict in Hplanes. by case_bool_decide.
Qed.

(** C38: a write is admitted only on an answer that was read, recorded under the
    scope the answer named. The public profile means the serving process is public
    without allow overlays, or a control plane whose attestation, with nothing set
    aside, gave the guarantee; the private profile that the operator opted into
    private upstreams and there was no guarantee; and the unattested profile, its
    own opt-in, that the serving process is public without allow overlays all the
    same, so that it admits nothing the public profile would refuse of it. *)
Theorem write_admitted_under_profile (namespace : string) (deps : EgressAdmissionOptions)
    (answer : egress_answer) (m : sightings) (admitted : BackendEgressAdmission) :
  (assertBackendEgress namespace deps answer m).1 = Ok admitted ->
  exists reading freshness,
    (readEgressPolicy namespace answer m).1 = Ok (reading, freshness) /\
    policy_ok namespace (br_policy reading) /\
    enforcement_scope admitted = be_enforcement_scope (br_policy reading) /\
    match egress_profile admitted with
    | PublicGuaranteed =>
        br_attestationProblem reading = None /\
        (locally_public (br_policy reading) \/
         be_enforcement_scope (br_policy reading) = AdmissionOnly /\
         dataPlaneAttestation (assessBackendEgress (ea_readAt answer) reading deps freshness) = Guaranteed)
    | PrivateUpstreamsOptIn =>
        allowPrivateUpstreams deps = Some true /\
        publicEgressGuaranteed (assessBackendEgress (ea_readAt answer) reading deps freshness) = false
    | UnattestedEdgeOptIn =>
        allowUnattestedEdgeEgress deps = Some true /\ locally_public (br_policy reading)
    end.
Proof.
  unfold assertBackendEgress.
  destruct (readEgressPolicy namespace answer m) as [[[reading freshness]|e] m'] eqn:Hread; [|done].
  destruct (admission _) as [adm|] eqn:Hadm; [|done]. intros [= <-]. exists reading, freshness.
  assert (Hok : policy_ok namespace (br_policy reading)).
  { unfold readEgressPolicy in Hread. destruct (isUnsupportedEgressPolicySchema _); [done|].
    destruct (readBackendEgressPolicy _ namespace) as [r|] eqn:Hr; [|done]. apply read_ok in Hr.
    destruct (is_defined _); [|destruct (observe _ _ _ m)]; by injection Hread as <- <- _. }
  unfold assessBackendEgress in Hadm |- *. cbn -[provesPublicEgress] in *.
  destruct (_ && provesPublicEgress _ _ _ _) eqn:Hproves.
  { injection Hadm as <-. apply andb_prop in Hproves as [Husable Hproves].
    destruct (br_attestationProblem reading) eqn:Hproblem; [done|].
    split_and!; [done|done|done|]. split; [done|by apply (proves_public namespace)]. }
  case_bool_decide; [by injection Hadm as <-|].
  destruct (_ && _) eqn:Hopt in Hadm; [|done]. injection Hadm as <-.
  apply andb_prop in Hopt as [Hopt Hp]. apply bool_decide_eq_true in Hopt.
  split_and!; [done|done|done|]. split; [done|by eapply public_only_local].
Qed.

(** ** Samples *)

Definition sample_local_policy : BackendEgressPolicy :=
  {| be_namespace := "nexus"; be_enforcement_scope := LocalDataPlane; be_mode := ModePublic;
     be_mode_allowed_ip_classes := [PublicClass]; be_mode_blocked_ip_classes := [PrivateReserved];
     be_dangerous_ranges_blocked := true; be_allow_cidr_overrides_present := false;
     be_deny_cidr_overrides_present := false; be_public_only_guaranteed := true;
     be_data_plane_attestation := None |}.

Definition no_opt_outs (planes : option jsnum) : EgressAdmissionOptions :=
  {| allowPrivateUpstreams := None; allowUnattestedEdgeEgress := None; expectedDataPlanes := planes |}.

Definition answer_at (time : Z) (policy : BackendEgressPolicy) : egress_answer :=
  {| ea_value := policy_document policy; ea_date := Some (1783150000000 + time);
     ea_readAt := 1783150000000 + time; ea_startedAt := time; ea_seenAt := time + 40 |}.

Theorem write_admitted_under_profile_witness :
  exists reading freshness,
    (readEgressPolicy "nexus" (answer_at 0 sample_local_policy) []).1 = Ok (reading, freshness) /\
    br_attestationProblem reading = None.
Proof.
  destruct (write_admitted_under_profile "nexus" (no_opt_outs None) (answer_at 0 sample_local_policy) []
    {| egress_profile := PublicGuaranteed; enforcement_scope := LocalDataPlane |} ltac:(vm_compute; reflexivity))
    as (reading & freshness & Hread & _ & _ & [Hnone _]).
  exists reading, freshness. exact (conj Hread Hnone).
Defined.

(** ** The gateway's egress policy: theorems

    What a guarantee of [EgressPolicy] rests on: what the policy read says, and
    that the data planes counted are distinct ones, whatever processes restarted. *)

(** Keys that are distinct stay so. *)
Lemma filter_keys_nodup {A} (keep : string * A -> bool) (l : list (string * A)) :
  NoDup l.*1 -> NoDup (List.filter keep l).*1.
Proof.
  induction l as [|[k v] l IH]; csimpl; [done|]. intros [Hk Hnd]%NoDup_cons.
  destruct (keep (k, v)); csimpl; [|by apply IH]. apply NoDup_cons. split; [|by apply IH].
  intros ([k' v'] & -> & Hin)%list_elem_of_fmap. apply Hk, list_elem_of_fmap. exists (k', v').
  split; [done|]. by apply list_elem_of_In, filter_In in Hin as [?%list_elem_of_In _].
Qed.

(** ** Sightings *)

(** Every sighting began at one of the times. *)
Definition began_at (P : string -> Z -> Prop) (m : sightings) : Prop :=
  forall nodeId s, (nodeId, s) ∈ m -> P nodeId (sg_first s).

Lemma sighting_of_in (nodeId : string) (m : sightings) (s : sighting) :
  sighting_of nodeId m = Some s -> (nodeId, s) ∈ m.
Proof.
  unfold sighting_of. destruct (List.find _ m) as [[k x]|] eqn:Hf; [|done]. intros [= <-].
  apply find_some in Hf as [Hin Hk]. apply bool_decide_eq_true in Hk. simpl in Hk. subst.
  by apply list_elem_of_In.
Qed.

Lemma began_set_last P (nodeId : string) (last : Z) (m : sightings) :
  began_at P m -> began_at P (set_last nodeId last m).
Proof.
  intros Hm k s Hin. unfold set_last in Hin. apply list_elem_of_In, in_map_iff in Hin as ([k' s'] & Heq & Hin).
  apply list_elem_of_In, Hm in Hin. simpl in Heq. case_decide; by simplify_eq.
Qed.

Lemma forget_in (seenAt : Z) (listed : list string) (size : Z) (m : sightings) kv :
  kv ∈ forget seenAt listed size m -> kv ∈ m.
Proof.
  revert size. induction m as [|[k s] m IH]; intros size; simpl; [done|].
  repeat case_decide; rewrite ?elem_of_cons; naive_solver.
Qed.

(** The nodes [observe] settles were sighted long enough before the request. *)
Lemma see_nodes P (seenAt startedAt : Z) (listed : list string) (m : sightings) (settled : list string) :
  began_at P m -> (forall id, id ∈ listed -> P id seenAt) ->
  (forall id, id ∈ settled -> exists first, P id first /\ DATA_PLANE_SETTLE_MS <= startedAt - first) ->
  let '(m', settled') := fold_left (see_node seenAt startedAt) listed (m, settled) in
  began_at P m' /\
  (forall id, id ∈ settled' -> exists first, P id first /\ DATA_PLANE_SETTLE_MS <= startedAt - first).
Proof.
  revert m settled. induction listed as [|id listed IH]; intros m settled Hm Hseen Hset; [done|].
  cbn [fold_left see_node]. destruct (sighting_of id m) as [s|] eqn:Hs.
  - apply IH; [by apply began_set_last|intros; apply Hseen; by right|].
    apply sighting_of_in, Hm in Hs. case_decide; [|done].
    intros id' [Hin| ->%list_elem_of_singleton]%elem_of_app; [by apply Hset|]. by exists (sg_first s).
  - apply IH; [|intros; apply Hseen; by right|done].
    intros k s [Hin|[= -> ->]%list_elem_of_singleton]%elem_of_app; [by apply Hm|]. simpl.
    apply Hseen. left.
Qed.

Lemma observe_settled P (policy : BackendEgressPolicy) (startedAt seenAt : Z) (m : sightings) :
  began_at P m -> (forall id, id ∈ listed_nodes policy -> P id seenAt) ->
  began_at P (observe policy startedAt seenAt m).2 /\
  forall id, id ∈ (observe policy startedAt seenAt m).1 ->
    exists first, P id first /\ DATA_PLANE_SETTLE_MS <= startedAt - first.
Proof.
  intros Hm Hseen. unfold observe.
  pose proof (see_nodes P seenAt startedAt (listed_nodes policy) m [] Hm Hseen) as Hfold.
  destruct (fold_left _ _ _) as [m' settled]. simpl.
  destruct Hfold as [Hm' Hset]; [by intros id ?%elem_of_nil|]. split; [|done].
  intros k s Hin%forget_in. by apply Hm'.
Qed.

(** *** What is remembered *)

Lemma forget_length (seenAt : Z) (listed : list string) (size : Z) (m : sightings) :
  Z.of_nat (length m) <= size ->
  Z.of_nat (length (forget seenAt listed size m)) <=
    Z.max (MAX_SIGHTINGS + Z.of_nat (length m) - size)
          (Z.of_nat (length (List.filter (fun kv => bool_decide (kv.1 ∈ listed)) m))).
Proof.
  revert size. induction m as [|[k s] m IH]; intros size Hsize; simpl; [lia|].
  simpl in Hsize. pose proof (filter_length_le (fun kv : string * sighting => bool_decide (kv.1 ∈ listed)) m).
  case_decide as Hk; [rewrite bool_decide_eq_true_2 by done|rewrite bool_decide_eq_false_2 by done]; simpl.
  - specialize (IH size). lia.
  - case_decide as Hdrop; simpl; [specialize (IH (size - 1))|specialize (IH size)]; lia.
Qed.

Lemma sighting_of_none (nodeId : string) (m : sightings) :
  sighting_of nodeId m = None -> nodeId ∉ m.*1.
Proof.
  unfold sighting_of. destruct (List.find _ m) as [|] eqn:Hf; [done|]. intros _ Hin.
  apply list_elem_of_fmap in Hin as ([k s] & -> & Hin%list_elem_of_In).
  pose proof (find_none _ _ Hf _ Hin) as Hk. cbv beta in Hk. simpl in Hk. by apply bool_decide_eq_false in Hk.
Qed.

Lemma set_last_keys (nodeId : string) (last : Z) (m : sightings) : (set_last nodeId last m).*1 = m.*1.
Proof. induction m as [|[k s] m IH]; csimpl; [done|]. case_decide; csimpl; by rewrite IH. Qed.

Lemma see_nodes_keys (seenAt startedAt : Z) (listed : list string) (m : sightings) (settled : list string) :
  NoDup m.*1 -> NoDup (fold_left (see_node seenAt startedAt) listed (m, settled)).1.*1.
Proof.
  revert m settled. induction listed as [|id listed IH]; intros m settled Hnd; [done|].
  cbn [fold_left see_node]. destruct (sighting_of id m) as [s|] eqn:Hs; apply IH.
  - by rewrite set_last_keys.
  - apply sighting_of_none in Hs. rewrite fmap_app. apply NoDup_app. split_and!; [done| |by apply NoDup_singleton].
    intros k Hk ->%list_elem_of_singleton. done.
Qed.

Lemma forget_keys (seenAt : Z) (listed : list string) (size : Z) (m : sightings) :
  NoDup m.*1 -> NoDup (forget seenAt listed size m).*1.
Proof.
  revert size. induction m as [|[k s] m IH]; intros size; csimpl; [done|].
  intros [Hk Hnd]%NoDup_cons.
  assert (Hkept : forall size, k ∉ (forget seenAt listed size m).*1).
  { intros n ([k' s'] & -> & Hin)%list_elem_of_fmap. apply Hk, list_elem_of_fmap.
    exists (k', s'). split; [done|by eapply forget_in]. }
  repeat case_decide; csimpl; try apply NoDup_cons; auto.
Qed.

(** The memory holds each node once, and beside the nodes just listed only as many
    as the limit leaves room for. *)
Lemma observe_bounded (policy : BackendEgressPolicy) (startedAt seenAt : Z) (m : sightings) :
  NoDup m.*1 ->
  NoDup (observe policy startedAt seenAt m).2.*1 /\
  Z.of_nat (length (observe policy startedAt seenAt m).2) <=
    Z.max MAX_SIGHTINGS (Z.of_nat (length (listed_nodes policy))).
Proof.
  intros Hnd. unfold observe.
  pose proof (see_nodes_keys seenAt startedAt (listed_nodes policy) m [] Hnd) as Hkeys.
  destruct (fold_left _ _ _) as [m' settled]. simpl in *. split; [by apply forget_keys|].
  pose proof (forget_length seenAt (listed_nodes policy) (Z.of_nat (length m')) m' ltac:(lia)) as Hlen.
  assert (length (List.filter (fun kv => bool_decide (kv.1 ∈ listed_nodes policy)) m') <=
          length (listed_nodes policy))%nat; [|lia].
  rewrite <- (length_fmap fst). apply submseteq_length, NoDup_submseteq.
  - by apply filter_keys_nodup.
  - intros k ([k' s'] & -> & Hin)%list_elem_of_fmap.
    apply list_elem_of_In, filter_In in Hin as [_ Hin]. by apply bool_decide_eq_true in Hin.
Qed.

(** ** What the verdict counts *)

(** The nodes connected, each with the time of one of its streams. *)
Definition connected_from (entries : list DataPlaneEgressEntry) (m : gmap string (option Z)) : Prop :=
  forall id v, m !! id = Some v ->
    exists entry, entry ∈ entries /\ de_node_id entry = id /\
      (is_Some v -> rfc3339Millis (de_connected_at entry) = v).

Lemma connected_rounds (clocks : list Z) (seen entries : list DataPlaneEgressEntry) m plausible :
  connected_from seen m ->
  connected_from (seen ++ entries) (fold_left (connected_round clocks) entries (m, plausible)).1.
Proof.
  revert seen m plausible. induction entries as [|e entries IH]; intros seen m plausible Hm.
  { by rewrite app_nil_r. }
  cbn [fold_left connected_round]. replace (seen ++ e :: entries) with ((seen ++ [e]) ++ entries)
    by (by rewrite <- app_assoc).
  apply IH. intros id v. rewrite lookup_insert_Some. intros [[<- <-]|[Hne Hid]].
  - destruct (m !! de_node_id e) as [known|] eqn:Hknown; simpl.
    + destruct (Hm _ _ Hknown) as (e' & Hin & Hid & Ht).
      destruct known as [k|], (rfc3339Millis (de_connected_at e)) as [t|] eqn:He; simpl;
        [|exists e; split_and!; [set_solver|done|by intros []]..].
      destruct (Z.min_spec k t) as [[_ ->]|[_ ->]].
      * exists e'. split_and!; [set_solver|done|]. intros _. by apply Ht.
      * exists e. split_and!; [set_solver|done|]. by intros _.
    + exists e. split_and!; [set_solver|done|].
      destruct (rfc3339Millis (de_connected_at e)) as [t|]; simpl; [|by intros []].
      by rewrite Z.min_id.
  - destruct (Hm _ _ Hid) as (e' & Hin & ? & ?). exists e'. split_and!; [set_solver|done|done].
Qed.

(** Why a node counts: it was sighted, or its stream is old on every clock. *)
Definition counts (freshness : DataPlaneFreshness) (now : Z) (entries : list DataPlaneEgressEntry)
    (id : string) : Prop :=
  (exists ids, settledNodeIds freshness = Some ids /\ id ∈ ids) \/
  (exists entry t, entry ∈ entries /\ de_node_id entry = id /\
     rfc3339Millis (de_connected_at entry) = Some t /\
     forall clock, clock ∈ clocks_of now freshness -> SETTLED_AGE_MS <= clock - t).

Lemma is_settled_counts (freshness : DataPlaneFreshness) (now : Z) (entries : list DataPlaneEgressEntry)
    (readable : bool) (id : string) (v : option Z) m :
  connected_from entries m -> m !! id = Some v ->
  is_settled (settledNodeIds freshness) readable (clocks_of now freshness) id v = true ->
  counts freshness now entries id.
Proof.
  intros Hm Hid. unfold is_settled. rewrite orb_true_iff, andb_true_iff. intros [Hs|[_ Hs]].
  - left. destruct (settledNodeIds freshness) as [ids|]; [|done]. exists ids.
    by apply bool_decide_eq_true in Hs.
  - right. destruct (Hm _ _ Hid) as (entry & Hin & Hnode & Ht). destruct v as [t|]; [|done].
    exists entry, t. split_and!; [done|done|by apply Ht|]. intros clock Hclock.
    rewrite forallb_forall in Hs. apply list_elem_of_In, Hs in Hclock.
    by apply bool_decide_eq_true in Hclock.
Qed.

(** A guarantee of the data planes names at least as many of them as expected,
    all connected, settled and public-only. *)
Lemma verdict_guaranteed (now : Z) (policy : BackendEgressPolicy) (planes : option jsnum)
    (freshness : DataPlaneFreshness) :
  dataPlaneAttestationVerdict now policy planes freshness = Guaranteed ->
  be_enforcement_scope policy = AdmissionOnly /\
  exists attestation expected counted,
    be_data_plane_attestation policy = Some attestation /\
    isExpectedDataPlanes planes = Some expected /\
    allPublicOnly attestation = true /\
    NoDup counted /\ expected <= Z.of_nat (length counted) /\
    forall id, id ∈ counted ->
      (exists entry, entry ∈ data_planes attestation /\ de_node_id entry = id) /\
      counts freshness now (data_planes attestation) id.
Proof.
  unfold dataPlaneAttestationVerdict.
  destruct (bool_decide (be_enforcement_scope policy = AdmissionOnly)) eqn:Hscope; [|done].
  apply bool_decide_eq_true in Hscope. simpl.
  destruct (be_data_plane_attestation policy) as [attestation|]; [|done].
  destruct (allPublicOnly attestation) eqn:Hall; [|done]. simpl.
  destruct (isExpectedDataPlanes planes) as [expected|]; [|done].
  pose proof (connected_rounds (clocks_of now freshness) [] (data_planes attestation) ∅ true) as Hconn.
  destruct (fold_left _ _ _) as [firstConnected plausible]. simpl in Hconn.
  case_bool_decide; [done|].
  set (keep := fun '(nodeId, connectedAt) => is_settled _ _ _ nodeId connectedAt).
  case_bool_decide as Hsettled; [|by destruct plausible]. intros _. split; [done|].
  exists attestation, expected, (List.filter keep (map_to_list firstConnected)).*1.
  assert (Hconn' : connected_from (data_planes attestation) firstConnected).
  { apply Hconn. by intros id v ?%lookup_empty_Some. }
  split_and!; [done|done|done| |by rewrite length_fmap|].
  - apply filter_keys_nodup, NoDup_fst_map_to_list.
  - intros id ([k v] & -> & Hin)%list_elem_of_fmap. apply list_elem_of_In, filter_In in Hin as [Hin Hs].
    apply list_elem_of_In, elem_of_map_to_list in Hin. simpl. split.
    + destruct (Hconn' _ _ Hin) as (entry & ? & ? & _). by exists entry.
    + by eapply is_settled_counts.
Qed.

(** ** The fleet

    The data planes of an operator, and the processes that serve them one after
    the other: Edge gives each process a node id of its own. Times are of
    Nexus's monotonic clock. *)

Record fleet : Type := {
  fl_slot : string -> string;        (** the data plane the process serves *)
  fl_started : string -> Z;
  fl_died : string -> option Z;
  fl_listing : egress_answer -> Z;   (** when the control plane listed the streams *)
}.

(** What the gateway documents of the answers to a run of reads. *)
Class FleetContract (f : fleet) (namespace : string) (answers : list egress_answer) : Prop := {
  (** An answer describes a moment between its request and its arrival. *)
  listing_within answer : answer ∈ answers ->
    ea_startedAt answer <= fl_listing f answer <= ea_seenAt answer;
  (** A listed process had started, and the stream of a dead one is dropped when
      the keepalive fails. *)
  listed_live answer reading id : answer ∈ answers ->
    readBackendEgressPolicy (ea_value answer) namespace = Some reading ->
    id ∈ listed_nodes (br_policy reading) ->
    fl_started f id <= fl_listing f answer /\
    (forall died, fl_died f id = Some died -> fl_listing f answer < died + DATA_PLANE_SETTLE_MS);
  (** A stream is stamped when it connects, by a clock at most the tolerated
      difference behind the wall clock of Nexus. *)
  stamped_within answer reading attestation entry t : answer ∈ answers ->
    readBackendEgressPolicy (ea_value answer) namespace = Some reading ->
    be_data_plane_attestation (br_policy reading) = Some attestation ->
    entry ∈ data_planes attestation -> rfc3339Millis (de_connected_at entry) = Some t ->
    fl_started f (de_node_id entry) + (ea_readAt answer - ea_startedAt answer) <= t + CLOCK_SKEW_ALLOWANCE_MS;
  (** One process at a time serves a data plane. *)
  slot_successive p q : fl_slot f p = fl_slot f q -> p <> q ->
    (exists died, fl_died f p = Some died /\ died <= fl_started f q) \/
    (exists died, fl_died f q = Some died /\ died <= fl_started f p);
}.

(** The memory after the answers read so far. *)
Definition after_reads (namespace : string) (answers : list egress_answer) : sightings :=
  fold_left (fun m answer => (readEgressPolicy namespace answer m).2) answers [].

Section Fleet.
Context (f : fleet) (namespace : string) (answers : list egress_answer).
Context `{!FleetContract f namespace answers}.

(** A time the process had started by. *)
Definition started_by (id : string) (t : Z) : Prop := fl_started f id <= t.

Lemma read_sightings (answer : egress_answer) (m : sightings) :
  answer ∈ answers -> began_at started_by m ->
  began_at started_by (readEgressPolicy namespace answer m).2 /\
  forall reading freshness, (readEgressPolicy namespace answer m).1 = Ok (reading, freshness) ->
    readBackendEgressPolicy (ea_value answer) namespace = Some reading /\
    readAt freshness = Some (ea_readAt answer) /\
    exists ids, settledNodeIds freshness = Some ids /\
      forall id, id ∈ ids -> DATA_PLANE_SETTLE_MS <= ea_startedAt answer - fl_started f id.
Proof.
  intros Hin Hm. unfold readEgressPolicy. destruct (isUnsupportedEgressPolicySchema _); [by split|].
  destruct (readBackendEgressPolicy (ea_value answer) namespace) as [reading|] eqn:Hread; [|by split].
  destruct (is_defined (br_attestationProblem reading)); simpl.
  - split; [done|]. intros r fr [= <- <-]. split_and!; [done|done|]. exists [].
    split; [done|]. by intros id ?%elem_of_nil.
  - destruct (observe_settled started_by (br_policy reading) (ea_startedAt answer) (ea_seenAt answer) m Hm)
      as [Hm' Hset].
    { intros id Hid. pose proof (listed_live answer reading id Hin Hread Hid) as [Hs _].
      pose proof (listing_within answer Hin). unfold started_by. lia. }
    destruct (observe _ _ _ m) as [settled m']. simpl in *. split; [done|].
    intros r fr [= <- <-]. split_and!; [done|done|]. exists settled. split; [done|].
    intros id Hid. destruct (Hset id Hid) as (first & Hfirst & Hold). unfold started_by in Hfirst. lia.
Qed.

Lemma after_reads_began (past : list egress_answer) :
  past ⊆ answers -> began_at started_by (after_reads namespace past).
Proof.
  intros Hpast. unfold after_reads.
  assert (Hnil : began_at started_by []) by (by intros id s ?%elem_of_nil).
  revert Hnil. generalize (@nil (string * sighting)) as m.
  induction past as [|a past IH]; intros m Hm; [done|]. cbn [fold_left]. apply IH; [set_solver|].
  apply read_sightings; [set_solver|done].
Qed.

Lemma listed_nodes_in (policy : BackendEgressPolicy) (attestation : DataPlaneEgressAttestation)
    (entry : DataPlaneEgressEntry) :
  be_enforcement_scope policy = AdmissionOnly ->
  be_data_plane_attestation policy = Some attestation -> entry ∈ data_planes attestation ->
  de_node_id entry ∈ listed_nodes policy.
Proof.
  intros Hs Ha Hin. unfold listed_nodes. rewrite Hs, Ha. unfold distinct.
  rewrite elem_of_reverse, elem_of_remove_dups, elem_of_reverse.
  apply list_elem_of_In, in_map, list_elem_of_In. done.
Qed.

(** A process that counts started long before the request. *)
Lemma counts_old (past : list egress_answer) (answer : egress_answer) reading freshness attestation
    (now : Z) (id : string) :
  past ⊆ answers -> answer ∈ answers ->
  (readEgressPolicy namespace answer (after_reads namespace past)).1 = Ok (reading, freshness) ->
  be_data_plane_attestation (br_policy reading) = Some attestation ->
  counts freshness now (data_planes attestation) id ->
  DATA_PLANE_SETTLE_MS <= ea_startedAt answer - fl_started f id.
Proof.
  intros Hpast Hin Hread Hatt Hcounts.
  destruct (read_sightings answer (after_reads namespace past) Hin (after_reads_began past Hpast)) as [_ Hr].
  destruct (Hr _ _ Hread) as (Hvalue & Hat & ids & Hids & Hold).
  destruct Hcounts as [(ids' & Hids' & Hid)|(entry & t & He & <- & Ht & Hclocks)].
  - rewrite Hids in Hids'. injection Hids' as <-. by apply Hold.
  - pose proof (stamped_within answer reading attestation entry t Hin Hvalue Hatt He Ht) as Hstamp.
    assert (Hage : SETTLED_AGE_MS <= ea_readAt answer - t).
    { apply Hclocks. unfold clocks_of. rewrite Hat. left. }
    unfold SETTLED_AGE_MS, DATA_PLANE_SETTLE_MS, CLOCK_SKEW_ALLOWANCE_MS in *. lia.
Qed.

Lemma counted_slots (past : list egress_answer) (answer : egress_answer) reading freshness attestation
    (now : Z) (counted : list string) :
  past ⊆ answers -> answer ∈ answers ->
  (readEgressPolicy namespace answer (after_reads namespace past)).1 = Ok (reading, freshness) ->
  be_enforcement_scope (br_policy reading) = AdmissionOnly ->
  be_data_plane_attestation (br_policy reading) = Some attestation ->
  NoDup counted ->
  (forall id, id ∈ counted ->
     (exists entry, entry ∈ data_planes attestation /\ de_node_id entry = id) /\
     counts freshness now (data_planes attestation) id) ->
  NoDup (fl_slot f <$> counted).
Proof.
  intros Hpast Hin Hread Hscope Hatt Hnd Hcounted.
  assert (Hvalue : readBackendEgressPolicy (ea_value answer) namespace = Some reading).
  { destruct (read_sightings answer (after_reads namespace past) Hin (after_reads_began past Hpast)) as [_ Hr].
    by destruct (Hr _ _ Hread) as (? & _). }
  apply NoDup_fmap_2_strong; [|done]. intros p q Hp Hq Hslot. destruct (decide (p = q)) as [|Hne]; [done|].
  assert (Hgone : forall x y died, x ∈ counted -> y ∈ counted -> fl_died f x = Some died ->
    died <= fl_started f y -> False).
  { intros x y died Hx Hy Hd Hle.
    destruct (Hcounted x Hx) as [(entry & He & <-) _]. destruct (Hcounted y Hy) as [_ Hcounts].
    pose proof (counts_old past answer reading freshness attestation now y Hpast Hin Hread Hatt Hcounts).
    pose proof (listing_within answer Hin).
    destruct (listed_live answer reading (de_node_id entry) Hin Hvalue) as [_ Hlive];
      [by eapply listed_nodes_in|]. specialize (Hlive died Hd). lia. }
  destruct (slot_successive p q Hslot Hne) as [(died & Hd & Hle)|(died & Hd & Hle)];
    [destruct (Hgone p q died Hp Hq Hd Hle)|destruct (Hgone q p died Hq Hp Hd Hle)].
Qed.
End Fleet.


(** ** A fleet of two data planes

    [old] died unnoticed and was replaced by [new]; [other] ran all along. *)

Definition sample_report : DataPlaneEgressPolicy :=
  {| dp_mode := ModePublic; dp_mode_allowed_ip_classes := [PublicClass];
     dp_mode_blocked_ip_classes := [PrivateReserved]; dp_dangerous_ranges_blocked := true;
     dp_allow_cidr_overrides_present := false; dp_deny_cidr_overrides_present := false;
     dp_public_only_guaranteed := true |}.

Definition sample_stream (nodeId connectedAt : string) : DataPlaneEgressEntry :=
  {| de_node_id := nodeId; de_connected_at := connectedAt; de_policy := Some sample_report |}.

Definition sample_control_plane (streams : list DataPlaneEgressEntry) : BackendEgressPolicy :=
  {| be_namespace := "nexus"; be_enforcement_scope := AdmissionOnly; be_mode := ModePublic;
     be_mode_allowed_ip_classes := [PublicClass]; be_mode_blocked_ip_classes := [PrivateReserved];
     be_dangerous_ranges_blocked := true; be_allow_cidr_overrides_present := false;
     be_deny_cidr_overrides_present := false; be_public_only_guaranteed := false;
     be_data_plane_attestation := Some
       {| connected_data_planes := Z.of_nat (length streams);
          reporting_data_planes := Z.of_nat (length streams); unknown_data_planes := 0;
          weakest_policy := Some sample_report; weakest_policy_complete := true;
          all_connected_public_only_guaranteed := true; data_planes := streams |} |}.

Definition sample_fleet : fleet :=
  {| fl_slot := fun id => if decide (id = "old"%string) then "new"%string else id;
     fl_started := fun id => if decide (id = "new"%string) then 11000 else 0;
     fl_died := fun id => if decide (id = "old"%string) then Some 10000 else None;
     fl_listing := fun answer => ea_startedAt answer + 20 |}.

(** Read while the stale stream of [old] is listed beside its replacement. *)
Definition sample_before_drop : BackendEgressPolicy :=
  sample_control_plane [sample_stream "old" "2026-07-04T07:26:40Z";
                        sample_stream "new" "2026-07-04T07:26:51Z";
                        sample_stream "other" "2026-07-04T07:26:40Z"].

Definition sample_after_drop : BackendEgressPolicy :=
  sample_control_plane [sample_stream "new" "2026-07-04T07:26:51Z";
                        sample_stream "other" "2026-07-04T07:26:40Z"].

Definition sample_early : egress_answer := answer_at 12000 sample_before_drop.
Definition sample_late : egress_answer := answer_at 75000 sample_after_drop.

Lemma sample_early_read : readBackendEgressPolicy (ea_value sample_early) "nexus" =
  Some {| br_policy := sample_before_drop; br_attestationProblem := None |}.
Proof. vm_compute. reflexivity. Qed.

Lemma sample_late_read : readBackendEgressPolicy (ea_value sample_late) "nexus" =
  Some {| br_policy := sample_after_drop; br_attestationProblem := None |}.
Proof. vm_compute. reflexivity. Qed.

(** Three streams are listed of two data planes, and only two processes could
    ever be counted: the early answer gives no guarantee. *)
Example sample_early_verdict :
  (assertBackendEgress "nexus" (no_opt_outs (Some (Fin 2))) sample_early []).1 =
  Throw (BackendEgressUnverified DataPlaneRecentlyConnected).
Proof. vm_compute. reflexivity. Qed.

Lemma sample_fleet_contract : FleetContract sample_fleet "nexus" ([sample_early] ++ [sample_late]).
Proof.
  split.
  - intros answer [-> | ->%list_elem_of_singleton]%elem_of_cons; vm_compute; split; discriminate.
  - intros answer reading id [-> | ->%list_elem_of_singleton]%elem_of_cons;
      rewrite ?sample_early_read, ?sample_late_read; intros [= <-] Hid; split.
    all: try (intros died Hdied; simpl in Hdied; case_decide as Hold; [injection Hdied as <-|done]; subst id).
    all: try (by apply (bool_decide_unpack _); vm_compute).
    all: try (cbn -[DATA_PLANE_SETTLE_MS]; case_decide; lia).
    exfalso. revert Hid. apply (bool_decide_unpack _). vm_compute. exact I.
  - intros answer reading attestation entry t [-> | ->%list_elem_of_singleton]%elem_of_cons;
      rewrite ?sample_early_read, ?sample_late_read; intros [= <-] [= <-] Hentry Ht;
      repeat (apply elem_of_cons in Hentry as [->|Hentry]; [vm_compute in Ht; injection Ht as <-;
        vm_compute; discriminate|]); by apply elem_of_nil in Hentry.
  - intros p q Hslot Hne. simpl in *. repeat case_decide; subst; try done; [left|right]; by exists 10000.
Qed.

