(* ===== verification/Outbox.v ===== *)
(** * The outbox table

    The [email_outbox] repository of the SQLite adapter
    ([server/src/db/adapters/sqlite/index.ts]): every statement as a function of
    the table, with the current time ([nowIso()]) and the fresh identifiers
    ([newId()]) it draws as arguments. *)

From S2P Require Import Prelude Json Roles ClaimQueue Users.
Open Scope Z_scope.

Inductive EmailOutboxStatus : Type := OPending | OSending | OSent | OFailed.

#[export] Instance EmailOutboxStatus_eq_dec : EqDecision EmailOutboxStatus.
Proof. solve_decision. Defined.

Definition OUTBOX_SEALED_SUBJECT : string := "nexus:sealed:v1".

(** [OUTBOX_PRIORITY]: larger values are claimed first. *)
Definition OUTBOX_PRIORITY_low : Z := 0.
Definition OUTBOX_PRIORITY_normal : Z := 1.
Definition OUTBOX_PRIORITY_high : Z := 2.

Record EmailOutboxRecord : Type := {
  o_priority : Z;
  o_id : string;
  o_generation : string;
  o_to_email : string;
  o_recipient_user_id : option string;
  o_subject : string;
  o_body_html : string;
  o_body_text : string;
  o_status : EmailOutboxStatus;
  o_attempts : Z;
  o_next_attempt_at : option Z;
  o_last_error : option string;
  o_idempotency_key : option string;
  o_created_at : Z;
  o_updated_at : Z;
}.

#[export] Instance EmailOutboxRecord_eq_dec : EqDecision EmailOutboxRecord.
Proof. solve_decision. Defined.

(** [email_outbox], by its primary key [id]. *)
Abbreviation outbox_table := (gmap string EmailOutboxRecord).

(** The columns a status write touches. *)
Definition o_write (status : EmailOutboxStatus) (next : option Z) (error : option string)
    (at_ : Z) (attempts : Z) (generation : string) (r : EmailOutboxRecord)
    : EmailOutboxRecord := {|
  o_priority := o_priority r; o_id := o_id r; o_generation := generation;
  o_to_email := o_to_email r; o_recipient_user_id := o_recipient_user_id r;
  o_subject := o_subject r; o_body_html := o_body_html r; o_body_text := o_body_text r;
  o_status := status; o_attempts := attempts; o_next_attempt_at := next;
  o_last_error := error; o_idempotency_key := o_idempotency_key r;
  o_created_at := o_created_at r; o_updated_at := at_;
|}.

Section Statements.

(** *** Address release *)

Definition address_is (address : string) (r : EmailOutboxRecord) : bool :=
  bool_decide (toLowerCase (o_to_email r) = address).

Definition is_status (s : EmailOutboxStatus) (r : EmailOutboxRecord) : bool :=
  bool_decide (o_status r = s).

Definition cancelForReleasedAddress (email generation : string) (now : Z) (t : outbox_table)
    : res exn (outbox_table * Z) :=
  let address := toLowerCase (trim email) in
  if bool_decide (filter (fun '(_, r) => (address_is address r && is_status OSending r)%bool = true) t = ∅)
  then Ok (update_where (fun r => address_is address r && is_status OPending r)
             (fun r => o_write OFailed None (Some "address-released") now (o_attempts r) generation r) t)
  else Throw (conflict "Email delivery is in progress; retry after it settles" []).

(** *** Lookups *)

Definition outbox_findById (id : string) (t : outbox_table) : option EmailOutboxRecord := t !! id.

(** The unique index makes the first row the only one. *)
Definition findByIdempotencyKey (key : string) (t : outbox_table) : option EmailOutboxRecord :=
  snd <$> head (filter (fun '(_, r) => o_idempotency_key r = Some key) (map_to_list t)).

(** *** Enqueue *)

Record EnqueueEmailInput : Type := {
  e_id : option string;
  e_to_email : string;
  e_priority : option Z;
  e_recipient_user_id : option string;
  e_subject : string;
  e_body_html : string;
  e_body_text : string;
  e_next_attempt_at : option Z;
  e_idempotency_key : option string;
}.

(** A recipient id is looked at by truthiness: the empty string is none. *)
Definition truthy_id (id : option string) : option string :=
  match id with Some s => if decide (s = "") then None else Some s | None => None end.

Definition lock_recipient (recipient : option string) (email fence : string) (users : user_table)
    : user_table * bool :=
  match truthy_id recipient with
  | None => (users, true)
  | Some uid => lockEmailRecipient uid email fence users
  end.

Definition enqueued_row (input : EnqueueEmailInput) (id : string) (eligible : bool) (now : Z)
    : EmailOutboxRecord := {|
  o_priority := default OUTBOX_PRIORITY_normal (e_priority input);
  o_id := id;
  o_generation := "";
  o_to_email := e_to_email input;
  o_recipient_user_id := e_recipient_user_id input;
  o_subject := e_subject input;
  o_body_html := e_body_html input;
  o_body_text := e_body_text input;
  o_status := if eligible then OPending else OFailed;
  o_attempts := 0;
  o_next_attempt_at := if eligible then Some (default now (e_next_attempt_at input)) else None;
  o_last_error := if eligible then None else Some "recipient-address-changed"%string;
  o_idempotency_key := e_idempotency_key input;
  o_created_at := now;
  o_updated_at := now;
|}.

(** One transaction: the lookup by key, the write that locks the recipient, and
    the insert. Inside it nobody else can take the key, so the insert fails only
    on the row id. *)
Definition enqueue (input : EnqueueEmailInput) (fence fresh : string) (now : Z)
    (users : user_table) (t : outbox_table)
    : res exn (user_table * outbox_table * (EmailOutboxRecord * bool)) :=
  match e_idempotency_key input ≫= (fun key => findByIdempotencyKey key t) with
  | Some existing => Ok (users, t, (existing, false))
  | None =>
      let '(users', eligible) :=
        lock_recipient (e_recipient_user_id input) (e_to_email input) fence users in
      let id := default fresh (e_id input) in
      match t !! id with
      | Some _ => Throw (driverError "UNIQUE constraint failed: email_outbox.id")
      | None =>
          let row := enqueued_row input id eligible now in
          Ok (users', <[id := row]> t, (row, true))
      end
  end.

(** *** Claims *)

Definition due (now : Z) (r : EmailOutboxRecord) : bool :=
  is_status OPending r &&
  match o_next_attempt_at r with None => true | Some at_ => bool_decide (at_ <= now) end.

(** [ORDER BY priority DESC, next_attempt_at ASC, created_at ASC, id ASC]. *)
Definition claim_order (a b : EmailOutboxRecord) : bool :=
  leb_of (then_by (Z.compare (o_priority b) (o_priority a))
         (then_by (compare_null_first (o_next_attempt_at a) (o_next_attempt_at b))
         (then_by (Z.compare (o_created_at a) (o_created_at b))
                  (String.compare (o_id a) (o_id b))))).

Definition claim_candidates (now limit : Z) (t : outbox_table) : list EmailOutboxRecord :=
  take (sql_limit limit)
    (sort_by claim_order (rows_where (due now) t)).

(** One candidate of [claimDue]: lock the recipient, flip the row. *)
Definition claim_one (entry : EmailOutboxRecord) (fence generation : string) (now : Z)
    (users : user_table) (t : outbox_table)
    : user_table * outbox_table * option EmailOutboxRecord :=
  let '(users', eligible) :=
    lock_recipient (o_recipient_user_id entry) (o_to_email entry) fence users in
  match t !! o_id entry with
  | Some r =>
      if is_status OPending r then
        let row := if eligible
                   then o_write OSending (o_next_attempt_at entry) (o_last_error entry) now
                          (o_attempts r + 1) generation r
                   else o_write OFailed None (Some "recipient-address-changed") now
                          (o_attempts r + 1) generation r in
        (users', <[o_id entry := row]> t, if eligible then Some row else None)
      else (users', t, if eligible then Some r else None)
  | None => (users', t, None)
  end.

(** The candidates in order; [fresh] numbers the identifiers [newId()] gives. *)
Fixpoint claim_all (entries : list EmailOutboxRecord) (n : nat) (fresh : nat -> string) (now : Z)
    (users : user_table) (t : outbox_table)
    : user_table * outbox_table * list EmailOutboxRecord :=
  match entries with
  | [] => (users, t, [])
  | entry :: rest =>
      let '(users1, t1, claimed) := claim_one entry (fresh n) (fresh (S n)) now users t in
      let '(users2, t2, more) := claim_all rest (S (S n)) fresh now users1 t1 in
      (users2, t2, option_list claimed ++ more)
  end.

Definition outbox_claimDue (now limit : Z) (fresh : nat -> string) (stamp : Z)
    (users : user_table) (t : outbox_table)
    : user_table * outbox_table * list EmailOutboxRecord :=
  claim_all (claim_candidates now limit t) 0 fresh stamp users t.

(** *** Settling writes

    Each matches on [id], [generation] and [status = 'sending']. *)

Definition owned_by (entry r : EmailOutboxRecord) : bool :=
  bool_decide (o_generation r = o_generation entry) && is_status OSending r.

Definition settle_claimed (entry : EmailOutboxRecord) (f : EmailOutboxRecord -> EmailOutboxRecord)
    (t : outbox_table) : outbox_table * bool :=
  match t !! o_id entry with
  | Some r => if owned_by entry r then (<[o_id entry := f r]> t, true) else (t, false)
  | None => (t, false)
  end.

Definition beginDelivery (entry : EmailOutboxRecord) (at_ : Z) : outbox_table -> outbox_table * bool :=
  settle_claimed entry (fun r => o_write OSending (o_next_attempt_at r) (o_last_error r) at_
                           (o_attempts r) (o_generation r) r).

Definition markSent (entry : EmailOutboxRecord) (at_ : Z) : outbox_table -> outbox_table * bool :=
  settle_claimed entry (fun r => o_write OSent None None at_ (o_attempts r) (o_generation r) r).

Definition reschedule (entry : EmailOutboxRecord) (nextAttemptAt : Z) (lastError : string) (now : Z)
    : outbox_table -> outbox_table * bool :=
  settle_claimed entry (fun r => o_write OPending (Some nextAttemptAt) (Some lastError) now
                           (o_attempts r) (o_generation r) r).

Definition markFailed (entry : EmailOutboxRecord) (lastError : string) (now : Z)
    : outbox_table -> outbox_table * bool :=
  settle_claimed entry (fun r => o_write OFailed None (Some lastError) now
                           (o_attempts r) (o_generation r) r).

Definition releaseStale (olderThan now : Z) (t : outbox_table) : outbox_table * Z :=
  update_where (fun r => is_status OSending r && bool_decide (o_updated_at r <= olderThan))
    (fun r => o_write OPending (Some now) (o_last_error r) now (o_attempts r) (o_generation r) r) t.

(** *** Pages *)

Record EmailOutboxFilter : Type := {
  f_status : option EmailOutboxStatus;
  f_to_email : option string;
  f_idempotency_key_prefix : option string;
  f_sealed : option bool;
}.

Definition outbox_matches (filter : EmailOutboxFilter) (r : EmailOutboxRecord) : bool :=
  asked (f_status filter) (fun s => is_status s r)
  && asked (f_to_email filter)
       (fun email => bool_decide (toLowerCase (o_to_email r) = toLowerCase email))
  && asked (f_idempotency_key_prefix filter)
       (fun prefix => match o_idempotency_key r with Some k => startsWith prefix k | None => false end)
  && asked (f_sealed filter)
       (fun sealed => if sealed : bool then bool_decide (o_subject r = OUTBOX_SEALED_SUBJECT)
                      else bool_decide (o_subject r <> OUTBOX_SEALED_SUBJECT)).

(** [ORDER BY created_at DESC, id DESC]. *)
Definition newest_entry_first (a b : EmailOutboxRecord) : bool :=
  leb_of (then_by (Z.compare (o_created_at b) (o_created_at a)) (String.compare (o_id b) (o_id a))).

Definition outbox_list (filter : EmailOutboxFilter) (limit offset : option jsnum) (t : outbox_table)
    : list EmailOutboxRecord * Z :=
  let rows := sort_by newest_entry_first (rows_where (outbox_matches filter) t) in
  (take (Z.to_nat (clampPageSize limit)) (drop (Z.to_nat (page_offset offset)) rows),
   Z.of_nat (length rows)).

(** *** The legacy sweep *)

Definition set_content (subject html text : string) (r : EmailOutboxRecord) : EmailOutboxRecord := {|
  o_priority := o_priority r; o_id := o_id r; o_generation := o_generation r;
  o_to_email := o_to_email r; o_recipient_user_id := o_recipient_user_id r;
  o_subject := subject; o_body_html := html; o_body_text := text;
  o_status := o_status r; o_attempts := o_attempts r;
  o_next_attempt_at := o_next_attempt_at r; o_last_error := o_last_error r;
  o_idempotency_key := o_idempotency_key r; o_created_at := o_created_at r;
  o_updated_at := o_updated_at r;
|}.

Definition sealContent (id html text : string) (t : outbox_table) : outbox_table * bool :=
  match t !! id with
  | Some r => if decide (o_subject r = OUTBOX_SEALED_SUBJECT) then (t, false)
              else (<[id := set_content OUTBOX_SEALED_SUBJECT html text r]> t, true)
  | None => (t, false)
  end.
End Statements.

#[export] Instance outbox_claims : ClaimRow EmailOutboxRecord := {|
  cr_generation := o_generation;
  cr_sending := is_status OSending;
|}.

(** ** Every instance against one table

    The statements of all the workers and services that share the database, one
    at a time. [used] collects the generations the rows ever carried; [newId()]
    is a random UUID, so a claim never draws one of them. *)

Inductive outbox_op : Type :=
| OpEnqueue (input : EnqueueEmailInput) (fence fresh : string) (now : Z)
| OpCancelReleased (email generation : string) (now : Z)
| OpClaimDue (now limit : Z) (fresh : nat -> string) (stamp : Z)
| OpBeginDelivery (entry : EmailOutboxRecord) (at_ : Z)
| OpMarkSent (entry : EmailOutboxRecord) (at_ : Z)
| OpReschedule (entry : EmailOutboxRecord) (nextAttemptAt : Z) (lastError : string) (now : Z)
| OpMarkFailed (entry : EmailOutboxRecord) (lastError : string) (now : Z)
| OpReleaseStale (olderThan now : Z)
| OpSealContent (id html text : string).

(** What the statement leaves; one that throws leaves the tables alone. *)
Definition outbox_exec (op : outbox_op) (s : user_table * outbox_table)
    : user_table * outbox_table :=
  let '(users, t) := s in
  match op with
  | OpEnqueue input fence fresh now =>
      match enqueue input fence fresh now users t with
      | Ok (users', t', _) => (users', t')
      | Throw _ => (users, t)
      end
  | OpCancelReleased email generation now =>
      match cancelForReleasedAddress email generation now t with
      | Ok (t', _) => (users, t')
      | Throw _ => (users, t)
      end
  | OpClaimDue now limit fresh stamp =>
      let '(users', t', _) := outbox_claimDue now limit fresh stamp users t in (users', t')
  | OpBeginDelivery entry at_ => (users, (beginDelivery entry at_ t).1)
  | OpMarkSent entry at_ => (users, (markSent entry at_ t).1)
  | OpReschedule entry next error now => (users, (reschedule entry next error now t).1)
  | OpMarkFailed entry error now => (users, (markFailed entry error now t).1)
  | OpReleaseStale olderThan now => (users, (releaseStale olderThan now t).1)
  | OpSealContent id html text => (users, (sealContent id html text t).1)
  end.

Definition generations (t : outbox_table) : gset string :=
  list_to_set (map (fun '(_, r) => o_generation r) (map_to_list t)).

Record outbox_world : Type := {
  ow_users : user_table;
  ow_table : outbox_table;
  ow_used : gset string;
}.

Definition draws_fresh (op : outbox_op) (used : gset string) : Prop :=
  match op with OpClaimDue _ _ fresh _ => forall n, fresh n ∉ used | _ => True end.

Inductive outbox_step : outbox_world -> outbox_world -> Prop :=
| outbox_step_intro op users t users' t' used :
    draws_fresh op used ->
    outbox_exec op (users, t) = (users', t') ->
    outbox_step {| ow_users := users; ow_table := t; ow_used := used |}
                {| ow_users := users'; ow_table := t'; ow_used := used ∪ generations t' |}.

(** A row keeps its primary key. *)
Definition outbox_wf (t : outbox_table) : Prop := map_Forall (fun id r => o_id r = id) t.

#[export] Instance outbox_wf_dec t : Decision (outbox_wf t).
Proof. unfold outbox_wf. apply _. Defined.

(** The statuses a row never leaves. *)
Definition settled (r : EmailOutboxRecord) : bool :=
  is_status OSent r || is_status OFailed r.

(** *** Sample tables, for the witnesses *)

Definition sample_mail : EmailOutboxRecord := {|
  o_priority := OUTBOX_PRIORITY_normal; o_id := "m1"; o_generation := "";
  o_to_email := "a@example.com"; o_recipient_user_id := None; o_subject := "Hello";
  o_body_html := "<p>hi</p>"; o_body_text := "hi"; o_status := OPending; o_attempts := 0;
  o_next_attempt_at := Some 10; o_last_error := None; o_idempotency_key := None;
  o_created_at := 10; o_updated_at := 10;
|}.

Definition sample_outbox : outbox_table := {["m1" := sample_mail]}.

(** The row as the first worker claimed it, at time 20. *)
Definition sample_claim : EmailOutboxRecord :=
  o_write OSending (Some 10) None 20 1 "g1" sample_mail.

Definition sample_world : outbox_world :=
  {| ow_users := ∅; ow_table := {["m1" := sample_claim]}; ow_used := {["g1"]} |}.

(** ** Lemmas *)

Lemma settle_spec entry f t t' b :
  settle_claimed entry f t = (t', b) ->
  (b = false /\ t' = t)
  \/ (b = true /\ exists r, t !! o_id entry = Some r /\ owned_by entry r = true
                          /\ t' = <[o_id entry := f r]> t).
Proof.
  unfold settle_claimed. intros H. destruct (t !! o_id entry) as [r|]; [|naive_solver].
  destruct (owned_by entry r) eqn:Ho; simplify_eq; [right|left]; eauto.
Qed.

(** A settling write lands exactly when its claim is held. *)
Lemma settle_iff_held entry f t :
  (settle_claimed entry f t).2 = claim_held (o_id entry) (o_generation entry) t.
Proof.
  unfold settle_claimed, claim_held. destruct (t !! o_id entry) as [r|]; [|done].
  unfold owned_by. simpl. by destruct (_ && _)%bool.
Qed.

Lemma settle_refused entry f t :
  claim_held (o_id entry) (o_generation entry) t = false -> settle_claimed entry f t = (t, false).
Proof.
  intros Hh. destruct (settle_claimed entry f t) as [t' b] eqn:Hs.
  pose proof (settle_iff_held entry f t) as Hb. rewrite Hs in Hb. simpl in Hb.
  apply settle_spec in Hs as [[-> ->]|(-> & _)]; congruence.
Qed.

(** What one candidate of a claim does to the table: at most its own row
    changes, from [pending] to a row with the drawn generation. *)
Lemma claim_one_spec entry fence generation now users t users' t' c :
  claim_one entry fence generation now users t = (users', t', c) ->
  (t' = t \/
   exists r, t !! o_id entry = Some r /\ is_status OPending r = true /\
     ((c = None /\ t' = <[o_id entry := o_write OFailed None (Some "recipient-address-changed"%string)
                            now (o_attempts r + 1) generation r]> t)
      \/ exists next error,
           t' = <[o_id entry := o_write OSending next error now (o_attempts r + 1) generation r]> t
           /\ c = Some (o_write OSending next error now (o_attempts r + 1) generation r))).
Proof.
  unfold claim_one. intros H.
  destruct (lock_recipient _ _ _ _) as [users1 eligible].
  destruct (t !! o_id entry) as [r|] eqn:Hr; [|simplify_eq; by left].
  destruct (is_status OPending r) eqn:Hp; [|simplify_eq; by left].
  right. exists r. split_and!; [done..|]. destruct eligible; simplify_eq.
  - right. eauto.
  - left. eauto.
Qed.

(** How one row may change: it keeps its id, a settled row keeps its status, and
    a row that is [sending] afterwards either was under the same generation or
    drew a new one. *)
Definition row_change (drawn : string -> Prop) (r r' : EmailOutboxRecord) : Prop :=
  o_id r' = o_id r
  /\ (settled r = true -> o_status r' = o_status r)
  /\ (is_status OSending r' = true ->
        (is_status OSending r = true /\ o_generation r' = o_generation r)
        \/ drawn (o_generation r')).

(** How a table may change: no row disappears, and a new row has its key as
    its id. *)
Definition table_change (drawn : string -> Prop) (t t' : outbox_table) : Prop :=
  forall id, match t !! id, t' !! id with
             | Some r, Some r' => row_change drawn r r'
             | None, Some r' =>
                 o_id r' = id /\ (is_status OSending r' = true -> drawn (o_generation r'))
             | None, None => True
             | Some _, None => False
             end.

Lemma row_change_refl drawn r : row_change drawn r r.
Proof. split_and!; auto. Qed.

Lemma row_change_settled r r' : o_status r' = o_status r -> settled r' = settled r.
Proof. unfold settled, is_status. by intros ->. Qed.

Lemma row_change_trans drawn r1 r2 r3 :
  row_change drawn r1 r2 -> row_change drawn r2 r3 -> row_change drawn r1 r3.
Proof.
  intros (Hid1 & Hs1 & Hg1) (Hid2 & Hs2 & Hg2). split_and!; [congruence| |].
  - intros Hset. pose proof (Hs1 Hset) as He.
    rewrite Hs2; [done|]. by rewrite (row_change_settled _ _ He).
  - intros Hs. destruct (Hg2 Hs) as [[Hs' Hg']|Hd]; [|by right].
    destruct (Hg1 Hs') as [[? ?]|Hd]; [left; split; [done|congruence]|right; congruence].
Qed.

Lemma table_change_refl drawn t : table_change drawn t t.
Proof.
  intros id. destruct (t !! id); [apply row_change_refl|done].
Qed.

Lemma table_change_trans drawn t1 t2 t3 :
  table_change drawn t1 t2 -> table_change drawn t2 t3 -> table_change drawn t1 t3.
Proof.
  intros H1 H2 id. specialize (H1 id). specialize (H2 id).
  destruct (t1 !! id) as [r1|], (t2 !! id) as [r2|], (t3 !! id) as [r3|]; try done.
  - eauto using row_change_trans.
  - destruct H1 as [Hid Hs], H2 as (Hid' & _ & Hg). split; [congruence|].
    intros Hs'. destruct (Hg Hs') as [[Hs2 Hg2]|Hd]; [|done]. rewrite Hg2. auto.
Qed.

(** A write to one existing row. *)
Lemma table_change_insert drawn t id r r' :
  t !! id = Some r -> row_change drawn r r' -> table_change drawn t (<[id := r']> t).
Proof.
  intros Hr Hc id'. rewrite lookup_insert. case_decide as Hid; [subst id'; by rewrite Hr|].
  apply table_change_refl.
Qed.

(** A write that touches neither the id nor the claim of a row. *)
Lemma o_write_change drawn status next error at_ attempts generation r :
  settled r = false ->
  (status = OSending ->
     is_status OSending r = true /\ generation = o_generation r \/ drawn generation) ->
  row_change drawn r (o_write status next error at_ attempts generation r).
Proof.
  intros Hns Hs. split_and!; [done|congruence|]. intros Hsend.
  unfold is_status in Hsend. simpl in *. bool_to_prop. naive_solver.
Qed.

Lemma pending_not_settled r : is_status OPending r = true -> settled r = false.
Proof. unfold settled, is_status. intros H. bool_to_prop. by rewrite H. Qed.

Lemma sending_not_settled r : is_status OSending r = true -> settled r = false.
Proof. unfold settled, is_status. intros H. bool_to_prop. by rewrite H. Qed.

#[local] Hint Resolve pending_not_settled sending_not_settled : nexus.

Lemma claim_one_change entry fence generation now users t users' t' c :
  claim_one entry fence generation now users t = (users', t', c) ->
  table_change (eq generation) t t'.
Proof.
  intros H. apply claim_one_spec in H as [->|(r & Hr & Hp & Hc)]; [apply table_change_refl|].
  destruct Hc as [[_ ->]|(next & error & -> & _)];
    (eapply table_change_insert; [done|]; apply o_write_change; auto with nexus; done).
Qed.

Lemma table_change_weaken (drawn drawn' : string -> Prop) t t' :
  (forall g, drawn g -> drawn' g) -> table_change drawn t t' -> table_change drawn' t t'.
Proof.
  intros Hd Hc id. specialize (Hc id). unfold row_change in *.
  destruct (t !! id), (t' !! id); [|done| |done].
  - destruct Hc as (Hid & Hs & Hg). split_and!; [done..|].
    intros Hsend. destruct (Hg Hsend); auto.
  - destruct Hc as [Hid Hg]. split; auto.
Qed.

Lemma claim_all_change entries n fresh now users t users' t' cs :
  claim_all entries n fresh now users t = (users', t', cs) ->
  table_change (fun g => exists k, g = fresh k) t t'.
Proof.
  revert n users t users' t' cs.
  induction entries as [|e es IH]; intros n users t users' t' cs H; simpl in H.
  { simplify_eq. apply table_change_refl. }
  destruct (claim_one e _ _ now users t) as [[users1 t1] c] eqn:H1.
  destruct (claim_all es _ fresh now users1 t1) as [[users2 t2] cs'] eqn:H2. simplify_eq.
  eapply table_change_trans; [|by eapply IH].
  eapply table_change_weaken; [|by eapply claim_one_change]. naive_solver.
Qed.

(** A settling write changes its own row only. *)
Lemma settle_change drawn entry status next error at_ t :
  table_change drawn t
    (settle_claimed entry (fun r => o_write status (next r) (error r) at_ (o_attempts r) (o_generation r) r) t).1.
Proof.
  destruct (settle_claimed entry _ t) as [t' b] eqn:Hs; simpl.
  apply settle_spec in Hs as [[_ ->]|(_ & r & Hr & Ho & ->)]; [apply table_change_refl|].
  unfold owned_by in Ho. bool_to_prop.
  eapply table_change_insert; [done|]. apply o_write_change; auto with nexus.
Qed.

Lemma update_where_change drawn p f (t t' : outbox_table) n :
  update_where p f t = (t', n) ->
  (forall r, p r = true -> row_change drawn r (f r)) ->
  table_change drawn t t'.
Proof.
  intros Hu Hf id. rewrite (update_where_lookup _ _ _ _ _ id Hu).
  destruct (t !! id) as [r|]; simpl; [|done].
  destruct (p r) eqn:Hp; [auto|apply row_change_refl].
Qed.

(** Every statement, whatever its arguments. *)
Lemma outbox_exec_change op users t users' t' used :
  draws_fresh op used ->
  outbox_exec op (users, t) = (users', t') ->
  table_change (fun g => g ∉ used) t t'.
Proof.
  intros Hd He. unfold outbox_exec in He. destruct op.
  - destruct (enqueue _ _ _ _ _ _) as [[[users1 t1] out]|e] eqn:Hq; simplify_eq;
      [|apply table_change_refl].
    unfold enqueue in Hq. destruct (_ ≫= _); [simplify_eq; apply table_change_refl|].
    destruct (lock_recipient _ _ _ _) as [users2 eligible].
    destruct (t !! default fresh (e_id input)) eqn:Hnone; simplify_eq.
    intros id. rewrite lookup_insert. case_decide as Hid; [|apply table_change_refl].
    subst id. rewrite Hnone. split; [done|]. by destruct eligible.
  - unfold cancelForReleasedAddress in He.
    destruct (bool_decide _); [|simplify_eq; apply table_change_refl].
    destruct (update_where _ _ t) as [t1 n] eqn:Hu. simplify_eq.
    eapply update_where_change; [exact Hu|]. intros r Hr. simpl in Hr. bool_to_prop.
    apply o_write_change; auto with nexus; done.
  - destruct (outbox_claimDue _ _ _ _ _ _) as [[users1 t1] cs] eqn:Hc; simplify_eq.
    eapply table_change_weaken; [|by eapply claim_all_change].
    intros g [k ->]. apply Hd.
  - simplify_eq. apply settle_change.
  - simplify_eq. apply settle_change.
  - simplify_eq. apply settle_change.
  - simplify_eq. apply settle_change.
  - simplify_eq. unfold releaseStale. destruct (update_where _ _ t) as [t1 n] eqn:Hu. simpl.
    eapply update_where_change; [exact Hu|].
    intros r Hr. simpl in Hr. bool_to_prop. apply o_write_change; auto with nexus; done.
  - simplify_eq. unfold sealContent. destruct (t !! id) as [r|] eqn:Hr; [|apply table_change_refl].
    case_decide; simpl; [apply table_change_refl|].
    eapply table_change_insert; [done|]. split_and!; auto.
Qed.

(** ** Refinement of the fenced claims *)

Lemma table_change_fenced (t t' : outbox_table) (used used' : gset string) :
  used ⊆ used' ->
  table_change (fun g => g ∉ used) t t' -> fenced_step (t, used) (t', used').
Proof.
  intros Hu Hc. constructor; [done|]. intros id g Hh. unfold claim_held in *.
  specialize (Hc id). destruct (t' !! id) as [r'|]; [|done]. simpl in Hh. bool_to_prop. subst g.
  destruct (t !! id) as [r|]; [|right; by apply Hc].
  destruct Hc as (_ & _ & Hg). destruct Hg as [[Hs Hge]|Hd]; [done| |by right].
  left. simpl. rewrite Hge, bool_decide_eq_true_2; done.
Qed.

Lemma outbox_step_fenced w w' :
  outbox_step w w' -> fenced_step (ow_table w, ow_used w) (ow_table w', ow_used w').
Proof.
  intros [op users t users' t' used Hd He]; simpl.
  apply table_change_fenced; [set_solver|]. by eapply outbox_exec_change.
Qed.

Lemma outbox_run_fenced w w' :
  rtc outbox_step w w' -> rtc fenced_step (ow_table w, ow_used w) (ow_table w', ow_used w').
Proof.
  induction 1 as [|a b c Hab _ IH]; [done|].
  eapply rtc_l; [by apply outbox_step_fenced|done].
Qed.

Lemma outbox_step_change w w' :
  outbox_step w w' -> table_change (fun g => g ∉ ow_used w) (ow_table w) (ow_table w').
Proof. intros [op users t users' t' used Hd He]; simpl. by eapply outbox_exec_change. Qed.

Lemma table_change_wf drawn t t' : table_change drawn t t' -> outbox_wf t -> outbox_wf t'.
Proof.
  intros Hc Hwf id r' Hr'. specialize (Hc id). rewrite Hr' in Hc.
  destruct (t !! id) as [r|] eqn:Hr.
  - destruct Hc as [Hid _]. rewrite Hid. eauto.
  - by destruct Hc.
Qed.

Lemma outbox_run_wf w w' : rtc outbox_step w w' -> outbox_wf (ow_table w) -> outbox_wf (ow_table w').
Proof.
  induction 1 as [|a b c Hab _ IH]; [done|]. intros Hwf.
  apply IH. by eapply table_change_wf; [apply outbox_step_change|].
Qed.

(** A settled row stays, with its status. *)
Lemma outbox_run_settled w w' id r :
  rtc outbox_step w w' ->
  ow_table w !! id = Some r -> settled r = true ->
  exists r', ow_table w' !! id = Some r' /\ o_status r' = o_status r.
Proof.
  intros Hrun. revert r. induction Hrun as [|a b c Hab _ IH]; intros r Hr Hs; [eauto|].
  apply outbox_step_change in Hab. specialize (Hab id). rewrite Hr in Hab.
  destruct (ow_table b !! id) as [r1|] eqn:Hr1; [|done]. destruct Hab as (_ & Hst & _).
  specialize (Hst Hs). destruct (IH r1 eq_refl) as (r' & Hr' & He).
  { by rewrite (row_change_settled _ _ Hst). }
  exists r'. split; [done|congruence].
Qed.

(** ** What a claim returns *)

Lemma claim_candidates_spec now limit t e :
  e ∈ claim_candidates now limit t -> exists k, t !! k = Some e /\ due now e = true.
Proof.
  unfold claim_candidates. intros He. apply elem_of_take in He as (i & He & _).
  apply list_elem_of_lookup_2, sort_by_elem, rows_where_spec in He. done.
Qed.

Lemma rows_where_ids_nodup p (t : outbox_table) :
  outbox_wf t -> NoDup (map o_id (rows_where p t)).
Proof.
  intros Hwf. unfold rows_where.
  replace (map o_id (map snd (filter _ (map_to_list t))))
    with (map fst (filter (fun '(_, r) => p r = true) (map_to_list t))).
  - assert (Hsub : filter (fun '(_, r) => p r = true) (map_to_list t) `sublist_of` map_to_list t)
      by apply sublist_filter.
    pose proof (NoDup_fst_map_to_list t) as Hnd.
    eapply sublist_NoDup; [exact Hnd|]. by apply (fmap_sublist fst).
  - rewrite map_map. apply map_ext_in. intros [k r] Hin.
    apply list_elem_of_In, list_elem_of_filter in Hin as [_ Hin].
    apply elem_of_map_to_list in Hin. simpl. symmetry. eauto.
Qed.

Lemma claim_candidates_ids_nodup now limit t :
  outbox_wf t -> NoDup (map o_id (claim_candidates now limit t)).
Proof.
  intros Hwf. unfold claim_candidates.
  eapply sublist_NoDup; [|apply (fmap_sublist o_id), sublist_take].
  rewrite (sort_by_perm claim_order). by apply rows_where_ids_nodup.
Qed.

(** What the claim of one row hands its caller. *)
Definition claimed_from (fresh : nat -> string) (t t' : outbox_table)
    (c : EmailOutboxRecord) : Prop :=
  t' !! o_id c = Some c
  /\ is_status OSending c = true
  /\ (exists k, o_generation c = fresh k)
  /\ (exists e, t !! o_id c = Some e /\ is_status OPending e = true
                /\ o_attempts c = o_attempts e + 1
                /\ o_to_email c = o_to_email e /\ o_body_text c = o_body_text e
                /\ o_recipient_user_id c = o_recipient_user_id e).

Lemma claim_one_frame entry fence generation now users t users' t' c id :
  claim_one entry fence generation now users t = (users', t', c) ->
  id <> o_id entry -> t' !! id = t !! id.
Proof.
  intros H Hne. apply claim_one_spec in H as [->|(r & _ & _ & [[_ ->]|(n & e & -> & _)])];
    by rewrite ?lookup_insert_ne.
Qed.

Lemma claim_all_frame entries n fresh now users t users' t' cs id :
  claim_all entries n fresh now users t = (users', t', cs) ->
  id ∉ map o_id entries -> t' !! id = t !! id.
Proof.
  revert n users t users' t' cs.
  induction entries as [|e es IH]; intros n users t users' t' cs H Hid; simpl in H; [by simplify_eq|].
  destruct (claim_one e _ _ now users t) as [[users1 t1] c] eqn:H1.
  destruct (claim_all es _ fresh now users1 t1) as [[users2 t2] cs'] eqn:H2. simplify_eq.
  apply not_elem_of_cons in Hid as [Hne Hid].
  rewrite (IH _ _ _ _ _ _ H2 Hid). by eapply claim_one_frame.
Qed.

Lemma claim_all_spec entries n fresh now users t users' t' cs :
  claim_all entries n fresh now users t = (users', t', cs) ->
  NoDup (map o_id entries) ->
  (forall e, e ∈ entries -> t !! o_id e = Some e /\ is_status OPending e = true) ->
  (length cs <= length entries)%nat
  /\ forall c, c ∈ cs -> o_id c ∈ map o_id entries /\ claimed_from fresh t t' c.
Proof.
  revert n users t users' t' cs.
  induction entries as [|e es IH]; intros n users t users' t' cs H Hnd Hin; simpl in H.
  { simplify_eq. split; [done|]. intros c Hc. by apply not_elem_of_nil in Hc. }
  destruct (claim_one e _ _ now users t) as [[users1 t1] c] eqn:H1.
  destruct (claim_all es _ fresh now users1 t1) as [[users2 t2] cs'] eqn:H2. simplify_eq.
  pose proof (NoDup_cons_1_1 _ _ Hnd) as Hnin. apply NoDup_cons_1_2 in Hnd.
  destruct (Hin e) as [He Hp]; [left|].
  assert (Hfr1 : forall id, id <> o_id e -> t1 !! id = t !! id)
    by (intros id Hne; by eapply claim_one_frame).
  destruct (IH _ _ _ _ _ _ H2 Hnd) as [Hlen Hcs].
  { intros e' He'. destruct (Hin e') as [Hl Hpe]; [by right|]. split; [|done].
    rewrite Hfr1; [done|]. intros Heq. apply Hnin. rewrite <- Heq. by apply list_elem_of_fmap_2. }
  split; [destruct c; simpl; lia|].
  intros c' Hc'. apply elem_of_app in Hc' as [Hc'|Hc'].
  - destruct c as [row|]; [|by apply not_elem_of_nil in Hc'].
    apply list_elem_of_singleton in Hc' as ->.
    pose proof (claim_all_frame _ _ _ _ _ _ _ _ _ (o_id e) H2 Hnin) as Hfr.
    unfold claim_one in H1. rewrite He, Hp in H1.
    destruct (lock_recipient _ _ _ users) as [u1 eligible]. destruct eligible; simplify_eq.
    split; [by left|].
    split_and!; simpl; [by rewrite Hfr, lookup_insert_eq | done | eauto | eauto 10].
  - destruct (Hcs c' Hc') as (Hid & Hl & Hs & Hg & e' & He' & Hrest).
    split; [by right|]. split_and!; [done..|]. exists e'. split; [|done].
    rewrite <- He'. symmetry. apply Hfr1. intros Heq. apply Hnin. by rewrite <- Heq.
Qed.

Lemma outbox_claimDue_spec now limit fresh stamp users t users' t' cs :
  outbox_claimDue now limit fresh stamp users t = (users', t', cs) ->
  outbox_wf t ->
  (length cs <= sql_limit limit)%nat
  /\ forall c, c ∈ cs -> claimed_from fresh t t' c
               /\ exists e, t !! o_id c = Some e /\ due now e = true.
Proof.
  intros H Hwf. unfold outbox_claimDue in H.
  assert (Hin : forall e, e ∈ claim_candidates now limit t ->
                  t !! o_id e = Some e /\ due now e = true).
  { intros e He. apply claim_candidates_spec in He as (k & Hk & Hd).
    pose proof (Hwf k e Hk) as <-. done. }
  destruct (claim_all_spec _ _ _ _ _ _ _ _ _ H (claim_candidates_ids_nodup now limit t Hwf))
    as [Hlen Hcs].
  { intros e He. destruct (Hin e He) as [Hl Hd]. split; [done|].
    unfold due in Hd. by bool_to_prop. }
  split.
  - unfold claim_candidates in Hlen. rewrite length_take in Hlen. lia.
  - intros c Hc. destruct (Hcs c Hc) as [Hid Hfrom]. split; [done|].
    apply list_elem_of_fmap in Hid as (e & -> & He). exists e. by apply Hin.
Qed.

(** ** Properties *)

(** Once a claim on an outbox row has been lost (its row settled, was
    released by the stale sweep, or was claimed again), nothing any instance
    does gives it back, and every settling write issued for it ([markSent],
    [markFailed], [reschedule], [beginDelivery]) is refused and leaves the table
    as it was. *)
Theorem outbox_lost_claim_refused (w w' : outbox_world) (entry : EmailOutboxRecord)
    (Hrun : rtc outbox_step w w')
    (Hknown : o_generation entry ∈ ow_used w)
    (Hlost : claim_held (o_id entry) (o_generation entry) (ow_table w) = false) :
  claim_held (o_id entry) (o_generation entry) (ow_table w') = false
  /\ forall now next error,
       markSent entry now (ow_table w') = (ow_table w', false)
       /\ markFailed entry error now (ow_table w') = (ow_table w', false)
       /\ reschedule entry next error now (ow_table w') = (ow_table w', false)
       /\ beginDelivery entry now (ow_table w') = (ow_table w', false).
Proof.
  assert (Hl : claim_held (o_id entry) (o_generation entry) (ow_table w') = false).
  { apply outbox_run_fenced in Hrun.
    by apply (claim_lost_forever _ _ (o_id entry) (o_generation entry) Hrun). }
  split; [done|]. intros now next error.
  split_and!; by apply settle_refused.
Qed.

(** The first worker's claim is released as stale and taken by a second worker:
    what the first one still wants to write is refused. *)
Lemma outbox_lost_claim_refused_witness :
  exists w1 w2 : outbox_world,
    rtc outbox_step sample_world w1 /\ outbox_step w1 w2
    /\ claim_held "m1" "g2" (ow_table w2) = true
    /\ markSent sample_claim 500 (ow_table w2) = (ow_table w2, false).
Proof.
  pose (t1 := (releaseStale 100 400 (ow_table sample_world)).1).
  pose (w1 := {| ow_users := ∅; ow_table := t1; ow_used := ow_used sample_world ∪ generations t1 |}).
  pose (t2 := (outbox_claimDue 450 1 (fun _ => "g2"%string) 450 ∅ t1).1.2).
  pose (w2 := {| ow_users := ∅; ow_table := t2; ow_used := ow_used w1 ∪ generations t2 |}).
  assert (H1 : outbox_step sample_world w1).
  { apply (outbox_step_intro (OpReleaseStale 100 400)); [exact I|reflexivity]. }
  assert (H2 : outbox_step w1 w2).
  { apply (outbox_step_intro (OpClaimDue 450 1 (fun _ => "g2"%string) 450)); [|reflexivity].
    intros _. apply (bool_decide_eq_true_1 _). vm_compute. reflexivity. }
  exists w1, w2. split_and!.
  - by apply rtc_once.
  - done.
  - vm_compute. reflexivity.
  - apply (outbox_lost_claim_refused w1 w2 sample_claim).
    + by apply rtc_once.
    + apply (bool_decide_eq_true_1 _). vm_compute. reflexivity.
    + vm_compute. reflexivity.
    + exact 0.
    + exact ""%string.
Defined.

(** A message that was marked sent, or failed for good, keeps that status
    through everything the instances do, and no later claim hands it to a
    worker again. *)
Theorem outbox_settled_final (w w' : outbox_world) (id : string) (r : EmailOutboxRecord)
    (Hrun : rtc outbox_step w w') (Hwf : outbox_wf (ow_table w))
    (Hr : ow_table w !! id = Some r) (Hs : settled r = true) :
  (exists r', ow_table w' !! id = Some r' /\ o_status r' = o_status r)
  /\ forall now limit fresh stamp c,
       c ∈ (outbox_claimDue now limit fresh stamp (ow_users w') (ow_table w')).2 -> o_id c <> id.
Proof.
  destruct (outbox_run_settled _ _ _ _ Hrun Hr Hs) as (r' & Hr' & He).
  split; [eauto|]. intros now limit fresh stamp c Hc Hid.
  destruct (outbox_claimDue now limit fresh stamp _ _) as [[users' t'] cs] eqn:Hq. simpl in Hc.
  destruct (outbox_claimDue_spec _ _ _ _ _ _ _ _ _ Hq (outbox_run_wf _ _ Hrun Hwf)) as [_ Hcs].
  destruct (Hcs c Hc) as (_ & e & Hl & Hd). rewrite Hid, Hr' in Hl. simplify_eq.
  rewrite <- (row_change_settled _ _ He) in Hs.
  unfold due in Hd. bool_to_prop.
  by rewrite (pending_not_settled e) in Hs.
Qed.

Lemma outbox_settled_final_witness :
  exists w', rtc outbox_step sample_world w'
    /\ exists r', ow_table w' !! "m1"%string = Some r' /\ o_status r' = OSent.
Proof.
  pose (t1 := (markSent sample_claim 30 (ow_table sample_world)).1).
  pose (w1 := {| ow_users := ∅; ow_table := t1; ow_used := ow_used sample_world ∪ generations t1 |}).
  pose (t2 := (releaseStale 1000 1000 t1).1).
  pose (w2 := {| ow_users := ∅; ow_table := t2; ow_used := ow_used w1 ∪ generations t2 |}).
  assert (H2 : outbox_step w1 w2).
  { apply (outbox_step_intro (OpReleaseStale 1000 1000)); [exact I|reflexivity]. }
  assert (H1 : outbox_step sample_world w1).
  { apply (outbox_step_intro (OpMarkSent sample_claim 30)); [exact I|reflexivity]. }
  exists w2. split; [eapply rtc_l; [exact H1|by apply rtc_once]|].
  apply (outbox_settled_final w1 w2 "m1"%string (o_write OSent None None 30 1 "g1" sample_claim)).
  - by apply rtc_once.
  - apply (bool_decide_eq_true_1 _). vm_compute. reflexivity.
  - vm_compute. reflexivity.
  - reflexivity.
Defined.
