(* ===== verification/JobQueues.v ===== *)
(** * The job queues

    The three retry queues of the SQLite adapter
    ([server/src/db/adapters/sqlite/index.ts]): [gateway_teardown_jobs],
    [account_recovery_jobs] and [access_gateway_jobs]. They share the columns
    [job_head] and the statements on them; each Module instantiates the shared
    statements and adds its own. [nowIso()] and [newId()] are arguments. *)

From S2P Require Import Prelude Roles ClaimQueue.
Open Scope Z_scope.

Inductive JobStatus : Type := JPending | JSending | JDone.

#[export] Instance JobStatus_eq_dec : EqDecision JobStatus.
Proof. solve_decision. Defined.

(** The columns every job table has. *)
Record job_head : Type := {
  j_id : string;
  j_generation : string;
  j_status : JobStatus;
  j_attempts : Z;
  j_next_attempt_at : option Z;
  j_last_error : option string;
  j_created_at : Z;
  j_updated_at : Z;
}.

#[export] Instance job_head_eq_dec : EqDecision job_head.
Proof. solve_decision. Defined.

(** A job row is its head and columns of its own; [jr_reset] is what a claim and
    a reschedule clear beyond the head. *)
Class JobRow (R : Type) : Type := {
  jr_head : R -> job_head;
  jr_set_head : job_head -> R -> R;
  jr_reset : R -> R;
}.

Class JobRowLaws (R : Type) `{JobRow R} : Prop := {
  jr_head_set : forall h r, jr_head (jr_set_head h r) = h;
  jr_head_reset : forall r, jr_head (jr_reset r) = jr_head r;
}.

(** A write of the status columns. *)
Definition head_write (status : JobStatus) (generation : string) (attempts : Z)
    (next : option Z) (error : option string) (at_ : Z) (h : job_head) : job_head := {|
  j_id := j_id h; j_generation := generation; j_status := status; j_attempts := attempts;
  j_next_attempt_at := next; j_last_error := error; j_created_at := j_created_at h;
  j_updated_at := at_;
|}.

Section Statements.
Context {R : Type} `{JobRow R}.
Implicit Types (t : gmap string R) (job r : R).

Definition job_id r : string := j_id (jr_head r).
Definition job_generation r : string := j_generation (jr_head r).
Definition job_attempts r : Z := j_attempts (jr_head r).

Definition has_status (s : JobStatus) r : bool := bool_decide (j_status (jr_head r) = s).

Definition job_claim (generation : string) (at_ : Z) r : R :=
  let h := jr_head r in
  jr_reset (jr_set_head (head_write JSending generation (j_attempts h + 1) (j_next_attempt_at h)
                           (j_last_error h) at_ h) r).

Definition job_requeue (next : Z) (error : string) (at_ : Z) r : R :=
  let h := jr_head r in
  jr_reset (jr_set_head (head_write JPending (j_generation h) (j_attempts h) (Some next)
                           (Some error) at_ h) r).

Definition job_release (at_ : Z) r : R :=
  let h := jr_head r in
  jr_set_head (head_write JPending (j_generation h) (j_attempts h) (Some at_)
                 (j_last_error h) at_ h) r.

(** [INSERT ... ON CONFLICT (unique column) DO UPDATE]: [same] recognises the
    conflicting row. *)
Definition job_find (same : R -> bool) t : option R := head (rows_where same t).

Definition job_upsert (same : R -> bool) (fresh : R) (merge : R -> R) t : gmap string R * R :=
  match job_find same t with
  | Some r => let r' := merge r in (<[job_id r := r']> t, r')
  | None => (<[job_id fresh := fresh]> t, fresh)
  end.

Definition job_due (now : Z) r : bool :=
  has_status JPending r &&
  match j_next_attempt_at (jr_head r) with None => true | Some at_ => bool_decide (at_ <= now) end.

(** [ORDER BY next_attempt_at ASC, created_at ASC]; SQLite leaves the order of
    two rows that agree on both open, and the id stands for it here. *)
Definition job_order (a b : R) : bool :=
  leb_of (then_by (compare_null_first (j_next_attempt_at (jr_head a)) (j_next_attempt_at (jr_head b)))
         (then_by (Z.compare (j_created_at (jr_head a)) (j_created_at (jr_head b)))
                  (String.compare (job_id a) (job_id b)))).

Definition job_due_ids (now limit : Z) t : list string :=
  map job_id (take (sql_limit limit) (sort_by job_order (rows_where (job_due now) t))).

(** One [UPDATE ... WHERE id IN (...) AND status = 'pending'], under one drawn
    generation, then the rows of those ids. *)
Definition job_claimDue (now limit : Z) (generation : string) (stamp : Z) t
    : gmap string R * list R :=
  let ids := job_due_ids now limit t in
  let t' := (update_where (fun r => bool_decide (job_id r ∈ ids) && has_status JPending r)
               (job_claim generation stamp) t).1 in
  (t', omap (fun id => t' !! id) ids).

(** [WHERE id = ? AND generation = ? AND status = s]. *)
Definition job_matches (s : JobStatus) (job r : R) : bool :=
  bool_decide (job_generation r = job_generation job) && has_status s r.

Definition job_on_match (s : JobStatus) (job : R) (write : R -> gmap string R -> gmap string R) t
    : gmap string R * bool :=
  match t !! job_id job with
  | Some r => if job_matches s job r then (write r t, true) else (t, false)
  | None => (t, false)
  end.

(** The returned row is built from the caller's snapshot, not read back. *)
Definition job_claimPending (job : R) (generation : string) (at_ : Z) t
    : gmap string R * option R :=
  let '(t', changed) :=
    job_on_match JPending job (fun r t => <[job_id job := job_claim generation at_ r]> t) t in
  (t', if changed then Some (job_claim generation at_ job) else None).

Definition job_reschedule (job : R) (nextAttemptAt : Z) (lastError : string) (now : Z) t
    : gmap string R * bool :=
  job_on_match JSending job
    (fun r t => <[job_id job := job_requeue nextAttemptAt lastError now r]> t) t.

Definition job_deleteClaimed (job : R) t : gmap string R * bool :=
  job_on_match JSending job (fun _ t => delete (job_id job) t) t.

Definition job_releaseStale (olderThan now : Z) t : gmap string R * Z :=
  update_where (fun r => has_status JSending r && bool_decide (j_updated_at (jr_head r) <= olderThan))
    (job_release now) t.

(** [DELETE ... WHERE column = ?]. *)
Definition job_deleteBy (same : R -> bool) t : gmap string R * bool :=
  (filter (fun '(_, r) => same r = false) t, bool_decide (rows_where same t <> [])).
End Statements.

(** ** [gateway_teardown_jobs] *)
Module Teardown.

Record Job : Type := {
  td_head : job_head;
  td_user_id : string;
  td_requested_by : option string;
  td_completed_at : option Z;
}.

#[global] Instance Job_eq_dec : EqDecision Job.
Proof. solve_decision. Defined.

#[global] Instance job_row : JobRow Job := {|
  jr_head := td_head;
  jr_set_head := fun h r => {| td_head := h; td_user_id := td_user_id r;
                               td_requested_by := td_requested_by r;
                               td_completed_at := td_completed_at r |};
  jr_reset := fun r => {| td_head := td_head r; td_user_id := td_user_id r;
                          td_requested_by := td_requested_by r; td_completed_at := None |};
|}.

#[global] Instance job_row_laws : JobRowLaws Job.
Proof. done. Qed.

Abbreviation table := (gmap string Job).

Definition of_user (userId : string) (r : Job) : bool := bool_decide (td_user_id r = userId).

(** A second disable resets the outstanding job: same row, new generation. *)
Definition upsertPending (userId : string) (requestedBy : option string) (now : Z)
    (newId newGeneration : string) : table -> table * Job :=
  job_upsert (of_user userId)
    {| td_head := {| j_id := newId; j_generation := newGeneration; j_status := JPending;
                     j_attempts := 0; j_next_attempt_at := Some now; j_last_error := None;
                     j_created_at := now; j_updated_at := now |};
       td_user_id := userId; td_requested_by := requestedBy; td_completed_at := None |}
    (fun r => {| td_head := head_write JPending newGeneration 0 (Some now) None now (td_head r);
                 td_user_id := td_user_id r; td_requested_by := requestedBy;
                 td_completed_at := None |}).

Definition findByUser (userId : string) : table -> option Job := job_find (of_user userId).

Definition claimDue : Z -> Z -> string -> Z -> table -> table * list Job := job_claimDue.

Definition claimPending : Job -> string -> Z -> table -> table * option Job := job_claimPending.

Definition markDone (job : Job) (at_ : Z) : table -> table * bool :=
  job_on_match JSending job (fun r t =>
    <[job_id job := {| td_head := head_write JDone (j_generation (td_head r)) (j_attempts (td_head r))
                                    None None at_ (td_head r);
                       td_user_id := td_user_id r; td_requested_by := td_requested_by r;
                       td_completed_at := Some at_ |}]> t).

Definition reschedule : Job -> Z -> string -> Z -> table -> table * bool := job_reschedule.
Definition releaseStale : Z -> Z -> table -> table * Z := job_releaseStale.
Definition deleteByUser (userId : string) : table -> table * bool := job_deleteBy (of_user userId).
Definition deleteClaimed : Job -> table -> table * bool := job_deleteClaimed.
End Teardown.

(** ** [account_recovery_jobs] *)
Module Recovery.

Record Job : Type := {
  rc_head : job_head;
  rc_user_id : string;
  rc_unblocked_at : option Z;
}.

#[global] Instance Job_eq_dec : EqDecision Job.
Proof. solve_decision. Defined.

#[global] Instance job_row : JobRow Job := {|
  jr_head := rc_head;
  jr_set_head := fun h r => {| rc_head := h; rc_user_id := rc_user_id r;
                               rc_unblocked_at := rc_unblocked_at r |};
  jr_reset := fun r => r;
|}.

#[global] Instance job_row_laws : JobRowLaws Job.
Proof. done. Qed.

Abbreviation table := (gmap string Job).

Definition of_user (userId : string) (r : Job) : bool := bool_decide (rc_user_id r = userId).

Definition upsertPending (userId : string) (now : Z) (newId newGeneration : string)
    : table -> table * Job :=
  job_upsert (of_user userId)
    {| rc_head := {| j_id := newId; j_generation := newGeneration; j_status := JPending;
                     j_attempts := 0; j_next_attempt_at := Some now; j_last_error := None;
                     j_created_at := now; j_updated_at := now |};
       rc_user_id := userId; rc_unblocked_at := None |}
    (fun r => {| rc_head := head_write JPending newGeneration 0 (Some now) None now (rc_head r);
                 rc_user_id := rc_user_id r; rc_unblocked_at := None |}).

Definition findByUser (userId : string) : table -> option Job := job_find (of_user userId).
Definition claimDue : Z -> Z -> string -> Z -> table -> table * list Job := job_claimDue.
Definition claimPending : Job -> string -> Z -> table -> table * option Job := job_claimPending.
Definition deleteClaimed : Job -> table -> table * bool := job_deleteClaimed.
Definition reschedule : Job -> Z -> string -> Z -> table -> table * bool := job_reschedule.

(** [WHERE id = ? AND generation = ? AND unblocked_at IS NULL], in any status. *)
Definition markUnblocked (job : Job) (at_ now : Z) (t : table) : table * bool :=
  match t !! job_id job with
  | Some r =>
      if bool_decide (job_generation r = job_generation job) &&
         bool_decide (rc_unblocked_at r = None)
      then (<[job_id job :=
                {| rc_head := let h := rc_head r in
                              head_write (j_status h) (j_generation h) (j_attempts h)
                                (j_next_attempt_at h) (j_last_error h) now h;
                   rc_user_id := rc_user_id r; rc_unblocked_at := Some at_ |}]> t, true)
      else (t, false)
  | None => (t, false)
  end.

Definition releaseStale : Z -> Z -> table -> table * Z := job_releaseStale.
Definition deleteByUser (userId : string) : table -> table * bool := job_deleteBy (of_user userId).
End Recovery.

(** ** [access_gateway_jobs] *)
Module AccessJobs.

Inductive Kind : Type := Revoke | Approve.

#[global] Instance Kind_eq_dec : EqDecision Kind.
Proof. solve_decision. Defined.

(** What a decision asks of the gateway. *)
Record Input : Type := {
  in_kind : Kind;
  in_subject_id : string;
  in_api_id : string;
  in_user_id : string;
  in_application_id : option string;
  in_requested_by : option string;
}.

#[global] Instance Input_eq_dec : EqDecision Input.
Proof. solve_decision. Defined.

Record Job : Type := {
  ag_head : job_head;
  ag_input : Input;
}.

#[global] Instance Job_eq_dec : EqDecision Job.
Proof. solve_decision. Defined.

#[global] Instance job_row : JobRow Job := {|
  jr_head := ag_head;
  jr_set_head := fun h r => {| ag_head := h; ag_input := ag_input r |};
  jr_reset := fun r => r;
|}.

#[global] Instance job_row_laws : JobRowLaws Job.
Proof. done. Qed.

Abbreviation table := (gmap string Job).

Definition of_subject (subjectId : string) (r : Job) : bool :=
  bool_decide (in_subject_id (ag_input r) = subjectId).

Definition new_row (input : Input) (status : JobStatus) (now : Z) (newId newGeneration : string)
    : Job := {|
  ag_head := {| j_id := newId; j_generation := newGeneration; j_status := status;
                j_attempts := 0; j_next_attempt_at := Some now; j_last_error := None;
                j_created_at := now; j_updated_at := now |};
  ag_input := input;
|}.

(** The row of a decision is written already [sending], owned by its request;
    a subject decided again re-owns its row. *)
Definition upsertClaimed (input : Input) (now : Z) (newId newGeneration : string)
    : table -> table * Job :=
  job_upsert (of_subject (in_subject_id input)) (new_row input JSending now newId newGeneration)
    (fun r => {| ag_head := head_write JSending newGeneration 0 (Some now) None now (ag_head r);
                 ag_input := input |}).

Definition findBySubject (subjectId : string) : table -> option Job :=
  job_find (of_subject subjectId).

Definition enqueueIfAbsent (input : Input) (now : Z) (newId newGeneration : string) (t : table)
    : table * bool :=
  match findBySubject (in_subject_id input) t with
  | Some _ => (t, false)
  | None => (<[newId := new_row input JPending now newId newGeneration]> t, true)
  end.

Definition claimDue : Z -> Z -> string -> Z -> table -> table * list Job := job_claimDue.
Definition deleteClaimed : Job -> table -> table * bool := job_deleteClaimed.
Definition reschedule : Job -> Z -> string -> Z -> table -> table * bool := job_reschedule.
Definition releaseStale : Z -> Z -> table -> table * Z := job_releaseStale.
Definition deleteBySubject (subjectId : string) : table -> table * bool :=
  job_deleteBy (of_subject subjectId).
End AccessJobs.

(** ** Every instance against one queue

    The statements of the workers and services that share a queue, one at a
    time. [OpUpsert] stands for the three upserts and [enqueueIfAbsent],
    [OpRewrite] for [markDone] and [markUnblocked]. [used] collects the
    generations the rows ever carried. *)
Section Protocol.
Context {R : Type} `{JobRowLaws R}.
Implicit Types (t : gmap string R) (used : gset string) (job r : R).

#[export] Instance job_claims : ClaimRow R := {|
  cr_generation := job_generation;
  cr_sending := has_status JSending;
|}.

Inductive job_op : Type :=
| OpUpsert (same : R -> bool) (fresh : R) (merge : R -> R)
| OpClaimDue (now limit : Z) (generation : string) (stamp : Z)
| OpClaimPending (job : R) (generation : string) (at_ : Z)
| OpReschedule (job : R) (nextAttemptAt : Z) (lastError : string) (now : Z)
| OpDeleteClaimed (job : R)
| OpRewrite (id : string) (write : R -> R)
| OpReleaseStale (olderThan now : Z)
| OpDeleteBy (same : R -> bool).

Definition job_exec (op : job_op) t : gmap string R :=
  match op with
  | OpUpsert same fresh merge => (job_upsert same fresh merge t).1
  | OpClaimDue now limit generation stamp => (job_claimDue now limit generation stamp t).1
  | OpClaimPending job generation at_ => (job_claimPending job generation at_ t).1
  | OpReschedule job next error now => (job_reschedule job next error now t).1
  | OpDeleteClaimed job => (job_deleteClaimed job t).1
  | OpRewrite id write => alter write id t
  | OpReleaseStale olderThan now => (job_releaseStale olderThan now t).1
  | OpDeleteBy same => (job_deleteBy same t).1
  end.

(** A statement that starts a claim draws a generation no row ever carried; the
    rewrites start none. *)
Definition job_allowed used (op : job_op) : Prop :=
  match op with
  | OpUpsert _ fresh merge =>
      (job_generation fresh ∉ used) /\ (forall r, job_generation (merge r) ∉ used)
  | OpClaimDue _ _ generation _ => generation ∉ used
  | OpClaimPending _ generation _ => generation ∉ used
  | OpRewrite _ write =>
      forall r, has_status JSending (write r) = true ->
        has_status JSending r = true /\ job_generation (write r) = job_generation r
  | _ => True
  end.

Definition job_generations t : gset string :=
  list_to_set (map (fun '(_, r) => job_generation r) (map_to_list t)).

Inductive job_step : gmap string R * gset string -> gmap string R * gset string -> Prop :=
| job_step_intro op t used :
    job_allowed used op ->
    job_step (t, used) (job_exec op t, used ∪ job_generations (job_exec op t)).

(** A row is stored under its id. *)
Definition job_wf t : Prop := map_Forall (fun id r => job_id r = id) t.

(** *** The head of the written rows *)

Lemma job_claim_head generation at_ r :
  jr_head (job_claim generation at_ r) =
    let h := jr_head r in
    head_write JSending generation (j_attempts h + 1) (j_next_attempt_at h) (j_last_error h) at_ h.
Proof. unfold job_claim. by rewrite jr_head_reset, jr_head_set. Qed.

Lemma job_requeue_head next error at_ r :
  jr_head (job_requeue next error at_ r) =
    let h := jr_head r in
    head_write JPending (j_generation h) (j_attempts h) (Some next) (Some error) at_ h.
Proof. unfold job_requeue. by rewrite jr_head_reset, jr_head_set. Qed.

Lemma job_release_head at_ r :
  jr_head (job_release at_ r) =
    let h := jr_head r in
    head_write JPending (j_generation h) (j_attempts h) (Some at_) (j_last_error h) at_ h.
Proof. unfold job_release. by rewrite jr_head_set. Qed.

Lemma job_requeue_not_sending next error at_ r :
  has_status JSending (job_requeue next error at_ r) = false.
Proof. unfold has_status. by rewrite job_requeue_head. Qed.

Lemma job_release_not_sending at_ r : has_status JSending (job_release at_ r) = false.
Proof. unfold has_status. by rewrite job_release_head. Qed.

Lemma job_claim_generation generation at_ r :
  job_generation (job_claim generation at_ r) = generation.
Proof. unfold job_generation. by rewrite job_claim_head. Qed.

(** *** Guarded writes *)

Lemma job_on_match_spec s job write t t' b :
  job_on_match s job write t = (t', b) ->
  (b = false /\ t' = t)
  \/ (b = true /\ exists r, t !! job_id job = Some r /\ job_matches s job r = true /\ t' = write r t).
Proof.
  unfold job_on_match. intros Hm.
  destruct (t !! job_id job) as [r|]; [|simplify_eq; auto].
  destruct (job_matches s job r) eqn:Hj; simplify_eq; [right|left]; eauto.
Qed.

(** A settling write lands exactly when its claim is held. *)
Lemma job_on_match_iff_held job write t :
  (job_on_match JSending job write t).2 = claim_held (job_id job) (job_generation job) t.
Proof.
  unfold job_on_match, claim_held. destruct (t !! job_id job) as [r|]; [|done].
  unfold job_matches. simpl. by destruct (_ && _)%bool.
Qed.

Lemma job_on_match_refused job write t :
  claim_held (job_id job) (job_generation job) t = false ->
  job_on_match JSending job write t = (t, false).
Proof.
  intros Hh. destruct (job_on_match JSending job write t) as [t' b] eqn:Hs.
  pose proof (job_on_match_iff_held job write t) as Hb. rewrite Hs in Hb. simpl in Hb.
  apply job_on_match_spec in Hs as [[-> ->]|(-> & _)]; congruence.
Qed.

(** *** Every statement keeps the fence *)

Lemma job_exec_change op t used :
  job_allowed used op -> claims_change (fun g => g ∉ used) t (job_exec op t).
Proof.
  intros Ha. unfold job_exec. destruct op; simpl in Ha.
  - destruct Ha as [Hf Hm]. unfold job_upsert. destruct (job_find same t) as [r|]; simpl;
      apply claims_change_insert; right; [apply Hm|apply Hf].
  - intros id r'. unfold job_claimDue. simpl. rewrite lookup_fmap.
    destruct (t !! id) as [r|] eqn:Hr; simpl; [|done]. intros [= <-] Hs.
    destruct (_ && _)%bool.
    + right. by rewrite job_claim_generation.
    + left. exists r. done.
  - unfold job_claimPending.
    destruct (job_on_match _ _ _ _) as [t' b] eqn:Hm. simpl.
    apply job_on_match_spec in Hm as [[_ ->]|(_ & r & Hr & _ & ->)]; [apply claims_change_refl|].
    apply claims_change_insert. right. simpl. by rewrite job_claim_generation.
  - unfold job_reschedule. destruct (job_on_match _ _ _ _) as [t' b] eqn:Hm. simpl.
    apply job_on_match_spec in Hm as [[_ ->]|(_ & r & Hr & _ & ->)]; [apply claims_change_refl|].
    apply claims_change_insert. simpl. by rewrite job_requeue_not_sending.
  - unfold job_deleteClaimed. destruct (job_on_match _ _ _ _) as [t' b] eqn:Hm. simpl.
    apply job_on_match_spec in Hm as [[_ ->]|(_ & r & Hr & _ & ->)]; [apply claims_change_refl|].
    apply claims_change_subseteq, delete_subseteq.
  - intros id' r'. rewrite lookup_alter. case_decide as Hid.
    + subst id'. destruct (t !! id) as [r|] eqn:Hr; simpl; [|done]. intros [= <-] Hs.
      left. destruct (Ha r Hs) as [Hs' Hg]. exists r. done.
    + intros Hr' Hs. left. by exists r'.
  - intros id r'. unfold job_releaseStale. simpl. rewrite lookup_fmap.
    destruct (t !! id) as [r|] eqn:Hr; simpl; [|done]. intros [= <-] Hs.
    destruct (_ && _)%bool; [by rewrite job_release_not_sending in Hs|]. left. exists r. done.
  - unfold job_deleteBy. simpl. apply claims_change_subseteq, map_filter_subseteq.
Qed.

Lemma job_run_fenced s s' : rtc job_step s s' -> rtc fenced_step s s'.
Proof.
  induction 1 as [|a b c Hab _ IH]; [done|]. eapply rtc_l; [|exact IH].
  destruct Hab as [op t used Ha]. apply claims_change_fenced; [set_solver|].
  by apply job_exec_change.
Qed.
End Protocol.
Arguments job_op R : clear implicits.

(** The statements of the three queues are the shared ones. *)

Lemma teardown_markDone_rewrite (job : Teardown.Job) at_ t :
  exists op : job_op Teardown.Job,
    (Teardown.markDone job at_ t).1 = job_exec op t /\ (forall used, job_allowed used op).
Proof.
  unfold Teardown.markDone.
  destruct (job_on_match _ _ _ _) as [t' b] eqn:Hm. simpl.
  apply job_on_match_spec in Hm as [[_ ->]|(_ & r & Hr & _ & ->)].
  - exists (OpRewrite (job_id job) id). split; [|done]. simpl. symmetry.
    apply map_eq. intros i. rewrite lookup_alter. case_decide; [|done]. subst i. by destruct (t !! job_id job).
  - exists (OpRewrite (job_id job) (fun _ =>
      Teardown.Build_Job (head_write JDone (j_generation (Teardown.td_head r))
                            (j_attempts (Teardown.td_head r)) None None at_ (Teardown.td_head r))
        (Teardown.td_user_id r) (Teardown.td_requested_by r) (Some at_))).
    split; [|done]. simpl. apply map_eq. intros i. rewrite lookup_insert, lookup_alter.
    case_decide; [|done]. subst i. by rewrite Hr.
Qed.

Lemma recovery_markUnblocked_rewrite (job : Recovery.Job) at_ now t :
  exists op : job_op Recovery.Job,
    (Recovery.markUnblocked job at_ now t).1 = job_exec op t /\ (forall used, job_allowed used op).
Proof.
  exists (OpRewrite (job_id job) (fun r =>
    if bool_decide (job_generation r = job_generation job) &&
       bool_decide (Recovery.rc_unblocked_at r = None)
    then Recovery.Build_Job
           (let h := Recovery.rc_head r in
            head_write (j_status h) (j_generation h) (j_attempts h) (j_next_attempt_at h)
              (j_last_error h) now h) (Recovery.rc_user_id r) (Some at_)
    else r)).
  split.
  - simpl. apply map_eq. intros i. unfold Recovery.markUnblocked. rewrite lookup_alter.
    case_decide as Hi.
    + subst i. destruct (t !! job_id job) as [r|] eqn:Hr; simpl; [|by rewrite Hr].
      destruct (_ && _)%bool; simpl; [by rewrite lookup_insert_eq|by rewrite Hr].
    + destruct (t !! job_id job) as [r|] eqn:Hr; simpl; [|done].
      destruct (_ && _)%bool; simpl; [by rewrite lookup_insert_ne|done].
  - simpl. intros _ r. destruct (_ && _)%bool; done.
Qed.

(** ** What a claim returns *)

Section Claims.
Context {R : Type} `{JobRowLaws R}.
Implicit Types (t : gmap string R) (used : gset string) (job r : R).

Lemma job_due_ids_spec now limit t id :
  job_wf t -> id ∈ job_due_ids now limit t ->
  exists r, t !! id = Some r /\ job_due now r = true.
Proof.
  intros Hwf Hid. unfold job_due_ids in Hid.
  apply list_elem_of_fmap in Hid as (r & -> & Hr).
  apply elem_of_take in Hr as (i & Hr & _).
  apply list_elem_of_lookup_2, sort_by_elem, rows_where_spec in Hr as (k & Hk & Hd).
  pose proof (Hwf k r Hk) as <-. eauto.
Qed.

Lemma job_claimDue_lookup now limit generation stamp t id r :
  job_wf t -> t !! id = Some r ->
  (job_claimDue now limit generation stamp t).1 !! id =
    Some (if bool_decide (id ∈ job_due_ids now limit t) && has_status JPending r
          then job_claim generation stamp r else r).
Proof.
  intros Hwf Hr. unfold job_claimDue. simpl. rewrite lookup_fmap, Hr. simpl.
  by rewrite (Hwf id r Hr).
Qed.

(** The rows a claim returns: each was due, and is held under the drawn
    generation. *)
Lemma job_claimDue_returned now limit generation stamp t c :
  job_wf t -> c ∈ (job_claimDue now limit generation stamp t).2 ->
  exists id r, t !! id = Some r /\ job_due now r = true
    /\ id ∈ job_due_ids now limit t /\ c = job_claim generation stamp r
    /\ (job_claimDue now limit generation stamp t).1 !! id = Some c.
Proof.
  intros Hwf Hc.
  assert (Hc2 : c ∈ omap (fun id => (job_claimDue now limit generation stamp t).1 !! id)
                      (job_due_ids now limit t)) by exact Hc.
  apply list_elem_of_omap in Hc2 as (id & Hid & Hl).
  destruct (job_due_ids_spec _ _ _ _ Hwf Hid) as (r & Hr & Hd).
  rewrite (job_claimDue_lookup _ _ _ _ _ _ _ Hwf Hr) in Hl.
  assert (Hp : has_status JPending r = true) by (unfold job_due in Hd; by bool_to_prop).
  rewrite bool_decide_eq_true_2, Hp in Hl by done. simpl in Hl. injection Hl as <-.
  exists id, r. split_and!; [done..|].
  rewrite (job_claimDue_lookup _ _ _ _ _ _ _ Hwf Hr).
  by rewrite bool_decide_eq_true_2, Hp by done.
Qed.

(** With room for every due row, a claim takes them all. *)
Lemma job_due_ids_complete now limit t id r :
  job_wf t -> t !! id = Some r -> job_due now r = true ->
  (length (rows_where (job_due now) t) <= sql_limit limit)%nat ->
  id ∈ job_due_ids now limit t.
Proof.
  intros Hwf Hr Hd Hlen. unfold job_due_ids.
  rewrite take_ge by (by rewrite (sort_by_perm job_order)).
  rewrite <- (Hwf id r Hr). apply list_elem_of_fmap_2, sort_by_elem, rows_where_spec. eauto.
Qed.

Lemma job_releaseStale_lookup olderThan now t id r :
  t !! id = Some r -> has_status JSending r = true -> j_updated_at (jr_head r) <= olderThan ->
  (job_releaseStale olderThan now t).1 !! id = Some (job_release now r).
Proof.
  intros Hr Hs Ho. unfold job_releaseStale. simpl. rewrite lookup_fmap, Hr. simpl.
  by rewrite Hs, bool_decide_eq_true_2.
Qed.

Lemma job_releaseStale_wf olderThan now t : job_wf t -> job_wf (job_releaseStale olderThan now t).1.
Proof.
  intros Hwf id r'. unfold job_releaseStale. simpl. rewrite lookup_fmap.
  destruct (t !! id) as [r|] eqn:Hr; simpl; [|done]. intros [= <-].
  pose proof (Hwf id r Hr) as Hid. destruct (_ && _)%bool; [|done].
  unfold job_id in *. by rewrite job_release_head.
Qed.
End Claims.

(** *** Sample rows, for the witnesses *)

Definition sample_job (generation : string) (status : JobStatus) (updated : Z) : Teardown.Job := {|
  Teardown.td_head := {| j_id := "j1"; j_generation := generation; j_status := status;
                         j_attempts := 1; j_next_attempt_at := Some 0; j_last_error := None;
                         j_created_at := 0; j_updated_at := updated |};
  Teardown.td_user_id := "u1";
  Teardown.td_requested_by := None;
  Teardown.td_completed_at := None;
|}.

Definition sample_queue : Teardown.table := {["j1" := sample_job "g1" JSending 5]}.

(** ** Properties *)

(** For each job queue, once a claim on a job has been lost (settled,
    released by the stale sweep, re-owned by an upsert, or claimed again),
    nothing any instance does gives it back, and what its former owner still
    wants to write (a reschedule or a delete) is refused and leaves the table
    as it was. *)
Theorem job_lost_claim_refused {R : Type} `{JobRowLaws R}
    (s s' : gmap string R * gset string) (job : R)
    (Hrun : rtc job_step s s')
    (Hknown : job_generation job ∈ s.2)
    (Hlost : claim_held (job_id job) (job_generation job) s.1 = false) :
  claim_held (job_id job) (job_generation job) s'.1 = false
  /\ job_deleteClaimed job s'.1 = (s'.1, false)
  /\ (forall next error now, job_reschedule job next error now s'.1 = (s'.1, false)).
Proof.
  assert (Hl : claim_held (job_id job) (job_generation job) s'.1 = false).
  { apply job_run_fenced in Hrun.
    by apply (claim_lost_forever s s' (job_id job) (job_generation job) Hrun). }
  split_and!; [done|by apply job_on_match_refused|intros; by apply job_on_match_refused].
Qed.

(** A worker's claim on a teardown job is released as stale and the job is
    claimed by another worker: the first worker's delete is refused. *)
Lemma job_lost_claim_refused_witness :
  exists s1 s2 : Teardown.table * gset string,
    rtc job_step (sample_queue, {["g1"]}) s1 /\ rtc job_step s1 s2
    /\ claim_held "j1" "g2" s2.1 = true
    /\ Teardown.deleteClaimed (sample_job "g1" JSending 5) s2.1 = (s2.1, false).
Proof.
  pose (op1 := OpReleaseStale 100 400 : job_op Teardown.Job).
  pose (s1 := (job_exec op1 sample_queue, {["g1"%string]} ∪ job_generations (job_exec op1 sample_queue))).
  pose (op2 := OpClaimDue 450 1 "g2" 450 : job_op Teardown.Job).
  pose (s2 := (job_exec op2 s1.1, s1.2 ∪ job_generations (job_exec op2 s1.1))).
  assert (H2 : job_step s1 s2).
  { apply (job_step_intro op2). simpl. apply (bool_decide_eq_true_1 _). vm_compute. reflexivity. }
  exists s1, s2. split_and!.
  - apply rtc_once. by apply (job_step_intro op1).
  - by apply rtc_once.
  - vm_compute. reflexivity.
  - apply (job_lost_claim_refused s1 s2 (sample_job "g1" JSending 5)).
    + by apply rtc_once.
    + apply (bool_decide_eq_true_1 _). vm_compute. reflexivity.
    + vm_compute. reflexivity.
Defined.

(** An abandoned claim is recovered. The stale sweep puts a job whose
    claim was not touched since [olderThan] back into the queue, due at once;
    a claim with room for every due job then returns it, one attempt further on,
    under the new generation, and the claim that was abandoned is gone. A claim
    touched after [olderThan] is left to its owner. *)
Theorem job_abandoned_claim_recovered {R : Type} `{JobRowLaws R}
    (t : gmap string R) (id : string) (r : R) (olderThan now now' limit stamp : Z)
    (generation : string)
    (Hwf : job_wf t) (Hr : t !! id = Some r) (Hs : has_status JSending r = true)
    (Hnow : now <= now') (Hfresh : generation <> job_generation r)
    (Hroom : Z.of_nat (length (rows_where (job_due now') (job_releaseStale olderThan now t).1)) <= limit) :
  let t1 := (job_releaseStale olderThan now t).1 in
  let t2 := (job_claimDue now' limit generation stamp t1).1 in
  let claimed := (job_claimDue now' limit generation stamp t1).2 in
  (j_updated_at (jr_head r) <= olderThan ->
     exists c, c ∈ claimed /\ job_id c = id /\ job_generation c = generation
       /\ job_attempts c = job_attempts r + 1
       /\ claim_held id generation t2 = true
       /\ claim_held id (job_generation r) t2 = false)
  /\ (olderThan < j_updated_at (jr_head r) -> claim_held id (job_generation r) t2 = true).
Proof.
  intros t1 t2' claimed'. pose proof (job_releaseStale_wf olderThan now t Hwf) as Hwf1. fold t1 in Hwf1, Hroom.
  destruct (job_claimDue now' limit generation stamp t1) as [t2 claimed] eqn:Hc.
  subst t2' claimed'. simpl.
  pose proof (fun r1 => job_claimDue_lookup now' limit generation stamp t1 id r1 Hwf1) as Hl2.
  rewrite Hc in Hl2. simpl in Hl2.
  split; intros Hold.
  - pose proof (job_releaseStale_lookup olderThan now t id r Hr Hs Hold) as H1. fold t1 in H1.
    assert (Hd : job_due now' (job_release now r) = true).
    { unfold job_due, has_status. rewrite job_release_head. simpl.
      by rewrite bool_decide_eq_true_2. }
    assert (Hin : id ∈ job_due_ids now' limit t1).
    { eapply job_due_ids_complete; [done..|]. unfold sql_limit. lia. }
    assert (Hp : has_status JPending (job_release now r) = true)
      by (unfold job_due in Hd; by bool_to_prop).
    specialize (Hl2 _ H1). rewrite (bool_decide_eq_true_2 _ Hin), Hp in Hl2. simpl in Hl2.
    exists (job_claim generation stamp (job_release now r)).
    assert (Hgen : job_generation (job_claim generation stamp (job_release now r)) = generation)
      by apply job_claim_generation.
    split_and!.
    + replace claimed with (job_claimDue now' limit generation stamp t1).2 by (by rewrite Hc).
      change ((job_claimDue now' limit generation stamp t1).2) with
        (omap (fun id => (job_claimDue now' limit generation stamp t1).1 !! id)
           (job_due_ids now' limit t1)).
      apply list_elem_of_omap. exists id. rewrite Hc. done.
    + unfold job_id. rewrite job_claim_head, job_release_head. by apply Hwf in Hr.
    + done.
    + unfold job_attempts. by rewrite job_claim_head, job_release_head.
    + unfold claim_held. rewrite Hl2. simpl. rewrite Hgen, bool_decide_eq_true_2 by done.
      unfold has_status. by rewrite job_claim_head.
    + unfold claim_held. rewrite Hl2. simpl. by rewrite Hgen, bool_decide_eq_false_2.
  - assert (H1 : t1 !! id = Some r).
    { unfold t1, job_releaseStale. simpl. rewrite lookup_fmap, Hr. simpl.
      rewrite Hs, bool_decide_eq_false_2 by lia. done. }
    assert (Hp : has_status JPending r = false).
    { unfold has_status in *. bool_to_prop. apply bool_decide_eq_false_2. congruence. }
    specialize (Hl2 _ H1). rewrite Hp, andb_false_r in Hl2.
    unfold claim_held. rewrite Hl2. simpl. by rewrite Hs, bool_decide_eq_true_2.
Qed.

Lemma job_abandoned_claim_recovered_witness :
  let t1 := (job_releaseStale 100 400 sample_queue).1 in
  let t2 := (job_claimDue 450 10 "g2" 450 t1).1 in
  let claimed := (job_claimDue 450 10 "g2" 450 t1).2 in
  exists c, c ∈ claimed /\ job_id c = "j1"%string /\ job_generation c = "g2"%string
    /\ job_attempts c = job_attempts (sample_job "g1" JSending 5) + 1
    /\ claim_held "j1" "g2" t2 = true
    /\ claim_held "j1" (job_generation (sample_job "g1" JSending 5)) t2 = false.
Proof.
  refine (proj1 (job_abandoned_claim_recovered sample_queue "j1" (sample_job "g1" JSending 5)
                   100 400 450 10 450 "g2" _ _ _ _ _ _) _).
  - apply (bool_decide_eq_true_1 _). vm_compute. reflexivity.
  - vm_compute. reflexivity.
  - reflexivity.
  - lia.
  - done.
  - vm_compute. done.
  - vm_compute. done.
Defined.

(** A job is never lost. Whatever one statement does, a job disappears
    from its queue only when the holder of its current claim deletes it, or
    when everything owed for its account or subject is deleted. *)
Theorem job_removed_only_by_holder {R : Type} `{JobRowLaws R}
    (op : job_op R) (t : gmap string R) (id : string) (r : R)
    (Hr : t !! id = Some r) (Hgone : job_exec op t !! id = None) :
  (exists job, op = OpDeleteClaimed job /\ job_id job = id
     /\ claim_held id (job_generation job) t = true)
  \/ (exists same, op = OpDeleteBy same /\ same r = true).
Proof.
  destruct op; simpl in Hgone.
  - unfold job_upsert in Hgone. destruct (job_find same t); simpl in Hgone;
      rewrite lookup_insert in Hgone; case_decide; congruence.
  - rewrite lookup_fmap, Hr in Hgone. done.
  - unfold job_claimPending in Hgone. destruct (job_on_match _ _ _ _) as [t' b] eqn:Hm.
    apply job_on_match_spec in Hm as [[_ ->]|(_ & ? & ? & _ & ->)]; simpl in Hgone; [congruence|].
    rewrite lookup_insert in Hgone. case_decide; congruence.
  - unfold job_reschedule in Hgone. destruct (job_on_match _ _ _ _) as [t' b] eqn:Hm.
    apply job_on_match_spec in Hm as [[_ ->]|(_ & ? & ? & _ & ->)]; simpl in Hgone; [congruence|].
    rewrite lookup_insert in Hgone. case_decide; congruence.
  - left. exists job. pose proof (job_on_match_iff_held job (fun _ t => delete (job_id job) t) t) as Hh.
    unfold job_deleteClaimed in Hgone. destruct (job_on_match _ _ _ _) as [t' b] eqn:Hm.
    apply job_on_match_spec in Hm as [[_ ->]|(-> & ? & ? & _ & ->)]; simpl in Hgone; [congruence|].
    rewrite lookup_delete in Hgone. case_decide as Hid; [subst id|congruence]. auto.
  - rewrite lookup_alter in Hgone. case_decide; [|congruence]. subst id0. by rewrite Hr in Hgone.
  - rewrite lookup_fmap, Hr in Hgone. done.
  - right. exists same. split; [done|].
    apply map_lookup_filter_None in Hgone as [Hn|Hn]; [congruence|].
    specialize (Hn r Hr). simpl in Hn. by destruct (same r).
Qed.

Lemma job_removed_only_by_holder_witness :
  (exists job, OpDeleteClaimed (sample_job "g1" JSending 5) = OpDeleteClaimed job
     /\ job_id job = "j1"%string /\ claim_held "j1" (job_generation job) sample_queue = true)
  \/ (exists same, OpDeleteClaimed (sample_job "g1" JSending 5) = OpDeleteBy same
        /\ same (sample_job "g1" JSending 5) = true).
Proof.
  apply (job_removed_only_by_holder (OpDeleteClaimed (sample_job "g1" JSending 5)) sample_queue
           "j1" (sample_job "g1" JSending 5)); vm_compute; reflexivity.
Defined.
