(* ===== verification/Settings.v ===== *)
(** * Portal settings

    The [app_settings] repository of the SQLite adapter
    ([server/src/db/adapters/sqlite/index.ts]). A value is its JSON text, as
    [JSON.stringify] writes it and the column keeps it. *)

From S2P Require Import Prelude.
Open Scope Z_scope.

Record SettingRecord : Type := {
  s_key : string;
  s_value : string;
  s_encrypted : bool;
  s_created_at : Z;
  s_updated_at : Z;
}.

#[export] Instance SettingRecord_eq_dec : EqDecision SettingRecord.
Proof. solve_decision. Defined.

(** [app_settings], by its primary key [key]. *)
Abbreviation setting_table := (gmap string SettingRecord).

Definition settings_get (key : string) (t : setting_table) : option SettingRecord := t !! key.

(** The order of the rows is not specified; the map's order stands for it. *)
Definition settings_getMany (keys : list string) (t : setting_table) : list SettingRecord :=
  map snd (filter (fun '(k, _) => k ∈ keys) (map_to_list t)).

(** [INSERT ... ON CONFLICT (key) DO UPDATE]: a replaced row keeps its
    [created_at]. *)
Definition settings_set (key value : string) (encrypted : bool) (at_ : Z) (t : setting_table)
    : setting_table * SettingRecord :=
  let row := {| s_key := key; s_value := value; s_encrypted := encrypted;
                s_created_at := match t !! key with Some r => s_created_at r | None => at_ end;
                s_updated_at := at_ |} in
  (<[key := row]> t, row).

Definition settings_insertIfAbsent (key value : string) (encrypted : bool) (at_ : Z)
    (t : setting_table) : setting_table * bool :=
  match t !! key with
  | Some _ => (t, false)
  | None => (<[key := {| s_key := key; s_value := value; s_encrypted := encrypted;
                         s_created_at := at_; s_updated_at := at_ |}]> t, true)
  end.

Definition settings_replaceEncryptedIfMatches (key expected value : string) (at_ : Z)
    (t : setting_table) : setting_table * bool :=
  match t !! key with
  | Some r =>
      if s_encrypted r && bool_decide (s_value r = expected)
      then (<[key := {| s_key := s_key r; s_value := value; s_encrypted := s_encrypted r;
                        s_created_at := s_created_at r; s_updated_at := at_ |}]> t, true)
      else (t, false)
  | None => (t, false)
  end.

(** One transaction: the entries in order, under one time. *)
Definition settings_setMany (entries : list (string * string * bool)) (at_ : Z) (t : setting_table)
    : setting_table :=
  foldl (fun t '(key, value, encrypted) => (settings_set key value encrypted at_ t).1) t entries.

Definition settings_delete (key : string) (t : setting_table) : setting_table * bool :=
  (delete key t, bool_decide (is_Some (t !! key))).

Lemma settings_set_lookup key value encrypted at_ t key' :
  (settings_set key value encrypted at_ t).1 !! key' =
    if decide (key = key')
    then Some {| s_key := key; s_value := value; s_encrypted := encrypted;
                 s_created_at := match t !! key with Some r => s_created_at r | None => at_ end;
                 s_updated_at := at_ |}
    else t !! key'.
Proof. unfold settings_set. simpl. by rewrite lookup_insert. Qed.
