(* ===== verification/AuditLog.v ===== *)
(** * The audit trail

    [server/src/audit/service.ts] over the [audit_logs] repository of the SQLite
    adapter ([server/src/db/adapters/sqlite/index.ts]). The trail only grows. *)

From S2P Require Import Prelude Json Roles.
Open Scope Z_scope.

Record AuditActor : Type := {
  actor_id : option string;
  actor_role : option Role;
}.

Record AuditTarget : Type := {
  target_type : string;
  target_id : option string;
}.

Record AuditLogRecord : Type := {
  a_id : string;
  a_actor_user_id : option string;
  a_actor_role : option Role;
  a_action : string;
  a_target_type : string;
  a_target_id : option string;
  a_details : list (string * json);
  a_ip : option string;
  a_created_at : Z;
}.

(** [audit_logs], by its primary key [id]. *)
Abbreviation audit_table := (gmap string AuditLogRecord).

Definition SYSTEM_ACTOR : AuditActor := {| actor_id := None; actor_role := None |}.
Definition ANONYMOUS_ACTOR : AuditActor := {| actor_id := None; actor_role := None |}.

(** [INSERT INTO audit_logs]: a taken id violates the primary key. *)
Definition auditLogs_create (row : AuditLogRecord) (t : audit_table)
    : res exn (AuditLogRecord * audit_table) :=
  match t !! a_id row with
  | Some _ => Throw (driverError "UNIQUE constraint failed: audit_logs.id")
  | None => Ok (row, <[a_id row := row]> t)
  end.

(** The [details] conditions match the text of the column with [LIKE] and are
    left out of the filter. *)
Record AuditLogFilter : Type := {
  af_actor_user_id : option string;
  af_action : option string;
  af_actions : option (list string);
  af_target_type : option string;
  af_target_id : option string;
  af_from : option Z;
  af_to : option Z;
}.

Definition no_audit_filter : AuditLogFilter := {|
  af_actor_user_id := None; af_action := None; af_actions := None; af_target_type := None;
  af_target_id := None; af_from := None; af_to := None;
|}.

Definition auditWhere (filter : AuditLogFilter) (r : AuditLogRecord) : bool :=
  asked (af_actor_user_id filter) (fun id => bool_decide (a_actor_user_id r = Some id))
  && asked (af_action filter) (fun a => bool_decide (a_action r = a))
  && asked (af_target_type filter) (fun a => bool_decide (a_target_type r = a))
  && asked (af_target_id filter) (fun a => bool_decide (a_target_id r = Some a))
  && asked (af_from filter) (fun from => bool_decide (from <= a_created_at r))
  && asked (af_to filter) (fun to => bool_decide (a_created_at r < to))
  && asked (af_actions filter) (fun l => bool_decide (a_action r ∈ l)).

(** [ORDER BY created_at DESC, id DESC]. *)
Definition audit_newest_first (a b : AuditLogRecord) : bool :=
  leb_of (then_by (Z.compare (a_created_at b) (a_created_at a)) (String.compare (a_id b) (a_id a))).

Definition auditLogs_list (filter : AuditLogFilter) (limit offset : option jsnum) (t : audit_table)
    : list AuditLogRecord * Z :=
  let rows := sort_by audit_newest_first (rows_where (auditWhere filter) t) in
  (take (Z.to_nat (clampPageSize limit)) (drop (Z.to_nat (page_offset offset)) rows),
   Z.of_nat (length rows)).

Definition auditLogs_count (filter : AuditLogFilter) (t : audit_table) : Z :=
  Z.of_nat (length (rows_where (auditWhere filter) t)).

(** [record]: the row of one action, with the id the caller minted or a new
    one. *)
Definition audit_row (actor : AuditActor) (action : string) (target : AuditTarget)
    (details : list (string * json)) (ip id : option string) (newId : string) (now : Z)
    : AuditLogRecord := {|
  a_id := default newId id;
  a_actor_user_id := actor_id actor;
  a_actor_role := actor_role actor;
  a_action := action;
  a_target_type := target_type target;
  a_target_id := target_id target;
  a_details := details;
  a_ip := ip;
  a_created_at := now;
|}.

Definition detail (key : string) (details : list (string * json)) : option json :=
  snd <$> head (filter (fun p => p.1 = key) details).

(** Among [rows], newest first, the last other row with the detail. *)
Fixpoint earliestPriorAttempt (rows : list AuditLogRecord) (currentId key : string)
    (earliest : option (list (string * json))) : option (list (string * json)) :=
  match rows with
  | [] => earliest
  | row :: rest =>
      earliestPriorAttempt rest currentId key
        (if bool_decide (a_id row <> currentId)
            && match detail key (a_details row) with Some JNull | None => false | Some _ => true end
         then Some (a_details row) else earliest)
  end.

Lemma auditLogs_create_grows row t row' t' :
  auditLogs_create row t = Ok (row', t') -> t ⊆ t' /\ row' = row /\ t' !! a_id row = Some row.
Proof.
  unfold auditLogs_create. destruct (t !! a_id row) eqn:Hid; [done|]. intros [= <- <-].
  split_and!; [by apply insert_subseteq|done|by rewrite lookup_insert_eq].
Qed.
