(* ===== verification/AccessTables.v ===== *)
(** * The tables of the access workflow

    [accessRequests] and [grants] of the SQLite adapter
    ([server/src/db/adapters/sqlite/index.ts]), with the partial unique indexes
    and the foreign keys of [db/migrations/001_initial.sql] and the later
    migrations, one function per statement; and the rows the access service reads
    of [apis], [applications] and [consumers]. [nowIso()] and [newId()] are
    arguments. *)

From S2P Require Import Prelude Json Roles.
Open Scope Z_scope.

Inductive AccessRequestStatus : Type :=
| RequestPending | RequestApproved | RequestDenied | RequestRevoked | RequestCancelled.

#[export] Instance AccessRequestStatus_eq_dec : EqDecision AccessRequestStatus.
Proof. solve_decision. Defined.

Inductive GrantStatus : Type := GrantActive | GrantRevoked.

#[export] Instance GrantStatus_eq_dec : EqDecision GrantStatus.
Proof. solve_decision. Defined.

Record AccessRequestRecord : Type := {
  rq_id : string;
  rq_api_id : string;
  rq_user_id : string;
  rq_application_id : option string;
  rq_justification : string;
  rq_requested_tools : option (list string);
  rq_approved_tools : option (list string);
  rq_grant_id : option string;
  rq_status : AccessRequestStatus;
  rq_decided_by : option string;
  rq_decided_at : option Z;
  rq_decision_note : option string;
  rq_created_at : Z;
  rq_updated_at : Z;
}.

#[export] Instance AccessRequestRecord_eq_dec : EqDecision AccessRequestRecord.
Proof. solve_decision. Defined.

Record GrantRecord : Type := {
  g_id : string;
  g_api_id : string;
  g_user_id : string;
  g_application_id : option string;
  g_access_request_id : option string;
  g_acl_group : string;
  g_approved_tools : option (list string);
  g_status : GrantStatus;
  g_granted_by : string;
  g_revoked_by : option string;
  g_revoked_at : option Z;
  g_created_at : Z;
  g_updated_at : Z;
}.

#[export] Instance GrantRecord_eq_dec : EqDecision GrantRecord.
Proof. solve_decision. Defined.

(** The columns of [apis] the access service reads. *)
Inductive ApiStatus : Type := ApiPublished | ApiRetired.
Inductive ApiVisibility : Type := VisibilityPublic | VisibilityInternal | VisibilityPrivate.

#[export] Instance ApiStatus_eq_dec : EqDecision ApiStatus.
Proof. solve_decision. Defined.
#[export] Instance ApiVisibility_eq_dec : EqDecision ApiVisibility.
Proof. solve_decision. Defined.

Record ApiRecord : Type := {
  api_id : string;
  api_name : string;
  api_slug : string;
  api_owner_user_id : string;
  api_ferrum_proxy_id : option string;
  api_requestable : bool;
  (** [agents.operations.map((tool) => tool.id)]. *)
  api_agents : option (list (option string));
  api_status : ApiStatus;
  api_visibility : ApiVisibility;
}.

Inductive ApplicationStatus : Type := ApplicationActive | ApplicationDisabled.

#[export] Instance ApplicationStatus_eq_dec : EqDecision ApplicationStatus.
Proof. solve_decision. Defined.

Record ApplicationRecord : Type := {
  app_id : string;
  app_owner_user_id : string;
  app_status : ApplicationStatus;
}.

Record ConsumerRecord : Type := {
  cs_id : string;
  cs_user_id : string;
  cs_application_id : option string;
  cs_namespace : string;
  cs_ferrum_consumer_id : string;
  cs_ferrum_username : string;
  cs_created_at : Z;
}.

Abbreviation request_table := (gmap string AccessRequestRecord).
Abbreviation grant_table := (gmap string GrantRecord).

Record access_tables : Type := {
  at_requests : request_table;
  at_grants : grant_table;
  at_apis : gmap string ApiRecord;
  at_applications : gmap string ApplicationRecord;
  at_consumers : gmap string ConsumerRecord;
}.

Definition access_empty : access_tables := {|
  at_requests := ∅; at_grants := ∅; at_apis := ∅; at_applications := ∅; at_consumers := ∅;
|}.

Definition with_requests (t : request_table) (a : access_tables) : access_tables := {|
  at_requests := t; at_grants := at_grants a; at_apis := at_apis a;
  at_applications := at_applications a; at_consumers := at_consumers a;
|}.
Definition with_grants (t : grant_table) (a : access_tables) : access_tables := {|
  at_requests := at_requests a; at_grants := t; at_apis := at_apis a;
  at_applications := at_applications a; at_consumers := at_consumers a;
|}.
Definition with_consumers (t : gmap string ConsumerRecord) (a : access_tables) : access_tables := {|
  at_requests := at_requests a; at_grants := at_grants a; at_apis := at_apis a;
  at_applications := at_applications a; at_consumers := t;
|}.

(** ** Identities

    What both partial unique indexes are on: the API, the account, and the
    application, [COALESCE (application_id, '')]. *)
Definition identity : Type := string * string * string.

Definition identity_of (apiId userId : string) (applicationId : option string) : identity :=
  (apiId, userId, default ""%string applicationId).

Definition rq_identity (r : AccessRequestRecord) : identity :=
  identity_of (rq_api_id r) (rq_user_id r) (rq_application_id r).
Definition g_identity (g : GrantRecord) : identity :=
  identity_of (g_api_id g) (g_user_id g) (g_application_id g).

Definition is_pending (r : AccessRequestRecord) : bool := bool_decide (rq_status r = RequestPending).
Definition is_active (g : GrantRecord) : bool := bool_decide (g_status g = GrantActive).

(** [ux_access_requests_pending] and [ux_grants_active] after the write of a row:
    another row of the identity that the index covers refuses it. *)
Definition pending_taken (r : AccessRequestRecord) (t : request_table) : bool :=
  is_pending r
  && bool_decide (rows_where (fun x => is_pending x && bool_decide (rq_identity x = rq_identity r)
                                       && bool_decide (rq_id x <> rq_id r)) t <> []).
Definition active_taken (g : GrantRecord) (t : grant_table) : bool :=
  is_active g
  && bool_decide (rows_where (fun x => is_active x && bool_decide (g_identity x = g_identity g)
                                       && bool_decide (g_id x <> g_id g)) t <> []).

(** The rows a foreign key may name. *)
Record references : Type := {
  ref_user : string -> bool;
  ref_api : string -> bool;
  ref_application : string -> bool;
  ref_request : string -> bool;
}.

Definition ref_opt (exists_ : string -> bool) (id : option string) : bool :=
  match id with Some i => exists_ i | None => true end.

(** [mapConflict]: a unique index or a primary key, then a foreign key. *)
Definition REFERENCED : string := " (referenced record does not exist or is still in use)".

Definition map_conflict {A} (message : string) (unique references : bool) (write : A) : res exn A :=
  if negb unique then Throw (conflict message [])
  else if negb references then Throw (conflict (message +:+ REFERENCED) [])
  else Ok write.

Definition PENDING_CONFLICT : string := "You already have a pending request for this API".
Definition ACTIVE_CONFLICT : string := "An active grant already exists for this API and user".

(** ** [accessRequests] *)

Definition request_refs (refs : references) (r : AccessRequestRecord) : bool :=
  ref_api refs (rq_api_id r) && ref_user refs (rq_user_id r)
  && ref_opt (ref_application refs) (rq_application_id r)
  && ref_opt (ref_user refs) (rq_decided_by r).

Definition requests_create (refs : references) (row : AccessRequestRecord) (t : request_table)
    : res exn (AccessRequestRecord * request_table) :=
  map_conflict PENDING_CONFLICT
    (bool_decide (t !! rq_id row = None) && negb (pending_taken row t)) (request_refs refs row)
    (row, <[rq_id row := row]> t).

Definition requests_findById (id : string) (t : request_table) : option AccessRequestRecord := t !! id.

(** [UpdateInput<AccessRequestRecord>]: the columns of
    [accessRequestUpdateColumns]; the others are ignored. *)
Record RequestPatch : Type := {
  rp_justification : option string;
  rp_requested_tools : option (option (list string));
  rp_approved_tools : option (option (list string));
  rp_status : option AccessRequestStatus;
  rp_decided_by : option (option string);
  rp_decided_at : option (option Z);
  rp_decision_note : option (option string);
}.

Definition accessRequestUpdateColumns (patch : RequestPatch) (at_ : Z) (r : AccessRequestRecord)
    : AccessRequestRecord := {|
  rq_id := rq_id r; rq_api_id := rq_api_id r; rq_user_id := rq_user_id r;
  rq_application_id := rq_application_id r;
  rq_justification := default (rq_justification r) (rp_justification patch);
  rq_requested_tools := default (rq_requested_tools r) (rp_requested_tools patch);
  rq_approved_tools := default (rq_approved_tools r) (rp_approved_tools patch);
  rq_grant_id := rq_grant_id r;
  rq_status := default (rq_status r) (rp_status patch);
  rq_decided_by := default (rq_decided_by r) (rp_decided_by patch);
  rq_decided_at := default (rq_decided_at r) (rp_decided_at patch);
  rq_decision_note := default (rq_decision_note r) (rp_decision_note patch);
  rq_created_at := rq_created_at r; rq_updated_at := at_;
|}.

(** [setParts(...)] is [null]. *)
Definition no_request_columns (patch : RequestPatch) : bool :=
  match patch with
  | {| rp_justification := None; rp_requested_tools := None; rp_approved_tools := None;
       rp_status := None; rp_decided_by := None; rp_decided_at := None; rp_decision_note := None |} => true
  | _ => false
  end.

Definition request_write (refs : references) (patch : RequestPatch) (at_ : Z)
    (r : AccessRequestRecord) (t : request_table) : res exn (option AccessRequestRecord * request_table) :=
  let r' := accessRequestUpdateColumns patch at_ r in
  map_conflict PENDING_CONFLICT (negb (pending_taken r' t))
    (match rp_decided_by patch with Some by_ => ref_opt (ref_user refs) by_ | None => true end)
    (Some r', <[rq_id r := r']> t).

Definition requests_update (refs : references) (id : string) (patch : RequestPatch) (at_ : Z)
    (t : request_table) : res exn (option AccessRequestRecord * request_table) :=
  match t !! id with
  | None => Ok (None, t)
  | Some r => if no_request_columns patch then Ok (Some r, t) else request_write refs patch at_ r t
  end.

Definition requests_updateIfStatus (refs : references) (id : string) (expected : AccessRequestStatus)
    (patch : RequestPatch) (at_ : Z) (t : request_table)
    : res exn (option AccessRequestRecord * request_table) :=
  match t !! id with
  | None => Ok (None, t)
  | Some r =>
      if bool_decide (rq_status r = expected) then
        if no_request_columns patch then Ok (Some r, t) else request_write refs patch at_ r t
      else Ok (None, t)
  end.

(** [addScope]: [undefined] is every scope, [null] is a value. *)
Definition in_scope (scope : option (option string)) (application : option string) : bool :=
  match scope with None => true | Some s => bool_decide (application = s) end.

Record AccessRequestFilter : Type := {
  rf_user_id : option string;
  rf_api_id : option string;
  rf_application_id : option (option string);
  rf_api_ids : option (list string);
  rf_status : option AccessRequestStatus;
}.

Definition accessRequestWhere (filter : AccessRequestFilter) (r : AccessRequestRecord) : bool :=
  asked (rf_user_id filter) (fun u => bool_decide (rq_user_id r = u))
  && asked (rf_api_id filter) (fun a => bool_decide (rq_api_id r = a))
  && in_scope (rf_application_id filter) (rq_application_id r)
  && asked (rf_status filter) (fun s => bool_decide (rq_status r = s))
  && asked (rf_api_ids filter) (fun l => bool_decide (rq_api_id r ∈ l)).

(** [ORDER BY created_at DESC, id DESC]. *)
Definition newest_first {R} (created : R -> Z) (id : R -> string) (a b : R) : bool :=
  leb_of (then_by (Z.compare (created b) (created a)) (String.compare (id b) (id a))).

Definition paged {R} (limit offset : option jsnum) (rows : list R) : list R * Z :=
  (take (Z.to_nat (clampPageSize limit)) (drop (Z.to_nat (page_offset offset)) rows),
   Z.of_nat (length rows)).

Definition requests_list (filter : AccessRequestFilter) (limit offset : option jsnum) (t : request_table)
    : list AccessRequestRecord * Z :=
  paged limit offset (sort_by (newest_first rq_created_at rq_id) (rows_where (accessRequestWhere filter) t)).

(** [WHERE status = ? AND id > ? ORDER BY id ASC LIMIT ?]. *)
Definition status_page {R} (matches : R -> bool) (id : R -> string) (afterId : option string) (limit : Z)
    (t : gmap string R) : list R :=
  take (sql_limit limit)
    (sort_by (fun a b => leb_of (String.compare (id a) (id b)))
       (rows_where (fun r => matches r && string_ltb (default ""%string afterId) (id r)) t)).

Definition requests_pageByStatus (status : AccessRequestStatus) : option string -> Z -> request_table -> list AccessRequestRecord :=
  status_page (fun r => bool_decide (rq_status r = status)) rq_id.

Definition requests_findPendingByApiAndUser (apiId userId : string) (applicationId : option string)
    (t : request_table) : option AccessRequestRecord :=
  head (rows_where (fun r => bool_decide (rq_api_id r = apiId) && bool_decide (rq_user_id r = userId)
                             && is_pending r && bool_decide (rq_application_id r = applicationId)) t).

Definition requests_findLatestByApiAndUser (apiId userId : string) (t : request_table)
    : option AccessRequestRecord :=
  head (sort_by (newest_first rq_created_at rq_id)
          (rows_where (fun r => bool_decide (rq_api_id r = apiId) && bool_decide (rq_user_id r = userId)) t)).

Definition requests_listLatestForUser (userId : string) (apiIds : list string) (t : request_table)
    : list AccessRequestRecord :=
  omap (fun apiId => requests_findLatestByApiAndUser apiId userId t) (remove_dups apiIds).

Definition requests_count (filter : AccessRequestFilter) (t : request_table) : Z :=
  Z.of_nat (length (rows_where (accessRequestWhere filter) t)).

(** [DELETE ... WHERE api_id = ?]. *)
Definition delete_where {R} (p : R -> bool) (t : gmap string R) : gmap string R * Z :=
  (filter (fun '(_, r) => p r = false) t, Z.of_nat (length (rows_where p t))).

Definition requests_deleteByApi (apiId : string) : request_table -> request_table * Z :=
  delete_where (fun r => bool_decide (rq_api_id r = apiId)).

(** ** [grants] *)

Definition grant_refs (refs : references) (g : GrantRecord) : bool :=
  ref_api refs (g_api_id g) && ref_user refs (g_user_id g)
  && ref_opt (ref_application refs) (g_application_id g)
  && ref_opt (ref_request refs) (g_access_request_id g)
  && ref_user refs (g_granted_by g) && ref_opt (ref_user refs) (g_revoked_by g).

Definition grants_create (refs : references) (row : GrantRecord) (t : grant_table)
    : res exn (GrantRecord * grant_table) :=
  map_conflict ACTIVE_CONFLICT
    (bool_decide (t !! g_id row = None) && negb (active_taken row t)) (grant_refs refs row)
    (row, <[g_id row := row]> t).

Definition grants_findById (id : string) (t : grant_table) : option GrantRecord := t !! id.

Record GrantPatch : Type := {
  gp_status : option GrantStatus;
  gp_acl_group : option string;
  gp_approved_tools : option (option (list string));
  gp_access_request_id : option (option string);
  gp_revoked_by : option (option string);
  gp_revoked_at : option (option Z);
}.

Definition grantUpdateColumns (patch : GrantPatch) (at_ : Z) (g : GrantRecord) : GrantRecord := {|
  g_id := g_id g; g_api_id := g_api_id g; g_user_id := g_user_id g;
  g_application_id := g_application_id g;
  g_access_request_id := default (g_access_request_id g) (gp_access_request_id patch);
  g_acl_group := default (g_acl_group g) (gp_acl_group patch);
  g_approved_tools := default (g_approved_tools g) (gp_approved_tools patch);
  g_status := default (g_status g) (gp_status patch);
  g_granted_by := g_granted_by g;
  g_revoked_by := default (g_revoked_by g) (gp_revoked_by patch);
  g_revoked_at := default (g_revoked_at g) (gp_revoked_at patch);
  g_created_at := g_created_at g; g_updated_at := at_;
|}.

Definition no_grant_columns (patch : GrantPatch) : bool :=
  match patch with
  | {| gp_status := None; gp_acl_group := None; gp_approved_tools := None;
       gp_access_request_id := None; gp_revoked_by := None; gp_revoked_at := None |} => true
  | _ => false
  end.

Definition grant_write (refs : references) (patch : GrantPatch) (at_ : Z) (g : GrantRecord)
    (t : grant_table) : res exn (option GrantRecord * grant_table) :=
  let g' := grantUpdateColumns patch at_ g in
  map_conflict ACTIVE_CONFLICT (negb (active_taken g' t))
    (match gp_access_request_id patch with Some id => ref_opt (ref_request refs) id | None => true end
     && match gp_revoked_by patch with Some by_ => ref_opt (ref_user refs) by_ | None => true end)
    (Some g', <[g_id g := g']> t).

Definition grants_update (refs : references) (id : string) (patch : GrantPatch) (at_ : Z)
    (t : grant_table) : res exn (option GrantRecord * grant_table) :=
  match t !! id with
  | None => Ok (None, t)
  | Some g => if no_grant_columns patch then Ok (Some g, t) else grant_write refs patch at_ g t
  end.

Definition grants_updateIfStatus (refs : references) (id : string) (expected : GrantStatus)
    (patch : GrantPatch) (at_ : Z) (t : grant_table) : res exn (option GrantRecord * grant_table) :=
  match t !! id with
  | None => Ok (None, t)
  | Some g =>
      if bool_decide (g_status g = expected) then
        if no_grant_columns patch then Ok (Some g, t) else grant_write refs patch at_ g t
      else Ok (None, t)
  end.

Record GrantFilter : Type := {
  gf_user_id : option string;
  gf_api_id : option string;
  gf_application_id : option (option string);
  gf_api_ids : option (list string);
  gf_status : option GrantStatus;
}.

Definition grantWhere (filter : GrantFilter) (g : GrantRecord) : bool :=
  asked (gf_user_id filter) (fun u => bool_decide (g_user_id g = u))
  && asked (gf_api_id filter) (fun a => bool_decide (g_api_id g = a))
  && in_scope (gf_application_id filter) (g_application_id g)
  && asked (gf_status filter) (fun s => bool_decide (g_status g = s))
  && asked (gf_api_ids filter) (fun l => bool_decide (g_api_id g ∈ l)).

Definition grants_list (filter : GrantFilter) (limit offset : option jsnum) (t : grant_table)
    : list GrantRecord * Z :=
  paged limit offset (sort_by (newest_first g_created_at g_id) (rows_where (grantWhere filter) t)).

Definition grants_pageByStatus (status : GrantStatus) : option string -> Z -> grant_table -> list GrantRecord :=
  status_page (fun g => bool_decide (g_status g = status)) g_id.

Definition grants_findActiveByApiAndUser (apiId userId : string) (applicationId : option string)
    (t : grant_table) : option GrantRecord :=
  head (rows_where (fun g => bool_decide (g_api_id g = apiId) && bool_decide (g_user_id g = userId)
                             && is_active g && bool_decide (g_application_id g = applicationId)) t).

Definition grants_listActiveByUser (userId : string) (applicationId : option (option string))
    (t : grant_table) : list GrantRecord :=
  rows_where (fun g => bool_decide (g_user_id g = userId) && is_active g
                       && in_scope applicationId (g_application_id g)) t.

Definition grants_listActiveByApi (apiId : string) (t : grant_table) : list GrantRecord :=
  rows_where (fun g => bool_decide (g_api_id g = apiId) && is_active g) t.

Definition grants_listActiveHolders (apiId : string) (userIds : list string) (t : grant_table)
    : list string :=
  remove_dups (g_user_id <$> rows_where (fun g => bool_decide (g_api_id g = apiId) && is_active g
                                                  && bool_decide (g_user_id g ∈ userIds)) t).

Definition grants_count (filter : GrantFilter) (t : grant_table) : Z :=
  Z.of_nat (length (rows_where (grantWhere filter) t)).

Definition grants_countByApplications (applicationIds : list string) (status : GrantStatus)
    (t : grant_table) : list (string * Z) :=
  map (fun id => (id, Z.of_nat (length (rows_where (fun g => bool_decide (g_status g = status)
                     && bool_decide (g_application_id g = Some id)) t)))) (remove_dups applicationIds).

Definition grants_deleteByApi (apiId : string) : grant_table -> grant_table * Z :=
  delete_where (fun g => bool_decide (g_api_id g = apiId)).

(** ** ACL groups

    [aclGroupForApi] of [shared/src/constants.ts] and the MCP groups of
    [shared/src/agents.ts]. *)
Definition ACL_GROUP_PREFIX : string := "nexus:api:".
Definition ACL_GROUP_APPROVED_SUFFIX : string := ":approved".

Definition aclGroupForApi (apiId : string) : string :=
  ACL_GROUP_PREFIX +:+ apiId +:+ ACL_GROUP_APPROVED_SUFFIX.

Definition mcpAllGroupForApi (apiId : string) : string := "nexus:api:" +:+ apiId +:+ ":mcp:all".
Definition mcpToolGroupForApi (apiId toolId : string) : string :=
  "nexus:api:" +:+ apiId +:+ ":mcp:tool:" +:+ toolId.

Definition mcpGroupsForGrant (apiId : string) (subset : option (list string)) : list string :=
  match subset with
  | None => [mcpAllGroupForApi apiId]
  | Some ids => map (mcpToolGroupForApi apiId) ids
  end.

Definition isMcpGroupForApi (group apiId : string) : bool :=
  bool_decide (group = mcpAllGroupForApi apiId)
  || startsWith ("nexus:api:" +:+ apiId +:+ ":mcp:tool:") group.

(** A group of the API, REST or MCP. *)
Definition isGroupOfApi (group apiId : string) : bool :=
  bool_decide (group = aclGroupForApi apiId) || isMcpGroupForApi group apiId.

Definition CONSUMER_USERNAME_PREFIX : string := "nexus-user-".
Definition APPLICATION_CONSUMER_USERNAME_PREFIX : string := "nexus-app-".
Definition consumerUsernameForUser (userId : string) : string := CONSUMER_USERNAME_PREFIX +:+ userId.
Definition consumerUsernameForApplication (applicationId : string) : string :=
  APPLICATION_CONSUMER_USERNAME_PREFIX +:+ applicationId.

(** ** [applications] and [consumers] *)

Definition consumers_findByUserAndNamespace (userId namespace : string) (applicationId : option string)
    (t : gmap string ConsumerRecord) : option ConsumerRecord :=
  head (rows_where (fun c => bool_decide (cs_user_id c = userId) && bool_decide (cs_namespace c = namespace)
                             && bool_decide (cs_application_id c = applicationId)) t).

(** ** Lemmas *)

(** Writes of a map indexed by the id of its rows keep it so. *)
Definition keyed {R} (id : R -> string) (t : gmap string R) : Prop :=
  map_Forall (fun k r => id r = k) t.

Lemma keyed_insert {R} (id : R -> string) (t : gmap string R) r :
  keyed id t -> keyed id (<[id r := r]> t).
Proof. intros Ht. by apply map_Forall_insert_2. Qed.

Lemma keyed_write {R} (id : R -> string) (t : gmap string R) k r :
  keyed id t -> id r = k -> keyed id (<[k := r]> t).
Proof. intros Ht <-. by apply keyed_insert. Qed.

Lemma map_conflict_ok {A} message u f (w a : A) :
  map_conflict message u f w = Ok a -> u = true /\ f = true /\ a = w.
Proof. unfold map_conflict. destruct u, f; simpl; by intros [=]. Qed.

Lemma head_some {A} (l : list A) x : head l = Some x -> x ∈ l.
Proof. destruct l; [done|]. intros [= ->]. apply elem_of_cons. by left. Qed.

Lemma rows_where_nil {R} (p : R -> bool) (t : gmap string R) :
  rows_where p t = [] <-> forall k r, t !! k = Some r -> p r = false.
Proof.
  split.
  - intros Hnil k r Hk. destruct (p r) eqn:Hp; [|done]. exfalso.
    assert (Hin : r ∈ rows_where p t) by (apply rows_where_spec; eauto).
    rewrite Hnil in Hin. by apply elem_of_nil in Hin.
  - intros Hall. destruct (rows_where p t) as [|r l] eqn:Hl; [done|]. exfalso.
    assert (Hin : r ∈ rows_where p t) by (rewrite Hl; apply elem_of_cons; by left).
    apply rows_where_spec in Hin as (k & Hk & Hp). by rewrite (Hall k r Hk) in Hp.
Qed.

Lemma head_rows_none {R} (p : R -> bool) (t : gmap string R) :
  head (rows_where p t) = None -> forall k r, t !! k = Some r -> p r = false.
Proof. intros Hh. apply rows_where_nil. by destruct (rows_where p t). Qed.

(** What a write that returned says. *)
Lemma requests_create_ok refs row t r t' :
  requests_create refs row t = Ok (r, t') ->
  r = row /\ t' = <[rq_id row := row]> t /\ t !! rq_id row = None /\ pending_taken row t = false
  /\ request_refs refs row = true.
Proof.
  unfold requests_create. intros (Hu & Hf & [= -> ->])%map_conflict_ok. bool_to_prop. done.
Qed.

Lemma grants_create_ok refs row t g t' :
  grants_create refs row t = Ok (g, t') ->
  g = row /\ t' = <[g_id row := row]> t /\ t !! g_id row = None /\ active_taken row t = false
  /\ grant_refs refs row = true.
Proof.
  unfold grants_create. intros (Hu & Hf & [= -> ->])%map_conflict_ok. bool_to_prop. done.
Qed.

(** A compare-and-set that moved the row found it in the status it expected. *)
Lemma requests_updateIfStatus_some refs id expected patch at_ t r' t' :
  no_request_columns patch = false ->
  requests_updateIfStatus refs id expected patch at_ t = Ok (Some r', t') ->
  exists r, t !! id = Some r /\ rq_status r = expected /\
    r' = accessRequestUpdateColumns patch at_ r /\ t' = <[rq_id r := r']> t /\
    pending_taken r' t = false.
Proof.
  unfold requests_updateIfStatus. intros ->. destruct (t !! id) as [r|]; [|done].
  case_bool_decide; [|done]. unfold request_write. intros (Hu & _ & [= -> ->])%map_conflict_ok.
  bool_to_prop. exists r. done.
Qed.

Lemma requests_updateIfStatus_none refs id expected patch at_ t t' :
  no_request_columns patch = false ->
  requests_updateIfStatus refs id expected patch at_ t = Ok (None, t') ->
  t' = t /\ forall r, t !! id = Some r -> rq_status r <> expected.
Proof.
  unfold requests_updateIfStatus. intros ->. destruct (t !! id) as [r|].
  - case_bool_decide; [by intros (_ & _ & ?)%map_conflict_ok|]. intros [= <-].
    split; [done|]. by intros r0 [= <-].
  - intros [= <-]. done.
Qed.

Lemma grants_updateIfStatus_some refs id expected patch at_ t g' t' :
  no_grant_columns patch = false ->
  grants_updateIfStatus refs id expected patch at_ t = Ok (Some g', t') ->
  exists g, t !! id = Some g /\ g_status g = expected /\
    g' = grantUpdateColumns patch at_ g /\ t' = <[g_id g := g']> t /\ active_taken g' t = false.
Proof.
  unfold grants_updateIfStatus. intros ->. destruct (t !! id) as [g|]; [|done].
  case_bool_decide; [|done]. unfold grant_write. intros (Hu & _ & [= -> ->])%map_conflict_ok.
  bool_to_prop. exists g. done.
Qed.

Lemma grants_updateIfStatus_none refs id expected patch at_ t t' :
  no_grant_columns patch = false ->
  grants_updateIfStatus refs id expected patch at_ t = Ok (None, t') -> t' = t.
Proof.
  unfold grants_updateIfStatus. intros ->. destruct (t !! id) as [g|]; [|by intros [= <-]].
  case_bool_decide; [by intros (_ & _ & ?)%map_conflict_ok|by intros [= <-]].
Qed.

Lemma grants_findActive_some apiId userId app t g :
  grants_findActiveByApiAndUser apiId userId app t = Some g ->
  exists k, t !! k = Some g /\ g_api_id g = apiId /\ g_user_id g = userId /\
            g_application_id g = app /\ g_status g = GrantActive.
Proof.
  intros H%head_some. apply rows_where_spec in H as (k & Hk & Hp). unfold is_active in Hp.
  bool_to_prop. eauto 10.
Qed.

Lemma requests_findPending_some apiId userId app t r :
  requests_findPendingByApiAndUser apiId userId app t = Some r ->
  exists k, t !! k = Some r /\ rq_api_id r = apiId /\ rq_user_id r = userId /\
            rq_application_id r = app /\ rq_status r = RequestPending.
Proof.
  intros H%head_some. apply rows_where_spec in H as (k & Hk & Hp). unfold is_pending in Hp.
  bool_to_prop. eauto 10.
Qed.
