(* ===== verification/CredentialTables.v ===== *)
(** * The tables of the gateway credentials

    [credentials] and [gatewayIdentities] of the SQLite adapter
    ([server/src/db/adapters/sqlite/index.ts]), with the indexes and foreign keys
    of [db/migrations/001_initial.sql] on [credential_metadata] and
    [gateway_identities], one function per statement. [nowIso()] and [newId()]
    are arguments. *)

From S2P Require Import Prelude Json Roles AccessTables.
Open Scope Z_scope.

Inductive CredentialType : Type := keyauth | basicauth | jwt.

#[export] Instance CredentialType_eq_dec : EqDecision CredentialType.
Proof. solve_decision. Defined.

Inductive CredentialStatus : Type := CredentialActive | CredentialRetiring | CredentialRevoked.

#[export] Instance CredentialStatus_eq_dec : EqDecision CredentialStatus.
Proof. solve_decision. Defined.

Record CredentialRecord : Type := {
  cr_id : string;
  cr_user_id : string;
  cr_application_id : option string;
  cr_ferrum_consumer_id : string;
  cr_credential_type : CredentialType;
  cr_ferrum_credential_id : string;
  cr_fingerprint : string;
  cr_last4 : string;
  cr_label : option string;
  cr_status : CredentialStatus;
  cr_rotated_from_id : option string;
  cr_edge_ordinal : option Z;
  cr_created_at : Z;
  cr_updated_at : Z;
}.

#[export] Instance CredentialRecord_eq_dec : EqDecision CredentialRecord.
Proof. solve_decision. Defined.

Abbreviation credential_table := (gmap string CredentialRecord).

Definition has_credential_status (s : CredentialStatus) (r : CredentialRecord) : bool :=
  bool_decide (cr_status r = s).

(** The rows of one array of the gateway. *)
Definition of_pair (consumerId : string) (type : CredentialType) (r : CredentialRecord) : bool :=
  bool_decide (cr_ferrum_consumer_id r = consumerId) && bool_decide (cr_credential_type r = type).

(** ** [credentials] *)

(** [COALESCE(MAX(edge_ordinal), 0) + 1] over the pair. *)
Definition next_ordinal (consumerId : string) (type : CredentialType) (t : credential_table) : Z :=
  match omap cr_edge_ordinal (rows_where (of_pair consumerId type) t) with
  | [] => 0
  | o :: rest => fold_left Z.max rest o
  end + 1.

(** [ux_credentials_ordinal] and [ux_credentials_fingerprint]; [NULL] is no ordinal's equal. *)
Definition ordinal_taken (r x : CredentialRecord) : bool :=
  of_pair (cr_ferrum_consumer_id r) (cr_credential_type r) x
  && match cr_edge_ordinal r, cr_edge_ordinal x with Some a, Some b => bool_decide (a = b) | _, _ => false end.
Definition fingerprint_taken (r x : CredentialRecord) : bool := bool_decide (cr_fingerprint x = cr_fingerprint r).

Definition credential_clash (r : CredentialRecord) (t : credential_table) : bool :=
  bool_decide (is_Some (t !! cr_id r))
  || bool_decide (rows_where (fun x => ordinal_taken r x || fingerprint_taken r x) t <> []).

Definition credential_refs (refs : references) (r : CredentialRecord) (t : credential_table) : bool :=
  ref_user refs (cr_user_id r) && ref_opt (ref_application refs) (cr_application_id r)
  && ref_opt (fun id => bool_decide (is_Some (t !! id))) (cr_rotated_from_id r).

(** [create]: [None] for an ordinal that is not given. *)
Definition credentials_create (refs : references) (ordinal : option (option Z)) (row : CredentialRecord)
    (t : credential_table) : res exn (CredentialRecord * credential_table) :=
  let r := {|
    cr_id := cr_id row; cr_user_id := cr_user_id row; cr_application_id := cr_application_id row;
    cr_ferrum_consumer_id := cr_ferrum_consumer_id row; cr_credential_type := cr_credential_type row;
    cr_ferrum_credential_id := cr_ferrum_credential_id row; cr_fingerprint := cr_fingerprint row;
    cr_last4 := cr_last4 row; cr_label := cr_label row; cr_status := cr_status row;
    cr_rotated_from_id := cr_rotated_from_id row;
    cr_edge_ordinal := match ordinal with
                       | None => Some (next_ordinal (cr_ferrum_consumer_id row) (cr_credential_type row) t)
                       | Some o => o
                       end;
    cr_created_at := cr_created_at row; cr_updated_at := cr_updated_at row;
  |} in
  map_conflict "That credential is already registered" (negb (credential_clash r t)) (credential_refs refs r t)
    (r, <[cr_id r := r]> t).

Definition credentials_findById (id : string) (t : credential_table) : option CredentialRecord := t !! id.

(** [Omit<UpdateInput<CredentialRecord>, 'edge_ordinal'>]. *)
Record CredentialPatch : Type := {
  cp_label : option (option string);
  cp_status : option CredentialStatus;
  cp_ferrum_credential_id : option string;
  cp_rotated_from_id : option (option string);
}.

Definition credentialUpdateColumns (patch : CredentialPatch) (at_ : Z) (r : CredentialRecord) : CredentialRecord := {|
  cr_id := cr_id r; cr_user_id := cr_user_id r; cr_application_id := cr_application_id r;
  cr_ferrum_consumer_id := cr_ferrum_consumer_id r; cr_credential_type := cr_credential_type r;
  cr_ferrum_credential_id := default (cr_ferrum_credential_id r) (cp_ferrum_credential_id patch);
  cr_fingerprint := cr_fingerprint r; cr_last4 := cr_last4 r;
  cr_label := default (cr_label r) (cp_label patch); cr_status := default (cr_status r) (cp_status patch);
  cr_rotated_from_id := default (cr_rotated_from_id r) (cp_rotated_from_id patch);
  cr_edge_ordinal := cr_edge_ordinal r; cr_created_at := cr_created_at r; cr_updated_at := at_;
|}.

Definition no_credential_columns (patch : CredentialPatch) : bool :=
  match patch with
  | {| cp_label := None; cp_status := None; cp_ferrum_credential_id := None; cp_rotated_from_id := None |} => true
  | _ => false
  end.

Definition credential_write (patch : CredentialPatch) (at_ : Z) (r : CredentialRecord) (t : credential_table)
    : res exn (option CredentialRecord * credential_table) :=
  let r' := credentialUpdateColumns patch at_ r in
  if match cp_rotated_from_id patch with Some (Some id) => bool_decide (is_Some (t !! id)) | _ => true end
  then Ok (Some r', <[cr_id r := r']> t)
  else Throw (driverError "FOREIGN KEY constraint failed").

Definition credentials_update (id : string) (patch : CredentialPatch) (at_ : Z) (t : credential_table)
    : res exn (option CredentialRecord * credential_table) :=
  match t !! id with
  | None => Ok (None, t)
  | Some r => if no_credential_columns patch then Ok (Some r, t) else credential_write patch at_ r t
  end.

Definition credentials_updateIfStatus (id : string) (expected : CredentialStatus) (patch : CredentialPatch) (at_ : Z)
    (t : credential_table) : res exn (option CredentialRecord * credential_table) :=
  match t !! id with
  | None => Ok (None, t)
  | Some r =>
      if has_credential_status expected r then
        if no_credential_columns patch then Ok (Some r, t) else credential_write patch at_ r t
      else Ok (None, t)
  end.

Record CredentialFilter : Type := {
  cf_user_id : option string;
  cf_application_id : option (option string);
  cf_status : option CredentialStatus;
  cf_credential_type : option CredentialType;
  cf_ferrum_consumer_id : option string;
}.

Definition credentialWhere (filter : CredentialFilter) (r : CredentialRecord) : bool :=
  asked (cf_user_id filter) (fun u => bool_decide (cr_user_id r = u))
  && in_scope (cf_application_id filter) (cr_application_id r)
  && asked (cf_status filter) (fun s => has_credential_status s r)
  && asked (cf_credential_type filter) (fun ty => bool_decide (cr_credential_type r = ty))
  && asked (cf_ferrum_consumer_id filter) (fun c => bool_decide (cr_ferrum_consumer_id r = c)).

Definition credentials_list (filter : CredentialFilter) (limit offset : option jsnum) (t : credential_table)
    : list CredentialRecord * Z :=
  paged limit offset (sort_by (newest_first cr_created_at cr_id) (rows_where (credentialWhere filter) t)).

(** [ORDER BY] the [NULL] ordinals first, then [edge_ordinal], [created_at], [id]. *)
Definition append_order (a b : CredentialRecord) : bool :=
  leb_of (then_by (compare_null_first (cr_edge_ordinal a) (cr_edge_ordinal b))
            (then_by (Z.compare (cr_created_at a) (cr_created_at b)) (String.compare (cr_id a) (cr_id b)))).

Definition credentials_listByConsumer (consumerId : string) (type : option CredentialType)
    (statuses : option (list CredentialStatus)) (t : credential_table) : list CredentialRecord :=
  sort_by append_order
    (rows_where (fun r => bool_decide (cr_ferrum_consumer_id r = consumerId)
                          && asked type (fun ty => bool_decide (cr_credential_type r = ty))
                          && asked statuses (fun l => bool_decide (cr_status r ∈ l))) t).

Definition credentials_findByFingerprint (fingerprint : string) (t : credential_table) : option CredentialRecord :=
  head (rows_where (fun r => bool_decide (cr_fingerprint r = fingerprint)) t).

Definition credentials_count (filter : CredentialFilter) (t : credential_table) : Z :=
  Z.of_nat (length (rows_where (credentialWhere filter) t)).

Definition credentials_countByApplications (applicationIds : list string) (status : CredentialStatus)
    (t : credential_table) : list (string * Z) :=
  map (fun id => (id, Z.of_nat (length (rows_where
         (fun r => has_credential_status status r && bool_decide (cr_application_id r = Some id)) t))))
    (remove_dups applicationIds).

(** [ON DELETE SET NULL] of [rotated_from_id]. *)
Definition unlink_rotation (id : string) (r : CredentialRecord) : CredentialRecord :=
  if bool_decide (cr_rotated_from_id r = Some id)
  then {| cr_id := cr_id r; cr_user_id := cr_user_id r; cr_application_id := cr_application_id r;
          cr_ferrum_consumer_id := cr_ferrum_consumer_id r; cr_credential_type := cr_credential_type r;
          cr_ferrum_credential_id := cr_ferrum_credential_id r; cr_fingerprint := cr_fingerprint r;
          cr_last4 := cr_last4 r; cr_label := cr_label r; cr_status := cr_status r; cr_rotated_from_id := None;
          cr_edge_ordinal := cr_edge_ordinal r; cr_created_at := cr_created_at r; cr_updated_at := cr_updated_at r |}
  else r.

Definition credentials_delete (id : string) (t : credential_table) : credential_table * bool :=
  match t !! id with
  | None => (t, false)
  | Some _ => (unlink_rotation id <$> delete id t, true)
  end.

(** ** [gatewayIdentities] *)

Record GatewayIdentityRecord : Type := {
  gi_id : string;
  gi_user_id : string;
  gi_namespace : string;
  gi_ferrum_username : string;
  gi_ferrum_consumer_id : option string;
  gi_created_at : Z;
  gi_updated_at : Z;
}.

#[export] Instance GatewayIdentityRecord_eq_dec : EqDecision GatewayIdentityRecord.
Proof. solve_decision. Defined.

Abbreviation identity_table := (gmap string GatewayIdentityRecord).

Definition named_identity (namespace username : string) (r : GatewayIdentityRecord) : bool :=
  bool_decide (gi_namespace r = namespace) && bool_decide (gi_ferrum_username r = username).

Definition identities_findByUsername (namespace username : string) (t : identity_table) : option GatewayIdentityRecord :=
  head (rows_where (named_identity namespace username) t).

(** [INSERT ... ON CONFLICT (namespace, ferrum_username) DO UPDATE]. *)
Definition identities_claim (refs : references) (userId namespace username : string) (consumerId : option string)
    (newId : string) (now : Z) (t : identity_table) : res exn (GatewayIdentityRecord * identity_table) :=
  let row := match identities_findByUsername namespace username t with
             | Some r => {| gi_id := gi_id r; gi_user_id := userId; gi_namespace := gi_namespace r;
                            gi_ferrum_username := gi_ferrum_username r; gi_ferrum_consumer_id := consumerId;
                            gi_created_at := gi_created_at r; gi_updated_at := now |}
             | None => {| gi_id := newId; gi_user_id := userId; gi_namespace := namespace;
                          gi_ferrum_username := username; gi_ferrum_consumer_id := consumerId;
                          gi_created_at := now; gi_updated_at := now |}
             end in
  if negb (ref_user refs userId) then Throw (driverError "FOREIGN KEY constraint failed")
  else if bool_decide (identities_findByUsername namespace username t = None)
          && bool_decide (is_Some (t !! newId))
       then Throw (driverError "UNIQUE constraint failed: gateway_identities.id")
       else Ok (row, <[gi_id row := row]> t).

Definition identities_findById (id : string) (t : identity_table) : option GatewayIdentityRecord := t !! id.

Definition identities_listByUser (userId namespace : string) (t : identity_table) : list GatewayIdentityRecord :=
  sort_by (fun a b => leb_of (then_by (Z.compare (gi_created_at a) (gi_created_at b)) (String.compare (gi_id a) (gi_id b))))
    (rows_where (fun r => bool_decide (gi_user_id r = userId) && bool_decide (gi_namespace r = namespace)) t).

Definition identities_bindConsumer (id : string) (consumerId : option string) (now : Z) (t : identity_table)
    : identity_table * option GatewayIdentityRecord :=
  match t !! id with
  | None => (t, None)
  | Some r =>
      let r' := {| gi_id := gi_id r; gi_user_id := gi_user_id r; gi_namespace := gi_namespace r;
                   gi_ferrum_username := gi_ferrum_username r; gi_ferrum_consumer_id := consumerId;
                   gi_created_at := gi_created_at r; gi_updated_at := now |} in
      (<[id := r']> t, Some r')
  end.

Definition identities_delete (id : string) (t : identity_table) : identity_table * bool :=
  (delete id t, bool_decide (is_Some (t !! id))).
