(* ===== verification/AccountTables.v ===== *)
(** * The tables of an account

    The account row's own statements, and the tables around it, of the SQLite
    adapter ([server/src/db/adapters/sqlite/index.ts]): [users], [userIdentities],
    [emailProofs], [passwordLocks], [organizations], [sessions],
    [verificationTokens] with the issue claims, and [notificationPreferences], with
    the unique indexes and foreign keys of [db/migrations/001_initial.sql],
    [005_notification_preferences.sql] and [006_user_identities.sql]. [nowIso()]
    and [newId()] are arguments; nothing deletes an account, so no cascade runs. *)

From S2P Require Import Prelude Json Roles Users AccessTables.
Open Scope Z_scope.

(** ** Rows *)

Record SessionRecord : Type := {
  ss_id : string;
  ss_token_hash : string;
  ss_user_id : string;
  ss_csrf_token : string;
  ss_expires_at : Z;
  ss_ip : option string;
  ss_user_agent : option string;
  ss_created_at : Z;
  ss_updated_at : Z;
}.

#[export] Instance SessionRecord_eq_dec : EqDecision SessionRecord.
Proof. solve_decision. Defined.

Inductive VerificationTokenPurpose : Type := EmailVerification | PasswordReset.

#[export] Instance VerificationTokenPurpose_eq_dec : EqDecision VerificationTokenPurpose.
Proof. solve_decision. Defined.

Definition purpose_name (p : VerificationTokenPurpose) : string :=
  match p with EmailVerification => "email_verification" | PasswordReset => "password_reset" end.

Record VerificationTokenRecord : Type := {
  vt_id : string;
  vt_user_id : string;
  vt_token_hash : string;
  vt_purpose : VerificationTokenPurpose;
  vt_expires_at : Z;
  vt_used_at : option Z;
  vt_created_at : Z;
  vt_updated_at : Z;
}.

#[export] Instance VerificationTokenRecord_eq_dec : EqDecision VerificationTokenRecord.
Proof. solve_decision. Defined.

Inductive EmailProofMethod : Type := ByVerificationLink | ByPasswordReset | ByIdentityProvider.

#[export] Instance EmailProofMethod_eq_dec : EqDecision EmailProofMethod.
Proof. solve_decision. Defined.

Record EmailProofRecord : Type := {
  ep_user_id : string;
  ep_email : string;
  ep_method : EmailProofMethod;
  ep_proven_at : Z;
  ep_created_at : Z;
  ep_updated_at : Z;
}.

Record PasswordLockRecord : Type := {
  pl_user_id : string;
  pl_provider_id : string;
  pl_created_at : Z;
}.

Record UserIdentityRecord : Type := {
  ui_id : string;
  ui_user_id : string;
  ui_provider_id : string;
  ui_issuer : string;
  ui_subject : string;
  ui_email : option string;
  ui_provisioned : bool;
  ui_last_login_at : option Z;
  ui_created_at : Z;
  ui_updated_at : Z;
}.

Record OrganizationRecord : Type := {
  og_id : string;
  og_name : string;
  og_description : option string;
  og_created_at : Z;
  og_updated_at : Z;
}.

Record NotificationPreferences : Type := {
  api_spec_updated_in_app : bool;
  api_spec_updated_email : bool;
}.

#[export] Instance NotificationPreferences_eq_dec : EqDecision NotificationPreferences.
Proof. solve_decision. Defined.

Record NotificationPreferencesRecord : Type := {
  np_user_id : string;
  np_preferences : NotificationPreferences;
  np_created_at : Z;
  np_updated_at : Z;
}.

(** The claims are keyed by the account and the purpose; every other table by its
    primary key. *)
Record account_tables : Type := {
  ac_sessions : gmap string SessionRecord;
  ac_tokens : gmap string VerificationTokenRecord;
  ac_claims : gmap (string * string) Z;
  ac_proofs : gmap string EmailProofRecord;
  ac_locks : gmap string PasswordLockRecord;
  ac_links : gmap string UserIdentityRecord;
  ac_organizations : gmap string OrganizationRecord;
  ac_preferences : gmap string NotificationPreferencesRecord;
}.

Definition account_empty : account_tables := {|
  ac_sessions := ∅; ac_tokens := ∅; ac_claims := ∅; ac_proofs := ∅; ac_locks := ∅; ac_links := ∅;
  ac_organizations := ∅; ac_preferences := ∅;
|}.

Definition with_sessions (t : gmap string SessionRecord) (a : account_tables) : account_tables := {|
  ac_sessions := t; ac_tokens := ac_tokens a; ac_claims := ac_claims a; ac_proofs := ac_proofs a;
  ac_locks := ac_locks a; ac_links := ac_links a; ac_organizations := ac_organizations a;
  ac_preferences := ac_preferences a;
|}.
Definition with_tokens (t : gmap string VerificationTokenRecord) (a : account_tables) : account_tables := {|
  ac_sessions := ac_sessions a; ac_tokens := t; ac_claims := ac_claims a; ac_proofs := ac_proofs a;
  ac_locks := ac_locks a; ac_links := ac_links a; ac_organizations := ac_organizations a;
  ac_preferences := ac_preferences a;
|}.
Definition with_claims (t : gmap (string * string) Z) (a : account_tables) : account_tables := {|
  ac_sessions := ac_sessions a; ac_tokens := ac_tokens a; ac_claims := t; ac_proofs := ac_proofs a;
  ac_locks := ac_locks a; ac_links := ac_links a; ac_organizations := ac_organizations a;
  ac_preferences := ac_preferences a;
|}.
Definition with_proofs (t : gmap string EmailProofRecord) (a : account_tables) : account_tables := {|
  ac_sessions := ac_sessions a; ac_tokens := ac_tokens a; ac_claims := ac_claims a; ac_proofs := t;
  ac_locks := ac_locks a; ac_links := ac_links a; ac_organizations := ac_organizations a;
  ac_preferences := ac_preferences a;
|}.
Definition with_locks (t : gmap string PasswordLockRecord) (a : account_tables) : account_tables := {|
  ac_sessions := ac_sessions a; ac_tokens := ac_tokens a; ac_claims := ac_claims a; ac_proofs := ac_proofs a;
  ac_locks := t; ac_links := ac_links a; ac_organizations := ac_organizations a;
  ac_preferences := ac_preferences a;
|}.
Definition with_links (t : gmap string UserIdentityRecord) (a : account_tables) : account_tables := {|
  ac_sessions := ac_sessions a; ac_tokens := ac_tokens a; ac_claims := ac_claims a; ac_proofs := ac_proofs a;
  ac_locks := ac_locks a; ac_links := t; ac_organizations := ac_organizations a;
  ac_preferences := ac_preferences a;
|}.
Definition with_organizations (t : gmap string OrganizationRecord) (a : account_tables) : account_tables := {|
  ac_sessions := ac_sessions a; ac_tokens := ac_tokens a; ac_claims := ac_claims a; ac_proofs := ac_proofs a;
  ac_locks := ac_locks a; ac_links := ac_links a; ac_organizations := t;
  ac_preferences := ac_preferences a;
|}.
Definition with_preferences (t : gmap string NotificationPreferencesRecord) (a : account_tables) : account_tables := {|
  ac_sessions := ac_sessions a; ac_tokens := ac_tokens a; ac_claims := ac_claims a; ac_proofs := ac_proofs a;
  ac_locks := ac_locks a; ac_links := ac_links a; ac_organizations := ac_organizations a;
  ac_preferences := t;
|}.

(** Another row with the same key of a unique index. *)
Definition taken_by_other {R} (id : R -> string) (same : R -> bool) (r : R) (t : gmap string R) : bool :=
  bool_decide (rows_where (fun x => same x && bool_decide (id x <> id r)) t <> []).

(** ** [users] *)

(** [UpdateInput<UserRecord>]: the columns of [userUpdateColumns]; [None] is
    [undefined]. *)
Record UserPatch : Type := {
  up_email : option string;
  up_password_hash : option string;
  up_display_name : option string;
  up_role : option Role;
  up_org_id : option (option string);
  up_company : option (option string);
  up_phone : option (option string);
  up_status : option UserStatus;
  up_email_verified : option bool;
  up_last_login_at : option (option Z);
}.

Definition no_patch : UserPatch := {|
  up_email := None; up_password_hash := None; up_display_name := None; up_role := None; up_org_id := None;
  up_company := None; up_phone := None; up_status := None; up_email_verified := None; up_last_login_at := None;
|}.

Definition userUpdateColumns (patch : UserPatch) (at_ : Z) (u : UserRecord) : UserRecord := {|
  u_id := u_id u;
  u_email := match up_email patch with Some e => toLowerCase (trim e) | None => u_email u end;
  u_password_hash := default (u_password_hash u) (up_password_hash patch);
  u_display_name := default (u_display_name u) (up_display_name patch);
  u_role := default (u_role u) (up_role patch);
  u_org_id := default (u_org_id u) (up_org_id patch);
  u_company := default (u_company u) (up_company patch);
  u_phone := default (u_phone u) (up_phone patch);
  u_status := default (u_status u) (up_status patch);
  u_email_verified := default (u_email_verified u) (up_email_verified patch);
  u_last_login_at := default (u_last_login_at u) (up_last_login_at patch);
  u_created_at := u_created_at u;
  u_updated_at := at_;
  u_email_fence := u_email_fence u;
|}.

(** [setParts] of the patch answers [null]. *)
Definition no_columns (patch : UserPatch) : bool :=
  match patch with
  | {| up_email := None; up_password_hash := None; up_display_name := None; up_role := None; up_org_id := None;
       up_company := None; up_phone := None; up_status := None; up_email_verified := None;
       up_last_login_at := None |} => true
  | _ => false
  end.

Definition EMAIL_CONFLICT : string := "An account with that email address already exists".

(** [ux_users_email]. *)
Definition email_taken (u : UserRecord) (t : user_table) : bool :=
  taken_by_other u_id (fun x => bool_decide (toLowerCase (u_email x) = toLowerCase (u_email u))) u t.

(** [orgs] says which organizations exist. *)
Definition users_create (orgs : string -> bool) (row : UserRecord) (t : user_table)
    : res exn (UserRecord * user_table) :=
  let row := {| u_id := u_id row; u_email := toLowerCase (trim (u_email row)); u_password_hash := u_password_hash row;
                u_display_name := u_display_name row; u_role := u_role row; u_org_id := u_org_id row;
                u_company := u_company row; u_phone := u_phone row; u_status := u_status row;
                u_email_verified := u_email_verified row; u_last_login_at := u_last_login_at row;
                u_created_at := u_created_at row; u_updated_at := u_updated_at row;
                u_email_fence := u_email_fence row |} in
  map_conflict EMAIL_CONFLICT (bool_decide (t !! u_id row = None) && negb (email_taken row t))
    (ref_opt orgs (u_org_id row)) (row, <[u_id row := row]> t).

Definition users_findManyByIds (ids : list string) (t : user_table) : list UserRecord :=
  rows_where (fun u => bool_decide (u_id u ∈ ids)) t.

(** The write both updates share, on the row found. *)
Definition user_write (orgs : string -> bool) (patch : UserPatch) (at_ : Z) (u : UserRecord) (t : user_table)
    : res exn (option UserRecord * user_table) :=
  let u' := userUpdateColumns patch at_ u in
  map_conflict EMAIL_CONFLICT (negb (email_taken u' t))
    (match up_org_id patch with Some o => ref_opt orgs o | None => true end)
    (Some u', <[u_id u := u']> t).

Definition users_update (orgs : string -> bool) (id : string) (patch : UserPatch) (at_ : Z) (t : user_table)
    : res exn (option UserRecord * user_table) :=
  match t !! id with
  | Some u => if no_columns patch then Ok (Some u, t) else user_write orgs patch at_ u t
  | None => Ok (None, t)
  end.

Record UserExpected : Type := {
  ue_role : option Role;
  ue_status : option UserStatus;
  ue_email : option string;
  ue_password_hash : option string;
}.

Definition user_matches (expected : UserExpected) (u : UserRecord) : bool :=
  asked (ue_role expected) (fun r => bool_decide (u_role u = r))
  && asked (ue_status expected) (fun s => bool_decide (u_status u = s))
  && asked (ue_email expected) (fun e => bool_decide (u_email u = toLowerCase (trim e)))
  && asked (ue_password_hash expected) (fun h => bool_decide (u_password_hash u = h)).

Definition users_updateIfMatches (orgs : string -> bool) (id : string) (expected : UserExpected) (patch : UserPatch)
    (at_ : Z) (t : user_table) : res exn (option UserRecord * user_table) :=
  match t !! id with
  | Some u => if negb (user_matches expected u) then Ok (None, t)
              else if no_columns patch then Ok (Some u, t) else user_write orgs patch at_ u t
  | None => Ok (None, t)
  end.

Definition users_touchLastLogin (id : string) (at_ now : Z) (t : user_table) : user_table :=
  match t !! id with
  | Some u => <[id := userUpdateColumns {| up_email := None; up_password_hash := None; up_display_name := None;
                        up_role := None; up_org_id := None; up_company := None; up_phone := None; up_status := None;
                        up_email_verified := None; up_last_login_at := Some (Some at_) |} now u]> t
  | None => t
  end.

Record UserFilter : Type := {
  uf_role : option Role;
  uf_roles : option (list Role);
  uf_status : option UserStatus;
  uf_org_id : option (option string);
  uf_ids : option (list string);
  uf_q : option string;
  uf_email_verified : option bool;
}.

(** [instr(lower(column), ?) > 0]. *)
Fixpoint contains (needle s : string) : bool :=
  startsWith needle s || match s with EmptyString => false | String _ s' => contains needle s' end.

(** [addSearch]: a blank term asks for nothing. *)
Definition searched (term : option string) (columns : list string) : bool :=
  match term with
  | Some q => bool_decide (trim q = ""%string)
              || existsb (fun c => contains (toLowerCase (trim q)) (toLowerCase c)) columns
  | None => true
  end.

Definition userWhere (filter : UserFilter) (u : UserRecord) : bool :=
  asked (uf_role filter) (fun r => bool_decide (u_role u = r))
  && asked (uf_status filter) (fun s => bool_decide (u_status u = s))
  && searched (uf_q filter) [u_email u; u_display_name u]
  && asked (uf_roles filter) (fun l => bool_decide (u_role u ∈ l))
  && asked (uf_ids filter) (fun l => bool_decide (u_id u ∈ l))
  && asked (uf_org_id filter) (fun o => bool_decide (u_org_id u = o))
  && asked (uf_email_verified filter) (fun b => bool_decide (u_email_verified u = b)).

Definition users_list (filter : UserFilter) (limit offset : option jsnum) (t : user_table) : list UserRecord * Z :=
  paged limit offset (sort_by (newest_first u_created_at u_id) (rows_where (userWhere filter) t)).

Definition users_count (filter : UserFilter) (t : user_table) : Z :=
  Z.of_nat (length (rows_where (userWhere filter) t)).

Definition active_super_admin (u : UserRecord) : bool :=
  bool_decide (u_role u = super_admin) && bool_decide (u_status u = UserActive).

Definition users_countActiveSuperAdmins (excludeUserId : option string) (t : user_table) : Z :=
  Z.of_nat (length (rows_where (fun u => active_super_admin u && asked excludeUserId (fun id => bool_decide (u_id u <> id))) t)).

(** [ORDER BY created_at ASC, id ASC]. *)
Definition oldest_first {R} (created : R -> Z) (id : R -> string) (a b : R) : bool :=
  leb_of (then_by (Z.compare (created a) (created b)) (String.compare (id a) (id b))).

Definition users_listRecipients (filter : UserFilter) (t : user_table) : list UserRecord :=
  sort_by (oldest_first u_created_at u_id) (rows_where (userWhere filter) t).

(** ** [userIdentities] *)

Definition LINK_CONFLICT : string := "That identity is already linked to an account".

(** [ux_user_identities_subject] and [ux_user_identities_user_provider]. *)
Definition link_taken (r : UserIdentityRecord) (t : gmap string UserIdentityRecord) : bool :=
  taken_by_other ui_id (fun x => bool_decide (ui_provider_id x = ui_provider_id r)
                                 && bool_decide (ui_issuer x = ui_issuer r)
                                 && bool_decide (ui_subject x = ui_subject r)) r t
  || taken_by_other ui_id (fun x => bool_decide (ui_user_id x = ui_user_id r)
                                    && bool_decide (ui_provider_id x = ui_provider_id r)) r t.

Definition links_create (users : string -> bool) (row : UserIdentityRecord) (t : gmap string UserIdentityRecord)
    : res exn (UserIdentityRecord * gmap string UserIdentityRecord) :=
  map_conflict LINK_CONFLICT (bool_decide (t !! ui_id row = None) && negb (link_taken row t))
    (users (ui_user_id row)) (row, <[ui_id row := row]> t).

Definition links_findBySubject (providerId issuer subject : string) (t : gmap string UserIdentityRecord)
    : option UserIdentityRecord :=
  head (rows_where (fun r => bool_decide (ui_provider_id r = providerId) && bool_decide (ui_issuer r = issuer)
                             && bool_decide (ui_subject r = subject)) t).

Definition links_listByUser (userId : string) (t : gmap string UserIdentityRecord) : list UserIdentityRecord :=
  sort_by (oldest_first ui_created_at ui_id) (rows_where (fun r => bool_decide (ui_user_id r = userId)) t).

Definition links_countByProvider (providerId : string) (t : gmap string UserIdentityRecord) : Z :=
  Z.of_nat (length (rows_where (fun r => bool_decide (ui_provider_id r = providerId)) t)).

Definition links_listUserIdsByProvider (providerId : string) (t : gmap string UserIdentityRecord) : list string :=
  sort_by string_leb
    (remove_dups (map ui_user_id (rows_where (fun r => bool_decide (ui_provider_id r = providerId)) t))).

Definition links_touchLogin (id : string) (email : option string) (at_ now : Z) (t : gmap string UserIdentityRecord)
    : gmap string UserIdentityRecord * bool :=
  match t !! id with
  | Some r => (<[id := {| ui_id := ui_id r; ui_user_id := ui_user_id r; ui_provider_id := ui_provider_id r;
                          ui_issuer := ui_issuer r; ui_subject := ui_subject r; ui_email := email;
                          ui_provisioned := ui_provisioned r; ui_last_login_at := Some at_;
                          ui_created_at := ui_created_at r; ui_updated_at := now |}]> t, true)
  | None => (t, false)
  end.

Definition links_delete (id : string) (t : gmap string UserIdentityRecord) : gmap string UserIdentityRecord * bool :=
  (delete id t, bool_decide (is_Some (t !! id))).

Definition links_deleteByProvider (providerId : string) : gmap string UserIdentityRecord -> gmap string UserIdentityRecord * Z :=
  delete_where (fun r => bool_decide (ui_provider_id r = providerId)).

(** ** [emailProofs] and [passwordLocks]

    [execute] without [mapConflict]: a missing account is the driver's error. *)
Definition FOREIGN_KEY_FAILED : exn := driverError "FOREIGN KEY constraint failed".

Definition proofs_upsert (users : string -> bool) (userId email : string) (method : EmailProofMethod) (at_ : Z)
    (t : gmap string EmailProofRecord) : res exn (gmap string EmailProofRecord) :=
  let row := {| ep_user_id := userId; ep_email := toLowerCase (trim email); ep_method := method; ep_proven_at := at_;
                ep_created_at := match t !! userId with Some r => ep_created_at r | None => at_ end;
                ep_updated_at := at_ |} in
  if users userId then Ok (<[userId := row]> t) else Throw FOREIGN_KEY_FAILED.

Definition locks_create (users : string -> bool) (userId providerId : string) (at_ : Z)
    (t : gmap string PasswordLockRecord) : res exn (gmap string PasswordLockRecord) :=
  match t !! userId with
  | Some _ => Ok t
  | None => if users userId
            then Ok (<[userId := {| pl_user_id := userId; pl_provider_id := providerId; pl_created_at := at_ |}]> t)
            else Throw FOREIGN_KEY_FAILED
  end.

(** ** [organizations] *)

Definition ORGANIZATION_CONFLICT : string := "An organization with that name already exists".

Definition organization_taken (r : OrganizationRecord) (t : gmap string OrganizationRecord) : bool :=
  taken_by_other og_id (fun x => bool_decide (toLowerCase (og_name x) = toLowerCase (og_name r))) r t.

Definition organizations_create (row : OrganizationRecord) (t : gmap string OrganizationRecord)
    : res exn (OrganizationRecord * gmap string OrganizationRecord) :=
  map_conflict ORGANIZATION_CONFLICT (bool_decide (t !! og_id row = None) && negb (organization_taken row t)) true
    (row, <[og_id row := row]> t).

Definition organizations_findByName (name : string) (t : gmap string OrganizationRecord) : option OrganizationRecord :=
  head (rows_where (fun r => bool_decide (toLowerCase (og_name r) = toLowerCase (trim name))) t).

Definition organizations_update (id : string) (name : option string) (description : option (option string)) (at_ : Z)
    (t : gmap string OrganizationRecord) : res exn (option OrganizationRecord * gmap string OrganizationRecord) :=
  match t !! id with
  | None => Ok (None, t)
  | Some r =>
      match name, description with
      | None, None => Ok (Some r, t)
      | _, _ =>
          let r' := {| og_id := og_id r; og_name := default (og_name r) name;
                       og_description := default (og_description r) description;
                       og_created_at := og_created_at r; og_updated_at := at_ |} in
          map_conflict ORGANIZATION_CONFLICT (negb (organization_taken r' t)) true (Some r', <[og_id r := r']> t)
      end
  end.

(** [ORDER BY lower(name) ASC]: names are distinct up to case. *)
Definition organizations_list (q : option string) (limit offset : option jsnum) (t : gmap string OrganizationRecord)
    : list OrganizationRecord * Z :=
  paged limit offset
    (sort_by (fun a b => string_leb (toLowerCase (og_name a)) (toLowerCase (og_name b)))
       (rows_where (fun r => searched q [og_name r]) t)).

(** [org_id] is [ON DELETE SET NULL]: the members lose it. *)
Definition without_organization (u : UserRecord) : UserRecord :=
  userUpdateColumns {| up_email := None; up_password_hash := None; up_display_name := None; up_role := None;
                       up_org_id := Some None; up_company := None; up_phone := None; up_status := None;
                       up_email_verified := None; up_last_login_at := None |} (u_updated_at u) u.

Definition organizations_delete (id : string) (users : user_table) (t : gmap string OrganizationRecord)
    : user_table * gmap string OrganizationRecord * bool :=
  ((fun u => if bool_decide (u_org_id u = Some id) then without_organization u else u) <$> users, delete id t,
   bool_decide (is_Some (t !! id))).

(** ** [sessions] *)

Definition SESSION_CONFLICT : string := "Session token collision".

Definition session_taken (r : SessionRecord) (t : gmap string SessionRecord) : bool :=
  taken_by_other ss_id (fun x => bool_decide (ss_token_hash x = ss_token_hash r)) r t.

Definition sessions_create (users : string -> bool) (row : SessionRecord) (t : gmap string SessionRecord)
    : res exn (SessionRecord * gmap string SessionRecord) :=
  map_conflict SESSION_CONFLICT (bool_decide (t !! ss_id row = None) && negb (session_taken row t))
    (users (ss_user_id row)) (row, <[ss_id row := row]> t).

Definition sessions_findByTokenHash (hash : string) (t : gmap string SessionRecord) : option SessionRecord :=
  head (rows_where (fun r => bool_decide (ss_token_hash r = hash)) t).

Definition set_session_expiry (expiresAt now : Z) (r : SessionRecord) : SessionRecord := {|
  ss_id := ss_id r; ss_token_hash := ss_token_hash r; ss_user_id := ss_user_id r; ss_csrf_token := ss_csrf_token r;
  ss_expires_at := expiresAt; ss_ip := ss_ip r; ss_user_agent := ss_user_agent r;
  ss_created_at := ss_created_at r; ss_updated_at := now;
|}.

Definition sessions_touch (id : string) (expiresAt now : Z) : gmap string SessionRecord -> gmap string SessionRecord :=
  alter (set_session_expiry expiresAt now) id.

Definition sessions_delete (id : string) (t : gmap string SessionRecord) : gmap string SessionRecord * bool :=
  (delete id t, bool_decide (is_Some (t !! id))).

Definition sessions_deleteByTokenHash (hash : string) (t : gmap string SessionRecord) : gmap string SessionRecord * bool :=
  let '(t', n) := delete_where (fun r => bool_decide (ss_token_hash r = hash)) t in (t', bool_decide (0 < n)).

Definition sessions_deleteForUser (userId : string) : gmap string SessionRecord -> gmap string SessionRecord * Z :=
  delete_where (fun r => bool_decide (ss_user_id r = userId)).

Definition sessions_deleteExpired (now : Z) : gmap string SessionRecord -> gmap string SessionRecord * Z :=
  delete_where (fun r => bool_decide (ss_expires_at r <= now)).

(** ** [verificationTokens] *)

Definition TOKEN_CONFLICT : string := "Verification token collision".

(** [INSERT OR IGNORE], then the conditional [UPDATE]. [OR IGNORE] does not cover
    a foreign key. *)
Definition tokens_claimIssue (users : string -> bool) (userId : string) (purpose : VerificationTokenPurpose)
    (issuedAt notBefore : Z) (t : gmap (string * string) Z) : res exn (bool * gmap (string * string) Z) :=
  let key := (userId, purpose_name purpose) in
  match t !! key with
  | None => if users userId then Ok (true, <[key := issuedAt]> t) else Throw FOREIGN_KEY_FAILED
  | Some at_ => if bool_decide (at_ <= notBefore) then Ok (true, <[key := issuedAt]> t) else Ok (false, t)
  end.

Definition token_taken (r : VerificationTokenRecord) (t : gmap string VerificationTokenRecord) : bool :=
  taken_by_other vt_id (fun x => bool_decide (vt_token_hash x = vt_token_hash r)) r t.

Definition tokens_create (users : string -> bool) (row : VerificationTokenRecord) (t : gmap string VerificationTokenRecord)
    : res exn (VerificationTokenRecord * gmap string VerificationTokenRecord) :=
  map_conflict TOKEN_CONFLICT (bool_decide (t !! vt_id row = None) && negb (token_taken row t))
    (users (vt_user_id row)) (row, <[vt_id row := row]> t).

Definition tokens_findByTokenHash (hash : string) (purpose : VerificationTokenPurpose)
    (t : gmap string VerificationTokenRecord) : option VerificationTokenRecord :=
  head (rows_where (fun r => bool_decide (vt_token_hash r = hash) && bool_decide (vt_purpose r = purpose)) t).

Definition of_purpose (userId : string) (purpose : VerificationTokenPurpose) (r : VerificationTokenRecord) : bool :=
  bool_decide (vt_user_id r = userId) && bool_decide (vt_purpose r = purpose).

Definition live_token (now : Z) (r : VerificationTokenRecord) : bool :=
  bool_decide (vt_used_at r = None) && bool_decide (now < vt_expires_at r).

Definition tokens_findLatestLiveForUser (userId : string) (purpose : VerificationTokenPurpose) (now : Z)
    (t : gmap string VerificationTokenRecord) : option VerificationTokenRecord :=
  head (sort_by (newest_first vt_created_at vt_id)
          (rows_where (fun r => of_purpose userId purpose r && live_token now r) t)).

Definition set_token_used (at_ now : Z) (r : VerificationTokenRecord) : VerificationTokenRecord := {|
  vt_id := vt_id r; vt_user_id := vt_user_id r; vt_token_hash := vt_token_hash r; vt_purpose := vt_purpose r;
  vt_expires_at := vt_expires_at r; vt_used_at := Some at_; vt_created_at := vt_created_at r; vt_updated_at := now;
|}.

Definition tokens_markUsed (id : string) (at_ now : Z) (t : gmap string VerificationTokenRecord)
    : gmap string VerificationTokenRecord * bool :=
  match t !! id with
  | Some r => if bool_decide (vt_used_at r = None) then (<[id := set_token_used at_ now r]> t, true) else (t, false)
  | None => (t, false)
  end.

Definition tokens_deleteForUser (userId : string) (purpose : option VerificationTokenPurpose)
    : gmap string VerificationTokenRecord -> gmap string VerificationTokenRecord * Z :=
  delete_where (fun r => bool_decide (vt_user_id r = userId) && asked purpose (fun p => bool_decide (vt_purpose r = p))).

Definition tokens_deleteExpired (now : Z) : gmap string VerificationTokenRecord -> gmap string VerificationTokenRecord * Z :=
  delete_where (fun r => bool_decide (vt_expires_at r <= now)).

(** ** [notificationPreferences] *)

Definition preferences_findManyByUsers (ids : list string) (t : gmap string NotificationPreferencesRecord)
    : list NotificationPreferencesRecord :=
  rows_where (fun r => bool_decide (np_user_id r ∈ ids)) t.

Definition preferences_upsert (users : string -> bool) (userId : string) (preferences : NotificationPreferences)
    (at_ : Z) (t : gmap string NotificationPreferencesRecord)
    : res exn (NotificationPreferencesRecord * gmap string NotificationPreferencesRecord) :=
  let row := {| np_user_id := userId; np_preferences := preferences;
                np_created_at := match t !! userId with Some r => np_created_at r | None => at_ end;
                np_updated_at := at_ |} in
  if users userId then Ok (row, <[userId := row]> t) else Throw FOREIGN_KEY_FAILED.
