(* ===== verification/AccessWorkflow.v ===== *)
(** * The access workflow: the abstract machine

    What [server/src/access/service.ts] promises of the three tables it shares
    with every other instance: requests, grants and the gateway jobs of issue
    #651. A move is what one statement or one transaction may do; the ghost
    [wf_used] holds the identifiers in circulation, so that a new one is new. *)

From S2P Require Import Prelude Json Roles ClaimQueue JobQueues AccessTables.
Open Scope Z_scope.

Record workflow : Type := {
  wf_requests : request_table;
  wf_grants : grant_table;
  wf_jobs : AccessJobs.table;
  wf_used : string -> Prop;
}.

(** ** Vocabulary *)

Definition subject (j : AccessJobs.Job) : string := AccessJobs.in_subject_id (AccessJobs.ag_input j).
Definition kind (j : AccessJobs.Job) : AccessJobs.Kind := AccessJobs.in_kind (AccessJobs.ag_input j).
Definition job_identity (j : AccessJobs.Job) : identity :=
  identity_of (AccessJobs.in_api_id (AccessJobs.ag_input j)) (AccessJobs.in_user_id (AccessJobs.ag_input j))
              (AccessJobs.in_application_id (AccessJobs.ag_input j)).

(** The columns no update writes. *)
Definition same_request (r r' : AccessRequestRecord) : Prop :=
  rq_id r' = rq_id r /\ rq_api_id r' = rq_api_id r /\ rq_user_id r' = rq_user_id r /\
  rq_application_id r' = rq_application_id r /\ rq_grant_id r' = rq_grant_id r.
Definition same_grant (g g' : GrantRecord) : Prop :=
  g_id g' = g_id g /\ g_api_id g' = g_api_id g /\ g_user_id g' = g_user_id g /\
  g_application_id g' = g_application_id g /\ g_access_request_id g' = g_access_request_id g.

(** A request for access: it asks for a grant of its own. *)
Definition for_access (r : AccessRequestRecord) : Prop := rq_grant_id r = None.

(** The grant a request was promised. *)
Definition promised (grants : grant_table) (requestId : string) : Prop :=
  exists k g, grants !! k = Some g /\ g_status g = GrantActive /\ g_access_request_id g = Some requestId.

(** The job that owes the gateway work of an approval. *)
Definition owed (jobs : AccessJobs.table) (requestId : string) : Prop :=
  exists k j, jobs !! k = Some j /\ kind j = AccessJobs.Approve /\ subject j = requestId.

(** [job] is the current claim of its row. *)
Definition holds_job (jobs : AccessJobs.table) (job : AccessJobs.Job) : Prop :=
  exists j, jobs !! job_id job = Some j /\ job_generation j = job_generation job /\
            has_status JSending j = true /\ AccessJobs.ag_input j = AccessJobs.ag_input job.

(** An approved request for access whose grant is not there. *)
Definition unkept (a : workflow) (s : string) : Prop :=
  exists r, wf_requests a !! s = Some r /\ rq_status r = RequestApproved /\ for_access r /\
            ~ promised (wf_grants a) s.

(** ** Moves *)

Definition set_requests (t : request_table) (a : workflow) : workflow :=
  {| wf_requests := t; wf_grants := wf_grants a; wf_jobs := wf_jobs a; wf_used := wf_used a |}.
Definition set_grants (t : grant_table) (a : workflow) : workflow :=
  {| wf_requests := wf_requests a; wf_grants := t; wf_jobs := wf_jobs a; wf_used := wf_used a |}.
Definition set_jobs (t : AccessJobs.table) (a : workflow) : workflow :=
  {| wf_requests := wf_requests a; wf_grants := wf_grants a; wf_jobs := t; wf_used := wf_used a |}.
Definition set_used (used : string -> Prop) (a : workflow) : workflow :=
  {| wf_requests := wf_requests a; wf_grants := wf_grants a; wf_jobs := wf_jobs a; wf_used := used |}.
Definition use (ids : string -> Prop) (a : workflow) : workflow :=
  set_used (fun x => wf_used a x \/ ids x) a.
Definition put_request (r : AccessRequestRecord) (a : workflow) : workflow :=
  set_requests (<[rq_id r := r]> (wf_requests a)) a.
Definition put_grant (g : GrantRecord) (a : workflow) : workflow :=
  set_grants (<[g_id g := g]> (wf_grants a)) a.
Definition put_job (j : AccessJobs.Job) (a : workflow) : workflow :=
  set_jobs (<[job_id j := j]> (wf_jobs a)) a.

(** The decision of a pending request, or of an approved one, on the row as it is. *)
Definition decides (a : workflow) (from : AccessRequestStatus) (r r' : AccessRequestRecord) : Prop :=
  wf_requests a !! rq_id r = Some r /\ rq_status r = from /\ same_request r r'.

(** [INSERT ... ON CONFLICT (subject_id) DO UPDATE] under a new generation. *)
Definition queues (a : workflow) (j : AccessJobs.Job) : Prop :=
  ~ wf_used a (job_generation j) /\
  ((~ wf_used a (job_id j) /\ job_id j <> job_generation j /\
    forall k j0, wf_jobs a !! k = Some j0 -> subject j0 <> subject j)
   \/ exists j0, wf_jobs a !! job_id j = Some j0 /\ subject j0 = subject j).

(** What claims, reschedules and the sweep of stale claims do to the rows: a row
    that is [sending] under a generation it already had was so before. *)
Definition bookkeeping (used : string -> Prop) (t t' : AccessJobs.table) : Prop :=
  (forall k j', t' !! k = Some j' -> exists j, t !! k = Some j /\ job_id j' = job_id j /\
     AccessJobs.ag_input j' = AccessJobs.ag_input j /\
     (job_generation j' = job_generation j /\ (has_status JSending j' = true -> has_status JSending j = true)
      \/ ~ used (job_generation j'))) /\
  (forall k, t' !! k = None -> t !! k = None).

(** The originating request follows its grant: it moves with it when it stands
    where the grant leaves it, and is left alone otherwise. *)
Definition follows (g : GrantRecord) (from to : AccessRequestStatus) (t t' : request_table) : Prop :=
  (exists r r', g_access_request_id g = Some (rq_id r) /\ t !! rq_id r = Some r /\ rq_status r = from /\
                rq_status r' = to /\ same_request r r' /\ t' = <[rq_id r := r']> t)
  \/ t' = t.

Inductive move : workflow -> workflow -> Prop :=
| MUse a used : (forall x, wf_used a x -> used x) -> move a (set_used used a)
| MSubmit a r :
    ~ wf_used a (rq_id r) -> rq_status r = RequestPending -> pending_taken r (wf_requests a) = false ->
    move a (use (fun x => x = rq_id r) (put_request r a))
| MClose a r r' :
    decides a RequestPending r r' -> rq_status r' = RequestCancelled \/ rq_status r' = RequestDenied ->
    move a (put_request r' a)
| MReopen a r r' :
    decides a RequestCancelled r r' -> rq_status r' = RequestPending -> rq_grant_id r <> None ->
    pending_taken r' (wf_requests a) = false ->
    move a (put_request r' a)
| MClaim a r r' j :
    decides a RequestPending r r' -> rq_status r' = RequestApproved ->
    queues a j -> has_status JSending j = true -> kind j = AccessJobs.Approve -> subject j = rq_id r ->
    job_identity j = rq_identity r ->
    move a (use (fun x => x = job_id j \/ x = job_generation j) (put_job j (put_request r' a)))
| MRelease a j r r' :
    holds_job (wf_jobs a) j -> kind j = AccessJobs.Approve -> subject j = rq_id r ->
    decides a RequestApproved r r' ->
    rq_status r' = RequestPending \/ rq_status r' = RequestCancelled ->
    pending_taken r' (wf_requests a) = false ->
    move a (put_request r' a)
| MGrant a j g :
    holds_job (wf_jobs a) j -> kind j = AccessJobs.Approve ->
    ~ wf_used a (g_id g) -> g_status g = GrantActive -> g_access_request_id g = Some (subject j) ->
    g_identity g = job_identity j -> active_taken g (wf_grants a) = false ->
    move a (use (fun x => x = g_id g) (set_jobs (delete (job_id j) (wf_jobs a)) (put_grant g a)))
| MRetool a g g' :
    wf_grants a !! g_id g = Some g -> same_grant g g' -> g_status g' = g_status g ->
    move a (put_grant g' a)
| MRevoke a g g' t' :
    wf_grants a !! g_id g = Some g -> same_grant g g' ->
    g_status g = GrantActive -> g_status g' = GrantRevoked ->
    follows g RequestApproved RequestRevoked (wf_requests a) t' ->
    (forall s r, g_access_request_id g = Some s -> t' !! s = Some r -> rq_status r <> RequestApproved) ->
    move a (set_requests t' (put_grant g' a))
| MRestore a g g' t' :
    wf_grants a !! g_id g = Some g -> same_grant g g' ->
    g_status g = GrantRevoked -> g_status g' = GrantActive -> active_taken g' (wf_grants a) = false ->
    follows g RequestRevoked RequestApproved (wf_requests a) t' ->
    move a (set_requests t' (set_jobs (filter (fun '(_, j) => AccessJobs.of_subject (g_id g) j = false) (wf_jobs a)) (put_grant g' a)))
| MQueue a j :
    queues a j -> kind j = AccessJobs.Revoke -> wf_used a (subject j) ->
    (forall k j0, wf_jobs a !! k = Some j0 -> subject j0 = subject j -> kind j0 = AccessJobs.Revoke) ->
    move a (use (fun x => x = job_id j \/ x = job_generation j) (put_job j a))
| MJobs a t' :
    bookkeeping (wf_used a) (wf_jobs a) t' ->
    move a (use (fun x => exists k j, t' !! k = Some j /\ job_generation j = x) (set_jobs t' a))
| MDone a j :
    holds_job (wf_jobs a) j -> (kind j = AccessJobs.Approve -> ~ unkept a (subject j)) ->
    move a (set_jobs (delete (job_id j) (wf_jobs a)) a)
| MPurge a (p : identity -> bool) t' :
    t' ⊆ wf_jobs a -> (forall k j, wf_jobs a !! k = Some j -> p (job_identity j) = false -> t' !! k = Some j) ->
    move a (set_jobs t' (set_requests (filter (fun '(_, r) => p (rq_identity r) = false) (wf_requests a))
              (set_grants (filter (fun '(_, g) => p (g_identity g) = false) (wf_grants a)) a))).

Definition moves : workflow -> workflow -> Prop := rtc move.

(** ** The invariant *)

Record workflow_ok (a : workflow) : Prop := {
  ok_requests : keyed rq_id (wf_requests a);
  ok_grants : keyed g_id (wf_grants a);
  ok_jobs : keyed job_id (wf_jobs a);
  (** One pending request and one active grant per identity, one job per subject. *)
  ok_pending : forall k1 k2 r1 r2, wf_requests a !! k1 = Some r1 -> wf_requests a !! k2 = Some r2 ->
    rq_status r1 = RequestPending -> rq_status r2 = RequestPending -> rq_identity r1 = rq_identity r2 -> k1 = k2;
  ok_active : forall k1 k2 g1 g2, wf_grants a !! k1 = Some g1 -> wf_grants a !! k2 = Some g2 ->
    g_status g1 = GrantActive -> g_status g2 = GrantActive -> g_identity g1 = g_identity g2 -> k1 = k2;
  ok_subject : forall k1 k2 j1 j2, wf_jobs a !! k1 = Some j1 -> wf_jobs a !! k2 = Some j2 ->
    subject j1 = subject j2 -> k1 = k2;
  (** Issue #651: an approval without its grant has its job. *)
  ok_debt : forall k r, wf_requests a !! k = Some r -> rq_status r = RequestApproved -> for_access r ->
    promised (wf_grants a) k \/ owed (wf_jobs a) k;
  ok_job_identity : forall k j r, wf_jobs a !! k = Some j -> kind j = AccessJobs.Approve ->
    wf_requests a !! subject j = Some r -> rq_identity r = job_identity j;
  ok_grant_identity : forall k g s r, wf_grants a !! k = Some g -> g_access_request_id g = Some s ->
    wf_requests a !! s = Some r -> rq_identity r = g_identity g;
  ok_disjoint : forall k r g, wf_requests a !! k = Some r -> wf_grants a !! k = Some g -> False;
  ok_job_kind : forall k j g, wf_jobs a !! k = Some j -> kind j = AccessJobs.Approve ->
    wf_grants a !! subject j = Some g -> False;
  ok_used_requests : forall k r, wf_requests a !! k = Some r -> wf_used a k;
  ok_used_grants : forall k g, wf_grants a !! k = Some g ->
    wf_used a k /\ forall s, g_access_request_id g = Some s -> wf_used a s;
  ok_used_jobs : forall k j, wf_jobs a !! k = Some j ->
    wf_used a k /\ wf_used a (job_generation j) /\ wf_used a (subject j);
}.

(** ** Lemmas: every move keeps the invariant *)

Ltac map_cases :=
  repeat match goal with
  | H : <[_ := _]> _ !! _ = Some _ |- _ => let E := fresh "E" in apply lookup_insert_Some in H as [[E <-]|[? H]];
      [try (match type of E with _ = ?v => is_var v; subst v end)|]
  | H : delete _ _ !! _ = Some _ |- _ => apply lookup_delete_Some in H as [? H]
  | H : filter _ _ !! _ = Some _ |- _ => apply map_lookup_filter_Some in H as [H ?]
  end.

Lemma pending_taken_false r t k x :
  keyed rq_id t -> rq_status r = RequestPending -> pending_taken r t = false ->
  t !! k = Some x -> rq_status x = RequestPending -> rq_identity x = rq_identity r -> k = rq_id r.
Proof.
  intros Hk Hr Ht Hx Hp Hi. unfold pending_taken, is_pending in Ht.
  rewrite (bool_decide_eq_true_2 _ Hr) in Ht. simpl in Ht. bool_to_prop.
  rewrite <- (Hk k x Hx). destruct (decide (rq_id x = rq_id r)) as [|Hne]; [done|]. exfalso. apply Ht.
  intros Hnil. assert (Hf := proj1 (rows_where_nil _ _) Hnil k x Hx). simpl in Hf. unfold is_pending in Hf.
  by rewrite !bool_decide_eq_true_2 in Hf.
Qed.

Lemma active_taken_false g t k x :
  keyed g_id t -> g_status g = GrantActive -> active_taken g t = false ->
  t !! k = Some x -> g_status x = GrantActive -> g_identity x = g_identity g -> k = g_id g.
Proof.
  intros Hk Hr Ht Hx Hp Hi. unfold active_taken, is_active in Ht.
  rewrite (bool_decide_eq_true_2 _ Hr) in Ht. simpl in Ht. bool_to_prop.
  rewrite <- (Hk k x Hx). destruct (decide (g_id x = g_id g)) as [|Hne]; [done|]. exfalso. apply Ht.
  intros Hnil. assert (Hf := proj1 (rows_where_nil _ _) Hnil k x Hx). simpl in Hf. unfold is_active in Hf.
  by rewrite !bool_decide_eq_true_2 in Hf.
Qed.

Lemma same_request_identity r r' : same_request r r' -> rq_identity r' = rq_identity r.
Proof. intros (_ & Ha & Hu & Hp & _). unfold rq_identity. by rewrite Ha, Hu, Hp. Qed.
Lemma same_grant_identity g g' : same_grant g g' -> g_identity g' = g_identity g.
Proof. intros (_ & Ha & Hu & Hp & _). unfold g_identity. by rewrite Ha, Hu, Hp. Qed.

Lemma ok_use used a :
  workflow_ok a -> (forall x, wf_used a x -> used x) -> workflow_ok (set_used used a).
Proof. intros [] Hu. split; simpl; try done; naive_solver. Qed.

(** A row of [requests] changes its decision. *)
Lemma ok_put_request a r r' :
  workflow_ok a -> wf_requests a !! rq_id r = Some r -> same_request r r' ->
  (rq_status r' = RequestPending -> pending_taken r' (wf_requests a) = false) ->
  (rq_status r' = RequestApproved -> for_access r' ->
     promised (wf_grants a) (rq_id r) \/ owed (wf_jobs a) (rq_id r)) ->
  workflow_ok (put_request r' a).
Proof.
  intros Hok Hr Hs Hp Hd. pose proof (same_request_identity _ _ Hs) as Hi.
  pose proof (proj1 Hs) as Hid. destruct Hok. split; simpl; try done; rewrite ?Hid.
  - by apply keyed_write.
  - intros k1 k2 r1 r2 H1 H2 S1 S2 Heq. map_cases; [done|..].
    + rewrite <- Hid. eapply pending_taken_false; eauto.
    + symmetry. rewrite <- Hid. eapply pending_taken_false; eauto.
    + eauto.
  - intros k x Hx Hst Hfa. map_cases; eauto.
  - intros k j x Hj Hkd Hx. map_cases; [|eauto]. rewrite Hi. rewrite E in Hr. eauto.
  - intros k g s x Hg Ha Hx. map_cases; [|eauto]. rewrite Hi. eauto.
  - intros k x g Hx Hg. map_cases; eauto.
  - intros k x Hx. map_cases; eauto.
Qed.

(** A row of [grants] changes its status or its tools. *)
Lemma ok_put_grant a g g' :
  workflow_ok a -> wf_grants a !! g_id g = Some g -> same_grant g g' ->
  (g_status g' = GrantActive -> g_status g = GrantActive \/ active_taken g' (wf_grants a) = false) ->
  (g_status g' <> GrantActive -> g_status g = GrantActive ->
     forall s r, g_access_request_id g = Some s -> wf_requests a !! s = Some r -> rq_status r <> RequestApproved) ->
  workflow_ok (put_grant g' a).
Proof.
  intros Hok Hg Hs Ha Hd. pose proof (same_grant_identity _ _ Hs) as Hi.
  destruct Hs as (Hid & _ & _ & _ & Har). destruct Hok. split; simpl; try done; rewrite ?Hid.
  - by apply keyed_write.
  - intros k1 k2 g1 g2 H1 H2 S1 S2 Heq. map_cases; [done|..].
    + destruct (Ha S2) as [H0|H0]; [apply (ok_active0 _ _ g1 g); congruence|].
      rewrite <- Hid. eapply active_taken_false; eauto.
    + destruct (Ha S1) as [H0|H0]; [apply (ok_active0 _ _ g g2); congruence|].
      symmetry. rewrite <- Hid. eapply active_taken_false; eauto.
    + eauto.
  - intros k r Hr Hst Hfa. destruct (ok_debt0 k r Hr Hst Hfa) as [(k1 & g1 & H1 & S1 & A1)|]; [|by right].
    left. destruct (decide (k1 = g_id g)) as [->|Hne].
    + assert (g1 = g) as -> by congruence. exists (g_id g), g'. rewrite lookup_insert_eq.
      destruct (decide (g_status g' = GrantActive)) as [|Hn]; [split_and!; congruence|].
      by destruct (Hd Hn S1 k r A1 Hr).
    + exists k1, g1. by rewrite lookup_insert_ne.
  - intros k x s r Hx Hxa Hr. map_cases; [|eauto]. rewrite Hi. apply (ok_grant_identity0 (g_id g) g s); congruence.
  - intros k r x Hr Hx. map_cases; eauto.
  - intros k j x Hj Hk Hx. destruct (decide (g_id g = subject j)) as [Heq|Hne].
    + rewrite Heq, lookup_insert_eq in Hx. simplify_eq. eapply ok_job_kind0; [done..|]. by rewrite <- Heq.
    + rewrite lookup_insert_ne in Hx; eauto.
  - intros k x Hx. map_cases; [|eauto]. rewrite Har. eauto.
Qed.

(** Jobs go: those of approvals only when nothing is owed. *)
Lemma ok_shrink_jobs a t' :
  workflow_ok a -> t' ⊆ wf_jobs a ->
  (forall k j, wf_jobs a !! k = Some j -> t' !! k = None -> kind j = AccessJobs.Approve -> ~ unkept a (subject j)) ->
  workflow_ok (set_jobs t' a).
Proof.
  intros Hok Hsub Hd. destruct Hok.
  assert (Hl : forall k j, t' !! k = Some j -> wf_jobs a !! k = Some j) by (intros; by eapply lookup_weaken).
  split; simpl; try done; eauto.
  - intros k j Hj. by apply ok_jobs0, Hl.
  - intros k r Hr Hst Hfa. destruct (ok_debt0 k r Hr Hst Hfa) as [|(k1 & j & Hj & Hk & Hsj)]; [by left|].
    destruct (t' !! k1) as [j'|] eqn:Ht.
    { right. exists k1, j. by rewrite Ht, <- (Hl _ _ Ht), Hj. }
    left. destruct (decide (Exists (fun '(_, g) => g_status g = GrantActive /\ g_access_request_id g = Some k)
                              (map_to_list (wf_grants a)))) as [He|Hne].
    + apply Exists_exists in He as ([kg g] & Hin & ? & ?). apply elem_of_map_to_list in Hin. by exists kg, g.
    + exfalso. apply (Hd k1 j Hj Ht Hk). rewrite Hsj. exists r. split_and!; [done..|].
      intros (kg & g & Hg & ? & ?). apply Hne, Exists_exists. exists (kg, g). by rewrite elem_of_map_to_list.
Qed.

(** A job is queued. *)
Lemma ok_put_job a j :
  workflow_ok a -> queues a j -> wf_used a (subject j) ->
  (kind j = AccessJobs.Approve -> wf_grants a !! subject j = None /\
     forall r, wf_requests a !! subject j = Some r -> rq_identity r = job_identity j) ->
  (kind j <> AccessJobs.Approve ->
     forall k j0, wf_jobs a !! k = Some j0 -> subject j0 = subject j -> kind j0 <> AccessJobs.Approve) ->
  workflow_ok (use (fun x => x = job_id j \/ x = job_generation j) (put_job j a)).
Proof.
  intros Hok [Hgen Hq] Hsub Ha Hr.
  assert (Huniq : forall k j0, wf_jobs a !! k = Some j0 -> subject j0 = subject j -> k = job_id j).
  { intros k j0 Hk Hs. destruct Hq as [(_ & _ & Hno)|(j1 & Hj1 & Hs1)].
    - by destruct (Hno k j0 Hk).
    - eapply (ok_subject a Hok); eauto. congruence. }
  destruct Hok. split; simpl; try done.
  - by apply keyed_write.
  - intros k1 k2 j1 j2 H1 H2 Heq. map_cases; [done|..]; eauto; symmetry; eauto.
  - intros k r Hk Hst Hfa. destruct (ok_debt0 k r Hk Hst Hfa) as [|(k1 & j1 & Hj1 & Hkd & Hs1)]; [by left|].
    right. destruct (decide (k1 = job_id j)) as [->|Hne].
    + exists (job_id j), j. rewrite lookup_insert_eq. split; [done|].
      destruct (decide (subject j1 = subject j)) as [Heq|Hneq].
      * destruct (decide (kind j = AccessJobs.Approve)) as [|Hn]; [split; congruence|].
        by destruct (Hr Hn _ _ Hj1 Heq).
      * destruct Hq as [(Hno & _)|(j2 & Hj2 & ?)]; [|congruence]. by destruct Hno; eapply ok_used_jobs0.
    + exists k1, j1. by rewrite lookup_insert_ne.
  - intros k x r Hx Hkd Hrq. map_cases; [by apply Ha|eauto].
  - intros k x g Hx Hkd Hg. map_cases; [|eauto]. by rewrite (proj1 (Ha Hkd)) in Hg.
  - intros k r Hk. left. eauto.
  - intros k g Hk. destruct (ok_used_grants0 k g Hk). split; [by left|]. intros s Hs. left. eauto.
  - intros k x Hx. map_cases; [naive_solver|]. destruct (ok_used_jobs0 k x Hx) as (? & ? & ?). naive_solver.
Qed.

(** A new row. *)
Lemma ok_new_request a r :
  workflow_ok a -> ~ wf_used a (rq_id r) -> rq_status r = RequestPending ->
  pending_taken r (wf_requests a) = false ->
  workflow_ok (use (fun x => x = rq_id r) (put_request r a)).
Proof.
  intros Hok Hfresh Hst Hp. destruct Hok. split; simpl; try done.
  - by apply keyed_insert.
  - intros k1 k2 r1 r2 H1 H2 S1 S2 Heq. map_cases; [done|..].
    + eapply pending_taken_false; eauto.
    + symmetry. eapply pending_taken_false; eauto.
    + eauto.
  - intros k x Hx Hs. map_cases; [congruence|]. eauto.
  - intros k j x Hj Hk Hx. map_cases; [|eauto]. destruct Hfresh. rewrite E.
    by destruct (ok_used_jobs0 k j Hj) as (_ & _ & ?).
  - intros k g s x Hg Ha Hx. map_cases; [|eauto]. destruct Hfresh. exact (proj2 (ok_used_grants0 _ _ Hg) _ Ha).
  - intros k x g Hx Hg. map_cases; [|eauto]. destruct Hfresh. exact (proj1 (ok_used_grants0 _ _ Hg)).
  - intros k x Hx. map_cases; [by right|left; eauto].
  - intros k g Hg. destruct (ok_used_grants0 k g Hg). split; [by left|]. intros s Hs. left. eauto.
  - intros k j Hj. destruct (ok_used_jobs0 k j Hj) as (? & ? & ?). split_and!; by left.
Qed.

Lemma ok_new_grant a j g :
  workflow_ok a -> ~ wf_used a (g_id g) -> g_status g = GrantActive ->
  wf_jobs a !! job_id j = Some j -> kind j = AccessJobs.Approve ->
  g_access_request_id g = Some (subject j) -> g_identity g = job_identity j ->
  active_taken g (wf_grants a) = false ->
  workflow_ok (use (fun x => x = g_id g) (put_grant g a)).
Proof.
  intros Hok Hfresh Hst Hj Hk Ha Hi Ht. destruct Hok.
  destruct (ok_used_jobs0 _ _ Hj) as (_ & _ & Hus). split; simpl; try done.
  - by apply keyed_insert.
  - intros k1 k2 g1 g2 H1 H2 S1 S2 Heq. map_cases; [done|..].
    + eapply active_taken_false; eauto.
    + symmetry. eapply active_taken_false; eauto.
    + eauto.
  - intros k r Hr Hsr Hfa. destruct (ok_debt0 k r Hr Hsr Hfa) as [(k1 & g1 & H1 & S1 & A1)|]; [|by right].
    left. exists k1, g1. rewrite lookup_insert_ne; [done|]. intros <-. destruct Hfresh. exact (proj1 (ok_used_grants0 _ _ H1)).
  - intros k x s r Hx Hxa Hr. map_cases; [|eauto]. rewrite Hi. eapply ok_job_identity0; [done..|congruence].
  - intros k r x Hr Hx. map_cases; [|eauto]. destruct Hfresh. eauto.
  - intros k j0 x Hj0 Hk0 Hx. map_cases; [|eauto]. destruct Hfresh. rewrite E.
    by destruct (ok_used_jobs0 k j0 Hj0) as (_ & _ & ?).
  - intros k r Hr. left. eauto.
  - intros k x Hx. map_cases; [split; [by right|]; intros s Hs; left; congruence|].
    destruct (ok_used_grants0 k x Hx). split; [by left|]. intros s Hs. left. eauto.
  - intros k j0 Hj0. destruct (ok_used_jobs0 k j0 Hj0) as (? & ? & ?). split_and!; by left.
Qed.

Lemma ok_follows a g from to t' :
  workflow_ok a -> follows g from to (wf_requests a) t' -> to <> RequestPending ->
  (to = RequestApproved -> forall s, g_access_request_id g = Some s -> promised (wf_grants a) s) ->
  workflow_ok (set_requests t' a).
Proof.
  intros Hok [(r & r' & Ha & Hr & _ & Hto & Hs & ->) | -> ] Hne Hp; [|by destruct a].
  replace (set_requests _ a) with (put_request r' a) by (unfold put_request; by rewrite (proj1 Hs)).
  apply ok_put_request with r; [done..|congruence|]. intros Happ _. left. apply Hp; congruence.
Qed.

Lemma bookkeeping_lookup used t t' k j :
  bookkeeping used t t' -> t !! k = Some j ->
  exists j', t' !! k = Some j' /\ job_id j' = job_id j /\ AccessJobs.ag_input j' = AccessJobs.ag_input j.
Proof.
  intros [Hrow Hdom] Hj. destruct (t' !! k) as [j'|] eqn:Hj'; [|rewrite Hdom in Hj; done].
  destruct (Hrow k j' Hj') as (j0 & Hj0 & ? & ? & _). exists j'. split_and!; congruence.
Qed.

Lemma input_subject j j' : AccessJobs.ag_input j' = AccessJobs.ag_input j -> subject j' = subject j.
Proof. unfold subject. by intros ->. Qed.
Lemma input_kind j j' : AccessJobs.ag_input j' = AccessJobs.ag_input j -> kind j' = kind j.
Proof. unfold kind. by intros ->. Qed.
Lemma input_identity j j' : AccessJobs.ag_input j' = AccessJobs.ag_input j -> job_identity j' = job_identity j.
Proof. unfold job_identity. by intros ->. Qed.

Lemma ok_bookkeeping a t' :
  workflow_ok a -> bookkeeping (wf_used a) (wf_jobs a) t' ->
  workflow_ok (use (fun x => exists k j, t' !! k = Some j /\ job_generation j = x) (set_jobs t' a)).
Proof.
  intros Hok Hb. destruct Hok.
  assert (Hrow : forall k j', t' !! k = Some j' -> exists j, wf_jobs a !! k = Some j /\ job_id j' = job_id j /\
            subject j' = subject j /\ kind j' = kind j /\ job_identity j' = job_identity j).
  { intros k j' Hj'. destruct (proj1 Hb k j' Hj') as (j & Hj & Hid & Hin & _).
    exists j. split_and!; auto using input_subject, input_kind, input_identity. }
  split; simpl; try done.
  - intros k j' Hj'. destruct (Hrow k j' Hj') as (j & Hj & -> & _). by apply ok_jobs0.
  - intros k1 k2 j1 j2 H1 H2 Heq. destruct (Hrow _ _ H1) as (i1 & ? & _ & ? & _), (Hrow _ _ H2) as (i2 & ? & _ & ? & _).
    eapply ok_subject0; eauto. congruence.
  - intros k r Hr Hst Hfa. destruct (ok_debt0 k r Hr Hst Hfa) as [|(k1 & j & Hj & Hkd & Hsj)]; [by left|right].
    destruct (bookkeeping_lookup _ _ _ _ _ Hb Hj) as (j' & Hj' & _ & Hin). exists k1, j'.
    rewrite (input_kind _ _ Hin), (input_subject _ _ Hin). done.
  - intros k j' r Hj' Hkd Hr. destruct (Hrow k j' Hj') as (j & Hj & _ & Hs & Hk & ->).
    rewrite Hs in Hr. rewrite Hk in Hkd. eauto.
  - intros k j' g Hj' Hkd Hg. destruct (Hrow k j' Hj') as (j & Hj & _ & Hs & Hk & _).
    rewrite Hs in Hg. rewrite Hk in Hkd. eauto.
  - intros k r Hr. left. eauto.
  - intros k g Hg. destruct (ok_used_grants0 k g Hg). split; [by left|]. intros s Hs. left. eauto.
  - intros k j' Hj'. destruct (Hrow k j' Hj') as (j & Hj & _ & -> & _).
    destruct (ok_used_jobs0 k j Hj) as (? & _ & ?). split_and!; [by left|right; eauto|by left].
Qed.

Lemma ok_purge a (p : identity -> bool) t' :
  workflow_ok a -> t' ⊆ wf_jobs a ->
  (forall k j, wf_jobs a !! k = Some j -> p (job_identity j) = false -> t' !! k = Some j) ->
  workflow_ok (set_jobs t' (set_requests (filter (fun '(_, r) => p (rq_identity r) = false) (wf_requests a))
              (set_grants (filter (fun '(_, g) => p (g_identity g) = false) (wf_grants a)) a))).
Proof.
  intros Hok Hsub Hkeep. destruct Hok.
  assert (Hl : forall k j, t' !! k = Some j -> wf_jobs a !! k = Some j) by (intros; by eapply lookup_weaken).
  split; simpl; try done; eauto.
  - intros k r Hr. map_cases. by apply ok_requests0.
  - intros k g Hg. map_cases. by apply ok_grants0.
  - intros k j Hj. by apply ok_jobs0, Hl.
  - intros k1 k2 r1 r2 H1 H2. map_cases. eauto.
  - intros k1 k2 r1 r2 H1 H2. map_cases. eauto.
  - intros k r Hr Hst Hfa. map_cases.
    destruct (ok_debt0 k r Hr Hst Hfa) as [(k1 & g & Hg & Hsg & Hag)|(k1 & j & Hj & Hkd & <-)].
    + left. exists k1, g. split; [|done]. apply map_lookup_filter_Some. split; [done|].
      by rewrite <- (ok_grant_identity0 _ _ _ _ Hg Hag Hr).
    + right. exists k1, j. split; [|done]. apply Hkeep; [done|]. by rewrite <- (ok_job_identity0 _ _ _ Hj Hkd Hr).
  - intros k j r Hj Hkd Hr. map_cases. eauto.
  - intros k g s r Hg Ha Hr. map_cases. eauto.
  - intros k r g Hr Hg. map_cases. eauto.
  - intros k j g Hj Hkd Hg. map_cases. eauto.
  - intros k r Hr. map_cases. eauto.
  - intros k g Hg. map_cases. eauto.
Qed.

Lemma held_spec jobs j :
  holds_job jobs j -> exists j0, jobs !! job_id j = Some j0 /\ kind j0 = kind j /\ subject j0 = subject j /\
                                 job_identity j0 = job_identity j.
Proof.
  intros (j0 & Hj0 & _ & _ & Hin). exists j0.
  split_and!; auto using input_kind, input_subject, input_identity.
Qed.

Lemma keyed_id a k j : workflow_ok a -> wf_jobs a !! k = Some j -> job_id j = k.
Proof. intros Hok. apply (ok_jobs a Hok). Qed.

Lemma ok_delete_job a j :
  workflow_ok a -> holds_job (wf_jobs a) j -> (kind j = AccessJobs.Approve -> ~ unkept a (subject j)) ->
  workflow_ok (set_jobs (delete (job_id j) (wf_jobs a)) a).
Proof.
  intros Hok (j0 & Hj0 & Hk & Hs & _)%held_spec Hd. apply ok_shrink_jobs; [done|apply delete_subseteq|].
  intros k jk Hjk Hnone Hkd. destruct (decide (job_id j = k)) as [<-|Hne].
  - rewrite Hj0 in Hjk. injection Hjk as <-. rewrite Hs. apply Hd. congruence.
  - rewrite lookup_delete_ne in Hnone by done. congruence.
Qed.

Lemma promised_put_grant a g s :
  g_status g = GrantActive -> g_access_request_id g = Some s -> promised (wf_grants (put_grant g a)) s.
Proof. intros Hst Ha. exists (g_id g), g. simpl. by rewrite lookup_insert_eq. Qed.

(** Every move keeps the invariant. *)
Lemma move_ok a b : move a b -> workflow_ok a -> workflow_ok b.
Proof.
  intros Hm Hok. destruct Hm.
  - by apply ok_use.
  - by apply ok_new_request.
  - destruct H as (Hr & _ & Hs). apply ok_put_request with r; [done..| |]; destruct H0; congruence.
  - destruct H as (Hr & _ & Hs). apply ok_put_request with r; [done..|congruence].
  - destruct H as (Hr & Hst & Hs). set (a1 := use (fun x => x = job_id j \/ x = job_generation j) (put_job j a)).
    assert (Hok1 : workflow_ok a1).
    { apply ok_put_job; [done|done|rewrite H4; by eapply (ok_used_requests a Hok)| |done].
      intros _. rewrite H4. split.
      - destruct (wf_grants a !! rq_id r) eqn:Hg; [by destruct (ok_disjoint a Hok _ _ _ Hr Hg)|done].
      - intros r1. rewrite Hr. intros [= <-]. done. }
    apply (ok_put_request a1 r r' Hok1 Hr Hs); [congruence|]. intros _ _. right.
    exists (job_id j), j. simpl. by rewrite lookup_insert_eq.
  - destruct H2 as (Hr & Hst & Hs). apply ok_put_request with r; [done..|].
    intros Happ. destruct H3; congruence.
  - pose proof H as (j0 & Hj0 & Hk & Hs & Hi)%held_spec. set (a1 := use (fun x => x = g_id g) (put_grant g a)).
    assert (Hok1 : workflow_ok a1).
    { apply ok_new_grant with j0; try done; try congruence. by rewrite (keyed_id a _ _ Hok Hj0). }
    apply (ok_delete_job a1 j Hok1 H). intros _ (r & _ & _ & _ & Hn). apply Hn. by apply (promised_put_grant a).
  - apply ok_put_grant with g; [done..|intros; left; congruence|congruence].
  - destruct H0 as (Hid & H0'). assert (Hok1 : workflow_ok (set_requests t' a)).
    { apply (ok_follows _ g RequestApproved RequestRevoked); done. }
    apply (ok_put_grant _ g g' Hok1); [done|by split|intros; congruence|]. intros _ _ s r Ha Hr. eauto.
  - set (a1 := put_grant g' a). assert (Hok1 : workflow_ok a1).
    { apply ok_put_grant with g; [done..|by right|congruence]. }
    set (a2 := set_jobs (filter (fun '(_, j) => AccessJobs.of_subject (g_id g) j = false) (wf_jobs a)) a1).
    assert (Hok2 : workflow_ok a2).
    { apply ok_shrink_jobs; [done|apply map_filter_subseteq|]. intros k j Hj Hnone Hkd. exfalso.
      apply map_lookup_filter_None in Hnone as [Hno|Hno]; [simpl in Hj, Hno; congruence|].
      specialize (Hno j Hj). destruct (AccessJobs.of_subject (g_id g) j) eqn:Hsub; [|done].
      unfold AccessJobs.of_subject in Hsub. bool_to_prop. eapply (ok_job_kind a Hok k j g); [done..|].
      unfold subject. by rewrite Hsub. }
    apply (ok_follows a2 g RequestRevoked RequestApproved); [done|exact H4|done|]. intros _ s Ha.
    apply (promised_put_grant a); [done|]. destruct H0 as (_ & _ & _ & _ & Har). congruence.
  - apply ok_put_job; [done..| |]; intros; congruence || (intros; rewrite (H2 k j0); congruence).
  - by apply ok_bookkeeping.
  - by apply ok_delete_job.
  - by apply ok_purge.
Qed.

Lemma moves_ok a b : moves a b -> workflow_ok a -> workflow_ok b.
Proof. induction 1; eauto using move_ok. Qed.

(** ** Lemmas: what a move leaves of a row *)

Lemma same_request_refl r : same_request r r.
Proof. by unfold same_request. Qed.
Lemma same_grant_refl g : same_grant g g.
Proof. by unfold same_grant. Qed.
Lemma same_request_trans r1 r2 r3 : same_request r1 r2 -> same_request r2 r3 -> same_request r1 r3.
Proof. unfold same_request. intros (? & ? & ? & ? & ?) (? & ? & ? & ? & ?). split_and!; congruence. Qed.
Lemma same_grant_trans g1 g2 g3 : same_grant g1 g2 -> same_grant g2 g3 -> same_grant g1 g3.
Proof. unfold same_grant. intros (? & ? & ? & ? & ?) (? & ? & ? & ? & ?). split_and!; congruence. Qed.
#[local] Hint Resolve same_request_refl same_grant_refl : core.

Lemma used_mono a b x : move a b -> wf_used a x -> wf_used b x.
Proof. destruct 1; simpl; auto. Qed.

Lemma follows_origin g from to t t' k r' :
  follows g from to t t' -> t' !! k = Some r' ->
  exists r, t !! k = Some r /\ same_request r r' /\
    (r' = r \/ rq_status r = from /\ rq_status r' = to /\ g_access_request_id g = Some k).
Proof.
  intros [(r & r1 & Ha & Hr & Hf & Ht & Hs & ->)| ->] Hk; [|by eauto 10].
  map_cases; eauto 10.
Qed.

Lemma put_origin (t : request_table) r r' k x :
  t !! rq_id r = Some r -> same_request r r' -> <[rq_id r' := r']> t !! k = Some x ->
  exists r0, t !! k = Some r0 /\ same_request r0 x.
Proof. intros Hr Hs Hx. rewrite (proj1 Hs) in Hx. map_cases; eauto. Qed.

Lemma request_origin a b k r' :
  move a b -> wf_requests b !! k = Some r' ->
  (exists r, wf_requests a !! k = Some r /\ same_request r r') \/ ~ wf_used a k.
Proof.
  intros Hm Hk.
  destruct Hm; simpl in Hk; try (left; by eauto); try (left; by destruct H as (? & _ & ?); eapply put_origin; eauto).
  - map_cases; [by right|left; eauto].
  - left. destruct H2 as (? & _ & ?). by eapply put_origin; eauto.
  - left. destruct (follows_origin _ _ _ _ _ _ _ H3 Hk) as (r & ? & ? & _). eauto.
  - left. destruct (follows_origin _ _ _ _ _ _ _ H4 Hk) as (r & ? & ? & _). eauto.
  - map_cases. left. eauto.
Qed.

Lemma grant_origin a b k g' :
  move a b -> wf_grants b !! k = Some g' ->
  (exists g, wf_grants a !! k = Some g /\ same_grant g g') \/ ~ wf_used a k.
Proof.
  intros Hm Hk.
  destruct Hm; simpl in Hk; try (left; by eauto);
    try (match goal with Hs : same_grant _ _ |- _ => pose proof (proj1 Hs) as Hid; rewrite Hid in Hk end);
    map_cases; try (left; by eauto); by right.
Qed.

Lemma job_origin a b k j' :
  move a b -> wf_jobs b !! k = Some j' ->
  (exists j, wf_jobs a !! k = Some j /\ AccessJobs.ag_input j' = AccessJobs.ag_input j /\
     job_generation j' = job_generation j /\ (has_status JSending j' = true -> has_status JSending j = true))
  \/ ~ wf_used a (job_generation j').
Proof.
  intros Hm Hk. destruct Hm; simpl in Hk; try (left; by eauto 10).
  - map_cases; [right; by destruct H1|left; eauto 10].
  - map_cases. left. eauto 10.
  - map_cases. left. eauto 10.
  - map_cases; [right; by destruct H|left; eauto 10].
  - destruct (proj1 H k j' Hk) as (j & Hj & _ & Hin & [[Hg Hs]|Hn]); [left|by right]. eauto 10.
  - map_cases. left. eauto 10.
  - left. exists j'. split_and!; auto. by eapply lookup_weaken.
Qed.

(** *** Facts that survive every move *)

Definition stable (P : workflow -> Prop) : Prop := forall a b, workflow_ok a -> move a b -> P a -> P b.

Lemma stable_moves P a b : stable P -> moves a b -> workflow_ok a -> P a -> P b.
Proof. intros HP. induction 1; eauto using move_ok. Qed.

Lemma stable_and P Q : stable P -> stable Q -> stable (fun a => P a /\ Q a).
Proof. intros HP HQ a b Hok Hm [? ?]. split; eauto. Qed.

Lemma stable_used x : stable (fun a => wf_used a x).
Proof. intros a b _ Hm. by apply used_mono. Qed.

(** The row of this id, if it is still there, is the one that was read. *)
Definition known_request (r : AccessRequestRecord) (a : workflow) : Prop :=
  wf_used a (rq_id r) /\ forall r1, wf_requests a !! rq_id r = Some r1 -> same_request r r1.
Definition grant_name (id : string) (a : workflow) : Prop :=
  wf_used a id /\ wf_requests a !! id = None /\
  forall k j, wf_jobs a !! k = Some j -> subject j = id -> kind j = AccessJobs.Revoke.
Definition known_grant (g : GrantRecord) (a : workflow) : Prop :=
  grant_name (g_id g) a /\ forall g1, wf_grants a !! g_id g = Some g1 -> same_grant g g1.
Definition known_job (j : AccessJobs.Job) (a : workflow) : Prop :=
  wf_used a (job_generation j) /\ forall j1, wf_jobs a !! job_id j = Some j1 ->
    job_generation j1 = job_generation j -> AccessJobs.ag_input j1 = AccessJobs.ag_input j.

(** Nothing is owed any more to the subject of a job that is still held. *)
Definition kept (j : AccessJobs.Job) (a : workflow) : Prop :=
  known_job j a /\ (holds_job (wf_jobs a) j -> ~ unkept a (subject j)).

Lemma stable_known_request r : stable (known_request r).
Proof.
  intros a b _ Hm [Hu Hk]. split; [by eapply used_mono|]. intros r1 H1.
  destruct (request_origin _ _ _ _ Hm H1) as [(r0 & H0 & Hs)|]; [|done].
  exact (same_request_trans _ _ _ (Hk _ H0) Hs).
Qed.

(** The id of a grant names no request, and no approval. *)
Lemma stable_grant_name id : stable (grant_name id).
Proof.
  intros a b _ Hm (Hu & Hr & Hj). split_and!; [by eapply used_mono| |].
  - apply eq_None_not_Some. intros [r' Hr'].
    destruct (request_origin _ _ _ _ Hm Hr') as [(r & Hr0 & _)|]; [congruence|done].
  - intros k j Hk Hs. assert (Hold : forall k0 j0, wf_jobs a !! k0 = Some j0 -> AccessJobs.ag_input j = AccessJobs.ag_input j0 ->
      kind j = AccessJobs.Revoke).
    { intros k0 j0 H0 Hin. unfold kind, subject in *. rewrite Hin in *. by eapply Hj. }
    destruct Hm; simpl in Hk; try (by eapply Hold).
    + map_cases; [|by eapply Hold]. destruct H as (Hrow & _). congruence.
    + map_cases. by eapply Hold.
    + map_cases. by eapply Hold.
    + map_cases; [done|by eapply Hold].
    + destruct (proj1 H k j Hk) as (j0 & H0 & _ & Hin & _). by eapply Hold.
    + map_cases. by eapply Hold.
    + eapply Hold; [by eapply lookup_weaken|done].
Qed.

Lemma stable_known_grant g : stable (known_grant g).
Proof.
  intros a b Hok Hm [Hu Hk]. split; [by eapply stable_grant_name|]. intros g1 H1.
  destruct (grant_origin _ _ _ _ Hm H1) as [(g0 & H0 & Hs)|]; [|by destruct Hu].
  exact (same_grant_trans _ _ _ (Hk _ H0) Hs).
Qed.

Lemma stable_known_job j : stable (known_job j).
Proof.
  intros a b _ Hm [Hu Hk]. split; [by eapply used_mono|]. intros j1 H1 Hg.
  destruct (job_origin _ _ _ _ Hm H1) as [(j0 & H0 & Hin & Hg0 & _)|Hn]; [|congruence].
  rewrite Hin. apply Hk; congruence.
Qed.

(** Where an approved request for access comes from. *)
Lemma approved_origin a b s r' :
  workflow_ok a -> move a b -> wf_requests b !! s = Some r' -> rq_status r' = RequestApproved ->
  promised (wf_grants b) s \/
  (exists r, wf_requests a !! s = Some r /\ rq_status r = RequestApproved /\ same_request r r' /\
     (promised (wf_grants a) s -> promised (wf_grants b) s)) \/
  (forall k j, wf_jobs b !! k = Some j -> subject j = s -> ~ wf_used a (job_generation j)).
Proof.
  intros Hok Hm Hk Hst.
  assert (Hput : forall g g', wf_grants a !! g_id g = Some g -> same_grant g g' -> g_status g' = g_status g \/ g_status g = GrantRevoked ->
            promised (wf_grants a) s -> promised (<[g_id g' := g']> (wf_grants a)) s).
  { intros g g' Hg (Hid & _ & _ & _ & Har) Hsg (k & g1 & H1 & S1 & A1). rewrite Hid.
    destruct (decide (g_id g = k)) as [<-|Hne].
    - exists (g_id g), g'. rewrite lookup_insert_eq. assert (g1 = g) as -> by congruence.
      destruct Hsg; split_and!; congruence.
    - exists k, g1. by rewrite lookup_insert_ne. }
  destruct Hm; simpl in Hk.
  - right; left; eauto 10.
  - map_cases; [congruence|right; left; eauto 10].
  - destruct H as (Hr & _ & Hs). rewrite (proj1 Hs) in Hk. map_cases; [destruct H0; congruence|right; left; eauto 10].
  - destruct H as (Hr & _ & Hs). rewrite (proj1 Hs) in Hk. map_cases; [congruence|right; left; eauto 10].
  - destruct H as (Hr & _ & Hs). rewrite (proj1 Hs) in Hk. map_cases; [|right; left; eauto 10].
    right; right. intros k x Hx Hsx. simpl in Hx. map_cases; [by destruct H1|]. exfalso.
    destruct H1 as [_ [(_ & _ & Hno)|(j0 & Hj0 & Hs0)]]; [eapply Hno; eauto; congruence|].
    match goal with Hne : job_id j <> k |- _ => apply Hne end.
    eapply (ok_subject a Hok); eauto. congruence.
  - destruct H2 as (Hr & _ & Hs). rewrite (proj1 Hs) in Hk. map_cases; [destruct H3; congruence|right; left; eauto 10].
  - right; left. exists r'. split_and!; auto. intros (k & g1 & Hg1 & ? & ?). exists k, g1. simpl.
    rewrite lookup_insert_ne; [done|]. intros <-. destruct H1. exact (proj1 (ok_used_grants a Hok _ _ Hg1)).
  - right; left. exists r'. split_and!; auto. simpl. apply (Hput g); auto.
  - destruct (follows_origin _ _ _ _ _ _ _ H3 Hk) as (r & Hr & Hs & [->|(_ & ? & _)]); [|congruence].
    right; left. exists r. split_and!; auto. intros (k & g1 & H1' & S1 & A1). simpl.
    destruct (decide (g_id g = k)) as [<-|Hne].
    + destruct (H4 s r); [congruence|done|done].
    + exists k, g1. destruct H0 as (-> & _). by rewrite lookup_insert_ne.
  - destruct (follows_origin _ _ _ _ _ _ _ H4 Hk) as (r & Hr & Hs & [->|(_ & _ & Ha)]).
    + right; left. exists r. split_and!; auto. simpl. apply (Hput g); auto.
    + left. simpl. apply (promised_put_grant a); [done|]. destruct H0 as (_ & _ & _ & _ & ->). done.
  - right; left; eauto 10.
  - right; left; eauto 10.
  - right; left; eauto 10.
  - map_cases. right; left. exists r'. split_and!; auto. intros (k & g & Hg & ? & Ha). exists k, g. simpl.
    split; [|done]. apply map_lookup_filter_Some. split; [done|].
    by rewrite <- (ok_grant_identity a Hok _ _ _ _ Hg Ha Hk).
Qed.

Lemma holds_origin a b j :
  move a b -> known_job j a -> holds_job (wf_jobs b) j -> holds_job (wf_jobs a) j.
Proof.
  intros Hm [Hu Hk] (j1 & H1 & Hg & Hs & Hin).
  destruct (job_origin _ _ _ _ Hm H1) as [(j0 & H0 & Hi0 & Hg0 & Hs0)|Hn]; [|congruence].
  exists j0. split_and!; [done|congruence|auto|congruence].
Qed.

Lemma stable_kept j : stable (kept j).
Proof.
  intros a b Hok Hm [Hk Hn]. split; [by eapply stable_known_job|]. intros Hh (r' & Hr' & Hst & Hfa & Hnp).
  pose proof (holds_origin _ _ _ Hm Hk Hh) as Hha.
  destruct (approved_origin _ _ _ _ Hok Hm Hr' Hst) as [?|[(r & Hr & Hsr & Hs & Hp)|Hnew]]; [done|..].
  - apply (Hn Hha). exists r. split_and!; [done..| |auto].
    unfold for_access in *. destruct Hs as (_ & _ & _ & _ & Hgr). congruence.
  - destruct Hh as (j1 & H1 & Hg & _ & Hin). apply (Hnew _ _ H1); [by apply input_subject|].
    rewrite Hg. apply (proj1 Hk).
Qed.
