(* ===== verification/SsoSettings.v ===== *)
(** * Single sign-on settings

    [server/src/sso/config.ts]: the shape of a provider's configuration and the
    addresses' domains; [server/src/sso/settings.ts]: the stored settings read
    leniently, the providers in force, and whether an account may still use a
    password; and the policies of [shared/src/sso.ts]. The environment's providers
    are part of the configuration given. *)

From Stdlib Require Import Ascii.
From S2P Require Import Prelude Json Regexp Roles Users Sso Settings AccountTables.
Open Scope Z_scope.

(** ** The schema of a provider *)

Definition MAX_SSO_MAPPINGS : nat := 100.
Definition MAX_ALLOWED_EMAIL_DOMAINS : nat := 100.
Definition MAX_CLIENT_SECRET_LENGTH : nat := 2048.
Definition MAX_ISSUER_LENGTH : nat := 255.

Definition in_range (lo hi : nat) (c : ascii) : bool :=
  bool_decide (lo <= nat_of_ascii c <= hi)%nat.

(** [a-z0-9], and with the hyphen. *)
Definition lower_alnum (c : ascii) : bool := in_range 97 122 c || in_range 48 57 c.
Definition lower_alnum_hyphen (c : ascii) : bool := lower_alnum c || bool_decide (c = "-"%char).

(** [/^[a-z0-9][a-z0-9-]{0,31}$/]. *)
Definition PROVIDER_ID : regexp := RSeq (RClass lower_alnum) (RUpTo 31 (RClass lower_alnum_hyphen)).

(** [/^[\x21\x23-\x5b\x5d-\x7e]+$/]. *)
Definition scope_char (c : ascii) : bool := in_range 33 33 c || in_range 35 91 c || in_range 93 126 c.
Definition SCOPE_TOKEN : regexp := RPlus (RClass scope_char).

(** [[a-z0-9](?:[a-z0-9-]{0,61}[a-z0-9])?], and at least two of them; the
    look-ahead bounds the length. *)
Definition DOMAIN_LABEL : regexp :=
  RSeq (RClass lower_alnum) (ROpt (RSeq (RUpTo 61 (RClass lower_alnum_hyphen)) (RClass lower_alnum))).
Definition EMAIL_DOMAIN : regexp := RSeq DOMAIN_LABEL (RPlus (RSeq (RChar "."%char) DOMAIN_LABEL)).

Definition strip_at (s : string) : string :=
  match s with String c s' => if decide (c = at_sign) then s' else s | EmptyString => s end.

Definition normalizeEmailDomain (value : string) : option string :=
  let domain := strip_at (toLowerCase (trim value)) in
  if bool_decide (1 <= String.length domain <= 253)%nat && re_test EMAIL_DOMAIN domain
  then Some domain else None.

(** A string between two lengths, trimmed first or not. *)
Definition length_between (lo hi : nat) (s : string) : bool := bool_decide (lo <= String.length s <= hi)%nat.

Definition z_string (trims : bool) (lo hi : nat) (v : option json) : option string :=
  s ← json_string v;
  let s := if trims then trim s else s in
  if length_between lo hi s then Some s else None.

Definition z_matching (r : regexp) (v : option json) : option string :=
  s ← json_string v; if re_test r s then Some s else None.

Definition z_boolean (v : option json) : option bool :=
  match v with Some (JBool b) => Some b | _ => None end.

(** Every item parses, length_between two lengths. *)
Definition z_array {A} (item : option json -> option A) (lo hi : nat) (v : option json) : option (list A) :=
  items ← json_array v;
  if bool_decide (lo <= length items <= hi)%nat then mapM (fun x => item (Some x)) items else None.

(** [.strict()]: an object with no other members. *)
Definition z_strict (keys : list string) (v : json) : option (list (string * json)) :=
  members ← json_record (Some v);
  if forallb (fun k => bool_decide (k ∈ keys)) members.*1 then Some members else None.

Definition mappable_role (s : string) : option SsoMappableRole :=
  if decide (s = "client") then Some Sso_client
  else if decide (s = "provider") then Some Sso_provider
  else if decide (s = "admin") then Some Sso_admin
  else None.

Definition z_role (v : option json) : option SsoMappableRole := s ← json_string v; mappable_role s.

Definition claimPath (v : option json) : option string := z_string true 1 256 v.
Definition claimValue (v : option json) : option string := z_string false 1 512 v.

Definition ssoRoleMappingSchema (v : option json) : option SsoRoleMapping :=
  v ← v; m ← z_strict ["claim"; "value"; "role"]%string v;
  claim ← claimPath (json_own "claim" m); value ← claimValue (json_own "value" m);
  role ← z_role (json_own "role" m);
  Some {| rm_claim := claim; rm_value := value; rm_role := role |}.

Definition ssoOrgMappingSchema (v : option json) : option SsoOrgMapping :=
  v ← v; m ← z_strict ["claim"; "value"; "org_id"]%string v;
  claim ← claimPath (json_own "claim" m); value ← claimValue (json_own "value" m);
  org ← z_string true 1 64 (json_own "org_id" m);
  Some {| om_claim := claim; om_value := value; om_org_id := org |}.

Definition scopesSchema (v : option json) : option (list string) :=
  scopes ← z_array (z_matching SCOPE_TOKEN) 1 20 v;
  if bool_decide ("openid"%string ∈ scopes) then Some scopes else None.

(** [z.enum(...).nullable()]. *)
Definition z_default_role (v : option json) : option (option SsoMappableRole) :=
  match v with Some JNull => Some None | v => Some <$> z_role v end.

Definition provider_keys : list string :=
  ["id"; "display_name"; "issuer"; "client_id"; "scopes"; "enabled"; "jit_provisioning"; "link_existing_accounts";
   "require_verified_email"; "allowed_email_domains"; "disable_local_password_for_linked"; "sync_roles";
   "default_role"; "role_mappings"; "org_mappings"]%string.

Definition ssoProviderSettingsSchema (v : json) : option SsoProviderSettings :=
  m ← z_strict provider_keys v;
  id ← z_matching PROVIDER_ID (json_own "id" m);
  display_name ← z_string true 1 100 (json_own "display_name" m);
  issuer ← z_string true 1 MAX_ISSUER_LENGTH (json_own "issuer" m);
  client_id ← z_string true 1 512 (json_own "client_id" m);
  scopes ← scopesSchema (json_own "scopes" m);
  enabled ← z_boolean (json_own "enabled" m);
  jit ← z_boolean (json_own "jit_provisioning" m);
  link ← z_boolean (json_own "link_existing_accounts" m);
  verified ← z_boolean (json_own "require_verified_email" m);
  domains ← z_array (z_string true 1 253) 0 MAX_ALLOWED_EMAIL_DOMAINS (json_own "allowed_email_domains" m);
  strict ← z_boolean (json_own "disable_local_password_for_linked" m);
  sync ← z_boolean (json_own "sync_roles" m);
  default_role ← z_default_role (json_own "default_role" m);
  roles ← z_array ssoRoleMappingSchema 0 MAX_SSO_MAPPINGS (json_own "role_mappings" m);
  orgs ← z_array ssoOrgMappingSchema 0 MAX_SSO_MAPPINGS (json_own "org_mappings" m);
  Some {| sp_id := id; sp_display_name := display_name; sp_issuer := issuer; sp_client_id := client_id;
          sp_scopes := scopes; sp_enabled := enabled; sp_jit_provisioning := jit; sp_link_existing_accounts := link;
          sp_require_verified_email := verified; sp_allowed_email_domains := domains;
          sp_disable_local_password_for_linked := strict; sp_sync_roles := sync; sp_default_role := default_role;
          sp_role_mappings := roles; sp_org_mappings := orgs |}.

(** ** The stored settings *)

Inductive LoginPolicy : Type := LocalOnly | SsoOnly | LocalAndSso.

#[export] Instance LoginPolicy_eq_dec : EqDecision LoginPolicy.
Proof. solve_decision. Defined.

Definition DEFAULT_LOGIN_POLICY : LoginPolicy := LocalAndSso.

(** [isLoginPolicy], with the policy it names. *)
Definition login_policy (v : option json) : option LoginPolicy :=
  s ← json_string v;
  if decide (s = "local_only") then Some LocalOnly
  else if decide (s = "sso_only") then Some SsoOnly
  else if decide (s = "local_and_sso") then Some LocalAndSso
  else None.

Record StoredSsoSettings : Type := {
  st_policy : LoginPolicy;
  st_allowed_email_domains : list string;
  st_deprovision_on_access_loss : bool;
  st_providers : list SsoProviderSettings;
}.

Inductive SsoProviderSource : Type := FromEnvironment | FromSettings.

Record EnvSsoProvider : Type := {
  ev_settings : SsoProviderSettings;
  ev_clientSecret : option string;
}.

(** [NexusConfig.sso]. *)
Record SsoEnvConfig : Type := {
  sc_providers : list EnvSsoProvider;
  sc_breakGlassLocalLogin : bool;
}.

Definition SSO_SETTINGS_KEY : string := "sso".

Definition ssoClientSecretKey (providerId : string) : string := "sso.client_secret." +:+ providerId.

(** The column decoded ([mapSetting]): unreadable text reads as [null]. *)
Definition setting_value (r : SettingRecord) : json := default JNull (JSON_parse (s_value r)).

(** [asRecord]: an array is an object too, with none of the members read here. *)
Definition asRecord (v : option json) : list (string * json) :=
  match v with Some (JObj members) => members | _ => [] end.

(** [new Set(items)] keeps the first of equal items, in order. *)
Fixpoint js_set (seen items : list string) : list string :=
  match items with
  | [] => []
  | x :: rest => if decide (x ∈ seen) then js_set seen rest else x :: js_set (x :: seen) rest
  end.

Definition parseStoredSsoSettings (row : option SettingRecord) : StoredSsoSettings :=
  let value := asRecord (setting_value <$> row) in
  let domains := match json_own "allowed_email_domains" value with
                 | Some (JArr entries) =>
                     omap (fun entry => s ← json_string (Some entry); normalizeEmailDomain s) entries
                 | _ => []
                 end in
  let providers := match json_own "providers" value with
                   | Some (JArr entries) => omap ssoProviderSettingsSchema entries
                   | _ => []
                   end in
  {| st_policy := default DEFAULT_LOGIN_POLICY (login_policy (json_own "policy" value));
     st_allowed_email_domains := js_set [] domains;
     st_deprovision_on_access_loss :=
       match json_own "deprovision_on_access_loss" value with Some (JBool true) => true | _ => false end;
     st_providers := providers |}.

Definition stored_sso (t : setting_table) : StoredSsoSettings :=
  parseStoredSsoSettings (settings_get SSO_SETTINGS_KEY t).

(** ** The providers in force *)

Definition env_ids (config : SsoEnvConfig) : list string := map (fun p => sp_id (ev_settings p)) (sc_providers config).

Definition providersInForce (config : SsoEnvConfig) (stored : StoredSsoSettings)
    : list (SsoProviderSettings * SsoProviderSource) :=
  map (fun p => (ev_settings p, FromEnvironment)) (sc_providers config)
  ++ map (fun p => (p, FromSettings))
       (List.filter (fun p => negb (bool_decide (sp_id p ∈ env_ids config))) (st_providers stored)).

Definition shadowedProviderIds (config : SsoEnvConfig) (stored : StoredSsoSettings) : list string :=
  map sp_id (List.filter (fun p => bool_decide (sp_id p ∈ env_ids config)) (st_providers stored)).

(** [strict] of [localPasswordBlocked]: the ids of the providers in force whose linked
    accounts may not use a password. *)
Definition strict_providers (config : SsoEnvConfig) (stored : StoredSsoSettings) : list string :=
  map (fun p => sp_id p.1)
    (List.filter (fun p => sp_disable_local_password_for_linked p.1) (providersInForce config stored)).

(** What [localPasswordBlocked] decides from the rows it reads. *)
Definition password_blocked (config : SsoEnvConfig) (role : Role) (lock : option PasswordLockRecord)
    (identities : list UserIdentityRecord) (stored : StoredSsoSettings) : bool :=
  if bool_decide (role = super_admin) then false
  else if bool_decide (is_Some lock) then true
  else match identities with
       | [] => false
       | _ => existsb (fun i => bool_decide (ui_provider_id i ∈ strict_providers config stored)) identities
       end.
