(* ===== verification/World.v ===== *)
(** * The world the asynchronous code runs in

    The database, and the monad of the server's [async] functions: explicit
    state with exceptions. Everything the code cannot control is a schedule of
    turns, one per awaited operation: what the other processes did to the
    database since the last one, the clock, the identifiers [newId()] draws, the
    value of [Math.random()], whether the operation fails, what SMTP or the
    gateway answers, and whether [stop()] was called, and
    what [randomBytes] draws. [w_counters] is the result
    object the current flow counts in, by property name. A theorem that quantifies over the world quantifies over
    every interleaving and every pattern of failures. *)

From S2P Require Import Prelude Json Roles Leases Users Outbox JobQueues Settings AuditLog AccessTables CredentialTables AccountTables.
Open Scope Z_scope.

(** ** The database *)

Record db : Type := {
  d_leases : lease_table;
  d_users : user_table;
  d_outbox : outbox_table;
  d_teardown : Teardown.table;
  d_recovery : Recovery.table;
  d_access_jobs : AccessJobs.table;
  d_settings : setting_table;
  d_audit : audit_table;
  d_access : access_tables;
  d_credentials : credential_table;
  d_identities : identity_table;
  d_accounts : account_tables;
}.

Definition db_empty : db := {|
  d_leases := ∅; d_users := ∅; d_outbox := ∅; d_teardown := ∅; d_recovery := ∅; d_access_jobs := ∅; d_settings := ∅; d_audit := ∅;
  d_access := access_empty; d_credentials := ∅; d_identities := ∅;
  d_accounts := account_empty;
|}.

Definition with_leases (t : lease_table) (d : db) : db := {|
  d_leases := t; d_users := d_users d; d_outbox := d_outbox d; d_teardown := d_teardown d;
  d_recovery := d_recovery d; d_access_jobs := d_access_jobs d; d_settings := d_settings d;
  d_audit := d_audit d; d_access := d_access d; d_credentials := d_credentials d;
  d_identities := d_identities d; d_accounts := d_accounts d;
|}.
Definition with_users (t : user_table) (d : db) : db := {|
  d_leases := d_leases d; d_users := t; d_outbox := d_outbox d; d_teardown := d_teardown d;
  d_recovery := d_recovery d; d_access_jobs := d_access_jobs d; d_settings := d_settings d;
  d_audit := d_audit d; d_access := d_access d; d_credentials := d_credentials d;
  d_identities := d_identities d; d_accounts := d_accounts d;
|}.
Definition with_outbox (t : outbox_table) (d : db) : db := {|
  d_leases := d_leases d; d_users := d_users d; d_outbox := t; d_teardown := d_teardown d;
  d_recovery := d_recovery d; d_access_jobs := d_access_jobs d; d_settings := d_settings d;
  d_audit := d_audit d; d_access := d_access d; d_credentials := d_credentials d;
  d_identities := d_identities d; d_accounts := d_accounts d;
|}.
Definition with_teardown (t : Teardown.table) (d : db) : db := {|
  d_leases := d_leases d; d_users := d_users d; d_outbox := d_outbox d; d_teardown := t;
  d_recovery := d_recovery d; d_access_jobs := d_access_jobs d; d_settings := d_settings d;
  d_audit := d_audit d; d_access := d_access d; d_credentials := d_credentials d;
  d_identities := d_identities d; d_accounts := d_accounts d;
|}.
Definition with_recovery (t : Recovery.table) (d : db) : db := {|
  d_leases := d_leases d; d_users := d_users d; d_outbox := d_outbox d; d_teardown := d_teardown d;
  d_recovery := t; d_access_jobs := d_access_jobs d; d_settings := d_settings d;
  d_audit := d_audit d; d_access := d_access d; d_credentials := d_credentials d;
  d_identities := d_identities d; d_accounts := d_accounts d;
|}.
Definition with_access_jobs (t : AccessJobs.table) (d : db) : db := {|
  d_leases := d_leases d; d_users := d_users d; d_outbox := d_outbox d; d_teardown := d_teardown d;
  d_recovery := d_recovery d; d_access_jobs := t; d_settings := d_settings d; d_audit := d_audit d;
  d_access := d_access d; d_credentials := d_credentials d; d_identities := d_identities d; d_accounts := d_accounts d;
|}.
Definition with_settings (t : setting_table) (d : db) : db := {|
  d_leases := d_leases d; d_users := d_users d; d_outbox := d_outbox d; d_teardown := d_teardown d;
  d_recovery := d_recovery d; d_access_jobs := d_access_jobs d; d_settings := t;
  d_audit := d_audit d; d_access := d_access d; d_credentials := d_credentials d;
  d_identities := d_identities d; d_accounts := d_accounts d;
|}.
Definition with_audit (t : audit_table) (d : db) : db := {|
  d_leases := d_leases d; d_users := d_users d; d_outbox := d_outbox d; d_teardown := d_teardown d;
  d_recovery := d_recovery d; d_access_jobs := d_access_jobs d; d_settings := d_settings d;
  d_audit := t; d_access := d_access d; d_credentials := d_credentials d;
  d_identities := d_identities d; d_accounts := d_accounts d;
|}.
Definition with_access (t : access_tables) (d : db) : db := {|
  d_leases := d_leases d; d_users := d_users d; d_outbox := d_outbox d; d_teardown := d_teardown d;
  d_recovery := d_recovery d; d_access_jobs := d_access_jobs d; d_settings := d_settings d;
  d_audit := d_audit d; d_access := t; d_credentials := d_credentials d;
  d_identities := d_identities d; d_accounts := d_accounts d;
|}.
Definition with_credentials (t : credential_table) (d : db) : db := {|
  d_leases := d_leases d; d_users := d_users d; d_outbox := d_outbox d; d_teardown := d_teardown d;
  d_recovery := d_recovery d; d_access_jobs := d_access_jobs d; d_settings := d_settings d;
  d_audit := d_audit d; d_access := d_access d; d_credentials := t; d_identities := d_identities d; d_accounts := d_accounts d;
|}.
Definition with_identities (t : identity_table) (d : db) : db := {|
  d_leases := d_leases d; d_users := d_users d; d_outbox := d_outbox d; d_teardown := d_teardown d;
  d_recovery := d_recovery d; d_access_jobs := d_access_jobs d; d_settings := d_settings d;
  d_audit := d_audit d; d_access := d_access d; d_credentials := d_credentials d;
  d_identities := t; d_accounts := d_accounts d;
|}.

(** The account tables; each statement changes one of them. *)
Definition with_accounts (t : account_tables) (d : db) : db := {|
  d_leases := d_leases d; d_users := d_users d; d_outbox := d_outbox d; d_teardown := d_teardown d;
  d_recovery := d_recovery d; d_access_jobs := d_access_jobs d; d_settings := d_settings d;
  d_audit := d_audit d; d_access := d_access d; d_credentials := d_credentials d;
  d_identities := d_identities d; d_accounts := t;
|}.

(** ** Turns *)

(** What [transport.send] does: the relay takes the message; it fails after the
    whole body reached the relay ([isDeliveredUnacknowledged]); or it fails
    before, and nothing was delivered. *)
Inductive smtp_outcome : Type :=
| SmtpAccepted
| SmtpUnacknowledged (message : string)
| SmtpRejected (message : string).

Record turn : Type := {
  t_rivals : db -> db;
  t_now : Z;
  t_ids : nat -> string;
  t_random : Z;
  t_fault : option string;
  t_smtp : smtp_outcome;
  t_stopping : bool;
  t_nonce : string;
}.

(** A lease the current flow holds ([HeldLease] of [lease-fence.ts]). *)
Record held_lease : Type := {
  hl_key : string;
  hl_token : string;
  hl_live : bool;
}.

(** What [transport.send] is handed. *)
Record OutboundMail : Type := {
  mail_to : string;
  mail_subject : string;
  mail_html : string;
  mail_text : string;
}.

#[export] Instance OutboundMail_eq_dec : EqDecision OutboundMail.
Proof. solve_decision. Defined.

(** What left the process: a message handed to SMTP at a time, with its
    deadline, and what the relay answered; a disabled account the gateway
    confirmed it no longer accepts; an account whose credentials the gateway
    confirmed were revoked after a password reset; and what the gateway did to
    the credentials a consumer holds of a type: one appended, by its
    fingerprint, one removed by its index, or all of them removed. *)
Inductive event : Type :=
| Sent (mail : OutboundMail) (at_ : Z) (deadline : Z) (outcome : smtp_outcome)
| GatewayRevoked (userId : string)
| CredentialsRevoked (userId : string)
| CredentialAppended (consumerId : string) (type : CredentialType) (fingerprint : string)
| CredentialRemoved (consumerId : string) (type : CredentialType) (index : nat)
| CredentialsCleared (consumerId : string) (type : CredentialType).

Record world : Type := {
  w_db : db;
  w_env : nat -> turn;
  w_turn : nat;
  w_tx : bool;
  w_held : list held_lease;
  w_trace : list event;
  w_counters : gmap string Z;
}.

Definition set_db (d : db) (w : world) : world := {|
  w_db := d; w_env := w_env w; w_turn := w_turn w; w_tx := w_tx w; w_held := w_held w;
  w_trace := w_trace w; w_counters := w_counters w
|}.
Definition advance (w : world) : world := {|
  w_db := w_db w; w_env := w_env w; w_turn := S (w_turn w); w_tx := w_tx w; w_held :=
  w_held w; w_trace := w_trace w; w_counters := w_counters w
|}.
Definition set_tx (b : bool) (w : world) : world := {|
  w_db := w_db w; w_env := w_env w; w_turn := w_turn w; w_tx := b; w_held := w_held w;
  w_trace := w_trace w; w_counters := w_counters w
|}.
Definition set_held (h : list held_lease) (w : world) : world := {|
  w_db := w_db w; w_env := w_env w; w_turn := w_turn w; w_tx := w_tx w; w_held := h;
  w_trace := w_trace w; w_counters := w_counters w
|}.
Definition emit (e : event) (w : world) : world := {|
  w_db := w_db w; w_env := w_env w; w_turn := w_turn w; w_tx := w_tx w; w_held := w_held
  w; w_trace := w_trace w ++ [e]; w_counters := w_counters w
|}.
Definition set_counters (c : gmap string Z) (w : world) : world := {|
  w_db := w_db w; w_env := w_env w; w_turn := w_turn w; w_tx := w_tx w; w_held := w_held
  w; w_trace := w_trace w; w_counters := c
|}.

Definition cur (w : world) : turn := w_env w (w_turn w).

(** ** The monad *)

Definition M (A : Type) : Type := world -> res exn A * world.

Definition mret {A} (a : A) : M A := fun w => (Ok a, w).
Definition mthrow {A} (e : exn) : M A := fun w => (Throw e, w).

Definition mbind {A B} (m : M A) (k : A -> M B) : M B := fun w =>
  match m w with
  | (Ok a, w') => k a w'
  | (Throw e, w') => (Throw e, w')
  end.

(** [try { m } catch (error) { h(error) }]. *)
Definition mcatch {A} (m : M A) (h : exn -> M A) : M A := fun w =>
  match m w with
  | (Ok a, w') => (Ok a, w')
  | (Throw e, w') => h e w'
  end.

(** The outcome of [m], caught either way. *)
Definition mattempt {A} (m : M A) : M (res exn A) := fun w => let '(r, w') := m w in (Ok r, w').

(** [try { m } finally { f }]: a throw of [f] replaces the outcome of [m]. *)
Definition mfinally {A} (m : M A) (f : M unit) : M A := fun w =>
  let '(r, w1) := m w in
  match f w1 with
  | (Ok _, w2) => (r, w2)
  | (Throw e, w2) => (Throw e, w2)
  end.

Declare Scope nexus_scope.
Delimit Scope nexus_scope with nexus.
Notation "'do' x <- m ; k" := (mbind m (fun x => k))
  (at level 10, x name, m at level 100, k at level 200) : nexus_scope.
Notation "'do_' m ; k" := (mbind m (fun _ => k))
  (at level 10, m at level 100, k at level 200) : nexus_scope.
Open Scope nexus_scope.

(** [Date.now()]: the clock moves between awaited operations. *)
Definition date_now : M Z := fun w => (Ok (t_now (cur w)), w).

Definition math_random : M Z := fun w => (Ok (t_random (cur w)), w).

(** [randomUUID()]: no await, but the draw is used up. *)
Definition randomUUID : M string := fun w => (Ok (t_ids (cur w) 0), advance w).

(** [result.field += n], and [result.field = n]. *)
Definition counter (field : string) (w : world) : Z := default 0 (w_counters w !! field).

Definition bump (field : string) (n : Z) : M unit := fun w =>
  (Ok tt, set_counters (<[field := counter field w + n]> (w_counters w)) w).

Definition set_counter (field : string) (n : Z) : M unit := fun w =>
  (Ok tt, set_counters (<[field := n]> (w_counters w)) w).

(** [randomBytes(12)], drawn for one envelope. *)
Definition randomNonce : M string := fun w => (Ok (t_nonce (cur w)), w).

Definition stopping : M bool := fun w => (Ok (t_stopping (cur w)), w).

(** One repository call. Outside a transaction the other processes come first;
    inside one they are queued behind it. A failing statement changes nothing. *)
Definition statement {A} (f : turn -> db -> res exn (A * db)) : M A := fun w =>
  let t := cur w in
  let d := if w_tx w then w_db w else t_rivals t (w_db w) in
  let w1 := set_db d (advance w) in
  match t_fault t with
  | Some message => (Throw (driverError message), w1)
  | None => match f t d with
            | Ok (a, d') => (Ok a, set_db d' w1)
            | Throw e => (Throw e, w1)
            end
  end.

(** A statement that cannot refuse. *)
Definition statement_ok {A} (f : turn -> db -> A * db) : M A :=
  statement (fun t d => Ok (f t d)).

(** Awaiting something other than the database. *)
Definition await_turn {A} (f : turn -> A) : M A := fun w =>
  (Ok (f (cur w)),
   set_db (if w_tx w then w_db w else t_rivals (cur w) (w_db w)) (advance w)).

(** ** Lemmas *)

Lemma mbind_ok {A B} (m : M A) (k : A -> M B) w b w' :
  mbind m k w = (Ok b, w') <-> exists a w1, m w = (Ok a, w1) /\ k a w1 = (Ok b, w').
Proof.
  unfold mbind. destruct (m w) as [[a|e] w1]; split.
  - eauto.
  - intros (a' & w1' & [= <- <-] & ?). done.
  - done.
  - by intros (a' & w1' & [=] & ?).
Qed.

Lemma mbind_throw {A B} (m : M A) (k : A -> M B) w e w' :
  mbind m k w = (Throw e, w') <->
    m w = (Throw e, w') \/ exists a w1, m w = (Ok a, w1) /\ k a w1 = (Throw e, w').
Proof.
  unfold mbind. destruct (m w) as [[a|e1] w1]; split.
  - eauto.
  - intros [[=]|(a' & w1' & [= <- <-] & ?)]. done.
  - intros [= -> ->]. by left.
  - intros [[= -> ->]|(a' & w1' & [=] & ?)]. done.
Qed.

Lemma mfinally_ok {A} (m : M A) (f : M unit) w a w' :
  mfinally m f w = (Ok a, w') -> exists w1, m w = (Ok a, w1).
Proof.
  unfold mfinally. destruct (m w) as [r w1]. destruct (f w1) as [[u|e] w2]; [|done].
  intros [= -> _]. eauto.
Qed.

Lemma date_now_bind {A} (k : Z -> M A) w : (do now <- date_now; k now) w = k (t_now (cur w)) w.
Proof. reflexivity. Qed.

Lemma mbind_assoc {A B C} (m : M A) (f : A -> M B) (g : B -> M C) w :
  mbind (mbind m f) g w = mbind m (fun a => mbind (f a) g) w.
Proof. unfold mbind. by destruct (m w) as [[a|e] w1]. Qed.

(** [never_throws m]: whatever happens, [m] answers. *)
Definition never_throws {A} (m : M A) : Prop := forall w, exists a w', m w = (Ok a, w').

Lemma never_throws_catch {A} (m : M A) (h : exn -> M A) :
  (forall e, never_throws (h e)) -> never_throws (mcatch m h).
Proof. intros Hh w. unfold mcatch. destruct (m w) as [[a|e] w1]; [eauto|apply Hh]. Qed.

Lemma never_throws_attempt {A} (m : M A) : never_throws (mattempt m).
Proof. intros w. unfold mattempt. destruct (m w). eauto. Qed.

Lemma never_throws_ret {A} (a : A) : never_throws (mret a).
Proof. intros w. by exists a, w. Qed.

(** A step that answers, and what is known where it ends. *)
Lemma mbind_step {A B} (m : M A) (k : A -> M B) w a w1 : m w = (Ok a, w1) -> mbind m k w = k a w1.
Proof. unfold mbind. by intros ->. Qed.

(** [frame m]: running [m] leaves the schedule, the open transaction and the
    held leases as they were, and only adds to the trace. *)
Definition keeps (w w' : world) : Prop :=
  w_env w' = w_env w /\ w_tx w' = w_tx w /\ w_held w' = w_held w
  /\ (w_turn w <= w_turn w')%nat /\ w_trace w `prefix_of` w_trace w'.

Definition frame {A} (m : M A) : Prop := forall w, keeps w (m w).2.

#[export] Instance keeps_preorder : PreOrder keeps.
Proof.
  split.
  - intros w. split_and!; done.
  - intros w1 w2 w3 (He1 & Ht1 & Hh1 & Hn1 & Hp1) (He2 & Ht2 & Hh2 & Hn2 & Hp2).
    split_and!; [congruence..|lia|by etrans].
Qed.

Lemma frame_ret {A} (a : A) : frame (mret a).
Proof. intros w. reflexivity. Qed.

Lemma frame_throw {A} (e : exn) : frame (@mthrow A e).
Proof. intros w. reflexivity. Qed.

Lemma frame_bind {A B} (m : M A) (k : A -> M B) :
  frame m -> (forall a, frame (k a)) -> frame (mbind m k).
Proof.
  intros Hm Hk w. unfold mbind. specialize (Hm w).
  destruct (m w) as [[a|e] w1]; simpl in *; [|done].
  etrans; [exact Hm|apply Hk].
Qed.

Lemma frame_catch {A} (m : M A) (h : exn -> M A) :
  frame m -> (forall e, frame (h e)) -> frame (mcatch m h).
Proof.
  intros Hm Hh w. unfold mcatch. specialize (Hm w).
  destruct (m w) as [[a|e] w1]; simpl in *; [done|].
  etrans; [exact Hm|apply Hh].
Qed.

Lemma frame_finally {A} (m : M A) (f : M unit) : frame m -> frame f -> frame (mfinally m f).
Proof.
  intros Hm Hf w. unfold mfinally. specialize (Hm w).
  destruct (m w) as [r w1]; simpl in *. specialize (Hf w1).
  destruct (f w1) as [[a|e] w2]; simpl in *; by etrans.
Qed.

Lemma frame_attempt {A} (m : M A) : frame m -> frame (mattempt m).
Proof. intros Hm w. unfold mattempt. specialize (Hm w). by destruct (m w). Qed.

Lemma keeps_set_db d w : keeps w (set_db d w).
Proof. split_and!; done. Qed.

Lemma keeps_advance w : keeps w (advance w).
Proof. split_and!; simpl; [done..|lia|done]. Qed.

Lemma frame_date_now : frame date_now.
Proof. intros w. reflexivity. Qed.

Lemma frame_math_random : frame math_random.
Proof. intros w. reflexivity. Qed.

Lemma frame_randomUUID : frame randomUUID.
Proof. intros w. apply keeps_advance. Qed.

Lemma frame_bump field n : frame (bump field n).
Proof. intros w. split_and!; done. Qed.

Lemma frame_set_counter field n : frame (set_counter field n).
Proof. intros w. split_and!; done. Qed.

Lemma frame_randomNonce : frame randomNonce.
Proof. intros w. reflexivity. Qed.

Lemma frame_stopping : frame stopping.
Proof. intros w. reflexivity. Qed.

Lemma frame_statement {A} (f : turn -> db -> res exn (A * db)) : frame (statement f).
Proof.
  intros w. unfold statement.
  destruct (t_fault (cur w)); [|destruct (f _ _) as [[a d']|e]]; simpl; apply keeps_advance.
Qed.

Lemma frame_statement_ok {A} (f : turn -> db -> A * db) : frame (statement_ok f).
Proof. apply frame_statement. Qed.

Lemma frame_await_turn {A} (f : turn -> A) : frame (await_turn f).
Proof. intros w. apply keeps_advance. Qed.

#[export] Hint Resolve frame_ret frame_throw frame_bind frame_catch frame_finally
  frame_attempt frame_date_now
  frame_math_random frame_randomUUID frame_bump frame_set_counter frame_randomNonce frame_stopping frame_statement frame_statement_ok frame_await_turn : nexus.

(** Prove [frame] along the structure of a program. *)
Ltac frames :=
  repeat match goal with
  | |- frame (mbind _ _) => apply frame_bind; [|intro]
  | |- frame (mcatch _ _) => apply frame_catch; [|intro]
  | |- frame (mfinally _ _) => apply frame_finally
  | |- frame (match ?x with _ => _ end) => destruct x
  | |- frame (let '_ := ?x in _) => destruct x
  | |- frame _ => solve [auto with nexus]
  end.

(** What a statement did, when it returned. *)
Lemma statement_ok_inv {A} (f : turn -> db -> A * db) w a w' :
  statement_ok f w = (Ok a, w') ->
  exists d, d = (if w_tx w then w_db w else t_rivals (cur w) (w_db w))
    /\ f (cur w) d = (a, w_db w') /\ w' = set_db (w_db w') (advance w).
Proof.
  unfold statement_ok, statement. intros H. destruct (t_fault (cur w)); [done|].
  destruct (f _ _) as [a' d'] eqn:Hf. simplify_eq. simpl. eexists. split_and!; done.
Qed.

(** Inside a transaction no other process comes first. *)
Lemma statement_ok_tx {A} (f : turn -> db -> A * db) w a w' :
  w_tx w = true -> statement_ok f w = (Ok a, w') ->
  f (cur w) (w_db w) = (a, w_db w') /\ w_tx w' = true.
Proof.
  intros Htx H. apply statement_ok_inv in H as (d & -> & Hf & ->). by rewrite Htx in Hf.
Qed.

Lemma statement_trace {A} (f : turn -> db -> res exn (A * db)) w :
  w_trace (statement f w).2 = w_trace w.
Proof.
  unfold statement.
  destruct (t_fault (cur w)); [|destruct (f _ _) as [[a d']|e]]; done.
Qed.

(** ** Predicates that survive the other processes

    A predicate on the database, the trace and the counters; [leads env I J m]:
    from any world on the schedule [env] where [I] holds, running [m] ends,
    whatever it answers, where [J] holds. *)
Abbreviation world_pred := (db -> list event -> gmap string Z -> Prop).

Definition at_world (I : world_pred) (w : world) : Prop := I (w_db w) (w_trace w) (w_counters w).

Definition rival_closed (env : nat -> turn) (I : world_pred) : Prop :=
  forall n d tr c, I d tr c -> I (t_rivals (env n) d) tr c.

Definition implies (I J : world_pred) : Prop := forall d tr c, I d tr c -> J d tr c.

Definition leads (env : nat -> turn) (I J : world_pred) {A} (m : M A) : Prop :=
  forall w, w_env w = env -> at_world I w -> w_env (m w).2 = env /\ at_world J (m w).2.

Section Leads.
Context (env : nat -> turn).
Implicit Types (I J K : world_pred).

Lemma leads_weaken {A} I J K (m : M A) : leads env I K m -> implies K J -> leads env I J m.
Proof. intros Hm HK w He HI. destruct (Hm w He HI) as [He' HK']. split; [done|by apply HK]. Qed.

Lemma leads_strengthen {A} I J K (m : M A) : leads env K J m -> implies I K -> leads env I J m.
Proof. intros Hm HK w He HI. apply Hm; [done|]. by apply HK. Qed.

Lemma leads_ret {A} I J (a : A) : implies I J -> leads env I J (mret a).
Proof. intros HI w He Hw. split; [done|by apply HI]. Qed.

Lemma leads_throw {A} I J (e : exn) : implies I J -> leads env I J (@mthrow A e).
Proof. intros HI w He Hw. split; [done|by apply HI]. Qed.

Lemma leads_bind {A B} I J K (m : M A) (k : A -> M B) :
  leads env I K m -> (forall a, leads env K J (k a)) -> implies K J -> leads env I J (mbind m k).
Proof.
  intros Hm Hk HKJ w He HI. destruct (Hm w He HI) as [He' HK]. unfold mbind.
  destruct (m w) as [[a|e] w1]; simpl in *; [by apply Hk|]. split; [done|by apply HKJ].
Qed.

(** A first step that does not change the predicate, and whose answer matters. *)
Lemma leads_bind_pure {A B} I J (m : M A) (k : A -> M B) :
  leads env I I m -> (forall a, leads env I J (k a)) -> implies I J -> leads env I J (mbind m k).
Proof. apply leads_bind. Qed.

Lemma leads_catch {A} I J K (m : M A) (h : exn -> M A) :
  leads env I K m -> (forall e, leads env K J (h e)) -> implies K J -> leads env I J (mcatch m h).
Proof.
  intros Hm Hh HKJ w He HI. destruct (Hm w He HI) as [He' HK]. unfold mcatch.
  destruct (m w) as [[a|e] w1]; simpl in *; [split; [done|by apply HKJ]|by apply Hh].
Qed.

Lemma leads_finally {A} I J (m : M A) (f : M unit) :
  leads env I J m -> leads env J J f -> leads env I J (mfinally m f).
Proof.
  intros Hm Hf w He HI. destruct (Hm w He HI) as [He' HJ]. unfold mfinally.
  destruct (m w) as [r w1]; simpl in *. destruct (Hf w1 He' HJ) as [He2 HJ2].
  by destruct (f w1) as [[u|e] w2].
Qed.

Lemma leads_attempt {A} I J (m : M A) : leads env I J m -> leads env I J (mattempt m).
Proof.
  intros Hm w He HI. destruct (Hm w He HI) as [He' HJ]. unfold mattempt. by destruct (m w).
Qed.

Lemma leads_date_now I : leads env I I date_now.
Proof. intros w He HI. done. Qed.
Lemma leads_math_random I : leads env I I math_random.
Proof. intros w He HI. done. Qed.
Lemma leads_randomUUID I : leads env I I randomUUID.
Proof. intros w He HI. done. Qed.
Lemma leads_randomNonce I : leads env I I randomNonce.
Proof. intros w He HI. done. Qed.
Lemma leads_stopping I : leads env I I stopping.
Proof. intros w He HI. done. Qed.

Lemma leads_bump I J field n :
  (forall d tr c, I d tr c -> J d tr (<[field := default 0 (c !! field) + n]> c)) ->
  leads env I J (bump field n).
Proof. intros HIJ w He HI. split; [done|]. unfold at_world. simpl. by apply HIJ. Qed.

Lemma leads_set_counter I J field n :
  (forall d tr c, I d tr c -> J d tr (<[field := n]> c)) -> leads env I J (set_counter field n).
Proof. intros HIJ w He HI. split; [done|]. unfold at_world. simpl. by apply HIJ. Qed.

Lemma leads_statement {A} I J (f : turn -> db -> res exn (A * db)) :
  rival_closed env I -> implies I J ->
  (forall n d tr c a d', I d tr c -> f (env n) d = Ok (a, d') -> J d' tr c) ->
  leads env I J (statement f).
Proof.
  intros Hr HIJ Hf w He HI. unfold statement, cur. rewrite He.
  set (d := if w_tx w then w_db w else t_rivals (env (w_turn w)) (w_db w)).
  assert (Hd : I d (w_trace w) (w_counters w)) by (subst d; destruct (w_tx w); [done|by apply Hr]).
  destruct (t_fault (env (w_turn w))); [split; [done|by apply HIJ]|].
  destruct (f _ d) as [[a d']|e] eqn:Hfd; (split; [done|]); [by eapply Hf|by apply HIJ].
Qed.

Lemma leads_statement_ok {A} I J (f : turn -> db -> A * db) :
  rival_closed env I -> implies I J ->
  (forall n d tr c, I d tr c -> J (f (env n) d).2 tr c) ->
  leads env I J (statement_ok f).
Proof.
  intros Hr HIJ Hf. apply leads_statement; [done..|]. intros n d tr c a d' HI [= Heq].
  specialize (Hf n d tr c HI). by rewrite Heq in Hf.
Qed.

(** A statement that only reads. *)
Lemma leads_read {A} I (f : turn -> db -> A) :
  rival_closed env I -> leads env I I (statement_ok (fun t d => (f t d, d))).
Proof. intros Hr. apply leads_statement_ok; [done|by intros ???|done]. Qed.

(** From a world where [I] holds, an answer of [m] satisfies [Q]. *)
Definition yields (I : world_pred) {A} (Q : A -> Prop) (m : M A) : Prop :=
  forall w a w', w_env w = env -> at_world I w -> m w = (Ok a, w') -> Q a.

Lemma yields_ret {A} I (Q : A -> Prop) a : Q a -> yields I Q (mret a).
Proof. intros HQ w a' w' _ _ [= <- _]. done. Qed.

Lemma yields_throw {A} I (Q : A -> Prop) e : yields I Q (mthrow e).
Proof. by intros w a w' _ _ [=]. Qed.

Lemma yields_bind {A B} I K (Q : B -> Prop) (m : M A) (k : A -> M B) :
  leads env I K m -> (forall a, yields K Q (k a)) -> yields I Q (mbind m k).
Proof.
  intros Hm Hk w b w' He HI H. apply mbind_ok in H as (a & w1 & Ha & H).
  destruct (Hm w He HI) as [He1 HK]. rewrite Ha in He1, HK. by eapply Hk.
Qed.

Lemma yields_finally {A} I (Q : A -> Prop) (m : M A) (f : M unit) :
  yields I Q m -> yields I Q (mfinally m f).
Proof. intros Hm w a w' He HI H. apply mfinally_ok in H as [w1 H]. by eapply Hm. Qed.

(** The continuation only runs on the answers [m] may give. *)
Lemma leads_bind_yields {A B} I J K (Q : A -> Prop) (m : M A) (k : A -> M B) :
  leads env I K m -> yields I Q m -> (forall a, Q a -> leads env K J (k a)) -> implies K J ->
  leads env I J (mbind m k).
Proof.
  intros Hm HQ Hk HKJ w He HI. destruct (Hm w He HI) as [He' HK]. specialize (HQ w).
  unfold mbind. destruct (m w) as [[a|e] w1]; simpl in *; [|split; [done|by apply HKJ]].
  by apply (Hk a (HQ a w1 He HI eq_refl)).
Qed.

Lemma leads_await_turn {A} I (f : turn -> A) : rival_closed env I -> leads env I I (await_turn f).
Proof.
  intros Hr w He HI. split; [done|]. unfold at_world, await_turn, cur. simpl. rewrite He.
  destruct (w_tx w); [done|by apply Hr].
Qed.

(** *** Predicates by outcome

    [ends I Q m]: from a world where [I] holds, [m] ends where [Q] of its answer
    holds. *)
Definition ends (I : world_pred) {A} (Q : res exn A -> world_pred) (m : M A) : Prop :=
  forall w, w_env w = env -> at_world I w -> w_env (m w).2 = env /\ at_world (Q (m w).1) (m w).2.

Lemma leads_ends {A} I J (m : M A) : leads env I J m <-> ends I (fun _ => J) m.
Proof. done. Qed.

Lemma ends_weaken {A} I (Q Q' : res exn A -> world_pred) (m : M A) :
  ends I Q m -> (forall r, implies (Q r) (Q' r)) -> ends I Q' m.
Proof. intros Hm HQ w He HI. destruct (Hm w He HI) as [He' H]. split; [done|by apply HQ]. Qed.

Lemma ends_ret {A} I (Q : res exn A -> world_pred) (a : A) : implies I (Q (Ok a)) -> ends I Q (mret a).
Proof. intros HI w He Hw. split; [done|by apply HI]. Qed.

Lemma ends_throw {A} I (Q : res exn A -> world_pred) (e : exn) :
  implies I (Q (Throw e)) -> ends I Q (mthrow e).
Proof. intros HI w He Hw. split; [done|by apply HI]. Qed.

Lemma ends_bind {A B} I (P : res exn A -> world_pred) (Q : res exn B -> world_pred) (m : M A)
    (k : A -> M B) :
  ends I P m -> (forall a, ends (P (Ok a)) Q (k a)) -> (forall e, implies (P (Throw e)) (Q (Throw e))) ->
  ends I Q (mbind m k).
Proof.
  intros Hm Hk He0 w He HI. destruct (Hm w He HI) as [He' HP]. unfold mbind.
  destruct (m w) as [[a|e] w1]; simpl in *; [by apply Hk|]. split; [done|by apply He0].
Qed.

Lemma ends_catch {A} I (P Q : res exn A -> world_pred) (m : M A) (h : exn -> M A) :
  ends I P m -> (forall a, implies (P (Ok a)) (Q (Ok a))) -> (forall e, ends (P (Throw e)) Q (h e)) ->
  ends I Q (mcatch m h).
Proof.
  intros Hm Ha Hh w He HI. destruct (Hm w He HI) as [He' HP]. unfold mcatch.
  destruct (m w) as [[a|e] w1]; simpl in *; [split; [done|by apply Ha]|by apply Hh].
Qed.

(** Counting never throws. *)
Lemma ends_bump I J field n :
  leads env I J (bump field n) ->
  ends I (fun r => match r with Ok _ => J | Throw _ => fun _ _ _ => False end) (bump field n).
Proof. intros Hb w He HI. by destruct (Hb w He HI). Qed.

Lemma ends_attempt {A} I (P : res exn A -> world_pred) (Q : res exn (res exn A) -> world_pred) (m : M A) :
  ends I P m -> (forall r, implies (P r) (Q (Ok r))) -> ends I Q (mattempt m).
Proof.
  intros Hm HQ w He HI. destruct (Hm w He HI) as [He' HP]. unfold mattempt.
  destruct (m w) as [r w1]. simpl in *. split; [done|by apply HQ].
Qed.

(** [moded tx I Q m]: the same, for the runs inside a transaction ([tx]) or
    outside any. *)
Definition moded (tx : bool) (I : world_pred) {A} (Q : res exn A -> world_pred) (m : M A) : Prop :=
  forall w, w_env w = env -> w_tx w = tx -> at_world I w ->
    w_env (m w).2 = env /\ w_tx (m w).2 = tx /\ at_world (Q (m w).1) (m w).2.

Lemma moded_ends {A} tx I (Q : res exn A -> world_pred) (m : M A) : frame m -> ends I Q m -> moded tx I Q m.
Proof.
  intros Hf Hm w He Ht HI. destruct (Hm w He HI) as [He' H]. destruct (Hf w) as (_ & Ht' & _).
  split_and!; [done|congruence|done].
Qed.

Lemma moded_leads {A} tx I J (m : M A) : frame m -> leads env I J m -> moded tx I (fun _ => J) m.
Proof. intros Hf Hm. by apply moded_ends. Qed.

Lemma moded_ret {A} tx I (Q : res exn A -> world_pred) (a : A) :
  implies I (Q (Ok a)) -> moded tx I Q (mret a).
Proof. intros HI w He Ht Hw. split_and!; [done..|by apply HI]. Qed.

Lemma moded_bind {A B} tx I (P : res exn A -> world_pred) (Q : res exn B -> world_pred) (m : M A)
    (k : A -> M B) :
  moded tx I P m -> (forall a, moded tx (P (Ok a)) Q (k a)) ->
  (forall e, implies (P (Throw e)) (Q (Throw e))) -> moded tx I Q (mbind m k).
Proof.
  intros Hm Hk He0 w He Ht HI. destruct (Hm w He Ht HI) as (He' & Ht' & HP). unfold mbind.
  destruct (m w) as [[a|e] w1]; simpl in *; [by apply Hk|]. split_and!; [done..|by apply He0].
Qed.

Lemma moded_catch {A} tx I (P Q : res exn A -> world_pred) (m : M A) (h : exn -> M A) :
  moded tx I P m -> (forall a, implies (P (Ok a)) (Q (Ok a))) ->
  (forall e, moded tx (P (Throw e)) Q (h e)) -> moded tx I Q (mcatch m h).
Proof.
  intros Hm Ha Hh w He Ht HI. destruct (Hm w He Ht HI) as (He' & Ht' & HP). unfold mcatch.
  destruct (m w) as [[a|e] w1]; simpl in *; [split_and!; [done..|by apply Ha]|by apply Hh].
Qed.

Lemma moded_attempt {A} tx I (P : res exn A -> world_pred) (Q : res exn (res exn A) -> world_pred) (m : M A) :
  moded tx I P m -> (forall r, implies (P r) (Q (Ok r))) -> moded tx I Q (mattempt m).
Proof.
  intros Hm HQ w He Ht HI. destruct (Hm w He Ht HI) as (He' & Ht' & HP). unfold mattempt.
  destruct (m w) as [r w1]. simpl in *. split_and!; [done..|by apply HQ].
Qed.

Lemma moded_weaken {A} tx I I' (Q Q' : res exn A -> world_pred) (m : M A) :
  moded tx I Q m -> implies I' I -> (forall r, implies (Q r) (Q' r)) -> moded tx I' Q' m.
Proof.
  intros Hm HI HQ w He Ht Hw. destruct (Hm w He Ht (HI _ _ _ Hw)) as (? & ? & H).
  split_and!; [done..|by apply HQ].
Qed.

(** A statement of an open transaction: nobody else comes first. *)
Lemma moded_statement {A} I (Q : res exn A -> world_pred) (f : turn -> db -> res exn (A * db)) :
  (forall n d tr c, I d tr c ->
     (forall e, Q (Throw e) d tr c)
     /\ forall a d', f (env n) d = Ok (a, d') -> Q (Ok a) d' tr c) ->
  moded true I Q (statement f).
Proof.
  intros Hf w He Ht HI. unfold statement, cur. rewrite He, Ht.
  destruct (Hf (w_turn w) (w_db w) _ _ HI) as [Hthrow Hok].
  destruct (t_fault (env (w_turn w))); [split_and!; [done..|apply Hthrow]|].
  destruct (f _ (w_db w)) as [[a d']|e] eqn:Hd; (split_and!; [done..|]); [by apply Hok|apply Hthrow].
Qed.
End Leads.


(** Outside any transaction. *)
Abbreviation tops env := (moded env false).

(** ** Calls on the store

    The repository calls several components make, as statements of the world. *)

Definition users_find (id : string) : M (option UserRecord) :=
  statement_ok (fun _ d => (users_findById id (d_users d), d)).

Definition users_find_email (email : string) : M (option UserRecord) :=
  statement_ok (fun _ d => (users_findByEmail email (d_users d), d)).

(** [audit.record(...)], and [audit.forStore(tx).record(...)] inside a
    transaction: the statement runs in the open transaction. *)
Definition audit_record (actor : AuditActor) (action : string) (target : AuditTarget)
    (details : list (string * json)) (ip : option string) : M AuditLogRecord :=
  statement (fun t d =>
    match auditLogs_create (audit_row actor action target details ip None (t_ids t 0) (t_now t))
            (d_audit d) with
    | Ok (row, rows) => Ok (row, with_audit rows d)
    | Throw e => Throw e
    end).

(** [JNum], [JStr] or [null]. *)
Definition json_opt_str (s : option string) : json :=
  match s with Some x => JStr x | None => JNull end.
Definition json_strs (l : list string) : json := JArr (map JStr l).
