(* ===== verification/AccessStore.v ===== *)
(** * Calls on the access tables

    The repository calls of [server/src/access/service.ts] and
    [credentials/consumers.ts], as statements of the world. *)

From S2P Require Import Prelude Json Roles ClaimQueue Users JobQueues AuditLog AccessTables World.
Open Scope Z_scope.

Definition refs_of (d : db) : references := {|
  ref_user := fun id => bool_decide (is_Some (d_users d !! id));
  ref_api := fun id => bool_decide (is_Some (at_apis (d_access d) !! id));
  ref_application := fun id => bool_decide (is_Some (at_applications (d_access d) !! id));
  ref_request := fun id => bool_decide (is_Some (at_requests (d_access d) !! id));
|}.

Definition read {A} (f : db -> A) : M A := statement_ok (fun _ d => (f d, d)).

Definition apis_find (id : string) : M (option ApiRecord) := read (fun d => at_apis (d_access d) !! id).
Definition applications_find (id : string) : M (option ApplicationRecord) :=
  read (fun d => at_applications (d_access d) !! id).
Definition consumers_find (userId namespace : string) (applicationId : option string) : M (option ConsumerRecord) :=
  read (fun d => consumers_findByUserAndNamespace userId namespace applicationId (at_consumers (d_access d))).
Definition recovery_findByUser (userId : string) : M (option Recovery.Job) :=
  read (fun d => Recovery.findByUser userId (d_recovery d)).

(** ** Requests *)

Definition put_requests (t : request_table) (d : db) : db := with_access (with_requests t (d_access d)) d.
Definition put_grants (t : grant_table) (d : db) : db := with_access (with_grants t (d_access d)) d.

Definition request_find (id : string) : M (option AccessRequestRecord) :=
  read (fun d => requests_findById id (at_requests (d_access d))).
Definition request_findPending (apiId userId : string) (applicationId : option string)
    : M (option AccessRequestRecord) :=
  read (fun d => requests_findPendingByApiAndUser apiId userId applicationId (at_requests (d_access d))).

(** [INSERT], with the new id and stamps. *)
Definition request_create (input : string -> Z -> AccessRequestRecord) : M AccessRequestRecord :=
  statement (fun t d =>
    match requests_create (refs_of d) (input (t_ids t 0) (t_now t)) (at_requests (d_access d)) with
    | Ok (r, rows) => Ok (r, put_requests rows d)
    | Throw e => Throw e
    end).
Definition request_updateIfStatus (id : string) (expected : AccessRequestStatus) (patch : RequestPatch)
    : M (option AccessRequestRecord) :=
  statement (fun t d =>
    match requests_updateIfStatus (refs_of d) id expected patch (t_now t) (at_requests (d_access d)) with
    | Ok (r, rows) => Ok (r, put_requests rows d)
    | Throw e => Throw e
    end).

(** A patch of the decision columns. *)
Definition decision (status : AccessRequestStatus) (by_ : option string) (at_ : option Z)
    (note : option (option string)) (tools : option (option (list string))) : RequestPatch := {|
  rp_justification := None; rp_requested_tools := None; rp_approved_tools := tools;
  rp_status := Some status; rp_decided_by := Some by_; rp_decided_at := Some at_; rp_decision_note := note;
|}.

(** ** Grants *)

Definition grant_find (id : string) : M (option GrantRecord) :=
  read (fun d => grants_findById id (at_grants (d_access d))).
Definition grant_findActive (apiId userId : string) (applicationId : option string) : M (option GrantRecord) :=
  read (fun d => grants_findActiveByApiAndUser apiId userId applicationId (at_grants (d_access d))).
Definition grant_listActiveByUser (userId : string) : M (list GrantRecord) :=
  read (fun d => grants_listActiveByUser userId None (at_grants (d_access d))).

Definition grant_create (input : string -> Z -> GrantRecord) : M GrantRecord :=
  statement (fun t d =>
    match grants_create (refs_of d) (input (t_ids t 0) (t_now t)) (at_grants (d_access d)) with
    | Ok (g, rows) => Ok (g, put_grants rows d)
    | Throw e => Throw e
    end).
Definition grant_updateIfStatus (id : string) (expected : GrantStatus) (patch : GrantPatch)
    : M (option GrantRecord) :=
  statement (fun t d =>
    match grants_updateIfStatus (refs_of d) id expected patch (t_now t) (at_grants (d_access d)) with
    | Ok (g, rows) => Ok (g, put_grants rows d)
    | Throw e => Throw e
    end).

Definition grant_status_patch (status : GrantStatus) (by_ : option string) (at_ : option Z) : GrantPatch := {|
  gp_status := Some status; gp_acl_group := None; gp_approved_tools := None; gp_access_request_id := None;
  gp_revoked_by := Some by_; gp_revoked_at := Some at_;
|}.
Definition grant_tools_patch (tools : list string) : GrantPatch := {|
  gp_status := None; gp_acl_group := None; gp_approved_tools := Some (Some tools);
  gp_access_request_id := None; gp_revoked_by := None; gp_revoked_at := None;
|}.

(** ** Gateway jobs *)

Definition jobs_upsertClaimed (input : AccessJobs.Input) (now : Z) : M AccessJobs.Job :=
  statement_ok (fun t d =>
    let '(q, job) := AccessJobs.upsertClaimed input now (t_ids t 0) (t_ids t 1) (d_access_jobs d) in
    (job, with_access_jobs q d)).
Definition jobs_findBySubject (subjectId : string) : M (option AccessJobs.Job) :=
  read (fun d => AccessJobs.findBySubject subjectId (d_access_jobs d)).
Definition jobs_deleteClaimed (job : AccessJobs.Job) : M bool :=
  statement_ok (fun _ d => let '(q, ok) := AccessJobs.deleteClaimed job (d_access_jobs d) in
                           (ok, with_access_jobs q d)).
Definition jobs_reschedule (job : AccessJobs.Job) (next : Z) (error : string) : M bool :=
  statement_ok (fun t d => let '(q, ok) := AccessJobs.reschedule job next error (t_now t) (d_access_jobs d) in
                           (ok, with_access_jobs q d)).
Definition jobs_deleteBySubject (subjectId : string) : M bool :=
  statement_ok (fun _ d => let '(q, ok) := AccessJobs.deleteBySubject subjectId (d_access_jobs d) in
                           (ok, with_access_jobs q d)).

(** ** The audit trail *)

(** [record(..., { id })]. *)
Definition audit_record_as (id : string) (actor : AuditActor) (action : string) (target : AuditTarget)
    (details : list (string * json)) (ip : option string) : M AuditLogRecord :=
  statement (fun t d =>
    match auditLogs_create (audit_row actor action target details ip (Some id) (t_ids t 0) (t_now t)) (d_audit d) with
    | Ok (row, rows) => Ok (row, with_audit rows d)
    | Throw e => Throw e
    end).

Definition audit_count (actorId action : string) (from : Z) : M Z :=
  read (fun d => auditLogs_count {| af_actor_user_id := Some actorId; af_action := Some action;
    af_actions := None; af_target_type := None; af_target_id := None; af_from := Some from; af_to := None |} (d_audit d)).

(** [auditRowCommitted]: searched among the newest rows of the target. *)
Definition auditRowCommitted (target : AuditTarget) (rowId : string) : M bool :=
  mcatch
    (read (fun d => existsb (fun r => bool_decide (a_id r = rowId))
       (auditLogs_list {| af_actor_user_id := None; af_action := None; af_actions := None;
          af_target_type := Some (target_type target); af_target_id := target_id target;
          af_from := None; af_to := None |} (Some (Fin MAX_PAGE_SIZE)) None (d_audit d)).1))
    (fun _ => mret false).

(** [.catch(() => undefined)]. *)
Definition ignore_errors {A} (m : M A) : M unit := mcatch (do_ m; mret tt) (fun _ => mret tt).

(** [.catch(() => null)]. *)
Definition or_null {A} (m : M (option A)) : M (option A) := mcatch m (fun _ => mret None).

(** [throw] an error, or go on with the row that is there. *)
Definition found {A} (row : option A) (error : exn) : M A :=
  match row with Some a => mret a | None => mthrow error end.

Definition ensure (condition : bool) (error : exn) : M unit :=
  if condition then mret tt else mthrow error.
