(* ===== verification/AccountStore.v ===== *)
(** * Calls on the account tables

    The repository calls of [server/src/auth/], [users/service.ts] and
    [sso/settings.ts], as statements of the world, and the reads of settings that
    more than one service makes. *)

From S2P Require Import Prelude Json Roles Users Outbox JobQueues Settings AccessTables AccountTables SsoSettings World AccessStore.
Open Scope Z_scope.

(** The rows a foreign key may name. *)
Definition user_exists (d : db) (id : string) : bool := bool_decide (is_Some (d_users d !! id)).
Definition organization_exists (d : db) (id : string) : bool :=
  bool_decide (is_Some (ac_organizations (d_accounts d) !! id)).

Definition put_sessions (t : gmap string SessionRecord) (d : db) : db := with_accounts (with_sessions t (d_accounts d)) d.
Definition put_tokens (t : gmap string VerificationTokenRecord) (d : db) : db :=
  with_accounts (with_tokens t (d_accounts d)) d.

(** ** [users] *)

Definition user_create (input : string -> Z -> UserRecord) : M UserRecord :=
  statement (fun t d =>
    match users_create (organization_exists d) (input (t_ids t 0) (t_now t)) (d_users d) with
    | Ok (u, rows) => Ok (u, with_users rows d)
    | Throw e => Throw e
    end).

Definition user_update (id : string) (patch : UserPatch) : M (option UserRecord) :=
  statement (fun t d =>
    match users_update (organization_exists d) id patch (t_now t) (d_users d) with
    | Ok (u, rows) => Ok (u, with_users rows d)
    | Throw e => Throw e
    end).

Definition user_updateIfMatches (id : string) (expected : UserExpected) (patch : UserPatch) : M (option UserRecord) :=
  statement (fun t d =>
    match users_updateIfMatches (organization_exists d) id expected patch (t_now t) (d_users d) with
    | Ok (u, rows) => Ok (u, with_users rows d)
    | Throw e => Throw e
    end).

Definition countActiveSuperAdmins (excludeUserId : option string) : M Z :=
  read (fun d => users_countActiveSuperAdmins excludeUserId (d_users d)).

(** ** [sessions] *)

Definition session_create (input : string -> Z -> SessionRecord) : M SessionRecord :=
  statement (fun t d =>
    match sessions_create (user_exists d) (input (t_ids t 0) (t_now t)) (ac_sessions (d_accounts d)) with
    | Ok (s, rows) => Ok (s, put_sessions rows d)
    | Throw e => Throw e
    end).

Definition session_findByTokenHash (hash : string) : M (option SessionRecord) :=
  read (fun d => sessions_findByTokenHash hash (ac_sessions (d_accounts d))).

Definition session_touch (id : string) (expiresAt : Z) : M unit :=
  statement_ok (fun t d => (tt, put_sessions (sessions_touch id expiresAt (t_now t) (ac_sessions (d_accounts d))) d)).

Definition session_delete (id : string) : M bool :=
  statement_ok (fun _ d => let '(rows, ok) := sessions_delete id (ac_sessions (d_accounts d)) in (ok, put_sessions rows d)).

Definition session_deleteForUser (userId : string) : M Z :=
  statement_ok (fun _ d => let '(rows, n) := sessions_deleteForUser userId (ac_sessions (d_accounts d)) in
                           (n, put_sessions rows d)).

Definition session_deleteExpired (now : Z) : M Z :=
  statement_ok (fun _ d => let '(rows, n) := sessions_deleteExpired now (ac_sessions (d_accounts d)) in
                           (n, put_sessions rows d)).

(** ** [verificationTokens] *)

Definition token_claimIssue (userId : string) (purpose : VerificationTokenPurpose) (issuedAt notBefore : Z) : M bool :=
  statement (fun _ d =>
    match tokens_claimIssue (user_exists d) userId purpose issuedAt notBefore (ac_claims (d_accounts d)) with
    | Ok (ok, rows) => Ok (ok, with_accounts (with_claims rows (d_accounts d)) d)
    | Throw e => Throw e
    end).

Definition token_create (input : string -> Z -> VerificationTokenRecord) : M VerificationTokenRecord :=
  statement (fun t d =>
    match tokens_create (user_exists d) (input (t_ids t 0) (t_now t)) (ac_tokens (d_accounts d)) with
    | Ok (r, rows) => Ok (r, put_tokens rows d)
    | Throw e => Throw e
    end).

Definition token_findByTokenHash (hash : string) (purpose : VerificationTokenPurpose) : M (option VerificationTokenRecord) :=
  read (fun d => tokens_findByTokenHash hash purpose (ac_tokens (d_accounts d))).

Definition token_findLatestLiveForUser (userId : string) (purpose : VerificationTokenPurpose) (now : Z)
    : M (option VerificationTokenRecord) :=
  read (fun d => tokens_findLatestLiveForUser userId purpose now (ac_tokens (d_accounts d))).

Definition token_markUsed (id : string) (at_ : Z) : M bool :=
  statement_ok (fun t d => let '(rows, ok) := tokens_markUsed id at_ (t_now t) (ac_tokens (d_accounts d)) in
                           (ok, put_tokens rows d)).

Definition token_deleteForUser (userId : string) (purpose : VerificationTokenPurpose) : M Z :=
  statement_ok (fun _ d => let '(rows, n) := tokens_deleteForUser userId (Some purpose) (ac_tokens (d_accounts d)) in
                           (n, put_tokens rows d)).

Definition token_deleteExpired (now : Z) : M Z :=
  statement_ok (fun _ d => let '(rows, n) := tokens_deleteExpired now (ac_tokens (d_accounts d)) in
                           (n, put_tokens rows d)).

(** ** Proofs, locks and links *)

Definition proof_find (userId : string) : M (option EmailProofRecord) := read (fun d => ac_proofs (d_accounts d) !! userId).

Definition proof_upsert (userId email : string) (method : EmailProofMethod) (at_ : Z) : M unit :=
  statement (fun _ d =>
    match proofs_upsert (user_exists d) userId email method at_ (ac_proofs (d_accounts d)) with
    | Ok rows => Ok (tt, with_accounts (with_proofs rows (d_accounts d)) d)
    | Throw e => Throw e
    end).

Definition lock_find (userId : string) : M (option PasswordLockRecord) := read (fun d => ac_locks (d_accounts d) !! userId).

Definition links_of (userId : string) : M (list UserIdentityRecord) :=
  read (fun d => links_listByUser userId (ac_links (d_accounts d))).

(** ** Settings *)

Definition setting_get (key : string) : M (option SettingRecord) := read (fun d => settings_get key (d_settings d)).

Definition setting_set (key : string) (value : json) : M unit :=
  statement_ok (fun t d => (tt, with_settings (settings_set key (json_stringify value) false (t_now t) (d_settings d)).1 d)).

Definition readStoredSsoSettings : M StoredSsoSettings :=
  do row <- setting_get SSO_SETTINGS_KEY; mret (parseStoredSsoSettings row).

Definition readLoginPolicy : M LoginPolicy := do s <- readStoredSsoSettings; mret (st_policy s).

(** The reads stop at the one that decides. *)
Definition localPasswordBlocked (config : SsoEnvConfig) (id : string) (role : Role) : M bool :=
  if bool_decide (role = super_admin) then mret false
  else
    do lock <- lock_find id;
    if bool_decide (is_Some lock) then mret true
    else
      do identities <- links_of id;
      match identities with
      | [] => mret false
      | _ => do stored <- readStoredSsoSettings; mret (password_blocked config role lock identities stored)
      end.

(** What it decides when the rows do not move meanwhile. *)
Definition blocked_in (config : SsoEnvConfig) (d : db) (id : string) (role : Role) : bool :=
  password_blocked config role (ac_locks (d_accounts d) !! id) (links_listByUser id (ac_links (d_accounts d)))
    (stored_sso (d_settings d)).

(** [upsertPending] of the recovery queue. *)
Definition recovery_upsertPending (userId : string) (now : Z) : M Recovery.Job :=
  statement_ok (fun t d =>
    let '(q, job) := Recovery.upsertPending userId now (t_ids t 0) (t_ids t 1) (d_recovery d) in
    (job, with_recovery q d)).
Definition teardown_upsertPending (userId : string) (requestedBy : option string) (now : Z) : M Teardown.Job :=
  statement_ok (fun t d =>
    let '(q, job) := Teardown.upsertPending userId requestedBy now (t_ids t 0) (t_ids t 1) (d_teardown d) in
    (job, with_teardown q d)).

(** ** The calls of single sign-on *)

Definition put_links (t : gmap string UserIdentityRecord) (d : db) : db := with_accounts (with_links t (d_accounts d)) d.

Definition organization_known (id : string) : M bool := read (fun d => organization_exists d id).

Definition session_find (id : string) : M (option SessionRecord) := read (fun d => ac_sessions (d_accounts d) !! id).

Definition user_touchLastLogin (id : string) (at_ : Z) : M unit :=
  statement_ok (fun t d => (tt, with_users (users_touchLastLogin id at_ (t_now t) (d_users d)) d)).

Definition link_find (id : string) : M (option UserIdentityRecord) := read (fun d => ac_links (d_accounts d) !! id).

Definition link_findBySubject (providerId issuer subject : string) : M (option UserIdentityRecord) :=
  read (fun d => links_findBySubject providerId issuer subject (ac_links (d_accounts d))).

Definition link_countByProvider (providerId : string) : M Z :=
  read (fun d => links_countByProvider providerId (ac_links (d_accounts d))).

Definition link_listUserIdsByProvider (providerId : string) : M (list string) :=
  read (fun d => links_listUserIdsByProvider providerId (ac_links (d_accounts d))).

Definition link_create (input : string -> Z -> UserIdentityRecord) : M UserIdentityRecord :=
  statement (fun t d =>
    match links_create (user_exists d) (input (t_ids t 0) (t_now t)) (ac_links (d_accounts d)) with
    | Ok (r, rows) => Ok (r, put_links rows d)
    | Throw e => Throw e
    end).

Definition link_touchLogin (id : string) (email : option string) (at_ : Z) : M bool :=
  statement_ok (fun t d => let '(rows, ok) := links_touchLogin id email at_ (t_now t) (ac_links (d_accounts d)) in
                           (ok, put_links rows d)).

Definition link_delete (id : string) : M bool :=
  statement_ok (fun _ d => let '(rows, ok) := links_delete id (ac_links (d_accounts d)) in (ok, put_links rows d)).

Definition link_deleteByProvider (providerId : string) : M Z :=
  statement_ok (fun _ d => let '(rows, n) := links_deleteByProvider providerId (ac_links (d_accounts d)) in
                           (n, put_links rows d)).

Definition lock_create (userId providerId : string) (at_ : Z) : M unit :=
  statement (fun _ d =>
    match locks_create (user_exists d) userId providerId at_ (ac_locks (d_accounts d)) with
    | Ok rows => Ok (tt, with_accounts (with_locks rows (d_accounts d)) d)
    | Throw e => Throw e
    end).

Definition setting_delete (key : string) : M bool :=
  statement_ok (fun _ d => let '(rows, ok) := settings_delete key (d_settings d) in (ok, with_settings rows d)).

(** [settings.set(key, blob, true)]. *)
Definition setting_set_encrypted (key blob : string) : M unit :=
  statement_ok (fun t d =>
    (tt, with_settings (settings_set key (json_stringify (JStr blob)) true (t_now t) (d_settings d)).1 d)).
