(* ===== verification/LeaseFence.v ===== *)
(** * Fencing a transaction by the leases its caller holds

    [server/src/lib/lease-fence.ts], and [transaction] of the SQLite adapter
    ([server/src/db/adapters/sqlite/index.ts]), which calls it. The
    [AsyncLocalStorage] stack of the current flow is [w_held]. *)

From S2P Require Import Prelude Roles Leases Users Outbox JobQueues World.
Open Scope Z_scope.

Definition LEASE_LOST_MESSAGE : string :=
  "This change took too long and another portal instance has taken it over — please retry".

(** The refusal is marked by adding the object to [refusals]. *)
Definition leaseLost (message : string) : exn :=
  let e := conflict message [] in
  {| ex_code := ex_code e; ex_message := ex_message e; ex_details := ex_details e;
     ex_lease_lost := true; ex_lock_timeout := ex_lock_timeout e;
     ex_unacknowledged := ex_unacknowledged e |}.

Definition isLeaseLost (e : exn) : bool := ex_lease_lost e.

Definition rewordLeaseLost {A} (message : string) (fn : M A) : M A :=
  mcatch fn (fun e => if isLeaseLost e then mthrow (leaseLost message) else mthrow e).

(** *** The stack *)

Definition in_context {A} (stack : list held_lease) (fn : M A) : M A := fun w =>
  let '(r, w') := fn (set_held stack w) in (r, set_held (w_held w) w').

(** The record is marked dead when the section ends: the flow that continues is
    the one without it, and the copies a detached flow kept are [ended]. *)
Definition holdingLease {A} (key token : string) (fn : M A) : M A := fun w =>
  in_context (w_held w ++ [{| hl_key := key; hl_token := token; hl_live := true |}]) fn w.

Definition mark_dead (l : held_lease) : held_lease :=
  {| hl_key := hl_key l; hl_token := hl_token l; hl_live := false |}.

Definition outsideHeldLeases {A} (fn : M A) : M A := in_context [] fn.

(** A fence: the key and the token of a live record. *)
Definition fence_order (a b : string * string) : bool := string_leb a.1 b.1.

Definition heldLeaseFences (stack : list held_lease) : list (string * string) :=
  sort_by fence_order
    (map (fun l => (hl_key l, hl_token l)) (filter (fun l => hl_live l = true) stack)).

(** *** The check *)

Definition leases_verify (key token : string) : M bool :=
  statement_ok (fun _ d => (lease_verify key token (d_leases d), d)).

Fixpoint assertLeaseFences (fences : list (string * string)) : M unit :=
  match fences with
  | [] => mret tt
  | fence :: rest =>
      do ok <- leases_verify fence.1 fence.2;
      if ok : bool then assertLeaseFences rest else mthrow (leaseLost LEASE_LOST_MESSAGE)
  end.

Inductive fence_when : Type := AtCommit | AtBegin.

Definition fenceTransactionBody {A} (stack : list held_lease) (fn : M A) (when : fence_when) : M A :=
  let fences := heldLeaseFences stack in
  match fences with
  | [] => fn
  | _ =>
      match when with
      | AtBegin => do_ assertLeaseFences fences; fn
      | AtCommit => do result <- fn; do_ assertLeaseFences fences; mret result
      end
  end.

(** ** [transaction]

    [BEGIN IMMEDIATE] waits for the other writers and takes the write lock, so
    nobody else writes until [COMMIT] or [ROLLBACK]. A call made inside the body
    joins the open transaction. *)
Definition transaction {A} (fn : M A) : M A := fun w =>
  if w_tx w then fn w
  else
    let body := fenceTransactionBody (w_held w) fn AtCommit in
    match statement_ok (fun _ d => (tt, d)) w with
    | (Throw e, w0) => (Throw e, w0)
    | (Ok _, w0) =>
        match (do result <- body; do_ statement_ok (fun _ d => (tt, d)); mret result) (set_tx true w0) with
        | (Ok result, w1) => (Ok result, set_tx false w1)
        | (Throw e, w1) => (Throw e, set_tx false (set_db (w_db w0) w1))
        end
    end.

(** ** Lemmas *)

Lemma frame_in_context {A} stack (fn : M A) : frame fn -> frame (in_context stack fn).
Proof.
  intros Hf w. unfold in_context. specialize (Hf (set_held stack w)).
  destruct (fn (set_held stack w)) as [r w']. destruct Hf as (? & ? & ? & ? & ?).
  split_and!; done.
Qed.

Lemma frame_holdingLease {A} key token (fn : M A) : frame fn -> frame (holdingLease key token fn).
Proof. intros Hf w. by apply frame_in_context. Qed.

Lemma frame_leases_verify key token : frame (leases_verify key token).
Proof. apply frame_statement. Qed.

#[export] Hint Resolve frame_in_context frame_holdingLease frame_leases_verify : nexus.

Lemma frame_assertLeaseFences fences : frame (assertLeaseFences fences).
Proof.
  induction fences as [|f rest IH]; simpl; [auto with nexus|].
  apply frame_bind; [auto with nexus|]. intros []; auto with nexus.
Qed.
#[export] Hint Resolve frame_assertLeaseFences : nexus.

Lemma frame_fenceTransactionBody {A} stack (fn : M A) when :
  frame fn -> frame (fenceTransactionBody stack fn when).
Proof.
  intros Hf. unfold fenceTransactionBody. destruct (heldLeaseFences stack); [done|].
  destruct when; frames.
Qed.
#[export] Hint Resolve frame_fenceTransactionBody : nexus.

Lemma frame_transaction {A} (fn : M A) : frame fn -> frame (transaction fn).
Proof.
  intros Hf w. unfold transaction. destruct (w_tx w) eqn:Htx; [apply Hf|].
  pose proof (frame_statement_ok (fun _ d => (tt, d)) w) as Hb.
  destruct (statement_ok _ w) as [[[]|e] w0]; simpl in Hb; [|done].
  set (body := (do result <- _; do_ _; mret result)).
  assert (Hk : keeps (set_tx true w0) (body (set_tx true w0)).2).
  { subst body. revert w0 Hb. intros w0 _. set (b := fenceTransactionBody _ _ _).
    assert (Hfb : frame b) by (subst b; auto with nexus).
    enough (Hf' : frame (do result <- b; do_ statement_ok (fun _ d => (tt, d)); mret result))
      by apply Hf'. frames. }
  destruct (body (set_tx true w0)) as [[r|e] w1]; simpl in *;
    destruct Hb as (He & Ht & Hh & Hn & Hp), Hk as (He' & Ht' & Hh' & Hn' & Hp'); simpl in *;
    (split_and!; simpl; [congruence..|lia|by etrans]).
Qed.
#[export] Hint Resolve frame_transaction : nexus.

(** Inside a transaction a verify that passes changed nothing. *)
Lemma leases_verify_ok key token w ok w' :
  leases_verify key token w = (Ok ok, w') -> w_tx w = true ->
  ok = lease_verify key token (d_leases (w_db w)) /\ w_db w' = w_db w.
Proof.
  intros H Htx. apply statement_ok_inv in H as (d & Hd & Hf & _). rewrite Htx in Hd.
  subst d. by injection Hf as <- <-.
Qed.

Lemma assertLeaseFences_ok fences w u w' :
  assertLeaseFences fences w = (Ok u, w') -> w_tx w = true ->
  w_db w' = w_db w
  /\ forall f, f ∈ fences -> lease_verify f.1 f.2 (d_leases (w_db w)) = true.
Proof.
  revert w. induction fences as [|f rest IH]; intros w H Htx; simpl in H.
  - injection H as <- <-. split; [done|]. by intros f Hf%elem_of_nil.
  - apply mbind_ok in H as (ok & w1 & Hv & H).
    pose proof (frame_leases_verify f.1 f.2 w) as Hk. rewrite Hv in Hk. simpl in Hk.
    apply leases_verify_ok in Hv as [-> Hdb]; [|done].
    destruct (lease_verify f.1 f.2 _) eqn:Hf; [|done].
    apply IH in H as [Hdb' Hrest]; [|destruct Hk as (_ & -> & _); done].
    split; [congruence|]. intros g [->|Hg]%elem_of_cons; [done|].
    rewrite <- Hdb. by apply Hrest.
Qed.

(** What a fenced body that returned knows of the database it leaves. *)
Lemma fenceTransactionBody_ok {A} stack (fn : M A) w a w' :
  frame fn -> fenceTransactionBody stack fn AtCommit w = (Ok a, w') -> w_tx w = true ->
  forall f, f ∈ heldLeaseFences stack -> lease_verify f.1 f.2 (d_leases (w_db w')) = true.
Proof.
  intros Hfn H Htx f Hf. unfold fenceTransactionBody in H.
  destruct (heldLeaseFences stack) as [|g gs]; [by apply elem_of_nil in Hf|].
  apply mbind_ok in H as (b & w1 & Hb & H).
  apply mbind_ok in H as (u & w2 & Ha & H). injection H as <- <-.
  pose proof (Hfn w) as Hk. rewrite Hb in Hk. simpl in Hk.
  apply assertLeaseFences_ok in Ha as [-> Hall]; [auto|].
  destruct Hk as (_ & -> & _). done.
Qed.

Lemma heldLeaseFences_elem stack k tok :
  (k, tok) ∈ heldLeaseFences stack <->
  {| hl_key := k; hl_token := tok; hl_live := true |} ∈ stack.
Proof.
  unfold heldLeaseFences. rewrite sort_by_elem, list_elem_of_fmap. split.
  - intros ([k' tok' []] & [= -> ->] & Hin); apply list_elem_of_filter in Hin as [Hl Hin]; done.
  - intros Hin. eexists. split; [|apply list_elem_of_filter; split; [|exact Hin]]; done.
Qed.

Lemma heldLeaseFences_sorted stack :
  StronglySorted (fun a b => fence_order a b = true) (heldLeaseFences stack).
Proof.
  apply sort_by_sorted; unfold fence_order; intros;
    [apply string_leb_total|by eapply string_leb_trans].
Qed.

(** [BEGIN] runs in the database as it is when the write lock is granted. *)
Lemma begin_db w x w0 :
  w_tx w = false -> statement_ok (fun _ d => (tt, d)) w = (x, w0) ->
  w_db w0 = t_rivals (cur w) (w_db w).
Proof.
  unfold statement_ok, statement. intros -> H. by destruct (t_fault (cur w)); simplify_eq.
Qed.

Lemma transaction_throw_rollback {A} (fn : M A) w e w' :
  w_tx w = false -> transaction fn w = (Throw e, w') -> w_db w' = t_rivals (cur w) (w_db w).
Proof.
  unfold transaction. intros Htx H. rewrite Htx in H.
  destruct (statement_ok _ w) as [[[]|e0] w0] eqn:Hb; [|simplify_eq; by eapply begin_db].
  destruct (mbind _ _ (set_tx true w0)) as [[a|e1] w1]; simplify_eq. simpl. by eapply begin_db.
Qed.

Lemma transaction_ok_held {A} (fn : M A) w a w' :
  frame fn -> w_tx w = false -> transaction fn w = (Ok a, w') ->
  forall l, l ∈ w_held w -> hl_live l = true ->
    lease_verify (hl_key l) (hl_token l) (d_leases (w_db w')) = true.
Proof.
  unfold transaction. intros Hfn Htx H. rewrite Htx in H.
  destruct (statement_ok _ w) as [[[]|e0] w0] eqn:Hb; [|done].
  destruct (mbind _ _ (set_tx true w0)) as [[b|e] w1] eqn:Hbody; simplify_eq.
  intros [k tok live] Hl Hlive. simpl in Hlive. subst live. simpl.
  apply mbind_ok in Hbody as (a' & w2 & Hfence & Hcommit).
  apply mbind_ok in Hcommit as (u & w3 & Hcommit & Hret). injection Hret as -> <-.
  assert (Hk : keeps (set_tx true w0) w2).
  { pose proof (frame_fenceTransactionBody (w_held w) fn AtCommit Hfn (set_tx true w0)) as Hk.
    by rewrite Hfence in Hk. }
  apply statement_ok_inv in Hcommit as (d & Hd & Hf & _). injection Hf as _ Hdb. subst d.
  destruct Hk as (_ & Htx2 & _). simpl in Htx2. rewrite Htx2 in Hdb.
  rewrite <- Hdb.
  apply (fenceTransactionBody_ok (w_held w) fn (set_tx true w0) a w2 Hfn Hfence eq_refl (k, tok)).
  by apply heldLeaseFences_elem.
Qed.

(** What a transaction that returned did: its body ran on the state the write
    lock found, and left the state that was committed. *)
Lemma transaction_ok_inv {A} (fn : M A) w a w' :
  frame fn -> w_tx w = false -> transaction fn w = (Ok a, w') ->
  exists w1 w2, fn w1 = (Ok a, w2) /\ w_tx w1 = true /\ w_env w1 = w_env w
    /\ w_db w1 = t_rivals (cur w) (w_db w) /\ w_db w' = w_db w2.
Proof.
  unfold transaction. intros Hfn Htx H. rewrite Htx in H.
  destruct (statement_ok _ w) as [[[]|e0] w0] eqn:Hb; [|done].
  pose proof (frame_statement_ok (fun _ d => (tt, d)) w) as (He0 & _). rewrite Hb in He0.
  destruct (mbind _ _ (set_tx true w0)) as [[b|e] w1] eqn:Hbody; simplify_eq.
  apply mbind_ok in Hbody as (a' & w2 & Hfence & Hcommit).
  apply mbind_ok in Hcommit as (u & w3 & Hcommit & Hret). injection Hret as -> <-.
  assert (Hk : keeps (set_tx true w0) w2).
  { pose proof (frame_fenceTransactionBody (w_held w) fn AtCommit Hfn (set_tx true w0)) as Hk.
    by rewrite Hfence in Hk. }
  destruct Hk as (_ & Htx2 & _). simpl in Htx2.
  apply statement_ok_inv in Hcommit as (d & Hd & Hf & _). injection Hf as _ Hdb.
  rewrite Htx2 in Hd. subst d. simpl. rewrite <- Hdb. clear Hdb Htx2.
  unfold fenceTransactionBody in Hfence. pose proof (begin_db w _ w0 Htx Hb) as Hw0.
  destruct (heldLeaseFences (w_held w)) as [|g gs] eqn:Hg.
  - exists (set_tx true w0), w2. done.
  - apply mbind_ok in Hfence as (b & w4 & Hfn4 & Hfence).
    apply mbind_ok in Hfence as (u' & w5 & Hassert & Hret). injection Hret as -> <-.
    exists (set_tx true w0), w4. split_and!; [done..|].
    pose proof (Hfn (set_tx true w0)) as Hk4. rewrite Hfn4 in Hk4.
    destruct Hk4 as (_ & Htx4 & _). simpl in Htx4.
    by apply assertLeaseFences_ok in Hassert as [-> _].
Qed.

(** *** Predicates through a transaction *)
Section LeadsTransaction.
Context (env : nat -> turn).

Lemma leads_in_context {A} I J stack (fn : M A) :
  leads env I J fn -> leads env I J (in_context stack fn).
Proof.
  intros Hf w He HI. unfold in_context. destruct (Hf (set_held stack w) He HI) as [He' HJ].
  by destruct (fn (set_held stack w)) as [r w'].
Qed.

Lemma leads_holdingLease {A} I J key token (fn : M A) :
  leads env I J fn -> leads env I J (holdingLease key token fn).
Proof. intros Hf w He HI. by apply (leads_in_context I J _ fn Hf). Qed.

Lemma leads_assertLeaseFences I fences : rival_closed env I -> leads env I I (assertLeaseFences fences).
Proof.
  intros Hr. induction fences as [|f rest IH]; simpl; [by apply leads_ret; intros ???|].
  eapply leads_bind; [by apply leads_read| |by intros ???].
  intros []; [done|]. apply leads_throw. by intros ???.
Qed.

Lemma leads_transaction {A} I J (fn : M A) :
  rival_closed env I -> rival_closed env J -> implies I J -> leads env I J fn ->
  (forall d d' tr tr' c c', I d tr c -> J d' tr' c' -> J d tr' c') ->
  leads env I J (transaction fn).
Proof.
  intros HrI HrJ HIJ Hf Hback w He HI. unfold transaction. destruct (w_tx w) eqn:Htx; [by apply Hf|].
  assert (Hb : leads env I I (statement_ok (fun _ d => (tt, d)))) by (by apply leads_read).
  destruct (Hb w He HI) as [He0 HI0].
  destruct (statement_ok _ w) as [[[]|e] w0]; simpl in *; [|split; [done|by apply HIJ]].
  assert (Hbody : leads env I J (do result <- fenceTransactionBody (w_held w) fn AtCommit;
                                 do_ statement_ok (fun _ d => (tt, d)); mret result)).
  { eapply leads_bind with (K := J); [| |by intros ???].
    - unfold fenceTransactionBody. destruct (heldLeaseFences (w_held w)); [done|].
      eapply leads_bind with (K := J); [done| |by intros ???]. intros r.
      eapply leads_bind; [by apply leads_assertLeaseFences| |by intros ???].
      intros _. apply leads_ret. by intros ???.
    - intros r. eapply leads_bind; [by apply leads_read| |by intros ???].
      intros _. apply leads_ret. by intros ???. }
  destruct (Hbody (set_tx true w0) He0 HI0) as [He1 HJ1].
  destruct (mbind _ _ (set_tx true w0)) as [[r|e] w1]; simpl in *; (split; [done|]); [done|].
  unfold at_world in *. simpl. by eapply Hback.
Qed.
(** A body that throws, a fence that fails or a commit that fails puts the
    database back; the trace and the counters stay. *)
Lemma ends_transaction {A} I (Q : res exn A -> world_pred) (fn : M A) :
  frame fn -> rival_closed env I -> (forall a, rival_closed env (Q (Ok a))) ->
  (forall e, implies I (Q (Throw e))) -> ends env I Q fn ->
  (forall r e d d' tr tr' c c', I d tr c -> Q r d' tr' c' -> tr `prefix_of` tr' -> Q (Throw e) d tr' c') ->
  ends env I Q (transaction fn).
Proof.
  intros Hfr HrI HrQ HIQ Hf Hback w He HI. unfold transaction. destruct (w_tx w) eqn:Htx; [by apply Hf|].
  destruct (leads_read env I (fun _ _ => tt) HrI w He HI) as [He0 HI0].
  destruct (statement_ok (fun _ d => (tt, d)) w) as [[[]|e] w0]; simpl in *; [|split; [done|by apply HIQ]].
  set (body := mbind _ _).
  assert (Hbody : ends env I (fun r d tr c => match r with
      | Ok a => Q (Ok a) d tr c | Throw _ => exists r', Q r' d tr c end) body).
  { assert (Hany : forall {B} a (m : M B), leads env (Q (Ok a)) (Q (Ok a)) m ->
      ends env (Q (Ok a)) (fun r d tr c => match r with
        | Ok _ => Q (Ok a) d tr c | Throw _ => exists r', Q r' d tr c end) m).
    { intros B a m Hm w1 He1 H1. destruct (Hm w1 He1 H1) as [He2 H2]. split; [done|].
      destruct (m w1).1; [done|by exists (Ok a)]. }
    subst body. eapply ends_bind with (P := fun r d tr c => match r with
      | Ok a => Q (Ok a) d tr c | Throw _ => exists r', Q r' d tr c end).
    - unfold fenceTransactionBody. destruct (heldLeaseFences (w_held w)) as [|g gs].
      + eapply ends_weaken; [exact Hf|]. intros [a|e] d tr c H; [done|by exists (Throw e)].
      + eapply ends_bind; [exact Hf| |by intros e d tr c H; exists (Throw e)].
        intros a. eapply ends_bind; [by apply Hany, leads_assertLeaseFences| |by intros e ???].
        intros []. apply ends_ret. by intros ???.
    - intros a. eapply ends_bind; [by apply Hany, leads_read| |by intros e ???].
      intros []. apply ends_ret. by intros ???.
    - by intros e d tr c H. }
  assert (Hfb : frame body).
  { subst body. apply frame_bind; [auto with nexus|]. intros. frames. }
  destruct (Hbody (set_tx true w0) He0 HI0) as [He1 H1].
  specialize (Hfb (set_tx true w0)). destruct Hfb as (_ & _ & _ & _ & Hpre).
  destruct (body (set_tx true w0)) as [[a|e] w1]; simpl in *; (split; [done|]); [done|].
  destruct H1 as [r' H1]. unfold at_world in *. simpl. by eapply Hback.
Qed.

Lemma leads_transaction_framed {A} I J (fn : M A) :
  frame fn -> rival_closed env I -> rival_closed env J -> implies I J -> leads env I J fn ->
  (forall d d' tr tr' c c', I d tr c -> J d' tr' c' -> tr `prefix_of` tr' -> J d tr' c') ->
  leads env I J (transaction fn).
Proof.
  intros Hfr HrI HrJ HIJ Hf Hback. apply leads_ends, ends_transaction; [done..|].
  intros _ _. apply Hback.
Qed.
(** Outside any transaction a body may break a predicate, as long as what it
    commits restores it. *)
Lemma tops_transaction {A} I (K : A -> world_pred) (Q : res exn A -> world_pred) (fn : M A) :
  frame fn -> rival_closed env I -> (forall a, rival_closed env (K a)) ->
  moded env true I (fun r => match r with Ok a => K a | Throw _ => fun _ _ _ => True end) fn ->
  (forall a, implies (K a) (Q (Ok a))) ->
  (forall e d tr tr' c c', I d tr c -> tr `prefix_of` tr' -> Q (Throw e) d tr' c') ->
  tops env I Q (transaction fn).
Proof.
  intros Hfr HrI HrK Hf HKQ Hback w He Ht HI. unfold transaction. rewrite Ht.
  pose proof (frame_statement_ok (fun _ d => (tt, d)) w) as (_ & Ht0 & _).
  destruct (leads_read env I (fun _ _ => tt) HrI w He HI) as [He0 HI0].
  destruct (statement_ok (fun _ d => (tt, d)) w) as [[[]|e] w0]; simpl in *;
    [|split_and!; [done|congruence|by eapply Hback]].
  set (body := mbind _ _).
  assert (Hbody : moded env true I (fun r => match r with Ok a => K a | Throw _ => fun _ _ _ => True end) body).
  { assert (Hk : forall {B} (m : M B) a, frame m -> leads env (K a) (K a) m ->
      moded env true (K a) (fun r => match r with Ok _ => K a | Throw _ => fun _ _ _ => True end) m).
    { intros B m a Hfm Hm. apply moded_ends; [done|]. intros w1 He1 H1.
      destruct (Hm w1 He1 H1) as [He2 H2]. split; [done|]. by destruct (m w1).1. }
    subst body. eapply moded_bind with (P := fun r => match r with Ok a => K a | Throw _ => fun _ _ _ => True end).
    - unfold fenceTransactionBody. destruct (heldLeaseFences (w_held w)) as [|g gs]; [done|].
      eapply moded_bind; [exact Hf| |by intros e ???]. intros a.
      eapply moded_bind; [apply Hk; [auto with nexus|by apply leads_assertLeaseFences]| |by intros e ???].
      intros []. apply moded_ret. by intros ???.
    - intros a. eapply moded_bind; [apply Hk; [auto with nexus|by apply leads_read]| |by intros e ???].
      intros []. apply moded_ret. by intros ???.
    - by intros e d tr c H. }
  assert (Hfb : frame body) by (subst body; apply frame_bind; [auto with nexus|]; intros; frames).
  destruct (Hbody (set_tx true w0) He0 eq_refl HI0) as (He1 & _ & H1).
  destruct (Hfb (set_tx true w0)) as (_ & _ & _ & _ & Hpre).
  destruct (body (set_tx true w0)) as [[a|e] w1]; simpl in *; (split; [done|]); (split; [done|]).
  - by apply HKQ.
  - by eapply Hback.
Qed.
End LeadsTransaction.

(** *** A sample run, for the witnesses *)

Definition sample_turn (n : nat) : turn := {|
  t_rivals := fun d => d;
  t_now := 1000 + 10 * Z.of_nat n;
  t_ids := fun i => "id-" +:+ pretty n +:+ "-" +:+ pretty i;
  t_random := 0;
  t_fault := None;
  t_smtp := SmtpAccepted;
  t_stopping := false;
  t_nonce := "abcdefghijkl";
|}.

Definition world_of (d : db) (env : nat -> turn) (held_ : list held_lease) : world := {|
  w_db := d; w_env := env; w_turn := 0; w_tx := false; w_held := held_; w_trace := []; w_counters := ∅;
|}.

(** The section holds ["k"] under ["a"] and deletes a user's row. *)
Definition sample_section : world :=
  world_of (with_leases sample_leases db_empty) sample_turn
    [{| hl_key := "k"; hl_token := "a"; hl_live := true |}].

(** The same section after a rival took the key over. *)
Definition sample_taken_over : world :=
  world_of (with_leases (sqlite_acquire "k" "b" 900 500 500 sample_leases).1 db_empty) sample_turn
    [{| hl_key := "k"; hl_token := "a"; hl_live := true |}].

(** A body that writes: it enqueues a message. *)
Definition sample_body : M unit :=
  statement_ok (fun _ d => (tt, with_outbox sample_outbox d)).

(** ** Properties *)

(** C29: a transaction is atomic and fenced. If it returns, then in the
    database it leaves every lease its caller holds still names the caller's
    token; if it throws, for whatever reason (a refusal of the body, a failing
    statement, a fence whose lease changed hands, a failing commit), the
    database is what it was when the transaction began. This holds for every
    body and every behaviour of the other processes. *)
Theorem transaction_atomic_and_fenced {A} (fn : M A) (w w' : world) (r : res exn A)
    (Hfn : frame fn) (Htx : w_tx w = false) (Hrun : transaction fn w = (r, w')) :
  match r with
  | Ok _ => forall l, l ∈ w_held w -> hl_live l = true ->
      lease_verify (hl_key l) (hl_token l) (d_leases (w_db w')) = true
  | Throw _ => w_db w' = t_rivals (cur w) (w_db w)
  end.
Proof.
  destruct r as [a|e].
  - by apply (transaction_ok_held fn w a).
  - by apply (transaction_throw_rollback fn w e).
Qed.

(** The holder's transaction commits; the one whose lease was taken over throws
    and leaves no message. *)
Lemma transaction_atomic_and_fenced_witness :
  is_ok (transaction sample_body sample_section).1 = true
  /\ lease_verify "k" "a" (d_leases (w_db (transaction sample_body sample_section).2)) = true
  /\ (transaction sample_body sample_taken_over).1 = Throw (leaseLost LEASE_LOST_MESSAGE)
  /\ w_db (transaction sample_body sample_taken_over).2 = w_db sample_taken_over.
Proof.
  split; [vm_compute; reflexivity|]. split; [|split; [vm_compute; reflexivity|]].
  - apply (transaction_atomic_and_fenced sample_body sample_section
             (transaction sample_body sample_section).2 (Ok tt)
             (frame_statement_ok _) eq_refl) with (l := {| hl_key := "k"; hl_token := "a"; hl_live := true |}).
    + vm_compute. reflexivity.
    + vm_compute. constructor.
    + reflexivity.
  - apply (transaction_atomic_and_fenced sample_body sample_taken_over
             (transaction sample_body sample_taken_over).2 (Throw (leaseLost LEASE_LOST_MESSAGE))
             (frame_statement_ok _) eq_refl).
    vm_compute. reflexivity.
Defined.

(** Two transactions never check, and so never lock, two lease rows in
    opposite orders, whatever leases their callers hold and in whatever order
    they took them. *)
Theorem fences_locked_in_one_order (s1 s2 : list held_lease) (k1 k2 : string)
    (a1 a2 b1 b2 : string) (i1 j1 i2 j2 : nat)
    (H1 : (i1 < j1)%nat) (H2 : (i2 < j2)%nat)
    (Hi1 : heldLeaseFences s1 !! i1 = Some (k1, a1)) (Hj1 : heldLeaseFences s1 !! j1 = Some (k2, b1))
    (Hi2 : heldLeaseFences s2 !! i2 = Some (k2, b2)) (Hj2 : heldLeaseFences s2 !! j2 = Some (k1, a2)) :
  k1 = k2.
Proof.
  pose proof (sorted_lookup _ _ _ _ _ _ (heldLeaseFences_sorted s1) H1 Hi1 Hj1) as H12.
  pose proof (sorted_lookup _ _ _ _ _ _ (heldLeaseFences_sorted s2) H2 Hi2 Hj2) as H21.
  by apply string_leb_antisym.
Qed.

(** Two leases of one key are the only way two stacks can disagree. *)
Lemma fences_locked_in_one_order_witness :
  let s1 := [{| hl_key := "k"; hl_token := "a"; hl_live := true |};
             {| hl_key := "k"; hl_token := "b"; hl_live := true |}] in
  exists k1 k2, heldLeaseFences s1 = [(k1, "a"); (k2, "b")]%string /\ k1 = k2.
Proof.
  exists "k"%string, "k"%string. split; [vm_compute; reflexivity|].
  apply (fences_locked_in_one_order
           [{| hl_key := "k"; hl_token := "a"; hl_live := true |};
            {| hl_key := "k"; hl_token := "b"; hl_live := true |}]
           [{| hl_key := "k"; hl_token := "b"; hl_live := true |};
            {| hl_key := "k"; hl_token := "a"; hl_live := true |}]
           "k" "k" "a" "a" "b" "b" 0 1 0 1); first [lia | vm_compute; reflexivity].
Defined.
