(* ===== verification/KeyedSerializer.v ===== *)
(** * Critical sections per key

    [server/src/lib/keyed-serializer.ts]: the keys, the acquisition of a lease,
    the section that runs under it, and the queue of promises that orders the
    sections of one process. *)

From S2P Require Import Prelude Roles Leases World LeaseFence.
Open Scope Z_scope.

Definition LEASE_TTL_MS : Z := 60000.
Definition LEASE_WAIT_MS : Z := 30000.
Definition LEASE_POLL_MS : Z := 100.

Definition LEASE_CONFLICT_MESSAGE : string :=
  "Another portal instance is updating this gateway resource right now — please retry".

(** ** The keys *)

Definition SUPER_ADMIN_LOCK_KEY : string := "users:super-admins".
Definition SUPER_ADMIN_LOCK_CONFLICT_MESSAGE : string :=
  "Another administrator change is in flight right now — please retry".
Definition SSO_SETTINGS_LOCK_KEY : string := "sso:settings".
Definition REGISTRATION_POLICY_LOCK_KEY : string := "auth:registration-policy".
Definition SEND_LOCK_CONFLICT_MESSAGE : string :=
  "Another send from this account is still in flight — please retry".

Definition userLifecycleLockKey (userId : string) : string := "users:lifecycle:" +:+ userId.
Definition userMailHandoffLockKey (userId : string) : string := "users:mail-handoff:" +:+ userId.
Definition accountRecoveryLockKey (userId : string) : string := "users:recovery:" +:+ userId.
Definition ssoProviderLockKey (providerId : string) : string := "sso:provider:" +:+ providerId.
Definition messageBudgetLockKey (senderUserId : string) : string :=
  "messages:budget:" +:+ senderUserId.
Definition accessRequestBudgetLockKey (userId : string) : string :=
  "access-requests:budget:" +:+ userId.
Definition broadcastLockKey (actorUserId : string) : string := "god:broadcast:" +:+ actorUserId.
Definition massEmailLockKey (actorUserId : string) : string := "mass-email:" +:+ actorUserId.
Definition smtpTestLockKey (actorUserId : string) : string := "smtp-test:" +:+ actorUserId.
Definition apiRestoreLockKey (apiId : string) : string := "api-restore:" +:+ apiId.
Definition proxyLockKey (proxyId : string) : string := "proxy:" +:+ proxyId.

(** Every key an operation takes, by what it guards. *)
Inductive lock_name : Type :=
| SuperAdmins | SsoSettings | RegistrationPolicy
| UserLifecycle (id : string) | UserMailHandoff (id : string) | AccountRecovery (id : string)
| SsoProvider (id : string) | MessageBudget (id : string) | AccessRequestBudget (id : string)
| Broadcast (id : string) | MassEmail (id : string) | SmtpTest (id : string)
| ApiRestore (id : string) | Proxy (id : string).

Definition lock_key (n : lock_name) : string :=
  match n with
  | SuperAdmins => SUPER_ADMIN_LOCK_KEY
  | SsoSettings => SSO_SETTINGS_LOCK_KEY
  | RegistrationPolicy => REGISTRATION_POLICY_LOCK_KEY
  | UserLifecycle id => userLifecycleLockKey id
  | UserMailHandoff id => userMailHandoffLockKey id
  | AccountRecovery id => accountRecoveryLockKey id
  | SsoProvider id => ssoProviderLockKey id
  | MessageBudget id => messageBudgetLockKey id
  | AccessRequestBudget id => accessRequestBudgetLockKey id
  | Broadcast id => broadcastLockKey id
  | MassEmail id => massEmailLockKey id
  | SmtpTest id => smtpTestLockKey id
  | ApiRestore id => apiRestoreLockKey id
  | Proxy id => proxyLockKey id
  end.

(** ** The lease of a section *)

Record KeyedSerializerOptions : Type := {
  ttlMs : Z;
  waitMs : Z;
  pollMs : Z;
  conflictMessage : string;
}.

Definition default_options : KeyedSerializerOptions := {|
  ttlMs := LEASE_TTL_MS; waitMs := LEASE_WAIT_MS; pollMs := LEASE_POLL_MS;
  conflictMessage := LEASE_CONFLICT_MESSAGE;
|}.

Definition isLockTimeout (e : exn) : bool := ex_lock_timeout e.

(** The refusal is marked by adding the object to [timeouts]. *)
Definition lockTimeout (message : string) : exn :=
  let e := conflict message [] in
  {| ex_code := ex_code e; ex_message := ex_message e; ex_details := ex_details e;
     ex_lease_lost := ex_lease_lost e; ex_lock_timeout := true;
     ex_unacknowledged := ex_unacknowledged e |}.

Definition leases_acquire (key token : string) (expiresAt now : Z) : M bool :=
  statement (fun t d =>
    match assertLeaseKeyLength key with
    | Throw e => Throw e
    | Ok _ => let '(leases, ok) := lease_acquire key token expiresAt now (t_now t) (d_leases d) in
              Ok (ok, with_leases leases d)
    end).

Definition leases_release (key token : string) : M bool :=
  statement_ok (fun _ d =>
    let '(leases, ok) := lease_release key token (d_leases d) in (ok, with_leases leases d)).

(** The timer decides when the flow goes on: [ms] only says how long it was
    asked to wait. *)
Definition sleep (ms : Z) : M unit := await_turn (fun _ => tt).

(** [Math.floor(Math.random() * ms)]. *)
Definition jitter (r ms : Z) : Z := r * ms / random_den.

Section Serializer.
Context (o : KeyedSerializerOptions).

(** [false] is only the answer of a loop that ran out of fuel. *)
Fixpoint take_loop (fuel : nat) (key token : string) (deadline : Z) : M bool :=
  match fuel with
  | O => mret false
  | S fuel' =>
      do now <- date_now;
      do ok <- leases_acquire key token (now + ttlMs o) now;
      if ok : bool then mret true
      else
        do later <- date_now;
        if bool_decide (deadline <= later) then mthrow (lockTimeout (conflictMessage o))
        else
          do r <- math_random;
          do_ sleep (pollMs o + jitter r (pollMs o));
          take_loop fuel' key token deadline
  end.

Definition takeLease (fuel : nat) (key token : string) : M bool :=
  do now <- date_now;
  take_loop fuel key token (now + waitMs o).

(** The renewal timer writes the table between the operations of [fn]: like
    everything that runs beside this flow, it is part of the schedule. *)
Definition underLease {A} (fuel : nat) (key : string) (fn : M A) : M (option A) :=
  do token <- randomUUID;
  do got <- takeLease fuel key token;
  if got : bool
  then mfinally (do a <- holdingLease key token fn; mret (Some a))
         (mcatch (do_ leases_release key token; mret tt) (fun _ => mret tt))
  else mret None.
End Serializer.

(** Enough attempts for a clock that moves: one per poll interval of the wait,
    and one at each end. *)
Definition lease_fuel (o : KeyedSerializerOptions) : nat := Z.to_nat (waitMs o / pollMs o + 2).

(** [locks(key, fn)] of a serializer with the default options. The loop of [takeLease] is
    given [lease_fuel] attempts: on a clock that moves, it always decides within
    them. *)
Definition locks {A} (key : string) (fn : M A) : M A :=
  do r <- underLease default_options (lease_fuel default_options) key fn;
  match r with
  | Some a => mret a
  | None => mthrow (driverError "takeLease is still waiting")
  end.

(** ** The queue of one process

    [serializePerKey] chains a section behind the guard promise of the section
    queued before it under the same key. A task is one call; its promises settle
    in the order [Waiting], [Running], [Settled] (the section is over, its guard
    is still pending), [Released] (the guard ran and is resolved). [queues] maps
    a key to the guard, named by its task, that the next call will wait for. *)
Inductive task_state : Type := Waiting | Running | Settled | Released.

#[export] Instance task_state_eq_dec : EqDecision task_state.
Proof. solve_decision. Defined.

Record task : Type := {
  tk_key : string;
  tk_after : option nat;
  tk_state : task_state;
}.

Record queue_state : Type := {
  q_queues : gmap string nat;
  q_tasks : list task;
}.

Definition queue_init : queue_state := {| q_queues := ∅; q_tasks := [] |}.

Definition set_state (s : task_state) (t : task) : task :=
  {| tk_key := tk_key t; tk_after := tk_after t; tk_state := s |}.

(** A call: it reads the guard to wait for and leaves its own. *)
Definition serializePerKey (key : string) (q : queue_state) : queue_state := {|
  q_queues := <[key := length (q_tasks q)]> (q_queues q);
  q_tasks := q_tasks q ++ [{| tk_key := key; tk_after := q_queues q !! key; tk_state := Waiting |}];
|}.

(** The previous guard is resolved. *)
Definition guard_resolved (q : queue_state) (after : option nat) : bool :=
  match after with
  | None => true
  | Some j => match q_tasks q !! j with
              | Some t => bool_decide (tk_state t = Released)
              | None => false
              end
  end.

(** The guard's callback: forget the key unless another call took it over. *)
Definition run_guard (i : nat) (key : string) (q : queue_state) : queue_state := {|
  q_queues := if decide (q_queues q !! key = Some i) then delete key (q_queues q) else q_queues q;
  q_tasks := alter (set_state Released) i (q_tasks q);
|}.

Inductive queue_step : queue_state -> queue_state -> Prop :=
| step_call key q : queue_step q (serializePerKey key q)
| step_start i t q :
    q_tasks q !! i = Some t -> tk_state t = Waiting -> guard_resolved q (tk_after t) = true ->
    queue_step q {| q_queues := q_queues q; q_tasks := alter (set_state Running) i (q_tasks q) |}
| step_settle i t q :
    q_tasks q !! i = Some t -> tk_state t = Running ->
    queue_step q {| q_queues := q_queues q; q_tasks := alter (set_state Settled) i (q_tasks q) |}
| step_guard i t q :
    q_tasks q !! i = Some t -> tk_state t = Settled ->
    queue_step q (run_guard i (tk_key t) q).

(** ** Lemmas: the queue *)

(** What every reachable queue satisfies: the key's entry names the last call
    that is not over; a call waits for the one just before it under its key, or
    for none when all of those are over; and a call that started has only calls
    that are over before it. *)
Record queue_inv (q : queue_state) : Prop := {
  qi_last : forall key i, q_queues q !! key = Some i ->
    exists t, q_tasks q !! i = Some t /\ tk_key t = key /\ tk_state t <> Released
      /\ forall j t', (i < j)%nat -> q_tasks q !! j = Some t' -> tk_key t' <> key;
  qi_idle : forall i t, q_tasks q !! i = Some t -> q_queues q !! tk_key t = None ->
    tk_state t = Released;
  qi_after : forall i t j, q_tasks q !! i = Some t -> tk_after t = Some j ->
    (j < i)%nat /\ (exists t', q_tasks q !! j = Some t' /\ tk_key t' = tk_key t)
    /\ forall k t'', (j < k < i)%nat -> q_tasks q !! k = Some t'' -> tk_key t'' <> tk_key t;
  qi_first : forall i t j t', q_tasks q !! i = Some t -> tk_after t = None -> (j < i)%nat ->
    q_tasks q !! j = Some t' -> tk_key t' = tk_key t -> tk_state t' = Released;
  qi_started : forall i t j t', q_tasks q !! i = Some t -> tk_state t <> Waiting -> (j < i)%nat ->
    q_tasks q !! j = Some t' -> tk_key t' = tk_key t -> tk_state t' = Released;
}.

Lemma lookup_alter_state s i (l : list task) k t' :
  alter (set_state s) i l !! k = Some t' ->
  exists t, l !! k = Some t /\ tk_key t' = tk_key t /\ tk_after t' = tk_after t
    /\ (k = i /\ tk_state t' = s \/ k <> i /\ t' = t).
Proof.
  rewrite list_lookup_alter. intros Hk. destruct (decide (i = k)) as [->|Hne].
  - destruct (l !! k) as [t|]; [|done]. simpl in Hk. injection Hk as <-. exists t. split_and!; auto.
  - exists t'. split_and!; auto.
Qed.

Lemma lookup_alter_state_2 s i (l : list task) k t :
  l !! k = Some t ->
  exists t', alter (set_state s) i l !! k = Some t' /\ tk_key t' = tk_key t
    /\ (k = i /\ tk_state t' = s \/ k <> i /\ t' = t).
Proof.
  rewrite list_lookup_alter. intros Hk. destruct (decide (i = k)) as [->|Hne].
  - rewrite Hk. simpl. eexists. split_and!; [done..|]. by left.
  - exists t. split_and!; auto.
Qed.

(** A resolved guard: everything before the call under its key is over. *)
Lemma guard_resolved_before q i t j t' :
  queue_inv q -> q_tasks q !! i = Some t -> guard_resolved q (tk_after t) = true ->
  (j < i)%nat -> q_tasks q !! j = Some t' -> tk_key t' = tk_key t -> tk_state t' = Released.
Proof.
  intros Hq Ht Hg Hj Ht' Hk. unfold guard_resolved in Hg.
  destruct (tk_after t) as [p|] eqn:Ha; [|by eapply (qi_first q Hq i)].
  destruct (qi_after q Hq i t p Ht Ha) as (Hp & (tp & Htp & Hkp) & Hnone).
  rewrite Htp in Hg. bool_to_prop.
  destruct (decide (j = p)) as [->|Hne]; [congruence|].
  destruct (decide (j < p)%nat).
  - apply (qi_started q Hq p tp j t'); [done|congruence|done|done|congruence].
  - exfalso. by apply (Hnone j t'); [lia|..].
Qed.

(** The steps that move one task without finishing it. *)
Lemma queue_inv_move q i t s :
  queue_inv q -> q_tasks q !! i = Some t -> s <> Released -> tk_state t <> Released ->
  (forall j t', (j < i)%nat -> q_tasks q !! j = Some t' -> tk_key t' = tk_key t ->
     tk_state t' = Released) ->
  queue_inv {| q_queues := q_queues q; q_tasks := alter (set_state s) i (q_tasks q) |}.
Proof.
  intros Hq Ht Hs Hts Hbefore.
  assert (Hrel : forall k u u', q_tasks q !! k = Some u -> tk_state u = Released ->
            alter (set_state s) i (q_tasks q) !! k = Some u' -> tk_state u' = Released).
  { intros k u u' Hu Hr Hu'. apply lookup_alter_state in Hu' as (u2 & Hu2 & _ & _ & [[-> _]|[_ ->]]).
    - congruence.
    - congruence. }
  split; simpl.
  - intros key k Hk. destruct (qi_last q Hq key k Hk) as (u & Hu & Hkey & Hr & Hlast).
    destruct (lookup_alter_state_2 s i _ _ _ Hu) as (u' & Hu' & Hk' & Hcase). exists u'.
    split_and!; [done|congruence| |].
    + destruct Hcase as [[_ ->]|[_ ->]]; done.
    + intros j v Hj Hv. apply lookup_alter_state in Hv as (v0 & Hv0 & -> & _). by apply (Hlast j).
  - intros k u' Hu' Hn. pose proof Hu' as Hu0. apply lookup_alter_state in Hu0 as (u & Hu & Hk & _).
    rewrite Hk in Hn. eapply Hrel; [exact Hu| |done]. by apply (qi_idle q Hq k u).
  - intros k u' j Hu' Ha. apply lookup_alter_state in Hu' as (u & Hu & Hk & Ha' & _).
    rewrite Ha' in Ha. destruct (qi_after q Hq k u j Hu Ha) as (Hj & (p & Hp & Hkp) & Hnone).
    split_and!; [done| |].
    + destruct (lookup_alter_state_2 s i _ _ _ Hp) as (p' & Hp' & Hkp' & _). exists p'.
      split; congruence.
    + intros m v Hm Hv. apply lookup_alter_state in Hv as (v0 & Hv0 & -> & _). rewrite Hk.
      by apply (Hnone m).
  - intros k u' j v' Hu' Ha Hj Hv' Hkey.
    apply lookup_alter_state in Hu' as (u & Hu & Hk & Ha' & _).
    pose proof Hv' as Hv0. apply lookup_alter_state in Hv0 as (v & Hv & Hkv & _).
    eapply Hrel; [exact Hv| |done]. apply (qi_first q Hq k u j v); congruence.
  - intros k u' j v' Hu' Hw Hj Hv' Hkey.
    apply lookup_alter_state in Hu' as (u & Hu & Hk & _ & Hcase).
    pose proof Hv' as Hv0. apply lookup_alter_state in Hv0 as (v & Hv & Hkv & _).
    eapply Hrel; [exact Hv| |done]. destruct Hcase as [[-> _]|[_ ->]].
    + apply (Hbefore j v); congruence.
    + apply (qi_started q Hq k u j v); congruence.
Qed.

Lemma queue_inv_guard q i t :
  queue_inv q -> q_tasks q !! i = Some t -> tk_state t = Settled ->
  queue_inv (run_guard i (tk_key t) q).
Proof.
  intros Hq Ht Hts. unfold run_guard.
  set (qs := if decide _ then _ else _).
  assert (Hqs : forall key k, qs !! key = Some k -> q_queues q !! key = Some k /\ k <> i).
  { intros key k. subst qs. case_decide as Hd.
    - rewrite lookup_delete. case_decide as Hk; [done|]. intros Hl. split; [done|]. intros ->.
      destruct (qi_last q Hq key i Hl) as (u & Hu & Hku & _). congruence.
    - intros Hl. split; [done|]. intros ->.
      destruct (qi_last q Hq key i Hl) as (u & Hu & Hku & _). congruence. }
  assert (Hrel : forall k u u', q_tasks q !! k = Some u -> tk_state u = Released ->
            alter (set_state Released) i (q_tasks q) !! k = Some u' -> tk_state u' = Released).
  { intros k u u' Hu Hr Hu'. apply lookup_alter_state in Hu' as (u2 & Hu2 & _ & _ & [[-> ->]|[_ ->]]);
      congruence. }
  split; simpl.
  - intros key k Hk. apply Hqs in Hk as [Hk Hne].
    destruct (qi_last q Hq key k Hk) as (u & Hu & Hkey & Hr & Hlast).
    exists u. rewrite list_lookup_alter_ne by congruence. split_and!; [done..|].
    intros j v Hj Hv. apply lookup_alter_state in Hv as (v0 & Hv0 & -> & _). by apply (Hlast j).
  - intros k u' Hu' Hn.
    pose proof Hu' as Hu0. apply lookup_alter_state in Hu0 as (u & Hu & Hk & _ & [[_ ?]|[Hki ->]]); [done|].
    subst qs. case_decide as Hd; [|by apply (qi_idle q Hq k u)].
    rewrite lookup_delete in Hn. case_decide as Hkey; [|by apply (qi_idle q Hq k u)].
    destruct (decide (k < i)%nat) as [Hlt|Hge].
    + apply (qi_started q Hq i t k u); [done|congruence|done|done|congruence].
    + destruct (qi_last q Hq (tk_key t) i Hd) as (_ & _ & _ & _ & Hlast).
      exfalso. apply (Hlast k u); [lia|done|congruence].
  - intros k u' j Hu' Ha. apply lookup_alter_state in Hu' as (u & Hu & Hk & Ha' & _).
    rewrite Ha' in Ha. destruct (qi_after q Hq k u j Hu Ha) as (Hj & (p & Hp & Hkp) & Hnone).
    split_and!; [done| |].
    + destruct (lookup_alter_state_2 Released i _ _ _ Hp) as (p' & Hp' & Hkp' & _). exists p'.
      split; congruence.
    + intros m v Hm Hv. apply lookup_alter_state in Hv as (v0 & Hv0 & -> & _). rewrite Hk.
      by apply (Hnone m).
  - intros k u' j v' Hu' Ha Hj Hv' Hkey.
    apply lookup_alter_state in Hu' as (u & Hu & Hk & Ha' & _).
    pose proof Hv' as Hv0. apply lookup_alter_state in Hv0 as (v & Hv & Hkv & _).
    eapply Hrel; [exact Hv| |done]. apply (qi_first q Hq k u j v); congruence.
  - intros k u' j v' Hu' Hw Hj Hv' Hkey.
    apply lookup_alter_state in Hu' as (u & Hu & Hk & _ & Hcase).
    pose proof Hv' as Hv0. apply lookup_alter_state in Hv0 as (v & Hv & Hkv & _).
    eapply Hrel; [exact Hv| |done]. apply (qi_started q Hq k u j v); [done| |done|done|congruence].
    destruct Hcase as [[-> _]|[_ ->]]; congruence.
Qed.

Lemma lookup_snoc_inv {A} (l : list A) x i y :
  (l ++ [x]) !! i = Some y -> l !! i = Some y /\ (i < length l)%nat \/ i = length l /\ y = x.
Proof.
  intros H. apply lookup_app_Some in H as [H|[Hl H]].
  - left. split; [done|]. by apply lookup_lt_Some in H.
  - apply list_lookup_singleton_Some in H as [? <-]. right. split; [lia|done].
Qed.

Lemma queue_inv_call key q : queue_inv q -> queue_inv (serializePerKey key q).
Proof.
  intros Hq. unfold serializePerKey. split; simpl.
  - intros k i. rewrite lookup_insert. case_decide as Hk.
    + intros [= <-]. subst k. eexists. split_and!; [by apply list_lookup_middle|done|done|].
      intros j t' Hj Ht'. apply lookup_lt_Some in Ht'. rewrite length_app in Ht'. simpl in Ht'. lia.
    + intros Hi. destruct (qi_last q Hq k i Hi) as (t & Ht & Hkey & Hr & Hlast).
      exists t. split_and!; [by apply lookup_app_l_Some|done..|].
      intros j t' Hj Ht'. apply lookup_snoc_inv in Ht' as [[Ht' _]|[_ ->]]; [by apply (Hlast j)|done].
  - intros i t Ht Hn. apply lookup_snoc_inv in Ht as [[Ht _]|[_ ->]].
    + rewrite lookup_insert in Hn. case_decide; [done|]. by apply (qi_idle q Hq i t).
    + simpl in Hn. by rewrite lookup_insert_eq in Hn.
  - intros i t j Ht Ha. apply lookup_snoc_inv in Ht as [[Ht Hi]|[-> ->]].
    + destruct (qi_after q Hq i t j Ht Ha) as (Hj & (p & Hp & Hkp) & Hnone). split_and!; [done| |].
      * exists p. split; [by apply lookup_app_l_Some|done].
      * intros k u Hk Hu. apply lookup_snoc_inv in Hu as [[Hu _]|[-> _]]; [by apply (Hnone k)|lia].
    + simpl in Ha. destruct (qi_last q Hq key j Ha) as (u & Hu & Hkey & _ & Hlast).
      split_and!; [by eapply lookup_lt_Some| |].
      * exists u. split; [by apply lookup_app_l_Some|done].
      * intros k v Hk Hv. apply lookup_snoc_inv in Hv as [[Hv _]|[-> _]]; [apply (Hlast k v)|lia].
        -- lia.
        -- done.
  - intros i t j t' Ht Ha Hj Ht' Hkey. apply lookup_snoc_inv in Ht as [[Ht Hi]|[-> ->]].
    + apply lookup_snoc_inv in Ht' as [[Ht' _]|[-> _]]; [by eapply (qi_first q Hq i t j)|lia].
    + apply lookup_snoc_inv in Ht' as [[Ht' _]|[-> _]]; [|lia]. simpl in *. subst key.
      by apply (qi_idle q Hq j t').
  - intros i t j t' Ht Hw Hj Ht' Hkey. apply lookup_snoc_inv in Ht as [[Ht Hi]|[-> ->]]; [|done].
    apply lookup_snoc_inv in Ht' as [[Ht' _]|[-> _]]; [by eapply (qi_started q Hq i t j)|lia].
Qed.

Lemma queue_inv_step q q' : queue_step q q' -> queue_inv q -> queue_inv q'.
Proof.
  destruct 1 as [key q|i t q Ht Hs Hg|i t q Ht Hs|i t q Ht Hs]; intros Hq.
  - by apply queue_inv_call.
  - apply (queue_inv_move q i t); [done..|congruence|]. intros j t' Hj Ht' Hk.
    by apply (guard_resolved_before q i t j t').
  - apply (queue_inv_move q i t); [done..|congruence|]. intros j t' Hj Ht' Hk.
    apply (qi_started q Hq i t j t'); [done|congruence|done..].
  - by apply (queue_inv_guard q i t).
Qed.

Lemma queue_inv_reachable q : rtc queue_step queue_init q -> queue_inv q.
Proof.
  intros Hr. assert (H0 : queue_inv queue_init) by (split; intros; done).
  revert H0. generalize queue_init, Hr. clear. intros q0 Hr.
  induction Hr as [|a b c Hab _ IH]; [done|]. intros Ha. eauto using queue_inv_step.
Qed.

(** The earliest call of a key that is not over. *)
Lemma first_not_released q i t :
  q_tasks q !! i = Some t -> tk_state t <> Released ->
  exists j u, q_tasks q !! j = Some u /\ tk_key u = tk_key t /\ tk_state u <> Released
    /\ forall k v, (k < j)%nat -> q_tasks q !! k = Some v -> tk_key v = tk_key t ->
         tk_state v = Released.
Proof.
  intros Ht Hr.
  destruct (list_find_elem_of (fun u => tk_key u = tk_key t /\ tk_state u <> Released) (q_tasks q) t)
    as [[j u] Hf]; [by eapply list_elem_of_lookup_2|done|].
  apply list_find_Some in Hf as (Hu & [Hk Hs] & Hfirst). exists j, u. split_and!; [done..|].
  intros k v Hkj Hv Hkv. destruct (decide (tk_state v = Released)); [done|].
  exfalso. by apply (Hfirst k v).
Qed.

(** The transitions a task has left. *)
Definition remaining (t : task) : nat :=
  match tk_state t with Waiting => 3 | Running => 2 | Settled => 1 | Released => 0 end.

Definition queue_remaining (q : queue_state) : nat := sum_list_with remaining (q_tasks q).

Lemma remaining_alter s i (l : list task) t :
  l !! i = Some t -> (remaining (set_state s t) < remaining t)%nat ->
  (sum_list_with remaining (alter (set_state s) i l) < sum_list_with remaining l)%nat.
Proof.
  revert i. induction l as [|x l IH]; intros [|i] Hi Hlt; simpl in *; [done..| |].
  - injection Hi as ->. lia.
  - specialize (IH i Hi Hlt). unfold alter in IH. lia.
Qed.

(** Every step but a call takes one transition. *)
Lemma queue_step_decreases q q' :
  queue_step q q' -> length (q_tasks q') = length (q_tasks q) ->
  (queue_remaining q' < queue_remaining q)%nat.
Proof.
  destruct 1 as [key q|i t q Ht Hs Hg|i t q Ht Hs|i t q Ht Hs]; intros Hl;
    unfold queue_remaining; simpl in *.
  - rewrite length_app in Hl. simpl in Hl. lia.
  - apply (remaining_alter _ _ _ t Ht). unfold remaining. rewrite Hs. simpl. lia.
  - apply (remaining_alter _ _ _ t Ht). unfold remaining. rewrite Hs. simpl. lia.
  - apply (remaining_alter _ _ _ t Ht). unfold remaining. rewrite Hs. simpl. lia.
Qed.

Lemma queue_progress q i t :
  queue_inv q -> q_tasks q !! i = Some t -> tk_state t <> Released ->
  exists q', queue_step q q' /\ length (q_tasks q') = length (q_tasks q).
Proof.
  intros Hq Ht Hr.
  destruct (first_not_released q i t Ht Hr) as (j & u & Hu & Hk & Hs & Hfirst).
  destruct (tk_state u) eqn:Hst; [| | |done].
  - eexists. split; [eapply (step_start j u q Hu Hst)|simpl; by rewrite length_alter].
    unfold guard_resolved. destruct (tk_after u) as [p|] eqn:Ha; [|done].
    destruct (qi_after q Hq j u p Hu Ha) as (Hp & (v & Hv & Hkv) & _). rewrite Hv.
    apply bool_decide_eq_true_2. apply (Hfirst p v); congruence.
  - eexists. split; [eapply (step_settle j u q Hu Hst)|simpl; by rewrite length_alter].
  - eexists. split; [eapply (step_guard j u q Hu Hst)|simpl; by rewrite length_alter].
Qed.

(** ** Lemmas: the lease *)

Lemma frame_leases_acquire key token e now : frame (leases_acquire key token e now).
Proof. apply frame_statement. Qed.
Lemma frame_leases_release key token : frame (leases_release key token).
Proof. apply frame_statement. Qed.
Lemma frame_sleep ms : frame (sleep ms).
Proof. apply frame_await_turn. Qed.
#[export] Hint Resolve frame_leases_acquire frame_leases_release frame_sleep : nexus.

Lemma frame_take_loop o fuel key token deadline : frame (take_loop o fuel key token deadline).
Proof. induction fuel as [|fuel IH]; simpl; frames; apply IH. Qed.
#[export] Hint Resolve frame_take_loop : nexus.

Lemma frame_takeLease o fuel key token : frame (takeLease o fuel key token).
Proof. unfold takeLease. frames. Qed.
#[export] Hint Resolve frame_takeLease : nexus.

Lemma frame_underLease {A} o fuel key (fn : M A) : frame fn -> frame (underLease o fuel key fn).
Proof. intros Hf. unfold underLease. frames. Qed.
#[export] Hint Resolve frame_underLease : nexus.

Lemma frame_locks {A} key (fn : M A) : frame fn -> frame (locks key fn).
Proof. intros Hf. unfold locks. frames. Qed.
#[export] Hint Resolve frame_locks : nexus.

(** An acquisition uses one turn, and answers or fails. *)
Lemma leases_acquire_turn key token e now w r w' :
  leases_acquire key token e now w = (r, w') ->
  w_turn w' = S (w_turn w) /\ w_env w' = w_env w.
Proof.
  unfold leases_acquire, statement. intros H.
  repeat (case_match; simplify_eq); done.
Qed.

Lemma leases_acquire_true key token e now w w' :
  leases_acquire key token e now w = (Ok true, w') ->
  lease_verify key token (d_leases (w_db w')) = true.
Proof.
  unfold leases_acquire, statement. intros H.
  destruct (t_fault (cur w)); [done|].
  destruct (assertLeaseKeyLength key); [|done].
  destruct (lease_acquire _ _ _ _ _ _) as [t' ok] eqn:Ha. simplify_eq. simpl.
  exact (acquire_holds (T := lease_table) _ _ _ _ _ _ _ Ha).
Qed.

Lemma leases_release_ok key token w b w' :
  leases_release key token w = (Ok b, w') -> lease_verify key token (d_leases (w_db w')) = false.
Proof.
  intros H. apply statement_ok_inv in H as (d & _ & Hf & _).
  destruct (lease_release _ _ _) as [t' ok] eqn:Hr. injection Hf as <- <-. simpl.
  exact (release_drops (T := lease_table) _ _ _ _ _ Hr).
Qed.

(** One attempt of the loop: it got the lease, it failed, or it was refused and
    either gave up or slept and goes on two turns later. *)
Lemma take_loop_unfold o fuel key token deadline w r w' :
  take_loop o (S fuel) key token deadline w = (r, w') ->
  (r = Ok true /\ lease_verify key token (d_leases (w_db w')) = true)
  \/ (exists e, r = Throw e /\ isLockTimeout e = false)
  \/ (exists e, r = Throw e /\ deadline <= t_now (cur w'))
  \/ (exists w1, take_loop o fuel key token deadline w1 = (r, w')
        /\ w_turn w1 = S (S (w_turn w)) /\ w_env w1 = w_env w
        /\ t_now (w_env w (S (w_turn w))) < deadline).
Proof.
  simpl. unfold date_now, math_random, sleep, await_turn, mbind, mthrow, mret. intros H.
  destruct (leases_acquire key token (t_now (cur w) + ttlMs o) (t_now (cur w)) w) as [[[]|e] w1] eqn:Ha.
  - injection H as <- <-. left. split; [done|]. by eapply leases_acquire_true.
  - apply leases_acquire_turn in Ha as [Hn He].
    case_bool_decide as Hd.
    + injection H as <- <-. right. right. left. eauto.
    + right. right. right. eexists. split; [exact H|]. simpl. split_and!; [congruence|done|].
      unfold cur in Hd. rewrite Hn, He in Hd. lia.
  - injection H as <- <-. right. left. exists e. split; [done|].
    unfold leases_acquire, statement in Ha. destruct (t_fault (cur w)); simplify_eq; [done|].
    unfold assertLeaseKeyLength in Ha. case_decide; simplify_eq; [done|].
    by destruct (lease_acquire _ _ _ _ _ _).
Qed.

(** The clock does not go back during an attempt, and a sleep takes at least the
    poll interval: attempt [i] of the loop uses the turns [n + 2i] (the
    acquisition) and [n + 2i + 1] (the sleep). *)
Definition polls_in_time (o : KeyedSerializerOptions) (env : nat -> turn) (n : nat) : Prop :=
  forall i, t_now (env (n + 2 * i)%nat) <= t_now (env (n + 2 * i + 1)%nat)
    /\ t_now (env (n + 2 * i + 1)%nat) + pollMs o <= t_now (env (n + 2 * i + 2)%nat).

Lemma polls_in_time_next o env n : polls_in_time o env n -> polls_in_time o env (S (S n)).
Proof.
  intros Hp i. specialize (Hp (S i)).
  replace (n + 2 * S i)%nat with (S (S n) + 2 * i)%nat in Hp by lia. exact Hp.
Qed.

Lemma take_loop_decides o fuel key token deadline w r w' :
  polls_in_time o (w_env w) (w_turn w) ->
  deadline <= t_now (cur w) + pollMs o * (Z.of_nat fuel - 1) ->
  (0 < fuel)%nat ->
  take_loop o fuel key token deadline w = (r, w') ->
  match r with
  | Ok got => got = true /\ lease_verify key token (d_leases (w_db w')) = true
  | Throw e => isLockTimeout e = true -> deadline <= t_now (cur w')
  end.
Proof.
  revert w. induction fuel as [|fuel IH]; intros w Hp Hd Hf H; [lia|].
  apply take_loop_unfold in H as [[-> Hv]|[(e & -> & He)|[(e & -> & He)|(w1 & H & Hn & He & Hl)]]].
  - done.
  - congruence.
  - done.
  - pose proof (Hp 0%nat) as [Hp1 Hp2]. rewrite !Nat.mul_0_r, Nat.add_0_r in *.
    rewrite Nat.add_1_r in Hp1, Hp2. unfold cur in Hd.
    assert (Hf2 : (0 < fuel)%nat) by (destruct fuel; [simpl in Hd; lia|lia]).
    apply (IH w1); [|unfold cur; rewrite Hn, He|done|exact H].
    + rewrite He, Hn. by apply polls_in_time_next.
    + replace (S (S (w_turn w))) with (w_turn w + 2)%nat by lia. nia.
Qed.

Lemma take_loop_true o fuel key token deadline w w' :
  take_loop o fuel key token deadline w = (Ok true, w') ->
  lease_verify key token (d_leases (w_db w')) = true.
Proof.
  revert w. induction fuel as [|fuel IH]; intros w H; [done|].
  apply take_loop_unfold in H as [[_ Hv]|[(e & [=] & _)|[(e & [=] & _)|(w1 & H & _)]]]; eauto.
Qed.

Lemma takeLease_true o fuel key token w w' :
  takeLease o fuel key token w = (Ok true, w') ->
  lease_verify key token (d_leases (w_db w')) = true.
Proof. unfold takeLease, date_now, mbind. apply take_loop_true. Qed.

(** *** Predicates through a section: they must not depend on the leases *)
Section LeadsSection.
Context (env : nat -> turn).

Definition lease_closed (I : world_pred) : Prop :=
  forall d tr c l, I d tr c -> I (with_leases l d) tr c.

Lemma leads_sleep I ms : rival_closed env I -> leads env I I (sleep ms).
Proof. apply leads_await_turn. Qed.

Lemma leads_takeLease o fuel I key token :
  rival_closed env I -> lease_closed I -> leads env I I (takeLease o fuel key token).
Proof.
  intros Hr Hl. unfold takeLease.
  eapply leads_bind; [apply leads_date_now| |by intros ???]. intros now.
  generalize (now + waitMs o). intros deadline.
  induction fuel as [|fuel IH]; simpl; [by apply leads_ret; intros ???|].
  eapply leads_bind; [apply leads_date_now| |by intros ???]. intros now'.
  eapply leads_bind; [| |by intros ???].
  { apply leads_statement with (I := I); [done|by intros ???|]. intros n d tr c a d' HI Ha.
    destruct (assertLeaseKeyLength key); [|done].
    destruct (lease_acquire _ _ _ _ _ _). injection Ha as _ <-. by apply Hl. }
  intros []; [by apply leads_ret; intros ???|].
  eapply leads_bind; [apply leads_date_now| |by intros ???]. intros later.
  case_bool_decide; [by apply leads_throw; intros ???|].
  eapply leads_bind; [apply leads_math_random| |by intros ???]. intros r.
  eapply leads_bind; [by apply leads_sleep| |by intros ???]. done.
Qed.

Lemma leads_underLease {A} o fuel I J key (fn : M A) :
  rival_closed env I -> lease_closed I -> rival_closed env J -> lease_closed J -> implies I J ->
  leads env I J fn -> leads env I J (underLease o fuel key fn).
Proof.
  intros HrI HlI HrJ HlJ HIJ Hfn. unfold underLease.
  eapply leads_bind; [apply leads_randomUUID| |done]. intros token.
  eapply leads_bind; [by apply leads_takeLease| |done]. intros []; [|by apply leads_ret].
  apply leads_finally.
  - eapply leads_bind; [by apply leads_holdingLease| |by intros ???]. intros a.
    apply leads_ret. by intros ???.
  - eapply leads_catch; [| |by intros ???].
    + eapply leads_bind; [| |by intros ???].
      * apply leads_statement_ok with (J := J); [done|by intros ???|]. intros n d tr c HJ.
        destruct (lease_release _ _ _). simpl. by apply HlJ.
      * intros _. apply leads_ret. by intros ???.
    + intros _. apply leads_ret. by intros ???.
Qed.

Lemma yields_underLease {A} o fuel I (Q : A -> Prop) key (fn : M A) :
  rival_closed env I -> lease_closed I -> yields env I Q fn ->
  yields env I (fun r => forall a, r = Some a -> Q a) (underLease o fuel key fn).
Proof.
  intros HrI HlI Hfn. unfold underLease.
  eapply yields_bind; [apply leads_randomUUID|]. intros token.
  eapply yields_bind; [by apply leads_takeLease|]. intros []; [|by apply yields_ret].
  apply yields_finally. intros w r w' He HI H.
  apply mbind_ok in H as (a & w1 & H & Hr). injection Hr as <- _.
  unfold holdingLease, in_context in H. intros a' [= <-].
  destruct (fn _) as [x w2] eqn:Hx in H. injection H as -> <-. by eapply Hfn; [..|exact Hx].
Qed.
Lemma leads_locks {A} I J key (fn : M A) :
  rival_closed env I -> lease_closed I -> rival_closed env J -> lease_closed J -> implies I J ->
  leads env I J fn -> leads env I J (locks key fn).
Proof.
  intros HrI HlI HrJ HlJ HIJ Hf. unfold locks.
  eapply leads_bind; [by apply leads_underLease| |by intros ???].
  intros [a|]; [apply leads_ret|apply leads_throw]; by intros ???.
Qed.

Lemma yields_locks {A} I (Q : A -> Prop) key (fn : M A) :
  rival_closed env I -> lease_closed I -> yields env I Q fn -> yields env I Q (locks key fn).
Proof.
  intros HrI HlI Hfn w a w' He HI H. unfold locks in H.
  apply mbind_ok in H as (r & w1 & H & Hr). destruct r as [r|]; [|done]. injection Hr as -> _.
  by apply (yields_underLease _ _ I Q key fn HrI HlI Hfn w _ _ He HI H).
Qed.
End LeadsSection.

(** *** A sample schedule, for the witnesses *)

Definition sample_options : KeyedSerializerOptions := {|
  ttlMs := 100; waitMs := 25; pollMs := 10; conflictMessage := "busy";
|}.

Lemma sample_polls n : polls_in_time sample_options sample_turn n.
Proof. intros i. simpl. lia. Qed.

(** ** Properties *)

(** An acquisition decides. On a clock that does not go back and whose
    sleeps last at least the poll interval, [lease_fuel] attempts are enough for
    [takeLease] to end, whatever the other instances do to the table meanwhile:
    it returns holding the lease, or it throws; and it reports a lock timeout
    only once the whole of [waitMs] has passed. *)
Theorem takeLease_decides (o : KeyedSerializerOptions) (key token : string) (w w' : world)
    (r : res exn bool)
    (Hpoll : 0 < pollMs o) (Hwait : 0 <= waitMs o)
    (Hclock : polls_in_time o (w_env w) (w_turn w))
    (Hrun : takeLease o (lease_fuel o) key token w = (r, w')) :
  match r with
  | Ok got => got = true /\ lease_verify key token (d_leases (w_db w')) = true
  | Throw e => isLockTimeout e = true -> t_now (cur w) + waitMs o <= t_now (cur w')
  end.
Proof.
  unfold takeLease, date_now, mbind in Hrun.
  apply (take_loop_decides o _ key token (t_now (cur w) + waitMs o)) in Hrun; [done|done| |].
  - unfold lease_fuel. pose proof (Z.div_pos (waitMs o) (pollMs o)).
    pose proof (Z.mul_succ_div_gt (waitMs o) (pollMs o) Hpoll). rewrite Z2Nat.id by lia. nia.
  - unfold lease_fuel. pose proof (Z.div_pos (waitMs o) (pollMs o)). lia.
Qed.

(** A free key is taken; one held past the wait times out after [waitMs]. *)
Lemma takeLease_decides_witness :
  lease_verify "free" "t" (d_leases (w_db
    (takeLease sample_options (lease_fuel sample_options) "free" "t" sample_section).2)) = true
  /\ t_now (cur sample_section) + 25
     <= t_now (cur (takeLease sample_options (lease_fuel sample_options) "k" "t"
                      (world_of (with_leases (sqlite_renew "k" "a" 9000 0 sample_leases).1 db_empty)
                         sample_turn [])).2).
Proof.
  split.
  - apply (takeLease_decides sample_options "free" "t" sample_section _ (Ok true));
      [done|done|apply sample_polls|vm_compute; reflexivity].
  - apply (takeLease_decides sample_options "k" "t"
             (world_of (with_leases (sqlite_renew "k" "a" 9000 0 sample_leases).1 db_empty) sample_turn [])
             _ (Throw (lockTimeout "busy")));
      [done|done|apply sample_polls|vm_compute; reflexivity|reflexivity].
Defined.

(** A section runs under its lease, gives it back, and its outcome is its
    own. When the acquisition succeeds, the token holds the key as the section
    starts; the result or the exception of the section is what [underLease]
    answers, even when the release fails; and when the release does not fail the
    token no longer holds the key. *)
Theorem underLease_releases {A} (o : KeyedSerializerOptions) (fuel : nat) (key : string) (fn : M A)
    (w w1 w2 : world) (r : res exn A)
    (Htake : takeLease o fuel key (t_ids (cur w) 0) (advance w) = (Ok true, w1))
    (Hfn : holdingLease key (t_ids (cur w) 0) fn w1 = (r, w2)) :
  exists w', underLease o fuel key fn w = (res_map Some r, w')
    /\ (t_fault (cur w2) = None ->
         lease_verify key (t_ids (cur w) 0) (d_leases (w_db w')) = false).
Proof.
  unfold underLease, mbind at 1, randomUUID. unfold mbind at 1. rewrite Htake.
  unfold mfinally, mbind at 1. rewrite Hfn.
  assert (Hrel : exists w', mcatch (do_ leases_release key (t_ids (cur w) 0); mret tt)
                    (fun _ => mret tt) w2 = (Ok tt, w')
            /\ (t_fault (cur w2) = None ->
                 lease_verify key (t_ids (cur w) 0) (d_leases (w_db w')) = false)).
  { unfold mcatch, mbind. destruct (leases_release _ _ w2) as [[b|e] w3] eqn:Hr; simpl.
    - exists w3. split; [done|]. intros _. by apply leases_release_ok in Hr.
    - exists w3. split; [done|]. intros Hnf. exfalso.
      unfold leases_release, statement_ok, statement in Hr. rewrite Hnf in Hr.
      by destruct (lease_release _ _ _). }
  destruct Hrel as (w' & Hrel & Hdrop). exists w'. split; [|done].
  destruct r as [a|e]; simpl; by rewrite Hrel.
Qed.

(** The section throws: the lease is given back all the same. *)
Lemma underLease_releases_witness :
  exists w', underLease sample_options 2 "free" (mthrow (forbidden "no") : M unit) sample_section
    = (Throw (forbidden "no"), w')
    /\ (t_fault (cur w') = None ->
         lease_verify "free" (t_ids (cur sample_section) 0) (d_leases (w_db w')) = false).
Proof.
  destruct (underLease_releases sample_options 2 "free" (mthrow (forbidden "no") : M unit)
              sample_section
              (takeLease sample_options 2 "free" (t_ids (cur sample_section) 0)
                 (advance sample_section)).2
              (takeLease sample_options 2 "free" (t_ids (cur sample_section) 0)
                 (advance sample_section)).2
              (Throw (forbidden "no")))
    as (w' & Hrun & Hdrop).
  - vm_compute. reflexivity.
  - reflexivity.
  - exists w'. split; [exact Hrun|]. intros _. apply Hdrop. vm_compute. reflexivity.
Defined.



(** The queue of one process admits one section per key, in the order of
    the calls. In every reachable state, when the section of a call has started,
    every call made before it under the same key is over and its guard has run;
    and the map of queues holds a key exactly while some call under it is not
    over, so it does not grow with the keys ever used. *)
Theorem serializer_one_section_per_key (q : queue_state) (i j : nat) (ti tj : task)
    (Hreach : rtc queue_step queue_init q)
    (Hi : q_tasks q !! i = Some ti) (Hj : q_tasks q !! j = Some tj) :
  ((i < j)%nat -> tk_key ti = tk_key tj -> tk_state tj <> Waiting -> tk_state ti = Released)
  /\ (q_queues q !! tk_key ti = None -> tk_state ti = Released)
  /\ (forall n, q_queues q !! tk_key ti = Some n ->
        exists t, q_tasks q !! n = Some t /\ tk_key t = tk_key ti /\ tk_state t <> Released).
Proof.
  apply queue_inv_reachable in Hreach as Hq. split_and!.
  - intros Hij Hk Hs. by apply (qi_started q Hq j tj i ti).
  - by apply (qi_idle q Hq i ti).
  - intros n Hn. destruct (qi_last q Hq _ n Hn) as (t & Ht & Hkt & Hst & _). eauto.
Qed.

(** Two calls under one key: the second starts once the first is over. *)
Definition sample_two_calls : queue_state := serializePerKey "k" (serializePerKey "k" queue_init).

Definition sample_second_running : queue_state :=
  let q1 := {| q_queues := q_queues sample_two_calls;
               q_tasks := alter (set_state Running) 0%nat (q_tasks sample_two_calls) |} in
  let q2 := {| q_queues := q_queues q1; q_tasks := alter (set_state Settled) 0%nat (q_tasks q1) |} in
  let q3 := run_guard 0 "k" q2 in
  {| q_queues := q_queues q3; q_tasks := alter (set_state Running) 1%nat (q_tasks q3) |}.

Lemma sample_two_calls_reachable : rtc queue_step queue_init sample_two_calls.
Proof. eapply rtc_l; [apply (step_call "k")|]. apply rtc_once, (step_call "k"). Qed.

Lemma sample_second_running_reachable : rtc queue_step queue_init sample_second_running.
Proof.
  etrans; [apply sample_two_calls_reachable|].
  eapply rtc_l; [by eapply (step_start 0)|]. eapply rtc_l; [by eapply (step_settle 0)|].
  eapply rtc_l; [by eapply (step_guard 0)|]. apply rtc_once. by eapply (step_start 1).
Qed.

Lemma serializer_one_section_per_key_witness :
  exists ti tj, q_tasks sample_second_running !! 0%nat = Some ti
    /\ q_tasks sample_second_running !! 1%nat = Some tj
    /\ tk_state tj = Running /\ tk_state ti = Released.
Proof.
  exists {| tk_key := "k"; tk_after := None; tk_state := Released |},
         {| tk_key := "k"; tk_after := Some 0%nat; tk_state := Running |}.
  split_and!; [reflexivity..|].
  refine (proj1 (serializer_one_section_per_key sample_second_running 0 1 _
           {| tk_key := "k"; tk_after := Some 0%nat; tk_state := Running |}
           sample_second_running_reachable _ _) _ _ _); [reflexivity|reflexivity|lia|reflexivity|discriminate].
Defined.

(** The queue never gets stuck. In every reachable state with a call
    that is not over, some promise can settle without any new call, and every
    step that is not a call uses up one of finitely many transitions: when the
    calls stop, every call of every key runs and is over. *)
Theorem serializer_never_stuck (q : queue_state) (i : nat) (t : task)
    (Hreach : rtc queue_step queue_init q)
    (Ht : q_tasks q !! i = Some t) (Hs : tk_state t <> Released) :
  (exists q', queue_step q q' /\ length (q_tasks q') = length (q_tasks q))
  /\ (forall q', queue_step q q' -> length (q_tasks q') = length (q_tasks q) ->
        (queue_remaining q' < queue_remaining q)%nat).
Proof.
  apply queue_inv_reachable in Hreach as Hq. split; [by eapply queue_progress|].
  intros q'. apply queue_step_decreases.
Qed.

Lemma serializer_never_stuck_witness :
  exists q', queue_step sample_two_calls q' /\ length (q_tasks q') = 2%nat.
Proof.
  refine (proj1 (serializer_never_stuck sample_two_calls 1
           {| tk_key := "k"; tk_after := Some 0%nat; tk_state := Waiting |}
           sample_two_calls_reachable _ _)); [reflexivity|discriminate].
Defined.

(** The keys of different operations never collide. Two named locks with
    the same key are the same lock: no identifier, whatever it contains, makes
    the key of one operation equal to the key of another, or to one of the
    deployment-wide keys. *)
Theorem lock_keys_distinct (n1 n2 : lock_name) (Heq : lock_key n1 = lock_key n2) : n1 = n2.
Proof. destruct n1, n2; cbn in Heq; try done; injection Heq as Hid; change (id = id0) in Hid; by subst. Qed.

Lemma lock_keys_distinct_witness : UserLifecycle "u1" = UserLifecycle "u1".
Proof. apply lock_keys_distinct. reflexivity. Defined.
