(* ===== verification/Provisioner.v ===== *)
(** * The consumer provisioner

    [server/src/credentials/consumers.ts]: the identity's consumer on the
    gateway, and the read-modify-write of its ACL groups under its key. The
    gateway's HTTP client is an interface. *)

From S2P Require Import Prelude Json Roles Users AccessTables World AccessStore LeaseFence KeyedSerializer.
Open Scope Z_scope.

(** [EdgeVerifiedConsumer]: what a verification read answers. *)
Record EdgeConsumer : Type := {
  ec_id : string;
  ec_labels : list (string * string);
  ec_username : string;
  ec_custom_id : option string;
  ec_credentials : json;
  ec_acl_groups : list string;
}.

(** [consumerWithAclGroups] of [ferrum-admin/consumer-metadata.ts]. *)
Definition consumerWithAclGroups (live : EdgeConsumer) (aclGroups : list string) : EdgeConsumer := {|
  ec_id := ec_id live; ec_labels := ec_labels live; ec_username := ec_username live;
  ec_custom_id := ec_custom_id live; ec_credentials := ec_credentials live; ec_acl_groups := aclGroups;
|}.

(** [edge.consumers]: [verification] with the row's tag, [replace] under
    [If-Match], [get] (telling a confirmed absence from another [404]) and
    [ensure]. *)
Class EdgeClient : Type := {
  namespace : string;
  edge_verification : string -> string -> M (option (EdgeConsumer * string));
  edge_replace : string -> EdgeConsumer -> string -> string -> M EdgeConsumer;
  edge_get : string -> bool -> M (option EdgeConsumer);
  edge_ensure : string -> string -> string -> M EdgeConsumer;
}.

Definition userDisabled (message : string) : exn := nexusError USER_DISABLED message [].
Definition edgeError (message : string) (details : list (string * string)) : exn :=
  nexusError EDGE_ERROR message details.

(** [MutateAclGroupsOptions]. [guard] runs before the write and says whether to
    go on, and what it saw; [afterWrite] runs once the write landed, under the
    key. *)
Record MutateAclGroupsOptions (G X Y : Type) : Type := {
  skipUnchanged : bool;
  requireActiveUser : option string;
  skipInactiveUser : bool;
  absentIsDone : bool;
  afterWrite : option (EdgeConsumer -> M Y);
  guard : M (G + X);
}.
Arguments skipUnchanged {G X Y} _.
Arguments requireActiveUser {G X Y} _.
Arguments skipInactiveUser {G X Y} _.
Arguments absentIsDone {G X Y} _.
Arguments afterWrite {G X Y} _.
Arguments guard {G X Y} _.

(** What became of a mutation. The code answers the consumer or [null]; what the
    closures of the caller captured is told apart here. *)
Inductive acl_outcome (G X Y : Type) : Type :=
| AclInactive
| AclSkipped (x : X)
| AclAbsent (g : G)
| AclUnchanged (g : G) (consumer : option EdgeConsumer)
| AclWritten (g : G) (before : list string) (written : EdgeConsumer) (y : option Y).
Arguments AclInactive {G X Y}.
Arguments AclSkipped {G X Y} x.
Arguments AclAbsent {G X Y} g.
Arguments AclUnchanged {G X Y} g consumer.
Arguments AclWritten {G X Y} g before written y.

(** [consumer-name:] and the JSON of the pair. *)
Definition canonicalConsumerLockKey (namespace username : string) : string :=
  "consumer-name:" +:+ json_stringify (JArr [JStr namespace; JStr username]).

Definition application_usable (owner applicationId : string) (application : option ApplicationRecord) : M unit :=
  match application with
  | Some a =>
      if bool_decide (app_owner_user_id a <> owner) then mthrow (notFound "Application" (Some applicationId))
      else if bool_decide (app_status a <> ApplicationActive)
           then mthrow (conflict "This application is disabled" [("application_id", applicationId)]%string)
           else mret tt
  | None => mthrow (notFound "Application" (Some applicationId))
  end.

Definition is_active_account (user : option UserRecord) : bool :=
  match user with Some u => bool_decide (u_status u = UserActive) | None => false end.

Section Provisioner.
Context `{EdgeClient}.

Definition assertApplicationUsable (owner applicationId : string) : M unit :=
  do application <- applications_find applicationId; application_usable owner applicationId application.

(** [consumers.create]: the primary key and the unique indexes on the identity,
    the consumer id and the username within a namespace. *)
Definition consumer_create (userId : string) (applicationId : option string) (consumer : EdgeConsumer)
    : M ConsumerRecord :=
  statement (fun t d =>
    let row := {| cs_id := t_ids t 0; cs_user_id := userId; cs_application_id := applicationId;
                  cs_namespace := namespace; cs_ferrum_consumer_id := ec_id consumer;
                  cs_ferrum_username := ec_username consumer; cs_created_at := t_now t |} in
    let rows := at_consumers (d_access d) in
    let clash c := bool_decide (cs_namespace c = namespace) &&
      (bool_decide (cs_user_id c = userId) && bool_decide (default ""%string (cs_application_id c) = default ""%string applicationId)
       || bool_decide (cs_ferrum_consumer_id c = ec_id consumer)
       || bool_decide (cs_ferrum_username c = ec_username consumer)) in
    match map_conflict "A gateway consumer already exists for this user"
            (bool_decide (rows !! cs_id row = None) && bool_decide (rows_where clash rows = []))
            (ref_user (refs_of d) userId && ref_opt (ref_application (refs_of d)) applicationId)
            (row, with_access (with_consumers (<[cs_id row := row]> rows) (d_access d)) d) with
    | Ok (c, d') => Ok (c, d')
    | Throw e => Throw e
    end).

Definition ensureConsumer (user : UserRecord) (applicationId : option string) : M ConsumerRecord :=
  let username := match applicationId with
                  | None => consumerUsernameForUser (u_id user)
                  | Some id => consumerUsernameForApplication id
                  end in
  let customId := default (u_id user) applicationId in
  locks (canonicalConsumerLockKey namespace username)
    (do_ match applicationId with Some id => assertApplicationUsable (u_id user) id | None => mret tt end;
     do cached <- consumers_find (u_id user) namespace applicationId;
     match cached with
     | Some c => mret c
     | None =>
         do consumer <- edge_ensure username customId (u_id user);
         transaction (consumer_create (u_id user) applicationId consumer)
     end).

Definition mutateAclGroups {G X Y} (ferrumConsumerId : string) (change : G -> list string -> list string)
    (subject : string) (options : MutateAclGroupsOptions G X Y) : M (acl_outcome G X Y) :=
  locks ferrumConsumerId
    (do active <- match requireActiveUser options with
                  | Some id => do owner <- users_find id; mret (is_active_account owner)
                  | None => mret true
                  end;
     if negb active then
       if skipInactiveUser options then mret AclInactive
       else mthrow (userDisabled "This account has been disabled; its gateway access cannot be extended")
     else
       do snapshot <- edge_verification ferrumConsumerId subject;
       do go <- guard options;
       match go with
       | inr x => mret (AclSkipped x)
       | inl g =>
           match snapshot with
           | None =>
               if absentIsDone options then mret (AclAbsent g)
               else mthrow (edgeError "The gateway consumer for this account no longer exists"
                              [("consumer_id", ferrumConsumerId)]%string)
           | Some (current, etag) =>
               let groups := change g (ec_acl_groups current) in
               if skipUnchanged options && match afterWrite options with None => true | Some _ => false end
                  && bool_decide (groups = ec_acl_groups current)
               then do c <- edge_get ferrumConsumerId false; mret (AclUnchanged g c)
               else
                 do written <- edge_replace ferrumConsumerId (consumerWithAclGroups current groups) subject etag;
                 match afterWrite options with
                 | None => mret (AclWritten g (ec_acl_groups current) written None)
                 | Some after => do y <- after written; mret (AclWritten g (ec_acl_groups current) written (Some y))
                 end
           end
       end).
End Provisioner.
