(* ===== verification/AccessDecisions.v ===== *)
(** * Access decisions: what they share

    The helpers of [server/src/access/service.ts] that requests, approvals and
    revocations share: review and admission checks, group membership, and the
    durable job of a decision (issue #651). *)

From S2P Require Import Prelude Json Roles ClaimQueue Users JobQueues AuditLog AccessTables World AccessStore LeaseFence KeyedSerializer Provisioner.
Open Scope Z_scope.

(** What the access service is handed beside the provisioner: its configuration,
    the catalog's read rules ([catalog/read-access.ts]), the notices
    ([notifications], [email]) and the joins of its answers. *)
Class AccessDeps : Type := {
  maxAccessRequestsPerUserPerDay : Z;
  publicUrl : string;
  canViewApi : UserRecord -> ApiRecord -> M bool;
  canReadApiSummary : UserRecord -> ApiRecord -> M bool;
  notify : string -> string -> string -> string -> string -> M unit;
  enqueueMail : UserRecord -> string -> list (string * string) -> M unit;
  decorate : UserRecord -> M unit;
}.

Definition MAX_JUSTIFICATION_LENGTH : nat := 2000.
Definition MAX_AGENT_TOOLS : nat := 256.
Definition ACCESS_REQUEST_BUDGET_WINDOW_MS : Z := 24 * 60 * 60 * 1000.
Definition RECOVERY_PROXY_ATTEMPTS : nat := 5.
Definition INACTIVE_GRANT_NOTE : string := "The grant this request would extend is no longer active".

Definition status_text (s : AccessRequestStatus) : string :=
  match s with
  | RequestPending => "pending" | RequestApproved => "approved" | RequestDenied => "denied"
  | RequestRevoked => "revoked" | RequestCancelled => "cancelled"
  end.
Definition grant_status_text (s : GrantStatus) : string :=
  match s with GrantActive => "active" | GrantRevoked => "revoked" end.

Definition json_tools (tools : option (list string)) : json :=
  match tools with Some l => json_strs l | None => JNull end.
Definition json_bool (b : bool) : json := JBool b.

Definition actor_of (u : UserRecord) : AuditActor := {| actor_id := Some (u_id u); actor_role := Some (u_role u) |}.
Definition on_request (id : string) : AuditTarget := {| target_type := "access_request"; target_id := Some id |}.
Definition on_grant (id : string) : AuditTarget := {| target_type := "grant"; target_id := Some id |}.

(** Local flags a closure writes and its caller reads back. *)
Definition noted (field : string) : M Z := fun w => (Ok (counter field w), w).

Definition is_published (api : ApiRecord) : bool := bool_decide (api_status api = ApiPublished).
Definition is_private (api : ApiRecord) : bool := bool_decide (api_visibility api = VisibilityPrivate).
Definition is_user_disabled (e : exn) : bool := bool_decide (ex_code e = Some USER_DISABLED).

(** ** Checks *)

Definition role_at_least_of (u : UserRecord) (r : Role) : bool := roleAtLeast (role_name (u_role u)) (role_name r).

Definition assertCanReview (actor : UserRecord) (api : ApiRecord) : M unit :=
  ensure ((bool_decide (api_owner_user_id api = u_id actor) && role_at_least_of actor provider)
          || role_at_least_of actor admin)
    (forbidden "Only an API owner with the provider role or an admin can decide this request").

Definition loadRequest (requestId : string) : M (AccessRequestRecord * ApiRecord * UserRecord) :=
  do request <- request_find requestId;
  do r <- found request (notFound "Access request" (Some requestId));
  do api <- apis_find (rq_api_id r);
  do a <- found api (notFound "API" (Some (rq_api_id r)));
  do requester <- users_find (rq_user_id r);
  do u <- found requester (notFound "Requester" (Some (rq_user_id r)));
  mret (r, a, u).

(** [agents?.operations.map((tool) => tool.id)] without the missing ids. *)
Definition published_tools (api : ApiRecord) : list string := omap id (default [] (api_agents api)).

Definition validateToolSubset (api : ApiRecord) (tools : option (list string)) : M unit :=
  match tools with
  | None => mret tt
  | Some ids =>
      do_ ensure (negb (existsb (fun tool => bool_decide (default ""%string tool = ""%string)) (default [] (api_agents api))))
            (conflict "The provider must republish this phase-1 API before accepting tool subsets" []);
      ensure (bool_decide (length ids <= MAX_AGENT_TOOLS)%nat && bool_decide (NoDup ids)
              && forallb (fun i => bool_decide (i ∈ published_tools api)) ids)
        (validationFailed "Tool subsets must contain unique currently published exposure IDs" [])
  end.

Definition checkedJustification (justification : string) : M string :=
  let trimmed := trim justification in
  do_ ensure (negb (bool_decide (trimmed = ""%string))) (validationFailed "A justification is required" []);
  do_ ensure (bool_decide (String.length trimmed <= MAX_JUSTIFICATION_LENGTH)%nat)
        (validationFailed "A justification may be at most 2000 characters" []);
  mret trimmed.

Definition inactiveGrant : exn := conflict INACTIVE_GRANT_NOTE [].
Definition supersededApproval : exn :=
  conflict "This approval took too long and was handed to recovery; reload the request and retry" [].

Definition decisionConflict (requestId : string) : M exn :=
  do current <- request_find requestId;
  mret (match current with
        | None => notFound "Access request" (Some requestId)
        | Some r => conflict ("This request is already " +:+ status_text (rq_status r)) []
        end).
Definition revocationConflict (grantId : string) : M exn :=
  do current <- grant_find grantId;
  mret (match current with
        | None => notFound "Grant" (Some grantId)
        | Some g => conflict ("This grant is already " +:+ grant_status_text (g_status g)) []
        end).

Definition assertApplicationActive (applicationId ownerUserId : string) : M unit :=
  do application <- applications_find applicationId;
  application_usable ownerUserId applicationId application.

Section Decisions.
Context `{EdgeClient} `{AccessDeps}.

(** ** Notices *)

Definition announce (recipient : UserRecord) (type title body link templateKey : string)
    (vars : list (string * string)) : M unit :=
  do_ ignore_errors (notify (u_id recipient) type title body link);
  ignore_errors (enqueueMail recipient templateKey
    (("recipient_name"%string, u_display_name recipient) :: ("recipient_email"%string, u_email recipient) :: vars)).

Definition catalogUrl (slug : string) : string := publicUrl +:+ "/catalog/" +:+ slug.

(** ** Budget *)

Definition assertWithinBudget (requesterUserId : string) : M unit :=
  let limit := maxAccessRequestsPerUserPerDay in
  if bool_decide (limit <= 0) then mret tt
  else
    do now <- date_now;
    let since := now - ACCESS_REQUEST_BUDGET_WINDOW_MS in
    do requests <- audit_count requesterUserId "access.request" since;
    do tools <- audit_count requesterUserId "access.tools_request" since;
    ensure (bool_decide (requests + tools < limit))
      (quotaExceeded ("You have reached the limit of " +:+ pretty limit +:+ " access requests per 24h. Wait for the oldest of them to age out, or ask an administrator to raise the limit.")
         [("limit", pretty limit); ("window", "24h"); ("setting", "NEXUS_MAX_ACCESS_REQUESTS_PER_USER_PER_DAY")]%string).

Definition spendBudget {A} (requesterUserId : string) (write : M A) : M A :=
  if bool_decide (maxAccessRequestsPerUserPerDay <= 0) then write
  else locks (accessRequestBudgetLockKey requesterUserId) write.

(** ** Keys *)

(** [edge.serializePerKey(proxyLockKey(id), fn)], or [fn] without a proxy. *)
Definition under_proxy {A} (proxyId : option string) (fn : M A) : M A :=
  match proxyId with Some p => locks (proxyLockKey p) fn | None => fn end.

Definition under_application {A} (applicationId : option string) (fn : M A) : M A :=
  match applicationId with
  | None => fn
  | Some id => locks (canonicalConsumerLockKey namespace (consumerUsernameForApplication id)) fn
  end.

(** ** Group membership *)

(** The groups of the API off, or the REST group and the tool groups on. *)
Definition change_membership (apiId : string) (present : bool) (toolGroups groups : list string) : list string :=
  let retained := filter (fun entry => isGroupOfApi entry apiId = false) groups in
  if present then retained ++ aclGroupForApi apiId :: toolGroups else retained.

(** [None]: the identity has no consumer, so nothing to remove. *)
Definition setGroupMembership {X Y} (user : UserRecord) (apiId : string) (present : bool)
    (applicationId : option string) (guard : M (unit + X)) (after : option (EdgeConsumer -> M Y))
    (absentIsDone : bool) (tools : option (list string)) : M (option (acl_outcome unit X Y)) :=
  do api <- (if present then apis_find apiId else mret None);
  let toolGroups := match api with
                    | Some a => match api_agents a with Some _ => mcpGroupsForGrant apiId tools | None => [] end
                    | None => []
                    end in
  do consumer <- (if present then do c <- ensureConsumer user applicationId; mret (Some c)
                  else consumers_find (u_id user) namespace applicationId);
  match consumer with
  | None => mret None
  | Some c =>
      do outcome <- mutateAclGroups (cs_ferrum_consumer_id c)
        (fun _ => change_membership apiId present toolGroups) (u_id user)
        {| skipUnchanged := false; requireActiveUser := if present then Some (u_id user) else None;
           skipInactiveUser := false; absentIsDone := absentIsDone; afterWrite := after; guard := guard |};
      mret (Some outcome)
  end.

(** ** The durable job of a decision *)

Definition job_input (kind : AccessJobs.Kind) (subjectId apiId userId : string)
    (applicationId : option string) (actor : UserRecord) : AccessJobs.Input := {|
  AccessJobs.in_kind := kind; AccessJobs.in_subject_id := subjectId; AccessJobs.in_api_id := apiId;
  AccessJobs.in_user_id := userId; AccessJobs.in_application_id := applicationId;
  AccessJobs.in_requested_by := Some (u_id actor);
|}.

(** [job] is the row found under its subject, still this claim. *)
Definition owns_job (job : AccessJobs.Job) (current : option AccessJobs.Job) : bool :=
  match current with
  | Some r => bool_decide (job_id r = job_id job) && bool_decide (job_generation r = job_generation job)
              && has_status JSending r
  | None => false
  end.

Definition stillOwned (job : AccessJobs.Job) : M bool :=
  do current <- jobs_findBySubject (AccessJobs.in_subject_id (AccessJobs.ag_input job));
  mret (owns_job job current).

Record ownSettlement : Type := { os_moved : option AccessRequestRecord; os_superseded : bool }.

Definition settleOwnRequest (job : AccessJobs.Job) (requestId : string) (patch : RequestPatch) : M ownSettlement :=
  transaction (
    do current <- jobs_findBySubject (AccessJobs.in_subject_id (AccessJobs.ag_input job));
    if negb (owns_job job current) then mret {| os_moved := None; os_superseded := true |}
    else
      do moved <- request_updateIfStatus requestId RequestApproved patch;
      mret {| os_moved := moved; os_superseded := false |}).

Definition claimApproval (actor : UserRecord) (request : AccessRequestRecord) (requester : UserRecord)
    (approved_tools : option (list string)) (decided_at : Z) (decision_note : option string)
    : M (AccessRequestRecord * AccessJobs.Job) :=
  do claimed <- transaction (
    do moved <- request_updateIfStatus (rq_id request) RequestPending
                  (decision RequestApproved (Some (u_id actor)) (Some decided_at) (Some decision_note) (Some approved_tools));
    match moved with
    | None => mret None
    | Some updated =>
        do job <- jobs_upsertClaimed (job_input AccessJobs.Approve (rq_id request) (rq_api_id request)
                                        (u_id requester) (rq_application_id request) actor) decided_at;
        mret (Some (updated, job))
    end);
  match claimed with
  | Some c => mret c
  | None => do e <- decisionConflict (rq_id request); mthrow e
  end.

Definition settleOwnedJob (job : option AccessJobs.Job) (done : bool) (cause : string) : M unit :=
  match job with
  | None => mret tt
  | Some j =>
      ignore_errors (if done then jobs_deleteClaimed j
                     else do now <- date_now; jobs_reschedule j now cause)
  end.

(** [request] moved back to [pending] by a compensation. *)
Definition released : RequestPatch := decision RequestPending None None (Some None) (Some None).
End Decisions.
