(* ===== verification/TransactionRetry.v ===== *)
(** * Retrying a transaction the engine rolled back

    [server/src/db/adapters/transaction-retry.ts]: the back-off, the retry loop
    of the SQL adapters, the gate in front of MongoDB's own loop, and the
    classification of the drivers' errors. *)

From S2P Require Import Prelude Roles World LeaseFence KeyedSerializer.
Open Scope Z_scope.

Inductive DbDriver : Type := sqlite | postgres | mysql | mongodb.

Definition driver_name (d : DbDriver) : string :=
  match d with sqlite => "sqlite" | postgres => "postgres" | mysql => "mysql" | mongodb => "mongodb" end.

Definition TRANSACTION_RETRY_ATTEMPTS : Z := 5.
Definition TRANSACTION_RETRY_BASE_DELAY_MS : Z := 10.
Definition TRANSACTION_RETRY_MAX_DELAY_MS : Z := 200.
Definition MONGO_TRANSACTION_BUDGET_MS : Z := 15000.
Definition MONGO_CONTENTION_BUDGET_MS : Z := 5000.

Definition retry_step (attempt : Z) : Z :=
  Z.min (TRANSACTION_RETRY_BASE_DELAY_MS * 2 ^ Z.max 0 (Z.min (attempt - 1) 16))
        TRANSACTION_RETRY_MAX_DELAY_MS.

(** [Math.round(step / 2 + (step / 2) * random)], as an exact fraction. *)
Definition transactionRetryDelayMs (attempt random : Z) : Z :=
  let step := retry_step attempt in
  round_div (step * random_den + step * random) (2 * random_den).

Inductive commit_outcome : Type := NotApplied | Unknown.

Definition transactionContentionError (driver : DbDriver) (attempts : Z) (cause : exn)
    (commitOutcome : commit_outcome) : exn :=
  let details reason := [("reason", reason); ("driver", driver_name driver);
                         ("attempts", pretty attempts)]%string in
  match commitOutcome with
  | Unknown =>
      conflict "The change may or may not have been committed: the commit outcome is unknown. Check the current state before retrying."
        (details "transaction_commit_unknown"%string)
  | NotApplied =>
      conflict "Another change to the same data was committed first, so this one was rolled back and not applied. Nothing was saved — please try again."
        (details "transaction_contention"%string)
  end.

Record TransactionRetryOptions : Type := {
  tr_driver : DbDriver;
  tr_retryable : exn -> bool;
  tr_retry : option bool;
  tr_attempts : option Z;
}.

Definition max_attempts (options : TransactionRetryOptions) : Z :=
  match tr_retry options with
  | Some false => 1
  | _ => Z.max 1 (default TRANSACTION_RETRY_ATTEMPTS (tr_attempts options))
  end.

Section Retry.
Context {A : Type} (run : M A) (options : TransactionRetryOptions).

(** [None] is only the answer of a loop that ran out of fuel. *)
Fixpoint retry_loop (fuel : nat) (attempt : Z) : M (option A) :=
  match fuel with
  | O => mret None
  | S fuel' => fun w =>
      match run w with
      | (Ok a, w1) => (Ok (Some a), w1)
      | (Throw error, w1) =>
          if negb (tr_retryable options error) then (Throw error, w1)
          else if bool_decide (max_attempts options <= attempt)
          then (Throw (transactionContentionError (tr_driver options) attempt error NotApplied), w1)
          else (do r <- math_random;
                do_ sleep (transactionRetryDelayMs attempt r);
                retry_loop fuel' (attempt + 1)) w1
      end
  end.

Definition runWithTransactionRetry : M (option A) :=
  retry_loop (Z.to_nat (max_attempts options)) 1.

(** What the loop is meant to do: [attempted k w r w'] says that [k] runs were
    made from [w], that every one but the last threw an error the engine wants
    retried, and that the last answered [r] in [w']. *)
Inductive attempted : nat -> world -> res exn A -> world -> Prop :=
| attempted_once w r w' : run w = (r, w') -> attempted 1 w r w'
| attempted_again k w e w1 w2 r w' :
    run w = (Throw e, w1) -> tr_retryable options e = true ->
    (forall ms, sleep ms w1 = (Ok tt, w2)) ->
    attempted k w2 r w' -> attempted (S k) w r w'.
End Retry.

(** ** MongoDB's gate *)

Record MongoContentionGateOptions : Type := {
  mg_retry : option bool;
  mg_budgetMs : option Z;
}.

Record MongoContentionGate : Type := {
  mg_attempts : Z;
  mg_deadline : Z;
}.

Definition createMongoContentionGate : MongoContentionGate :=
  {| mg_attempts := 0; mg_deadline := 0 |}.

Definition gate_budgetMs (options : MongoContentionGateOptions) : Z :=
  match mg_retry options with
  | Some false => 0
  | _ => default MONGO_CONTENTION_BUDGET_MS (mg_budgetMs options)
  end.

(** One call, at time [now]: it throws, or returns after a wait of the given
    length (none for the first). *)
Definition beforeAttempt (options : MongoContentionGateOptions) (now random : Z) (lastError : exn)
    (g : MongoContentionGate) : res exn (option Z) * MongoContentionGate :=
  if bool_decide (0 < mg_attempts g) then
    let deadline :=
      if bool_decide (mg_attempts g = 1) then now + gate_budgetMs options else mg_deadline g in
    if bool_decide (deadline <= now)
    then (Throw (transactionContentionError mongodb (mg_attempts g) lastError NotApplied),
          {| mg_attempts := mg_attempts g; mg_deadline := deadline |})
    else (Ok (Some (transactionRetryDelayMs (mg_attempts g) random)),
          {| mg_attempts := mg_attempts g + 1; mg_deadline := deadline |})
  else (Ok None, {| mg_attempts := mg_attempts g + 1; mg_deadline := mg_deadline g |}).

(** The runs the driver makes: it calls the gate at the top of each, at the
    given times, and stops when the gate throws. The result is the times at
    which the body started. *)
Fixpoint gated_runs (options : MongoContentionGateOptions) (random : Z) (lastError : exn)
    (times : list Z) (g : MongoContentionGate) : list Z :=
  match times with
  | [] => []
  | now :: rest =>
      match beforeAttempt options now random lastError g with
      | (Ok _, g') => now :: gated_runs options random lastError rest g'
      | (Throw _, _) => []
      end
  end.

(** ** Driver classification

    A thrown value: not an object, or an object by its fields. *)
Inductive js_field : Type :=
| FUndefined
| FString (s : string)
| FNumber (n : Z)
| FStrings (l : list string)
| FFunction (f : string -> bool)
| FOther.

Definition thrown : Type := option (string -> js_field).

Definition errorField (error : thrown) (field : string) : js_field :=
  match error with None => FUndefined | Some fields => fields field end.

Definition hasErrorLabel (error : thrown) (label : string) : bool :=
  match errorField error "hasErrorLabel" with
  | FFunction method => method label
  | _ => match errorField error "errorLabels" with
         | FStrings labels => bool_decide (label ∈ labels)
         | _ => false
         end
  end.

Definition field_is_string (f : js_field) (s : string) : bool :=
  match f with FString s' => bool_decide (s' = s) | _ => false end.

Definition field_in_strings (f : js_field) (l : list string) : bool :=
  match f with FString s => bool_decide (s ∈ l) | _ => false end.

Definition field_is_number (f : js_field) (n : Z) : bool :=
  match f with FNumber n' => bool_decide (n' = n) | _ => false end.

Definition MYSQL_RETRYABLE_CODES : list string := ["ER_LOCK_DEADLOCK"%string].
Definition MYSQL_RETRYABLE_ERRNOS : list Z := [1213].

Definition isMysqlRetryableTransactionError (error : thrown) : bool :=
  field_is_string (errorField error "sqlState") "40001"
  || field_in_strings (errorField error "code") MYSQL_RETRYABLE_CODES
  || match errorField error "errno" with
     | FNumber n => bool_decide (n ∈ MYSQL_RETRYABLE_ERRNOS)
     | _ => false
     end.

Definition POSTGRES_RETRYABLE_CODES : list string := ["40001"; "40P01"]%string.

Definition isPostgresRetryableTransactionError (error : thrown) : bool :=
  field_in_strings (errorField error "code") POSTGRES_RETRYABLE_CODES.

Definition MONGO_WRITE_CONFLICT_CODE : Z := 112.

Definition isMongoTransactionContentionError (error : thrown) : bool :=
  hasErrorLabel error "TransientTransactionError"
  || hasErrorLabel error "UnknownTransactionCommitResult"
  || field_is_number (errorField error "code") MONGO_WRITE_CONFLICT_CODE
  || field_is_string (errorField error "name") "MongoOperationTimeoutError".

Definition isUnknownTransactionCommitResult (error : thrown) : bool :=
  hasErrorLabel error "UnknownTransactionCommitResult".

(** ** Lemmas *)

Lemma retry_step_bounds attempt : 10 <= retry_step attempt <= 200.
Proof.
  unfold retry_step, TRANSACTION_RETRY_BASE_DELAY_MS, TRANSACTION_RETRY_MAX_DELAY_MS.
  pose proof (Z.pow_pos_nonneg 2 (Z.max 0 (Z.min (attempt - 1) 16))). lia.
Qed.

Lemma retry_step_mono a b : a <= b -> retry_step a <= retry_step b.
Proof.
  intros Hab. unfold retry_step, TRANSACTION_RETRY_BASE_DELAY_MS.
  pose proof (Z.pow_le_mono_r 2 (Z.max 0 (Z.min (a - 1) 16)) (Z.max 0 (Z.min (b - 1) 16))). lia.
Qed.

Lemma sleep_unit ms w : exists w', sleep ms w = (Ok tt, w') /\ forall ms', sleep ms' w = (Ok tt, w').
Proof. eexists. split; [reflexivity|]. intros ms'. reflexivity. Qed.

Lemma retry_loop_spec {A} (run : M A) options fuel attempt w r w' :
  max_attempts options <= attempt + Z.of_nat fuel - 1 -> (0 < fuel)%nat -> 
  attempt <= max_attempts options ->
  retry_loop run options fuel attempt w = (r, w') ->
  exists k last, attempted run options k w last w'
    /\ attempt + Z.of_nat k - 1 <= max_attempts options
    /\ match last with
       | Ok a => r = Ok (Some a)
       | Throw e => if tr_retryable options e
                    then attempt + Z.of_nat k - 1 = max_attempts options
                         /\ r = Throw (transactionContentionError (tr_driver options)
                                         (max_attempts options) e NotApplied)
                    else r = Throw e
       end.
Proof.
  revert attempt w. induction fuel as [|fuel IH]; intros attempt w Hfuel Hpos Hat H; [lia|].
  simpl in H. destruct (run w) as [[a|e] w1] eqn:Hrun.
  - injection H as <- <-. exists 1%nat, (Ok a). split_and!; [by constructor|lia|done].
  - destruct (tr_retryable options e) eqn:Hret; simpl in H.
    + case_bool_decide as Hmax.
      * injection H as <- <-. exists 1%nat, (Throw e). split_and!; [by constructor|lia|].
        rewrite Hret. split; [lia|].
        by replace attempt with (max_attempts options) by lia.
      * unfold mbind, math_random in H.
        destruct (sleep_unit (transactionRetryDelayMs attempt (t_random (cur w1))) w1)
          as (w2 & Hs & Hall). rewrite Hs in H.
        apply IH in H as (k & last & Hatt & Hk & Hout); [|lia..].
        exists (S k), last. split_and!; [by econstructor|lia|].
        destruct last as [a|e2]; [done|]. destruct (tr_retryable options e2); [|done].
        destruct Hout as [Hk2 ->]. split; [lia|done].
    + injection H as <- <-. exists 1%nat, (Throw e). split_and!; [by constructor|lia|].
      by rewrite Hret.
Qed.

(** ** Properties *)

(** A contended transaction is re-run, and only so often. The loop always
    ends; it makes between one and [maxAttempts] runs, and exactly one when
    [retry] is [false]; every run but the last threw an error the driver wants
    retried. Its answer is that of the last run: the value, or an error that is
    not contention, untouched; a last run that lost to contention as well means
    the attempts are used up, and the caller gets the [CONFLICT] that names
    them. *)
Theorem runWithTransactionRetry_spec {A} (run : M A) (options : TransactionRetryOptions) (w : world) :
  exists k last,
    attempted run options k w last (runWithTransactionRetry run options w).2
    /\ 1 <= Z.of_nat k <= max_attempts options
    /\ (tr_retry options = Some false -> k = 1%nat)
    /\ match last with
       | Ok a => (runWithTransactionRetry run options w).1 = Ok (Some a)
       | Throw e =>
           if tr_retryable options e
           then Z.of_nat k = max_attempts options
                /\ (runWithTransactionRetry run options w).1
                   = Throw (transactionContentionError (tr_driver options) (max_attempts options) e
                              NotApplied)
           else (runWithTransactionRetry run options w).1 = Throw e
       end.
Proof.
  assert (H1 : 1 <= max_attempts options)
    by (unfold max_attempts; destruct (tr_retry options) as [[]|]; lia).
  assert (Hf : tr_retry options = Some false -> max_attempts options = 1)
    by (unfold max_attempts; by intros ->).
  unfold runWithTransactionRetry.
  destruct (retry_loop _ _ _ 1 w) as [r w'] eqn:H. simpl.
  apply retry_loop_spec in H as (k & last & Hatt & Hk & Hout); [|lia..].
  exists k, last. assert (1 <= Z.of_nat k) by (inversion Hatt; lia).
  split_and!; [done|lia|lia|intros Hr; specialize (Hf Hr); lia|].
  destruct last as [a|e]; [done|]. destruct (tr_retryable options e); [|done].
  destruct Hout as [Hk2 ->]. split; [lia|done].
Qed.

(** The back-off stays in its window. Before attempt [n + 1] the wait is
    between half of the step and the step, the step doubles from 10 ms and
    never exceeds 200 ms, and a later attempt never waits less than half of what
    an earlier one may have waited. *)
Theorem transactionRetryDelayMs_bounds (attempt later random random' : Z)
    (Hr : random_ok random) (Hr' : random_ok random') (Hl : attempt <= later) :
  retry_step attempt <= 2 * transactionRetryDelayMs attempt random
  /\ transactionRetryDelayMs attempt random <= retry_step attempt
  /\ 5 <= transactionRetryDelayMs attempt random <= 200
  /\ transactionRetryDelayMs attempt random <= 2 * transactionRetryDelayMs later random'.
Proof.
  assert (Hb : forall a r, random_ok r ->
            retry_step a <= 2 * transactionRetryDelayMs a r /\ transactionRetryDelayMs a r <= retry_step a).
  { intros a r [Hlo Hhi]. unfold transactionRetryDelayMs, round_div.
    pose proof (retry_step_bounds a) as Hs. set (s := retry_step a) in *.
    assert (Hd : 0 < random_den) by done. set (d := random_den) in *. clearbody s d.
    split.
    - assert (s <= 2 * ((2 * (s * d + s * r) + 2 * d) / (2 * (2 * d)))); [|done].
      pose proof (Z.div_mod (2 * (s * d + s * r) + 2 * d) (2 * (2 * d))) as Hdm.
      pose proof (Z.mod_pos_bound (2 * (s * d + s * r) + 2 * d) (2 * (2 * d))). nia.
    - apply Z.lt_succ_r, Z.div_lt_upper_bound; nia. }
  pose proof (Hb attempt random Hr). pose proof (Hb later random' Hr').
  pose proof (retry_step_bounds attempt). pose proof (retry_step_mono attempt later Hl). lia.
Qed.

Lemma transactionRetryDelayMs_bounds_witness :
  retry_step 3 <= 2 * transactionRetryDelayMs 3 0
  /\ transactionRetryDelayMs 3 0 <= retry_step 3
  /\ 5 <= transactionRetryDelayMs 3 0 <= 200
  /\ transactionRetryDelayMs 3 0 <= 2 * transactionRetryDelayMs 9 (2 ^ 52).
Proof. apply (transactionRetryDelayMs_bounds 3 9 0 (2 ^ 52)); unfold random_ok, random_den; lia. Defined.

Fixpoint take_while {A} (p : A -> bool) (l : list A) : list A :=
  match l with
  | [] => []
  | x :: l' => if p x then x :: take_while p l' else []
  end.

Lemma gated_runs_later options random e times g :
  1 < mg_attempts g ->
  gated_runs options random e times g = take_while (fun t => bool_decide (t < mg_deadline g)) times.
Proof.
  revert g. induction times as [|t times IH]; intros g Hg; simpl; [done|].
  unfold beforeAttempt. rewrite (bool_decide_eq_true_2 (0 < _)) by lia.
  rewrite (bool_decide_eq_false_2 (mg_attempts g = 1)) by lia.
  destruct (decide (t < mg_deadline g)) as [Hlt|Hge].
  - rewrite (bool_decide_eq_false_2 (_ <= t)), (bool_decide_eq_true_2 (t < _)) by lia.
    rewrite IH by (simpl; lia). done.
  - by rewrite (bool_decide_eq_true_2 (_ <= t)), (bool_decide_eq_false_2 (t < _)) by lia.
Qed.

(** MongoDB's re-runs are bounded by a wall clock that starts with the
    first of them. The first run always starts, whenever it comes; the others
    start exactly while less than the budget has passed since the first re-run,
    so time the first run spent is not charged; and with [retry: false] no
    re-run starts at all. *)
Theorem mongo_gate_budget (options : MongoContentionGateOptions) (random first second : Z) (e : exn)
    (rest : list Z) :
  gated_runs options random e [first] createMongoContentionGate = [first]
  /\ gated_runs options random e (first :: second :: rest) createMongoContentionGate
     = first :: take_while (fun t => bool_decide (t < second + gate_budgetMs options)) (second :: rest)
  /\ (mg_retry options = Some false ->
      gated_runs options random e (first :: second :: rest) createMongoContentionGate = [first]).
Proof.
  assert (Hspec : gated_runs options random e (first :: second :: rest) createMongoContentionGate
     = first :: take_while (fun t => bool_decide (t < second + gate_budgetMs options)) (second :: rest)).
  { simpl. f_equal. unfold beforeAttempt. simpl.
    destruct (decide (second < second + gate_budgetMs options)) as [Hlt|Hge].
    - rewrite (bool_decide_eq_false_2 (_ <= second)), (bool_decide_eq_true_2 (second < _)) by lia.
      by rewrite gated_runs_later.
    - by rewrite (bool_decide_eq_true_2 (_ <= second)), (bool_decide_eq_false_2 (second < _)) by lia. }
  split_and!; [done|done|]. intros Hr. rewrite Hspec. simpl. unfold gate_budgetMs. rewrite Hr.
  by rewrite bool_decide_eq_false_2 by lia.
Qed.

(** A database that is contended twice and then free: three runs. *)
Example contended_twice :
  let opts := {| tr_driver := postgres; tr_retryable := fun e => negb (isNexusError e);
                 tr_retry := None; tr_attempts := None |} in
  let env n := {| t_rivals := fun d => d; t_now := 0; t_ids := fun _ => EmptyString; t_random := 0;
                  t_fault := if bool_decide (n < 3)%nat then Some "40001"%string else None;
                  t_smtp := SmtpAccepted; t_stopping := false;
                  t_nonce := EmptyString |} in
  (runWithTransactionRetry sample_body opts (world_of db_empty env [])).1 = Ok (Some tt).
Proof. vm_compute. reflexivity. Qed.
