(* ===== verification/LruCache.v ===== *)
(** * The LRU cache

    [server/src/lib/lru-cache.ts]: a cache bounded by entry count and by total
    size. The [Map] is the list of its entries in insertion order, the least
    recently used first. *)

From S2P Require Import Prelude.
Open Scope Z_scope.

Record LruCacheOptions : Type := {
  maxEntries : Z;
  maxBytes : Z;
}.

Record LruCacheStats : Type := {
  st_hits : Z;
  st_misses : Z;
  st_entries : Z;
  st_bytes : Z;
}.

Section Lru.
Context {V : Type}.

Record Entry : Type := {
  value : V;
  size : Z;
}.

Record LruCache : Type := {
  options : LruCacheOptions;
  entries : list (string * Entry);
  bytes : Z;
  hits : Z;
  misses : Z;
}.

Definition lru_new (o : LruCacheOptions) : LruCache :=
  {| options := o; entries := []; bytes := 0; hits := 0; misses := 0 |}.

(** [Map.get], [Map.delete] and [Map.set] of a new key. *)
Definition map_get (key : string) (l : list (string * Entry)) : option Entry :=
  snd <$> head (filter (fun p => p.1 = key) l).

Definition map_delete (key : string) (l : list (string * Entry)) : list (string * Entry) :=
  filter (fun p => p.1 <> key) l.

Definition get (key : string) (c : LruCache) : option V * LruCache :=
  match map_get key (entries c) with
  | None =>
      (None, {| options := options c; entries := entries c; bytes := bytes c;
                hits := hits c; misses := misses c + 1 |})
  | Some entry =>
      (Some (value entry),
       {| options := options c; entries := map_delete key (entries c) ++ [(key, entry)];
          bytes := bytes c; hits := hits c + 1; misses := misses c |})
  end.

(** The eviction loop: drop the front while a bound is exceeded. *)
Fixpoint evict (o : LruCacheOptions) (l : list (string * Entry)) (total : Z)
    : list (string * Entry) * Z :=
  match l with
  | [] => ([], total)
  | (_, oldest) :: rest =>
      if bool_decide (maxEntries o < Z.of_nat (length l)) || bool_decide (maxBytes o < total)
      then evict o rest (total - size oldest)
      else (l, total)
  end.

Definition set (key : string) (v : V) (sz : jsnum) (c : LruCache) : LruCache :=
  let '(entries1, bytes1) :=
    match map_get key (entries c) with
    | Some existing => (map_delete key (entries c), bytes c - size existing)
    | None => (entries c, bytes c)
    end in
  match sz with
  | Fin n =>
      if bool_decide (maxEntries (options c) <= 0) || bool_decide (maxBytes (options c) <= 0)
         || bool_decide (maxBytes (options c) < n) || bool_decide (n < 0)
      then {| options := options c; entries := entries1; bytes := bytes1;
              hits := hits c; misses := misses c |}
      else
        let '(entries2, bytes2) :=
          evict (options c) (entries1 ++ [(key, {| value := v; size := n |})]) (bytes1 + n) in
        {| options := options c; entries := entries2; bytes := bytes2;
           hits := hits c; misses := misses c |}
  | PosInf | NegInf | NaN =>
      {| options := options c; entries := entries1; bytes := bytes1;
         hits := hits c; misses := misses c |}
  end.

Definition clear (c : LruCache) : LruCache :=
  {| options := options c; entries := []; bytes := 0; hits := hits c; misses := misses c |}.

Definition stats (c : LruCache) : LruCacheStats := {|
  st_hits := hits c; st_misses := misses c;
  st_entries := Z.of_nat (length (entries c)); st_bytes := bytes c;
|}.

(** ** The invariant *)

Definition total_size (l : list (string * Entry)) : Z :=
  foldr (fun p acc => size p.2 + acc) 0 l.

Record lru_wf (c : LruCache) : Prop := {
  wf_keys : NoDup (entries c).*1;
  wf_bytes : bytes c = total_size (entries c);
  wf_sizes : Forall (fun p => 0 <= size p.2) (entries c);
  wf_count : Z.of_nat (length (entries c)) <= Z.max 0 (maxEntries (options c));
  wf_total : bytes c <= Z.max 0 (maxBytes (options c));
}.

(** ** Lemmas *)

Lemma total_size_app l1 l2 : total_size (l1 ++ l2) = total_size l1 + total_size l2.
Proof. induction l1 as [|p l1 IH]; simpl; [done|]. rewrite IH. lia. Qed.

Lemma total_size_nonneg l : Forall (fun p => 0 <= size p.2) l -> 0 <= total_size l.
Proof. induction 1; simpl; lia. Qed.

Lemma map_get_None key l : map_get key l = None <-> key ∉ l.*1.
Proof.
  unfold map_get. induction l as [|[k e] l IH]; simpl; [set_solver|].
  rewrite filter_cons. simpl. case_decide as Hk; simpl; [set_solver|].
  rewrite IH. set_solver.
Qed.

Lemma map_delete_notin key l : key ∉ l.*1 -> map_delete key l = l.
Proof.
  unfold map_delete. induction l as [|[k e] l IH]; simpl; intros Hn; [done|].
  rewrite filter_cons. simpl. rewrite decide_True by set_solver. rewrite IH by set_solver. done.
Qed.

(** A key that is present splits the list around its entry. *)
Lemma map_get_Some key l e :
  NoDup l.*1 -> map_get key l = Some e ->
  exists l1 l2, l = l1 ++ (key, e) :: l2 /\ map_delete key l = l1 ++ l2 /\ key ∉ (l1 ++ l2).*1.
Proof.
  unfold map_get, map_delete. induction l as [|[k e'] l IH]; simpl; intros Hnd Hg; [done|].
  apply NoDup_cons in Hnd as [Hk Hnd]. rewrite filter_cons in Hg |- *. simpl in *.
  case_decide as Heq; subst; simpl in *.
  - injection Hg as <-. exists [], l. rewrite decide_False by auto. simpl. split_and!; [done| |done].
    by apply map_delete_notin.
  - destruct (IH Hnd Hg) as (l1 & l2 & -> & Hd & Hn).
    exists ((k, e') :: l1), l2. rewrite decide_True by done. rewrite Hd. split_and!; [done..|].
    simpl. set_solver.
Qed.

(** The loop keeps a suffix: the shortest prefix whose removal restores both
    bounds is dropped. *)
Lemma evict_spec o l total l' total' :
  evict o l total = (l', total') -> total = total_size l ->
  exists dropped, l = dropped ++ l' /\ total' = total_size l'
    /\ (l' = [] \/ Z.of_nat (length l') <= maxEntries o /\ total' <= maxBytes o)
    /\ (forall d x m, dropped = d ++ x :: m ->
          maxEntries o < Z.of_nat (length (x :: m ++ l')) \/ maxBytes o < total_size (x :: m ++ l')).
Proof.
  revert total. induction l as [|[k e] l IH]; intros total He Ht; simpl in He.
  - injection He as <- <-. exists []. split_and!; [done..|by left|by intros []].
  - destruct (_ || _)%bool eqn:Hc.
    + destruct (IH _ He) as (dropped & -> & Ht' & Hor & Hmin); [simpl in Ht; lia|].
      exists ((k, e) :: dropped). split_and!; [done..|].
      intros d x m Hd. destruct d as [|y d]; simpl in Hd; simplify_eq.
      * apply orb_true_iff in Hc as [Hc|Hc]; bool_to_prop; [left|right]; done.
      * by apply (Hmin d x m).
    + injection He as <- <-. bool_to_prop. exists []. split_and!; [done..| |].
      * right. simpl. lia.
      * by intros [].
Qed.

Lemma lru_wf_new o : lru_wf (lru_new o).
Proof. split; simpl; [constructor|done|constructor|lia|lia]. Qed.

Lemma lru_wf_clear c : lru_wf c -> lru_wf (clear c).
Proof. intros _. split; simpl; [constructor|done|constructor|lia|lia]. Qed.

Lemma total_size_perm l1 l2 : l1 ≡ₚ l2 -> total_size l1 = total_size l2.
Proof. unfold total_size. induction 1; simpl; lia. Qed.

Lemma snoc_perm (l1 l2 : list (string * Entry)) x : (l1 ++ l2) ++ [x] ≡ₚ l1 ++ x :: l2.
Proof. by rewrite <- (assoc_L (++)), (Permutation_app_comm l2 [x]). Qed.

Lemma lru_wf_get key c : lru_wf c -> lru_wf (get key c).2.
Proof.
  intros [Hk Hb Hs Hc Ht]. unfold get.
  destruct (map_get key (entries c)) as [e|] eqn:Hg; simpl; [|by split].
  destruct (map_get_Some key (entries c) e Hk Hg) as (l1 & l2 & Hl & Hd & Hn).
  assert (Hp : map_delete key (entries c) ++ [(key, e)] ≡ₚ entries c)
    by (rewrite Hd, Hl; apply snoc_perm).
  split; simpl.
  - by rewrite Hp.
  - rewrite Hb. by apply total_size_perm.
  - by rewrite Hp.
  - by rewrite Hp.
  - done.
Qed.

(** What [set] starts from: the cache without the key. *)
Definition without (key : string) (c : LruCache) : list (string * Entry) * Z :=
  match map_get key (entries c) with
  | Some existing => (map_delete key (entries c), bytes c - size existing)
  | None => (entries c, bytes c)
  end.

Lemma without_spec key c :
  lru_wf c ->
  (without key c).1 = map_delete key (entries c)
  /\ (without key c).2 = total_size (without key c).1
  /\ (key ∉ (without key c).1.*1)
  /\ NoDup (without key c).1.*1
  /\ Forall (fun p => 0 <= size p.2) (without key c).1
  /\ (length (without key c).1 <= length (entries c))%nat
  /\ (without key c).2 <= bytes c.
Proof.
  intros [Hk Hb Hs Hc Ht]. unfold without.
  destruct (map_get key (entries c)) as [e|] eqn:Hg; simpl.
  - destruct (map_get_Some key (entries c) e Hk Hg) as (l1 & l2 & Hl & -> & Hn).
    rewrite Hb, Hl, <- (total_size_perm _ _ (snoc_perm l1 l2 (key, e))), total_size_app. simpl.
    rewrite Hl, <- snoc_perm, fmap_app in Hk. rewrite Hl, <- snoc_perm in Hs.
    apply NoDup_app in Hk as [Hk _]. apply Forall_app in Hs as [Hs1 Hs2].
    apply Forall_cons in Hs2 as [Hs2 _]. simpl in Hs2.
    split_and!; [done|lia|done|done|done|rewrite !length_app; simpl; lia|lia].
  - apply map_get_None in Hg. rewrite map_delete_notin by done. split_and!; try done; lia.
Qed.

(** Whether [set] stores the value. *)
Definition admissible (sz : jsnum) (c : LruCache) : bool :=
  match sz with
  | Fin n => bool_decide (0 < maxEntries (options c)) && bool_decide (0 < maxBytes (options c))
             && bool_decide (n <= maxBytes (options c)) && bool_decide (0 <= n)
  | _ => false
  end.

Lemma set_unfold key v sz c :
  set key v sz c =
    let '(l, total) :=
      match sz with
      | Fin n =>
          if admissible sz c
          then evict (options c) ((without key c).1 ++ [(key, {| value := v; size := n |})])
                 ((without key c).2 + n)
          else without key c
      | _ => without key c
      end in
    {| options := options c; entries := l; bytes := total; hits := hits c; misses := misses c |}.
Proof.
  unfold set, without. destruct (match map_get key (entries c) with Some _ => _ | None => _ end) as [l1 b1].
  destruct sz as [n| | |]; simpl; [|done..].
  repeat (case_bool_decide; simpl; try lia); done.
Qed.

(** The entries [set] leaves when it stores the value. *)
Lemma set_admissible key v n c :
  lru_wf c -> admissible (Fin n) c = true ->
  exists dropped kept,
    map_delete key (entries c) = dropped ++ kept
    /\ entries (set key v (Fin n) c) = kept ++ [(key, {| value := v; size := n |})]
    /\ bytes (set key v (Fin n) c) = total_size (entries (set key v (Fin n) c))
    /\ Z.of_nat (length (entries (set key v (Fin n) c))) <= maxEntries (options c)
    /\ bytes (set key v (Fin n) c) <= maxBytes (options c)
    /\ (forall d x m, dropped = d ++ x :: m ->
          maxEntries (options c) < Z.of_nat (length (x :: m ++ entries (set key v (Fin n) c)))
          \/ maxBytes (options c) < total_size (x :: m ++ entries (set key v (Fin n) c))).
Proof.
  intros Hwf Ha. rewrite set_unfold, Ha.
  destruct (without_spec key c Hwf) as (Hd & Hb & Hn & Hnd & Hs & Hl & Hle).
  destruct (evict _ _ _) as [l total] eqn:He. simpl.
  set (new := (key, {| value := v; size := n |})) in *.
  apply evict_spec in He as (dropped & Hsplit & -> & Hor & Hmin);
    [|rewrite total_size_app, <- Hb; simpl; lia].
  unfold admissible in Ha. bool_to_prop.
  assert (Hkept : exists kept, l = kept ++ [new] /\ (without key c).1 = dropped ++ kept).
  { destruct l as [|x l _] using rev_ind.
    - exfalso. rewrite app_nil_r in Hsplit. subst dropped.
      destruct (Hmin _ new [] eq_refl) as [Hm|Hm]; simpl in Hm; lia.
    - rewrite (assoc_L (++)) in Hsplit. apply app_inj_tail in Hsplit as [Hk <-]. eauto. }
  destruct Hkept as (kept & -> & Hk). exists dropped, kept.
  destruct Hor as [Hnil|[Hc Ht]]; [by destruct kept|].
  rewrite <- Hd, Hk. split_and!; done.
Qed.

Lemma lru_wf_set key v sz c : lru_wf c -> lru_wf (set key v sz c).
Proof.
  intros Hwf. destruct (without_spec key c Hwf) as (Hd & Hb & Hn & Hnd & Hs & Hl & Hle).
  pose proof Hwf as [Hk0 Hb0 Hs0 Hc0 Ht0].
  destruct (admissible sz c) eqn:Ha.
  - destruct sz as [n| | |]; [|done..].
    destruct (set_admissible key v n c Hwf Ha) as (dropped & kept & Hdel & He & Hby & Hct & Hto & _).
    assert (Ho : options (set key v (Fin n) c) = options c)
      by (rewrite set_unfold, Ha; by destruct (evict _ _ _)).
    rewrite <- Hd in Hdel. rewrite Hdel in Hn, Hnd, Hs. rewrite fmap_app in Hn, Hnd.
    apply NoDup_app in Hnd as (_ & _ & Hnd). apply Forall_app in Hs as [_ Hs].
    unfold admissible in Ha. bool_to_prop. split.
    + rewrite He, fmap_app. apply NoDup_app. split_and!; [done| |apply NoDup_singleton].
      intros k Hin ->%list_elem_of_singleton. apply Hn. set_solver.
    + done.
    + rewrite He. apply Forall_app. split; [done|]. by apply Forall_singleton.
    + rewrite Ho. lia.
    + rewrite Ho. lia.
  - assert (Hset : set key v sz c = {| options := options c; entries := (without key c).1;
                     bytes := (without key c).2; hits := hits c; misses := misses c |}).
    { rewrite set_unfold. destruct sz; [rewrite Ha|..]; by destruct (without key c). }
    rewrite Hset. split; simpl; [done..|lia|lia].
Qed.
End Lru.
Arguments Entry V : clear implicits.
Arguments LruCache V : clear implicits.

(** ** Every sequence of calls *)

Inductive lru_call (V : Type) : Type :=
| CallGet (key : string)
| CallSet (key : string) (v : V) (sz : jsnum)
| CallClear.
Arguments CallGet {V} key.
Arguments CallSet {V} key v sz.
Arguments CallClear {V}.

Definition lru_run_call {V} (c : LruCache V) (call : lru_call V) : LruCache V :=
  match call with
  | CallGet key => (get key c).2
  | CallSet key v sz => set key v sz c
  | CallClear => clear c
  end.

Definition lru_run {V} (o : LruCacheOptions) (calls : list (lru_call V)) : LruCache V :=
  foldl lru_run_call (lru_new o) calls.

Lemma lru_run_wf {V} o (calls : list (lru_call V)) :
  lru_wf (lru_run o calls) /\ options (lru_run o calls) = o.
Proof.
  unfold lru_run. induction calls as [|call calls IH] using rev_ind; simpl.
  - split; [apply lru_wf_new|done].
  - rewrite foldl_app. simpl. destruct IH as [Hwf Ho]. set (c := foldl _ _ calls) in *.
    destruct call as [key|key v sz|]; simpl.
    + split; [by apply lru_wf_get|]. rewrite <- Ho. unfold get. by destruct (map_get key (entries c)).
    + split; [by apply lru_wf_set|]. rewrite <- Ho, set_unfold. simpl. by case_match.
    + split; [by apply lru_wf_clear|done].
Qed.

Lemma map_get_snoc {V} key (l : list (string * Entry V)) e :
  key ∉ l.*1 -> map_get key (l ++ [(key, e)]) = Some e.
Proof.
  intros Hn. unfold map_get. rewrite filter_app. apply map_get_None in Hn. unfold map_get in Hn.
  destruct (filter _ l) as [|x l']; [|done]. simpl. by rewrite filter_cons, decide_True.
Qed.

Definition sample_cache_options : LruCacheOptions := {| maxEntries := 2; maxBytes := 10 |}.

(** A cache of two entries: ["b"] is the least recently used. *)
Definition sample_calls : list (lru_call Z) :=
  [CallSet "a" 1 (Fin 3); CallSet "b" 2 (Fin 4); CallGet "a"].

(** ** Properties *)

(** The cache never exceeds its bounds. After any sequence of calls, with
    any sizes, it holds at most [maxEntries] entries of at most [maxBytes] in
    total, its byte counter is the sum of the sizes it holds, no key has two
    entries, and a cache with a bound of zero or less is empty. *)
Theorem lru_bounded {V} (o : LruCacheOptions) (calls : list (lru_call V)) :
  Z.of_nat (length (entries (lru_run o calls))) <= Z.max 0 (maxEntries o)
  /\ bytes (lru_run o calls) <= Z.max 0 (maxBytes o)
  /\ bytes (lru_run o calls) = total_size (entries (lru_run o calls))
  /\ 0 <= bytes (lru_run o calls)
  /\ NoDup (entries (lru_run o calls)).*1
  /\ (maxEntries o <= 0 -> entries (lru_run o calls) = []).
Proof.
  destruct (lru_run_wf o calls) as [[Hk Hb Hs Hc Ht] Ho]. rewrite Ho in Hc, Ht.
  split_and!; [done..| |done|].
  - rewrite Hb. by apply total_size_nonneg.
  - intros H0. apply nil_length_inv. lia.
Qed.

(** [set] makes room by dropping the least recently used entries, and no
    more than it must. After any calls, storing a value that fits keeps the
    value as the most recently used entry, where [get] finds it; of the other
    entries, in their order of use, a prefix is dropped, and every entry of that
    prefix had to go: with it, a bound would still be exceeded. A value that
    does not fit is not stored, and only the old entry of its key is gone. *)
Theorem lru_set_spec {V} (o : LruCacheOptions) (calls : list (lru_call V)) (key : string) (v : V)
    (sz : jsnum) :
  let c := lru_run o calls in
  match sz, admissible sz c with
  | Fin n, true =>
      exists dropped kept,
        map_delete key (entries c) = dropped ++ kept
        /\ entries (set key v sz c) = kept ++ [(key, {| value := v; size := n |})]
        /\ (get key (set key v sz c)).1 = Some v
        /\ (forall d x m, dropped = d ++ x :: m ->
             maxEntries o < Z.of_nat (length (x :: m ++ entries (set key v sz c)))
             \/ maxBytes o < total_size (x :: m ++ entries (set key v sz c)))
  | _, _ =>
      entries (set key v sz c) = map_delete key (entries c)
      /\ (get key (set key v sz c)).1 = None
  end.
Proof.
  intros c. destruct (lru_run_wf o calls) as [Hwf Ho]. fold c in Hwf, Ho.
  assert (Hno : admissible sz c = false ->
            entries (set key v sz c) = map_delete key (entries c)
            /\ (get key (set key v sz c)).1 = None).
  { intros Ha. destruct (without_spec key c Hwf) as (Hd & _ & Hn & _).
    assert (He : entries (set key v sz c) = (without key c).1).
    { rewrite set_unfold. destruct sz; [rewrite Ha|..]; by destruct (without key c). }
    split; [by rewrite He|]. unfold get. rewrite He. apply map_get_None in Hn. by rewrite Hn. }
  destruct sz as [n| | |]; [|by apply Hno..]. destruct (admissible (Fin n) c) eqn:Ha; [|by apply Hno].
  destruct (set_admissible key v n c Hwf Ha) as (dropped & kept & Hd & He & _ & _ & _ & Hmin).
  exists dropped, kept. rewrite Ho in Hmin. split_and!; [done|done| |done].
  unfold get. rewrite He.
  destruct (without_spec key c Hwf) as (Hd2 & _ & Hn & _). rewrite Hd2, Hd, fmap_app in Hn.
  rewrite map_get_snoc by set_solver. done.
Qed.

(** The least recently used entry makes room. *)
Example sample_eviction :
  map fst (entries (set "c" 3 (Fin 4) (lru_run sample_cache_options sample_calls))) = ["a"; "c"]%string.
Proof. vm_compute. reflexivity. Qed.
