(* ===== verification/RevisionMemo.v ===== *)
(** * The revision memo

    [server/src/lib/revision-memo.ts] as a state machine: the memo's [cached]
    and [pending] variables, the assemblies it started (the calls of [run]) and
    the calls of [load], one synchronous stretch of code per step. *)

From S2P Require Import Prelude.
Open Scope Z_scope.

(** The value an assembly produces is known by the revisions its reads saw, in
    order: it is current when they all saw the current one. *)
Inductive asm_state : Type := ARunning | AResolved | ARejected.

#[export] Instance asm_state_eq_dec : EqDecision asm_state.
Proof. solve_decision. Defined.

Record assembly : Type := {
  a_revision : Z;
  a_checkedAt : Z;
  a_reads : list Z;
  a_state : asm_state;
}.

(** A call of [load]: waiting for an assembly under the revision it read, or
    over, with the value, its [checkedAt], and when and under what revision it
    returned. *)
Inductive load_state : Type :=
| LWaiting (revision : Z) (assembly : nat)
| LReturned (reads : list Z) (checkedAt at_ revision : Z)
| LThrew.

Record cached_value : Type := {
  c_reads : list Z;
  c_checkedAt : Z;
  c_expiresAt : Z;
  c_revision : Z;
}.

Record pending_assembly : Type := {
  p_revision : Z;
  p_promise : nat;
}.

Record memo : Type := {
  m_revision : Z;
  m_now : Z;
  m_cached : option cached_value;
  m_pending : option pending_assembly;
  m_assemblies : list assembly;
  m_loads : list load_state;
}.

Section Memo.
Context (ttlMs : Z).

Definition memo_init (revision now : Z) : memo := {|
  m_revision := revision; m_now := now; m_cached := None; m_pending := None;
  m_assemblies := []; m_loads := [];
|}.

(** A new assembly: [run] is called and its promise is pending. *)
Definition start_assembly (s : memo) : memo * load_state :=
  let revision := m_revision s in
  let promise := length (m_assemblies s) in
  ({| m_revision := m_revision s; m_now := m_now s; m_cached := m_cached s;
      m_pending := Some {| p_revision := revision; p_promise := promise |};
      m_assemblies := m_assemblies s ++
        [{| a_revision := revision; a_checkedAt := m_now s; a_reads := []; a_state := ARunning |}];
      m_loads := m_loads s |}, LWaiting revision promise).

(** The synchronous part of [load], up to its [await]: the new state of the
    call. *)
Definition load (s : memo) : memo * load_state :=
  let revision := m_revision s in
  let miss :=
    match m_pending s with
    | Some p => if bool_decide (p_revision p = revision)
                then (s, LWaiting revision (p_promise p))
                else start_assembly s
    | None => start_assembly s
    end in
  match m_cached s with
  | Some c =>
      if bool_decide (c_revision c = revision) && bool_decide (m_now s < c_expiresAt c)
      then (s, LReturned (c_reads c) (c_checkedAt c) (m_now s) revision)
      else miss
  | None => miss
  end.

Definition set_loads (ls : list load_state) (s : memo) : memo := {|
  m_revision := m_revision s; m_now := m_now s; m_cached := m_cached s; m_pending := m_pending s;
  m_assemblies := m_assemblies s; m_loads := ls |}.

Definition set_assemblies (l : list assembly) (s : memo) : memo := {|
  m_revision := m_revision s; m_now := m_now s; m_cached := m_cached s; m_pending := m_pending s;
  m_assemblies := l; m_loads := m_loads s |}.

Definition asm_read (revision : Z) (a : assembly) : assembly := {|
  a_revision := a_revision a; a_checkedAt := a_checkedAt a; a_reads := a_reads a ++ [revision];
  a_state := a_state a |}.

Definition asm_settle (st : asm_state) (a : assembly) : assembly := {|
  a_revision := a_revision a; a_checkedAt := a_checkedAt a; a_reads := a_reads a;
  a_state := st |}.

(** The [finally] of an assembly. *)
Definition clear_pending (i : nat) (p : option pending_assembly) : option pending_assembly :=
  match p with
  | Some q => if bool_decide (p_promise q = i) then None else p
  | None => None
  end.

(** The end of an assembly: the cache is filled unless a write came between, and
    the promise settles. *)
Definition finish (i : nat) (a : assembly) (s : memo) : memo := {|
  m_revision := m_revision s; m_now := m_now s;
  m_cached :=
    if bool_decide (m_revision s = a_revision a)
    then Some {| c_reads := a_reads a; c_checkedAt := a_checkedAt a;
                 c_expiresAt := m_now s + ttlMs; c_revision := a_revision a |}
    else m_cached s;
  m_pending := clear_pending i (m_pending s);
  m_assemblies := alter (asm_settle AResolved) i (m_assemblies s);
  m_loads := m_loads s |}.

Definition reject (i : nat) (s : memo) : memo := {|
  m_revision := m_revision s; m_now := m_now s; m_cached := m_cached s;
  m_pending := clear_pending i (m_pending s);
  m_assemblies := alter (asm_settle ARejected) i (m_assemblies s);
  m_loads := m_loads s |}.

(** What a waiting call does once its assembly has settled. *)
Definition resume (i : nat) (revision : Z) (a : assembly) (s : memo) : memo :=
  match a_state a with
  | ARejected => set_loads (<[i := LThrew]> (m_loads s)) s
  | _ =>
      if bool_decide (m_revision s = revision)
      then set_loads (<[i := LReturned (a_reads a) (a_checkedAt a) (m_now s) (m_revision s)]>
                        (m_loads s)) s
      else let '(s', l) := load s in set_loads (<[i := l]> (m_loads s')) s'
  end.

Inductive memo_step : memo -> memo -> Prop :=
| memo_write n s : 0 < n ->
    memo_step s {| m_revision := m_revision s + n; m_now := m_now s; m_cached := m_cached s;
                   m_pending := m_pending s; m_assemblies := m_assemblies s; m_loads := m_loads s |}
| memo_tick n s : 0 < n ->
    memo_step s {| m_revision := m_revision s; m_now := m_now s + n; m_cached := m_cached s;
                   m_pending := m_pending s; m_assemblies := m_assemblies s; m_loads := m_loads s |}
| memo_call s :
    memo_step s (set_loads (m_loads (load s).1 ++ [(load s).2]) (load s).1)
| memo_read i a s :
    m_assemblies s !! i = Some a -> a_state a = ARunning ->
    memo_step s (set_assemblies (alter (asm_read (m_revision s)) i (m_assemblies s)) s)
| memo_finish i a s :
    m_assemblies s !! i = Some a -> a_state a = ARunning -> memo_step s (finish i a s)
| memo_reject i a s :
    m_assemblies s !! i = Some a -> a_state a = ARunning -> memo_step s (reject i s)
| memo_resume i j revision a s :
    m_loads s !! i = Some (LWaiting revision j) -> m_assemblies s !! j = Some a ->
    a_state a <> ARunning -> memo_step s (resume i revision a s).

(** ** The invariant *)

(** An assembly's reads saw revisions from its own up to the current one. *)
Definition asm_ok (revision : Z) (a : assembly) : Prop :=
  a_revision a <= revision /\ Forall (fun r => a_revision a <= r <= revision) (a_reads a).

Definition load_ok (assemblies : list assembly) (l : load_state) : Prop :=
  match l with
  | LWaiting revision j => exists a, assemblies !! j = Some a /\ a_revision a = revision
  | LReturned reads _ _ revision => Forall (eq revision) reads
  | LThrew => True
  end.

Record memo_inv (s : memo) : Prop := {
  mi_asm : Forall (asm_ok (m_revision s)) (m_assemblies s);
  mi_cached : forall c, m_cached s = Some c ->
    c_revision c <= m_revision s /\ Forall (eq (c_revision c)) (c_reads c);
  mi_pending : forall p, m_pending s = Some p ->
    exists a, m_assemblies s !! p_promise p = Some a /\ a_revision a = p_revision p
      /\ a_state a = ARunning;
  mi_running : forall i a, m_assemblies s !! i = Some a -> a_state a = ARunning ->
    a_revision a = m_revision s ->
    m_pending s = Some {| p_revision := m_revision s; p_promise := i |};
  mi_loads : Forall (load_ok (m_assemblies s)) (m_loads s);
}.
End Memo.

(** ** Lemmas *)

Lemma asm_ok_mono r r' a : r <= r' -> asm_ok r a -> asm_ok r' a.
Proof.
  intros Hr [Ha Hreads]. split; [lia|].
  eapply Forall_impl; [exact Hreads|]. simpl. intros x Hx. lia.
Qed.

(** Calls only look at the revisions of the assemblies they wait for, which
    never change. *)
Definition same_revisions (l l' : list assembly) : Prop :=
  forall j a, l !! j = Some a -> exists a', l' !! j = Some a' /\ a_revision a' = a_revision a.

Lemma load_ok_mono l l' ls : same_revisions l l' -> load_ok l ls -> load_ok l' ls.
Proof.
  intros Hs. destruct ls as [revision j| |]; simpl; [|done..].
  intros (a & Ha & Hr). destruct (Hs j a Ha) as (a' & Ha' & Hr'). exists a'. split; congruence.
Qed.

Lemma same_revisions_app l l' : same_revisions l (l ++ l').
Proof. intros j a Ha. exists a. split; [by apply lookup_app_l_Some|done]. Qed.

Lemma same_revisions_alter (f : assembly -> assembly) i l :
  (forall a, a_revision (f a) = a_revision a) -> same_revisions l (alter f i l).
Proof.
  intros Hf j a Ha. rewrite list_lookup_alter. case_decide as Hij; [subst|eauto].
  rewrite Ha. eauto.
Qed.

Lemma loads_mono l l' (ls : list load_state) :
  same_revisions l l' -> Forall (load_ok l) ls -> Forall (load_ok l') ls.
Proof. intros Hs Hl. eapply Forall_impl; [exact Hl|]. intros x. by apply load_ok_mono. Qed.

Lemma start_assembly_inv s :
  memo_inv s ->
  (forall p, m_pending s = Some p -> p_revision p <> m_revision s) ->
  memo_inv (start_assembly s).1
  /\ load_ok (m_assemblies (start_assembly s).1) (start_assembly s).2.
Proof.
  intros [Ha Hc Hp Hr Hl] Hnew. split; simpl.
  - split; simpl.
    + apply Forall_app. split; [done|]. apply Forall_singleton. split; simpl; [lia|done].
    + done.
    + intros p [= <-]. simpl. eexists. split; [by apply list_lookup_middle|done].
    + intros i a Hi Hs Hrev. apply lookup_app_Some in Hi as [Hi|[Hi Hx]].
      * exfalso. exact (Hnew _ (Hr i a Hi Hs Hrev) eq_refl).
      * apply list_lookup_singleton_Some in Hx as [Hx _]. do 2 f_equal. lia.
    + eapply loads_mono; [apply same_revisions_app|done].
  - eexists. split; [by apply list_lookup_middle|done].
Qed.

Lemma load_inv s :
  memo_inv s ->
  memo_inv (load s).1 /\ load_ok (m_assemblies (load s).1) (load s).2.
Proof.
  intros Hs. pose proof Hs as [Ha Hc Hp Hr Hl]. unfold load.
  assert (Hmiss : let m := match m_pending s with
      | Some p => if bool_decide (p_revision p = m_revision s)
                  then (s, LWaiting (m_revision s) (p_promise p)) else start_assembly s
      | None => start_assembly s end in
      memo_inv m.1 /\ load_ok (m_assemblies m.1) m.2).
  { destruct (m_pending s) as [p|] eqn:Hpen.
    - case_bool_decide as Hrev; simpl.
      + split; [done|]. destruct (Hp p eq_refl) as (a & Hl2 & Hr2 & _). exists a. split; congruence.
      + apply start_assembly_inv; [done|]. intros q Hq. congruence.
    - apply start_assembly_inv; [done|]. intros q Hq. congruence. }
  destruct (m_cached s) as [c|] eqn:Hcache; [|exact Hmiss].
  destruct (_ && _)%bool eqn:Hhit; [|exact Hmiss].
  bool_to_prop. simpl. split; [done|]. destruct (Hc c eq_refl) as [_ Hreads]. congruence.
Qed.

Lemma load_frame s :
  m_loads (load s).1 = m_loads s /\ m_revision (load s).1 = m_revision s.
Proof. unfold load, start_assembly. by repeat case_match. Qed.

(** The step of one call: [load] and the call's entry. *)
Lemma set_loads_inv s ls :
  memo_inv s -> Forall (load_ok (m_assemblies s)) ls -> memo_inv (set_loads ls s).
Proof. intros [Ha Hc Hp Hr Hl] Hls. by split. Qed.

(** The end of an assembly, whatever its outcome. *)
Lemma settle_inv s i a st cached :
  memo_inv s -> m_assemblies s !! i = Some a -> a_state a = ARunning -> st <> ARunning ->
  (forall c, cached = Some c ->
     c_revision c <= m_revision s /\ Forall (eq (c_revision c)) (c_reads c)) ->
  memo_inv {| m_revision := m_revision s; m_now := m_now s; m_cached := cached;
              m_pending := clear_pending i (m_pending s);
              m_assemblies := alter (asm_settle st) i (m_assemblies s); m_loads := m_loads s |}.
Proof.
  intros [Ha Hc Hp Hr Hl] Hi Hrun Hst Hcached. split; simpl.
  - apply Forall_alter; [done|]. intros b _ Hb. exact Hb.
  - done.
  - intros p Hpen. unfold clear_pending in Hpen.
    destruct (m_pending s) as [q|] eqn:Hq; [|done]. case_bool_decide as Hqi; [done|].
    injection Hpen as <-. destruct (Hp q eq_refl) as (b & Hb & ? & ?).
    exists b. rewrite list_lookup_alter_ne by congruence. done.
  - intros j b Hj Hb Hrev. rewrite list_lookup_alter in Hj. case_decide as Hij.
    + subst j. rewrite Hi in Hj. injection Hj as <-. by simpl in Hb.
    + rewrite (Hr j b Hj Hb Hrev). simpl. by rewrite bool_decide_eq_false_2.
  - eapply loads_mono; [by apply same_revisions_alter|done].
Qed.

Lemma finish_cached ttlMs s i a c :
  memo_inv s -> m_assemblies s !! i = Some a ->
  m_cached (finish ttlMs i a s) = Some c ->
  c_revision c <= m_revision s /\ Forall (eq (c_revision c)) (c_reads c).
Proof.
  intros [Ha Hc Hp Hr Hl] Hi. simpl. case_bool_decide as Hrev; [|apply Hc].
  intros [= <-]. simpl. pose proof (Forall_lookup_1 _ _ _ _ Ha Hi) as [Hle Hreads].
  split; [done|]. eapply Forall_impl; [exact Hreads|]. simpl. intros x Hx. lia.
Qed.

Lemma memo_inv_step ttlMs s s' : memo_step ttlMs s s' -> memo_inv s -> memo_inv s'.
Proof.
  intros Hstep Hs. pose proof Hs as [Ha Hc Hp Hr Hl]. destruct Hstep as
    [n s Hn|n s Hn|s|i a s Hi Hrun|i a s Hi Hrun|i a s Hi Hrun|i j revision a s Hi Hj Hst].
  - split; simpl; [| | | |done].
    + eapply Forall_impl; [exact Ha|]. intros x. apply asm_ok_mono. lia.
    + intros c Hcc. destruct (Hc c Hcc). split; [lia|done].
    + done.
    + intros i a Hi _ Hrev. pose proof (Forall_lookup_1 _ _ _ _ Ha Hi) as [Hle _]. lia.
  - by split.
  - destruct (load_inv s Hs) as [Hs' Hok]. destruct (load_frame s) as [Hls _].
    apply set_loads_inv; [done|]. rewrite Hls. apply Forall_app. split; [|by apply Forall_singleton].
    rewrite <- Hls. apply (mi_loads _ Hs').
  - split; simpl.
    + apply Forall_alter; [done|]. intros b _ [Hle Hreads]. split; simpl; [done|].
      apply Forall_app. split; [done|]. apply Forall_singleton. lia.
    + done.
    + intros p Hpen. destruct (Hp p Hpen) as (b & Hb & Hbr & Hbs).
      rewrite list_lookup_alter. case_decide as Hij; [|eauto]. subst i. rewrite Hb. simpl. eauto.
    + intros j b Hj Hb Hrev. rewrite list_lookup_alter in Hj. case_decide as Hij; [|eauto].
      subst j. rewrite Hi in Hj. injection Hj as <-. by eapply Hr.
    + eapply loads_mono; [by apply same_revisions_alter|done].
  - apply (settle_inv s i a); [done..|]. intros c. by apply (finish_cached ttlMs s i a c).
  - by apply (settle_inv s i a).
  - unfold resume. destruct (a_state a) eqn:Has; [done| |].
    + case_bool_decide as Hrev.
      * apply set_loads_inv; [done|]. apply Forall_insert; [done|].
        pose proof (Forall_lookup_1 _ _ _ _ Hl Hi) as (b & Hb & Hbr). rewrite Hj in Hb.
        injection Hb as <-. simpl. pose proof (Forall_lookup_1 _ _ _ _ Ha Hj) as [_ Hreads].
        eapply Forall_impl; [exact Hreads|]. simpl. intros x Hx. lia.
      * destruct (load_inv s Hs) as [Hs' Hok]. destruct (load s) as [s1 l1] eqn:Hload.
        simpl in *. apply set_loads_inv; [done|]. apply Forall_insert; [|done].
        apply (mi_loads _ Hs').
    + apply set_loads_inv; [done|]. by apply Forall_insert.
Qed.

Lemma memo_inv_reachable ttlMs revision now s :
  rtc (memo_step ttlMs) (memo_init revision now) s -> memo_inv s.
Proof.
  intros Hr. assert (H0 : memo_inv (memo_init revision now)) by (split; simpl; done).
  induction Hr as [|a b c Hab _ IH]; [done|]. apply IH. by eapply memo_inv_step.
Qed.

(** *** A sample run, for the witness

    A call starts an assembly, a write lands while it runs, and the call starts
    over. *)
Definition sample_memo1 : memo :=
  let s0 := memo_init 0 100 in
  let s1 := set_loads (m_loads (load s0).1 ++ [(load s0).2]) (load s0).1 in
  set_assemblies (alter (asm_read (m_revision s1)) 0%nat (m_assemblies s1)) s1.

Definition sample_memo2 : memo :=
  {| m_revision := m_revision sample_memo1 + 1; m_now := m_now sample_memo1;
     m_cached := m_cached sample_memo1; m_pending := m_pending sample_memo1;
     m_assemblies := m_assemblies sample_memo1; m_loads := m_loads sample_memo1 |}.

Definition sample_memo3 : memo :=
  let a := {| a_revision := 0; a_checkedAt := 100; a_reads := [0]; a_state := ARunning |} in
  let s1 := finish 60 0 a sample_memo2 in
  let s2 := resume 0 0 (asm_settle AResolved a) s1 in
  let s3 := set_assemblies (alter (asm_read (m_revision s2)) 1%nat (m_assemblies s2)) s2 in
  let b := {| a_revision := 1; a_checkedAt := 100; a_reads := [1]; a_state := ARunning |} in
  resume 0 1 (asm_settle AResolved b) (finish 60 1 b s3).

Lemma sample_memo3_reachable : rtc (memo_step 60) (memo_init 0 100) sample_memo3.
Proof.
  eapply rtc_l; [apply memo_call|].
  eapply rtc_l; [by eapply (memo_read 60 0)|].
  eapply rtc_l; [by apply (memo_write 60 1)|].
  eapply rtc_l; [by eapply (memo_finish 60 0)|].
  eapply rtc_l; [by eapply (memo_resume 60 0 0)|].
  eapply rtc_l; [by eapply (memo_read 60 1)|].
  eapply rtc_l; [by eapply (memo_finish 60 1)|].
  apply rtc_once. by eapply (memo_resume 60 0 1).
Qed.

(** ** Properties *)

(** The memo never answers with what a committed write replaced, and
    never assembles the same revision twice at once. In every reachable state,
    for every interleaving of calls, reads, writes, failures and settlements:
    a call that returned got a value whose reads all saw the revision that was
    current when it returned, whether it came from the cache or from an
    assembly, its own or another caller's; and two assemblies that both run for
    the current revision are the same one. *)
Theorem memo_fresh_and_coalesced (ttlMs revision0 now0 : Z) (s : memo)
    (Hreach : rtc (memo_step ttlMs) (memo_init revision0 now0) s) :
  (forall i reads checkedAt at_ revision,
     m_loads s !! i = Some (LReturned reads checkedAt at_ revision) -> Forall (eq revision) reads)
  /\ (forall i j a b,
        m_assemblies s !! i = Some a -> m_assemblies s !! j = Some b ->
        a_state a = ARunning -> a_state b = ARunning ->
        a_revision a = m_revision s -> a_revision b = m_revision s -> i = j).
Proof.
  apply memo_inv_reachable in Hreach as [Ha Hc Hp Hr Hl]. split.
  - intros i reads checkedAt at_ revision Hi. exact (Forall_lookup_1 _ _ _ _ Hl Hi).
  - intros i j a b Hi Hj Ha1 Hb1 Har Hbr.
    pose proof (Hr i a Hi Ha1 Har). pose proof (Hr j b Hj Hb1 Hbr). congruence.
Qed.

Lemma memo_fresh_and_coalesced_witness :
  m_loads sample_memo3 = [LReturned [1] 100 100 1] /\ Forall (eq 1) [1].
Proof.
  split; [vm_compute; reflexivity|].
  refine (proj1 (memo_fresh_and_coalesced 60 0 100 sample_memo3 sample_memo3_reachable)
            0%nat [1] 100 100 1 _). vm_compute. reflexivity.
Defined.
