(* ===== verification/SettingGeneration.v ===== *)
(** * Reading a setting with the rows that belong to it

    [server/src/lib/setting-generation.ts]. The caller's [read] is a program
    whose only effect on the settings is to read them through the recording
    store; the other rows of the schedule (what the other processes write
    between two reads) are the world's turns. *)

From S2P Require Import Prelude Roles World Settings LeaseFence.
Open Scope Z_scope.

Definition SETTING_GENERATION_ATTEMPTS : nat := 5.

Definition sameRow (a b : option SettingRecord) : bool :=
  match a, b with
  | None, None => true
  | Some a, Some b =>
      bool_decide (s_updated_at a = s_updated_at b)
      && bool_decide (s_encrypted a = s_encrypted b)
      && bool_decide (s_value a = s_value b)
  | _, _ => false
  end.

(** [store.settings.get]. *)
Definition get_setting (key : string) : M (option SettingRecord) :=
  statement_ok (fun _ d => (settings_get key (d_settings d), d)).

(** A caller's [read]: it returns, throws, reads a setting through the recording
    store, or awaits something that is not the database. *)
Inductive settings_read (T : Type) : Type :=
| SRet (t : T)
| SThrow (e : exn)
| SGet (key : string) (k : option SettingRecord -> settings_read T)
| SAwait (k : turn -> settings_read T).
Arguments SRet {T} t.
Arguments SThrow {T} e.
Arguments SGet {T} key k.
Arguments SAwait {T} k.

(** [seen]: a [Map] from the keys to every observation, in insertion order. *)
Abbreviation observations := (list (string * list (option SettingRecord))).

Fixpoint record_observation (key : string) (row : option SettingRecord) (seen : observations)
    : observations :=
  match seen with
  | [] => [(key, [row])]
  | (k, rows) :: rest =>
      if decide (k = key) then (k, rows ++ [row]) :: rest
      else (k, rows) :: record_observation key row rest
  end.

(** [read(anchor, recording(store, seen))]. *)
Fixpoint run_recording {T} (p : settings_read T) (seen : observations) : M (T * observations) :=
  match p with
  | SRet t => mret (t, seen)
  | SThrow e => mthrow e
  | SGet key k =>
      do row <- get_setting key;
      run_recording (k row) (record_observation key row seen)
  | SAwait k =>
      do t <- await_turn (fun t => t);
      run_recording (k t) seen
  end.

(** The rows are read again one by one, up to the first that changed. *)
Fixpoint unchanged (seen : observations) : M bool :=
  match seen with
  | [] => mret true
  | (key, rows) :: rest =>
      do current <- get_setting key;
      if forallb (fun row => sameRow row current) rows then unchanged rest else mret false
  end.

Section Read.
Context {T : Type} (key : string) (read : option SettingRecord -> settings_read T).

Definition setting_attempt : M (option T) :=
  do anchor <- get_setting key;
  do result <- run_recording (read anchor) [(key, [anchor])];
  do same <- unchanged result.2;
  mret (if same : bool then Some result.1 else None).

Fixpoint readBoundToSetting (attempts : nat) : M T :=
  match attempts with
  | O => mthrow (conflict ("The " +:+ key +:+ " setting kept changing while it was being read; retry")
                   [("setting"%string, key)])
  | S attempts' =>
      do result <- setting_attempt;
      match result with
      | Some t => mret t
      | None => readBoundToSetting attempts'
      end
  end.
End Read.

(** What was observed: an anchor, or a row the reader fetched. *)
Definition observed (seen : observations) (key : string) (row : option SettingRecord) : Prop :=
  exists rows, (key, rows) ∈ seen /\ row ∈ rows.

(** The answers of [read] on fixed rows: what it would compute on a snapshot. *)
Inductive computes {T} (rows : string -> option SettingRecord -> Prop)
    : settings_read T -> T -> Prop :=
| computes_ret t : computes rows (SRet t) t
| computes_get key k row t :
    rows key row -> computes rows (k row) t -> computes rows (SGet key k) t
| computes_await k u t : computes rows (k u) t -> computes rows (SAwait k) t.

(** ** Lemmas *)

Lemma sameRow_refl a : sameRow a a = true.
Proof. destruct a as [a|]; [|done]. simpl. by rewrite !bool_decide_eq_true_2. Qed.

Lemma sameRow_sym a b : sameRow a b = true -> sameRow b a = true.
Proof.
  destruct a as [a|], b as [b|]; simpl; try done. intros H. bool_to_prop.
  by rewrite !bool_decide_eq_true_2 by congruence.
Qed.

Lemma sameRow_trans a b c : sameRow a b = true -> sameRow b c = true -> sameRow a c = true.
Proof.
  destruct a as [a|], b as [b|], c as [c|]; simpl; try done. intros H1 H2. bool_to_prop.
  by rewrite !bool_decide_eq_true_2 by congruence.
Qed.

Lemma record_observation_observed key row seen k r :
  observed (record_observation key row seen) k r <-> (k = key /\ r = row) \/ observed seen k r.
Proof.
  unfold observed. induction seen as [|[k' rows] rest IH]; simpl.
  - setoid_rewrite list_elem_of_singleton. split.
    + intros (rows & [= -> ->] & ->%list_elem_of_singleton). auto.
    + intros [[-> ->]|(rows & []%elem_of_nil & _)]. exists [row]. split; [done|].
      by apply list_elem_of_singleton.
  - case_decide as Hk.
    + subst k'. setoid_rewrite elem_of_cons. split.
      * intros (rs & [[= -> ->]|Hin] & Hr); [|right; eauto].
        apply elem_of_app in Hr as [Hr|Hr%list_elem_of_singleton]; [right; eauto|auto].
      * intros [[-> ->]|(rs & [[= -> ->]|Hin] & Hr)].
        -- exists (rows ++ [row]). split; [by left|]. apply elem_of_app. right.
           by apply list_elem_of_singleton.
        -- exists (rows ++ [row]). split; [by left|]. apply elem_of_app. by left.
        -- exists rs. auto.
    + setoid_rewrite elem_of_cons. split.
      * intros (rs & [[= -> ->]|Hin] & Hr); [right; eauto|].
        destruct (proj1 IH (ex_intro _ rs (conj Hin Hr))) as [?|(rs' & ? & ?)]; [by left|].
        right. eauto.
      * intros [Heq|(rs & [[= -> ->]|Hin] & Hr)].
        -- destruct (proj2 IH (or_introl Heq)) as (rs & ? & ?). eauto.
        -- eauto.
        -- destruct (proj2 IH (or_intror (ex_intro _ rs (conj Hin Hr)))) as (rs' & ? & ?). eauto.
Qed.

Lemma frame_get_setting key : frame (get_setting key).
Proof. apply frame_statement. Qed.
#[export] Hint Resolve frame_get_setting : nexus.

Lemma frame_run_recording {T} (p : settings_read T) seen : frame (run_recording p seen).
Proof.
  revert seen. induction p as [t|e|key k IH|k IH]; intros seen; simpl; frames; apply IH.
Qed.

Lemma frame_unchanged seen : frame (unchanged seen).
Proof. induction seen as [|[k rows] rest IH]; simpl; frames. Qed.

(** *** Rows that do not come back

    [later] orders the states of the database in time. A rewritten row never
    equals an earlier one (its [updated_at] moves, a secret has a fresh nonce),
    so a row that is the same at two times was the same in between. *)
Section Snapshot.
Context (later : db -> db -> Prop) `{!PreOrder later}.

Definition row_of (key : string) (d : db) : option SettingRecord := settings_get key (d_settings d).

Definition rows_never_return : Prop := forall d1 d2 d3 key,
  later d1 d2 -> later d2 d3 -> sameRow (row_of key d1) (row_of key d3) = true ->
  sameRow (row_of key d1) (row_of key d2) = true.

Definition rivals_go_forward (env : nat -> turn) : Prop :=
  forall n d, later d (t_rivals (env n) d).

Lemma get_setting_later key w row w' :
  rivals_go_forward (w_env w) -> get_setting key w = (Ok row, w') ->
  later (w_db w) (w_db w') /\ row = row_of key (w_db w').
Proof.
  intros Henv H. apply statement_ok_inv in H as (d & Hd & Hf & _). injection Hf as <- <-.
  split; [|done]. subst d. destruct (w_tx w); [done|]. apply Henv.
Qed.

Lemma run_recording_later {T} (p : settings_read T) seen w t seen' w' :
  rivals_go_forward (w_env w) -> run_recording p seen w = (Ok (t, seen'), w') ->
  later (w_db w) (w_db w')
  /\ (forall key row, observed seen' key row -> observed seen key row \/
        exists d, later (w_db w) d /\ later d (w_db w') /\ row = row_of key d)
  /\ computes (observed seen') p t
  /\ (forall key row, observed seen key row -> observed seen' key row).
Proof.
  revert seen w. induction p as [u|e|key k IH|k IH]; intros seen w Henv H; simpl in H.
  - injection H as <- <- <-. split_and!; [done|auto|constructor|done].
  - done.
  - apply mbind_ok in H as (row & w1 & Hget & H).
    pose proof (frame_get_setting key w) as (He & _). rewrite Hget in He. simpl in He.
    apply get_setting_later in Hget as [Hl1 ->]; [|done].
    apply IH in H as (Hl2 & Hobs & Hcomp & Hmono); [|by rewrite He].
    split_and!; [by etrans| | |].
    + intros k' r Hr. destruct (Hobs k' r Hr) as [Hold|(d & Hd1 & Hd2 & ->)].
      * apply record_observation_observed in Hold as [[-> ->]|Hold]; [|by left].
        right. exists (w_db w1). done.
      * right. exists d. split_and!; [by etrans|done..].
    + econstructor; [|exact Hcomp]. apply Hmono, record_observation_observed. by left.
    + intros k' r Hr. apply Hmono, record_observation_observed. by right.
  - apply mbind_ok in H as (u & w1 & Haw & H).
    pose proof (frame_await_turn (fun t => t) w) as (He & _). rewrite Haw in He. simpl in He.
    assert (Hl1 : later (w_db w) (w_db w1)).
    { unfold await_turn in Haw. injection Haw as _ <-. simpl. destruct (w_tx w); [done|]. apply Henv. }
    apply IH in H as (Hl2 & Hobs & Hcomp & Hmono); [|by rewrite He].
    split_and!; [by etrans| |by econstructor|done].
    intros k' r Hr. destruct (Hobs k' r Hr) as [Hold|(d & Hd1 & Hd2 & ->)]; [by left|].
    right. exists d. split_and!; [by etrans|done..].
Qed.

(** Whatever it answers, an attempt leaves a later state. *)
Lemma unchanged_forward seen w b w' :
  rivals_go_forward (w_env w) -> unchanged seen w = (Ok b, w') -> later (w_db w) (w_db w').
Proof.
  revert w. induction seen as [|[k rows] rest IH]; intros w Henv H; simpl in H.
  - by injection H as <- <-.
  - apply mbind_ok in H as (current & w1 & Hget & H).
    pose proof (frame_get_setting k w) as (He & _). rewrite Hget in He. simpl in He.
    apply get_setting_later in Hget as [Hl1 ->]; [|done].
    destruct (forallb _ rows); [|by injection H as <- <-].
    etrans; [exact Hl1|]. apply IH; [by rewrite He|done].
Qed.

Lemma setting_attempt_later {T} key (read : option SettingRecord -> settings_read T) w r w' :
  rivals_go_forward (w_env w) -> setting_attempt key read w = (Ok r, w') ->
  later (w_db w) (w_db w').
Proof.
  intros Henv H. unfold setting_attempt in H.
  apply mbind_ok in H as (anchor & w1 & Hget & H).
  pose proof (frame_get_setting key w) as (He1 & _). rewrite Hget in He1. simpl in He1.
  apply get_setting_later in Hget as [Hl1 _]; [|done].
  apply mbind_ok in H as ([u seen] & w2 & Hrun & H).
  pose proof (frame_run_recording (read anchor) [(key, [anchor])] w1) as (He2 & _).
  rewrite Hrun in He2. simpl in He2.
  apply run_recording_later in Hrun as (Hl2 & _); [|by rewrite He1].
  apply mbind_ok in H as (b & w3 & Hun & H). injection H as _ <-.
  apply unchanged_forward in Hun; [|by rewrite He2, He1]. etrans; [exact Hl1|by etrans].
Qed.

Lemma unchanged_later seen w w' :
  rivals_go_forward (w_env w) -> unchanged seen w = (Ok true, w') ->
  forall key row, observed seen key row ->
    exists d, later (w_db w) d /\ sameRow row (row_of key d) = true.
Proof.
  revert w. induction seen as [|[k rows] rest IH]; intros w Henv H key row Hobs; simpl in H.
  - destruct Hobs as (rows & []%elem_of_nil & _).
  - apply mbind_ok in H as (current & w1 & Hget & H).
    pose proof (frame_get_setting k w) as (He & _). rewrite Hget in He. simpl in He.
    apply get_setting_later in Hget as [Hl1 ->]; [|done].
    destruct (forallb _ rows) eqn:Hall; [|done].
    destruct Hobs as (rs & Hin & Hr). apply elem_of_cons in Hin as [[= -> ->]|Hin].
    + exists (w_db w1). split; [done|]. rewrite forallb_forall in Hall. apply Hall.
      by apply list_elem_of_In.
    + destruct (IH w1) with (key := key) (row := row) as (d & Hd & Hs); [by rewrite He|done|by exists rs|].
      exists d. split; [by etrans|done].
Qed.

Lemma setting_attempt_snapshot {T} key (read : option SettingRecord -> settings_read T) w t w' :
  rows_never_return -> rivals_go_forward (w_env w) ->
  setting_attempt key read w = (Ok (Some t), w') ->
  exists d anchor seen, later (w_db w) d
    /\ (forall k row, observed seen k row -> sameRow row (row_of k d) = true)
    /\ observed seen key anchor /\ computes (observed seen) (read anchor) t.
Proof.
  intros Hnr Henv H. unfold setting_attempt in H.
  apply mbind_ok in H as (anchor & w1 & Hget & H).
  pose proof (frame_get_setting key w) as (He1 & _). rewrite Hget in He1. simpl in He1.
  apply get_setting_later in Hget as [Hl1 ->]; [|done].
  apply mbind_ok in H as ([u seen] & w2 & Hrun & H).
  pose proof (frame_run_recording (read (row_of key (w_db w1))) [(key, [row_of key (w_db w1)])] w1)
    as (He2 & _). rewrite Hrun in He2. simpl in He2.
  apply run_recording_later in Hrun as (Hl2 & Hobs & Hcomp & Hmono); [|by rewrite He1].
  apply mbind_ok in H as ([] & w3 & Hun & H); [|done]. injection H as <- <-. simpl in Hun.
  exists (w_db w2), (row_of key (w_db w1)), seen. split_and!; [by etrans| | |done].
  - intros k row Hr.
    destruct (unchanged_later seen w2 w3) with (key := k) (row := row) as (d3 & Hd3 & Hs3);
      [by rewrite He2, He1|done|done|].
    destruct (Hobs k row Hr) as [(rows & Hin & Hrow)|(d1 & _ & Hd1 & ->)].
    + apply list_elem_of_singleton in Hin as [= -> ->]. apply list_elem_of_singleton in Hrow as ->.
      by apply (Hnr (w_db w1) (w_db w2) d3).
    + by apply (Hnr d1 (w_db w2) d3).
  - apply Hmono. exists [row_of key (w_db w1)]. split; by apply list_elem_of_singleton.
Qed.
End Snapshot.

Lemma computes_mono {T} (rows rows' : string -> option SettingRecord -> Prop) (p : settings_read T) t :
  (forall k r, rows k r -> rows' k r) -> computes rows p t -> computes rows' p t.
Proof. intros Hm. induction 1; econstructor; eauto. Qed.

Lemma frame_setting_attempt {T} key (read : option SettingRecord -> settings_read T) :
  frame (setting_attempt key read).
Proof.
  unfold setting_attempt. frames; [apply frame_run_recording|apply frame_unchanged].
Qed.

(** *** A sample schedule, for the witness

    The SMTP connection and its secret are rewritten together between the two
    reads of the first attempt. *)
Definition smtp_settings (host secret : string) (at_ : Z) : setting_table :=
  settings_setMany [("smtp"%string, host, false); ("smtp.secret"%string, secret, true)] at_ ∅.

Definition sample_rewrite : setting_table :=
  settings_setMany [("smtp"%string, "new"%string, false); ("smtp.secret"%string, "new-key"%string, true)]
    50 (smtp_settings "old" "old-key" 10).

Definition sample_straddle (n : nat) : turn := {|
  t_rivals := fun d => if decide (n = 1%nat) then with_settings sample_rewrite d else d;
  t_now := 100; t_ids := fun _ => EmptyString; t_random := 0; t_fault := None;
  t_smtp := SmtpAccepted; t_stopping := false; t_nonce := EmptyString;
|}.

Definition sample_settings_world : world :=
  world_of (with_settings (smtp_settings "old" "old-key" 10) db_empty) sample_straddle [].

(** The host with the secret that goes with it. *)
Definition read_smtp (anchor : option SettingRecord) : settings_read (string * string) :=
  SGet "smtp.secret" (fun secret =>
    match anchor, secret with
    | Some a, Some s => SRet (s_value a, s_value s)
    | _, _ => SThrow (notFound "SMTP" None)
    end).

(** Once rewritten, the sample settings stay as they are. *)
Definition sample_later (d d' : db) : Prop :=
  d_settings d' = d_settings d \/ d_settings d' = sample_rewrite.

Lemma sample_later_preorder : PreOrder sample_later.
Proof.
  split.
  - intros d. by left.
  - intros d1 d2 d3 [H12|H12] [H23|H23]; unfold sample_later; [left|right|right|right]; congruence.
Qed.

Lemma sample_later_forward : rivals_go_forward sample_later sample_straddle.
Proof. intros n d. simpl. case_decide; [by right|by left]. Qed.

Lemma sample_later_never_return : rows_never_return sample_later.
Proof.
  intros d1 d2 d3 key [H12|H12] H23 Hs; unfold row_of in *.
  - rewrite H12. apply sameRow_refl.
  - destruct H23 as [H23|H23]; rewrite H12; by rewrite H23, ?H12 in Hs.
Qed.

(** ** Properties *)


