(* ===== verification/Crypto.v ===== *)
(** * Cryptography

    [server/src/lib/crypto.ts] over the primitives of [node:crypto]: the cost
    bounds of a stored password hash, the envelope of an encrypted value, its
    binding to the row it was written for, and the helpers bound to one
    [NEXUS_SECRET_KEY]. Buffers are strings of bytes. *)

From Stdlib Require Import Ascii.
From S2P Require Import Prelude Json Roles.
Open Scope Z_scope.

(** ** The primitives

    What [node:crypto], [Buffer] and [JSON.parse] provide. [gcm_seal] gives the
    ciphertext and the authentication tag. *)
Class CryptoPrimitives : Type := {
  hkdf : string -> string -> string -> Z -> string;
  gcm_seal : string -> string -> option string -> string -> string * string;
  gcm_open : string -> string -> option string -> string -> string -> option string;
  b64_encode : string -> string;
  b64_decode : string -> string;
  json_parse : string -> option json;
}.

Definition colon : Ascii.ascii := ":"%char.

Fixpoint has_char (c : Ascii.ascii) (s : string) : bool :=
  match s with
  | EmptyString => false
  | String d s' => bool_decide (d = c) || has_char c s'
  end.

(** AES-GCM decrypts what it encrypted, and nothing opens but what sealing under
    the same key, nonce and associated data gives; base64 round-trips within its
    alphabet; a tag has 16 bytes; an object of distinct string fields is parsed
    as it was written. *)
Class CryptoLaws `{CryptoPrimitives} : Prop := {
  gcm_open_seal : forall key iv aad p c tag,
    gcm_seal key iv aad p = (c, tag) -> gcm_open key iv aad c tag = Some p;
  gcm_open_sound : forall key iv aad c tag p,
    gcm_open key iv aad c tag = Some p -> gcm_seal key iv aad p = (c, tag);
  gcm_tag_length : forall key iv aad p, String.length (gcm_seal key iv aad p).2 = 16%nat;
  b64_round_trip : forall s, b64_decode (b64_encode s) = s;
  b64_no_colon : forall s, has_char colon (b64_encode s) = false;
  json_parse_strings : forall l, NoDup l.*1 ->
    json_parse (json_stringify (JObj (map (fun '(k, s) => (k, JStr s)) l)))
      = Some (JObj (map (fun '(k, s) => (k, JStr s)) l));
}.

(** ** Password hashing: the cost parameters *)

Definition MAX_SAFE_INTEGER : Z := 2 ^ 53 - 1.

Record ScryptParams : Type := { sp_N : Z; sp_r : Z; sp_p : Z; sp_keyLength : Z }.

Definition SCRYPT_PARAMS : ScryptParams :=
  {| sp_N := 16384; sp_r := 8; sp_p := 1; sp_keyLength := 32 |}.

Definition limit_maxN : Z := Z.shiftl 1 22.
Definition limit_maxR : Z := 32.
Definition limit_maxP : Z := 16.
Definition limit_maxMemoryBytes : Z := 256 * 1024 * 1024.
Definition limit_maxWork : Z := 2 ^ 24.

(** [Number.isSafeInteger]; a number that is not an integer is not [Fin]. *)
Definition isSafeInteger (n : jsnum) : bool :=
  match n with Fin z => bool_decide (Z.abs z <= MAX_SAFE_INTEGER) | _ => false end.

Definition scryptParamsAcceptable (N r p : jsnum) : bool :=
  if negb (isSafeInteger N) || negb (isSafeInteger r) || negb (isSafeInteger p) then false
  else match N, r, p with
       | Fin N, Fin r, Fin p =>
           if bool_decide (N < 2) || bool_decide (r < 1) || bool_decide (p < 1) then false
           else if bool_decide (limit_maxN < N) || bool_decide (limit_maxR < r)
                   || bool_decide (limit_maxP < p) then false
           else if negb (bool_decide (Z.land N (N - 1) = 0)) then false
           else if bool_decide (limit_maxMemoryBytes < 128 * N * r) then false
           else bool_decide (N * r * p <= limit_maxWork)
       | _, _, _ => false
       end.

Definition scryptMaxmem (N r : Z) : Z := Z.max (32 * 1024 * 1024) (256 * N * r).

(** ** Envelopes *)

Section Envelopes.
Context `{CryptoPrimitives}.

Definition SETTINGS_KEY_INFO : string := "nexus-settings-v1".
Definition SESSION_HMAC_KEY_INFO : string := "nexus-session-hmac-v1".
Definition OUTBOX_KEY_INFO : string := "nexus-outbox-v1".
Definition SSO_TRANSACTION_KEY_INFO : string := "nexus-sso-transaction-v1".
Definition SSO_TRANSACTION_AAD : string := "nexus-sso-transaction".
Definition HKDF_SALT : string := "ferrum-nexus-hkdf-salt-v1".

Definition deriveKey (secretKey info : string) : string := hkdf secretKey HKDF_SALT info 32.

Definition ENCRYPTED_PREFIX : string := "v1".
Definition SETTINGS_ENCRYPTED_PREFIX : string := "v2".
Definition GCM_IV_BYTES : nat := 12.

Definition settingsAad (settingKey : string) : string := "app_settings:v2:" +:+ settingKey.

Definition internal (message : string) : exn := nexusError INTERNAL message [].

(** [iv] is the nonce [randomBytes] drew. *)
Definition encryptBlob (key : string) (value : json) (aad : option string) (prefix iv : string)
    : string :=
  let '(ciphertext, tag) := gcm_seal key iv aad (json_stringify value) in
  join ":" [prefix; b64_encode iv; b64_encode ciphertext; b64_encode tag].

(** [blob.split(':')]. *)
Fixpoint split_colon (s : string) : list string :=
  match s with
  | EmptyString => [EmptyString]
  | String c s' =>
      if decide (c = colon) then EmptyString :: split_colon s'
      else match split_colon s' with
           | part :: rest => String c part :: rest
           | [] => [String c EmptyString]
           end
  end.

Definition decryptBlob (key blob : string) (aad : option string) (prefix : string) : res exn json :=
  match split_colon blob with
  | [p; iv64; ciphertext64; tag64] =>
      if decide (p = prefix) then
        let iv := b64_decode iv64 in
        let ciphertext := b64_decode ciphertext64 in
        let tag := b64_decode tag64 in
        if negb (bool_decide (String.length iv = GCM_IV_BYTES))
           || negb (bool_decide (String.length tag = 16%nat))
        then Throw (internal "Encrypted value has an unrecognised format")
        else match gcm_open key iv aad ciphertext tag with
             | Some plaintext =>
                 match json_parse plaintext with
                 | Some v => Ok v
                 | None => Throw (internal "Encrypted value could not be decrypted")
                 end
             | None => Throw (internal "Encrypted value could not be decrypted")
             end
      else Throw (internal "Encrypted value has an unrecognised format")
  | _ => Throw (internal "Encrypted value has an unrecognised format")
  end.

Definition encryptJsonWithKey (key : string) (value : json) (aad : option string) (iv : string)
    : string := encryptBlob key value aad ENCRYPTED_PREFIX iv.

Definition decryptJsonWithKey (key blob : string) (aad : option string) : res exn json :=
  decryptBlob key blob aad ENCRYPTED_PREFIX.

Definition encryptSettingWithKey (key settingKey : string) (value : json) (iv : string) : string :=
  encryptBlob key value (Some (settingsAad settingKey)) SETTINGS_ENCRYPTED_PREFIX iv.

Definition decryptSettingWithKey (key settingKey blob : string) (legacy : bool) : res exn json :=
  if startsWith (SETTINGS_ENCRYPTED_PREFIX +:+ ":") blob
  then decryptBlob key blob (Some (settingsAad settingKey)) SETTINGS_ENCRYPTED_PREFIX
  else if legacy then decryptJsonWithKey key blob None
  else Throw (internal "Encrypted setting is not bound to its key").

(** A stored setting value is a string or something else. *)
Definition isLegacySettingBlob (value : json) : bool :=
  match value with JStr s => startsWith (ENCRYPTED_PREFIX +:+ ":") s | _ => false end.

Definition isEncryptedBlob (value : json) : bool :=
  match value with
  | JStr s => startsWith (ENCRYPTED_PREFIX +:+ ":") s || startsWith (SETTINGS_ENCRYPTED_PREFIX +:+ ":") s
  | _ => false
  end.

(** *** The helper bound to one secret *)

Record NexusCrypto : Type := {
  encryptJson : string -> json -> string -> string;
  decryptJson : string -> string -> res exn json;
  decryptLegacySetting : string -> string -> res exn json;
  sealOutbox : json -> string -> string -> string;
  openOutbox : string -> string -> res exn json;
  sealSsoTransaction : json -> string -> string;
  openSsoTransaction : string -> res exn json;
}.

Definition createCrypto (secretKey : string) : NexusCrypto :=
  let settingsKey := deriveKey secretKey SETTINGS_KEY_INFO in
  let outboxKey := deriveKey secretKey OUTBOX_KEY_INFO in
  let ssoTransactionKey := deriveKey secretKey SSO_TRANSACTION_KEY_INFO in {|
  encryptJson := encryptSettingWithKey settingsKey;
  decryptJson := fun settingKey blob => decryptSettingWithKey settingsKey settingKey blob false;
  decryptLegacySetting := fun settingKey blob => decryptSettingWithKey settingsKey settingKey blob true;
  sealOutbox := fun value aad => encryptJsonWithKey outboxKey value (Some aad);
  openOutbox := fun blob aad => decryptJsonWithKey outboxKey blob (Some aad);
  sealSsoTransaction := fun value =>
    encryptJsonWithKey ssoTransactionKey value (Some SSO_TRANSACTION_AAD);
  openSsoTransaction := fun blob =>
    decryptJsonWithKey ssoTransactionKey blob (Some SSO_TRANSACTION_AAD);
|}.
End Envelopes.

(** ** Lemmas *)

Lemma split_colon_plain s : has_char colon s = false -> split_colon s = [s].
Proof.
  induction s as [|c s IH]; simpl; [done|]. intros H. bool_to_prop.
  rewrite decide_False by done. by rewrite IH.
Qed.

Lemma split_colon_app a rest :
  has_char colon a = false -> split_colon (a +:+ String colon rest) = a :: split_colon rest.
Proof.
  induction a as [|c a IH]; intros H.
  - reflexivity.
  - rewrite string_app_cons. simpl in *. bool_to_prop.
    rewrite decide_False by done. by rewrite IH.
Qed.

Lemma split_join4 a b c d :
  has_char colon a = false -> has_char colon b = false -> has_char colon c = false ->
  has_char colon d = false -> split_colon (join ":" [a; b; c; d]) = [a; b; c; d].
Proof.
  intros Ha Hb Hc Hd. simpl.
  assert (Hcol : forall x, ":" +:+ x = String colon x) by done. rewrite !Hcol.
  rewrite (split_colon_app a) by done. f_equal. rewrite (split_colon_app b) by done. f_equal.
  rewrite (split_colon_app c) by done. f_equal. by apply split_colon_plain.
Qed.

(** Reading a quoted string back: the text up to the first quote that is not
    escaped, and the rest. It is what shows that quoting loses nothing. *)
Definition unhex (c : ascii) : nat :=
  let n := nat_of_ascii c in if decide (n < 58)%nat then n - 48 else n - 87.

Fixpoint unquote (s : string) : option (string * string) :=
  match s with
  | EmptyString => None
  | String c s1 =>
      if decide (c = dquote) then Some (EmptyString, s1)
      else if decide (c = backslash) then
        match s1 with
        | String e s2 =>
            if decide (e = "u"%char) then
              match s2 with
              | String _ (String _ (String h (String l s3))) =>
                  (fun '(a, b) => (String (ascii_of_nat (unhex h * 16 + unhex l)) a, b)) <$> unquote s3
              | _ => None
              end
            else
              let d := if decide (e = "b"%char) then ascii_of_nat 8
                       else if decide (e = "t"%char) then ascii_of_nat 9
                       else if decide (e = "n"%char) then ascii_of_nat 10
                       else if decide (e = "f"%char) then ascii_of_nat 12
                       else if decide (e = "r"%char) then ascii_of_nat 13
                       else e in
              (fun '(a, b) => (String d a, b)) <$> unquote s2
        | EmptyString => None
        end
      else (fun '(a, b) => (String c a, b)) <$> unquote s1
  end.

Lemma unquote_escape c s :
  unquote (json_escape c +:+ s) = (fun '(a, b) => (String c a, b)) <$> unquote s.
Proof. destruct c as [[] [] [] [] [] [] [] []]; reflexivity. Qed.

Lemma unquote_escaped s rest :
  unquote (json_escaped s +:+ String dquote rest) = Some (s, rest).
Proof.
  induction s as [|c s IH]; simpl.
  - reflexivity.
  - by rewrite string_app_assoc, unquote_escape, IH.
Qed.

(** Two quoted strings at the head of the same text are the same. *)
Lemma json_quote_inj a b rest rest' :
  json_quote a +:+ rest = json_quote b +:+ rest' -> a = b /\ rest = rest'.
Proof.
  unfold json_quote. rewrite !string_app_cons, !string_app_assoc. intros H. injection H as H.
  rewrite !string_app_cons, !string_app_nil_l in H.
  pose proof (unquote_escaped a rest) as Ha. rewrite H, unquote_escaped in Ha.
  by injection Ha as -> ->.
Qed.

(** *** The cost parameters *)

(** [N & (N - 1)] is zero exactly for the powers of two. *)
Lemma land_pred_zero N : 0 < N -> (Z.land N (N - 1) = 0 <-> N = 2 ^ Z.log2 N).
Proof.
  intros HN. pose proof (Z.log2_spec N HN) as [Hlo Hhi]. pose proof (Z.log2_nonneg N) as Hk.
  set (k := Z.log2 N) in *. split.
  - intros H0. destruct (decide (N = 2 ^ k)) as [|Hne]; [done|]. exfalso.
    assert (Hlog : Z.log2 (N - 1) = k) by (apply Z.log2_unique; lia).
    assert (Hbit : Z.testbit (Z.land N (N - 1)) k = true).
    { rewrite Z.land_spec. unfold k at 1. rewrite Z.bit_log2 by done. simpl.
      rewrite <- Hlog. apply Z.bit_log2. pose proof (Z.pow_pos_nonneg 2 k). lia. }
    by rewrite H0, Z.bits_0 in Hbit.
  - intros HN2. rewrite HN2. replace (2 ^ k - 1) with (Z.ones k) by (rewrite Z.ones_equiv; lia).
    rewrite Z.land_ones by done. apply Z.mod_same. pose proof (Z.pow_pos_nonneg 2 k). lia.
Qed.

Lemma scryptParamsAcceptable_spec N r p :
  scryptParamsAcceptable (Fin N) (Fin r) (Fin p) = true <->
    (exists k, 1 <= k <= 22 /\ N = 2 ^ k) /\ 1 <= r <= 32 /\ 1 <= p <= 16
    /\ 128 * N * r <= 2 ^ 28 /\ N * r * p <= 2 ^ 24.
Proof.
  unfold scryptParamsAcceptable, isSafeInteger, limit_maxN, limit_maxR, limit_maxP,
    limit_maxMemoryBytes, limit_maxWork, MAX_SAFE_INTEGER.
  change (Z.shiftl 1 22) with (2 ^ 22). change (256 * 1024 * 1024) with (2 ^ 28).
  split.
  - intros H. repeat (case_bool_decide; simpl in H; try done).
    assert (HN : 0 < N) by lia. apply land_pred_zero in HN as Hp.
    split_and!; try lia. exists (Z.log2 N).
    pose proof (Z.log2_nonneg N). split; [|by apply Hp].
    split.
    + pose proof (Z.log2_le_mono 2 N). change (Z.log2 2) with 1 in *. lia.
    + pose proof (Z.log2_le_mono N (2 ^ 22)). rewrite Z.log2_pow2 in * by lia. lia.
  - intros ((k & Hk & HN) & Hr & Hp & Hm & Hw).
    assert (2 ^ 1 <= N <= 2 ^ 22) by (rewrite HN; split; apply Z.pow_le_mono_r; lia).
    assert (Hl : Z.land N (N - 1) = 0).
    { apply land_pred_zero; [lia|]. replace (Z.log2 N) with k; [done|].
      rewrite HN, Z.log2_pow2; lia. }
    rewrite Hl. repeat (case_bool_decide; simpl; try lia).
Qed.

(** *** The envelope *)

Section Laws.
Context `{CryptoLaws}.

Lemma encrypted_parts key value aad prefix iv :
  has_char colon prefix = false ->
  exists c tag, gcm_seal key iv aad (json_stringify value) = (c, tag)
    /\ split_colon (encryptBlob key value aad prefix iv)
       = [prefix; b64_encode iv; b64_encode c; b64_encode tag].
Proof.
  intros Hp. unfold encryptBlob.
  destruct (gcm_seal _ _ _ _) as [c tag]. exists c, tag. split; [done|].
  apply split_join4; [done|apply b64_no_colon..].
Qed.

(** Opening a sealed blob: with the data it was sealed under, its value; with
    other data, a value only if some text has the same ciphertext and tag under
    both. *)
Lemma decrypt_encrypt key value aad prefix iv :
  has_char colon prefix = false -> String.length iv = GCM_IV_BYTES ->
  json_parse (json_stringify value) = Some value ->
  decryptBlob key (encryptBlob key value aad prefix iv) aad prefix = Ok value.
Proof.
  intros Hp Hiv Hjson.
  destruct (encrypted_parts key value aad prefix iv Hp) as (c & tag & Hs & Hsplit).
  unfold decryptBlob. rewrite Hsplit, decide_True, !b64_round_trip by done.
  pose proof (gcm_tag_length key iv aad (json_stringify value)) as Htag. rewrite Hs in Htag.
  rewrite !bool_decide_eq_true_2 by done. simpl.
  by rewrite (gcm_open_seal _ _ _ _ _ _ Hs), Hjson.
Qed.

(** A forgery: one ciphertext and tag that authenticate under two pieces of
    associated data, which AES-GCM makes infeasible to find. *)
Definition forgery (key iv : string) (aad aad' : option string) : Prop :=
  aad <> aad' /\ exists p p', gcm_seal key iv aad p = gcm_seal key iv aad' p'.

Lemma decrypt_other_aad key value aad aad' prefix iv value' :
  has_char colon prefix = false ->
  decryptBlob key (encryptBlob key value aad prefix iv) aad' prefix = Ok value' ->
  aad <> aad' -> forgery key iv aad aad'.
Proof.
  intros Hp Hd Hne. split; [done|].
  destruct (encrypted_parts key value aad prefix iv Hp) as (c & tag & Hs & Hsplit).
  unfold decryptBlob in Hd. rewrite Hsplit, decide_True, !b64_round_trip in Hd by done.
  destruct (_ || _)%bool; [done|].
  destruct (gcm_open _ _ _ _ _) as [plain|] eqn:Ho; [|done].
  apply gcm_open_sound in Ho. exists (json_stringify value), plain. congruence.
Qed.
End Laws.

(** *** A concrete instance, for the witnesses

    Not a cipher: the text is its own ciphertext and the tag is taken from the
    key, the nonce and the associated data. It satisfies the laws, so theorems
    that assume them are not vacuous. *)

Fixpoint first_chars (n : nat) (s : string) : string :=
  match n with
  | O => EmptyString
  | S n' => match s with
            | EmptyString => String "0"%char (first_chars n' EmptyString)
            | String c s' => String c (first_chars n' s')
            end
  end.

Definition sample_tag (key iv : string) (aad : option string) : string :=
  first_chars 16 (String.rev (default EmptyString aad) +:+ key +:+ iv).

Fixpoint hex_encode (s : string) : string :=
  match s with
  | EmptyString => EmptyString
  | String c s' => String (hex_digit (nat_of_ascii c / 16)) (String (hex_digit (nat_of_ascii c mod 16))
                     (hex_encode s'))
  end.

Fixpoint hex_decode (s : string) : string :=
  match s with
  | String h (String l s') => String (ascii_of_nat (unhex h * 16 + unhex l)) (hex_decode s')
  | _ => EmptyString
  end.

(** The parser of an object of strings: [s] starts at a field's first quote. *)
Fixpoint parse_fields (fuel : nat) (s : string) : option (list (string * json)) :=
  match fuel, s with
  | S fuel', String _ s1 =>
      match unquote s1 with
      | Some (k, String _ (String _ s3)) =>
          match unquote s3 with
          | Some (v, String c s5) =>
              if decide (c = ","%char)
              then (fun l => (k, JStr v) :: l) <$> parse_fields fuel' s5
              else Some [(k, JStr v)]
          | _ => None
          end
      | _ => None
      end
  | _, _ => None
  end.

Definition parse_object (s : string) : option json :=
  match s with
  | String _ (String c _ as s1) =>
      if decide (c = "}"%char) then Some (JObj []) else JObj <$> parse_fields (String.length s) s1
  | _ => None
  end.

#[local] Instance sample_primitives : CryptoPrimitives := {|
  hkdf := fun secret salt info _ => secret +:+ info;
  gcm_seal := fun key iv aad p => (p, sample_tag key iv aad);
  gcm_open := fun key iv aad c tag =>
    if decide (tag = sample_tag key iv aad) then Some c else None;
  b64_encode := hex_encode;
  b64_decode := hex_decode;
  json_parse := parse_object;
|}.

Lemma first_chars_length n s : String.length (first_chars n s) = n.
Proof. revert s. induction n as [|n IH]; intros [|c s]; simpl; auto. Qed.

Lemma hex_round_trip s : hex_decode (hex_encode s) = s.
Proof.
  induction s as [|c s IH]; [done|]. cbn [hex_encode hex_decode]. rewrite IH.
  by destruct c as [[] [] [] [] [] [] [] []].
Qed.

Lemma hex_no_colon s : has_char colon (hex_encode s) = false.
Proof.
  induction s as [|c s IH]; [done|]. cbn [hex_encode has_char]. rewrite IH.
  by destruct c as [[] [] [] [] [] [] [] []].
Qed.

Definition field_text (p : string * string) : string :=
  json_quote p.1 +:+ ":" +:+ json_quote p.2.

Lemma parse_fields_text (p : string * string) l fuel :
  (length l < fuel)%nat ->
  parse_fields fuel (join "," (map field_text (p :: l)) +:+ "}")
    = Some (map (fun '(k, s) => (k, JStr s)) (p :: l)).
Proof.
  revert p fuel. induction l as [|q l IH]; intros [k v] fuel Hfuel;
    (destruct fuel as [|fuel]; [simpl in Hfuel; lia|]).
  - cbn [map join]. unfold field_text, json_quote. simpl fst. simpl snd.
    rewrite !string_app_cons, !string_app_assoc. cbn [parse_fields].
    rewrite !string_app_cons, !string_app_nil_l, unquote_escaped.
    rewrite !string_app_cons, !string_app_assoc, !string_app_cons, !string_app_nil_l, unquote_escaped.
    reflexivity.
  - change (join "," (map field_text ((k, v) :: q :: l)))
      with (field_text (k, v) +:+ "," +:+ join "," (map field_text (q :: l))).
    set (rest := join "," (map field_text (q :: l))) in *.
    unfold field_text, json_quote. simpl fst. simpl snd.
    rewrite !string_app_cons, !string_app_assoc. cbn [parse_fields].
    rewrite !string_app_cons, !string_app_nil_l, unquote_escaped.
    rewrite !string_app_cons, !string_app_assoc, !string_app_cons, !string_app_nil_l, unquote_escaped.
    rewrite decide_True by done. subst rest. rewrite IH by (simpl in Hfuel; lia). reflexivity.
Qed.

Lemma join_length l : (length l <= String.length (join "," (map field_text l)) + 1)%nat.
Proof.
  induction l as [|p l IH]; [simpl; lia|]. destruct l as [|q l]; [simpl; lia|].
  change (join "," (map field_text (p :: q :: l)))
    with (field_text p +:+ "," +:+ join "," (map field_text (q :: l))).
  rewrite !string_length_app. change (String.length ",") with 1%nat.
  change (length (p :: q :: l)) with (S (length (q :: l))).
  set (n := String.length (join _ _)) in *. lia.
Qed.

#[local] Instance sample_laws : CryptoLaws.
Proof.
  split; cbn [gcm_seal gcm_open b64_encode b64_decode json_parse sample_primitives].
  - intros * [= <- <-]. by rewrite decide_True.
  - intros * Ho. case_decide; [|done]. by simplify_eq.
  - intros *. apply first_chars_length.
  - apply hex_round_trip.
  - apply hex_no_colon.
  - intros l _. destruct l as [|p l]; [done|].
    assert (Htext : json_stringify (JObj (map (fun '(k, s) => (k, JStr s)) (p :: l)))
              = String "{"%char (join "," (map field_text (p :: l)) +:+ "}")).
    { cbn [json_stringify]. rewrite map_map. 
      assert (Hext : forall l, map (fun x : string * string =>
                  let '(k, v) := let '(k, s) := x in (k, JStr s) in
                  json_quote k +:+ ":" +:+ json_stringify v) l = map field_text l).
      { intros l'. apply map_ext. by intros []. }
      by rewrite Hext. }
    rewrite Htext. cbn [parse_object].
    destruct (join "," (map field_text (p :: l)) +:+ "}") as [|c s] eqn:Hs.
    { by destruct p as [k v], l. }
    assert (Hc : c = dquote) by (destruct p as [k v], l; by injection Hs as <-).
    assert (Hfuel : (length l < String.length (String "{"%char (String c s)))%nat).
    { pose proof (join_length (p :: l)) as Hlen.
      change (length (p :: l)) with (S (length l)) in Hlen.
      change (String.length (String "{"%char (String c s))) with (S (String.length (String c s))).
      rewrite <- Hs, string_length_app. change (String.length "}") with 1%nat.
      set (n := String.length (join _ _)) in *. lia. }
    rewrite decide_False by (by rewrite Hc). rewrite <- Hs in *.
    by rewrite parse_fields_text.
Qed.

(** ** Properties *)

(** An encrypted setting opens only in its own row. Under the settings
    key it round-trips; read back for another setting it yields nothing, unless
    AES-GCM was forged; and a blob that was not written for a row (the legacy
    format) is refused outside the upgrade paths, whatever it contains. *)
Theorem setting_ciphertext_bound `{CryptoLaws} (secretKey settingKey other iv blob : string)
    (value value' : json)
    (Hiv : String.length iv = GCM_IV_BYTES)
    (Hjson : json_parse (json_stringify value) = Some value) :
  let c := createCrypto secretKey in
  decryptJson c settingKey (encryptJson c settingKey value iv) = Ok value
  /\ (decryptJson c other (encryptJson c settingKey value iv) = Ok value' ->
        other = settingKey
        \/ forgery (deriveKey secretKey SETTINGS_KEY_INFO) iv (Some (settingsAad settingKey))
             (Some (settingsAad other)))
  /\ (isLegacySettingBlob (JStr blob) = true ->
        decryptJson c settingKey blob = Throw (internal "Encrypted setting is not bound to its key")).
Proof.
  intros c. subst c. simpl. unfold encryptSettingWithKey.
  assert (Hstart : forall aad, startsWith (SETTINGS_ENCRYPTED_PREFIX +:+ ":")
            (encryptBlob (deriveKey secretKey SETTINGS_KEY_INFO) value aad SETTINGS_ENCRYPTED_PREFIX iv)
          = true).
  { intros aad. unfold encryptBlob. destruct (gcm_seal _ _ _ _) as [ct tag].
    cbn [join]. rewrite <- string_app_assoc. apply startsWith_app. }
  unfold decryptSettingWithKey. rewrite Hstart. split_and!.
  - by apply decrypt_encrypt.
  - intros Hd. destruct (decide (other = settingKey)) as [|Hne]; [by left|right].
    eapply decrypt_other_aad; [|exact Hd|]; [done|].
    intros [= Heq]. apply Hne. symmetry. by eapply string_app_inj_l.
  - intros Hl. destruct (startsWith (SETTINGS_ENCRYPTED_PREFIX +:+ ":") blob) eqn:Hs; [|done].
    exfalso. unfold isLegacySettingBlob in Hl. change (ENCRYPTED_PREFIX +:+ ":") with "v1:" in Hl.
    change (SETTINGS_ENCRYPTED_PREFIX +:+ ":") with "v2:" in Hs.
    destruct blob as [|a [|b blob]]; simpl in Hl, Hs; bool_to_prop; done || congruence.
Qed.

Lemma setting_ciphertext_bound_witness :
  let c := createCrypto "secret" in
  decryptJson c "smtp.password" (encryptJson c "smtp.password" (JObj [("p"%string, JStr "x")]) "abcdefghijkl")
    = Ok (JObj [("p"%string, JStr "x")])
  /\ decryptJson c "sso" (encryptJson c "smtp.password" (JObj [("p"%string, JStr "x")]) "abcdefghijkl")
     = Throw (internal "Encrypted value could not be decrypted").
Proof.
  split; [|vm_compute; reflexivity].
  refine (proj1 (setting_ciphertext_bound "secret" "smtp.password" "sso" "abcdefghijkl" "v1:x"
            (JObj [("p"%string, JStr "x")]) JNull _ _)); vm_compute; reflexivity.
Defined.

(** A stored password hash cannot make verification expensive. The cost
    parameters that pass are exactly the powers of two within the limits: at
    most 256 MiB of scrypt memory, sixteen lanes and a work factor of [2^24];
    the memory limit handed to scrypt covers what they need and never exceeds
    512 MiB; anything that is not an integer is refused; and the parameters new
    hashes are written with pass. *)
Theorem scrypt_cost_bounded (N r p : jsnum) :
  (scryptParamsAcceptable N r p = true <->
     exists n r' p', N = Fin n /\ r = Fin r' /\ p = Fin p'
       /\ (exists k, 1 <= k <= 22 /\ n = 2 ^ k) /\ 1 <= r' <= 32 /\ 1 <= p' <= 16
       /\ 128 * n * r' <= 2 ^ 28 /\ n * r' * p' <= 2 ^ 24)
  /\ (forall n r', scryptParamsAcceptable (Fin n) (Fin r') p = true ->
        128 * n * r' <= scryptMaxmem n r' <= 2 ^ 29)
  /\ scryptParamsAcceptable (Fin (sp_N SCRYPT_PARAMS)) (Fin (sp_r SCRYPT_PARAMS))
       (Fin (sp_p SCRYPT_PARAMS)) = true.
Proof.
  split_and!; [split| |reflexivity].
  - intros Hacc. destruct N as [n| | |], r as [r'| | |], p as [p'| | |];
      try (by unfold scryptParamsAcceptable in Hacc; simpl in Hacc; rewrite ?orb_true_r in Hacc).
    apply scryptParamsAcceptable_spec in Hacc. exists n, r', p'. done.
  - intros (n & r' & p' & -> & -> & -> & H). by apply scryptParamsAcceptable_spec.
  - intros n r' Hacc. destruct p as [p'| | |];
      try (by unfold scryptParamsAcceptable in Hacc; simpl in Hacc; rewrite ?orb_true_r in Hacc).
    apply scryptParamsAcceptable_spec in Hacc as ((k & Hk & Hn) & Hr & Hp & Hm & Hw).
    assert (0 < n) by (rewrite Hn; apply Z.pow_pos_nonneg; lia).
    unfold scryptMaxmem. change (32 * 1024 * 1024) with (2 ^ 25).
    assert (0 < 128 * n * r') by nia. replace (256 * n * r') with (2 * (128 * n * r')) by lia. lia.
Qed.
