(* ===== verification/SealedOutbox.v ===== *)
(** * Sealed messages

    [server/src/email/sealed-outbox.ts]: a message that carries a single-use link
    is stored as one envelope bound to its row, opened only for delivery. *)

From S2P Require Import Prelude Json Roles Outbox World Crypto LeaseFence.
Open Scope Z_scope.

Definition BEARER_TEMPLATE_KEYS : list string := ["verification"; "password_reset"]%string.
Definition BEARER_IDEMPOTENCY_PREFIXES : list string := ["reset:"; "verify:"]%string.
Definition SEALED_BODY_PREFIX : string := "nexus-sealed-v1:".
Definition LEGACY_SEAL_BATCH : Z := 200.

Record MailContent : Type := {
  c_subject : string;
  c_html : string;
  c_text : string;
}.

#[export] Instance MailContent_eq_dec : EqDecision MailContent.
Proof. solve_decision. Defined.

Definition isBearerTemplate (templateKey : string) : bool :=
  bool_decide (templateKey ∈ BEARER_TEMPLATE_KEYS).

Definition boundTo (id toEmail : string) : string :=
  json_stringify (JArr [JStr "email_outbox"; JStr id; JStr toEmail]).

(** An [Error] with no code. *)
Definition sealedOutboxError (message : string) : exn := driverError message.

Definition content_fields (content : MailContent) : list (string * string) :=
  [("subject", c_subject content); ("html", c_html content); ("text", c_text content)]%string.

Definition content_json (content : MailContent) : json :=
  JObj (map (fun '(k, s) => (k, JStr s)) (content_fields content)).

(** [opened.field] for a field that holds a string. *)
Definition string_field (field : string) (l : list (string * json)) : option string :=
  match snd <$> head (filter (fun p => p.1 = field) l) with Some (JStr s) => Some s | _ => None end.

Section Sealed.
Context (crypto : NexusCrypto).

(** The columns: subject, HTML body, text body. *)
Definition sealMailContent (id toEmail : string) (content : MailContent) (iv : string)
    : string * string * string :=
  (OUTBOX_SEALED_SUBJECT, ""%string,
   (SEALED_BODY_PREFIX +:+ sealOutbox crypto (content_json content) (boundTo id toEmail) iv)%string).

Definition sealedEnqueueInput (to : string) (content : MailContent) (idempotencyKey : option string)
    (recipientUserId : option string) (id iv : string) : EnqueueEmailInput :=
  let '(subject, html, text) := sealMailContent id to content iv in {|
  e_id := Some id;
  e_to_email := to;
  e_priority := Some OUTBOX_PRIORITY_high;
  e_recipient_user_id := recipientUserId;
  e_subject := subject;
  e_body_html := html;
  e_body_text := text;
  e_next_attempt_at := None;
  e_idempotency_key := idempotencyKey;
|}.

Definition isSealedOutboxRecord (entry : EmailOutboxRecord) : bool :=
  bool_decide (o_subject entry = OUTBOX_SEALED_SUBJECT)
  && startsWith SEALED_BODY_PREFIX (o_body_text entry).

Definition openOutboxRecord (entry : EmailOutboxRecord) : res exn MailContent :=
  let hasSealedSubject := bool_decide (o_subject entry = OUTBOX_SEALED_SUBJECT) in
  let hasSealedBody := startsWith SEALED_BODY_PREFIX (o_body_text entry) in
  if negb (bool_decide (hasSealedSubject = hasSealedBody))
  then Throw (sealedOutboxError "sealed message has only one of its required markers")
  else if negb hasSealedSubject
  then Ok {| c_subject := o_subject entry; c_html := o_body_html entry; c_text := o_body_text entry |}
  else
    match openOutbox crypto (slice_from (String.length SEALED_BODY_PREFIX) (o_body_text entry))
            (boundTo (o_id entry) (o_to_email entry)) with
    | Throw _ =>
        Throw (sealedOutboxError ("sealed message could not be opened: it was altered, copied from another row, or "
                                    +:+ "sealed under a previous NEXUS_SECRET_KEY"))
    | Ok (JObj l) =>
        match string_field "subject" l, string_field "html" l, string_field "text" l with
        | Some subject, Some html, Some text =>
            Ok {| c_subject := subject; c_html := html; c_text := text |}
        | _, _, _ => Throw (sealedOutboxError "sealed message opened to something that is not mail content")
        end
    | Ok _ => Throw (sealedOutboxError "sealed message opened to something that is not mail content")
    end.

(** *** The legacy sweep *)

Definition list_unsealed (prefix : string) (limit : Z) : M (list EmailOutboxRecord * Z) :=
  statement_ok (fun _ d =>
    (outbox_list {| f_status := None; f_to_email := None; f_idempotency_key_prefix := Some prefix;
                    f_sealed := Some false |} (Some (Fin limit)) None (d_outbox d), d)).

Definition seal_content (id html text : string) : M bool :=
  statement_ok (fun _ d => let '(t, ok) := sealContent id html text (d_outbox d) in
                           (ok, with_outbox t d)).

Fixpoint seal_page (items : list EmailOutboxRecord) (sealed : Z) : M Z :=
  match items with
  | [] => mret sealed
  | entry :: rest =>
      do iv <- randomNonce;
      let '(_, html, text) :=
        sealMailContent (o_id entry) (o_to_email entry)
          {| c_subject := o_subject entry; c_html := o_body_html entry; c_text := o_body_text entry |} iv in
      do ok <- seal_content (o_id entry) html text;
      seal_page rest (if ok : bool then sealed + 1 else sealed)
  end.

(** The number of rows sealed, and whether rows may remain. *)
Fixpoint seal_prefixes (prefixes : list string) (budget sealed : Z) : M (Z * bool) :=
  match prefixes with
  | [] => mret (sealed, false)
  | prefix :: rest =>
      if bool_decide (budget <= 0) then mret (sealed, true)
      else
        do page <- list_unsealed prefix budget;
        do sealed' <- seal_page page.1 sealed;
        if bool_decide (Z.of_nat (length page.1) < page.2) then mret (sealed', true)
        else seal_prefixes rest (budget - Z.of_nat (length page.1)) sealed'
  end.

Definition sealLegacyBearerRows (limit : Z) : M (Z * bool) :=
  seal_prefixes BEARER_IDEMPOTENCY_PREFIXES limit 0.
End Sealed.

(** ** Lemmas *)

Lemma string_field_content content :
  string_field "subject" (map (fun '(k, s) => (k, JStr s)) (content_fields content))
    = Some (c_subject content)
  /\ string_field "html" (map (fun '(k, s) => (k, JStr s)) (content_fields content))
    = Some (c_html content)
  /\ string_field "text" (map (fun '(k, s) => (k, JStr s)) (content_fields content))
    = Some (c_text content).
Proof. done. Qed.

(** Nothing but the row's own id and address give its binding. *)
Lemma boundTo_inj id to id' to' : boundTo id to = boundTo id' to' -> id = id' /\ to = to'.
Proof.
  unfold boundTo. cbn [json_stringify map join]. intros H.
  apply string_app_inj_l in H. rewrite !string_app_assoc in H.
  apply string_app_inj_l, string_app_inj_l in H.
  apply json_quote_inj in H as [Hid H]. apply string_app_inj_l in H.
  apply json_quote_inj in H as [Hto _]. done.
Qed.

Lemma slice_from_app p s : slice_from (String.length p) (p +:+ s) = s.
Proof. induction p as [|c p IH]; [done|]. rewrite string_app_cons. exact IH. Qed.

Lemma content_json_parses `{CryptoLaws} content :
  json_parse (json_stringify (content_json content)) = Some (content_json content).
Proof. apply json_parse_strings. apply (bool_decide_eq_true_1 _). done. Qed.

(** A row with sealed content. *)
Lemma open_sealed_row `{CryptoPrimitives} secretKey entry iv content id to :
  o_subject entry = (sealMailContent (createCrypto secretKey) id to content iv).1.1 ->
  o_body_text entry = (sealMailContent (createCrypto secretKey) id to content iv).2 ->
  openOutboxRecord (createCrypto secretKey) entry =
    match openOutbox (createCrypto secretKey)
            (sealOutbox (createCrypto secretKey) (content_json content) (boundTo id to) iv)
            (boundTo (o_id entry) (o_to_email entry)) with
    | Throw _ =>
        Throw (sealedOutboxError ("sealed message could not be opened: it was altered, copied from another row, or "
                                    +:+ "sealed under a previous NEXUS_SECRET_KEY"))
    | Ok (JObj l) =>
        match string_field "subject" l, string_field "html" l, string_field "text" l with
        | Some subject, Some html, Some text =>
            Ok {| c_subject := subject; c_html := html; c_text := text |}
        | _, _, _ => Throw (sealedOutboxError "sealed message opened to something that is not mail content")
        end
    | Ok _ => Throw (sealedOutboxError "sealed message opened to something that is not mail content")
    end.
Proof.
  intros Hs Ht. unfold openOutboxRecord. rewrite Hs, Ht. unfold sealMailContent.
  cbn [fst snd]. rewrite startsWith_app, bool_decide_eq_true_2 by done.
  rewrite slice_from_app. rewrite bool_decide_eq_true_2 by done. done.
Qed.

Definition sample_content : MailContent :=
  {| c_subject := "Reset"; c_html := "<a href='x'>link</a>"; c_text := "link" |}.

(** ** Properties *)

(** C36: a sealed message is delivered as written, and only from its own row.
    The row an enqueue of sealed input writes opens to the content it was
    given; nothing of the content is in its subject or HTML; and the same
    columns on a row with another id or another address do not open, unless
    AES-GCM was forged. *)
Theorem sealed_message_bound_to_row `{CryptoLaws} (secretKey to iv id : string)
    (content : MailContent) (key recipient : option string) (now : Z)
    (entry : EmailOutboxRecord) (opened : MailContent)
    (Hiv : String.length iv = GCM_IV_BYTES) :
  let c := createCrypto secretKey in
  let row := enqueued_row (sealedEnqueueInput c to content key recipient id iv) id true now in
  openOutboxRecord c row = Ok content
  /\ isSealedOutboxRecord row = true
  /\ (o_subject row, o_body_html row) = (OUTBOX_SEALED_SUBJECT, ""%string)
  /\ (o_subject entry = o_subject row -> o_body_text entry = o_body_text row ->
      openOutboxRecord c entry = Ok opened ->
      (o_id entry, o_to_email entry) = (id, to)
      \/ forgery (deriveKey secretKey OUTBOX_KEY_INFO) iv (Some (boundTo id to))
           (Some (boundTo (o_id entry) (o_to_email entry)))).
Proof.
  intros c row. subst c.
  assert (Hsub : o_subject row = (sealMailContent (createCrypto secretKey) id to content iv).1.1) by done.
  assert (Htext : o_body_text row = (sealMailContent (createCrypto secretKey) id to content iv).2) by done.
  split_and!.
  - rewrite (open_sealed_row secretKey row iv content id to Hsub Htext).
    change (o_id row) with id. change (o_to_email row) with to. simpl.
    unfold decryptJsonWithKey, encryptJsonWithKey.
    rewrite decrypt_encrypt; [|done|done|apply content_json_parses].
    unfold content_json. destruct (string_field_content content) as (-> & -> & ->).
    by destruct content.
  - unfold isSealedOutboxRecord. rewrite Hsub, Htext. unfold sealMailContent. cbn [fst snd].
    by rewrite startsWith_app, bool_decide_eq_true_2.
  - done.
  - intros Hes Het Hopen. rewrite Hsub in Hes. rewrite Htext in Het.
    rewrite (open_sealed_row secretKey entry iv content id to Hes Het) in Hopen.
    destruct (openOutbox _ _ _) as [v|e] eqn:Ho; [|done]. simpl in Ho.
    destruct (decide ((o_id entry, o_to_email entry) = (id, to))) as [|Hne]; [by left|right].
    eapply decrypt_other_aad; [|exact Ho|]; [done|].
    intros Hb. assert (Hb' : boundTo id to = boundTo (o_id entry) (o_to_email entry)) by congruence.
    apply boundTo_inj in Hb' as [-> ->]. by apply Hne.
Qed.

Lemma sealed_message_bound_to_row_witness :
  let c := createCrypto (H := sample_primitives) "secret" in
  let row := enqueued_row (sealedEnqueueInput c "a@x" sample_content None None "m1"
                             "abcdefghijkl") "m1" true 5 in
  openOutboxRecord c row = Ok sample_content
  /\ is_ok (openOutboxRecord c (o_write OPending None None 5 0 "" row)) = true
  /\ is_ok (openOutboxRecord c
       (enqueued_row (sealedEnqueueInput c "a@x" sample_content None None "m1" "abcdefghijkl")
          "m2" true 5)) = false.
Proof.
  split; [|split; vm_compute; reflexivity].
  refine (proj1 (@sealed_message_bound_to_row sample_primitives sample_laws "secret" "a@x"
                   "abcdefghijkl" "m1" sample_content None None 5 sample_mail sample_content _)).
  reflexivity.
Defined.
