(* ===== verification/OutboxWorker.v ===== *)
(** * The outbox worker

    [server/src/email/outbox-worker.ts]: one tick of the only code that talks to
    SMTP. The result object of a tick is [w_counters]; the log is not modelled. *)

From S2P Require Import Prelude Json Roles Leases ClaimQueue Users Outbox World LeaseFence KeyedSerializer Crypto SealedOutbox.
Open Scope Z_scope.

Definition OUTBOX_MAX_ATTEMPTS : Z := 5.
Definition OUTBOX_BATCH_SIZE : nat := 20.
Definition OUTBOX_BASE_BACKOFF_MS : Z := 30000.
Definition OUTBOX_MAX_BACKOFF_MS : Z := 60 * 60000.
Definition OUTBOX_STALE_AFTER_MS : Z := 5 * 60000.
Definition SMTP_SEND_BUDGET_MS : Z := 60000.
Definition OUTBOX_SEND_BUDGET_MS : Z := SMTP_SEND_BUDGET_MS.
Definition OUTBOX_DELIVERED_UNACKNOWLEDGED : string := "delivered-unacknowledged".
Definition OUTBOX_SEALED_UNREADABLE : string := "sealed-unreadable".

Record OutboxTickResult : Type := {
  released : Z;
  claimed : Z;
  sent : Z;
  rescheduled : Z;
  failed : Z;
  unacknowledged : Z;
  lost : Z;
  abandoned : Z;
  sealedLegacy : Z;
  skipped : bool;
}.

Inductive Authorization : Type := Allowed | Ineligible | Lost.

Definition backoff_base (attempts : Z) : Z :=
  Z.min (OUTBOX_BASE_BACKOFF_MS * 2 ^ Z.max 0 (Z.min attempts 16)) OUTBOX_MAX_BACKOFF_MS.

(** [Math.round(base + base * 0.1 * random())], as an exact fraction. *)
Definition backoffDelayMs (attempts random : Z) : Z :=
  let base := backoff_base attempts in
  round_div (10 * base * random_den + base * random) (10 * random_den).

(** ** The store's calls *)

Definition users_lock_recipient (id email : string) : M bool :=
  statement_ok (fun t d =>
    let '(users, ok) := lockEmailRecipient id email (t_ids t 0) (d_users d) in
    (ok, with_users users d)).

Definition outbox_find (id : string) : M (option EmailOutboxRecord) :=
  statement_ok (fun _ d => (outbox_findById id (d_outbox d), d)).

Definition outbox_write (f : turn -> outbox_table -> outbox_table * bool) : M bool :=
  statement_ok (fun t d => let '(o, ok) := f t (d_outbox d) in (ok, with_outbox o d)).

Definition outbox_beginDelivery (entry : EmailOutboxRecord) (at_ : Z) : M bool :=
  outbox_write (fun _ => beginDelivery entry at_).
Definition outbox_markSent (entry : EmailOutboxRecord) (at_ : Z) : M bool :=
  outbox_write (fun _ => markSent entry at_).
Definition outbox_markFailed (entry : EmailOutboxRecord) (lastError : string) : M bool :=
  outbox_write (fun t => markFailed entry lastError (t_now t)).
Definition outbox_reschedule (entry : EmailOutboxRecord) (nextAttemptAt : Z) (lastError : string)
    : M bool :=
  outbox_write (fun t => reschedule entry nextAttemptAt lastError (t_now t)).

Definition outbox_releaseStale (olderThan : Z) : M Z :=
  statement_ok (fun t d =>
    let '(o, n) := releaseStale olderThan (t_now t) (d_outbox d) in (n, with_outbox o d)).

Definition outbox_claim_one (now : Z) : M (option EmailOutboxRecord) :=
  statement_ok (fun t d =>
    let '(users, o, claimed) := outbox_claimDue now 1 (t_ids t) (t_now t) (d_users d) (d_outbox d) in
    (head claimed, with_outbox o (with_users users d))).

(** [transport.send(mail, { deadline })]. *)
Definition transport_send (mail : OutboundMail) (deadline : Z) : M unit :=
  do t <- await_turn (fun t => t);
  do_ (fun w => (Ok tt, emit (Sent mail (t_now t) deadline (t_smtp t)) w));
  match t_smtp t with
  | SmtpAccepted => mret tt
  | SmtpUnacknowledged message =>
      mthrow {| ex_code := None; ex_message := message; ex_details := []; ex_lease_lost := false;
                ex_lock_timeout := false; ex_unacknowledged := true |}
  | SmtpRejected message => mthrow (driverError message)
  end.

Definition isDeliveredUnacknowledged (e : exn) : bool := ex_unacknowledged e.

(** ** One claimed row *)
Section Worker.
Context (crypto : NexusCrypto) (transportFactory : M bool) (transport_close : M unit).
Context (batchSize : nat).

Definition lostClaim : M unit := bump "lost" 1.

(** One transaction: the claim is still ours, the recipient still holds the
    address, and both rows are written. *)
Definition authorize_body (entry : EmailOutboxRecord) (at_ : Z) : M Authorization :=
  do current <- outbox_find (o_id entry);
  if match current with
     | Some r => negb (bool_decide (o_status r = OSending))
                 || negb (bool_decide (o_generation r = o_generation entry))
     | None => true
     end
  then mret Lost
  else
    do legacyRecipient <-
      match o_recipient_user_id entry with
      | None => users_find_email (o_to_email entry)
      | Some _ => mret None
      end;
    let userId := match o_recipient_user_id entry with
                  | Some id => Some id
                  | None => u_id <$> legacyRecipient
                  end in
    do refused <-
      if isReleasedEmail (o_to_email entry) then mret true
      else match truthy_id userId with
           | Some id => do ok <- users_lock_recipient id (o_to_email entry); mret (negb ok)
           | None => mret false
           end;
    if refused : bool
    then do ok <- outbox_markFailed entry "recipient-address-changed";
         mret (if ok : bool then Ineligible else Lost)
    else do ok <- outbox_beginDelivery entry at_;
         mret (if ok : bool then Allowed else Lost).

Definition authorize (entry : EmailOutboxRecord) (at_ : Z) : M Authorization :=
  transaction (authorize_body entry at_).

Definition failUnreadable (entry : EmailOutboxRecord) (cause : exn) : M unit :=
  do ok <- outbox_markFailed entry (OUTBOX_SEALED_UNREADABLE +:+ ": " +:+ ex_message cause);
  if ok : bool then bump "failed" 1 else lostClaim.

Definition parkUnacknowledged (entry : EmailOutboxRecord) (cause : exn) : M unit :=
  do_ bump "unacknowledged" 1;
  mcatch
    (do parked <- outbox_markFailed entry
                    (OUTBOX_DELIVERED_UNACKNOWLEDGED +:+ ": " +:+ ex_message cause);
     if parked : bool then mret tt else lostClaim)
    (fun _ => mret tt).

(** A transport that rejected before the message was fully written. *)
Definition notDelivered (entry : EmailOutboxRecord) (error : exn) : M unit :=
  if bool_decide (OUTBOX_MAX_ATTEMPTS <= o_attempts entry)
  then do ok <- outbox_markFailed entry (ex_message error);
       if ok : bool then bump "failed" 1 else lostClaim
  else do now <- date_now;
       do r <- math_random;
       do ok <- outbox_reschedule entry (now + backoffDelayMs (o_attempts entry) r) (ex_message error);
       if ok : bool then bump "rescheduled" 1 else lostClaim.

(** The relay has the message. *)
Definition acknowledge (entry : EmailOutboxRecord) : M unit :=
  mcatch
    (do now <- date_now;
     do ok <- outbox_markSent entry now;
     if ok : bool then bump "sent" 1 else lostClaim)
    (fun error => parkUnacknowledged entry error).

Definition mail_of (entry : EmailOutboxRecord) (content : MailContent) : OutboundMail := {|
  mail_to := o_to_email entry; mail_subject := c_subject content; mail_html := c_html content;
  mail_text := c_text content;
|}.

(** What follows an authorization made at [at_]. *)
Definition handoff (entry : EmailOutboxRecord) (at_ : Z) : M unit :=
  let deadline := at_ + OUTBOX_SEND_BUDGET_MS in
  do now <- date_now;
  if bool_decide (deadline <= now)
  then do at2 <- date_now;
       do ok <- outbox_reschedule entry at2 "handoff-expired";
       if ok : bool then bump "rescheduled" 1 else lostClaim
  else match openOutboxRecord crypto entry with
       | Throw error => failUnreadable entry error
       | Ok content =>
           do outcome <- mattempt (transport_send (mail_of entry content) deadline);
           match outcome with
           | Throw error => if isDeliveredUnacknowledged error
                            then parkUnacknowledged entry error else notDelivered entry error
           | Ok _ => acknowledge entry
           end
       end.

Definition deliverClaimed (entry : EmailOutboxRecord)
    (underAccount : M (Z * Authorization) -> M (Z * Authorization)) : M unit :=
  do a <- underAccount (do started <- date_now;
                        do authorized <- authorize entry started;
                        mret (started, authorized));
  match a.2 with
  | Lost => lostClaim
  | Ineligible => bump "failed" 1
  | Allowed => handoff entry a.1
  end.

Definition deliver (entry : EmailOutboxRecord) : M unit :=
  do recipient <-
    match truthy_id (o_recipient_user_id entry) with
    | Some id => users_find id
    | None => users_find_email (o_to_email entry)
    end;
  let userId := match o_recipient_user_id entry with
                | Some id => Some id
                | None => u_id <$> recipient
                end in
  match truthy_id userId with
  | None => deliverClaimed entry (fun run => run)
  | Some userId =>
      locks (userMailHandoffLockKey userId)
        (deliverClaimed entry (fun run => locks (userLifecycleLockKey userId) run))
  end.

(** ** One tick *)

Definition sealLegacy (legacyRowsMayRemain : bool) : M bool :=
  if legacyRowsMayRemain
  then mcatch
         (do swept <- sealLegacyBearerRows crypto LEGACY_SEAL_BATCH;
          do_ set_counter "sealedLegacy" swept.1;
          mret swept.2)
         (fun _ => mret true)
  else mret false.

Definition release_stale : M unit :=
  do now <- date_now;
  do n <- outbox_releaseStale (now - OUTBOX_STALE_AFTER_MS);
  set_counter "released" n.

(** [batchSize - taken] rows are left to take. *)
Fixpoint claim_loop (left : nat) : M unit :=
  match left with
  | O => mret tt
  | S left' =>
      do stop <- stopping;
      if stop : bool then mret tt
      else
        do now <- date_now;
        do claim <- outbox_claim_one now;
        match claim with
        | None => mret tt
        | Some entry =>
            do_ bump "claimed" 1;
            do_ mcatch (deliver entry) (fun _ => bump "abandoned" 1);
            claim_loop left'
        end
  end.

Definition tick_result (skip : bool) (w : world) : OutboxTickResult :=
  if skip
  then {| released := counter "released" w; claimed := 0; sent := 0; rescheduled := 0; failed := 0;
          unacknowledged := 0; lost := 0; abandoned := 0;
          sealedLegacy := counter "sealedLegacy" w; skipped := true |}
  else {| released := counter "released" w; claimed := counter "claimed" w;
          sent := counter "sent" w; rescheduled := counter "rescheduled" w;
          failed := counter "failed" w; unacknowledged := counter "unacknowledged" w;
          lost := counter "lost" w; abandoned := counter "abandoned" w;
          sealedLegacy := counter "sealedLegacy" w; skipped := false |}.

Definition read_result (skip : bool) : M OutboxTickResult := fun w => (Ok (tick_result skip w), w).

(** The result, and what is left of the legacy sweep. *)
Definition runTick (legacyRowsMayRemain : bool) : M (OutboxTickResult * bool) :=
  do_ (fun w => (Ok tt, set_counters ∅ w));
  do_ mcatch release_stale (fun _ => mret tt);
  do legacy <- sealLegacy legacyRowsMayRemain;
  do transport <- mattempt transportFactory;
  do result <-
    match transport with
    | Throw _ => read_result false
    | Ok false => read_result true
    | Ok true =>
        do_ mattempt (claim_loop batchSize);
        do result <- read_result false;
        do_ mattempt transport_close;
        mret result
    end;
  mret (result, legacy).
End Worker.

(** ** Lemmas: the back-off *)

Lemma backoff_base_bounds attempts : 30000 <= backoff_base attempts <= 3600000.
Proof.
  unfold backoff_base, OUTBOX_BASE_BACKOFF_MS, OUTBOX_MAX_BACKOFF_MS.
  pose proof (Z.pow_pos_nonneg 2 (Z.max 0 (Z.min attempts 16))). lia.
Qed.

Lemma backoff_base_mono a b : a <= b -> backoff_base a <= backoff_base b.
Proof.
  intros Hab. unfold backoff_base, OUTBOX_BASE_BACKOFF_MS.
  pose proof (Z.pow_le_mono_r 2 (Z.max 0 (Z.min a 16)) (Z.max 0 (Z.min b 16))). lia.
Qed.

Lemma backoffDelayMs_window attempts random :
  random_ok random ->
  backoff_base attempts <= backoffDelayMs attempts random <= backoff_base attempts * 11 / 10 + 1.
Proof.
  intros [Hlo Hhi]. pose proof (backoff_base_bounds attempts) as Hb. unfold backoffDelayMs.
  set (b := backoff_base attempts) in *. assert (Hd : 0 < random_den) by done.
  set (d := random_den) in *. clearbody b d.
  apply round_div_bounds; [lia|nia|].
  assert (b * 11 < 10 * (b * 11 / 10 + 1)) by (pose proof (Z.mul_succ_div_gt (b * 11) 10); lia).
  nia.
Qed.

(** ** Lemmas: what happens to the claimed row *)
Section Row.
Context (env : nat -> turn) (entry : EmailOutboxRecord).

(** Nobody else writes the row: its claim is held and its address is not
    released. *)
Definition row_stable : Prop := forall n d,
  d_outbox (t_rivals (env n) d) !! o_id entry = d_outbox d !! o_id entry.

(** The row satisfies [P] and the trace is [tr0]. *)
Definition row_pred (tr0 : list event) (P : EmailOutboxRecord -> Prop) : world_pred :=
  fun d tr _ => tr = tr0 /\ exists r, d_outbox d !! o_id entry = Some r /\ P r.

Definition not_queued (r : EmailOutboxRecord) : Prop := o_status r <> OPending.

Context (Hstable : row_stable).

Lemma row_pred_rivals tr0 P : rival_closed env (row_pred tr0 P).
Proof. intros n d tr c [-> (r & Hr & HP)]. split; [done|]. exists r. by rewrite Hstable. Qed.

Lemma row_pred_leases tr0 P : lease_closed (row_pred tr0 P).
Proof. intros d tr c l H. exact H. Qed.

Lemma row_pred_weaken tr0 (P Q : EmailOutboxRecord -> Prop) :
  (forall r, P r -> Q r) -> implies (row_pred tr0 P) (row_pred tr0 Q).
Proof. intros HPQ d tr c [-> (r & Hr & HP)]. split; [done|]. exists r. auto. Qed.

Lemma leads_settle tr0 (P Q : EmailOutboxRecord -> Prop) f :
  (forall r, P r -> Q r) -> (forall n r, P r -> Q (f (env n) r)) ->
  leads env (row_pred tr0 P) (row_pred tr0 Q) (outbox_write (fun t => settle_claimed entry (f t))).
Proof.
  intros HPQ Hf. apply leads_statement_ok; [apply row_pred_rivals|by apply row_pred_weaken|].
  intros n d tr c [-> (r & Hr & HP)]. split; [done|].
  destruct (settle_claimed entry (f (env n)) (d_outbox d)) as [o ok] eqn:Hs. simpl.
  apply settle_spec in Hs as [[_ ->]|(_ & r2 & Hr2 & _ & ->)]; [exists r; auto|].
  assert (r2 = r) as -> by congruence. rewrite lookup_insert_eq. eauto.
Qed.

(** A write that does not queue the row keeps it out of the queue. *)
Lemma leads_settle_final tr0 f :
  (forall n r, o_status (f (env n) r) <> OPending) ->
  leads env (row_pred tr0 not_queued) (row_pred tr0 not_queued)
    (outbox_write (fun t => settle_claimed entry (f t))).
Proof. intros Hf. apply leads_settle; [done|]. intros n r _. apply Hf. Qed.

Lemma leads_beginDelivery tr0 at_ :
  leads env (row_pred tr0 not_queued) (row_pred tr0 not_queued) (outbox_beginDelivery entry at_).
Proof. apply (leads_settle_final tr0 (fun _ r => _)). done. Qed.

Lemma leads_markSent tr0 at_ :
  leads env (row_pred tr0 not_queued) (row_pred tr0 not_queued) (outbox_markSent entry at_).
Proof. apply (leads_settle_final tr0 (fun _ r => _)). done. Qed.

Lemma leads_markFailed tr0 error :
  leads env (row_pred tr0 not_queued) (row_pred tr0 not_queued) (outbox_markFailed entry error).
Proof. apply (leads_settle_final tr0 (fun t r => o_write OFailed None (Some error) (t_now t) _ _ r)). done. Qed.

Lemma leads_reschedule tr0 next error (Q : EmailOutboxRecord -> Prop) :
  (forall r, not_queued r -> Q r) ->
  (forall n r, not_queued r ->
     Q (o_write OPending (Some next) (Some error) (t_now (env n)) (o_attempts r) (o_generation r) r)) ->
  leads env (row_pred tr0 not_queued) (row_pred tr0 Q) (outbox_reschedule entry next error).
Proof.
  intros HQ Hw.
  apply (leads_settle tr0 not_queued Q
           (fun t r => o_write OPending (Some next) (Some error) (t_now t) (o_attempts r) (o_generation r) r));
    done.
Qed.

Lemma leads_row_bump tr0 P field n : leads env (row_pred tr0 P) (row_pred tr0 P) (bump field n).
Proof. by apply leads_bump. Qed.

Lemma leads_row_read {A} tr0 P (f : turn -> db -> A) :
  leads env (row_pred tr0 P) (row_pred tr0 P) (statement_ok (fun t d => (f t d, d))).
Proof. apply leads_read, row_pred_rivals. Qed.

Lemma leads_lock_recipient tr0 P id email :
  leads env (row_pred tr0 P) (row_pred tr0 P) (users_lock_recipient id email).
Proof.
  apply leads_statement_ok; [apply row_pred_rivals|by intros ???|].
  intros n d tr c H. by destruct (lockEmailRecipient _ _ _ _).
Qed.

(** The structural steps of a proof of [leads] for a row predicate. *)
Ltac row_bind := eapply leads_bind; [| |by intros ???].

Lemma leads_settled_answer tr0 P (m : M bool) (field : string) :
  leads env (row_pred tr0 not_queued) (row_pred tr0 P) m ->
  leads env (row_pred tr0 not_queued) (row_pred tr0 P)
    (do ok <- m; if ok : bool then bump field 1 else lostClaim).
Proof. intros Hm. row_bind; [exact Hm|]. intros []; apply leads_row_bump. Qed.

Lemma leads_authorize tr0 at_ :
  leads env (row_pred tr0 not_queued) (row_pred tr0 not_queued) (authorize entry at_).
Proof.
  unfold authorize, authorize_body. apply leads_transaction; [apply row_pred_rivals..|by intros ???| |].
  - row_bind; [apply leads_row_read|]. intros current.
    case_match; [by apply leads_ret; intros ???|].
    eapply leads_bind with (K := row_pred tr0 not_queued); [| |by intros ???].
    { destruct (o_recipient_user_id entry); [by apply leads_ret; intros ???|apply leads_row_read]. }
    intros legacy. eapply leads_bind with (K := row_pred tr0 not_queued); [| |by intros ???].
    { destruct (isReleasedEmail _); [by apply leads_ret; intros ???|].
      destruct (truthy_id _); [|by apply leads_ret; intros ???].
      row_bind; [apply leads_lock_recipient|]. intros ok. apply leads_ret. by intros ???. }
    intros [].
    + row_bind; [apply leads_markFailed|]. intros ok. apply leads_ret. by intros ???.
    + row_bind; [apply leads_beginDelivery|]. intros ok. apply leads_ret. by intros ???.
  - intros d d' tr tr' c c' [-> Hr] [-> _]. done.
Qed.

Lemma leads_parkUnacknowledged tr0 e :
  leads env (row_pred tr0 not_queued) (row_pred tr0 not_queued) (parkUnacknowledged entry e).
Proof.
  unfold parkUnacknowledged. row_bind; [apply leads_row_bump|]. intros _.
  eapply leads_catch; [| |by intros ???].
  - row_bind; [apply leads_markFailed|]. intros []; [by apply leads_ret; intros ???|apply leads_row_bump].
  - intros _. apply leads_ret. by intros ???.
Qed.

Lemma leads_acknowledge tr0 :
  leads env (row_pred tr0 not_queued) (row_pred tr0 not_queued) (acknowledge entry).
Proof.
  unfold acknowledge. eapply leads_catch; [| |by intros ???].
  - row_bind; [apply leads_date_now|]. intros now. apply leads_settled_answer, leads_markSent.
  - intros e. apply leads_parkUnacknowledged.
Qed.

Lemma leads_failUnreadable tr0 e :
  leads env (row_pred tr0 not_queued) (row_pred tr0 not_queued) (failUnreadable entry e).
Proof. apply leads_settled_answer, leads_markFailed. Qed.

(** How the row may have come back to the queue after a rejected delivery. *)
Definition requeued (msg : string) (r : EmailOutboxRecord) : Prop :=
  o_status r = OPending ->
    o_attempts entry < OUTBOX_MAX_ATTEMPTS /\ o_last_error r = Some msg
    /\ exists n, o_next_attempt_at r =
         Some (t_now (env n) + backoffDelayMs (o_attempts entry) (t_random (env n))).

Lemma leads_notDelivered tr0 e :
  leads env (row_pred tr0 not_queued) (row_pred tr0 (requeued (ex_message e))) (notDelivered entry e).
Proof.
  unfold notDelivered. case_bool_decide as Hmax.
  - eapply leads_weaken; [apply leads_settled_answer, leads_markFailed|].
    apply row_pred_weaken. by intros r Hr Hp.
  - intros w He HI. unfold date_now, math_random, mbind at 1. unfold mbind at 1.
    apply (leads_settled_answer tr0 (requeued (ex_message e)) _ "rescheduled"); [|done..].
    apply leads_reschedule; [by intros r Hr Hp|]. intros n r Hr Hp. simpl. split_and!; [lia|done|].
    exists (w_turn w). unfold cur. by rewrite He.
Qed.

(** What one [deliver] leaves: the row is there and, if nothing was sent, it is
    back in the queue only as an expired handoff; if a message was sent it is the
    row's content to the row's address, once, and the row is back in the queue
    only if the relay rejected the message. *)
Definition delivered_once (crypto : NexusCrypto) (tr0 : list event) : world_pred :=
  fun d tr _ => exists r, d_outbox d !! o_id entry = Some r
  /\ ((tr = tr0 /\ (o_status r = OPending -> o_last_error r = Some "handoff-expired"%string))
      \/ exists content at_ deadline outcome,
           openOutboxRecord crypto entry = Ok content /\ at_ < deadline
           /\ tr = tr0 ++ [Sent (mail_of entry content) at_ deadline outcome]
           /\ match outcome with
              | SmtpRejected message => requeued message r
              | _ => not_queued r
              end).

Lemma delivered_once_closed crypto tr0 :
  rival_closed env (delivered_once crypto tr0) /\ lease_closed (delivered_once crypto tr0).
Proof.
  split; [|by intros ? ? ? ? H]. intros n d tr c (r & Hr & H). exists r. by rewrite Hstable.
Qed.

Lemma delivered_once_unsent crypto tr0 (P : EmailOutboxRecord -> Prop) :
  (forall r, P r -> o_status r = OPending -> o_last_error r = Some "handoff-expired"%string) ->
  implies (row_pred tr0 P) (delivered_once crypto tr0).
Proof. intros HP d tr c [-> (r & Hr & H)]. exists r. split; [done|]. left. eauto. Qed.

Lemma delivered_once_not_queued crypto tr0 :
  implies (row_pred tr0 not_queued) (delivered_once crypto tr0).
Proof. apply delivered_once_unsent. by intros r Hr Hp. Qed.

(** The send itself: one event, and the answer the relay's outcome gives. *)
Lemma transport_send_spec mail deadline tr0 P w r w' :
  transport_send mail deadline w = (r, w') -> w_env w = env -> at_world (row_pred tr0 P) w ->
  exists outcome, w_env w' = env
    /\ at_world (row_pred (tr0 ++ [Sent mail (t_now (cur w)) deadline outcome]) P) w'
    /\ match outcome with
       | SmtpAccepted => r = Ok tt
       | SmtpUnacknowledged _ => exists e, r = Throw e /\ isDeliveredUnacknowledged e = true
       | SmtpRejected message => r = Throw (driverError message)
       end.
Proof.
  intros H He HI. destruct (leads_await_turn env _ (fun t => t) (row_pred_rivals tr0 P) w He HI) as [He1 HI1].
  unfold transport_send in H. unfold mbind at 1 in H. unfold await_turn in H, He1, HI1. simpl in *.
  unfold mbind in H. exists (t_smtp (cur w)).
  destruct HI1 as [Htr Hrow]. simpl in *.
  destruct (t_smtp (cur w)); simpl in H; injection H as <- <-; (split_and!; [done| |eauto]);
    (split; [simpl; by rewrite Htr|done]).
Qed.

Lemma leads_handoff crypto tr0 at_ :
  leads env (row_pred tr0 not_queued) (delivered_once crypto tr0) (handoff crypto entry at_).
Proof.
  unfold handoff. intros w He HI. rewrite date_now_bind.
  case_bool_decide as Hexp.
  - rewrite date_now_bind.
    refine (leads_weaken env _ (delivered_once crypto tr0) (row_pred tr0 (fun r => o_status r = OPending ->
              o_last_error r = Some "handoff-expired"%string)) _ _ _ w He HI).
    + apply leads_settled_answer, leads_reschedule; [by intros r Hr Hp|done].
    + by apply delivered_once_unsent.
  - destruct (openOutboxRecord crypto entry) as [content|e] eqn:Hopen.
    + unfold mbind, mattempt. destruct (transport_send _ _ w) as [x w1] eqn:Hsend.
      destruct (transport_send_spec _ _ _ _ _ _ _ Hsend He HI) as (outcome & He1 & HI1 & Hx).
      set (tr1 := tr0 ++ _) in *.
      assert (Hfin : forall P, (forall r, P r -> match outcome with
                 | SmtpRejected message => requeued message r | _ => not_queued r end) ->
               implies (row_pred tr1 P) (delivered_once crypto tr0)).
      { intros P HP d tr c [-> (r & Hr & HPr)]. exists r. split; [done|]. right.
        exists content, (t_now (cur w)), (at_ + OUTBOX_SEND_BUDGET_MS), outcome.
        split_and!; [done|lia|done|by apply HP]. }
      destruct outcome as [|msg|msg].
      * subst x. refine (leads_weaken env _ (delivered_once crypto tr0) _ _ (leads_acknowledge tr1) (Hfin _ _) w1 He1 HI1). done.
      * destruct Hx as (e & -> & ->).
        refine (leads_weaken env _ (delivered_once crypto tr0) _ _ (leads_parkUnacknowledged tr1 e) (Hfin _ _) w1 He1 HI1). done.
      * subst x. simpl.
        refine (leads_weaken env _ (delivered_once crypto tr0) _ _ (leads_notDelivered tr1 (driverError msg)) (Hfin _ _) w1 He1 HI1).
        done.
    + refine (leads_weaken env _ (delivered_once crypto tr0) _ _ (leads_failUnreadable tr0 e) _ w He HI).
      apply delivered_once_not_queued.
Qed.

Lemma leads_deliverClaimed crypto tr0 under :
  (forall m, leads env (row_pred tr0 not_queued) (row_pred tr0 not_queued) m ->
             leads env (row_pred tr0 not_queued) (row_pred tr0 not_queued) (under m)) ->
  leads env (row_pred tr0 not_queued) (delivered_once crypto tr0)
    (deliverClaimed crypto entry under).
Proof.
  intros Hunder. unfold deliverClaimed.
  eapply leads_bind; [apply Hunder| |apply delivered_once_not_queued].
  - row_bind; [apply leads_date_now|]. intros started.
    row_bind; [apply leads_authorize|]. intros a. apply leads_ret. by intros ???.
  - intros [started []]; [apply leads_handoff|..].
    all: apply leads_bump; apply delivered_once_not_queued.
Qed.

Lemma leads_deliver crypto tr0 :
  leads env (row_pred tr0 not_queued) (delivered_once crypto tr0) (deliver crypto entry).
Proof.
  unfold deliver. destruct (delivered_once_closed crypto tr0) as [Hrc Hlc].
  eapply leads_bind with (K := row_pred tr0 not_queued); [| |apply delivered_once_not_queued].
  { destruct (truthy_id _); apply leads_row_read. }
  intros recipient. destruct (truthy_id _).
  - apply leads_locks; [apply row_pred_rivals|apply row_pred_leases|done..
                       |apply delivered_once_not_queued|].
    apply leads_deliverClaimed. intros m Hm.
    apply leads_locks; first [apply row_pred_rivals|apply row_pred_leases|done|by intros ???].
  - by apply leads_deliverClaimed.
Qed.
End Row.

(** ** Lemmas: who is not written to

    A message may not be sent when the claim is gone, when the address is one a
    released account left behind, or when the account the row names no longer
    holds the address. *)

Definition holds_address (id email : string) (d : db) : bool :=
  match d_users d !! id with
  | Some u => bool_decide (u_email u = toLowerCase (trim email))
  | None => false
  end.

Definition may_not_send (entry : EmailOutboxRecord) (d : db) : Prop :=
  claim_held (o_id entry) (o_generation entry) (d_outbox d) = false
  \/ isReleasedEmail (o_to_email entry) = true
  \/ exists id, o_recipient_user_id entry = Some id /\ id <> ""%string
                /\ holds_address id (o_to_email entry) d = false.

Section MayNotSend.
Context (env : nat -> turn) (entry : EmailOutboxRecord).
Context (Hrivals : forall n d, may_not_send entry d -> may_not_send entry (t_rivals (env n) d)).

Definition unsendable (tr0 : list event) : world_pred :=
  fun d tr _ => may_not_send entry d /\ tr = tr0.

Lemma unsendable_rivals tr0 : rival_closed env (unsendable tr0).
Proof. intros n d tr c [H ->]. split; [by apply Hrivals|done]. Qed.

Lemma unsendable_leases tr0 : lease_closed (unsendable tr0).
Proof. by intros d tr c l H. Qed.

(** The worker's own writes end the claim, or leave the row claimed. *)
Lemma may_not_send_settle d f :
  may_not_send entry d -> may_not_send entry (with_outbox (settle_claimed entry f (d_outbox d)).1 d).
Proof. intros [Hc|H]; [|by right]. left. simpl. by rewrite settle_refused. Qed.

Lemma may_not_send_lock id email fence d u ok :
  lockEmailRecipient id email fence (d_users d) = (u, ok) ->
  may_not_send entry d -> may_not_send entry (with_users u d).
Proof.
  intros Hl [H|[H|(i & Hi & Hne & H)]]; [by left|by right; left|]. right; right. exists i.
  split_and!; [done..|]. unfold holds_address in *. simpl.
  pose proof (lockEmailRecipient_frame _ _ _ _ _ _ i Hl) as Hfr.
  destruct (u !! i) as [x|], (d_users d !! i) as [y|]; simpl in *; try done.
  injection Hfr as Hfr. by assert (u_email x = u_email y) as -> by congruence.
Qed.

Lemma leads_unsendable_settle tr0 f :
  leads env (unsendable tr0) (unsendable tr0) (outbox_write (fun t => settle_claimed entry (f t))).
Proof.
  apply leads_statement_ok; [apply unsendable_rivals|by intros ???|]. intros n d tr c [H ->].
  pose proof (may_not_send_settle d (f (env n)) H) as Hs.
  by destruct (settle_claimed entry (f (env n)) (d_outbox d)).
Qed.

Lemma leads_unsendable_read {A} tr0 (f : turn -> db -> A) :
  leads env (unsendable tr0) (unsendable tr0) (statement_ok (fun t d => (f t d, d))).
Proof. apply leads_read, unsendable_rivals. Qed.

(** No authorization is given: inside the transaction nobody else writes, so
    what its reads find is what its commit leaves. *)
Lemma authorize_body_allowed at_ (w w' : world) :
  w_tx w = true -> authorize_body entry at_ w = (Ok Allowed, w') -> ~ may_not_send entry (w_db w).
Proof.
  intros Htx H. apply mbind_ok in H as (current & w1 & Hfind & H).
  apply statement_ok_tx in Hfind as ([= Hcur Hdb1] & Htx1); [|done].
  unfold outbox_findById in Hcur. destruct current as [r|]; [|done].
  destruct (negb _ || negb _) eqn:Hclaim; [done|].
  apply mbind_ok in H as (legacy & w2 & Hleg & H).
  assert (Hw2 : w_db w2 = w_db w /\ w_tx w2 = true).
  { destruct (o_recipient_user_id entry); [by injection Hleg as _ <-|].
    apply statement_ok_tx in Hleg as ([= _ Hdb2] & Htx2); [|done]. split; congruence. }
  destruct Hw2 as [Hdb2 Htx2].
  apply mbind_ok in H as (refused & w3 & Href & H).
  destruct refused; [apply mbind_ok in H as (ok & w4 & _ & H); by destruct ok|].
  destruct (isReleasedEmail _) eqn:Hrel; [done|].
  intros [Hc|[Hr|(id & Hid & Hne & Haddr)]]; [|congruence|].
  - unfold claim_held in Hc. rewrite Hcur in Hc. simpl in Hc. unfold is_status in Hc.
    repeat case_bool_decide; done.
  - rewrite Hid in Href. simpl in Href. rewrite decide_False in Href by done.
    apply mbind_ok in Href as (ok & w4 & Hlock & Hok). injection Hok as Hok _.
    destruct ok; [|done]. apply statement_ok_tx in Hlock as (Hl & _); [|done].
    destruct (lockEmailRecipient _ _ _ _) as [u b] eqn:Hlk. injection Hl as -> _.
    apply lockEmailRecipient_true in Hlk as (_ & x & Hx & Hxe & _).
    unfold holds_address in Haddr. rewrite Hdb2 in Hx. rewrite Hx in Haddr.
    by rewrite bool_decide_eq_true_2 in Haddr.
Qed.

Lemma frame_authorize_body at_ : frame (authorize_body entry at_).
Proof.
  unfold authorize_body, outbox_find, users_find_email, users_lock_recipient, outbox_markFailed,
    outbox_beginDelivery, outbox_write. frames.
Qed.

Lemma authorize_refuses tr0 at_ :
  yields env (unsendable tr0) (fun a => a <> Allowed) (authorize entry at_).
Proof.
  intros w a w' He [HI _] H ->. unfold authorize in H. destruct (w_tx w) eqn:Htx.
  - unfold transaction in H. rewrite Htx in H.
    by apply (authorize_body_allowed at_ w w' Htx H).
  - apply transaction_ok_inv in H as (w1 & w2 & H & Htx1 & _ & Hdb & _);
      [|apply frame_authorize_body|done].
    apply (authorize_body_allowed at_ w1 w2 Htx1 H). rewrite Hdb. unfold cur. rewrite He.
    by apply Hrivals.
Qed.

Ltac un_bind := eapply leads_bind; [| |by intros ???].

Lemma leads_unsendable_answer {A B} tr0 (m : M B) (f : B -> A) :
  leads env (unsendable tr0) (unsendable tr0) m ->
  leads env (unsendable tr0) (unsendable tr0) (do ok <- m; mret (f ok)).
Proof. intros Hm. un_bind; [exact Hm|]. intros ok. apply leads_ret. by intros ???. Qed.

Lemma leads_unsendable_authorize tr0 at_ :
  leads env (unsendable tr0) (unsendable tr0) (authorize entry at_).
Proof.
  unfold authorize, authorize_body. apply leads_transaction; [apply unsendable_rivals..|by intros ???| |].
  - un_bind; [apply leads_unsendable_read|]. intros current.
    case_match; [by apply leads_ret; intros ???|].
    eapply leads_bind with (K := unsendable tr0); [| |by intros ???].
    { destruct (o_recipient_user_id entry); [by apply leads_ret; intros ???|apply leads_unsendable_read]. }
    intros legacy. eapply leads_bind with (K := unsendable tr0); [| |by intros ???].
    { destruct (isReleasedEmail _); [by apply leads_ret; intros ???|].
      destruct (truthy_id _); [|by apply leads_ret; intros ???].
      apply leads_unsendable_answer.
      apply leads_statement_ok; [apply unsendable_rivals|by intros ???|].
      intros n d tr c [Hm ->]. destruct (lockEmailRecipient _ _ _ _) as [u ok] eqn:Hl.
      split; [|done]. by eapply may_not_send_lock. }
    intros []; apply leads_unsendable_answer, (leads_unsendable_settle tr0 (fun t r => _)).
  - intros d d' tr tr' c c' [H ->] [_ ->]. done.
Qed.

Lemma leads_unsendable_deliverClaimed crypto tr0 under :
  (forall m, leads env (unsendable tr0) (unsendable tr0) m ->
             leads env (unsendable tr0) (unsendable tr0) (under m)) ->
  (forall m, yields env (unsendable tr0) (fun a => a.2 <> Allowed) m ->
             yields env (unsendable tr0) (fun a => a.2 <> Allowed) (under m)) ->
  leads env (unsendable tr0) (unsendable tr0) (deliverClaimed crypto entry under).
Proof.
  intros Hl Hy. unfold deliverClaimed.
  eapply leads_bind_yields; [apply Hl|apply Hy| |by intros ???].
  - un_bind; [apply leads_date_now|]. intros started.
    apply leads_unsendable_answer, leads_unsendable_authorize.
  - eapply yields_bind; [apply leads_date_now|]. intros started w a w' He HI H.
    apply mbind_ok in H as (x & w1 & H & Ha). injection Ha as <- _.
    by eapply (authorize_refuses tr0 started).
  - intros [started []] Ha; [done|..]; by apply leads_bump.
Qed.

Lemma leads_unsendable_deliver crypto tr0 :
  leads env (unsendable tr0) (unsendable tr0) (deliver crypto entry).
Proof.
  unfold deliver. eapply leads_bind with (K := unsendable tr0); [| |by intros ???].
  { destruct (truthy_id _); apply leads_unsendable_read. }
  intros recipient. destruct (truthy_id _) as [uid|].
  - apply leads_locks; [apply unsendable_rivals|apply unsendable_leases|apply unsendable_rivals
                       |apply unsendable_leases|by intros ???|].
    apply leads_unsendable_deliverClaimed.
    + intros m Hm. apply leads_locks;
        first [apply unsendable_rivals|apply unsendable_leases|done|by intros ???].
    + intros m Hm. by apply yields_locks; [apply unsendable_rivals|apply unsendable_leases|].
  - by apply leads_unsendable_deliverClaimed.
Qed.
End MayNotSend.

(** ** Lemmas: at most one message per claimed row

    [tally P]: a relation between the trace and the number of rows claimed. *)
Definition tally (P : list event -> Z -> Prop) : world_pred :=
  fun _ tr c => P tr (default 0 (c !! "claimed"%string)).

Section Tally.
Context (env : nat -> turn).
Implicit Types (P Q : list event -> Z -> Prop).

Lemma tally_rivals P : rival_closed env (tally P).
Proof. by intros n d tr c H. Qed.
Lemma tally_leases P : lease_closed (tally P).
Proof. by intros d tr c l H. Qed.

Lemma leads_tally_statement {A} P (f : turn -> db -> res exn (A * db)) :
  leads env (tally P) (tally P) (statement f).
Proof. by apply leads_statement; [apply tally_rivals|intros ???|]. Qed.

Lemma leads_tally_bump P field n : field <> "claimed"%string -> leads env (tally P) (tally P) (bump field n).
Proof. intros Hf. apply leads_bump. intros d tr c H. unfold tally. by rewrite lookup_insert_ne. Qed.

Lemma leads_tally_set P field n :
  field <> "claimed"%string -> leads env (tally P) (tally P) (set_counter field n).
Proof. intros Hf. apply leads_set_counter. intros d tr c H. unfold tally. by rewrite lookup_insert_ne. Qed.

Lemma leads_tally_transaction {A} P (fn : M A) :
  leads env (tally P) (tally P) fn -> leads env (tally P) (tally P) (transaction fn).
Proof.
  intros Hf w He HI. unfold transaction. destruct (w_tx w); [by apply Hf|].
  destruct (leads_tally_statement P (fun _ d => Ok (tt, d)) w He HI) as [He0 HI0].
  unfold statement_ok at 1 3. destruct (statement _ w) as [[[]|e] w0]; simpl in *; [|done].
  set (body := mbind _ _).
  assert (Hbody : leads env (tally P) (tally P) body).
  { subst body. eapply leads_bind with (K := tally P); [| |by intros ???].
    - unfold fenceTransactionBody. destruct (heldLeaseFences (w_held w)); [done|].
      eapply leads_bind; [exact Hf| |by intros ???]. intros r.
      eapply leads_bind; [by apply leads_assertLeaseFences, tally_rivals| |by intros ???].
      intros _. apply leads_ret. by intros ???.
    - intros r. eapply leads_bind; [apply leads_tally_statement| |by intros ???].
      intros _. apply leads_ret. by intros ???. }
  destruct (Hbody (set_tx true w0) He0 HI0) as [He1 HI1].
  by destruct (body (set_tx true w0)) as [[r|e] w1].
Qed.

Lemma leads_tally_locks {A} P Q key (fn : M A) :
  (forall tr x, P tr x -> Q tr x) ->
  leads env (tally P) (tally Q) fn -> leads env (tally P) (tally Q) (locks key fn).
Proof.
  intros HPQ. apply leads_locks; [apply tally_rivals|apply tally_leases|apply tally_rivals
                                 |apply tally_leases|]. intros d tr c. apply HPQ.
Qed.
End Tally.

(** Prove [leads] from a tally to itself along the structure of a program that
    sends nothing. *)
Ltac tally_leads :=
  repeat match goal with
  | |- leads _ _ _ (mbind _ _) => eapply leads_bind; [| |by intros ???]; [|intro]
  | |- leads _ _ _ (mcatch _ _) => eapply leads_catch; [| |by intros ???]; [|intro]
  | |- leads _ _ _ (mret _) => apply leads_ret; by intros ???
  | |- leads _ _ _ (mthrow _) => apply leads_throw; by intros ???
  | |- leads _ _ _ (match ?x with _ => _ end) => destruct x
  | |- leads _ _ _ (statement _) => apply leads_tally_statement
  | |- leads _ _ _ (statement_ok _) => apply leads_tally_statement
  | |- leads _ _ _ (bump _ _) => by apply leads_tally_bump
  | |- leads _ _ _ lostClaim => by apply leads_tally_bump
  | |- leads _ _ _ (set_counter _ _) => by apply leads_tally_set
  | |- leads _ _ _ date_now => apply leads_date_now
  | |- leads _ _ _ math_random => apply leads_math_random
  | |- leads _ _ _ randomNonce => apply leads_randomNonce
  | |- leads _ _ _ stopping => apply leads_stopping
  | |- leads _ _ _ (outbox_write _) => apply leads_tally_statement
  | |- leads _ _ _ (users_find _) => apply leads_tally_statement
  | |- leads _ _ _ (users_find_email _) => apply leads_tally_statement
  | |- leads _ _ _ (users_lock_recipient _ _) => apply leads_tally_statement
  | |- leads _ _ _ (outbox_find _) => apply leads_tally_statement
  | |- leads _ _ _ (outbox_beginDelivery _ _) => apply leads_tally_statement
  | |- leads _ _ _ (outbox_markSent _ _) => apply leads_tally_statement
  | |- leads _ _ _ (outbox_markFailed _ _) => apply leads_tally_statement
  | |- leads _ _ _ (outbox_reschedule _ _ _) => apply leads_tally_statement
  | |- leads _ _ _ (outbox_claim_one _) => apply leads_tally_statement
  | |- leads _ _ _ (outbox_releaseStale _) => apply leads_tally_statement
  | |- leads _ _ _ (list_unsealed _ _) => apply leads_tally_statement
  | |- leads _ _ _ (seal_content _ _ _) => apply leads_tally_statement
  end.

Section TallyDeliver.
Context (env : nat -> turn) (P Q : list event -> Z -> Prop).
Context (HPQ : forall tr x, P tr x -> Q tr x) (Hsend : forall tr x e, P tr x -> Q (tr ++ [e]) x).

Lemma tally_PQ : implies (tally P) (tally Q).
Proof. intros d tr c. apply HPQ. Qed.

Lemma leads_tally_send mail deadline : leads env (tally P) (tally Q) (transport_send mail deadline).
Proof.
  unfold transport_send. eapply leads_bind; [apply leads_await_turn, tally_rivals| |apply tally_PQ].
  intros t. eapply leads_bind with (K := tally Q); [| |by intros ???].
  - intros w He HI. split; [done|]. by apply Hsend.
  - intros _. tally_leads.
Qed.

Lemma leads_tally_handoff crypto entry at_ :
  leads env (tally P) (tally Q) (handoff crypto entry at_).
Proof.
  unfold handoff. eapply leads_bind; [apply leads_date_now| |apply tally_PQ]. intros now.
  case_bool_decide.
  { apply (leads_weaken env _ _ (tally P)); [|apply tally_PQ]. tally_leads. }
  destruct (openOutboxRecord _ _).
  - eapply leads_bind; [apply leads_attempt, leads_tally_send| |by intros ???].
    intros []; unfold acknowledge, parkUnacknowledged, notDelivered; tally_leads.
  - apply (leads_weaken env _ _ (tally P)); [|apply tally_PQ]. unfold failUnreadable. tally_leads.
Qed.

Lemma leads_tally_deliver crypto entry : leads env (tally P) (tally Q) (deliver crypto entry).
Proof.
  unfold deliver. eapply leads_bind with (K := tally P); [tally_leads| |apply tally_PQ].
  intros recipient.
  assert (Hc : forall under, (forall m, leads env (tally P) (tally P) m -> leads env (tally P) (tally P) (under m)) ->
    leads env (tally P) (tally Q) (deliverClaimed crypto entry under)).
  { intros under Hu. unfold deliverClaimed. eapply leads_bind; [apply Hu| |apply tally_PQ].
    - eapply leads_bind; [apply leads_date_now| |by intros ???]. intros started.
      eapply leads_bind with (K := tally P); [|intros; tally_leads|by intros ???].
      apply leads_tally_transaction. unfold authorize_body. tally_leads.
    - intros [started []]; cbn [fst snd]; [apply leads_tally_handoff|..]; (apply (leads_weaken env _ _ (tally P)); [|apply tally_PQ]);
        tally_leads. }
  destruct (truthy_id _).
  - apply leads_tally_locks; [done|]. apply Hc. intros m Hm. by apply leads_tally_locks.
  - by apply Hc.
Qed.
End TallyDeliver.

(** *** A whole tick *)

(** Creating and closing a transport sends no message. *)
Definition sends_nothing {A} (m : M A) : Prop := forall w,
  w_env (m w).2 = w_env w /\ w_trace (m w).2 = w_trace w /\ w_counters (m w).2 = w_counters w.

Lemma leads_sends_nothing {A} env P (m : M A) :
  sends_nothing m -> leads env (tally P) (tally P) m.
Proof. intros Hm w He HI. destruct (Hm w) as (H1 & H2 & H3). unfold at_world, tally. by rewrite H1, H2, H3. Qed.

Section TallyTick.
Context (env : nat -> turn) (tr0 : list event).

(** Nothing sent yet; [b] rows claimed at most, and a message for each at most. *)
Definition tick_start (tr : list event) (x : Z) : Prop := tr = tr0 /\ x = 0.
Definition tick_within (slack b : Z) (tr : list event) (x : Z) : Prop :=
  Z.of_nat (length tr) + slack <= Z.of_nat (length tr0) + x /\ 0 <= x <= b.

Lemma leads_claim_loop crypto n b :
  leads env (tally (tick_within 0 b)) (tally (tick_within 0 (b + Z.of_nat n))) (claim_loop crypto n).
Proof.
  revert b. induction n as [|n IH]; intros b.
  { apply leads_ret. intros d tr c H. unfold tally. by replace (b + Z.of_nat 0) with b by lia. }
  assert (Hmono : implies (tally (tick_within 0 b)) (tally (tick_within 0 (b + Z.of_nat (S n)))))
    by (intros d tr c []; split; lia).
  simpl. eapply leads_bind; [apply leads_stopping| |exact Hmono].
  intros []; [by apply leads_ret|].
  eapply leads_bind; [apply leads_date_now| |exact Hmono]. intros now.
  eapply leads_bind; [apply leads_tally_statement| |exact Hmono]. intros [entry|]; [|by apply leads_ret].
  eapply leads_bind with (K := tally (tick_within 1 (b + 1))).
  - apply leads_bump. intros d tr c [H1 H2]. unfold tally. rewrite lookup_insert_eq. simpl. split; lia.
  - intros _. eapply leads_bind with (K := tally (tick_within 0 (b + 1))).
    + eapply leads_catch; [| |by intros ???].
      * apply leads_tally_deliver.
        -- intros tr x []. split; lia.
        -- intros tr x e []. split; [rewrite length_app; simpl; lia|lia].
      * intros _. tally_leads.
    + intros _. replace (b + Z.of_nat (S n)) with (b + 1 + Z.of_nat n) by lia. apply IH.
    + intros d tr c []; split; lia.
  - intros d tr c []; split; lia.
Qed.

Lemma leads_seal_page crypto P items sealed :
  leads env (tally P) (tally P) (seal_page crypto items sealed).
Proof.
  revert sealed. induction items as [|entry rest IH]; intros sealed; simpl; [tally_leads|].
  eapply leads_bind; [apply leads_randomNonce| |by intros ???]. intros iv.
  eapply leads_bind; [apply leads_tally_statement| |by intros ???]. intros ok. apply IH.
Qed.

Lemma leads_seal_prefixes crypto P prefixes budget sealed :
  leads env (tally P) (tally P) (seal_prefixes crypto prefixes budget sealed).
Proof.
  revert budget sealed. induction prefixes as [|prefix rest IH]; intros budget sealed; simpl; [tally_leads|].
  case_bool_decide; [tally_leads|].
  eapply leads_bind; [apply leads_tally_statement| |by intros ???]. intros page.
  eapply leads_bind; [apply leads_seal_page| |by intros ???]. intros sealed'.
  case_bool_decide; [tally_leads|apply IH].
Qed.
End TallyTick.

Lemma leads_sealLegacy env P crypto legacy :
  leads env (tally P) (tally P) (sealLegacy crypto legacy).
Proof.
  unfold sealLegacy, sealLegacyBearerRows. destruct legacy; [|tally_leads].
  eapply leads_catch; [| |by intros ???]; [|intros _; tally_leads].
  apply leads_bind with (K := tally P); [apply leads_seal_prefixes| |by intros ???]. intros swept. tally_leads.
Qed.

Lemma leads_release_stale env P : leads env (tally P) (tally P) (mcatch release_stale (fun _ => mret tt)).
Proof. unfold release_stale. tally_leads. Qed.

(** Run the next step of a program that never throws. *)
Ltac tick_step Hm Hl a w1 H1 He1 HI1 :=
  match goal with
  | He : w_env ?w = ?env, HI : at_world _ ?w |- context [mbind ?m ?k ?w] =>
      destruct (Hm w) as (a & w1 & H1);
      rewrite (mbind_step m k w a w1 H1);
      destruct (Hl w He HI) as [He1 HI1]; rewrite H1 in He1, HI1; simpl in He1, HI1; clear He HI
  end.

(** *** Sample runs, for the witnesses *)

Definition sample_crypto : NexusCrypto := createCrypto (H := sample_primitives) "secret".

Definition with_smtp (o : smtp_outcome) (t : turn) : turn := {|
  t_rivals := t_rivals t; t_now := t_now t; t_ids := t_ids t; t_random := t_random t;
  t_fault := t_fault t; t_smtp := o; t_stopping := t_stopping t; t_nonce := t_nonce t;
|}.

(** The first worker holds the row's claim, and the relay answers [o]. *)
Definition sample_claimed (o : smtp_outcome) : world :=
  world_of (with_outbox (ow_table sample_world) db_empty) (fun n => with_smtp o (sample_turn n)) [].

(** The row went back to the queue and another worker claimed it. *)
Definition sample_reclaimed : world :=
  world_of (with_outbox {["m1" := o_write OSending (Some 10) None 30 2 "g2" sample_mail]} db_empty)
    sample_turn [].

Definition sample_tick (transport : M bool) : res exn (OutboxTickResult * bool) * world :=
  runTick sample_crypto transport (mret tt) 20 false
    (world_of (with_outbox sample_outbox db_empty) sample_turn []).

(** ** Properties *)

(** A tick is bounded, whatever happens: it never throws, takes at most
    [batchSize] rows, hands at most one message to SMTP for each row it took,
    and sends nothing at all when it is skipped. *)
Theorem tick_bounded (crypto : NexusCrypto) (transportFactory : M bool) (transport_close : M unit)
    (batchSize : nat) (legacyRowsMayRemain : bool) (w : world)
    (Hfactory : sends_nothing transportFactory) (Hclose : sends_nothing transport_close) :
  exists result legacy w',
    runTick crypto transportFactory transport_close batchSize legacyRowsMayRemain w
      = (Ok (result, legacy), w')
    /\ 0 <= claimed result <= Z.of_nat batchSize
    /\ Z.of_nat (length (w_trace w')) <= Z.of_nat (length (w_trace w)) + claimed result
    /\ (skipped result = true -> w_trace w' = w_trace w).
Proof.
  unfold runTick. set (start := fun w => (Ok tt, set_counters ∅ w)).
  rewrite (mbind_step start _ w tt (set_counters ∅ w)) by done.
  assert (HI : at_world (tally (tick_start (w_trace w))) (set_counters ∅ w)) by done.
  assert (He : w_env (set_counters ∅ w) = w_env w) by done.
  revert HI He. generalize (set_counters ∅ w) as w0. intros w0 HI He.
  tick_step (never_throws_catch release_stale _ (fun _ => never_throws_ret tt))
            (leads_release_stale (w_env w) (tick_start (w_trace w))) u w1 H1 He1 HI1.
  assert (Hsl : never_throws (sealLegacy crypto legacyRowsMayRemain)).
  { unfold sealLegacy. destruct legacyRowsMayRemain; [|apply never_throws_ret].
    apply never_throws_catch. intros _. apply never_throws_ret. }
  tick_step Hsl (leads_sealLegacy (w_env w) (tick_start (w_trace w)) crypto legacyRowsMayRemain)
            legacy w2 H2 He2 HI2.
  tick_step (never_throws_attempt transportFactory)
            (leads_attempt _ _ _ _ (leads_sends_nothing (w_env w) (tick_start (w_trace w)) _ Hfactory))
            transport w3 H3 He3 HI3.
  destruct HI3 as [Htr Hx].
  assert (Hread : forall skip w, read_result skip w = (Ok (tick_result skip w), w)) by done.
  assert (Hidle : forall skip, exists result legacy' w',
    (do result <- read_result skip; mret (result, legacy)) w3 = (Ok (result, legacy'), w')
    /\ 0 <= claimed result <= Z.of_nat batchSize
    /\ Z.of_nat (length (w_trace w')) <= Z.of_nat (length (w_trace w)) + claimed result
    /\ (skipped result = true -> w_trace w' = w_trace w)).
  { intros skip. eexists _, _, _. split; [reflexivity|]. rewrite Htr.
    destruct skip; simpl; [|unfold counter; rewrite Hx]; split_and!; (done || lia). }
  destruct transport as [[]|e]; [|apply Hidle..]. clear Hidle.
  assert (HI3 : at_world (tally (tick_within (w_trace w) 0 0)) w3).
  { unfold at_world, tally, tick_within. rewrite Htr, Hx. lia. }
  rewrite mbind_assoc.
  tick_step (never_throws_attempt (claim_loop crypto batchSize))
            (leads_attempt _ _ _ _ (leads_claim_loop (w_env w) (w_trace w) crypto batchSize 0))
            done_ w4 H4 He4 HI4.
  destruct HI4 as [Hlen Hb]. rewrite mbind_assoc, (mbind_step _ _ w4 _ w4 (Hread false w4)), mbind_assoc.
  destruct (never_throws_attempt transport_close w4) as (c & w5 & H5).
  rewrite (mbind_step _ _ _ _ _ H5). destruct (Hclose w4) as (_ & Htr5 & _).
  assert (Hw5 : w5 = (transport_close w4).2)
    by (unfold mattempt in H5; destruct (transport_close w4); by injection H5).
  eexists _, _, w5. split; [reflexivity|]. rewrite Hw5, Htr5. simpl. unfold counter.
  split_and!; [lia..|done].
Qed.

(** One row is waiting: it is claimed and sent, once. *)
Lemma tick_bounded_witness :
  (exists result legacy w', sample_tick (mret true) = (Ok (result, legacy), w')
     /\ 0 <= claimed result <= 20)
  /\ length (w_trace (sample_tick (mret true)).2) = 1%nat
  /\ length (w_trace (sample_tick (mret false)).2) = 0%nat.
Proof.
  split; [|split; vm_compute; reflexivity].
  destruct (tick_bounded sample_crypto (mret true) (mret tt) 20 false
              (world_of (with_outbox sample_outbox db_empty) sample_turn []))
    as (result & legacy & w' & H & Hb & _); [done|done|].
  exists result, legacy, w'. split; [exact H|exact Hb].
Defined.



(** C34: whom the worker does not write to. While the claim on the row is lost,
    or its address is one a released account left behind, or the account it
    names no longer holds that address (and the other processes leave that as
    it is), a delivery sends nothing. *)
Theorem unsendable_row_sends_nothing (crypto : NexusCrypto) (entry : EmailOutboxRecord)
    (w w' : world) (r : res exn unit)
    (Hrivals : forall n d, may_not_send entry d -> may_not_send entry (t_rivals (w_env w n) d))
    (Hnot : may_not_send entry (w_db w)) (Hrun : deliver crypto entry w = (r, w')) :
  w_trace w' = w_trace w /\ may_not_send entry (w_db w').
Proof.
  destruct (leads_unsendable_deliver (w_env w) entry Hrivals crypto (w_trace w) w) as [_ [H1 H2]];
    [done|done|]. rewrite Hrun in H1, H2. done.
Qed.

Lemma unsendable_row_sends_nothing_witness :
  w_trace (deliver sample_crypto sample_claim sample_reclaimed).2 = []
  /\ length (w_trace (deliver sample_crypto sample_claim (sample_claimed SmtpAccepted)).2) = 1%nat.
Proof.
  split; [|vm_compute; reflexivity].
  apply (unsendable_row_sends_nothing sample_crypto sample_claim sample_reclaimed
           (deliver sample_crypto sample_claim sample_reclaimed).2
           (deliver sample_crypto sample_claim sample_reclaimed).1).
  - done.
  - left. vm_compute. reflexivity.
  - apply surjective_pairing.
Defined.

(** The back-off between two attempts lies in its documented window for
    every attempt count and every draw: never below the doubled base nor 30
    seconds, never above 110% of it nor 66 minutes (rounded), and the base never shrinks. *)
Theorem backoffDelayMs_bounds (attempts attempts' random : Z) (Hr : random_ok random)
    (Hle : attempts <= attempts') :
  30000 <= backoff_base attempts <= backoff_base attempts'
  /\ backoff_base attempts <= backoffDelayMs attempts random
     <= backoff_base attempts * 11 / 10 + 1
  /\ 30000 <= backoffDelayMs attempts random <= 3960001.
Proof.
  pose proof (backoff_base_bounds attempts). pose proof (backoff_base_mono _ _ Hle).
  pose proof (backoffDelayMs_window attempts random Hr).
  assert (backoff_base attempts * 11 / 10 <= 3960000) by (apply Z.div_le_upper_bound; lia). lia.
Qed.

Lemma backoffDelayMs_bounds_witness :
  30000 <= backoff_base 1 <= backoff_base 2 /\ backoffDelayMs 1 0 = 60000
  /\ backoffDelayMs 20 0 = 3600000.
Proof.
  split_and!; [apply (backoffDelayMs_bounds 1 2 0); [by split|lia]..|reflexivity|reflexivity].
Defined.
