(* ===== verification/JobWorkers.v ===== *)
(** * The shape of the retry workers

    What [credentials/teardown-worker.ts], [credentials/account-recovery.ts] and
    [access/gateway-job-worker.ts] share: the back-off, the sweep of stale
    claims, and the loop that claims one job at a time and survives its failure.
    The result object of a tick is [w_counters]. *)

From S2P Require Import Prelude Roles JobQueues World LeaseFence.
Open Scope Z_scope.

(** [10s * 2^attempts], capped at five minutes, plus up to 10% of jitter. *)
Definition job_backoff_base (base cap attempts : Z) : Z :=
  Z.min (base * 2 ^ Z.max 0 (Z.min attempts 16)) cap.

Definition job_backoff (base cap attempts random : Z) : Z :=
  let b := job_backoff_base base cap attempts in
  round_div (10 * b * random_den + b * random) (10 * random_den).

Section JobWorker.
Context {J : Type}.
Context (releaseStale : Z -> M Z) (claimOne : Z -> M (option J)) (runJob : J -> M unit).
Context (staleAfter : Z).

Definition sweep : M unit :=
  do now <- date_now;
  do n <- releaseStale (now - staleAfter);
  set_counter "released" n.

(** [left] more jobs may be taken. *)
Fixpoint claim_jobs (left : nat) : M unit :=
  match left with
  | O => mret tt
  | S left' =>
      do now <- date_now;
      do claim <- mattempt (claimOne now);
      match claim with
      | Ok (Some job) =>
          do_ bump "claimed" 1;
          do_ mcatch (runJob job) (fun _ => bump "abandoned" 1);
          claim_jobs left'
      | Ok None | Throw _ => mret tt
      end
  end.

Definition run_worker (batchSize : nat) : M unit :=
  do_ (fun w => (Ok tt, set_counters ∅ w));
  do_ mcatch sweep (fun _ => mret tt);
  claim_jobs batchSize.
End JobWorker.

(** ** Lemmas *)

Lemma job_backoff_base_bounds base cap attempts :
  0 < base <= cap -> base <= job_backoff_base base cap attempts <= cap.
Proof.
  intros Hb. unfold job_backoff_base.
  pose proof (Z.pow_pos_nonneg 2 (Z.max 0 (Z.min attempts 16))). nia.
Qed.

Lemma job_backoff_window base cap attempts random :
  0 < base <= cap -> random_ok random ->
  job_backoff_base base cap attempts <= job_backoff base cap attempts random
    <= job_backoff_base base cap attempts * 11 / 10 + 1.
Proof.
  intros Hbc [Hlo Hhi]. pose proof (job_backoff_base_bounds base cap attempts Hbc) as Hb.
  unfold job_backoff. set (b := job_backoff_base base cap attempts) in *.
  assert (Hd : 0 < random_den) by done. set (d := random_den) in *. clearbody b d.
  apply round_div_bounds; [lia|nia|].
  assert (b * 11 < 10 * (b * 11 / 10 + 1)) by (pose proof (Z.mul_succ_div_gt (b * 11) 10); lia).
  nia.
Qed.

(** *** Statements that keep the rows

    [own] reads columns of a row that no claim, reschedule or release writes. *)
Section Rowwise.
Context {R X : Type} `{JobRowLaws R} (own : R -> X).
Context (Hset : forall h r, own (jr_set_head h r) = own r) (Hreset : forall r, own (jr_reset r) = own r).
Implicit Types (q : gmap string R) (job r : R).

(** Rows are rewritten under their key, id and own columns, or deleted. *)
Definition rowwise (f : gmap string R -> gmap string R) : Prop := forall q k r',
  f q !! k = Some r' -> exists r, q !! k = Some r /\ job_id r' = job_id r /\ own r' = own r.

(** The row [id] stays, with its own columns, as long as it is not done. *)
Definition retains (id : string) (f : gmap string R -> gmap string R) : Prop := forall q r,
  q !! id = Some r -> has_status JDone r = false ->
  exists r', f q !! id = Some r' /\ own r' = own r /\ has_status JDone r' = false.

Lemma job_id_head h r : job_id (jr_set_head h r) = j_id h.
Proof. unfold job_id. by rewrite jr_head_set. Qed.

Lemma job_id_reset r : job_id (jr_reset r) = job_id r.
Proof. unfold job_id. by rewrite jr_head_reset. Qed.

Lemma claim_same generation at_ r :
  job_id (job_claim generation at_ r) = job_id r /\ own (job_claim generation at_ r) = own r
  /\ has_status JDone (job_claim generation at_ r) = false.
Proof.
  unfold job_claim. rewrite job_id_reset, job_id_head, Hreset, Hset. split_and!; [done..|].
  unfold has_status. by rewrite jr_head_reset, jr_head_set.
Qed.

Lemma requeue_same next error at_ r :
  job_id (job_requeue next error at_ r) = job_id r /\ own (job_requeue next error at_ r) = own r
  /\ has_status JDone (job_requeue next error at_ r) = false.
Proof.
  unfold job_requeue. rewrite job_id_reset, job_id_head, Hreset, Hset. split_and!; [done..|].
  unfold has_status. by rewrite jr_head_reset, jr_head_set.
Qed.

Lemma release_same at_ r :
  job_id (job_release at_ r) = job_id r /\ own (job_release at_ r) = own r
  /\ has_status JDone (job_release at_ r) = false.
Proof.
  unfold job_release. rewrite job_id_head, Hset. split_and!; [done..|].
  unfold has_status. by rewrite jr_head_set.
Qed.

Lemma rowwise_on_match s job (write : R -> R) :
  (forall r, job_id (write r) = job_id r /\ own (write r) = own r) ->
  rowwise (fun q => (job_on_match s job (fun r q => <[job_id job := write r]> q) q).1).
Proof.
  intros Hw q k r' Hk. unfold job_on_match in Hk.
  destruct (q !! job_id job) as [r|] eqn:Hr; [|eauto]. destruct (job_matches s job r); [|eauto].
  simpl in Hk. rewrite lookup_insert in Hk. case_decide as Hid; [|eauto].
  subst. injection Hk as <-. exists r. by destruct (Hw r).
Qed.

Lemma retains_on_match id s job (write : R -> R) :
  (forall r, own (write r) = own r /\ has_status JDone (write r) = false) ->
  retains id (fun q => (job_on_match s job (fun r q => <[job_id job := write r]> q) q).1).
Proof.
  intros Hw q r Hr Hs. unfold job_on_match.
  destruct (q !! job_id job) as [r0|] eqn:Hr0; [|by exists r]. destruct (job_matches s job r0); [|by exists r].
  simpl. rewrite lookup_insert. case_decide as Hid; [|by exists r].
  subst. assert (r0 = r) as -> by congruence. exists (write r). by destruct (Hw r).
Qed.

Lemma rowwise_update_where p (f : R -> R) :
  (forall r, job_id (f r) = job_id r /\ own (f r) = own r) -> rowwise (fun q => (update_where (p q) f q).1).
Proof.
  intros Hf q k r' Hk. destruct (update_where (p q) f q) as [q' m] eqn:He. simpl in Hk.
  rewrite (update_where_lookup _ _ _ _ _ k He) in Hk. destruct (q !! k) as [r|]; [|done]. simpl in Hk.
  exists r. destruct (p q r); injection Hk as <-; [|done]. by destruct (Hf r).
Qed.

Lemma retains_update_where id p (f : R -> R) :
  (forall r, own (f r) = own r /\ has_status JDone (f r) = false) ->
  retains id (fun q => (update_where (p q) f q).1).
Proof.
  intros Hf q r Hr Hs. destruct (update_where (p q) f q) as [q' m] eqn:He. simpl.
  rewrite (update_where_lookup _ _ _ _ _ id He), Hr. simpl. destruct (p q r); [|by exists r].
  exists (f r). by destruct (Hf r).
Qed.

(** The statements of every queue. *)
Lemma rowwise_reschedule job next error now : rowwise (fun q => (job_reschedule job next error now q).1).
Proof. apply rowwise_on_match. intros r. by destruct (requeue_same next error now r) as (? & ? & _). Qed.

Lemma retains_reschedule id job next error now :
  retains id (fun q => (job_reschedule job next error now q).1).
Proof. apply retains_on_match. intros r. by destruct (requeue_same next error now r) as (_ & ? & ?). Qed.

Lemma rowwise_claimPending job generation at_ : rowwise (fun q => (job_claimPending job generation at_ q).1).
Proof.
  intros q k r' Hk. apply (rowwise_on_match JPending job (job_claim generation at_)).
  - intros r. by destruct (claim_same generation at_ r) as (? & ? & _).
  - unfold job_claimPending in Hk. by destruct (job_on_match _ _ _ _).
Qed.

Lemma retains_claimPending id job generation at_ :
  retains id (fun q => (job_claimPending job generation at_ q).1).
Proof.
  intros q r Hr Hs. destruct (retains_on_match id JPending job (job_claim generation at_)) with (q := q) (r := r)
    as (r' & Hr' & H').
  - intros r0. by destruct (claim_same generation at_ r0) as (_ & ? & ?).
  - done.
  - done.
  - exists r'. unfold job_claimPending. by destruct (job_on_match _ _ _ _).
Qed.

Lemma rowwise_claimDue now limit generation stamp :
  rowwise (fun q => (job_claimDue now limit generation stamp q).1).
Proof.
  apply (rowwise_update_where
           (fun q r => bool_decide (job_id r ∈ job_due_ids now limit q) && has_status JPending r)).
  intros r. by destruct (claim_same generation stamp r) as (? & ? & _).
Qed.

Lemma retains_claimDue id now limit generation stamp :
  retains id (fun q => (job_claimDue now limit generation stamp q).1).
Proof.
  apply (retains_update_where id
           (fun q r => bool_decide (job_id r ∈ job_due_ids now limit q) && has_status JPending r)).
  intros r. by destruct (claim_same generation stamp r) as (_ & ? & ?).
Qed.

Lemma rowwise_releaseStale olderThan now : rowwise (fun q => (job_releaseStale olderThan now q).1).
Proof.
  apply (rowwise_update_where (fun _ r => has_status JSending r && _)).
  intros r. by destruct (release_same now r) as (? & ? & _).
Qed.

Lemma retains_releaseStale id olderThan now : retains id (fun q => (job_releaseStale olderThan now q).1).
Proof.
  apply (retains_update_where id (fun _ r => has_status JSending r && _)).
  intros r. by destruct (release_same now r) as (_ & ? & ?).
Qed.

Lemma rowwise_deleteClaimed job : rowwise (fun q => (job_deleteClaimed job q).1).
Proof.
  intros q k r' Hk. unfold job_deleteClaimed, job_on_match in Hk.
  destruct (q !! job_id job) as [r|]; [|eauto]. destruct (job_matches _ _ _); [|eauto].
  simpl in Hk; apply lookup_delete_Some in Hk as [_ Hk]. eauto.
Qed.

Lemma retains_deleteClaimed id job : job_id job <> id -> retains id (fun q => (job_deleteClaimed job q).1).
Proof.
  intros Hne q r Hr Hs. unfold job_deleteClaimed, job_on_match.
  destruct (q !! job_id job) as [r0|]; [|by exists r]. destruct (job_matches _ _ _); [|by exists r].
  simpl. exists r. by rewrite lookup_delete_ne.
Qed.

(** What a claim pulled has the own columns of a row with its id. *)
Lemma claimDue_pulled now limit generation stamp q job :
  head (job_claimDue now limit generation stamp q).2 = Some job ->
  exists k r, q !! k = Some r /\ job_id job = job_id r /\ own job = own r.
Proof.
  unfold job_claimDue. cbn [snd]. intros Hjob.
  set (t' := (update_where _ _ q).1) in Hjob.
  assert (Hin : job ∈ omap (fun id => t' !! id) (job_due_ids now limit q))
    by (destruct (omap _ _); [done|]; injection Hjob as ->; by left).
  apply list_elem_of_omap in Hin as (k & _ & Hk).
  destruct (rowwise_claimDue now limit generation stamp q k job Hk) as (r & Hr & H'). eauto.
Qed.

(** The claim an attempt makes on a pending job is that job's. *)
Lemma claimPending_same job generation at_ q c :
  (job_claimPending job generation at_ q).2 = Some c -> job_id c = job_id job /\ own c = own job.
Proof.
  unfold job_claimPending. destruct (job_on_match _ _ _ _) as [q' []]; [|done]. intros [= <-].
  by destruct (claim_same generation at_ job) as (? & ? & _).
Qed.
End Rowwise.

Section Worker.
Context {J : Type} (env : nat -> turn).
Context (releaseStale : Z -> M Z) (claimOne : Z -> M (option J)) (runJob : J -> M unit).
Context (staleAfter : Z).

(** A predicate every step of a tick keeps. [K job] is what holds where a
    claim returned [job]. *)
Lemma tops_run_worker (I : world_pred) (K : J -> world_pred) batchSize :
  (forall d tr c c', I d tr c -> I d tr c') -> (forall job d tr c c', K job d tr c -> K job d tr c') ->
  (forall job, implies (K job) I) ->
  (forall t, tops env I (fun _ => I) (releaseStale t)) ->
  (forall now, tops env I (fun r => match r with Ok (Some job) => K job | _ => I end) (claimOne now)) ->
  (forall job, tops env (K job) (fun _ => I) (runJob job)) ->
  tops env I (fun _ => I) (run_worker releaseStale claimOne runJob staleAfter batchSize).
Proof.
  intros HI HK HKI Hrel Hclaim Hjob. unfold run_worker.
  assert (Hnow : forall L, tops env L (fun _ => L) date_now) by done.
  assert (Hset : forall f n, tops env I (fun _ => I) (set_counter f n)).
  { intros f n w He Ht Hw. split_and!; [done..|]. by eapply HI. }
  assert (Hbump : forall L f n, (forall d tr c c', L d tr c -> L d tr c') -> tops env L (fun _ => L) (bump f n)).
  { intros L f n HL w He Ht Hw. split_and!; [done..|]. by eapply HL. }
  eapply moded_bind with (P := fun _ => I); [| |by intros e ???].
  { intros w He Ht Hw. split_and!; [done..|]. by eapply HI. }
  intros _. eapply moded_bind with (P := fun _ => I); [| |by intros e ???].
  { eapply moded_catch with (P := fun _ => I); [|by intros a ???|by intros e w].
    unfold sweep. eapply moded_bind; [apply Hnow| |by intros e ???]. intros now.
    eapply moded_bind; [apply Hrel| |by intros e ???]. intros n. apply Hset. }
  intros _. induction batchSize as [|n IH]; simpl; [by intros w|].
  eapply moded_bind; [apply Hnow| |by intros e ???]. intros now.
  eapply moded_bind with (P := fun r => match r with Ok (Ok (Some job)) => K job | _ => I end); [| |by intros e ???].
  { eapply moded_attempt; [apply Hclaim|]. by intros r ???. }
  intros [[job|]|e]; [|by intros w..].
  eapply moded_bind with (P := fun _ => K job); [apply Hbump, HK| |intros e ???; apply HKI].
  intros u. eapply moded_bind with (P := fun _ => I); [|by intros|by intros e ???].
  eapply moded_catch with (P := fun _ => I); [apply Hjob|by intros a ???|].
  intros e. by apply Hbump.
Qed.

(** *** The books of a tick

    [owing c]: claimed jobs minus the outcomes in [fields]. A job run settles
    one claim, by its outcome or by the abandonment its exception becomes. *)
Context (fields : list string).

Definition total (c : gmap string Z) : Z :=
  foldr (fun f n => default 0 (c !! f) + n) 0 fields.

Definition books (lo n : Z) : world_pred := fun _ _ c =>
  default 0 (c !! "claimed"%string) = total c + n /\ 0 <= default 0 (c !! "claimed"%string) <= lo.

Lemma total_other c f n : f ∉ fields -> total (<[f := n]> c) = total c.
Proof.
  unfold total. induction fields as [|g l IH]; [done|]. intros [Hne Hf]%not_elem_of_cons. simpl.
  rewrite lookup_insert_ne by congruence. by rewrite IH.
Qed.

Lemma total_bump c f n : f ∈ fields -> NoDup fields ->
  total (<[f := default 0 (c !! f) + n]> c) = total c + n.
Proof.
  unfold total. induction fields as [|g l IH]; [by intros ?%elem_of_nil|].
  intros Hf [Hg Hnd]%NoDup_cons. simpl. apply elem_of_cons in Hf as [->|Hf].
  - rewrite lookup_insert_eq. simpl.
    assert (Hsame : foldr (fun f' m => default 0 (<[g := default 0 (c !! g) + n]> c !! f') + m) 0 l
                    = foldr (fun f' m => default 0 (c !! f') + m) 0 l).
    { clear IH Hnd. induction l as [|h l IHl]; [done|]. apply not_elem_of_cons in Hg as [Hne Hg]. simpl.
      rewrite lookup_insert_ne by congruence. by rewrite IHl. }
    rewrite Hsame. lia.
  - rewrite lookup_insert_ne by congruence. rewrite IH by done. lia.
Qed.

Context (Hfields : NoDup fields) (Hclaimed : "claimed"%string ∉ fields)
  (Hreleased : "released"%string ∉ fields) (Habandoned : "abandoned"%string ∈ fields).

Lemma leads_books_bump lo n f : f ∈ fields -> leads env (books lo n) (books lo (n - 1)) (bump f 1).
Proof.
  intros Hf. apply leads_bump. intros d tr c [H1 H2]. unfold books.
  rewrite total_bump by done. rewrite lookup_insert_ne by congruence. lia.
Qed.

(** A job run that settles its claim exactly once, by an outcome or by an
    exception. *)
Definition settles_once (job : J) : Prop := forall lo n,
  ends env (books lo n)
    (fun r => match r with Ok _ => books lo (n - 1) | Throw _ => books lo n end) (runJob job).

Lemma leads_claim_jobs_books (Hrel : forall t lo n, leads env (books lo n) (books lo n) (releaseStale t))
    (Hclaim : forall now lo n, leads env (books lo n) (books lo n) (claimOne now))
    (Hjob : forall job, settles_once job) batchSize lo :
  leads env (books lo 0) (books (lo + Z.of_nat batchSize) 0) (claim_jobs claimOne runJob batchSize).
Proof.
  revert lo. induction batchSize as [|n IH]; intros lo; simpl.
  { apply leads_ret. intros d tr c [H1 H2]. split; lia. }
  assert (Hmono : implies (books lo 0) (books (lo + Z.of_nat (S n)) 0))
    by (intros d tr c [H1 H2]; split; lia).
  eapply leads_bind; [apply leads_date_now| |exact Hmono]. intros now.
  eapply leads_bind; [apply leads_attempt, Hclaim| |exact Hmono].
  intros [[job|]|e]; [|by apply leads_ret..].
  apply leads_ends. eapply ends_bind; [apply ends_bump with (J := books (lo + 1) 1)| |done].
  - apply leads_bump. intros d tr c [H1 H2]. unfold books.
    rewrite total_other by done. rewrite lookup_insert_eq. simpl. lia.
  - intros u1. eapply ends_bind with (P := fun _ => books (lo + 1) 0).
    + eapply ends_catch; [apply Hjob|by intros a ???|]. intros e.
      apply leads_ends, (leads_books_bump (lo + 1) 1 _ Habandoned).
    + intros _. apply leads_ends. replace (lo + Z.of_nat (S n)) with (lo + 1 + Z.of_nat n) by lia. apply IH.
    + intros e d tr c [H1 H2]. split; lia.
Qed.

(** A tick never throws, and its books balance: every claimed job is counted
    under exactly one outcome. *)
Lemma run_worker_books (Hrel : forall t lo n, leads env (books lo n) (books lo n) (releaseStale t))
    (Hclaim : forall now lo n, leads env (books lo n) (books lo n) (claimOne now))
    (Hjob : forall job, settles_once job) batchSize w :
  w_env w = env ->
  exists w', run_worker releaseStale claimOne runJob staleAfter batchSize w = (Ok tt, w')
    /\ counter "claimed" w' = total (w_counters w')
    /\ 0 <= counter "claimed" w' <= Z.of_nat batchSize.
Proof.
  intros He.
  assert (Hloop : forall n, never_throws (claim_jobs claimOne runJob n)).
  { induction n as [|n IH]; intros w1; simpl; [by exists tt, w1|].
    unfold mbind, date_now, mattempt. destruct (claimOne _ w1) as [[[job|]|e] w2]; [|by eexists _, _..].
    simpl. unfold mcatch. destruct (runJob job _) as [[[]|e] w3]; [apply IH|]. simpl. apply IH. }
  set (w0 := set_counters ∅ w).
  assert (H0 : at_world (books 0 0) w0).
  { unfold at_world, books, total. simpl. split; [|done].
    assert (foldr (fun f n => default 0 ((∅ : gmap string Z) !! f) + n) 0 fields = 0) as ->; [|done].
    clear. induction fields as [|f l IH]; [done|]. simpl. by rewrite IH. }
  assert (Hsweep : leads env (books 0 0) (books 0 0) (mcatch (sweep releaseStale staleAfter) (fun _ => mret tt))).
  { eapply leads_catch with (K := books 0 0); [| |by intros ???].
    - unfold sweep. eapply leads_bind; [apply leads_date_now| |by intros ???]. intros now.
      eapply leads_bind; [apply Hrel| |by intros ???]. intros n. apply leads_set_counter.
      intros d tr c [H1 H2]. unfold books. rewrite total_other by done.
      rewrite lookup_insert_ne by done. done.
    - intros _. apply leads_ret. by intros ???. }
  unfold run_worker. rewrite (mbind_step _ _ w tt w0) by done.
  destruct (never_throws_catch (sweep releaseStale staleAfter) _ (fun _ => never_throws_ret tt) w0)
    as (u & w1 & H1).
  rewrite (mbind_step _ _ _ _ _ H1). destruct (Hsweep w0 He H0) as [He1 HI1].
  rewrite H1 in He1, HI1. simpl in He1, HI1.
  destruct (leads_claim_jobs_books Hrel Hclaim Hjob batchSize 0 w1 He1 HI1) as [_ [Hb Hc]].
  destruct (Hloop batchSize w1) as ([] & w2 & H2). rewrite H2 in Hb, Hc |- *. simpl in *.
  exists w2. unfold counter. split_and!; [done|lia..].
Qed.
End Worker.
