(* ===== verification/GatewayJobWorker.v ===== *)
(** * The access gateway worker

    [server/src/access/gateway-job-worker.ts]: the retry loop behind a grant
    revocation or an approval whose gateway step never finished. What finishes
    one job is the access service's, an interface here. *)

From S2P Require Import Prelude Json Roles JobQueues World LeaseFence KeyedSerializer JobWorkers.
Open Scope Z_scope.

Definition ACCESS_GATEWAY_BATCH_SIZE : nat := 10.
Definition ACCESS_GATEWAY_BASE_BACKOFF_MS : Z := 10000.
Definition ACCESS_GATEWAY_MAX_BACKOFF_MS : Z := 5 * 60000.
Definition ACCESS_GATEWAY_STALE_AFTER_MS : Z := 5 * 60000.
Definition ACCESS_GATEWAY_EDGE_CALLS : Z := 6.

Definition accessGatewayJobBudgetMs (adminTimeoutMs : Z) : Z :=
  ACCESS_GATEWAY_EDGE_CALLS * adminTimeoutMs + 2 * LEASE_WAIT_MS + LEASE_TTL_MS.

(** [start()] warns. *)
Definition warns_at_start (adminTimeoutMs : Z) : bool :=
  bool_decide (ACCESS_GATEWAY_STALE_AFTER_MS <= accessGatewayJobBudgetMs adminTimeoutMs).

Definition accessGatewayBackoffMs (attempts random : Z) : Z :=
  job_backoff ACCESS_GATEWAY_BASE_BACKOFF_MS ACCESS_GATEWAY_MAX_BACKOFF_MS attempts random.

Record AccessGatewayTickResult : Type := {
  ag_released : Z;
  ag_claimed : Z;
  ag_completed : Z;
  ag_obsolete : Z;
  ag_superseded : Z;
  ag_rescheduled : Z;
  ag_abandoned : Z;
}.

Inductive AccessGatewayJobOutcome : Type := OutCompleted | OutObsolete | OutSuperseded.

Definition outcome_field (o : AccessGatewayJobOutcome) : string :=
  match o with
  | OutCompleted => "completed" | OutObsolete => "obsolete" | OutSuperseded => "superseded"
  end.

(** [Pick<AccessService, 'recoverGatewayJob'>]. *)
Class AccessService : Type := {
  recoverGatewayJob : AccessJobs.Job -> M AccessGatewayJobOutcome;
}.

Definition access_reschedule (job : AccessJobs.Job) (next : Z) (error : string) : M bool :=
  statement_ok (fun t d => let '(q, ok) := AccessJobs.reschedule job next error (t_now t) (d_access_jobs d) in
                           (ok, with_access_jobs q d)).
Definition access_releaseStale (olderThan : Z) : M Z :=
  statement_ok (fun t d => let '(q, n) := AccessJobs.releaseStale olderThan (t_now t) (d_access_jobs d) in
                           (n, with_access_jobs q d)).
Definition access_claim_one (now : Z) : M (option AccessJobs.Job) :=
  statement_ok (fun t d =>
    let '(q, jobs) := AccessJobs.claimDue now 1 (t_ids t 0) (t_now t) (d_access_jobs d) in
    (head jobs, with_access_jobs q d)).

Section Worker.
Context `{AccessService}.

Definition access_runJob (job : AccessJobs.Job) : M unit :=
  do outcome <- mattempt (recoverGatewayJob job);
  match outcome with
  | Throw error =>
      do now <- date_now;
      do r <- math_random;
      do ok <- access_reschedule job (now + accessGatewayBackoffMs (job_attempts job) r) (ex_message error);
      if ok : bool then bump "rescheduled" 1 else bump "superseded" 1
  | Ok o => bump (outcome_field o) 1
  end.

Definition access_tick_result (w : world) : AccessGatewayTickResult := {|
  ag_released := counter "released" w; ag_claimed := counter "claimed" w;
  ag_completed := counter "completed" w; ag_obsolete := counter "obsolete" w;
  ag_superseded := counter "superseded" w; ag_rescheduled := counter "rescheduled" w;
  ag_abandoned := counter "abandoned" w;
|}.

Definition access_runTick (batchSize : nat) : M AccessGatewayTickResult :=
  do_ run_worker access_releaseStale access_claim_one access_runJob ACCESS_GATEWAY_STALE_AFTER_MS batchSize;
  fun w => (Ok (access_tick_result w), w).
End Worker.

(** ** Lemmas *)

(** The work of a service leaves the worker's own result object alone. *)
Definition keeps_counters {A} (m : M A) : Prop := forall w,
  w_env (m w).2 = w_env w /\ w_counters (m w).2 = w_counters w.

Definition access_fields : list string :=
  ["completed"; "obsolete"; "superseded"; "rescheduled"; "abandoned"]%string.

Section Books.
Context (env : nat -> turn) `{AccessService}.
Context (Hservice : forall job, keeps_counters (recoverGatewayJob job)).

Lemma leads_books_counters {A} (m : M A) lo n :
  keeps_counters m -> leads env (books access_fields lo n) (books access_fields lo n) m.
Proof. intros Hm w He HI. destruct (Hm w) as [H1 H2]. unfold at_world, books. by rewrite H1, H2. Qed.

Lemma keeps_counters_statement {A} (f : turn -> db -> res exn (A * db)) : keeps_counters (statement f).
Proof. intros w. unfold statement. destruct (t_fault _); [done|]. by destruct (f _ _) as [[a d]|e]. Qed.

Lemma access_fields_facts :
  NoDup access_fields /\ "claimed"%string ∉ access_fields /\ "released"%string ∉ access_fields
  /\ "abandoned"%string ∈ access_fields.
Proof. split_and!; apply (bool_decide_eq_true_1 _); reflexivity. Qed.

Lemma access_settles_once job : settles_once env access_runJob access_fields job.
Proof.
  intros lo n. unfold access_runJob. destruct access_fields_facts as (Hnd & Hc & _ & _).
  assert (Hbump : forall f, f ∈ access_fields ->
    ends env (books access_fields lo n)
      (fun r => match r with Ok _ => books access_fields lo (n - 1) | Throw _ => books access_fields lo n end)
      (bump f 1)).
  { intros f Hf. eapply ends_weaken; [by apply ends_bump, leads_books_bump|].
    intros [u|e] d tr c; [done|by intros []]. }
  eapply ends_bind with (P := fun _ => books access_fields lo n); [| |by intros e ???].
  { by apply leads_ends, leads_attempt, leads_books_counters. }
  intros [o|e].
  - apply Hbump. apply (bool_decide_eq_true_1 _). by destruct o.
  - eapply ends_bind; [by apply leads_ends, leads_date_now| |by intros ? ???]. intros now.
    eapply ends_bind; [by apply leads_ends, leads_math_random| |by intros ? ???]. intros r.
    eapply ends_bind; [by apply leads_ends, leads_books_counters, keeps_counters_statement| |by intros ? ???].
    intros []; apply Hbump; apply (bool_decide_eq_true_1 _); reflexivity.
Qed.
End Books.

(** *** A sample service, for the witnesses *)

Definition sample_access_job : AccessJobs.Job := {|
  AccessJobs.ag_head := {| j_id := "j1"; j_generation := "g0"; j_status := JPending; j_attempts := 0;
                           j_next_attempt_at := Some 10; j_last_error := None; j_created_at := 5;
                           j_updated_at := 5 |};
  AccessJobs.ag_input := {| AccessJobs.in_kind := AccessJobs.Revoke; AccessJobs.in_subject_id := "grant";
                 AccessJobs.in_api_id := "api"; AccessJobs.in_user_id := "u";
                 AccessJobs.in_application_id := None; AccessJobs.in_requested_by := None |};
|}.

#[local] Instance sample_access_service : AccessService := {|
  recoverGatewayJob := fun job =>
    if decide (job_id job = "j1"%string) then mthrow (driverError "Edge timed out") else mret OutCompleted;
|}.

Definition sample_access_world : world :=
  world_of (with_access_jobs {["j1" := sample_access_job]} db_empty) sample_turn [].

(** ** Properties *)

(** A tick of the access gateway worker never throws, takes at most its
    batch, and loses no job: every job it claimed is counted under exactly one
    of its outcomes, whatever the service, the store and the other instances
    do. *)
Theorem access_tick_accounts `{AccessService} (batchSize : nat) (w : world)
    (Hservice : forall job, keeps_counters (recoverGatewayJob job)) :
  exists result w', access_runTick batchSize w = (Ok result, w')
    /\ ag_claimed result = ag_completed result + ag_obsolete result + ag_superseded result
                           + ag_rescheduled result + ag_abandoned result
    /\ 0 <= ag_claimed result <= Z.of_nat batchSize.
Proof.
  destruct access_fields_facts as (Hnd & Hc & Hr & Ha).
  destruct (run_worker_books (w_env w) access_releaseStale access_claim_one access_runJob
              ACCESS_GATEWAY_STALE_AFTER_MS access_fields Hnd Hc Hr Ha) with (batchSize := batchSize) (w := w)
    as (w' & Hrun & Hbal & Hbound).
  - intros. apply leads_books_counters, keeps_counters_statement.
  - intros. apply leads_books_counters, keeps_counters_statement.
  - intros job. by apply access_settles_once.
  - done.
  - exists (access_tick_result w'), w'. unfold access_runTick. rewrite (mbind_step _ _ _ _ _ Hrun).
    split; [done|]. simpl. unfold counter in *. rewrite Hbal in *. unfold total, access_fields in *. simpl in *.
    lia.
Qed.

Lemma access_tick_accounts_witness :
  exists result w', access_runTick 10 sample_access_world = (Ok result, w')
    /\ ag_claimed result = 1 /\ ag_rescheduled result = 1
    /\ ag_claimed result = ag_completed result + ag_obsolete result + ag_superseded result
                           + ag_rescheduled result + ag_abandoned result.
Proof.
  destruct (access_tick_accounts 10 sample_access_world) as (result & w' & H & Hb & _).
  - intros job w. simpl. by case_decide.
  - exists result, w'. split; [exact H|].
    assert (Hr : Ok result = (access_runTick 10 sample_access_world).1) by (by rewrite H).
    assert (Hv : (access_runTick 10 sample_access_world).1
                 = Ok {| ag_released := 0; ag_claimed := 1; ag_completed := 0; ag_obsolete := 0;
                         ag_superseded := 0; ag_rescheduled := 1; ag_abandoned := 0 |})
      by (vm_compute; reflexivity).
    rewrite Hv in Hr. injection Hr as ->. split_and!; [reflexivity|reflexivity|exact Hb].
Defined.
