(* ===== verification/AccessRevocation.v ===== *)
(** * Revocations

    [server/src/access/service.ts]: the withdrawal of one grant with its
    compensation, the sweep of a disabled account, and the recovery of a
    revocation whose gateway step never completed. *)

From S2P Require Import Prelude Json Roles ClaimQueue Users JobQueues AuditLog AccessTables World AccessStore LeaseFence KeyedSerializer Provisioner AccessDecisions GatewayJobWorker.
Open Scope Z_scope.

(** Why a rollback left the grant [revoked]. *)
Inductive RevocationRestoreSkip : Type := GranteeDisabled | GranteeMissing | ApplicationMissing | GroupAbsent.

Definition skip_text (s : RevocationRestoreSkip) : string :=
  match s with
  | GranteeDisabled => "grantee_disabled" | GranteeMissing => "grantee_missing"
  | ApplicationMissing => "application_missing" | GroupAbsent => "group_absent"
  end.

Record RevocationRestore : Type := {
  rr_restored : bool;
  rr_skipped : option RevocationRestoreSkip;
  rr_toolRequestRestored : option string;
  rr_toolRequestSkipped : bool;
}.

Definition not_restored (skipped : option RevocationRestoreSkip) : RevocationRestore :=
  {| rr_restored := false; rr_skipped := skipped; rr_toolRequestRestored := None; rr_toolRequestSkipped := false |}.

Inductive withdraw_mode : Type := Review | Relinquish.

#[export] Instance withdraw_mode_eq_dec : EqDecision withdraw_mode.
Proof. solve_decision. Defined.

Inductive failure_stage : Type := StageClaim | StageLookup | StageGateway.

Record BulkRevocationFailure : Type := {
  bf_grant_id : string;
  bf_api_id : string;
  bf_application_id : option string;
  bf_stage : failure_stage;
  bf_error : string;
}.

Record BulkRevocationResult : Type := { br_revoked : Z; br_failed : list BulkRevocationFailure }.

(** ** The claim *)

Definition moveRequestToRevoked (grant : GrantRecord) (actorId : string) (at_ : Z) (note : option string)
    : M (option AccessRequestRecord) :=
  match g_access_request_id grant with
  | None => mret None
  | Some requestId =>
      do request <- request_find requestId;
      match request with
      | Some r =>
          if bool_decide (rq_status r <> RequestApproved) then mret None
          else
            do moved <- request_updateIfStatus (rq_id r) RequestApproved
              (decision RequestRevoked (Some actorId) (Some at_)
                 (Some (match note with Some n => Some n | None => rq_decision_note r end)) None);
            mret (match moved with Some _ => Some r | None => None end)
      | None => mret None
      end
  end.

Definition cancelPendingToolRequest (grant : GrantRecord) (actor : UserRecord) (at_ : Z) (ip : option string)
    : M (option AccessRequestRecord) :=
  do pending <- request_findPending (g_api_id grant) (g_user_id grant) (g_application_id grant);
  match pending with
  | None => mret None
  | Some p =>
      if bool_decide (rq_grant_id p <> Some (g_id grant)) then mret None
      else
        do closed <- request_updateIfStatus (rq_id p) RequestPending
          (decision RequestCancelled (Some (u_id actor)) (Some at_) (Some (Some INACTIVE_GRANT_NOTE)) None);
        match closed with
        | None => mret None
        | Some _ =>
            do_ audit_record (actor_of actor) "access.cancel" (on_request (rq_id p))
              [("api_id", JStr (g_api_id grant)); ("grant_id", JStr (g_id grant));
               ("reason", JStr "grant_inactive")]%string ip;
            mret (Some p)
        end
  end.

(** What a revocation's claim wrote: the grant, the request and the tool request
    as they were before, and the job. *)
Record revocation_claim : Type := {
  rc_claim : GrantRecord;
  rc_request : option AccessRequestRecord;
  rc_toolRequest : option AccessRequestRecord;
  rc_job : AccessJobs.Job;
}.

Definition revoke_details (grant : GrantRecord) (api : ApiRecord) (reason : option string) (mode : withdraw_mode)
    : list (string * json) :=
  [("api_id", JStr (api_id api)); ("api_slug", JStr (api_slug api)); ("user_id", JStr (g_user_id grant));
   ("application_id", json_opt_str (g_application_id grant)); ("acl_group", JStr (g_acl_group grant));
   ("reason", json_opt_str reason)]%string
  ++ match mode with Relinquish => [("relinquished"%string, json_bool true)] | Review => [] end.

Definition claim_revocation (actor : UserRecord) (grant : GrantRecord) (api : ApiRecord) (reason ip : option string)
    (mode : withdraw_mode) (recordWithRevoke : option (GrantRecord -> M unit)) (revokedAt : Z)
    : M (option revocation_claim) :=
  transaction (
    do result <- grant_updateIfStatus (g_id grant) GrantActive
                   (grant_status_patch GrantRevoked (Some (u_id actor)) (Some revokedAt));
    match result with
    | None => mret None
    | Some claim =>
        do movedRequest <- moveRequestToRevoked grant (u_id actor) revokedAt reason;
        do cancelled <- cancelPendingToolRequest grant actor revokedAt ip;
        do job <- jobs_upsertClaimed (job_input AccessJobs.Revoke (g_id grant) (g_api_id grant) (g_user_id grant)
                                        (g_application_id grant) actor) revokedAt;
        do_ audit_record (actor_of actor) "access.revoke" (on_grant (g_id grant))
              (revoke_details grant api reason mode) ip;
        do_ match recordWithRevoke with Some record => record claim | None => mret tt end;
        mret (Some {| rc_claim := claim; rc_request := movedRequest; rc_toolRequest := cancelled; rc_job := job |})
    end).

(** ** The rollback *)

Definition restoreToolRequest (claim : GrantRecord) (request : AccessRequestRecord) : M (option bool) :=
  do row <- request_find (rq_id request);
  match row with
  | None => mret None
  | Some current =>
      if negb (bool_decide (rq_status current = RequestCancelled)
               && bool_decide (rq_grant_id current = Some (g_id claim))
               && bool_decide (rq_decided_by current = g_revoked_by claim)
               && bool_decide (rq_decided_at current = g_revoked_at claim))
      then mret None
      else
        do recovery <- recovery_findByUser (g_user_id claim);
        match recovery with
        | Some _ => mret (Some false)
        | None =>
            do occupied <- request_findPending (g_api_id claim) (g_user_id claim) (g_application_id claim);
            match occupied with
            | Some _ => mret None
            | None =>
                do back <- request_updateIfStatus (rq_id request) RequestCancelled
                  (decision RequestPending (rq_decided_by request) (rq_decided_at request)
                     (Some (rq_decision_note request)) None);
                mret (match back with Some _ => Some true | None => None end)
            end
        end
  end.

Definition toolRequestBack (claim : GrantRecord) (request : AccessRequestRecord) : M bool :=
  do current <- or_null (request_find (rq_id request));
  mret (match current with
        | Some r => bool_decide (rq_status r = RequestPending) && bool_decide (rq_grant_id r = Some (g_id claim))
                    && bool_decide (rq_decided_by r = rq_decided_by request)
                    && bool_decide (rq_decided_at r = rq_decided_at request)
                    && bool_decide (rq_decision_note r = rq_decision_note request)
        | None => false
        end).

Definition restoreRefusal (grant : GrantRecord) : M (option RevocationRestoreSkip) :=
  do owner <- users_find (g_user_id grant);
  match owner with
  | None => mret (Some GranteeMissing)
  | Some o =>
      if bool_decide (u_status o <> UserActive) then mret (Some GranteeDisabled)
      else
        match g_application_id grant with
        | None => mret None
        | Some id =>
            do application <- applications_find id;
            mret (match application with
                  | Some a => if bool_decide (app_owner_user_id a = g_user_id grant) then None else Some ApplicationMissing
                  | None => Some ApplicationMissing
                  end)
        end
  end.

(** The grant still carries this claim. *)
Definition carries_claim (claim current : GrantRecord) : bool :=
  bool_decide (g_status current = GrantRevoked) && bool_decide (g_revoked_at current = g_revoked_at claim)
  && bool_decide (g_revoked_by current = g_revoked_by claim).

Definition restoreRevoked (claim : GrantRecord) (request toolRequest : option AccessRequestRecord)
    (groupPresent : bool) : M RevocationRestore :=
  do row <- grant_find (g_id claim);
  match row with
  | None => mret (not_restored None)
  | Some current =>
      if negb (carries_claim claim current) then mret (not_restored None)
      else
        do skipped <- restoreRefusal current;
        match skipped with
        | Some s => mret (not_restored (Some s))
        | None =>
            if negb groupPresent then mret (not_restored (Some GroupAbsent))
            else
              do back <- grant_updateIfStatus (g_id claim) GrantRevoked (grant_status_patch GrantActive None None);
              match back with
              | None => mret (not_restored None)
              | Some _ =>
                  do_ jobs_deleteBySubject (g_id claim);
                  do_ match request with
                      | Some r =>
                          request_updateIfStatus (rq_id r) RequestRevoked
                            (decision (rq_status r) (rq_decided_by r) (rq_decided_at r) (Some (rq_decision_note r)) None)
                      | None => mret None
                      end;
                  do tool <- match toolRequest with Some t => restoreToolRequest claim t | None => mret None end;
                  mret {| rr_restored := true; rr_skipped := None;
                          rr_toolRequestRestored := match tool with Some true => rq_id <$> toolRequest | _ => None end;
                          rr_toolRequestSkipped := bool_decide (tool = Some false) |}
              end
        end
  end.

Section Revocation.
Context `{EdgeClient} `{AccessDeps}.

(** An unreadable consumer answers [true]. *)
Definition groupStillOn (consumerId group : string) (tools : list string) : M bool :=
  mcatch
    (do live <- edge_get consumerId true;
     mret (match live with
           | Some c => existsb (fun entry => bool_decide (entry ∈ ec_acl_groups c)) (group :: tools)
           | None => false
           end))
    (fun _ => mret true).

(** The tool groups a restore may count: those of the tools the API publishes
    now behind the proxy whose lease is held. *)
Definition countable_tools (claim : GrantRecord) (proxyId : option string) (api : option ApiRecord) : list string :=
  let published := match api with
                   | Some a => if bool_decide (api_ferrum_proxy_id a = proxyId) && bool_decide (is_Some proxyId)
                               then filter (fun i => i <> ""%string) (published_tools a) else []
                   | None => []
                   end in
  match published with
  | [] => []
  | _ => mcpGroupsForGrant (g_api_id claim)
           (filter (fun i => i ∈ published) <$> g_approved_tools claim)
  end.

Definition restoreOnce {A} (claim : GrantRecord) (proxyId : option string) (body : bool -> M A) : M A :=
  let underLifecycle groupPresent :=
    locks (userLifecycleLockKey (g_user_id claim))
      (locks (accountRecoveryLockKey (g_user_id claim)) (transaction (body groupPresent))) in
  do consumer <- consumers_find (g_user_id claim) namespace (g_application_id claim);
  match consumer with
  | None => underLifecycle false
  | Some c =>
      locks (cs_ferrum_consumer_id c)
        (do api <- apis_find (g_api_id claim);
         do present <- groupStillOn (cs_ferrum_consumer_id c) (g_acl_group claim) (countable_tools claim proxyId api);
         underLifecycle present)
  end.

(** The loops stop by the clock: an attempt that started more than a lease's
    time after the first gives up. [fuel] bounds the attempts for the kernel; a
    loop without fuel gives up as a late one does. *)
Fixpoint restoreUnderKeys {A} (fuel : nat) (claim : GrantRecord) (since : Z) (proxyId : option string)
    (body : bool -> M A) : M A :=
  do attempt <- date_now;
  mcatch (restoreOnce claim proxyId body)
    (fun error =>
       if isLockTimeout error && bool_decide (attempt - since <= LEASE_TTL_MS) then
         match fuel with
         | O => mthrow error
         | S fuel' => restoreUnderKeys fuel' claim since proxyId body
         end
       else mthrow error).

Fixpoint restoreUnderFreshProxy {A} (fuel : nat) (claim : GrantRecord) (since : Z) (body : bool -> M A) : M A :=
  do attempt <- date_now;
  do api <- apis_find (g_api_id claim);
  match api with
  | Some {| api_agents := Some _; api_ferrum_proxy_id := Some proxyId |} =>
      do result <- mattempt
        (do result <- locks (proxyLockKey proxyId)
           (do current <- apis_find (g_api_id claim);
            if bool_decide (current ≫= api_ferrum_proxy_id = Some proxyId)
            then do value <- restoreUnderKeys fuel claim since (Some proxyId) body; mret (Some value)
            else mret None);
         match result with
         | Some value => mret (Some value)
         | None =>
             if bool_decide (LEASE_TTL_MS < attempt - since)
             then mthrow (conflict "The gateway proxy kept changing while this revocation was rolled back" [])
             else mret None
         end);
      let again error := match fuel with
                         | O => mthrow error
                         | S fuel' => restoreUnderFreshProxy fuel' claim since body
                         end in
      match result with
      | Ok (Some value) => mret value
      | Ok None => again (conflict "The gateway proxy kept changing while this revocation was rolled back" [])
      | Throw error =>
          if isLockTimeout error && bool_decide (attempt - since <= LEASE_TTL_MS) then again error else mthrow error
      end
  | _ => restoreUnderKeys fuel claim since None body
  end.

Definition restore_details (outcome : RevocationRestore) : list (string * json) :=
  ("grant_restored"%string, json_bool (rr_restored outcome))
  :: match rr_skipped outcome with Some s => [("restore_skipped_reason"%string, JStr (skip_text s))] | None => [] end
  ++ match rr_toolRequestRestored outcome with Some t => [("tool_request_restored"%string, JStr t)] | None => [] end
  ++ (if rr_toolRequestSkipped outcome then [("tool_request_skipped"%string, JStr "account_recovery")] else []).

Definition rollback_details (claim : GrantRecord) (cause : exn) (outcome : RevocationRestore) : list (string * json) :=
  [("api_id", JStr (g_api_id claim)); ("user_id", JStr (g_user_id claim));
   ("acl_group", JStr (g_acl_group claim)); ("cause", JStr (ex_message cause))]%string
  ++ restore_details outcome.

(** The outcome of a restore whose acknowledgement may have been lost. *)
Definition reread_outcome (c : revocation_claim) (outcome : RevocationRestore) : M RevocationRestore :=
  if rr_restored outcome || bool_decide (is_Some (rr_skipped outcome)) then mret outcome
  else
    do current <- or_null (grant_find (g_id (rc_claim c)));
    let restored := match current with Some g => is_active g | None => false end in
    do back <- match rc_toolRequest c with
               | Some t => if restored then toolRequestBack (rc_claim c) t else mret false
               | None => mret false
               end;
    mret {| rr_restored := restored; rr_skipped := None;
            rr_toolRequestRestored := if back : bool then rq_id <$> rc_toolRequest c else None;
            rr_toolRequestSkipped := false |}.

Definition record_rollback (actor : UserRecord) (c : revocation_claim) (cause : exn) (ip : option string)
    (outcome : RevocationRestore) : M unit :=
  do o <- reread_outcome c outcome;
  ignore_errors (audit_record (actor_of actor) "access.revoke_rollback" (on_grant (g_id (rc_claim c)))
                   (rollback_details (rc_claim c) cause o) ip).

Definition restore_claim (c : revocation_claim) (groupPresent : bool) : M RevocationRestore :=
  restoreRevoked (rc_claim c) (rc_request c) (rc_toolRequest c) groupPresent.

(** [restoreAlone(true)], outside the leases of the section. *)
Definition resumeUnderFreshProxy (fuel : nat) (actor : UserRecord) (c : revocation_claim) (cause : exn)
    (ip : option string) (since : Z) : M unit :=
  outsideHeldLeases
    (do outcome <- mcatch (restoreUnderFreshProxy fuel (rc_claim c) since (restore_claim c))
                     (fun _ => mret (not_restored None));
     record_rollback actor c cause ip outcome).

(** [restoreAlone(false)]: a lost lease asks for the continuation. *)
Definition restoreAlone (fuel : nat) (actor : UserRecord) (c : revocation_claim) (cause : exn)
    (ip : option string) (since : Z) (proxyId : option string) : M (option (M unit)) :=
  do outcome <- mattempt (restoreUnderKeys fuel (rc_claim c) since proxyId (restore_claim c));
  match outcome with
  | Ok o => do_ record_rollback actor c cause ip o; mret None
  | Throw error =>
      if isLeaseLost error then mret (Some (resumeUnderFreshProxy fuel actor c cause ip since))
      else do_ record_rollback actor c cause ip (not_restored None); mret None
  end.

Definition unwindRevocation (fuel : nat) (actor : UserRecord) (c : revocation_claim) (cause : exn)
    (ip : option string) (proxyId : option string) : M (option (M unit)) :=
  do rollbackId <- randomUUID;
  do since <- date_now;
  do done <- mattempt (restoreUnderKeys fuel (rc_claim c) since proxyId
    (fun groupPresent =>
       do outcome <- restore_claim c groupPresent;
       audit_record_as rollbackId (actor_of actor) "access.revoke_rollback" (on_grant (g_id (rc_claim c)))
         (rollback_details (rc_claim c) cause outcome) ip));
  match done with
  | Ok _ => mret None
  | Throw error =>
      do committed <- auditRowCommitted (on_grant (g_id (rc_claim c))) rollbackId;
      if committed : bool then mret None
      else if isLeaseLost error then mret (Some (resumeUnderFreshProxy fuel actor c cause ip since))
      else restoreAlone fuel actor c cause ip since proxyId
  end.

(** ** The withdrawal *)

(** Why a revocation job's removal is no longer owed. *)
Inductive obsolete_reason : Type := Superseded | GrantIsActive | Regranted.

#[local] Instance obsolete_reason_eq_dec : EqDecision obsolete_reason.
Proof. solve_decision. Defined.

Definition revocationObsolete (job : AccessJobs.Job) : M (option obsolete_reason) :=
  do owned <- stillOwned job;
  if negb owned then mret (Some Superseded)
  else
    do grant <- grant_find (AccessJobs.in_subject_id (AccessJobs.ag_input job));
    if match grant with Some g => is_active g | None => false end then mret (Some GrantIsActive)
    else
      do live <- grant_findActive (AccessJobs.in_api_id (AccessJobs.ag_input job))
                   (AccessJobs.in_user_id (AccessJobs.ag_input job))
                   (AccessJobs.in_application_id (AccessJobs.ag_input job));
      mret (match live with Some _ => Some Regranted | None => None end).

Definition unless_obsolete (job : AccessJobs.Job) : M (unit + obsolete_reason) :=
  do lost <- revocationObsolete job;
  mret (match lost with Some reason => inr reason | None => inl tt end).

Definition assertCanWithdraw (actor : UserRecord) (grant : GrantRecord) (mode : withdraw_mode) : M unit :=
  ensure (negb (bool_decide (mode = Relinquish) && bool_decide (g_user_id grant <> u_id actor)))
    (notFound "Grant" (Some (g_id grant))).

Definition announce_revoked (actor grantee : UserRecord) (api : ApiRecord) (reason : option string) : M unit :=
  announce grantee "access_revoked" ("Access revoked: " +:+ api_name api)
    (u_display_name actor +:+ " revoked your access to " +:+ api_name api +:+ ".")
    ("/catalog/" +:+ api_slug api) "access_revoked"
    [("api_name", api_name api); ("api_slug", api_slug api); ("revoked_by_name", u_display_name actor);
     ("reason", default "" reason)]%string.

(** The gateway step of a claimed revocation, and its settlement. *)
Definition finish_withdrawal (fuel : nat) (actor : UserRecord) (grant : GrantRecord) (api : ApiRecord)
    (grantee : option UserRecord) (c : revocation_claim) (ip : option string) (proxyId : option string)
    : M (GrantRecord + M GrantRecord) :=
  do removal <- mattempt
    match grantee with
    | Some user =>
        setGroupMembership (Y := unit) user (api_id api) false (g_application_id grant)
          (unless_obsolete (rc_job c)) None false None
    | None => mret None
    end;
  match removal with
  | Throw error =>
      do resume <- unwindRevocation fuel actor c error ip proxyId;
      match resume with
      | Some rest =>
          mret (inr (do_ rest; do_ settleOwnedJob (Some (rc_job c)) false (ex_message error); mthrow error))
      | None => do_ settleOwnedJob (Some (rc_job c)) false (ex_message error); mthrow error
      end
  | Ok (Some (AclSkipped Superseded)) => mret (inl (rc_claim c))
  | Ok _ => do_ settleOwnedJob (Some (rc_job c)) true ""; mret (inl (rc_claim c))
  end.

Definition withdraw (fuel : nat) (actor : UserRecord) (grantId : string) (reason ip : option string)
    (mode : withdraw_mode) (recordWithRevoke : option (GrantRecord -> M unit)) (proxyId : option string)
    : M (GrantRecord + M GrantRecord) :=
  do row <- grant_find grantId;
  do grant <- found row (notFound "Grant" (Some grantId));
  do_ assertCanWithdraw actor grant mode;
  do apiRow <- apis_find (g_api_id grant);
  do api <- found apiRow (notFound "API" (Some (g_api_id grant)));
  do_ (if bool_decide (mode = Review) then assertCanReview actor api else mret tt);
  do_ ensure (bool_decide (api_ferrum_proxy_id api = proxyId))
        (conflict "The gateway proxy changed while this revocation was waiting; reload and retry" []);
  do grantee <- users_find (g_user_id grant);
  do revokedAt <- date_now;
  do claimed <- claim_revocation actor grant api reason ip mode recordWithRevoke revokedAt;
  match claimed with
  | None => do e <- revocationConflict (g_id grant); mthrow e
  | Some c =>
      do outcome <- finish_withdrawal fuel actor grant api grantee c ip proxyId;
      match outcome with
      | inr later => mret (inr later)
      | inl updated =>
          do_ match grantee with
              | Some user => if bool_decide (mode = Review) then announce_revoked actor user api reason else mret tt
              | None => mret tt
              end;
          mret (inl updated)
      end
  end.

Definition withdrawGrant (fuel : nat) (actor : UserRecord) (grantId : string) (reason ip : option string)
    (mode : withdraw_mode) (recordWithRevoke : option (GrantRecord -> M unit)) : M GrantRecord :=
  do row <- grant_find grantId;
  do initial <- found row (notFound "Grant" (Some grantId));
  do_ assertCanWithdraw actor initial mode;
  do apiRow <- apis_find (g_api_id initial);
  do initialApi <- found apiRow (notFound "API" (Some (g_api_id initial)));
  do_ (if bool_decide (mode = Review) then assertCanReview actor initialApi else mret tt);
  do_ ensure (is_active initial) (conflict "This grant is already revoked" []);
  let proxyId := api_ferrum_proxy_id initialApi in
  do withdrawn <- under_proxy proxyId (withdraw fuel actor grantId reason ip mode recordWithRevoke proxyId);
  do updated <- match withdrawn with inl g => mret g | inr later => later end;
  do_ decorate actor;
  mret updated.

Definition revoke (fuel : nat) (actor : UserRecord) (grantId : string) (reason ip : option string)
    (recordWithRevoke : option (GrantRecord -> M unit)) : M GrantRecord :=
  withdrawGrant fuel actor grantId reason ip Review recordWithRevoke.

Definition relinquish (fuel : nat) (user : UserRecord) (grantId : string) (ip : option string) : M GrantRecord :=
  withdrawGrant fuel user grantId None ip Relinquish None.

(** ** The sweep of an account *)

Definition sweep_claim (actor : UserRecord) (grant : GrantRecord) (userId reason : string) (ip : option string)
    (revokedAt : Z) : M (option GrantRecord) :=
  transaction (
    do result <- grant_updateIfStatus (g_id grant) GrantActive
                   (grant_status_patch GrantRevoked (Some (u_id actor)) (Some revokedAt));
    match result with
    | None => mret None
    | Some g =>
        do_ moveRequestToRevoked grant (u_id actor) revokedAt (Some reason);
        do_ cancelPendingToolRequest grant actor revokedAt ip;
        do_ audit_record (actor_of actor) "access.revoke" (on_grant (g_id grant))
          [("api_id", JStr (g_api_id grant)); ("user_id", JStr userId);
           ("application_id", json_opt_str (g_application_id grant)); ("acl_group", JStr (g_acl_group grant));
           ("reason", JStr reason); ("bulk", json_bool true)]%string ip;
        mret (Some g)
    end).

Definition bulk_failure (grant : GrantRecord) (stage : failure_stage) (error : exn) : BulkRevocationFailure := {|
  bf_grant_id := g_id grant; bf_api_id := g_api_id grant; bf_application_id := g_application_id grant;
  bf_stage := stage; bf_error := ex_message error;
|}.

(** Which consumer to take the group off. *)
Definition sweep_lookup (grant : GrantRecord) (userId : string) : M (option string) :=
  do api <- apis_find (g_api_id grant);
  do grantee <- users_find userId;
  match api, grantee with
  | Some _, Some _ =>
      do consumer <- consumers_find userId namespace (g_application_id grant);
      mret (cs_ferrum_consumer_id <$> consumer)
  | _, _ => mret None
  end.

Definition remove_groups (consumerId apiId subject : string) : M unit :=
  do_ mutateAclGroups consumerId (fun (_ : unit) => change_membership apiId false []) subject
    {| skipUnchanged := false; requireActiveUser := None; skipInactiveUser := false; absentIsDone := true;
       afterWrite := None (A := EdgeConsumer -> M unit); guard := mret (inl tt : unit + unit) |};
  mret tt.

(** One grant of the sweep: not claimed, revoked, or failed at a stage. *)
Definition sweep_one (actor : UserRecord) (userId reason : string) (ip : option string) (grant : GrantRecord)
    : M (option (unit + BulkRevocationFailure)) :=
  do revokedAt <- date_now;
  do claimed <- mattempt (sweep_claim actor grant userId reason ip revokedAt);
  match claimed with
  | Throw error => mret (Some (inr (bulk_failure grant StageClaim error)))
  | Ok None => mret None
  | Ok (Some _) =>
      do consumerId <- mattempt (sweep_lookup grant userId);
      match consumerId with
      | Throw error => mret (Some (inr (bulk_failure grant StageLookup error)))
      | Ok None => mret (Some (inl tt))
      | Ok (Some id) =>
          do removed <- mattempt (remove_groups id (g_api_id grant) userId);
          mret (Some (match removed with Ok _ => inl tt | Throw error => inr (bulk_failure grant StageGateway error) end))
      end
  end.

Fixpoint sweep_grants (actor : UserRecord) (userId reason : string) (ip : option string)
    (grants : list GrantRecord) (result : BulkRevocationResult) : M BulkRevocationResult :=
  match grants with
  | [] => mret result
  | grant :: rest =>
      do one <- sweep_one actor userId reason ip grant;
      sweep_grants actor userId reason ip rest
        match one with
        | None => result
        | Some (inl _) => {| br_revoked := br_revoked result + 1; br_failed := br_failed result |}
        | Some (inr f) => {| br_revoked := br_revoked result; br_failed := br_failed result ++ [f] |}
        end
  end.

Definition revokeAllForUser (actor : UserRecord) (userId reason : string) (ip : option string)
    : M BulkRevocationResult :=
  do grants <- grant_listActiveByUser userId;
  sweep_grants actor userId reason ip grants {| br_revoked := 0; br_failed := [] |}.

(** ** The recovery of a revocation *)

Definition dropJob (job : AccessJobs.Job) : M AccessGatewayJobOutcome :=
  do deleted <- jobs_deleteClaimed job;
  mret (if deleted : bool then OutObsolete else OutSuperseded).

(** The removal is owed when it says [None]. *)
Definition recover_removal (job : AccessJobs.Job) (grantee : UserRecord) (consumer : option ConsumerRecord)
    : M (option obsolete_reason) :=
  let input := AccessJobs.ag_input job in
  match consumer with
  | Some c =>
      do outcome <- mutateAclGroups (cs_ferrum_consumer_id c)
        (fun (_ : unit) => change_membership (AccessJobs.in_api_id input) false []) (u_id grantee)
        {| skipUnchanged := false; requireActiveUser := None; skipInactiveUser := false; absentIsDone := true;
           afterWrite := None (A := EdgeConsumer -> M unit); guard := unless_obsolete job |};
      mret (match outcome with AclSkipped reason => Some reason | _ => None end)
  | None => revocationObsolete job
  end.

Definition recoverRevocation (job : AccessJobs.Job) : M AccessGatewayJobOutcome :=
  let input := AccessJobs.ag_input job in
  do row <- users_find (AccessJobs.in_user_id input);
  match row with
  | None => dropJob job
  | Some grantee =>
      do consumer <- consumers_find (AccessJobs.in_user_id input) namespace (AccessJobs.in_application_id input);
      do obsolete <- recover_removal job grantee consumer;
      match obsolete with
      | Some Superseded => mret OutSuperseded
      | Some _ => dropJob job
      | None =>
          do completed <- transaction (
            do deleted <- jobs_deleteClaimed job;
            if negb deleted then mret false
            else
              do_ audit_record SYSTEM_ACTOR "access.revoke_complete" (on_grant (AccessJobs.in_subject_id input))
                [("api_id", JStr (AccessJobs.in_api_id input)); ("user_id", JStr (AccessJobs.in_user_id input));
                 ("application_id", json_opt_str (AccessJobs.in_application_id input));
                 ("acl_group", JStr (aclGroupForApi (AccessJobs.in_api_id input)));
                 ("revoked_by", json_opt_str (AccessJobs.in_requested_by input));
                 ("attempts", JNum (job_attempts job)); ("consumer_found", json_bool (bool_decide (is_Some consumer)))]%string None;
              mret true);
          mret (if completed : bool then OutCompleted else OutSuperseded)
      end
  end.
End Revocation.
