(* ===== verification/AccessApproval.v ===== *)
(** * Approvals

    [server/src/access/service.ts]: an approval claims the decision, writes the
    gateway and commits the grant under the consumer's key; the same for a
    request for more tools on a grant; their compensations; and the recovery of
    an approval whose grant never committed. *)

From S2P Require Import Prelude Json Roles ClaimQueue Users JobQueues AuditLog AccessTables World AccessStore LeaseFence KeyedSerializer Provisioner AccessDecisions GatewayJobWorker AccessRevocation.
Open Scope Z_scope.

(** Why an approval's guard refused the write: recovery took the job over, or
    another grant holds the identity. *)
Inductive approval_refusal : Type := ApprovalSuperseded | ApprovalRegranted.

Definition new_grant (api : ApiRecord) (request : AccessRequestRecord) (requester actor : UserRecord)
    (tools : option (list string)) (newId : string) (now : Z) : GrantRecord := {|
  g_id := newId; g_api_id := api_id api; g_user_id := u_id requester;
  g_application_id := rq_application_id request; g_access_request_id := Some (rq_id request);
  g_acl_group := aclGroupForApi (api_id api); g_approved_tools := tools; g_status := GrantActive;
  g_granted_by := u_id actor; g_revoked_by := None; g_revoked_at := None; g_created_at := now; g_updated_at := now;
|}.

Definition cancelled_inactive (note : string) : RequestPatch :=
  decision RequestCancelled None None (Some (Some note)) (Some None).

(** The flag [groupPossiblyApplied] of an approval. *)
Definition POSSIBLY_APPLIED : string := "groupPossiblyApplied".
Definition NOW_COVERED : string := "nowCovered".
Definition flag (b : bool) : Z := if b then 1 else 0.

Section Approval.
Context `{EdgeClient} `{AccessDeps}.

(** ** Reconciling the groups of an identity *)

Record reconciled : Type := {
  rec_live : option GrantRecord;
  rec_removed : list string;
  rec_restored : list string;
}.

Definition canonical_groups (api : ApiRecord) (live : option GrantRecord) : list string :=
  match live with
  | Some g => aclGroupForApi (api_id api)
              :: match api_agents api with Some _ => mcpGroupsForGrant (api_id api) (g_approved_tools g) | None => [] end
  | None => []
  end.
Definition kept_groups (api : ApiRecord) (live : option GrantRecord) (groups : list string) : list string :=
  filter (fun entry => isGroupOfApi entry (api_id api) = false \/ entry ∈ canonical_groups api live) groups.
Definition restored_groups (api : ApiRecord) (seen : option GrantRecord * bool) (groups : list string) : list string :=
  if seen.2 then filter (fun entry => entry ∉ kept_groups api seen.1 groups) (canonical_groups api seen.1) else [].

Definition reconcileGroups (requester : UserRecord) (api : ApiRecord) (applicationId : option string) : M reconciled :=
  let readLive :=
    do live <- grant_findActive (api_id api) (u_id requester) applicationId;
    do user <- users_find (u_id requester);
    mret (live, is_active_account user) in
  do consumer <- consumers_find (u_id requester) namespace applicationId;
  match consumer with
  | None => do seen <- readLive; mret {| rec_live := seen.1; rec_removed := []; rec_restored := [] |}
  | Some c =>
      do outcome <- mutateAclGroups (cs_ferrum_consumer_id c)
        (fun seen groups => kept_groups api seen.1 groups ++ restored_groups api seen groups) (u_id requester)
        {| skipUnchanged := false; requireActiveUser := None; skipInactiveUser := false; absentIsDone := true;
           afterWrite := None (A := EdgeConsumer -> M unit);
           guard := do seen <- readLive; mret (inl seen : (option GrantRecord * bool) + unit) |};
      mret match outcome with
           | AclWritten seen groups _ _ =>
               {| rec_live := seen.1;
                  rec_removed := filter (fun entry => entry ∉ kept_groups api seen.1 groups) groups;
                  rec_restored := restored_groups api seen groups |}
           | AclAbsent seen | AclUnchanged seen _ => {| rec_live := seen.1; rec_removed := []; rec_restored := [] |}
           | AclSkipped _ | AclInactive => {| rec_live := None; rec_removed := []; rec_restored := [] |}
           end
  end.

(** ** Compensating an approval *)

(** [guard]: an active grant of the identity owns the group. *)
Definition unless_granted (apiId userId : string) (applicationId : option string) : M (unit + GrantRecord) :=
  do grant <- grant_findActive apiId userId applicationId;
  mret (match grant with Some g => inr g | None => inl tt end).

(** The request of a compensation, and whether the compensation settled it. *)
Definition release_request (job : AccessJobs.Job) (requestId : string) (patch : RequestPatch) (field : string)
    : M (bool * list (string * json)) :=
  do outcome <- mattempt (settleOwnRequest job requestId patch);
  mret match outcome with
       | Ok o => (true, (field, json_bool (bool_decide (is_Some (os_moved o))))
                        :: if os_superseded o then [("request_left"%string, JStr "superseded")] else [])
       | Throw _ => (false, [(field, json_bool false)])
       end.

Definition unwind_unheld (api : ApiRecord) (requester : UserRecord) (requestId : string) (groupAdded : option string)
    (applicationId : option string) (job : AccessJobs.Job) : M (bool * list (string * json)) :=
  do removal <- match groupAdded with
                | None => mret (true, None, [])
                | Some group =>
                    do removed <- mattempt (setGroupMembership (Y := unit) requester (api_id api) false applicationId
                                     (unless_granted (api_id api) (u_id requester) applicationId) None false None);
                    mret match removed with
                         | Ok (Some (AclSkipped g)) =>
                             (true, Some g, [("acl_group_kept", JStr group); ("kept_for_grant_id", JStr (g_id g))]%string)
                         | Ok _ => (true, None, [("acl_group_removed", JStr group)]%string)
                         | Throw _ => (false, None, [("acl_group_orphaned", JStr group)]%string)
                         end
                end;
  match removal with
  | (settled, Some g, details) =>
      let own := bool_decide (g_access_request_id g = Some requestId) in
      mret (settled && own, details ++ ("request_left"%string, JStr "regranted")
              :: if own then [] else [("deferred_to_recovery"%string, json_bool true)])
  | (settled, None, details) =>
      do released <- release_request job requestId released "request_released";
      mret (settled && released.1, details ++ released.2)
  end.

Definition unwindApproval (actor : UserRecord) (api : ApiRecord) (requester : UserRecord) (requestId : string)
    (groupAdded : option string) (groupPossiblyApplied : bool) (applicationId : option string)
    (job : AccessJobs.Job) (cause : exn) (ip : option string) : M bool :=
  do live <- or_null (grant_findActive (api_id api) (u_id requester) applicationId);
  do outcome <- match live with
                | Some g =>
                    let own := bool_decide (g_access_request_id g = Some requestId) in
                    mret (own, [("acl_group_kept", json_opt_str groupAdded); ("kept_for_grant_id", JStr (g_id g))]%string
                               ++ if own then [] else [("deferred_to_recovery"%string, json_bool true)])
                | None => unwind_unheld api requester requestId groupAdded applicationId job
                end;
  do_ ignore_errors (audit_record (actor_of actor) "access.approve_rollback" (on_request requestId)
    ([("api_id", JStr (api_id api)); ("api_slug", JStr (api_slug api)); ("user_id", JStr (u_id requester));
      ("application_id", json_opt_str applicationId);
      ("acl_group_possibly_applied", json_bool groupPossiblyApplied); ("cause", JStr (ex_message cause))]%string
     ++ outcome.2) ip);
  mret outcome.1.

(** ** Approving a request for access *)

Definition disabled_application (applicationId : string) : exn :=
  conflict "The application this request is for is disabled" [("application_id", applicationId)]%string.

(** Inside the consumer key, straight after the group landed. *)
Definition commit_grant (actor : UserRecord) (request : AccessRequestRecord) (api : ApiRecord) (requester : UserRecord)
    (tools : option (list string)) (job : AccessJobs.Job) (ip : option string) : M GrantRecord :=
  transaction (
    do_ match rq_application_id request with
        | None => mret tt
        | Some id =>
            do application <- applications_find id;
            match application with
            | Some a =>
                if bool_decide (app_owner_user_id a <> u_id requester) then mthrow (notFound "Application" (Some id))
                else ensure (bool_decide (app_status a = ApplicationActive)) (disabled_application id)
            | None => mthrow (notFound "Application" (Some id))
            end
        end;
    do created <- grant_create (new_grant api request requester actor tools);
    do_ audit_record (actor_of actor) "access.approve" (on_request (rq_id request))
      [("api_id", JStr (api_id api)); ("api_slug", JStr (api_slug api)); ("user_id", JStr (u_id requester));
       ("grant_id", JStr (g_id created)); ("acl_group", JStr (g_acl_group created));
       ("requested_tools", json_tools (rq_requested_tools request)); ("approved_tools", json_tools tools)]%string ip;
    do deleted <- jobs_deleteClaimed job;
    if deleted : bool then mret created else mthrow supersededApproval).

Definition approval_guard (job : AccessJobs.Job) (api : ApiRecord) (requester : UserRecord)
    (request : AccessRequestRecord) (refused : GrantRecord -> bool) : M (unit + approval_refusal) :=
  do owned <- stillOwned job;
  if negb owned then mret (inr ApprovalSuperseded)
  else
    do holder <- grant_findActive (api_id api) (u_id requester) (rq_application_id request);
    mret (match holder with
          | Some g => if refused g then inr ApprovalRegranted else inl tt
          | None => inl tt
          end).

(** The gateway write and the commit, with the flag of the closure. *)
Definition write_approval {A} (requester : UserRecord) (api : ApiRecord) (request : AccessRequestRecord)
    (guard : M (unit + approval_refusal)) (commit : M A) (tools : option (list string))
    : M (option (acl_outcome unit approval_refusal A)) :=
  do_ set_counter POSSIBLY_APPLIED (flag true);
  setGroupMembership requester (api_id api) true (rq_application_id request) guard
    (Some (fun _ => do_ set_counter POSSIBLY_APPLIED (flag false); commit)) false tools.

Definition possibly_applied (cause : exn) : M bool :=
  do applied <- noted POSSIBLY_APPLIED;
  mret (negb (is_user_disabled cause) && bool_decide (applied = flag true)).

Definition announce_approved (actor requester : UserRecord) (api : ApiRecord) (title body : string)
    (note : option string) : M unit :=
  announce requester "access_request_approved" title body ("/catalog/" +:+ api_slug api) "access_approved"
    [("api_name", api_name api); ("api_slug", api_slug api); ("api_url", catalogUrl (api_slug api));
     ("decided_by_name", u_display_name actor); ("decision_note", default "" note)]%string.

Definition no_grant_recorded (message : string) : exn := nexusError INTERNAL message [].
Definition already_granted : exn := conflict "This identity already has an active grant for this API" [].

(** Steps 2 and 3 of an approval, on its claim. *)
Definition finish_approval (actor : UserRecord) (request : AccessRequestRecord) (api : ApiRecord) (requester : UserRecord)
    (tools : option (list string)) (job : AccessJobs.Job) (ip : option string) : M GrantRecord :=
  do written <- mattempt
    (write_approval requester api request
       (approval_guard job api requester request
          (fun holder => negb (bool_decide (g_access_request_id holder = Some (rq_id request)))))
       (commit_grant actor request api requester tools job ip) tools);
  match written with
  | Ok (Some (AclSkipped ApprovalSuperseded)) => mthrow supersededApproval
  | Ok (Some (AclSkipped ApprovalRegranted)) =>
      do_ settleOwnedJob (Some job) false (ex_message already_granted); mthrow already_granted
  | Ok (Some (AclWritten _ _ _ (Some grant))) => mret grant
  | Ok _ => mthrow (no_grant_recorded "The approval recorded no grant")
  | Throw cause =>
      do applied <- possibly_applied cause;
      do settled <- unwindApproval actor api requester (rq_id request)
        (if is_user_disabled cause then None else Some (aclGroupForApi (api_id api))) applied
        (rq_application_id request) job cause ip;
      do_ settleOwnedJob (Some job) settled (ex_message cause);
      mthrow cause
  end.

(** ** More tools on a grant *)

(** The tools of [added] that [covered] does not cover; [None] is every tool,
    no holder covers none. *)
Definition uncovered_tools (holder : option GrantRecord) (added : list string) : list string :=
  match holder with
  | None => added
  | Some g => match g_approved_tools g with
              | None => []
              | Some covered => filter (fun i => i ∉ covered) added
              end
  end.

Definition covers (tools : option (list string)) (added : list string) : bool :=
  match tools with None => true | Some l => forallb (fun i => bool_decide (i ∈ l)) added end.

(** No grant holds the identity: every group the write put back comes off. *)
Definition unwind_all_groups (api : ApiRecord) (requester : UserRecord) (request : AccessRequestRecord)
    : M (bool * option GrantRecord * list (string * json)) :=
  let group := JStr (aclGroupForApi (api_id api)) in
  do removed <- mattempt (setGroupMembership (Y := unit) requester (api_id api) false (rq_application_id request)
                   (unless_granted (api_id api) (u_id requester) (rq_application_id request)) None true None);
  mret match removed with
       | Ok (Some (AclSkipped g)) => (true, Some g, [("acl_group_kept", group); ("kept_for_grant_id", JStr (g_id g))]%string)
       | Ok _ => (true, None, [("acl_group_removed", group); ("all_tool_groups_removed", json_bool true)]%string)
       | Throw _ => (false, None, [("acl_group_orphaned", group)]%string)
       end.

(** The grant stands: only the tools it does not cover come off, read again
    inside the consumer key. *)
Definition unwind_added_groups (api : ApiRecord) (requester : UserRecord) (request : AccessRequestRecord)
    (added uncovered : list string) : M (bool * list (string * json)) :=
  let strip covered := match covered with
                       | None => []
                       | Some l => mcpGroupsForGrant (api_id api) (Some (filter (fun i => i ∉ l) uncovered))
                       end in
  let all := mcpGroupsForGrant (api_id api) (Some uncovered) in
  do removed <- mattempt
    (do consumer <- consumers_find (u_id requester) namespace (rq_application_id request);
     match consumer with
     | None => mret all
     | Some c =>
         do outcome <- mutateAclGroups (cs_ferrum_consumer_id c)
           (fun covered groups => filter (fun entry => entry ∉ strip covered) groups) (u_id requester)
           {| skipUnchanged := false; requireActiveUser := None; skipInactiveUser := false; absentIsDone := true;
              afterWrite := None (A := EdgeConsumer -> M unit);
              guard := do current <- grant_findActive (api_id api) (u_id requester) (rq_application_id request);
                       let covered := match current with Some g => g_approved_tools g | None => Some [] end in
                       do_ set_counter NOW_COVERED (flag (covers covered added));
                       mret (inl covered : option (list string) + unit) |};
         mret match outcome with AclWritten covered _ _ _ => strip covered | _ => all end
     end);
  mret match removed with
       | Ok groups => (true, [("tool_groups_removed"%string, json_strs groups)])
       | Throw _ => (false, [("tool_groups_orphaned"%string, json_strs all)])
       end.

Definition unwind_uncovered (api : ApiRecord) (requester : UserRecord) (request : AccessRequestRecord)
    (active holder : option GrantRecord) (added uncovered : list string) (attempted : bool) (job : AccessJobs.Job)
    : M (bool * list (string * json)) :=
  do_ set_counter NOW_COVERED (flag false);
  do groups <- (if attempted && bool_decide (holder = None) then unwind_all_groups api requester request
                else if attempted && negb (bool_decide (uncovered = []))
                then do r <- unwind_added_groups api requester request added uncovered; mret (r.1, None, r.2)
                else mret (true, None, []));
  let '(settled, regrant, details) := groups in
  do nowCovered <- noted NOW_COVERED;
  if bool_decide (is_Some regrant) || bool_decide (nowCovered = flag true)
  then mret (settled, details ++ [("request_left"%string, JStr "regranted")])
  else
    do released <- (match active with
                    | Some _ => release_request job (rq_id request) released "request_released"
                    | None => release_request job (rq_id request) (cancelled_inactive INACTIVE_GRANT_NOTE) "request_cancelled"
                    end);
    mret (settled && released.1, details ++ released.2).

Definition unwindToolApproval (actor : UserRecord) (api : ApiRecord) (requester : UserRecord)
    (request : AccessRequestRecord) (grantId : string) (added : list string) (groupPossiblyApplied attempted : bool)
    (job : AccessJobs.Job) (cause : exn) (ip : option string) : M bool :=
  do live <- or_null (grant_find grantId);
  let active := match live with Some g => if is_active g then Some g else None | None => None end in
  do holder <- match active with
               | Some g => mret (Some g)
               | None => or_null (grant_findActive (api_id api) (u_id requester) (rq_application_id request))
               end;
  let uncovered := uncovered_tools holder added in
  do outcome <-
    (if bool_decide (is_Some active) && bool_decide (uncovered = []) then
       do rec <- mattempt (reconcileGroups requester api (rq_application_id request));
       mret match rec with
            | Ok r => (true, ("tool_groups_kept"%string, json_strs (mcpGroupsForGrant (api_id api) (Some added)))
                             :: (if bool_decide (rec_removed r = []) then [] else [("acl_groups_removed"%string, json_strs (rec_removed r))])
                             ++ (if bool_decide (rec_restored r = []) then [] else [("acl_groups_restored"%string, json_strs (rec_restored r))]))
            | Throw _ => (false, [("tool_groups_kept", json_strs (mcpGroupsForGrant (api_id api) (Some added)));
                                  ("deferred_to_recovery", json_bool true)]%string)
            end
     else match active, holder with
          | None, Some g => mret (false, [("kept_for_grant_id", JStr (g_id g)); ("deferred_to_recovery", json_bool true)]%string)
          | _, _ => unwind_uncovered api requester request active holder added uncovered attempted job
          end);
  do_ ignore_errors (audit_record (actor_of actor) "access.tools_approve_rollback" (on_request (rq_id request))
    ([("api_id", JStr (api_id api)); ("api_slug", JStr (api_slug api)); ("user_id", JStr (u_id requester));
      ("application_id", json_opt_str (rq_application_id request)); ("grant_id", JStr grantId);
      ("added_tools", json_strs added); ("acl_group_possibly_applied", json_bool groupPossiblyApplied);
      ("cause", JStr (ex_message cause))]%string ++ outcome.2) ip);
  mret outcome.1.

(** The grant's new subset, compare-and-set on the one admitted. *)
Definition commit_tools (actor : UserRecord) (request : AccessRequestRecord) (api : ApiRecord) (requester : UserRecord)
    (grantId : string) (current requested added next : list string) (job : AccessJobs.Job) (ip : option string)
    : M GrantRecord :=
  transaction (
    do_ match rq_application_id request with Some id => assertApplicationActive id (u_id requester) | None => mret tt end;
    do live <- grant_find grantId;
    do_ ensure (match live with
                | Some g => is_active g && bool_decide (g_approved_tools g = Some current)
                | None => false
                end) inactiveGrant;
    do widened <- grant_updateIfStatus grantId GrantActive (grant_tools_patch next);
    do g <- found widened inactiveGrant;
    do deleted <- jobs_deleteClaimed job;
    do_ ensure deleted supersededApproval;
    do_ audit_record (actor_of actor) "access.tools_approve" (on_request (rq_id request))
      [("api_id", JStr (api_id api)); ("api_slug", JStr (api_slug api)); ("user_id", JStr (u_id requester));
       ("application_id", json_opt_str (rq_application_id request)); ("grant_id", JStr grantId);
       ("requested_tools", json_strs requested); ("added_tools", json_strs added);
       ("approved_tools", json_strs next)]%string ip;
    mret g).

Definition finish_tools (actor : UserRecord) (request updated : AccessRequestRecord) (api : ApiRecord)
    (requester : UserRecord) (grantId : string) (current requested added : list string)
    (job : AccessJobs.Job) (ip : option string) : M GrantRecord :=
  let next := current ++ added in
  do written <- mattempt
    (write_approval requester api request
       (approval_guard job api requester request
          (fun holder => negb (bool_decide (g_id holder = grantId) && bool_decide (g_approved_tools holder = Some current))))
       (commit_tools actor request api requester grantId current requested added next job ip) (Some next));
  match written with
  | Ok (Some (AclSkipped ApprovalSuperseded)) => mthrow supersededApproval
  | Ok (Some (AclSkipped ApprovalRegranted)) =>
      do_ settleOwnedJob (Some job) false (ex_message inactiveGrant); mthrow inactiveGrant
  | Ok (Some (AclWritten _ _ _ (Some grant))) => mret grant
  | Ok _ => mthrow (no_grant_recorded "The tool approval recorded no grant")
  | Throw cause =>
      do applied <- possibly_applied cause;
      do settled <- unwindToolApproval actor api requester updated grantId added applied
                      (negb (is_user_disabled cause)) job cause ip;
      do_ settleOwnedJob (Some job) settled (ex_message cause);
      mthrow cause
  end.

(** [approvedTools]: [None] is [undefined]. *)
Definition approveTools (actor : UserRecord) (request : AccessRequestRecord) (api : ApiRecord) (requester : UserRecord)
    (grantId : string) (note ip : option string) (approvedTools : option (option (list string)))
    : M (AccessRequestRecord * GrantRecord) :=
  do row <- grant_find grantId;
  do grant <- found row inactiveGrant;
  do_ ensure (is_active grant && bool_decide (g_api_id grant = api_id api)
              && bool_decide (g_user_id grant = u_id requester)
              && bool_decide (g_application_id grant = rq_application_id request)) inactiveGrant;
  do current <- found (g_approved_tools grant) (conflict "This grant already covers every published tool" []);
  let requested := default [] (rq_requested_tools request) in
  let added := match approvedTools with None => requested | Some tools => default [] tools end in
  do_ ensure (negb (bool_decide (added = [])))
        (validationFailed "Approve at least one requested tool, or deny the request" []);
  do_ ensure (forallb (fun i => bool_decide (i ∈ requested)) added)
        (validationFailed "Approval cannot broaden the requested tool subset" []);
  do_ ensure (negb (existsb (fun i => bool_decide (i ∈ current)) added))
        (validationFailed "The grant already covers some of these tools" []);
  do_ validateToolSubset api (Some added);
  do now <- date_now;
  do claimed <- claimApproval actor request requester (Some added) now note;
  do widened <- finish_tools actor request claimed.1 api requester grantId current requested added claimed.2 ip;
  do_ announce_approved actor requester api ("Agent tools approved: " +:+ api_name api)
        (u_display_name actor +:+ " approved your request for more agent tools on " +:+ api_name api +:+
         ". Your grant now covers them alongside the access it already gave.") note;
  do_ decorate actor; do_ decorate actor;
  mret (claimed.1, widened).

(** ** [approve] *)

Definition within_requested (requested tools : option (list string)) : bool :=
  match requested with
  | None => true
  | Some l => match tools with None => false | Some t => forallb (fun i => bool_decide (i ∈ l)) t end
  end.

Definition approve_access (actor : UserRecord) (request : AccessRequestRecord) (api : ApiRecord) (requester : UserRecord)
    (note ip : option string) (approvedTools : option (option (list string)))
    : M (AccessRequestRecord * GrantRecord) :=
  do holder <- grant_findActive (api_id api) (u_id requester) (rq_application_id request);
  do_ ensure (bool_decide (holder = None)) already_granted;
  let tools := match approvedTools with None => rq_requested_tools request | Some t => t end in
  do_ validateToolSubset api tools;
  do_ ensure (within_requested (rq_requested_tools request) tools)
        (validationFailed "Approval cannot broaden the requested tool subset" []);
  do now <- date_now;
  do claimed <- claimApproval actor request requester tools now note;
  do grant <- finish_approval actor request api requester tools claimed.2 ip;
  do_ announce_approved actor requester api ("Access approved: " +:+ api_name api)
        (u_display_name actor +:+ " approved your request for " +:+ api_name api +:+ ".") note;
  do_ decorate actor; do_ decorate actor;
  mret (claimed.1, grant).

Definition decide_approval (actor : UserRecord) (requestId : string) (note ip : option string)
    (approvedTools : option (option (list string))) (proxyId : option string)
    : M (AccessRequestRecord * GrantRecord) :=
  do loaded <- loadRequest requestId;
  let '(request, api, requester) := loaded in
  do_ assertCanReview actor api;
  do_ ensure (bool_decide (api_ferrum_proxy_id api = proxyId))
        (conflict "The gateway proxy changed while approval was waiting; reload and retry" []);
  do_ ensure (is_published api) (conflict "This API is retired and is no longer accepting access approvals" []);
  do_ ensure (api_requestable api) (conflict "This API does not accept access approvals" []);
  do_ ensure (is_pending request) (conflict ("This request is already " +:+ status_text (rq_status request)) []);
  do_ match rq_application_id request with
      | None => mret tt
      | Some id =>
          do application <- applications_find id;
          ensure (match application with Some a => bool_decide (app_status a = ApplicationActive) | None => false end)
            (disabled_application id)
      end;
  match rq_grant_id request with
  | Some grantId => approveTools actor request api requester grantId note ip approvedTools
  | None => approve_access actor request api requester note ip approvedTools
  end.

Definition approve (actor : UserRecord) (requestId : string) (note ip : option string)
    (approvedTools : option (option (list string))) : M (AccessRequestRecord * GrantRecord) :=
  do initial <- loadRequest requestId;
  let '(_, api, _) := initial in
  do_ assertCanReview actor api;
  under_proxy (api_ferrum_proxy_id api)
    (decide_approval actor requestId note ip approvedTools (api_ferrum_proxy_id api)).

(** ** The recovery of an approval *)

Inductive settlement : Type := Release | Cancel | Kept | NoChange.

#[local] Instance settlement_eq_dec : EqDecision settlement.
Proof. solve_decision. Defined.

(** What becomes of the request, by the grant that is there. *)
Definition plan_settlement (request : AccessRequestRecord) (live : option GrantRecord) : settlement :=
  if negb (bool_decide (rq_status request = RequestApproved)) then NoChange
  else match rq_grant_id request with
       | None =>
           match live with
           | Some g => if bool_decide (g_access_request_id g = Some (rq_id request)) then Kept else Cancel
           | None => Release
           end
       | Some grantId =>
           match live with
           | Some g =>
               if bool_decide (g_id g = grantId)
               then if covers (g_approved_tools g) (default [] (rq_approved_tools request)) then Kept else Release
               else Cancel
           | None => Cancel
           end
       end.

Definition cancel_note (request : AccessRequestRecord) (occupied : bool) : string :=
  if occupied then "A newer request for this API is pending"
  else match rq_grant_id request with
       | None => "This identity already holds an active grant for this API"
       | Some _ => INACTIVE_GRANT_NOTE
       end.

Definition recovery_details (job : AccessJobs.Job) (api : ApiRecord) (requester : UserRecord)
    (request : AccessRequestRecord) (r : reconciled) : list (string * json) :=
  [("api_id", JStr (api_id api)); ("api_slug", JStr (api_slug api)); ("user_id", JStr (u_id requester));
   ("application_id", json_opt_str (AccessJobs.in_application_id (AccessJobs.ag_input job)));
   ("recovered", json_bool true); ("attempts", JNum (job_attempts job));
   ("approved_by", json_opt_str (AccessJobs.in_requested_by (AccessJobs.ag_input job)));
   ("acl_groups_removed", json_strs (rec_removed r))]%string
  ++ (if bool_decide (rec_restored r = []) then [] else [("acl_groups_restored"%string, json_strs (rec_restored r))])
  ++ match rq_grant_id request with Some g => [("grant_id"%string, JStr g)] | None => [] end
  ++ match rec_live r with Some g => [("kept_for_grant_id"%string, JStr (g_id g))] | None => [] end.

Definition settle_details (s : settlement) (moved : option AccessRequestRecord) (occupied : option AccessRequestRecord)
    : list (string * json) :=
  match s with
  | Release => [("request_released"%string, json_bool (bool_decide (is_Some moved)))]
  | Cancel => ("request_cancelled"%string, json_bool (bool_decide (is_Some moved)))
              :: match occupied with Some o => [("pending_request_id"%string, JStr (rq_id o))] | None => [] end
  | Kept => [("request_kept"%string, json_bool true)]
  | NoChange => []
  end.

(** [outcome] of a release whose slot another request took. *)
Definition occupied_settlement (s : settlement) (request : AccessRequestRecord) (occupied : option AccessRequestRecord)
    : settlement :=
  match occupied with
  | Some o => if bool_decide (rq_id o <> rq_id request) then Cancel else s
  | None => s
  end.

Definition settle_recovered (job : AccessJobs.Job) (request : AccessRequestRecord) (plan : settlement)
    (details : list (string * json)) : M bool :=
  transaction (
    do deleted <- jobs_deleteClaimed job;
    if negb deleted then mret false
    else
      do occupied <- (match plan with
                      | Release => request_findPending (rq_api_id request) (rq_user_id request) (rq_application_id request)
                      | _ => mret None
                      end);
      let outcome := occupied_settlement plan request occupied in
      do moved <- (match outcome with
                   | Release => request_updateIfStatus (rq_id request) RequestApproved released
                   | Cancel =>
                       request_updateIfStatus (rq_id request) RequestApproved
                         (cancelled_inactive (cancel_note request (bool_decide (is_Some occupied))))
                   | _ => mret None
                   end);
      do_ audit_record SYSTEM_ACTOR
        (match rq_grant_id request with Some _ => "access.tools_approve_rollback" | None => "access.approve_rollback" end)
        (on_request (rq_id request)) (details ++ settle_details outcome moved occupied) None;
      mret true).

Definition settleApproval (job : AccessJobs.Job) (api : option ApiRecord) : M AccessGatewayJobOutcome :=
  let input := AccessJobs.ag_input job in
  do owned <- stillOwned job;
  if negb owned then mret OutSuperseded
  else
    do request <- request_find (AccessJobs.in_subject_id input);
    do requester <- users_find (AccessJobs.in_user_id input);
    match api, request, requester with
    | None, _, _ | _, None, _ | _, _, None => dropJob job
    | Some a, Some r, Some u =>
        do rec <- reconcileGroups u a (AccessJobs.in_application_id input);
        do settled <- settle_recovered job r (plan_settlement r (rec_live rec)) (recovery_details job a u r rec);
        mret (if settled : bool then OutCompleted else OutSuperseded)
    end.

Fixpoint recover_attempts (attempts : nat) (job : AccessJobs.Job) : M AccessGatewayJobOutcome :=
  match attempts with
  | O => mthrow (conflict "The gateway proxy kept changing while an approval was being compensated" [])
  | S rest =>
      do seen <- apis_find (AccessJobs.in_api_id (AccessJobs.ag_input job));
      match seen ≫= api_ferrum_proxy_id with
      | None => settleApproval job seen
      | Some proxyId =>
          do settled <- locks (proxyLockKey proxyId)
            (do api <- apis_find (AccessJobs.in_api_id (AccessJobs.ag_input job));
             if match api with Some a => negb (bool_decide (api_ferrum_proxy_id a = Some proxyId)) | None => false end
             then mret None
             else do outcome <- settleApproval job api; mret (Some outcome));
          match settled with
          | Some outcome => mret outcome
          | None => recover_attempts rest job
          end
      end
  end.

Definition recoverApproval (job : AccessJobs.Job) : M AccessGatewayJobOutcome :=
  recover_attempts RECOVERY_PROXY_ATTEMPTS job.

(** [recoverGatewayJob]: what the access gateway worker is handed. *)
Definition recover_gateway_job (job : AccessJobs.Job) : M AccessGatewayJobOutcome :=
  match AccessJobs.in_kind (AccessJobs.ag_input job) with
  | AccessJobs.Revoke => recoverRevocation job
  | AccessJobs.Approve => recoverApproval job
  end.

#[global] Instance access_service : AccessService := {| recoverGatewayJob := recover_gateway_job |}.
End Approval.
