(* ===== verification/AccessRequests.v ===== *)
(** * Requests

    [server/src/access/service.ts]: filing a request for access or for more
    tools, withdrawing and denying one, and the listings. *)

From S2P Require Import Prelude Json Roles Users AuditLog AccessTables World AccessStore LeaseFence KeyedSerializer Provisioner AccessDecisions.
Open Scope Z_scope.

Definition new_request (apiId userId : string) (applicationId : option string) (justification : string)
    (tools : option (list string)) (grantId : option string) (newId : string) (now : Z) : AccessRequestRecord := {|
  rq_id := newId; rq_api_id := apiId; rq_user_id := userId; rq_application_id := applicationId;
  rq_justification := justification; rq_requested_tools := tools; rq_approved_tools := None;
  rq_grant_id := grantId; rq_status := RequestPending; rq_decided_by := None; rq_decided_at := None;
  rq_decision_note := None; rq_created_at := now; rq_updated_at := now;
|}.

Definition pending_conflict : exn := conflict PENDING_CONFLICT [].
Definition not_requestable : exn := conflict "This API does not accept access requests" [].
Definition retired : exn := conflict "This API is retired and is no longer accepting access requests" [].
Definition changed_meanwhile : exn := conflict "This API changed while the request was waiting; reload and retry" [].

Section Requests.
Context `{EdgeClient} `{AccessDeps}.

(** A private API the account may not view reads as absent. *)
Definition assert_visible (user : UserRecord) (api : ApiRecord) (absent : exn) : M unit :=
  if is_private api then do visible <- canViewApi user api; ensure visible absent else mret tt.

(** The API as it is under the lease. *)
Definition readmit (user : UserRecord) (api : ApiRecord) (absent : exn) : M ApiRecord :=
  do row <- apis_find (api_id api);
  do fresh <- found row changed_meanwhile;
  do_ ensure (bool_decide (api_ferrum_proxy_id fresh = api_ferrum_proxy_id api) && is_published fresh
              && api_requestable fresh) changed_meanwhile;
  do_ assert_visible user fresh absent;
  mret fresh.

(** A tool request whose grant is no longer active gives its slot up. *)
Definition free_slot (user : UserRecord) (api : ApiRecord) (applicationId ip : option string) : M unit :=
  do pending <- request_findPending (api_id api) (u_id user) applicationId;
  match pending with
  | None => mret tt
  | Some p =>
      do extended <- match rq_grant_id p with Some g => grant_find g | None => mret None end;
      let stale := bool_decide (is_Some (rq_grant_id p))
                   && negb (match extended with Some g => is_active g | None => false end) in
      do closed <- (if stale then
                      do now <- date_now;
                      request_updateIfStatus (rq_id p) RequestPending
                        (decision RequestCancelled (Some (u_id user)) (Some now) (Some (Some INACTIVE_GRANT_NOTE)) None)
                    else mret None);
      do_ ensure (bool_decide (is_Some closed)) pending_conflict;
      do_ audit_record (actor_of user) "access.cancel" (on_request (rq_id p))
        [("api_id", JStr (api_id api)); ("grant_id", json_opt_str (rq_grant_id p));
         ("reason", JStr "grant_inactive")]%string ip;
      mret tt
  end.

Definition submit_request (user : UserRecord) (api : ApiRecord) (justification : string)
    (applicationId ip : option string) (requestedTools : option (list string)) : M AccessRequestRecord :=
  transaction (
    do_ assertWithinBudget (u_id user);
    do_ free_slot user api applicationId ip;
    do inserted <- request_create (new_request (api_id api) (u_id user) applicationId justification requestedTools None);
    do_ audit_record (actor_of user) "access.request" (on_request (rq_id inserted))
      [("api_id", JStr (api_id api)); ("api_slug", JStr (api_slug api));
       ("requested_tools", json_tools requestedTools)]%string ip;
    mret inserted).

Definition admit_request (user : UserRecord) (api : ApiRecord) (justification : string)
    (applicationId ip : option string) (requestedTools : option (list string)) : M AccessRequestRecord :=
  do fresh <- readmit user api (notFound "API" (Some (api_id api)));
  do_ validateToolSubset fresh requestedTools;
  do_ match applicationId with Some id => assertApplicationActive id (u_id user) | None => mret tt end;
  do row <- spendBudget (u_id user) (submit_request user api justification applicationId ip requestedTools);
  do_ ignore_errors (notify (api_owner_user_id api) "access_request_created"
        ("Access requested: " +:+ api_name api)
        (u_display_name user +:+ " requested access to " +:+ api_name api +:+ ".") ("/apis/" +:+ api_id api));
  mret row.

Definition request (user : UserRecord) (apiId justification : string) (applicationId ip : option string)
    (requestedTools : option (list string)) : M AccessRequestRecord :=
  do trimmed <- checkedJustification justification;
  do row <- apis_find apiId;
  do api <- found row (notFound "API" (Some apiId));
  do_ assert_visible user api (notFound "API" (Some apiId));
  do_ ensure (negb (bool_decide (api_owner_user_id api = u_id user))) (conflict "You already own this API" []);
  do_ ensure (is_published api) retired;
  do_ ensure (api_requestable api) not_requestable;
  do active <- grant_findActive (api_id api) (u_id user) applicationId;
  do_ ensure (bool_decide (active = None))
        (conflict (match applicationId with
                   | None => "You already have access to this API"
                   | Some _ => "This application already has access to this API"
                   end)%string []);
  do created <- under_proxy (api_ferrum_proxy_id api)
    (under_application applicationId (admit_request user api trimmed applicationId ip requestedTools));
  do_ decorate user;
  mret created.

(** ** More tools on a grant *)

Definition submit_tools (user : UserRecord) (api : ApiRecord) (grant : GrantRecord) (justification : string)
    (requestedTools : list string) (ip : option string) : M AccessRequestRecord :=
  transaction (
    do_ assertWithinBudget (u_id user);
    do live <- grant_find (g_id grant);
    do_ ensure (match live with Some g => is_active g | None => false end) inactiveGrant;
    do pending <- request_findPending (api_id api) (u_id user) (g_application_id grant);
    do_ ensure (bool_decide (pending = None)) pending_conflict;
    do inserted <- request_create (new_request (api_id api) (u_id user) (g_application_id grant) justification
                                     (Some requestedTools) (Some (g_id grant)));
    do_ audit_record (actor_of user) "access.tools_request" (on_request (rq_id inserted))
      [("api_id", JStr (api_id api)); ("api_slug", JStr (api_slug api)); ("grant_id", JStr (g_id grant));
       ("application_id", json_opt_str (g_application_id grant)); ("requested_tools", json_strs requestedTools)]%string ip;
    mret inserted).

Definition covers_all : exn := conflict "This grant already covers every published tool" [].

Definition admit_tools (user : UserRecord) (api : ApiRecord) (grantId justification : string)
    (requestedTools : list string) (ip : option string) : M AccessRequestRecord :=
  do fresh <- readmit user api (notFound "Grant" (Some grantId));
  do_ ensure (bool_decide (is_Some (api_agents fresh))) (conflict "This API does not expose agent tools" []);
  do_ validateToolSubset fresh (Some requestedTools);
  do row <- grant_find grantId;
  do grant <- found row inactiveGrant;
  do_ ensure (is_active grant && bool_decide (g_user_id grant = u_id user)) inactiveGrant;
  do covered <- found (g_approved_tools grant) covers_all;
  do_ ensure (negb (existsb (fun i => bool_decide (i ∈ covered)) requestedTools))
        (validationFailed "Request only tools the grant does not cover yet" []);
  do_ match g_application_id grant with Some id => assertApplicationActive id (u_id user) | None => mret tt end;
  do created <- spendBudget (u_id user) (submit_tools user api grant justification requestedTools ip);
  do_ ignore_errors (notify (api_owner_user_id api) "access_request_created"
        ("Agent tools requested: " +:+ api_name api)
        (u_display_name user +:+ " requested more agent tools on an existing grant for " +:+ api_name api +:+ ".")
        ("/apis/" +:+ api_id api));
  mret created.

Definition requestTools (user : UserRecord) (grantId justification : string) (requestedTools : list string)
    (ip : option string) : M AccessRequestRecord :=
  do trimmed <- checkedJustification justification;
  do row <- grant_find grantId;
  do initial <- found row (notFound "Grant" (Some grantId));
  do_ ensure (bool_decide (g_user_id initial = u_id user)) (notFound "Grant" (Some grantId));
  do apiRow <- apis_find (g_api_id initial);
  do api <- found apiRow (notFound "Grant" (Some grantId));
  do_ ensure (negb (bool_decide (api_owner_user_id api = u_id user))) (conflict "You already own this API" []);
  do_ ensure (is_active initial) inactiveGrant;
  do_ ensure (is_published api) retired;
  do_ ensure (api_requestable api) not_requestable;
  do_ found (g_approved_tools initial) covers_all;
  do_ ensure (negb (bool_decide (requestedTools = [])))
        (validationFailed "Request at least one tool the grant does not cover yet" []);
  do created <- under_proxy (api_ferrum_proxy_id api)
    (under_application (g_application_id initial) (admit_tools user api grantId trimmed requestedTools ip));
  do_ decorate user;
  mret created.

(** ** Withdrawing and denying *)

Definition close_request (requestId : string) (patch : RequestPatch) (actor : UserRecord) (action : string)
    (details : list (string * json)) (ip : option string) : M AccessRequestRecord :=
  do updated <- transaction (
    do moved <- request_updateIfStatus requestId RequestPending patch;
    match moved with
    | None => mret None
    | Some r =>
        do_ audit_record (actor_of actor) action (on_request requestId) details ip;
        mret (Some r)
    end);
  match updated with
  | Some r => mret r
  | None => do e <- decisionConflict requestId; mthrow e
  end.

Definition already_decided (r : AccessRequestRecord) : exn :=
  conflict ("This request is already " +:+ status_text (rq_status r)) [].

Definition cancel (user : UserRecord) (requestId : string) (ip : option string) : M AccessRequestRecord :=
  do loaded <- loadRequest requestId;
  let '(r, _, _) := loaded in
  do_ ensure (bool_decide (rq_user_id r = u_id user)) (forbidden "Only the requester can cancel this request");
  do_ ensure (is_pending r) (already_decided r);
  do decidedAt <- date_now;
  do updated <- close_request (rq_id r)
    (decision RequestCancelled (Some (u_id user)) (Some decidedAt) None None) user "access.cancel"
    [("api_id"%string, JStr (rq_api_id r))] ip;
  do_ decorate user;
  mret updated.

Definition announce_denied (actor requester : UserRecord) (api : ApiRecord) (r : AccessRequestRecord)
    (note : option string) : M unit :=
  do named <- mcatch (canReadApiSummary requester api) (fun _ => mret false);
  let tools := bool_decide (is_Some (rq_grant_id r)) in
  let label := if named : bool then api_name api else "an API you can no longer view (request " +:+ rq_id r +:+ ")" in
  let heading := if tools then "Agent tools declined"%string else "Access declined"%string in
  announce requester "access_request_denied"
    (if named then heading +:+ ": " +:+ api_name api else heading)
    (if tools then u_display_name actor +:+ " declined your request for more agent tools on " +:+ label +:+
                   ". Your existing access is unchanged."
     else u_display_name actor +:+ " declined your request for " +:+ label +:+ ".")
    (if named then "/catalog/" +:+ api_slug api else "/") "access_denied"
    [("api_name", label); ("api_slug", if named then api_slug api else "");
     ("decided_by_name", u_display_name actor); ("decision_note", default "" note)]%string.

Definition deny (actor : UserRecord) (requestId : string) (note ip : option string) : M AccessRequestRecord :=
  do loaded <- loadRequest requestId;
  let '(r, api, requester) := loaded in
  do_ assertCanReview actor api;
  do_ ensure (is_pending r) (already_decided r);
  do decidedAt <- date_now;
  do updated <- close_request (rq_id r)
    (decision RequestDenied (Some (u_id actor)) (Some decidedAt) (Some note) None) actor "access.deny"
    ([("api_id", JStr (api_id api)); ("api_slug", JStr (api_slug api)); ("user_id", JStr (u_id requester));
      ("has_note", json_bool (bool_decide (is_Some note)))]%string
     ++ match rq_grant_id r with Some g => [("grant_id"%string, JStr g)] | None => [] end) ip;
  do_ announce_denied actor requester api r note;
  do_ decorate actor;
  mret updated.

(** ** Listings *)

Definition owned_apis (ownerId : string) : M (list string) :=
  read (fun d => api_id <$> rows_where (fun a => bool_decide (api_owner_user_id a = ownerId)) (at_apis (d_access d))).

(** An account below provider, or asking for its own, sees its own rows; an
    admin every row; a provider those of its APIs. *)
Inductive listing_scope : Type := OwnRows | EveryRow | OwnedApis.

Definition listing_scope_of (actor : UserRecord) (mine : bool) : listing_scope :=
  if mine || negb (role_at_least_of actor provider) then OwnRows
  else if role_at_least_of actor admin then EveryRow
  else OwnedApis.

Definition list_owned {R} (actor : UserRecord) (apiId : option string)
    (list_ : option (list string) -> M (list R * Z)) : M (list R * Z) :=
  do owned <- owned_apis (u_id actor);
  if bool_decide (owned = []) then mret ([], 0)
  else
    do_ match apiId with
        | Some id => ensure (bool_decide (id ∈ owned)) (forbidden "You do not own that API")
        | None => mret tt
        end;
    list_ (match apiId with Some _ => None | None => Some owned end).

Definition listRequests (actor : UserRecord) (mine : bool) (apiId : option string)
    (status : option AccessRequestStatus) (limit offset : option jsnum) : M (list AccessRequestRecord * Z) :=
  let page userId apiIds :=
    do rows <- read (fun d => requests_list {| rf_user_id := userId; rf_api_id := apiId; rf_application_id := None;
                                               rf_api_ids := apiIds; rf_status := status |} limit offset
                                (at_requests (d_access d)));
    do_ (if bool_decide (rows.1 = []) then mret tt else decorate actor);
    mret rows in
  match listing_scope_of actor mine with
  | OwnRows => page (Some (u_id actor)) None
  | EveryRow => page None None
  | OwnedApis => list_owned actor apiId (page None)
  end.

Definition listGrants (actor : UserRecord) (mine : bool) (apiId userId : option string)
    (status : option GrantStatus) (limit offset : option jsnum) : M (list GrantRecord * Z) :=
  let page userId apiIds :=
    do rows <- read (fun d => grants_list {| gf_user_id := userId; gf_api_id := apiId; gf_application_id := None;
                                             gf_api_ids := apiIds; gf_status := status |} limit offset
                                (at_grants (d_access d)));
    do_ (if bool_decide (rows.1 = []) then mret tt else decorate actor);
    mret rows in
  match listing_scope_of actor mine with
  | OwnRows => page (Some (u_id actor)) None
  | EveryRow => page userId None
  | OwnedApis => list_owned actor apiId (page userId)
  end.
End Requests.
