(* ===== verification/AccessLogic.v ===== *)
(** * A logic for programs of the access workflow

    [guar P Q m]: run where [P] holds, beside instances that only make moves of
    [AccessWorkflow], [m] only makes moves itself, and [Q] holds of its answer.
    Assertions survive every move, so a precondition holds to the end. [txh] is
    the logic of the body of a transaction, which nobody interleaves.
    Then the moves the statements of the service make. *)

From S2P Require Import Prelude Json Roles Leases ClaimQueue Users JobQueues AuditLog AccessTables AccessWorkflow World AccessStore LeaseFence KeyedSerializer Provisioner AccessDecisions GatewayJobWorker AccessRevocation AccessApproval AccessRequests.
Open Scope Z_scope.

Definition view (d : db) (used : string -> Prop) : workflow := {|
  wf_requests := at_requests (d_access d); wf_grants := at_grants (d_access d);
  wf_jobs := d_access_jobs d; wf_used := used;
|}.

(** [api_id] and [user_id] of a request reference rows, and their deletion
    cascades; those tables are indexed by the id of their rows. *)
Record references_ok (d : db) : Prop := {
  fk_requests : forall k r, at_requests (d_access d) !! k = Some r ->
    is_Some (at_apis (d_access d) !! rq_api_id r) /\ is_Some (d_users d !! rq_user_id r);
  fk_apis : keyed api_id (at_apis (d_access d));
  fk_users : keyed u_id (d_users d);
}.

(** The schedules of the workflow: [seen n] are the identifiers in circulation
    before the n-th turn; identifiers are drawn new, and the other instances
    make moves. *)
Record access_schedule (env : nat -> turn) (seen : nat -> string -> Prop) : Prop := {
  sch_grow : forall n x, seen n x -> seen (S n) x;
  sch_drawn : forall n k, seen (S n) (t_ids (env n) k);
  sch_fresh : forall n k, ~ seen n (t_ids (env n) k);
  sch_distinct : forall n i j, t_ids (env n) i = t_ids (env n) j -> i = j;
  sch_rivals : forall n d, workflow_ok (view d (seen n)) -> references_ok d ->
    references_ok (t_rivals (env n) d) /\ exists used, moves (view d (seen n)) (view (t_rivals (env n) d) used) /\
      (forall x, used x -> seen (S n) x) /\ (forall k, ~ used (t_ids (env n) k));
}.

(** *** Assertions *)

Record assertion : Type := Assert {
  says :> workflow -> Prop;
  says_stable : stable says;
}.

Lemma stable_const (P : Prop) : stable (fun _ => P).
Proof. by intros a b _ _. Qed.

Definition aPure (P : Prop) : assertion := Assert _ (stable_const P).
Definition aTrue : assertion := aPure True.
Definition aAnd (P Q : assertion) : assertion := Assert _ (stable_and P Q (says_stable P) (says_stable Q)).
Definition aRequest (r : AccessRequestRecord) : assertion := Assert _ (stable_known_request r).
Definition aGrant (g : GrantRecord) : assertion := Assert _ (stable_known_grant g).
Definition aJob (j : AccessJobs.Job) : assertion := Assert _ (stable_known_job j).
Definition aKept (j : AccessJobs.Job) : assertion := Assert _ (stable_kept j).

Lemma stable_if (P : Prop) (Q : assertion) : stable (fun a => P -> Q a).
Proof. intros a b Hok Hm H HP. apply (says_stable Q a b Hok Hm), H, HP. Qed.
Definition aIf (P : Prop) (Q : assertion) : assertion := Assert _ (stable_if P Q).

Lemma stable_each {A} (P : A -> assertion) : stable (fun a => forall x, P x a).
Proof. intros a b Hok Hm H x. apply (says_stable (P x) a b Hok Hm), H. Qed.
Definition aEach {A} (P : A -> assertion) : assertion := Assert _ (stable_each P).

(** Of the row, when there is one. *)
Definition aOption {A} (P : A -> assertion) (x : option A) : assertion :=
  match x with Some a => P a | None => aTrue end.

Declare Scope access_scope.
Delimit Scope access_scope with access.
Infix "&&&" := aAnd : access_scope.
Open Scope access_scope.

Section Logic.
Context (env : nat -> turn) (seen : nat -> string -> Prop) (Hsch : access_schedule env seen).

Definition absw (w : world) : workflow := view (w_db w) (seen (w_turn w)).

Definition good (w : world) : Prop := w_env w = env /\ workflow_ok (absw w) /\ references_ok (w_db w).

Lemma seen_le n m x : (n <= m)%nat -> seen n x -> seen m x.
Proof. induction 1 as [|m _ IH]; [done|]. intros Hx. apply (sch_grow _ _ Hsch). auto. Qed.

(** *** Outside a transaction *)

Definition guar {A} (P : assertion) (Q : A -> assertion) (m : M A) : Prop := forall w,
  good w -> w_tx w = false -> P (absw w) ->
  good (m w).2 /\ w_tx (m w).2 = false /\ moves (absw w) (absw (m w).2) /\
  forall a, (m w).1 = Ok a -> Q a (absw (m w).2).

Lemma good_moves w w' :
  good w -> w_env w' = env -> references_ok (w_db w') -> moves (absw w) (absw w') -> good w'.
Proof. intros (_ & Hok & _) He Hf Hm. split_and!; [done|by eapply moves_ok|done]. Qed.

Lemma assertion_moves (P : assertion) w w' : good w -> moves (absw w) (absw w') -> P (absw w) -> P (absw w').
Proof. intros (_ & Hok & _) Hm. by apply (stable_moves P); [apply says_stable|..]. Qed.

Lemma guar_conseq {A} (P P' : assertion) (Q Q' : A -> assertion) m :
  guar P Q m -> (forall a, P' a -> P a) -> (forall x a, workflow_ok a -> P' a -> Q x a -> Q' x a) -> guar P' Q' m.
Proof.
  intros Hm HP HQ w Hg Ht Hp. destruct (Hm w Hg Ht (HP _ Hp)) as (Hg' & Ht' & Hmv & Hq).
  split_and!; [done..|]. intros a Ha. apply HQ; [apply Hg'| |by apply Hq]. by apply (assertion_moves P' w).
Qed.

Lemma guar_ret {A} (P : assertion) (Q : A -> assertion) x : (forall a, workflow_ok a -> P a -> Q x a) -> guar P Q (mret x).
Proof.
  intros HQ w Hg Ht Hp. split_and!; [done..|reflexivity|]. intros a [= <-]. apply HQ; [apply Hg|done].
Qed.

Lemma guar_throw {A} P (Q : A -> assertion) e : guar P Q (mthrow e).
Proof. intros w Hg Ht Hp. split_and!; [done..|reflexivity|]. by intros a [=]. Qed.

Lemma guar_bind {A B} P (R : A -> assertion) (Q : B -> assertion) m k :
  guar P R m -> (forall x, guar (P &&& R x) Q (k x)) -> guar P Q (mbind m k).
Proof.
  intros Hm Hk w Hg Ht Hp. destruct (Hm w Hg Ht Hp) as (Hg' & Ht' & Hmv & Hr). unfold mbind.
  destruct (m w) as [[x|e] w1]; simpl in *; [|by split_and!].
  destruct (Hk x w1) as (Hg2 & Ht2 & Hmv2 & Hq); [done..|split; [by apply (assertion_moves P w)|by apply Hr]|].
  split_and!; [done..|by etrans|done].
Qed.

Lemma guar_catch {A} P (Q : A -> assertion) m h :
  guar P Q m -> (forall e, guar P Q (h e)) -> guar P Q (mcatch m h).
Proof.
  intros Hm Hh w Hg Ht Hp. destruct (Hm w Hg Ht Hp) as (Hg' & Ht' & Hmv & Hq). unfold mcatch.
  destruct (m w) as [[x|e] w1]; simpl in *; [by split_and!|].
  destruct (Hh e w1) as (Hg2 & Ht2 & Hmv2 & Hq2); [done..|by apply (assertion_moves P w)|].
  split_and!; [done..|by etrans|done].
Qed.

Lemma guar_attempt {A} P (Q : A -> assertion) m :
  guar P Q m -> guar P (fun r => match r with Ok x => Q x | Throw _ => aTrue end) (mattempt m).
Proof.
  intros Hm w Hg Ht Hp. destruct (Hm w Hg Ht Hp) as (Hg' & Ht' & Hmv & Hq). unfold mattempt.
  destruct (m w) as [[x|e] w1]; simpl in *; (split_and!; [done..|]); intros a [= <-]; [by apply Hq|done].
Qed.

Lemma guar_finally {A} P (Q : A -> assertion) m (f : M unit) :
  guar P Q m -> guar P (fun _ => aTrue) f -> guar P Q (mfinally m f).
Proof.
  intros Hm Hf w Hg Ht Hp. destruct (Hm w Hg Ht Hp) as (Hg' & Ht' & Hmv & Hq). unfold mfinally.
  destruct (m w) as [r w1]; simpl in *.
  destruct (Hf w1) as (Hg2 & Ht2 & Hmv2 & _); [done..|by apply (assertion_moves P w)|].
  destruct (f w1) as [[u|e] w2]; simpl in *; (split_and!; [done..|by etrans|]); [|done].
  intros a ->. eapply (assertion_moves (Q a)); [exact Hg'|done|by apply Hq].
Qed.

(** A step that leaves the database and the turn alone. *)
Lemma guar_local {A} (P : assertion) (Q : A -> assertion) m :
  (forall w, w_env (m w).2 = w_env w /\ w_tx (m w).2 = w_tx w /\ w_db (m w).2 = w_db w /\ w_turn (m w).2 = w_turn w /\
     forall a, (m w).1 = Ok a -> P (absw w) -> Q a (absw w)) -> guar P Q m.
Proof.
  intros Hm w Hg Ht Hp. destruct (Hm w) as (He & Htx & Hd & Hn & Hq).
  assert (Heq : absw (m w).2 = absw w) by (unfold absw; by rewrite Hd, Hn).
  unfold good. rewrite He, Htx, Hd, Heq. split_and!; try apply Hg; [done|reflexivity|]. intros a Ha. by apply Hq.
Qed.

Lemma guar_date_now P : guar P (fun _ => aTrue) date_now.
Proof. by apply guar_local. Qed.
Lemma guar_math_random P : guar P (fun _ => aTrue) math_random.
Proof. by apply guar_local. Qed.
Lemma guar_noted P field : guar P (fun _ => aTrue) (noted field).
Proof. by apply guar_local. Qed.
Lemma guar_set_counter P field n : guar P (fun _ => aTrue) (set_counter field n).
Proof. by apply guar_local. Qed.

Lemma moves_use d used used' :
  (forall x, used x -> used' x) -> moves (view d used) (view d used').
Proof. intros Hu. apply rtc_once, (MUse (view d used) used' Hu). Qed.

(** The turn of an awaited operation: the other instances first. *)
Lemma turn_rivals w :
  good w -> let d := t_rivals (cur w) (w_db w) in
  exists used, moves (absw w) (view d used) /\ workflow_ok (view d used) /\ references_ok d /\
    (forall x, used x -> seen (S (w_turn w)) x) /\ forall k, ~ used (t_ids (cur w) k).
Proof.
  intros (He & Hok & Hf). unfold cur. rewrite He.
  destruct (sch_rivals _ _ Hsch (w_turn w) (w_db w) Hok Hf) as (Hf' & used & Hm & Hu & Hn).
  exists used. split_and!; [done|by eapply moves_ok|done..].
Qed.

Lemma guar_statement {A} (P : assertion) (Q : A -> assertion) (f : turn -> db -> res exn (A * db)) :
  (forall n d used x d', workflow_ok (view d used) -> references_ok d -> P (view d used) ->
     (forall k, ~ used (t_ids (env n) k)) -> f (env n) d = Ok (x, d') ->
     exists used', moves (view d used) (view d' used') /\ references_ok d' /\ Q x (view d' used') /\
       forall y, used' y -> used y \/ exists k, y = t_ids (env n) k) ->
  guar P Q (statement f).
Proof.
  intros Hf w Hg Ht Hp. destruct (turn_rivals w Hg) as (used & Hm & Hok & Hfk & Hu & Hn).
  unfold statement. rewrite Ht. set (d := t_rivals (cur w) (w_db w)) in *.
  assert (Hcur : cur w = env (w_turn w)) by (unfold cur; by rewrite (proj1 Hg)).
  set (w1 := set_db d (advance w)).
  assert (H1 : good w1 /\ w_tx w1 = false /\ moves (absw w) (absw w1)).
  { assert (Hmv : moves (absw w) (absw w1)) by (etrans; [exact Hm|by apply moves_use]).
    split_and!; [by apply (good_moves w); [|apply Hg|..]|done..]. }
  destruct (t_fault (cur w)); [by destruct H1 as (? & ? & ?)|].
  destruct (f (cur w) d) as [[x d']|e] eqn:Hfd; [|by destruct H1 as (? & ? & ?)].
  rewrite Hcur in Hfd, Hn.
  destruct (Hf (w_turn w) d used x d' Hok Hfk) as (used' & Hm' & Hfk' & Hq & Hu'); [|done..|].
  { apply (stable_moves P (absw w) _ (says_stable P)); [done|apply Hg|done]. }
  assert (Hin : forall y, used' y -> seen (S (w_turn w)) y).
  { intros y [Hy|[k ->]]%Hu'; [by apply Hu|]. apply (sch_drawn _ _ Hsch). }
  assert (Hmv : moves (absw w) (absw (set_db d' w1))).
  { etrans; [exact Hm|]. etrans; [exact Hm'|]. by apply moves_use. }
  split_and!; [by apply (good_moves w); [|apply Hg|..]|done|done|].
  intros a [= <-]. apply (stable_moves (Q x) (view d' used') _ (says_stable _)); [by apply moves_use| |done].
  by eapply moves_ok.
Qed.

Lemma guar_read {A} (P : assertion) (Q : A -> assertion) (f : db -> A) :
  (forall d used, workflow_ok (view d used) -> references_ok d -> P (view d used) -> Q (f d) (view d used)) ->
  guar P Q (read f).
Proof.
  intros Hf. apply guar_statement. intros n d used x d' Hok Hfk Hp Hn [= <- <-].
  exists used. split_and!; [reflexivity|done|by apply Hf|by left].
Qed.

(** What the workflow does not look at. *)
Definition same_view (d d' : db) : Prop :=
  at_requests (d_access d') = at_requests (d_access d) /\ at_grants (d_access d') = at_grants (d_access d) /\
  at_apis (d_access d') = at_apis (d_access d) /\ d_access_jobs d' = d_access_jobs d /\ d_users d' = d_users d.

Lemma same_view_view d d' used : same_view d d' -> view d' used = view d used.
Proof. unfold view. by intros (-> & -> & _ & -> & _). Qed.
Lemma same_view_references d d' : same_view d d' -> references_ok d -> references_ok d'.
Proof. intros (Hr & _ & Ha & _ & Hu) []. split; by rewrite ?Hr, ?Ha, ?Hu. Qed.

Lemma guar_other {A} P (f : turn -> db -> res exn (A * db)) :
  (forall t d x d', f t d = Ok (x, d') -> same_view d d') -> guar P (fun _ => aTrue) (statement f).
Proof.
  intros Hf. apply guar_statement. intros n d used x d' Hok Hfk Hp Hn H.
  specialize (Hf _ _ _ _ H). exists used. rewrite (same_view_view _ _ _ Hf).
  split_and!; [reflexivity|by eapply same_view_references|done|by left].
Qed.

Lemma guar_await {A} P (f : turn -> A) : guar P (fun _ => aTrue) (await_turn f).
Proof.
  intros w Hg Ht Hp. destruct (turn_rivals w Hg) as (used & Hm & Hok & Hfk & Hu & Hn).
  unfold await_turn. rewrite Ht. simpl.
  assert (Hmv : moves (absw w) (view (t_rivals (cur w) (w_db w)) (seen (S (w_turn w))))).
  { etrans; [exact Hm|by apply moves_use]. }
  split_and!; [|done..]. apply (good_moves w); [done|apply Hg|done..].
Qed.

(** Drawing an identifier with no await. *)
Lemma guar_randomUUID P : guar P (fun _ => aTrue) randomUUID.
Proof.
  intros w Hg Ht Hp. assert (Hmv : moves (absw w) (absw (advance w))).
  { apply moves_use. intros x. apply (sch_grow _ _ Hsch). }
  split_and!; [|done..]. apply (good_moves w); [done|apply Hg|apply Hg|done].
Qed.

(** *** Inside a transaction *)

Definition txh {A} (P : db -> (string -> Prop) -> Prop) (m : M A) (Q : A -> db -> (string -> Prop) -> Prop) : Prop :=
  forall w used, w_env w = env -> w_tx w = true -> (forall x, used x -> seen (w_turn w) x) -> P (w_db w) used ->
  w_env (m w).2 = env /\ w_tx (m w).2 = true /\ (w_turn w <= w_turn (m w).2)%nat /\
  forall a, (m w).1 = Ok a -> exists used', (forall x, used' x -> seen (w_turn (m w).2) x) /\ Q a (w_db (m w).2) used'.

Lemma txh_conseq {A} (P P' : db -> (string -> Prop) -> Prop) (Q Q' : A -> db -> (string -> Prop) -> Prop) m :
  txh P m Q -> (forall d u, P' d u -> P d u) -> (forall x d u, Q x d u -> Q' x d u) -> txh P' m Q'.
Proof.
  intros Hm HP HQ w u He Ht Hu Hp. destruct (Hm w u He Ht Hu (HP _ _ Hp)) as (? & ? & ? & Hq).
  split_and!; [done..|]. intros a Ha. destruct (Hq a Ha) as (u' & ? & ?). eauto.
Qed.

Lemma txh_ret {A} (P : db -> (string -> Prop) -> Prop) (Q : A -> db -> (string -> Prop) -> Prop) x :
  (forall d u, P d u -> Q x d u) -> txh P (mret x) Q.
Proof. intros HQ w u He Ht Hu Hp. split_and!; [done..|]. intros a [= <-]. exists u. split; [done|by apply HQ]. Qed.

Lemma txh_throw {A} P (Q : A -> db -> (string -> Prop) -> Prop) e : txh P (mthrow e) Q.
Proof. intros w u He Ht Hu Hp. split_and!; [done..|]. by intros a [=]. Qed.

Lemma txh_bind {A B} P (R : A -> db -> (string -> Prop) -> Prop) (Q : B -> db -> (string -> Prop) -> Prop) m k :
  txh P m R -> (forall x, txh (R x) (k x) Q) -> txh P (mbind m k) Q.
Proof.
  intros Hm Hk w u He Ht Hu Hp. destruct (Hm w u He Ht Hu Hp) as (He1 & Ht1 & Hn1 & Hr). unfold mbind.
  destruct (m w) as [[x|e] w1]; simpl in *; [|split_and!; [done..|]; by intros a [=]].
  destruct (Hr x eq_refl) as (u1 & Hu1 & Hr1). destruct (Hk x w1 u1 He1 Ht1 Hu1 Hr1) as (? & ? & ? & Hq).
  split_and!; [done..|lia|done].
Qed.

Lemma txh_statement {A} P (Q : A -> db -> (string -> Prop) -> Prop) (f : turn -> db -> res exn (A * db)) :
  (forall n d u x d', P d u -> (forall k, ~ u (t_ids (env n) k)) -> f (env n) d = Ok (x, d') ->
     exists u', (forall y, u' y -> u y \/ exists k, y = t_ids (env n) k) /\ Q x d' u') ->
  txh P (statement f) Q.
Proof.
  intros Hf w u He Ht Hu Hp. unfold statement. rewrite Ht.
  assert (Hcur : cur w = env (w_turn w)) by (unfold cur; by rewrite He).
  destruct (t_fault (cur w)); [split_and!; simpl; [done..|lia|by intros a [=]]|].
  destruct (f (cur w) (w_db w)) as [[x d']|e] eqn:Hfd; (split_and!; simpl; [done..|lia|]); [|by intros a [=]].
  intros a [= <-]. rewrite Hcur in Hfd. destruct (Hf (w_turn w) _ u x d' Hp) as (u' & Hu' & Hq); [|done|].
  { intros k Hk. by apply (sch_fresh _ _ Hsch (w_turn w) k), Hu. }
  exists u'. split; [|done]. intros y [Hy|[k ->]]%Hu'; [by apply (sch_grow _ _ Hsch), Hu|].
  apply (sch_drawn _ _ Hsch).
Qed.

Lemma txh_read {A} P (Q : A -> db -> (string -> Prop) -> Prop) (f : db -> A) :
  (forall d u, P d u -> Q (f d) d u) -> txh P (read f) Q.
Proof. intros Hf. apply txh_statement. intros n d u x d' Hp _ [= <- <-]. exists u. split; [by left|by apply Hf]. Qed.

(** Nothing the workflow looks at changes. *)
Definition quiet {A} (m : M A) : Prop := forall w,
  w_env (m w).2 = w_env w /\ w_tx (m w).2 = w_tx w /\ (w_turn w <= w_turn (m w).2)%nat /\
  (w_tx w = true -> same_view (w_db w) (w_db (m w).2)).

Definition view_closed (P : db -> (string -> Prop) -> Prop) : Prop := forall d d' u,
  same_view d d' -> P d u -> P d' u.

Lemma txh_quiet {A} P (m : M A) : quiet m -> view_closed P -> txh P m (fun _ => P).
Proof.
  intros Hm HP w u He Ht Hu Hp. destruct (Hm w) as (He' & Ht' & Hn & Hv).
  split_and!; [congruence..|done|]. intros a _. exists u.
  split; [intros x Hx; eapply seen_le; [exact Hn|by apply Hu]|]. eapply HP; [by apply Hv|done].
Qed.

(** A transaction whose body makes moves. *)
Lemma guar_transaction {A} (P : assertion) (Q : A -> assertion) (body : M A) :
  (forall d0 u0, workflow_ok (view d0 u0) -> references_ok d0 -> P (view d0 u0) ->
     txh (fun d u => d = d0 /\ u = u0) body
       (fun x d u => moves (view d0 u0) (view d u) /\ references_ok d /\ Q x (view d u))) ->
  guar P Q (transaction body).
Proof.
  intros Hbody w Hg Ht Hp. unfold transaction. rewrite Ht.
  destruct (turn_rivals w Hg) as (used & Hm & Hok & Hfk & Hu & _).
  set (d0 := t_rivals (cur w) (w_db w)) in *. set (w0 := set_db d0 (advance w)).
  assert (Hbegin : statement_ok (fun _ d => (tt, d)) w
            = (match t_fault (cur w) with Some message => Throw (driverError message) | None => Ok tt end, w0)).
  { unfold statement_ok, statement. rewrite Ht. by destruct (t_fault (cur w)). }
  rewrite Hbegin.
  assert (Hend : forall w', w_env w' = env -> w_db w' = d0 -> (S (w_turn w) <= w_turn w')%nat ->
            good w' /\ moves (absw w) (absw w')).
  { intros w' He Hd Hn. assert (Hmv : moves (absw w) (absw w')).
    { etrans; [exact Hm|]. unfold absw. rewrite Hd. apply moves_use. intros x Hx. eapply seen_le; [exact Hn|by apply Hu]. }
    split; [|done]. apply (good_moves w); [done..|by rewrite Hd|done]. }
  destruct (t_fault (cur w)).
  { destruct (Hend w0) as [? ?]; [apply Hg|done|apply le_n|]. split_and!; [done..|by intros a [=]]. }
  set (whole := (do result <- _; do_ _; mret result)).
  set (post := fun (x : A) d u => moves (view d0 used) (view d u) /\ references_ok d /\ Q x (view d u)).
  assert (Hp0 : P (view d0 used)) by (by apply (stable_moves P (absw w) _ (says_stable P)); [|apply Hg|]).
  assert (Hkeep : forall {B} (g : db -> B) x, txh (post x) (read g) (fun _ => post x)).
  { intros B g x. by apply txh_read. }
  assert (Hwhole : txh (fun d u => d = d0 /\ u = used) whole post).
  { subst whole. eapply txh_bind.
    - unfold fenceTransactionBody. destruct (heldLeaseFences _) as [|g gs]; [by apply Hbody|].
      eapply txh_bind; [by apply Hbody|]. intros x.
      eapply txh_bind with (R := fun _ => post x); [|intros []; by apply txh_ret].
      generalize (g :: gs) as fences. intros fences. induction fences as [|f fs IH]; simpl; [by apply txh_ret|].
      eapply txh_bind; [apply (Hkeep _ (fun d => lease_verify f.1 f.2 (d_leases d)) x)|].
      intros []; [exact IH|apply txh_throw].
    - intros x. eapply txh_bind with (R := fun _ => post x); [apply (Hkeep _ (fun _ => tt) x)|].
      intros []. by apply txh_ret. }
  destruct (Hwhole (set_tx true w0) used) as (He & Htx & Hn & Hq); [apply Hg|done|exact Hu|done|].
  destruct (whole (set_tx true w0)) as [[x|e] w1]; simpl in *.
  - destruct (Hq x eq_refl) as (u' & Hu' & Hm' & Hf' & Hx).
    assert (Hmv : moves (absw w) (absw (set_tx false w1))).
    { etrans; [exact Hm|]. etrans; [exact Hm'|]. by apply moves_use. }
    split_and!; [by apply (good_moves w)|done|done|].
    intros a [= <-]. apply (stable_moves (Q x) (view (w_db w1) u') _ (says_stable _)); [by apply moves_use| |done].
    by eapply moves_ok.
  - destruct (Hend (set_tx false (set_db d0 w1))) as [? ?]; [done|done|done|].
    split_and!; [done..|by intros a [=]].
Qed.

(** *** Sections under a lease *)

Lemma guar_in_context {A} P (Q : A -> assertion) stack m : guar P Q m -> guar P Q (in_context stack m).
Proof.
  intros Hm w Hg Ht Hp. unfold in_context. destruct (Hm (set_held stack w) Hg Ht Hp) as (Hg' & Ht' & Hmv & Hq).
  destruct (m (set_held stack w)) as [r w']. by split_and!.
Qed.

Lemma guar_holdingLease {A} P (Q : A -> assertion) key token m : guar P Q m -> guar P Q (holdingLease key token m).
Proof.
  intros Hm w Hg Ht Hp. unfold holdingLease.
  by apply (guar_in_context P Q (w_held w ++ [{| hl_key := key; hl_token := token; hl_live := true |}]) m Hm w).
Qed.

Lemma guar_skip {A B} P (Q : B -> assertion) (m : M A) (k : A -> M B) :
  guar P (fun _ => aTrue) m -> (forall x, guar P Q (k x)) -> guar P Q (mbind m k).
Proof.
  intros Hm Hk. eapply guar_bind; [exact Hm|]. intros x. eapply guar_conseq; [apply Hk| |]; [by intros a []|done].
Qed.

Lemma guar_takeLease P o fuel key token : guar P (fun _ => aTrue) (takeLease o fuel key token).
Proof.
  unfold takeLease. apply guar_skip; [apply guar_date_now|]. intros now. generalize (now + waitMs o). intros deadline.
  induction fuel as [|fuel IH]; simpl; [by apply guar_ret|].
  apply guar_skip; [apply guar_date_now|]. intros now'.
  apply guar_skip.
  { apply guar_other. intros t d x d' H. destruct (assertLeaseKeyLength key); [|done].
    destruct (lease_acquire _ _ _ _ _ _). injection H as _ <-. by split_and!. }
  intros []; [by apply guar_ret|]. apply guar_skip; [apply guar_date_now|]. intros later.
  case_bool_decide; [apply guar_throw|]. apply guar_skip; [apply guar_math_random|]. intros r.
  apply guar_skip; [apply guar_await|]. done.
Qed.

Lemma guar_underLease {A} P (Q : A -> assertion) o fuel key m :
  guar P Q m -> guar P (aOption Q) (underLease o fuel key m).
Proof.
  intros Hm. unfold underLease. apply guar_skip; [apply guar_randomUUID|]. intros token.
  apply guar_skip; [apply guar_takeLease|]. intros []; [|by apply guar_ret].
  apply guar_finally.
  - eapply guar_bind; [by apply guar_holdingLease|]. intros x. apply guar_ret. by intros a _ [_ ?].
  - apply guar_catch; [|intros e; by apply guar_ret]. apply guar_skip; [|intros; by apply guar_ret].
    apply guar_other. intros t d x d' H. destruct (lease_release _ _ _). injection H as _ <-. by split_and!.
Qed.

Lemma guar_locks {A} P (Q : A -> assertion) key m : guar P Q m -> guar P Q (locks key m).
Proof.
  intros Hm. unfold locks. eapply guar_bind; [by apply guar_underLease|].
  intros [x|]; [apply guar_ret; by intros a _ [_ ?]|apply guar_throw].
Qed.
Lemma guar_outsideHeldLeases {A} P (Q : A -> assertion) m : guar P Q m -> guar P Q (outsideHeldLeases m).
Proof. apply guar_in_context. Qed.

(** *** Reading a precondition *)

Lemma guar_pre {A} (P P' : assertion) (Q : A -> assertion) m :
  guar P Q m -> (forall a, P' a -> P a) -> guar P' Q m.
Proof. intros Hm HP. by eapply guar_conseq. Qed.

Lemma guar_pure {A} (phi : Prop) (P : assertion) (Q : A -> assertion) m :
  (forall a, workflow_ok a -> P a -> phi) -> (phi -> guar P Q m) -> guar P Q m.
Proof. intros Hphi Hm w Hg Ht Hp. apply Hm; [|done..]. by eapply Hphi; [apply Hg|]. Qed.

Lemma guar_done {A} (P : assertion) (Q : A -> assertion) m :
  guar P (fun _ => aTrue) m -> (forall x a, workflow_ok a -> P a -> Q x a) -> guar P Q m.
Proof. intros Hm HQ. eapply guar_conseq; [exact Hm|done|auto]. Qed.

Lemma guar_no_result {A} (P : assertion) (Q : A -> assertion) m :
  guar P Q m -> guar P (fun _ => aTrue) m.
Proof. intros Hm. by eapply guar_conseq. Qed.

Lemma guar_attempted {A} P (m : M A) : guar P (fun _ => aTrue) m -> guar P (fun _ => aTrue) (mattempt m).
Proof. intros Hm. eapply guar_no_result, guar_attempt, Hm. Qed.

(** *** Programs that leave the workflow to the others *)

Definition harmless {A} (m : M A) : Prop := forall P, guar P (fun _ => aTrue) m.

Lemma harmless_ret {A} (x : A) : harmless (mret x).
Proof. intros P. by apply guar_ret. Qed.
Lemma harmless_throw {A} e : harmless (A := A) (mthrow e).
Proof. intros P. apply guar_throw. Qed.
Lemma harmless_bind {A B} (m : M A) (k : A -> M B) : harmless m -> (forall x, harmless (k x)) -> harmless (mbind m k).
Proof. intros Hm Hk P. apply guar_skip; [apply Hm|]. intros x. apply Hk. Qed.
Lemma harmless_catch {A} (m : M A) h : harmless m -> (forall e, harmless (h e)) -> harmless (mcatch m h).
Proof. intros Hm Hh P. apply guar_catch; [apply Hm|]. intros e. apply Hh. Qed.
Lemma harmless_attempt {A} (m : M A) : harmless m -> harmless (mattempt m).
Proof. intros Hm P. apply guar_attempted, Hm. Qed.
Lemma harmless_read {A} (f : db -> A) : harmless (read f).
Proof. intros P. by apply guar_read. Qed.
Lemma harmless_statement {A} (f : turn -> db -> res exn (A * db)) :
  (forall t d x d', f t d = Ok (x, d') -> same_view d d') -> harmless (statement f).
Proof. intros Hf P. by apply guar_other. Qed.
Lemma harmless_locks {A} key (m : M A) : harmless m -> harmless (locks key m).
Proof. intros Hm P. eapply guar_locks, Hm. Qed.
Lemma harmless_randomUUID : harmless randomUUID.
Proof. intros P. apply guar_randomUUID. Qed.
Lemma harmless_date_now : harmless date_now.
Proof. intros P. apply guar_date_now. Qed.
Lemma harmless_noted field : harmless (noted field).
Proof. intros P. apply guar_noted. Qed.
Lemma harmless_set_counter field n : harmless (set_counter field n).
Proof. intros P. apply guar_set_counter. Qed.
Lemma harmless_users_find id : harmless (users_find id).
Proof. apply (harmless_read (fun d => users_findById id (d_users d))). Qed.

Lemma harmless_guard {A B} (m : M A) (P : assertion) (Q : B -> assertion) (k : A -> M B) :
  harmless m -> (forall x, guar P Q (k x)) -> guar P Q (mbind m k).
Proof. intros Hm. apply guar_skip, Hm. Qed.

(** [throw] unless there is a row, or unless the condition holds. *)
Lemma guar_found {A B} P (Q : B -> assertion) (x : option A) e (k : A -> M B) :
  (forall a, x = Some a -> guar P Q (k a)) -> guar P Q (mbind (found x e) k).
Proof. intros Hk. destruct x as [a|]; [exact (Hk a eq_refl)|apply guar_throw]. Qed.
Lemma guar_ensure {B} P (Q : B -> assertion) b e (k : unit -> M B) :
  (b = true -> guar P Q (k tt)) -> guar P Q (mbind (ensure b e) k).
Proof. intros Hk. destruct b; [exact (Hk eq_refl)|apply guar_throw]. Qed.

(** *** Quiet programs inside a transaction *)

Lemma same_view_refl d : same_view d d.
Proof. by split_and!. Qed.
Lemma same_view_trans d1 d2 d3 : same_view d1 d2 -> same_view d2 d3 -> same_view d1 d3.
Proof. intros (? & ? & ? & ? & ?) (? & ? & ? & ? & ?). split_and!; congruence. Qed.

Lemma quiet_ret {A} (x : A) : quiet (mret x).
Proof. intros w. split_and!; [done..|intros; apply same_view_refl]. Qed.
Lemma quiet_throw {A} e : quiet (A := A) (mthrow e).
Proof. intros w. split_and!; [done..|intros; apply same_view_refl]. Qed.
Lemma quiet_bind {A B} (m : M A) (k : A -> M B) : quiet m -> (forall x, quiet (k x)) -> quiet (mbind m k).
Proof.
  intros Hm Hk w. destruct (Hm w) as (He & Ht & Hn & Hv). unfold mbind.
  destruct (m w) as [[x|e] w1]; simpl in *; [|done].
  destruct (Hk x w1) as (He2 & Ht2 & Hn2 & Hv2). split_and!; [congruence..|lia|].
  intros Hw. eapply same_view_trans; [by apply Hv|]. apply Hv2. congruence.
Qed.
Lemma quiet_statement {A} (f : turn -> db -> res exn (A * db)) :
  (forall t d x d', f t d = Ok (x, d') -> same_view d d') -> quiet (statement f).
Proof.
  intros Hf w. unfold statement. destruct (w_tx w) eqn:Ht.
  - destruct (t_fault (cur w)); [split_and!; simpl; [done..|lia|intros; apply same_view_refl]|].
    destruct (f (cur w) (w_db w)) as [[x d']|e] eqn:Hfd; (split_and!; simpl; [done..|lia|]); intros _.
    + by eapply Hf.
    + apply same_view_refl.
  - destruct (t_fault (cur w)); [split_and!; simpl; [done..|lia|done]|].
    destruct (f (cur w) _) as [[x d']|e]; (split_and!; simpl; [done..|lia|done]).
Qed.
Lemma quiet_read {A} (f : db -> A) : quiet (read f).
Proof. apply quiet_statement. intros t d x d' [= _ <-]. apply same_view_refl. Qed.
Lemma quiet_date_now : quiet date_now.
Proof. intros w. split_and!; [done..|intros; apply same_view_refl]. Qed.

(** What a transaction has done so far. *)
Definition moved (d0 : db) (u0 : string -> Prop) (Q : workflow -> Prop) (d : db) (u : string -> Prop) : Prop :=
  moves (view d0 u0) (view d u) /\ references_ok d /\ Q (view d u).

Lemma moved_closed d0 u0 Q : view_closed (moved d0 u0 Q).
Proof.
  intros d d' u Hv (Hm & Hr & Hq). unfold moved. rewrite (same_view_view _ _ _ Hv).
  split_and!; [done|by eapply same_view_references|done].
Qed.

Lemma txh_quietly {A} P (m : M A) Q :
  quiet m -> view_closed P -> (forall x d u, P d u -> Q x d u) -> txh P m Q.
Proof. intros Hm Hp HQ. eapply txh_conseq; [by apply txh_quiet|done|done]. Qed.

Lemma txh_then {A B} P (m : M A) (k : A -> M B) Q :
  quiet m -> view_closed P -> (forall x, txh P (k x) Q) -> txh P (mbind m k) Q.
Proof. intros Hm Hp Hk. eapply txh_bind; [by apply txh_quiet|done]. Qed.
End Logic.

(** A program of reads, checks and calls to the outside. *)
Create HintDb access discriminated.
#[export] Hint Constants Opaque : access.
#[export] Hint Resolve harmless_ret harmless_throw harmless_read harmless_date_now harmless_randomUUID
  harmless_noted harmless_set_counter harmless_users_find : access.
#[export] Hint Resolve quiet_ret quiet_throw quiet_read quiet_date_now moved_closed : access.

(** The calls that are a read or a check. *)
Ltac unfold_calls :=
  unfold assertApplicationActive, application_usable, ensure, found, or_null, ignore_errors, apis_find,
    applications_find, consumers_find, recovery_findByUser, request_find, request_findPending, grant_find,
    grant_findActive, grant_listActiveByUser, audit_count, jobs_findBySubject.

Ltac harmless_step :=
  lazymatch goal with
  | |- harmless _ _ (mbind _ _) => apply harmless_bind; [|intros ?]
  | |- harmless _ _ (mcatch _ _) => apply harmless_catch; [|intros ?]
  | |- harmless _ _ (mattempt _) => apply harmless_attempt
  | |- harmless _ _ (locks _ _) => eapply harmless_locks; [eassumption|]
  | |- harmless _ _ (match ?x with _ => _ end) => destruct x
  | |- harmless _ _ _ => solve [eauto with access nocore]
  end.
Ltac prove_harmless := intros; unfold_calls; repeat harmless_step.

Ltac quiet_step :=
  lazymatch goal with
  | |- quiet (mbind _ _) => apply quiet_bind; [|intros ?]
  | |- quiet (match ?x with _ => _ end) => destruct x
  | |- quiet _ => solve [eauto with access nocore]
  end.
Ltac prove_quiet := intros; unfold_calls; repeat quiet_step.

(** Step over what a transaction only reads. *)
Tactic Notation "tx_skip" "as" simple_intropattern(x) :=
  eapply txh_then; [eassumption|solve [prove_quiet]|solve [eauto with access nocore]|intros x].
Tactic Notation "tx_skip" := tx_skip as ?.

(** ** The transactions of the access workflow are moves

    Each repository call and each transaction of the access programs, in the
    logic of [AccessLogic]. *)

(** ** Jobs *)

Lemma kept_promised j a : known_job j a -> promised (wf_grants a) (subject j) -> kept j a.
Proof. intros Hk Hp. split; [done|]. intros _ (r & _ & _ & _ & Hn). done. Qed.

Lemma kept_request j a :
  known_job j a ->
  (forall r, wf_requests a !! subject j = Some r -> rq_status r = RequestApproved -> for_access r -> False) ->
  kept j a.
Proof. intros Hk Hn. split; [done|]. intros _ (r & Hr & Hs & Hf & _). eauto. Qed.

Lemma holds_kept j a :
  known_job j a -> (holds_job (wf_jobs a) j -> kept j a) -> kept j a.
Proof. intros Hk Hh. split; [done|]. intros H. by apply Hh. Qed.

(** The row found under the subject of a job is its row. *)
Lemma owns_job_spec j d used :
  workflow_ok (view d used) -> known_job j (view d used) ->
  owns_job j (AccessJobs.findBySubject (subject j) (d_access_jobs d)) = true <-> holds_job (d_access_jobs d) j.
Proof.
  intros Hok [_ Hk]. simpl in Hk. unfold AccessJobs.findBySubject, job_find. split.
  - destruct (head _) as [r|] eqn:Hh; [|done]. apply head_some, rows_where_spec in Hh as (k & Hr & _).
    unfold owns_job. intros H. bool_to_prop. pose proof (ok_jobs _ Hok k r Hr) as Hid. simpl in Hid. subst k.
    exists r. split_and!; [congruence|done|done|]. apply Hk; congruence.
  - intros (r & Hr & Hg & Hs & Hin). pose proof (ok_jobs _ Hok _ r Hr) as Hid. simpl in Hid.
    destruct (head _) as [r'|] eqn:Hh.
    + apply head_some, rows_where_spec in Hh as (k & Hr' & Hsub). unfold AccessJobs.of_subject in Hsub. bool_to_prop.
      assert (k = job_id j) as ->.
      { eapply (ok_subject _ Hok); [done..|]. rewrite (input_subject _ _ Hin). done. }
      assert (r' = r) as -> by congruence. unfold owns_job. rewrite Hid, Hg, Hs. by rewrite !bool_decide_eq_true_2.
    + exfalso. pose proof (head_rows_none _ _ Hh _ r Hr) as Hn. unfold AccessJobs.of_subject in Hn. bool_to_prop.
      apply Hn. exact (input_subject _ _ Hin).
Qed.

Lemma deleteClaimed_spec j t t' b :
  AccessJobs.deleteClaimed j t = (t', b) ->
  (b = true /\ t' = delete (job_id j) t /\
     exists r, t !! job_id j = Some r /\ job_generation r = job_generation j /\ has_status JSending r = true)
  \/ (b = false /\ t' = t).
Proof.
  unfold AccessJobs.deleteClaimed, job_deleteClaimed, job_on_match.
  destruct (t !! job_id j) as [r|] eqn:Hr; [|intros [= <- <-]; by right].
  destruct (job_matches JSending j r) eqn:Hm; intros [= <- <-]; [left|by right].
  unfold job_matches in Hm. bool_to_prop. eauto 10.
Qed.

Lemma deleteClaimed_holds j t t' a :
  known_job j a -> wf_jobs a = t -> AccessJobs.deleteClaimed j t = (t', true) ->
  holds_job t j /\ t' = delete (job_id j) t.
Proof.
  intros [_ Hk] <- [(_ & -> & r & Hr & Hg & Hs)|[? _]]%deleteClaimed_spec; [|done].
  split; [|done]. exists r. split_and!; [done..|by apply Hk].
Qed.

Lemma bookkeeping_refl used t : bookkeeping used t t.
Proof. split; [|done]. intros k j Hj. exists j. split_and!; [done..|by left]. Qed.

Lemma bookkeeping_reschedule used j next error now t :
  bookkeeping used t (AccessJobs.reschedule j next error now t).1.
Proof.
  unfold AccessJobs.reschedule, job_reschedule, job_on_match.
  destruct (t !! job_id j) as [r|] eqn:Hr; [|apply bookkeeping_refl].
  destruct (job_matches _ _ _); [|apply bookkeeping_refl]. simpl. split.
  - intros k j' Hj'. map_cases; [|exists j'; split_and!; [done..|by left]].
    exists r. split_and!; [done..|left]. split; [done|]. by intros [=].
  - intros k Hk. by apply lookup_insert_None in Hk as [? _].
Qed.

(** The row a decision writes. *)
Lemma upsertClaimed_spec input now newId newGen (t t' : AccessJobs.table) j used requests grants :
  let a := {| wf_requests := requests; wf_grants := grants; wf_jobs := t; wf_used := used |} in
  keyed job_id t -> ~ used newId -> ~ used newGen -> newId <> newGen ->
  AccessJobs.upsertClaimed input now newId newGen t = (t', j) ->
  t' = <[job_id j := j]> t /\ queues a j /\ has_status JSending j = true /\ AccessJobs.ag_input j = input /\
  job_generation j = newGen /\ (job_id j = newId \/ exists r, t !! job_id j = Some r).
Proof.
  intros a Hk Hni Hng Hne. unfold AccessJobs.upsertClaimed, job_upsert, job_find.
  destruct (head _) as [r|] eqn:Hh; intros [= <- <-].
  - apply head_some, rows_where_spec in Hh as (k & Hr & Hs). unfold AccessJobs.of_subject in Hs. bool_to_prop.
    pose proof (Hk k r Hr) as Hid. simpl in Hid. change (job_id _) with (job_id r) at 2. rewrite Hid.
    split_and!; [done| |done..|right; eexists; change (job_id _) with (job_id r); by rewrite Hid].
    split; [done|right]. exists r. change (job_id _) with (job_id r). by rewrite Hid.
  - split_and!; [done| |done..|by left]. split; [done|left]. split_and!; [done..|].
    intros k j0 Hj0. pose proof (head_rows_none _ _ Hh _ j0 Hj0) as Hn. unfold AccessJobs.of_subject in Hn.
    by bool_to_prop.
Qed.

(** ** What the statements of a transaction leave *)

Section Statements.
Context (env : nat -> turn) (seen : nat -> string -> Prop) (Hsch : access_schedule env seen).

Definition request_moved (id : string) (expected : AccessRequestStatus) (patch : RequestPatch)
    (d1 d : db) (r' : AccessRequestRecord) : Prop :=
  exists r at_, at_requests (d_access d1) !! id = Some r /\ rq_status r = expected /\
    r' = accessRequestUpdateColumns patch at_ r /\
    d = put_requests (<[rq_id r := r']> (at_requests (d_access d1))) d1 /\
    pending_taken r' (at_requests (d_access d1)) = false.

Lemma tx_request_update P id expected patch :
  no_request_columns patch = false ->
  txh env seen P (request_updateIfStatus id expected patch)
    (fun x d u => match x with
                  | Some r' => exists d1, P d1 u /\ request_moved id expected patch d1 d r'
                  | None => P d u /\ forall r, at_requests (d_access d) !! id = Some r -> rq_status r <> expected
                  end).
Proof.
  intros Hn. apply (txh_statement env seen Hsch). intros n d u x d' Hp _ H. exists u. split; [by left|].
  destruct (requests_updateIfStatus _ _ _ _ _ _) as [[r rows]|e] eqn:Hu; [|done]. injection H as <- <-.
  destruct r as [r'|].
  - apply requests_updateIfStatus_some in Hu as (r & Hr & Hs & Hr' & -> & Ht); [|done].
    exists d. split; [done|]. exists r, (t_now (env n)). by split_and!.
  - apply requests_updateIfStatus_none in Hu as [-> Hno]; [|done]. by destruct d as [? ? ? ? ? ? ? ? []].
Qed.

Definition grant_moved (id : string) (expected : GrantStatus) (patch : GrantPatch) (d1 d : db) (g' : GrantRecord) : Prop :=
  exists g at_, at_grants (d_access d1) !! id = Some g /\ g_status g = expected /\
    g' = grantUpdateColumns patch at_ g /\
    d = put_grants (<[g_id g := g']> (at_grants (d_access d1))) d1 /\
    active_taken g' (at_grants (d_access d1)) = false.

Lemma tx_grant_update P id expected patch :
  no_grant_columns patch = false ->
  txh env seen P (grant_updateIfStatus id expected patch)
    (fun x d u => match x with
                  | Some g' => exists d1, P d1 u /\ grant_moved id expected patch d1 d g'
                  | None => P d u
                  end).
Proof.
  intros Hn. apply (txh_statement env seen Hsch). intros n d u x d' Hp _ H. exists u. split; [by left|].
  destruct (grants_updateIfStatus _ _ _ _ _ _) as [[r rows]|e] eqn:Hu; [|done]. injection H as <- <-.
  destruct r as [g'|].
  - apply grants_updateIfStatus_some in Hu as (g & Hg & Hs & Hg' & -> & Ht); [|done].
    exists d. split; [done|]. exists g, (t_now (env n)). by split_and!.
  - apply grants_updateIfStatus_none in Hu as ->; [|done]. by destruct d as [? ? ? ? ? ? ? ? []].
Qed.

(** An insertion: the row is of a new id. *)
Lemma tx_request_create P input :
  (forall id at_, rq_id (input id at_) = id) ->
  txh env seen P (request_create input)
    (fun r d u => exists d1 u1 at_, P d1 u1 /\ r = input (rq_id r) at_ /\ ~ u1 (rq_id r) /\
       u = (fun x => u1 x \/ x = rq_id r) /\ pending_taken r (at_requests (d_access d1)) = false /\
       request_refs (refs_of d1) r = true /\
       d = put_requests (<[rq_id r := r]> (at_requests (d_access d1))) d1).
Proof.
  intros Hin. apply (txh_statement env seen Hsch). intros n d u x d' Hp Hf H.
  destruct (requests_create _ _ _) as [[r rows]|e] eqn:Hc; [|done]. injection H as <- <-.
  apply requests_create_ok in Hc as (-> & -> & _ & Ht & Hr).
  exists (fun y => u y \/ y = t_ids (env n) 0). split; [intros y [Hy| ->]; eauto|].
  exists d, u, (t_now (env n)). rewrite Hin. by split_and!.
Qed.

Lemma tx_grant_create P input :
  (forall id at_, g_id (input id at_) = id) ->
  txh env seen P (grant_create input)
    (fun g d u => exists d1 u1 at_, P d1 u1 /\ g = input (g_id g) at_ /\ ~ u1 (g_id g) /\
       u = (fun x => u1 x \/ x = g_id g) /\ active_taken g (at_grants (d_access d1)) = false /\
       d = put_grants (<[g_id g := g]> (at_grants (d_access d1))) d1).
Proof.
  intros Hin. apply (txh_statement env seen Hsch). intros n d u x d' Hp Hf H.
  destruct (grants_create _ _ _) as [[g rows]|e] eqn:Hc; [|done]. injection H as <- <-.
  apply grants_create_ok in Hc as (-> & -> & _ & Ht & _).
  exists (fun y => u y \/ y = t_ids (env n) 0). split; [intros y [Hy| ->]; eauto|].
  exists d, u, (t_now (env n)). rewrite Hin. by split_and!.
Qed.

Definition jobs_used (d : db) (u : string -> Prop) : Prop :=
  keyed job_id (d_access_jobs d) /\ forall k j, d_access_jobs d !! k = Some j -> u k.

Lemma ok_jobs_used d u : workflow_ok (view d u) -> jobs_used d u.
Proof. intros Hok. split; [exact (ok_jobs _ Hok)|]. intros k j Hj. exact (proj1 (ok_used_jobs _ Hok k j Hj)). Qed.

Lemma tx_upsertClaimed P input now :
  (forall d u, P d u -> jobs_used d u) ->
  txh env seen P (jobs_upsertClaimed input now)
    (fun j d u => exists d1 u1, P d1 u1 /\ queues (view d1 u1) j /\ has_status JSending j = true /\
       AccessJobs.ag_input j = input /\ u = (fun x => u1 x \/ (x = job_id j \/ x = job_generation j)) /\
       d = with_access_jobs (<[job_id j := j]> (d_access_jobs d1)) d1).
Proof.
  intros Hok. apply (txh_statement env seen Hsch). intros n d u x d' Hp Hf H. specialize (Hok _ _ Hp).
  destruct (AccessJobs.upsertClaimed _ _ _ _ _) as [q job] eqn:Hu. injection H as <- <-.
  destruct (upsertClaimed_spec input now _ _ (d_access_jobs d) q job u (at_requests (d_access d)) (at_grants (d_access d))
              (proj1 Hok) (Hf 0%nat) (Hf 1%nat)) as (-> & Hq & Hs & Hin & Hg & Hid); [|done|].
  { intros Heq. by apply (sch_distinct _ _ Hsch) in Heq. }
  exists (fun y => u y \/ (y = job_id job \/ y = job_generation job)). split; [|exists d, u; by split_and!].
  intros y [Hy|[-> | ->]]; [by left| |right; eauto]. destruct Hid as [Hid|[r Hr]]; [right; eauto|left].
  exact (proj2 Hok _ _ Hr).
Qed.

Lemma tx_deleteClaimed P job :
  (forall d u, P d u -> known_job job (view d u)) ->
  txh env seen P (jobs_deleteClaimed job)
    (fun b d u => if b : bool
                  then exists d1, P d1 u /\ holds_job (d_access_jobs d1) job /\
                                  d = with_access_jobs (delete (job_id job) (d_access_jobs d1)) d1
                  else P d u).
Proof.
  intros Hk. apply (txh_statement env seen Hsch). intros n d u x d' Hp _ H. exists u. split; [by left|].
  destruct (AccessJobs.deleteClaimed _ _) as [q b] eqn:Hd. injection H as <- <-. destruct b.
  - destruct (deleteClaimed_holds job (d_access_jobs d) q (view d u)) as [Hh ->]; [by apply Hk|done..|]. eauto.
  - apply deleteClaimed_spec in Hd as [[? _]|[_ ->]]; [done|]. by destruct d.
Qed.

(** Whether the claim is still held. *)
Lemma tx_owned P job :
  (forall d u, P d u -> workflow_ok (view d u) /\ known_job job (view d u)) ->
  txh env seen P (jobs_findBySubject (subject job))
    (fun row d u => P d u /\ (owns_job job row = true <-> holds_job (d_access_jobs d) job)).
Proof.
  intros HP. apply (txh_read env seen Hsch). intros d u Hp. split; [done|].
  destruct (HP _ _ Hp) as [Hok Hk]. by apply (owns_job_spec job d u).
Qed.

Lemma put_requests_references d r r' :
  references_ok d -> at_requests (d_access d) !! rq_id r = Some r -> same_request r r' ->
  references_ok (put_requests (<[rq_id r := r']> (at_requests (d_access d))) d).
Proof.
  intros [Hr Ha Hu] Hin (_ & Hapi & Huser & _). split; [|done..]. intros k x Hx. simpl in *.
  map_cases; [|eauto]. rewrite Hapi, Huser. eauto.
Qed.

Lemma request_moved_same id expected patch d1 d r' :
  request_moved id expected patch d1 d r' -> keyed rq_id (at_requests (d_access d1)) ->
  exists r, at_requests (d_access d1) !! rq_id r = Some r /\ rq_id r = id /\ rq_status r = expected /\
    same_request r r' /\ rq_status r' = default (rq_status r) (rp_status patch) /\
    pending_taken r' (at_requests (d_access d1)) = false /\ (references_ok d1 -> references_ok d) /\
    forall u, view d u = put_request r' (view d1 u).
Proof.
  intros (r & at_ & Hr & Hs & -> & -> & Ht) Hk. pose proof (Hk _ _ Hr) as Hid. simpl in Hid. subst id.
  exists r. split_and!; [done..| |done]. intros Hf. by apply put_requests_references.
Qed.
Lemma status_columns patch status : rp_status patch = Some status -> no_request_columns patch = false.
Proof. destruct patch; simpl. intros ->. by repeat case_match. Qed.

(** *** A transaction from where it starts *)

Lemma guar_tx {A} (P : assertion) (Q : A -> assertion) (body : M A) :
  (forall d0 u0, workflow_ok (view d0 u0) -> P (view d0 u0) ->
     txh env seen (moved d0 u0 P) body (fun x => moved d0 u0 (Q x))) ->
  guar env seen P Q (transaction body).
Proof.
  intros Hb. apply (guar_transaction env seen Hsch). intros d0 u0 Hok Hr Hp.
  eapply txh_conseq; [by apply (Hb d0 u0)| |done]. intros d u [-> ->]. by split_and!; [apply rtc_refl|..].
Qed.

Lemma txh_pre {A} (P P' : db -> (string -> Prop) -> Prop) (Q : A -> db -> (string -> Prop) -> Prop) m :
  txh env seen P m Q -> (forall d u, P' d u -> P d u) -> txh env seen P' m Q.
Proof. intros Hm HP. by eapply txh_conseq. Qed.

Section Moved.
Context (d0 : db) (u0 : string -> Prop) (Hok0 : workflow_ok (view d0 u0)).

Lemma moved_ok Q d u : moved d0 u0 Q d u -> workflow_ok (view d u).
Proof. intros (Hm & _). by eapply moves_ok. Qed.

Lemma moved_step (Q Q' : workflow -> Prop) d d' u u' :
  moved d0 u0 Q d u -> (references_ok d -> references_ok d') -> move (view d u) (view d' u') -> Q' (view d' u') ->
  moved d0 u0 Q' d' u'.
Proof. intros (Hm & Hr & _) Hr' Hs HQ. split_and!; [|auto|done]. eapply rtc_r; eauto. Qed.

Lemma moved_weaken (Q Q' : workflow -> Prop) d u :
  moved d0 u0 Q d u -> (workflow_ok (view d u) -> Q (view d u) -> Q' (view d u)) -> moved d0 u0 Q' d u.
Proof. intros Hm HQ. pose proof (moved_ok _ _ _ Hm). destruct Hm as (? & ? & ?). split_and!; auto. Qed.

(** A decision made on a row of the status it expects. *)
Lemma tx_decide (P : workflow -> Prop) id expected patch (Q : option AccessRequestRecord -> workflow -> Prop) status :
  rp_status patch = Some status ->
  (forall a r r', workflow_ok a -> P a -> rq_id r = id -> decides a expected r r' -> rq_status r' = status ->
     pending_taken r' (wf_requests a) = false -> move a (put_request r' a) /\ Q (Some r') (put_request r' a)) ->
  (forall a, workflow_ok a -> P a -> (forall r, wf_requests a !! id = Some r -> rq_status r <> expected) -> Q None a) ->
  txh env seen (moved d0 u0 P) (request_updateIfStatus id expected patch) (fun x => moved d0 u0 (Q x)).
Proof.
  intros Hst Hsome Hnone. eapply txh_conseq; [by eapply tx_request_update, status_columns|done|].
  intros [r'|] d u; simpl.
  - intros (d1 & Hm & Hmv). pose proof (moved_ok _ _ _ Hm) as Hok.
    destruct (request_moved_same _ _ _ _ _ _ Hmv (ok_requests _ Hok)) as (r & Hr & Hid & Hs & Hsm & Hst' & Ht & Href & Hv).
    rewrite Hst in Hst'. destruct (Hsome (view d1 u) r r' Hok) as [Hmove HQ]; [apply Hm|done|by split_and!|done|done|].
    rewrite <- Hv in Hmove, HQ. by eapply moved_step.
  - intros [Hm Hno]. eapply moved_weaken; [exact Hm|]. intros Hok Hp. by apply Hnone.
Qed.

(** The claim of a job dropped. *)
Lemma tx_done (P : workflow -> Prop) job (Q : workflow -> Prop) :
  (forall a, P a -> known_job job a) ->
  (forall a, workflow_ok a -> P a -> holds_job (wf_jobs a) job -> kind job = AccessJobs.Approve -> ~ unkept a (subject job)) ->
  (forall a, workflow_ok a -> P a -> Q (set_jobs (delete (job_id job) (wf_jobs a)) a)) ->
  txh env seen (moved d0 u0 P) (jobs_deleteClaimed job)
    (fun b => moved d0 u0 (if b : bool then Q else P)).
Proof.
  intros Hk Hn HQ. eapply txh_conseq; [apply tx_deleteClaimed|done|].
  - intros d u (_ & _ & Hp). by apply Hk.
  - intros [] d u; [|done]. intros (d1 & Hm & Hh & ->). pose proof (moved_ok _ _ _ Hm) as Hok.
    pose proof Hm as (_ & _ & Hp).
    eapply moved_step; [exact Hm|intros []; by split| |by apply (HQ (view d1 u))].
    apply (MDone (view d1 u) job); [done|]. by apply Hn.
Qed.
End Moved.
End Statements.
