(* ===== verification/AccessTransactions.v ===== *)
(** * The transactions of the access programs

    Every transaction of [server/src/access/service.ts] makes moves of the
    workflow; what it answers is what the caller goes on with. *)

From S2P Require Import Prelude Json Roles Leases ClaimQueue Users JobQueues AuditLog AccessTables AccessWorkflow World AccessStore LeaseFence KeyedSerializer Provisioner AccessDecisions GatewayJobWorker AccessRevocation AccessApproval AccessRequests AccessLogic.
Open Scope Z_scope.

(** The job of the approval of a request. *)
Definition approval_of (job : AccessJobs.Job) (requestId : string) : Prop :=
  kind job = AccessJobs.Approve /\ subject job = requestId.

Lemma kept_closed job a r' :
  known_job job a -> subject job = rq_id r' -> rq_status r' <> RequestApproved -> kept job (put_request r' a).
Proof.
  intros Hk Hs Hst. apply kept_request; [by apply Hk|]. simpl. rewrite Hs, lookup_insert_eq. by intros r [= <-].
Qed.

Lemma audit_record_quiet actor action target details ip : quiet (audit_record actor action target details ip).
Proof.
  apply quiet_statement. intros t d x d' H. destruct (auditLogs_create _ _) as [[]|]; [|done].
  injection H as <- <-. by split_and!.
Qed.
Lemma audit_record_as_quiet id actor action target details ip :
  quiet (audit_record_as id actor action target details ip).
Proof.
  apply quiet_statement. intros t d x d' H. destruct (auditLogs_create _ _) as [[]|]; [|done].
  injection H as <- <-. by split_and!.
Qed.
#[export] Hint Resolve audit_record_quiet audit_record_as_quiet : access.

Section Transactions.
Context (env : nat -> turn) (seen : nat -> string -> Prop) (Hsch : access_schedule env seen).

Lemma settleOwnRequest_spec job requestId patch status :
  rp_status patch = Some status -> status = RequestPending \/ status = RequestCancelled ->
  approval_of job requestId ->
  guar env seen (aJob job) (fun _ => aKept job) (settleOwnRequest job requestId patch).
Proof.
  intros Hst Hs [Hkind Hsub]. apply (guar_tx env seen Hsch). intros d0 u0 Hok0 _.
  eapply txh_bind; [apply (tx_owned env seen Hsch (moved d0 u0 (aJob job)) job)|].
  { intros d u Hm. split; [by eapply moved_ok|apply Hm]. }
  intros row. destruct (owns_job job row) eqn:Ho; simpl.
  - eapply txh_bind; [|intros x; apply (txh_ret env seen); intros d u H; exact H].
    eapply txh_pre; [apply (tx_decide env seen Hsch d0 u0 Hok0
                       (fun a => known_job job a /\ holds_job (wf_jobs a) job) _ _ _ (fun _ => kept job) status Hst)|].
    + intros a r r' Hok [Hk Hh] Hid Hd Hst' Ht. split.
      * apply (MRelease a job r r'); [done..|congruence|done|by rewrite Hst'|done].
      * apply kept_closed; [done| |by rewrite Hst'; destruct Hs as [-> | ->]].
        destruct Hd as (_ & _ & Hsm & _). congruence.
    + intros a Hok [Hk Hh] Hno. apply kept_request; [done|]. rewrite Hsub. intros r Hr Happ. by destruct (Hno r Hr).
    + intros d u (Hm & Hown). eapply moved_weaken; [done|exact Hm|]. intros _ Hj. split; [done|]. by apply Hown.
  - apply (txh_ret env seen). intros d u (Hm & Hown). eapply moved_weaken; [done|exact Hm|]. intros _ Hj.
    apply holds_kept; [done|]. intros Hh. apply Hown in Hh. congruence.
Qed.
(** *** The claim of an approval *)

Lemma known_job_new a j : known_job j (use (fun x => x = job_id j \/ x = job_generation j) (put_job j a)).
Proof. split; [by right; right|]. simpl. rewrite lookup_insert_eq. by intros j1 [= <-]. Qed.

Lemma decisionConflict_spec P requestId : guar env seen P (fun _ => aTrue) (decisionConflict requestId).
Proof. apply (harmless_bind env seen); [by apply harmless_read|]. intros x. by apply harmless_ret. Qed.

Definition aClaimed (request : AccessRequestRecord) (c : AccessRequestRecord * AccessJobs.Job) : assertion :=
  aJob c.2 &&& aPure (approval_of c.2 (rq_id request) /\ job_identity c.2 = rq_identity request /\
                      rq_id c.1 = rq_id request).

Lemma claimApproval_spec actor request requester tools decided_at note :
  guar env seen (aRequest request &&& aPure (u_id requester = rq_user_id request))
    (aClaimed request)
    (claimApproval actor request requester tools decided_at note).
Proof.
  unfold claimApproval. eapply guar_bind with (R := aOption (aClaimed request)).
  - apply (guar_tx env seen Hsch). intros d0 u0 Hok0 [_ Huser].
    eapply txh_bind; [by apply (tx_request_update env seen Hsch)|].
    intros [updated|]; [|apply (txh_ret env seen); intros d u [Hm _]; eapply moved_weaken; [done|exact Hm|done]].
    eapply txh_bind; [apply (tx_upsertClaimed env seen Hsch)|].
    + intros d u (d1 & Hm & Hmv). pose proof (ok_jobs_used _ _ (moved_ok _ _ Hok0 _ _ _ Hm)).
      destruct Hmv as (? & ? & _ & _ & _ & -> & _). done.
    + intros job. apply (txh_ret env seen).
      intros d' u' (d & u & (d1 & Hm & Hmv) & Hq & Hsend & Hin & -> & ->). pose proof (moved_ok _ _ Hok0 _ _ _ Hm) as Hok.
      destruct (request_moved_same _ _ _ _ _ _ Hmv (ok_requests _ Hok)) as (r & Hr & Hid & Hs & Hsm & Hst' & Ht & Href & Hv).
      assert (Hjobs : d_access_jobs d = d_access_jobs d1) by (by destruct Hmv as (? & ? & _ & _ & _ & -> & _)).
      destruct Hm as (Hmoves & Hrefs & [_ Hknown] & _).
      pose proof (Hknown r) as Hrow. rewrite <- Hid in Hrow. specialize (Hrow Hr).
      assert (Hji : job_identity job = rq_identity request).
      { unfold job_identity, rq_identity. rewrite Hin. simpl. by rewrite Huser. }
      assert (Hkj : kind job = AccessJobs.Approve /\ subject job = rq_id request) by (unfold kind, subject; by rewrite Hin).
      pose proof (same_request_identity _ _ Hrow) as Hident. destruct Hkj as [Hkind Hsub].
      eapply (moved_step _ _ (fun a => a = view d1 u)); [split_and!; [exact Hmoves|done|done]|by intros Hx; destruct (Href Hx)| |].
      * change (move (view d1 u) (use (fun x => x = job_id job \/ x = job_generation job) (put_job job (view d u)))).
        rewrite Hv. apply (MClaim _ r updated job); [by split_and!|done| |done..|congruence|congruence].
        destruct Hq as [? Hq]. split; [done|]. simpl in Hq |- *. by rewrite Hjobs in Hq.
      * split; [exact (known_job_new (view d u) job)|]. split_and!; [done..|]. simpl. rewrite (proj1 Hsm). exact Hid.
  - intros [c|]; [apply (guar_ret env seen); by intros a _ [_ ?]|].
    apply (guar_skip env seen); [apply decisionConflict_spec|]. intros e. apply (guar_throw env seen).
Qed.
(** *** The commits of an approval *)

Definition grant_written (P : db -> (string -> Prop) -> Prop) (input : string -> Z -> GrantRecord)
    (g : GrantRecord) (d : db) (u : string -> Prop) : Prop :=
  exists d1 u1 at_, P d1 u1 /\ g = input (g_id g) at_ /\ ~ u1 (g_id g) /\ active_taken g (at_grants (d_access d1)) = false /\
    view d u = use (fun x => x = g_id g) (put_grant g (view d1 u1)) /\ references_ok d.

Lemma grant_written_closed P input g : view_closed (grant_written P input g).
Proof.
  intros d d' u Hv (d1 & u1 & at_ & ? & ? & ? & ? & Hview & Hr). exists d1, u1, at_.
  rewrite (same_view_view _ _ _ Hv). split_and!; [done..|by eapply same_view_references].
Qed.
#[local] Hint Resolve grant_written_closed : access.

Lemma commit_grant_spec actor request api requester tools job ip :
  approval_of job (rq_id request) ->
  job_identity job = identity_of (api_id api) (u_id requester) (rq_application_id request) ->
  guar env seen (aJob job) (fun _ => aTrue) (commit_grant actor request api requester tools job ip).
Proof.
  intros [Hkind Hsub] Hident. apply (guar_tx env seen Hsch). intros d0 u0 Hok0 _.
  tx_skip. set (input := new_grant api request requester actor tools).
  eapply txh_bind with (R := grant_written (moved d0 u0 (aJob job)) input).
  { eapply txh_conseq; [by apply (tx_grant_create env seen Hsch)|done|].
    intros g d u (d1 & u1 & at_ & Hm & Hg & Hn & -> & Ht & ->). exists d1, u1, at_.
    split_and!; [done..|]. destruct Hm as (_ & [] & _). by split. }
  intros g. tx_skip.
  eapply txh_bind; [apply (tx_deleteClaimed env seen Hsch)|].
  - intros d u (d1 & u1 & at_ & (_ & _ & [Hu Hk]) & _ & _ & _ & -> & _). split; [by left|done].
  - intros []; [|apply (txh_throw env seen)]. apply (txh_ret env seen).
    intros d' u (d & (d1 & u1 & at_ & Hm & Hg & Hn & Ht & Hview & Href) & Hh & ->).
    assert (Hjobs : d_access_jobs d = d_access_jobs d1) by exact (f_equal wf_jobs Hview).
    eapply moved_step; [exact Hm|by intros _; destruct Href| |done].
    change (view (with_access_jobs (delete (job_id job) (d_access_jobs d)) d) u)
      with (set_jobs (delete (job_id job) (d_access_jobs d)) (view d u)).
    rewrite Hview, Hjobs. apply (MGrant (view d1 u1) job g); try done; [simpl; by rewrite <- Hjobs|by rewrite Hg|..].
    + rewrite Hg, Hsub. done.
    + rewrite Hident, Hg. done.
Qed.

(** A tool request has no grant of its own to wait for. *)
Lemma tool_request_kept job request a :
  known_job job a -> known_request request a -> subject job = rq_id request -> rq_grant_id request <> None -> kept job a.
Proof.
  intros Hj [_ Hk] Hs Hg. apply kept_request; [done|]. rewrite Hs. intros r Hr _ Hf.
  destruct (Hk r Hr) as (_ & _ & _ & _ & Heq). unfold for_access in Hf. congruence.
Qed.

Lemma commit_tools_spec actor request api requester grantId current requested added next job ip :
  guar env seen (aKept job) (fun _ => aTrue)
    (commit_tools actor request api requester grantId current requested added next job ip).
Proof.
  apply (guar_tx env seen Hsch). intros d0 u0 Hok0 _.
  do 3 tx_skip.
  eapply txh_bind with (R := fun _ => moved d0 u0 (aKept job)).
  { eapply txh_conseq; [by apply (tx_grant_update env seen Hsch)|done|]. intros [g'|] d u; [|done].
    intros (d1 & Hm & (g & at_ & Hg & Hs & Hg' & -> & Ht)). pose proof (moved_ok _ _ Hok0 _ _ _ Hm) as Hok.
    pose proof (ok_grants _ Hok _ _ Hg) as Hid. simpl in Hid. subst grantId.
    assert (Hmove : move (view d1 u) (put_grant g' (view d1 u))) by (apply (MRetool _ g); by subst g').
    eapply moved_step; [exact Hm|by intros []; split|by subst g'|].
    subst g'. eapply (says_stable (aKept job)); [exact Hok|exact Hmove|apply Hm]. }
  intros widened. tx_skip as g. eapply txh_bind; [apply (tx_done env seen Hsch d0 u0 Hok0 (aKept job) job (fun _ => True))|].
  - by intros a [].
  - intros a _ [_ Hk] Hh _. by apply Hk.
  - done.
  - intros []; [|apply (txh_bind env seen) with (R := fun _ _ _ => False); [apply (txh_throw env seen)|]].
    + do 2 tx_skip. by apply (txh_ret env seen).
    + intros y w u _ _ _ [].
Qed.

(** *** Submitting and closing requests *)

Lemma tx_close d0 u0 (Hok0 : workflow_ok (view d0 u0)) (P : assertion) id patch status :
  rp_status patch = Some status -> status = RequestCancelled \/ status = RequestDenied ->
  txh env seen (moved d0 u0 P) (request_updateIfStatus id RequestPending patch)
    (fun x => moved d0 u0 (P &&& aOption aRequest x)).
Proof.
  intros Hst Hs. apply (tx_decide env seen Hsch d0 u0 Hok0 P _ _ _ (fun x => P &&& aOption aRequest x) status Hst); [|done].
  intros a r r' Hok Hp Hid Hd Hst' Ht.
  assert (Hmove : move a (put_request r' a)) by (apply (MClose a r r' Hd); by rewrite Hst').
  split; [done|split; [by apply (says_stable P a)|]]. destruct Hd as (Hr & _ & Hsm). split.
  - apply (used_mono _ _ _ Hmove). rewrite (proj1 Hsm). exact (ok_used_requests a Hok _ _ Hr).
  - simpl. rewrite lookup_insert_eq. intros r1 [= <-]. apply same_request_refl.
Qed.

Lemma tx_submit d0 u0 (Hok0 : workflow_ok (view d0 u0)) (P : assertion) apiId userId app justification tools grantId :
  txh env seen (moved d0 u0 P) (request_create (new_request apiId userId app justification tools grantId))
    (fun _ => moved d0 u0 P).
Proof.
  eapply txh_conseq; [by apply (tx_request_create env seen Hsch)|done|].
  intros r d u (d1 & u1 & at_ & Hm & Hr & Hn & -> & Ht & Hrefs & ->). pose proof (moved_ok _ _ Hok0 _ _ _ Hm) as Hok.
  assert (Hmove : move (view d1 u1) (use (fun x => x = rq_id r) (put_request r (view d1 u1)))).
  { apply MSubmit; [done|by rewrite Hr|done]. }
  eapply moved_step; [exact Hm| |exact Hmove|eapply (says_stable P); [exact Hok|exact Hmove|apply Hm]].
  intros [Hfk Ha Hu]. split; [|done..]. intros k x Hx. simpl in Hx. map_cases; [|by eapply Hfk].
  unfold request_refs in Hrefs. simpl in Hrefs. bool_to_prop. done.
Qed.

Section Programs.
Context `{EdgeClient} `{AccessDeps}.

Lemma assertWithinBudget_quiet userId : quiet (assertWithinBudget userId).
Proof. unfold assertWithinBudget. prove_quiet. Qed.
#[local] Hint Resolve assertWithinBudget_quiet : access.

Lemma submit_request_spec user api justification applicationId ip tools P :
  guar env seen P (fun _ => aTrue) (submit_request user api justification applicationId ip tools).
Proof.
  eapply guar_no_result with (Q := fun _ => P). apply (guar_tx env seen Hsch). intros d0 u0 Hok0 _.
  tx_skip.
  eapply txh_bind with (R := fun _ => moved d0 u0 P).
  - unfold free_slot. tx_skip as [p|]; [|by apply (txh_ret env seen)].
    tx_skip as extended. eapply txh_bind with (R := fun _ => moved d0 u0 P).
    + destruct (_ && _); [|by apply (txh_ret env seen)].
      tx_skip.
      eapply txh_conseq; [apply (tx_close d0 u0 Hok0 P _ _ RequestCancelled); auto|done|].
      intros y d u Hm. eapply moved_weaken; [done|exact Hm|by intros _ []].
    + intros closed. do 2 tx_skip. by apply (txh_ret env seen).
  - intros []. eapply txh_bind; [by apply tx_submit|]. intros r.
    tx_skip. by apply (txh_ret env seen).
Qed.

Lemma submit_tools_spec user api grant justification tools ip P :
  guar env seen P (fun _ => aTrue) (submit_tools user api grant justification tools ip).
Proof.
  eapply guar_no_result with (Q := fun _ => P). apply (guar_tx env seen Hsch). intros d0 u0 Hok0 _.
  do 5 tx_skip. eapply txh_bind; [by apply tx_submit|]. intros r.
  tx_skip. by apply (txh_ret env seen).
Qed.

Lemma close_request_spec requestId patch status actor action details ip P :
  rp_status patch = Some status -> status = RequestCancelled \/ status = RequestDenied ->
  guar env seen P (fun _ => aTrue) (close_request requestId patch actor action details ip).
Proof.
  intros Hst Hs. apply (guar_skip env seen).
  - eapply guar_no_result with (Q := fun _ => P). apply (guar_tx env seen Hsch). intros d0 u0 Hok0 _.
    eapply txh_bind; [by apply (tx_close d0 u0 Hok0 P _ _ status)|]. intros [r|].
    + tx_skip. apply (txh_ret env seen).
      intros d u Hm. eapply moved_weaken; [done|exact Hm|by intros _ []].
    + apply (txh_ret env seen). intros d u Hm. eapply moved_weaken; [done|exact Hm|by intros _ []].
  - intros [r|]; [by apply (guar_ret env seen)|].
    apply (guar_skip env seen); [apply decisionConflict_spec|]. intros e. apply (guar_throw env seen).
Qed.
End Programs.
(** *** Revoking a grant *)

(** The request that follows a grant to [revoked]. *)
Definition aFollower (claim : GrantRecord) (r : AccessRequestRecord) : assertion :=
  aRequest r &&& aPure (rq_status r = RequestApproved /\ g_access_request_id claim = Some (rq_id r)).
Definition aToolRequest (p : AccessRequestRecord) : assertion := aRequest p &&& aPure (rq_grant_id p <> None).
Definition aRevocation (grant : GrantRecord) (c : revocation_claim) : assertion :=
  aGrant (rc_claim c) &&& aPure (g_id (rc_claim c) = g_id grant) &&& aOption (aFollower (rc_claim c)) (rc_request c)
  &&& aOption aToolRequest (rc_toolRequest c) &&& aJob (rc_job c) &&& aPure (kind (rc_job c) = AccessJobs.Revoke).

Section Withdraw.
Context (d0 : db) (u0 : string -> Prop) (Hok0 : workflow_ok (view d0 u0)).

Lemma known_request_row r d u : workflow_ok (view d u) -> at_requests (d_access d) !! rq_id r = Some r -> known_request r (view d u).
Proof.
  intros Hok Hr. split; [exact (ok_used_requests _ Hok _ _ Hr)|]. simpl. rewrite Hr. intros r1 [= <-]. apply same_request_refl.
Qed.
Lemma known_grant_row g d u : workflow_ok (view d u) -> at_grants (d_access d) !! g_id g = Some g -> known_grant g (view d u).
Proof.
  intros Hok Hg. split; [split_and!|].
  - exact (proj1 (ok_used_grants _ Hok _ _ Hg)).
  - apply eq_None_not_Some. intros [r Hr]. by eapply (ok_disjoint _ Hok).
  - intros k j Hj Hs. destruct (kind j) eqn:Hk; [done|exfalso]. eapply (ok_job_kind _ Hok); [exact Hj|done|by rewrite Hs].
  - simpl. rewrite Hg. intros g1 [= <-]. apply same_grant_refl.
Qed.

(** The grant is revoked, its request not yet. *)
Definition revoking (P : assertion) (grant claim : GrantRecord) (by_ : option string) (at_ : Z)
    (d : db) (u : string -> Prop) : Prop :=
  exists d1, moved d0 u0 (P &&& aGrant grant) d1 u /\
    grant_moved (g_id grant) GrantActive (grant_status_patch GrantRevoked by_ (Some at_)) d1 d claim.

Lemma revoking_claim P grant claim by_ at_ d u :
  revoking P grant claim by_ at_ d u ->
  same_grant grant claim /\ at_grants (d_access d) !! g_id claim = Some claim /\ keyed rq_id (at_requests (d_access d)).
Proof.
  intros (d1 & Hm & (g & t & Hg & Hs & -> & -> & _)). pose proof (moved_ok _ _ Hok0 _ _ _ Hm) as Hok.
  pose proof (ok_grants _ Hok _ _ Hg) as Hid. simpl in Hid. destruct Hm as (_ & _ & _ & _ & Hk).
  split_and!; [|simpl; by rewrite lookup_insert_eq|exact (ok_requests _ Hok)].
  destruct (Hk g Hg) as (? & ? & ? & ? & ?). by split_and!.
Qed.

Lemma revoking_done P grant claim by_ at_ d u t' :
  revoking P grant claim by_ at_ d u ->
  follows claim RequestApproved RequestRevoked (at_requests (d_access d)) t' ->
  (forall s r, g_access_request_id claim = Some s -> t' !! s = Some r -> rq_status r <> RequestApproved) ->
  moved d0 u0 (P &&& aGrant claim) (put_requests t' d) u.
Proof.
  intros (d1 & Hm & (g & t & Hg & Hs & Hclaim & -> & _)) Hf Hno. pose proof (moved_ok _ _ Hok0 _ _ _ Hm) as Hok.
  pose proof (ok_grants _ Hok _ _ Hg) as Hid. simpl in Hid. rewrite <- Hid in Hg.
  assert (Hsame : same_grant g claim) by (subst claim; by split_and!).
  assert (Hmove : move (view d1 u) (set_requests t' (put_grant claim (view d1 u)))).
  { apply (MRevoke _ g); [done..|by subst claim| |].
    - unfold follows in *. by destruct Hsame as (_ & _ & _ & _ & <-).
    - by destruct Hsame as (_ & _ & _ & _ & <-). }
  assert (Hstep : forall Q : assertion, Q (view d1 u) -> Q (set_requests t' (put_grant claim (view d1 u)))).
  { intros Q. by apply (says_stable Q). }
  eapply moved_step; [exact Hm| |subst claim; exact Hmove|].
  - intros [Hfk Ha Hu]. split; [|done..]. intros k x Hx. simpl in Hx.
    destruct (follows_origin _ _ _ _ _ _ _ Hf Hx) as (r & Hr & (_ & -> & -> & _) & _). by eapply Hfk.
  - destruct Hm as (_ & _ & Hp & _). subst claim. split; [by apply Hstep|].
    split; [rewrite (proj1 Hsame); apply (stable_grant_name _ _ _ Hok Hmove), (known_grant_row g d1 u Hok Hg)|].
    simpl. rewrite lookup_insert_eq. intros g1 [= <-]. by split_and!.
Qed.

Lemma put_requests_same d : put_requests (at_requests (d_access d)) d = d.
Proof. by destruct d as [? ? ? ? ? ? ? ? []]. Qed.

Lemma moveRequestToRevoked_spec (P : assertion) grant claim by_ at_ actorId at2 note :
  txh env seen (revoking P grant claim by_ at_) (moveRequestToRevoked grant actorId at2 note)
    (fun x => moved d0 u0 (P &&& aGrant claim &&& aOption (aFollower claim) x)).
Proof.
  assert (Hstay : forall d u, revoking P grant claim by_ at_ d u ->
            (forall s r, g_access_request_id grant = Some s -> at_requests (d_access d) !! s = Some r -> rq_status r <> RequestApproved) ->
            moved d0 u0 (P &&& aGrant claim &&& aOption (aFollower claim) None) d u).
  { intros d u Hr Hno. destruct (revoking_claim _ _ _ _ _ _ _ Hr) as ((_ & _ & _ & _ & Heq) & _ & _).
    rewrite <- (put_requests_same d). eapply moved_weaken; [done|apply (revoking_done _ _ _ _ _ _ _ _ Hr); [by right|by rewrite Heq]|].
    by intros _ ?. }
  unfold moveRequestToRevoked. destruct (g_access_request_id grant) as [s|] eqn:Hs; [|apply (txh_ret env seen); intros d u Hr; by apply Hstay].
  eapply txh_bind; [apply (txh_read env seen Hsch) with (Q := fun x d u => revoking P grant claim by_ at_ d u /\ x = at_requests (d_access d) !! s); by split|].
  intros [r|]; [|apply (txh_ret env seen); intros d u [Hr Hx]; apply Hstay; [done|]; intros s' r' [= <-]; by rewrite <- Hx].
  case_bool_decide as Hst.
  { apply (txh_ret env seen). intros d u [Hr Hx]. apply Hstay; [done|]. intros s' r' [= <-]. rewrite <- Hx. by intros [= <-]. }
  eapply txh_bind; [by apply (tx_request_update env seen Hsch)|].
  intros [moved_|]; apply (txh_ret env seen); intros d u.
  - intros (d1 & [Hr Hx] & Hmv). destruct (revoking_claim _ _ _ _ _ _ _ Hr) as ((_ & _ & _ & _ & Heq) & _ & Hk).
    destruct (request_moved_same _ _ _ _ _ _ Hmv Hk) as (r0 & Hr0 & Hid & Hs0 & Hsm & Hst' & Ht & _ & _).
    pose proof (Hk _ _ (eq_sym Hx)) as Hids. simpl in Hids. assert (r0 = r) as -> by congruence.
    destruct Hmv as (r1 & t1 & Hr1 & _ & _ & -> & _). assert (r1 = r) as -> by congruence.
    eapply moved_weaken; [done|apply (revoking_done _ _ _ _ _ _ _ _ Hr)|].
    + left. exists r, moved_. split_and!; [congruence|done..].
    + intros s' r' Hs' Hr'. rewrite Heq, Hs in Hs'. injection Hs' as <-. rewrite <- Hids, lookup_insert_eq in Hr'.
      injection Hr' as <-. by rewrite Hst'.
    + intros Hok Hp. split; [exact Hp|]. split; [|split; [by destruct (decide (rq_status r = RequestApproved))|congruence]].
      split; [apply (ok_used_requests _ Hok _ moved_)|]; simpl; rewrite lookup_insert_eq; [done|by intros r2 [= <-]].
  - intros [[Hr Hx] Hno]. apply Hstay; [done|]. intros s' r' [= <-] Hr'. intros Happ. destruct (revoking_claim _ _ _ _ _ _ _ Hr) as (_ & _ & Hk).
    pose proof (Hk _ _ Hr') as Hids. simpl in Hids. rewrite <- Hx in Hr'. injection Hr' as <-. eapply Hno; [|exact Happ].
    by rewrite Hids, <- Hx.
Qed.
Lemma tx_findPending (P : assertion) apiId userId app :
  txh env seen (moved d0 u0 P) (request_findPending apiId userId app) (fun x => moved d0 u0 (P &&& aOption aRequest x)).
Proof.
  apply (txh_read env seen Hsch). intros d u Hm. eapply moved_weaken; [done|exact Hm|]. intros Hok Hp. split; [done|].
  destruct (requests_findPendingByApiAndUser _ _ _ _) as [r|] eqn:Hr; [|done].
  apply requests_findPending_some in Hr as (k & Hr & _). pose proof (ok_requests _ Hok _ _ Hr) as Hid. simpl in Hid. subst k.
  by apply known_request_row.
Qed.

Lemma cancelPendingToolRequest_spec (P : assertion) grant actor at_ ip :
  txh env seen (moved d0 u0 P) (cancelPendingToolRequest grant actor at_ ip)
    (fun x => moved d0 u0 (P &&& aOption aToolRequest x)).
Proof.
  assert (Hret : forall Q : assertion, txh env seen (moved d0 u0 (P &&& Q)) (mret None) (fun x => moved d0 u0 (P &&& aOption aToolRequest x))).
  { intros Q. apply (txh_ret env seen). intros d u Hm. eapply moved_weaken; [done|exact Hm|by intros _ [? _]]. }
  unfold cancelPendingToolRequest. eapply txh_bind; [apply tx_findPending|]. intros [p|]; [|apply Hret].
  case_bool_decide as Hg; [apply Hret|].
  eapply txh_bind; [by apply (tx_close d0 u0 Hok0 _ _ _ RequestCancelled); auto|].
  intros [r|].
  - tx_skip. apply (txh_ret env seen). intros d u Hm. eapply moved_weaken; [done|exact Hm|].
    intros _ [[Hp Hk] _]. split; [done|]. split; [done|]. simpl. congruence.
  - eapply txh_pre; [apply (Hret aTrue)|]. intros d u Hm. eapply moved_weaken; [done|exact Hm|by intros _ [[? _] _]].
Qed.

(** The grant, its request and its tool request. *)
Lemma revoke_rows {A} (P : assertion) grant actor reason at_ ip
    (k : GrantRecord -> option AccessRequestRecord -> option AccessRequestRecord -> M (option A)) (Q : option A -> assertion) :
  (forall a, P a -> aGrant grant a) -> (forall a, P a -> Q None a) ->
  (forall claim moved_ cancelled, g_id claim = g_id grant ->
     txh env seen (moved d0 u0 (P &&& aGrant claim &&& aOption (aFollower claim) moved_ &&& aOption aToolRequest cancelled))
       (k claim moved_ cancelled) (fun x => moved d0 u0 (Q x))) ->
  txh env seen (moved d0 u0 P)
    (do result <- grant_updateIfStatus (g_id grant) GrantActive
                    (grant_status_patch GrantRevoked (Some (u_id actor)) (Some at_));
     match result with
     | None => mret None
     | Some claim =>
         do movedRequest <- moveRequestToRevoked grant (u_id actor) at_ reason;
         do cancelled <- cancelPendingToolRequest grant actor at_ ip;
         k claim movedRequest cancelled
     end)
    (fun x => moved d0 u0 (Q x)).
Proof.
  intros HP HN Hk. eapply txh_bind; [by apply (tx_grant_update env seen Hsch)|]. intros [claim|].
  - apply (txh_pre _ _ (fun d u => g_id claim = g_id grant /\ revoking P grant claim (Some (u_id actor)) at_ d u)).
    + intros w u He Ht Hu [Hid Hr]. revert w u He Ht Hu Hr.
      change (txh env seen (revoking P grant claim (Some (u_id actor)) at_)
        (do movedRequest <- moveRequestToRevoked grant (u_id actor) at_ reason;
         do cancelled <- cancelPendingToolRequest grant actor at_ ip; k claim movedRequest cancelled)
        (fun x => moved d0 u0 (Q x))).
      eapply txh_bind; [apply moveRequestToRevoked_spec|]. intros movedRequest.
      eapply txh_bind; [apply cancelPendingToolRequest_spec|]. intros cancelled. by apply Hk.
    + intros d u (d1 & Hm & Hmv).
      assert (Hr : revoking P grant claim (Some (u_id actor)) at_ d u).
      { exists d1. split; [|done]. eapply moved_weaken; [done|exact Hm|]. intros _ Hp. split; [done|by apply HP]. }
      split; [|done]. exact (proj1 (proj1 (revoking_claim _ _ _ _ _ _ _ Hr))).
  - apply (txh_ret env seen). intros d u Hm. eapply moved_weaken; [done|exact Hm|]. intros _. apply HN.
Qed.
End Withdraw.

Lemma sweep_claim_spec actor grant userId reason ip at_ :
  guar env seen (aGrant grant) (fun _ => aTrue) (sweep_claim actor grant userId reason ip at_).
Proof.
  apply (guar_tx env seen Hsch). intros d0 u0 Hok0 _. apply revoke_rows; [done..|].
  intros claim moved_ cancelled _. tx_skip. apply (txh_ret env seen). intros d u Hm. by eapply moved_weaken.
Qed.

Lemma claim_revocation_spec actor grant api reason ip mode recordWithRevoke at_ :
  (forall record g, recordWithRevoke = Some record -> quiet (record g)) ->
  guar env seen (aGrant grant) (aOption (aRevocation grant))
    (claim_revocation actor grant api reason ip mode recordWithRevoke at_).
Proof.
  intros Hrec. apply (guar_tx env seen Hsch). intros d0 u0 Hok0 _.
  apply (revoke_rows d0 u0 Hok0 (aGrant grant) grant actor reason at_ ip
    (fun claim movedRequest cancelled =>
       do job <- jobs_upsertClaimed (job_input AccessJobs.Revoke (g_id grant) (g_api_id grant) (g_user_id grant)
                                       (g_application_id grant) actor) at_;
       do_ audit_record (actor_of actor) "access.revoke" (on_grant (g_id grant)) (revoke_details grant api reason mode) ip;
       do_ match recordWithRevoke with Some record => record claim | None => mret tt end;
       mret (Some {| rc_claim := claim; rc_request := movedRequest; rc_toolRequest := cancelled; rc_job := job |}))
    (aOption (aRevocation grant))); [done..|].
  intros claim moved_ cancelled Hid.
  set (P := aGrant grant &&& aGrant claim &&& aOption (aFollower claim) moved_ &&& aOption aToolRequest cancelled).
  eapply txh_bind with (R := fun job => moved d0 u0 (P &&& aJob job &&& aPure (kind job = AccessJobs.Revoke))).
  - eapply txh_conseq; [apply (tx_upsertClaimed env seen Hsch)|done|].
    + intros d u Hm. eapply ok_jobs_used, moved_ok; [done|exact Hm].
    + intros job d' u' (d & u & Hm & Hq & Hsend & Hin & -> & ->). pose proof (moved_ok _ _ Hok0 _ _ _ Hm) as Hok.
      assert (Hsub : subject job = g_id grant) by (unfold subject; by rewrite Hin).
      assert (Hkind : kind job = AccessJobs.Revoke) by (unfold kind; by rewrite Hin).
      assert (Hgrant : known_grant grant (view d u)) by apply Hm.
      assert (Hmove : move (view d u) (use (fun x => x = job_id job \/ x = job_generation job) (put_job job (view d u)))).
      { apply MQueue; [done|done|rewrite Hsub; apply Hgrant|]. rewrite Hsub. exact (proj2 (proj2 (proj1 Hgrant))). }
      eapply moved_step; [exact Hm|by intros []; split|exact Hmove|].
      split; [split; [apply (says_stable P _ _ Hok Hmove), Hm|exact (known_job_new (view d u) job)]|done].
  - intros job. tx_skip. eapply txh_then; [done| |apply moved_closed|].
    + destruct recordWithRevoke as [record|]; [by eapply Hrec|apply quiet_ret].
    + intros []. apply (txh_ret env seen). intros d u Hm. eapply moved_weaken; [done|exact Hm|].
      intros _ (((((Hg & Hc) & Hf) & Ht) & Hj) & Hkind). exact (conj (conj (conj (conj (conj Hc Hid) Hf) Ht) Hj) Hkind).
Qed.
(** *** Restoring a grant *)

Definition drop_subject (id : string) (t : AccessJobs.table) : AccessJobs.table :=
  filter (fun '(_, j) => AccessJobs.of_subject id j = false) t.

Section Restore.
Context (d0 : db) (u0 : string -> Prop) (Hok0 : workflow_ok (view d0 u0)).

(** The grant is active and its jobs gone, its request not yet back. *)
Definition restoring (P : assertion) (claim g' : GrantRecord) (d : db) (u : string -> Prop) : Prop :=
  exists d1 d2, moved d0 u0 P d1 u /\
    grant_moved (g_id claim) GrantRevoked (grant_status_patch GrantActive None None) d1 d2 g' /\
    d = with_access_jobs (drop_subject (g_id claim) (d_access_jobs d2)) d2.

Lemma restoring_done (P : assertion) claim g' d u t' :
  (forall a, P a -> aGrant claim a) -> restoring P claim g' d u ->
  follows claim RequestRevoked RequestApproved (at_requests (d_access d)) t' ->
  moved d0 u0 P (put_requests t' d) u.
Proof.
  intros HP (d1 & d2 & Hm & (g & t & Hg & Hs & Hg' & -> & Ht) & ->) Hf. pose proof (moved_ok _ _ Hok0 _ _ _ Hm) as Hok.
  pose proof (ok_grants _ Hok _ _ Hg) as Hid. simpl in Hid. rewrite <- Hid in Hg.
  assert (Hsame : same_grant claim g) by (apply (HP (view d1 u)); [apply Hm|]; by rewrite <- Hid).
  assert (Hmove : move (view d1 u)
            (set_requests t' (set_jobs (drop_subject (g_id g) (d_access_jobs d1)) (put_grant g' (view d1 u))))).
  { apply (MRestore (view d1 u) g g' t'); [done|by subst g'|done|by subst g'|done|].
    unfold follows in *. by destruct Hsame as (_ & _ & _ & _ & ->). }
  eapply moved_step; [exact Hm| |subst g'; rewrite Hid in Hmove; exact Hmove|].
  - intros [Hfk Ha Hu]. split; [|done..]. intros k x Hx. simpl in Hx.
    destruct (follows_origin _ _ _ _ _ _ _ Hf Hx) as (r & Hr & (_ & -> & -> & _) & _). by eapply Hfk.
  - subst g'. rewrite Hid in Hmove. apply (says_stable P _ _ Hok Hmove), Hm.
Qed.

Lemma tx_drop_subject P id :
  txh env seen P (jobs_deleteBySubject id)
    (fun _ d u => exists d1, P d1 u /\ d = with_access_jobs (drop_subject id (d_access_jobs d1)) d1).
Proof. apply (txh_statement env seen Hsch). intros n d u x d' Hp _ [= _ <-]. exists u. split; [by left|]. by exists d. Qed.

Lemma restoring_request (P : assertion) claim g' request :
  (forall a, P a -> aGrant claim a) -> (forall a, P a -> aOption (aFollower claim) request a) ->
  txh env seen (restoring P claim g')
    match request with
    | Some r =>
        request_updateIfStatus (rq_id r) RequestRevoked
          (decision (rq_status r) (rq_decided_by r) (rq_decided_at r) (Some (rq_decision_note r)) None)
    | None => mret None
    end
    (fun _ => moved d0 u0 P).
Proof.
  intros HP HF. assert (Hstay : forall d u, restoring P claim g' d u -> moved d0 u0 P d u).
  { intros d u Hr. rewrite <- (put_requests_same d). eapply restoring_done; [done|exact Hr|by right]. }
  destruct request as [r|]; [|by apply (txh_ret env seen)].
  eapply txh_conseq; [by apply (tx_request_update env seen Hsch (restoring P claim g'))|done|].
  intros [r'|] d u; [|intros [Hr _]; by apply Hstay].
  intros (d1 & Hr & Hmv). pose proof Hr as (d2 & d3 & Hm & (g & t & Hg & _ & _ & Hd3 & _) & Hd1).
  pose proof (moved_ok _ _ Hok0 _ _ _ Hm) as Hok.
  assert (Hfol : rq_status r = RequestApproved /\ g_access_request_id claim = Some (rq_id r)) by (apply (HF (view d2 u)), Hm).
  assert (Hk : keyed rq_id (at_requests (d_access d1))) by (subst d1 d3; exact (ok_requests _ Hok)).
  destruct (request_moved_same _ _ _ _ _ _ Hmv Hk) as (r0 & Hr0 & Hid & Hs0 & Hsm & Hst' & Ht & _ & _).
  pose proof Hmv as (r1 & t1 & Hr1 & _ & _ & -> & _). assert (r1 = r0) as -> by congruence.
  eapply restoring_done; [done|exact Hr|]. destruct Hfol as [Hap Hreq].
  left. exists r0, r'. split_and!; [by rewrite Hid|done|done| |done|done]. rewrite Hst'. exact Hap.
Qed.

(** A tool request back in its slot. *)
Lemma tx_reopen (P : assertion) request patch :
  rp_status patch = Some RequestPending -> (forall a, P a -> aToolRequest request a) ->
  txh env seen (moved d0 u0 P) (request_updateIfStatus (rq_id request) RequestCancelled patch) (fun _ => moved d0 u0 P).
Proof.
  intros Hst HP. apply (tx_decide env seen Hsch d0 u0 Hok0 P _ _ _ (fun _ => P) _ Hst); [|done].
  intros a r r' Hok Hp Hid Hd Hst' Ht.
  assert (Hmove : move a (put_request r' a)).
  { apply (MReopen a r r' Hd Hst'); [|done]. destruct (HP a Hp) as [[_ Hk] Hg]. destruct Hd as (Hr & _).
    rewrite Hid in Hr. by destruct (Hk r Hr) as (_ & _ & _ & _ & ->). }
  split; [done|]. by apply (says_stable P a).
Qed.

Lemma restoreRefusal_quiet grant : quiet (restoreRefusal grant).
Proof. unfold restoreRefusal. apply quiet_bind; [apply (quiet_read (fun d => users_findById (g_user_id grant) (d_users d)))|]. prove_quiet. Qed.
#[local] Hint Resolve restoreRefusal_quiet : access.

Definition aRestorable (c : GrantRecord) (request toolRequest : option AccessRequestRecord) : assertion :=
  aGrant c &&& aOption (aFollower c) request &&& aOption aToolRequest toolRequest.

Lemma restoreRevoked_spec claim request toolRequest groupPresent :
  let P := aRestorable claim request toolRequest in
  txh env seen (moved d0 u0 P) (restoreRevoked claim request toolRequest groupPresent) (fun _ => moved d0 u0 P).
Proof.
  intros P. tx_skip as [current|]; [|by apply (txh_ret env seen)].
  destruct (negb (carries_claim claim current)); [by apply (txh_ret env seen)|].
  tx_skip as [skip|]; [by apply (txh_ret env seen)|]. destruct (negb groupPresent); [by apply (txh_ret env seen)|].
  eapply txh_bind; [by apply (tx_grant_update env seen Hsch)|]. intros [g'|]; [|by apply (txh_ret env seen)].
  eapply txh_bind; [apply tx_drop_subject|]. intros dropped.
  eapply txh_bind with (R := fun _ => moved d0 u0 P).
  { eapply txh_pre; [apply (restoring_request P claim g' request)|]; [by intros a [[? _] _]|by intros a [[_ ?] _]|].
    intros d u (d2 & (d1 & Hm & Hmv) & ->). by exists d1, d2. }
  intros back. eapply txh_bind with (R := fun _ => moved d0 u0 P); [|intros tool; by apply (txh_ret env seen)].
  destruct toolRequest as [t|]; [|by apply (txh_ret env seen)].
  unfold restoreToolRequest. tx_skip as [row|]; [|by apply (txh_ret env seen)].
  destruct (negb _); [by apply (txh_ret env seen)|]. tx_skip as [recovery|]; [by apply (txh_ret env seen)|].
  tx_skip as [occupied|]; [by apply (txh_ret env seen)|].
  eapply txh_bind; [apply (tx_reopen P t); [done|by intros a [_ ?]]|]. intros moved_. by apply (txh_ret env seen).
Qed.
End Restore.

Lemma restore_body_spec (c : revocation_claim) actor details cause ip rollbackId groupPresent :
  let P := aRestorable (rc_claim c) (rc_request c) (rc_toolRequest c) in
  guar env seen P (fun _ => aTrue)
    (transaction (do outcome <- restore_claim c groupPresent;
                  audit_record_as rollbackId actor "access.revoke_rollback" details (rollback_details (rc_claim c) cause outcome) ip)).
Proof.
  intros P. eapply guar_no_result with (Q := fun _ => P). apply (guar_tx env seen Hsch). intros d0 u0 Hok0 _.
  eapply txh_bind; [by apply restoreRevoked_spec|]. intros outcome.
  apply (txh_quietly env seen Hsch); [apply audit_record_as_quiet|apply moved_closed|done].
Qed.

Lemma restore_alone_spec (c : revocation_claim) groupPresent :
  let P := aRestorable (rc_claim c) (rc_request c) (rc_toolRequest c) in
  guar env seen P (fun _ => aTrue) (transaction (restore_claim c groupPresent)).
Proof.
  intros P. eapply guar_no_result with (Q := fun _ => P). apply (guar_tx env seen Hsch). intros d0 u0 Hok0 _.
  by apply restoreRevoked_spec.
Qed.
(** *** Settling the job of a decision *)

Lemma recover_tx_spec job actor action target details ip :
  kind job = AccessJobs.Revoke ->
  guar env seen (aJob job) (fun _ => aTrue)
    (transaction (do deleted <- jobs_deleteClaimed job;
                  if negb deleted then mret false
                  else do_ audit_record actor action target details ip; mret true)).
Proof.
  intros Hkind. apply (guar_tx env seen Hsch). intros d0 u0 Hok0 _.
  eapply txh_bind; [apply (tx_done env seen Hsch d0 u0 Hok0 (aJob job) job (fun _ => True)); [done|congruence|done]|].
  intros []; simpl; [tx_skip|]; apply (txh_ret env seen); intros d u Hm; by eapply moved_weaken.
Qed.

Lemma jobs_deleteClaimed_spec job :
  guar env seen (aJob job &&& aIf (kind job = AccessJobs.Approve) (aKept job)) (fun _ => aTrue) (jobs_deleteClaimed job).
Proof.
  apply (guar_statement env seen Hsch). intros n d u x d' Hok Hr [Hj Hk] _ H.
  destruct (AccessJobs.deleteClaimed _ _) as [q b] eqn:Hd. injection H as <- <-. exists u. destruct b.
  - destruct (deleteClaimed_holds job (d_access_jobs d) q (view d u)) as [Hh ->]; [done..|].
    split_and!; [|by destruct Hr|done|by left]. apply rtc_once, (MDone (view d u) job Hh).
    intros Hkind. by apply (Hk Hkind).
  - apply deleteClaimed_spec in Hd as [[? _]|[_ ->]]; [done|]. split_and!; [by destruct d|by destruct Hr|done|by left].
Qed.

Lemma jobs_reschedule_spec P job next error : guar env seen P (fun _ => aTrue) (jobs_reschedule job next error).
Proof.
  apply (guar_statement env seen Hsch). intros n d u x d' Hok Hr _ _ H.
  pose proof (fun used => bookkeeping_reschedule used job next error (t_now (env n)) (d_access_jobs d)) as Hb.
  destruct (AccessJobs.reschedule _ _ _ _ _) as [q b]. injection H as <- <-. simpl in Hb.
  exists (fun y => u y \/ exists k j, q !! k = Some j /\ job_generation j = y).
  split_and!; [apply rtc_once, (MJobs (view d u) q (Hb u))|by destruct Hr|done|].
  intros y [Hy|(k & j & Hj & <-)]; [by left|].
  left. destruct (proj1 (Hb (fun _ => True)) k j Hj) as (j0 & Hj0 & _ & _ & [[-> _]|Hn]); [|done].
  exact (proj1 (proj2 (ok_used_jobs _ Hok _ _ Hj0))).
Qed.

Lemma settleOwnedJob_spec job done_ cause :
  guar env seen (aJob job &&& aIf (kind job = AccessJobs.Approve /\ done_ = true) (aKept job)) (fun _ => aTrue)
    (settleOwnedJob (Some job) done_ cause).
Proof.
  apply (guar_catch env seen); [|intros e; by apply (guar_ret env seen)].
  apply (guar_skip env seen); [|intros b; by apply (guar_ret env seen)]. destruct done_.
  - eapply guar_pre; [apply jobs_deleteClaimed_spec|]. intros a [Hj Hk]. split; [done|]. intros Hkind. by apply Hk.
  - apply (guar_skip env seen); [apply guar_date_now|]. intros now. apply jobs_reschedule_spec.
Qed.

(** The claim is dropped, its request not yet settled. *)
Definition settling (d0 : db) (u0 : string -> Prop) (P : assertion) (job : AccessJobs.Job)
    (d : db) (u : string -> Prop) : Prop :=
  exists d1, moved d0 u0 P d1 u /\ holds_job (d_access_jobs d1) job /\
             d = with_access_jobs (delete (job_id job) (d_access_jobs d1)) d1.

Lemma settling_done d0 u0 (P : assertion) job d u :
  settling d0 u0 P job d u -> (kind job = AccessJobs.Approve -> ~ unkept (view d u) (subject job)) ->
  moved d0 u0 aTrue d u.
Proof.
  intros (d1 & Hm & Hh & ->) Hn. eapply moved_step; [exact Hm|by intros []; split| |done].
  by apply (MDone (view d1 u) job).
Qed.

Lemma settling_request d0 u0 (Hok0 : workflow_ok (view d0 u0)) (P : assertion) job request patch status :
  approval_of job (rq_id request) -> (forall a, P a -> aJob job a) ->
  rp_status patch = Some status -> status = RequestPending \/ status = RequestCancelled ->
  txh env seen (settling d0 u0 P job) (request_updateIfStatus (rq_id request) RequestApproved patch)
    (fun _ => moved d0 u0 aTrue).
Proof.
  intros [Hkind Hsub] HP Hst Hs.
  eapply txh_conseq; [by eapply (tx_request_update env seen Hsch (settling d0 u0 P job)), status_columns|done|].
  intros [r'|] d u.
  - intros (d1 & (d2 & Hm & Hh & ->) & Hmv). pose proof (moved_ok _ _ Hok0 _ _ _ Hm) as Hok.
    destruct (request_moved_same _ _ _ _ _ _ Hmv (ok_requests _ Hok)) as (r & Hr & Hid & Hs0 & Hsm & Hst' & Ht & Href & Hv).
    rewrite Hst in Hst'. simpl in Hst'.
    assert (Hm1 : moved d0 u0 aTrue (put_requests (<[rq_id r := r']> (at_requests (d_access d2))) d2) u).
    { eapply moved_step; [exact Hm| | |done].
      - intros Hrefs. by eapply put_requests_references.
      - rewrite <- (proj1 Hsm). apply (MRelease (view d2 u) job r r'); [done..|congruence|by split_and!|by rewrite Hst'|done]. }
    destruct Hmv as (r1 & t1 & Hr1 & _ & Hr' & -> & _). assert (r1 = r) as -> by (simpl in *; congruence).
    eapply moved_step; [exact Hm1|by intros []; split| |done]. rewrite <- (proj1 Hsm).
    apply (MDone (put_request r' (view d2 u)) job); [done|]. intros _ (r2 & Hr2 & Hst2 & _). simpl in Hr2.
    rewrite Hsub, <- Hid, <- (proj1 Hsm), lookup_insert_eq in Hr2. injection Hr2 as <-. rewrite Hst' in Hst2. by destruct Hs; subst.
  - intros [Hset Hno]. apply (settling_done _ _ _ _ _ _ Hset). rewrite Hsub. intros _ (r & Hr & Hap & _). by eapply Hno.
Qed.

(** The request of an approval, at the end of the recovery. *)
Lemma settle_recovered_spec job request plan details :
  approval_of job (rq_id request) ->
  guar env seen (aJob job &&& aIf (plan = Kept \/ plan = NoChange) (aKept job)) (fun _ => aTrue)
    (settle_recovered job request plan details).
Proof.
  intros Hof. set (P := aJob job &&& aIf (plan = Kept \/ plan = NoChange) (aKept job)).
  apply (guar_tx env seen Hsch). intros d0 u0 Hok0 _.
  eapply txh_bind; [apply (tx_deleteClaimed env seen Hsch (moved d0 u0 P)); by intros d u (_ & _ & Hj & _)|].
  intros []; simpl; [|apply (txh_ret env seen); intros d u Hm; by eapply moved_weaken].
  eapply txh_bind with (R := fun occupied d u => settling d0 u0 P job d u /\ (plan <> Release -> occupied = None)).
  { destruct plan; try (apply (txh_ret env seen); by intros d u Hs; split).
    apply (txh_read env seen Hsch). by intros d u Hs. }
  intros occupied.
  assert (Hkept : forall d u, settling d0 u0 P job d u -> (plan <> Release -> occupied = None) ->
            occupied_settlement plan request occupied = Kept \/ occupied_settlement plan request occupied = NoChange ->
            moved d0 u0 aTrue d u).
  { intros d u Hs Hn Ho. apply (settling_done _ _ _ _ _ _ Hs). intros _. destruct Hs as (d1 & (_ & _ & _ & Hk) & Hh & ->).
    assert (Hplan : plan = Kept \/ plan = NoChange).
    { unfold occupied_settlement in Ho. destruct occupied as [o|]; [|done]. case_bool_decide; [by destruct Ho|done]. }
    exact (proj2 (Hk Hplan) Hh). } eapply txh_bind with (R := fun _ => moved d0 u0 aTrue); [|intros m; tx_skip; by apply (txh_ret env seen)].
  destruct (occupied_settlement plan request occupied) eqn:Ho.
  - eapply txh_pre; [by apply (settling_request d0 u0 Hok0 P job request _ RequestPending Hof); [intros a []|auto..]|by intros d u []].
  - eapply txh_pre; [by apply (settling_request d0 u0 Hok0 P job request _ RequestCancelled Hof); [intros a []|auto..]|by intros d u []].
  - apply (txh_ret env seen). intros d u [Hs Hn]. apply (Hkept d u Hs Hn); auto.
  - apply (txh_ret env seen). intros d u [Hs Hn]. apply (Hkept d u Hs Hn); auto.
Qed.
(** *** Reads *)

Lemma harmless_transaction {A} (m : M A) : quiet m -> harmless env seen (transaction m).
Proof.
  intros Hq P. eapply guar_no_result with (Q := fun _ => P). apply (guar_tx env seen Hsch). intros d0 u0 _ _.
  by apply (txh_quietly env seen Hsch); [|apply moved_closed|].
Qed.

Lemma request_find_spec P id :
  guar env seen P (aOption (fun r => aRequest r &&& aPure (rq_id r = id))) (request_find id).
Proof.
  apply (guar_read env seen Hsch). intros d u Hok _ _. unfold requests_findById. destruct (_ !! id) as [r|] eqn:Hr; [|done].
  pose proof (ok_requests _ Hok _ _ Hr) as Hid. simpl in Hid. subst id. split; [by apply known_request_row|done].
Qed.

Lemma grant_find_spec P id : guar env seen P (aOption (fun g => aGrant g &&& aPure (g_id g = id))) (grant_find id).
Proof.
  apply (guar_read env seen Hsch). intros d u Hok _ _. unfold grants_findById. destruct (_ !! id) as [g|] eqn:Hg; [|done].
  pose proof (ok_grants _ Hok _ _ Hg) as Hid. simpl in Hid. subst id. split; [by apply known_grant_row|done].
Qed.

Lemma apis_find_spec P id : guar env seen P (aOption (fun a => aPure (api_id a = id))) (apis_find id).
Proof.
  apply (guar_read env seen Hsch). intros d u _ [_ Ha _] _. destruct (_ !! id) as [a|] eqn:Hr; [|done]. exact (Ha _ _ Hr).
Qed.

Lemma users_find_spec P id : guar env seen P (aOption (fun x => aPure (u_id x = id))) (users_find id).
Proof.
  apply (guar_read env seen Hsch P (aOption (fun x => aPure (u_id x = id))) (fun d => users_findById id (d_users d))).
  intros d u _ [_ _ Hu] _. unfold users_findById. destruct (_ !! id) as [x|] eqn:Hr; [|done]. exact (Hu _ _ Hr).
Qed.

Lemma listActive_spec P userId :
  guar env seen P (fun l => aEach (fun g => aIf (g ∈ l) (aGrant g))) (grant_listActiveByUser userId).
Proof.
  apply (guar_read env seen Hsch). intros d u Hok _ _ g (k & Hg & _)%rows_where_spec.
  pose proof (ok_grants _ Hok _ _ Hg) as Hid. simpl in Hid. subst k. by apply known_grant_row.
Qed.

(** What is found about the subject of an approval. *)
Section Job.
Context (job : AccessJobs.Job) (Hkind : kind job = AccessJobs.Approve).

Lemma findActive_job (P : assertion) apiId userId app :
  (forall a, P a -> aJob job a) ->
  guar env seen P (aOption (fun g => aIf (g_access_request_id g = Some (subject job)) (aKept job)))
    (grant_findActive apiId userId app).
Proof.
  intros HP. apply (guar_read env seen Hsch). intros d u Hok _ Hp. destruct (grants_findActiveByApiAndUser _ _ _ _) as [g|] eqn:Hg; [|done].
  apply grants_findActive_some in Hg as (k & Hg & _ & _ & _ & Hs). intros Heq. apply kept_promised; [by apply HP|].
  by exists k, g.
Qed.

Lemma request_of_job (P : assertion) :
  (forall a, P a -> aJob job a) ->
  guar env seen P
    (fun row => match row with
                | None => aKept job
                | Some r => aRequest r &&& aPure (rq_id r = subject job)
                            &&& aIf (rq_status r <> RequestApproved \/ rq_grant_id r <> None) (aKept job)
                end)
    (request_find (subject job)).
Proof.
  intros HP. apply (guar_read env seen Hsch). intros d u Hok _ Hp. specialize (HP _ Hp). unfold requests_findById.
  destruct (_ !! subject job) as [r|] eqn:Hr.
  - pose proof (ok_requests _ Hok _ _ Hr) as Hid. simpl in Hid. rewrite <- Hid in Hr.
    split; [split; [by apply known_request_row|done]|]. intros Hno. apply kept_request; [done|]. simpl. rewrite <- Hid, Hr.
    intros r1 [= <-] ? Hf. by destruct Hno.
  - apply kept_request; [done|]. simpl. by rewrite Hr.
Qed.

(** A request references its API and its user. *)
Lemma kept_unreferenced d u :
  workflow_ok (view d u) -> references_ok d -> known_job job (view d u) ->
  at_apis (d_access d) !! AccessJobs.in_api_id (AccessJobs.ag_input job) = None \/
  d_users d !! AccessJobs.in_user_id (AccessJobs.ag_input job) = None ->
  kept job (view d u).
Proof.
  intros Hok [Hrefs _ _] Hk Hno. apply holds_kept; [done|]. intros (j & Hj & _ & _ & Hin).
  apply kept_request; [done|]. intros r Hr _ _. simpl in Hr, Hj. destruct (Hrefs _ _ Hr) as [[a Ha] [x Hx]].
  assert (Hji : rq_identity r = job_identity job).
  { unfold job_identity. rewrite <- Hin. apply (ok_job_identity _ Hok _ j r Hj); [unfold kind in *; by rewrite Hin|].
    unfold subject in *. by rewrite Hin. }
  unfold rq_identity, job_identity, identity_of in Hji. injection Hji as Ha' Hu' _.
  destruct Hno; [rewrite Ha' in Ha|rewrite Hu' in Hx]; congruence.
Qed.

Lemma api_of_job (P : assertion) : (forall a, P a -> aJob job a) ->
  guar env seen P (fun x => aIf (x = None) (aKept job)) (apis_find (AccessJobs.in_api_id (AccessJobs.ag_input job))).
Proof.
  intros HP. apply (guar_read env seen Hsch). intros d u Hok Hrefs Hp Hno. apply kept_unreferenced; auto. by apply HP.
Qed.
Lemma user_of_job (P : assertion) : (forall a, P a -> aJob job a) ->
  guar env seen P (fun x => aIf (x = None) (aKept job)) (users_find (AccessJobs.in_user_id (AccessJobs.ag_input job))).
Proof.
  intros HP. apply (guar_read env seen Hsch P (fun x => aIf (x = None) (aKept job))
    (fun d => users_findById (AccessJobs.in_user_id (AccessJobs.ag_input job)) (d_users d))).
  intros d u Hok Hrefs Hp Hno. apply kept_unreferenced; auto. by apply HP.
Qed.
End Job.
End Transactions.
