(* ===== verification/AccessPrograms.v ===== *)
(** * The programs of the access workflow

    Every operation of [server/src/access/service.ts] in the logic of
    [AccessLogic]: it only makes moves, whatever the gateway answers and
    wherever a statement fails. *)

From S2P Require Import Prelude Json Roles Leases ClaimQueue Users JobQueues AuditLog AccessTables AccessWorkflow World AccessStore LeaseFence KeyedSerializer Provisioner AccessDecisions GatewayJobWorker AccessRevocation AccessApproval AccessRequests AccessLogic AccessTransactions.
Open Scope Z_scope.

(** The gateway's client, the catalog's read rules, the notices and the joins
    leave the three tables alone. *)
Class Outsiders (env : nat -> turn) (seen : nat -> string -> Prop) `{EdgeClient} `{AccessDeps} : Prop := {
  out_verification : forall id subject, harmless env seen (edge_verification id subject);
  out_replace : forall id consumer subject etag, harmless env seen (edge_replace id consumer subject etag);
  out_get : forall id confirm, harmless env seen (edge_get id confirm);
  out_ensure : forall username customId userId, harmless env seen (edge_ensure username customId userId);
  out_canViewApi : forall user api, harmless env seen (canViewApi user api);
  out_canReadApiSummary : forall user api, harmless env seen (canReadApiSummary user api);
  out_notify : forall user kind title body link, harmless env seen (notify user kind title body link);
  out_enqueueMail : forall user template vars, harmless env seen (enqueueMail user template vars);
  out_decorate : forall user, harmless env seen (decorate user);
}.
#[export] Hint Resolve out_verification out_replace out_get out_ensure out_canViewApi out_canReadApiSummary
  out_notify out_enqueueMail out_decorate : access.

(** Step over what only reads, checks or talks to the outside. *)
Tactic Notation "skip" "as" simple_intropattern(x) :=
  eapply harmless_guard; [solve [prove_harmless]|intros x].
Tactic Notation "skip" := skip as ?.

Ltac harmlessly :=
  lazymatch goal with
  | |- guar ?env ?seen _ _ ?m => let Hm := fresh in assert (Hm : harmless env seen m) by prove_harmless; apply Hm
  end.

Section Programs.
Context (env : nat -> turn) (seen : nat -> string -> Prop) (Hsch : access_schedule env seen).
Context `{EdgeClient} `{AccessDeps} `{!Outsiders env seen}.

Lemma consumer_create_harmless userId applicationId consumer :
  harmless env seen (transaction (consumer_create userId applicationId consumer)).
Proof.
  apply (harmless_transaction env seen Hsch), quiet_statement. intros t d x d' H1. cbv zeta in H1.
  match type of H1 with match ?found with _ => _ end = _ => destruct found as [[row d1]|] eqn:Hc end; [|done].
  injection H1 as <- <-. apply map_conflict_ok in Hc as (_ & _ & [= -> ->]). by split_and!.
Qed.
#[local] Hint Resolve consumer_create_harmless : access.

Lemma ensureConsumer_harmless user applicationId : harmless env seen (ensureConsumer user applicationId).
Proof. unfold ensureConsumer, assertApplicationUsable. prove_harmless. Qed.
#[local] Hint Resolve ensureConsumer_harmless : access.

Definition outcome_says {G X Y} (GA : G -> assertion) (XA : X -> assertion) (o : acl_outcome G X Y) : assertion :=
  match o with
  | AclInactive => aTrue
  | AclSkipped x => XA x
  | AclAbsent g | AclUnchanged g _ | AclWritten g _ _ _ => GA g
  end.

Lemma mutateAclGroups_spec {G X Y} (P : assertion) (GA : G -> assertion) (XA : X -> assertion) id change subject
    (options : MutateAclGroupsOptions G X Y) :
  guar env seen P (fun r => match r with inl g => GA g | inr x => XA x end) (guard options) ->
  (forall after consumer, afterWrite options = Some after -> guar env seen P (fun _ => aTrue) (after consumer)) ->
  guar env seen P (outcome_says GA XA) (mutateAclGroups id change subject options).
Proof.
  intros Hg Ha. unfold mutateAclGroups. apply (guar_locks env seen Hsch). skip as active.
  destruct (negb active); [destruct (skipInactiveUser options); [by apply (guar_ret env seen)|apply (guar_throw env seen)]|].
  skip as snapshot. eapply guar_bind; [exact Hg|]. intros [g|x]; [|apply (guar_ret env seen); by intros a _ [_ ?]].
  destruct snapshot as [[current etag]|].
  - destruct (_ && _).
    + skip as c. apply (guar_ret env seen). by intros a _ [_ ?].
    + skip as written. destruct (afterWrite options) as [after|] eqn:Hafter.
      * apply (guar_skip env seen); [eapply guar_pre; [by apply Ha|by intros a [? _]]|].
        intros y. apply (guar_ret env seen). by intros a _ [_ ?].
      * apply (guar_ret env seen). by intros a _ [_ ?].
  - destruct (absentIsDone options); [|apply (guar_throw env seen)]. apply (guar_ret env seen). by intros a _ [_ ?].
Qed.

Lemma setGroupMembership_spec {X Y} (P : assertion) (XA : X -> assertion) user apiId present applicationId
    (guard_ : M (unit + X)) (after : option (EdgeConsumer -> M Y)) absentIsDone_ tools :
  guar env seen P (fun r => match r with inl _ => aTrue | inr x => XA x end) guard_ ->
  (forall f consumer, after = Some f -> guar env seen P (fun _ => aTrue) (f consumer)) ->
  guar env seen P (aOption (outcome_says (fun _ => aTrue) XA))
    (setGroupMembership user apiId present applicationId guard_ after absentIsDone_ tools).
Proof.
  intros Hg Ha. unfold setGroupMembership. skip as api. skip as [c|]; [|by apply (guar_ret env seen)].
  eapply guar_bind; [apply (mutateAclGroups_spec P (fun _ => aTrue) XA)|]; [exact Hg|exact Ha|].
  intros o. apply (guar_ret env seen). by intros a _ [_ ?].
Qed.

Lemma mutateAclGroups_harmless {G X Y} id change subject (options : MutateAclGroupsOptions G X Y) :
  harmless env seen (guard options) ->
  (forall after consumer, afterWrite options = Some after -> harmless env seen (after consumer)) ->
  harmless env seen (mutateAclGroups id change subject options).
Proof.
  intros Hg Ha P. eapply guar_no_result, (mutateAclGroups_spec P (fun _ => aTrue) (fun _ => aTrue)).
  - eapply guar_conseq; [apply Hg|done|by intros []].
  - intros after consumer Hafter. by apply Ha.
Qed.

Lemma setGroupMembership_harmless {X Y} user apiId present applicationId (guard_ : M (unit + X)) absentIsDone_ tools :
  harmless env seen guard_ ->
  harmless env seen (setGroupMembership (Y := Y) user apiId present applicationId guard_ None absentIsDone_ tools).
Proof.
  intros Hg P. eapply guar_no_result, setGroupMembership_spec with (XA := fun _ => aTrue); [|done].
  eapply guar_conseq; [apply Hg|done|by intros []].
Qed.

(** ** Notices *)

Lemma announce_harmless recipient type title body link templateKey vars :
  harmless env seen (announce recipient type title body link templateKey vars).
Proof. unfold announce. prove_harmless. Qed.
#[local] Hint Resolve announce_harmless : access.
Lemma announce_approved_harmless actor requester api title body note :
  harmless env seen (announce_approved actor requester api title body note).
Proof. apply announce_harmless. Qed.
Lemma announce_revoked_harmless actor grantee api reason : harmless env seen (announce_revoked actor grantee api reason).
Proof. apply announce_harmless. Qed.
Lemma announce_denied_harmless actor requester api r note : harmless env seen (announce_denied actor requester api r note).
Proof. unfold announce_denied. prove_harmless. Qed.
#[local] Hint Resolve announce_approved_harmless announce_revoked_harmless announce_denied_harmless : access.

Lemma audit_record_harmless actor action target details ip :
  harmless env seen (audit_record actor action target details ip).
Proof.
  apply (harmless_statement env seen Hsch). intros t d x d' H1. destruct (auditLogs_create _ _) as [[]|]; [|done].
  injection H1 as <- <-. by split_and!.
Qed.
#[local] Hint Resolve audit_record_harmless : access.

Lemma stillOwned_harmless job : harmless env seen (stillOwned job).
Proof. unfold stillOwned. prove_harmless. Qed.
#[local] Hint Resolve stillOwned_harmless : access.

Lemma validateToolSubset_harmless api tools : harmless env seen (validateToolSubset api tools).
Proof. unfold validateToolSubset. prove_harmless. Qed.
Lemma assertCanReview_harmless actor api : harmless env seen (assertCanReview actor api).
Proof. unfold assertCanReview. prove_harmless. Qed.
Lemma checkedJustification_harmless justification : harmless env seen (checkedJustification justification).
Proof. unfold checkedJustification. prove_harmless. Qed.
#[local] Hint Resolve validateToolSubset_harmless assertCanReview_harmless checkedJustification_harmless : access.
(** ** The job of an approval *)

(** The grant found on the identity is the one the request was promised. *)
Definition aHolder (job : AccessJobs.Job) (holder : option GrantRecord) : assertion :=
  aOption (fun g => aIf (g_access_request_id g = Some (subject job)) (aKept job)) holder.

Section Approval.
Context (job : AccessJobs.Job) (requestId : string) (Hof : approval_of job requestId).

Lemma reconcileGroups_spec requester api applicationId :
  guar env seen (aJob job) (fun r => aHolder job (rec_live r)) (reconcileGroups requester api applicationId).
Proof.
  set (readLive := do live <- grant_findActive (api_id api) (u_id requester) applicationId;
                   do user <- users_find (u_id requester); mret (live, is_active_account user)).
  assert (Hlive : guar env seen (aJob job) (fun seen_ => aHolder job seen_.1) readLive).
  { eapply guar_bind; [by apply (findActive_job env seen Hsch job)|]. intros live. skip as user.
    apply (guar_ret env seen). by intros a _ [_ ?]. }
  unfold reconcileGroups. fold readLive. skip as [c|].
  - eapply guar_bind; [apply (mutateAclGroups_spec _ (fun seen_ => aHolder job seen_.1) (fun _ => aTrue))|].
    + eapply guar_bind; [exact Hlive|]. intros seen_. apply (guar_ret env seen). by intros a _ [_ ?].
    + done.
    + intros o. apply (guar_ret env seen). intros a _ [_ Ho]. by destruct o.
  - eapply guar_bind; [exact Hlive|]. intros seen_. apply (guar_ret env seen). by intros a _ [_ ?].
Qed.

Lemma unless_granted_spec apiId userId applicationId :
  guar env seen (aJob job) (fun r => match r with inl _ => aTrue | inr g => aHolder job (Some g) end)
    (unless_granted apiId userId applicationId).
Proof.
  eapply guar_bind; [by apply (findActive_job env seen Hsch job)|]. intros [g|]; apply (guar_ret env seen); by intros a _ [_ ?].
Qed.

(** [true] says that nothing is owed to the request any more. *)
Definition aSettled (r : bool * list (string * json)) : assertion := aIf (r.1 = true) (aKept job).

Lemma release_request_spec patch status field :
  rp_status patch = Some status -> status = RequestPending \/ status = RequestCancelled ->
  guar env seen (aJob job) aSettled (release_request job requestId patch field).
Proof.
  intros Hst Hs. unfold release_request. eapply guar_bind.
  - apply (guar_attempt env seen). by apply (settleOwnRequest_spec env seen Hsch job requestId patch status).
  - intros [o|e]; apply (guar_ret env seen); by intros a _ [_ ?] [=].
Qed.

Lemma unwind_unheld_spec api requester groupAdded applicationId :
  guar env seen (aJob job) aSettled (unwind_unheld api requester requestId groupAdded applicationId job).
Proof.
  unfold unwind_unheld.
  eapply guar_bind with (R := fun r => aHolder job r.1.2).
  - destruct groupAdded as [group|]; [|by apply (guar_ret env seen)]. eapply guar_bind.
    + apply (guar_attempt env seen), setGroupMembership_spec with (XA := fun g => aHolder job (Some g)); [apply unless_granted_spec|done].
    + intros [[[ | | | | ]|]|e]; apply (guar_ret env seen); by intros a _ [_ ?].
  - intros [[settled [g|]] details]; simpl.
    + apply (guar_ret env seen). intros a _ [_ Hg] Htrue. simpl in Htrue. bool_to_prop. apply Hg.
      by rewrite (proj2 Hof).
    + eapply guar_bind; [eapply guar_pre; [by apply (release_request_spec _ RequestPending); auto|by intros a [? _]]|].
      intros released. apply (guar_ret env seen). intros a _ [_ Hr] Htrue. simpl in Htrue. bool_to_prop. by apply Hr.
Qed.

Lemma unwindApproval_spec actor api requester groupAdded applied applicationId cause ip :
  guar env seen (aJob job) (fun settled => aIf (settled = true) (aKept job))
    (unwindApproval actor api requester requestId groupAdded applied applicationId job cause ip).
Proof.
  unfold unwindApproval, or_null. eapply guar_bind.
  - apply (guar_catch env seen); [by apply (findActive_job env seen Hsch job)|]. intros e. by apply (guar_ret env seen).
  - intros live. eapply guar_bind with (R := aSettled).
    + destruct live as [g|].
      * apply (guar_ret env seen). intros a _ [_ Hg] Htrue. simpl in Htrue. bool_to_prop. apply Hg. by rewrite (proj2 Hof).
      * eapply guar_pre; [apply unwind_unheld_spec|by intros a [? _]].
    + intros outcome. skip. apply (guar_ret env seen). by intros a _ [_ ?].
Qed.
Lemma approval_guard_harmless api requester request refused :
  harmless env seen (approval_guard job api requester request refused).
Proof. unfold approval_guard. prove_harmless. Qed.

Lemma write_approval_spec {A} (P : assertion) requester api request guard_ (commit : M A) tools :
  harmless env seen guard_ -> guar env seen P (fun _ => aTrue) commit ->
  guar env seen P (fun _ => aTrue) (write_approval requester api request guard_ commit tools).
Proof.
  intros Hg Hc. unfold write_approval. skip. eapply guar_no_result.
  apply setGroupMembership_spec with (XA := fun _ => aTrue).
  - eapply guar_conseq; [apply Hg|done|by intros []].
  - intros f consumer [= <-]. skip. exact Hc.
Qed.

(** What is left of a job that could not be finished. *)
Lemma settle_undone cause : guar env seen (aJob job) (fun _ => aTrue) (settleOwnedJob (Some job) false cause).
Proof. eapply guar_pre; [apply (settleOwnedJob_spec env seen Hsch)|]. intros a Hj. split; [done|by intros [_ ?]]. Qed.

Lemma possibly_applied_harmless cause : harmless env seen (possibly_applied cause).
Proof. unfold possibly_applied. prove_harmless. Qed.
#[local] Hint Resolve possibly_applied_harmless approval_guard_harmless : access.

Lemma finish_approval_spec actor request api requester tools ip :
  rq_id request = requestId ->
  job_identity job = identity_of (api_id api) (u_id requester) (rq_application_id request) ->
  guar env seen (aJob job) (fun _ => aTrue) (finish_approval actor request api requester tools job ip).
Proof.
  intros Hid Hident. unfold finish_approval. eapply guar_bind.
  - apply (guar_attempt env seen), write_approval_spec; [auto with access|]. apply (commit_grant_spec env seen Hsch); [by rewrite Hid|done].
  - intros [[[ | [] | | |? ? ? [grant|]]|]|cause]; try apply (guar_throw env seen); [| |].
    + apply (guar_skip env seen); [eapply guar_pre; [apply settle_undone|by intros a [? _]]|].
      intros []. apply (guar_throw env seen).
    + by apply (guar_ret env seen).
    + skip as applied. rewrite Hid. eapply guar_bind; [eapply guar_pre; [apply unwindApproval_spec|by intros a [? _]]|].
      intros settled. apply (guar_skip env seen); [|intros []; apply (guar_throw env seen)].
      eapply guar_pre; [apply (settleOwnedJob_spec env seen Hsch)|]. intros a [[Hj _] Hs]. split; [done|]. intros [_ Ht]. by apply Hs.
Qed.
(** *** More tools on a grant: the request is owed nothing *)

Lemma unless_granted_harmless apiId userId applicationId : harmless env seen (unless_granted apiId userId applicationId).
Proof. unfold unless_granted. prove_harmless. Qed.
#[local] Hint Resolve unless_granted_harmless : access.

Lemma reconcileGroups_harmless requester api applicationId :
  harmless env seen (reconcileGroups requester api applicationId).
Proof.
  unfold reconcileGroups. apply harmless_bind; [prove_harmless|]. intros [c|]; [|prove_harmless].
  apply harmless_bind; [|prove_harmless]. apply mutateAclGroups_harmless; [simpl; prove_harmless|done].
Qed.

Lemma unwind_all_groups_harmless api requester request : harmless env seen (unwind_all_groups api requester request).
Proof.
  unfold unwind_all_groups. apply harmless_bind; [|prove_harmless].
  apply harmless_attempt, setGroupMembership_harmless, unless_granted_harmless.
Qed.

Lemma unwind_added_groups_harmless api requester request added uncovered :
  harmless env seen (unwind_added_groups api requester request added uncovered).
Proof.
  unfold unwind_added_groups. apply harmless_bind; [|prove_harmless]. apply harmless_attempt.
  apply harmless_bind; [prove_harmless|]. intros [c|]; [|prove_harmless].
  apply harmless_bind; [|prove_harmless]. apply mutateAclGroups_harmless; [simpl; prove_harmless|done].
Qed.
#[local] Hint Resolve reconcileGroups_harmless unwind_all_groups_harmless unwind_added_groups_harmless : access.

Lemma kept_release patch status field :
  rp_status patch = Some status -> status = RequestPending \/ status = RequestCancelled ->
  guar env seen (aKept job) (fun _ => aTrue) (release_request job requestId patch field).
Proof. intros Hst Hs. eapply guar_no_result, guar_pre; [by eapply release_request_spec|by intros a [? _]]. Qed.

Lemma unwind_uncovered_spec api requester request active holder added uncovered attempted :
  rq_id request = requestId ->
  guar env seen (aKept job) (fun _ => aTrue)
    (unwind_uncovered api requester request active holder added uncovered attempted job).
Proof.
  intros Hid. unfold unwind_uncovered. rewrite Hid. skip. skip as [[settled regrant] details]. skip as nowCovered.
  destruct (_ || _); [by apply (guar_ret env seen)|].
  apply (guar_skip env seen); [|intros released; by apply (guar_ret env seen)].
  destruct active; [by apply (kept_release _ RequestPending); auto|by apply (kept_release _ RequestCancelled); auto].
Qed.

Lemma unwindToolApproval_spec actor api requester request grantId added applied attempted cause ip :
  rq_id request = requestId ->
  guar env seen (aKept job) (fun _ => aTrue)
    (unwindToolApproval actor api requester request grantId added applied attempted job cause ip).
Proof.
  intros Hid. unfold unwindToolApproval. skip as live. skip as holder.
  apply (guar_skip env seen); [|intros outcome; skip; by apply (guar_ret env seen)].
  destruct (_ && _); [harmlessly|].
  destruct live as [g|]; [destruct (is_active g)|]; destruct holder; try by apply unwind_uncovered_spec.
  all: by apply (guar_ret env seen).
Qed.

Lemma kept_settled done_ cause : guar env seen (aKept job) (fun _ => aTrue) (settleOwnedJob (Some job) done_ cause).
Proof. eapply guar_pre; [apply (settleOwnedJob_spec env seen Hsch)|]. intros a Hk. split; [apply Hk|by intros _]. Qed.

Lemma finish_tools_spec actor request updated api requester grantId current requested added ip :
  rq_id updated = requestId ->
  guar env seen (aKept job) (fun _ => aTrue)
    (finish_tools actor request updated api requester grantId current requested added job ip).
Proof.
  intros Hid. unfold finish_tools. apply (guar_skip env seen).
  - apply (guar_attempted env seen), write_approval_spec; [auto with access|]. apply (commit_tools_spec env seen Hsch).
  - intros [[[ | [] | | |? ? ? [grant|]]|]|cause]; try apply (guar_throw env seen); [| |].
    + apply (guar_skip env seen); [apply kept_settled|]. intros []. apply (guar_throw env seen).
    + by apply (guar_ret env seen).
    + skip as applied. apply (guar_skip env seen); [by apply unwindToolApproval_spec|].
      intros settled. apply (guar_skip env seen); [apply kept_settled|intros []; apply (guar_throw env seen)].
Qed.
End Approval.

(** ** Approving *)

Definition aLoaded (x : AccessRequestRecord * ApiRecord * UserRecord) : assertion :=
  aRequest x.1.1 &&& aPure (api_id x.1.2 = rq_api_id x.1.1 /\ u_id x.2 = rq_user_id x.1.1).

Lemma loadRequest_spec P requestId : guar env seen P aLoaded (loadRequest requestId).
Proof.
  unfold loadRequest. eapply guar_bind; [apply (request_find_spec env seen Hsch)|]. intros row. apply guar_found. intros r ->.
  eapply guar_bind; [apply (apis_find_spec env seen Hsch)|]. intros row. apply guar_found. intros api ->.
  eapply guar_bind; [apply (users_find_spec env seen Hsch)|]. intros row. apply guar_found. intros u ->.
  apply (guar_ret env seen). intros a _ [[[_ [Hr _]] Ha] Hu]. split; [exact Hr|by split].
Qed.

Lemma approve_access_spec actor request api requester note ip approvedTools :
  guar env seen (aLoaded (request, api, requester)) (fun _ => aTrue)
    (approve_access actor request api requester note ip approvedTools).
Proof.
  unfold approve_access. skip as holder. skip. skip. skip. skip as now.
  apply (guar_pure env seen (api_id api = rq_api_id request /\ u_id requester = rq_user_id request));
    [by intros a _ [_ ?]|intros [Hapi Huser]].
  eapply guar_bind; [eapply guar_pre; [apply (claimApproval_spec env seen Hsch)|by intros a [Hr _]]|].
  intros [claimed job]. apply (guar_pure env seen (approval_of job (rq_id request) /\ job_identity job = rq_identity request));
    [by intros a _ [_ [_ (? & ? & _)]]|intros [Hof Hji]].
  apply (guar_skip env seen); [|intros grant; skip; skip; skip; by apply (guar_ret env seen)].
  eapply guar_pre; [apply (finish_approval_spec job (rq_id request) Hof); [done|]|by intros a [_ [? _]]].
  by rewrite Hji, Hapi, Huser.
Qed.

Lemma approveTools_spec actor request api requester grantId note ip approvedTools :
  rq_grant_id request <> None ->
  guar env seen (aLoaded (request, api, requester)) (fun _ => aTrue)
    (approveTools actor request api requester grantId note ip approvedTools).
Proof.
  intros Hgrant. unfold approveTools. skip as row. apply guar_found. intros grant _. skip.
  apply guar_found. intros current _. do 4 skip. skip as now.
  apply (guar_pure env seen (u_id requester = rq_user_id request)); [by intros a _ [_ [_ ?]]|intros Huser].
  eapply guar_bind; [eapply guar_pre; [apply (claimApproval_spec env seen Hsch)|by intros a [Hr _]]|].
  intros [claimed job]. apply (guar_pure env seen (approval_of job (rq_id request) /\ rq_id claimed = rq_id request));
    [by intros a _ [_ [_ (? & _ & ?)]]|intros [Hof Hid]].
  apply (guar_skip env seen); [|intros widened; do 3 skip; by apply (guar_ret env seen)].
  eapply guar_pre; [by apply (finish_tools_spec job (rq_id request) Hof)|].
  intros a [[Hr _] [Hj _]]. by apply (tool_request_kept job request); [apply Hj|apply Hr|apply Hof|].
Qed.

Lemma decide_approval_spec P actor requestId note ip approvedTools proxyId :
  guar env seen P (fun _ => aTrue) (decide_approval actor requestId note ip approvedTools proxyId).
Proof.
  unfold decide_approval. eapply guar_bind; [apply loadRequest_spec|]. intros [[request api] requester].
  do 6 skip. destruct (rq_grant_id request) eqn:Hg.
  - eapply guar_pre; [apply approveTools_spec; congruence|by intros a [_ ?]].
  - eapply guar_pre; [apply approve_access_spec|by intros a [_ ?]].
Qed.

Lemma approve_spec P actor requestId note ip approvedTools :
  guar env seen P (fun _ => aTrue) (approve actor requestId note ip approvedTools).
Proof.
  unfold approve. apply (guar_skip env seen); [eapply guar_no_result, loadRequest_spec|]. intros [[request api] requester].
  skip. unfold under_proxy. destruct (api_ferrum_proxy_id api); [apply (guar_locks env seen Hsch)|]; apply decide_approval_spec.
Qed.
(** ** Revocations *)

Lemma groupStillOn_harmless id group tools : harmless env seen (groupStillOn id group tools).
Proof. unfold groupStillOn. prove_harmless. Qed.
#[local] Hint Resolve groupStillOn_harmless : access.

Section Restore.
Context {A : Type} (claim : GrantRecord) (P : assertion) (body : bool -> M A)
  (Hbody : forall groupPresent, guar env seen P (fun _ => aTrue) (transaction (body groupPresent))).

Lemma restoreOnce_spec proxyId : guar env seen P (fun _ => aTrue) (restoreOnce claim proxyId body).
Proof.
  unfold restoreOnce. skip as [c|].
  - apply (guar_locks env seen Hsch). skip as api. skip as present. do 2 apply (guar_locks env seen Hsch). apply Hbody.
  - do 2 apply (guar_locks env seen Hsch). apply Hbody.
Qed.

Lemma restoreUnderKeys_spec fuel since proxyId :
  guar env seen P (fun _ => aTrue) (restoreUnderKeys fuel claim since proxyId body).
Proof.
  induction fuel as [|fuel IH]; simpl; skip as attempt; (apply (guar_catch env seen); [apply restoreOnce_spec|]); intros e;
    (destruct (_ && _); [|apply (guar_throw env seen)]); [apply (guar_throw env seen)|exact IH].
Qed.

Lemma restoreUnderFreshProxy_spec fuel since :
  guar env seen P (fun _ => aTrue) (restoreUnderFreshProxy fuel claim since body).
Proof.
  induction fuel as [|fuel IH]; cbn [restoreUnderFreshProxy]; skip as attempt;
    skip as [[? ? ? ? [proxyId|] ? [tools|] ? ?]|]; try apply restoreUnderKeys_spec.
  all: apply (guar_skip env seen);
    [apply (guar_attempted env seen), (guar_skip env seen); [|intros [value|]; harmlessly];
     apply (guar_locks env seen Hsch); skip as current; destruct (bool_decide _);
     [apply (guar_skip env seen); [apply restoreUnderKeys_spec|intros value]|]; by apply (guar_ret env seen)|].
  all: intros [[value|]|error]; try (by apply (guar_ret env seen)); try apply (guar_throw env seen); try exact IH.
  all: destruct (_ && _); try apply (guar_throw env seen); exact IH.
Qed.
End Restore.

Definition aClaim (c : revocation_claim) : assertion := aRestorable (rc_claim c) (rc_request c) (rc_toolRequest c).

Lemma toolRequestBack_harmless claim request : harmless env seen (toolRequestBack claim request).
Proof. unfold toolRequestBack. prove_harmless. Qed.
#[local] Hint Resolve toolRequestBack_harmless : access.
Lemma record_rollback_harmless actor c cause ip outcome : harmless env seen (record_rollback actor c cause ip outcome).
Proof. unfold record_rollback, reread_outcome. prove_harmless. Qed.
#[local] Hint Resolve record_rollback_harmless : access.

Lemma resumeUnderFreshProxy_spec fuel actor c cause ip since :
  guar env seen (aClaim c) (fun _ => aTrue) (resumeUnderFreshProxy fuel actor c cause ip since).
Proof.
  unfold resumeUnderFreshProxy. apply (guar_outsideHeldLeases env seen). apply (guar_skip env seen); [|intros outcome; harmlessly].
  apply (guar_catch env seen); [|intros e; by apply (guar_ret env seen)].
  apply restoreUnderFreshProxy_spec. intros gp. apply (restore_alone_spec env seen Hsch).
Qed.

(** A continuation that may be run wherever the claim is known. *)
Definition aResume {A} (P : assertion) (resume : option (M A)) : assertion :=
  aPure (forall m, resume = Some m -> guar env seen P (fun _ => aTrue) m).

Lemma restoreAlone_spec fuel actor c cause ip since proxyId :
  guar env seen (aClaim c) (aResume (aClaim c)) (restoreAlone fuel actor c cause ip since proxyId).
Proof.
  unfold restoreAlone. apply (guar_skip env seen).
  - apply (guar_attempted env seen), restoreUnderKeys_spec. intros gp. apply (restore_alone_spec env seen Hsch).
  - intros [o|error]; [skip; by apply (guar_ret env seen)|]. destruct (isLeaseLost error).
    + apply (guar_ret env seen). intros a _ _ m [= <-]. apply resumeUnderFreshProxy_spec.
    + skip. by apply (guar_ret env seen).
Qed.

Lemma unwindRevocation_spec fuel actor c cause ip proxyId :
  guar env seen (aClaim c) (aResume (aClaim c)) (unwindRevocation fuel actor c cause ip proxyId).
Proof.
  unfold unwindRevocation. skip as rollbackId. skip as since. apply (guar_skip env seen).
  - apply (guar_attempted env seen), restoreUnderKeys_spec. intros gp. apply (restore_body_spec env seen Hsch).
  - intros [o|error]; [by apply (guar_ret env seen)|]. unfold auditRowCommitted. skip as committed.
    destruct committed; [by apply (guar_ret env seen)|]. destruct (isLeaseLost error); [|apply restoreAlone_spec].
    apply (guar_ret env seen). intros a _ _ m [= <-]. apply resumeUnderFreshProxy_spec.
Qed.

Lemma revocationObsolete_harmless job : harmless env seen (revocationObsolete job).
Proof. unfold revocationObsolete. prove_harmless. Qed.
#[local] Hint Resolve revocationObsolete_harmless : access.
Lemma unless_obsolete_harmless job : harmless env seen (unless_obsolete job).
Proof. unfold unless_obsolete. prove_harmless. Qed.
#[local] Hint Resolve unless_obsolete_harmless : access.

(** The job of a revocation is dropped or left to recovery. *)
Lemma settle_revocation job done_ cause :
  kind job = AccessJobs.Revoke -> guar env seen (aJob job) (fun _ => aTrue) (settleOwnedJob (Some job) done_ cause).
Proof.
  intros Hk. eapply guar_pre; [apply (settleOwnedJob_spec env seen Hsch)|]. intros a Hj. split; [done|]. intros [Ha _]. congruence.
Qed.

Definition aLater (P : assertion) (outcome : GrantRecord + M GrantRecord) : assertion :=
  aPure (forall m, outcome = inr m -> guar env seen P (fun _ => aTrue) m).

Lemma finish_withdrawal_spec fuel actor grant api grantee c ip proxyId :
  kind (rc_job c) = AccessJobs.Revoke ->
  guar env seen (aClaim c &&& aJob (rc_job c)) (aLater (aClaim c &&& aJob (rc_job c)))
    (finish_withdrawal fuel actor grant api grantee c ip proxyId).
Proof.
  intros Hk. unfold finish_withdrawal. apply (guar_skip env seen).
  - apply (guar_attempted env seen). destruct grantee as [user|]; [|by apply (guar_ret env seen)].
    apply setGroupMembership_harmless, unless_obsolete_harmless.
  - assert (Hsettle : forall done_ cause, guar env seen (aClaim c &&& aJob (rc_job c)) (fun _ => aTrue) (settleOwnedJob (Some (rc_job c)) done_ cause)).
    { intros done_ cause. eapply guar_pre; [by apply settle_revocation|by intros a [_ ?]]. }
    intros [removed|error].
    + destruct removed as [[ | [] | | | ]|]; try (by apply (guar_ret env seen));
        (apply (guar_skip env seen); [apply Hsettle|intros []; by apply (guar_ret env seen)]).
    + eapply guar_bind; [eapply guar_pre; [apply unwindRevocation_spec|by intros a [? _]]|]. intros [rest|].
      * apply (guar_pure env seen (guar env seen (aClaim c) (fun _ => aTrue) rest)); [intros a _ [_ Hr]; by apply Hr|intros Hrest].
        apply (guar_ret env seen). intros a _ _ m [= <-].
        apply (guar_skip env seen); [eapply guar_pre; [exact Hrest|by intros a' [? _]]|]. intros [].
        apply (guar_skip env seen); [apply (Hsettle false)|intros []; apply (guar_throw env seen)].
      * apply (guar_skip env seen); [eapply guar_pre; [apply Hsettle|by intros a [? _]]|]. intros []. apply (guar_throw env seen).
Qed.
(** A continuation that may be run now, or after any moves. *)
Lemma stable_runnable {A} (m : M A) :
  stable (fun a => exists R : assertion, R a /\ guar env seen R (fun _ => aTrue) m).
Proof. intros a b Hok Hm (R & HR & Hrun). exists R. split; [by apply (says_stable R a)|done]. Qed.
Definition aRunnable {A} (m : M A) : assertion := Assert _ (stable_runnable m).

Lemma runnable_runs {A} (m : M A) : guar env seen (aRunnable m) (fun _ => aTrue) m.
Proof. intros w Hg Ht (R & HR & Hrun). by apply Hrun. Qed.

Definition aWithdrawn (r : GrantRecord + M GrantRecord) : assertion :=
  match r with inl _ => aTrue | inr later => aRunnable later end.

Lemma revocationConflict_harmless grantId : harmless env seen (revocationConflict grantId).
Proof. unfold revocationConflict. prove_harmless. Qed.
Lemma assertCanWithdraw_harmless actor grant mode : harmless env seen (assertCanWithdraw actor grant mode).
Proof. unfold assertCanWithdraw. prove_harmless. Qed.
#[local] Hint Resolve revocationConflict_harmless assertCanWithdraw_harmless : access.

Lemma withdraw_spec fuel actor grantId reason ip mode recordWithRevoke proxyId P :
  (forall record g, recordWithRevoke = Some record -> quiet (record g)) ->
  guar env seen P aWithdrawn (withdraw fuel actor grantId reason ip mode recordWithRevoke proxyId).
Proof.
  intros Hrec. unfold withdraw. eapply guar_bind; [apply (grant_find_spec env seen Hsch)|]. intros row.
  apply guar_found. intros grant ->. skip. skip as apiRow. apply guar_found. intros api _. skip. skip.
  skip as grantee. skip as revokedAt.
  eapply guar_bind; [eapply guar_pre; [by apply (claim_revocation_spec env seen Hsch)|by intros a [_ [? _]]]|].
  intros [c|]; [|skip as e; apply (guar_throw env seen)].
  apply (guar_pure env seen (kind (rc_job c) = AccessJobs.Revoke)); [by intros a _ [_ [_ ?]]|intros Hk].
  apply guar_pre with (P := aClaim c &&& aJob (rc_job c)).
  - eapply guar_bind; [by apply finish_withdrawal_spec|]. intros [updated|later].
    + skip. by apply (guar_ret env seen).
    + apply (guar_ret env seen). intros a _ [HP Hl]. exists (aClaim c &&& aJob (rc_job c)). split; [exact HP|by apply Hl].
  - intros a [_ (((((Hg & _) & Hf) & Ht) & Hj) & _)]. exact (conj (conj (conj Hg Hf) Ht) Hj).
Qed.

Lemma withdrawGrant_spec fuel actor grantId reason ip mode recordWithRevoke P :
  (forall record g, recordWithRevoke = Some record -> quiet (record g)) ->
  guar env seen P (fun _ => aTrue) (withdrawGrant fuel actor grantId reason ip mode recordWithRevoke).
Proof.
  intros Hrec. unfold withdrawGrant. skip as row. apply guar_found. intros initial _. skip. skip as apiRow.
  apply guar_found. intros initialApi _. do 2 skip.
  eapply guar_bind with (R := aWithdrawn).
  - unfold under_proxy. destruct (api_ferrum_proxy_id initialApi); [apply (guar_locks env seen Hsch)|]; by apply withdraw_spec.
  - intros withdrawn. apply (guar_skip env seen); [|intros updated; skip; by apply (guar_ret env seen)].
    destruct withdrawn as [g|later]; [by apply (guar_ret env seen)|]. eapply guar_pre; [apply runnable_runs|by intros a [_ ?]].
Qed.

(** ** The sweep of an account *)

Lemma sweep_lookup_harmless grant userId : harmless env seen (sweep_lookup grant userId).
Proof. unfold sweep_lookup. prove_harmless. Qed.
Lemma remove_groups_harmless consumerId apiId subject : harmless env seen (remove_groups consumerId apiId subject).
Proof.
  unfold remove_groups. apply harmless_bind; [|prove_harmless]. apply mutateAclGroups_harmless; [simpl; prove_harmless|done].
Qed.
#[local] Hint Resolve sweep_lookup_harmless remove_groups_harmless : access.

Lemma sweep_one_spec actor userId reason ip grant :
  guar env seen (aGrant grant) (fun _ => aTrue) (sweep_one actor userId reason ip grant).
Proof.
  unfold sweep_one. skip as revokedAt.
  apply (guar_skip env seen); [apply (guar_attempted env seen), (sweep_claim_spec env seen Hsch)|].
  intros [[g|]|error]; harmlessly.
Qed.

Lemma sweep_grants_spec actor userId reason ip grants result :
  guar env seen (aEach (fun g => aIf (g ∈ grants) (aGrant g))) (fun _ => aTrue)
    (sweep_grants actor userId reason ip grants result).
Proof.
  revert result. induction grants as [|grant rest IH]; intros result; simpl; [by apply (guar_ret env seen)|].
  apply (guar_skip env seen).
  - eapply guar_pre; [apply sweep_one_spec|]. intros a Hall. apply Hall, elem_of_cons. by left.
  - intros one. eapply guar_pre; [apply IH|]. intros a Hall g Hg. apply Hall, elem_of_cons. by right.
Qed.

Lemma revokeAllForUser_spec P actor userId reason ip :
  guar env seen P (fun _ => aTrue) (revokeAllForUser actor userId reason ip).
Proof.
  unfold revokeAllForUser. eapply guar_bind; [apply (listActive_spec env seen Hsch)|]. intros grants.
  eapply guar_pre; [apply sweep_grants_spec|by intros a [_ ?]].
Qed.
(** ** Recovery *)

Lemma dropJob_spec job :
  guar env seen (aJob job &&& aIf (kind job = AccessJobs.Approve) (aKept job)) (fun _ => aTrue) (dropJob job).
Proof. apply (guar_skip env seen); [apply (jobs_deleteClaimed_spec env seen Hsch)|]. intros b. by apply (guar_ret env seen). Qed.

Lemma recoverRevocation_spec job :
  kind job = AccessJobs.Revoke -> guar env seen (aJob job) (fun _ => aTrue) (recoverRevocation job).
Proof.
  intros Hk. assert (Hdrop : guar env seen (aJob job) (fun _ => aTrue) (dropJob job)).
  { eapply guar_pre; [apply dropJob_spec|]. intros a Hj. split; [done|]. intros Ha. congruence. }
  unfold recoverRevocation. skip as [grantee|]; [|exact Hdrop]. skip as consumer.
  apply (guar_skip env seen).
  - unfold recover_removal. destruct consumer as [c|]; [|apply revocationObsolete_harmless].
    apply (guar_skip env seen); [|intros o; by apply (guar_ret env seen)].
    apply mutateAclGroups_harmless; [apply unless_obsolete_harmless|done].
  - intros [[]|]; [by apply (guar_ret env seen)|exact Hdrop|exact Hdrop|].
    apply (guar_skip env seen); [by apply (recover_tx_spec env seen Hsch)|]. intros b. by apply (guar_ret env seen).
Qed.

Section RecoverApproval.
Context (job : AccessJobs.Job) (Hkind : kind job = AccessJobs.Approve).

Lemma drop_kept : guar env seen (aKept job) (fun _ => aTrue) (dropJob job).
Proof. eapply guar_pre; [apply dropJob_spec|]. intros a Hk. split; [apply Hk|by intros _]. Qed.

(** The plan leaves a request alone only when nothing is owed to it. *)
Lemma plan_settlement_kept request live a :
  rq_id request = subject job -> aIf (rq_status request <> RequestApproved \/ rq_grant_id request <> None) (aKept job) a ->
  aHolder job live a -> plan_settlement request live = Kept \/ plan_settlement request live = NoChange -> aKept job a.
Proof.
  intros Hid Hr Hl Hplan. unfold plan_settlement in Hplan. case_bool_decide as Hs; [|apply Hr; by left].
  simpl in Hplan. destruct (rq_grant_id request) as [g|] eqn:Hg; [apply Hr; by right|].
  destruct live as [g|]; [|by destruct Hplan]. case_bool_decide as Ha; [|by destruct Hplan].
  apply Hl. congruence.
Qed.

Lemma settleApproval_spec api :
  guar env seen (aJob job &&& aIf (api = None) (aKept job)) (fun _ => aTrue) (settleApproval job api).
Proof.
  unfold settleApproval. skip as owned. destruct (negb owned); [by apply (guar_ret env seen)|].
  eapply guar_bind; [apply (request_of_job env seen Hsch job); by intros a [? _]|]. intros request.
  eapply guar_bind; [apply (user_of_job env seen Hsch job Hkind); by intros a [[? _] _]|]. intros requester.
  destruct api as [api|]; [|eapply guar_pre; [apply drop_kept|]; intros a [[[_ Hk] _] _]; by apply Hk].
  destruct request as [request|]; [|eapply guar_pre; [apply drop_kept|]; by intros a [[_ Hk] _]].
  destruct requester as [requester|]; [|eapply guar_pre; [apply drop_kept|]; intros a [_ Hk]; by apply Hk].
  apply (guar_pure env seen (rq_id request = subject job)); [by intros a _ [[_ [[_ ?] _]] _]|intros Hid].
  eapply guar_bind; [eapply guar_pre; [apply (reconcileGroups_spec job)|by intros a [[[? _] _] _]]|].
  intros rec. apply (guar_skip env seen); [|intros settled; by apply (guar_ret env seen)].
  eapply guar_pre; [apply (settle_recovered_spec env seen Hsch); by split|].
  intros a [[[[Hj _] [_ Hr]] _] Hl]. split; [exact Hj|]. intros Hplan. by apply (plan_settlement_kept request (rec_live rec)).
Qed.

Lemma recover_attempts_spec attempts : guar env seen (aJob job) (fun _ => aTrue) (recover_attempts attempts job).
Proof.
  induction attempts as [|rest IH]; cbn [recover_attempts]; [apply (guar_throw env seen)|].
  eapply guar_bind; [by apply (api_of_job env seen Hsch job)|]. intros seen_.
  destruct (seen_ ≫= api_ferrum_proxy_id) as [proxyId|].
  - apply guar_pre with (P := aJob job); [|by intros a [? _]]. apply (guar_skip env seen).
    + apply (guar_locks env seen Hsch). eapply guar_bind; [by apply (api_of_job env seen Hsch job)|]. intros api.
      destruct (match api with Some a => _ | None => _ end); [by apply (guar_ret env seen)|].
      apply (guar_skip env seen); [apply settleApproval_spec|intros outcome; by apply (guar_ret env seen)].
    + intros [outcome|]; [by apply (guar_ret env seen)|exact IH].
  - apply settleApproval_spec.
Qed.
End RecoverApproval.

Lemma recover_gateway_job_spec job : guar env seen (aJob job) (fun _ => aTrue) (recover_gateway_job job).
Proof.
  unfold recover_gateway_job. destruct (AccessJobs.in_kind _) eqn:Hk; [by apply recoverRevocation_spec|by apply recover_attempts_spec].
Qed.

(** ** Requests *)

Lemma assert_visible_harmless user api absent : harmless env seen (assert_visible user api absent).
Proof. unfold assert_visible. prove_harmless. Qed.
#[local] Hint Resolve assert_visible_harmless : access.
Lemma readmit_harmless user api absent : harmless env seen (readmit user api absent).
Proof. unfold readmit. prove_harmless. Qed.
#[local] Hint Resolve readmit_harmless : access.

Lemma spendBudget_spec {A} P userId (m : M A) : guar env seen P (fun _ => aTrue) m -> guar env seen P (fun _ => aTrue) (spendBudget userId m).
Proof. intros Hm. unfold spendBudget. case_bool_decide; [done|]. by apply (guar_locks env seen Hsch). Qed.

Lemma under_keys_spec {A} P proxyId applicationId (m : M A) :
  guar env seen P (fun _ => aTrue) m -> guar env seen P (fun _ => aTrue) (under_proxy proxyId (under_application applicationId m)).
Proof.
  intros Hm. unfold under_proxy, under_application.
  destruct proxyId, applicationId; repeat apply (guar_locks env seen Hsch); exact Hm.
Qed.

Lemma request_spec P user apiId justification applicationId ip requestedTools :
  guar env seen P (fun _ => aTrue) (request user apiId justification applicationId ip requestedTools).
Proof.
  unfold request. skip as trimmed. skip as row. apply guar_found. intros api _. do 4 skip. skip as active. skip.
  apply (guar_skip env seen); [|intros created; skip; by apply (guar_ret env seen)].
  apply under_keys_spec. unfold admit_request. skip as fresh. skip. skip.
  apply (guar_skip env seen); [|intros row'; skip; by apply (guar_ret env seen)].
  by apply spendBudget_spec, (submit_request_spec env seen Hsch).
Qed.

Lemma requestTools_spec P user grantId justification requestedTools ip :
  guar env seen P (fun _ => aTrue) (requestTools user grantId justification requestedTools ip).
Proof.
  unfold requestTools. skip as trimmed. skip as row. apply guar_found. intros initial _. skip. skip as apiRow.
  apply guar_found. intros api _. do 6 skip.
  apply (guar_skip env seen); [|intros created; skip; by apply (guar_ret env seen)].
  apply under_keys_spec. unfold admit_tools. skip as fresh. do 2 skip. skip as grow. apply guar_found. intros grant _. skip.
  apply guar_found. intros covered _. do 2 skip.
  apply (guar_skip env seen); [|intros created; skip; by apply (guar_ret env seen)].
  by apply spendBudget_spec, (submit_tools_spec env seen Hsch).
Qed.

Lemma cancel_spec P user requestId ip : guar env seen P (fun _ => aTrue) (cancel user requestId ip).
Proof.
  unfold cancel. apply (guar_skip env seen); [eapply guar_no_result, loadRequest_spec|]. intros [[r api] requester].
  do 2 skip. skip as decidedAt.
  apply (guar_skip env seen); [by apply (close_request_spec env seen Hsch) with (status := RequestCancelled); auto|].
  intros updated. skip. by apply (guar_ret env seen).
Qed.

Lemma deny_spec P actor requestId note ip : guar env seen P (fun _ => aTrue) (deny actor requestId note ip).
Proof.
  unfold deny. apply (guar_skip env seen); [eapply guar_no_result, loadRequest_spec|]. intros [[r api] requester].
  do 2 skip. skip as decidedAt.
  apply (guar_skip env seen); [by apply (close_request_spec env seen Hsch) with (status := RequestDenied); auto|].
  intros updated. do 2 skip. by apply (guar_ret env seen).
Qed.
End Programs.
