(* ===== verification/AccessRefinement.v ===== *)
(** * The access service implements the workflow

    Every operation of [server/src/access/service.ts], and the worker of
    [access/gateway-job-worker.ts] that recovers what they left unfinished, as
    one labelled operation of the world; each refines [AccessWorkflow.move]. *)

From Stdlib Require Import Ascii.
From S2P Require Import Prelude Json Roles Leases ClaimQueue Users JobQueues AuditLog AccessTables AccessWorkflow World AccessStore LeaseFence KeyedSerializer Provisioner AccessDecisions JobWorkers GatewayJobWorker AccessRevocation AccessApproval AccessRequests AccessLogic AccessTransactions AccessPrograms.
Open Scope Z_scope.

(** ** The operations *)

Inductive access_call : Type :=
| CallRequest (user : UserRecord) (apiId justification : string) (applicationId ip : option string)
    (requestedTools : option (list string))
| CallRequestTools (user : UserRecord) (grantId justification : string) (requestedTools : list string) (ip : option string)
| CallCancel (user : UserRecord) (requestId : string) (ip : option string)
| CallApprove (actor : UserRecord) (requestId : string) (note ip : option string)
    (approvedTools : option (option (list string)))
| CallDeny (actor : UserRecord) (requestId : string) (note ip : option string)
| CallRevoke (fuel : nat) (actor : UserRecord) (grantId : string) (reason ip : option string)
| CallRelinquish (fuel : nat) (user : UserRecord) (grantId : string) (ip : option string)
| CallRevokeAll (actor : UserRecord) (userId reason : string) (ip : option string)
| CallListRequests (actor : UserRecord) (mine : bool) (apiId : option string) (status : option AccessRequestStatus)
    (limit offset : option jsnum)
| CallListGrants (actor : UserRecord) (mine : bool) (apiId userId : option string) (status : option GrantStatus)
    (limit offset : option jsnum)
| CallRecoveryTick (batchSize : nat).

Section Calls.
Context `{EdgeClient} `{AccessDeps}.

(** The answer of the caller is not looked at: only what it leaves. *)
Definition perform (call : access_call) : M unit :=
  match call with
  | CallRequest user apiId justification applicationId ip requestedTools =>
      do_ request user apiId justification applicationId ip requestedTools; mret tt
  | CallRequestTools user grantId justification requestedTools ip =>
      do_ requestTools user grantId justification requestedTools ip; mret tt
  | CallCancel user requestId ip => do_ cancel user requestId ip; mret tt
  | CallApprove actor requestId note ip approvedTools => do_ approve actor requestId note ip approvedTools; mret tt
  | CallDeny actor requestId note ip => do_ deny actor requestId note ip; mret tt
  | CallRevoke fuel actor grantId reason ip => do_ revoke fuel actor grantId reason ip None; mret tt
  | CallRelinquish fuel user grantId ip => do_ relinquish fuel user grantId ip; mret tt
  | CallRevokeAll actor userId reason ip => do_ revokeAllForUser actor userId reason ip; mret tt
  | CallListRequests actor mine apiId status limit offset => do_ listRequests actor mine apiId status limit offset; mret tt
  | CallListGrants actor mine apiId userId status limit offset =>
      do_ listGrants actor mine apiId userId status limit offset; mret tt
  | CallRecoveryTick batchSize => do_ access_runTick batchSize; mret tt
  end.

(** One call after another, whatever became of the one before. *)
Fixpoint perform_all (calls : list access_call) (w : world) : world :=
  match calls with
  | [] => w
  | call :: rest => perform_all rest (perform call w).2
  end.
End Calls.

(** ** Lemmas: the worker's statements *)

(** A statement that rewrites the rows one by one. *)
Lemma bookkeeping_rewrite used (f : AccessJobs.Job -> AccessJobs.Job) (p : AccessJobs.Job -> bool) t :
  (forall j, p j = true -> job_id (f j) = job_id j /\ AccessJobs.ag_input (f j) = AccessJobs.ag_input j /\
     (job_generation (f j) = job_generation j /\ has_status JSending (f j) = false \/ ~ used (job_generation (f j)))) ->
  bookkeeping used t (update_where p f t).1.
Proof.
  intros Hf. split.
  - intros k j'. simpl. rewrite lookup_fmap. destruct (t !! k) as [j|]; [|done]. simpl. intros [= <-]. exists j.
    split; [done|]. destruct (p j) eqn:Hp; [|split_and!; [done..|by left]].
    destruct (Hf j Hp) as (Hid & Hin & Hg). split_and!; [done..|].
    destruct Hg as [[Hg Hs]|Hn]; [left; by rewrite Hs|by right].
  - intros k. simpl. rewrite lookup_fmap. by destruct (t !! k).
Qed.

Section Refinement.
Context (env : nat -> turn) (seen : nat -> string -> Prop) (Hsch : access_schedule env seen).
Context `{EdgeClient} `{AccessDeps} `{!Outsiders env seen}.

Lemma releaseStale_spec P olderThan : guar env seen P (fun _ => aTrue) (access_releaseStale olderThan).
Proof.
  apply (guar_statement env seen Hsch). intros n d u x d' Hok Hr _ _ H1.
  assert (Hb : forall used, bookkeeping used (d_access_jobs d) (AccessJobs.releaseStale olderThan (t_now (env n)) (d_access_jobs d)).1).
  { intros used. apply bookkeeping_rewrite. intros j _. split_and!; [done..|]. by left. }
  destruct (AccessJobs.releaseStale _ _ _) as [q c]. injection H1 as <- <-. simpl in Hb.
  exists (fun y => u y \/ exists k j, q !! k = Some j /\ job_generation j = y).
  split_and!; [apply rtc_once, (MJobs (view d u) q (Hb u))|by destruct Hr|done|].
  intros y [Hy|(k & j & Hj & <-)]; [by left|left].
  destruct (proj1 (Hb (fun _ => True)) k j Hj) as (j0 & Hj0 & _ & _ & [[-> _]|Hn]); [|done].
  exact (proj1 (proj2 (ok_used_jobs _ Hok _ _ Hj0))).
Qed.

(** What a claim pulls is the worker's under its generation. *)
Lemma claim_one_moves P now : guar env seen P (aOption aJob) (access_claim_one now).
Proof.
  apply (guar_statement env seen Hsch). intros n d u x d' Hok Hr _ Hf H1.
  set (g := t_ids (env n) 0). set (t := d_access_jobs d).
  assert (Hwf : job_wf t) by (intros k j Hj; exact (ok_jobs _ Hok k j Hj)).
  assert (Hb : bookkeeping u t (AccessJobs.claimDue now 1 g (t_now (env n)) t).1).
  { apply bookkeeping_rewrite. intros j _. split_and!; [done..|]. right. apply Hf. }
  assert (Hgen : forall k j, (AccessJobs.claimDue now 1 g (t_now (env n)) t).1 !! k = Some j -> u (job_generation j) \/ job_generation j = g).
  { intros k j. unfold AccessJobs.claimDue, job_claimDue. simpl. rewrite lookup_fmap. destruct (t !! k) as [j0|] eqn:Hj0; [|done].
    simpl. intros [= <-]. destruct (_ && _); [by right|left]. exact (proj1 (proj2 (ok_used_jobs _ Hok _ _ Hj0))). }
  assert (Hc : forall c, c ∈ (AccessJobs.claimDue now 1 g (t_now (env n)) t).2 -> exists k, (AccessJobs.claimDue now 1 g (t_now (env n)) t).1 !! k = Some c).
  { intros c Hc. destruct (job_claimDue_returned _ _ _ _ _ _ Hwf Hc) as (k & _ & _ & _ & _ & _ & Hk). by exists k. }
  fold g t in H1. destruct (AccessJobs.claimDue now 1 g (t_now (env n)) t) as [q jobs]. injection H1 as <- <-. simpl in Hb, Hgen, Hc.
  exists (fun y => u y \/ exists k j, q !! k = Some j /\ job_generation j = y).
  assert (Hmove : move (view d u) (view (with_access_jobs q d) (fun y => u y \/ exists k j, q !! k = Some j /\ job_generation j = y)))
    by apply (MJobs (view d u) q Hb).
  split_and!; [by apply rtc_once|by destruct Hr| |].
  - destruct jobs as [|c rest]; [done|]. destruct (Hc c) as (k & Hk); [apply elem_of_cons; by left|].
    pose proof (ok_jobs _ (move_ok _ _ Hmove Hok) k c Hk) as Hid. simpl in Hid.
    split; [right; eauto|]. simpl. rewrite Hid, Hk. by intros j1 [= <-].
  - intros y [Hy|(k & j & Hj & <-)]; [by left|]. destruct (Hgen k j Hj) as [Hu| ->]; [by left|right; eauto].
Qed.

Lemma bump_spec P field n : guar env seen P (fun _ => aTrue) (bump field n).
Proof. by apply guar_local. Qed.

Lemma runJob_spec job : guar env seen (aJob job) (fun _ => aTrue) (access_runJob job).
Proof.
  unfold access_runJob. apply (guar_skip env seen).
  - apply (guar_attempted env seen), (recover_gateway_job_spec env seen Hsch job).
  - intros [o|error]; [apply bump_spec|]. skip as now. apply (guar_skip env seen); [apply guar_math_random|]. intros r.
    apply (guar_skip env seen); [apply (jobs_reschedule_spec env seen Hsch)|]. intros []; apply bump_spec.
Qed.

Lemma runTick_spec P batchSize : guar env seen P (fun _ => aTrue) (access_runTick batchSize).
Proof.
  apply (guar_skip env seen); [|intros []; by apply guar_local].
  apply (guar_skip env seen); [by apply guar_local|]. intros [].
  apply (guar_skip env seen).
  - apply (guar_catch env seen); [|intros e; by apply (guar_ret env seen)]. skip as now.
    apply (guar_skip env seen); [apply releaseStale_spec|]. intros n. apply (guar_set_counter env seen).
  - intros []. induction batchSize as [|left IH]; cbn [claim_jobs]; [by apply (guar_ret env seen)|]. skip as now.
    eapply guar_bind; [apply (guar_attempt env seen), claim_one_moves|].
    intros [[job|]|error]; try by apply (guar_ret env seen).
    apply (guar_skip env seen); [apply bump_spec|]. intros [].
    apply (guar_skip env seen); [|intros []; eapply guar_pre; [exact IH|by intros a [? _]]].
    apply (guar_catch env seen); [eapply guar_pre; [apply runJob_spec|by intros a [_ ?]]|]. intros e. apply bump_spec.
Qed.

Lemma listRequests_harmless actor mine apiId status limit offset :
  harmless env seen (listRequests actor mine apiId status limit offset).
Proof. unfold listRequests, list_owned, owned_apis. prove_harmless. Qed.
Lemma listGrants_harmless actor mine apiId userId status limit offset :
  harmless env seen (listGrants actor mine apiId userId status limit offset).
Proof. unfold listGrants, list_owned, owned_apis. prove_harmless. Qed.

Lemma perform_spec P call : guar env seen P (fun _ => aTrue) (perform call).
Proof.
  destruct call; (apply (guar_skip env seen); [|intros x; by apply (guar_ret env seen)]).
  - by apply (request_spec env seen Hsch).
  - by apply (requestTools_spec env seen Hsch).
  - by apply (cancel_spec env seen Hsch).
  - by apply (approve_spec env seen Hsch).
  - by apply (deny_spec env seen Hsch).
  - by apply (withdrawGrant_spec env seen Hsch).
  - by apply (withdrawGrant_spec env seen Hsch).
  - by apply (revokeAllForUser_spec env seen Hsch).
  - apply listRequests_harmless.
  - apply listGrants_harmless.
  - apply runTick_spec.
Qed.

Lemma perform_all_spec calls w :
  good env seen w -> w_tx w = false ->
  good env seen (perform_all calls w) /\ w_tx (perform_all calls w) = false /\
  moves (absw seen w) (absw seen (perform_all calls w)).
Proof.
  revert w. induction calls as [|call rest IH]; intros w Hg Ht; [by split_and!; [..|reflexivity]|].
  destruct (perform_spec aTrue call w Hg Ht I) as (Hg' & Ht' & Hm & _).
  destruct (IH _ Hg' Ht') as (Hg2 & Ht2 & Hm2). split_and!; [done..|by etrans].
Qed.
End Refinement.

(** ** Lemmas: an account that may review nothing *)

Section Review.
Context (env : nat -> turn) (I : world_pred) (Hriv : rival_closed env I).

(** [m] writes nothing, and answers within [Q]. *)
Definition reads {A} (Q : A -> Prop) (m : M A) : Prop :=
  ends env I (fun r d tr c => I d tr c /\ forall x, r = Ok x -> Q x) m.
Definition refuses {A} (m : M A) : Prop := reads (fun _ => False) m.

Lemma reads_read {A} (Q : A -> Prop) (f : db -> A) : (forall d tr c, I d tr c -> Q (f d)) -> reads Q (read f).
Proof.
  intros HQ w He HI. unfold read, statement_ok, statement, cur. rewrite He.
  set (d := if w_tx w then w_db w else t_rivals (env (w_turn w)) (w_db w)).
  assert (Hd : I d (w_trace w) (w_counters w)) by (subst d; destruct (w_tx w); [done|by apply Hriv]).
  destruct (t_fault _); (split; [done|]); (split; [done|]); intros x [= <-]. by eapply HQ.
Qed.

Lemma reads_bind {A B} (Q : A -> Prop) (R : B -> Prop) m k :
  reads Q m -> (forall x, Q x -> reads R (k x)) -> reads R (mbind m k).
Proof.
  intros Hm Hk w He HI. destruct (Hm w He HI) as (He' & HI' & HQ). unfold mbind.
  destruct (m w) as [[x|e] w1]; simpl in *; [by apply Hk; [apply HQ|..]|]. by split_and!.
Qed.

Lemma reads_ret {A} (Q : A -> Prop) x : Q x -> reads Q (mret x).
Proof. intros HQ w He HI. split; [done|]. split; [done|]. by intros y [= <-]. Qed.
Lemma reads_throw {A} (Q : A -> Prop) e : reads Q (mthrow e).
Proof. intros w He HI. by split_and!. Qed.
Lemma reads_found {A} (Q : A -> Prop) x e : (forall a, x = Some a -> Q a) -> reads Q (found x e).
Proof. intros HQ. destruct x as [a|]; [apply reads_ret; by apply HQ|apply reads_throw]. Qed.

Definition reviewer (actor : UserRecord) (api : ApiRecord) : bool :=
  (bool_decide (api_owner_user_id api = u_id actor) && role_at_least_of actor provider) || role_at_least_of actor admin.

Context (actor : UserRecord).
Context (Hno : forall d tr c, I d tr c -> forall k api, at_apis (d_access d) !! k = Some api -> reviewer actor api = false).

Lemma reads_api id : reads (fun x => forall api, x = Some api -> reviewer actor api = false) (apis_find id).
Proof. apply reads_read. intros d tr c HI api Hapi. by eapply Hno. Qed.

Lemma refuses_review {A} api (k : unit -> M A) :
  reviewer actor api = false -> refuses (mbind (assertCanReview actor api) k).
Proof. intros Hr. unfold assertCanReview. fold (reviewer actor api). rewrite Hr. apply reads_throw. Qed.

Lemma reads_loadRequest requestId : reads (fun x => reviewer actor x.1.2 = false) (loadRequest requestId).
Proof.
  unfold loadRequest. eapply (reads_bind (fun _ => True)); [by apply reads_read|]. intros row _.
  eapply (reads_bind (fun _ => True)); [by apply reads_found|]. intros r _.
  eapply reads_bind; [apply reads_api|]. intros arow Ha.
  eapply (reads_bind (fun api => reviewer actor api = false)); [by apply reads_found|]. intros api Hapi.
  eapply (reads_bind (fun _ => True)); [by apply (reads_read _ (fun d => users_findById (rq_user_id r) (d_users d)))|]. intros urow _.
  eapply (reads_bind (fun _ => True)); [by apply reads_found|]. intros u _. by apply reads_ret.
Qed.

Context `{EdgeClient} `{AccessDeps}.

Lemma approve_refused requestId note ip tools : refuses (approve actor requestId note ip tools).
Proof.
  eapply reads_bind; [apply reads_loadRequest|]. intros [[r api] u] Hr. by apply refuses_review.
Qed.
Lemma deny_refused requestId note ip : refuses (deny actor requestId note ip).
Proof.
  eapply reads_bind; [apply reads_loadRequest|]. intros [[r api] u] Hr. by apply refuses_review.
Qed.
Lemma revoke_refused fuel grantId reason ip record : refuses (revoke fuel actor grantId reason ip record).
Proof.
  unfold revoke, withdrawGrant. eapply (reads_bind (fun _ => True)); [by apply reads_read|]. intros row _.
  eapply (reads_bind (fun _ => True)); [by apply reads_found|]. intros grant _.
  eapply (reads_bind (fun _ => True)); [by apply reads_ret|]. intros [] _.
  eapply reads_bind; [apply reads_api|]. intros arow Ha.
  eapply (reads_bind (fun api => reviewer actor api = false)); [by apply reads_found|]. intros api Hapi. by apply refuses_review.
Qed.
End Review.

(** *** A sample world, for the witnesses *)

Fixpoint repeated (c : Ascii.ascii) (n : nat) (rest : string) : string :=
  match n with O => rest | S n' => String c (repeated c n' rest) end.

Lemma repeated_inj (c : Ascii.ascii) n m : repeated c n "" = repeated c m "" -> n = m.
Proof. revert m. induction n as [|n IH]; intros [|m]; simpl; intros [=]; [done|]. f_equal. by apply IH. Qed.

Lemma repeated_pair n m k l :
  repeated "a"%char n (repeated "b"%char k "") = repeated "a"%char m (repeated "b"%char l "") -> n = m /\ k = l.
Proof.
  revert m. induction n as [|n IH]; intros [|m]; simpl.
  - intros Hkl. split; [done|by apply (repeated_inj "b"%char)].
  - by destruct k.
  - by destruct l.
  - intros [= Heq]. destruct (IH m Heq) as [-> ->]. done.
Qed.

(** One process, a clock that advances, and identifiers never drawn twice. *)
Definition quiet_turn (n : nat) : turn := {|
  t_rivals := fun d => d;
  t_now := 1000 + 10 * Z.of_nat n;
  t_ids := fun k => repeated "a"%char n (repeated "b"%char k "");
  t_random := 0;
  t_fault := None;
  t_smtp := SmtpAccepted;
  t_stopping := false;
  t_nonce := "abcdefghijkl";
|}.

Definition drawn_before (n : nat) (x : string) : Prop := exists m k, (m < n)%nat /\ x = t_ids (quiet_turn m) k.

Lemma quiet_schedule : access_schedule quiet_turn drawn_before.
Proof.
  split.
  - intros n x (m & k & Hm & Hx). exists m, k. split; [lia|done].
  - intros n k. exists n, k. split; [lia|done].
  - intros n k (m & l & Hm & [Hn _]%repeated_pair). lia.
  - by intros n i j [_ ?]%repeated_pair.
  - intros n d _ Hr. split; [done|]. exists (drawn_before n). split_and!; [reflexivity| |].
    + intros x (m & k & Hm & Hx). exists m, k. split; [lia|done].
    + intros k (m & l & Hm & [Hn _]%repeated_pair). lia.
Qed.

Definition sample_consumer : EdgeConsumer := {|
  ec_id := "consumer-1"; ec_labels := []; ec_username := "nexus-user-u1"; ec_custom_id := Some "u1"%string;
  ec_credentials := JObj []; ec_acl_groups := [];
|}.

#[local] Instance sample_edge : EdgeClient := {|
  namespace := "ferrum";
  edge_verification := fun _ _ => mret (Some (sample_consumer, "tag-1"%string));
  edge_replace := fun _ c _ _ => mret c;
  edge_get := fun _ _ => mret (Some sample_consumer);
  edge_ensure := fun _ _ _ => mret sample_consumer;
|}.

#[local] Instance sample_deps : AccessDeps := {|
  maxAccessRequestsPerUserPerDay := 5;
  publicUrl := "https://nexus.example";
  canViewApi := fun _ _ => mret true;
  canReadApiSummary := fun _ _ => mret true;
  notify := fun _ _ _ _ _ => mret tt;
  enqueueMail := fun _ _ _ => mret tt;
  decorate := fun _ => mret tt;
|}.

#[local] Instance sample_outsiders env seen : Outsiders env seen.
Proof. split; intros; apply harmless_ret. Qed.

Definition sample_account (id : string) (role : Role) : UserRecord := {|
  u_id := id; u_email := id +:+ "@example.org"; u_password_hash := ""; u_display_name := id; u_role := role;
  u_org_id := None; u_company := None; u_phone := None; u_status := UserActive; u_email_verified := true;
  u_last_login_at := None; u_created_at := 0; u_updated_at := 0; u_email_fence := "";
|}.
Definition sample_api : ApiRecord := {|
  api_id := "weather"; api_name := "Weather"; api_slug := "weather"; api_owner_user_id := "owner";
  api_ferrum_proxy_id := None; api_requestable := true; api_agents := None; api_status := ApiPublished;
  api_visibility := VisibilityPublic;
|}.
Definition sample_access_db : db :=
  with_access {| at_requests := ∅; at_grants := ∅; at_apis := {["weather"%string := sample_api]};
                 at_applications := ∅; at_consumers := ∅ |}
    (with_users {["u1"%string := sample_account "u1" client; "owner"%string := sample_account "owner" provider]} db_empty).
Definition sample_portal : world := world_of sample_access_db quiet_turn [].
Definition sample_file : access_call := CallRequest (sample_account "u1" client) "weather" "Daily forecasts" None None None.
Definition sample_request_id : string := "aaaaaaaaa".
Definition sample_approve : access_call := CallApprove (sample_account "owner" provider) sample_request_id None None None.
Definition sample_filed : world := perform_all [sample_file] sample_portal.

(** An installation before its first request. *)
Lemma fresh_workflow_ok d used :
  at_requests (d_access d) = ∅ -> at_grants (d_access d) = ∅ -> d_access_jobs d = ∅ -> workflow_ok (view d used).
Proof.
  unfold view. intros -> -> ->.
  split; simpl; repeat intro; match goal with Hx : ∅ !! _ = Some _ |- _ => by rewrite lookup_empty in Hx end.
Qed.

Lemma sample_references : references_ok sample_access_db.
Proof.
  split.
  - intros k r Hr. simpl in Hr. by rewrite lookup_empty in Hr.
  - apply map_Forall_singleton. done.
  - apply map_Forall_insert_2; [done|]. by apply map_Forall_singleton.
Qed.

Lemma sample_portal_good : good quiet_turn drawn_before sample_portal.
Proof. split; [done|]. split; [by apply fresh_workflow_ok|apply sample_references]. Qed.

Lemma sample_filed_good : good quiet_turn drawn_before sample_filed.
Proof.
  refine (proj1 (perform_all_spec quiet_turn drawn_before quiet_schedule [sample_file] sample_portal sample_portal_good _)).
  reflexivity.
Qed.

(** The status of a request, and what the grants and the jobs hold of it. *)
Definition request_status (id : string) (w : world) : option AccessRequestStatus :=
  rq_status <$> at_requests (d_access (w_db w)) !! id.
Definition granted_to (id : string) (w : world) : list GrantStatus :=
  g_status <$> rows_where (fun g => bool_decide (g_access_request_id g = Some id)) (at_grants (d_access (w_db w))).

(** ** Properties *)

(** C1: whatever the gateway answers, whichever statement fails, and whatever
    the other instances do between two statements as long as it is moves of the
    workflow, an operation of the access service leaves the three tables where
    moves of the workflow lead: a request is decided once and from the status it
    stood in, a grant is created only by the holder of the approval's job, is
    revoked and restored together with its request, and a job is dropped only
    when nothing is owed; and the workflow's invariant holds again. *)
Theorem access_service_refines_workflow `{EdgeClient} `{AccessDeps} env seen
    (Hsch : access_schedule env seen) (Hout : Outsiders env seen) (call : access_call) (w : world)
    (Henv : w_env w = env) (Htx : w_tx w = false)
    (Hok : workflow_ok (view (w_db w) (seen (w_turn w)))) (Hrefs : references_ok (w_db w)) :
  let w' := (perform call w).2 in
  moves (view (w_db w) (seen (w_turn w))) (view (w_db w') (seen (w_turn w')))
  /\ workflow_ok (view (w_db w') (seen (w_turn w'))) /\ references_ok (w_db w').
Proof.
  destruct (perform_spec env seen Hsch aTrue call w) as ((_ & Hok' & Hr') & _ & Hm & _); [by split_and!|done..|].
  by split_and!.
Qed.

Lemma access_service_refines_workflow_witness :
  request_status sample_request_id sample_filed = Some RequestPending
  /\ (let w' := (perform sample_approve sample_filed).2 in
      request_status sample_request_id w' = Some RequestApproved /\ granted_to sample_request_id w' = [GrantActive]
      /\ moves (view (w_db sample_filed) (drawn_before (w_turn sample_filed))) (view (w_db w') (drawn_before (w_turn w')))).
Proof.
  split; [vm_compute; reflexivity|]. split; [vm_compute; reflexivity|]. split; [vm_compute; reflexivity|].
  apply (access_service_refines_workflow quiet_turn drawn_before quiet_schedule (sample_outsiders _ _) sample_approve sample_filed).
  - apply sample_filed_good.
  - vm_compute; reflexivity.
  - apply sample_filed_good.
  - apply sample_filed_good.
Defined.



(** C30: an account that may review none of the APIs (it is below provider, or
    owns none and is below admin), for as long as the others leave it so, has
    every approval, denial and revocation refused: none answers, and none writes
    anything, for whatever the others keep true of the database is still true. *)
Theorem decisions_need_a_reviewer `{EdgeClient} `{AccessDeps} (actor : UserRecord) (I : world_pred) (w : world)
    (Hriv : rival_closed (w_env w) I) (HI : at_world I w)
    (Hno : forall d tr c, I d tr c -> forall k api, at_apis (d_access d) !! k = Some api -> reviewer actor api = false) :
  (forall requestId note ip tools, let r := approve actor requestId note ip tools w in
     (exists e, r.1 = Throw e) /\ at_world I r.2)
  /\ (forall requestId note ip, let r := deny actor requestId note ip w in (exists e, r.1 = Throw e) /\ at_world I r.2)
  /\ (forall fuel grantId reason ip record, let r := revoke fuel actor grantId reason ip record w in
     (exists e, r.1 = Throw e) /\ at_world I r.2).
Proof.
  assert (Hrefused : forall A (m : M A), refuses (w_env w) I m -> (exists e, (m w).1 = Throw e) /\ at_world I (m w).2).
  { intros A m Hm. destruct (Hm w eq_refl HI) as (_ & HI' & Hx). split; [|done].
    destruct (m w).1 as [x|e]; [by destruct (Hx x)|by exists e]. }
  split_and!; intros; apply Hrefused; [by apply approve_refused|by apply deny_refused|by apply revoke_refused].
Qed.

Lemma decisions_need_a_reviewer_witness :
  let r := approve (sample_account "u1" client) sample_request_id None None None sample_filed in
  r.1 = Throw (forbidden "Only an API owner with the provider role or an admin can decide this request")
  /\ (exists e, r.1 = Throw e) /\ w_db r.2 = w_db sample_filed.
Proof.
  split; [vm_compute; reflexivity|].
  assert (Hno : forall d (tr : list event) (c : gmap string Z), d = w_db sample_filed -> forall k api, at_apis (d_access d) !! k = Some api ->
    reviewer (sample_account "u1" client) api = false).
  { intros d _ _ _ k api _. apply orb_false_iff. split; [apply andb_false_iff; right|]; reflexivity. }
  exact (proj1 (decisions_need_a_reviewer (sample_account "u1" client) (fun d _ _ => d = w_db sample_filed) sample_filed
                  (fun n d tr c Hd => Hd) eq_refl Hno) sample_request_id None None None).
Defined.
