(* ===== verification/TeardownWorker.v ===== *)
(** * The gateway teardown worker

    [server/src/credentials/teardown-worker.ts], with [runGatewayTeardown] of
    [credentials/service.ts]: the retry loop behind a disabled account, whose
    credentials stay live at the gateway until a revocation is confirmed. The
    revocation itself is the credentials service's, an interface here. *)

From S2P Require Import Prelude Json Roles Leases ClaimQueue Users JobQueues AuditLog World LeaseFence KeyedSerializer JobWorkers.
Open Scope Z_scope.

Definition TEARDOWN_BATCH_SIZE : nat := 10.
Definition TEARDOWN_BASE_BACKOFF_MS : Z := 10000.
Definition TEARDOWN_MAX_BACKOFF_MS : Z := 5 * 60000.
Definition TEARDOWN_STALE_AFTER_MS : Z := 5 * 60000.
Definition TEARDOWN_JOB_BUDGET_MS : Z := 60000.

Definition teardownBackoffMs (attempts random : Z) : Z :=
  job_backoff TEARDOWN_BASE_BACKOFF_MS TEARDOWN_MAX_BACKOFF_MS attempts random.

Record TeardownTickResult : Type := {
  td_released : Z;
  td_claimed : Z;
  td_completed : Z;
  td_rescheduled : Z;
  td_cancelled : Z;
  td_abandoned : Z;
}.

(** What [disableGatewayAccess] tore down. *)
Record GatewayTeardown : Type := {
  gt_consumer_id : option string;
  gt_revoked_credentials : Z;
  gt_removed_groups : list string;
  gt_deleted_consumers : list string;
}.

Inductive GatewayTeardownOutcome : Type := TeardownOk | TeardownNoConsumer | TeardownPending.

Record GatewayTeardownAttempt : Type := {
  ga_outcome : GatewayTeardownOutcome;
  ga_details : list (string * json);
  ga_result : option GatewayTeardown;
  ga_error : option string;
}.

(** [Pick<CredentialsService, 'disableGatewayAccess'>]. *)
Class TeardownService : Type := {
  disableGatewayAccess : string -> string -> M GatewayTeardown;
}.

(** ** The store's calls *)

Definition teardown_write (f : turn -> Teardown.table -> Teardown.table * bool) : M bool :=
  statement_ok (fun t d => let '(q, ok) := f t (d_teardown d) in (ok, with_teardown q d)).
Definition teardown_claimPending (job : Teardown.Job) : M (option Teardown.Job) :=
  statement_ok (fun t d =>
    let '(q, c) := Teardown.claimPending job (t_ids t 0) (t_now t) (d_teardown d) in
    (c, with_teardown q d)).
Definition teardown_findByUser (userId : string) : M (option Teardown.Job) :=
  statement_ok (fun _ d => (Teardown.findByUser userId (d_teardown d), d)).
Definition teardown_markDone (job : Teardown.Job) (at_ : Z) : M bool :=
  teardown_write (fun _ => Teardown.markDone job at_).
Definition teardown_reschedule (job : Teardown.Job) (next : Z) (error : string) : M bool :=
  teardown_write (fun t => Teardown.reschedule job next error (t_now t)).
Definition teardown_deleteClaimed (job : Teardown.Job) : M bool :=
  teardown_write (fun _ => Teardown.deleteClaimed job).
Definition teardown_releaseStale (olderThan : Z) : M Z :=
  statement_ok (fun t d => let '(q, n) := Teardown.releaseStale olderThan (t_now t) (d_teardown d) in
                           (n, with_teardown q d)).
Definition teardown_claim_one (now : Z) : M (option Teardown.Job) :=
  statement_ok (fun t d =>
    let '(q, jobs) := Teardown.claimDue now 1 (t_ids t 0) (t_now t) (d_teardown d) in
    (head jobs, with_teardown q d)).

(** ** One attempt *)
Section Teardown.
Context `{TeardownService}.

Definition no_generation : exn := driverError "Gateway teardown has no matching queued generation".
Definition superseded : exn := driverError "Gateway teardown attempt was superseded".

(** The claim of the attempt: the job's own, or a new one on a pending job. *)
Definition claim_attempt (userId : string) (job : option Teardown.Job) : M Teardown.Job :=
  match job with
  | None => mthrow no_generation
  | Some job =>
      if bool_decide (Teardown.td_user_id job <> userId) then mthrow no_generation
      else
        do claimed <- match j_status (Teardown.td_head job) with
                      | JPending => teardown_claimPending job
                      | JSending => mret (Some job)
                      | JDone => mret None
                      end;
        match claimed with Some c => mret c | None => mthrow superseded end
  end.

Definition attempt_details (result : GatewayTeardown) : list (string * json) :=
  [("gateway_teardown", JStr "ok"); ("gateway_consumer_id", json_opt_str (gt_consumer_id result));
   ("revoked_credentials", JNum (gt_revoked_credentials result));
   ("removed_acl_groups", json_strs (gt_removed_groups result))]%string
  ++ match gt_deleted_consumers result with
     | [] => []
     | l => [("deleted_consumers"%string, json_strs l)]
     end.

Definition settle_attempt (userId subject : string) (claimed : Teardown.Job) : M GatewayTeardownAttempt :=
  do current <- teardown_findByUser userId;
  if match current with
     | Some r => negb (bool_decide (job_id r = job_id claimed))
                 || negb (bool_decide (job_generation r = job_generation claimed))
                 || negb (has_status JSending r)
     | None => true
     end
  then mthrow superseded
  else
    do result <- disableGatewayAccess userId subject;
    do now <- date_now;
    do ok <- teardown_markDone claimed now;
    if negb ok then mthrow superseded
    else if bool_decide (gt_consumer_id result = None) && bool_decide (gt_deleted_consumers result = [])
    then mret {| ga_outcome := TeardownNoConsumer;
                 ga_details := [("gateway_teardown", JStr "no_consumer")]%string;
                 ga_result := Some result; ga_error := None |}
    else mret {| ga_outcome := TeardownOk; ga_details := attempt_details result;
                 ga_result := Some result; ga_error := None |}.

Definition failed_attempt (error : exn) : GatewayTeardownAttempt := {|
  ga_outcome := TeardownPending;
  ga_details := [("gateway_teardown", JStr "pending"); ("gateway_error", JStr (ex_message error))]%string;
  ga_result := None; ga_error := Some (ex_message error);
|}.

Definition runGatewayTeardown (userId subject : string) (job : option Teardown.Job)
    : M GatewayTeardownAttempt :=
  do claimed <- mattempt (claim_attempt userId job);
  match claimed with
  | Throw error => mret (failed_attempt error)
  | Ok claimed =>
      do attempt <- mattempt (settle_attempt userId subject claimed);
      match attempt with
      | Ok a => mret a
      | Throw error =>
          do_ match job with
              | Some j => if has_status JPending j
                          then mcatch (do now <- date_now;
                                       teardown_reschedule claimed now (ex_message error))
                                 (fun _ => mret false)
                          else mret false
              | None => mret false
              end;
          mret (failed_attempt error)
      end
  end.

(** ** The worker *)

Definition is_disabled (user : option UserRecord) : bool :=
  match user with Some u => bool_decide (u_status u = UserDisabled) | None => false end.

Definition cancelJob (job : Teardown.Job) : M bool :=
  locks (userLifecycleLockKey (Teardown.td_user_id job))
    (transaction (
       do current <- users_find (Teardown.td_user_id job);
       if is_disabled current then mret false
       else do_ teardown_deleteClaimed job; mret true)).

Definition cancel_and_count (job : Teardown.Job) : M unit :=
  do cancelled <- cancelJob job;
  if cancelled : bool then bump "cancelled" 1 else mret tt.

Definition teardown_runJob (job : Teardown.Job) : M unit :=
  do user <- users_find (Teardown.td_user_id job);
  if negb (is_disabled user) then cancel_and_count job
  else
    do attempt <- runGatewayTeardown (Teardown.td_user_id job)
                    (default (Teardown.td_user_id job) (Teardown.td_requested_by job)) (Some job);
    match ga_outcome attempt with
    | TeardownPending =>
        do settled <- users_find (Teardown.td_user_id job);
        if negb (is_disabled settled) then cancel_and_count job
        else
          do now <- date_now;
          do r <- math_random;
          do ok <- teardown_reschedule job (now + teardownBackoffMs (job_attempts job) r)
                     (default "unknown error"%string (ga_error attempt));
          if ok : bool then bump "rescheduled" 1 else mret tt
    | _ =>
        do_ bump "completed" 1;
        do_ audit_record SYSTEM_ACTOR "user.gateway_teardown_complete"
              {| target_type := "user"; target_id := Some (Teardown.td_user_id job) |}
              (("attempts"%string, JNum (job_attempts job)) :: ga_details attempt) None;
        mret tt
    end.

Definition teardown_tick_result (w : world) : TeardownTickResult := {|
  td_released := counter "released" w; td_claimed := counter "claimed" w;
  td_completed := counter "completed" w; td_rescheduled := counter "rescheduled" w;
  td_cancelled := counter "cancelled" w; td_abandoned := counter "abandoned" w;
|}.

Definition teardown_runTick (batchSize : nat) : M TeardownTickResult :=
  do_ run_worker teardown_releaseStale teardown_claim_one teardown_runJob TEARDOWN_STALE_AFTER_MS batchSize;
  fun w => (Ok (teardown_tick_result w), w).
End Teardown.

(** ** Lemmas: the debt of a disabled account

    [owed]: the account is disabled and its job is there, not done. [Confirmed]
    says of the trace that the gateway confirmed the revocation. *)
Section Owed.
Context (env : nat -> turn) `{TeardownService}.
Context (userId jobId : string) (Confirmed : list event -> Prop).

Definition owed (d : db) : Prop :=
  is_disabled (d_users d !! userId) = true
  /\ (exists r, d_teardown d !! jobId = Some r /\ Teardown.td_user_id r = userId
                /\ has_status JDone r = false)
  /\ forall k r, d_teardown d !! k = Some r -> job_id r = jobId -> Teardown.td_user_id r = userId.

Definition kept : world_pred := fun d tr _ => owed d \/ Confirmed tr.

Context (Hrivals : forall n d, owed d -> owed (t_rivals (env n) d)).
Context (Hmono : forall tr tr', tr `prefix_of` tr' -> Confirmed tr -> Confirmed tr').
(** The service keeps the debt of every account but pays none of it itself, and
    what it answers for this account is confirmed. *)
Context (Hservice : forall u s, leads env kept kept (disableGatewayAccess u s)).
Context (Hconfirms : forall s, ends env kept
  (fun r => match r with Ok _ => fun _ tr _ => Confirmed tr | Throw _ => kept end)
  (disableGatewayAccess userId s)).
Context (Hframe : forall u s, frame (disableGatewayAccess u s)).

Lemma kept_rivals : rival_closed env kept.
Proof. intros n d tr c [H1|H1]; [left; by apply Hrivals|by right]. Qed.
Lemma kept_leases : lease_closed kept.
Proof. by intros d tr c l [H1|H1]; [left|right]. Qed.
Lemma kept_counters d tr c c' : kept d tr c -> kept d tr c'.
Proof. done. Qed.

(** A statement on the queue that keeps the account's undone row, and gives no
    row another id or account. *)
Definition keeps_debt (f : turn -> Teardown.table -> Teardown.table) : Prop := forall n,
  retains Teardown.td_user_id jobId (f (env n)) /\ rowwise Teardown.td_user_id (f (env n)).

Lemma leads_kept_write {A} (g : turn -> db -> A * db) f :
  (forall t d, (g t d).2 = with_teardown (f t (d_teardown d)) d) ->
  keeps_debt f -> leads env kept kept (statement_ok g).
Proof.
  intros Hg Hf. apply leads_statement_ok; [apply kept_rivals|by intros ???|].
  intros n d tr c [(Hd & (r & Hr & Hu & Hs) & Hall)|Hc]; [|by right].
  left. rewrite Hg. destruct (Hf n) as [Hret Hrow].
  destruct (Hret (d_teardown d) r Hr Hs) as (r' & Hr' & Hu' & Hs').
  split_and!; [done|exists r'; split_and!; [done|congruence|done]|].
  intros k r2 Hk Hid. destruct (Hrow (d_teardown d) k r2 Hk) as (r0 & Hr0 & Hid0 & ->).
  apply (Hall k); congruence.
Qed.

Lemma leads_kept_statement {A} (f : turn -> Teardown.table -> Teardown.table * A) :
  keeps_debt (fun t q => (f t q).1) ->
  leads env kept kept
    (statement_ok (fun t d => let '(q, a) := f t (d_teardown d) in (a, with_teardown q d))).
Proof. apply leads_kept_write. intros t d. by destruct (f t (d_teardown d)). Qed.

Lemma leads_kept_read {A} (f : turn -> db -> A) :
  leads env kept kept (statement_ok (fun t d => (f t d, d))).
Proof. apply leads_read, kept_rivals. Qed.

Lemma keeps_debt_reschedule job next error :
  keeps_debt (fun t q => (Teardown.reschedule job next error (t_now t) q).1).
Proof. intros n. split; [by apply retains_reschedule|by apply rowwise_reschedule]. Qed.

Lemma keeps_debt_claimPending job :
  keeps_debt (fun t q => (Teardown.claimPending job (t_ids t 0) (t_now t) q).1).
Proof. intros n. split; [by apply retains_claimPending|by apply rowwise_claimPending]. Qed.

Lemma keeps_debt_releaseStale olderThan :
  keeps_debt (fun t q => (Teardown.releaseStale olderThan (t_now t) q).1).
Proof. intros n. split; [by apply retains_releaseStale|by apply rowwise_releaseStale]. Qed.

Lemma keeps_debt_claimDue now limit :
  keeps_debt (fun t q => (Teardown.claimDue now limit (t_ids t 0) (t_now t) q).1).
Proof. intros n. split; [by apply retains_claimDue|by apply rowwise_claimDue]. Qed.

Lemma keeps_debt_delete job :
  job_id job <> jobId -> keeps_debt (fun _ q => (Teardown.deleteClaimed job q).1).
Proof. intros Hne n. split; [by apply retains_deleteClaimed|by apply rowwise_deleteClaimed]. Qed.

Lemma keeps_debt_markDone job at_ :
  job_id job <> jobId -> keeps_debt (fun _ q => (Teardown.markDone job at_ q).1).
Proof.
  intros Hne n. split.
  - intros q r Hr Hs. unfold Teardown.markDone, job_on_match.
    destruct (q !! job_id job) as [r0|]; [|by exists r].
    destruct (job_matches _ _ _); [|by exists r]. simpl. exists r. by rewrite lookup_insert_ne.
  - by apply rowwise_on_match.
Qed.

(** *** The steps of a job, for a job that is not somebody else's row *)

Lemma frame_teardown_write f : frame (teardown_write f).
Proof. apply frame_statement_ok. Qed.

Lemma frame_claim_attempt u job : frame (claim_attempt u job).
Proof. unfold claim_attempt, teardown_claimPending. frames. Qed.

Lemma frame_settle_attempt u s claimed : frame (settle_attempt u s claimed).
Proof.
  unfold settle_attempt, teardown_findByUser, teardown_markDone. pose proof (Hframe u s) as Hf.
  apply frame_bind; [auto with nexus|]. intros current. case_match; [auto with nexus|].
  apply frame_bind; [done|]. intros result. frames. apply frame_teardown_write.
Qed.

Lemma frame_runGatewayTeardown u s job : frame (runGatewayTeardown u s job).
Proof.
  unfold runGatewayTeardown. apply frame_bind; [apply frame_attempt, frame_claim_attempt|].
  intros [claimed|e]; [|auto with nexus].
  apply frame_bind; [apply frame_attempt, frame_settle_attempt|]. intros [a|e]; [auto with nexus|].
  unfold teardown_reschedule. frames. apply frame_teardown_write.
Qed.

Lemma frame_cancel job : frame (cancel_and_count job).
Proof.
  unfold cancel_and_count, cancelJob, users_find, teardown_deleteClaimed, teardown_write. frames.
  apply frame_locks, frame_transaction. frames.
Qed.

Lemma frame_teardown_runJob job : frame (teardown_runJob job).
Proof.
  unfold teardown_runJob, users_find. apply frame_bind; [auto with nexus|]. intros user.
  case_match; [apply frame_cancel|]. apply frame_bind; [apply frame_runGatewayTeardown|]. intros a.
  destruct (ga_outcome a); [unfold audit_record; frames..|].
  apply frame_bind; [auto with nexus|]. intros settled. case_match; [apply frame_cancel|].
  unfold teardown_reschedule. frames. apply frame_teardown_write.
Qed.

(** Once confirmed, nothing a frame does undoes it. *)
Lemma leads_confirmed {A} (m : M A) :
  frame m -> leads env (fun _ tr _ => Confirmed tr) (fun _ tr _ => Confirmed tr) m.
Proof.
  intros Hm w He HI. destruct (Hm w) as (H1 & _ & _ & _ & H5). split; [congruence|].
  unfold at_world. by eapply Hmono.
Qed.

Lemma confirmed_kept : implies (fun _ tr _ => Confirmed tr) kept.
Proof. intros d tr c H1. by right. Qed.

(** A job that is the account's, or not on the account's row. *)
Definition own_row (job : Teardown.Job) : Prop :=
  job_id job = jobId -> Teardown.td_user_id job = userId.

Lemma leads_kept_not_disabled {A} job (k : option UserRecord -> M A) :
  (forall user, is_disabled user = true -> leads env kept kept (k user)) ->
  (forall user, is_disabled user = false -> frame (k user)) ->
  (Teardown.td_user_id job <> userId -> forall user, leads env kept kept (k user)) ->
  leads env kept kept (do user <- users_find (Teardown.td_user_id job); k user).
Proof.
  intros Hdis Hframek Hother.
  destruct (decide (Teardown.td_user_id job = userId)) as [Hu|Hne].
  - apply leads_ends. eapply ends_bind with (P := fun r d tr c => kept d tr c /\
      match r with Ok user => is_disabled user = false -> Confirmed tr | Throw _ => True end);
      [| |by intros e d tr c []].
    + intros w He HI. unfold users_find, statement_ok, statement, cur. rewrite He.
      set (d := if w_tx w then w_db w else t_rivals (env (w_turn w)) (w_db w)).
      assert (Hd : kept d (w_trace w) (w_counters w))
        by (subst d; destruct (w_tx w); [done|by apply kept_rivals]).
      destruct (t_fault _); (split; [done|]); unfold at_world; simpl; (split; [done|]); [done|].
      intros Hnd. destruct Hd as [[Hd _]|Hc]; [|done]. unfold users_findById in Hnd. congruence.
    + intros user. destruct (is_disabled user) eqn:Hd.
      * intros w He [HI _]. by apply (Hdis user Hd).
      * apply leads_ends. eapply leads_strengthen with (K := fun _ tr _ => Confirmed tr).
        -- eapply leads_weaken; [by apply leads_confirmed, Hframek|apply confirmed_kept].
        -- intros d tr c [_ Hc]. by apply Hc.
  - eapply leads_bind; [apply leads_kept_read| |by intros ???]. intros user. by apply Hother.
Qed.

Lemma leads_cancel job : own_row job -> leads env kept kept (cancel_and_count job).
Proof.
  intros Hown. unfold cancel_and_count, cancelJob.
  eapply leads_bind with (K := kept); [| |by intros ???].
  2:{ intros []; [by apply leads_bump|by apply leads_ret; intros ???]. }
  apply leads_locks; [apply kept_rivals|apply kept_leases|apply kept_rivals|apply kept_leases|by intros ???|].
  apply leads_transaction_framed.
  - unfold users_find, teardown_deleteClaimed, teardown_write. frames.
  - apply kept_rivals.
  - apply kept_rivals.
  - by intros ???.
  - apply leads_kept_not_disabled.
    + intros user ->. by apply leads_ret; intros ???.
    + intros user ->. unfold teardown_deleteClaimed, teardown_write. frames.
    + intros Hne user. destruct (is_disabled user); [by apply leads_ret; intros ???|].
      eapply leads_bind with (K := kept); [| |by intros ???]; [|intros _; by apply leads_ret; intros ???].
      apply (leads_kept_statement (fun _ => Teardown.deleteClaimed job)), keeps_debt_delete. auto.
  - intros d d' tr tr' c c' [Ho|Hc] _ Hp; [by left|right; by eapply Hmono].
Qed.

Lemma leads_settle_attempt job s claimed :
  own_row job -> job_id claimed = job_id job ->
  leads env kept kept (settle_attempt (Teardown.td_user_id job) s claimed).
Proof.
  intros Hown Hid. unfold settle_attempt.
  eapply leads_bind; [apply leads_kept_read| |by intros ???]. intros current.
  case_match; [by apply leads_throw; intros ???|].
  destruct (decide (Teardown.td_user_id job = userId)) as [Hu|Hne].
  - rewrite Hu. apply leads_ends. eapply ends_bind; [apply Hconfirms| |by intros e ???].
    intros result. apply leads_ends.
    eapply leads_weaken; [apply leads_confirmed|apply confirmed_kept].
    unfold teardown_markDone. frames. apply frame_teardown_write.
  - eapply leads_bind; [apply Hservice| |by intros ???]. intros result.
    eapply leads_bind; [apply leads_date_now| |by intros ???]. intros now.
    eapply leads_bind; [apply (leads_kept_statement (fun _ => Teardown.markDone claimed now))| |by intros ???].
    { apply keeps_debt_markDone. rewrite Hid. auto. }
    intros ok. destruct (negb ok); [by apply leads_throw; intros ???|].
    destruct (_ && _); by apply leads_ret; intros ???.
Qed.

Lemma leads_claim_attempt u job : leads env kept kept (claim_attempt u job).
Proof.
  unfold claim_attempt. destruct job as [job|]; [|by apply leads_throw; intros ???].
  case_bool_decide; [by apply leads_throw; intros ???|].
  eapply leads_bind with (K := kept); [| |by intros ???].
  - destruct (j_status _); [|by apply leads_ret; intros ???..].
    apply (leads_kept_statement (fun t => Teardown.claimPending job (t_ids t 0) (t_now t))).
    apply keeps_debt_claimPending.
  - intros [c|]; [by apply leads_ret; intros ???|by apply leads_throw; intros ???].
Qed.

Lemma yields_claim_attempt u job :
  yields env kept (fun c => job_id c = job_id job) (claim_attempt u (Some job)).
Proof.
  unfold claim_attempt. case_bool_decide; [apply yields_throw|]. intros w a w' He HI Hrun.
  apply mbind_ok in Hrun as (c & w1 & Hc & Hret).
  destruct c as [c|]; [|done]. injection Hret as -> _.
  destruct (j_status _); [|by injection Hc as -> _|done].
  apply statement_ok_inv in Hc as (d & _ & Hc & _).
  destruct (Teardown.claimPending _ _ _ _) as [q c'] eqn:Hcp. injection Hc as -> _.
  apply (claimPending_same Teardown.td_user_id ltac:(done) ltac:(done) job (t_ids (cur w) 0) (t_now (cur w)) (d_teardown d)).
  unfold Teardown.claimPending in Hcp. by rewrite Hcp.
Qed.

Lemma leads_runGatewayTeardown job s :
  own_row job ->
  leads env kept kept (runGatewayTeardown (Teardown.td_user_id job) s (Some job)).
Proof.
  intros Hown. unfold runGatewayTeardown.
  apply leads_bind_yields with (K := kept)
    (Q := fun r => match r with Ok c => job_id c = job_id job | Throw _ => True end);
    [apply leads_attempt, leads_claim_attempt| | |by intros ???].
  { intros w r w' He HI Hr. unfold mattempt in Hr.
    pose proof (yields_claim_attempt (Teardown.td_user_id job) job w) as Hy.
    destruct (claim_attempt _ _ w) as [[c|e] w1]; injection Hr as <- _; [by eapply Hy|done]. }
  intros [claimed|e] Hid; [|by apply leads_ret; intros ???].
  eapply leads_bind; [by apply leads_attempt, leads_settle_attempt| |by intros ???].
  intros [a|e]; [by apply leads_ret; intros ???|].
  eapply leads_bind with (K := kept); [| |by intros ???]; [|intros _; by apply leads_ret; intros ???].
  destruct (has_status _ _); [|by apply leads_ret; intros ???].
  eapply leads_catch with (K := kept); [| |by intros ???]; [|intros _; by apply leads_ret; intros ???].
  eapply leads_bind; [apply leads_date_now| |by intros ???]. intros now.
  apply (leads_kept_statement (fun t => Teardown.reschedule claimed now (ex_message e) (t_now t))).
  apply keeps_debt_reschedule.
Qed.

Lemma leads_audit_record actor action target details ip :
  leads env kept kept (audit_record actor action target details ip).
Proof.
  apply leads_statement; [apply kept_rivals|by intros ???|].
  intros n d tr c a d' HI Hc. destruct (auditLogs_create _ _) as [[row rows]|e]; [|done].
  by injection Hc as _ <-.
Qed.

Lemma leads_teardown_runJob job : own_row job -> leads env kept kept (teardown_runJob job).
Proof.
  intros Hown. unfold teardown_runJob.
  eapply leads_bind; [apply leads_kept_read| |by intros ???]. intros user.
  case_match; [by apply leads_cancel|].
  eapply leads_bind; [by apply leads_runGatewayTeardown| |by intros ???]. intros a.
  assert (Hdone : forall x, leads env kept kept (do_ bump "completed" 1; do_ audit_record SYSTEM_ACTOR
    "user.gateway_teardown_complete" {| target_type := "user"; target_id := Some (Teardown.td_user_id job) |}
    x None; mret tt)).
  { intros x. eapply leads_bind with (K := kept); [by apply leads_bump| |by intros ???]. intros _.
    eapply leads_bind; [apply leads_audit_record| |by intros ???]. intros _. by apply leads_ret; intros ???. }
  destruct (ga_outcome a); [apply Hdone..|].
  eapply leads_bind; [apply leads_kept_read| |by intros ???]. intros settled.
  case_match; [by apply leads_cancel|].
  eapply leads_bind; [apply leads_date_now| |by intros ???]. intros now.
  eapply leads_bind; [apply leads_math_random| |by intros ???]. intros r.
  eapply leads_bind; [apply (leads_kept_statement (fun t => Teardown.reschedule job _ _ (t_now t)))| |by intros ???].
  { apply keeps_debt_reschedule. }
  intros []; [by apply leads_bump|by apply leads_ret; intros ???].
Qed.

(** A job claimed while the debt stands is the account's if it is its row. *)
Definition kept_job (job : Teardown.Job) : world_pred :=
  fun d tr c => kept d tr c /\ (own_row job \/ Confirmed tr).

Lemma leads_teardown_claim_one now : leads env kept kept (teardown_claim_one now).
Proof.
  apply (leads_kept_write _ (fun t q => (Teardown.claimDue now 1 (t_ids t 0) (t_now t) q).1)).
  - intros t d. by destruct (Teardown.claimDue _ _ _ _ _).
  - apply keeps_debt_claimDue.
Qed.

Lemma ends_teardown_claim_one now :
  ends env kept (fun r => match r with Ok (Some job) => kept_job job | _ => kept end)
    (teardown_claim_one now).
Proof.
  intros w He HI. destruct (leads_teardown_claim_one now w He HI) as [He' HI']. split; [done|].
  destruct (teardown_claim_one now w) as [r w'] eqn:Hrun. simpl in *.
  destruct r as [[job|]|e]; [|done..]. split; [done|].
  apply statement_ok_inv in Hrun as (d & Hd & Hc & Hw'). unfold cur in Hd, Hc. rewrite He in Hd, Hc.
  assert (Htr : w_trace w' = w_trace w) by (by rewrite Hw'). unfold kept_job. rewrite Htr.
  assert (Hkd : kept d (w_trace w) (w_counters w))
    by (subst d; destruct (w_tx w); [done|by apply kept_rivals]).
  destruct Hkd as [(_ & _ & Hall)|Hconf]; [left|by right]. intros Hid.
  destruct (Teardown.claimDue _ _ _ _ _) as [q jobs] eqn:Hcl. injection Hc as Hjob _.
  destruct (claimDue_pulled Teardown.td_user_id ltac:(done) ltac:(done) now 1 (t_ids (env (w_turn w)) 0)
              (t_now (env (w_turn w))) (d_teardown d) job) as (k & r & Hr & Hi & ->).
  { change (head (Teardown.claimDue now 1 (t_ids (env (w_turn w)) 0) (t_now (env (w_turn w))) (d_teardown d)).2
            = Some job). by rewrite Hcl. }
  apply (Hall k); congruence.
Qed.

Lemma tops_teardown_runTick batchSize :
  tops env kept (fun _ => kept) (teardown_runTick batchSize).
Proof.
  unfold teardown_runTick. eapply moded_bind with (P := fun _ => kept); [|by intros u w|by intros e ???].
  apply (tops_run_worker env _ _ _ _ kept kept_job).
  - intros d tr c c'. apply kept_counters.
  - by intros job d tr c c' [].
  - by intros job d tr c [].
  - intros t. apply moded_leads; [apply frame_statement_ok|].
    apply (leads_kept_write _ (fun t' q => (Teardown.releaseStale t (t_now t') q).1)).
    + intros t' d. by destruct (Teardown.releaseStale _ _ _).
    + apply keeps_debt_releaseStale.
  - intros now. apply moded_ends; [apply frame_statement_ok|apply ends_teardown_claim_one].
  - intros job. apply moded_leads; [apply frame_teardown_runJob|].
    intros w He [HI [Hown|Hconf]]; [by apply leads_teardown_runJob|].
    eapply leads_weaken; [apply leads_confirmed, frame_teardown_runJob|apply confirmed_kept|done|done].
Qed.
End Owed.

(** The gateway confirmed the revocation of the account. *)
Definition confirmed (userId : string) (tr : list event) : Prop := GatewayRevoked userId ∈ tr.

(** What the worker relies on of the credentials service: it settles no job
    itself, and its answer for an account means the gateway confirmed. *)
Class TeardownContract `{TeardownService} (env : nat -> turn) (userId jobId : string) : Prop := {
  contract_frame : forall u s, frame (disableGatewayAccess u s);
  contract_keeps : forall u s, leads env (kept userId jobId (confirmed userId))
                                 (kept userId jobId (confirmed userId)) (disableGatewayAccess u s);
  contract_confirms : forall s, ends env (kept userId jobId (confirmed userId))
    (fun r => match r with
              | Ok _ => fun _ tr _ => confirmed userId tr
              | Throw _ => kept userId jobId (confirmed userId)
              end) (disableGatewayAccess userId s);
}.

(** *** A sample service, for the witnesses

    The gateway revokes [u1] and times out on everybody else. *)

#[local] Instance sample_teardown_service : TeardownService := {|
  disableGatewayAccess := fun u _ =>
    if decide (u = "u1"%string)
    then fun w => (Ok {| gt_consumer_id := Some "c1"%string; gt_revoked_credentials := 1;
                         gt_removed_groups := []; gt_deleted_consumers := [] |},
                   emit (GatewayRevoked "u1") w)
    else mthrow (driverError "Edge timed out");
|}.

Lemma sample_teardown_contract env u jobId : TeardownContract env u jobId.
Proof.
  split.
  - intros v s. simpl. case_decide; [|apply frame_throw]. intros w. split_and!; simpl; [done..|].
    by apply prefix_app_r.
  - intros v s w He [Ho|Hc]; simpl; case_decide; simpl; (split; [done|]); [by left..| |by right].
    right. unfold confirmed in *. simpl. apply elem_of_app. by left.
  - intros s w He HI. simpl. case_decide; simpl; (split; [done|]); [|done].
    subst. unfold at_world, confirmed. simpl. apply elem_of_app. right. by left.
Qed.

Definition sample_disabled_user (id : string) : UserRecord := {|
  u_id := id; u_email := id +:+ "@example.com"; u_password_hash := ""; u_display_name := "U"; u_role := client;
  u_org_id := None; u_company := None; u_phone := None; u_status := UserDisabled;
  u_email_verified := true; u_last_login_at := None; u_created_at := 0; u_updated_at := 0;
  u_email_fence := "";
|}.

Definition sample_teardown_job (id user : string) : Teardown.Job := {|
  Teardown.td_head := {| j_id := id; j_generation := "g0"; j_status := JPending; j_attempts := 0;
                         j_next_attempt_at := Some 10; j_last_error := None; j_created_at := 5;
                         j_updated_at := 5 |};
  Teardown.td_user_id := user; Teardown.td_requested_by := None; Teardown.td_completed_at := None;
|}.

Definition sample_owing : world :=
  world_of (with_users (<["u1" := sample_disabled_user "u1"]> {["u2" := sample_disabled_user "u2"]})
              (with_teardown (<["j1" := sample_teardown_job "j1" "u1"]> {["j2" := sample_teardown_job "j2" "u2"]})
                 db_empty)) sample_turn [].

Lemma sample_owed id user :
  (id, user) = ("j1", "u1")%string \/ (id, user) = ("j2", "u2")%string -> owed user id (w_db sample_owing).
Proof.
  intros [[= -> ->]|[= -> ->]]; (split; [reflexivity|]); (split; [by eexists|]);
    intros k r Hr Hid; simpl in Hr; apply lookup_insert_Some in Hr as [[<- <-]|[_ Hr]];
    try done; by apply lookup_singleton_Some in Hr as [_ <-].
Qed.

(** ** Properties *)


