(* ===== verification/AccountRecovery.v ===== *)
(** * The account recovery worker

    [server/src/credentials/account-recovery.ts]: the revocation a trusted
    password reset owes, retried until it lands, and the block on issuing
    credentials, which the eighth failure lifts. The revocation itself is the
    credentials service's, an interface here. *)

From S2P Require Import Prelude Json Roles Leases ClaimQueue Users JobQueues AuditLog World LeaseFence JobWorkers.
Open Scope Z_scope.

Definition ACCOUNT_RECOVERY_BATCH_SIZE : nat := 10.
Definition ACCOUNT_RECOVERY_BASE_BACKOFF_MS : Z := 10000.
Definition ACCOUNT_RECOVERY_MAX_BACKOFF_MS : Z := 5 * 60000.
Definition ACCOUNT_RECOVERY_STALE_AFTER_MS : Z := 5 * 60000.
Definition ACCOUNT_RECOVERY_BLOCKING_ATTEMPTS : Z := 8.

Definition recoveryBlocksIssuance (job : Recovery.Job) : bool :=
  bool_decide (Recovery.rc_unblocked_at job = None).

Definition accountRecoveryBackoffMs (attempts random : Z) : Z :=
  job_backoff ACCOUNT_RECOVERY_BASE_BACKOFF_MS ACCOUNT_RECOVERY_MAX_BACKOFF_MS attempts random.

Inductive RecoveryOutcome : Type := RecoveryOk | RecoveryPending.

Record AccountRecoveryAttempt : Type := {
  ra_outcome : RecoveryOutcome;
  ra_revoked : Z;
  ra_error : option string;
}.

Record AccountRecoveryTickResult : Type := {
  ar_released : Z;
  ar_claimed : Z;
  ar_completed : Z;
  ar_revoked : Z;
  ar_rescheduled : Z;
  ar_abandoned : Z;
}.

(** [Pick<CredentialsService, 'revokeForAccountRecovery'>]: the number of
    credentials of the account created before the cutoff that were revoked. *)
Class RecoveryService : Type := {
  revokeForAccountRecovery : UserRecord -> option string -> option Z -> M Z;
}.

(** ** The store's calls *)

Definition recovery_write (f : turn -> Recovery.table -> Recovery.table * bool) : M bool :=
  statement_ok (fun t d => let '(q, ok) := f t (d_recovery d) in (ok, with_recovery q d)).
Definition recovery_claimPending (job : Recovery.Job) : M (option Recovery.Job) :=
  statement_ok (fun t d =>
    let '(q, c) := Recovery.claimPending job (t_ids t 0) (t_now t) (d_recovery d) in
    (c, with_recovery q d)).
Definition recovery_findByUser (userId : string) : M (option Recovery.Job) :=
  statement_ok (fun _ d => (Recovery.findByUser userId (d_recovery d), d)).
Definition recovery_deleteClaimed (job : Recovery.Job) : M bool :=
  recovery_write (fun _ => Recovery.deleteClaimed job).
Definition recovery_reschedule (job : Recovery.Job) (next : Z) (error : string) : M bool :=
  recovery_write (fun t => Recovery.reschedule job next error (t_now t)).
Definition recovery_markUnblocked (job : Recovery.Job) (at_ : Z) : M bool :=
  recovery_write (fun t => Recovery.markUnblocked job at_ (t_now t)).
Definition recovery_releaseStale (olderThan : Z) : M Z :=
  statement_ok (fun t d => let '(q, n) := Recovery.releaseStale olderThan (t_now t) (d_recovery d) in
                           (n, with_recovery q d)).
Definition recovery_claim_one (now : Z) : M (option Recovery.Job) :=
  statement_ok (fun t d =>
    let '(q, jobs) := Recovery.claimDue now 1 (t_ids t 0) (t_now t) (d_recovery d) in
    (head jobs, with_recovery q d)).

(** ** One attempt *)
Section Attempt.
Context `{RecoveryService}.

Definition recovery_no_generation : exn :=
  driverError "Account recovery has no matching queued generation".
Definition recovery_superseded : exn := driverError "Account recovery attempt was superseded".

(** The claim of the attempt: the job's own, or a new one on a pending job. *)
Definition recovery_claim (userId : string) (job : option Recovery.Job) : M Recovery.Job :=
  match job with
  | None => mthrow recovery_no_generation
  | Some job =>
      if bool_decide (Recovery.rc_user_id job <> userId) then mthrow recovery_no_generation
      else
        do claimed <- match j_status (Recovery.rc_head job) with
                      | JPending => recovery_claimPending job
                      | JSending => mret (Some job)
                      | JDone => mret None
                      end;
        match claimed with Some c => mret c | None => mthrow recovery_superseded end
  end.

Definition recovery_settle (userId : string) (ip : option string) (claimed : Recovery.Job)
    : M AccountRecoveryAttempt :=
  do current <- recovery_findByUser userId;
  if match current with
     | Some r => negb (bool_decide (job_id r = job_id claimed))
                 || negb (bool_decide (job_generation r = job_generation claimed))
                 || negb (has_status JSending r)
     | None => true
     end
  then mthrow recovery_superseded
  else
    do user <- users_find userId;
    match user with
    | None =>
        do_ recovery_deleteClaimed claimed;
        mret {| ra_outcome := RecoveryOk; ra_revoked := 0; ra_error := None |}
    | Some user =>
        do revoked <- revokeForAccountRecovery user ip (Recovery.rc_unblocked_at claimed);
        do ok <- recovery_deleteClaimed claimed;
        if ok : bool then mret {| ra_outcome := RecoveryOk; ra_revoked := revoked; ra_error := None |}
        else mthrow recovery_superseded
    end.

(** The failed claim goes back to the queue and, from the eighth failure on,
    stops blocking with the row that says so. *)
Definition recovery_requeue_body (userId : string) (ip : option string) (job : Recovery.Job)
    (nextAt unblockedAt : Z) (message : string) : M bool :=
  do rescheduled <- recovery_reschedule job nextAt message;
  if negb rescheduled
     || negb (bool_decide (Recovery.rc_unblocked_at job = None)
              && bool_decide (ACCOUNT_RECOVERY_BLOCKING_ATTEMPTS <= job_attempts job))
  then mret false
  else
    do ok <- recovery_markUnblocked job unblockedAt;
    if negb ok then mret false
    else
      do_ audit_record SYSTEM_ACTOR "credential.recovery_stalled"
            {| target_type := "user"; target_id := Some userId |}
            [("attempts", JNum (job_attempts job)); ("last_error", JStr message);
             ("next_attempt_at", JNum nextAt)]%string ip;
      mret true.

Definition recovery_requeue (userId : string) (ip : option string) (job : Recovery.Job)
    (nextAt unblockedAt : Z) (message : string) : M bool :=
  transaction (recovery_requeue_body userId ip job nextAt unblockedAt message).

Definition failed_recovery (error : exn) : AccountRecoveryAttempt := {|
  ra_outcome := RecoveryPending; ra_revoked := 0; ra_error := Some (ex_message error);
|}.

Definition runAccountRecovery (userId : string) (ip : option string) (job : option Recovery.Job)
    : M AccountRecoveryAttempt :=
  do claimed <- mattempt (recovery_claim userId job);
  match claimed with
  | Throw error => mret (failed_recovery error)
  | Ok claimed =>
      do attempt <- mattempt (recovery_settle userId ip claimed);
      match attempt with
      | Ok a => mret a
      | Throw error =>
          do now <- date_now;
          do r <- math_random;
          let delay := if match job with Some j => has_status JPending j | None => false end
                       then 0 else accountRecoveryBackoffMs (job_attempts claimed) r in
          do_ mcatch (recovery_requeue userId ip claimed (now + delay) now (ex_message error))
                (fun _ => mret false);
          mret (failed_recovery error)
      end
  end.

(** ** The worker *)

Definition recovery_runJob (job : Recovery.Job) : M unit :=
  do attempt <- runAccountRecovery (Recovery.rc_user_id job) None (Some job);
  match ra_outcome attempt with
  | RecoveryPending => bump "rescheduled" 1
  | RecoveryOk => do_ bump "completed" 1; bump "revoked" (ra_revoked attempt)
  end.

Definition recovery_tick_result (w : world) : AccountRecoveryTickResult := {|
  ar_released := counter "released" w; ar_claimed := counter "claimed" w;
  ar_completed := counter "completed" w; ar_revoked := counter "revoked" w;
  ar_rescheduled := counter "rescheduled" w; ar_abandoned := counter "abandoned" w;
|}.

Definition recovery_runTick (batchSize : nat) : M AccountRecoveryTickResult :=
  do_ run_worker recovery_releaseStale recovery_claim_one recovery_runJob
        ACCOUNT_RECOVERY_STALE_AFTER_MS batchSize;
  fun w => (Ok (recovery_tick_result w), w).
End Attempt.

(** *** Issuing credentials *)

(** [assertNoPendingRecovery] of [credentials/service.ts]. *)
Definition assertNoPendingRecovery (userId : string) : M unit :=
  do pending <- recovery_findByUser userId;
  match pending with
  | Some job => if recoveryBlocksIssuance job
                then mthrow (conflict "Credentials are being revoked after an account recovery; try again once it completes"
                               [("reason", "account_recovery_pending")]%string)
                else mret tt
  | None => mret tt
  end.

(** ** Lemmas: the block on issuance

    [guarded]: the account exists, its job is there and either blocks, or the
    audit trail has the row of a stalled recovery with eight attempts or more. *)

Definition stalled (userId : string) (d : db) : Prop := exists k a n,
  d_audit d !! k = Some a /\ a_action a = "credential.recovery_stalled"%string
  /\ a_target_id a = Some userId /\ detail "attempts" (a_details a) = Some (JNum n)
  /\ ACCOUNT_RECOVERY_BLOCKING_ATTEMPTS <= n.

Section Guard.
Context (env : nat -> turn) `{RecoveryService}.
Context (userId jobId : string) (Confirmed : list event -> Prop).

(** The job's row is there, whether it blocks or not. *)
Definition pending_row (d : db) (P : Recovery.Job -> Prop) : Prop :=
  (exists u, d_users d !! userId = Some u /\ u_id u = userId)
  /\ (exists r, d_recovery d !! jobId = Some r /\ Recovery.rc_user_id r = userId
                /\ has_status JDone r = false /\ P r)
  /\ forall k r, d_recovery d !! k = Some r -> job_id r = jobId -> Recovery.rc_user_id r = userId.

Definition guarded (d : db) : Prop :=
  pending_row d (fun r => recoveryBlocksIssuance r = true \/ stalled userId d).

Definition guard : world_pred := fun d tr _ => guarded d \/ Confirmed tr.

Context (Hrivals : forall n d, guarded d -> guarded (t_rivals (env n) d)).
Context (Hmono : forall tr tr', tr `prefix_of` tr' -> Confirmed tr -> Confirmed tr').
Context (Hservice : forall u ip c, leads env guard guard (revokeForAccountRecovery u ip c)).
Context (Hconfirms : forall u ip c, u_id u = userId -> ends env guard
  (fun r => match r with Ok _ => fun _ tr _ => Confirmed tr | Throw _ => guard end)
  (revokeForAccountRecovery u ip c)).
Context (Hframe : forall u ip c, frame (revokeForAccountRecovery u ip c)).

Lemma guard_rivals : rival_closed env guard.
Proof. intros n d tr c [H1|H1]; [left; by apply Hrivals|by right]. Qed.

Definition recovery_own (r : Recovery.Job) : string * option Z :=
  (Recovery.rc_user_id r, Recovery.rc_unblocked_at r).

Definition keeps_block (f : turn -> Recovery.table -> Recovery.table) : Prop := forall n,
  retains recovery_own jobId (f (env n)) /\ rowwise recovery_own (f (env n)).

Lemma pending_row_write d (P : Recovery.Job -> Prop) f :
  retains recovery_own jobId f -> rowwise recovery_own f ->
  (forall r r', recovery_own r' = recovery_own r -> P r -> P r') ->
  pending_row d P -> pending_row (with_recovery (f (d_recovery d)) d) P.
Proof.
  intros Hret Hrow HP (Hu & (r & Hr & Hru & Hs & Hp) & Hall).
  destruct (Hret (d_recovery d) r Hr Hs) as (r' & Hr' & Ho & Hs'). split_and!; [done| |].
  - exists r'. injection Ho as Ho1 Ho2. split_and!; [done|congruence|done|].
    eapply HP; [|exact Hp]. unfold recovery_own. congruence.
  - intros k r2 Hk Hid. destruct (Hrow (d_recovery d) k r2 Hk) as (r0 & Hr0 & Hid0 & Ho').
    injection Ho' as -> _. apply (Hall k); congruence.
Qed.

Lemma guarded_write d f :
  retains recovery_own jobId f -> rowwise recovery_own f ->
  guarded d -> guarded (with_recovery (f (d_recovery d)) d).
Proof.
  intros Hret Hrow. apply pending_row_write; [done..|].
  intros r r' [= _ Ho] [Hb|Hst]; [left|by right]. unfold recoveryBlocksIssuance in *. by rewrite Ho.
Qed.

Lemma leads_guard_write {A} (g : turn -> db -> A * db) f :
  (forall t d, (g t d).2 = with_recovery (f t (d_recovery d)) d) ->
  keeps_block f -> leads env guard guard (statement_ok g).
Proof.
  intros Hg Hf. apply leads_statement_ok; [apply guard_rivals|by intros ???|].
  intros n d tr c [Hd|Hc]; [|by right]. left. rewrite Hg. destruct (Hf n). by apply guarded_write.
Qed.

Lemma leads_guard_statement {A} (f : turn -> Recovery.table -> Recovery.table * A) :
  keeps_block (fun t q => (f t q).1) ->
  leads env guard guard
    (statement_ok (fun t d => let '(q, a) := f t (d_recovery d) in (a, with_recovery q d))).
Proof. apply leads_guard_write. intros t d. by destruct (f t (d_recovery d)). Qed.

Lemma leads_guard_read {A} (f : turn -> db -> A) :
  leads env guard guard (statement_ok (fun t d => (f t d, d))).
Proof. apply leads_read, guard_rivals. Qed.

Lemma keeps_block_reschedule job next error :
  keeps_block (fun t q => (Recovery.reschedule job next error (t_now t) q).1).
Proof. intros n. split; [by apply retains_reschedule|by apply rowwise_reschedule]. Qed.

Lemma keeps_block_claimPending job :
  keeps_block (fun t q => (Recovery.claimPending job (t_ids t 0) (t_now t) q).1).
Proof. intros n. split; [by apply retains_claimPending|by apply rowwise_claimPending]. Qed.

Lemma keeps_block_releaseStale olderThan :
  keeps_block (fun t q => (Recovery.releaseStale olderThan (t_now t) q).1).
Proof. intros n. split; [by apply retains_releaseStale|by apply rowwise_releaseStale]. Qed.

Lemma keeps_block_claimDue now limit :
  keeps_block (fun t q => (Recovery.claimDue now limit (t_ids t 0) (t_now t) q).1).
Proof. intros n. split; [by apply retains_claimDue|by apply rowwise_claimDue]. Qed.

Lemma keeps_block_delete job :
  job_id job <> jobId -> keeps_block (fun _ q => (Recovery.deleteClaimed job q).1).
Proof. intros Hne n. split; [by apply retains_deleteClaimed|by apply rowwise_deleteClaimed]. Qed.

(** *** Frames *)

Lemma frame_recovery_write f : frame (recovery_write f).
Proof. apply frame_statement_ok. Qed.

Lemma frame_recovery_claim u job : frame (recovery_claim u job).
Proof. unfold recovery_claim, recovery_claimPending. frames. Qed.

Lemma frame_recovery_settle u ip claimed : frame (recovery_settle u ip claimed).
Proof.
  unfold recovery_settle, recovery_findByUser, recovery_deleteClaimed, users_find, recovery_write.
  apply frame_bind; [auto with nexus|]. intros current. case_match; [auto with nexus|].
  apply frame_bind; [auto with nexus|]. intros [user|]; [|frames].
  apply frame_bind; [apply Hframe|]. intros revoked. frames.
Qed.

Lemma frame_requeue_body u ip job nextAt unblockedAt message :
  frame (recovery_requeue_body u ip job nextAt unblockedAt message).
Proof.
  unfold recovery_requeue_body, recovery_reschedule, recovery_markUnblocked, recovery_write, audit_record.
  frames.
Qed.

Lemma frame_runAccountRecovery u ip job : frame (runAccountRecovery u ip job).
Proof.
  unfold runAccountRecovery. apply frame_bind; [apply frame_attempt, frame_recovery_claim|].
  intros [claimed|e]; [|auto with nexus].
  apply frame_bind; [apply frame_attempt, frame_recovery_settle|]. intros [a|e]; [auto with nexus|].
  apply frame_bind; [auto with nexus|]. intros now. apply frame_bind; [auto with nexus|]. intros r.
  apply frame_bind; [|auto with nexus]. apply frame_catch; [|auto with nexus].
  apply frame_transaction, frame_requeue_body.
Qed.

Lemma frame_recovery_runJob job : frame (recovery_runJob job).
Proof. unfold recovery_runJob. apply frame_bind; [apply frame_runAccountRecovery|]. intros a. frames. Qed.

Lemma leads_revoked {A} (m : M A) :
  frame m -> leads env (fun _ tr _ => Confirmed tr) (fun _ tr _ => Confirmed tr) m.
Proof.
  intros Hm w He HI. destruct (Hm w) as (H1 & _ & _ & _ & H5). split; [congruence|].
  unfold at_world. by eapply Hmono.
Qed.

Lemma revoked_guard : implies (fun _ tr _ => Confirmed tr) guard.
Proof. intros d tr c H1. by right. Qed.

Lemma leads_revoked_guard {A} (m : M A) : frame m -> leads env (fun _ tr _ => Confirmed tr) guard m.
Proof. intros Hm. eapply leads_weaken; [by apply leads_revoked|apply revoked_guard]. Qed.

(** *** The steps of a job, for a job that is not somebody else's row *)

Definition own_recovery (job : Recovery.Job) : Prop :=
  job_id job = jobId -> Recovery.rc_user_id job = userId.

(** The row may have just stopped blocking. *)
Definition unguarded : world_pred := fun d tr _ => pending_row d (fun _ => True) \/ Confirmed tr.

Lemma moded_markUnblocked job at_ :
  moded env true guard
    (fun r => match r with
              | Ok true => if decide (job_id job = jobId) then unguarded else guard
              | Ok false => guard
              | Throw _ => fun _ _ _ => True
              end) (recovery_markUnblocked job at_).
Proof.
  apply moded_statement. intros n d tr c HI. split; [done|]. intros b d' Heq.
  destruct (Recovery.markUnblocked job at_ (t_now (env n)) (d_recovery d)) as [q ok] eqn:Hm.
  injection Heq as <- <-. unfold Recovery.markUnblocked in Hm.
  destruct (d_recovery d !! job_id job) as [r0|] eqn:Hr0; [|injection Hm as <- <-; by destruct d].
  destruct (_ && _) eqn:Hc; injection Hm as <- <-; [|by destruct d].
  destruct (decide (job_id job = jobId)) as [Hid|Hid];
    (destruct HI as [(Hu & (r & Hr & Hru & Hs & Hp) & Hall)|Hconf]; [left|by right]).
  - rewrite Hid in Hr0. assert (r0 = r) as -> by congruence. split_and!; [done| |].
    + eexists. simpl. rewrite Hid, lookup_insert_eq. split_and!; [done|done|done|done].
    + intros k r2 Hk Hid2. simpl in Hk. apply lookup_insert_Some in Hk as [[<- <-]|[_ Hk]]; [|by apply (Hall k)].
      exact Hru.
  - split_and!; [done| |].
    + exists r. simpl. rewrite lookup_insert_ne by done. split_and!; [done..|].
      destruct Hp as [Hp|(k & a & m & Hp)]; [by left|right]. by exists k, a, m.
    + intros k r2 Hk Hid2. simpl in Hk. apply lookup_insert_Some in Hk as [[<- <-]|[_ Hk]]; [|by apply (Hall k)].
      by apply (Hall (job_id job) r0).
Qed.

Lemma moded_stalled_row ip attempts details :
  ACCOUNT_RECOVERY_BLOCKING_ATTEMPTS <= attempts ->
  moded env true unguarded (fun r => match r with Ok _ => guard | Throw _ => fun _ _ _ => True end)
    (audit_record SYSTEM_ACTOR "credential.recovery_stalled"
       {| target_type := "user"; target_id := Some userId |}
       (("attempts"%string, JNum attempts) :: details) ip).
Proof.
  intros Hat. apply moded_statement. intros n d tr c [HI|Hc]; (split; [done|]); intros a d' Heq; [left|by right].
  destruct (auditLogs_create _ _) as [[row rows]|e] eqn:Hcr; [|done]. injection Heq as <- <-.
  apply auditLogs_create_grows in Hcr as (_ & Hrow & Hin).
  destruct HI as (Hu & (r & Hr & Hru & Hs & _) & Hall). split_and!; [done| |done].
  exists r. split_and!; [done..|]. right. eexists _, _, attempts. split_and!; [exact Hin|done|done|done|done].
Qed.

Lemma moded_audit_guard actor action target details ip :
  moded env true guard (fun r => match r with Ok _ => guard | Throw _ => fun _ _ _ => True end)
    (audit_record actor action target details ip).
Proof.
  apply moded_statement. intros n d tr c HI. split; [done|]. intros a d' Heq.
  destruct (auditLogs_create _ _) as [[row rows]|e] eqn:Hcr; [|done]. injection Heq as <- <-.
  apply auditLogs_create_grows in Hcr as (Hsub & _ & _).
  destruct HI as [(Hu & (r & Hr & Hru & Hs & Hp) & Hall)|Hc]; [left|by right]. split_and!; [done| |done].
  exists r. split_and!; [done..|]. destruct Hp as [Hp|(k & a' & m & Ha & Hrest)]; [by left|right].
  exists k, a', m. split; [|done]. simpl. by eapply lookup_weaken.
Qed.

(** A failed claim goes back, and stops blocking only together with the row
    that says so: a transaction that fails leaves the block as it was. *)
Lemma moded_requeue ip job nextAt unblockedAt message :
  own_recovery job ->
  moded env false guard (fun _ => guard)
    (recovery_requeue (Recovery.rc_user_id job) ip job nextAt unblockedAt message).
Proof.
  intros Hown. unfold recovery_requeue. apply (tops_transaction env guard (fun _ => guard)).
  - apply frame_requeue_body.
  - apply guard_rivals.
  - intros _. apply guard_rivals.
  - unfold recovery_requeue_body.
    eapply moded_bind with (P := fun _ => guard); [| |by intros e ???].
    { apply moded_leads; [apply frame_recovery_write|].
      apply (leads_guard_statement (fun t => Recovery.reschedule job nextAt message (t_now t))).
      apply keeps_block_reschedule. }
    intros rescheduled. destruct (negb rescheduled || _) eqn:Hstop; [by apply moded_ret; intros ???|].
    apply orb_false_iff in Hstop as [_ Hst]. apply negb_false_iff, andb_true_iff in Hst as [_ Hat].
    apply bool_decide_eq_true_1 in Hat.
    eapply moded_bind; [apply moded_markUnblocked| |by intros e ???].
    intros [|]; [|by apply moded_ret; intros ???]. simpl negb. cbv iota.
    eapply moded_bind with (P := fun r => match r with Ok _ => guard | Throw _ => fun _ _ _ => True end);
      [|intros a; by apply moded_ret; intros ???|by intros e ???].
    destruct (decide (job_id job = jobId)) as [Hid|Hid];
      [rewrite (Hown Hid); by apply moded_stalled_row|apply moded_audit_guard].
  - by intros a ???.
  - intros e d tr tr' c c' [Hg|Hc] Hp; [by left|right; by eapply Hmono].
Qed.

Lemma ends_find_owner u :
  ends env guard (fun r d tr c => guard d tr c /\
      match r with
      | Ok found => u = userId -> (exists x, found = Some x /\ u_id x = userId) \/ Confirmed tr
      | Throw _ => True
      end) (users_find u).
Proof.
  intros w He HI. unfold users_find, statement_ok, statement, cur. rewrite He.
  set (d := if w_tx w then w_db w else t_rivals (env (w_turn w)) (w_db w)).
  assert (Hd : guard d (w_trace w) (w_counters w))
    by (subst d; destruct (w_tx w); [done|by apply guard_rivals]).
  destruct (t_fault _); (split; [done|]); unfold at_world; simpl; (split; [done|]); [done|].
  intros ->. destruct Hd as [((x & Hx & Hid) & _)|Hc]; [left|by right]. by exists x.
Qed.

Lemma leads_recovery_settle job ip claimed :
  own_recovery job -> job_id claimed = job_id job ->
  leads env guard guard (recovery_settle (Recovery.rc_user_id job) ip claimed).
Proof.
  intros Hown Hid. unfold recovery_settle.
  eapply leads_bind; [apply leads_guard_read| |by intros ???]. intros current.
  case_match; [by apply leads_throw; intros ???|].
  apply leads_ends. eapply ends_bind; [apply ends_find_owner| |by intros e d tr c []].
  intros found.
  assert (Hdelete : forall user, frame (match user with
      | None => do_ recovery_deleteClaimed claimed;
                mret {| ra_outcome := RecoveryOk; ra_revoked := 0; ra_error := None |}
      | Some user =>
          do revoked <- revokeForAccountRecovery user ip (Recovery.rc_unblocked_at claimed);
          do ok <- recovery_deleteClaimed claimed;
          if ok : bool then mret {| ra_outcome := RecoveryOk; ra_revoked := revoked; ra_error := None |}
          else mthrow recovery_superseded
      end)).
  { intros [user|]; unfold recovery_deleteClaimed, recovery_write; [|frames].
    apply frame_bind; [apply Hframe|]. intros revoked. frames. }
  destruct (decide (Recovery.rc_user_id job = userId)) as [Hu|Hne].
  - intros w He [HI Hfound].
    destruct (Hfound Hu) as [(x & -> & Hx)|Hconf]; [|by apply leads_revoked_guard].
    refine (ends_bind env guard _ (fun _ => guard) _ _ (Hconfirms x ip _ Hx) _ _ w He HI).
    + intros revoked. apply leads_ends, leads_revoked_guard. unfold recovery_deleteClaimed, recovery_write. frames.
    + by intros e ???.
  - assert (Hdel : leads env guard guard (recovery_deleteClaimed claimed)).
    { apply (leads_guard_statement (fun _ => Recovery.deleteClaimed claimed)), keeps_block_delete.
      rewrite Hid. auto. }
    apply leads_ends, leads_strengthen with (K := guard); [|by intros d tr c []].
    destruct found as [user|].
    + eapply leads_bind; [apply Hservice| |by intros ???]. intros revoked.
      eapply leads_bind; [exact Hdel| |by intros ???].
      intros []; [by apply leads_ret; intros ???|by apply leads_throw; intros ???].
    + eapply leads_bind; [exact Hdel| |by intros ???]. intros ok. by apply leads_ret; intros ???.
Qed.

Lemma leads_recovery_claim u job : leads env guard guard (recovery_claim u job).
Proof.
  unfold recovery_claim. destruct job as [job|]; [|by apply leads_throw; intros ???].
  case_bool_decide; [by apply leads_throw; intros ???|].
  eapply leads_bind with (K := guard); [| |by intros ???].
  - destruct (j_status _); [|by apply leads_ret; intros ???..].
    apply (leads_guard_statement (fun t => Recovery.claimPending job (t_ids t 0) (t_now t))).
    apply keeps_block_claimPending.
  - intros [c|]; [by apply leads_ret; intros ???|by apply leads_throw; intros ???].
Qed.

Lemma yields_recovery_claim u job :
  yields env guard (fun c => job_id c = job_id job /\ Recovery.rc_user_id c = Recovery.rc_user_id job)
    (recovery_claim u (Some job)).
Proof.
  unfold recovery_claim. case_bool_decide; [apply yields_throw|]. intros w a w' He HI Hrun.
  apply mbind_ok in Hrun as (c & w1 & Hc & Hret).
  destruct c as [c|]; [|done]. injection Hret as -> _.
  destruct (j_status _); [|by injection Hc as -> _|done].
  apply statement_ok_inv in Hc as (d & _ & Hc & _).
  destruct (Recovery.claimPending _ _ _ _) as [q c'] eqn:Hcp. injection Hc as -> _.
  destruct (claimPending_same recovery_own ltac:(done) ltac:(done) job (t_ids (cur w) 0) (t_now (cur w))
              (d_recovery d) a) as [Hi Ho].
  - unfold Recovery.claimPending in Hcp. by rewrite Hcp.
  - by injection Ho.
Qed.

Lemma moded_runAccountRecovery job ip :
  own_recovery job ->
  moded env false guard (fun _ => guard)
    (runAccountRecovery (Recovery.rc_user_id job) ip (Some job)).
Proof.
  intros Hown. unfold runAccountRecovery.
  eapply moded_bind with (P := fun r d tr c => guard d tr c /\ match r with
      | Ok (Ok c) => job_id c = job_id job /\ Recovery.rc_user_id c = Recovery.rc_user_id job
      | _ => True end); [| |by intros e d tr c []].
  { apply moded_ends; [apply frame_attempt, frame_recovery_claim|]. intros w He HI.
    destruct (leads_attempt _ _ _ _ (leads_recovery_claim (Recovery.rc_user_id job) (Some job)) w He HI) as [He' HI'].
    split; [done|]. split; [done|]. unfold mattempt in *.
    pose proof (yields_recovery_claim (Recovery.rc_user_id job) job w) as Hy.
    destruct (recovery_claim _ _ w) as [[c|e] w1]; [by eapply Hy|done]. }
  intros [claimed|e].
  2:{ apply moded_ret. by intros d tr c []. }
  intros w He Ht [HI [Hid Hu]].
  revert w He Ht HI. change (moded env false guard (fun _ => guard)
    (do attempt <- mattempt (recovery_settle (Recovery.rc_user_id job) ip claimed);
     match attempt with
     | Ok a => mret a
     | Throw error =>
         do now <- date_now;
         do r <- math_random;
         let delay := if has_status JPending job then 0 else accountRecoveryBackoffMs (job_attempts claimed) r in
         do_ mcatch (recovery_requeue (Recovery.rc_user_id job) ip claimed (now + delay) now (ex_message error))
               (fun _ => mret false);
         mret (failed_recovery error)
     end)).
  eapply moded_bind with (P := fun _ => guard); [| |by intros e ???].
  { apply moded_leads; [apply frame_attempt, frame_recovery_settle|].
    by apply leads_attempt, leads_recovery_settle. }
  intros [a|e]; [by apply moded_ret; intros ???|].
  eapply moded_bind with (P := fun _ => guard); [by apply moded_leads; [auto with nexus|apply leads_date_now]| |by intros ? ???].
  intros now.
  eapply moded_bind with (P := fun _ => guard); [by apply moded_leads; [auto with nexus|apply leads_math_random]| |by intros ? ???].
  intros r. eapply moded_bind with (P := fun _ => guard); [| |by intros ? ???].
  - eapply moded_catch with (P := fun _ => guard); [|by intros ? ???|intros e'; by apply moded_ret; intros ???].
    rewrite <- Hu. apply moded_requeue. unfold own_recovery. by rewrite Hid, Hu.
  - intros b. by apply moded_ret; intros ???.
Qed.

Lemma moded_recovery_runJob job :
  own_recovery job -> moded env false guard (fun _ => guard) (recovery_runJob job).
Proof.
  intros Hown. unfold recovery_runJob.
  assert (Hb : forall f n, moded env false guard (fun _ => guard) (bump f n)).
  { intros f n. apply moded_leads; [auto with nexus|]. by apply leads_bump. }
  eapply moded_bind; [by apply moded_runAccountRecovery| |by intros e ???].
  intros a. destruct (ra_outcome a); [|apply Hb].
  eapply moded_bind; [apply Hb| |by intros e ???]. intros u. apply Hb.
Qed.

Definition guard_job (job : Recovery.Job) : world_pred :=
  fun d tr c => guard d tr c /\ (own_recovery job \/ Confirmed tr).

Lemma ends_recovery_claim_one now :
  ends env guard (fun r => match r with Ok (Some job) => guard_job job | _ => guard end)
    (recovery_claim_one now).
Proof.
  assert (Hl : leads env guard guard (recovery_claim_one now)).
  { apply (leads_guard_write _ (fun t q => (Recovery.claimDue now 1 (t_ids t 0) (t_now t) q).1)).
    - intros t d. by destruct (Recovery.claimDue _ _ _ _ _).
    - apply keeps_block_claimDue. }
  intros w He HI. destruct (Hl w He HI) as [He' HI']. split; [done|].
  destruct (recovery_claim_one now w) as [r w'] eqn:Hrun. simpl in *.
  destruct r as [[job|]|e]; [|done..]. split; [done|].
  apply statement_ok_inv in Hrun as (d & Hd & Hc & Hw'). unfold cur in Hd, Hc. rewrite He in Hd, Hc.
  assert (Htr : w_trace w' = w_trace w) by (by rewrite Hw'). rewrite Htr.
  assert (Hkd : guard d (w_trace w) (w_counters w))
    by (subst d; destruct (w_tx w); [done|by apply guard_rivals]).
  destruct Hkd as [(_ & _ & Hall)|Hconf]; [left|by right]. intros Hid.
  destruct (Recovery.claimDue _ _ _ _ _) as [q jobs] eqn:Hcl. injection Hc as Hjob _.
  destruct (claimDue_pulled recovery_own ltac:(done) ltac:(done) now 1 (t_ids (env (w_turn w)) 0)
              (t_now (env (w_turn w))) (d_recovery d) job) as (k & r & Hr & Hi & Ho).
  { change (head (Recovery.claimDue now 1 (t_ids (env (w_turn w)) 0) (t_now (env (w_turn w))) (d_recovery d)).2
            = Some job). by rewrite Hcl. }
  injection Ho as -> _. apply (Hall k); congruence.
Qed.

Lemma tops_recovery_runTick batchSize :
  moded env false guard (fun _ => guard) (recovery_runTick batchSize).
Proof.
  unfold recovery_runTick. eapply moded_bind with (P := fun _ => guard); [|by intros u w|by intros e ???].
  apply (tops_run_worker env _ _ _ _ guard guard_job).
  - done.
  - by intros job d tr c c' [].
  - by intros job d tr c [].
  - intros t. apply moded_leads; [apply frame_statement_ok|].
    apply (leads_guard_write _ (fun t' q => (Recovery.releaseStale t (t_now t') q).1)).
    + intros t' d. by destruct (Recovery.releaseStale _ _ _).
    + apply keeps_block_releaseStale.
  - intros now. apply moded_ends; [apply frame_statement_ok|apply ends_recovery_claim_one].
  - intros job w He Ht [HI [Hown|Hconf]]; [by apply moded_recovery_runJob|].
    refine (moded_leads env false (fun _ tr _ => Confirmed tr) guard _ (frame_recovery_runJob job) _ w He Ht Hconf).
    apply leads_revoked_guard, frame_recovery_runJob.
Qed.
End Guard.

(** The gateway confirmed the revocation of the account's credentials. *)
Definition revocation_confirmed (userId : string) (tr : list event) : Prop :=
  CredentialsRevoked userId ∈ tr.

(** What the worker relies on of the credentials service: it settles no job
    itself, and its answer for an account means the gateway confirmed. *)
Class RecoveryContract `{RecoveryService} (env : nat -> turn) (userId jobId : string) : Prop := {
  recovery_frame : forall u ip c, frame (revokeForAccountRecovery u ip c);
  recovery_keeps : forall u ip c, leads env (guard userId jobId (revocation_confirmed userId))
                    (guard userId jobId (revocation_confirmed userId)) (revokeForAccountRecovery u ip c);
  recovery_confirms : forall u ip c, u_id u = userId ->
    ends env (guard userId jobId (revocation_confirmed userId))
    (fun r => match r with
              | Ok _ => fun _ tr _ => revocation_confirmed userId tr
              | Throw _ => guard userId jobId (revocation_confirmed userId)
              end) (revokeForAccountRecovery u ip c);
}.

(** *** A sample service, for the witnesses

    The gateway never answers. *)

#[local] Instance sample_recovery_service : RecoveryService := {|
  revokeForAccountRecovery := fun _ _ _ => mthrow (driverError "Edge timed out");
|}.

Lemma sample_recovery_contract env u jobId : RecoveryContract env u jobId.
Proof.
  split.
  - intros v ip c. apply frame_throw.
  - intros v ip c. by apply leads_throw; intros ???.
  - intros v ip c _. by apply ends_throw; intros ???.
Qed.

Definition sample_owner : UserRecord := {|
  u_id := "u1"; u_email := "u1@example.com"; u_password_hash := ""; u_display_name := "U"; u_role := client;
  u_org_id := None; u_company := None; u_phone := None; u_status := UserActive;
  u_email_verified := true; u_last_login_at := None; u_created_at := 0; u_updated_at := 0;
  u_email_fence := "";
|}.

(** A job that has failed [n] times. *)
Definition sample_recovery_job (n : Z) : Recovery.Job := {|
  Recovery.rc_head := {| j_id := "j1"; j_generation := "g0"; j_status := JPending; j_attempts := n;
                         j_next_attempt_at := Some 10; j_last_error := None; j_created_at := 5;
                         j_updated_at := 5 |};
  Recovery.rc_user_id := "u1"; Recovery.rc_unblocked_at := None;
|}.

Definition sample_recovering (n : Z) : world :=
  world_of (with_users {["u1" := sample_owner]} (with_recovery {["j1" := sample_recovery_job n]} db_empty))
    sample_turn [].

Lemma sample_guarded n : guarded "u1" "j1" (w_db (sample_recovering n)).
Proof.
  split_and!.
  - by exists sample_owner.
  - exists (sample_recovery_job n). split_and!; [done|done|done|by left].
  - intros k r Hr _. simpl in Hr. apply lookup_singleton_Some in Hr as [_ <-]. reflexivity.
Qed.

(** ** Properties *)


