(* ===== verification/Auth.v ===== *)
(** * Authentication

    [server/src/auth/service.ts] with [auth/password-change.ts]: registration and
    the founder's seat, password sign-in, sign-out, the verification of an address,
    the two links a visitor asks for by address, and the redemption of a reset
    link. One function per operation and per closure. *)

From S2P Require Import Prelude Json Roles Users Settings AuditLog AccessTables AccountTables SsoSettings World AccessStore AccountStore LeaseFence KeyedSerializer Provisioner.
Open Scope Z_scope.

(** ** Constants and errors *)

Definition EMAIL_VERIFICATION_TTL_SECONDS : Z := 86400.
Definition PASSWORD_RESET_TTL_SECONDS : Z := 3600.
Definition PASSWORD_RESET_THROTTLE_SECONDS : Z := 600.
Definition VERIFICATION_RESEND_THROTTLE_SECONDS : Z := 600.
Definition MIN_PASSWORD_LENGTH : nat := 12.

Definition REGISTRATION_SETTINGS_KEY : string := "registration".
Definition SUPER_ADMIN_CLAIM_KEY : string := "bootstrap.super_admin_claimed".

Definition SIGN_IN_LEASE_LOST_MESSAGE : string :=
  "Signing in took too long and no session was created — please sign in again".
Definition SIGN_IN_BUSY_MESSAGE : string :=
  "Signing in is taking longer than usual and no session was created — please try again".
Definition RESET_BUSY_MESSAGE : string :=
  "Your password could not be reset right now and nothing was changed — please try the link again".
Definition PASSWORD_LOGIN_DISABLED_MESSAGE : string :=
  "Password sign-in is disabled on this portal — sign in with single sign-on".
Definition REGISTRATION_SSO_ONLY_MESSAGE : string :=
  "Self-service registration is disabled on this portal — sign in with single sign-on".
Definition WRONG_PASSWORD_MESSAGE : string := "Email address or password is incorrect".

Definition DECOY_PASSWORD_HASH : string :=
  "scrypt:16384:8:1:AAAAAAAAAAAAAAAAAAAAAA==:AAAAAAAAAAAAAAAAAAAAAAAAAAAAAAAAAAAAAAAAAAA=".
Definition TIMING_FLOOR_SECRET : string := "ferrum-nexus-anti-enumeration-timing-floor".

Definition unauthorized (message : string) : exn := nexusError UNAUTHORIZED message [].
Definition emailNotVerified (message : string) : exn := nexusError EMAIL_NOT_VERIFIED message [].
Definition account_disabled : exn := userDisabled "This account has been disabled".
Definition wrong_password : exn := unauthorized WRONG_PASSWORD_MESSAGE.
Definition unverified : exn := emailNotVerified "Please verify your email address before signing in".

Definition invalidResetLink : exn := validationFailed "That password reset link is not valid or has expired" [].

Definition rewordLockTimeout {A} (message : string) (fn : M A) : M A :=
  mcatch fn (fun e => if isLockTimeout e then mthrow (conflict message []) else mthrow e).

(** [createPasswordChangeSerializer]: the default serializer but for its message. *)
Definition password_change_options : KeyedSerializerOptions := {|
  ttlMs := LEASE_TTL_MS; waitMs := LEASE_WAIT_MS; pollMs := LEASE_POLL_MS;
  conflictMessage := "Another password change is in flight — please retry";
|}.

Definition serializePasswordChange {A} (userId : string) (fn : M A) : M A :=
  do r <- underLease password_change_options (lease_fuel password_change_options) ("users:password:" +:+ userId) fn;
  match r with
  | Some a => mret a
  | None => mthrow (driverError "takeLease is still waiting")
  end.

(** ** What the service is handed *)

Record User : Type := {
  pu_id : string;
  pu_email : string;
  pu_display_name : string;
  pu_role : Role;
  pu_org_id : option string;
  pu_company : option string;
  pu_phone : option string;
  pu_status : UserStatus;
  pu_email_verified : bool;
  pu_last_login_at : option Z;
  pu_created_at : Z;
  pu_updated_at : Z;
}.

Definition toPublicUser (u : UserRecord) : User := {|
  pu_id := u_id u; pu_email := u_email u; pu_display_name := u_display_name u; pu_role := u_role u;
  pu_org_id := u_org_id u; pu_company := u_company u; pu_phone := u_phone u; pu_status := u_status u;
  pu_email_verified := u_email_verified u; pu_last_login_at := u_last_login_at u;
  pu_created_at := u_created_at u; pu_updated_at := u_updated_at u;
|}.

Record RequestContext : Type := { rc_ip : option string; rc_userAgent : option string }.

(** The part of [NexusConfig] the accounts' services read. *)
Record NexusConfig : Type := {
  sessionTtlSeconds : Z;
  sessionMaxAgeSeconds : Z;
  bootstrapToken : option string;
  sso : SsoEnvConfig;
}.

Inductive CaptchaVerifyOutcome : Type := CaptchaNotRequired | CaptchaVerified | CaptchaBypassed.

(** The primitives of [lib/crypto.ts] on [node:crypto], the CAPTCHA service, and
    the hooks of the composition root, each optional. *)
Class AuthDeps : Type := {
  hashToken : string -> string;
  sha256 : string -> string;
  hashPassword : string -> M string;
  verifyPassword : string -> string -> M bool;
  captcha_verify : option string -> option string -> M CaptchaVerifyOutcome;
  onRegistered : option (User -> option string -> RequestContext -> M unit);
  prepareVerificationResend : option (User -> string -> RequestContext -> M (string -> M unit));
  preparePasswordReset : option (User -> string -> RequestContext -> M (string -> M unit));
  onFirstEmailProof : option (UserRecord -> option string -> M unit);
}.

(** [randomBytes(32)] as text: a draw, as an identifier is. *)
Definition newSessionToken : M string := randomUUID.

Record IssuedSession : Type := {
  is_session : SessionRecord;
  is_token : string;
  is_csrfToken : string;
  is_expiresAt : Z;
}.

Record RegisterInput : Type := {
  ri_email : string;
  ri_password : string;
  ri_display_name : string;
  ri_role : Role;
  ri_company : option string;
  ri_phone : option string;
  ri_captcha_token : option string;
  ri_bootstrap_token : option string;
}.

Record RegisterResult : Type := {
  rr_user : User;
  rr_emailVerificationRequired : bool;
  rr_issued : option IssuedSession;
}.

Record LoginInput : Type := {
  li_email : string;
  li_password : string;
  li_captcha_token : option string;
}.

Record RegistrationPolicy : Type := {
  open_registration : bool;
  require_email_verification : bool;
  allowed_roles : list string;
}.

Record RegistrationDraft : Type := {
  rd_email : string;
  rd_passwordHash : string;
  rd_displayName : string;
  rd_role : Role;
  rd_company : option string;
  rd_phone : option string;
  rd_requireEmailVerification : bool;
  rd_ip : option string;
  rd_captchaBypassed : bool;
}.

Definition require_verification (b : bool) (draft : RegistrationDraft) : RegistrationDraft := {|
  rd_email := rd_email draft; rd_passwordHash := rd_passwordHash draft; rd_displayName := rd_displayName draft;
  rd_role := rd_role draft; rd_company := rd_company draft; rd_phone := rd_phone draft;
  rd_requireEmailVerification := b; rd_ip := rd_ip draft; rd_captchaBypassed := rd_captchaBypassed draft;
|}.

Record RegistrationOutcome : Type := {
  ro_record : UserRecord;
  ro_promoted : bool;
  ro_verificationToken : option string;
}.

Definition user_actor (id : string) (role : Role) : AuditActor := {| actor_id := Some id; actor_role := Some role |}.
Definition on_user (id : string) : AuditTarget := {| target_type := "user"; target_id := Some id |}.

(** ** The registration policy *)

Definition DEFAULT_REGISTRATION_POLICY : RegistrationPolicy := {|
  open_registration := true; require_email_verification := false; allowed_roles := ["client"; "provider"]%string;
|}.

(** [typeof value === 'object']: an array is one, and has none of the members. *)
Definition parse_registration_policy (row : option SettingRecord) : RegistrationPolicy :=
  match setting_value <$> row with
  | Some (JObj value) => {|
      open_registration := match json_own "open_registration" value with Some (JBool false) => false | _ => true end;
      require_email_verification :=
        match json_own "require_email_verification" value with Some (JBool true) => true | _ => false end;
      allowed_roles := match json_own "allowed_roles" value with
                       | Some (JArr roles) => omap (fun r => json_string (Some r)) roles
                       | _ => allowed_roles DEFAULT_REGISTRATION_POLICY
                       end |}
  | _ => DEFAULT_REGISTRATION_POLICY
  end.

Definition readRegistrationPolicy : M RegistrationPolicy :=
  do row <- setting_get REGISTRATION_SETTINGS_KEY; mret (parse_registration_policy row).

Definition stored_registration (t : setting_table) : RegistrationPolicy :=
  parse_registration_policy (settings_get REGISTRATION_SETTINGS_KEY t).

Section Service.
Context `{AuthDeps} (config : NexusConfig).

(** The derivation starts first and is awaited last, whatever the body did. *)
Definition withTimingFloor {A} (body : M A) : M A :=
  mfinally body (do_ hashPassword TIMING_FLOOR_SECRET; mret tt).

Definition withUniformAnswer (body : M unit) : M unit :=
  withTimingFloor (mcatch body (fun _ => mret tt)).

Definition secretEquals (presented expected : string) : bool := bool_decide (sha256 presented = sha256 expected).

Definition bootstrap_refused : exn :=
  forbidden "This portal has no super_admin yet, so the next registration becomes its super_admin and must include the bootstrap token printed in the server log at startup (or the configured NEXUS_BOOTSTRAP_TOKEN)".

Definition requireBootstrapToken (presented : option string) : M unit :=
  ensure (match bootstrapToken config, presented with
          | Some expected, Some presented => secretEquals presented expected
          | _, _ => false
          end) bootstrap_refused.

Definition bootstrapRequired : M bool :=
  do n <- countActiveSuperAdmins None; mret (bool_decide (n = 0)).

(** ** Sessions *)

Definition isoInSeconds (seconds : Z) : M Z := do now <- date_now; mret (now + seconds * 1000).

Definition session_row (token csrf userId : string) (expiresAt : Z) (context : RequestContext) (id : string) (at_ : Z)
    : SessionRecord := {|
  ss_id := id; ss_token_hash := hashToken token; ss_user_id := userId; ss_csrf_token := csrf;
  ss_expires_at := expiresAt; ss_ip := rc_ip context; ss_user_agent := rc_userAgent context;
  ss_created_at := at_; ss_updated_at := at_;
|}.

Definition issueSession (user : UserRecord) (context : RequestContext) : M IssuedSession :=
  do token <- newSessionToken;
  do csrfToken <- newSessionToken;
  do expiresAt <- isoInSeconds (sessionTtlSeconds config);
  do session <- session_create (session_row token csrfToken (u_id user) expiresAt context);
  mret {| is_session := session; is_token := token; is_csrfToken := csrfToken; is_expiresAt := expiresAt |}.

(** ** Registration *)

Definition registered_user (draft : RegistrationDraft) (founder : bool) (id : string) (at_ : Z) : UserRecord := {|
  u_id := id; u_email := rd_email draft; u_password_hash := rd_passwordHash draft;
  u_display_name := rd_displayName draft; u_role := if founder then super_admin else rd_role draft;
  u_org_id := None; u_company := rd_company draft; u_phone := rd_phone draft; u_status := UserActive;
  u_email_verified := founder || negb (rd_requireEmailVerification draft); u_last_login_at := None;
  u_created_at := at_; u_updated_at := at_; u_email_fence := "";
|}.

Definition token_row (userId token : string) (purpose : VerificationTokenPurpose) (expiresAt : Z) (id : string) (at_ : Z)
    : VerificationTokenRecord := {|
  vt_id := id; vt_user_id := userId; vt_token_hash := hashToken token; vt_purpose := purpose;
  vt_expires_at := expiresAt; vt_used_at := None; vt_created_at := at_; vt_updated_at := at_;
|}.

Definition persistRegistration (draft : RegistrationDraft) (founder : bool) : M RegistrationOutcome :=
  do record <- user_create (registered_user draft founder);
  do_ (if founder then
         do now <- date_now;
         setting_set SUPER_ADMIN_CLAIM_KEY (JObj [("user_id", JStr (u_id record)); ("claimed_at", JNum now)]%string)
       else mret tt);
  let requiresVerification := negb founder && rd_requireEmailVerification draft in
  do verificationToken <-
    (if requiresVerification then
       do token <- newSessionToken;
       do expires <- isoInSeconds EMAIL_VERIFICATION_TTL_SECONDS;
       do_ token_create (token_row (u_id record) token EmailVerification expires);
       mret (Some token)
     else mret None);
  do_ audit_record (user_actor (u_id record) (u_role record)) "auth.register" (on_user (u_id record))
        ([("email", JStr (rd_email draft)); ("role", JStr (role_name (u_role record))); ("first_user", JBool founder);
          ("verification_required", JBool requiresVerification)]%string
         ++ if rd_captchaBypassed draft then [("captcha_bypassed", JBool true)]%string else [])
        (rd_ip draft);
  mret {| ro_record := record; ro_promoted := founder; ro_verificationToken := verificationToken |}.

(** Answers with the draft under the current verification rule. *)
Definition applyRegistrationPolicy (draft : RegistrationDraft) : M RegistrationDraft :=
  do login <- readLoginPolicy;
  do_ ensure (negb (bool_decide (login = SsoOnly))) (forbidden REGISTRATION_SSO_ONLY_MESSAGE);
  do current <- readRegistrationPolicy;
  do_ ensure (open_registration current) (forbidden "Self-service registration is currently closed");
  do_ ensure (bool_decide (role_name (rd_role draft) ∈ allowed_roles current))
        (forbidden ("Registration with the " +:+ role_name (rd_role draft) +:+ " role is not permitted"));
  mret (require_verification (require_email_verification current) draft).

Definition seatFounder (draft : RegistrationDraft) : M RegistrationOutcome :=
  do n <- countActiveSuperAdmins None;
  let seatTaken := bool_decide (0 < n) in
  do draft <- (if seatTaken then applyRegistrationPolicy draft else mret draft);
  persistRegistration draft (negb seatTaken).

(** [register] up to the draft: the checks before the lock. *)
Definition draft_registration (input : RegisterInput) (context : RequestContext) : M (bool * RegistrationDraft) :=
  do policy <- readRegistrationPolicy;
  let email := toLowerCase (trim (ri_email input)) in
  do_ ensure (negb (isReleasedEmail email)) (validationFailed "That email domain is reserved" []);
  do_ ensure (bool_decide (MIN_PASSWORD_LENGTH <= String.length (ri_password input))%nat)
        (validationFailed "Password must be at least 12 characters" []);
  do_ ensure (isRegistrableRole (Some (role_name (ri_role input))))
        (validationFailed "Role must be client or provider" []);
  do captchaOutcome <- captcha_verify (ri_captcha_token input) (rc_ip context);
  do seatOpen <- bootstrapRequired;
  do_ (if seatOpen : bool then requireBootstrapToken (ri_bootstrap_token input)
       else
         do login <- readLoginPolicy;
         do_ ensure (negb (bool_decide (login = SsoOnly))) (forbidden REGISTRATION_SSO_ONLY_MESSAGE);
         do_ ensure (open_registration policy) (forbidden "Self-service registration is currently closed");
         ensure (bool_decide (role_name (ri_role input) ∈ allowed_roles policy))
           (forbidden ("Registration with the " +:+ role_name (ri_role input) +:+ " role is not permitted")));
  do passwordHash <- hashPassword (ri_password input);
  do taken <- users_find_email email;
  do_ ensure (bool_decide (taken = None)) (conflict "An account with that email address already exists" []);
  mret (seatOpen, {|
    rd_email := email; rd_passwordHash := passwordHash; rd_displayName := trim (ri_display_name input);
    rd_role := ri_role input; rd_company := ri_company input; rd_phone := ri_phone input;
    rd_requireEmailVerification := require_email_verification policy; rd_ip := rc_ip context;
    rd_captchaBypassed := match captchaOutcome with CaptchaBypassed => true | _ => false end |}).

(** The section that commits the account. *)
Definition commit_registration (seatOpen : bool) (draft : RegistrationDraft) : M RegistrationOutcome :=
  if seatOpen
  then locks SUPER_ADMIN_LOCK_KEY (locks REGISTRATION_POLICY_LOCK_KEY (transaction (seatFounder draft)))
  else locks REGISTRATION_POLICY_LOCK_KEY
         (transaction (do draft <- applyRegistrationPolicy draft; persistRegistration draft false)).

Definition register (input : RegisterInput) (context : RequestContext) : M RegisterResult :=
  do drafted <- draft_registration input context;
  do outcome <- commit_registration drafted.1 drafted.2;
  do_ (if ro_promoted outcome then bump "brandingRevision" 1 else mret tt);
  let requiresVerification := negb (ro_promoted outcome) && bool_decide (is_Some (ro_verificationToken outcome)) in
  let user := toPublicUser (ro_record outcome) in
  do_ (match onRegistered with
       | Some hook => hook user (ro_verificationToken outcome) context
       | None => mret tt
       end);
  do issued <- (if requiresVerification then mret None
                else do s <- issueSession (ro_record outcome) context; mret (Some s));
  mret {| rr_user := user; rr_emailVerificationRequired := requiresVerification; rr_issued := issued |}.

(** ** Sign-in *)

(** The eligibility of an account, taken again in the transaction: [verified] is the
    row the password was checked against. The answer says whether the
    break-glass switch let it through. *)
Definition login_eligible (verified : UserRecord) : M bool :=
  do current <- users_find (u_id verified);
  match current with
  | None => mthrow wrong_password
  | Some current =>
      do_ ensure (bool_decide (u_password_hash current = u_password_hash verified)) wrong_password;
      do login <- readLoginPolicy;
      let ssoOnlyNow := bool_decide (login = SsoOnly) in
      do_ ensure (negb (ssoOnlyNow && negb (sc_breakGlassLocalLogin (sso config))))
            (forbidden PASSWORD_LOGIN_DISABLED_MESSAGE);
      do_ ensure (negb (ssoOnlyNow && negb (bool_decide (u_role current = super_admin)))) wrong_password;
      do blocked <- localPasswordBlocked (sso config) (u_id current) (u_role current);
      do_ ensure (negb blocked) wrong_password;
      do_ ensure (bool_decide (u_status current = UserActive)) account_disabled;
      do policyNow <- readRegistrationPolicy;
      do_ ensure (negb (require_email_verification policyNow && negb (u_email_verified current))) unverified;
      mret ssoOnlyNow
  end.

Definition signed_in_at (at_ : Z) : UserPatch := {|
  up_email := None; up_password_hash := None; up_display_name := None; up_role := None; up_org_id := None;
  up_company := None; up_phone := None; up_status := None; up_email_verified := None;
  up_last_login_at := Some (Some at_) |}.

(** The body of the sign-in's transaction. *)
Definition login_commit (verified : UserRecord) (context : RequestContext) (at_ : Z) : M (IssuedSession * bool) :=
  do breakGlass <- login_eligible verified;
  do touched <- user_updateIfMatches (u_id verified)
                  {| ue_role := None; ue_status := Some UserActive; ue_email := None;
                     ue_password_hash := Some (u_password_hash verified) |} (signed_in_at at_);
  match touched with
  | None => mthrow wrong_password
  | Some touched => do issued <- issueSession touched context; mret (issued, breakGlass)
  end.

(** The account the password opens, with the outcome of the CAPTCHA. *)
Definition login_check (input : LoginInput) (context : RequestContext) : M (UserRecord * CaptchaVerifyOutcome) :=
  let email := toLowerCase (trim (li_email input)) in
  do login <- readLoginPolicy;
  let ssoOnly := bool_decide (login = SsoOnly) in
  do_ ensure (negb (ssoOnly && negb (sc_breakGlassLocalLogin (sso config)))) (forbidden PASSWORD_LOGIN_DISABLED_MESSAGE);
  do captchaOutcome <- captcha_verify (li_captcha_token input) (rc_ip context);
  do record <- users_find_email email;
  do passwordOk <- verifyPassword (li_password input)
                     (match record with Some r => u_password_hash r | None => DECOY_PASSWORD_HASH end);
  match record with
  | None => mthrow wrong_password
  | Some record =>
      do_ ensure passwordOk wrong_password;
      do_ ensure (negb (ssoOnly && negb (bool_decide (u_role record = super_admin)))) wrong_password;
      do blocked <- localPasswordBlocked (sso config) (u_id record) (u_role record);
      do_ ensure (negb blocked) wrong_password;
      do_ ensure (bool_decide (u_status record = UserActive)) account_disabled;
      do policy <- readRegistrationPolicy;
      do_ ensure (negb (require_email_verification policy && negb (u_email_verified record))) unverified;
      mret (record, captchaOutcome)
  end.

Definition login (input : LoginInput) (context : RequestContext) : M (User * IssuedSession) :=
  let email := toLowerCase (trim (li_email input)) in
  do checked <- login_check input context;
  let record := checked.1 in
  do at_ <- date_now;
  do committed <-
    rewordLeaseLost SIGN_IN_LEASE_LOST_MESSAGE
      (serializePasswordChange (u_id record)
        (rewordLockTimeout SIGN_IN_BUSY_MESSAGE
          (locks (userLifecycleLockKey (u_id record))
            (locks REGISTRATION_POLICY_LOCK_KEY
              (transaction (login_commit record context at_))))));
  do_ audit_record (user_actor (u_id record) (u_role record)) "auth.login" (on_user (u_id record))
        ([("email", JStr email)]%string
         ++ match checked.2 with CaptchaBypassed => [("captcha_bypassed", JBool true)]%string | _ => [] end
         ++ if committed.2 : bool then [("break_glass", JBool true)]%string else [])
        (rc_ip context);
  let user := toPublicUser record in
  mret ({| pu_id := pu_id user; pu_email := pu_email user; pu_display_name := pu_display_name user;
           pu_role := pu_role user; pu_org_id := pu_org_id user; pu_company := pu_company user;
           pu_phone := pu_phone user; pu_status := pu_status user; pu_email_verified := pu_email_verified user;
           pu_last_login_at := Some at_; pu_created_at := pu_created_at user; pu_updated_at := pu_updated_at user |},
        committed.1).

Definition logout (session : option SessionRecord) (user : option UserRecord) (context : RequestContext) : M unit :=
  match session with
  | None => mret tt
  | Some session =>
      do_ session_delete (ss_id session);
      do_ audit_record (match user with Some u => user_actor (u_id u) (u_role u) | None => ANONYMOUS_ACTOR end)
            "auth.logout" {| target_type := "session"; target_id := Some (ss_id session) |} [] (rc_ip context);
      mret tt
  end.

Record Me : Type := { me_user : User; me_csrf_token : string; me_expires_at : Z; me_capabilities : Capabilities }.

Definition me (user : UserRecord) (session : SessionRecord) : Me := {|
  me_user := toPublicUser user; me_csrf_token := ss_csrf_token session; me_expires_at := ss_expires_at session;
  me_capabilities := capabilitiesFor (role_name (u_role user));
|}.

(** ** The verification of an address *)

Definition invalid_verification_link : exn := validationFailed "That verification link is not valid" [].
Definition verification_link_used : exn := conflict "That verification link has already been used" [].

Definition email_verified_patch : UserPatch := {|
  up_email := None; up_password_hash := None; up_display_name := None; up_role := None; up_org_id := None;
  up_company := None; up_phone := None; up_status := None; up_email_verified := Some true; up_last_login_at := None |}.

Definition verify_commit (row : VerificationTokenRecord) (context : RequestContext) : M UserRecord :=
  do now <- date_now;
  do burned <- token_markUsed (vt_id row) now;
  do_ ensure burned verification_link_used;
  do user <- user_update (vt_user_id row) email_verified_patch;
  match user with
  | None => mthrow invalid_verification_link
  | Some user =>
      do priorProof <- proof_find (u_id user);
      do_ (if match priorProof with
              | None => true
              | Some p => negb (bool_decide (ep_email p = toLowerCase (trim (u_email user))))
              end
           then do now <- date_now; proof_upsert (u_id user) (u_email user) ByVerificationLink now
           else mret tt);
      do_ audit_record (user_actor (u_id user) (u_role user)) "auth.verify_email" (on_user (u_id user)) [] (rc_ip context);
      mret user
  end.

Definition verifyEmail (token : string) (context : RequestContext) : M (bool * User) :=
  do row <- token_findByTokenHash (hashToken token) EmailVerification;
  match row with
  | None => mthrow invalid_verification_link
  | Some row =>
      do_ ensure (bool_decide (vt_used_at row = None)) verification_link_used;
      do now <- date_now;
      do_ ensure (bool_decide (now < vt_expires_at row)) (validationFailed "That verification link has expired" []);
      do updated <- transaction (verify_commit row context);
      mret (true, toPublicUser updated)
  end.

(** ** Links by address *)

(** A live link issued within the window. *)
Definition recent_link (throttleSeconds now : Z) (existing : option VerificationTokenRecord) : bool :=
  match existing with
  | Some t => bool_decide (now - throttleSeconds * 1000 < vt_created_at t)
  | None => false
  end.

(** The writes of a mint, from the claim on: [queueEmail] is the outbox insert. *)
Definition mint_link (userId : string) (role : Role) (purpose : VerificationTokenPurpose) (token email action : string)
    (ttlSeconds issuedAt notBefore : Z) (queueEmail : option (string -> M unit)) (context : RequestContext) : M unit :=
  do claimed <- token_claimIssue userId purpose issuedAt notBefore;
  if negb claimed then mret tt
  else
    do_ token_deleteForUser userId purpose;
    do expires <- isoInSeconds ttlSeconds;
    do created <- token_create (token_row userId token purpose expires);
    do_ audit_record (user_actor userId role) action (on_user userId) [("email", JStr email)]%string (rc_ip context);
    match queueEmail with Some queue => queue (vt_id created) | None => mret tt end.

Definition prepared (prepare : option (User -> string -> RequestContext -> M (string -> M unit))) (user : UserRecord)
    (token : string) (context : RequestContext) : M (option (string -> M unit)) :=
  match prepare with
  | Some p => do queue <- p (toPublicUser user) token context; mret (Some queue)
  | None => mret None
  end.

Definition resend_commit (record : UserRecord) (email token : string) (issuedAt : Z)
    (queueEmail : option (string -> M unit)) (context : RequestContext) : M unit :=
  do current <- users_find (u_id record);
  match current with
  | Some current =>
      if bool_decide (u_status current = UserActive) && bool_decide (u_email current = email)
         && negb (u_email_verified current)
      then mint_link (u_id record) (u_role record) EmailVerification token email "auth.verification_resend"
             EMAIL_VERIFICATION_TTL_SECONDS issuedAt (issuedAt - VERIFICATION_RESEND_THROTTLE_SECONDS * 1000)
             queueEmail context
      else mret tt
  | None => mret tt
  end.

Definition resendVerification (rawEmail : string) (context : RequestContext) : M unit :=
  withUniformAnswer (
    let email := toLowerCase (trim rawEmail) in
    do record <- users_find_email email;
    match record with
    | None => mret tt
    | Some record =>
        if negb (bool_decide (u_status record = UserActive)) || u_email_verified record then mret tt
        else
          do now <- date_now;
          do existing <- token_findLatestLiveForUser (u_id record) EmailVerification now;
          do now <- date_now;
          if recent_link VERIFICATION_RESEND_THROTTLE_SECONDS now existing then mret tt
          else
            do token <- newSessionToken;
            do queueEmail <- prepared prepareVerificationResend record token context;
            do issuedAt <- date_now;
            locks (userLifecycleLockKey (u_id record))
              (transaction (resend_commit record email token issuedAt queueEmail context))
    end).

Definition reset_mint (userId email token : string) (issuedAt : Z) (queueEmail : option (string -> M unit))
    (context : RequestContext) : M unit :=
  do eligible <- users_find userId;
  match eligible with
  | Some eligible =>
      if negb (bool_decide (u_status eligible = UserActive)) then mret tt
      else
        do blocked <- localPasswordBlocked (sso config) (u_id eligible) (u_role eligible);
        if blocked : bool then mret tt
        else mint_link userId (u_role eligible) PasswordReset token email "auth.password_reset_request"
               PASSWORD_RESET_TTL_SECONDS issuedAt (issuedAt - PASSWORD_RESET_THROTTLE_SECONDS * 1000) queueEmail context
  | None => mret tt
  end.

(** The section under the account's lifecycle key. *)
Definition reset_request (userId email : string) (context : RequestContext) : M unit :=
  do current <- users_find userId;
  match current with
  | None => mret tt
  | Some current =>
      if negb (bool_decide (u_status current = UserActive)) then mret tt
      else
        do blocked <- localPasswordBlocked (sso config) (u_id current) (u_role current);
        if blocked : bool then mret tt
        else
          do now <- date_now;
          do existing <- token_findLatestLiveForUser userId PasswordReset now;
          do now <- date_now;
          if recent_link PASSWORD_RESET_THROTTLE_SECONDS now existing then mret tt
          else
            do token <- newSessionToken;
            do queueEmail <- prepared preparePasswordReset current token context;
            do issuedAt <- date_now;
            transaction (reset_mint userId email token issuedAt queueEmail context)
  end.

Definition requestPasswordReset (rawEmail : string) (context : RequestContext) : M unit :=
  withUniformAnswer (
    let email := toLowerCase (trim rawEmail) in
    do record <- users_find_email email;
    match record with
    | None => mret tt
    | Some record => locks (userLifecycleLockKey (u_id record)) (reset_request (u_id record) email context)
    end).

(** ** The redemption of a reset link *)

Definition cancelled_only : RequestPatch := {|
  rp_justification := None; rp_requested_tools := None; rp_approved_tools := None;
  rp_status := Some RequestCancelled; rp_decided_by := None; rp_decided_at := None; rp_decision_note := None;
|}.

Definition pending_of (userId : string) : AccessRequestFilter := {|
  rf_user_id := Some userId; rf_api_id := None; rf_application_id := None; rf_api_ids := None;
  rf_status := Some RequestPending;
|}.

(** One page: how many of its requests were cancelled. *)
Fixpoint cancel_page (items : list AccessRequestRecord) : M Z :=
  match items with
  | [] => mret 0
  | request :: rest =>
      do cancelled <- request_updateIfStatus (rq_id request) RequestPending cancelled_only;
      do n <- cancel_page rest;
      mret (n + if bool_decide (is_Some cancelled) then 1 else 0)
  end.

(** The pages of the loop; running out of [fuel] throws. *)
Fixpoint cancel_pages (fuel : nat) (userId : string) : M Z :=
  match fuel with
  | O => mthrow (driverError "requests are still being cancelled")
  | S fuel' =>
      do pending <- read (fun d => (requests_list (pending_of userId) None None (at_requests (d_access d))).1);
      match pending with
      | [] => mret 0
      | items =>
          do n <- cancel_page items;
          if bool_decide (n = 0) then mret 0
          else do m <- cancel_pages fuel' userId; mret (n + m)
      end
  end.

(** As many pages as there are requests, and the empty one. *)
Definition cancel_pending (userId : string) : M Z := fun w =>
  cancel_pages (S (size (at_requests (d_access (w_db w))))) userId w.

Definition reset_patch (passwordHash : string) : UserPatch := {|
  up_email := None; up_password_hash := Some passwordHash; up_display_name := None; up_role := None; up_org_id := None;
  up_company := None; up_phone := None; up_status := None; up_email_verified := Some true; up_last_login_at := None |}.

(** Whether the reset is the first trusted proof of the address. *)
Definition first_trusted_proof (prior : option EmailProofRecord) (updated : UserRecord) : bool :=
  match prior with
  | None => true
  | Some p => bool_decide (ep_method p = ByVerificationLink)
              || negb (bool_decide (ep_email p = toLowerCase (trim (u_email updated))))
  end.

Definition reset_commit (token userId passwordHash : string) (context : RequestContext) : M (UserRecord * bool) :=
  do live <- token_findByTokenHash (hashToken token) PasswordReset;
  match live with
  | None => mthrow invalidResetLink
  | Some live =>
      do now <- date_now;
      do_ ensure (bool_decide (vt_used_at live = None) && bool_decide (now < vt_expires_at live)) invalidResetLink;
      do current <- users_find userId;
      match current with
      | None => mthrow invalidResetLink
      | Some current =>
          do_ ensure (bool_decide (u_status current = UserActive)) account_disabled;
          do blocked <- localPasswordBlocked (sso config) (u_id current) (u_role current);
          do_ ensure (negb blocked) invalidResetLink;
          do now <- date_now;
          do burned <- token_markUsed (vt_id live) now;
          do_ ensure burned invalidResetLink;
          do updated <- user_updateIfMatches userId
                          {| ue_role := None; ue_status := Some UserActive; ue_email := None; ue_password_hash := None |}
                          (reset_patch passwordHash);
          match updated with
          | None => mthrow invalidResetLink
          | Some updated =>
              do priorProof <- proof_find (u_id updated);
              let firstTrustedProof := first_trusted_proof priorProof updated in
              do now <- date_now;
              do_ proof_upsert (u_id updated) (u_email updated) ByPasswordReset now;
              do cancelledRequests <-
                (if firstTrustedProof then
                   do now <- date_now;
                   do_ recovery_upsertPending (u_id updated) now;
                   cancel_pending (u_id updated)
                 else mret 0);
              do_ token_deleteForUser userId PasswordReset;
              do_ session_deleteForUser userId;
              do_ audit_record (user_actor (u_id updated) (u_role updated)) "auth.password_reset" (on_user (u_id updated))
                    ([("email", JStr (u_email updated))]%string
                     ++ if firstTrustedProof
                        then [("credentials_revocation_pending", JBool true);
                              ("cancelled_access_requests", JNum cancelledRequests)]%string
                        else [])
                    (rc_ip context);
              mret (updated, firstTrustedProof)
          end
      end
  end.

Definition resetPassword (token newPassword : string) (context : RequestContext) : M unit :=
  do_ ensure (bool_decide (MIN_PASSWORD_LENGTH <= String.length newPassword)%nat)
        (validationFailed "Password must be at least 12 characters" []);
  do row <- token_findByTokenHash (hashToken token) PasswordReset;
  match row with
  | None => mthrow invalidResetLink
  | Some row =>
      do now <- date_now;
      do_ ensure (bool_decide (vt_used_at row = None) && bool_decide (now < vt_expires_at row)) invalidResetLink;
      do record <- users_find (vt_user_id row);
      match record with
      | None => mthrow invalidResetLink
      | Some record =>
          do_ ensure (bool_decide (u_status record = UserActive)) account_disabled;
          do blocked <- localPasswordBlocked (sso config) (u_id record) (u_role record);
          do_ ensure (negb blocked) invalidResetLink;
          do passwordHash <- hashPassword newPassword;
          serializePasswordChange (u_id record)
            (do reset <-
               rewordLockTimeout RESET_BUSY_MESSAGE
                 (locks (accountRecoveryLockKey (u_id record))
                   (locks REGISTRATION_POLICY_LOCK_KEY
                     (transaction (reset_commit token (u_id record) passwordHash context))));
             if reset.2 : bool
             then match onFirstEmailProof with Some hook => hook reset.1 (rc_ip context) | None => mret tt end
             else mret tt)
      end
  end.
End Service.
