(* ===== verification/AuthPlugin.v ===== *)
(** * Requests and their sessions

    [server/src/auth/session-lifetime.ts], the hooks and guards of
    [server/src/middleware/auth-plugin.ts], [middleware/api-route.ts], and one tick
    of [auth/expiry-sweep.ts]. A request is the route Fastify selected, its method,
    the two cookies and the header the hooks read. *)

From S2P Require Import Prelude Json Roles Users AccessTables AccountTables SsoSettings World AccessStore AccountStore Provisioner Auth.
Open Scope Z_scope.

(** ** How long a session lives

    [Date.parse] answers a number, [NaN] for text it cannot read. *)

Definition sessionAbsoluteDeadlineMs (created_at : jsnum) (config : NexusConfig) : jsnum :=
  match created_at with
  | Fin createdAt => Fin (createdAt + sessionMaxAgeSeconds config * 1000)
  | _ => NegInf
  end.

Definition sessionIsLive (created_at expires_at : jsnum) (config : NexusConfig) (now : Z) : bool :=
  if negb (jsnum_finite expires_at) || negb (jsnum_gtb expires_at now) then false
  else jsnum_gtb (sessionAbsoluteDeadlineMs created_at config) now.

(** The same on a row, whose times are numbers. *)
Definition session_deadline (config : NexusConfig) (s : SessionRecord) : Z :=
  ss_created_at s + sessionMaxAgeSeconds config * 1000.
Definition session_live (config : NexusConfig) (s : SessionRecord) (now : Z) : bool :=
  sessionIsLive (Fin (ss_created_at s)) (Fin (ss_expires_at s)) config now.

(** ** Requests *)

(** A header sent more than once is an array. *)
Inductive header : Type := HeaderAbsent | HeaderOne (s : string) | HeaderMany (l : list string).

Record HttpRequest : Type := {
  hr_route : option string;
  hr_method : string;
  hr_sharedCacheable : bool;
  hr_session_cookie : option string;
  hr_csrf_cookie : option string;
  hr_csrf_header : header;
}.

Definition isApiRequest (request : HttpRequest) : bool :=
  match hr_route request with
  | Some route => bool_decide (route = "/api"%string) || startsWith "/api/" route
  | None => false
  end.

Definition needsSession (request : HttpRequest) : bool := isApiRequest request.

Definition headerValue (h : header) : option string :=
  match h with HeaderAbsent => None | HeaderOne s => Some s | HeaderMany l => head l end.

Definition safeEqual (a b : option string) : bool :=
  match a, b with Some a, Some b => String.eqb a b | _, _ => false end.

(** What the first hook leaves on the request, and the cookies it sets: the token,
    the CSRF token and their [Max-Age]. *)
Record Resolved : Type := {
  rs_session : option SessionRecord;
  rs_user : option UserRecord;
  rs_cookies : option (string * string * Z);
}.

Definition anonymous : Resolved := {| rs_session := None; rs_user := None; rs_cookies := None |}.

Section Plugin.
Context `{AuthDeps} (config : NexusConfig).

(** The new expiry, when less than half of the idle time is left. *)
Definition slid_to (s : SessionRecord) (now : Z) : option Z :=
  if bool_decide (2 * (ss_expires_at s - now) < sessionTtlSeconds config * 1000) then
    let slidTo := Z.min (now + sessionTtlSeconds config * 1000) (session_deadline config s) in
    if bool_decide (ss_expires_at s < slidTo) then Some slidTo else None
  else None.

(** [{ ...session, expires_at }]. *)
Definition with_expiry (s : SessionRecord) (expiresAt : Z) : SessionRecord :=
  set_session_expiry expiresAt (ss_updated_at s) s.

Definition slide (request : HttpRequest) (token : string) (s : SessionRecord) (user : UserRecord) (now : Z) : M Resolved :=
  let resolved := {| rs_session := Some s; rs_user := Some user; rs_cookies := None |} in
  if hr_sharedCacheable request then mret resolved
  else
    match slid_to s now with
    | None => mret resolved
    | Some slidTo =>
        do_ session_touch (ss_id s) slidTo;
        mret {| rs_session := Some (with_expiry s slidTo); rs_user := Some user;
                rs_cookies := Some (token, ss_csrf_token s, (slidTo - now) / 1000) |}
    end.

Definition resolve_session (request : HttpRequest) : M Resolved :=
  if negb (needsSession request) then mret anonymous
  else
    match hr_session_cookie request with
    | None | Some EmptyString => mret anonymous
    | Some token =>
        do session <- session_findByTokenHash (hashToken token);
        match session with
        | None => mret anonymous
        | Some s =>
            do now <- date_now;
            if negb (session_live config s now) then do_ session_delete (ss_id s); mret anonymous
            else
              do user <- users_find (ss_user_id s);
              match user with
              | Some user =>
                  if bool_decide (u_status user = UserActive) then slide request token s user now
                  else do_ session_deleteForUser (ss_user_id s); mret anonymous
              | None => do_ session_deleteForUser (ss_user_id s); mret anonymous
              end
        end
    end.

(** ** CSRF *)

Definition SAFE_METHODS : list string := ["GET"; "HEAD"; "OPTIONS"]%string.

Definition CSRF_EXEMPT_PATHS : list string :=
  ["/api/auth/login"; "/api/auth/register"; "/api/auth/verify-email"; "/api/auth/resend-verification";
   "/api/auth/forgot-password"; "/api/auth/reset-password"; "/api/auth/captcha"]%string.

Definition csrfMismatch : exn := nexusError CSRF_MISMATCH "CSRF token missing or invalid" [].

Definition check_csrf (request : HttpRequest) (resolved : Resolved) : M unit :=
  if bool_decide (hr_method request ∈ SAFE_METHODS) then mret tt
  else if negb (isApiRequest request) then mret tt
  else if bool_decide (default ""%string (hr_route request) ∈ CSRF_EXEMPT_PATHS) then mret tt
  else
    match rs_session resolved with
    | None => mret tt
    | Some s =>
        let header := headerValue (hr_csrf_header request) in
        ensure (safeEqual header (hr_csrf_cookie request) && safeEqual header (Some (ss_csrf_token s))) csrfMismatch
    end.

(** The two hooks, in their order. *)
Definition resolve_request (request : HttpRequest) : M Resolved :=
  do resolved <- resolve_session request;
  do_ check_csrf request resolved;
  mret resolved.

(** ** Guards *)

Definition requireAuth (resolved : Resolved) : res exn (UserRecord * SessionRecord) :=
  match rs_user resolved, rs_session resolved with
  | Some user, Some session =>
      if bool_decide (u_status user = UserActive) then Ok (user, session) else Throw account_disabled
  | _, _ => Throw (unauthorized "Authentication required")
  end.

Definition requireRole (role : Role) (resolved : Resolved) : res exn (UserRecord * SessionRecord) :=
  match requireAuth resolved with
  | Ok (user, session) =>
      if roleAtLeast (role_name (u_role user)) (role_name role) then Ok (user, session)
      else Throw (forbidden ("This action requires the " +:+ role_name role +:+ " role"))
  | Throw e => Throw e
  end.

(** A request that a guard lets through. *)
Definition guarded_route (role : Role) (request : HttpRequest) : M (UserRecord * SessionRecord) :=
  do resolved <- resolve_request request;
  match requireRole role resolved with Ok a => mret a | Throw e => mthrow e end.
End Plugin.

(** ** The expiry sweep *)

(** A failing delete counts as none. *)
Definition sweep_expired (run : M Z) : M Z := mcatch run (fun _ => mret 0).

Definition expiry_tick : M (Z * Z) :=
  do cutoff <- date_now;
  do sessions <- sweep_expired (session_deleteExpired cutoff);
  do verificationTokens <- sweep_expired (token_deleteExpired cutoff);
  mret (sessions, verificationTokens).
