(* ===== verification/UsersService.v ===== *)
(** * Accounts, administered

    [server/src/users/service.ts]: the profile a holder edits, the role, status and
    organization an administrator edits, the retry of a gateway revocation, the
    release of a disabled account's address, notification preferences and
    organizations. One function per operation and per closure. *)

From S2P Require Import Prelude Json Roles Users Outbox JobQueues AuditLog AccessTables CredentialTables AccountTables World AccessStore AccountStore LeaseFence KeyedSerializer Provisioner AccessDecisions TeardownWorker Auth.
Open Scope Z_scope.

Definition lastSuperAdmin : exn :=
  nexusError LAST_SUPER_ADMIN "The last active super admin cannot be removed, demoted or disabled" [].

Definition PASSWORD_CHANGED_SESSION_LOST_MESSAGE : string :=
  "Your password was changed, but this session could not be renewed — sign in again with your new password".

Definition isElevated (role : Role) : bool := roleAtLeast (role_name role) "admin".

(** ** What the service is handed *)

(** [restoreGatewayAccess] of the credentials service, [notify] of the notices, and
    the optional rule on manual promotions. *)
Class UsersDeps : Type := {
  restore_gateway_access : string -> string -> M unit;
  notify_user : string -> string -> string -> string -> string -> M unit;
  assertManualAdminPromotionAllowed : option (string -> Role -> M unit);
}.

Record UpdateMeInput : Type := {
  um_display_name : option string;
  um_company : option (option string);
  um_phone : option (option string);
  um_current_password : option string;
  um_new_password : option string;
}.

Record UpdateUserInput : Type := {
  uu_role : option Role;
  uu_status : option UserStatus;
  uu_org_id : option (option string);
  uu_display_name : option string;
}.

Definition status_name (s : UserStatus) : string := match s with UserActive => "active" | UserDisabled => "disabled" end.

(** ** Preferences *)

Definition preferencesOf (record : option NotificationPreferencesRecord) : NotificationPreferences :=
  match record with
  | Some r => np_preferences r
  | None => {| api_spec_updated_in_app := true; api_spec_updated_email := false |}
  end.

Definition preferences_find (userId : string) : M (option NotificationPreferencesRecord) :=
  read (fun d => ac_preferences (d_accounts d) !! userId).

Definition preference_upsert (userId : string) (next : NotificationPreferences) : M NotificationPreferencesRecord :=
  statement (fun t d =>
    match preferences_upsert (user_exists d) userId next (t_now t) (ac_preferences (d_accounts d)) with
    | Ok (r, rows) => Ok (r, with_accounts (with_preferences rows (d_accounts d)) d)
    | Throw e => Throw e
    end).

Definition getNotificationPreferences (user : UserRecord) : M NotificationPreferences :=
  do r <- preferences_find (u_id user); mret (preferencesOf r).

Definition changed_preferences (current next : NotificationPreferences) : list string :=
  (if Bool.eqb (api_spec_updated_in_app next) (api_spec_updated_in_app current) then []
   else ["api_spec_updated_in_app"%string])
  ++ (if Bool.eqb (api_spec_updated_email next) (api_spec_updated_email current) then []
      else ["api_spec_updated_email"%string]).

Definition updateNotificationPreferences (user : UserRecord) (in_app email : option bool) (ip : option string)
    : M NotificationPreferences :=
  transaction (
    do r <- preferences_find (u_id user);
    let current := preferencesOf r in
    let next := {| api_spec_updated_in_app := default (api_spec_updated_in_app current) in_app;
                   api_spec_updated_email := default (api_spec_updated_email current) email |} in
    match changed_preferences current next with
    | [] => mret current
    | changed =>
        do_ preference_upsert (u_id user) next;
        do_ audit_record (user_actor (u_id user) (u_role user)) "user.notification_preferences_update"
              (on_user (u_id user))
              [("changed", json_strs changed); ("api_spec_updated_in_app", JBool (api_spec_updated_in_app next));
               ("api_spec_updated_email", JBool (api_spec_updated_email next))]%string ip;
        mret next
    end).

Section Service.
Context `{AuthDeps} `{UsersDeps} `{TeardownService} (config : NexusConfig).

(** ** The holder's own profile *)

Definition wrong_current_password : exn := forbidden "Your current password is incorrect".

(** The patch and the names of what it changes. *)
Definition plan_me (user : UserRecord) (patch : UpdateMeInput) : M (UserPatch * list string) :=
  let name := trim <$> um_display_name patch in
  do_ ensure (negb (bool_decide (name = Some ""%string))) (validationFailed "Display name cannot be empty" []);
  let display_name := match name with
                      | Some n => if bool_decide (n = u_display_name user) then None else Some n
                      | None => None
                      end in
  let company := match um_company patch with
                 | Some c => if bool_decide (c = u_company user) then None else Some c
                 | None => None
                 end in
  let phone := match um_phone patch with
               | Some p => if bool_decide (p = u_phone user) then None else Some p
               | None => None
               end in
  do password_hash <-
    match um_new_password patch with
    | None => mret None
    | Some new =>
        do_ ensure (bool_decide (MIN_PASSWORD_LENGTH <= String.length new)%nat)
              (validationFailed "Password must be at least 12 characters" []);
        match um_current_password patch with
        | None | Some EmptyString =>
            mthrow (validationFailed "Your current password is required to set a new one" [])
        | Some current =>
            do ok <- verifyPassword current (u_password_hash user);
            do_ ensure ok wrong_current_password;
            do hash <- hashPassword new;
            mret (Some hash)
        end
    end;
  mret ({| up_email := None; up_password_hash := password_hash; up_display_name := display_name; up_role := None;
           up_org_id := None; up_company := company; up_phone := phone; up_status := None;
           up_email_verified := None; up_last_login_at := None |},
        (if bool_decide (is_Some display_name) then ["display_name"%string] else [])
        ++ (if bool_decide (is_Some company) then ["company"%string] else [])
        ++ (if bool_decide (is_Some phone) then ["phone"%string] else [])
        ++ (if bool_decide (is_Some password_hash) then ["password"%string] else [])).

Definition me_commit (user : UserRecord) (update : UserPatch) (changed : list string) (ip : option string) : M UserRecord :=
  do_ match up_password_hash update with
      | Some _ =>
          do current <- users_find (u_id user);
          match current with
          | None => mthrow (notFound "User" (Some (u_id user)))
          | Some current => ensure (bool_decide (u_password_hash current = u_password_hash user)) wrong_current_password
          end
      | None => mret tt
      end;
  do row <- user_update (u_id user) update;
  match row with
  | None => mthrow (notFound "User" (Some (u_id user)))
  | Some row =>
      do terminatedSessions <-
        match up_password_hash update with
        | Some _ => do_ token_deleteForUser (u_id user) PasswordReset; session_deleteForUser (u_id user)
        | None => mret 0
        end;
      do_ audit_record (user_actor (u_id user) (u_role user)) "user.update" (on_user (u_id user))
            ([("self", JBool true); ("changed_fields", json_strs changed)]%string
             ++ if bool_decide (0 < terminatedSessions) then [("terminated_sessions", JNum terminatedSessions)]%string else [])
            ip;
      mret row
  end.

Definition change_me (user : UserRecord) (update : UserPatch) (changed : list string) (context : RequestContext)
    : M (User * option IssuedSession) :=
  do updated <- transaction (me_commit user update changed (rc_ip context));
  match up_password_hash update with
  | None => mret (toPublicUser updated, None)
  | Some _ =>
      do reissued <- rewordLeaseLost PASSWORD_CHANGED_SESSION_LOST_MESSAGE
                       (transaction (issueSession config updated context));
      mret (toPublicUser updated, Some reissued)
  end.

Definition updateMe (user : UserRecord) (patch : UpdateMeInput) (context : RequestContext)
    : M (User * option IssuedSession) :=
  do planned <- plan_me user patch;
  match planned.2 with
  | [] => mret (toPublicUser user, None)
  | changed =>
      match up_password_hash planned.1 with
      | Some _ => serializePasswordChange (u_id user) (change_me user planned.1 changed context)
      | None => change_me user planned.1 changed context
      end
  end.

(** ** Administration *)

Definition listUsers (filter : UserFilter) (limit offset : option jsnum) : M (list User * Z) :=
  do page <- read (fun d => users_list filter limit offset (d_users d));
  mret (map toPublicUser page.1, page.2).

Definition countPendingGatewayTeardowns : M Z :=
  read (fun d => Z.of_nat (length (rows_where (fun r => has_status JPending r || has_status JSending r) (d_teardown d)))).

(** [toTeardownState] keeps the status columns and the completion. *)
Definition toTeardownState (job : Teardown.Job) : JobStatus * Z * option string * option Z * Z * option Z :=
  let h := Teardown.td_head job in
  (j_status h, j_attempts h, j_last_error h, j_next_attempt_at h, j_updated_at h, Teardown.td_completed_at job).

Definition getUser (targetId : string) : M (User * option (JobStatus * Z * option string * option Z * Z * option Z)) :=
  do target <- users_find targetId;
  match target with
  | None => mthrow (notFound "User" (Some targetId))
  | Some target => do job <- teardown_findByUser targetId; mret (toPublicUser target, toTeardownState <$> job)
  end.

(** *** The retry of a revocation *)

Definition only_disabled : exn := conflict "Only a disabled account has a gateway revocation to retry" [].

Definition status_patch (s : UserStatus) : UserPatch := {|
  up_email := None; up_password_hash := None; up_display_name := None; up_role := None; up_org_id := None;
  up_company := None; up_phone := None; up_status := Some s; up_email_verified := None; up_last_login_at := None |}.

Definition requeue_teardown (actor : UserRecord) (targetId : string) (ip : option string) : M Teardown.Job :=
  do current <- users_find targetId;
  match current with
  | None => mthrow (notFound "User" (Some targetId))
  | Some current =>
      do_ ensure (bool_decide (u_status current = UserDisabled)) only_disabled;
      do matched <- user_updateIfMatches (u_id current)
                      {| ue_role := Some (u_role current); ue_status := Some UserDisabled; ue_email := None;
                         ue_password_hash := None |} (status_patch UserDisabled);
      do_ ensure (bool_decide (is_Some matched)) (conflict "That account changed while retrying its revocation" []);
      do now <- date_now;
      do queued <- teardown_upsertPending targetId (Some (u_id actor)) now;
      do_ audit_record (user_actor (u_id actor) (u_role actor)) "user.gateway_teardown_retry" (on_user targetId)
            [("attempts", JNum (job_attempts queued)); ("gateway_teardown", JStr "queued")]%string ip;
      mret queued
  end.

(** The row of an attempt that the gateway confirmed. *)
Definition record_teardown (actor : UserRecord) (targetId : string) (attempt : GatewayTeardownAttempt) (ip : option string)
    : M unit :=
  match ga_outcome attempt with
  | TeardownPending => mret tt
  | _ =>
      do_ audit_record (user_actor (u_id actor) (u_role actor)) "user.gateway_teardown_complete" (on_user targetId)
            (("inline"%string, JBool true) :: ga_details attempt) ip;
      mret tt
  end.

Definition retryGatewayTeardown (actor : UserRecord) (targetId : string) (ip : option string)
    : M (GatewayTeardownOutcome * option Teardown.Job) :=
  do target <- users_find targetId;
  match target with
  | None => mthrow (notFound "User" (Some targetId))
  | Some target =>
      do_ ensure (bool_decide (u_status target = UserDisabled)) only_disabled;
      do job <- locks (userLifecycleLockKey (u_id target)) (transaction (requeue_teardown actor (u_id target) ip));
      do attempt <- runGatewayTeardown (u_id target) (u_id actor) (Some job);
      do_ record_teardown actor (u_id target) attempt ip;
      do job <- teardown_findByUser (u_id target);
      mret (ga_outcome attempt, job)
  end.

(** *** The release of an address *)

Definition count_live_rows (userId : string) (status : CredentialStatus) : M Z :=
  read (fun d => credentials_count {| cf_user_id := Some userId; cf_application_id := None;
                                      cf_status := Some status; cf_credential_type := None;
                                      cf_ferrum_consumer_id := None |} (d_credentials d)).

Definition cancel_mail (email : string) : M Z :=
  statement (fun t d =>
    match cancelForReleasedAddress email (t_ids t 0) (t_now t) (d_outbox d) with
    | Ok (rows, n) => Ok (n, with_outbox rows d)
    | Throw e => Throw e
    end).

Definition release_patch (tombstone : string) : UserPatch := {|
  up_email := Some tombstone; up_password_hash := None; up_display_name := None; up_role := None; up_org_id := None;
  up_company := None; up_phone := None; up_status := None; up_email_verified := Some false; up_last_login_at := None |}.

Definition release_commit (actor : UserRecord) (targetId email tombstone : string) (ip : option string) : M User :=
  do target <- users_find targetId;
  match target with
  | None => mthrow (notFound "User" (Some targetId))
  | Some target =>
      do_ ensure (negb (bool_decide (u_id target = u_id actor) || bool_decide (u_role target = super_admin)))
            (forbidden "A super admin account cannot have its address released");
      do_ ensure (bool_decide (u_status target = UserDisabled) && bool_decide (u_email target = email))
            (conflict "Disable the account and confirm its current address before release" []);
      do links <- links_of (u_id target);
      do_ ensure (bool_decide (length links = 0)%nat)
            (conflict "Remove every linked sign-in identity before releasing the address" []);
      do job <- teardown_findByUser (u_id target);
      do_ ensure (match job with Some j => has_status JDone j | None => false end)
            (conflict "Complete the account’s gateway revocation before releasing its address" []);
      do active <- count_live_rows (u_id target) CredentialActive;
      do_ ensure (negb (bool_decide (0 < active)))
            (conflict "The account still has live credential metadata; retry revocation" []);
      do retiring <- count_live_rows (u_id target) CredentialRetiring;
      do_ ensure (negb (bool_decide (0 < retiring)))
            (conflict "The account still has live credential metadata; retry revocation" []);
      do row <- user_updateIfMatches (u_id target)
                  {| ue_role := Some (u_role target); ue_status := Some UserDisabled; ue_email := Some email;
                     ue_password_hash := None |} (release_patch tombstone);
      match row with
      | None => mthrow (conflict "That account changed while releasing its address" [])
      | Some row =>
          do terminatedSessions <- session_deleteForUser (u_id target);
          do revokedResetLinks <- token_deleteForUser (u_id target) PasswordReset;
          do revokedVerificationLinks <- token_deleteForUser (u_id target) EmailVerification;
          do cancelledEmails <- cancel_mail email;
          do_ audit_record (user_actor (u_id actor) (u_role actor)) "user.address_release" (on_user (u_id target))
                [("from_email", JStr email); ("to_email", JStr tombstone);
                 ("terminated_sessions", JNum terminatedSessions); ("revoked_reset_links", JNum revokedResetLinks);
                 ("revoked_verification_links", JNum revokedVerificationLinks);
                 ("cancelled_emails", JNum cancelledEmails)]%string ip;
          mret (toPublicUser row)
      end
  end.

Definition releaseAddress (actor : UserRecord) (targetId expectedEmail : string) (ip : option string) : M User :=
  do_ ensure (bool_decide (u_role actor = super_admin)) (forbidden "Only a super admin can release an address");
  let email := toLowerCase (trim expectedEmail) in
  do_ ensure (negb (bool_decide (email = ""%string) || bool_decide (320 < String.length email)%nat || isReleasedEmail email))
        (validationFailed "Supply the account’s current email address" []);
  do id <- randomUUID;
  let tombstone := ("released-" +:+ id +:+ "@" +:+ RELEASED_EMAIL_DOMAIN)%string in
  locks (userMailHandoffLockKey targetId)
    (locks (userLifecycleLockKey targetId) (transaction (release_commit actor targetId email tombstone ip))).

(** *** The update of an account *)

(** What [updateUser] decided before the transaction. *)
Record UserPlan : Type := {
  pl_update : UserPatch;
  pl_changed : list string;
  pl_roleChanged : bool;
  pl_statusChanged : bool;
}.

Definition pl_privilegeIncreased (target : UserRecord) (p : UserPlan) : bool :=
  match up_role (pl_update p) with
  | Some role => roleAtLeast (role_name role) (role_name (u_role target)) && pl_roleChanged p
  | None => false
  end.

Definition sets_status (s : UserStatus) (p : UserPlan) : bool := bool_decide (up_status (pl_update p) = Some s).

Definition pl_guardsLastSuperAdmin (target : UserRecord) (p : UserPlan) : bool :=
  bool_decide (u_role target = super_admin)
  && ((pl_roleChanged p && bool_decide (u_status target = UserActive)) || sets_status UserDisabled p).

Definition only_super_admin (actor : UserRecord) (role : Role) (error : exn) : M unit :=
  ensure (negb (isElevated role && negb (roleAtLeast (role_name (u_role actor)) "super_admin"))) error.

Definition role_refused : exn := forbidden "Only a super admin can grant or revoke administrator roles".
Definition status_refused : exn := forbidden "Only a super admin can disable or re-enable an administrator".

Definition others_count (target : UserRecord) : M unit :=
  do n <- countActiveSuperAdmins (Some (u_id target));
  ensure (negb (bool_decide (n = 0))) lastSuperAdmin.

Definition plan_role (actor target : UserRecord) (role : option Role) : M (option Role) :=
  match role with
  | Some role =>
      if bool_decide (role = u_role target) then mret None
      else
        do_ ensure (negb ((isElevated role || isElevated (u_role target))
                          && negb (roleAtLeast (role_name (u_role actor)) "super_admin"))) role_refused;
        do_ (if bool_decide (u_role target = super_admin) && bool_decide (u_status target = UserActive)
             then others_count target else mret tt);
        mret (Some role)
  | None => mret None
  end.

Definition plan_status (actor target : UserRecord) (status : option UserStatus) : M (option UserStatus) :=
  match status with
  | Some status =>
      if bool_decide (status = u_status target) then mret None
      else
        do_ only_super_admin actor (u_role target) status_refused;
        do_ (if bool_decide (status = UserDisabled) then
               do_ (if bool_decide (u_role target = super_admin) then others_count target else mret tt);
               ensure (negb (bool_decide (u_id target = u_id actor))) (conflict "You cannot disable your own account" [])
             else mret tt);
        mret (Some status)
  | None => mret None
  end.

Definition plan_user (actor target : UserRecord) (patch : UpdateUserInput) : M UserPlan :=
  let name := trim <$> uu_display_name patch in
  do_ ensure (negb (bool_decide (name = Some ""%string))) (validationFailed "Display name cannot be empty" []);
  do_ match uu_org_id patch with
      | Some (Some org) =>
          do found <- read (fun d => organization_exists d org);
          ensure found (notFound "Organization" (Some org))
      | _ => mret tt
      end;
  do role <- plan_role actor target (uu_role patch);
  do status <- plan_status actor target (uu_status patch);
  do_ (if bool_decide (uu_status patch = Some UserActive) then only_super_admin actor (u_role target) status_refused
       else mret tt);
  mret {| pl_update := {| up_email := None; up_password_hash := None; up_display_name := name; up_role := role;
                          up_org_id := uu_org_id patch; up_company := None; up_phone := None; up_status := status;
                          up_email_verified := None; up_last_login_at := None |};
          pl_changed := (if bool_decide (is_Some name) then ["display_name"%string] else [])
                        ++ (if bool_decide (is_Some (uu_org_id patch)) then ["org_id"%string] else [])
                        ++ (if bool_decide (is_Some role) then ["role"%string] else [])
                        ++ (if bool_decide (is_Some status) then ["status"%string] else []);
          pl_roleChanged := bool_decide (is_Some role); pl_statusChanged := bool_decide (is_Some status) |}.

Definition update_details (target : UserRecord) (p : UserPlan) (terminatedSessions revokedResetLinks : Z) (queued : bool)
    : list (string * json) :=
  [("changed_fields"%string, json_strs (pl_changed p))]
  ++ (if pl_roleChanged p
      then [("from_role", JStr (role_name (u_role target)));
            ("to_role", json_opt_str (role_name <$> up_role (pl_update p)))]%string else [])
  ++ (if pl_statusChanged p
      then [("from_status", JStr (status_name (u_status target)));
            ("to_status", json_opt_str (status_name <$> up_status (pl_update p)))]%string else [])
  ++ (if pl_privilegeIncreased target p || bool_decide (0 < terminatedSessions)
      then [("terminated_sessions"%string, JNum terminatedSessions)] else [])
  ++ (if bool_decide (0 < revokedResetLinks) then [("revoked_reset_links"%string, JNum revokedResetLinks)] else [])
  ++ (if queued then [("gateway_teardown"%string, JStr "queued")] else []).

(** What goes with a change of status: the job, and how many sessions and reset
    links were ended. *)
Definition end_access (actor target : UserRecord) (p : UserPlan) : M (option Teardown.Job * Z * Z) :=
  do disabled <-
    (if sets_status UserDisabled p then
       do now <- date_now;
       do job <- teardown_upsertPending (u_id target) (Some (u_id actor)) now;
       do sessions <- session_deleteForUser (u_id target);
       do links <- token_deleteForUser (u_id target) PasswordReset;
       mret (Some job, sessions, links)
     else mret (None, 0, 0));
  let '(job, sessions, links) := disabled in
  do sessions <- (if pl_privilegeIncreased target p && negb (sets_status UserDisabled p)
                  then session_deleteForUser (u_id target) else mret sessions);
  do links <- (if sets_status UserActive p then
                 do_ teardown_write (fun _ => Teardown.deleteByUser (u_id target));
                 do n <- token_deleteForUser (u_id target) PasswordReset;
                 mret (links + n)
               else mret links);
  mret (job, sessions, links).

Definition update_audits (actor target : UserRecord) (p : UserPlan) (details : list (string * json)) (ip : option string)
    : M unit :=
  let row := fun action => audit_record (user_actor (u_id actor) (u_role actor)) action (on_user (u_id target)) details ip in
  do_ (if pl_roleChanged p then do_ row "user.role_change"%string; mret tt else mret tt);
  do_ (if sets_status UserDisabled p then do_ row "user.disable"%string; mret tt
       else if sets_status UserActive p then do_ row "user.enable"%string; mret tt
       else mret tt);
  if negb (pl_roleChanged p) && negb (pl_statusChanged p) then do_ row "user.update"%string; mret tt else mret tt.

(** [transition]: [None] when the account had moved. *)
Definition transition_body (actor target : UserRecord) (p : UserPlan) (ip : option string)
    : M (option UserRecord * option Teardown.Job) :=
  do current <- users_find (u_id target);
  do_ ensure (negb (sets_status UserActive p
                    && match current with Some c => isReleasedEmail (u_email c) | None => false end))
        (conflict "An account whose address was released must remain disabled" []);
  do_ (if pl_guardsLastSuperAdmin target p then others_count target else mret tt);
  do_ match up_role (pl_update p), assertManualAdminPromotionAllowed with
      | Some role, Some rule =>
          if pl_roleChanged p && isElevated role && negb (roleAtLeast (role_name (u_role target)) (role_name role))
          then rule (u_id target) role else mret tt
      | _, _ => mret tt
      end;
  do row <- user_updateIfMatches (u_id target)
              {| ue_role := Some (u_role target); ue_status := Some (u_status target); ue_email := None;
                 ue_password_hash := None |} (pl_update p);
  match row with
  | None => mret (None, None)
  | Some row =>
      do ended <- end_access actor target p;
      let '(job, sessions, links) := ended in
      do_ update_audits actor target p
            (update_details target p sessions links (bool_decide (is_Some job))) ip;
      mret (Some row, job)
  end.

(** The keys the transition runs under. *)
Definition transition (actor target : UserRecord) (p : UserPlan) (ip : option string)
    : M (option UserRecord * option Teardown.Job) :=
  let body := transaction (transition_body actor target p ip) in
  let lifecycle := if pl_roleChanged p || pl_statusChanged p then locks (userLifecycleLockKey (u_id target)) body else body in
  if pl_guardsLastSuperAdmin target p then locks SUPER_ADMIN_LOCK_KEY lifecycle else lifecycle.

(** The repeat of an enable whose gateway half failed. *)
Definition retry_enable (actor target : UserRecord) (ip : option string) : M unit :=
  do_ transaction (audit_record (user_actor (u_id actor) (u_role actor)) "user.enable" (on_user (u_id target))
        [("changed_fields", json_strs []); ("from_status", JStr (status_name (u_status target)));
         ("to_status", JStr (status_name (u_status target))); ("gateway_restore_retry", JBool true)]%string ip);
  restore_gateway_access (u_id target) (u_id actor).

Definition updateUser (actor : UserRecord) (targetId : string) (patch : UpdateUserInput) (ip : option string)
    : M (User * option GatewayTeardownOutcome) :=
  do target <- users_find targetId;
  match target with
  | None => mthrow (notFound "User" (Some targetId))
  | Some target =>
      do p <- plan_user actor target patch;
      match pl_changed p with
      | [] =>
          do_ (if bool_decide (uu_status patch = Some UserActive) then retry_enable actor target ip else mret tt);
          mret (toPublicUser target, None)
      | _ =>
          do result <- transition actor target p ip;
          match result.1 with
          | None =>
              do found <- users_find (u_id target);
              do_ ensure (bool_decide (is_Some found)) (notFound "User" (Some targetId));
              mthrow (conflict "That account changed while you were editing it — reload and try again" [])
          | Some updated =>
              do teardown <-
                (if sets_status UserDisabled p then
                   do attempt <- runGatewayTeardown (u_id target) (u_id actor) result.2;
                   do_ record_teardown actor (u_id target) attempt ip;
                   mret (Some (ga_outcome attempt))
                 else mret None);
              do_ (if bool_decide (uu_status patch = Some UserActive)
                   then restore_gateway_access (u_id target) (u_id actor) else mret tt);
              do_ (if pl_roleChanged p then
                     mcatch (notify_user (u_id target) "system" "Your role changed"
                               ("An administrator changed your role to "
                                +:+ default "undefined"%string (role_name <$> up_role (pl_update p)) +:+ ".") "/profile")
                       (fun _ => mret tt)
                   else mret tt);
              mret (toPublicUser updated, teardown)
          end
      end
  end.

(** *** Organizations *)

Definition listOrganizations (q : option string) (limit offset : option jsnum) : M (list OrganizationRecord * Z) :=
  read (fun d => organizations_list q limit offset (ac_organizations (d_accounts d))).

Definition organization_find (id : string) : M (option OrganizationRecord) :=
  read (fun d => ac_organizations (d_accounts d) !! id).

Definition getOrganization (id : string) : M OrganizationRecord :=
  do found <- organization_find id;
  match found with Some o => mret o | None => mthrow (notFound "Organization" None) end.

Definition organization_create (name : string) (description : option string) : M OrganizationRecord :=
  statement (fun t d =>
    match organizations_create {| og_id := t_ids t 0; og_name := name; og_description := description;
                                  og_created_at := t_now t; og_updated_at := t_now t |} (ac_organizations (d_accounts d)) with
    | Ok (o, rows) => Ok (o, with_accounts (with_organizations rows (d_accounts d)) d)
    | Throw e => Throw e
    end).

Definition organization_update (id : string) (name : option string) (description : option (option string))
    : M (option OrganizationRecord) :=
  statement (fun t d =>
    match organizations_update id name description (t_now t) (ac_organizations (d_accounts d)) with
    | Ok (o, rows) => Ok (o, with_accounts (with_organizations rows (d_accounts d)) d)
    | Throw e => Throw e
    end).

Definition on_organization (id : string) : AuditTarget := {| target_type := "organization"; target_id := Some id |}.

Definition createOrganization (actor : UserRecord) (name : string) (description : option string) (ip : option string)
    : M OrganizationRecord :=
  let name := trim name in
  do_ ensure (negb (bool_decide (name = ""%string))) (validationFailed "An organization name is required" []);
  transaction (
    do organization <- organization_create name description;
    do_ audit_record (user_actor (u_id actor) (u_role actor)) "org.create" (on_organization (og_id organization))
          [("name"%string, JStr name)] ip;
    mret organization).

Definition updateOrganization (actor : UserRecord) (id : string) (name : option string)
    (description : option (option string)) (ip : option string) : M OrganizationRecord :=
  do existing <- organization_find id;
  match existing with
  | None => mthrow (notFound "Organization" (Some id))
  | Some existing =>
      let name := trim <$> name in
      do_ ensure (negb (bool_decide (name = Some ""%string))) (validationFailed "An organization name is required" []);
      let name := match name with
                  | Some n => if bool_decide (n = og_name existing) then None else Some n
                  | None => None
                  end in
      let description := match description with
                         | Some x => if bool_decide (x = og_description existing) then None else Some x
                         | None => None
                         end in
      match (if bool_decide (is_Some name) then ["name"%string] else [])
            ++ (if bool_decide (is_Some description) then ["description"%string] else []) with
      | [] => mret existing
      | changed =>
          transaction (
            do updated <- organization_update id name description;
            match updated with
            | None => mthrow (notFound "Organization" (Some id))
            | Some updated =>
                do_ audit_record (user_actor (u_id actor) (u_role actor)) "org.update" (on_organization id)
                      [("changed_fields"%string, json_strs changed)] ip;
                mret updated
            end)
      end
  end.
End Service.
