(* ===== verification/SsoService.v ===== *)
(** * Single sign-on

    [server/src/sso/service.ts], with the providers and their secrets read by
    [sso/settings.ts] and the rule on issuers of [sso/config.ts]: a sign-in from its
    start to the session it opens, what the claims do to the account, the
    settings of the providers, and the links of an account. One function per
    operation and per closure. The OpenID Connect client ([sso/oidc.ts]) and the
    parser of URLs are what the service is handed. *)

From Stdlib Require Import Ascii.
From S2P Require Import Prelude Json Regexp Roles Users Settings JobQueues AuditLog AccessTables AccountTables Sso SsoSettings World AccessStore AccountStore SettingGeneration Crypto LeaseFence KeyedSerializer TeardownWorker Auth AuthPlugin UsersService.
Open Scope Z_scope.

(** ** Refusals *)

Inductive SsoErrorReason : Type :=
| SsoDisabled | ProviderUnavailable | InvalidState | IdpError | TokenInvalid | EmailRequired | EmailDomainNotAllowed
| EmailNotVerified | AccountExists | AddressUnproven | PrivilegedAccount | LinkSessionMismatch | AlreadyLinked
| AccessDenied | AccountDisabled | SignupDisabled | ServerError.

#[export] Instance SsoErrorReason_eq_dec : EqDecision SsoErrorReason.
Proof. solve_decision. Defined.

Definition sso_reason_name (r : SsoErrorReason) : string :=
  match r with
  | SsoDisabled => "sso_disabled" | ProviderUnavailable => "provider_unavailable" | InvalidState => "invalid_state"
  | IdpError => "idp_error" | TokenInvalid => "token_invalid" | EmailRequired => "email_required"
  | EmailDomainNotAllowed => "email_domain_not_allowed" | EmailNotVerified => "email_not_verified"
  | AccountExists => "account_exists" | AddressUnproven => "address_unproven" | PrivilegedAccount => "privileged_account"
  | LinkSessionMismatch => "link_session_mismatch" | AlreadyLinked => "already_linked" | AccessDenied => "access_denied"
  | AccountDisabled => "account_disabled" | SignupDisabled => "signup_disabled" | ServerError => "server_error"
  end.

Definition SSO_ERROR_REASONS : list SsoErrorReason :=
  [SsoDisabled; ProviderUnavailable; InvalidState; IdpError; TokenInvalid; EmailRequired; EmailDomainNotAllowed;
   EmailNotVerified; AccountExists; AddressUnproven; PrivilegedAccount; LinkSessionMismatch; AlreadyLinked;
   AccessDenied; AccountDisabled; SignupDisabled; ServerError].

(** An error of the class, told apart by its one detail. *)
Definition OidcError (reason : SsoErrorReason) (message : string) : exn := {|
  ex_code := None; ex_message := message; ex_details := [("OidcError"%string, sso_reason_name reason)];
  ex_lease_lost := false; ex_lock_timeout := false; ex_unacknowledged := false;
|}.

(** [error instanceof OidcError], with its reason. *)
Definition oidc_reason (e : exn) : option SsoErrorReason :=
  match ex_code e, ex_details e with
  | None, [(key, name)] =>
      if decide (key = "OidcError"%string)
      then List.find (fun r => bool_decide (sso_reason_name r = name)) SSO_ERROR_REASONS else None
  | _, _ => None
  end.

(** The log line is left out. *)
Definition refused (e : exn) : SsoErrorReason := default ServerError (oidc_reason e).

Definition refuse {A} (reason : SsoErrorReason) (message : string) : M A := mthrow (OidcError reason message).

Definition domain_error (r : domain_refusal) : exn :=
  match r with
  | Sso.email_required => OidcError EmailRequired "A domain check needs an email"
  | Sso.email_not_verified => OidcError EmailNotVerified "A domain check needs a verified address"
  | Sso.email_domain_not_allowed => OidcError EmailDomainNotAllowed "The email domain is not allowed"
  end.

Definition check_domains (email : option string) (emailVerified : bool) (domains : list string) : M unit :=
  match checkDomains email emailVerified domains with Ok _ => mret tt | Throw r => mthrow (domain_error r) end.

(** ** What the service is handed *)

Record DiscoveryDocument : Type := {
  dd_issuer : string;
  dd_authorization_endpoint : string;
  dd_token_endpoint : string;
  dd_jwks_uri : string;
}.

Record CodeExchange : Type := {
  ce_discovery : DiscoveryDocument;
  ce_clientId : string;
  ce_clientSecret : option string;
  ce_code : string;
  ce_redirectUri : string;
  ce_codeVerifier : string;
}.

Record TokenSet : Type := { ts_idToken : string; ts_accessToken : option string }.

Record IdTokenValidation : Type := {
  iv_idToken : string;
  iv_discovery : DiscoveryDocument;
  iv_clientId : string;
  iv_nonce : string;
  iv_accessToken : option string;
}.

Record AuthorizationRequest : Type := {
  az_discovery : DiscoveryDocument;
  az_clientId : string;
  az_redirectUri : string;
  az_scopes : list string;
  az_state : string;
  az_nonce : string;
  az_codeChallenge : string;
}.

(** The parts of a parsed URL the rule on issuers reads. *)
Record URL : Type := {
  url_username : string;
  url_password : string;
  url_hash : string;
  url_protocol : string;
  url_hostname : string;
}.

(** The OpenID Connect client, the URL parser, the cipher, and the configuration's
    public address and switch. *)
Class SsoDeps : Type := {
  discover : string -> M DiscoveryDocument;
  exchangeCode : CodeExchange -> M TokenSet;
  validateIdToken : IdTokenValidation -> M Claims;
  authorizationUrl : AuthorizationRequest -> string;
  pkceChallenge : string -> string;
  parse_URL : string -> option URL;
  nexusCrypto : NexusCrypto;
  publicUrl : string;
  allowHttpLoopback : bool;
}.

(** The subject of a validated token, a string that is never empty. *)
Definition claim_sub (claims : Claims) : string := default ""%string (json_string (json_own "sub" claims)).

(** [randomBytes(32)], a draw as an identifier is. *)
Definition randomUrlToken : M string := randomUUID.

Definition tokensEqual `{AuthDeps} (a b : string) : bool :=
  bool_decide (sha256 a = sha256 b) && bool_decide (String.length a = String.length b).

(** ** Text *)

Definition hex_upper (n : nat) : ascii := ascii_of_nat (if bool_decide (n < 10)%nat then 48 + n else 55 + n)%nat.

(** The characters [encodeURIComponent] leaves as they are. *)
Definition uri_unreserved (c : ascii) : bool :=
  in_range 65 90 c || in_range 97 122 c || in_range 48 57 c
  || bool_decide (c ∈ ["-"; "_"; "."; "!"; "~"; "*"; "'"; "("; ")"]%char).

Fixpoint encodeURIComponent (s : string) : string :=
  match s with
  | EmptyString => EmptyString
  | String c s' =>
      if uri_unreserved c then String c (encodeURIComponent s')
      else String "%"%char (String (hex_upper (nat_of_ascii c / 16)) (String (hex_upper (nat_of_ascii c mod 16))
             (encodeURIComponent s')))
  end.

(** [replace(/^\[|\]$/g, '')]. *)
Definition strip_brackets (s : string) : string :=
  let s := match s with String "["%char s' => s' | s => s end in
  let n := String.length s in
  if bool_decide (String.substring (n - 1) 1 s = "]"%string) then slice_to (n - 1) s else s.

Definition isLoopbackHostname (hostname : string) : bool :=
  bool_decide (toLowerCase (strip_brackets hostname) ∈ ["localhost"; "127.0.0.1"; "::1"]%string).

Definition HTTPS_PROBLEM : string := "must use https://".
Definition PLAIN_HTTP_PROBLEM : string :=
  "must use https:// (plain http:// is accepted only for a loopback host, and only with NEXUS_OIDC_ALLOW_HTTP_LOOPBACK=true)".

Definition has_character (c : ascii) (s : string) : bool := negb (string_all (fun x => negb (bool_decide (x = c))) s).

Definition oidcUrlProblem `{SsoDeps} (value : string) (allow : bool) : option string :=
  match parse_URL value with
  | None => Some "must be an absolute URL"
  | Some url =>
      if negb (bool_decide (url_username url = "" /\ url_password url = "")) then Some "must not contain credentials"
      else if negb (bool_decide (url_hash url = "")) || has_character "#" value then Some "must not contain a fragment"
      else if bool_decide (url_protocol url = "https:") then None
      else if bool_decide (url_protocol url = "http:") then
        if allow && isLoopbackHostname (url_hostname url) then None else Some PLAIN_HTTP_PROBLEM
      else Some HTTPS_PROBLEM
  end%string.

Definition issuerProblem `{SsoDeps} (issuer : string) (allow : bool) : option string :=
  match oidcUrlProblem issuer allow with
  | Some problem => Some problem
  | None => if has_character "?" issuer then Some "must not contain a query string"%string else None
  end.

(** ** The providers in force, with their secrets *)

#[export] Instance SsoRoleMapping_eq_dec : EqDecision SsoRoleMapping.
Proof. solve_decision. Defined.
#[export] Instance SsoOrgMapping_eq_dec : EqDecision SsoOrgMapping.
Proof. solve_decision. Defined.
#[export] Instance SsoProviderSettings_eq_dec : EqDecision SsoProviderSettings.
Proof. solve_decision. Defined.
#[export] Instance StoredSsoSettings_eq_dec : EqDecision StoredSsoSettings.
Proof. solve_decision. Defined.

Record ResolvedSsoProvider : Type := {
  rp_settings : SsoProviderSettings;
  rp_source : SsoProviderSource;
  rp_clientSecret : option string;
  rp_secretUnreadable : bool;
}.

Inductive ClientSecretRead : Type := SecretAbsent | SecretValue (value : string) | SecretUnreadable.

(** [new Map(entries).get(key)]: the last of the entries with the key. *)
Definition map_of {V} (entries : list (string * V)) (key : string) : option V :=
  snd <$> List.find (fun e => bool_decide (e.1 = key)) (rev entries).

(** [[...new Set(items)].sort()]. *)
Definition sorted_set (items : list string) : list string := sort_by string_leb (js_set [] items).

Section Secrets.
Context (config : SsoEnvConfig) (crypto : NexusCrypto).

(** What the row of a client secret holds. *)
Definition read_secret (providerId : string) (row : option SettingRecord) : ClientSecretRead :=
  match row with
  | None => SecretAbsent
  | Some row =>
      match s_encrypted row, setting_value row with
      | true, JStr blob =>
          match decryptJson crypto (ssoClientSecretKey providerId) blob with
          | Ok (JStr value) => if decide (value = ""%string) then SecretUnreadable else SecretValue value
          | _ => SecretUnreadable
          end
      | _, _ => SecretUnreadable
      end
  end.

(** [readClientSecret], through the recording store. *)
Definition readClientSecret (providerId : string) : settings_read ClientSecretRead :=
  SGet (ssoClientSecretKey providerId) (fun row => SRet (read_secret providerId row)).

Definition resolved_env (settings : SsoProviderSettings) : ResolvedSsoProvider := {|
  rp_settings := settings; rp_source := FromEnvironment;
  rp_clientSecret := List.find (fun p => bool_decide (sp_id (ev_settings p) = sp_id settings)) (sc_providers config)
                     ≫= ev_clientSecret;
  rp_secretUnreadable := false;
|}.

Definition resolved_stored (settings : SsoProviderSettings) (secret : ClientSecretRead) : ResolvedSsoProvider := {|
  rp_settings := settings; rp_source := FromSettings;
  rp_clientSecret := match secret with SecretValue value => Some value | _ => None end;
  rp_secretUnreadable := match secret with SecretUnreadable => true | _ => false end;
|}.

(** The rounds of [resolveWithSecrets]. *)
Fixpoint resolve_each (providers : list (SsoProviderSettings * SsoProviderSource)) (resolved : list ResolvedSsoProvider)
    : settings_read (list ResolvedSsoProvider) :=
  match providers with
  | [] => SRet resolved
  | (settings, FromEnvironment) :: rest => resolve_each rest (resolved ++ [resolved_env settings])
  | (settings, FromSettings) :: rest =>
      SGet (ssoClientSecretKey (sp_id settings)) (fun row =>
        resolve_each rest (resolved ++ [resolved_stored settings (read_secret (sp_id settings) row)]))
  end.

Definition resolveWithSecrets (stored : StoredSsoSettings) : settings_read (list ResolvedSsoProvider) :=
  resolve_each (providersInForce config stored) [].

Definition settings_moved : exn :=
  conflict "The single sign-on settings changed during this request; retry" [("setting"%string, SSO_SETTINGS_KEY)].

Definition resolveSsoProviders (stored : StoredSsoSettings) : M (list ResolvedSsoProvider) :=
  readBoundToSetting SSO_SETTINGS_KEY
    (fun row => if bool_decide (parseStoredSsoSettings row = stored) then resolveWithSecrets stored
                else SThrow settings_moved)
    SETTING_GENERATION_ATTEMPTS.
End Secrets.

(** ** One attempt to sign in *)

Definition SSO_TRANSACTION_TTL_SECONDS : Z := 600.

Record SsoTransaction : Type := {
  tr_provider : string;
  tr_state : string;
  tr_nonce : string;
  tr_verifier : string;
  tr_return_to : string;
  tr_expires_at : Z;
  tr_link_user_id : option string;
  tr_link_session_id : option string;
}.

Record SsoCurrentSession : Type := { cs_userId : string; cs_sessionId : string }.

Record SsoCallbackQuery : Type := { q_code : option string; q_state : option string; q_error : option string }.

Inductive SsoCallbackResult : Type :=
| CallbackOk (location : string) (issued : IssuedSession)
| CallbackRefused (location : string) (reason : SsoErrorReason).

Inductive SignInPlan : Type :=
| Returning (user : UserRecord) (identity : UserIdentityRecord) (initiatingSessionId : option string)
| LinkAccount (user : UserRecord) (explicit : bool) (initiatingSessionId : option string)
| Provision.

Definition transaction_json (t : SsoTransaction) : json := JObj
  [("v", JNum 1); ("provider", JStr (tr_provider t)); ("state", JStr (tr_state t)); ("nonce", JStr (tr_nonce t));
   ("verifier", JStr (tr_verifier t)); ("return_to", JStr (tr_return_to t)); ("expires_at", JNum (tr_expires_at t));
   ("link_user_id", json_opt_str (tr_link_user_id t)); ("link_session_id", json_opt_str (tr_link_session_id t))]%string.

(** [optionalId], with the id. *)
Definition optional_id (v : option json) : option (option string) :=
  match v with Some JNull => Some None | Some (JStr s) => Some (Some s) | _ => None end.

Definition json_integer (v : option json) : option Z := match v with Some (JNum n) => Some n | _ => None end.

(** The checks on the object a cookie opens to. *)
Definition transaction_of (value : json) : option SsoTransaction :=
  let m := asRecord (Some value) in
  version ← json_integer (json_own "v" m);
  if negb (bool_decide (version = 1)) then None
  else
    provider ← json_string (json_own "provider" m);
    state ← json_string (json_own "state" m);
    nonce ← json_string (json_own "nonce" m);
    verifier ← json_string (json_own "verifier" m);
    return_to ← json_string (json_own "return_to" m);
    expires_at ← json_integer (json_own "expires_at" m);
    link_user_id ← optional_id (json_own "link_user_id" m);
    link_session_id ← optional_id (json_own "link_session_id" m);
    Some {| tr_provider := provider; tr_state := state; tr_nonce := nonce; tr_verifier := verifier;
            tr_return_to := safeReturnPath (Some return_to); tr_expires_at := expires_at;
            tr_link_user_id := link_user_id; tr_link_session_id := link_session_id |}.

Definition openTransaction (crypto : NexusCrypto) (cookie : option string) : option SsoTransaction :=
  match cookie with
  | None | Some EmptyString => None
  | Some blob => match openSsoTransaction crypto blob with Ok value => transaction_of value | Throw _ => None end
  end.

(** A hash no password matches: its salt and digest are drawn. *)
Definition unusablePasswordHash : M string :=
  do salt <- randomUUID;
  do hash <- randomUUID;
  mret ("scrypt:" +:+ pretty (sp_N SCRYPT_PARAMS) +:+ ":" +:+ pretty (sp_r SCRYPT_PARAMS) +:+ ":"
        +:+ pretty (sp_p SCRYPT_PARAMS) +:+ ":" +:+ salt +:+ ":" +:+ hash).

(** [randomBytes(12)] for one envelope; the draw is used up. *)
Definition fresh_nonce : M string := do iv <- randomNonce; do_ randomUUID; mret iv.

(** ** Who an identity provider's claims may promote *)

(** [trusted]: the issuers of the providers that may make administrators. *)
Definition trusted_issuers (config : SsoEnvConfig) (stored : StoredSsoSettings) : list (string * string) :=
  map (fun p => (sp_id p.1, sp_issuer p.1))
    (List.filter (fun p => grantsAdmin p.1) (providersInForce config stored)).

Definition identity_trusted (config : SsoEnvConfig) (stored : StoredSsoSettings) (i : UserIdentityRecord) : bool :=
  bool_decide (map_of (trusted_issuers config stored) (ui_provider_id i) = Some (ui_issuer i)).

(** The provider ids of the links that are not trusted, but for the provider itself. *)
Definition lower_trust (config : SsoEnvConfig) (stored : StoredSsoSettings) (except : option string)
    (identities : list UserIdentityRecord) : list string :=
  sorted_set (map ui_provider_id
    (List.filter (fun i => negb (bool_decide (Some (ui_provider_id i) = except))
                           && negb (identity_trusted config stored i)) identities)).

Definition lowerTrustProviders (config : SsoEnvConfig) (userId : string) (provider : SsoProviderSettings)
    (stored : StoredSsoSettings) : M (list string) :=
  do identities <- links_of userId;
  mret (lower_trust config stored (Some (sp_id provider)) identities).

Definition lowerTrustProvidersForManualPromotion (config : SsoEnvConfig) (userId : string) (stored : StoredSsoSettings)
    : M (list string) :=
  do identities <- links_of userId;
  mret (lower_trust config stored None identities).

Definition promotion_refused (role : Role) : exn :=
  conflict ("Remove or raise the trust of linked single sign-on identities before promoting this account to "
            +:+ role_name role) [].

(** [assertManualAdminPromotionAllowed]; the ids among the details are left out. *)
Definition sso_promotion_rule (config : SsoEnvConfig) (userId : string) (role : Role) : M unit :=
  do stored <- readStoredSsoSettings;
  do ids <- lowerTrustProvidersForManualPromotion config userId stored;
  ensure (bool_decide (ids = [])) (promotion_refused role).

Section Service.
Context `{AuthDeps} `{SsoDeps} `{TeardownService} (config : NexusConfig).

Definition redirectUri (providerId : string) : string :=
  publicUrl +:+ "/api/auth/sso/" +:+ encodeURIComponent providerId +:+ "/callback".

Definition errorLocation (reason : SsoErrorReason) (linking : bool) : string :=
  publicUrl +:+ (if linking then "/profile" else "/login") +:+ "?sso_error=" +:+ sso_reason_name reason.

Definition findProvider (providerId : string) (stored : StoredSsoSettings) : M ResolvedSsoProvider :=
  if bool_decide (st_policy stored = LocalOnly) then refuse SsoDisabled "The login policy is local_only"
  else
    do providers <- resolveSsoProviders (sso config) nexusCrypto stored;
    match List.find (fun p => bool_decide (sp_id (rp_settings p) = providerId)) providers with
    | None => refuse SsoDisabled "No enabled provider has that id"
    | Some chosen =>
        if negb (sp_enabled (rp_settings chosen)) then refuse SsoDisabled "No enabled provider has that id"
        else if rp_secretUnreadable chosen
        then refuse ProviderUnavailable "The stored client secret does not decrypt; re-enter it in the admin settings"
        else mret chosen
    end.

(** What the settings, read again, say of the provider a callback began with. *)
Definition provider_current (provider : SsoProviderSettings) (stored : StoredSsoSettings) : M unit :=
  if bool_decide (st_policy stored = LocalOnly)
  then refuse SsoDisabled "The login policy became local_only during sign-in"
  else
    match List.find (fun p => bool_decide (sp_id p.1 = sp_id provider)) (providersInForce (sso config) stored) with
    | None => refuse SsoDisabled "The provider was removed or disabled during sign-in"
    | Some (current, _) =>
        if negb (sp_enabled current) then refuse SsoDisabled "The provider was removed or disabled during sign-in"
        else if negb (bool_decide (current = provider))
        then refuse SsoDisabled "The provider was reconfigured during sign-in"
        else mret tt
    end.

Definition currentSettings (provider : SsoProviderSettings) : M StoredSsoSettings :=
  do stored <- readStoredSsoSettings;
  do_ provider_current provider stored;
  mret stored.

(** The sections, the first key outermost. *)
Fixpoint under_keys {A} (keys : list string) (fn : M A) : M A :=
  match keys with
  | [] => fn
  | key :: rest => locks key (under_keys rest fn)
  end.

Definition underProviderLocks {A} (providerIds : list string) (fn : M A) : M A :=
  under_keys (map ssoProviderLockKey (sorted_set providerIds)) fn.

(** *** The start *)

Definition begin (provider : ResolvedSsoProvider) (returnTo : string) (link : option SsoCurrentSession)
    : M (string * string) :=
  let settings := rp_settings provider in
  do discovery <- discover (sp_issuer settings);
  do state <- randomUrlToken;
  do nonce <- randomUrlToken;
  do verifier <- randomUrlToken;
  do now <- date_now;
  let transaction := {|
    tr_provider := sp_id settings; tr_state := state; tr_nonce := nonce; tr_verifier := verifier;
    tr_return_to := returnTo; tr_expires_at := now + SSO_TRANSACTION_TTL_SECONDS * 1000;
    tr_link_user_id := cs_userId <$> link; tr_link_session_id := cs_sessionId <$> link |} in
  do iv <- fresh_nonce;
  mret (authorizationUrl {|
          az_discovery := discovery; az_clientId := sp_client_id settings; az_redirectUri := redirectUri (sp_id settings);
          az_scopes := sp_scopes settings; az_state := state; az_nonce := nonce;
          az_codeChallenge := pkceChallenge verifier |},
        sealSsoTransaction nexusCrypto (transaction_json transaction) iv).

Definition start (providerId : string) (returnTo : option string) : M (string * option string) :=
  mcatch
    (do stored <- readStoredSsoSettings;
     do provider <- findProvider providerId stored;
     do begun <- begin provider (safeReturnPath returnTo) None;
     mret (begun.1, Some begun.2))
    (fun error => mret (errorLocation (refused error) false, None)).

Definition startLink (providerId : string) (current : SsoCurrentSession) : M (string * string) :=
  mcatch
    (do stored <- readStoredSsoSettings;
     do provider <- findProvider providerId stored;
     begin provider "/profile" (Some current))
    (fun error => mthrow (validationFailed "Linking cannot start with that provider"
                            [("reason"%string, sso_reason_name (refused error))])).

(** *** Access lost *)

Definition deprovision_commit (user : UserRecord) (provider : SsoProviderSettings) (subject : string)
    (context : RequestContext) : M (option Teardown.Job) :=
  do stored <- currentSettings provider;
  if negb (st_deprovision_on_access_loss stored) then mret None
  else
    do current <- users_find (u_id user);
    match current with
    | None => mret None
    | Some current =>
        if negb (bool_decide (u_status current = UserActive)) || bool_decide (u_role current = super_admin) then mret None
        else
          do disabled <- user_updateIfMatches (u_id current)
                           {| ue_role := Some (u_role current); ue_status := Some UserActive; ue_email := None;
                              ue_password_hash := None |} (status_patch UserDisabled);
          match disabled with
          | None => mret None
          | Some _ =>
              do now <- date_now;
              do queued <- teardown_upsertPending (u_id current) None now;
              do terminatedSessions <- session_deleteForUser (u_id current);
              do revokedResetLinks <- token_deleteForUser (u_id current) PasswordReset;
              do_ audit_record SYSTEM_ACTOR "auth.sso_deprovision" (on_user (u_id current))
                    ([("provider_id", JStr (sp_id provider)); ("subject", JStr subject);
                      ("reason", JStr "no_mapped_role"); ("role", JStr (role_name (u_role current)));
                      ("terminated_sessions", JNum terminatedSessions)]%string
                     ++ (if bool_decide (0 < revokedResetLinks)
                         then [("revoked_reset_links", JNum revokedResetLinks)]%string else [])
                     ++ [("gateway_teardown", JStr "queued")]%string)
                    (rc_ip context);
              mret (Some queued)
          end
    end.

Definition deprovision (user : UserRecord) (provider : SsoProviderSettings) (subject : string) (context : RequestContext)
    : M unit :=
  do job <- locks (ssoProviderLockKey (sp_id provider))
              (locks (userLifecycleLockKey (u_id user))
                (transaction (deprovision_commit user provider subject context)));
  match job with
  | None => mret tt
  | Some job =>
      do attempt <- runGatewayTeardown (u_id user) (u_id user) (Some job);
      match ga_outcome attempt with
      | TeardownPending => mret tt
      | _ =>
          do_ audit_record SYSTEM_ACTOR "user.gateway_teardown_complete" (on_user (u_id user))
                (("inline"%string, JBool true) :: ga_details attempt) (rc_ip context);
          mret tt
      end
  end.

(** *** Which account *)

(** Whether the proof counts for linking. *)
Definition proof_counts (account : UserRecord) (proof : option EmailProofRecord) : bool :=
  match proof with
  | None => false
  | Some p => negb (bool_decide (ep_method p = ByVerificationLink))
              && bool_decide (ep_email p = toLowerCase (trim (u_email account)))
  end.

Definition addressProven (account : UserRecord) : M bool :=
  do proof <- proof_find (u_id account); mret (proof_counts account proof).

Definition founder_claim (row : option SettingRecord) : option json := json_own "user_id" (asRecord (setting_value <$> row)).

Definition seatedFounder (account : UserRecord) : M bool :=
  if negb (bool_decide (u_role account = super_admin)) then mret false
  else
    do row <- setting_get SUPER_ADMIN_CLAIM_KEY;
    mret (match founder_claim row with Some (JStr id) => bool_decide (id = u_id account) | _ => false end).

Definition linked_at (providerId : string) (links : list UserIdentityRecord) : bool :=
  existsb (fun link => bool_decide (ui_provider_id link = providerId)) links.

Definition planExplicitLink (provider : ResolvedSsoProvider) (claims : Claims) (email : option string)
    (emailVerified : bool) (mapping : ClaimMapping) (transaction : SsoTransaction) (current : option SsoCurrentSession)
    : M SignInPlan :=
  match current with
  | None => refuse LinkSessionMismatch "The link did not return to its session"
  | Some current =>
      if negb (bool_decide (Some (cs_userId current) = tr_link_user_id transaction))
         || negb (bool_decide (Some (cs_sessionId current) = tr_link_session_id transaction))
      then refuse LinkSessionMismatch "The link did not return to its session"
      else
        let settings := rp_settings provider in
        do_ check_domains email emailVerified (sp_allowed_email_domains settings);
        do account <- users_find (cs_userId current);
        match account with
        | None => refuse AccountDisabled "The account is not active"
        | Some account =>
            if negb (bool_decide (u_status account = UserActive)) then refuse AccountDisabled "The account is not active"
            else
              do identity <- link_findBySubject (sp_id settings) (sp_issuer settings) (claim_sub claims);
              match identity with
              | Some identity =>
                  if negb (bool_decide (ui_user_id identity = u_id account))
                  then refuse AlreadyLinked "The identity is linked to another account"
                  else mret (Returning account identity (Some (cs_sessionId current)))
              | None =>
                  do links <- links_of (u_id account);
                  if linked_at (sp_id settings) links
                  then refuse AlreadyLinked "The account is already linked at this provider"
                  else
                    do proven <- addressProven account;
                    do founder <- (if proven : bool then mret true else seatedFounder account);
                    if negb founder then refuse AddressUnproven "The portal holds no proof of the address"
                    else if bool_decide (cm_role mapping = None) && negb (bool_decide (u_role account = super_admin))
                    then refuse AccessDenied "The claims map to no role"
                    else mret (LinkAccount account true (Some (cs_sessionId current)))
              end
        end
  end.

(** The account with the address, if it may be linked without its holder asking. *)
Definition plan_existing (settings : SsoProviderSettings) (existing : UserRecord) (emailVerified : bool)
    (mapping : ClaimMapping) : M SignInPlan :=
  if negb (sp_link_existing_accounts settings)
  then refuse AccountExists "Linking existing accounts is off for this provider"
  else if privilegedAutoLink existing mapping settings
  then refuse PrivilegedAccount "Administrator accounts link explicitly"
  else if negb emailVerified then refuse EmailNotVerified "The provider did not verify the address"
  else
    do proven <- addressProven existing;
    if negb proven then refuse AccountExists "The portal holds no proof of the address"
    else if negb (bool_decide (u_status existing = UserActive))
    then refuse AccountDisabled "The matching account is disabled"
    else
      do links <- links_of (u_id existing);
      if linked_at (sp_id settings) links
      then refuse AccountExists "The account is already linked to another subject at this provider"
      else if bool_decide (cm_role mapping = None) then refuse AccessDenied "The claims map to no role"
      else mret (LinkAccount existing false None).

(** The account the subject is linked to. *)
Definition plan_linked (settings : SsoProviderSettings) (identity : UserIdentityRecord) (claims : Claims)
    (mapping : ClaimMapping) (stored : StoredSsoSettings) (context : RequestContext) : M SignInPlan :=
  do user <- users_find (ui_user_id identity);
  match user with
  | None => refuse ServerError "The linked account no longer exists"
  | Some user =>
      if negb (bool_decide (u_status user = UserActive)) then refuse AccountDisabled "The linked account is disabled"
      else if bool_decide (cm_role mapping = None) && negb (bool_decide (u_role user = super_admin))
      then
        do_ (if st_deprovision_on_access_loss stored then deprovision user settings (claim_sub claims) context
             else mret tt);
        refuse AccessDenied "The claims map to no role"
      else mret (Returning user identity None)
  end.

Definition planSignIn (provider : ResolvedSsoProvider) (claims : Claims) (email : option string) (emailVerified : bool)
    (mapping : ClaimMapping) (stored : StoredSsoSettings) (context : RequestContext) : M SignInPlan :=
  let settings := rp_settings provider in
  do identity <- link_findBySubject (sp_id settings) (sp_issuer settings) (claim_sub claims);
  match identity with
  | Some identity => plan_linked settings identity claims mapping stored context
  | None =>
      match email with
      | None => refuse EmailRequired "The ID token has no usable email"
      | Some address =>
          if isReleasedEmail address then refuse EmailRequired "The ID token has no usable email"
          else
            do_ check_domains email emailVerified (sp_allowed_email_domains settings);
            do existing <- users_find_email address;
            match existing with
            | Some existing => plan_existing settings existing emailVerified mapping
            | None =>
                if negb (sp_jit_provisioning settings) then refuse SignupDisabled "Just-in-time provisioning is off"
                else if sp_require_verified_email settings && negb emailVerified
                then refuse EmailNotVerified "The provider did not verify the address"
                else if bool_decide (cm_role mapping = None) then refuse AccessDenied "The claims map to no role"
                else mret Provision
            end
      end
  end.

(** *** The sign-in's transaction *)

Definition role_mapping_json (m : SsoRoleMapping) : json := JObj
  [("claim", JStr (rm_claim m)); ("value", JStr (rm_value m)); ("role", JStr (role_name (sso_role (rm_role m))))]%string.
Definition org_mapping_json (m : SsoOrgMapping) : json := JObj
  [("claim", JStr (om_claim m)); ("value", JStr (om_value m)); ("org_id", JStr (om_org_id m))]%string.
Definition or_json_null {A} (f : A -> json) (a : option A) : json := match a with Some a => f a | None => JNull end.

(** The rules that fired, as an audit row names them. *)
Definition mapping_details (mapping : ClaimMapping) : list (string * json) :=
  [("role_mapping", or_json_null role_mapping_json (cm_roleMapping mapping));
   ("org_mapping", or_json_null org_mapping_json (cm_orgMapping mapping))]%string.

Definition provisioned_user (claims : Claims) (email passwordHash : string) (role : SsoMappableRole)
    (org_id : option string) (emailVerified : bool) (id : string) (at_ : Z) : UserRecord := {|
  u_id := id; u_email := email; u_password_hash := passwordHash; u_display_name := displayNameFromClaims claims email;
  u_role := sso_role role; u_org_id := org_id; u_company := None; u_phone := None; u_status := UserActive;
  u_email_verified := emailVerified; u_last_login_at := None; u_created_at := at_; u_updated_at := at_; u_email_fence := "";
|}.

Definition link_row (userId : string) (provider : SsoProviderSettings) (subject : string) (email : option string)
    (provisioned : bool) (lastLogin : Z) (id : string) (at_ : Z) : UserIdentityRecord := {|
  ui_id := id; ui_user_id := userId; ui_provider_id := sp_id provider; ui_issuer := sp_issuer provider;
  ui_subject := subject; ui_email := email; ui_provisioned := provisioned; ui_last_login_at := Some lastLogin;
  ui_created_at := at_; ui_updated_at := at_;
|}.

(** What the callback found of the person who signed in. *)
Record SignInClaims : Type := {
  si_claims : Claims;
  si_email : option string;
  si_emailVerified : bool;
  si_mapping : ClaimMapping;
}.

(** A new account, and the id of its link. *)
Definition provision_account (provider : SsoProviderSettings) (who : SignInClaims) (passwordHash : string)
    (orgExists : bool) (at_ : Z) (context : RequestContext) : M (UserRecord * string) :=
  match si_email who, cm_role (si_mapping who) with
  | Some email, Some role =>
      let mapping := si_mapping who in
      let org_id := match cm_orgId mapping with Some (Some org) => if orgExists then Some org else None | _ => None end in
      do user <- user_create (provisioned_user (si_claims who) email passwordHash role org_id (si_emailVerified who));
      do identity <- link_create (link_row (u_id user) provider (claim_sub (si_claims who)) (Some email) true at_);
      do_ lock_create (u_id user) (sp_id provider) at_;
      do_ (if si_emailVerified who then proof_upsert (u_id user) email ByIdentityProvider at_ else mret tt);
      do_ audit_record (user_actor (u_id user) (u_role user)) "auth.sso_provision" (on_user (u_id user))
            ([("provider_id", JStr (sp_id provider)); ("subject", JStr (claim_sub (si_claims who)));
              ("email", JStr email); ("email_verified", JBool (si_emailVerified who));
              ("role", JStr (role_name (u_role user))); ("org_id", json_opt_str (u_org_id user))]%string
             ++ mapping_details mapping)
            (rc_ip context);
      mret (user, ui_id identity)
  | _, _ => refuse ServerError "Provisioning without an address or a role"
  end.

Definition initiating_gone : exn := OidcError LinkSessionMismatch "The initiating session is no longer valid".

(** The account of the plan as it is now, and the session that asked for the link. *)
Definition plan_account (userId : string) (initiatingSessionId : option string) : M UserRecord :=
  do current <- users_find userId;
  match current with
  | None => refuse ServerError "The account no longer exists"
  | Some current =>
      if negb (bool_decide (u_status current = UserActive))
      then refuse AccountDisabled "The account was disabled during sign-in"
      else
        match initiatingSessionId with
        | None => mret current
        | Some id =>
            do session <- session_find id;
            do now <- date_now;
            match session with
            | Some s =>
                do_ ensure (bool_decide (ss_user_id s = u_id current) && session_live config s now) initiating_gone;
                mret current
            | None => mthrow initiating_gone
            end
        end
  end.

(** A first link of an account, with its id. *)
Definition link_account (user : UserRecord) (explicit : bool) (provider : SsoProviderSettings) (who : SignInClaims)
    (at_ : Z) (context : RequestContext) : M string :=
  if negb explicit && privilegedAutoLink user (si_mapping who) provider
  then refuse PrivilegedAccount "Administrator accounts link explicitly"
  else
    do identity <- link_create (link_row (u_id user) provider (claim_sub (si_claims who)) (si_email who) false at_);
    do_ (match si_email who with
         | Some email =>
             if negb explicit && si_emailVerified who && bool_decide (email = toLowerCase (trim (u_email user)))
             then proof_upsert (u_id user) email ByIdentityProvider at_ else mret tt
         | None => mret tt
         end);
    do_ audit_record (user_actor (u_id user) (u_role user)) "auth.sso_link" (on_user (u_id user))
          [("provider_id", JStr (sp_id provider)); ("subject", JStr (claim_sub (si_claims who)));
           ("identity_id", JStr (ui_id identity)); ("email", json_opt_str (si_email who));
           ("explicit", JBool explicit); ("email_verified_by_provider", JBool (si_emailVerified who))]%string
          (rc_ip context);
    mret (ui_id identity).

Definition touch_identity (identity : UserIdentityRecord) (email : option string) (at_ : Z) : M string :=
  do touched <- link_touchLogin (ui_id identity) email at_;
  do_ ensure touched (OidcError ServerError "The identity was unlinked during sign-in");
  mret (ui_id identity).

(** [change], with the ids that withheld a promotion. *)
Definition promotes (user : UserRecord) (planned : option ClaimsPatch) : bool :=
  match planned ≫= cp_role with
  | Some role => role_at_least (sso_role role) admin && negb (role_at_least (u_role user) admin)
  | None => false
  end.

Definition without_role (planned : option ClaimsPatch) : option ClaimsPatch :=
  match planned ≫= cp_org_id with
  | Some org => Some {| cp_role := None; cp_org_id := Some org |}
  | None => None
  end.

Definition claims_patch (change : ClaimsPatch) : UserPatch := {|
  up_email := None; up_password_hash := None; up_display_name := None; up_role := sso_role <$> cp_role change;
  up_org_id := cp_org_id change; up_company := None; up_phone := None; up_status := None; up_email_verified := None;
  up_last_login_at := None |}.

Definition raises_role (user : UserRecord) (change : ClaimsPatch) : bool :=
  match cp_role change with Some role => negb (role_at_least (u_role user) (sso_role role)) | None => false end.

(** The write of a change, and how many sessions a raised role ended. *)
Definition apply_change (user : UserRecord) (change : ClaimsPatch) : M (UserRecord * option Z) :=
  do row <- user_updateIfMatches (u_id user)
              {| ue_role := Some (u_role user); ue_status := Some UserActive; ue_email := None; ue_password_hash := None |}
              (claims_patch change);
  match row with
  | None => refuse ServerError "The account changed during sign-in"
  | Some row =>
      if raises_role user change then do n <- session_deleteForUser (u_id user); mret (row, Some n)
      else mret (row, None)
  end.

Definition sync_details (provider : SsoProviderSettings) (who : SignInClaims) (user : UserRecord)
    (planned change : option ClaimsPatch) (withheld : list string) (terminatedSessions : option Z) : list (string * json) :=
  [("provider_id", JStr (sp_id provider)); ("subject", JStr (claim_sub (si_claims who)))]%string
  ++ match change ≫= cp_role with
     | Some role => [("from_role", JStr (role_name (u_role user))); ("to_role", JStr (role_name (sso_role role)))]%string
     | None => []
     end
  ++ match change ≫= cp_org_id with
     | Some org => [("from_org_id", json_opt_str (u_org_id user)); ("to_org_id", json_opt_str org)]%string
     | None => []
     end
  ++ match withheld with
     | [] => []
     | _ => [("role_withheld", json_opt_str (role_name ∘ sso_role <$> (planned ≫= cp_role)));
             ("withheld_reason", JStr "lower_trust_identities"); ("lower_trust_provider_ids", json_strs withheld)]%string
     end
  ++ match terminatedSessions with Some n => [("terminated_sessions"%string, JNum n)] | None => [] end
  ++ mapping_details (si_mapping who).

(** What the claims do to an account that was there. *)
Definition sync_claims (user : UserRecord) (provider : SsoProviderSettings) (who : SignInClaims) (orgExists : bool)
    (stored : StoredSsoSettings) (context : RequestContext) : M UserRecord :=
  let planned := planClaimsChange user (si_mapping who) provider orgExists in
  do withheld <- (if promotes user planned then lowerTrustProviders (sso config) (u_id user) provider stored else mret []);
  let change := match withheld with [] => planned | _ => without_role planned end in
  match change, withheld with
  | None, [] => mret user
  | _, _ =>
      do updated <- match change with
                    | Some change => apply_change user change
                    | None => mret (user, None)
                    end;
      do_ audit_record SYSTEM_ACTOR "auth.sso_claims_sync" (on_user (u_id user))
            (sync_details provider who user planned change withheld updated.2) (rc_ip context);
      mret updated.1
  end.

(** The account a plan opens: the row after the claims, and the id of the link. *)
Definition open_account (plan : SignInPlan) (provider : SsoProviderSettings) (who : SignInClaims) (passwordHash : string)
    (orgExists : bool) (at_ : Z) (stored : StoredSsoSettings) (context : RequestContext) : M (UserRecord * string) :=
  match plan with
  | Provision => provision_account provider who passwordHash orgExists at_ context
  | LinkAccount user explicit initiating =>
      do current <- plan_account (u_id user) initiating;
      do identityId <- link_account current explicit provider who at_ context;
      do updated <- sync_claims current provider who orgExists stored context;
      mret (updated, identityId)
  | Returning user identity initiating =>
      do current <- plan_account (u_id user) initiating;
      do identityId <- touch_identity identity (si_email who) at_;
      do updated <- sync_claims current provider who orgExists stored context;
      mret (updated, identityId)
  end.

Definition sign_in_details (plan : SignInPlan) (provider : SsoProviderSettings) (who : SignInClaims) (identityId : string)
    : list (string * json) :=
  [("provider_id", JStr (sp_id provider)); ("subject", JStr (claim_sub (si_claims who)));
   ("identity_id", JStr identityId); ("email", json_opt_str (si_email who))]%string
  ++ match plan with
     | Provision => [("provisioned"%string, JBool true)]
     | LinkAccount _ _ _ => [("linked"%string, JBool true)]
     | Returning _ _ _ => []
     end.

Definition sign_in_commit (plan : SignInPlan) (provider : SsoProviderSettings) (who : SignInClaims) (passwordHash : string)
    (orgExists : bool) (at_ : Z) (context : RequestContext) : M IssuedSession :=
  do stored <- currentSettings provider;
  do_ check_domains (si_email who) (si_emailVerified who) (st_allowed_email_domains stored);
  do opened <- open_account plan provider who passwordHash orgExists at_ stored context;
  let user := opened.1 in
  do_ user_touchLastLogin (u_id user) at_;
  do issued <- issueSession config user context;
  do_ audit_record (user_actor (u_id user) (u_role user)) "auth.sso_login" (on_user (u_id user))
        (sign_in_details plan provider who opened.2) (rc_ip context);
  mret issued.

(** The keys of a plan, the first outermost. *)
Definition plan_keys (plan : SignInPlan) (provider : SsoProviderSettings) : list string :=
  match plan with
  | Provision => [ssoProviderLockKey (sp_id provider)]
  | LinkAccount user _ _ => [ssoProviderLockKey (sp_id provider); userLifecycleLockKey (u_id user)]
  | Returning user _ _ => [userLifecycleLockKey (u_id user)]
  end.

Definition signIn (plan : SignInPlan) (provider : SsoProviderSettings) (who : SignInClaims) (context : RequestContext)
    : M IssuedSession :=
  do at_ <- date_now;
  do passwordHash <- match plan with Provision => unusablePasswordHash | _ => mret ""%string end;
  do orgExists <- match cm_orgId (si_mapping who) with
                  | Some (Some org) => organization_known org
                  | _ => mret false
                  end;
  under_keys (plan_keys plan provider)
    (transaction (sign_in_commit plan provider who passwordHash orgExists at_ context)).

(** *** The callback *)

Definition no_attempt : exn := OidcError InvalidState "No live sign-in attempt for this browser".

(** Up to the attempt this browser started. *)
Definition callback_open (providerId : string) (cookie : option string)
    : M (StoredSsoSettings * ResolvedSsoProvider * SsoTransaction) :=
  do stored <- readStoredSsoSettings;
  do chosen <- findProvider providerId stored;
  do now <- date_now;
  match openTransaction nexusCrypto cookie with
  | None => mthrow no_attempt
  | Some transaction =>
      if negb (bool_decide (tr_provider transaction = sp_id (rp_settings chosen)))
         || bool_decide (tr_expires_at transaction <= now)
      then mthrow no_attempt
      else mret (stored, chosen, transaction)
  end.

(** The code the provider answered with. *)
Definition callback_code (query : SsoCallbackQuery) (transaction : SsoTransaction) : M string :=
  do_ ensure (match q_state query with Some state => tokensEqual state (tr_state transaction) | None => false end)
        (OidcError InvalidState "The state does not match this sign-in attempt");
  do_ ensure (bool_decide (q_error query = None)) (OidcError IdpError "The provider refused the authorization request");
  match q_code query with
  | None | Some EmptyString => refuse IdpError "The provider returned no authorization code"
  | Some code => mret code
  end.

Definition redeem (chosen : ResolvedSsoProvider) (transaction : SsoTransaction) (code : string) : M Claims :=
  let settings := rp_settings chosen in
  do discovery <- discover (sp_issuer settings);
  do tokens <- exchangeCode {|
    ce_discovery := discovery; ce_clientId := sp_client_id settings; ce_clientSecret := rp_clientSecret chosen;
    ce_code := code; ce_redirectUri := redirectUri (sp_id settings); ce_codeVerifier := tr_verifier transaction |};
  validateIdToken {|
    iv_idToken := ts_idToken tokens; iv_discovery := discovery; iv_clientId := sp_client_id settings;
    iv_nonce := tr_nonce transaction; iv_accessToken := ts_accessToken tokens |}.

(** What the claims say of the person. *)
Definition read_claims (provider : SsoProviderSettings) (claims : Claims) : SignInClaims := {|
  si_claims := claims; si_email := normalizeEmailClaim (json_own "email" claims);
  si_emailVerified := emailVerifiedClaim (json_own "email_verified" claims); si_mapping := mapClaims provider claims;
|}.

Definition is_linking (transaction : SsoTransaction) : bool := bool_decide (is_Some (tr_link_user_id transaction)).

Definition callback_finish (stored : StoredSsoSettings) (chosen : ResolvedSsoProvider) (transaction : SsoTransaction)
    (query : SsoCallbackQuery) (current : option SsoCurrentSession) (context : RequestContext) : M IssuedSession :=
  do code <- callback_code query transaction;
  do claims <- redeem chosen transaction code;
  let who := read_claims (rp_settings chosen) claims in
  do_ check_domains (si_email who) (si_emailVerified who) (st_allowed_email_domains stored);
  do plan <- (if is_linking transaction
              then planExplicitLink chosen claims (si_email who) (si_emailVerified who) (si_mapping who) transaction current
              else planSignIn chosen claims (si_email who) (si_emailVerified who) (si_mapping who) stored context);
  signIn plan (rp_settings chosen) who context.

Definition refusal (e : exn) (linking : bool) : SsoCallbackResult :=
  CallbackRefused (errorLocation (refused e) linking) (refused e).

Definition callback (providerId : string) (query : SsoCallbackQuery) (cookie : option string)
    (current : option SsoCurrentSession) (context : RequestContext) : M SsoCallbackResult :=
  do opened <- mattempt (callback_open providerId cookie);
  match opened with
  | Throw e => mret (refusal e false)
  | Ok (stored, chosen, transaction) =>
      mcatch
        (do issued <- callback_finish stored chosen transaction query current context;
         mret (CallbackOk (publicUrl +:+ tr_return_to transaction) issued))
        (fun e => mret (refusal e (is_linking transaction)))
  end.
End Service.

(** ** Administration *)

Definition MAX_SSO_PROVIDERS : nat := 10.

Record UpdateSsoSettingsRequest : Type := {
  us_policy : option LoginPolicy;
  us_allowed_email_domains : option (list string);
  us_deprovision_on_access_loss : option bool;
  us_providers : option (list (SsoProviderSettings * option (option string)));  (* with [client_secret] *)
}.

Record SsoPublicConfig : Type := {
  pc_policy : LoginPolicy;
  pc_password_login : string;
  pc_registration_enabled : bool;
  pc_providers : list (string * string);
}.

Record SsoAdminSettings : Type := {
  as_policy : LoginPolicy;
  as_allowed_email_domains : list string;
  as_deprovision_on_access_loss : bool;
  as_break_glass_local_login : bool;
  as_providers : list (SsoProviderSettings * SsoProviderSource * bool * string);  (* secret set, redirect address *)
  as_shadowed_provider_ids : list string;
}.

(** The row as it is written. *)
Definition policy_name (p : LoginPolicy) : string :=
  match p with LocalOnly => "local_only" | SsoOnly => "sso_only" | LocalAndSso => "local_and_sso" end.

Definition provider_json (p : SsoProviderSettings) : json := JObj
  [("id", JStr (sp_id p)); ("display_name", JStr (sp_display_name p)); ("issuer", JStr (sp_issuer p));
   ("client_id", JStr (sp_client_id p)); ("scopes", json_strs (sp_scopes p)); ("enabled", JBool (sp_enabled p));
   ("jit_provisioning", JBool (sp_jit_provisioning p)); ("link_existing_accounts", JBool (sp_link_existing_accounts p));
   ("require_verified_email", JBool (sp_require_verified_email p));
   ("allowed_email_domains", json_strs (sp_allowed_email_domains p));
   ("disable_local_password_for_linked", JBool (sp_disable_local_password_for_linked p));
   ("sync_roles", JBool (sp_sync_roles p));
   ("default_role", json_opt_str (role_name ∘ sso_role <$> sp_default_role p));
   ("role_mappings", JArr (map role_mapping_json (sp_role_mappings p)));
   ("org_mappings", JArr (map org_mapping_json (sp_org_mappings p)))]%string.

Definition settings_json (s : StoredSsoSettings) : json := JObj
  [("policy", JStr (policy_name (st_policy s))); ("allowed_email_domains", json_strs (st_allowed_email_domains s));
   ("deprovision_on_access_loss", JBool (st_deprovision_on_access_loss s));
   ("providers", JArr (map provider_json (st_providers s)))]%string.

(** *** The domains of a list *)

Fixpoint normalize_each (what : string) (entries domains : list string) : res exn (list string) :=
  match entries with
  | [] => Ok domains
  | entry :: rest =>
      match normalizeEmailDomain entry with
      | None => Throw (validationFailed (what +:+ ": '" +:+ entry +:+ "' is not a domain name") [])
      | Some domain => normalize_each what rest (if bool_decide (domain ∈ domains) then domains else domains ++ [domain])
      end
  end.

Definition normalizeDomains (entries : list string) (what : string) : res exn (list string) :=
  if bool_decide (MAX_ALLOWED_EMAIL_DOMAINS < length entries)%nat
  then Throw (validationFailed "At most 100 email domains are allowed" [])
  else normalize_each what entries [].

Definition lift {A} (r : res exn A) : M A := match r with Ok a => mret a | Throw e => mthrow e end.

(** *** What a save was worked out to be *)

Record SettingsPlan : Type := {
  sv_next : StoredSsoSettings;
  sv_changed : list string;
  sv_secretWrites : list (string * option string);
  sv_added : list string;
  sv_removed : list string;
  sv_reissued : list string;
  sv_rebound : list string;
}.

(** The accumulators of the loop over the providers. *)
Record ProvidersPlan : Type := {
  pv_seen : list string;
  pv_providers : list SsoProviderSettings;
  pv_secretWrites : list (string * option string);
  pv_reissued : list string;
  pv_rebound : list string;
}.

Definition no_providers : ProvidersPlan := {|
  pv_seen := []; pv_providers := []; pv_secretWrites := []; pv_reissued := []; pv_rebound := [];
|}.

Definition issuerHasLinks (id : string) : exn :=
  validationFailed ("Provider '" +:+ id +:+ "' has linked accounts; add another provider for that issuer") [].

Definition secret_moves (id : string) : exn :=
  validationFailed ("Changing provider '" +:+ id +:+ "' issuer or client_id requires client_secret in the same request (null to clear it), because the stored secret belongs to the previous client") [].

Definition settings_changed : exn :=
  conflict "Single sign-on settings changed since they were read; reload and try again" [].

(** [new Map(stored.providers.map((provider) => [provider.id, provider]))]. *)
Definition by_id (providers : list SsoProviderSettings) : list (string * SsoProviderSettings) :=
  map (fun p => (sp_id p, p)) providers.

(** Every organization the rules name is there. *)
Fixpoint organizations_exist (mappings : list SsoOrgMapping) : M unit :=
  match mappings with
  | [] => mret tt
  | mapping :: rest =>
      do known <- organization_known (om_org_id mapping);
      do_ ensure known (notFound "Organization" (Some (om_org_id mapping)));
      organizations_exist rest
  end.

Definition with_domains (domains : list string) (p : SsoProviderSettings) : SsoProviderSettings := {|
  sp_id := sp_id p; sp_display_name := sp_display_name p; sp_issuer := sp_issuer p; sp_client_id := sp_client_id p;
  sp_scopes := sp_scopes p; sp_enabled := sp_enabled p; sp_jit_provisioning := sp_jit_provisioning p;
  sp_link_existing_accounts := sp_link_existing_accounts p; sp_require_verified_email := sp_require_verified_email p;
  sp_allowed_email_domains := domains;
  sp_disable_local_password_for_linked := sp_disable_local_password_for_linked p; sp_sync_roles := sp_sync_roles p;
  sp_default_role := sp_default_role p; sp_role_mappings := sp_role_mappings p; sp_org_mappings := sp_org_mappings p;
|}.

Section Administration.
Context `{AuthDeps} `{SsoDeps} `{TeardownService} (config : NexusConfig).

Definition publicConfig : M SsoPublicConfig :=
  do stored <- readStoredSsoSettings;
  let policy := st_policy stored in
  mret {|
    pc_policy := policy;
    pc_password_login := if negb (bool_decide (policy = SsoOnly)) then "enabled"
                         else if sc_breakGlassLocalLogin (sso config) then "break_glass" else "disabled";
    pc_registration_enabled := negb (bool_decide (policy = SsoOnly));
    pc_providers :=
      if bool_decide (policy = LocalOnly) then []
      else map (fun p => (sp_id p.1, sp_display_name p.1))
             (List.filter (fun p => sp_enabled p.1) (providersInForce (sso config) stored)) |}%string.

Definition getAdminSettings : M SsoAdminSettings :=
  do stored <- readStoredSsoSettings;
  do providers <- resolveSsoProviders (sso config) nexusCrypto stored;
  mret {|
    as_policy := st_policy stored; as_allowed_email_domains := st_allowed_email_domains stored;
    as_deprovision_on_access_loss := st_deprovision_on_access_loss stored;
    as_break_glass_local_login := sc_breakGlassLocalLogin (sso config);
    as_providers := map (fun p => (rp_settings p, rp_source p, bool_decide (is_Some (rp_clientSecret p)),
                                   redirectUri (sp_id (rp_settings p)))) providers;
    as_shadowed_provider_ids := shadowedProviderIds (sso config) stored |}.

(** One round of the loop over the providers of a save. *)
Definition plan_provider (previous : list (string * SsoProviderSettings)) (plan : ProvidersPlan)
    (settings : SsoProviderSettings) (secret : option (option string)) : M ProvidersPlan :=
  let id := sp_id settings in
  do_ ensure (negb (bool_decide (id ∈ pv_seen plan)))
        (validationFailed ("Provider '" +:+ id +:+ "' is listed more than once") []);
  do_ ensure (negb (bool_decide (id ∈ env_ids (sso config))))
        (validationFailed ("Provider '" +:+ id +:+ "' comes from NEXUS_OIDC_PROVIDERS and is read-only here") []);
  do_ match issuerProblem (sp_issuer settings) allowHttpLoopback with
      | Some problem => mthrow (validationFailed ("Provider '" +:+ id +:+ "' issuer " +:+ problem) [])
      | None => mret tt
      end;
  let before := map_of previous id in
  let reissues := match before with Some b => negb (bool_decide (sp_issuer b = sp_issuer settings)) | None => false end in
  do_ (if reissues then do n <- link_countByProvider id; ensure (negb (bool_decide (0 < n))) (issuerHasLinks id)
       else mret tt);
  let movesClient := match before with
                     | Some b => (negb (bool_decide (sp_issuer b = sp_issuer settings))
                                  || negb (bool_decide (sp_client_id b = sp_client_id settings)))
                                 && bool_decide (secret = None)
                     | None => false
                     end in
  do_ (if movesClient then do row <- setting_get (ssoClientSecretKey id); ensure (bool_decide (row = None)) (secret_moves id)
       else mret tt);
  do_ organizations_exist (sp_org_mappings settings);
  do domains <- lift (normalizeDomains (sp_allowed_email_domains settings)
                        ("Provider '" +:+ id +:+ "' allowed email domains"));
  mret {|
    pv_seen := pv_seen plan ++ [id];
    pv_providers := pv_providers plan ++ [with_domains domains settings];
    pv_secretWrites := pv_secretWrites plan ++ match secret with Some s => [(id, s)] | None => [] end;
    pv_reissued := pv_reissued plan ++ (if reissues then [id] else []);
    pv_rebound := pv_rebound plan ++ (if movesClient then [id] else []) |}.

Fixpoint plan_providers (previous : list (string * SsoProviderSettings)) (plan : ProvidersPlan)
    (providers : list (SsoProviderSettings * option (option string))) : M ProvidersPlan :=
  match providers with
  | [] => mret plan
  | (settings, secret) :: rest =>
      do plan <- plan_provider previous plan settings secret;
      plan_providers previous plan rest
  end.

(** A policy without passwords needs another way in, for the one who saves it too. *)
Definition check_sso_only (actorId : string) (next : StoredSsoSettings) : M unit :=
  let enabled := map (fun p => (sp_id p.1, sp_issuer p.1))
                   (List.filter (fun p => sp_enabled p.1) (providersInForce (sso config) next)) in
  do_ ensure (negb (bool_decide (enabled = [])))
        (validationFailed "The sso_only policy needs at least one enabled provider" []);
  do own <- links_of actorId;
  ensure (existsb (fun link => bool_decide (map_of enabled (ui_provider_id link) = Some (ui_issuer link))) own)
    (validationFailed "Link your own account to an enabled provider (Profile → Linked sign-in) before switching to sso_only" []).

(** The three fields of the row that are not the providers. *)
Definition plan_scalars (stored : StoredSsoSettings) (patch : UpdateSsoSettingsRequest)
    : M (StoredSsoSettings * list string) :=
  let policy := default (st_policy stored) (us_policy patch) in
  do domains <- match us_allowed_email_domains patch with
                | Some entries => lift (normalizeDomains entries "Allowed email domains")
                | None => mret (st_allowed_email_domains stored)
                end;
  let access := default (st_deprovision_on_access_loss stored) (us_deprovision_on_access_loss patch) in
  mret ({| st_policy := policy; st_allowed_email_domains := domains; st_deprovision_on_access_loss := access;
           st_providers := st_providers stored |},
        (if bool_decide (policy = st_policy stored) then [] else ["policy"%string])
        ++ (if bool_decide (domains = st_allowed_email_domains stored) then [] else ["allowed_email_domains"%string])
        ++ (if bool_decide (access = st_deprovision_on_access_loss stored) then []
            else ["deprovision_on_access_loss"%string])).

Definition with_providers (providers : list SsoProviderSettings) (s : StoredSsoSettings) : StoredSsoSettings := {|
  st_policy := st_policy s; st_allowed_email_domains := st_allowed_email_domains s;
  st_deprovision_on_access_loss := st_deprovision_on_access_loss s; st_providers := providers;
|}.

Definition plan_settings (actorId : string) (stored : StoredSsoSettings) (patch : UpdateSsoSettingsRequest)
    : M SettingsPlan :=
  do scalars <- plan_scalars stored patch;
  do planned <-
    match us_providers patch with
    | None => mret {| sv_next := scalars.1; sv_changed := scalars.2; sv_secretWrites := []; sv_added := [];
                      sv_removed := []; sv_reissued := []; sv_rebound := [] |}
    | Some providers =>
        do_ ensure (negb (bool_decide (MAX_SSO_PROVIDERS < length (js_set [] (env_ids (sso config))) + length providers)%nat))
              (validationFailed "At most 10 providers can be configured" []);
        do plan <- plan_providers (by_id (st_providers stored)) no_providers providers;
        let old := js_set [] (map sp_id (st_providers stored)) in
        let removed := List.filter (fun id => negb (bool_decide (id ∈ pv_seen plan))) old in
        mret {|
          sv_next := with_providers (pv_providers plan) scalars.1;
          sv_changed := scalars.2 ++ (if bool_decide (pv_providers plan = st_providers stored) then []
                                      else ["providers"%string]);
          sv_secretWrites := pv_secretWrites plan ++ map (fun id => (id, None)) removed;
          sv_added := List.filter (fun id => negb (bool_decide (id ∈ old))) (pv_seen plan);
          sv_removed := removed; sv_reissued := pv_reissued plan; sv_rebound := pv_rebound plan |}
    end;
  do_ (if bool_decide (st_policy (sv_next planned) = SsoOnly)
          && (bool_decide (is_Some (us_policy patch)) || bool_decide (is_Some (us_providers patch)))
       then check_sso_only actorId (sv_next planned) else mret tt);
  mret planned.

(** *** The save *)

(** The envelopes, sealed before the body. *)
Fixpoint encrypt_secrets (writes : list (string * option string)) : M (list (string * option string)) :=
  match writes with
  | [] => mret []
  | (id, secret) :: rest =>
      do blob <- match secret with
                 | Some s => do iv <- fresh_nonce; mret (Some (encryptJson nexusCrypto (ssoClientSecretKey id) (JStr s) iv))
                 | None => mret None
                 end;
      do others <- encrypt_secrets rest;
      mret ((id, blob) :: others)
  end.

Fixpoint for_each {A} (items : list A) (body : A -> M unit) : M unit :=
  match items with
  | [] => mret tt
  | item :: rest => do_ body item; for_each rest body
  end.

(** Of each item, what its call answered. *)
Fixpoint map_each {A B} (items : list A) (body : A -> M B) : M (list B) :=
  match items with
  | [] => mret []
  | item :: rest => do b <- body item; do others <- map_each rest body; mret (b :: others)
  end.

(** The providers the save cuts off: removed, or disabled in place. *)
Definition cut_off (stored : StoredSsoSettings) (plan : SettingsPlan) : list string :=
  let next := map (fun p => (sp_id p.1, sp_enabled p.1)) (providersInForce (sso config) (sv_next plan)) in
  js_set []
    (List.filter (fun id => negb (bool_decide (id ∈ env_ids (sso config)))) (sv_removed plan)
     ++ map (fun p => sp_id p.1)
          (List.filter (fun p => sp_enabled p.1 && bool_decide (map_of next (sp_id p.1) = Some false))
             (providersInForce (sso config) stored))).

Definition trust_lowered (stored : StoredSsoSettings) (plan : SettingsPlan) : list string :=
  let next := map (fun p => (sp_id p.1, p.1)) (providersInForce (sso config) (sv_next plan)) in
  sort_by string_leb
    (map (fun p => sp_id p.1)
       (List.filter (fun p => match map_of next (sp_id p.1) with
                              | Some updated => bool_decide (sp_issuer updated = sp_issuer p.1) && grantsAdmin p.1
                                                && negb (grantsAdmin updated)
                              | None => false
                              end) (providersInForce (sso config) stored))).

Definition sum_z (l : list Z) : Z := foldr Z.add 0 l.

Definition save_details (plan : SettingsPlan) (linksRemoved : list (string * Z)) (cutOff : list string)
    (sessionsRevoked : Z) (lowered : list string) : list (string * json) :=
  [("section", JStr "sso"); ("changed_keys", json_strs (sv_changed plan)); ("providers_added", json_strs (sv_added plan));
   ("providers_removed", json_strs (sv_removed plan));
   ("links_removed", JObj (map (fun e => (e.1, JNum e.2)) linksRemoved))]%string
  ++ match cutOff with
     | [] => []
     | _ => [("providers_cut_off", json_strs (sort_by string_leb cutOff)); ("sessions_revoked", JNum sessionsRevoked)]%string
     end
  ++ [("client_secrets_changed"%string, json_strs (map fst (sv_secretWrites plan)))]
  ++ match lowered with [] => [] | _ => [("providers_trust_lowered"%string, json_strs lowered)] end.

(** The settings that were read are still the stored ones, no provider that moves
    to another issuer has links, and none that moves without a secret has one. *)
Definition check_unmoved (stored : StoredSsoSettings) (plan : SettingsPlan) : M unit :=
  do current <- readStoredSsoSettings;
  do_ ensure (bool_decide (current = stored)) settings_changed;
  do_ for_each (sv_reissued plan) (fun id =>
        do n <- link_countByProvider id; ensure (negb (bool_decide (0 < n))) (issuerHasLinks id));
  for_each (sv_rebound plan) (fun id =>
        do row <- setting_get (ssoClientSecretKey id); ensure (bool_decide (row = None)) (secret_moves id)).

Definition write_settings (plan : SettingsPlan) (encrypted : list (string * option string)) : M unit :=
  do_ for_each encrypted (fun e => do_ setting_delete (ssoClientSecretKey e.1); mret tt);
  do_ setting_set SSO_SETTINGS_KEY (settings_json (sv_next plan));
  for_each encrypted (fun e => match e.2 with
                               | Some blob => setting_set_encrypted (ssoClientSecretKey e.1) blob
                               | None => mret tt
                               end).

Definition save_commit (actor : AuditActor) (stored : StoredSsoSettings) (plan : SettingsPlan)
    (encrypted : list (string * option string)) (ip : option string) : M unit :=
  do_ check_unmoved stored plan;
  do_ write_settings plan encrypted;
  let cutOff := cut_off stored plan in
  do users <- map_each cutOff link_listUserIdsByProvider;
  let cutOffUsers := js_set [] (concat users) in
  let unlinked := List.filter (fun id => negb (bool_decide (id ∈ env_ids (sso config)))) (sv_removed plan) in
  do linksRemoved <- map_each unlinked link_deleteByProvider;
  do ended <- map_each cutOffUsers session_deleteForUser;
  do_ audit_record actor "admin.settings_update" {| target_type := "settings"; target_id := Some SSO_SETTINGS_KEY |}
        (save_details plan (combine unlinked linksRemoved) cutOff (sum_z ended) (trust_lowered stored plan)) ip;
  mret tt.

Definition save_settings (actor : AuditActor) (stored : StoredSsoSettings) (plan : SettingsPlan) (ip : option string)
    : M unit :=
  do encrypted <- encrypt_secrets (sv_secretWrites plan);
  let affected := map (fun p => sp_id p.1) (providersInForce (sso config) stored) ++ map sp_id (st_providers (sv_next plan)) in
  locks SSO_SETTINGS_LOCK_KEY
    (underProviderLocks affected
      (locks REGISTRATION_POLICY_LOCK_KEY
        (transaction (save_commit actor stored plan encrypted ip)))).

(** The cache of the OpenID Connect client is its own. *)
Definition updateAdminSettings (actorId : string) (actorRole : option Role) (patch : UpdateSsoSettingsRequest)
    (ip : option string) : M SsoAdminSettings :=
  do_ ensure (match actorRole with Some role => role_at_least role super_admin | None => false end)
        (forbidden "Only a super admin can change single sign-on settings");
  do stored <- readStoredSsoSettings;
  do plan <- plan_settings actorId stored patch;
  match sv_changed plan, sv_secretWrites plan with
  | [], [] => getAdminSettings
  | _, _ =>
      do_ save_settings {| actor_id := Some actorId; actor_role := actorRole |} stored plan ip;
      getAdminSettings
  end.

(** *** The links of an account *)

Definition listIdentities (userId : string) : M (list UserIdentityRecord) :=
  do user <- users_find userId;
  do_ ensure (bool_decide (is_Some user)) (notFound "User" (Some userId));
  links_of userId.

Definition unlink_commit (actor : UserRecord) (userId identityId : string) (ip : option string) : M unit :=
  do identity <- link_find identityId;
  match identity with
  | None => mthrow (notFound "Identity" (Some identityId))
  | Some identity =>
      do_ ensure (bool_decide (ui_user_id identity = userId)) (notFound "Identity" (Some identityId));
      do deleted <- link_delete (ui_id identity);
      do_ ensure deleted (notFound "Identity" (Some identityId));
      do terminatedSessions <- session_deleteForUser userId;
      do_ audit_record (user_actor (u_id actor) (u_role actor)) "auth.sso_unlink" (on_user userId)
            [("identity_id", JStr (ui_id identity)); ("provider_id", JStr (ui_provider_id identity));
             ("subject", JStr (ui_subject identity)); ("terminated_sessions", JNum terminatedSessions)]%string ip;
      mret tt
  end.

Definition unlinkIdentity (actor : UserRecord) (userId identityId : string) (ip : option string) : M unit :=
  do target <- users_find userId;
  match target with
  | None => mthrow (notFound "User" (Some userId))
  | Some target =>
      do_ ensure (negb (role_at_least (u_role target) admin && negb (role_at_least (u_role actor) super_admin)))
            (forbidden "Only a super admin can unlink an administrator's identity");
      transaction (unlink_commit actor userId identityId ip)
  end.
End Administration.
