(* ===== verification/AccountLogic.v ===== *)
(** * Reasoning about the accounts

    What a call inside a transaction did, read off its answer; and [stays]: a
    program that leaves a predicate of the account tables true, under every
    schedule whose other writers do. *)

From S2P Require Import Prelude Json Roles Leases Users JobQueues AuditLog AccessTables AccountTables World AccessStore AccountStore LeaseFence KeyedSerializer.
Open Scope Z_scope.

(** ** Answers inside a transaction

    Each lemma takes a call that answered apart: what it answered, the database
    after it, and that the transaction is still open. *)

Lemma read_tx {A} (f : db -> A) w a w' :
  w_tx w = true -> read f w = (Ok a, w') -> a = f (w_db w) /\ w_db w' = w_db w /\ w_tx w' = true.
Proof. intros Ht H. apply statement_ok_tx in H as [Hf Ht']; [|done]. injection Hf as Ha Hd. by rewrite <- Ha. Qed.

Lemma statement_tx {A} (f : turn -> db -> res exn (A * db)) w a w' :
  w_tx w = true -> statement f w = (Ok a, w') -> f (cur w) (w_db w) = Ok (a, w_db w') /\ w_tx w' = true.
Proof.
  unfold statement. intros Ht H. rewrite Ht in H. destruct (t_fault (cur w)); [done|].
  destruct (f (cur w) (w_db w)) as [[a' d']|e] eqn:Hf; [|done]. by injection H as <- <-.
Qed.

Lemma ensure_ok b e w u w' : ensure b e w = (Ok u, w') -> b = true /\ w' = w.
Proof. unfold ensure. destruct b; [|done]. by intros [= _ <-]. Qed.

Lemma mret_ok {A} (x : A) w a w' : mret x w = (Ok a, w') -> a = x /\ w' = w.
Proof. by intros [= <- <-]. Qed.

Lemma date_now_ok w a w' : date_now w = (Ok a, w') -> a = t_now (cur w) /\ w' = w.
Proof. by intros [= <- <-]. Qed.

Lemma randomUUID_ok w a w' :
  randomUUID w = (Ok a, w') -> w_db w' = w_db w /\ w_tx w' = w_tx w.
Proof. by intros [= _ <-]. Qed.

Lemma audit_record_tx actor action target details ip w a w' :
  w_tx w = true -> audit_record actor action target details ip w = (Ok a, w') ->
  w_db w' = with_audit (d_audit (w_db w')) (w_db w) /\ w_tx w' = true.
Proof.
  intros Ht H. apply statement_tx in H as [H Ht']; [|done].
  destruct (auditLogs_create _ _) as [[row rows]|e]; [|done]. injection H as _ Hd. by rewrite <- Hd.
Qed.

(** Take the first call of an answer apart. *)
Ltac tx_bind H x w1 H1 := apply mbind_ok in H as (x & w1 & H1 & H).

Tactic Notation "tx_ensure" hyp(H) "as" simple_intropattern(Hb) :=
  let u := fresh "u" in let w1 := fresh "w" in let H1 := fresh "H1" in
  tx_bind H u w1 H1; apply ensure_ok in H1 as [Hb ->]; clear u.

Tactic Notation "tx_now" hyp(H) "as" ident(now) :=
  let w1 := fresh "w" in let H1 := fresh "H1" in
  tx_bind H now w1 H1; apply date_now_ok in H1 as [_ ->].

(** The answer of [read f] is [f] of the database, which stays. *)
Tactic Notation "tx_read" hyp(H) "as" ident(x) ident(w1) simple_intropattern(Hx) ident(Hd) ident(Ht) :=
  let H1 := fresh "H1" in
  tx_bind H x w1 H1; apply read_tx in H1 as (Hx & Hd & Ht); [|done].

(** ** Sections: where the body ran *)

Lemma frame_inv {A} (m : M A) w r w' : frame m -> m w = (r, w') -> keeps w w'.
Proof. intros Hf H. specialize (Hf w). by rewrite H in Hf. Qed.

(** [within m w fn b w1 w2]: the run of [m] from [w] ran [fn] from [w1], on the
    same schedule, where it answered [b]. *)
Definition within {B} (w : world) (fn : M B) (b : B) (w1 w2 : world) : Prop :=
  fn w1 = (Ok b, w2) /\ w_env w1 = w_env w /\ w_tx w1 = w_tx w /\ (w_turn w <= w_turn w1)%nat.

Lemma within_later {B} (fn : M B) w0 w b w1 w2 :
  keeps w0 w -> within w fn b w1 w2 -> within w0 fn b w1 w2.
Proof. intros (He & Ht & _ & Hn & _) (H & He' & Ht' & Hn'). split_and!; [done|congruence..|lia]. Qed.

Lemma underLease_ok {A} o fuel key (fn : M A) w a w' :
  underLease o fuel key fn w = (Ok (Some a), w') -> exists w1 w2, within w fn a w1 w2.
Proof.
  unfold underLease. intros H.
  tx_bind H token w1 H1. apply (frame_inv _ _ _ _ frame_randomUUID) in H1.
  tx_bind H got w2 H2. apply (frame_inv _ _ _ _ (frame_takeLease _ _ _ _)) in H2.
  destruct got; [|done]. apply mfinally_ok in H as [w3 H]. tx_bind H b w4 H4. injection H as -> _.
  unfold holdingLease, in_context in H4. destruct (fn _) as [r w5] eqn:Hfn. injection H4 as -> _.
  eexists _, w5. eapply within_later; [exact (transitivity H1 H2)|].
  split_and!; [exact Hfn|done..].
Qed.

Lemma locks_ok {A} key (fn : M A) w a w' : locks key fn w = (Ok a, w') -> exists w1 w2, within w fn a w1 w2.
Proof.
  unfold locks. intros H. tx_bind H r w1 H1. destruct r as [b|]; [|done]. injection H as -> _.
  by apply underLease_ok in H1.
Qed.

Lemma within_trans {B C} (m : M B) (fn : M C) w b c w1 w2 w3 w4 :
  within w m b w1 w2 -> within w1 fn c w3 w4 -> within w fn c w3 w4.
Proof. intros (_ & He & Ht & Hn) (H & He' & Ht' & Hn'). split_and!; [done|congruence..|lia]. Qed.

(** What a transaction that answered did: its body took the database the write
    lock found to the one that was committed. *)
Definition committed {A} (fn : M A) (w : world) (a : A) (d d' : db) : Prop :=
  exists w1 w2, fn w1 = (Ok a, w2) /\ w_tx w1 = true /\ w_env w1 = w_env w
    /\ w_db w1 = d /\ w_db w2 = d' /\ d = t_rivals (cur w) (w_db w).

Lemma transaction_committed {A} (fn : M A) w a w' :
  frame fn -> w_tx w = false -> transaction fn w = (Ok a, w') ->
  committed fn w a (t_rivals (cur w) (w_db w)) (w_db w').
Proof.
  intros Hf Ht H. destruct (transaction_ok_inv fn w a w' Hf Ht H) as (w1 & w2 & H1 & Ht1 & He & Hd & Hd').
  exists w1, w2. by split_and!.
Qed.

(** ** Predicates of the account tables *)

Definition account_pred : Type := user_table -> account_tables -> Prop.

Definition on_accounts (P : account_pred) (d : db) : Prop := P (d_users d) (d_accounts d).

(** The other writers keep [P]. *)
Definition account_rivals (env : nat -> turn) (P : account_pred) : Prop :=
  forall n d, on_accounts P d -> on_accounts P (t_rivals (env n) d).

(** [m] is framed, and keeps [P]: outside a transaction whatever it answers, in
    one as long as it answers. *)
Definition stays (env : nat -> turn) (tx : bool) (P : account_pred) {A} (m : M A) : Prop :=
  frame m /\ forall w, w_env w = env -> w_tx w = tx -> on_accounts P (w_db w) ->
    tx = false \/ is_ok (m w).1 = true -> on_accounts P (w_db (m w).2).

(** [a] is an answer of [m]. *)
Definition can_answer {A} (m : M A) (a : A) : Prop := exists w w', m w = (Ok a, w').

(** A statement that is not about the accounts. *)
Definition elsewhere {A} (f : turn -> db -> res exn (A * db)) : Prop := forall t d a d',
  f t d = Ok (a, d') -> d_users d' = d_users d /\ d_accounts d' = d_accounts d.

Section Stays.
Context (env : nat -> turn) (P : account_pred).

Lemma stays_frame {A} tx (m : M A) : stays env tx P m -> frame m.
Proof. by intros [? _]. Qed.

Lemma stays_ret {A} tx (a : A) : stays env tx P (mret a).
Proof. split; [auto with nexus|]. by intros w. Qed.

Lemma stays_throw {A} tx (e : exn) : stays env tx P (@mthrow A e).
Proof. split; [auto with nexus|]. by intros w. Qed.

Lemma stays_bind {A B} tx (m : M A) (k : A -> M B) :
  stays env tx P m -> (forall a, can_answer m a -> stays env tx P (k a)) -> stays env tx P (mbind m k).
Proof.
  intros [Hf Hm] Hk. split.
  - intros w. unfold mbind. specialize (Hf w). destruct (m w) as [[a|e] w1] eqn:Ha; simpl in *; [|done].
    etrans; [exact Hf|]. apply Hk. by exists w, w1.
  - intros w He Ht HP Hok. specialize (Hm w He Ht HP). pose proof (Hf w) as (He' & Ht' & _). unfold mbind in *.
    destruct (m w) as [[a|e] w1] eqn:Ha; simpl in *; [|by apply Hm].
    destruct (Hk a) as [_ Hk']; [by exists w, w1|]. apply Hk'; [congruence..| |done]. apply Hm. by right.
Qed.

Lemma stays_seq {A B} tx (m : M A) (k : A -> M B) :
  stays env tx P m -> (forall a, stays env tx P (k a)) -> stays env tx P (mbind m k).
Proof. intros Hm Hk. apply stays_bind; auto. Qed.

Lemma stays_catch {A} (m : M A) (h : exn -> M A) :
  stays env false P m -> (forall e, stays env false P (h e)) -> stays env false P (mcatch m h).
Proof.
  intros [Hf Hm] Hh. split; [apply frame_catch; [done|intros e; apply Hh]|].
  intros w He Ht HP _. specialize (Hm w He Ht HP (or_introl eq_refl)). pose proof (Hf w) as (He' & Ht' & _).
  unfold mcatch. destruct (m w) as [[a|e] w1]; simpl in *; [done|]. apply Hh; [congruence..|done|by left].
Qed.

Lemma stays_attempt {A} (m : M A) : stays env false P m -> stays env false P (mattempt m).
Proof.
  intros [Hf Hm]. split; [by apply frame_attempt|]. intros w He Ht HP _.
  specialize (Hm w He Ht HP (or_introl eq_refl)). unfold mattempt. by destruct (m w).
Qed.

Lemma stays_finally {A} tx (m : M A) (f : M unit) :
  stays env tx P m -> stays env tx P f -> stays env tx P (mfinally m f).
Proof.
  intros [Hf Hm] [Hf' Hm']. split; [by apply frame_finally|]. intros w He Ht HP Hok.
  specialize (Hm w He Ht HP). pose proof (Hf w) as (He1 & Ht1 & _). unfold mfinally in *.
  destruct (m w) as [r w1]; simpl in *. specialize (Hm' w1).
  destruct (f w1) as [[[]|e] w2]; simpl in *; (apply Hm'; [congruence..| |destruct Hok; auto]); apply Hm;
    destruct Hok; auto; done.
Qed.

Lemma stays_statement {A} tx (HR : tx = false -> account_rivals env P) (f : turn -> db -> res exn (A * db)) :
  (forall t d a d', on_accounts P d -> f t d = Ok (a, d') -> on_accounts P d') ->
  stays env tx P (statement f).
Proof.
  intros Hs. split; [auto with nexus|]. intros w He Ht HP _. unfold statement, cur. rewrite He.
  set (d := if w_tx w then w_db w else t_rivals (env (w_turn w)) (w_db w)).
  assert (Hd : on_accounts P d) by (subst d; destruct (w_tx w) eqn:Hw; [done|by apply HR; first [done|congruence]]).
  destruct (t_fault (env (w_turn w))); [done|]. destruct (f _ d) as [[a d']|e] eqn:Hfd; [by eapply Hs|done].
Qed.

Lemma stays_statement_ok {A} tx (HR : tx = false -> account_rivals env P) (f : turn -> db -> A * db) :
  (forall t d, on_accounts P d -> on_accounts P (f t d).2) -> stays env tx P (statement_ok f).
Proof. intros Hs. apply stays_statement; [done|]. intros t d a d' HP [= Heq]. specialize (Hs t d HP). by rewrite Heq in Hs. Qed.

Lemma stays_elsewhere {A} tx (HR : tx = false -> account_rivals env P) (f : turn -> db -> res exn (A * db)) : elsewhere f -> stays env tx P (statement f).
Proof.
  intros Hf. apply stays_statement; [done|]. unfold on_accounts. intros t d a d' HP H.
  by destruct (Hf t d a d' H) as [-> ->].
Qed.

Lemma stays_read {A} tx (HR : tx = false -> account_rivals env P) (f : db -> A) : stays env tx P (read f).
Proof. by apply stays_statement_ok. Qed.

Lemma stays_date_now tx : stays env tx P date_now.
Proof. split; [auto with nexus|]. by intros w. Qed.
Lemma stays_math_random tx : stays env tx P math_random.
Proof. split; [auto with nexus|]. by intros w. Qed.
Lemma stays_randomUUID tx : stays env tx P randomUUID.
Proof. split; [auto with nexus|]. by intros w. Qed.
Lemma stays_bump tx field n : stays env tx P (bump field n).
Proof. split; [auto with nexus|]. by intros w. Qed.

Lemma stays_sleep tx (HR : tx = false -> account_rivals env P) ms : stays env tx P (sleep ms).
Proof.
  split; [auto with nexus|]. intros w He Ht HP _. unfold sleep, await_turn, cur. simpl. rewrite He.
  destruct (w_tx w) eqn:Hw; [done|]. apply HR; [congruence|done].
Qed.

Lemma stays_transaction {A} (HR : account_rivals env P) (fn : M A) : stays env true P fn -> stays env false P (transaction fn).
Proof.
  intros [Hf Hm]. split; [by apply frame_transaction|]. intros w He Ht HP _.
  assert (HP' : on_accounts P (t_rivals (cur w) (w_db w))) by (unfold cur; rewrite He; by apply HR).
  destruct (transaction fn w) as [[a|e] w'] eqn:H; simpl.
  - destruct (transaction_ok_inv fn w a w' Hf Ht H) as (w1 & w2 & H1 & Ht1 & He1 & Hd & ->).
    specialize (Hm w1). rewrite H1 in Hm. apply Hm; [congruence..|by rewrite Hd|by right].
  - by rewrite (transaction_throw_rollback fn w e w' Ht H).
Qed.

(** *** Sections *)

Lemma stays_takeLease tx (HR : tx = false -> account_rivals env P) o fuel key token : stays env tx P (takeLease o fuel key token).
Proof.
  unfold takeLease. apply stays_seq; [apply stays_date_now|]. intros now. generalize (now + waitMs o). intros deadline.
  induction fuel as [|fuel IH]; simpl; [apply stays_ret|].
  apply stays_seq; [apply stays_date_now|]. intros now'. apply stays_seq.
  { apply stays_elsewhere; [done|]. intros t d a d'. destruct (assertLeaseKeyLength key); [|done].
    destruct (lease_acquire _ _ _ _ _ _). by intros [= _ <-]. }
  intros []; [apply stays_ret|]. apply stays_seq; [apply stays_date_now|]. intros later.
  case_bool_decide; [apply stays_throw|]. apply stays_seq; [apply stays_math_random|]. intros r.
  by apply stays_seq; [apply stays_sleep|].
Qed.

Lemma stays_in_context {A} tx stack (fn : M A) : stays env tx P fn -> stays env tx P (in_context stack fn).
Proof.
  intros [Hf Hm]. split; [by apply frame_in_context|]. intros w He Ht HP Hok. unfold in_context in *.
  specialize (Hm (set_held stack w) He Ht HP). by destruct (fn (set_held stack w)); auto.
Qed.

Lemma stays_underLease {A} (HR : account_rivals env P) o fuel key (fn : M A) : stays env false P fn -> stays env false P (underLease o fuel key fn).
Proof.
  intros Hf. unfold underLease. apply stays_seq; [apply stays_randomUUID|]. intros token.
  apply stays_seq; [by apply stays_takeLease|]. intros []; [|apply stays_ret]. apply stays_finally.
  - apply stays_seq; [|intros a; apply stays_ret]. destruct (stays_in_context false
      [{| hl_key := key; hl_token := token; hl_live := true |}] fn Hf) as [_ _].
    split; [apply frame_holdingLease; by eapply stays_frame|]. intros w. by apply stays_in_context.
  - apply stays_catch; [|intros e; apply stays_ret]. apply stays_seq; [|intros b; apply stays_ret].
    apply stays_elsewhere; [done|]. intros t d a d'. destruct (lease_release _ _ _). by intros [= _ <-].
Qed.

Lemma stays_locks {A} (HR : account_rivals env P) key (fn : M A) : stays env false P fn -> stays env false P (locks key fn).
Proof.
  intros Hf. unfold locks. apply stays_seq; [by apply stays_underLease|]. intros [a|]; [apply stays_ret|apply stays_throw].
Qed.

Lemma stays_audit_record tx (HR : tx = false -> account_rivals env P) actor action target details ip : stays env tx P (audit_record actor action target details ip).
Proof.
  apply stays_elsewhere; [done|]. intros t d a d'. destruct (auditLogs_create _ _) as [[row rows]|e]; [|done]. by intros [= _ <-].
Qed.
End Stays.

(** ** From one predicate to another, inside a transaction *)

Definition tells (env : nat -> turn) (P : db -> Prop) {A} (m : M A) (Q : A -> db -> Prop) : Prop :=
  frame m /\ forall w a w', w_env w = env -> w_tx w = true -> P (w_db w) -> m w = (Ok a, w') -> Q a (w_db w').

Section Tells.
Context (env : nat -> turn).

Lemma tells_bind {A B} P R (Q : B -> db -> Prop) (m : M A) (k : A -> M B) :
  tells env P m R -> (forall a, tells env (R a) (k a) Q) -> tells env P (mbind m k) Q.
Proof.
  intros [Hf Hm] Hk. split; [apply frame_bind; [done|intros a; apply Hk]|].
  intros w b w' He Ht HP H. tx_bind H a w1 H1. destruct (frame_inv _ _ _ _ Hf H1) as (He1 & Ht1 & _).
  destruct (Hk a) as [_ Hka]. apply (Hka w1); [congruence..| |exact H]. by apply (Hm w).
Qed.

Lemma tells_stays {A} P (m : M A) : stays env true P m -> tells env (on_accounts P) m (fun _ => on_accounts P).
Proof. intros [Hf Hm]. split; [done|]. intros w a w' He Ht HP H. specialize (Hm w He Ht HP). rewrite H in Hm. by apply Hm; right. Qed.

(** And back: what a body leaves is what its transaction leaves. *)
Lemma stays_tells {A} P (m : M A) : tells env (on_accounts P) m (fun _ => on_accounts P) -> stays env true P m.
Proof.
  intros [Hf Hm]. split; [done|]. intros w He Ht HP [?|Hok]; [done|]. destruct (m w) as [[a|e] w'] eqn:H; [|done].
  by apply (Hm w a).
Qed.

Lemma tells_weaken {A} P P' (Q Q' : A -> db -> Prop) (m : M A) :
  tells env P m Q -> (forall d, P' d -> P d) -> (forall a d, Q a d -> Q' a d) -> tells env P' m Q'.
Proof. intros [Hf Hm] HP HQ. split; [done|]. intros w a w' He Ht Hw H. apply HQ. eapply Hm; eauto. Qed.

Lemma tells_ret {A} P (Q : A -> db -> Prop) a : (forall d, P d -> Q a d) -> tells env P (mret a) Q.
Proof. intros HQ. split; [auto with nexus|]. intros w b w' _ _ HP [= <- <-]. by apply HQ. Qed.

Lemma tells_throw {A} P (Q : A -> db -> Prop) e : tells env P (mthrow e) Q.
Proof. split; [auto with nexus|]. by intros w b w' _ _ HP [=]. Qed.

Lemma tells_statement {A} P (Q : A -> db -> Prop) (f : turn -> db -> res exn (A * db)) :
  (forall n d a d', P d -> f (env n) d = Ok (a, d') -> Q a d') -> tells env P (statement f) Q.
Proof.
  intros Hf. split; [auto with nexus|]. intros w a w' He Ht HP H. apply statement_tx in H as [H _]; [|done].
  unfold cur in H. rewrite He in H. by eapply Hf.
Qed.

Lemma tells_read {A} P (f : db -> A) : tells env P (read f) (fun a d => P d /\ a = f d).
Proof. apply tells_statement. by intros n d a d' HP [= <- <-]. Qed.

Lemma tells_ensure P b e : tells env P (ensure b e) (fun _ d => P d /\ b = true).
Proof. unfold ensure. destruct b; [apply tells_ret|apply tells_throw]; done. Qed.

(** A call that keeps [P], and whose answer does not matter. *)
Lemma tells_skip {A B} P (Q : B -> db -> Prop) (m : M A) (k : A -> M B) :
  tells env P m (fun _ => P) -> (forall a, tells env P (k a) Q) -> tells env P (mbind m k) Q.
Proof. apply tells_bind. Qed.
End Tells.

(** ** The statements of the account tables

    [AccountInvariant P]: every write keeps [P], but for those that seat, promote,
    disable or sign in an account, which depend on more than the row. *)

Definition known (u : user_table) (id : string) : bool := bool_decide (is_Some (u !! id)).
Definition known_organization (a : account_tables) (id : string) : bool :=
  bool_decide (is_Some (ac_organizations a !! id)).

(** The patch leaves the status of the row, and whether it is a super admin. *)
Definition same_standing (patch : UserPatch) (x : UserRecord) : Prop :=
  (default (u_role x) (up_role patch) = super_admin <-> u_role x = super_admin)
  /\ default (u_status x) (up_status patch) = u_status x.

Class AccountInvariant (P : account_pred) : Prop := {
  ai_sessions u a t : P u a -> t ⊆ ac_sessions a -> P u (with_sessions t a);
  ai_touch u a id s e now : P u a -> ac_sessions a !! id = Some s ->
    P u (with_sessions (<[id := set_session_expiry e now s]> (ac_sessions a)) a);
  ai_tokens u a t : P u a -> t ⊆ ac_tokens a -> P u (with_tokens t a);
  ai_used u a id r at_ now : P u a -> ac_tokens a !! id = Some r ->
    P u (with_tokens (<[id := set_token_used at_ now r]> (ac_tokens a)) a);
  ai_token_create u a row r t : P u a -> tokens_create (known u) row (ac_tokens a) = Ok (r, t) -> P u (with_tokens t a);
  ai_claim u a id purpose at_ : P u a -> is_Some (u !! id) ->
    P u (with_claims (<[(id, purpose) := at_]> (ac_claims a)) a);
  ai_reclaim u a key at_ at_' : P u a -> ac_claims a !! key = Some at_ ->
    P u (with_claims (<[key := at_']> (ac_claims a)) a);
  ai_proof u a id email method at_ t : P u a -> proofs_upsert (known u) id email method at_ (ac_proofs a) = Ok t ->
    P u (with_proofs t a);
  ai_preferences u a id p at_ r t : P u a -> preferences_upsert (known u) id p at_ (ac_preferences a) = Ok (r, t) ->
    P u (with_preferences t a);
  ai_organization_create u a row r t : P u a -> organizations_create row (ac_organizations a) = Ok (r, t) ->
    P u (with_organizations t a);
  ai_organization_update u a id name description at_ r t : P u a ->
    organizations_update id name description at_ (ac_organizations a) = Ok (r, t) -> P u (with_organizations t a);
  ai_link_create u a row r t : P u a -> links_create (known u) row (ac_links a) = Ok (r, t) -> P u (with_links t a);
  ai_link_touch u a id email at_ now : P u a -> P u (with_links (links_touchLogin id email at_ now (ac_links a)).1 a);
  ai_links u a t : P u a -> t ⊆ ac_links a -> P u (with_links t a);
  ai_lock_create u a id providerId at_ t : P u a -> locks_create (known u) id providerId at_ (ac_locks a) = Ok t ->
    P u (with_locks t a);
  ai_last_login u a id at_ now : P u a -> P (users_touchLastLogin id at_ now u) a;
  ai_create u a row r u' : P u a -> users_create (known_organization a) row u = Ok (r, u') -> P u' a;
  ai_details u a id x patch at_ y u' : P u a -> u !! id = Some x -> same_standing patch x ->
    user_write (known_organization a) patch at_ x u = Ok (y, u') -> P u' a;
}.

(** The row an insertion stores: the address trimmed and lower-cased. *)
Lemma users_create_ok orgs row u r u' :
  users_create orgs row u = Ok (r, u') ->
  u' = <[u_id r := r]> u /\ u !! u_id r = None /\ email_taken r u = false /\ ref_opt orgs (u_org_id r) = true
  /\ u_id r = u_id row /\ u_role r = u_role row /\ u_status r = u_status row /\ u_email_verified r = u_email_verified row
  /\ u_password_hash r = u_password_hash row /\ u_email r = toLowerCase (trim (u_email row)).
Proof.
  unfold users_create. intros (Hu & Hr & Heq)%map_conflict_ok. bool_to_prop. injection Heq as -> ->. by split_and!.
Qed.

(** What each compare-and-set found. *)
Lemma users_updateIfMatches_ok orgs id expected patch at_ u y u' :
  users_updateIfMatches orgs id expected patch at_ u = Ok (y, u') ->
  (y = None /\ u' = u)
  \/ exists x, u !! id = Some x /\ user_matches expected x = true /\
       ((no_columns patch = true /\ y = Some x /\ u' = u)
        \/ (no_columns patch = false /\ user_write orgs patch at_ x u = Ok (y, u'))).
Proof.
  unfold users_updateIfMatches. destruct (u !! id) as [x|]; [|intros [= <- <-]; by left].
  destruct (user_matches expected x) eqn:Hm; simpl; [|intros [= <- <-]; by left].
  intros H. right. exists x. destruct (no_columns patch); [injection H as <- <-|]; eauto 6.
Qed.

Lemma user_write_ok orgs patch at_ x u y u' :
  user_write orgs patch at_ x u = Ok (y, u') ->
  y = Some (userUpdateColumns patch at_ x) /\ u' = <[u_id x := userUpdateColumns patch at_ x]> u
  /\ email_taken (userUpdateColumns patch at_ x) u = false
  /\ (forall o, up_org_id patch = Some (Some o) -> orgs o = true).
Proof.
  unfold user_write. intros (Hu & Hr & [= -> ->])%map_conflict_ok. bool_to_prop. split_and!; [done..|].
  intros o Ho. by rewrite Ho in Hr.
Qed.

Section Statements.
Context (env : nat -> turn) (P : account_pred) `{!AccountInvariant P} (tx : bool) (HR : tx = false -> account_rivals env P).
Abbreviation stays := (stays env tx P).

Lemma stays_session_delete id : stays (session_delete id).
Proof. apply stays_statement_ok; [done|]. intros t d HP. apply ai_sessions; [done|]. apply delete_subseteq. Qed.

Lemma delete_where_subseteq {R} (p : R -> bool) (t : gmap string R) : (delete_where p t).1 ⊆ t.
Proof. apply map_filter_subseteq. Qed.

Lemma stays_session_deleteForUser id : stays (session_deleteForUser id).
Proof. apply stays_statement_ok; [done|]. intros t d HP. apply ai_sessions; [done|]. apply delete_where_subseteq. Qed.

Lemma stays_session_deleteExpired now : stays (session_deleteExpired now).
Proof. apply stays_statement_ok; [done|]. intros t d HP. apply ai_sessions; [done|]. apply delete_where_subseteq. Qed.

Lemma stays_session_touch id e : stays (session_touch id e).
Proof.
  apply stays_statement_ok; [done|]. intros t d HP. unfold sessions_touch, on_accounts. simpl.
  destruct (ac_sessions (d_accounts d) !! id) as [s|] eqn:Hs.
  - rewrite (alter_alt_Some _ _ _ s Hs). by apply ai_touch.
  - rewrite alter_id'; [by apply ai_sessions|]. by rewrite Hs.
Qed.

Lemma stays_token_deleteForUser id purpose : stays (token_deleteForUser id purpose).
Proof. apply stays_statement_ok; [done|]. intros t d HP. apply ai_tokens; [done|]. apply delete_where_subseteq. Qed.

Lemma stays_token_deleteExpired now : stays (token_deleteExpired now).
Proof. apply stays_statement_ok; [done|]. intros t d HP. apply ai_tokens; [done|]. apply delete_where_subseteq. Qed.

Lemma stays_token_markUsed id at_ : stays (token_markUsed id at_).
Proof.
  apply stays_statement_ok; [done|]. intros t d HP. unfold tokens_markUsed.
  destruct (ac_tokens (d_accounts d) !! id) as [r|] eqn:Hr; [|by apply ai_tokens].
  case_bool_decide; [by eapply ai_used|by apply ai_tokens].
Qed.

Lemma stays_token_create input : stays (token_create input).
Proof.
  apply stays_statement; [done|]. intros t d a d' HP. destruct (tokens_create _ _ _) as [[r rows]|e] eqn:H; [|done].
  intros [= _ <-]. exact (ai_token_create _ _ _ _ _ HP H).
Qed.

Lemma stays_token_claimIssue id purpose issuedAt notBefore : stays (token_claimIssue id purpose issuedAt notBefore).
Proof.
  apply stays_statement; [done|]. intros t d a d' HP. unfold tokens_claimIssue.
  destruct (ac_claims _ !! _) as [at_|] eqn:Hc.
  - case_bool_decide; intros [= _ <-]; [by eapply ai_reclaim|].
    unfold on_accounts. simpl. rewrite <- (insert_id _ _ _ Hc). by eapply ai_reclaim.
  - destruct (user_exists d id) eqn:Hu; [|done]. intros [= _ <-]. apply ai_claim; [done|].
    unfold user_exists in Hu. by bool_to_prop.
Qed.

Lemma stays_proof_upsert id email method at_ : stays (proof_upsert id email method at_).
Proof.
  apply stays_statement; [done|]. intros t d a d' HP. destruct (proofs_upsert _ _ _ _ _ _) eqn:H; [|done].
  intros [= _ <-]. exact (ai_proof _ _ _ _ _ _ _ HP H).
Qed.

Lemma stays_user_create input : stays (user_create input).
Proof.
  apply stays_statement; [done|]. intros t d a d' HP. destruct (users_create _ _ _) as [[r rows]|e] eqn:H; [|done].
  intros [= _ <-]. exact (ai_create _ _ _ _ _ HP H).
Qed.

(** The standing of the matched rows stays. *)
Lemma stays_user_updateIfMatches id expected patch :
  (forall x, user_matches expected x = true -> same_standing patch x) -> stays (user_updateIfMatches id expected patch).
Proof.
  intros Hs. apply stays_statement; [done|]. intros t d a d' HP.
  destruct (users_updateIfMatches _ _ _ _ _ _) as [[y rows]|e] eqn:H; [|done]. intros [= _ <-].
  apply users_updateIfMatches_ok in H as [[_ ->]|(x & Hx & Hm & [(_ & _ & ->)|[_ H]])]; [done..|].
  exact (ai_details _ _ _ _ _ _ _ _ HP Hx (Hs _ Hm) H).
Qed.

Lemma stays_user_update id patch : up_role patch = None -> up_status patch = None -> stays (user_update id patch).
Proof.
  intros Hr Hs. apply stays_statement; [done|]. intros t d a d' HP.
  destruct (users_update _ _ _ _ _) as [[y rows]|e] eqn:H; [|done]. intros [= _ <-]. revert H.
  unfold users_update. destruct (d_users d !! id) as [x|] eqn:Hx; [|by intros [= _ <-]].
  destruct (no_columns patch); [by intros [= _ <-]|]. intros H.
  refine (ai_details _ _ _ _ _ _ _ _ HP Hx _ H). split; [by rewrite Hr|by rewrite Hs].
Qed.

Lemma stays_recovery_upsertPending id now : stays (recovery_upsertPending id now).
Proof. apply stays_elsewhere; [done|]. intros t d a d'. destruct (Recovery.upsertPending _ _ _ _ _). by intros [= _ <-]. Qed.

Lemma stays_teardown_upsertPending id by_ now : stays (teardown_upsertPending id by_ now).
Proof. apply stays_elsewhere; [done|]. intros t d a d'. destruct (Teardown.upsertPending _ _ _ _ _ _). by intros [= _ <-]. Qed.

Lemma stays_setting_set key value : stays (setting_set key value).
Proof. by apply stays_elsewhere; [done|]; intros t d a d' [= _ <-]. Qed.

Lemma stays_link_create input : stays (link_create input).
Proof.
  apply stays_statement; [done|]. intros t d a d' HP. destruct (links_create _ _ _) as [[r rows]|e] eqn:H; [|done].
  intros [= _ <-]. exact (ai_link_create _ _ _ _ _ HP H).
Qed.

Lemma stays_link_touchLogin id email at_ : stays (link_touchLogin id email at_).
Proof.
  apply stays_statement_ok; [done|]. intros t d HP.
  pose proof (ai_link_touch _ _ id email at_ (t_now t) HP) as H. by destruct (links_touchLogin _ _ _ _ _).
Qed.

Lemma stays_link_delete id : stays (link_delete id).
Proof. apply stays_statement_ok; [done|]. intros t d HP. apply ai_links; [done|]. apply delete_subseteq. Qed.

Lemma stays_link_deleteByProvider id : stays (link_deleteByProvider id).
Proof. apply stays_statement_ok; [done|]. intros t d HP. apply ai_links; [done|]. apply delete_where_subseteq. Qed.

Lemma stays_lock_create id providerId at_ : stays (lock_create id providerId at_).
Proof.
  apply stays_statement; [done|]. intros t d a d' HP. destruct (locks_create _ _ _ _ _) eqn:H; [|done].
  intros [= _ <-]. exact (ai_lock_create _ _ _ _ _ _ HP H).
Qed.

Lemma stays_user_touchLastLogin id at_ : stays (user_touchLastLogin id at_).
Proof. apply stays_statement_ok; [done|]. intros t d HP. exact (ai_last_login _ _ _ _ _ HP). Qed.

Lemma stays_setting_delete key : stays (setting_delete key).
Proof. by apply stays_elsewhere; [done|]; intros t d a d' [= _ <-]. Qed.

Lemma stays_setting_set_encrypted key blob : stays (setting_set_encrypted key blob).
Proof. by apply stays_elsewhere; [done|]; intros t d a d' [= _ <-]. Qed.

Lemma stays_request_updateIfStatus id expected patch : stays (request_updateIfStatus id expected patch).
Proof.
  apply stays_elsewhere; [done|]. intros t d a d'. destruct (requests_updateIfStatus _ _ _ _ _ _) as [[r rows]|e]; [|done].
  by intros [= _ <-].
Qed.
End Statements.

(** *** Along the structure of a program *)

Create HintDb accounts discriminated.
#[export] Hint Constants Opaque : accounts.
#[export] Hint Resolve stays_ret stays_throw stays_read stays_date_now stays_math_random stays_randomUUID stays_bump
  stays_audit_record stays_session_delete stays_session_deleteForUser stays_session_deleteExpired stays_session_touch
  stays_token_deleteForUser stays_token_deleteExpired stays_token_markUsed stays_token_create stays_token_claimIssue
  stays_proof_upsert stays_user_create stays_user_update stays_recovery_upsertPending
  stays_teardown_upsertPending stays_setting_set stays_request_updateIfStatus stays_link_create stays_link_touchLogin
  stays_link_delete stays_link_deleteByProvider stays_lock_create stays_user_touchLastLogin stays_setting_delete
  stays_setting_set_encrypted : accounts.

#[export] Hint Extern 1 (stays _ _ _ (statement_ok _)) => apply stays_read; intros; first [discriminate|assumption] : accounts.
#[export] Hint Resolve eq_refl : accounts.
#[export] Hint Extern 0 (account_rivals _ _) => match goal with E : true = false |- _ => discriminate E end : accounts.
#[export] Hint Extern 1 (AccountInvariant _) => apply _ : accounts.
#[export] Hint Extern 1 (up_role _ = None) => reflexivity : accounts.
#[export] Hint Extern 1 (up_status _ = None) => reflexivity : accounts.

(** The calls that are a read or a check. *)
Ltac unfold_reads :=
  unfold readLoginPolicy, readStoredSsoSettings, users_find, users_find_email, ensure, found, countActiveSuperAdmins,
    session_findByTokenHash, token_findByTokenHash, token_findLatestLiveForUser, proof_find, lock_find, links_of, setting_get, organization_known,
    session_find, link_find, link_findBySubject, link_countByProvider, link_listUserIdsByProvider in *.

Ltac stays_step :=
  lazymatch goal with
  | |- stays _ _ _ (mbind _ _) => apply stays_bind; [|intros ? ?]
  | |- stays _ _ _ (mcatch _ _) => apply stays_catch; [|intros ?]
  | |- stays _ _ _ (mfinally _ _) => apply stays_finally
  | |- stays _ _ _ (locks _ _) => apply stays_locks; [assumption|]
  | |- stays _ _ _ (transaction _) => apply stays_transaction; [assumption|]
  | |- stays _ _ _ (match ?x with _ => _ end) => destruct x eqn:?
  | |- stays _ _ _ _ => solve [eauto with accounts nocore]
  end.
Ltac prove_stays := intros; unfold_reads; repeat stays_step.
