(* ===== verification/AccountPrograms.v ===== *)
(** * The accounts' programs, and a predicate of their tables

    Every operation of [Auth], [AuthPlugin] and [UsersService] keeps an
    [AccountInvariant], given that the two transactions it depends on, the sign-in
    and the change of an account's standing, keep it. *)

From S2P Require Import Prelude Json Roles Users Outbox JobQueues Settings AuditLog AccessTables CredentialTables AccountTables SsoSettings World AccessStore AccountStore SettingGeneration LeaseFence KeyedSerializer Provisioner TeardownWorker Auth AuthPlugin UsersService Sso SsoService AccountLogic.
Open Scope Z_scope.

(** What the services are handed leaves the predicate alone: the hashing and the
    CAPTCHA, the hooks, the gateway. The answer of a [prepare] hook writes the
    outbox inside the caller's transaction; the rule on promotions only reads. *)
Record deps_stay `{AuthDeps} `{UsersDeps} `{TeardownService} (env : nat -> turn) (P : account_pred) : Prop := {
  hash_stays s : stays env false P (hashPassword s);
  verify_stays s h : stays env false P (verifyPassword s h);
  captcha_stays t ip : stays env false P (captcha_verify t ip);
  registered_stays h u t c : onRegistered = Some h -> stays env false P (h u t c);
  resend_stays p u t c : prepareVerificationResend = Some p -> stays env false P (p u t c);
  resend_queue_stays p u t c q id : prepareVerificationResend = Some p -> can_answer (p u t c) q -> stays env true P (q id);
  reset_stays p u t c : preparePasswordReset = Some p -> stays env false P (p u t c);
  reset_queue_stays p u t c q id : preparePasswordReset = Some p -> can_answer (p u t c) q -> stays env true P (q id);
  proof_stays h u ip : onFirstEmailProof = Some h -> stays env false P (h u ip);
  restore_stays a b : stays env false P (restore_gateway_access a b);
  notify_stays a b c d e : stays env false P (notify_user a b c d e);
  promotion_stays h a r Q : assertManualAdminPromotionAllowed = Some h -> stays env true Q (h a r);
  disable_stays a b : stays env false P (disableGatewayAccess a b);
}.

(** *** The revocation of a gateway identity *)

Section Revocation.
Context `{TeardownService} (env : nat -> turn) (P : account_pred) `{!AccountInvariant P}.

Lemma teardown_write_stays tx f : (tx = false -> account_rivals env P) -> stays env tx P (teardown_write f).
Proof. intros HR. apply stays_elsewhere; [done|]. intros t d a d'. destruct (f t (d_teardown d)). by intros [= _ <-]. Qed.
#[local] Hint Resolve teardown_write_stays : accounts.

Lemma gateway_teardown_stays id by_ job :
  account_rivals env P -> (forall a b, stays env false P (disableGatewayAccess a b)) ->
  stays env false P (runGatewayTeardown id by_ job).
Proof.
  intros HR Hdisable. unfold runGatewayTeardown. apply stays_seq.
  { apply stays_attempt. unfold claim_attempt. prove_stays. apply stays_elsewhere; [done|]. intros t d a d'.
    destruct (Teardown.claimPending _ _ _ _). by intros [= _ <-]. }
  intros [claimed|e]; [|prove_stays]. apply stays_seq.
  { apply stays_attempt. unfold settle_attempt, teardown_findByUser, teardown_markDone. prove_stays. }
  intros [a|e]; [prove_stays|]. unfold teardown_reschedule. prove_stays.
Qed.
End Revocation.
#[export] Hint Resolve teardown_write_stays : accounts.

Section Programs.
Context `{AuthDeps} `{UsersDeps} `{TeardownService} (config : NexusConfig).
Context (env : nat -> turn) (P : account_pred) `{!AccountInvariant P} (HR : account_rivals env P).
Context (Hdeps : deps_stay env P).

#[local] Hint Resolve hash_stays verify_stays captcha_stays registered_stays resend_stays reset_stays proof_stays
  restore_stays notify_stays disable_stays : accounts.

(** ** [auth/service.ts] *)

Lemma localPasswordBlocked_stays tx sso id role :
  (tx = false -> account_rivals env P) -> stays env tx P (localPasswordBlocked sso id role).
Proof. clear HR. unfold localPasswordBlocked. prove_stays. Qed.
#[local] Hint Resolve localPasswordBlocked_stays : accounts.

Lemma persistRegistration_stays draft founder : stays env true P (persistRegistration draft founder).
Proof. unfold persistRegistration, newSessionToken, isoInSeconds. prove_stays. Qed.
#[local] Hint Resolve persistRegistration_stays : accounts.

Lemma applyRegistrationPolicy_stays draft : stays env true P (applyRegistrationPolicy draft).
Proof. unfold applyRegistrationPolicy, readRegistrationPolicy. prove_stays. Qed.
#[local] Hint Resolve applyRegistrationPolicy_stays : accounts.

Lemma commit_registration_stays seatOpen draft : stays env false P (commit_registration seatOpen draft).
Proof. unfold commit_registration, seatFounder. prove_stays. Qed.

Lemma draft_registration_stays input context : stays env false P (draft_registration config input context).
Proof.
  unfold draft_registration, readRegistrationPolicy, bootstrapRequired, requireBootstrapToken. prove_stays.
Qed.
#[local] Hint Resolve commit_registration_stays draft_registration_stays : accounts.

Lemma register_stays input context :
  (forall user, stays env false P (issueSession config user context)) ->
  stays env false P (register config input context).
Proof. intros Hissue. unfold register. prove_stays. Qed.

Lemma serializePasswordChange_stays {A} id (fn : M A) :
  stays env false P fn -> stays env false P (serializePasswordChange id fn).
Proof.
  intros Hf. unfold serializePasswordChange. apply stays_seq; [by apply stays_underLease|]. intros [a|]; auto with accounts nocore.
Qed.

Lemma rewordLockTimeout_stays {A} message (fn : M A) :
  stays env false P fn -> stays env false P (rewordLockTimeout message fn).
Proof. intros Hf. unfold rewordLockTimeout. prove_stays. Qed.

Lemma rewordLeaseLost_stays {A} message (fn : M A) :
  stays env false P fn -> stays env false P (rewordLeaseLost message fn).
Proof. intros Hf. unfold rewordLeaseLost. prove_stays. Qed.

Lemma login_check_stays input context : stays env false P (login_check config input context).
Proof. unfold login_check, readRegistrationPolicy. prove_stays. Qed.
#[local] Hint Resolve login_check_stays : accounts.

Lemma login_stays input context :
  (forall verified at_, stays env true P (login_commit config verified context at_)) ->
  stays env false P (login config input context).
Proof.
  intros Hcommit. unfold login. prove_stays.
  apply rewordLeaseLost_stays, serializePasswordChange_stays, rewordLockTimeout_stays. prove_stays.
Qed.

Lemma logout_stays session user context : stays env false P (logout session user context).
Proof. unfold logout. prove_stays. Qed.

Lemma verifyEmail_stays token context : stays env false P (verifyEmail token context).
Proof. unfold verifyEmail, verify_commit. prove_stays. Qed.

Lemma withUniformAnswer_stays body : stays env false P body -> stays env false P (withUniformAnswer body).
Proof. intros Hb. unfold withUniformAnswer, withTimingFloor. prove_stays. Qed.

Lemma mint_link_stays userId role purpose token email action ttl issuedAt notBefore queue context :
  (forall q id, queue = Some q -> stays env true P (q id)) ->
  stays env true P (mint_link userId role purpose token email action ttl issuedAt notBefore queue context).
Proof. intros Hq. unfold mint_link, isoInSeconds. prove_stays. Qed.

Lemma prepared_stays prepare user token context :
  (forall p u t c, prepare = Some p -> stays env false P (p u t c)) ->
  stays env false P (prepared prepare user token context).
Proof. intros Hp. unfold prepared. destruct prepare; prove_stays. Qed.

#[local] Hint Resolve prepared_stays : accounts.

(** What a preparation hands to the mint. *)
Lemma prepared_queue prepare user token context queue :
  (forall p u t c q id, prepare = Some p -> can_answer (p u t c) q -> stays env true P (q id)) ->
  can_answer (prepared prepare user token context) queue ->
  forall q id, queue = Some q -> stays env true P (q id).
Proof.
  intros Hp (w & w' & Hw) q id ->. unfold prepared in Hw. destruct prepare as [p|]; [|done].
  tx_bind Hw q' w1 Hq1. injection Hw as -> _. eapply Hp; [done|]. by exists w, w1.
Qed.

Lemma resendVerification_stays email context : stays env false P (resendVerification email context).
Proof.
  unfold resendVerification. apply withUniformAnswer_stays. unfold newSessionToken, resend_commit. prove_stays.
  all: apply mint_link_stays; eapply prepared_queue; [|eassumption]; eauto using resend_queue_stays.
Qed.

Lemma requestPasswordReset_stays email context : stays env false P (requestPasswordReset config email context).
Proof.
  unfold requestPasswordReset. apply withUniformAnswer_stays. unfold reset_request, newSessionToken, reset_mint. prove_stays.
  all: apply mint_link_stays; eapply prepared_queue; [|eassumption]; eauto using reset_queue_stays.
Qed.

Lemma cancel_page_stays items : stays env true P (cancel_page items).
Proof. induction items as [|r items IH]; simpl; prove_stays. Qed.

Lemma cancel_pages_stays fuel userId : stays env true P (cancel_pages fuel userId).
Proof.
  induction fuel as [|fuel IH]; simpl; [prove_stays|]. apply stays_seq; [prove_stays|]. intros [|r items]; [prove_stays|].
  apply stays_seq; [apply cancel_page_stays|]. intros n. prove_stays.
Qed.

Lemma cancel_pending_stays userId : stays env true P (cancel_pending userId).
Proof.
  split; intros w; unfold cancel_pending;
    destruct (cancel_pages_stays (S (size (at_requests (d_access (w_db w))))) userId) as [Hf Hm]; [apply Hf|apply Hm].
Qed.
#[local] Hint Resolve cancel_pending_stays : accounts.

Lemma reset_commit_stays token userId passwordHash context : stays env true P (reset_commit config token userId passwordHash context).
Proof.
  unfold reset_commit. prove_stays. apply stays_user_updateIfMatches; [done..|]. intros x Hx.
  unfold user_matches in Hx. simpl in Hx. bool_to_prop. split; [done|done].
Qed.
#[local] Hint Resolve reset_commit_stays : accounts.

Lemma resetPassword_stays token newPassword context : stays env false P (resetPassword config token newPassword context).
Proof.
  unfold resetPassword. prove_stays. apply serializePasswordChange_stays. apply stays_seq; [|intros; prove_stays].
  apply rewordLockTimeout_stays. prove_stays.
Qed.

(** ** [middleware/auth-plugin.ts] and [auth/expiry-sweep.ts] *)

Lemma resolve_request_stays request : stays env false P (resolve_request config request).
Proof. unfold resolve_request, resolve_session, slide, check_csrf. prove_stays. Qed.

Lemma expiry_tick_stays : stays env false P expiry_tick.
Proof. unfold expiry_tick, sweep_expired. prove_stays. Qed.

(** ** [users/service.ts] *)

Lemma preference_upsert_stays id next : stays env true P (preference_upsert id next).
Proof.
  apply stays_statement; [done|]. intros t d a d' HP. destruct (preferences_upsert _ _ _ _ _) as [[r rows]|e] eqn:Hu; [|done].
  intros [= _ <-]. exact (ai_preferences _ _ _ _ _ _ _ HP Hu).
Qed.
#[local] Hint Resolve preference_upsert_stays : accounts.

Lemma updateNotificationPreferences_stays user in_app email ip :
  stays env false P (updateNotificationPreferences user in_app email ip).
Proof. unfold updateNotificationPreferences, preferences_find. prove_stays. Qed.

Lemma plan_me_stays user patch : stays env false P (plan_me user patch).
Proof. unfold plan_me. prove_stays. Qed.

(** The plan of a profile touches neither the role nor the status. *)
Lemma plan_me_answer user patch p :
  can_answer (plan_me user patch) p -> up_role p.1 = None /\ up_status p.1 = None.
Proof.
  intros (w & w' & Hp). unfold plan_me in Hp. tx_bind Hp u w1 Hp1. tx_bind Hp hash w2 Hp2. by apply mret_ok in Hp as [-> _].
Qed.

Lemma me_commit_stays user update changed ip :
  up_role update = None -> up_status update = None -> stays env true P (me_commit user update changed ip).
Proof. intros Hr Hs. unfold me_commit. prove_stays. Qed.

Lemma updateMe_stays user patch context :
  (um_new_password patch = None \/ forall user, stays env true P (issueSession config user context)) ->
  stays env false P (updateMe config user patch context).
Proof.
  intros Hissue. unfold updateMe. apply stays_bind; [apply plan_me_stays|]. intros p Hp.
  destruct (plan_me_answer user patch p Hp) as [Hr Hs].
  assert (Hc : stays env false P (change_me config user p.1 p.2 context)).
  { unfold change_me. apply stays_seq; [apply stays_transaction; [done|]; by apply me_commit_stays|]. intros updated.
    destruct (up_password_hash p.1) as [hash|] eqn:Hh; [|prove_stays].
    apply stays_seq; [apply rewordLeaseLost_stays|intros; prove_stays]. apply stays_transaction; [done|].
    destruct Hissue as [Hnone|Hissue]; [|done]. exfalso. destruct Hp as (w & w' & Hp). unfold plan_me in Hp.
    rewrite Hnone in Hp. tx_bind Hp u w1 Hp1. tx_bind Hp h w2 Hp2. apply mret_ok in Hp2 as [-> _].
    by apply mret_ok in Hp as [-> _]. }
  destruct p.2; [prove_stays|]. destruct (up_password_hash p.1); [|done].
  by apply serializePasswordChange_stays.
Qed.

Lemma requeue_teardown_stays actor id ip : stays env true P (requeue_teardown actor id ip).
Proof.
  unfold requeue_teardown. prove_stays. apply stays_user_updateIfMatches; [done..|]. intros x Hx.
  unfold user_matches in Hx. simpl in Hx. bool_to_prop. by split.
Qed.

Lemma runGatewayTeardown_stays id by_ job : stays env false P (runGatewayTeardown id by_ job).
Proof. apply gateway_teardown_stays; [done..|]. by apply disable_stays. Qed.
#[local] Hint Resolve runGatewayTeardown_stays requeue_teardown_stays : accounts.

Lemma record_teardown_stays actor id attempt ip : stays env false P (record_teardown actor id attempt ip).
Proof. unfold record_teardown. prove_stays. Qed.
#[local] Hint Resolve record_teardown_stays : accounts.

Lemma retryGatewayTeardown_stays actor id ip : stays env false P (retryGatewayTeardown actor id ip).
Proof. unfold retryGatewayTeardown, teardown_findByUser. prove_stays. Qed.

Lemma cancel_mail_stays email : stays env true P (cancel_mail email).
Proof.
  apply stays_elsewhere; [done|]. intros t d a d'. destruct (cancelForReleasedAddress _ _ _ _) as [[rows n]|e]; [|done].
  by intros [= _ <-].
Qed.
#[local] Hint Resolve cancel_mail_stays : accounts.

Lemma release_commit_stays actor id email tombstone ip : stays env true P (release_commit actor id email tombstone ip).
Proof.
  unfold release_commit, teardown_findByUser, count_live_rows. prove_stays.
  apply stays_user_updateIfMatches; [done..|]. by intros x Hx.
Qed.

Lemma releaseAddress_stays actor id email ip : stays env false P (releaseAddress actor id email ip).
Proof. unfold releaseAddress. prove_stays. apply release_commit_stays. Qed.

Lemma plan_user_stays actor target patch : stays env false P (plan_user actor target patch).
Proof. unfold plan_user, plan_role, plan_status, only_super_admin, others_count. prove_stays. Qed.
#[local] Hint Resolve plan_user_stays : accounts.

Lemma update_audits_stays actor target p details ip : stays env true P (update_audits actor target p details ip).
Proof. clear HR. unfold update_audits. prove_stays. Qed.
Lemma end_access_stays actor target p : stays env true P (end_access actor target p).
Proof. clear HR. unfold end_access. prove_stays. Qed.
#[local] Hint Resolve update_audits_stays end_access_stays : accounts.

(** The plan says which of the two standings it changes. *)
Lemma plan_user_answer actor target patch p :
  can_answer (plan_user actor target patch) p ->
  pl_roleChanged p = bool_decide (is_Some (up_role (pl_update p)))
  /\ pl_statusChanged p = bool_decide (is_Some (up_status (pl_update p))).
Proof.
  intros (w & w' & Hp). unfold plan_user in Hp. tx_bind Hp u w1 Hp1. tx_bind Hp v w2 Hp2. tx_bind Hp role w3 Hp3.
  tx_bind Hp status w4 Hp4. tx_bind Hp x w5 Hp5. by apply mret_ok in Hp as [-> _].
Qed.

Lemma updateUser_stays actor id patch ip :
  (forall target p, can_answer (plan_user actor target patch) p -> stays env true P (transition_body actor target p ip)) ->
  stays env false P (updateUser actor id patch ip).
Proof.
  intros Hbody. unfold updateUser, retry_enable, transition, ignore_errors. prove_stays.
Qed.

Lemma organization_create_stays name description : stays env true P (organization_create name description).
Proof.
  apply stays_statement; [done|]. intros t d a d' HP. destruct (organizations_create _ _) as [[r rows]|e] eqn:Ho; [|done].
  intros [= _ <-]. exact (ai_organization_create _ _ _ _ _ HP Ho).
Qed.
Lemma organization_update_stays id name description : stays env true P (organization_update id name description).
Proof.
  apply stays_statement; [done|]. intros t d a d' HP. destruct (organizations_update _ _ _ _ _) as [[r rows]|e] eqn:Ho; [|done].
  intros [= _ <-]. exact (ai_organization_update _ _ _ _ _ _ _ _ HP Ho).
Qed.
#[local] Hint Resolve organization_create_stays organization_update_stays : accounts.

Lemma createOrganization_stays actor name description ip : stays env false P (createOrganization actor name description ip).
Proof. unfold createOrganization. prove_stays. Qed.
Lemma updateOrganization_stays actor id name description ip :
  stays env false P (updateOrganization actor id name description ip).
Proof. unfold updateOrganization, organization_find. prove_stays. Qed.
End Programs.

(** ** [sso/service.ts] *)

Record sso_deps_stay `{SsoDeps} (env : nat -> turn) (P : account_pred) : Prop := {
  discover_stays issuer : stays env false P (discover issuer);
  exchange_stays input : stays env false P (exchangeCode input);
  validate_stays input : stays env false P (validateIdToken input);
}.

Section SsoPrograms.
Context `{AuthDeps} `{SsoDeps} `{TeardownService} (config : NexusConfig).
Context (env : nat -> turn) (P : account_pred) `{!AccountInvariant P} (HR : account_rivals env P).

(** *** Calls that write nothing of the accounts *)

Lemma run_recording_stays {T} (p : settings_read T) seen : stays env false P (run_recording p seen).
Proof.
  revert seen. induction p as [t|e|key k IH|k IH]; intros seen; simpl; unfold get_setting; prove_stays; try apply IH.
  exact (stays_sleep env P false (fun _ => HR) 0).
Qed.

Lemma unchanged_stays seen : stays env false P (unchanged seen).
Proof. induction seen as [|[key rows] rest IH]; simpl; unfold get_setting; prove_stays. Qed.

Lemma readBoundToSetting_stays {T} key (p : option SettingRecord -> settings_read T) n :
  stays env false P (readBoundToSetting key p n).
Proof.
  induction n as [|n IH]; simpl; [prove_stays|]. unfold setting_attempt, get_setting.
  apply stays_seq; [|intros []; prove_stays].
  apply stays_seq; [prove_stays|intros anchor]. apply stays_seq; [apply run_recording_stays|intros result].
  apply stays_seq; [apply unchanged_stays|intros same]. prove_stays.
Qed.

Lemma findProvider_stays id stored : stays env false P (findProvider config id stored).
Proof. unfold findProvider, resolveSsoProviders, refuse. prove_stays. apply readBoundToSetting_stays. Qed.
#[local] Hint Resolve findProvider_stays : accounts.

Lemma under_keys_stays {A} keys (fn : M A) : stays env false P fn -> stays env false P (under_keys keys fn).
Proof. intros Hf. induction keys as [|key keys IH]; simpl; [done|]. by apply stays_locks. Qed.

Lemma currentSettings_stays tx (HR' : tx = false -> account_rivals env P) settings :
  stays env tx P (currentSettings config settings).
Proof. clear HR. unfold currentSettings, provider_current, refuse. prove_stays. Qed.

Lemma check_domains_stays tx email verified domains : stays env tx P (check_domains email verified domains).
Proof. clear HR. unfold check_domains. prove_stays. Qed.
#[local] Hint Resolve currentSettings_stays check_domains_stays : accounts.

(** *** The sign-in *)

Lemma provision_account_stays settings who hash orgExists at_ context :
  stays env true P (provision_account settings who hash orgExists at_ context).
Proof. clear HR. unfold provision_account, refuse. prove_stays. Qed.

Lemma plan_account_stays id initiating : stays env true P (plan_account config id initiating).
Proof. clear HR. unfold plan_account, refuse. prove_stays. Qed.

Lemma link_account_stays user explicit settings who at_ context :
  stays env true P (link_account user explicit settings who at_ context).
Proof. clear HR. unfold link_account, refuse. prove_stays. Qed.

Lemma touch_identity_stays identity email at_ : stays env true P (touch_identity identity email at_).
Proof. clear HR. unfold touch_identity. prove_stays. Qed.

(** A change of the claims is of an account that is no super admin, and makes none. *)
Lemma apply_change_stays user change :
  u_role user <> super_admin -> stays env true P (apply_change user change).
Proof.
  clear HR. intros Hn. unfold apply_change, refuse. prove_stays. apply stays_user_updateIfMatches; [done..|]. intros x Hx.
  assert (Hr : u_role x = u_role user) by (unfold user_matches in Hx; simpl in Hx; by bool_to_prop).
  split; [|done]. simpl. rewrite Hr. destruct (cp_role change) as [[]|]; simpl; done.
Qed.

Lemma planned_not_super user mapping settings orgExists change :
  planClaimsChange user mapping settings orgExists = Some change -> u_role user <> super_admin.
Proof. unfold planClaimsChange. by case_decide. Qed.

Lemma without_role_some planned change : without_role planned = Some change -> is_Some planned.
Proof. unfold without_role. by destruct planned. Qed.

Lemma sync_claims_stays user settings who orgExists stored context :
  stays env true P (sync_claims config user settings who orgExists stored context).
Proof.
  clear HR.
  unfold sync_claims, lowerTrustProviders. apply stays_seq; [prove_stays|]. intros withheld.
  assert (Hc : forall change, match withheld with
      | [] => planClaimsChange user (si_mapping who) settings orgExists
      | _ => without_role (planClaimsChange user (si_mapping who) settings orgExists) end = Some change ->
      stays env true P (apply_change user change)).
  { intros change Hc. apply apply_change_stays. destruct withheld; [by eapply planned_not_super|].
    apply without_role_some in Hc as [c Hc]. by eapply planned_not_super. }
  destruct (match withheld with [] => _ | _ => _ end) as [change|] eqn:Hch; destruct withheld; prove_stays; by apply Hc.
Qed.

#[local] Hint Resolve provision_account_stays plan_account_stays link_account_stays touch_identity_stays sync_claims_stays : accounts.

Lemma open_account_stays plan settings who hash orgExists at_ stored context :
  stays env true P (open_account config plan settings who hash orgExists at_ stored context).
Proof. clear HR. unfold open_account. prove_stays. Qed.
#[local] Hint Resolve open_account_stays : accounts.

Lemma sign_in_commit_stays plan settings who hash orgExists at_ context :
  (forall user, stays env true P (issueSession config user context)) ->
  stays env true P (sign_in_commit config plan settings who hash orgExists at_ context).
Proof. clear HR. intros Hissue. unfold sign_in_commit. prove_stays. Qed.

(** *** The start *)

Section Client.
Context (Hsso : sso_deps_stay env P).
#[local] Hint Resolve discover_stays exchange_stays validate_stays : accounts.

Lemma begin_stays chosen returnTo link : stays env false P (begin chosen returnTo link).
Proof.
  unfold begin, randomUrlToken, fresh_nonce, randomNonce. prove_stays. split; [auto with nexus|]. by intros w.
Qed.
#[local] Hint Resolve begin_stays : accounts.

Lemma start_stays id returnTo : stays env false P (start config id returnTo).
Proof. unfold start. prove_stays. Qed.

Lemma startLink_stays id current : stays env false P (startLink config id current).
Proof. unfold startLink. prove_stays. Qed.

Section Transactions.
Context (Hcommit : forall plan settings who hash orgExists at_ context,
  stays env true P (sign_in_commit config plan settings who hash orgExists at_ context)).
Context (Hdeprovision : forall user settings subject context,
  stays env true P (deprovision_commit config user settings subject context)).
Context (Hteardown : forall a b, stays env false P (disableGatewayAccess a b)).

#[local] Hint Resolve gateway_teardown_stays : accounts.

Lemma deprovision_stays user settings subject context :
  stays env false P (deprovision config user settings subject context).
Proof. unfold deprovision. prove_stays. Qed.

Lemma addressProven_stays account : stays env false P (addressProven account).
Proof. unfold addressProven. prove_stays. Qed.

Lemma planSignIn_stays chosen claims email verified mapping stored context :
  stays env false P (planSignIn config chosen claims email verified mapping stored context).
Proof.
  unfold planSignIn, plan_linked, plan_existing, addressProven, refuse. prove_stays; by apply deprovision_stays.
Qed.

Lemma planExplicitLink_stays chosen claims email verified mapping transaction current :
  stays env false P (planExplicitLink chosen claims email verified mapping transaction current).
Proof. unfold planExplicitLink, addressProven, seatedFounder, refuse. prove_stays. Qed.

Lemma signIn_stays plan settings who context : stays env false P (signIn config plan settings who context).
Proof.
  unfold signIn, unusablePasswordHash. do 3 (apply stays_seq; [prove_stays|intros ?]).
  by apply under_keys_stays, stays_transaction.
Qed.

Lemma callback_stays id query cookie current context :
  stays env false P (callback config id query cookie current context).
Proof.
  unfold callback, callback_open. apply stays_seq; [apply stays_attempt; prove_stays|].
  intros [[[stored chosen] transaction]|e]; [|prove_stays]. apply stays_catch; [|intros; prove_stays].
  apply stays_seq; [|intros; prove_stays]. unfold callback_finish, callback_code, redeem, refuse. prove_stays.
  - apply planExplicitLink_stays.
  - apply planSignIn_stays.
  - apply signIn_stays.
Qed.
End Transactions.
End Client.

(** *** Administration *)

Lemma for_each_stays {A} tx (items : list A) body :
  (forall item, stays env tx P (body item)) -> stays env tx P (for_each items body).
Proof. intros Hb. induction items as [|item rest IH]; simpl; prove_stays. Qed.

Lemma map_each_stays {A B} tx (items : list A) (body : A -> M B) :
  (forall item, stays env tx P (body item)) -> stays env tx P (map_each items body).
Proof. intros Hb. induction items as [|item rest IH]; simpl; prove_stays. Qed.

Lemma getAdminSettings_stays : stays env false P (getAdminSettings config).
Proof. unfold getAdminSettings, resolveSsoProviders. prove_stays. apply readBoundToSetting_stays. Qed.

Lemma organizations_exist_stays mappings : stays env false P (organizations_exist mappings).
Proof. induction mappings as [|m rest IH]; simpl; prove_stays. Qed.
#[local] Hint Resolve getAdminSettings_stays organizations_exist_stays : accounts.

Lemma plan_providers_stays previous plan providers : stays env false P (plan_providers config previous plan providers).
Proof.
  revert plan. induction providers as [|[settings secret] rest IH]; intros plan; simpl; [prove_stays|].
  apply stays_seq; [unfold plan_provider, lift; prove_stays|]. intros plan'. apply IH.
Qed.
#[local] Hint Resolve plan_providers_stays : accounts.

Lemma plan_settings_stays actorId stored patch : stays env false P (plan_settings config actorId stored patch).
Proof. unfold plan_settings, plan_scalars, lift, check_sso_only. prove_stays. Qed.

Lemma encrypt_secrets_stays writes : stays env false P (encrypt_secrets writes).
Proof.
  induction writes as [|[id secret] rest IH]; simpl; unfold fresh_nonce, randomNonce; prove_stays.
  all: split; [auto with nexus|by intros w].
Qed.

Lemma save_commit_stays actor stored plan encrypted ip : stays env true P (save_commit config actor stored plan encrypted ip).
Proof.
  unfold save_commit, check_unmoved, write_settings. prove_stays; first [apply for_each_stays|apply map_each_stays]; prove_stays.
Qed.

Lemma save_settings_stays actor stored plan ip : stays env false P (save_settings config actor stored plan ip).
Proof.
  unfold save_settings, underProviderLocks. apply stays_seq; [apply encrypt_secrets_stays|]. intros encrypted.
  apply stays_locks; [done|]. apply under_keys_stays, stays_locks; [done|]. apply stays_transaction; [done|].
  apply save_commit_stays.
Qed.
#[local] Hint Resolve plan_settings_stays save_settings_stays : accounts.

Lemma updateAdminSettings_stays actorId role patch ip :
  stays env false P (updateAdminSettings config actorId role patch ip).
Proof. unfold updateAdminSettings. prove_stays. Qed.

Lemma unlinkIdentity_stays actor userId identityId ip : stays env false P (unlinkIdentity actor userId identityId ip).
Proof. unfold unlinkIdentity, unlink_commit. prove_stays. Qed.

Lemma sso_promotion_rule_stays (Q : account_pred) id role : stays env true Q (sso_promotion_rule (sso config) id role).
Proof. clear HR. unfold sso_promotion_rule, lowerTrustProvidersForManualPromotion. prove_stays. Qed.
End SsoPrograms.
