(* ===== verification/AccountInvariants.v ===== *)
(** * What stays true of the accounts

    Three predicates of the account tables, every write against each: the tables
    are well formed, the portal keeps an active super admin, and no disabled
    account has a session. *)

From S2P Require Import Prelude Json Roles Users JobQueues AuditLog AccessTables AccountTables AccessWorkflow SsoSettings World AccessStore AccountStore LeaseFence KeyedSerializer Provisioner TeardownWorker Auth AuthPlugin UsersService Sso SsoService AccountLogic AccountPrograms.
Open Scope Z_scope.

(** ** Keys, unique columns and references *)

(** No two rows share the column. *)
Definition unique_by {R K} (column : R -> K) (t : gmap string R) : Prop :=
  forall i j x y, t !! i = Some x -> t !! j = Some y -> column x = column y -> i = j.

(** The column of every row names a row of [u]. *)
Definition refers {R S} (column : R -> string) (t : gmap string R) (u : gmap string S) : Prop :=
  forall i x, t !! i = Some x -> is_Some (u !! column x).

Lemma taken_by_other_false {R} (id : R -> string) same r (t : gmap string R) k x :
  taken_by_other id same r t = false -> t !! k = Some x -> same x = true -> id x = id r.
Proof.
  unfold taken_by_other. intros Ht Hx Hs. bool_to_prop. apply dec_stable in Ht.
  pose proof (proj1 (rows_where_nil _ t) Ht k x Hx) as Hf. simpl in Hf. rewrite Hs in Hf. simpl in Hf.
  bool_to_prop. by apply dec_stable.
Qed.

Lemma unique_insert {R K} (id : R -> string) (column : R -> K) (same : R -> bool) r (t : gmap string R) :
  keyed id t -> unique_by column t -> (forall x, column x = column r -> same x = true) ->
  taken_by_other id same r t = false -> unique_by column (<[id r := r]> t).
Proof.
  intros Hk Hu Hs Ht i j x y Hx Hy Hc.
  assert (Hw : forall k z, t !! k = Some z -> column z = column r -> k = id r).
  { intros k z Hz Hz'. rewrite <- (Hk k z Hz). by eapply taken_by_other_false; [|eassumption|apply Hs]. }
  apply lookup_insert_Some in Hx as [[<- <-]|[_ Hx]]; apply lookup_insert_Some in Hy as [[<- <-]|[_ Hy]]; [done|..].
  - symmetry. by eapply Hw.
  - by eapply Hw.
  - by eapply Hu.
Qed.

Lemma unique_subset {R K} (column : R -> K) (t t' : gmap string R) : t' ⊆ t -> unique_by column t -> unique_by column t'.
Proof. intros Hs Hu i j x y Hx Hy. apply Hu; by eapply lookup_weaken. Qed.

Lemma keyed_subset {R} (id : R -> string) (t t' : gmap string R) : t' ⊆ t -> keyed id t -> keyed id t'.
Proof. intros Hs Hk i x Hx. apply Hk. by eapply lookup_weaken. Qed.

Lemma refers_subset {R S} (column : R -> string) (t t' : gmap string R) (u : gmap string S) :
  t' ⊆ t -> refers column t u -> refers column t' u.
Proof. intros Hs Hr i x Hx. eapply Hr. by eapply lookup_weaken. Qed.

Lemma refers_insert {R S} (column : R -> string) k r (t : gmap string R) (u : gmap string S) :
  refers column t u -> is_Some (u !! column r) -> refers column (<[k := r]> t) u.
Proof. intros Hr Hk i x Hx. map_cases; [done|by eapply Hr]. Qed.

(** A write that keeps every key of the target. *)
Lemma refers_target {R S} (column : R -> string) (t : gmap string R) (u : gmap string S) k y :
  refers column t u -> refers column t (<[k := y]> u).
Proof. intros Hr i x Hx. apply lookup_insert_is_Some'. right. by eapply Hr. Qed.

(** A rewrite of a row that is there, keeping its key and its column. *)
Lemma unique_rewrite {R K} (column : R -> K) k r r' (t : gmap string R) :
  t !! k = Some r -> column r' = column r -> unique_by column t -> unique_by column (<[k := r']> t).
Proof. intros Hr Hc Hu i j x y Hx Hy Hxy. map_cases; try done; eapply Hu; (eassumption || congruence). Qed.

(** ** The account tables are well formed *)

(** The address a row is found by. *)
Definition user_address (u : UserRecord) : string := toLowerCase (u_email u).
Definition link_subject (r : UserIdentityRecord) : string * string * string := (ui_provider_id r, ui_issuer r, ui_subject r).
Definition link_provider (r : UserIdentityRecord) : string * string := (ui_user_id r, ui_provider_id r).
Definition organization_key (r : OrganizationRecord) : string := toLowerCase (og_name r).

(** Primary keys, unique indexes and foreign keys of the schema. *)
Record accounts_ok (u : user_table) (a : account_tables) : Prop := {
  ok_users : keyed u_id u;
  ok_sessions : keyed ss_id (ac_sessions a);
  ok_tokens : keyed vt_id (ac_tokens a);
  ok_links : keyed ui_id (ac_links a);
  ok_organizations : keyed og_id (ac_organizations a);
  ok_proofs : keyed ep_user_id (ac_proofs a);
  ok_locks : keyed pl_user_id (ac_locks a);
  ok_preferences : keyed np_user_id (ac_preferences a);
  ok_address : unique_by user_address u;
  ok_session_hash : unique_by ss_token_hash (ac_sessions a);
  ok_token_hash : unique_by vt_token_hash (ac_tokens a);
  ok_link_subject : unique_by link_subject (ac_links a);
  ok_link_provider : unique_by link_provider (ac_links a);
  ok_organization_name : unique_by organization_key (ac_organizations a);
  ok_session_user : refers ss_user_id (ac_sessions a) u;
  ok_token_user : refers vt_user_id (ac_tokens a) u;
  ok_link_user : refers ui_user_id (ac_links a) u;
  ok_proof_user : refers ep_user_id (ac_proofs a) u;
  ok_lock_user : refers pl_user_id (ac_locks a) u;
  ok_preferences_user : refers np_user_id (ac_preferences a) u;
  ok_claim_user : forall k at_, ac_claims a !! k = Some at_ -> is_Some (u !! k.1);
  ok_user_organization : forall i x o, u !! i = Some x -> u_org_id x = Some o -> is_Some (ac_organizations a !! o);
}.

Lemma email_taken_insert row u :
  keyed u_id u -> unique_by user_address u -> email_taken row u = false -> unique_by user_address (<[u_id row := row]> u).
Proof. intros Hk Hu Ht. eapply unique_insert; [done..| |exact Ht]. intros x Hx. by apply bool_decide_eq_true_2. Qed.

(** A row of an account that is there or new, under its address, in an
    organization that exists. *)
Lemma accounts_ok_put u a row :
  accounts_ok u a -> email_taken row u = false ->
  (forall o, u_org_id row = Some o -> is_Some (ac_organizations a !! o)) -> accounts_ok (<[u_id row := row]> u) a.
Proof.
  intros [] Ht Ho. split; try done.
  - by apply keyed_insert.
  - by apply email_taken_insert.
  - by apply refers_target.
  - by apply refers_target.
  - by apply refers_target.
  - by apply refers_target.
  - by apply refers_target.
  - by apply refers_target.
  - intros k at_ Hk. apply lookup_insert_is_Some'. right. by eapply ok_claim_user0.
  - intros i x o Hx Hxo. map_cases; [by apply Ho|by eapply ok_user_organization0].
Qed.

Lemma known_some u id : known u id = true -> is_Some (u !! id).
Proof. unfold known. intros. by bool_to_prop. Qed.
Lemma known_organization_some a id : known_organization a id = true -> is_Some (ac_organizations a !! id).
Proof. unfold known_organization. intros. by bool_to_prop. Qed.

Lemma accounts_ok_write u a id x patch at_ y u' :
  accounts_ok u a -> u !! id = Some x -> user_write (known_organization a) patch at_ x u = Ok (y, u') -> accounts_ok u' a.
Proof.
  intros Hok Hx (-> & -> & Ht & Ho)%user_write_ok. apply (accounts_ok_put _ _ _ Hok Ht). simpl. intros o Heq.
  destruct (up_org_id patch) as [[p|]|] eqn:Hp; simpl in Heq; [| done|by eapply ok_user_organization].
  injection Heq as <-. apply known_organization_some. by apply Ho.
Qed.

Lemma sessions_create_ok users row t r t' :
  sessions_create users row t = Ok (r, t') ->
  r = row /\ t' = <[ss_id row := row]> t /\ t !! ss_id row = None /\ session_taken row t = false /\ users (ss_user_id row) = true.
Proof. unfold sessions_create. intros (Hu & Hr & [= -> ->])%map_conflict_ok. by bool_to_prop. Qed.

Lemma tokens_create_ok users row t r t' :
  tokens_create users row t = Ok (r, t') ->
  r = row /\ t' = <[vt_id row := row]> t /\ t !! vt_id row = None /\ token_taken row t = false /\ users (vt_user_id row) = true.
Proof. unfold tokens_create. intros (Hu & Hr & [= -> ->])%map_conflict_ok. by bool_to_prop. Qed.

(** A row of a table whose key, unique column and reference are in order. *)
Lemma accounts_ok_session u a row :
  accounts_ok u a -> session_taken row (ac_sessions a) = false -> is_Some (u !! ss_user_id row) ->
  accounts_ok u (with_sessions (<[ss_id row := row]> (ac_sessions a)) a).
Proof.
  intros [] Ht Hu. split; try done; simpl.
  - by apply keyed_insert.
  - eapply unique_insert; [done..| |exact Ht]. intros x Hx. by apply bool_decide_eq_true_2.
  - by apply refers_insert.
Qed.

Lemma accounts_ok_token u a row :
  accounts_ok u a -> token_taken row (ac_tokens a) = false -> is_Some (u !! vt_user_id row) ->
  accounts_ok u (with_tokens (<[vt_id row := row]> (ac_tokens a)) a).
Proof.
  intros [] Ht Hu. split; try done; simpl.
  - by apply keyed_insert.
  - eapply unique_insert; [done..| |exact Ht]. intros x Hx. by apply bool_decide_eq_true_2.
  - by apply refers_insert.
Qed.

Lemma accounts_ok_organization u a row :
  accounts_ok u a -> organization_taken row (ac_organizations a) = false ->
  accounts_ok u (with_organizations (<[og_id row := row]> (ac_organizations a)) a).
Proof.
  intros [] Ht. split; try done; simpl.
  - by apply keyed_insert.
  - eapply unique_insert; [done..| |exact Ht]. intros x Hx. by apply bool_decide_eq_true_2.
  - intros i x o Hx Ho. apply lookup_insert_is_Some'. right. by eapply ok_user_organization0.
Qed.

Lemma links_create_ok users row t r t' :
  links_create users row t = Ok (r, t') ->
  r = row /\ t' = <[ui_id row := row]> t /\ t !! ui_id row = None /\ link_taken row t = false /\ users (ui_user_id row) = true.
Proof. unfold links_create. intros (Hu & Hr & [= -> ->])%map_conflict_ok. by bool_to_prop. Qed.

Lemma accounts_ok_link u a row :
  accounts_ok u a -> link_taken row (ac_links a) = false -> is_Some (u !! ui_user_id row) ->
  accounts_ok u (with_links (<[ui_id row := row]> (ac_links a)) a).
Proof.
  intros [] [Hs Hp]%orb_false_elim Hu. split; try done; simpl.
  - by apply keyed_insert.
  - refine (unique_insert ui_id link_subject _ row _ _ _ _ Hs); [done..|]. intros x [= -> -> ->]. by rewrite !bool_decide_eq_true_2.
  - refine (unique_insert ui_id link_provider _ row _ _ _ _ Hp); [done..|]. intros x [= -> ->]. by rewrite !bool_decide_eq_true_2.
  - by apply refers_insert.
Qed.

(** A rewrite of a row of an account that keeps what is unique and what it refers to. *)
Lemma accounts_ok_rewrite u a k x x' :
  accounts_ok u a -> u !! k = Some x -> u_id x' = u_id x -> user_address x' = user_address x -> u_org_id x' = u_org_id x ->
  accounts_ok (<[k := x']> u) a.
Proof.
  intros [] Hx Hid Ha Ho. pose proof (ok_users0 _ _ Hx) as Hk. split; try done; try (by apply refers_target).
  - apply keyed_write; [done|congruence].
  - by eapply unique_rewrite.
  - intros j at_ Hj. apply lookup_insert_is_Some'. right. by eapply ok_claim_user0.
  - intros i y o Hy Hyo. map_cases; [eapply ok_user_organization0; [exact Hx|congruence]|by eapply ok_user_organization0].
Qed.

#[export] Instance accounts_ok_invariant : AccountInvariant accounts_ok.
Proof.
  split.
  - intros u a t [] Hs. split; eauto using keyed_subset, unique_subset, refers_subset.
  - intros u a id s e now [] Hs. pose proof (ok_sessions0 _ _ Hs) as Hid. split; try done; simpl.
    + by apply keyed_write.
    + by eapply unique_rewrite.
    + apply refers_insert; [done|]. exact (ok_session_user0 _ _ Hs).
  - intros u a t [] Hs. split; eauto using keyed_subset, unique_subset, refers_subset.
  - intros u a id r at_ now [] Hr. pose proof (ok_tokens0 _ _ Hr) as Hid. split; try done; simpl.
    + by apply keyed_write.
    + by eapply unique_rewrite.
    + apply refers_insert; [done|]. exact (ok_token_user0 _ _ Hr).
  - intros u a row r t Hok (-> & -> & _ & Ht & Hu)%tokens_create_ok. apply accounts_ok_token; [done..|]. by apply known_some.
  - intros u a id purpose at_ [] Hu. split; try done; simpl. intros k at_' Hk. map_cases; [done|]. by eapply ok_claim_user0.
  - intros u a key at_ at_' [] Hc. split; try done; simpl. intros k at2 Hk. map_cases; by eapply ok_claim_user0.
  - intros u a id email method at_ t [] Hp. unfold proofs_upsert in Hp. destruct (known u id) eqn:Hu; [|done].
    injection Hp as <-. split; try done; simpl.
    + by apply keyed_write.
    + apply refers_insert; [done|]. by apply known_some.
  - intros u a id p at_ r t [] Hp. unfold preferences_upsert in Hp. destruct (known u id) eqn:Hu; [|done].
    injection Hp as _ <-. split; try done; simpl.
    + by apply keyed_write.
    + apply refers_insert; [done|]. by apply known_some.
  - intros u a row r t Hok Hc. unfold organizations_create in Hc.
    apply map_conflict_ok in Hc as (Hu & _ & [= -> ->]). bool_to_prop. by apply accounts_ok_organization.
  - intros u a id name description at_ r t Hok Hc. unfold organizations_update in Hc.
    destruct (ac_organizations a !! id) as [o|] eqn:Ho; [|by injection Hc as <- <-; destruct a].
    assert (Hw : forall o' y, og_id o' = og_id o -> map_conflict ORGANIZATION_CONFLICT (negb (organization_taken o' (ac_organizations a)))
      true (y, <[og_id o := o']> (ac_organizations a)) = Ok (r, t) -> accounts_ok u (with_organizations t a)).
    { intros o' y Hid (Hu & _ & [= _ ->])%map_conflict_ok. bool_to_prop. rewrite <- Hid. by apply accounts_ok_organization. }
    destruct name, description; try (by refine (Hw _ _ _ Hc)). by injection Hc as <- <-; destruct a.
  - intros u a row r t Hok (-> & -> & _ & Ht & Hu)%links_create_ok. apply accounts_ok_link; [done..|]. by apply known_some.
  - intros u a id email at_ now [] . unfold links_touchLogin. destruct (ac_links a !! id) as [r|] eqn:Hr; [|by destruct a].
    pose proof (ok_links0 _ _ Hr) as Hid. split; try done; simpl.
    + by apply keyed_write.
    + by eapply unique_rewrite.
    + by eapply unique_rewrite.
    + apply refers_insert; [done|]. exact (ok_link_user0 _ _ Hr).
  - intros u a t [] Hs. split; eauto using keyed_subset, unique_subset, refers_subset.
  - intros u a id providerId at_ t [] Hc. unfold locks_create in Hc.
    destruct (ac_locks a !! id) as [l|] eqn:Hl; [by injection Hc as <-; destruct a|].
    destruct (known u id) eqn:Hu; [|done]. injection Hc as <-. split; try done; simpl.
    + by apply keyed_write.
    + apply refers_insert; [done|]. by apply known_some.
  - intros u a id at_ now Hok. unfold users_touchLastLogin. destruct (u !! id) as [x|] eqn:Hx; [|done].
    by eapply accounts_ok_rewrite.
  - intros u a row r u' Hok (-> & _ & Ht & Hr & _)%users_create_ok. apply accounts_ok_put; [done..|]. intros o Ho.
    rewrite Ho in Hr. by apply known_organization_some.
  - intros u a id x patch at_ y u' Hok Hx _. by eapply accounts_ok_write.
Qed.

(** ** An active super admin *)

Definition seated (u : user_table) : Prop := exists k x, u !! k = Some x /\ active_super_admin x = true.

Definition super_admin_seated : account_pred := fun u _ => keyed u_id u /\ seated u.

(** A rewritten row that was no active super admin, or still is one. *)
Lemma seated_rewrite (u : user_table) x x' :
  u !! u_id x = Some x -> (active_super_admin x = true -> active_super_admin x' = true) ->
  seated u -> seated (<[u_id x := x']> u).
Proof.
  intros Hx Ha (k & y & Hy & Hsa). destruct (decide (k = u_id x)) as [->|Hne].
  - simplify_eq. exists (u_id x), x'. by rewrite lookup_insert_eq, Ha.
  - exists k, y. by rewrite lookup_insert_ne by done.
Qed.

Lemma standing_active patch at_ x :
  same_standing patch x -> active_super_admin (userUpdateColumns patch at_ x) = active_super_admin x.
Proof.
  unfold same_standing, active_super_admin. simpl. intros [Hr ->]. f_equal. by apply bool_decide_ext.
Qed.

(** The time of a sign-in leaves the standing of every account. *)
Lemma last_login_standing id at_ now (u : user_table) k x :
  u !! k = Some x -> exists x', users_touchLastLogin id at_ now u !! k = Some x'
    /\ u_id x' = u_id x /\ u_status x' = u_status x /\ u_role x' = u_role x.
Proof.
  intros Hx. unfold users_touchLastLogin. destruct (u !! id) as [y|] eqn:Hy; [|eauto].
  destruct (decide (k = id)) as [->|Hne].
  - rewrite lookup_insert_eq. simplify_eq. eexists. split; [done|]. done.
  - rewrite lookup_insert_ne by done. eauto.
Qed.

Lemma last_login_keyed id at_ now u : keyed u_id u -> keyed u_id (users_touchLastLogin id at_ now u).
Proof.
  intros Hk. unfold users_touchLastLogin. destruct (u !! id) as [x|] eqn:Hx; [|done].
  apply keyed_write; [done|]. exact (Hk _ _ Hx).
Qed.

#[export] Instance super_admin_seated_invariant : AccountInvariant super_admin_seated.
Proof.
  split; try (by intros).
  - intros u a id at_ now [Hk (k & x & Hx & Hsa)]. split; [by apply last_login_keyed|].
    destruct (last_login_standing id at_ now u k x Hx) as (x' & Hx' & _ & Hs & Hr). exists k, x'.
    unfold active_super_admin in *. by rewrite Hs, Hr.
  - intros u a row r u' [Hk (k & x & Hx & Hsa)] (-> & Hn & _)%users_create_ok. split; [by apply keyed_insert|].
    exists k, x. rewrite lookup_insert_ne; [done|]. intros <-. congruence.
  - intros u a id x patch at_ y u' [Hk Hs] Hx Hst (-> & -> & _)%user_write_ok. pose proof (Hk _ _ Hx) as Hid. simpl in Hid.
    subst id. split; [by apply keyed_write|]. apply seated_rewrite; [done| |done]. by rewrite standing_active.
Qed.

(** The other active super admins. *)
Definition seated_beside (id : string) (u : user_table) : Prop :=
  exists k x, u !! k = Some x /\ active_super_admin x = true /\ u_id x <> id.

Lemma count_beside id u :
  users_countActiveSuperAdmins (Some id) u <> 0 -> seated_beside id u.
Proof.
  unfold users_countActiveSuperAdmins. intros Hn. destruct (rows_where _ u) as [|x l] eqn:Hl; [done|].
  assert (Hx : x ∈ rows_where (fun x => active_super_admin x && asked (Some id) (fun i => bool_decide (u_id x <> i))) u).
  { rewrite Hl. apply list_elem_of_here. }
  apply rows_where_spec in Hx as (k & Hk & Hp). simpl in Hp. bool_to_prop. by exists k, x.
Qed.

(** ** No session of a disabled account *)

(** [except]: the account whose sessions are about to be ended. *)
Definition sessions_of_active_but (except : option string) : account_pred := fun u a =>
  keyed u_id u /\
  forall k s, ac_sessions a !! k = Some s -> Some (ss_user_id s) <> except ->
    exists x, u !! ss_user_id s = Some x /\ u_status x = UserActive.

Definition sessions_of_active : account_pred := sessions_of_active_but None.

#[export] Instance sessions_of_active_invariant except : AccountInvariant (sessions_of_active_but except).
Proof.
  split; try (by intros).
  - intros u a t [Hk Hs] Hsub. split; [done|]. intros k s Hks. apply (Hs k s). by eapply lookup_weaken.
  - intros u a id s e now [Hk Hs] Hid. split; [done|]. simpl. intros k s' Hks. map_cases; [by apply (Hs id s)|by apply (Hs k s')].
  - intros u a id at_ now [Hk Hs]. split; [by apply last_login_keyed|]. intros k s Hks He.
    destruct (Hs k s Hks He) as (x & Hx & Hst). destruct (last_login_standing id at_ now u _ x Hx) as (x' & Hx' & _ & Hs' & _).
    exists x'. by rewrite Hs'.
  - intros u a row r u' [Hk Hs] (-> & Hn & _)%users_create_ok. split; [by apply keyed_insert|].
    intros k s Hks He. destruct (Hs k s Hks He) as (x & Hx & Hst). exists x. rewrite lookup_insert_ne; [done|].
    intros Heq. rewrite <- Heq in Hx. congruence.
  - intros u a id x patch at_ y u' [Hk Hs] Hx [_ Hst] (-> & -> & _)%user_write_ok. pose proof (Hk _ _ Hx) as Hid. simpl in Hid.
    subst id. split; [by apply keyed_write|]. intros k s Hks He. destruct (Hs k s Hks He) as (z & Hz & Hsz).
    destruct (decide (ss_user_id s = u_id x)) as [Heq|Hne].
    + rewrite Heq in *. simplify_eq. rewrite lookup_insert_eq. eexists. split; [done|]. simpl. by rewrite Hst.
    + rewrite lookup_insert_ne by done. eauto.
Qed.

#[export] Instance sessions_of_active_invariant' : AccountInvariant sessions_of_active := sessions_of_active_invariant None.

(** ** The two transactions the predicates depend on *)

Section Transactions.
Context `{AuthDeps} `{UsersDeps} `{TeardownService} (config : NexusConfig) (env : nat -> turn).
Context (Hrule : forall h a r (Q : account_pred), assertManualAdminPromotionAllowed = Some h -> stays env true Q (h a r)).

(** A call that keeps every predicate of the accounts keeps what the caller
    knows beside it. *)
Lemma tells_untouched {A} (P : db -> Prop) (m : M A) :
  (forall Q : account_pred, stays env true Q m) ->
  (forall d d', d_users d' = d_users d -> d_accounts d' = d_accounts d -> P d -> P d') -> tells env P m (fun _ => P).
Proof.
  intros Hm HP. split; [by eapply stays_frame, (Hm (fun _ _ => True))|]. intros w a w' He Ht Hw Ha1.
  destruct (Hm (fun u a => u = d_users (w_db w) /\ a = d_accounts (w_db w))) as [_ Hs].
  specialize (Hs w He Ht (conj eq_refl eq_refl)). rewrite Ha1 in Hs. destruct (Hs (or_intror eq_refl)) as [Hu Ha].
  by apply (HP (w_db w)).
Qed.

Definition rule_checked (target : UserRecord) (p : UserPlan) : M unit :=
  match up_role (pl_update p), assertManualAdminPromotionAllowed with
  | Some role, Some rule =>
      if pl_roleChanged p && isElevated role && negb (roleAtLeast (role_name (u_role target)) (role_name role))
      then rule (u_id target) role else mret tt
  | _, _ => mret tt
  end.

Lemma rule_checked_stays target p (Q : account_pred) : stays env true Q (rule_checked target p).
Proof.
  unfold rule_checked. destruct (up_role (pl_update p)), assertManualAdminPromotionAllowed eqn:Hr;
    try apply stays_ret. case_match; [by apply Hrule|apply stays_ret].
Qed.

(** The rest of a transition, once the row was written. *)
Lemma transition_rest_stays (P : account_pred) `{!AccountInvariant P} actor target p ip row :
  stays env true P (do ended <- end_access actor target p;
    let '(job, sessions, links) := ended in
    do_ update_audits actor target p (update_details target p sessions links (bool_decide (is_Some job))) ip;
    mret (Some row : option UserRecord, job)).
Proof.
  apply stays_seq; [by apply end_access_stays|]. intros [[job n] m].
  apply stays_seq; [by apply update_audits_stays|]. intros _. apply stays_ret.
Qed.

(** What the transition found of the row it rewrites. *)
Lemma transition_match target y :
  user_matches {| ue_role := Some (u_role target); ue_status := Some (u_status target); ue_email := None;
                  ue_password_hash := None |} y = true -> u_role y = u_role target /\ u_status y = u_status target.
Proof. unfold user_matches. simpl. intros. by bool_to_prop. Qed.

Lemma transition_seated actor target p ip :
  pl_roleChanged p = bool_decide (is_Some (up_role (pl_update p))) ->
  stays env true super_admin_seated (transition_body actor target p ip).
Proof.
  intros Hp. apply stays_tells. unfold transition_body.
  eapply tells_bind; [apply tells_read|]. intros current. eapply tells_bind; [apply tells_ensure|]. intros [].
  set (guarded := fun d => on_accounts super_admin_seated d /\
         (pl_guardsLastSuperAdmin target p = true -> seated_beside (u_id target) (d_users d))).
  apply tells_bind with (R := fun _ => guarded).
  { destruct (pl_guardsLastSuperAdmin target p) eqn:Hg; [|apply tells_ret; intros d [[HP _] _]; by split].
    unfold others_count. eapply tells_bind; [apply tells_read|]. intros n.
    eapply tells_weaken; [apply tells_ensure|intros d Hd; exact Hd|]. intros [] d [[[[HP _] _] ->] Hn]. split; [done|]. intros _.
    bool_to_prop. by apply count_beside. }
  intros _. apply tells_skip.
  { apply (tells_untouched guarded (rule_checked target p)); [intros Q; apply rule_checked_stays|].
    unfold guarded, on_accounts. by intros d d' -> ->. }
  intros _. apply tells_bind with (R := fun _ => on_accounts super_admin_seated).
  - apply tells_statement. intros n d y d' [HP Hguard] Hu.
    destruct (users_updateIfMatches _ _ _ _ _ _) as [[y' rows]|e] eqn:Hw; [|done]. injection Hu as _ <-.
    apply users_updateIfMatches_ok in Hw as [[_ ->]|(x & Hx & Hm & [(_ & _ & ->)|[_ Hw]])]; [done..|].
    apply transition_match in Hm as [Hrole Hstatus]. apply user_write_ok in Hw as (_ & -> & _).
    destruct HP as [Hk Hs]. pose proof (Hk _ _ Hx) as Hid. simpl in Hid.
    split; [by apply keyed_write|]. simpl.
    destruct (pl_guardsLastSuperAdmin target p) eqn:Hg.
    + destruct (Hguard eq_refl) as (k & z & Hz & Hsa & Hne). exists k, z. rewrite lookup_insert_ne; [done|].
      intros <-. rewrite Hid in Hz. congruence.
    + apply seated_rewrite; [by rewrite Hid| |done]. unfold active_super_admin. simpl. intros Ha. bool_to_prop.
      unfold pl_guardsLastSuperAdmin, sets_status in Hg. rewrite Hp, <- Hrole, <- Hstatus, H2, H3 in Hg.
      destruct (up_role (pl_update p)); [done|].
      destruct (up_status (pl_update p)) as [[]|]; simpl; try rewrite H2; try rewrite H3; done.
  - intros [row|]; [|by apply tells_ret]. apply tells_stays. apply transition_rest_stays, _.
Qed.

Lemma session_end_tells id :
  tells env (on_accounts (sessions_of_active_but (Some id))) (session_deleteForUser id) (fun _ => on_accounts sessions_of_active).
Proof.
  apply tells_statement. intros n d a d' [Hk Hs] [= _ <-]. split; [done|]. intros k s Hks _. simpl in Hks.
  apply map_lookup_filter_Some in Hks as [Hks Hne]. bool_to_prop. apply (Hs k s Hks). intros [= Heq]. done.
Qed.

(** The sessions of the account that was written are ended before the transition
    commits, if it was disabled. *)
Lemma transition_rest_ends except actor target p ip row :
  except = (if sets_status UserDisabled p then Some (u_id target) else None) ->
  tells env (on_accounts (sessions_of_active_but except))
    (do ended <- end_access actor target p;
     let '(job, sessions, links) := ended in
     do_ update_audits actor target p (update_details target p sessions links (bool_decide (is_Some job))) ip;
     mret (Some row : option UserRecord, job)) (fun _ => on_accounts sessions_of_active).
Proof.
  intros ->. unfold end_access. destruct (sets_status UserDisabled p) eqn:Hd.
  2: { eapply tells_weaken; [apply tells_stays|done..].
       pose proof (transition_rest_stays sessions_of_active actor target p ip row) as Hr.
       unfold end_access in Hr. by rewrite Hd in Hr. }
  apply tells_bind with (R := fun _ => on_accounts sessions_of_active).
  - apply tells_bind with (R := fun _ => on_accounts sessions_of_active).
    + do 2 (apply tells_skip; [apply tells_stays; prove_stays|intros ?]).
      apply tells_bind with (R := fun _ => on_accounts sessions_of_active); [apply session_end_tells|].
      intros n. apply tells_stays. prove_stays.
    + intros [[job n] m]. apply tells_stays. prove_stays; by apply teardown_write_stays.
  - intros [[job n] m]. apply tells_stays. apply stays_seq; [by apply update_audits_stays|]. intros _. apply stays_ret.
Qed.

(** A transition leaves no session of an account it disables. *)
Lemma transition_sessions actor target p ip :
  stays env true sessions_of_active (transition_body actor target p ip).
Proof.
  apply stays_tells. unfold transition_body.
  eapply tells_bind; [apply tells_read|]. intros current. eapply tells_bind; [apply tells_ensure|]. intros [].
  apply tells_bind with (R := fun _ => on_accounts sessions_of_active).
  { eapply tells_weaken; [apply tells_stays|intros d [[HP _] _]; exact HP|done]. unfold others_count. prove_stays. }
  intros _. apply tells_skip; [apply tells_stays, rule_checked_stays|]. intros _.
  set (except := if sets_status UserDisabled p then Some (u_id target) else None).
  apply tells_bind with (R := fun row d => match row with
    | Some _ => on_accounts (sessions_of_active_but except) d | None => on_accounts sessions_of_active d end).
  - apply tells_statement. intros n d y d' HP Hu.
    destruct (users_updateIfMatches _ _ _ _ _ _) as [[y' rows]|e] eqn:Hw; [|done]. injection Hu as <- <-.
    apply users_updateIfMatches_ok in Hw as [[-> ->]|(x & Hx & _ & Hw)]; [done|].
    assert (Hall : on_accounts (sessions_of_active_but except) d).
    { destruct HP as [Hk Hs]. split; [done|]. intros k s Hks _. by apply (Hs k s). }
    destruct Hw as [(_ & -> & ->)|[_ Hw]]; [done|]. apply user_write_ok in Hw as (-> & -> & _).
    destruct Hall as [Hk Hs]. pose proof (Hk _ _ Hx) as Hid. simpl in Hid. split; [by apply keyed_write|]. simpl.
    intros k s Hks He. destruct (Hs k s Hks He) as (z & Hz & Hsz). destruct (decide (ss_user_id s = u_id x)) as [Heq|Hne].
    + rewrite Heq, lookup_insert_eq. eexists. split; [done|]. simpl. rewrite Heq, Hid in Hz. simplify_eq.
      unfold except, sets_status in He. destruct (up_status (pl_update p)) as [[]|]; simpl; [done| |done].
      rewrite bool_decide_eq_true_2 in He by done. congruence.
    + rewrite lookup_insert_ne by done. eauto.
  - intros [row|]; [|by apply tells_ret]. by apply transition_rest_ends.
Qed.

(** A session is made of an account that is there, and active. *)
Definition with_active (id : string) : account_pred := fun u a =>
  sessions_of_active u a /\ exists x, u !! id = Some x /\ u_status x = UserActive.

Lemma issueSession_sessions user context :
  tells env (on_accounts (with_active (u_id user))) (issueSession config user context) (fun _ => on_accounts sessions_of_active).
Proof.
  unfold issueSession, newSessionToken, isoInSeconds.
  do 3 (apply tells_skip; [apply tells_untouched;
    [intros Q; prove_stays|unfold on_accounts; by intros d d' -> ->]|intros ?]).
  apply tells_bind with (R := fun _ => on_accounts sessions_of_active); [|by intros s; apply tells_ret].
  apply tells_statement. intros n d s d' [[Hk Hs] Hrow] Hc.
  destruct (sessions_create _ _ _) as [[r rows]|e] eqn:Hcr; [|done]. injection Hc as _ <-.
  apply sessions_create_ok in Hcr as (-> & -> & _). split; [done|]. simpl. intros k s' Hks He.
  map_cases; [exact Hrow|by apply (Hs k s')].
Qed.

(** A sign-in makes a session of the row it found active. *)
Lemma login_commit_sessions verified context at_ :
  stays env true sessions_of_active (login_commit config verified context at_).
Proof.
  apply stays_tells. unfold login_commit.
  apply tells_skip; [apply tells_stays; unfold login_eligible, readRegistrationPolicy; prove_stays;
                     by apply localPasswordBlocked_stays|]. intros breakGlass.
  apply tells_bind with (R := fun row d => on_accounts sessions_of_active d /\
    forall r, row = Some r -> d_users d !! u_id r = Some r /\ u_status r = UserActive).
  - apply tells_statement. intros n d y d' HP Hu.
    destruct (users_updateIfMatches _ _ _ _ _ _) as [[y' rows]|e] eqn:Hw; [|done]. injection Hu as <- <-.
    apply users_updateIfMatches_ok in Hw as [[-> ->]|(x & Hx & Hm & [(? & _)|[_ Hw]])]; [done|done|].
    assert (Hst : same_standing (signed_in_at at_) x) by done.
    pose proof (ai_details (P := sessions_of_active) _ _ _ x _ _ _ _ HP Hx Hst Hw) as HP'. split; [exact HP'|].
    apply user_write_ok in Hw as (-> & -> & _). intros r [= <-]. simpl. split; [apply lookup_insert_eq|].
    unfold user_matches in Hm. simpl in Hm. by bool_to_prop.
  - intros [row|]; [|apply tells_throw]. apply tells_bind with (R := fun _ => on_accounts sessions_of_active);
      [|by intros issued; apply tells_ret].
    eapply tells_weaken; [apply issueSession_sessions|intros d [HP Hrow]|done]. split; [done|]. exists row. by apply Hrow.
Qed.
End Transactions.

(** ** The two transactions of single sign-on *)

#[export] Instance with_active_invariant id : AccountInvariant (with_active id).
Proof.
  split; try (by intros; match goal with HP : with_active _ _ _ |- _ => destruct HP as [HP Ha]; split;
                [first [by eapply ai_sessions|by eapply ai_touch|by eapply ai_tokens|by eapply ai_used
                       |by eapply ai_token_create|by eapply ai_claim|by eapply ai_reclaim|by eapply ai_proof
                       |by eapply ai_preferences|by eapply ai_organization_create|by eapply ai_organization_update
                       |by eapply ai_link_create|by eapply ai_link_touch|by eapply ai_links|by eapply ai_lock_create]|done] end).
  - intros u a k at_ now [HP (x & Hx & Hst)]. split; [by apply ai_last_login|].
    destruct (last_login_standing k at_ now u id x Hx) as (x' & Hx' & _ & Hs & _). exists x'. by rewrite Hs.
  - intros u a row r u' [HP (x & Hx & Hst)] Hc. split; [by eapply ai_create|].
    apply users_create_ok in Hc as (-> & Hn & _). exists x. rewrite lookup_insert_ne; [done|]. intros <-. congruence.
  - intros u a k x patch at_ y u' [HP (z & Hz & Hst)] Hx Hs Hw. split; [by eapply ai_details|].
    apply user_write_ok in Hw as (_ & -> & _). pose proof (proj1 HP _ _ Hx) as Hid. simpl in Hid. destruct Hs as [_ Hs].
    destruct (decide (u_id x = id)) as [<-|Hne].
    + rewrite lookup_insert_eq. eexists. split; [done|]. simpl. rewrite Hs. congruence.
    + rewrite lookup_insert_ne by done. eauto.
Qed.

Section SsoTransactions.
Context `{AuthDeps} `{SsoDeps} (config : NexusConfig) (env : nat -> turn).

(** *** A sign-in *)

Lemma plan_account_tells id initiating :
  tells env (on_accounts sessions_of_active) (plan_account config id initiating)
    (fun current => on_accounts (with_active (u_id current))).
Proof.
  unfold plan_account. eapply tells_bind; [apply tells_read|]. intros [current|]; [|apply tells_throw].
  case_bool_decide as Hst; simpl; [|apply tells_throw].
  set (known := fun d => on_accounts sessions_of_active d /\ Some current = users_findById id (d_users d)).
  assert (Hk : forall d, known d -> on_accounts (with_active (u_id current)) d).
  { intros d [HP Hc]. symmetry in Hc. pose proof (proj1 HP _ _ Hc) as Hid. simpl in Hid. split; [done|]. exists current.
    by rewrite Hid. }
  destruct initiating as [s|]; [|by apply tells_ret].
  eapply tells_weaken; [|exact Hk|intros a d Hd; exact Hd].
  apply tells_skip; [apply tells_stays; unfold_reads; apply stays_read; done|]. intros session.
  apply tells_skip; [apply tells_stays, stays_date_now|]. intros now.
  destruct session; [|apply tells_throw]. apply tells_bind with (R := fun _ => on_accounts (with_active (u_id current)));
    [eapply tells_weaken; [apply tells_ensure|done|by intros ? d []]|]. intros _. by apply tells_ret.
Qed.

Lemma apply_change_tells user change :
  u_role user <> super_admin ->
  tells env (on_accounts (with_active (u_id user))) (apply_change user change)
    (fun changed d => on_accounts (with_active (u_id user)) d /\ u_id changed.1 = u_id user).
Proof.
  intros Hn. unfold apply_change.
  apply tells_bind with (R := fun row d => on_accounts (with_active (u_id user)) d /\
    forall r, row = Some r -> u_id r = u_id user).
  - apply tells_statement. intros n d y d' HP Hu.
    destruct (users_updateIfMatches _ _ _ _ _ _) as [[y' rows]|e] eqn:Hw; [|done]. injection Hu as <- <-.
    apply users_updateIfMatches_ok in Hw as [[-> ->]|(x & Hx & Hm & Hw)]; [by split|].
    pose proof (proj1 (proj1 HP) _ _ Hx) as Hid. simpl in Hid.
    destruct Hw as [(_ & -> & ->)|[_ Hw]]; [split; [done|by intros r [= <-]]|].
    assert (Hr : u_role x = u_role user) by (unfold user_matches in Hm; simpl in Hm; by bool_to_prop).
    split.
    + refine (ai_details (P := with_active (u_id user)) _ _ _ x _ _ _ _ HP Hx _ Hw). split; [|done]. simpl. rewrite Hr.
      destruct (cp_role change) as [[]|]; simpl; done.
    + apply user_write_ok in Hw as (-> & _). intros r [= <-]. by rewrite <- Hid.
  - intros [row|]; [|apply tells_throw]. set (found := fun d => on_accounts (with_active (u_id user)) d /\ _).
    assert (Hf : forall d, found d -> on_accounts (with_active (u_id user)) d /\ u_id row = u_id user).
    { intros d [HP Hid]. split; [done|]. by apply Hid. }
    destruct (raises_role user change); [|by apply tells_ret].
    apply tells_bind with (R := fun _ => found); [|intros n; by apply tells_ret].
    split; [unfold session_deleteForUser; auto with nexus|]. intros w a w' He Ht [HP Hid] Hd.
    destruct (tells_stays env (with_active (u_id user)) _ (stays_session_deleteForUser env _ true ltac:(done) (u_id user)))
      as [_ Hs]. split; [by eapply Hs|done].
Qed.

Lemma sync_claims_tells user settings who orgExists stored context :
  tells env (on_accounts (with_active (u_id user))) (sync_claims config user settings who orgExists stored context)
    (fun updated d => on_accounts (with_active (u_id user)) d /\ u_id updated = u_id user).
Proof.
  unfold sync_claims, lowerTrustProviders. apply tells_skip; [apply tells_stays; prove_stays|]. intros withheld.
  assert (Hc : forall change, match withheld with
      | [] => planClaimsChange user (si_mapping who) settings orgExists
      | _ => without_role (planClaimsChange user (si_mapping who) settings orgExists) end = Some change ->
      u_role user <> super_admin).
  { intros change Hc. destruct withheld; [by eapply planned_not_super|].
    apply without_role_some in Hc as [c Hc]. by eapply planned_not_super. }
  assert (Hrest : forall change : option ClaimsPatch,
    (forall c, change = Some c -> u_role user <> super_admin) ->
    tells env (on_accounts (with_active (u_id user)))
      (do updated <- match change with Some change => apply_change user change | None => mret (user, None) end;
       do_ audit_record SYSTEM_ACTOR "auth.sso_claims_sync" (on_user (u_id user))
             (sync_details settings who user (planClaimsChange user (si_mapping who) settings orgExists) change withheld updated.2)
             (rc_ip context);
       mret updated.1)
      (fun updated d => on_accounts (with_active (u_id user)) d /\ u_id updated = u_id user)).
  { intros change Hch. eapply tells_bind with (R := fun changed d => on_accounts (with_active (u_id user)) d /\ u_id changed.1 = u_id user).
    - destruct change as [c|]; [apply apply_change_tells; by eapply Hch|by apply tells_ret].
    - intros updated. apply tells_bind with (R := fun _ d => on_accounts (with_active (u_id user)) d /\ u_id updated.1 = u_id user);
        [|by intros row; apply tells_ret].
      apply tells_untouched; [intros Q; by apply stays_audit_record|]. unfold on_accounts. by intros d d' -> ->. }
  destruct (match withheld with [] => _ | _ => _ end) as [change|] eqn:Hch.
  - apply (Hrest (Some change)). intros c [= <-]. by eapply Hc.
  - destruct withheld; [by apply tells_ret|]. by apply (Hrest None).
Qed.

Lemma provision_account_tells settings who hash orgExists at_ context :
  tells env (on_accounts sessions_of_active) (provision_account settings who hash orgExists at_ context)
    (fun opened => on_accounts (with_active (u_id opened.1))).
Proof.
  unfold provision_account. destruct (si_email who) as [email|]; [|apply tells_throw].
  destruct (cm_role (si_mapping who)) as [role|]; [|apply tells_throw].
  apply tells_bind with (R := fun user => on_accounts (with_active (u_id user))).
  - apply tells_statement. intros n d user d' HP Hu.
    destruct (users_create _ _ _) as [[r rows]|e] eqn:Hc; [|done]. injection Hu as <- <-. split.
    + exact (ai_create (P := sessions_of_active) _ _ _ _ _ HP Hc).
    + apply users_create_ok in Hc as (-> & _ & _ & _ & _ & _ & Hst & _). exists r. simpl. by rewrite lookup_insert_eq.
  - intros user. do 4 (apply tells_skip; [apply tells_stays; prove_stays|intros ?]). by apply tells_ret.
Qed.

Lemma open_account_tells plan settings who hash orgExists at_ stored context :
  tells env (on_accounts sessions_of_active) (open_account config plan settings who hash orgExists at_ stored context)
    (fun opened => on_accounts (with_active (u_id opened.1))).
Proof.
  unfold open_account. destruct plan as [user identity initiating|user explicit initiating|];
    [| |apply provision_account_tells]; eapply tells_bind; try apply plan_account_tells; intros current.
  - apply tells_skip; [apply tells_stays, touch_identity_stays, _|]. intros identityId.
    eapply tells_bind; [apply sync_claims_tells|]. intros updated. apply tells_ret. simpl. by intros d [HP ->].
  - apply tells_skip; [apply tells_stays, link_account_stays, _|]. intros identityId.
    eapply tells_bind; [apply sync_claims_tells|]. intros updated. apply tells_ret. simpl. by intros d [HP ->].
Qed.

Lemma sign_in_commit_sessions plan settings who hash orgExists at_ context :
  stays env true sessions_of_active (sign_in_commit config plan settings who hash orgExists at_ context).
Proof.
  apply stays_tells. unfold sign_in_commit.
  apply tells_skip; [by apply tells_stays, currentSettings_stays|]. intros stored.
  apply tells_skip; [apply tells_stays, check_domains_stays|]. intros _.
  eapply tells_bind; [apply open_account_tells|]. intros opened. simpl.
  apply tells_skip; [apply tells_stays; prove_stays|]. intros _.
  apply tells_bind with (R := fun _ => on_accounts sessions_of_active); [apply issueSession_sessions|].
  intros issued. apply tells_stays. prove_stays.
Qed.

(** *** Access lost *)

Lemma deprovision_commit_stays (P : account_pred) `{!AccountInvariant P} user settings subject context :
  (forall u a x at_ y u', P u a -> u !! u_id x = Some x -> u_status x = UserActive -> u_role x <> super_admin ->
     user_write (known_organization a) (status_patch UserDisabled) at_ x u = Ok (y, u') -> keyed u_id u -> P u' a) ->
  (forall u a, P u a -> keyed u_id u) ->
  stays env true P (deprovision_commit config user settings subject context).
Proof.
  intros Hw Hk. unfold deprovision_commit. apply stays_seq; [by apply currentSettings_stays|]. intros stored.
  destruct (negb _); [prove_stays|]. apply stays_seq; [prove_stays|]. intros [current|]; [|prove_stays].
  destruct (negb _ || _) eqn:Hg; [prove_stays|].
  apply stays_seq; [|intros [row|]; prove_stays]. apply stays_statement; [done|]. intros t d y d' HP Hu.
  destruct (users_updateIfMatches _ _ _ _ _ _) as [[y' rows]|e] eqn:He; [|done]. injection Hu as _ <-.
  apply users_updateIfMatches_ok in He as [[_ ->]|(x & Hx & Hm & [(_ & _ & ->)|[_ He]])]; [done..|].
  pose proof (Hk _ _ HP _ _ Hx) as Hid. simpl in Hid. unfold user_matches in Hm. simpl in Hm. bool_to_prop.
  eapply Hw; [exact HP|by rewrite Hid|done| |exact He|by eapply Hk]. congruence.
Qed.

Lemma deprovision_ok user settings subject context :
  stays env true accounts_ok (deprovision_commit config user settings subject context).
Proof.
  apply deprovision_commit_stays; [apply _| |intros u a Hok; apply Hok].
  intros u a x at_ y u' Hok Hx _ _ Hw _. by eapply accounts_ok_write.
Qed.

Lemma deprovision_seated user settings subject context :
  stays env true super_admin_seated (deprovision_commit config user settings subject context).
Proof.
  apply deprovision_commit_stays; [apply _| |intros u a HP; apply HP].
  intros u a x at_ y u' [Hk Hs] Hx _ Hr (_ & -> & _)%user_write_ok _. split; [by apply keyed_write|].
  apply seated_rewrite; [done| |done]. unfold active_super_admin. intros Ha. by bool_to_prop.
Qed.

Lemma deprovision_sessions user settings subject context :
  stays env true sessions_of_active (deprovision_commit config user settings subject context).
Proof.
  apply stays_tells. unfold deprovision_commit. apply tells_skip; [by apply tells_stays, currentSettings_stays|]. intros stored.
  destruct (negb _); [by apply tells_ret|].
  apply tells_skip; [apply tells_stays; prove_stays|]. intros [current|]; [|by apply tells_ret].
  destruct (negb _ || _); [by apply tells_ret|].
  apply tells_bind with (R := fun row d => match row with
    | Some _ => on_accounts (sessions_of_active_but (Some (u_id current))) d | None => on_accounts sessions_of_active d end).
  - apply tells_statement. intros n d y d' HP Hu.
    destruct (users_updateIfMatches _ _ _ _ _ _) as [[y' rows]|e] eqn:Hw; [|done]. injection Hu as <- <-.
    apply users_updateIfMatches_ok in Hw as [[-> ->]|(x & Hx & _ & Hw)]; [done|].
    destruct Hw as [(? & _)|[_ Hw]]; [done|]. apply user_write_ok in Hw as (-> & -> & _).
    destruct HP as [Hk Hs]. pose proof (Hk _ _ Hx) as Hid. simpl in Hid. split; [by apply keyed_write|]. simpl.
    intros k s Hks He. destruct (Hs k s Hks) as (z & Hz & Hsz); [done|]. exists z. rewrite lookup_insert_ne; [done|].
    rewrite Hid. intros Heq. rewrite Heq in He. done.
  - intros [row|]; [|by apply tells_ret].
    do 2 (apply tells_skip; [apply tells_stays; prove_stays|intros ?]).
    apply tells_bind with (R := fun _ => on_accounts sessions_of_active); [apply session_end_tells|].
    intros n. apply tells_stays. prove_stays.
Qed.
End SsoTransactions.
