(* ===== verification/AccountService.v ===== *)
(** * The accounts under every schedule

    A process serves calls of [Auth], [AuthPlugin], [UsersService] and [SsoService] one after
    another, beside any number of others, and [AccountInvariants] holds after each
    of them. *)

From S2P Require Import Prelude Json Roles Users JobQueues AuditLog AccessTables AccountTables SsoSettings World AccessStore AccountStore LeaseFence KeyedSerializer Provisioner TeardownWorker Auth AuthPlugin UsersService Crypto Sso SsoService AccountLogic AccountPrograms AccountInvariants.
Open Scope Z_scope.

(** ** Calls *)

Inductive account_call : Type :=
| CallRegister (input : RegisterInput) (context : RequestContext)
| CallLogin (input : LoginInput) (context : RequestContext)
| CallLogout (session : option SessionRecord) (user : option UserRecord) (context : RequestContext)
| CallVerifyEmail (token : string) (context : RequestContext)
| CallResendVerification (email : string) (context : RequestContext)
| CallForgotPassword (email : string) (context : RequestContext)
| CallResetPassword (token newPassword : string) (context : RequestContext)
| CallRequestHooks (request : HttpRequest)
| CallExpirySweep
| CallUpdateMe (user : UserRecord) (patch : UpdateMeInput) (context : RequestContext)
| CallPreferences (user : UserRecord) (in_app email : option bool) (ip : option string)
| CallRetryTeardown (actor : UserRecord) (targetId : string) (ip : option string)
| CallReleaseAddress (actor : UserRecord) (targetId email : string) (ip : option string)
| CallUpdateUser (actor : UserRecord) (targetId : string) (patch : UpdateUserInput) (ip : option string)
| CallCreateOrganization (actor : UserRecord) (name : string) (description ip : option string)
| CallUpdateOrganization (actor : UserRecord) (id : string) (name : option string) (description : option (option string))
    (ip : option string)
| CallSsoStart (providerId : string) (returnTo : option string)
| CallSsoLink (providerId : string) (current : SsoCurrentSession)
| CallSsoCallback (providerId : string) (query : SsoCallbackQuery) (cookie : option string)
    (current : option SsoCurrentSession) (context : RequestContext)
| CallSsoSettings (actorId : string) (actorRole : option Role) (patch : UpdateSsoSettingsRequest) (ip : option string)
| CallSsoUnlink (actor : UserRecord) (userId identityId : string) (ip : option string).

Section Calls.
Context `{AuthDeps} `{UsersDeps} `{TeardownService} `{SsoDeps} (config : NexusConfig).

(** The answer of the caller is not looked at: only what it leaves. *)
Definition serve (call : account_call) : M unit :=
  match call with
  | CallRegister input context => do_ register config input context; mret tt
  | CallLogin input context => do_ login config input context; mret tt
  | CallLogout session user context => logout session user context
  | CallVerifyEmail token context => do_ verifyEmail token context; mret tt
  | CallResendVerification email context => resendVerification email context
  | CallForgotPassword email context => requestPasswordReset config email context
  | CallResetPassword token newPassword context => resetPassword config token newPassword context
  | CallRequestHooks request => do_ resolve_request config request; mret tt
  | CallExpirySweep => do_ expiry_tick; mret tt
  | CallUpdateMe user patch context => do_ updateMe config user patch context; mret tt
  | CallPreferences user in_app email ip => do_ updateNotificationPreferences user in_app email ip; mret tt
  | CallRetryTeardown actor targetId ip => do_ retryGatewayTeardown actor targetId ip; mret tt
  | CallReleaseAddress actor targetId email ip => do_ releaseAddress actor targetId email ip; mret tt
  | CallUpdateUser actor targetId patch ip => do_ updateUser actor targetId patch ip; mret tt
  | CallCreateOrganization actor name description ip => do_ createOrganization actor name description ip; mret tt
  | CallUpdateOrganization actor id name description ip => do_ updateOrganization actor id name description ip; mret tt
  | CallSsoStart providerId returnTo => do_ start config providerId returnTo; mret tt
  | CallSsoLink providerId current => do_ startLink config providerId current; mret tt
  | CallSsoCallback providerId query cookie current context => do_ callback config providerId query cookie current context; mret tt
  | CallSsoSettings actorId actorRole patch ip => do_ updateAdminSettings config actorId actorRole patch ip; mret tt
  | CallSsoUnlink actor userId identityId ip => unlinkIdentity actor userId identityId ip
  end.

(** One call after another, whatever became of the one before. *)
Fixpoint serve_all (calls : list account_call) (w : world) : world :=
  match calls with
  | [] => w
  | call :: rest => serve_all rest (serve call w).2
  end.

(** The calls that make no session outside the transaction that checks the
    account: [register], and [updateMe] with a new password, issue one after their
    commit. *)
Definition issues_unguarded (call : account_call) : bool :=
  match call with
  | CallRegister _ _ => true
  | CallUpdateMe _ patch _ => bool_decide (is_Some (um_new_password patch))
  | _ => false
  end.

Section Invariant.
Context (env : nat -> turn) (P : account_pred) `{!AccountInvariant P} (HR : account_rivals env P) (Hdeps : deps_stay env P).
Context (Hsso : sso_deps_stay env P).
Context (Hsign_in : forall plan settings who hash orgExists at_ context,
  stays env true P (sign_in_commit config plan settings who hash orgExists at_ context)).
Context (Hdeprovision : forall user settings subject context,
  stays env true P (deprovision_commit config user settings subject context)).
Context (Hlogin : forall verified context at_, stays env true P (login_commit config verified context at_)).
Context (Htransition : forall actor target p ip,
  pl_roleChanged p = bool_decide (is_Some (up_role (pl_update p))) -> stays env true P (transition_body actor target p ip)).

Lemma serve_stays call :
  (issues_unguarded call = true -> forall tx user context, stays env tx P (issueSession config user context)) ->
  stays env false P (serve call).
Proof.
  intros Hissue. destruct call; simpl in *; repeat (apply stays_seq; [|intros; apply stays_ret]).
  - by apply register_stays; auto.
  - by apply login_stays.
  - by apply logout_stays.
  - by apply verifyEmail_stays.
  - by apply resendVerification_stays.
  - by apply requestPasswordReset_stays.
  - by apply resetPassword_stays.
  - by apply resolve_request_stays.
  - by apply expiry_tick_stays.
  - apply updateMe_stays; [done..|]. destruct (um_new_password patch); [right|by left]. intros user'. by apply Hissue.
  - by apply updateNotificationPreferences_stays.
  - by apply retryGatewayTeardown_stays.
  - by apply releaseAddress_stays.
  - apply updateUser_stays; [done..|]. intros target p Hp. apply Htransition. by eapply plan_user_answer.
  - by apply createOrganization_stays.
  - by apply updateOrganization_stays.
  - by apply start_stays.
  - by apply startLink_stays.
  - apply callback_stays; [done..|]. intros a b. by apply disable_stays.
  - by apply updateAdminSettings_stays.
  - by apply unlinkIdentity_stays.
Qed.

Lemma serve_all_stays calls w :
  (forall call, call ∈ calls -> issues_unguarded call = true ->
     forall tx user context, stays env tx P (issueSession config user context)) ->
  w_env w = env -> w_tx w = false -> on_accounts P (w_db w) -> on_accounts P (w_db (serve_all calls w)).
Proof.
  revert w. induction calls as [|call rest IH]; intros w Hissue He Ht HP; [done|]. simpl.
  destruct (serve_stays call (Hissue call (list_elem_of_here _ _))) as [Hf Hs]. destruct (Hf w) as (He' & Ht' & _).
  apply IH; [|congruence..|apply Hs; auto]. intros call' Hin. apply Hissue. by apply list_elem_of_further.
Qed.
End Invariant.
End Calls.

(** ** A sample portal, for the witnesses *)

#[export] Instance sample_auth : AuthDeps := {|
  hashToken := fun token => "hash of " +:+ token;
  sha256 := fun s => s;
  hashPassword := fun password => mret ("scrypt " +:+ password);
  verifyPassword := fun password hash => mret (bool_decide (hash = "scrypt " +:+ password));
  captcha_verify := fun _ _ => mret CaptchaVerified;
  onRegistered := None;
  prepareVerificationResend := None;
  preparePasswordReset := Some (fun _ _ _ => mret (fun _ => mret tt));
  onFirstEmailProof := None;
|}.
(** A cipher that seals nothing, and a provider whose codes are the claims they
    stand for. *)
#[export] Instance sample_sso : SsoDeps := {|
  discover := fun issuer => mret {| dd_issuer := issuer; dd_authorization_endpoint := issuer +:+ "/authorize";
                                    dd_token_endpoint := issuer +:+ "/token"; dd_jwks_uri := issuer +:+ "/keys" |};
  exchangeCode := fun input => mret {| ts_idToken := ce_code input; ts_accessToken := None |};
  validateIdToken := fun input =>
    match JSON_parse (iv_idToken input) with
    | Some (JObj claims) => mret claims
    | _ => refuse TokenInvalid "The ID token is not valid"
    end;
  authorizationUrl := fun request => dd_authorization_endpoint (az_discovery request) +:+ "?state=" +:+ az_state request;
  pkceChallenge := fun verifier => verifier;
  parse_URL := fun text => Some {| url_username := ""; url_password := ""; url_hash := ""; url_protocol := "https:";
                                   url_hostname := text |};
  nexusCrypto := {|
    encryptJson := fun key value _ => key +:+ json_stringify value;
    decryptJson := fun key blob =>
      if startsWith key blob
      then match JSON_parse (slice_from (String.length key) blob) with Some v => Ok v | None => Throw (driverError "unreadable") end
      else Throw (driverError "unreadable");
    decryptLegacySetting := fun _ _ => Throw (driverError "unreadable");
    sealOutbox := fun value _ _ => json_stringify value;
    openOutbox := fun _ _ => Throw (driverError "unreadable");
    sealSsoTransaction := fun value _ => json_stringify value;
    openSsoTransaction := fun blob => match JSON_parse blob with Some v => Ok v | None => Throw (driverError "unreadable") end |};
  publicUrl := "https://portal.example.org";
  allowHttpLoopback := false;
|}.
#[export] Instance sample_users : UsersDeps := {|
  restore_gateway_access := fun _ _ => mret tt;
  notify_user := fun _ _ _ _ _ => mret tt;
  assertManualAdminPromotionAllowed := None;
|}.
#[export] Instance sample_gateway : TeardownService := {|
  disableGatewayAccess := fun _ _ => mret {| gt_consumer_id := None; gt_revoked_credentials := 0;
                                             gt_removed_groups := []; gt_deleted_consumers := [] |};
|}.

Lemma sample_deps_stay env P : deps_stay env P.
Proof.
  split; simpl; intros; simplify_eq; try apply stays_ret.
  match goal with Hq : can_answer _ _ |- _ => destruct Hq as (w & w' & [= <- _]) end. apply stays_ret.
Qed.

Lemma sample_sso_stay env P : sso_deps_stay env P.
Proof.
  split; simpl; intros; [apply stays_ret..|]. unfold refuse. repeat case_match; first [apply stays_ret|apply stays_throw].
Qed.

Lemma sample_hash_frame s : frame (hashPassword s).
Proof. apply frame_ret. Qed.
Lemma sample_verify_frame s h : frame (verifyPassword s h).
Proof. apply frame_ret. Qed.
Lemma sample_captcha_frame t ip : frame (captcha_verify t ip).
Proof. apply frame_ret. Qed.

Definition sample_config : NexusConfig := {|
  sessionTtlSeconds := 3600;
  sessionMaxAgeSeconds := 7200;
  bootstrapToken := Some "founders"%string;
  sso := {| sc_providers := []; sc_breakGlassLocalLogin := false |};
|}.

Definition sample_context : RequestContext := {| rc_ip := Some "203.0.113.7"%string; rc_userAgent := None |}.
Definition sample_registration (email : string) (token : option string) : RegisterInput := {|
  ri_email := email; ri_password := "correct horse battery"; ri_display_name := "A holder"; ri_role := client;
  ri_company := None; ri_phone := None; ri_captcha_token := None; ri_bootstrap_token := token;
|}.
Definition sample_empty : world := world_of db_empty sample_turn [].

(** The founder, then a client. *)
Definition sample_founding : list account_call :=
  [CallRegister (sample_registration "root@example.org" (Some "founders"%string)) sample_context;
   CallRegister (sample_registration "Client@Example.org " None) sample_context].
Definition sample_founded : world := serve_all sample_config sample_founding sample_empty.

Definition account_of (email : string) (w : world) : option UserRecord := users_findByEmail email (d_users (w_db w)).
Definition sessions_of (email : string) (w : world) : list SessionRecord :=
  match account_of email w with
  | Some u => rows_where (fun s => bool_decide (ss_user_id s = u_id u)) (ac_sessions (d_accounts (w_db w)))
  | None => []
  end.

Definition sample_login (email password : string) : account_call :=
  CallLogin {| li_email := email; li_password := password; li_captcha_token := None |} sample_context.
Definition sample_root : UserRecord := default (registered_user
  {| rd_email := ""; rd_passwordHash := ""; rd_displayName := ""; rd_role := client; rd_company := None; rd_phone := None;
     rd_requireEmailVerification := false; rd_ip := None; rd_captchaBypassed := false |} false "" 0)
  (account_of "root@example.org" sample_founded).
Definition sample_client_id : string := default ""%string (u_id <$> account_of "client@example.org" sample_founded).
Definition sample_change (role : option Role) (status : option UserStatus) : UpdateUserInput := {|
  uu_role := role; uu_status := status; uu_org_id := None; uu_display_name := None;
|}.
Definition sample_disable : account_call :=
  CallUpdateUser sample_root sample_client_id (sample_change None (Some UserDisabled)) None.

(** ** Lemmas: issuing a session *)

Section Issue.
Context `{AuthDeps} (config : NexusConfig) (env : nat -> turn).

Lemma issueSession_ok_stays (HR : account_rivals env accounts_ok) tx user context :
  stays env tx accounts_ok (issueSession config user context).
Proof.
  unfold issueSession, newSessionToken, isoInSeconds. prove_stays. apply stays_statement; [done|]. intros t d s d' HP Hc.
  destruct (sessions_create _ _ _) as [[r rows]|e] eqn:Hcr; [|done]. injection Hc as _ <-.
  apply sessions_create_ok in Hcr as (-> & -> & _ & Ht & Hu). apply accounts_ok_session; [done..|].
  unfold user_exists in Hu. by bool_to_prop.
Qed.

Lemma issueSession_seated_stays (HR : account_rivals env super_admin_seated) tx user context :
  stays env tx super_admin_seated (issueSession config user context).
Proof.
  unfold issueSession, newSessionToken, isoInSeconds. prove_stays. apply stays_statement; [done|]. intros t d s d' HP Hc.
  destruct (sessions_create _ _ _) as [[r rows]|e] eqn:Hcr; [|done]. by injection Hc as _ <-.
Qed.

(** The statement of the sign-in, for the predicates that only ask the row to be
    there. *)
Lemma login_commit_stays (P : account_pred) `{!AccountInvariant P} (HR : account_rivals env P) verified context at_ :
  (forall user, stays env true P (issueSession config user context)) ->
  stays env true P (login_commit config verified context at_).
Proof.
  intros Hissue. unfold login_commit, login_eligible, readRegistrationPolicy. prove_stays.
  - by apply localPasswordBlocked_stays.
  - by apply stays_user_updateIfMatches.
Qed.

Lemma transition_ok `{UsersDeps} `{TeardownService} (HR : account_rivals env accounts_ok) (Hdeps : deps_stay env accounts_ok)
    actor target p ip : stays env true accounts_ok (transition_body actor target p ip).
Proof.
  unfold transition_body, others_count. prove_stays; try (by eapply promotion_stays).
  - apply stays_statement; [done|]. intros t d y d' HP Hu.
    destruct (users_updateIfMatches _ _ _ _ _ _) as [[y' rows]|e] eqn:Hw; [|done]. injection Hu as _ <-.
    apply users_updateIfMatches_ok in Hw as [[_ ->]|(x & Hx & _ & [(_ & _ & ->)|[_ Hw]])]; [done..|].
    exact (accounts_ok_write _ _ _ _ _ _ _ _ HP Hx Hw).
  - apply end_access_stays, _.
  - apply update_audits_stays.
Qed.
End Issue.

(** ** Properties *)

(** C16: the account tables stay well typed. Whatever calls a process serves, a
    sign-in through an identity provider or a change of its settings included, and
    whatever the other processes do in between as long as they keep it too, every
    row stands under its own id; no two accounts share an address up to case, no
    two sessions or links a token, no two identities a subject or an account and
    provider, no two organizations a name up to case; and every session, link,
    claim, proof, lock, identity and preference names an account that exists, as
    every membership names an organization. *)
Theorem accounts_stay_well_formed `{AuthDeps} `{UsersDeps} `{TeardownService} `{SsoDeps} config env calls w
    (HR : account_rivals env accounts_ok) (Hdeps : deps_stay env accounts_ok) (Hsso : sso_deps_stay env accounts_ok)
    (He : w_env w = env) (Ht : w_tx w = false) (Hok : accounts_ok (d_users (w_db w)) (d_accounts (w_db w))) :
  accounts_ok (d_users (w_db (serve_all config calls w))) (d_accounts (w_db (serve_all config calls w))).
Proof.
  pose proof (issueSession_ok_stays config env HR) as Hissue.
  apply (serve_all_stays config env accounts_ok HR Hdeps Hsso);
    [intros; apply sign_in_commit_stays; [apply _|by intros]|intros; apply deprovision_ok| |by intros; eapply transition_ok|by intros|done..].
  intros. apply login_commit_stays; [apply _|done|intros; apply Hissue].
Qed.

Lemma fresh_accounts_ok : accounts_ok ∅ account_empty.
Proof. split; simpl; repeat intro; match goal with Hx : ∅ !! _ = Some _ |- _ => by rewrite lookup_empty in Hx end. Qed.

Lemma sample_rivals P : account_rivals sample_turn P.
Proof. by intros n d. Qed.

(** Two registrations, a sign-in, a sign-in with a wrong password and a disable. *)
Lemma accounts_stay_well_formed_witness :
  let w := serve_all sample_config
             (sample_founding ++ [sample_login "client@example.org" "correct horse battery";
                                  sample_login "client@example.org" "wrong"; sample_disable]) sample_empty in
  accounts_ok (d_users (w_db w)) (d_accounts (w_db w)) /\ size (d_users (w_db w)) = 2%nat.
Proof.
  split; [|vm_compute; reflexivity].
  apply (accounts_stay_well_formed sample_config sample_turn _ sample_empty (sample_rivals _) (sample_deps_stay _ _) (sample_sso_stay _ _));
    [reflexivity..|exact fresh_accounts_ok].
Defined.

(** C2: the portal is never left without an active super admin. Once there is one,
    there is one after any calls, whatever the other processes do in between as
    long as they leave one too: demoting or disabling one counts the others in
    the transaction that writes, so two administrators who remove each other at
    the same time cannot both succeed, and an identity provider's claims neither
    demote nor disable one. *)
Theorem super_admin_stays_seated `{AuthDeps} `{UsersDeps} `{TeardownService} `{SsoDeps} config env calls w
    (HR : account_rivals env super_admin_seated) (Hdeps : deps_stay env super_admin_seated) (Hsso : sso_deps_stay env super_admin_seated)
    (He : w_env w = env) (Ht : w_tx w = false) (Hkeyed : keyed u_id (d_users (w_db w)))
    (Hseated : exists k x, d_users (w_db w) !! k = Some x /\ active_super_admin x = true) :
  exists k x, d_users (w_db (serve_all config calls w)) !! k = Some x /\ active_super_admin x = true.
Proof.
  pose proof (issueSession_seated_stays config env HR) as Hissue.
  apply (serve_all_stays config env super_admin_seated HR Hdeps Hsso); [| | | |by intros|done..].
  - intros. apply sign_in_commit_stays; [apply _|by intros].
  - intros. apply deprovision_seated.
  - intros. apply login_commit_stays; [apply _|done|intros; apply Hissue].
  - intros actor target p ip Hp. apply transition_seated; [|done]. intros h a r Q Hh. by eapply promotion_stays.
Qed.

(** The founder may not demote itself; once a second one was promoted, it may. *)
Lemma super_admin_stays_seated_witness :
  let demote := CallUpdateUser sample_root (u_id sample_root) (sample_change (Some provider) None) None in
  let promote := CallUpdateUser sample_root sample_client_id (sample_change (Some super_admin) None) None in
  let alone := serve_all sample_config [demote] sample_founded in
  let both := serve_all sample_config [promote; demote] sample_founded in
  (exists k x, d_users (w_db both) !! k = Some x /\ active_super_admin x = true)
  /\ u_role <$> account_of "root@example.org" alone = Some super_admin
  /\ u_role <$> account_of "root@example.org" both = Some provider
  /\ u_role <$> account_of "client@example.org" both = Some super_admin.
Proof.
  split; [|vm_compute; split_and!; reflexivity].
  apply (super_admin_stays_seated sample_config sample_turn _ sample_founded (sample_rivals _) (sample_deps_stay _ _) (sample_sso_stay _ _)).
  - vm_compute. reflexivity.
  - vm_compute. reflexivity.
  - refine (bool_decide_unpack _ _). vm_compute. exact I.
  - exists (u_id sample_root), sample_root. split; vm_compute; reflexivity.
Defined.

(** C18: a disabled account has no session. Beside processes that leave none, the
    calls leave none: a sign-in makes its session in the transaction that finds the
    account active, and a disable ends the account's sessions in the transaction
    that disables it, whether a password, an identity provider or an administrator
    decides it. [register] and [updateMe] with a new password are left out:
    they issue a session after their commit. *)
Theorem disabled_accounts_have_no_session `{AuthDeps} `{UsersDeps} `{TeardownService} `{SsoDeps} config env calls w
    (HR : account_rivals env sessions_of_active) (Hdeps : deps_stay env sessions_of_active) (Hsso : sso_deps_stay env sessions_of_active)
    (Hcalls : forall call, call ∈ calls -> issues_unguarded call = false)
    (He : w_env w = env) (Ht : w_tx w = false) (Hkeyed : keyed u_id (d_users (w_db w)))
    (Hsessions : forall k s, ac_sessions (d_accounts (w_db w)) !! k = Some s ->
       exists x, d_users (w_db w) !! ss_user_id s = Some x /\ u_status x = UserActive) :
  forall k s, ac_sessions (d_accounts (w_db (serve_all config calls w))) !! k = Some s ->
    exists x, d_users (w_db (serve_all config calls w)) !! ss_user_id s = Some x /\ u_status x = UserActive.
Proof.
  assert (Hall : on_accounts sessions_of_active (w_db (serve_all config calls w))).
  { apply (serve_all_stays config env sessions_of_active HR Hdeps Hsso);
      [| | | |by intros call Hin Hu; rewrite Hcalls in Hu|done..|].
    - intros. apply sign_in_commit_sessions.
    - intros. apply deprovision_sessions.
    - intros. by apply login_commit_sessions.
    - intros actor target p ip _. apply transition_sessions. intros h a r Q Hh. by eapply promotion_stays.
    - split; [done|]. intros k s Hk _. by apply (Hsessions k). }
  intros k s Hk. by apply Hall with k.
Qed.

(** Signed in on two devices, then disabled. *)
Lemma disabled_accounts_have_no_session_witness :
  let calls := [sample_login "client@example.org" "correct horse battery"; sample_disable] in
  let w := serve_all sample_config calls sample_founded in
  (forall k s, ac_sessions (d_accounts (w_db w)) !! k = Some s ->
     exists x, d_users (w_db w) !! ss_user_id s = Some x /\ u_status x = UserActive)
  /\ length (sessions_of "client@example.org" (serve_all sample_config (take 1 calls) sample_founded)) = 2%nat
  /\ sessions_of "client@example.org" w = [] /\ u_status <$> account_of "client@example.org" w = Some UserDisabled.
Proof.
  split; [|vm_compute; split_and!; reflexivity].
  apply (disabled_accounts_have_no_session sample_config sample_turn _ sample_founded (sample_rivals _) (sample_deps_stay _ _) (sample_sso_stay _ _)).
  - intros call [->|[->|Hin%elem_of_nil]%elem_of_cons]%elem_of_cons; done.
  - vm_compute. reflexivity.
  - vm_compute. reflexivity.
  - refine (bool_decide_unpack _ _). vm_compute. exact I.
  - assert (Hall : map_Forall (fun _ s => (u_status <$> d_users (w_db sample_founded) !! ss_user_id s) = Some UserActive)
                     (ac_sessions (d_accounts (w_db sample_founded)))).
    { refine (bool_decide_unpack _ _). vm_compute. exact I. }
    intros k s Hk. destruct (fmap_Some_1 _ _ _ (Hall k s Hk)) as (x & Hx & Hst). exists x. exact (conj Hx (eq_sym Hst)).
Defined.

(** *** A session that outlives a disable

    An administrator disables the account between the commit of its registration
    and the session it is answered with: the session is there, of a disabled
    account, and it opens the portal once the account is enabled again. *)

(** The other process's disable, at one turn. *)
Definition disable_beside (n : nat) : turn :=
  let t := sample_turn n in {|
    t_rivals := fun d =>
      if bool_decide (n = 33%nat)
      then w_db (serve_all sample_config
                   [CallUpdateUser sample_root sample_client_id (sample_change None (Some UserDisabled)) None]
                   (world_of d (fun i => sample_turn (100 + i)) []))
      else d;
    t_now := t_now t; t_ids := t_ids t; t_random := t_random t; t_fault := t_fault t; t_smtp := t_smtp t;
    t_stopping := t_stopping t; t_nonce := t_nonce t |}.

Definition sample_request (method : string) (cookie header : option string) : HttpRequest := {|
  hr_route := Some "/api/apis"%string; hr_method := method; hr_sharedCacheable := false; hr_session_cookie := cookie;
  hr_csrf_cookie := header; hr_csrf_header := match header with Some h => HeaderOne h | None => HeaderAbsent end;
|}.

(** The registration under that schedule, and a world where its database goes on
    alone. *)
Definition registered_beside : world := serve_all sample_config sample_founding (world_of db_empty disable_beside []).
Definition alone_after (w : world) : world := world_of (w_db w) (fun i => sample_turn (200 + i)) [].

Theorem session_outlives_disable :
  u_status <$> account_of "client@example.org" registered_beside = Some UserDisabled
  /\ length (sessions_of "client@example.org" registered_beside) = 1%nat
  /\ let enabled := serve_all sample_config
         [CallUpdateUser sample_root sample_client_id (sample_change None (Some UserActive)) None]
         (alone_after registered_beside) in
     u_email <$> (match (resolve_request sample_config (sample_request "GET" (Some "id-34-0"%string) None) enabled).1 with
                  | Ok resolved => rs_user resolved
                  | Throw _ => None
                  end) = Some "client@example.org"%string.
Proof. vm_compute. split_and!; reflexivity. Qed.
