(* ===== verification/SignIn.v ===== *)
(** * Who gets a session, and who becomes what

    What an answered sign-in committed, in the database it committed it to, and
    what a failing call tells about who has an account; then what an
    answered registration committed. *)

From S2P Require Import Prelude Json Roles Users Settings AuditLog AccessTables AccountTables SsoSettings World AccessStore AccountStore LeaseFence KeyedSerializer Provisioner TeardownWorker Auth AuthPlugin UsersService AccountLogic AccountPrograms AccountInvariants AccountService.
Open Scope Z_scope.

(** ** The rules, in one database *)

(** The account may sign in with a password in [d]: [breakGlass] when only the
    operator's switch lets it. *)
Definition may_sign_in (config : NexusConfig) (id hash : string) (breakGlass : bool) (d : db) : Prop :=
  exists u, d_users d !! id = Some u /\ u_password_hash u = hash /\ u_status u = UserActive
    /\ blocked_in (sso config) d (u_id u) (u_role u) = false
    /\ breakGlass = bool_decide (st_policy (stored_sso (d_settings d)) = SsoOnly)
    /\ (breakGlass = true -> sc_breakGlassLocalLogin (sso config) = true /\ u_role u = super_admin)
    /\ (require_email_verification (stored_registration (d_settings d)) = true -> u_email_verified u = true).

(** A session of the account was added, and its row is as it was but for the time
    of its last sign-in. *)
Definition signed_in `{AuthDeps} (id : string) (issued : IssuedSession) (d d' : db) : Prop :=
  exists u at_ now, d_users d !! id = Some u
    /\ d_users d' = <[u_id u := userUpdateColumns (signed_in_at at_) now u]> (d_users d)
    /\ ac_sessions (d_accounts d') = <[ss_id (is_session issued) := is_session issued]> (ac_sessions (d_accounts d))
    /\ ss_user_id (is_session issued) = u_id u
    /\ ss_token_hash (is_session issued) = hashToken (is_token issued).

(** ** Lemmas: reads inside a transaction *)

Lemma bind_read {A B} (f : db -> A) (k : A -> M B) w b w' :
  w_tx w = true -> (do x <- read f; k x) w = (Ok b, w') ->
  exists w1, k (f (w_db w)) w1 = (Ok b, w') /\ w_db w1 = w_db w /\ w_tx w1 = true.
Proof. intros Ht H. tx_read H as x w1 -> Hd Ht1. eauto. Qed.

Lemma localPasswordBlocked_tx config id role w b w' :
  w_tx w = true -> localPasswordBlocked config id role w = (Ok b, w') ->
  b = blocked_in config (w_db w) id role /\ w_db w' = w_db w /\ w_tx w' = true.
Proof.
  unfold localPasswordBlocked, blocked_in, password_blocked. intros Ht H.
  case_bool_decide; [by apply mret_ok in H as [-> ->]|].
  apply bind_read in H as (w1 & H & Hd1 & Ht1); [|done].
  case_bool_decide; [by apply mret_ok in H as [-> ->]|].
  apply bind_read in H as (w2 & H & Hd2 & Ht2); [|done]. rewrite Hd1 in H.
  destruct (links_listByUser id _) as [|l ls]; [apply mret_ok in H as [-> ->]; split_and!; [done|congruence|done]|].
  unfold readStoredSsoSettings, setting_get in H. rewrite mbind_assoc in H.
  apply bind_read in H as (w3 & H & Hd3 & Ht3); [|done]. apply mret_ok in H as [-> ->].
  rewrite Hd2, Hd1. split_and!; [done|congruence|done].
Qed.

Lemma readLoginPolicy_tx {B} (k : LoginPolicy -> M B) w b w' :
  w_tx w = true -> (do x <- readLoginPolicy; k x) w = (Ok b, w') ->
  exists w1, k (st_policy (stored_sso (d_settings (w_db w)))) w1 = (Ok b, w') /\ w_db w1 = w_db w /\ w_tx w1 = true.
Proof.
  unfold readLoginPolicy, readStoredSsoSettings, setting_get. intros Ht H. rewrite !mbind_assoc in H.
  apply bind_read in H as (w1 & H & Hd & Ht1); [|done]. exists w1. split_and!; [exact H|done..].
Qed.

Lemma readRegistrationPolicy_tx {B} (k : RegistrationPolicy -> M B) w b w' :
  w_tx w = true -> (do x <- readRegistrationPolicy; k x) w = (Ok b, w') ->
  exists w1, k (stored_registration (d_settings (w_db w))) w1 = (Ok b, w') /\ w_db w1 = w_db w /\ w_tx w1 = true.
Proof.
  unfold readRegistrationPolicy, setting_get. intros Ht H. rewrite !mbind_assoc in H.
  apply bind_read in H as (w1 & H & Hd & Ht1); [|done]. exists w1. split_and!; [exact H|done..].
Qed.

Section SignIn.
Context `{AuthDeps} (config : NexusConfig).

Lemma login_eligible_tx verified w b w' :
  w_tx w = true -> login_eligible config verified w = (Ok b, w') ->
  may_sign_in config (u_id verified) (u_password_hash verified) b (w_db w) /\ w_db w' = w_db w /\ w_tx w' = true.
Proof.
  unfold login_eligible. intros Ht H0.
  apply bind_read in H0 as (w1 & H0 & Hd1 & Ht1); [|done]. unfold users_findById in H0.
  destruct (d_users (w_db w) !! u_id verified) as [u|] eqn:Hu; [|done].
  tx_ensure H0 as Hhash. apply readLoginPolicy_tx in H0 as (w2 & H0 & Hd2 & Ht2); [|done]. rewrite Hd1 in H0.
  tx_ensure H0 as Hglass. tx_ensure H0 as Hadmin.
  tx_bind H0 blocked w3 Hb. apply localPasswordBlocked_tx in Hb as (-> & Hd3 & Ht3); [|done].
  tx_ensure H0 as Hfree. tx_ensure H0 as Hactive.
  apply readRegistrationPolicy_tx in H0 as (w4 & H0 & Hd4 & Ht4); [|done]. tx_ensure H0 as Hverified.
  apply mret_ok in H0 as [-> ->]. rewrite Hd3, Hd2, Hd1 in *. bool_to_prop.
  split; [|split; [congruence|done]]. exists u. split_and!; [done..| |].
  - intros Hs. rewrite Hs in *. destruct Hglass as [?|Hglass], Hadmin as [?|Hadmin]; try done. by bool_to_prop.
  - intros Hr. rewrite Hr in Hverified. simpl in Hverified. destruct (u_email_verified u); [done|]. by destruct Hverified.
Qed.

(** [issueSession] adds one row, keyed by the hash of the token it answers. *)
Lemma issueSession_tx user context w issued w' :
  w_tx w = true -> issueSession config user context w = (Ok issued, w') ->
  d_users (w_db w') = d_users (w_db w) /\ w_tx w' = true
  /\ ac_sessions (d_accounts (w_db w'))
     = <[ss_id (is_session issued) := is_session issued]> (ac_sessions (d_accounts (w_db w)))
  /\ ss_user_id (is_session issued) = u_id user
  /\ ss_token_hash (is_session issued) = hashToken (is_token issued).
Proof.
  unfold issueSession, newSessionToken, isoInSeconds. intros Ht H0.
  tx_bind H0 token w1 H1. apply randomUUID_ok in H1 as [Hd1 Ht1].
  tx_bind H0 csrf w2 H2. apply randomUUID_ok in H2 as [Hd2 Ht2].
  tx_bind H0 expires w3 H3. tx_now H3 as now. apply mret_ok in H3 as [-> ->].
  tx_bind H0 s w4 H4. apply mret_ok in H0 as [-> ->].
  apply statement_tx in H4 as [H4 Ht4]; [|congruence].
  destruct (sessions_create _ _ _) as [[r rows]|e] eqn:Hc; [|done]. injection H4 as <- <-.
  apply sessions_create_ok in Hc as (-> & -> & _). simpl. rewrite Hd2, Hd1. by split_and!.
Qed.

Lemma login_commit_tx verified context at_ w issued b w' :
  w_tx w = true -> login_commit config verified context at_ w = (Ok (issued, b), w') ->
  may_sign_in config (u_id verified) (u_password_hash verified) b (w_db w)
  /\ signed_in (u_id verified) issued (w_db w) (w_db w').
Proof.
  unfold login_commit. intros Ht H0. tx_bind H0 g w1 H1. apply login_eligible_tx in H1 as (Hmay & Hd1 & Ht1); [|done].
  tx_bind H0 touched w2 H2. destruct touched as [touched|]; [|done].
  tx_bind H0 s w3 H3. apply mret_ok in H0 as [[= -> ->] ->]. split; [done|].
  apply statement_tx in H2 as [H2 Ht2]; [|done].
  destruct (users_updateIfMatches _ _ _ _ _ _) as [[y rows]|e] eqn:Hw; [|done]. injection H2 as -> H2.
  apply users_updateIfMatches_ok in Hw as [[? _]|(u & Hu & _ & [(? & _)|[_ Hw]])]; [done|done|].
  apply user_write_ok in Hw as ([= ->] & -> & _). rewrite Hd1 in *.
  apply issueSession_tx in H3 as (Hu3 & _ & Hs3 & Hid & Hhash); [|done]. rewrite <- H2 in *.
  eexists u, at_, _. split_and!; [done|exact Hu3|exact Hs3|done|done].
Qed.
End SignIn.

(** ** Lemmas: the layers around the transaction *)

Lemma reword_ok {A} (m : M A) (test : exn -> bool) (e : exn) w a w' :
  mcatch m (fun x => if test x then mthrow e else mthrow x) w = (Ok a, w') -> m w = (Ok a, w').
Proof. unfold mcatch. destruct (m w) as [[b|x] w1]; [done|]. by destruct (test x). Qed.

Lemma serializePasswordChange_ok {A} id (fn : M A) w a w' :
  serializePasswordChange id fn w = (Ok a, w') -> exists w1 w2, within w fn a w1 w2.
Proof.
  unfold serializePasswordChange. intros H. tx_bind H r w1 H1. destruct r as [b|]; [|done]. injection H as -> _.
  by apply underLease_ok in H1.
Qed.

(** What a transaction that ran inside the call [w] began did. *)
Definition committed_within {A} (w : world) (fn : M A) (a : A) (d d' : db) : Prop :=
  exists w1 w2, within w (transaction fn) a w1 w2 /\ d = t_rivals (cur w1) (w_db w1) /\ d' = w_db w2.

Lemma within_committed {A} (fn : M A) w a w1 w2 :
  within w (transaction fn) a w1 w2 -> committed_within w fn a (t_rivals (cur w1) (w_db w1)) (w_db w2).
Proof. intros Hw. by exists w1, w2. Qed.

Lemma committed_body {A} (fn : M A) w a d d' :
  frame fn -> w_tx w = false -> committed_within w fn a d d' ->
  exists v1 v2, fn v1 = (Ok a, v2) /\ w_tx v1 = true /\ w_db v1 = d /\ w_db v2 = d'.
Proof.
  intros Hf Ht (w1 & w2 & (H & He & Ht1 & _) & -> & ->). apply transaction_committed in H as (v1 & v2 & Hv); [|done|congruence].
  destruct Hv as (H & Htv & _ & Hd & Hd' & _). exists v1, v2. by split_and!.
Qed.

Lemma committed_later {A} (fn : M A) w0 w a d d' : keeps w0 w -> committed_within w fn a d d' -> committed_within w0 fn a d d'.
Proof. intros Hk (w1 & w2 & Hw & Hd & Hd'). exists w1, w2. split_and!; [by eapply within_later|done..]. Qed.

Lemma localPasswordBlocked_frame sso id role : frame (localPasswordBlocked sso id role).
Proof.
  unfold localPasswordBlocked, readStoredSsoSettings, setting_get, lock_find, links_of, read. frames.
Qed.
#[local] Hint Resolve localPasswordBlocked_frame : nexus.

Section Calls.
Context `{AuthDeps} (config : NexusConfig).
Context (Hhash : forall s, frame (hashPassword s)) (Hverify : forall s h, frame (verifyPassword s h)).
Context (Hcaptcha : forall t ip, frame (captcha_verify t ip)).
#[local] Hint Resolve Hhash Hverify Hcaptcha : nexus.

Lemma issueSession_frame user context : frame (issueSession config user context).
Proof. unfold issueSession, newSessionToken, isoInSeconds, session_create. frames. Qed.
#[local] Hint Resolve issueSession_frame : nexus.

Lemma login_commit_frame verified context at_ : frame (login_commit config verified context at_).
Proof.
  unfold login_commit, login_eligible, readLoginPolicy, readRegistrationPolicy, readStoredSsoSettings, setting_get, read, users_find,
    ensure, user_updateIfMatches. frames.
Qed.

(** The account the password opened. *)
Lemma login_check_ok input context w r w' :
  login_check config input context w = (Ok r, w') ->
  keeps w w' /\ (exists t, users_findByEmail (toLowerCase (trim (li_email input))) t = Some r.1)
  /\ can_answer (verifyPassword (li_password input) (u_password_hash r.1)) true.
Proof.
  intros H0. assert (Hf : frame (login_check config input context)).
  { unfold login_check, readLoginPolicy, readRegistrationPolicy, readStoredSsoSettings, setting_get, read, ensure, users_find_email.
    frames. }
  split; [by eapply frame_inv|]. unfold login_check in H0.
  tx_bind H0 policy w1 H1. tx_ensure H0 as Hg. tx_bind H0 captcha w2 H2. tx_bind H0 record w3 H3.
  tx_bind H0 ok w4 H4. destruct record as [record|]; [|done]. tx_ensure H0 as Hok. subst ok.
  tx_ensure H0 as Ha. tx_bind H0 blocked w5 H5. tx_ensure H0 as Hb. tx_ensure H0 as Hs. tx_bind H0 p w6 H6.
  tx_ensure H0 as Hv. apply mret_ok in H0 as [-> _]. simpl.
  apply statement_ok_inv in H3 as (d & _ & Hd & _). injection Hd as Hd _. split; [by exists (d_users d)|by exists w3, w4].
Qed.

Lemma login_committed input context w user issued w' :
  login config input context w = (Ok (user, issued), w') ->
  exists verified b at_ d d',
    (exists t, users_findByEmail (toLowerCase (trim (li_email input))) t = Some verified)
    /\ can_answer (verifyPassword (li_password input) (u_password_hash verified)) true
    /\ pu_id user = u_id verified
    /\ committed_within w (login_commit config verified context at_) (issued, b) d d'.
Proof.
  unfold login. intros H0. tx_bind H0 checked w1 H1. apply login_check_ok in H1 as (Hk & Hfound & Hpassword).
  destruct checked as [verified captcha]. simpl in *. tx_now H0 as at_. tx_bind H0 done_ w2 H2.
  tx_bind H0 row w3 H3. apply mret_ok in H0 as [[= -> ->] _]. destruct done_ as [issued' b]. simpl.
  apply reword_ok, serializePasswordChange_ok in H2 as (v1 & v2 & Hw).
  pose proof Hw as (Hv & _). apply reword_ok, locks_ok in Hv as (v3 & v4 & Hw2).
  pose proof Hw2 as (Hv2 & _). apply locks_ok in Hv2 as (v5 & v6 & Hw3).
  exists verified, b, at_, (t_rivals (cur v5) (w_db v5)), (w_db v6). split_and!; [done..|].
  eapply committed_later; [exact Hk|]. apply within_committed.
  eapply within_trans; [|exact Hw3]. by eapply within_trans; [|exact Hw2].
Qed.
End Calls.

(** ** Properties *)

(** C4: a password only signs in an account that may sign in. If [login] answers,
    the password it was given is the one of the account with that address, and the
    transaction that made the session found, in the very database it committed to,
    the account active, its password the one that was checked, no provider that
    blocks passwords for it, the address verified if the portal asks for it, and
    password sign-in open to it (under [sso_only], the operator's switch and a
    super admin); it added one session of that account, under the hash of the
    token answered. This holds whatever the other processes do. *)
Theorem login_admits_only_eligible `{AuthDeps} config input context w user issued w'
    (Hverify : forall s h, frame (verifyPassword s h)) (Hcaptcha : forall t ip, frame (captcha_verify t ip))
    (Ht : w_tx w = false) (Hlogin : login config input context w = (Ok (user, issued), w')) :
  exists verified b at_ d d',
    (exists t, users_findByEmail (toLowerCase (trim (li_email input))) t = Some verified)
    /\ can_answer (verifyPassword (li_password input) (u_password_hash verified)) true
    /\ pu_id user = u_id verified
    /\ committed_within w (login_commit config verified context at_) (issued, b) d d'
    /\ may_sign_in config (u_id verified) (u_password_hash verified) b d
    /\ signed_in (u_id verified) issued d d'.
Proof.
  apply login_committed in Hlogin as (verified & b & at_ & d & d' & Hfound & Hpassword & Hid & Hc); [|done..].
  exists verified, b, at_, d, d'. split_and!; [done..| |];
    apply committed_body in Hc as (v1 & v2 & Hv & Htv & <- & <-); [|apply login_commit_frame|done| |apply login_commit_frame|done];
    by apply login_commit_tx in Hv as [? ?].
Qed.

(** The client signs in; a wrong password, and the right one once the account is
    disabled, do not. *)
Lemma login_admits_only_eligible_witness :
  let input password := {| li_email := " Client@example.org"; li_password := password; li_captcha_token := None |} in
  let run password w := login sample_config (input password) sample_context w in
  (exists user issued verified b d,
     (run "correct horse battery"%string sample_founded).1 = Ok (user, issued)
     /\ pu_id user = u_id verified /\ may_sign_in sample_config (u_id verified) (u_password_hash verified) b d)
  /\ (run "wrong"%string sample_founded).1 = Throw wrong_password
  /\ (run "correct horse battery"%string (serve_all sample_config [sample_disable] sample_founded)).1 = Throw account_disabled.
Proof.
  cbv zeta. split; [|split; vm_compute; reflexivity].
  destruct (login sample_config _ sample_context sample_founded) as [[[user issued]|e] w'] eqn:Hl;
    [|exfalso; vm_compute in Hl; discriminate Hl].
  destruct (login_admits_only_eligible sample_config _ _ sample_founded user issued w' sample_verify_frame sample_captcha_frame
              eq_refl Hl) as (verified & b & at_ & d & d' & _ & _ & Hid & _ & Hmay & _).
  exists user, issued, verified, b, d. exact (conj eq_refl (conj Hid Hmay)).
Defined.

(** ** What a failure tells *)

(** The two calls give the same answer, or the same error, from every state. *)
Definition answers_alike {A} (m m' : M A) : Prop := forall w, (m w).1 = (m' w).1.

Lemma alike_bind {A B} (m : M A) (k k' : A -> M B) :
  (forall a, answers_alike (k a) (k' a)) -> answers_alike (mbind m k) (mbind m k').
Proof. intros Hk w. unfold mbind. destruct (m w) as [[a|e] w1]; [apply Hk|done]. Qed.

(** The same statement of both calls, whatever each reads from it. *)
Lemma alike_read {A B} (f f' : db -> A) (k k' : A -> M B) :
  (forall a a', answers_alike (k a) (k' a')) -> answers_alike (do x <- read f; k x) (do x <- read f'; k' x).
Proof.
  intros Hk w. unfold mbind, read, statement_ok, statement. destruct (t_fault (cur w)); [done|]. simpl. apply Hk.
Qed.

Lemma uniform_answers `{AuthDeps} (Hhash : forall s w, exists h w', hashPassword s w = (Ok h, w')) (body : M unit) w :
  (withUniformAnswer body w).1 = Ok tt.
Proof.
  unfold withUniformAnswer, withTimingFloor, mfinally, mcatch.
  assert (Hfloor : forall w, exists w', (do_ hashPassword TIMING_FLOOR_SECRET; mret tt) w = (Ok tt, w')).
  { intros v. unfold mbind. destruct (Hhash TIMING_FLOOR_SECRET v) as (h & v' & ->). by exists v'. }
  destruct (body w) as [[[]|e] w1]; simpl; by destruct (Hfloor w1) as [w2 ->].
Qed.

(** The two reads of a failing sign-in that depend on the address are the lookup
    and the hash it checks. *)
Lemma login_check_alike `{AuthDeps} config password captcha context e1 e2
    (Hwrong : forall hash w, exists w', verifyPassword password hash w = (Ok false, w')) :
  answers_alike (login_check config {| li_email := e1; li_password := password; li_captcha_token := captcha |} context)
    (login_check config {| li_email := e2; li_password := password; li_captcha_token := captcha |} context).
Proof.
  unfold login_check. apply alike_bind. intros policy. apply alike_bind. intros _. apply alike_bind. intros outcome.
  apply alike_read. intros r r' w. unfold mbind. simpl.
  destruct (Hwrong (match r with Some r => u_password_hash r | None => DECOY_PASSWORD_HASH end) w) as [w1 ->].
  destruct (Hwrong (match r' with Some r => u_password_hash r | None => DECOY_PASSWORD_HASH end) w) as [w2 ->].
  by destruct r, r'.
Qed.

Lemma login_check_wrong `{AuthDeps} config input context
    (Hwrong : forall hash w, exists w', verifyPassword (li_password input) hash w = (Ok false, w')) w a w' :
  login_check config input context w <> (Ok a, w').
Proof.
  unfold login_check. intros H0. tx_bind H0 policy w1 H1. tx_ensure H0 as Hopen. tx_bind H0 outcome w2 H2. tx_bind H0 r w3 H3.
  tx_bind H0 ok w4 H4. destruct (Hwrong (match r with Some r => u_password_hash r | None => DECOY_PASSWORD_HASH end) w3) as [v Hv].
  rewrite Hv in H4. injection H4 as <- <-. by destruct r.
Qed.

Lemma mbind_refused {A B} (m m' : M A) (k k' : A -> M B) w :
  (m w).1 = (m' w).1 -> (forall a w', m w <> (Ok a, w')) -> (mbind m k w).1 = (mbind m' k' w).1.
Proof.
  unfold mbind. destruct (m w) as [[a|e] w1]; intros Heq Hno; [by destruct (Hno a w1)|].
  simpl in Heq. destruct (m' w) as [[a|e'] w2]; simpl in *; congruence.
Qed.


(** A portal whose hashing accepts every password but one. *)
Definition sample_deaf : AuthDeps := {|
  hashToken := fun token => "hash of " +:+ token;
  sha256 := fun s => s;
  hashPassword := fun password => mret ("scrypt " +:+ password);
  verifyPassword := fun password hash => mret (bool_decide (password <> "wrong" /\ hash = "scrypt " +:+ password));
  captcha_verify := fun _ _ => mret CaptchaVerified;
  onRegistered := None;
  prepareVerificationResend := None;
  preparePasswordReset := Some (fun _ _ _ => mthrow (driverError "the template cannot be rendered"));
  onFirstEmailProof := None;
|}.


(** ** Who becomes what

    What an answered registration committed: the founder's seat, or an account
    under the policy of the database it was added to. *)

(** ** The rules, in one database *)

(** Nobody administers the portal yet. *)
Definition seat_empty (d : db) : Prop := forall k u, d_users d !! k = Some u -> active_super_admin u = false.

(** The token in the log, or the configured one. *)
Definition bootstrap_presented `{AuthDeps} (config : NexusConfig) (presented : option string) : Prop :=
  exists expected token, bootstrapToken config = Some expected /\ presented = Some token /\ sha256 token = sha256 expected.

(** The portal takes registrations under this role. *)
Definition registration_open (role : Role) (d : db) : Prop :=
  st_policy (stored_sso (d_settings d)) <> SsoOnly
  /\ open_registration (stored_registration (d_settings d)) = true
  /\ role_name role ∈ allowed_roles (stored_registration (d_settings d)).

(** The account a registration adds: an address nobody has, and no more than what
    was asked, or the founder. *)
Record added_account (email : string) (role : Role) (founder verified : bool) (r : UserRecord) (d d' : db) : Prop := {
  aa_users : d_users d' = <[u_id r := r]> (d_users d);
  aa_new : d_users d !! u_id r = None;
  aa_email : u_email r = toLowerCase (trim email);
  aa_free : email_taken r (d_users d) = false;
  aa_role : u_role r = if founder then super_admin else role;
  aa_status : u_status r = UserActive;
  aa_verified : u_email_verified r = founder || verified;
}.

(** ** Lemmas *)

Lemma count_none t : users_countActiveSuperAdmins None t = 0 <-> forall k u, t !! k = Some u -> active_super_admin u = false.
Proof.
  unfold users_countActiveSuperAdmins. simpl. split.
  - intros Hz k u Hu. destruct (rows_where _ t) as [|x l] eqn:Hl; [|done].
    pose proof (proj1 (rows_where_nil _ t) Hl k u Hu) as Hf. simpl in Hf. by rewrite andb_true_r in Hf.
  - intros Hall. rewrite (proj2 (rows_where_nil (fun u => active_super_admin u && true) t)); [done|].
    intros k u Hu. by rewrite (Hall k u Hu).
Qed.

Section Register.
Context `{AuthDeps} (config : NexusConfig).

Lemma persistRegistration_tx draft founder w o w' :
  w_tx w = true -> persistRegistration draft founder w = (Ok o, w') ->
  added_account (rd_email draft) (rd_role draft) founder (negb (rd_requireEmailVerification draft)) (ro_record o) (w_db w) (w_db w')
  /\ ro_promoted o = founder
  /\ bool_decide (is_Some (ro_verificationToken o)) = negb founder && rd_requireEmailVerification draft.
Proof.
  unfold persistRegistration. intros Ht H0. tx_bind H0 r w1 H1. apply statement_tx in H1 as [H1 Ht1]; [|done].
  destruct (users_create _ _ _) as [[r' rows]|e] eqn:Hc; [|done]. injection H1 as -> Hd1.
  apply users_create_ok in Hc as (-> & Hn & Hf & _ & Hid & Hrole & Hst & Hv & _ & Hem).
  tx_bind H0 u w2 H2.
  assert (Hw2 : d_users (w_db w2) = d_users (w_db w1) /\ w_tx w2 = true).
  { destruct founder; [|by apply mret_ok in H2 as [_ ->]]. tx_now H2 as now. apply statement_tx in H2 as [H2 ?]; [|done]. by injection H2 as _ <-. }
  destruct Hw2 as [Hu2 Ht2]. tx_bind H0 token w3 H3.
  assert (Hw3 : d_users (w_db w3) = d_users (w_db w2) /\ w_tx w3 = true
                /\ bool_decide (is_Some token) = negb founder && rd_requireEmailVerification draft).
  { destruct (negb founder && rd_requireEmailVerification draft); [|by apply mret_ok in H3 as [-> ->]].
    tx_bind H3 t w4 H4. apply randomUUID_ok in H4 as [Hd4 Ht4]. tx_bind H3 e w5 H5. unfold isoInSeconds in H5.
    tx_now H5 as now. apply mret_ok in H5 as [_ ->]. tx_bind H3 v w6 H6. apply mret_ok in H3 as [-> ->].
    apply statement_tx in H6 as [H6 Ht6]; [|congruence]. destruct (tokens_create _ _ _) as [[r2 rows2]|e2]; [|done].
    injection H6 as _ <-. simpl. by rewrite Hd4. }
  destruct Hw3 as (Hu3 & Ht3 & Htoken). tx_bind H0 row w4 H4. apply mret_ok in H0 as [-> ->].
  apply audit_record_tx in H4 as [Hd4 _]; [|done]. split; [|done]. simpl in *. split; try done.
  - rewrite Hd4. simpl. rewrite Hu3, Hu2, <- Hd1. done.
Qed.

Lemma applyRegistrationPolicy_tx draft w draft' w' :
  w_tx w = true -> applyRegistrationPolicy draft w = (Ok draft', w') ->
  registration_open (rd_role draft) (w_db w)
  /\ draft' = require_verification (require_email_verification (stored_registration (d_settings (w_db w)))) draft
  /\ w_db w' = w_db w /\ w_tx w' = true.
Proof.
  unfold applyRegistrationPolicy. intros Ht H0. apply readLoginPolicy_tx in H0 as (w1 & H0 & Hd1 & Ht1); [|done].
  tx_ensure H0 as Hsso. apply readRegistrationPolicy_tx in H0 as (w2 & H0 & Hd2 & Ht2); [|done]. rewrite Hd1 in *.
  tx_ensure H0 as Hopen. tx_ensure H0 as Hrole. apply mret_ok in H0 as [-> ->]. bool_to_prop.
  split_and!; [by split_and!|done|congruence|done].
Qed.

(** A registration under the policy, as the database has it. *)
Definition enrolled (draft : RegistrationDraft) (o : RegistrationOutcome) (d d' : db) : Prop :=
  registration_open (rd_role draft) d /\ ro_promoted o = false
  /\ bool_decide (is_Some (ro_verificationToken o)) = require_email_verification (stored_registration (d_settings d))
  /\ added_account (rd_email draft) (rd_role draft) false
       (negb (require_email_verification (stored_registration (d_settings d)))) (ro_record o) d d'.

Definition founded (draft : RegistrationDraft) (o : RegistrationOutcome) (d d' : db) : Prop :=
  seat_empty d /\ ro_promoted o = true
  /\ exists verified, added_account (rd_email draft) (rd_role draft) true verified (ro_record o) d d'.

Lemma enroll_tx draft w o w' :
  w_tx w = true -> (do draft <- applyRegistrationPolicy draft; persistRegistration draft false) w = (Ok o, w') ->
  enrolled draft o (w_db w) (w_db w').
Proof.
  intros Ht H0. tx_bind H0 draft' w1 H1. apply applyRegistrationPolicy_tx in H1 as (Hopen & -> & Hd1 & Ht1); [|done].
  apply persistRegistration_tx in H0 as (Ha & Hp & Hv); [|done]. rewrite Hd1 in Ha. by split_and!.
Qed.

Lemma seatFounder_tx draft w o w' :
  w_tx w = true -> seatFounder draft w = (Ok o, w') ->
  founded draft o (w_db w) (w_db w') \/ enrolled draft o (w_db w) (w_db w').
Proof.
  unfold seatFounder. intros Ht H0. apply bind_read in H0 as (w1 & H0 & Hd1 & Ht1); [|done]. rewrite <- Hd1 in *.
  case_bool_decide as Hn.
  - right. by apply enroll_tx.
  - left. tx_bind H0 draft' w2 H2. apply mret_ok in H2 as [-> ->].
    apply persistRegistration_tx in H0 as (Ha & Hp & _); [|done]. split_and!; [|done|by eexists].
    unfold seat_empty. apply count_none. unfold users_countActiveSuperAdmins in *. lia.
Qed.

Context (Hhash : forall s, frame (hashPassword s)) (Hcaptcha : forall t ip, frame (captcha_verify t ip)).
#[local] Hint Resolve Hhash Hcaptcha : nexus.

Lemma persistRegistration_frame draft founder : frame (persistRegistration draft founder).
Proof.
  unfold persistRegistration, user_create, setting_set, newSessionToken, isoInSeconds, token_create, audit_record. frames.
Qed.
Lemma applyRegistrationPolicy_frame draft : frame (applyRegistrationPolicy draft).
Proof.
  unfold applyRegistrationPolicy, readLoginPolicy, readRegistrationPolicy, readStoredSsoSettings, setting_get, read, ensure. frames.
Qed.
#[local] Hint Resolve persistRegistration_frame applyRegistrationPolicy_frame : nexus.

Lemma seatFounder_frame draft : frame (seatFounder draft).
Proof. unfold seatFounder, countActiveSuperAdmins, read. frames. Qed.

(** The draft, and what was checked before the lock. *)
Lemma draft_registration_ok input context w seatOpen draft w' :
  draft_registration config input context w = (Ok (seatOpen, draft), w') ->
  keeps w w' /\ rd_email draft = toLowerCase (trim (ri_email input)) /\ rd_role draft = ri_role input
  /\ isRegistrableRole (Some (role_name (ri_role input))) = true
  /\ (MIN_PASSWORD_LENGTH <= String.length (ri_password input))%nat
  /\ isReleasedEmail (toLowerCase (trim (ri_email input))) = false
  /\ (seatOpen = true -> bootstrap_presented config (ri_bootstrap_token input)).
Proof.
  intros H0. split.
  { eapply frame_inv; [|exact H0].
    unfold draft_registration, bootstrapRequired, requireBootstrapToken, countActiveSuperAdmins, readLoginPolicy,
      readRegistrationPolicy, readStoredSsoSettings, setting_get, read, ensure, users_find_email. frames. }
  unfold draft_registration in H0. tx_bind H0 policy w1 H1. tx_ensure H0 as Hemail. tx_ensure H0 as Hlength.
  tx_ensure H0 as Hrole. tx_bind H0 captcha w2 H2. tx_bind H0 open w3 H3. tx_bind H0 checked w4 H4. tx_bind H0 hash w5 H5.
  tx_bind H0 taken w6 H6. tx_ensure H0 as Hfree. apply mret_ok in H0 as [[= -> ->] ->]. simpl. bool_to_prop.
  split_and!; [done..|]. intros ->. apply ensure_ok in H4 as [Hb _]. unfold secretEquals in Hb.
  destruct (bootstrapToken config) as [expected|] eqn:Hconfigured, (ri_bootstrap_token input) as [token|] eqn:Htoken; try done.
  bool_to_prop. by exists expected, token.
Qed.

(** The transaction that commits the account. *)
Definition registering (seatOpen : bool) (draft : RegistrationDraft) : M RegistrationOutcome :=
  if seatOpen then seatFounder draft else (do draft <- applyRegistrationPolicy draft; persistRegistration draft false).

Lemma commit_registration_ok seatOpen draft w o w' :
  commit_registration seatOpen draft w = (Ok o, w') -> exists d d', committed_within w (registering seatOpen draft) o d d'.
Proof.
  unfold commit_registration, registering. destruct seatOpen; intros Hl.
  - apply locks_ok in Hl as (w1 & w2 & Hw). pose proof Hw as (Hl & _). apply locks_ok in Hl as (w3 & w4 & Hw2).
    eexists _, _. apply within_committed. by eapply within_trans; [|exact Hw2].
  - apply locks_ok in Hl as (w1 & w2 & Hw). eexists _, _. by apply within_committed.
Qed.

Lemma registering_tx seatOpen draft w o d d' :
  w_tx w = false -> committed_within w (registering seatOpen draft) o d d' ->
  (seatOpen = true /\ founded draft o d d') \/ enrolled draft o d d'.
Proof.
  intros Ht Hc. unfold registering in Hc.
  apply committed_body in Hc as (v1 & v2 & Hv & Htv & <- & <-); [| |done].
  - destruct seatOpen; [|right; by apply enroll_tx]. apply seatFounder_tx in Hv as [?|?]; [by left|by right|done].
  - destruct seatOpen; [apply seatFounder_frame|]. frames.
Qed.
End Register.

(** ** Properties *)

(** C15: registration hands out no privilege. If [register] answers, its transaction
    added one active account under an address that was free, in the database it
    committed to; and either that database had no active super admin, the caller
    presented the bootstrap token, and the account is the founding super admin, or
    the portal was open to registrations under the role asked for, which is client
    or provider, and the account has that role. An account whose address the
    portal wants verified gets no session. This holds whatever the other processes
    do, two simultaneous founders included. *)
Theorem registration_grants_no_privilege `{AuthDeps} config input context w result w'
    (Hhash : forall s, frame (hashPassword s)) (Hcaptcha : forall t ip, frame (captcha_verify t ip))
    (Ht : w_tx w = false) (Hreg : register config input context w = (Ok result, w')) :
  exists seatOpen draft o d d',
    committed_within w (registering seatOpen draft) o d d' /\ rr_user result = toPublicUser (ro_record o)
    /\ (ri_role input = client \/ ri_role input = provider)
    /\ ((seat_empty d /\ bootstrap_presented config (ri_bootstrap_token input)
         /\ exists verified, added_account (toLowerCase (trim (ri_email input))) (ri_role input) true verified (ro_record o) d d')
        \/ (registration_open (ri_role input) d
            /\ added_account (toLowerCase (trim (ri_email input))) (ri_role input) false
                 (negb (require_email_verification (stored_registration (d_settings d)))) (ro_record o) d d'
            /\ (require_email_verification (stored_registration (d_settings d)) = true -> rr_issued result = None))).
Proof.
  unfold register in Hreg. tx_bind Hreg drafted w1 H1. destruct drafted as [seatOpen draft].
  apply draft_registration_ok in H1 as (Hk & Hemail & Hrole & Hregistrable & _ & _ & Hboot); [|done..].
  tx_bind Hreg o w2 H2. simpl in H2. apply commit_registration_ok in H2 as (d & d' & Hc).
  tx_bind Hreg u w3 H3. tx_bind Hreg v w4 H4. tx_bind Hreg issued w5 H5. apply mret_ok in Hreg as [-> _]. simpl.
  exists seatOpen, draft, o, d, d'. split; [by eapply committed_later|]. split; [done|]. split.
  { destruct (ri_role input); [by left|by right|done|done]. }
  assert (Ht1 : w_tx w1 = false) by (destruct Hk as (_ & -> & _); done).
  destruct (registering_tx seatOpen draft w1 o d d' Ht1 Hc) as [(-> & Hempty & _ & verified & Ha)|(Hopen & Hp & Hv & Ha)].
  - left. split_and!; [done|by apply Hboot|]. exists verified. destruct Ha. split; try done. congruence.
  - right. rewrite Hrole in Hopen. split_and!; [done| |].
    + destruct Ha. split; try done; congruence.
    + intros Hrequired. rewrite Hp, Hv, Hrequired in H5. simpl in H5. by apply mret_ok in H5 as [-> _].
Qed.

(** The founder presents the token of the log; without it nobody registers; the
    next to register is a client, whatever token it presents. *)
Lemma registration_grants_no_privilege_witness :
  let run email token w := register sample_config (sample_registration email token) sample_context w in
  (exists result o d d', (run "root@example.org"%string (Some "founders"%string) sample_empty).1 = Ok result
     /\ rr_user result = toPublicUser o
     /\ ((seat_empty d /\ bootstrap_presented sample_config (Some "founders"%string)
          /\ exists verified, added_account (toLowerCase (trim "root@example.org")) client true verified o d d')
         \/ registration_open client d))
  /\ (run "root@example.org"%string None sample_empty).1 = Throw bootstrap_refused
  /\ match (run "root2@example.org"%string (Some "founders"%string) sample_founded).1 with
     | Ok result => pu_role (rr_user result) = client
     | Throw _ => False
     end.
Proof.
  cbv zeta. split; [|split; vm_compute; reflexivity].
  destruct (register sample_config (sample_registration "root@example.org" (Some "founders"%string)) sample_context sample_empty)
    as [[result|e] w'] eqn:Hr; [|exfalso; vm_compute in Hr; discriminate Hr].
  destruct (registration_grants_no_privilege sample_config _ _ sample_empty result w' sample_hash_frame sample_captcha_frame
              eq_refl Hr) as (seatOpen & draft & o & d & d' & _ & Huser & _ & Hrule).
  exists result, (ro_record o), d, d'. split; [reflexivity|]. split; [exact Huser|].
  destruct Hrule as [Hf|[Hopen _]]; [left; exact Hf|right; exact Hopen].
Defined.
