(* ===== verification/PasswordReset.v ===== *)
(** * The redemption of a reset link, and the minting of one

    What an answered reset committed; the loop that cancels the account's pending
    requests; and the throttle of the links by address. *)

From S2P Require Import Prelude Json Roles Users JobQueues Settings AuditLog AccessTables AccountTables AccessWorkflow SsoSettings World AccessStore AccountStore LeaseFence KeyedSerializer Provisioner TeardownWorker Auth AuthPlugin UsersService AccountLogic AccountPrograms AccountInvariants AccountService SignIn.
Open Scope Z_scope.

(** ** Pending requests *)

Definition pending_by (userId : string) (r : AccessRequestRecord) : bool :=
  bool_decide (rq_user_id r = userId) && bool_decide (rq_status r = RequestPending).

(** The account's pending requests. *)
Definition pending_requests (userId : string) (t : request_table) : request_table :=
  filter (fun '(_, r) => pending_by userId r = true) t.

(** Only pending requests of the account changed, and those were cancelled. *)
Definition cancels (userId : string) (t t' : request_table) : Prop :=
  keyed rq_id t' /\ forall k, t' !! k = t !! k
    \/ exists r r', t !! k = Some r /\ pending_by userId r = true /\ t' !! k = Some r' /\ rq_status r' = RequestCancelled
                    /\ rq_user_id r' = userId.

Lemma where_pending userId r : accessRequestWhere (pending_of userId) r = pending_by userId r.
Proof. unfold accessRequestWhere, pending_of, pending_by. simpl. by rewrite !andb_true_r. Qed.

Lemma cancels_refl userId t : keyed rq_id t -> cancels userId t t.
Proof. intros Hk. split; [done|]. by left. Qed.

Lemma cancels_trans userId t1 t2 t3 : cancels userId t1 t2 -> cancels userId t2 t3 -> cancels userId t1 t3.
Proof.
  intros [_ H12] [Hk H23]. split; [done|]. intros k. destruct (H23 k) as [->|(r & r' & Hr & Hp & Hr' & Hs & Hu)].
  - apply H12.
  - destruct (H12 k) as [Heq|(x & x' & _ & _ & Hx' & Hsx & _)].
    + right. exists r, r'. split_and!; [congruence|done..].
    + rewrite Hx' in Hr. injection Hr as ->. unfold pending_by in Hp. rewrite Hsx in Hp. bool_to_prop. done.
Qed.

(** A page: pending requests of the account, and none only when there is none. *)
Lemma page_elem userId t r :
  r ∈ (requests_list (pending_of userId) None None t).1 -> exists k, t !! k = Some r /\ pending_by userId r = true.
Proof.
  unfold requests_list, paged. cbn [fst]. intros (i & Hi & _)%elem_of_take. rewrite lookup_drop in Hi.
  apply list_elem_of_lookup_2, sort_by_elem, rows_where_spec in Hi as (k & Hk & Hp). rewrite where_pending in Hp. eauto.
Qed.

Lemma page_nil userId t : (requests_list (pending_of userId) None None t).1 = [] -> pending_requests userId t = ∅.
Proof.
  unfold requests_list, paged. cbn [fst]. intros [Hn|Hn]%take_nil_inv; [done|]. change (Z.to_nat (page_offset None)) with 0%nat in Hn.
  rewrite drop_0 in Hn. apply map_empty. intros k. apply map_lookup_filter_None. right. intros r Hk Hp.
  assert (Hin : r ∈ sort_by (newest_first rq_created_at rq_id) (rows_where (accessRequestWhere (pending_of userId)) t)).
  { apply sort_by_elem, rows_where_spec. exists k. by rewrite where_pending. }
  rewrite Hn in Hin. by apply elem_of_nil in Hin.
Qed.

Lemma pending_requests_cancel userId t r r' :
  t !! rq_id r = Some r -> pending_by userId r = true -> rq_status r' = RequestCancelled ->
  size (pending_requests userId t) = S (size (pending_requests userId (<[rq_id r := r']> t))).
Proof.
  intros Hr Hp Hs. unfold pending_requests.
  rewrite map_filter_insert_False; [|unfold pending_by; rewrite Hs; intros Hf; by bool_to_prop].
  rewrite map_filter_delete.
  assert (Hin : filter (fun '(_, x) => pending_by userId x = true) t !! rq_id r = Some r) by (by apply map_lookup_filter_Some).
  rewrite (map_size_delete_Some _ _ (ex_intro _ r Hin)).
  assert (Hne : size (filter (fun '(_, x) => pending_by userId x = true) t) <> 0%nat).
  { intros Hz. apply map_size_empty_inv in Hz. by rewrite Hz, lookup_empty in Hin. }
  lia.
Qed.

(** ** The loop *)

Section Cancel.
Context (userId : string).

Abbreviation requests w := (at_requests (d_access (w_db w))).

(** Everything but the requests is as it was. *)
Definition but_requests (d d' : db) : Prop := exists t, d' = put_requests t d.

Lemma but_requests_trans d1 d2 d3 : but_requests d1 d2 -> but_requests d2 d3 -> but_requests d1 d3.
Proof. intros [t ->] [t' ->]. exists t'. by destruct d1 as [? ? ? ? ? ? ? ? []]. Qed.
Lemma but_requests_refl d : but_requests d d.
Proof. exists (at_requests (d_access d)). by destruct d as [? ? ? ? ? ? ? ? []]. Qed.

(** One update, on a row of the account. *)
Definition cancel_result (x : option AccessRequestRecord) (w w' : world) : Prop :=
  w_tx w' = true /\ but_requests (w_db w) (w_db w') /\ cancels userId (requests w) (requests w')
  /\ size (pending_requests userId (requests w))
     = ((if bool_decide (is_Some x) then 1 else 0) + size (pending_requests userId (requests w')))%nat.

Lemma cancel_one id w x w' :
  w_tx w = true -> keyed rq_id (requests w) -> (forall r, requests w !! id = Some r -> rq_user_id r = userId) ->
  request_updateIfStatus id RequestPending cancelled_only w = (Ok x, w') ->
  cancel_result x w w' /\ (forall r, requests w !! id = Some r -> pending_by userId r = true -> is_Some x).
Proof.
  intros Ht Hk Hu H0. apply statement_tx in H0 as [H0 Ht']; [|done].
  destruct (requests_updateIfStatus _ _ _ _ _ _) as [[y rows]|e] eqn:Hw; [|done]. injection H0 as -> Hd.
  unfold cancel_result. rewrite <- Hd. destruct x as [r'|].
  - apply requests_updateIfStatus_some in Hw as (r & Hr & Hs & -> & -> & _); [|done].
    pose proof (Hk _ _ Hr) as Hid. simpl in Hid. subst id.
    assert (Hp : pending_by userId r = true) by (unfold pending_by; rewrite (Hu r Hr), Hs; by rewrite !bool_decide_eq_true_2).
    split; [|eauto]. simpl. split_and!; [done|by eexists| |by apply pending_requests_cancel].
    split; [by apply keyed_write|]. intros k. destruct (decide (k = rq_id r)) as [->|Hne].
    + right. exists r. eexists. rewrite lookup_insert_eq. split_and!; [done..|]. exact (Hu r Hr).
    + left. by rewrite lookup_insert_ne.
  - apply requests_updateIfStatus_none in Hw as [-> Hn]; [|done]. simpl. split.
    + split_and!; [done|by eexists|by apply cancels_refl|done].
    + intros r Hr Hp. unfold pending_by in Hp. bool_to_prop. by destruct (Hn r Hr).
Qed.

Definition cancelled_many (n : Z) (w w' : world) : Prop :=
  w_tx w' = true /\ but_requests (w_db w) (w_db w') /\ cancels userId (requests w) (requests w') /\ 0 <= n
  /\ Z.of_nat (size (pending_requests userId (requests w))) = n + Z.of_nat (size (pending_requests userId (requests w'))).

Lemma cancelled_many_trans n m w1 w2 w3 :
  cancelled_many n w1 w2 -> cancelled_many m w2 w3 -> cancelled_many (n + m) w1 w3.
Proof.
  intros (_ & Hb & Hc & Hn & Hs) (Ht & Hb' & Hc' & Hm & Hs'). split_and!; [done|by eapply but_requests_trans|
    by eapply cancels_trans|lia|lia].
Qed.

Lemma cancelled_many_none w w' : w_tx w' = true -> w_db w' = w_db w -> keyed rq_id (requests w) -> cancelled_many 0 w w'.
Proof.
  intros Ht Hd Hk. unfold cancelled_many. rewrite Hd. split_and!; [done|apply but_requests_refl|by apply cancels_refl|lia|lia].
Qed.

Lemma cancels_owner t t' id :
  cancels userId t t' -> (forall r, t !! id = Some r -> rq_user_id r = userId) ->
  forall r, t' !! id = Some r -> rq_user_id r = userId.
Proof.
  intros [_ Hc] Hu r Hr. destruct (Hc id) as [Heq|(x & x' & _ & _ & Hx' & _ & Hux)]; [apply Hu; congruence|].
  rewrite Hx' in Hr. by injection Hr as ->.
Qed.

Definition owned (items : list AccessRequestRecord) (w : world) : Prop :=
  forall i, i ∈ items -> forall r, requests w !! rq_id i = Some r -> rq_user_id r = userId.

Lemma cancel_page_tx items w n w' :
  w_tx w = true -> keyed rq_id (requests w) -> owned items w -> cancel_page items w = (Ok n, w') -> cancelled_many n w w'.
Proof.
  revert w n w'. induction items as [|i items IH]; intros w n w' Ht Hk Ho H0; simpl in H0.
  { apply mret_ok in H0 as [-> ->]. by apply cancelled_many_none. }
  tx_bind H0 x w1 H1. apply cancel_one in H1 as [(Ht1 & Hb1 & Hc1 & Hs1) _]; [|done|done|apply Ho, list_elem_of_here].
  tx_bind H0 m w2 H2. apply mret_ok in H0 as [-> ->]. rewrite Z.add_comm.
  eapply cancelled_many_trans; [|eapply IH; [exact Ht1|apply Hc1| |exact H2]].
  - split_and!; [done..| |]; case_bool_decide; lia.
  - intros j Hj. eapply cancels_owner; [exact Hc1|]. apply Ho. by apply list_elem_of_further.
Qed.

(** The first request of a page is still there, so a page that is not empty
    cancels one. *)
Lemma cancel_page_progress i items w n w' :
  w_tx w = true -> keyed rq_id (requests w) -> owned (i :: items) w ->
  (exists k, requests w !! k = Some i /\ pending_by userId i = true) ->
  cancel_page (i :: items) w = (Ok n, w') -> 0 < n.
Proof.
  intros Ht Hk Ho (k & Hi & Hp) H0. simpl in H0. pose proof (Hk _ _ Hi) as Hid. simpl in Hid. subst k.
  tx_bind H0 x w1 H1. apply cancel_one in H1 as [(Ht1 & Hb1 & Hc1 & Hs1) Hx]; [|done|done|apply Ho, list_elem_of_here].
  tx_bind H0 m w2 H2. apply mret_ok in H0 as [-> ->].
  apply cancel_page_tx in H2 as (_ & _ & _ & Hm & _); [|done|apply Hc1|].
  - rewrite bool_decide_eq_true_2 by eauto. lia.
  - intros j Hj. eapply cancels_owner; [exact Hc1|]. apply Ho. by apply list_elem_of_further.
Qed.

Lemma page_owned w : keyed rq_id (requests w) -> owned (requests_list (pending_of userId) None None (requests w)).1 w.
Proof.
  intros Hk i (k & Hi & Hp)%page_elem r Hr. pose proof (Hk _ _ Hi) as Hid. simpl in Hid. subst k.
  unfold pending_by in Hp. bool_to_prop. congruence.
Qed.

(** An answer of the loop: none is left. *)
Lemma cancel_pages_tx fuel w n w' :
  w_tx w = true -> keyed rq_id (requests w) -> cancel_pages fuel userId w = (Ok n, w') ->
  cancelled_many n w w' /\ pending_requests userId (requests w') = ∅.
Proof.
  revert w n w'. induction fuel as [|fuel IH]; intros w n w' Ht Hk H0; cbn [cancel_pages] in H0; [done|].
  apply bind_read in H0 as (w1 & H0 & Hd1 & Ht1); [|done].
  destruct (requests_list (pending_of userId) None None (requests w)).1 as [|i items] eqn:Hpage.
  { apply mret_ok in H0 as [-> ->]. rewrite Hd1. split; [by apply cancelled_many_none|by apply page_nil]. }
  assert (Hmany : forall m v, cancelled_many m w1 v -> cancelled_many m w v) by (unfold cancelled_many; by rewrite Hd1).
  rewrite <- Hd1 in Hpage, Hk. pose proof (page_owned w1 Hk) as Ho. rewrite Hpage in Ho.
  tx_bind H0 m w2 H2. pose proof H2 as Hn. apply cancel_page_progress in Hn; [|done..|].
  2: { apply page_elem. rewrite Hpage. apply list_elem_of_here. }
  rewrite bool_decide_eq_false_2 in H0 by lia. tx_bind H0 m' w3 H3. apply mret_ok in H0 as [-> ->].
  apply cancel_page_tx in H2 as Hm; [|done..]. pose proof Hm as (Ht2 & _ & Hc2 & _).
  apply IH in H3 as [Hm' Hnone]; [|done|apply Hc2]. split; [|done]. apply Hmany. by eapply cancelled_many_trans.
Qed.

(** *** It ends *)

Definition reliable (w : world) : Prop := forall n, t_fault (w_env w n) = None.

Lemma reliable_keeps w w' : keeps w w' -> reliable w -> reliable w'.
Proof. intros (He & _) Hr n. rewrite He. apply Hr. Qed.

Lemma frame_request_update id : frame (request_updateIfStatus id RequestPending cancelled_only).
Proof. apply frame_statement. Qed.

Lemma cancel_page_frame items : frame (cancel_page items).
Proof.
  induction items as [|i items IH]; simpl; [auto with nexus|]. apply frame_bind; [apply frame_request_update|].
  intros x. apply frame_bind; [done|]. auto with nexus.
Qed.

(** To cancel breaks no index and names nobody. *)
Lemma cancel_one_answers id w : reliable w -> exists x w', request_updateIfStatus id RequestPending cancelled_only w = (Ok x, w').
Proof.
  intros Hr. unfold request_updateIfStatus, statement, cur. rewrite Hr. set (d := if w_tx w then _ else _).
  assert (Hok : exists x t, requests_updateIfStatus (refs_of d) id RequestPending cancelled_only (t_now (w_env w (w_turn w)))
                  (at_requests (d_access d)) = Ok (x, t)).
  { unfold requests_updateIfStatus. destruct (at_requests (d_access d) !! id) as [r|]; [|eauto].
    case_bool_decide; [|eauto]. simpl. unfold request_write, pending_taken, is_pending. simpl. eauto. }
  destruct Hok as (x & t & ->). eauto.
Qed.

Lemma cancel_page_answers items w : reliable w -> exists n w', cancel_page items w = (Ok n, w').
Proof.
  revert w. induction items as [|i items IH]; intros w Hr; simpl; [eauto|].
  destruct (cancel_one_answers (rq_id i) w Hr) as (x & w1 & H1). rewrite (mbind_step _ _ _ _ _ H1).
  destruct (IH w1) as (n & w2 & H2); [by eapply reliable_keeps, Hr; eapply frame_inv, H1; apply frame_request_update|].
  rewrite (mbind_step _ _ _ _ _ H2). eauto.
Qed.

Lemma bind_read_answers {A B} (f : db -> A) (k : A -> M B) w :
  w_tx w = true -> reliable w -> (do x <- read f; k x) w = k (f (w_db w)) (set_db (w_db w) (advance w)).
Proof. intros Ht Hr. unfold mbind, read, statement_ok, statement, cur. by rewrite Hr, Ht. Qed.

Lemma cancel_pages_answers fuel w :
  w_tx w = true -> keyed rq_id (requests w) -> reliable w ->
  (size (pending_requests userId (requests w)) < fuel)%nat -> exists n w', cancel_pages fuel userId w = (Ok n, w').
Proof.
  revert w. induction fuel as [|fuel IH]; intros w Ht Hk Hr Hsize; [lia|]. cbn [cancel_pages].
  rewrite bind_read_answers by done. set (w1 := set_db (w_db w) (advance w)).
  destruct (requests_list (pending_of userId) None None (requests w)).1 as [|i items] eqn:Hpage; [eauto|].
  destruct (cancel_page_answers (i :: items) w1 Hr) as (n & w2 & H2). rewrite (mbind_step _ _ _ _ _ H2).
  pose proof (page_owned w Hk) as Ho. rewrite Hpage in Ho.
  pose proof H2 as Hn. apply cancel_page_progress in Hn; [|done..|].
  2: { apply page_elem. change (requests w1) with (requests w). rewrite Hpage. apply list_elem_of_here. }
  rewrite bool_decide_eq_false_2 by lia. pose proof (frame_inv _ _ _ _ (cancel_page_frame _) H2) as Hkeep.
  apply cancel_page_tx in H2 as (Ht2 & _ & Hc2 & _ & Hs2); [|done..].
  destruct (IH w2) as (m & w3 & H3); [done|apply Hc2|by eapply reliable_keeps|change (requests w1) with (requests w) in Hs2; lia|].
  rewrite (mbind_step _ _ _ _ _ H3). eauto.
Qed.
End Cancel.

(** Whatever the keys, only the requests change. *)
Lemma cancel_pages_frame_db fuel userId w n w' :
  w_tx w = true -> cancel_pages fuel userId w = (Ok n, w') -> w_tx w' = true /\ but_requests (w_db w) (w_db w').
Proof.
  assert (Hpage : forall items w n w', w_tx w = true -> cancel_page items w = (Ok n, w') ->
            w_tx w' = true /\ but_requests (w_db w) (w_db w')).
  { clear. induction items as [|i items IH]; intros w n w' Ht H0; simpl in H0.
    { apply mret_ok in H0 as [-> ->]. split; [done|apply but_requests_refl]. }
    tx_bind H0 x w1 H1. apply statement_tx in H1 as [H1 Ht1]; [|done].
    destruct (requests_updateIfStatus _ _ _ _ _ _) as [[y rows]|e]; [|done]. injection H1 as _ Hd1.
    tx_bind H0 m w2 H2. apply mret_ok in H0 as [-> ->]. apply IH in H2 as [Ht2 Hb]; [|done]. split; [done|].
    eapply but_requests_trans; [|exact Hb]. by exists rows. }
  revert w n w'. induction fuel as [|fuel IH]; intros w n w' Ht H0; cbn [cancel_pages] in H0; [done|].
  apply bind_read in H0 as (w1 & H0 & Hd1 & Ht1); [|done]. rewrite <- Hd1.
  destruct (requests_list _ _ _ _).1 as [|i items]; [apply mret_ok in H0 as [-> ->]; split; [done|apply but_requests_refl]|].
  tx_bind H0 m w2 H2. apply Hpage in H2 as [Ht2 Hb2]; [|done].
  case_bool_decide; [apply mret_ok in H0 as [-> ->]; by split|]. tx_bind H0 m' w3 H3. apply mret_ok in H0 as [-> ->].
  apply IH in H3 as [Ht3 Hb3]; [|done]. split; [done|]. by eapply but_requests_trans.
Qed.

(** ** What a reset commits *)

(** The account is to be recovered: a job waits for it, and it has no pending
    request. *)
Definition recovery_begun (userId : string) (d d' : db) : Prop :=
  (exists k j, d_recovery d' !! k = Some j /\ Recovery.rc_user_id j = userId /\ has_status JPending j = true)
  /\ (keyed rq_id (at_requests (d_access d)) ->
      pending_requests userId (at_requests (d_access d')) = ∅
      /\ cancels userId (at_requests (d_access d)) (at_requests (d_access d'))).

Record reset_settled `{AuthDeps} (config : NexusConfig) (token userId hash : string) (r : UserRecord * bool) (d d' : db) : Prop := {
  rs_link : exists live, tokens_findByTokenHash (hashToken token) PasswordReset (ac_tokens (d_accounts d)) = Some live
              /\ vt_used_at live = None;
  rs_account : exists u at_, d_users d !! userId = Some u /\ u_status u = UserActive
                 /\ blocked_in (sso config) d (u_id u) (u_role u) = false
                 /\ r.1 = userUpdateColumns (reset_patch hash) at_ u /\ d_users d' = <[u_id u := r.1]> (d_users d);
  rs_links : forall k x, ac_tokens (d_accounts d') !! k = Some x -> of_purpose userId PasswordReset x = false;
  rs_sessions : forall k s, ac_sessions (d_accounts d') !! k = Some s <->
                  ac_sessions (d_accounts d) !! k = Some s /\ ss_user_id s <> userId;
  rs_proof : exists p, ac_proofs (d_accounts d') !! u_id r.1 = Some p /\ ep_method p = ByPasswordReset
               /\ ep_email p = toLowerCase (trim (u_email r.1));
  rs_first : r.2 = first_trusted_proof (ac_proofs (d_accounts d) !! u_id r.1) r.1;
  rs_recovery : r.2 = true -> recovery_begun (u_id r.1) d d';
}.

Lemma upsertPending_spec userId now id gen t t' job :
  Recovery.upsertPending userId now id gen t = (t', job) ->
  exists k, t' !! k = Some job /\ Recovery.rc_user_id job = userId /\ has_status JPending job = true.
Proof.
  unfold Recovery.upsertPending, job_upsert, job_find. destruct (head _) as [r|] eqn:Hh; intros [= <- <-].
  - apply head_some, rows_where_spec in Hh as (k & _ & Hu). unfold Recovery.of_user in Hu. bool_to_prop.
    eexists. rewrite lookup_insert_eq. by split_and!.
  - eexists. rewrite lookup_insert_eq. by split_and!.
Qed.

Section Reset.
Context `{AuthDeps} (config : NexusConfig).

(** The recovery half of a reset. *)
Definition begin_recovery (firstTrustedProof : bool) (userId : string) : M Z :=
  if firstTrustedProof then
    do now <- date_now;
    do_ recovery_upsertPending userId now;
    cancel_pending userId
  else mret 0.

Lemma begin_recovery_tx first userId w n w' :
  w_tx w = true -> begin_recovery first userId w = (Ok n, w') ->
  w_tx w' = true /\ d_users (w_db w') = d_users (w_db w) /\ d_accounts (w_db w') = d_accounts (w_db w)
  /\ (first = true -> recovery_begun userId (w_db w) (w_db w')).
Proof.
  unfold begin_recovery. destruct first; intros Ht H0; [|by apply mret_ok in H0 as [-> ->]].
  tx_now H0 as now. tx_bind H0 job w1 H1. apply statement_tx in H1 as [H1 Ht1]; [|done].
  destruct (Recovery.upsertPending _ _ _ _ _) as [q j] eqn:Hq. injection H1 as <- Hd1.
  apply upsertPending_spec in Hq as (k & Hk & Hj & Hs). unfold cancel_pending in H0.
  destruct (decide (keyed rq_id (at_requests (d_access (w_db w1))))) as [Hkeyed|Hno].
  - apply cancel_pages_tx in H0 as [(Ht' & [t Hb] & Hc & _) Hnone]; [|done..]. rewrite Hb in *. rewrite <- Hd1 in *. simpl in *.
    split_and!; [done..|]. intros _. split; [by exists k, j|]. intros _. by split.
  - destruct (cancel_pages_frame_db (S (size (at_requests (d_access (w_db w1))))) userId w1 n w' Ht1 H0) as (Ht' & [t Hb]).
    rewrite Hb. rewrite <- Hd1 in *. simpl in *. split_and!; [done..|]. intros _. split; [by exists k, j|]. done.
Qed.

Lemma reset_commit_tx token userId hash context w r w' :
  w_tx w = true -> reset_commit config token userId hash context w = (Ok r, w') ->
  reset_settled config token userId hash r (w_db w) (w_db w').
Proof.
  unfold reset_commit. intros Ht H0. unfold token_findByTokenHash in H0.
  apply bind_read in H0 as (w1 & H0 & Hd1 & Ht1); [|done].
  destruct (tokens_findByTokenHash _ _ _) as [live|] eqn:Hlive; [|done]. tx_now H0 as now. tx_ensure H0 as Hspend.
  apply bind_read in H0 as (w2 & H0 & Hd2 & Ht2); [|done]. unfold users_findById in H0. rewrite Hd1 in *.
  destruct (d_users (w_db w) !! userId) as [u|] eqn:Hu; [|done]. tx_ensure H0 as Hactive.
  tx_bind H0 blocked w3 H3. apply localPasswordBlocked_tx in H3 as (-> & Hd3 & Ht3); [|done]. tx_ensure H0 as Hfree.
  tx_now H0 as now2. tx_bind H0 burned w4 H4. apply statement_tx in H4 as [H4 Ht4]; [|done].
  destruct (tokens_markUsed _ _ _ _) as [tokens4 burned'] eqn:Hburn. injection H4 as -> Hd4. tx_ensure H0 as Hburned.
  tx_bind H0 updated w5 H5. apply statement_tx in H5 as [H5 Ht5]; [|done]. destruct updated as [updated|]; [|done].
  destruct (users_updateIfMatches _ _ _ _ _ _) as [[y rows]|e] eqn:Hw; [|done]. injection H5 as -> Hd5.
  apply users_updateIfMatches_ok in Hw as [[? _]|(x & Hx & _ & [(? & _)|[_ Hw]])]; [done|done|].
  apply user_write_ok in Hw as ([= ->] & -> & _). set (row := userUpdateColumns _ _ x) in *.
  apply bind_read in H0 as (w6 & H0 & Hd6 & Ht6); [|done]. cbv zeta in H0.
  set (first := first_trusted_proof (ac_proofs (d_accounts (w_db w5)) !! u_id row) row) in *.
  tx_now H0 as now3. tx_bind H0 z w7 H7. apply statement_tx in H7 as [H7 Ht7]; [|done].
  destruct (proofs_upsert _ _ _ _ _ _) as [proofs|e] eqn:Hproof; [|done]. injection H7 as _ Hd7.
  tx_bind H0 n w8 H8. change (begin_recovery first (u_id row) w7 = (Ok n, w8)) in H8.
  apply begin_recovery_tx in H8 as (Ht8 & Hu8 & Ha8 & Hrec); [|done].
  tx_bind H0 m9 w9 H9. apply statement_ok_tx in H9 as [H9 Ht9]; [|done]. injection H9 as _ Hd9.
  tx_bind H0 m10 w10 H10. apply statement_ok_tx in H10 as [H10 Ht10]; [|done]. injection H10 as _ Hd10.
  tx_bind H0 audit w11 H11. apply mret_ok in H0 as [-> ->]. apply audit_record_tx in H11 as [Hd11 _]; [|done].
  rewrite Hd11. rewrite <- Hd10, <- Hd9. clear Hd11 Hd10 Hd9.
  rewrite Hd6 in *. rewrite Hd3, Hd2 in *. rewrite <- Hd4 in *. simpl in Hx. rewrite Hu in Hx. injection Hx as <-.
  assert (Ha5 : d_accounts (w_db w5) = with_tokens tokens4 (d_accounts (w_db w))) by (by rewrite <- Hd5).
  assert (Hu7 : d_users (w_db w7) = <[u_id u := row]> (d_users (w_db w))) by (by rewrite <- Hd7, <- Hd5).
  assert (Ha7 : d_accounts (w_db w7) = with_proofs proofs (with_tokens tokens4 (d_accounts (w_db w)))) by (by rewrite <- Hd7, Ha5).
  bool_to_prop. split.
  - by exists live.
  - exists u, (t_now (cur w4)). split_and!; [done..|]. simpl. by rewrite Hu8.
  - simpl. intros k x Hk. apply map_lookup_filter_Some in Hk as [_ Hk]. exact Hk.
  - simpl. rewrite Ha8, Ha7. intros k s. rewrite map_lookup_filter_Some. simpl. by rewrite bool_decide_eq_false.
  - simpl. rewrite Ha8, Ha7. simpl. unfold proofs_upsert in Hproof. destruct (user_exists _ _); [|done].
    injection Hproof as <-. rewrite lookup_insert_eq. eexists. by split_and!.
  - simpl. unfold first. by rewrite Ha5.
  - simpl. intros Hf. destruct (Hrec Hf) as [Hjob Hpending]. split; [exact Hjob|]. rewrite <- Hd7, <- Hd5 in Hpending. exact Hpending.
Qed.
End Reset.

(** ** Lemmas: the layers around the transaction *)

Section Layers.
Context `{AuthDeps} (config : NexusConfig) (Hhash : forall s, frame (hashPassword s)).

Lemma cancel_pages_frame fuel userId : frame (cancel_pages fuel userId).
Proof.
  induction fuel as [|fuel IH]; cbn [cancel_pages]; [auto with nexus|]. apply frame_bind; [apply frame_statement_ok|].
  intros [|i items]; [auto with nexus|]. apply frame_bind; [apply cancel_page_frame|]. intros n.
  case_bool_decide; [auto with nexus|]. apply frame_bind; [done|]. auto with nexus.
Qed.

Lemma cancel_pending_frame userId : frame (cancel_pending userId).
Proof. intros w. apply cancel_pages_frame. Qed.
#[local] Hint Resolve localPasswordBlocked_frame cancel_pending_frame : nexus.

Lemma reset_commit_frame token userId hash context : frame (reset_commit config token userId hash context).
Proof.
  unfold reset_commit, token_findByTokenHash, token_markUsed, user_updateIfMatches, proof_find, proof_upsert, read,
    recovery_upsertPending, token_deleteForUser, session_deleteForUser, audit_record, users_find, ensure. frames.
Qed.

Lemma resetPassword_committed token newPassword context w u w' :
  resetPassword config token newPassword context w = (Ok u, w') ->
  exists userId hash r d d', (MIN_PASSWORD_LENGTH <= String.length newPassword)%nat
    /\ can_answer (hashPassword newPassword) hash /\ committed_within w (reset_commit config token userId hash context) r d d'.
Proof.
  unfold resetPassword. intros H0. tx_ensure H0 as Hlength. bool_to_prop.
  tx_bind H0 row w1 H1. apply (frame_inv _ _ _ _ (frame_statement_ok _)) in H1. destruct row as [row|]; [|done].
  tx_now H0 as now. tx_ensure H0 as Hlive. tx_bind H0 record w2 H2. apply (frame_inv _ _ _ _ (frame_statement_ok _)) in H2.
  destruct record as [record|]; [|done]. tx_ensure H0 as Hactive.
  tx_bind H0 blocked w3 H3. apply (frame_inv _ _ _ _ (localPasswordBlocked_frame _ _ _)) in H3. tx_ensure H0 as Hfree.
  tx_bind H0 hash w4 H4. pose proof (frame_inv _ _ _ _ (Hhash _) H4) as Hk4.
  apply serializePasswordChange_ok in H0 as (v1 & v2 & Hw). pose proof Hw as (Hv & _). tx_bind Hv r v3 Hv3.
  apply reword_ok, locks_ok in Hv3 as (v4 & v5 & Hw2). pose proof Hw2 as (Hv4 & _). apply locks_ok in Hv4 as (v6 & v7 & Hw3).
  exists (u_id record), hash, r, (t_rivals (cur v6) (w_db v6)), (w_db v7). split_and!; [done|by exists w3, w4|].
  eapply committed_later; [|apply within_committed; eapply within_trans; [exact Hw|]; by eapply within_trans].
  etrans; [exact H1|]. etrans; [exact H2|]. by etrans.
Qed.
End Layers.

(** *** Minting a link *)

(** The account's only link of the purpose is the new one, and its claim moved on
    from one old enough. *)
Definition minted `{AuthDeps} (userId : string) (purpose : VerificationTokenPurpose) (token : string) (issuedAt notBefore : Z)
    (d d' : db) : Prop :=
  (forall at_, ac_claims (d_accounts d) !! (userId, purpose_name purpose) = Some at_ -> at_ <= notBefore)
  /\ ac_claims (d_accounts d') !! (userId, purpose_name purpose) = Some issuedAt
  /\ exists r, ac_tokens (d_accounts d') !! vt_id r = Some r /\ of_purpose userId purpose r = true
       /\ vt_token_hash r = hashToken token /\ vt_used_at r = None
       /\ forall k x, ac_tokens (d_accounts d') !! k = Some x -> of_purpose userId purpose x = true -> k = vt_id r.

(** No account table changed. *)
Definition same_accounts (d d' : db) : Prop := d_users d' = d_users d /\ d_accounts d' = d_accounts d.

Section Mint.
Context `{AuthDeps} (queueEmail : option (string -> M unit)).
Context (Hqueue : forall q id env Q, queueEmail = Some q -> stays env true Q (q id)).

Lemma queue_same id w u w' :
  w_tx w = true -> match queueEmail with Some queue => queue id | None => mret tt end w = (Ok u, w') -> same_accounts (w_db w) (w_db w').
Proof.
  intros Ht H0. destruct queueEmail as [q|] eqn:Hq; [|by apply mret_ok in H0 as [_ ->]].
  destruct (Hqueue q id (w_env w) (fun u a => u = d_users (w_db w) /\ a = d_accounts (w_db w)) eq_refl) as [_ Hs].
  specialize (Hs w eq_refl Ht (conj eq_refl eq_refl)). rewrite H0 in Hs. apply Hs. by right.
Qed.

Lemma mint_link_tx userId role purpose token email action ttl issuedAt notBefore context w u w' :
  w_tx w = true ->
  mint_link userId role purpose token email action ttl issuedAt notBefore queueEmail context w = (Ok u, w') ->
  (same_accounts (w_db w) (w_db w')
   /\ exists at_, ac_claims (d_accounts (w_db w)) !! (userId, purpose_name purpose) = Some at_ /\ notBefore < at_)
  \/ minted userId purpose token issuedAt notBefore (w_db w) (w_db w').
Proof.
  unfold mint_link. intros Ht H0. tx_bind H0 claimed w1 H1. apply statement_tx in H1 as [H1 Ht1]; [|done].
  unfold tokens_claimIssue in H1. cbv zeta in H1. set (key := (userId, purpose_name purpose)) in *.
  assert (Hclaim : (claimed = false /\ same_accounts (w_db w) (w_db w1)
                    /\ exists at_, ac_claims (d_accounts (w_db w)) !! key = Some at_ /\ notBefore < at_)
                   \/ (claimed = true /\ (forall at_, ac_claims (d_accounts (w_db w)) !! key = Some at_ -> at_ <= notBefore)
                       /\ ac_claims (d_accounts (w_db w1)) !! key = Some issuedAt)).
  { destruct (ac_claims _ !! key) as [at_|] eqn:Hc; [case_bool_decide|destruct (user_exists _ _); [|done]];
      injection H1 as <- <-; [right|left|right]; simpl.
    - split_and!; [done|by intros x [= <-]|apply lookup_insert_eq].
    - split_and!; [done|split; simpl; by destruct (d_accounts (w_db w))|exists at_; split; [done|lia]].
    - split_and!; [done|by intros x|apply lookup_insert_eq]. }
  destruct Hclaim as [(-> & Hsame & Hold)|(-> & Hold & Hnew)]; simpl in H0.
  { left. apply mret_ok in H0 as [_ ->]. by split. }
  right. tx_bind H0 n w2 H2. apply statement_ok_tx in H2 as [H2 Ht2]; [|done]. injection H2 as _ Hd2.
  tx_bind H0 expires w3 H3. unfold isoInSeconds in H3. tx_now H3 as now. apply mret_ok in H3 as [-> ->].
  tx_bind H0 r w4 H4. apply statement_tx in H4 as [H4 Ht4]; [|done].
  destruct (tokens_create _ _ _) as [[r' rows]|e] eqn:Hc; [|done]. injection H4 as -> Hd4.
  apply tokens_create_ok in Hc as (-> & -> & _). tx_bind H0 audit w5 H5. apply audit_record_tx in H5 as [Hd5 Ht5]; [|done].
  apply queue_same in H0 as [_ Ha]; [|done]. unfold minted. rewrite Ha, Hd5. simpl. rewrite <- Hd4. simpl. rewrite <- Hd2. simpl.
  set (row := token_row userId token purpose _ _ _). split_and!; [done|done|]. exists row. rewrite lookup_insert_eq.
  split_and!; [done| |done..|].
  - unfold of_purpose. simpl. by rewrite !bool_decide_eq_true_2.
  - intros k x Hk Hp. simpl. map_cases; [done|]. unfold of_purpose in Hp. simpl in *. congruence.
Qed.
End Mint.

(** ** Properties *)


(** The client asks for a link and redeems it. *)
Definition sample_forgotten : world :=
  serve_all sample_config [CallForgotPassword "client@example.org" sample_context] sample_founded.
Definition sample_link : string :=
  match rows_where (fun r => bool_decide (vt_purpose r = PasswordReset)) (ac_tokens (d_accounts (w_db sample_forgotten))) with
  | r :: _ => String.substring 8 (String.length (vt_token_hash r) - 8) (vt_token_hash r)
  | [] => ""%string
  end.



(** Sixty requests on three APIs, half of them the client's. *)
Definition sample_pending (i : nat) : AccessRequestRecord := {|
  rq_id := "request " +:+ pretty i; rq_api_id := "api " +:+ pretty i; rq_user_id := if Nat.even i then "u1" else "u2";
  rq_application_id := None; rq_justification := ""; rq_requested_tools := None; rq_approved_tools := None; rq_grant_id := None;
  rq_status := RequestPending; rq_decided_by := None; rq_decided_at := None; rq_decision_note := None;
  rq_created_at := Z.of_nat i; rq_updated_at := 0;
|}.
Definition sample_crowd : request_table := list_to_map (map (fun i => (rq_id (sample_pending i), sample_pending i)) (seq 0 60)).
Definition sample_open : world := set_tx true (world_of (put_requests sample_crowd db_empty) sample_turn []).



