(* ===== verification/RequestSessions.v ===== *)
(** * Requests and the sessions they present

    What a request that a guard let through presented, and how long a session
    lives. *)

From S2P Require Import Prelude Json Roles Users AccessTables AccountTables World AccessStore AccountStore Provisioner Auth AuthPlugin UsersService AccountLogic AccountInvariants AccountService.
Open Scope Z_scope.

(** ** The session a request presents *)

(** The databases the hook's two reads see, and the clock between them. *)
Definition at_session_read (w : world) : db := t_rivals (w_env w (w_turn w)) (w_db w).
Definition at_user_read (w : world) : db := t_rivals (w_env w (S (w_turn w))) (at_session_read w).
Definition hook_clock (w : world) : Z := t_now (w_env w (S (w_turn w))).

(** The cookie names a live session of an active account. *)
Record presented `{AuthDeps} (config : NexusConfig) (request : HttpRequest) (user : UserRecord) (session : SessionRecord)
    (w : world) : Prop := {
  pr_api : isApiRequest request = true;
  pr_token : exists token s, hr_session_cookie request = Some token
    /\ sessions_findByTokenHash (hashToken token) (ac_sessions (d_accounts (at_session_read w))) = Some s
    /\ ss_token_hash s = hashToken token
    /\ hook_clock w < ss_expires_at s /\ hook_clock w < session_deadline config s
    /\ d_users (at_user_read w) !! ss_user_id s = Some user
    /\ (session = s \/ exists e, slid_to config s (hook_clock w) = Some e /\ session = with_expiry s e)
    /\ (hr_method request ∉ SAFE_METHODS -> default ""%string (hr_route request) ∉ CSRF_EXEMPT_PATHS ->
        headerValue (hr_csrf_header request) = Some (ss_csrf_token s)
        /\ hr_csrf_cookie request = Some (ss_csrf_token s));
  pr_active : u_status user = UserActive;
}.

(** ** Lemmas *)

Lemma session_live_spec config s now :
  session_live config s now = true <-> now < ss_expires_at s /\ now < session_deadline config s.
Proof.
  unfold session_live, sessionIsLive, session_deadline. simpl. case_bool_decide; simpl; [|by split; [|lia]].
  rewrite bool_decide_eq_true. split; [by split|by intros [_ ?]].
Qed.

Lemma safeEqual_spec a b : safeEqual a b = true -> exists x, a = Some x /\ b = Some x.
Proof. destruct a, b; try done. simpl. intros ->%String.eqb_eq. eauto. Qed.

Lemma read_out {A} (f : db -> A) w a w' :
  w_tx w = false -> read f w = (Ok a, w') ->
  a = f (t_rivals (cur w) (w_db w)) /\ w' = set_db (t_rivals (cur w) (w_db w)) (advance w).
Proof.
  intros Ht H0. apply statement_ok_inv in H0 as (d & -> & Hf & ->). rewrite Ht in Hf. injection Hf as <- Hd. by rewrite Hd.
Qed.

Section Hooks.
Context `{AuthDeps} (config : NexusConfig).

Lemma slide_ok request token s user now w r w' :
  slide config request token s user now w = (Ok r, w') ->
  rs_user r = Some user /\ exists s', rs_session r = Some s' /\ ss_csrf_token s' = ss_csrf_token s
    /\ (s' = s \/ exists e, slid_to config s now = Some e /\ s' = with_expiry s e).
Proof.
  unfold slide. destruct (hr_sharedCacheable request).
  - intros [-> _]%mret_ok. simpl. split; [done|]. exists s. split_and!; [done..|by left].
  - destruct (slid_to config s now) as [e|] eqn:He.
    + intros H0. tx_bind H0 x w1 H1. apply mret_ok in H0 as [-> _]. simpl. split; [done|]. eexists.
      split_and!; [done..|right]. by exists e.
    + intros [-> _]%mret_ok. simpl. split; [done|]. exists s. split_and!; [done..|by left].
Qed.

Lemma check_csrf_ok request r w u w' s :
  check_csrf request r w = (Ok u, w') -> isApiRequest request = true -> rs_session r = Some s ->
  hr_method request ∉ SAFE_METHODS -> default ""%string (hr_route request) ∉ CSRF_EXEMPT_PATHS ->
  headerValue (hr_csrf_header request) = Some (ss_csrf_token s) /\ hr_csrf_cookie request = Some (ss_csrf_token s).
Proof.
  unfold check_csrf. intros H0 Hapi Hs Hm Hp. rewrite bool_decide_eq_false_2, Hapi in H0 by done. simpl in H0.
  rewrite bool_decide_eq_false_2, Hs in H0 by done. apply ensure_ok in H0 as [Hc _]. bool_to_prop.
  repeat match goal with Hx : safeEqual _ _ = true |- _ => apply safeEqual_spec in Hx as (? & ? & ?) end. by simplify_eq.
Qed.

Lemma on_request_presented request w r w' user session :
  w_tx w = false -> resolve_request config request w = (Ok r, w') -> rs_user r = Some user -> rs_session r = Some session ->
  presented config request user session w.
Proof.
  intros Ht H0 Hu Hs. unfold resolve_request in H0. tx_bind H0 r' w1 H1. tx_bind H0 x w2 H2. apply mret_ok in H0 as [<- _].
  unfold resolve_session in H1. destruct (needsSession request) eqn:Hapi; [|by apply mret_ok in H1 as [-> _]]. simpl in H1.
  destruct (hr_session_cookie request) as [[|c token]|] eqn:Hcookie; [by apply mret_ok in H1 as [-> _]| |by apply mret_ok in H1 as [-> _]].
  set (tk := String c token) in *. unfold session_findByTokenHash in H1. tx_bind H1 hit w3 H3. apply read_out in H3 as [-> ->]; [|done].
  destruct (sessions_findByTokenHash _ _) as [s|] eqn:Hfound; [|by apply mret_ok in H1 as [-> _]].
  tx_bind H1 now w4 H4. apply date_now_ok in H4 as [-> ->].
  change (t_now (cur (set_db _ (advance w)))) with (hook_clock w) in H1.
  destruct (session_live config s (hook_clock w)) eqn:Hlive; simpl in H1;
    [|by tx_bind H1 y w5 H5; apply mret_ok in H1 as [-> _]].
  tx_bind H1 user' w5 H5. apply (read_out (fun d => users_findById (ss_user_id s) (d_users d))) in H5 as [-> ->]; [|done].
  destruct (users_findById _ _) as [user'|] eqn:Huser; [|by tx_bind H1 y w6 H6; apply mret_ok in H1 as [-> _]].
  case_bool_decide as Hactive; [|by tx_bind H1 y w6 H6; apply mret_ok in H1 as [-> _]].
  apply slide_ok in H1 as (Hu' & s' & Hs' & Hcsrf & Hslid). rewrite Hu in Hu'. rewrite Hs in Hs'. simplify_eq.
  apply session_live_spec in Hlive as [Hexp Hage]. split; [done| |done]. exists tk, s. split_and!; [done|exact Hfound| |done|done|exact Huser|done|].
  - unfold sessions_findByTokenHash in Hfound. apply head_some, rows_where_spec in Hfound as (k & _ & Hh). by bool_to_prop.
  - intros Hm Hp. rewrite <- Hcsrf. by eapply check_csrf_ok.
Qed.

Lemma requireRole_ok role r user session :
  requireRole role r = Ok (user, session) ->
  rs_user r = Some user /\ rs_session r = Some session /\ u_status user = UserActive
  /\ roleAtLeast (role_name (u_role user)) (role_name role) = true.
Proof.
  unfold requireRole, requireAuth. destruct (rs_user r) as [u|], (rs_session r) as [s|]; try done.
  case_bool_decide; [|done]. destruct (roleAtLeast _ _) eqn:Hr; [|done]. by intros [= <- <-].
Qed.
End Hooks.

(** ** How long a session lives

    [visit]: the hook's slide at a time; [None] once the session is dead. *)
Definition visit (config : NexusConfig) (s : SessionRecord) (now : Z) : option SessionRecord :=
  if session_live config s now
  then Some (match slid_to config s now with Some e => with_expiry s e | None => s end)
  else None.

Fixpoint visits (config : NexusConfig) (s : SessionRecord) (times : list Z) : option SessionRecord :=
  match times with
  | [] => Some s
  | now :: rest => s' ← visit config s now; visits config s' rest
  end.

(** Each visit comes less than half the idle time after the one before. *)
Fixpoint steady (config : NexusConfig) (last : Z) (times : list Z) : Prop :=
  match times with
  | [] => True
  | now :: rest => last <= now /\ 2 * (now - last) < sessionTtlSeconds config * 1000 /\ steady config now rest
  end.

Lemma visit_deadline config s now s' :
  visit config s now = Some s' -> session_deadline config s' = session_deadline config s.
Proof. unfold visit. destruct (session_live _ _ _); [|done]. intros [= <-]. by destruct (slid_to _ _ _). Qed.

(** A visit leaves half the idle time, or what the absolute age leaves. *)
Lemma visit_expiry config s now s' :
  visit config s now = Some s' ->
  ss_expires_at s <= ss_expires_at s' /\ (ss_expires_at s' <= session_deadline config s \/ ss_expires_at s' = ss_expires_at s)
  /\ (ss_expires_at s' <= now + sessionTtlSeconds config * 1000 \/ ss_expires_at s' = ss_expires_at s)
  /\ (now + sessionTtlSeconds config * 1000 <= 2 * ss_expires_at s' - now \/ session_deadline config s <= ss_expires_at s').
Proof.
  unfold visit. destruct (session_live config s now) eqn:Hl; [|done]. apply session_live_spec in Hl as [Hexp Hage].
  intros [= <-]. unfold slid_to. case_bool_decide as Hhalf; simpl; [|by split_and!; lia || auto].
  case_bool_decide as Hslid; simpl; [split_and!; lia|].
  split_and!; [lia|auto|auto|]. destruct (Z.min_spec (now + sessionTtlSeconds config * 1000) (session_deadline config s)); lia.
Qed.

Lemma steady_alive config times last s :
  last <= ss_expires_at s -> last < session_deadline config s ->
  (last + sessionTtlSeconds config * 1000 <= 2 * ss_expires_at s - last \/ session_deadline config s <= ss_expires_at s) ->
  steady config last times -> (forall t, t ∈ times -> t < session_deadline config s) ->
  exists s', visits config s times = Some s'.
Proof.
  revert last s. induction times as [|now rest IH]; intros last s Hl Hd Hroom Hs Ht; [by exists s|]. simpl.
  destruct Hs as (Hord & Hgap & Hrest). pose proof (Ht now (list_elem_of_here _ _)) as Hnow.
  destruct (visit config s now) as [s1|] eqn:Hv; simpl.
  - pose proof (visit_deadline _ _ _ _ Hv) as Hd1. pose proof (visit_expiry _ _ _ _ Hv) as (Hm & _ & _ & Hroom1).
    assert (Hexp : now < ss_expires_at s).
    { unfold visit in Hv. destruct (session_live config s now) eqn:Hlive; [|done]. by apply session_live_spec in Hlive as [? _]. }
    apply (IH now); [lia|by rewrite Hd1|by rewrite Hd1|done|]. intros t Hin. rewrite Hd1. apply Ht. by apply list_elem_of_further.
  - exfalso. unfold visit in Hv. destruct (session_live config s now) eqn:Hlive; [done|].
    assert (session_live config s now = true) by (apply session_live_spec; lia). congruence.
Qed.

Lemma visits_bounds config times s s' :
  visits config s times = Some s' ->
  session_deadline config s' = session_deadline config s
  /\ (ss_expires_at s' <= session_deadline config s \/ ss_expires_at s' = ss_expires_at s)
  /\ forall t, t ∈ times -> t < session_deadline config s.
Proof.
  revert s. induction times as [|now rest IH]; intros s Hv; simpl in Hv.
  { injection Hv as <-. split_and!; [done|by right|]. intros t Ht. by apply elem_of_nil in Ht. }
  destruct (visit config s now) as [s1|] eqn:H1; [|done]. simpl in Hv. pose proof (visit_deadline _ _ _ _ H1) as Hd.
  pose proof (visit_expiry _ _ _ _ H1) as (_ & He & _). destruct (IH s1 Hv) as (Hd' & He' & Ht').
  rewrite Hd in *. split_and!; [done|destruct He' as [?|Heq]; [by left|by rewrite Heq]|].
  intros t [->|Ht]%elem_of_cons; [|by apply Ht']. unfold visit in H1. destruct (session_live config s now) eqn:Hl; [|done].
  by apply session_live_spec in Hl as [_ ?].
Qed.

(** ** Properties *)

(** C13: a request behind a guard is the holder's. If [requireRole] lets a request
    through, the route is of the API, the cookie's token hashes to a session that
    was there, live by its idle time and by its absolute age at the time of the
    request; its account was there and active, and has the role; the session it
    is given is that one, its expiry at most slid; and a request that may change
    something, on a route that is not exempt, sent the CSRF token of that session
    both in its header and in its cookie. *)
Theorem guarded_requests_are_authentic `{AuthDeps} config role request w user session w'
    (Ht : w_tx w = false) (Hguard : guarded_route config role request w = (Ok (user, session), w')) :
  presented config request user session w /\ roleAtLeast (role_name (u_role user)) (role_name role) = true.
Proof.
  unfold guarded_route in Hguard. tx_bind Hguard r w1 H1. destruct (requireRole role r) as [[u s]|e] eqn:Hr; [|done].
  apply mret_ok in Hguard as [[= -> ->] _]. apply requireRole_ok in Hr as (Hu & Hs & _ & Hrole).
  split; [by eapply on_request_presented|done].
Qed.

(** The client's own request; a guard for an administrator, a token that does not
    match, and the same request after a sign-out, are refused. *)
Lemma guarded_requests_are_authentic_witness :
  let csrf := Some "id-35-0"%string in
  let run role request w := guarded_route sample_config role request w in
  let post header := sample_request "POST" (Some "id-34-0"%string) header in
  (exists user session, (run client (post csrf) sample_founded).1 = Ok (user, session)
     /\ presented sample_config (post csrf) user session sample_founded)
  /\ (run admin (post csrf) sample_founded).1 = Throw (forbidden "This action requires the admin role")
  /\ (run client (post (Some "another"%string)) sample_founded).1 = Throw csrfMismatch
  /\ (run client (post csrf) (serve_all sample_config [sample_disable] sample_founded)).1
     = Throw (unauthorized "Authentication required").
Proof.
  cbv zeta. split; [|split; [|split]; vm_compute; reflexivity].
  destruct (guarded_route sample_config client (sample_request "POST" (Some "id-34-0"%string) (Some "id-35-0"%string)) sample_founded)
    as [[[user session]|e] w'] eqn:Hg; [|exfalso; vm_compute in Hg; discriminate Hg].
  destruct (guarded_requests_are_authentic sample_config client _ sample_founded user session w' eq_refl Hg) as [Hp _].
  exists user, session. exact (conj eq_refl Hp).
Defined.

(** C22: the life of a session. However often it is visited, a slide never carries
    its expiry past its absolute age, and no visit at or past that age finds it
    alive; and a session that was just slid, visited again each time before half
    the idle time went by, is alive at every visit before its absolute age. *)
Theorem session_lives_between_its_bounds config s now s1 times
    (Hfirst : visit config s now = Some s1) (Hissued : ss_expires_at s <= session_deadline config s) :
  (forall s', visits config s1 times = Some s' -> ss_expires_at s' <= session_deadline config s)
  /\ (forall t, t ∈ times -> session_deadline config s <= t -> visits config s1 times = None)
  /\ (steady config now times -> (forall t, t ∈ times -> t < session_deadline config s) ->
      exists s', visits config s1 times = Some s').
Proof.
  pose proof (visit_deadline _ _ _ _ Hfirst) as Hd. pose proof (visit_expiry _ _ _ _ Hfirst) as (Hm & He & _ & Hroom).
  assert (Hlive : now < ss_expires_at s /\ now < session_deadline config s).
  { apply session_live_spec. unfold visit in Hfirst. by destruct (session_live config s now). }
  split_and!.
  - intros s' (_ & [?|?] & _)%visits_bounds; lia.
  - intros t Ht Hpast. destruct (visits config s1 times) as [s'|] eqn:Hv; [|done].
    apply visits_bounds in Hv as (_ & _ & Hall). specialize (Hall t Ht). lia.
  - intros Hs Hall. apply (steady_alive config times now); [lia|lia|by rewrite Hd|done|]. intros t Ht. rewrite Hd. by apply Hall.
Qed.

(** An hour of idle time in a two-hour age: visited every 25 minutes, the session
    lives until its age; left alone for an hour, it dies. *)
Lemma session_lives_between_its_bounds_witness :
  let s := session_row "token" "csrf" "u1" 3600000 sample_context "s1" 0 in
  let minutes := map (fun m => m * 60000) in
  (exists s', visits sample_config s (minutes [1; 26; 51; 76; 101; 119]) = Some s')
  /\ visits sample_config s (minutes [1; 26; 51; 76; 101; 120]) = None
  /\ visits sample_config s (minutes [1; 61]) = None.
Proof.
  cbv zeta. split; [|split; vm_compute; reflexivity].
  apply (session_lives_between_its_bounds sample_config (session_row "token" "csrf" "u1" 3600000 sample_context "s1" 0) 60000
           (session_row "token" "csrf" "u1" 3600000 sample_context "s1" 0)
           (map (fun m => m * 60000) [26; 51; 76; 101; 119])).
  - vm_compute. reflexivity.
  - vm_compute. discriminate.
  - simpl. lia.
  - intros t Ht. apply list_elem_of_In in Ht. simpl in Ht. unfold session_deadline. simpl. lia.
Defined.
