(* ===== verification/AccountAdministration.v ===== *)
(** * What an administrator's change commits

    The change of a role or a status, with what it ends, and the release of a
    disabled account's address. *)

From S2P Require Import Prelude Json Roles Users Outbox JobQueues AuditLog AccessTables CredentialTables AccountTables World AccessStore AccountStore LeaseFence KeyedSerializer Provisioner TeardownWorker Auth AuthPlugin UsersService AccountLogic AccountPrograms AccountInvariants AccountService SignIn PasswordReset.
Open Scope Z_scope.

(** ** The rules *)

Definition no_session (id : string) (d : db) : Prop :=
  forall k s, ac_sessions (d_accounts d) !! k = Some s -> ss_user_id s <> id.
Definition no_link (id : string) (purpose : VerificationTokenPurpose) (d : db) : Prop :=
  forall k x, ac_tokens (d_accounts d) !! k = Some x -> of_purpose id purpose x = false.
Definition teardown_queued (id : string) (job : option Teardown.Job) (d : db) : Prop :=
  exists k j, job = Some j /\ d_teardown d !! k = Some j /\ Teardown.td_user_id j = id /\ has_status JPending j = true.

(** Only a super admin hands out or takes away an administrator's role, or changes
    the status of one; nobody disables their own account; and a plan is of no
    other column than these, the organization and the name. *)
Record authorised (actor target : UserRecord) (p : UserPlan) : Prop := {
  au_role : forall role, up_role (pl_update p) = Some role ->
    isElevated role = true \/ isElevated (u_role target) = true -> u_role actor = super_admin;
  au_status : forall status, up_status (pl_update p) = Some status ->
    isElevated (u_role target) = true -> u_role actor = super_admin;
  au_self : up_status (pl_update p) = Some UserDisabled -> u_id target <> u_id actor;
  au_columns : up_email (pl_update p) = None /\ up_password_hash (pl_update p) = None
    /\ up_email_verified (pl_update p) = None /\ up_last_login_at (pl_update p) = None;
}.

(** What the transition did to the account it found as the plan had it. *)
Record standing_changed (target : UserRecord) (p : UserPlan) (row : UserRecord) (job : option Teardown.Job) (d d' : db) : Prop := {
  sc_row : exists x, d_users d !! u_id target = Some x /\ u_role x = u_role target /\ u_status x = u_status target
    /\ u_role row = default (u_role x) (up_role (pl_update p)) /\ u_status row = default (u_status x) (up_status (pl_update p))
    /\ d_users d' = <[u_id x := row]> (d_users d);
  sc_disabled : sets_status UserDisabled p = true ->
    no_session (u_id target) d' /\ no_link (u_id target) PasswordReset d' /\ teardown_queued (u_id target) job d';
  sc_raised : pl_privilegeIncreased target p = true -> no_session (u_id target) d';
  sc_enabled : sets_status UserActive p = true ->
    no_link (u_id target) PasswordReset d' /\ forall k j, d_teardown d' !! k = Some j -> Teardown.td_user_id j <> u_id target;
}.

(** ** Lemmas: what ends with a change *)

(** Nothing was added to the sessions or the links. *)
Definition access_narrowed (d d' : db) : Prop :=
  d_users d' = d_users d /\ ac_sessions (d_accounts d') ⊆ ac_sessions (d_accounts d)
  /\ ac_tokens (d_accounts d') ⊆ ac_tokens (d_accounts d).

#[local] Instance access_narrowed_preorder : PreOrder access_narrowed.
Proof.
  split; [done|]. intros d1 d2 d3 (Hu & Hs & Ht) (Hu' & Hs' & Ht'). split_and!; [congruence|by etrans|by etrans].
Qed.

Lemma no_session_narrowed id d d' : access_narrowed d d' -> no_session id d -> no_session id d'.
Proof. intros (_ & Hs & _) Hn k s Hk. apply (Hn k). by eapply lookup_weaken. Qed.
Lemma no_link_narrowed id purpose d d' : access_narrowed d d' -> no_link id purpose d -> no_link id purpose d'.
Proof. intros (_ & _ & Ht) Hn k x Hk. apply (Hn k). by eapply lookup_weaken. Qed.

Lemma session_deleteForUser_tx id w n w' :
  w_tx w = true -> session_deleteForUser id w = (Ok n, w') ->
  w_tx w' = true /\ access_narrowed (w_db w) (w_db w') /\ no_session id (w_db w') /\ d_teardown (w_db w') = d_teardown (w_db w).
Proof.
  intros Ht H0. apply statement_ok_tx in H0 as [H0 Ht']; [|done]. injection H0 as _ <-. split_and!; [done| | |done].
  - split_and!; [done|apply map_filter_subseteq|done].
  - intros k s Hk. simpl in Hk. apply map_lookup_filter_Some in Hk as [_ Hk]. by bool_to_prop.
Qed.

Lemma token_deleteForUser_tx id purpose w n w' :
  w_tx w = true -> token_deleteForUser id purpose w = (Ok n, w') ->
  w_tx w' = true /\ access_narrowed (w_db w) (w_db w') /\ no_link id purpose (w_db w')
  /\ d_teardown (w_db w') = d_teardown (w_db w) /\ d_outbox (w_db w') = d_outbox (w_db w).
Proof.
  intros Ht H0. apply statement_ok_tx in H0 as [H0 Ht']; [|done]. injection H0 as _ <-. split_and!; [done| | |done|done].
  - split_and!; [done|done|apply map_filter_subseteq].
  - intros k x Hk. simpl in Hk. by apply map_lookup_filter_Some in Hk as [_ Hk].
Qed.

Lemma teardown_upsert_spec userId by_ now id gen t t' job :
  Teardown.upsertPending userId by_ now id gen t = (t', job) ->
  exists k, t' !! k = Some job /\ Teardown.td_user_id job = userId /\ has_status JPending job = true.
Proof.
  unfold Teardown.upsertPending, job_upsert, job_find. destruct (head _) as [r|] eqn:Hh; intros [= <- <-].
  - apply head_some, rows_where_spec in Hh as (k & _ & Hu). unfold Teardown.of_user in Hu. bool_to_prop.
    eexists. rewrite lookup_insert_eq. by split_and!.
  - eexists. rewrite lookup_insert_eq. by split_and!.
Qed.

Lemma end_access_tx actor target p w r w' :
  w_tx w = true -> end_access actor target p w = (Ok r, w') ->
  access_narrowed (w_db w) (w_db w')
  /\ (sets_status UserDisabled p = true ->
        no_session (u_id target) (w_db w') /\ no_link (u_id target) PasswordReset (w_db w')
        /\ teardown_queued (u_id target) r.1.1 (w_db w'))
  /\ (pl_privilegeIncreased target p = true -> no_session (u_id target) (w_db w'))
  /\ (sets_status UserActive p = true ->
        no_link (u_id target) PasswordReset (w_db w')
        /\ forall k j, d_teardown (w_db w') !! k = Some j -> Teardown.td_user_id j <> u_id target).
Proof.
  unfold end_access. intros Ht H0. tx_bind H0 disabled w1 H1. destruct disabled as [[job sessions] links].
  assert (Hd : w_tx w1 = true /\ access_narrowed (w_db w) (w_db w1) /\
    (sets_status UserDisabled p = true -> no_session (u_id target) (w_db w1) /\ no_link (u_id target) PasswordReset (w_db w1)
       /\ teardown_queued (u_id target) job (w_db w1))).
  { destruct (sets_status UserDisabled p); [|by apply mret_ok in H1 as [_ ->]].
    tx_now H1 as now. tx_bind H1 j w2 H2. apply statement_ok_tx in H2 as [H2 Ht2]; [|done].
    destruct (Teardown.upsertPending _ _ _ _ _ _) as [q j'] eqn:Hq. injection H2 as -> Hd2.
    apply teardown_upsert_spec in Hq as (k & Hk & Hu & Hs).
    tx_bind H1 n w3 H3. apply session_deleteForUser_tx in H3 as (Ht3 & Hn3 & Hs3 & Hq3); [|done].
    tx_bind H1 m w4 H4. apply token_deleteForUser_tx in H4 as (Ht4 & Hn4 & Hl4 & Hq4 & _); [|done].
    apply mret_ok in H1 as [[= -> _ _] ->]. split_and!; [done| |intros _; split_and!; [by eapply no_session_narrowed|done|]].
    - transitivity (w_db w2); [by rewrite <- Hd2|by etrans].
    - exists k, j. split_and!; [done| |done..]. by rewrite Hq4, Hq3, <- Hd2. }
  destruct Hd as (Ht1 & Hn1 & Hdisabled). tx_bind H0 sessions' w2 H2.
  assert (Hr : w_tx w2 = true /\ access_narrowed (w_db w1) (w_db w2) /\ d_teardown (w_db w2) = d_teardown (w_db w1) /\
    (pl_privilegeIncreased target p = true -> sets_status UserDisabled p = false -> no_session (u_id target) (w_db w2))).
  { destruct (pl_privilegeIncreased target p), (sets_status UserDisabled p); simpl in H2;
      first [by apply session_deleteForUser_tx in H2 as (? & ? & ? & ?)|by apply mret_ok in H2 as [_ ->]]. }
  destruct Hr as (Ht2 & Hn2 & Hq2 & Hraised). tx_bind H0 links' w3 H3. apply mret_ok in H0 as [-> ->]. simpl.
  assert (He : access_narrowed (w_db w2) (w_db w3) /\ (sets_status UserActive p = false -> w_db w3 = w_db w2) /\
    (sets_status UserActive p = true -> no_link (u_id target) PasswordReset (w_db w3)
        /\ forall k j, d_teardown (w_db w3) !! k = Some j -> Teardown.td_user_id j <> u_id target)).
  { destruct (sets_status UserActive p); [|by apply mret_ok in H3 as [_ ->]].
    tx_bind H3 b w4 H4. apply statement_ok_tx in H4 as [H4 Ht4]; [|done].
    destruct (Teardown.deleteByUser _ _) as [q b'] eqn:Hq. injection H4 as -> Hd4.
    tx_bind H3 m w5 H5. apply token_deleteForUser_tx in H5 as (_ & Hn5 & Hl5 & Hq5 & _); [|done]. apply mret_ok in H3 as [_ ->].
    split_and!; [transitivity (w_db w4); [by rewrite <- Hd4|done]|done|intros _; split; [done|]].
    rewrite Hq5, <- Hd4. simpl. intros k j Hk Hu. unfold Teardown.deleteByUser, job_deleteBy in Hq.
    injection Hq as <- _. apply map_lookup_filter_Some in Hk as [_ Hk]. unfold Teardown.of_user in Hk. by bool_to_prop. }
  destruct He as (Hn3 & Hsame & Henabled). split_and!; [by do 2 (etrans; [eassumption|])| | |done].
  - intros Hs. destruct (Hdisabled Hs) as (Hses & Hlink & Hjob).
    assert (Ha : sets_status UserActive p = false).
    { unfold sets_status in *. destruct (up_status (pl_update p)) as [[]|]; by bool_to_prop. }
    rewrite (Hsame Ha). split_and!; [by eapply no_session_narrowed|by eapply no_link_narrowed|].
    destruct Hjob as (k & j & -> & Hk & Hrest). exists k, j. by rewrite Hq2.
  - intros Hp. destruct (sets_status UserDisabled p) eqn:Hs.
    + eapply no_session_narrowed; [|apply Hdisabled; done]. by etrans.
    + eapply no_session_narrowed; [exact Hn3|by apply Hraised].
Qed.

(** ** Lemmas: the plan *)

Lemma top_role role : roleAtLeast (role_name role) "super_admin" = true -> role = super_admin.
Proof. by destruct role. Qed.

Section Plan.
Context `{AuthDeps} `{UsersDeps} `{TeardownService}.

Lemma plan_role_ok actor target asked_ w r w' :
  plan_role actor target asked_ w = (Ok r, w') ->
  forall role, r = Some role -> isElevated role = true \/ isElevated (u_role target) = true -> u_role actor = super_admin.
Proof.
  unfold plan_role. destruct asked_ as [role|]; [|by intros [-> _]%mret_ok].
  case_bool_decide; [by intros [-> _]%mret_ok|]. intros Hrun. tx_ensure Hrun as Hok. tx_bind Hrun x w1 H3.
  apply mret_ok in Hrun as [-> _]. intros role' [= <-] Hel. apply top_role.
  destruct (roleAtLeast (role_name (u_role actor)) "super_admin"); [done|]. simpl in Hok.
  destruct Hel as [E|E]; rewrite E in Hok; [done|]. by rewrite orb_true_r in Hok.
Qed.

Lemma plan_status_ok actor target asked_ w r w' :
  plan_status actor target asked_ w = (Ok r, w') ->
  (forall status, r = Some status -> isElevated (u_role target) = true -> u_role actor = super_admin)
  /\ (r = Some UserDisabled -> u_id target <> u_id actor).
Proof.
  unfold plan_status. destruct asked_ as [status|]; [|by intros [-> _]%mret_ok].
  case_bool_decide; [by intros [-> _]%mret_ok|]. intros Hrun. unfold only_super_admin in Hrun. tx_ensure Hrun as Hok.
  tx_bind Hrun x w1 H3. apply mret_ok in Hrun as [-> _]. split.
  - intros status' _ Hel. apply top_role. rewrite Hel in Hok. simpl in Hok. by bool_to_prop.
  - intros [= ->]. simpl in H3. tx_bind H3 y w2 H4. apply ensure_ok in H3 as [Hself _]. by bool_to_prop.
Qed.

Lemma plan_user_authorised actor target patch w p w' :
  plan_user actor target patch w = (Ok p, w') -> authorised actor target p.
Proof.
  unfold plan_user. intros Hrun. tx_ensure Hrun as Hname. tx_bind Hrun x w1 H3. tx_bind Hrun role w2 H4. tx_bind Hrun status w3 H5.
  tx_bind Hrun y w4 H6. apply mret_ok in Hrun as [-> _]. apply plan_status_ok in H5 as [Hs Hself].
  pose proof (plan_role_ok _ _ _ _ _ _ H4) as Hr. by split.
Qed.

(** A plan that changes something writes a column. *)
Lemma plan_user_columns actor target patch w p w' :
  plan_user actor target patch w = (Ok p, w') -> pl_changed p <> [] -> no_columns (pl_update p) = false.
Proof.
  unfold plan_user. intros Hrun Hne. tx_ensure Hrun as Hname. tx_bind Hrun x w1 H3. tx_bind Hrun role w2 H4.
  tx_bind Hrun status w3 H5. tx_bind Hrun y w4 H6. apply mret_ok in Hrun as [-> _]. simpl in *.
  destruct (uu_display_name patch), role, (uu_org_id patch), status; done.
Qed.

(** ** Lemmas: the transaction *)

(** Audit rows are all it writes. *)
Definition audits_only {A} (m : M A) : Prop := forall w a w', w_tx w = true -> m w = (Ok a, w') ->
  w_tx w' = true /\ w_db w' = with_audit (d_audit (w_db w')) (w_db w).

Lemma audits_only_ret {A} (a : A) : audits_only (mret a).
Proof. intros w b w' Ht [_ ->]%mret_ok. by destruct (w_db w). Qed.

Lemma audits_only_bind {A B} (m : M A) (k : A -> M B) :
  audits_only m -> (forall a, audits_only (k a)) -> audits_only (mbind m k).
Proof.
  intros Hm Hk w b w' Ht Hrun. tx_bind Hrun a w1 Hstep. destruct (Hm _ _ _ Ht Hstep) as [Ht1 Hd1].
  destruct (Hk _ _ _ _ Ht1 Hrun) as [Ht2 Hd2]. split; [done|]. rewrite Hd2. by rewrite Hd1.
Qed.

Lemma audits_only_record actor action target details ip : audits_only (audit_record actor action target details ip).
Proof. intros w a w' Ht Hrun. by apply audit_record_tx in Hrun as [? ?]. Qed.

Lemma update_audits_only actor target p details ip w u w' :
  w_tx w = true -> update_audits actor target p details ip w = (Ok u, w') ->
  d_users (w_db w') = d_users (w_db w) /\ d_accounts (w_db w') = d_accounts (w_db w) /\ d_teardown (w_db w') = d_teardown (w_db w).
Proof.
  assert (Hrow : forall action, audits_only (do_ audit_record (user_actor (u_id actor) (u_role actor)) action (on_user (u_id target))
                   details ip; mret tt)).
  { intros action. apply audits_only_bind; [apply audits_only_record|]. intros. apply audits_only_ret. }
  intros Ht Hrun. assert (Ha : audits_only (update_audits actor target p details ip)).
  { unfold update_audits. apply audits_only_bind; [case_match; [apply Hrow|apply audits_only_ret]|]. intros _.
    apply audits_only_bind; [repeat case_match; first [apply Hrow|apply audits_only_ret]|]. intros _.
    case_match; [apply Hrow|apply audits_only_ret]. }
  destruct (Ha _ _ _ Ht Hrun) as [_ ->]. done.
Qed.

Lemma transition_tx (actor target : UserRecord) (p : UserPlan) ip w row job w' :
  (forall h a r, assertManualAdminPromotionAllowed = Some h -> forall env Q, stays env true Q (h a r)) ->
  w_tx w = true ->
  no_columns (pl_update p) = false -> transition_body actor target p ip w = (Ok (Some row, job), w') ->
  standing_changed target p row job (w_db w) (w_db w').
Proof.
  intros Hrule Ht Hcols Hrun. unfold transition_body in Hrun.
  apply bind_read in Hrun as (w1 & Hrun & Hd1 & Ht1); [|done]. tx_ensure Hrun as Hreleased.
  tx_bind Hrun x w2 H3.
  assert (Hw2 : w_db w2 = w_db w /\ w_tx w2 = true).
  { destruct (pl_guardsLastSuperAdmin target p); [|by apply mret_ok in H3 as [_ ->]]. unfold others_count in H3.
    apply bind_read in H3 as (w3 & H3 & Hd3 & Ht3); [|done]. apply ensure_ok in H3 as [_ ->]. by rewrite Hd3. }
  destruct Hw2 as [Hd2 Ht2]. tx_bind Hrun y w3 H4.
  assert (Hw3 : d_users (w_db w3) = d_users (w_db w2) /\ d_accounts (w_db w3) = d_accounts (w_db w2) /\ w_tx w3 = true).
  { change (rule_checked target p w2 = (Ok y, w3)) in H4.
    destruct (rule_checked_stays (w_env w2) (fun h a r Q Hh => Hrule h a r Hh _ Q) target p
                (fun u a => u = d_users (w_db w2) /\ a = d_accounts (w_db w2))) as [Hf Hs].
    destruct (frame_inv _ _ _ _ Hf H4) as (_ & Htx & _). specialize (Hs w2 eq_refl Ht2 (conj eq_refl eq_refl)).
    rewrite H4 in Hs. destruct (Hs (or_intror eq_refl)) as [Hu Ha]. split_and!; [done|done|congruence]. }
  destruct Hw3 as (Hu3 & Ha3 & Ht3). tx_bind Hrun found_ w4 H5. apply statement_tx in H5 as [H5 Ht4]; [|done].
  destruct (users_updateIfMatches _ _ _ _ _ _) as [[z rows]|e] eqn:Hw; [|done]. injection H5 as -> Hd4.
  apply users_updateIfMatches_ok in Hw as [[-> _]|(u & Hu & Hm & [(Hn & _)|[_ Hw]])]; [done|congruence|].
  apply transition_match in Hm as [Hrole Hstatus]. apply user_write_ok in Hw as (-> & -> & _).
  tx_bind Hrun ended w5 H6. destruct ended as [[job' sessions] links].
  assert (Ht5 : w_tx w5 = true).
  { assert (Hf : frame (end_access actor target p)) by (unfold end_access, teardown_upsertPending, session_deleteForUser,
      token_deleteForUser, teardown_write; frames). destruct (frame_inv _ _ _ _ Hf H6) as (_ & -> & _). done. }
  apply end_access_tx in H6 as (Hnarrow & Hdis & Hraise & Hen); [|done].
  tx_bind Hrun v w6 H7. apply mret_ok in Hrun as [[= -> ->] ->].
  assert (Haudit : d_users (w_db w6) = d_users (w_db w5) /\ d_accounts (w_db w6) = d_accounts (w_db w5)
                   /\ d_teardown (w_db w6) = d_teardown (w_db w5)).
  { by eapply update_audits_only. }
  destruct Haudit as (Hu6 & Ha6 & Hq6). destruct Hnarrow as (Hu5 & _). split.
  - exists u. rewrite Hu6, Hu5, <- Hd4. simpl. rewrite Hu3, Hd2 in *. split_and!; [exact Hu|done|done|done|done|done].
  - intros Hs. destruct (Hdis Hs) as (Ha & Hb & Hc). unfold no_session, no_link, teardown_queued in *. by rewrite Ha6, Hq6.
  - intros Hs. unfold no_session in *. rewrite Ha6. by apply Hraise.
  - intros Hs. destruct (Hen Hs) as (Ha & Hb). unfold no_link in *. by rewrite Ha6, Hq6.
Qed.
End Plan.

(** ** Properties *)

Section Update.
Context `{AuthDeps} `{UsersDeps} `{TeardownService}.
Context (Hrule : forall h a r, assertManualAdminPromotionAllowed = Some h -> forall env Q, stays env true Q (h a r)).

Lemma transition_body_frame actor target p ip : frame (transition_body actor target p ip).
Proof.
  unfold transition_body, others_count, countActiveSuperAdmins, read, users_find, ensure, user_updateIfMatches.
  apply frame_bind; [auto with nexus|]. intros current. apply frame_bind; [frames|]. intros x.
  apply frame_bind; [frames|]. intros y. apply frame_bind.
  { eapply stays_frame, (rule_checked_stays (fun _ => sample_turn 0) (fun h a r Q Hh => Hrule h a r Hh _ Q) target p (fun _ _ => True)). }
  intros z. apply frame_bind; [auto with nexus|]. intros [row|]; [|auto with nexus].
  apply frame_bind; [unfold end_access, teardown_upsertPending, session_deleteForUser, token_deleteForUser, teardown_write; frames|].
  intros [[job n] m]. unfold update_audits, audit_record. frames.
Qed.

Lemma transition_committed actor target p ip w r w' :
  transition actor target p ip w = (Ok r, w') -> exists d d', committed_within w (transition_body actor target p ip) r d d'.
Proof.
  unfold transition. intros Hrun. set (body := transaction _) in *.
  assert (Hin : exists w1 w2, within w body r w1 w2).
  { destruct (pl_guardsLastSuperAdmin target p).
    - apply locks_ok in Hrun as (w1 & w2 & Hw). pose proof Hw as (Hv & _).
      destruct (pl_roleChanged p || pl_statusChanged p); [|by exists w1, w2].
      apply locks_ok in Hv as (w3 & w4 & Hv). exists w3, w4. by eapply within_trans.
    - destruct (pl_roleChanged p || pl_statusChanged p); [by apply locks_ok in Hrun|].
      exists w, w'. by split_and!. }
  destruct Hin as (w1 & w2 & Hin). eexists _, _. by apply within_committed.
Qed.

Lemma updateUser_committed actor targetId patch ip w r w' :
  w_tx w = false -> updateUser actor targetId patch ip w = (Ok r, w') ->
  exists target p, authorised actor target p
    /\ (pl_changed p = [] \/ exists row job d d',
          committed_within w (transition_body actor target p ip) (Some row, job) d d' /\ standing_changed target p row job d d').
Proof.
  unfold updateUser. intros Ht Hrun. tx_bind Hrun target w1 Hfind. apply (frame_inv _ _ _ _ (frame_statement_ok _)) in Hfind.
  destruct target as [target|]; [|done]. tx_bind Hrun p w2 Hplan. pose proof (plan_user_authorised _ _ _ _ _ _ Hplan) as Ha.
  pose proof (plan_user_columns _ _ _ _ _ _ Hplan) as Hcols.
  assert (Hf : frame (plan_user actor target patch)).
  { unfold plan_user, plan_role, plan_status, only_super_admin, others_count, countActiveSuperAdmins, read, ensure. frames. }
  apply (frame_inv _ _ _ _ Hf) in Hplan. exists target, p. split; [done|].
  destruct (pl_changed p) as [|c cs] eqn:Hch; [by left|right].
  tx_bind Hrun outcome9 w3 Htr. destruct outcome9 as [[row|] job]; [|by simpl in Hrun; tx_bind Hrun f w4 Hf4; tx_bind Hrun g w5 Hg5].
  apply transition_committed in Htr as (d & d' & Hc). exists row, job, d, d'. split.
  - eapply committed_later; [|exact Hc]. by etrans.
  - apply committed_body in Hc as (v1 & v2 & Hv & Htv & <- & <-); [|apply transition_body_frame|].
    + apply (transition_tx actor target p ip); [done|done|by apply Hcols|done].
    + destruct Hfind as (_ & Ht1 & _), Hplan as (_ & Ht2 & _). congruence.
Qed.
End Update.


(** The portal of the witness has no rule for the promotion of administrators. *)
Lemma sample_rule h a r : assertManualAdminPromotionAllowed = Some h -> forall env Q, stays env true Q (h a r).
Proof. intros E. exfalso. vm_compute in E. discriminate E. Qed.


(** ** The release of an address *)

(** Everything that could still act on the account's name is over. *)
Record releasable (actor : UserRecord) (targetId email : string) (target : UserRecord) (d : db) : Prop := {
  ra_found : d_users d !! targetId = Some target;
  ra_other : u_id target <> u_id actor /\ u_role target <> super_admin;
  ra_disabled : u_status target = UserDisabled;
  ra_email : u_email target = email;
  ra_links : links_listByUser (u_id target) (ac_links (d_accounts d)) = [];
  ra_revoked : exists job, Teardown.findByUser (u_id target) (d_teardown d) = Some job /\ has_status JDone job = true;
  ra_credentials : forall status, status = CredentialActive \/ status = CredentialRetiring ->
    credentials_count {| cf_user_id := Some (u_id target); cf_application_id := None; cf_status := Some status;
                         cf_credential_type := None; cf_ferrum_consumer_id := None |} (d_credentials d) = 0;
}.

Record address_released (email tombstone : string) (target : UserRecord) (d d' : db) : Prop := {
  rd_account : exists at_ u, d_users d !! u_id target = Some u
    /\ d_users d' = <[u_id u := userUpdateColumns (release_patch tombstone) at_ u]> (d_users d);
  rd_sessions : no_session (u_id target) d';
  rd_reset_links : no_link (u_id target) PasswordReset d';
  rd_verification_links : no_link (u_id target) EmailVerification d';
  rd_mail : forall k r, d_outbox d' !! k = Some r -> address_is (toLowerCase (trim email)) r = true ->
    is_status OPending r = false /\ is_status OSending r = false;
}.

Lemma cancelForReleasedAddress_ok email generation now t t' n :
  cancelForReleasedAddress email generation now t = Ok (t', n) ->
  forall k r, t' !! k = Some r -> address_is (toLowerCase (trim email)) r = true ->
  is_status OPending r = false /\ is_status OSending r = false.
Proof.
  unfold cancelForReleasedAddress. case_bool_decide as Hnone; [|done]. intros [= <- _] k r Hk Hr.
  unfold update_where in Hk. rewrite lookup_fmap in Hk. destruct (t !! k) as [x|] eqn:Hx; [|done].
  injection Hk as <-. destruct (address_is _ x && is_status OPending x) eqn:Hp; [by split|].
  rewrite Hr in Hp. split; [done|]. destruct (is_status OSending x) eqn:Hs; [|done].
  exfalso. eapply (map_filter_empty_not_lookup _ _ k x Hnone); [|exact Hx]. by rewrite Hr, Hs.
Qed.

Lemma release_commit_tx actor targetId email tombstone ip w r w' :
  w_tx w = true -> release_commit actor targetId email tombstone ip w = (Ok r, w') ->
  exists target, releasable actor targetId email target (w_db w)
    /\ address_released email tombstone target (w_db w) (w_db w').
Proof.
  unfold release_commit. intros Ht Hrun.
  apply bind_read in Hrun as (w1 & Hrun & Hd1 & Ht1); [|done]. unfold users_findById in Hrun.
  destruct (d_users (w_db w) !! targetId) as [target|] eqn:Htarget; [|done]. exists target.
  tx_ensure Hrun as Hother. tx_ensure Hrun as Hstate.
  apply bind_read in Hrun as (w2 & Hrun & Hd2 & Ht2); [|done]. tx_ensure Hrun as Hlinks.
  apply bind_read in Hrun as (w3 & Hrun & Hd3 & Ht3); [|done]. tx_ensure Hrun as Hjob.
  apply bind_read in Hrun as (w4 & Hrun & Hd4 & Ht4); [|done]. tx_ensure Hrun as Hactive.
  apply bind_read in Hrun as (w5 & Hrun & Hd5 & Ht5); [|done]. tx_ensure Hrun as Hretiring.
  assert (Hsame : w_db w5 = w_db w) by congruence.
  tx_bind Hrun y w6 Hupd. apply statement_tx in Hupd as [Hupd Ht6]; [|done].
  destruct (users_updateIfMatches _ _ _ _ _ _) as [[z rows]|e] eqn:Hw; [|done]. injection Hupd as -> Hd6.
  destruct y as [row|]; [|done].
  apply users_updateIfMatches_ok in Hw as [[? _]|(u & Hu & Hm & [(? & _)|[_ Hw]])]; [done|done|].
  apply user_write_ok in Hw as (_ & -> & _).
  tx_bind Hrun a w7 Hsess. apply session_deleteForUser_tx in Hsess as (Ht7 & Hn7 & Hs7 & _); [|done].
  tx_bind Hrun b w8 Hres. apply token_deleteForUser_tx in Hres as (Ht8 & Hn8 & Hl8 & _); [|done].
  tx_bind Hrun c w9 Hver. apply token_deleteForUser_tx in Hver as (Ht9 & Hn9 & Hl9 & _); [|done].
  tx_bind Hrun e w10 Hmail. apply statement_tx in Hmail as [Hmail Ht10]; [|done].
  destruct (cancelForReleasedAddress _ _ _ _) as [[mails n]|x] eqn:Hcancel; [|done]. injection Hmail as -> Hd10.
  tx_bind Hrun f w11 Haudit. apply mret_ok in Hrun as [_ ->]. apply audit_record_tx in Haudit as [Hd11 _]; [|done].
  rewrite Hd11, <- Hd10. split.
  - rewrite Hd4, Hd3, Hd2, Hd1 in *. bool_to_prop. constructor; [done|by split|done|done| | |].
    + by apply length_zero_iff_nil.
    + destruct (Teardown.findByUser _ _) as [j|]; [by exists j|done].
    + unfold credentials_count in *. intros status [-> | ->]; lia.
  - constructor; simpl.
    + rewrite Hsame in *. destruct Hn9 as (Hu9 & _), Hn8 as (Hu8 & _), Hn7 as (Hu7 & _). exists (t_now (cur w5)), u.
      split; [exact Hu|]. by rewrite Hu9, Hu8, Hu7, <- Hd6.
    + eapply no_session_narrowed; [exact Hn9|]. by eapply no_session_narrowed.
    + by eapply no_link_narrowed.
    + exact Hl9.
    + by eapply cancelForReleasedAddress_ok.
Qed.

Lemma release_commit_frame actor targetId email tombstone ip : frame (release_commit actor targetId email tombstone ip).
Proof.
  unfold release_commit, users_find, links_of, teardown_findByUser, count_live_rows, read, ensure, user_updateIfMatches,
    session_deleteForUser, token_deleteForUser, cancel_mail, audit_record. frames.
Qed.

Lemma releaseAddress_committed actor targetId expectedEmail ip w r w' :
  w_tx w = false -> releaseAddress actor targetId expectedEmail ip w = (Ok r, w') ->
  u_role actor = super_admin /\ exists id target d d',
    let tombstone := ("released-" +:+ id +:+ "@" +:+ RELEASED_EMAIL_DOMAIN)%string in
    committed_within w (release_commit actor targetId (toLowerCase (trim expectedEmail)) tombstone ip) r d d'
    /\ releasable actor targetId (toLowerCase (trim expectedEmail)) target d
    /\ address_released (toLowerCase (trim expectedEmail)) tombstone target d d'.
Proof.
  unfold releaseAddress. intros Ht Hrun. tx_ensure Hrun as Hsuper. cbv zeta in Hrun. tx_ensure Hrun as Hemail.
  tx_bind Hrun drawn w1 Hid. pose proof (frame_inv _ _ _ _ frame_randomUUID Hid) as Hk.
  apply locks_ok in Hrun as (w2 & w3 & Hin). pose proof Hin as (Hin' & _).
  apply locks_ok in Hin' as (w4 & w5 & Hin'). pose proof (within_trans _ _ _ _ _ _ _ _ _ Hin Hin') as Hw.
  apply within_committed in Hw. split; [by bool_to_prop|].
  assert (Ht1 : w_tx w1 = false) by (destruct Hk as (_ & -> & _); done).
  pose proof (committed_body _ _ _ _ _ (release_commit_frame _ _ _ _ _) Ht1 Hw) as (v1 & v2 & Hv & Htv & Hd & Hd').
  apply release_commit_tx in Hv as (target & Ha & Hb); [|done]. rewrite Hd in *. rewrite Hd' in *.
  eexists drawn, target, _, _. split_and!; [by eapply committed_later|exact Ha|exact Hb].
Qed.

(** C20: the release of an address. If [releaseAddress] answers, a super admin asked,
    and one transaction found the account with the address named, disabled, not the
    actor's own and not a super admin's, with no sign-in identity linked, its
    gateway revocation done and no live key; it moved the account to a reserved
    address and left it no session and no link of either kind, and no mail to the
    old address waiting or on its way. This holds whatever the other processes do. *)
Theorem address_release_is_safe `{AuthDeps} `{UsersDeps} actor targetId expectedEmail ip w r w'
    (Ht : w_tx w = false) (Hrun : releaseAddress actor targetId expectedEmail ip w = (Ok r, w')) :
  u_role actor = super_admin /\ exists id target d d',
    let tombstone := ("released-" +:+ id +:+ "@" +:+ RELEASED_EMAIL_DOMAIN)%string in
    committed_within w (release_commit actor targetId (toLowerCase (trim expectedEmail)) tombstone ip) r d d'
    /\ releasable actor targetId (toLowerCase (trim expectedEmail)) target d
    /\ address_released (toLowerCase (trim expectedEmail)) tombstone target d d'.
Proof. by eapply releaseAddress_committed. Qed.

(** The client's address, released after the account was disabled and not before. *)
Lemma address_release_is_safe_witness :
  let release w := releaseAddress sample_root sample_client_id "Client@example.org" None w in
  (exists r target, (release (serve_all sample_config [sample_disable] sample_founded)).1 = Ok r
     /\ exists d, releasable sample_root sample_client_id "client@example.org" target d)
  /\ (release sample_founded).1 = Throw (conflict "Disable the account and confirm its current address before release" []).
Proof.
  cbv zeta. split; [|vm_compute; reflexivity].
  destruct (releaseAddress sample_root sample_client_id "Client@example.org" None (serve_all sample_config [sample_disable] sample_founded))
    as [[r|e] w'] eqn:Hr; [|exfalso; vm_compute in Hr; discriminate Hr].
  assert (Ht : w_tx (serve_all sample_config [sample_disable] sample_founded) = false) by (vm_compute; reflexivity).
  destruct (address_release_is_safe sample_root sample_client_id "Client@example.org" None _ r w' Ht Hr)
    as (_ & id & target & d & d' & _ & Ha & _).
  exists r, target. split; [reflexivity|]. exists d. exact Ha.
Defined.
