(* ===== verification/SsoSignIn.v ===== *)
(** * Sign-ins through an identity provider

    What an answered callback committed, in the database it committed it to: whose
    attempt it was, which account it opened and by what right, and what the claims
    did to that account; then what a save of the settings leaves behind. *)

From S2P Require Import Prelude Json Roles Leases Users Settings JobQueues AuditLog AccessTables AccountTables AccessWorkflow Sso SsoSettings World AccessStore AccountStore SettingGeneration Crypto LeaseFence KeyedSerializer Provisioner TeardownWorker Auth AuthPlugin UsersService SsoService AccountLogic AccountPrograms AccountInvariants AccountService SignIn.
Open Scope Z_scope.

(** ** The pieces of the transaction

    Each lemma says what a piece that answered did to the users, the links and the
    sessions. *)

(** The three tables are as they were. *)
Definition same_tables (d d' : db) : Prop :=
  d_users d' = d_users d /\ ac_links (d_accounts d') = ac_links (d_accounts d)
  /\ ac_sessions (d_accounts d') = ac_sessions (d_accounts d).

#[export] Instance same_tables_preorder : PreOrder same_tables.
Proof. split; [by intros d|]. intros d1 d2 d3 (? & ? & ?) (? & ? & ?). split_and!; congruence. Qed.

(** A call that answered inside a transaction left the three tables alone. *)
Definition calm {A} (m : M A) : Prop := forall w a w',
  w_tx w = true -> m w = (Ok a, w') -> same_tables (w_db w) (w_db w') /\ w_tx w' = true.

Lemma calm_ret {A} (a : A) : calm (mret a).
Proof. intros w b w' Ht [= _ <-]. by split. Qed.
Lemma calm_throw {A} e : calm (@mthrow A e).
Proof. by intros w b w' Ht [=]. Qed.
Lemma calm_bind {A B} (m : M A) (k : A -> M B) : calm m -> (forall a, calm (k a)) -> calm (mbind m k).
Proof.
  intros Hm Hk w b w' Ht H. tx_bind H a w1 H1. apply Hm in H1 as [H1 Ht1]; [|done].
  apply Hk in H as [H Ht']; [|done]. split; [by etrans|done].
Qed.
Lemma calm_statement {A} (f : turn -> db -> res exn (A * db)) :
  (forall t d a d', f t d = Ok (a, d') -> same_tables d d') -> calm (statement f).
Proof. intros Hf w a w' Ht H. apply statement_tx in H as [H Ht']; [|done]. split; [by eapply Hf|done]. Qed.
Lemma calm_read {A} (f : db -> A) : calm (read f).
Proof. apply calm_statement. by intros t d a d' [= _ <-]. Qed.
Lemma calm_now : calm date_now.
Proof. intros w a w' Ht [= _ <-]. by split. Qed.
Lemma calm_draw : calm randomUUID.
Proof. intros w a w' Ht [= _ <-]. by split. Qed.
Lemma calm_audit actor action target details ip : calm (audit_record actor action target details ip).
Proof.
  intros w a w' Ht H. apply audit_record_tx in H as [-> Ht']; [|done]. by split.
Qed.
Lemma calm_proof userId email method at_ : calm (proof_upsert userId email method at_).
Proof. apply calm_statement. intros t d a d'. destruct (proofs_upsert _ _ _ _ _ _); [|done]. by intros [= _ <-]. Qed.
Lemma calm_lock userId providerId at_ : calm (lock_create userId providerId at_).
Proof. apply calm_statement. intros t d a d'. destruct (locks_create _ _ _ _ _); [|done]. by intros [= _ <-]. Qed.
Create HintDb calm.
#[local] Hint Resolve calm_ret calm_throw calm_read calm_now calm_draw calm_audit calm_proof calm_lock : calm.

Ltac calm_step :=
  lazymatch goal with
  | |- calm (mbind _ _) => apply calm_bind; [|intros ?]
  | |- calm (match ?x with _ => _ end) => destruct x
  | |- calm _ => solve [auto with calm]
  end.
Ltac prove_calm := unfold_reads; unfold refuse; repeat calm_step.

(** Take a calm first call off an answer. *)
Tactic Notation "calm_bind" hyp(H) "as" ident(x) ident(w1) ident(Hs) ident(Ht) :=
  let H1 := fresh "H1" in
  tx_bind H x w1 H1;
  lazymatch type of H1 with ?m _ = _ =>
    let Hc := fresh "Hc" in
    assert (Hc : calm m) by prove_calm; apply Hc in H1 as [Hs Ht]; [|done]; clear Hc
  end.

Lemma link_create_tx input w r w' :
  w_tx w = true -> link_create input w = (Ok r, w') ->
  w_tx w' = true /\ d_users (w_db w') = d_users (w_db w)
  /\ ac_sessions (d_accounts (w_db w')) = ac_sessions (d_accounts (w_db w))
  /\ ac_links (d_accounts (w_db w')) = <[ui_id r := r]> (ac_links (d_accounts (w_db w)))
  /\ ac_links (d_accounts (w_db w)) !! ui_id r = None
  /\ exists id at_, r = input id at_.
Proof.
  intros Ht H. apply statement_tx in H as [H Ht']; [|done].
  destruct (links_create _ _ _) as [[r' rows]|e] eqn:Hc; [|done]. injection H as -> <-.
  apply links_create_ok in Hc as (-> & -> & Hn & _). split_and!; eauto.
Qed.

(** The identity a link stands for. *)
Definition link_key (l : UserIdentityRecord) : string * string * string * string :=
  (ui_user_id l, ui_provider_id l, ui_issuer l, ui_subject l).

Definition signs_in (provider : SsoProviderSettings) (claims : Claims) (userId : string) : string * string * string * string :=
  (userId, sp_id provider, sp_issuer provider, claim_sub claims).

(** A row of the table of links is added or rewritten; it is of the account. *)
Definition link_put (key : string * string * string * string) (identityId : string) (d d' : db) : Prop :=
  exists l, ui_id l = identityId /\ link_key l = key
    /\ ac_links (d_accounts d') = <[identityId := l]> (ac_links (d_accounts d))
    /\ ac_sessions (d_accounts d') = ac_sessions (d_accounts d).

Lemma provision_account_tx provider who hash orgExists at_ context w opened w' :
  w_tx w = true -> provision_account provider who hash orgExists at_ context w = (Ok opened, w') ->
  w_tx w' = true
  /\ d_users (w_db w') = <[u_id opened.1 := opened.1]> (d_users (w_db w)) /\ d_users (w_db w) !! u_id opened.1 = None
  /\ u_status opened.1 = UserActive /\ u_email_verified opened.1 = si_emailVerified who
  /\ (exists email, si_email who = Some email /\ u_email opened.1 = toLowerCase (trim email)
      /\ email_taken opened.1 (d_users (w_db w)) = false)
  /\ sso_role <$> cm_role (si_mapping who) = Some (u_role opened.1)
  /\ ac_links (d_accounts (w_db w)) !! opened.2 = None
  /\ link_put (signs_in provider (si_claims who) (u_id opened.1)) opened.2 (w_db w) (w_db w').
Proof.
  unfold provision_account. intros Ht H0. destruct (si_email who) as [email|]; [|done].
  destruct (cm_role (si_mapping who)) as [role|]; [|done].
  tx_bind H0 user w1 H1. apply statement_tx in H1 as [H1 Ht1]; [|done].
  destruct (users_create _ _ _) as [[r rows]|e] eqn:Hc; [|done]. injection H1 as -> Hd1.
  apply users_create_ok in Hc as (-> & Hn & Htaken & _ & _ & Hrole & Hst & Hver & _ & Hmail).
  tx_bind H0 l w2 H2. apply link_create_tx in H2 as (Ht2 & Hu2 & Hs2 & Hl2 & Hnew & id & n & Hrow); [|done].
  calm_bind H0 as u3 w3 Hs3 Ht3. calm_bind H0 as u4 w4 Hs4 Ht4. calm_bind H0 as u5 w5 Hs5 Ht5.
  apply mret_ok in H0 as [-> ->]. simpl.
  assert (Hs : same_tables (w_db w2) (w_db w5)) by (etrans; [exact Hs3|]; by etrans).
  destruct Hs as (Hu & Hl & Hss). rewrite <- Hd1 in *. simpl in *.
  split_and!; [done|congruence|done|done|done|by exists email|by rewrite Hrole|done|].
  exists l. split_and!; [done|by subst l|congruence..].
Qed.

Lemma plan_account_tx config id initiating w current w' :
  w_tx w = true -> plan_account config id initiating w = (Ok current, w') ->
  w_tx w' = true /\ same_tables (w_db w) (w_db w') /\ d_users (w_db w) !! id = Some current /\ u_status current = UserActive
  /\ forall s, initiating = Some s -> exists r now, ac_sessions (d_accounts (w_db w)) !! s = Some r
       /\ ss_user_id r = u_id current /\ session_live config r now = true.
Proof.
  unfold plan_account. intros Ht H0. tx_read H0 as found w1 Hf Hd1 Ht1. unfold users_findById in Hf.
  destruct found as [row|]; [|done]. case_bool_decide as Hst; simpl in H0; [|done].
  destruct initiating as [s|].
  - tx_read H0 as session w2 Hs Hd2 Ht2. tx_now H0 as now. rewrite Hd1 in Hs.
    destruct session as [r|]; [|done]. tx_ensure H0 as Hok. apply mret_ok in H0 as [-> ->]. bool_to_prop.
    rewrite Hd2, Hd1. split_and!; [done|done|done|done|]. intros s' [= <-]. by exists r, now.
  - apply mret_ok in H0 as [-> ->]. rewrite Hd1. by split_and!.
Qed.

Lemma link_account_tx user explicit provider who at_ context w id w' :
  w_tx w = true -> link_account user explicit provider who at_ context w = (Ok id, w') ->
  w_tx w' = true /\ d_users (w_db w') = d_users (w_db w)
  /\ (explicit = false -> privilegedAutoLink user (si_mapping who) provider = false)
  /\ ac_links (d_accounts (w_db w)) !! id = None
  /\ link_put (signs_in provider (si_claims who) (u_id user)) id (w_db w) (w_db w').
Proof.
  unfold link_account. intros Ht H0. destruct (negb explicit && _) eqn:Hp; [done|].
  tx_bind H0 l w1 H1. apply link_create_tx in H1 as (Ht1 & Hu1 & Hs1 & Hl1 & Hn & i & n & Hrow); [|done].
  calm_bind H0 as u2 w2 Hs2 Ht2. calm_bind H0 as u3 w3 Hs3 Ht3. apply mret_ok in H0 as [-> ->].
  destruct Hs2 as (Hu2 & Hl2 & Hss2), Hs3 as (Hu3 & Hl3 & Hss3). split_and!; [done|congruence| |done|].
  - intros ->. by simpl in Hp.
  - exists l. split_and!; [done|by subst l|congruence..].
Qed.

Lemma touch_identity_tx identity email at_ w id w' :
  w_tx w = true -> touch_identity identity email at_ w = (Ok id, w') ->
  w_tx w' = true /\ d_users (w_db w') = d_users (w_db w) /\ id = ui_id identity
  /\ exists l, ac_links (d_accounts (w_db w)) !! id = Some l
       /\ (ui_id l = id -> link_put (link_key l) id (w_db w) (w_db w')).
Proof.
  unfold touch_identity. intros Ht H0. tx_bind H0 touched w1 H1. apply statement_tx in H1 as [H1 Ht1]; [|done].
  tx_ensure H0 as Hok. apply mret_ok in H0 as [-> ->]. subst touched. revert H1. unfold links_touchLogin.
  destruct (ac_links _ !! _) as [l|] eqn:Hl; [|by intros [=]]. intros [= <-]. split_and!; [done..|].
  exists l. split; [done|]. intros Hid. eexists. split; [|split; [|split; [reflexivity|reflexivity]]]; done.
Qed.

(** *** What the claims do *)

Section Claims.
Context (config : SsoEnvConfig) (stored : StoredSsoSettings) (provider : SsoProviderSettings) (who : SignInClaims).

(** The ids that withhold a promotion, and the change that is left. *)
Definition withheld_by (user : UserRecord) (planned : option ClaimsPatch) (links : list UserIdentityRecord) : list string :=
  if promotes user planned then lower_trust config stored (Some (sp_id provider)) links else [].

Definition claims_change (user : UserRecord) (orgExists : bool) (links : list UserIdentityRecord) : option ClaimsPatch :=
  let planned := planClaimsChange user (si_mapping who) provider orgExists in
  match withheld_by user planned links with [] => planned | _ => without_role planned end.

Definition raised (user : UserRecord) (change : option ClaimsPatch) : bool :=
  match change with Some c => raises_role user c | None => false end.

Lemma apply_change_tx user c w changed w' :
  w_tx w = true -> d_users (w_db w) !! u_id user = Some user -> apply_change user c w = (Ok changed, w') ->
  w_tx w' = true /\ ac_links (d_accounts (w_db w')) = ac_links (d_accounts (w_db w))
  /\ d_users (w_db w') = <[u_id user := changed.1]> (d_users (w_db w))
  /\ u_id changed.1 = u_id user /\ u_status changed.1 = u_status user
  /\ u_role changed.1 = from_option sso_role (u_role user) (cp_role c)
  /\ u_org_id changed.1 = default (u_org_id user) (cp_org_id c)
  /\ ac_sessions (d_accounts (w_db w')) =
       if raises_role user c then (sessions_deleteForUser (u_id user) (ac_sessions (d_accounts (w_db w)))).1
       else ac_sessions (d_accounts (w_db w)).
Proof.
  unfold apply_change. intros Ht Hu H0. tx_bind H0 row w1 H1. apply statement_tx in H1 as [H1 Ht1]; [|done].
  destruct (users_updateIfMatches _ _ _ _ _ _) as [[y rows]|e] eqn:Hw; [|done]. injection H1 as -> Hd1.
  destruct row as [row|]; [|done].
  assert (Hrow : rows = <[u_id user := row]> (d_users (w_db w)) /\ u_id row = u_id user /\ u_status row = u_status user
    /\ u_role row = from_option sso_role (u_role user) (cp_role c) /\ u_org_id row = default (u_org_id user) (cp_org_id c)).
  { apply users_updateIfMatches_ok in Hw as [[? _]|(x & Hx & _ & Hw)]; [done|]. rewrite Hu in Hx. injection Hx as <-.
    destruct Hw as [(Hn & [= ->] & ->)|[_ Hw]].
    - unfold no_columns, claims_patch in Hn. simpl in Hn. rewrite insert_id by done.
      destruct (cp_role c); [by simpl in Hn|]. by destruct (cp_org_id c).
    - apply user_write_ok in Hw as ([= ->] & -> & _). split_and!; [done..| |]; simpl.
      + by destruct (cp_role c).
      + done. }
  destruct Hrow as (-> & Hid & Hst & Hr & Ho).
  destruct (raises_role user c).
  - tx_bind H0 n w2 H2. apply mret_ok in H0 as [-> ->]. apply statement_tx in H2 as [H2 Ht2]; [|done].
    rewrite <- Hd1 in H2. simpl in H2. injection H2 as _ H2. rewrite <- H2. simpl. by split_and!.
  - apply mret_ok in H0 as [-> ->]. rewrite <- Hd1. simpl. by split_and!.
Qed.

(** What a piece did to one account, the claims applied to it. *)
Record claims_applied (user updated : UserRecord) (change : option ClaimsPatch) (d d' : db) : Prop := {
  ca_links : ac_links (d_accounts d') = ac_links (d_accounts d);
  ca_users : d_users d' = <[u_id user := updated]> (d_users d);
  ca_id : u_id updated = u_id user;
  ca_status : u_status updated = u_status user;
  ca_role : u_role updated = from_option sso_role (u_role user) (change ≫= cp_role);
  ca_org : u_org_id updated = default (u_org_id user) (change ≫= cp_org_id);
  ca_sessions : ac_sessions (d_accounts d') =
    if raised user change then (sessions_deleteForUser (u_id user) (ac_sessions (d_accounts d))).1
    else ac_sessions (d_accounts d);
}.

Lemma sync_claims_tx nexus user orgExists context w updated w' :
  w_tx w = true -> d_users (w_db w) !! u_id user = Some user -> sso nexus = config ->
  sync_claims nexus user provider who orgExists stored context w = (Ok updated, w') ->
  w_tx w' = true
  /\ claims_applied user updated (claims_change user orgExists (links_listByUser (u_id user) (ac_links (d_accounts (w_db w)))))
       (w_db w) (w_db w').
Proof.
  unfold sync_claims. intros Ht Hu Hcfg H0.
  set (planned := planClaimsChange user (si_mapping who) provider orgExists) in *.
  tx_bind H0 withheld w1 H1.
  assert (Hw : withheld = withheld_by user planned (links_listByUser (u_id user) (ac_links (d_accounts (w_db w))))
               /\ w_db w1 = w_db w /\ w_tx w1 = true).
  { unfold withheld_by. destruct (promotes user planned); [|by apply mret_ok in H1 as [-> ->]].
    unfold lowerTrustProviders in H1. tx_read H1 as links w2 Hl Hd2 Ht2. apply mret_ok in H1 as [-> ->].
    subst links. rewrite Hcfg. by split_and!. }
  destruct Hw as (Hw & Hd1 & Ht1). unfold claims_change. fold planned. rewrite <- Hw.
  set (change := match withheld with [] => planned | _ => without_role planned end) in *.
  assert (Hrest : forall m w2, (do u <- m; do_ audit_record SYSTEM_ACTOR "auth.sso_claims_sync" (on_user (u_id user))
      (sync_details provider who user planned change withheld u.2) (rc_ip context); mret u.1) w1 = (Ok updated, w2) ->
    m = match change with Some c => apply_change user c | None => mret (user, None) end ->
    w_tx w2 = true /\ claims_applied user updated change (w_db w) (w_db w2)).
  { intros m w2 Hr ->. tx_bind Hr changed w3 H3.
    assert (Hc : w_tx w3 = true /\ claims_applied user changed.1 change (w_db w) (w_db w3)).
    { destruct change as [c|].
      - apply apply_change_tx in H3 as (Ht3 & Hl3 & Hu3 & Hid & Hst & Hrole & Horg & Hses); [|done|by rewrite Hd1].
        rewrite Hd1 in *. by split.
      - apply mret_ok in H3 as [-> ->]. rewrite Hd1. split; [done|]. split; simpl; try done. by rewrite insert_id. }
    destruct Hc as [Ht3 []]. calm_bind Hr as row w4 Hs4 Ht4. apply mret_ok in Hr as [-> ->].
    destruct Hs4 as (Hs4 & Hl4 & Hss4). split; [done|]. split; congruence. }
  destruct change as [c|] eqn:Hch; [by eapply Hrest|]. destruct withheld; [|by eapply Hrest].
  apply mret_ok in H0 as [-> ->]. split; [done|]. rewrite Hd1. split; simpl; try done. by rewrite insert_id.
Qed.
End Claims.

(** *** The account a plan opens *)

(** The provider, and the policy, as the settings have them. *)
Definition in_force (config : SsoEnvConfig) (provider : SsoProviderSettings) (stored : StoredSsoSettings) : Prop :=
  st_policy stored <> LocalOnly /\ sp_enabled provider = true /\ exists source, (provider, source) ∈ providersInForce config stored.

Inductive opens (config : NexusConfig) (stored : StoredSsoSettings) (provider : SsoProviderSettings) (who : SignInClaims)
    (orgExists : bool) : SignInPlan -> db -> UserRecord -> string -> db -> Prop :=
| opens_new account id d d' :
    d_users d !! u_id account = None -> u_status account = UserActive ->
    sso_role <$> cm_role (si_mapping who) = Some (u_role account) ->
    (exists email, si_email who = Some email /\ u_email account = toLowerCase (trim email)
       /\ email_taken account (d_users d) = false) ->
    d_users d' = <[u_id account := account]> (d_users d) -> ac_links (d_accounts d) !! id = None ->
    link_put (signs_in provider (si_claims who) (u_id account)) id d d' ->
    opens config stored provider who orgExists Provision d account id d'
| opens_link user explicit initiating current account id d m d' :
    d_users d !! u_id user = Some current -> u_status current = UserActive ->
    (forall s, initiating = Some s -> exists r now, ac_sessions (d_accounts d) !! s = Some r
       /\ ss_user_id r = u_id current /\ session_live config r now = true) ->
    (explicit = false -> privilegedAutoLink current (si_mapping who) provider = false) ->
    ac_links (d_accounts d) !! id = None -> d_users m = d_users d ->
    link_put (signs_in provider (si_claims who) (u_id current)) id d m ->
    claims_applied current account
      (claims_change (sso config) stored provider who current orgExists
         (links_listByUser (u_id current) (ac_links (d_accounts m)))) m d' ->
    opens config stored provider who orgExists (LinkAccount user explicit initiating) d account id d'
| opens_returning user identity initiating current account l d m d' :
    d_users d !! u_id user = Some current -> u_status current = UserActive ->
    (forall s, initiating = Some s -> exists r now, ac_sessions (d_accounts d) !! s = Some r
       /\ ss_user_id r = u_id current /\ session_live config r now = true) ->
    ac_links (d_accounts d) !! ui_id identity = Some l -> d_users m = d_users d ->
    link_put (link_key l) (ui_id identity) d m ->
    claims_applied current account
      (claims_change (sso config) stored provider who current orgExists
         (links_listByUser (u_id current) (ac_links (d_accounts m)))) m d' ->
    opens config stored provider who orgExists (Returning user identity initiating) d account (ui_id identity) d'.

Lemma same_tables_put key id d1 d2 d3 : same_tables d1 d2 -> link_put key id d2 d3 -> link_put key id d1 d3.
Proof. intros (_ & Hl & Hs) (l & ? & ? & Hl' & Hs'). exists l. by rewrite <- Hl, <- Hs. Qed.

Section Commit.
Context `{AuthDeps} (config : NexusConfig).

Lemma currentSettings_tx provider w stored w' :
  w_tx w = true -> currentSettings config provider w = (Ok stored, w') ->
  w_tx w' = true /\ w_db w' = w_db w /\ stored = stored_sso (d_settings (w_db w)) /\ in_force (sso config) provider stored.
Proof.
  unfold currentSettings, readStoredSsoSettings, setting_get, provider_current. intros Ht H0. rewrite mbind_assoc in H0.
  apply bind_read in H0 as (w1 & H0 & Hd1 & Ht1); [|done].
  tx_bind H0 s w2 H2. apply mret_ok in H2 as [-> ->]. tx_bind H0 u w3 H3. apply mret_ok in H0 as [-> ->].
  fold (stored_sso (d_settings (w_db w))) in *. case_bool_decide as Hp; [done|].
  destruct (List.find _ _) as [[found source]|] eqn:Hf; [|done]. apply List.find_some in Hf as [Hin _].
  destruct (sp_enabled found) eqn:Hen; [|done]. case_bool_decide as Hc; [|done]. subst found. simpl in H3.
  apply mret_ok in H3 as [_ ->]. split_and!; [done|done|done|]. split_and!; [done|done|]. exists source.
  by apply list_elem_of_In.
Qed.

Lemma open_account_tx plan provider who hash orgExists at_ stored context w opened w' :
  w_tx w = true -> keyed u_id (d_users (w_db w)) -> keyed ui_id (ac_links (d_accounts (w_db w))) ->
  open_account config plan provider who hash orgExists at_ stored context w = (Ok opened, w') ->
  w_tx w' = true /\ opens config stored provider who orgExists plan (w_db w) opened.1 opened.2 (w_db w').
Proof.
  unfold open_account. intros Ht Hku Hkl H0. destruct plan as [user identity initiating|user explicit initiating|].
  - tx_bind H0 current w1 H1. apply plan_account_tx in H1 as (Ht1 & Hs1 & Hu & Hst & Hlive); [|done].
    tx_bind H0 linkId w2 H2. apply touch_identity_tx in H2 as (Ht2 & Hu2 & -> & l & Hl & Hput); [|done].
    tx_bind H0 updated w3 H3. apply mret_ok in H0 as [-> ->].
    pose proof (Hku _ _ Hu) as Hid. simpl in Hid.
    destruct Hs1 as (Hu1 & Hl1 & Hss1). rewrite Hl1 in Hl. pose proof (Hkl _ _ Hl) as Hidl. simpl in Hidl.
    apply (sync_claims_tx (sso config) stored provider who) in H3 as [Ht3 Hca]; [|done|by rewrite Hu2, Hu1, Hid|done].
    split; [done|]. eapply opens_returning; [exact Hu|done|done|exact Hl| | |exact Hca]; [congruence|].
    eapply same_tables_put; [|by apply Hput]. done.
  - tx_bind H0 current w1 H1. apply plan_account_tx in H1 as (Ht1 & Hs1 & Hu & Hst & Hlive); [|done].
    tx_bind H0 linkId w2 H2. apply link_account_tx in H2 as (Ht2 & Hu2 & Hp & Hn & Hput); [|done].
    tx_bind H0 updated w3 H3. apply mret_ok in H0 as [-> ->].
    pose proof (Hku _ _ Hu) as Hid. simpl in Hid. destruct Hs1 as (Hu1 & Hl1 & Hss1).
    apply (sync_claims_tx (sso config) stored provider who) in H3 as [Ht3 Hca]; [|done|by rewrite Hu2, Hu1, Hid|done].
    split; [done|]. eapply opens_link; [exact Hu|done|done|done| | | |exact Hca]; [by rewrite <- Hl1|congruence|].
    eapply same_tables_put; [|exact Hput]. done.
  - apply provision_account_tx in H0 as (Ht1 & Hu & Hn & Hst & _ & Hmail & Hrole & Hnew & Hput); [|done].
    split; [done|]. by eapply opens_new.
Qed.

(** What an answered commit did: the settings it found, the account it opened, and
    the session it made. *)
Definition sign_in_did plan provider who orgExists (issued : IssuedSession) (d d' : db) : Prop :=
  exists account id m at_ now,
    in_force (sso config) provider (stored_sso (d_settings d))
    /\ is_ok (checkDomains (si_email who) (si_emailVerified who) (st_allowed_email_domains (stored_sso (d_settings d)))) = true
    /\ opens config (stored_sso (d_settings d)) provider who orgExists plan d account id m
    /\ d_users d' = users_touchLastLogin (u_id account) at_ now (d_users m)
    /\ ac_links (d_accounts d') = ac_links (d_accounts m)
    /\ ac_sessions (d_accounts d') = <[ss_id (is_session issued) := is_session issued]> (ac_sessions (d_accounts m))
    /\ ss_user_id (is_session issued) = u_id account
    /\ ss_token_hash (is_session issued) = hashToken (is_token issued).

Lemma sign_in_commit_tx plan provider who hash orgExists at_ context w issued w' :
  w_tx w = true -> keyed u_id (d_users (w_db w)) -> keyed ui_id (ac_links (d_accounts (w_db w))) ->
  sign_in_commit config plan provider who hash orgExists at_ context w = (Ok issued, w') ->
  sign_in_did plan provider who orgExists issued (w_db w) (w_db w').
Proof.
  unfold sign_in_commit. intros Ht Hku Hkl H0.
  tx_bind H0 stored w1 H1. apply currentSettings_tx in H1 as (Ht1 & Hd1 & -> & Hf); [|done].
  tx_bind H0 u w2 H2.
  assert (Hok : is_ok (checkDomains (si_email who) (si_emailVerified who)
             (st_allowed_email_domains (stored_sso (d_settings (w_db w))))) = true /\ w2 = w1).
  { unfold check_domains in H2. destruct (checkDomains _ _ _); [|done]. by apply mret_ok in H2 as [_ ->]. }
  destruct Hok as [Hok ->]. rewrite <- Hd1 in Hku, Hkl.
  tx_bind H0 opened w3 H3. apply open_account_tx in H3 as [Ht3 Hopen]; [|done..].
  tx_bind H0 v w4 H4. apply statement_tx in H4 as [H4 Ht4]; [|done]. injection H4 as _ Hd4.
  tx_bind H0 s w5 H5. pose proof (issueSession_tx _ _ _ _ _ _ Ht4 H5) as (Hu5 & Ht5 & Hs5 & Huid & Hhash).
  assert (Hl5 : ac_links (d_accounts (w_db w5)) = ac_links (d_accounts (w_db w4))).
  { revert H5. unfold issueSession, newSessionToken, isoInSeconds. intros H5.
    tx_bind H5 t v1 G1. apply randomUUID_ok in G1 as [D1 T1]. tx_bind H5 c v2 G2. apply randomUUID_ok in G2 as [D2 T2].
    tx_bind H5 e v3 G3. tx_now G3 as now. apply mret_ok in G3 as [-> ->]. tx_bind H5 r v4 G4. apply mret_ok in H5 as [_ ->].
    apply statement_tx in G4 as [G4 _]; [|congruence]. destruct (sessions_create _ _ _) as [[r' rows]|x]; [|done].
    injection G4 as _ <-. simpl. by rewrite D2, D1. }
  calm_bind H0 as r w6 Hs6 Ht6. apply mret_ok in H0 as [-> ->]. destruct Hs6 as (Hu6 & Hl6 & Hss6).
  rewrite Hd1 in Hopen. exists opened.1, opened.2, (w_db w3), at_, (t_now (cur w3)).
  split_and!; [done|done|done|rewrite Hu6, Hu5, <- Hd4; done|rewrite Hl6, Hl5, <- Hd4; done
              |rewrite Hss6, Hs5, <- Hd4; done|done|done].
Qed.
End Commit.

(** ** From the call to its transaction

    [only_rivals env d d']: nothing but the other processes' writes lies between the
    account tables of the two: whatever they keep, holds in [d'] if it held in [d]. *)

Definition only_rivals (env : nat -> turn) (d d' : db) : Prop :=
  forall P, account_rivals env P -> on_accounts P d -> on_accounts P d'.

#[export] Instance only_rivals_preorder env : PreOrder (only_rivals env).
Proof. split; [by intros d P|]. intros d1 d2 d3 H1 H2 P HR HP. by apply H2, H1. Qed.

(** A call that writes none of them. *)
Definition idle (env : nat -> turn) {A} (m : M A) : Prop := forall P, account_rivals env P -> stays env false P m.

Lemma idle_run env {A} (m : M A) w r w' :
  idle env m -> w_env w = env -> w_tx w = false -> m w = (r, w') ->
  only_rivals env (w_db w) (w_db w') /\ w_env w' = env /\ w_tx w' = false.
Proof.
  intros Hm He Ht H. destruct (Hm (fun _ _ => True)) as [Hf _]; [by intros n d|].
  destruct (frame_inv _ _ _ _ Hf H) as (He' & Ht' & _). split_and!; [|congruence..]. intros P HR HP.
  destruct (Hm P HR) as [_ Hs]. specialize (Hs w He Ht HP (or_introl eq_refl)). by rewrite H in Hs.
Qed.

(** Somewhere in between, a read found what it answered. *)
Lemma read_idle env {A} (f : db -> A) w a w' :
  w_env w = env -> w_tx w = false -> read f w = (Ok a, w') ->
  a = f (w_db w') /\ only_rivals env (w_db w) (w_db w') /\ w_env w' = env /\ w_tx w' = false.
Proof.
  intros He Ht H. assert (Hi : idle env (read f)) by (intros P HR; by apply stays_read).
  pose proof (idle_run env _ _ _ _ Hi He Ht H) as (Ho & He' & Ht'). split_and!; [|done..].
  apply statement_ok_inv in H as (d & _ & Hd & _). injection Hd as <- Hd. by rewrite <- Hd.
Qed.

(** The body of a section: the same account tables, but for the other processes. *)
Definition idle_within (env : nat -> turn) {A} (w w' : world) (fn : M A) (a : A) : Prop :=
  exists w1 w2, fn w1 = (Ok a, w2) /\ w_env w1 = env /\ w_tx w1 = false
    /\ only_rivals env (w_db w) (w_db w1) /\ only_rivals env (w_db w2) (w_db w').

Section Sections.
Context (env : nat -> turn).

Lemma underLease_idle {A} o fuel key (fn : M A) w a w' :
  frame fn -> w_env w = env -> w_tx w = false -> underLease o fuel key fn w = (Ok (Some a), w') -> idle_within env w w' fn a.
Proof.
  intros Hf He Ht H. unfold underLease in H.
  tx_bind H token w1 H1. apply (idle_run env) in H1 as (Ho1 & He1 & Ht1); [|intros P _; apply stays_randomUUID|done..].
  tx_bind H got w2 H2. apply (idle_run env) in H2 as (Ho2 & He2 & Ht2); [|intros P HR; by apply stays_takeLease|done..].
  destruct got; [|done]. unfold mfinally in H.
  destruct ((do r <- holdingLease key token fn; mret (Some r)) w2) as [r w3] eqn:Hr.
  match goal with H : (match ?m w3 with _ => _ end) = _ |- _ => set (release := m) in *; destruct (release w3) as [x w4] eqn:Hrel end.
  assert (Hr' : r = Ok (Some a) /\ w4 = w') by (destruct x; [by injection H|done]). destruct Hr' as [-> ->].
  tx_bind Hr b w5 H5. injection Hr as -> ->.
  assert (Hk : keeps w2 w3) by (eapply frame_inv; [apply frame_holdingLease|exact H5]; done).
  destruct Hk as (He3 & Ht3 & _).
  unfold holdingLease, in_context in H5. destruct (fn _) as [r w6] eqn:Hfn. injection H5 as -> <-.
  apply (idle_run env) in Hrel as (Ho3 & _ & _); [| |congruence..].
  - eexists _, w6. split_and!; [exact Hfn|done|done|by etrans|exact Ho3].
  - intros P HR. subst release. apply stays_catch; [|intros e; apply stays_ret]. apply stays_seq; [|intros b; apply stays_ret].
    apply stays_elsewhere; [done|]. intros t d c d'. destruct (lease_release _ _ _). by intros [= _ <-].
Qed.

Lemma locks_idle {A} key (fn : M A) w a w' :
  frame fn -> w_env w = env -> w_tx w = false -> locks key fn w = (Ok a, w') -> idle_within env w w' fn a.
Proof.
  unfold locks. intros Hf He Ht H. tx_bind H r w1 H1. destruct r as [b|]; [|done]. injection H as -> <-.
  by apply underLease_idle in H1.
Qed.

Lemma idle_within_trans {A B} w1 w4 (m : M A) a (fn : M B) b :
  idle_within env w1 w4 m a ->
  (forall w2 w3, m w2 = (Ok a, w3) -> w_env w2 = env -> w_tx w2 = false -> idle_within env w2 w3 fn b) ->
  idle_within env w1 w4 fn b.
Proof.
  intros (w2 & w3 & H & He & Ht & Ho & Ho') Hm. destruct (Hm w2 w3 H He Ht) as (v1 & v2 & Hv & Hev & Htv & Hov & Hov').
  exists v1, v2. split_and!; [done|done|done|by etrans|by etrans].
Qed.

Lemma under_keys_frame {A} keys (fn : M A) : frame fn -> frame (under_keys keys fn).
Proof. intros Hf. induction keys as [|key rest IH]; simpl; [done|by apply frame_locks]. Qed.

Lemma under_keys_idle {A} keys (fn : M A) w a w' :
  frame fn -> w_env w = env -> w_tx w = false -> under_keys keys fn w = (Ok a, w') -> idle_within env w w' fn a.
Proof.
  intros Hf. revert w w'. induction keys as [|key rest IH]; intros w w' He Ht H; simpl in H.
  - exists w, w'. by split_and!.
  - apply locks_idle in H; [|by apply under_keys_frame|done..]. eapply idle_within_trans; [exact H|]. intros w2 w3 H2 He2 Ht2.
    by apply IH.
Qed.

(** The database a transaction found, and the one it left. *)
Lemma transaction_idle {A} (fn : M A) w a w' :
  frame fn -> w_env w = env -> w_tx w = false -> transaction fn w = (Ok a, w') ->
  exists v1 v2, fn v1 = (Ok a, v2) /\ w_tx v1 = true /\ only_rivals env (w_db w) (w_db v1) /\ w_db v2 = w_db w'.
Proof.
  intros Hf He Ht H. apply transaction_committed in H as (v1 & v2 & Hv & Htv & _ & Hd & Hd' & _); [|done..].
  exists v1, v2. split_and!; [done|done| |done]. rewrite Hd. intros P HR HP. unfold cur. rewrite He. by apply HR.
Qed.
End Sections.

(** ** By what right a plan opens an account *)

(** The account tables passed, from [d] on, through one of which [P] holds. *)
Definition seen (env : nat -> turn) (d : db) (P : db -> Prop) : Prop := exists e, only_rivals env d e /\ P e.

Definition subject_row (provider : SsoProviderSettings) (who : SignInClaims) (d : db) : option UserIdentityRecord :=
  links_findBySubject (sp_id provider) (sp_issuer provider) (claim_sub (si_claims who)) (ac_links (d_accounts d)).

(** The attempt was started to link the account of the session it came back to. *)
Definition asked_by (transaction : SsoTransaction) (current : option SsoCurrentSession) (cur : SsoCurrentSession) : Prop :=
  current = Some cur /\ tr_link_user_id transaction = Some (cs_userId cur)
  /\ tr_link_session_id transaction = Some (cs_sessionId cur).

(** The portal's own proof that the holder controls the address. *)
Definition portal_proof (user : UserRecord) (d : db) : Prop :=
  proof_counts user (ac_proofs (d_accounts d) !! u_id user) = true.

Definition founder_seat (user : UserRecord) (d : db) : Prop :=
  u_role user = super_admin
  /\ founder_claim (settings_get SUPER_ADMIN_CLAIM_KEY (d_settings d)) = Some (JStr (u_id user)).

Section Entitled.
Context (env : nat -> turn) (d : db) (provider : SsoProviderSettings) (who : SignInClaims) (transaction : SsoTransaction)
  (current : option SsoCurrentSession).

Inductive entitled : SignInPlan -> Prop :=
| by_subject user identity :
    tr_link_user_id transaction = None ->
    seen env d (fun e => subject_row provider who e = Some identity) ->
    seen env d (fun e => d_users e !! ui_user_id identity = Some user) ->
    entitled (Returning user identity None)
| by_own_subject user identity cur :
    asked_by transaction current cur ->
    seen env d (fun e => d_users e !! cs_userId cur = Some user) ->
    seen env d (fun e => subject_row provider who e = Some identity) -> ui_user_id identity = u_id user ->
    entitled (Returning user identity (Some (cs_sessionId cur)))
| by_request user cur :
    asked_by transaction current cur ->
    seen env d (fun e => d_users e !! cs_userId cur = Some user) ->
    seen env d (portal_proof user) \/ seen env d (founder_seat user) ->
    entitled (LinkAccount user true (Some (cs_sessionId cur)))
| by_address user email :
    tr_link_user_id transaction = None -> sp_link_existing_accounts provider = true -> si_emailVerified who = true ->
    si_email who = Some email -> seen env d (fun e => users_findByEmail email (d_users e) = Some user) ->
    seen env d (portal_proof user) ->
    entitled (LinkAccount user false None)
| by_provisioning email :
    tr_link_user_id transaction = None -> sp_jit_provisioning provider = true ->
    (sp_require_verified_email provider = true -> si_emailVerified who = true) ->
    si_email who = Some email -> isReleasedEmail email = false ->
    seen env d (fun e => users_findByEmail email (d_users e) = None) ->
    entitled Provision.
End Entitled.

(** Take a read off an answer outside a transaction, keeping how the tables came. *)
Ltac idle_read H Ho He Ht x w1 Hx :=
  let H1 := fresh "H1" in let Ho1 := fresh "Ho" in let Ho2 := fresh "Ho" in let He1 := fresh "He" in let Ht1 := fresh "Ht" in
  tx_bind H x w1 H1; apply (read_idle _ _ _ _ _ He Ht) in H1 as (Hx & Ho1 & He1 & Ht1);
  pose proof (transitivity Ho Ho1) as Ho2; clear Ho He Ht Ho1; rename Ho2 into Ho, He1 into He, Ht1 into Ht.
Tactic Notation "idle_read" hyp(H) "as" ident(x) ident(w1) ident(Hx) :=
  match goal with
  | Ho : only_rivals _ _ (w_db ?w), He : w_env ?w = _, Ht : w_tx ?w = false |- _ => idle_read H Ho He Ht x w1 Hx
  end.

(** The refusal of a condition is no answer. *)
Tactic Notation "passes" hyp(H) "as" ident(E) :=
  lazymatch type of H with (if ?b then _ else _) _ = _ => destruct b eqn:E; [done|] end.

Section Plans.
Context `{AuthDeps} `{SsoDeps} `{TeardownService} (config : NexusConfig) (env : nat -> turn).

Lemma check_domains_ok email verified domains w u w' :
  check_domains email verified domains w = (Ok u, w') -> w' = w /\ is_ok (checkDomains email verified domains) = true.
Proof. unfold check_domains. destruct (checkDomains _ _ _); [|done]. by intros [= _ <-]. Qed.

Tactic Notation "domains" hyp(H) "as" ident(Hok) :=
  let u := fresh "u" in let w1 := fresh "w" in let H1 := fresh "H1" in
  tx_bind H u w1 H1; apply check_domains_ok in H1 as [-> Hok]; clear u.

Lemma planExplicitLink_entitled chosen claims transaction current w0 w plan w' :
  only_rivals env (w_db w0) (w_db w) -> w_env w = env -> w_tx w = false ->
  let who := read_claims (rp_settings chosen) claims in
  planExplicitLink chosen claims (si_email who) (si_emailVerified who) (si_mapping who) transaction current w = (Ok plan, w') ->
  entitled env (w_db w0) (rp_settings chosen) who transaction current plan
  /\ only_rivals env (w_db w0) (w_db w') /\ w_env w' = env /\ w_tx w' = false.
Proof.
  intros Ho He Ht who G. unfold planExplicitLink in G. destruct current as [cur|]; [|done].
  passes G as Hsession.
  assert (Hasked : asked_by transaction (Some cur) cur) by (bool_to_prop; split_and!; congruence).
  domains G as Hok. unfold users_find in G. idle_read G as account w1 Ha. destruct account as [account|]; [|done].
  assert (Hseen1 : seen env (w_db w0) (fun e => d_users e !! cs_userId cur = Some account)) by (by exists (w_db w1)).
  passes G as Hst. unfold link_findBySubject in G. idle_read G as idrow w2 Hi.
  destruct idrow as [identity|].
  - passes G as Hown. apply mret_ok in G as [-> ->]. split_and!; [|done..].
    bool_to_prop. apply by_own_subject; [done|done| |done]. by exists (w_db w2).
  - unfold links_of in G. idle_read G as links w3 Hl. passes G as Hfree.
    unfold addressProven, proof_find in G. rewrite mbind_assoc in G. idle_read G as proof w4 Hp.
    tx_bind G proven w5 Hproven. apply mret_ok in Hproven as [-> ->]. tx_bind G founder w6 Hf.
    destruct (proof_counts account proof) eqn:Hc.
    + apply mret_ok in Hf as [-> ->]. simpl in G. passes G as Hmapped. apply mret_ok in G as [-> ->].
      split_and!; [|done..]. apply by_request; [done|done|]. left. exists (w_db w4). split; [done|]. unfold portal_proof. by rewrite <- Hp.
    + unfold seatedFounder, setting_get in Hf. destruct (bool_decide (u_role account = super_admin)) eqn:Hrole; simpl in Hf; [|by apply mret_ok in Hf as [-> _]].
      idle_read Hf as row w7 Hr. apply mret_ok in Hf as [-> ->].
      destruct (founder_claim row) as [[| | |id| |]|] eqn:Hclaim; try done. case_bool_decide as Hid; [|done]. simpl in G.
      passes G as Hmapped. apply mret_ok in G as [-> ->]. split_and!; [|done..].
      apply by_request; [done|done|]. right. exists (w_db w7). split; [done|]. bool_to_prop. split; [done|].
      by rewrite <- Hr, Hclaim, Hid.
Qed.

Lemma planSignIn_entitled chosen claims stored transaction current context w0 w plan w' :
  only_rivals env (w_db w0) (w_db w) -> w_env w = env -> w_tx w = false -> tr_link_user_id transaction = None ->
  let who := read_claims (rp_settings chosen) claims in
  planSignIn config chosen claims (si_email who) (si_emailVerified who) (si_mapping who) stored context w = (Ok plan, w') ->
  entitled env (w_db w0) (rp_settings chosen) who transaction current plan
  /\ only_rivals env (w_db w0) (w_db w') /\ w_env w' = env /\ w_tx w' = false.
Proof.
  intros Ho He Ht Hlink who G. unfold planSignIn, plan_linked, plan_existing in G.
  unfold link_findBySubject in G. idle_read G as idrow w1 Hi. destruct idrow as [identity|].
  - assert (Hseen : seen env (w_db w0) (fun e => subject_row (rp_settings chosen) who e = Some identity)) by (by exists (w_db w1)).
    unfold users_find in G. idle_read G as user w2 Hu. destruct user as [user|]; [|done].
    passes G as Hst. destruct (bool_decide (cm_role _ = None) && _).
    + tx_bind G u w3 G3. done.
    + apply mret_ok in G as [-> ->]. split_and!; [|done..]. apply by_subject; [done|done|]. by exists (w_db w2).
  - destruct (si_email who) as [email|] eqn:Hemail; [|done]. passes G as Hrel.
    domains G as Hok. unfold users_find_email in G. idle_read G as existing w2 Hu.
    destruct existing as [user|].
    + passes G as Hle. apply negb_false_iff in Hle. passes G as Hpriv.
      passes G as Hver. apply negb_false_iff in Hver.
      unfold addressProven, proof_find in G. rewrite mbind_assoc in G.
      assert (Hseen : seen env (w_db w0) (fun e => users_findByEmail email (d_users e) = Some user)) by (by exists (w_db w2)).
      idle_read G as proof w3 Hp. tx_bind G proven w4 Hproven. apply mret_ok in Hproven as [-> ->].
      passes G as Hc. apply negb_false_iff in Hc. passes G as Hst.
      assert (Hseen' : seen env (w_db w0) (portal_proof user))
        by (exists (w_db w3); split; [done|]; unfold portal_proof; by rewrite <- Hp).
      unfold links_of in G. idle_read G as links w5 Hl. passes G as Hfree.
      passes G as Hmapped. apply mret_ok in G as [-> ->]. split_and!; [|done..]. by eapply by_address.
    + passes G as Hjit. apply negb_false_iff in Hjit. passes G as Hreq.
      passes G as Hmapped. apply mret_ok in G as [-> ->]. split_and!; [|done..].
      apply (by_provisioning _ _ _ _ _ _ email); [done|done| |done|done|by exists (w_db w2)].
      intros Hr. rewrite Hr in Hreq. by destruct (si_emailVerified who).
Qed.
End Plans.

(** ** The callback *)

(** No link's id ever stands for two identities: [owner] says which. *)
Definition linked_as (owner : string -> string * string * string * string) : account_pred := fun _ a =>
  forall i l, ac_links a !! i = Some l -> link_key l = owner i.

Lemma mcatch_ok {A} (m : M A) h w a w' :
  mcatch m h w = (Ok a, w') -> m w = (Ok a, w') \/ exists e w1, m w = (Throw e, w1) /\ h e w1 = (Ok a, w').
Proof. unfold mcatch. destruct (m w) as [[b|e] w1]; [by left|]. right. by exists e, w1. Qed.

Section Callback.
Context `{AuthDeps} `{SsoDeps} `{TeardownService} (config : NexusConfig) (env : nat -> turn).
Context (Hsso : forall P, account_rivals env P -> sso_deps_stay env P).

Lemma signIn_did plan provider who context w issued w' :
  account_rivals env accounts_ok -> on_accounts accounts_ok (w_db w) -> w_env w = env -> w_tx w = false ->
  signIn config plan provider who context w = (Ok issued, w') ->
  exists orgExists d d', only_rivals env (w_db w) d /\ only_rivals env d' (w_db w')
    /\ sign_in_did config plan provider who orgExists issued d d'.
Proof.
  intros HR Hok He Ht G. unfold signIn in G. tx_bind G at_ w1 G1. apply date_now_ok in G1 as [_ ->].
  tx_bind G hash w2 G2. apply (idle_run env) in G2 as (Ho & He2 & Ht2); [|intros P HP; unfold unusablePasswordHash; prove_stays|done..].
  tx_bind G orgExists w3 G3. apply (idle_run env) in G3 as (Ho3 & He3 & Ht3); [|intros P HP; prove_stays|done..].
  assert (Hf : frame (sign_in_commit config plan provider who hash orgExists at_ context)).
  { eapply (stays_frame env accounts_ok). apply sign_in_commit_stays; [apply _|]. intros user.
    by apply issueSession_ok_stays. }
  apply under_keys_idle with (env := env) in G as (v1 & v2 & Hv & Hev & Htv & Ho1 & Ho2); [|by apply frame_transaction|done..].
  apply (transaction_idle env) in Hv as (x1 & x2 & Hx & Htx & Hox & Hdx); [|done..].
  assert (Hall : only_rivals env (w_db w) (w_db x1)) by (etrans; [exact Ho|]; etrans; [exact Ho3|]; by etrans).
  pose proof (Hall _ HR Hok) as Hok'. exists orgExists, (w_db x1), (w_db x2). split_and!; [done|by rewrite Hdx|].
  eapply sign_in_commit_tx; [done|apply Hok'|apply Hok'|exact Hx].
Qed.

Lemma findProvider_ok providerId stored w chosen w' :
  findProvider config providerId stored w = (Ok chosen, w') ->
  sp_id (rp_settings chosen) = providerId /\ sp_enabled (rp_settings chosen) = true.
Proof.
  unfold findProvider. intros G. passes G as Hp. tx_bind G providers w1 G1.
  destruct (List.find _ providers) as [found|] eqn:Hf; [|done]. apply List.find_some in Hf as [_ Hid]. bool_to_prop.
  passes G as Hen. passes G as Hs. apply mret_ok in G as [-> _]. by apply negb_false_iff in Hen.
Qed.

(** What the cookie of an answered callback was, and what the token was. *)
Definition own_attempt (providerId : string) (query : SsoCallbackQuery) (cookie : option string)
    (transaction : SsoTransaction) : Prop :=
  openTransaction nexusCrypto cookie = Some transaction /\ tr_provider transaction = providerId
  /\ (exists n, t_now (env n) < tr_expires_at transaction)
  /\ (exists state, q_state query = Some state /\ tokensEqual state (tr_state transaction) = true)
  /\ q_error query = None /\ is_Some (q_code query).

Definition validated (provider : SsoProviderSettings) (transaction : SsoTransaction) (claims : Claims) : Prop :=
  exists v, iv_nonce v = tr_nonce transaction /\ iv_clientId v = sp_client_id provider /\ can_answer (validateIdToken v) claims.

Lemma callback_open_ok providerId cookie w stored chosen transaction w' :
  w_env w = env -> w_tx w = false ->
  callback_open config providerId cookie w = (Ok (stored, chosen, transaction), w') ->
  sp_id (rp_settings chosen) = providerId /\ openTransaction nexusCrypto cookie = Some transaction
  /\ tr_provider transaction = providerId /\ (exists n, t_now (env n) < tr_expires_at transaction).
Proof.
  unfold callback_open. intros He Ht G. tx_bind G s w1 G1.
  apply (idle_run env) in G1 as (_ & He1 & Ht1); [|intros P HP; prove_stays|done..].
  tx_bind G c w2 G2. pose proof (findProvider_ok _ _ _ _ _ G2) as [Hid _].
  apply (idle_run env) in G2 as (_ & He2 & Ht2); [|intros P HP; by apply findProvider_stays|done..].
  tx_bind G now w3 G3. apply date_now_ok in G3 as [Hnow ->].
  destruct (openTransaction _ cookie) as [t|]; [|done]. passes G as Hg. apply mret_ok in G as [[= -> -> ->] ->].
  apply orb_false_elim in Hg as [Hp Hx]. apply negb_false_iff in Hp. bool_to_prop.
  split_and!; [done|done|congruence|]. exists (w_turn w2). rewrite <- He2. fold (cur w2). lia.
Qed.

Lemma callback_did providerId query cookie current context w location issued w' :
  account_rivals env accounts_ok -> on_accounts accounts_ok (w_db w) -> w_env w = env -> w_tx w = false ->
  callback config providerId query cookie current context w = (Ok (CallbackOk location issued), w') ->
  exists transaction provider claims plan orgExists d d',
    own_attempt providerId query cookie transaction /\ sp_id provider = providerId /\ validated provider transaction claims
    /\ location = publicUrl +:+ tr_return_to transaction
    /\ only_rivals env (w_db w) d /\ only_rivals env d' (w_db w')
    /\ entitled env (w_db w) provider (read_claims provider claims) transaction current plan
    /\ sign_in_did config plan provider (read_claims provider claims) orgExists issued d d'.
Proof.
  intros HR Hok He Ht G. unfold callback in G. tx_bind G opened w1 G1. unfold mattempt in G1.
  destruct (callback_open config providerId cookie w) as [r w0] eqn:Hopen. injection G1 as <- <-.
  destruct r as [[[stored chosen] transaction]|e]; [|done].
  pose proof (callback_open_ok _ _ _ _ _ _ _ He Ht Hopen) as (Hid & Hcookie & Hprov & Hexp).
  apply (idle_run env) in Hopen as (Ho & He0 & Ht0);
    [|intros P HP; unfold callback_open; prove_stays; by apply findProvider_stays|done..].
  apply mcatch_ok in G as [Hf|(e & w2 & _ & G)]; [|done].
  tx_bind Hf s w2 G. apply mret_ok in Hf as [[= -> ->] ->]. unfold callback_finish, callback_code in G.
  tx_bind G code w3 G3. tx_ensure G3 as Hstate. tx_ensure G3 as Herror.
  destruct (q_code query) as [[|c code']|] eqn:Hcode; [done| |done]. apply mret_ok in G3 as [-> ->].
  tx_bind G claims w4 G4. unfold redeem in G4.
  tx_bind G4 discovery w5 G5. apply (idle_run env) in G5 as (Ho5 & He5 & Ht5); [|intros P HP; by apply discover_stays, Hsso|done..].
  tx_bind G4 tokens w6 G6. apply (idle_run env) in G6 as (Ho6 & He6 & Ht6); [|intros P HP; by apply exchange_stays, Hsso|done..].
  assert (Hvalid : validated (rp_settings chosen) transaction claims).
  { eexists. split_and!; [| |by exists w6, w4]; done. }
  apply (idle_run env) in G4 as (Ho4 & He4 & Ht4); [|intros P HP; by apply validate_stays, Hsso|done..].
  assert (Hall : only_rivals env (w_db w) (w_db w4)) by (etrans; [exact Ho|]; etrans; [exact Ho5|]; by etrans).
  set (who := read_claims (rp_settings chosen) claims) in *.
  tx_bind G u w7 G7. apply check_domains_ok in G7 as [-> Hdom]. tx_bind G plan w8 G8.
  assert (Hplan : entitled env (w_db w) (rp_settings chosen) who transaction current plan
                  /\ only_rivals env (w_db w) (w_db w8) /\ w_env w8 = env /\ w_tx w8 = false).
  { unfold is_linking in G8. case_bool_decide as Hlink.
    - by eapply planExplicitLink_entitled.
    - eapply planSignIn_entitled; [exact Hall|done|done| |exact G8]. by apply eq_None_not_Some. }
  destruct Hplan as (Hplan & Hall' & He8 & Ht8).
  apply signIn_did in G as (orgExists & d & d' & Ho1 & Ho2 & Hdid); [|done|by apply Hall'|done..].
  exists transaction, (rp_settings chosen), claims, plan, orgExists, d, d'.
  split_and!; [|done|done|done|by etrans|done|done|done].
  split_and!; [done|done|done| |by bool_to_prop|by rewrite Hcode]. destruct (q_state query) as [state|]; [by exists state|done].
Qed.
End Callback.

(** ** The tables a sign-in was committed to *)

Lemma links_findBySubject_ok providerId issuer subject t l :
  links_findBySubject providerId issuer subject t = Some l ->
  (exists i, t !! i = Some l) /\ ui_provider_id l = providerId /\ ui_issuer l = issuer /\ ui_subject l = subject.
Proof.
  unfold links_findBySubject. intros Hl. apply head_Some_elem_of, rows_where_spec in Hl as (i & Hi & Hp). bool_to_prop. by eauto.
Qed.

Lemma rows_by_user id (t : gmap string UserIdentityRecord) l :
  l ∈ links_listByUser id t <-> exists i, t !! i = Some l /\ ui_user_id l = id.
Proof.
  unfold links_listByUser. rewrite sort_by_elem, rows_where_spec. split; intros (i & Hi & Hp); exists i; (split; [done|]).
  - by bool_to_prop.
  - by rewrite bool_decide_eq_true.
Qed.

(** What a transaction that opened an account left in the three tables. *)
Record opened_account (provider : SsoProviderSettings) (who : SignInClaims) (account : UserRecord) (id : string) (d : db)
    : Prop := {
  oa_row : d_users d !! u_id account = Some account;
  oa_active : u_status account = UserActive;
  oa_link : exists l, ac_links (d_accounts d) !! id = Some l /\ link_key l = signs_in provider (si_claims who) (u_id account);
}.

Section Opened.
Context (env : nat -> turn) (owner : string -> string * string * string * string).
Context (Hrivals : account_rivals env accounts_ok) (Howner : account_rivals env (linked_as owner)).

Lemma seen_link d0 l : seen env d0 (fun e => exists i, ac_links (d_accounts e) !! i = Some l) ->
  on_accounts accounts_ok d0 -> on_accounts (linked_as owner) d0 -> link_key l = owner (ui_id l).
Proof.
  intros (e & He & i & Hi) Hok Hlinked. pose proof (He _ Hrivals Hok) as Hok'. pose proof (He _ Howner Hlinked) as Hl.
  rewrite (Hl _ _ Hi). by rewrite (ok_links _ _ Hok' _ _ Hi).
Qed.

Lemma seen_user d0 id user : seen env d0 (fun e => d_users e !! id = Some user) -> on_accounts accounts_ok d0 -> u_id user = id.
Proof. intros (e & He & Hu) Hok. pose proof (He _ Hrivals Hok) as Hok'. by apply (ok_users _ _ Hok' _ _ Hu). Qed.

(** A plan that returns found the subject's link, of the account it planned. *)
Lemma returning_key d0 provider who transaction current user identity initiating :
  on_accounts accounts_ok d0 -> on_accounts (linked_as owner) d0 ->
  entitled env d0 provider who transaction current (Returning user identity initiating) ->
  owner (ui_id identity) = signs_in provider (si_claims who) (u_id user).
Proof.
  intros Hok Hlinked He.
  assert (Hrow : seen env d0 (fun e => subject_row provider who e = Some identity) /\ ui_user_id identity = u_id user).
  { inversion He as [? ? _ Hs Hu|? ? ? _ _ Hs Hu| | |]; subst; split; try done. symmetry. by eapply seen_user. }
  destruct Hrow as [(e & Hd & Hs) Hu]. apply links_findBySubject_ok in Hs as (Hin & Hp & Hi & Hsub).
  assert (Hk : link_key identity = owner (ui_id identity)) by (eapply seen_link; [by exists e|done..]).
  rewrite <- Hk. unfold link_key, signs_in. congruence.
Qed.

Lemma claims_applied_row current account change provider who id d m :
  claims_applied current account change m d -> u_status current = UserActive ->
  (exists l, ac_links (d_accounts m) !! id = Some l /\ link_key l = signs_in provider (si_claims who) (u_id current)) ->
  opened_account provider who account id d.
Proof.
  intros [] Hst (l & Hl & Hkey). split; [by rewrite ca_users0, <- ca_id0, lookup_insert_eq|congruence|].
  exists l. by rewrite ca_links0, ca_id0.
Qed.

Lemma link_put_row key id d d' : link_put key id d d' -> exists l, ac_links (d_accounts d') !! id = Some l /\ link_key l = key.
Proof. intros (l & _ & Hk & -> & _). exists l. by rewrite lookup_insert_eq. Qed.

Lemma opens_opened config stored provider who transaction current orgExists plan d0 d account id m :
  on_accounts accounts_ok d0 -> on_accounts (linked_as owner) d0 -> only_rivals env d0 d ->
  entitled env d0 provider who transaction current plan -> opens config stored provider who orgExists plan d account id m ->
  opened_account provider who account id m.
Proof.
  intros Hok Hlinked Hd He Ho. pose proof (Hd _ Hrivals Hok) as Hok'. pose proof (Hd _ Howner Hlinked) as Hl'.
  destruct Ho as [account id d m _ Hst _ _ Hu _ Hput
    |user explicit initiating cur account id d m1 m Hc Hst _ _ _ Hu Hput Hca|user identity initiating cur account l d m1 m Hc Hst _ Hl Hu Hput Hca].
  - split; [by rewrite Hu, lookup_insert_eq|done|]. by eapply link_put_row.
  - by eapply claims_applied_row, link_put_row.
  - eapply claims_applied_row; [done..|]. apply link_put_row in Hput as (l' & Hl2 & Hk). exists l'. split; [done|].
    rewrite Hk, (Hl' _ _ Hl), (returning_key d0 provider who transaction current user identity initiating) by done.
    by rewrite (ok_users _ _ Hok' _ _ Hc).
Qed.
End Opened.

(** The account and the session of a sign-in, in the database it was committed to. *)
Record signed_in `{AuthDeps} (provider : SsoProviderSettings) (claims : Claims) (issued : IssuedSession) (account : UserRecord) (d : db)
    : Prop := {
  sg_account : d_users d !! ss_user_id (is_session issued) = Some account;
  sg_active : u_status account = UserActive;
  sg_link : exists i l, ac_links (d_accounts d) !! i = Some l
              /\ link_key l = signs_in provider claims (ss_user_id (is_session issued));
  sg_session : ac_sessions (d_accounts d) !! ss_id (is_session issued) = Some (is_session issued);
  sg_token : ss_token_hash (is_session issued) = hashToken (is_token issued);
}.

Lemma sign_in_did_account `{AuthDeps} config plan provider who orgExists issued d d' :
  sign_in_did config plan provider who orgExists issued d d' ->
  (forall account id m, opens config (stored_sso (d_settings d)) provider who orgExists plan d account id m ->
     opened_account provider who account id m) ->
  exists account, signed_in provider (si_claims who) issued account d'.
Proof.
  intros (account & id & m & at_ & now & _ & _ & Ho & Hu & Hl & Hs & Hid & Hhash) Hopened.
  destruct (Hopened _ _ _ Ho) as [Hrow Hst (l & Hlink & Hk)]. eexists. split.
  - rewrite Hid, Hu. unfold users_touchLastLogin. rewrite Hrow. by rewrite lookup_insert_eq.
  - done.
  - exists id, l. by rewrite Hl, Hid.
  - by rewrite Hs, lookup_insert_eq.
  - done.
Qed.


(** ** First links *)

Section Rights.
Context (config : NexusConfig) (env : nat -> turn) (provider : SsoProviderSettings) (who : SignInClaims)
  (transaction : SsoTransaction) (current : option SsoCurrentSession) (d0 : db).

(** The right a link is made by, in the transaction that found [d], of a callback
    that began at [d0]. *)
Inductive first_link_right (d : db) (l : UserIdentityRecord) : Prop :=
| right_of_new_account email :
    tr_link_user_id transaction = None -> sp_jit_provisioning provider = true ->
    (sp_require_verified_email provider = true -> si_emailVerified who = true) ->
    si_email who = Some email -> isReleasedEmail email = false -> d_users d !! ui_user_id l = None ->
    first_link_right d l
| right_of_holder user asking r now :
    asked_by transaction current asking -> cs_userId asking = ui_user_id l ->
    ac_sessions (d_accounts d) !! cs_sessionId asking = Some r -> ss_user_id r = ui_user_id l -> session_live config r now = true ->
    u_id user = ui_user_id l -> seen env d0 (portal_proof user) \/ seen env d0 (founder_seat user) ->
    first_link_right d l
| right_of_address user email account :
    tr_link_user_id transaction = None -> sp_link_existing_accounts provider = true ->
    si_email who = Some email -> si_emailVerified who = true ->
    seen env d0 (fun e => users_findByEmail email (d_users e) = Some user) -> seen env d0 (portal_proof user) ->
    u_id user = ui_user_id l -> d_users d !! ui_user_id l = Some account -> u_status account = UserActive ->
    privilegedAutoLink account (si_mapping who) provider = false ->
    first_link_right d l.

(** An opened account has one link rewritten, for the identity it stood for, or one
    made, by right. *)
Lemma opens_links stored orgExists plan d account id m :
  account_rivals env accounts_ok -> on_accounts accounts_ok d0 -> only_rivals env d0 d ->
  entitled env d0 provider who transaction current plan -> opens config stored provider who orgExists plan d account id m ->
  exists l, ac_links (d_accounts m) = <[id := l]> (ac_links (d_accounts d))
    /\ ((exists l0, ac_links (d_accounts d) !! id = Some l0 /\ link_key l = link_key l0)
        \/ ac_links (d_accounts d) !! id = None /\ link_key l = signs_in provider (si_claims who) (u_id account)
           /\ first_link_right d l).
Proof.
  intros HR Hok Hd He Ho. pose proof (Hd _ HR Hok) as Hok'.
  destruct Ho as [account id d m Hnew _ _ _ _ Hn (l & _ & Hk & Hl & _)
    |user explicit initiating now account id d m1 m Hc Hst Hlive Hpriv Hn _ (l & _ & Hk & Hl & _) []
    |user identity initiating now account l0 d m1 m _ _ _ Hl0 _ (l & _ & Hk & Hl & _) []].
  - exists l. split; [done|]. right. split_and!; [done..|]. inversion He; subst.
    eapply right_of_new_account; [done..|]. by injection Hk as -> _ _ _.
  - exists l. rewrite ca_links0, ca_id0. split; [done|]. right. split_and!; [done..|].
    pose proof (ok_users _ _ Hok' _ _ Hc) as Hid. simpl in Hid.
    assert (Hul : ui_user_id l = u_id user) by (injection Hk; congruence).
    inversion He as [| |? asking Hask Hu Hproof|? email Hno Hle Hver Hm Hu Hproof|]; subst.
    + destruct (Hlive _ eq_refl) as (r & at_ & Hr & Hru & Hnow).
      assert (Hself : u_id user = cs_userId asking) by (by eapply seen_user).
      eapply right_of_holder; [exact Hask|congruence|exact Hr|congruence|exact Hnow|by symmetry|done].
    + eapply right_of_address; [done..|by rewrite Hul|done|by apply Hpriv].
  - exists l. rewrite ca_links0. split; [done|]. left. by exists l0.
Qed.
End Rights.


(** ** What the claims may do *)

Lemma js_set_nil items : js_set [] items = [] -> items = [].
Proof. by destruct items. Qed.

Lemma lower_trust_none config stored except identities l :
  lower_trust config stored except identities = [] -> l ∈ identities ->
  Some (ui_provider_id l) = except \/ identity_trusted config stored l = true.
Proof.
  unfold lower_trust, sorted_set. intros Hn Hl.
  match type of Hn with sort_by _ ?items = _ => pose proof (sort_by_perm string_leb items) as Hp end.
  rewrite Hn in Hp. apply Permutation_nil, js_set_nil, map_eq_nil in Hp as Hnil. clear Hp.
  destruct (bool_decide (Some (ui_provider_id l) = except)) eqn:He; [left; by bool_to_prop|].
  destruct (identity_trusted config stored l) eqn:Ht; [by right|]. exfalso. apply list_elem_of_In in Hl.
  pose proof (proj2 (filter_In (fun i => negb (bool_decide (Some (ui_provider_id i) = except))
    && negb (identity_trusted config stored i)) l identities)) as Hf. rewrite Hnil, He, Ht in Hf. by destruct Hf.
Qed.

Section Effects.
Context (config : SsoEnvConfig) (stored : StoredSsoSettings) (provider : SsoProviderSettings) (who : SignInClaims).

(** A role the claims gave: the mapped one, never a super administrator's and never
    withheld. *)
Lemma claims_applied_role current account orgExists links d m :
  claims_applied current account (claims_change config stored provider who current orgExists links) d m ->
  u_role account <> u_role current ->
  u_role current <> super_admin /\ sp_sync_roles provider = true
  /\ sso_role <$> cm_role (si_mapping who) = Some (u_role account)
  /\ (role_at_least (u_role account) admin = true -> role_at_least (u_role current) admin = false ->
        lower_trust config stored (Some (sp_id provider)) links = [])
  /\ (role_at_least (u_role current) (u_role account) = false ->
        ac_sessions (d_accounts m) = (sessions_deleteForUser (u_id current) (ac_sessions (d_accounts d))).1).
Proof.
  intros [] Hne. set (planned := planClaimsChange current (si_mapping who) provider orgExists) in *.
  assert (Hnone : (claims_change config stored provider who current orgExists links ≫= cp_role) <> None).
  { intros Hn. rewrite Hn in ca_role0. by simpl in ca_role0. }
  assert (Hc : claims_change config stored provider who current orgExists links = planned
               /\ withheld_by config stored provider current planned links = []).
  { unfold claims_change in Hnone |- *. fold planned in Hnone |- *. destruct (withheld_by _ _ _ _ _ _) as [|x l]; [done|].
    exfalso. apply Hnone. unfold without_role. by destruct (planned ≫= cp_org_id). }
  destruct Hc as [Hc Hw]. rewrite Hc in Hnone, ca_role0, ca_sessions0.
  pose proof (plan_role_spec current (si_mapping who) provider orgExists) as Hspec. fold planned in Hspec.
  unfold withheld_by, promotes in Hw. rewrite Hspec in Hnone, ca_role0, Hw.
  destruct (cm_role (si_mapping who)) as [r|] eqn:Hr; [|done].
  destruct (bool_decide (u_role current <> super_admin)) eqn:Hs; [|done].
  destruct (sp_sync_roles provider) eqn:Hsync; [|done]. destruct (bool_decide (sso_role r <> _)) eqn:Hd; [|done].
  simpl in *. bool_to_prop. split_and!; [done|done|by rewrite ca_role0| |].
  - intros Hadmin Hnot. by rewrite <- ca_role0, Hadmin, Hnot in Hw.
  - intros Hraise. rewrite ca_sessions0. destruct planned as [c|]; [|done]. simpl in *. unfold raises_role.
    by rewrite Hspec, <- ca_role0, Hraise.
Qed.
End Effects.

(** The one row an opened account is. *)
Lemma opens_user config stored provider who orgExists plan d account id m :
  keyed u_id (d_users d) -> opens config stored provider who orgExists plan d account id m ->
  d_users m = <[u_id account := account]> (d_users d)
  /\ (d_users d !! u_id account = None /\ sso_role <$> cm_role (si_mapping who) = Some (u_role account)
      \/ exists current m1, d_users d !! u_id account = Some current /\ u_id current = u_id account
           /\ ac_sessions (d_accounts m1) = ac_sessions (d_accounts d)
           /\ claims_applied current account
                (claims_change (sso config) stored provider who current orgExists
                   (links_listByUser (u_id account) (ac_links (d_accounts m)))) m1 m).
Proof.
  intros Hk Ho. destruct Ho as [account id d m Hn _ Hr _ Hu _ _
    |user explicit initiating current account id d m1 m Hc _ _ _ _ Hu (l & _ & _ & _ & Hs) Hca
    |user identity initiating current account l0 d m1 m Hc _ _ _ Hu (l & _ & _ & _ & Hs) Hca]; [by split; [|left]|..];
    pose proof (Hk _ _ Hc) as Hid; simpl in Hid; destruct Hca eqn:Hca';
    (split; [by rewrite ca_users0, Hu, ca_id0|]); right; exists current, m1;
    (split_and!; [congruence|congruence|done|by rewrite ca_links0, ca_id0]).
Qed.

Lemma touchLastLogin_lookup id at_ now t i u :
  users_touchLastLogin id at_ now t !! i = Some u -> exists x, t !! i = Some x /\ u_role u = u_role x.
Proof.
  unfold users_touchLastLogin. destruct (t !! id) as [y|] eqn:Hy; [|by eauto].
  destruct (decide (id = i)) as [<-|Hne]; [|rewrite lookup_insert_ne by done; by eauto].
  rewrite lookup_insert_eq. intros [= <-]. by exists y.
Qed.

(** What a sign-in of [issued] at a provider may do to the role of an account. *)
Record role_given (config : SsoEnvConfig) (stored : StoredSsoSettings) (provider : SsoProviderSettings) (who : SignInClaims)
    (issued : IssuedSession) (d' : db) (before after : Role) : Prop := {
  rg_mapped : sso_role <$> cm_role (si_mapping who) = Some after;
  rg_synced : sp_sync_roles provider = true;
  rg_super : before <> super_admin /\ after <> super_admin;
  rg_admin : role_at_least after admin = true -> role_at_least before admin = false ->
    grantsAdmin provider = true
    /\ forall i l, ac_links (d_accounts d') !! i = Some l -> ui_user_id l = ss_user_id (is_session issued) ->
         ui_provider_id l = sp_id provider \/ identity_trusted config stored l = true;
  rg_raised : role_at_least before after = false ->
    forall k s, ac_sessions (d_accounts d') !! k = Some s -> ss_user_id s = ss_user_id (is_session issued) -> s = is_session issued;
}.


(** *** A sample sign-in: the provider [corp] of the environment, an attempt sealed in
    its cookie, and the claims its token carries *)

Definition corp_config : NexusConfig := {|
  sessionTtlSeconds := 3600; sessionMaxAgeSeconds := 7200; bootstrapToken := None;
  sso := {| sc_providers := [{| ev_settings := corp; ev_clientSecret := Some "hush"%string |}]; sc_breakGlassLocalLogin := false |};
|}.

Definition corp_cookie : string := json_stringify (transaction_json {|
  tr_provider := "corp"; tr_state := "state-1"; tr_nonce := "nonce-1"; tr_verifier := "verifier-1"; tr_return_to := "/apis";
  tr_expires_at := 600000; tr_link_user_id := None; tr_link_session_id := None |}).

Definition corp_claims (groups : list json) : Claims :=
  [("sub", JStr "s-1"); ("email", JStr "Dev@Example.com"); ("email_verified", JBool true); ("name", JStr "Dev");
   ("realm_access", JObj [("roles", JArr groups)])]%string.

Definition corp_query (state : string) (groups : list json) : SsoCallbackQuery := {|
  q_code := Some (json_stringify (JObj (corp_claims groups))); q_state := Some state; q_error := None |}.

Definition corp_callback (state : string) (groups : list json) (w : world) : res exn SsoCallbackResult * world :=
  callback corp_config "corp" (corp_query state groups) (Some corp_cookie) None sample_context w.
(** The database after a first sign-in. *)
Definition corp_member : world := serve_all corp_config
  [CallSsoCallback "corp" (corp_query "state-1" []) (Some corp_cookie) None sample_context] sample_empty.

Lemma corp_member_ok : on_accounts accounts_ok (w_db corp_member).
Proof.
  pose proof (issueSession_ok_stays corp_config sample_turn (sample_rivals _)) as Hissue.
  apply (serve_all_stays corp_config sample_turn accounts_ok (sample_rivals _) (sample_deps_stay _ _) (sample_sso_stay _ _));
    [intros; apply sign_in_commit_stays; [apply _|intros; apply Hissue]|intros; apply deprovision_ok|
    |intros; apply (transition_ok _ (sample_rivals _) (sample_deps_stay _ _))|intros; apply Hissue|done..|exact fresh_accounts_ok].
  intros. apply login_commit_stays; [apply _|apply sample_rivals|intros; apply Hissue].
Qed.




(** ** A save of the settings

    Each lemma says what a loop of the transaction did to the settings, the links and
    the sessions. *)

(** Only the settings changed. *)
Definition settings_only (d d' : db) : Prop := d' = with_settings (d_settings d') d.

#[export] Instance settings_only_preorder : PreOrder settings_only.
Proof. split; [by intros []|]. intros d1 d2 d3 H1 H2. unfold settings_only in *. rewrite H2, H1. done. Qed.

Lemma for_each_check {A} (items : list A) body (Q : A -> db -> Prop) w u w' :
  (forall item v v', w_tx v = true -> body item v = (Ok tt, v') -> w_tx v' = true /\ w_db v' = w_db v /\ Q item (w_db v)) ->
  w_tx w = true -> for_each items body w = (Ok u, w') ->
  w_tx w' = true /\ w_db w' = w_db w /\ forall item, item ∈ items -> Q item (w_db w).
Proof.
  intros Hb. revert w. induction items as [|item rest IH]; intros w Ht H; simpl in H.
  - apply mret_ok in H as [_ ->]. split_and!; [done..|]. by intros x Hx%elem_of_nil.
  - tx_bind H v w1 H1. destruct v. apply Hb in H1 as (Ht1 & Hd1 & HQ); [|done]. apply IH in H as (Ht' & Hd' & Hall); [|done].
    split_and!; [done|congruence|]. intros x [->|Hx]%elem_of_cons; [done|]. rewrite <- Hd1. by apply Hall.
Qed.

Section SaveSteps.
Context `{SsoDeps}.

Lemma check_unmoved_tx stored plan w u w' :
  w_tx w = true -> check_unmoved stored plan w = (Ok u, w') ->
  w_tx w' = true /\ w_db w' = w_db w /\ stored_sso (d_settings (w_db w)) = stored
  /\ (forall id, id ∈ sv_reissued plan -> links_countByProvider id (ac_links (d_accounts (w_db w))) <= 0)
  /\ (forall id, id ∈ sv_rebound plan -> settings_get (ssoClientSecretKey id) (d_settings (w_db w)) = None).
Proof.
  unfold check_unmoved, readStoredSsoSettings, setting_get. intros Ht H0. rewrite mbind_assoc in H0.
  apply bind_read in H0 as (w1 & H0 & Hd1 & Ht1); [|done]. tx_bind H0 current w2 H2. apply mret_ok in H2 as [-> ->].
  tx_ensure H0 as Hsame. tx_bind H0 v w3 H3.
  apply (for_each_check _ _ (fun id d => links_countByProvider id (ac_links (d_accounts d)) <= 0)) in H3 as (Ht3 & Hd3 & Hlinks); [| |done].
  2:{ intros id x x' Hx G. unfold link_countByProvider in G. tx_read G as n x1 Hn Hdx Htx. apply ensure_ok in G as [Hz ->].
      bool_to_prop. split_and!; [done..|lia]. }
  apply (for_each_check _ _ (fun id d => settings_get (ssoClientSecretKey id) (d_settings d) = None)) in H0 as (Ht' & Hd' & Hsec); [| |done].
  2:{ intros id x x' Hx G. tx_read G as row x1 Hn Hdx Htx. apply ensure_ok in G as [Hz ->]. bool_to_prop. split_and!; [done..|congruence]. }
  bool_to_prop. split_and!; [done|congruence|done| |].
  - intros id Hid. rewrite <- Hd1. by apply Hlinks.
  - intros id Hid. rewrite <- Hd1, <- Hd3. by apply Hsec.
Qed.

Lemma delete_each_tx (encrypted : list (string * option string)) w u w' :
  w_tx w = true -> for_each encrypted (fun e => do_ setting_delete (ssoClientSecretKey e.1); mret tt) w = (Ok u, w') ->
  w_tx w' = true /\ settings_only (w_db w) (w_db w')
  /\ forall key, d_settings (w_db w') !! key =
       if bool_decide (key ∈ map (fun e => ssoClientSecretKey e.1) encrypted) then None else d_settings (w_db w) !! key.
Proof.
  revert w. induction encrypted as [|[id s] rest IH]; intros w Ht H0; simpl in H0.
  - apply mret_ok in H0 as [_ ->]. split_and!; [done..|]. intros key. by rewrite bool_decide_eq_false_2 by apply not_elem_of_nil.
  - tx_bind H0 v w1 H1. tx_bind H1 b w2 H2. apply mret_ok in H1 as [_ ->]. apply statement_tx in H2 as [H2 Ht2]; [|done].
    injection H2 as _ Hd2. apply IH in H0 as (Ht' & Hs & Hl); [|done].
    split_and!; [done|etrans; [|exact Hs]; by rewrite <- Hd2|].
    intros key. rewrite Hl, <- Hd2. simpl. destruct (decide (key = ssoClientSecretKey id)) as [->|Hne].
    + rewrite (bool_decide_eq_true_2 (_ ∈ _ :: _)) by apply list_elem_of_here. rewrite lookup_delete_eq. by case_bool_decide.
    + rewrite lookup_delete_ne by done. case_bool_decide as Hin; case_bool_decide as Hin'; [done| | |done].
      * destruct Hin'. by apply list_elem_of_further.
      * by apply elem_of_cons in Hin' as [|].
Qed.

(** The row of a secret the save wrote. *)
Definition written (encrypted : list (string * option string)) (id : string) (r : SettingRecord) : Prop :=
  exists blob, (id, Some blob) ∈ encrypted /\ s_value r = json_stringify (JStr blob) /\ s_encrypted r = true.

Lemma ssoClientSecretKey_inj id id' : ssoClientSecretKey id = ssoClientSecretKey id' -> id = id'.
Proof. unfold ssoClientSecretKey. intros Hk. by apply (inj _) in Hk. Qed.

Lemma set_each_tx (encrypted : list (string * option string)) w u w' :
  w_tx w = true ->
  for_each encrypted (fun e => match e.2 with
                               | Some blob => setting_set_encrypted (ssoClientSecretKey e.1) blob
                               | None => mret tt
                               end) w = (Ok u, w') ->
  w_tx w' = true /\ settings_only (w_db w) (w_db w')
  /\ (forall key, (forall id, key <> ssoClientSecretKey id) -> d_settings (w_db w') !! key = d_settings (w_db w) !! key)
  /\ (forall id r, d_settings (w_db w') !! ssoClientSecretKey id = Some r ->
        d_settings (w_db w) !! ssoClientSecretKey id = Some r \/ written encrypted id r).
Proof.
  revert w. induction encrypted as [|[id [blob|]] rest IH]; intros w Ht H0; simpl in H0.
  - apply mret_ok in H0 as [_ ->]. by split_and!; [| |intros|left].
  - tx_bind H0 v w1 H1. apply statement_tx in H1 as [H1 Ht1]; [|done]. injection H1 as _ Hd1.
    apply IH in H0 as (Ht' & Hs & Hl & Hw); [|done]. split_and!; [done|etrans; [|exact Hs]; by rewrite <- Hd1| |].
    + intros key Hk. rewrite Hl, <- Hd1 by done. simpl. rewrite lookup_insert_ne; [done|]. by intros <-; eapply Hk.
    + intros i r Hr. apply Hw in Hr as [Hr|(b & Hb & Hv)]; [|right; exists b; split; [by apply list_elem_of_further|done]].
      rewrite <- Hd1 in Hr. simpl in Hr. apply lookup_insert_Some in Hr as [[Hk <-]|[_ Hr]]; [|by left].
      apply ssoClientSecretKey_inj in Hk as <-. right. exists blob. split_and!; [apply list_elem_of_here|done..].
  - tx_bind H0 v w1 H1. apply mret_ok in H1 as [_ ->]. apply IH in H0 as (Ht' & Hs & Hl & Hw); [|done]. split_and!; [done..|].
    intros i r Hr. apply Hw in Hr as [Hr|(b & Hb & Hv)]; [by left|right; exists b; split; [by apply list_elem_of_further|done]].
Qed.

Lemma sso_key_not_secret id : SSO_SETTINGS_KEY <> ssoClientSecretKey id.
Proof. discriminate. Qed.

Lemma write_settings_tx plan encrypted w u w' :
  w_tx w = true -> write_settings plan encrypted w = (Ok u, w') ->
  w_tx w' = true /\ settings_only (w_db w) (w_db w')
  /\ (exists r, settings_get SSO_SETTINGS_KEY (d_settings (w_db w')) = Some r
        /\ s_value r = json_stringify (settings_json (sv_next plan)) /\ s_encrypted r = false)
  /\ (forall id r, settings_get (ssoClientSecretKey id) (d_settings (w_db w')) = Some r ->
        written encrypted id r
        \/ (~ id ∈ map fst encrypted /\ settings_get (ssoClientSecretKey id) (d_settings (w_db w)) = Some r)).
Proof.
  unfold write_settings, settings_get. intros Ht H0. tx_bind H0 v1 w1 H1. apply delete_each_tx in H1 as (Ht1 & Hs1 & Hl1); [|done].
  tx_bind H0 v2 w2 H2. apply statement_tx in H2 as [H2 Ht2]; [|done]. injection H2 as _ Hd2.
  apply set_each_tx in H0 as (Ht' & Hs' & Hl' & Hw'); [|done].
  split_and!; [done|etrans; [exact Hs1|]; etrans; [|exact Hs']; by rewrite <- Hd2| |].
  - rewrite Hl' by apply sso_key_not_secret. rewrite <- Hd2. simpl. rewrite lookup_insert_eq. by eexists.
  - intros id r Hr. apply Hw' in Hr as [Hr|]; [right|by left]. rewrite <- Hd2 in Hr. simpl in Hr.
    rewrite lookup_insert_ne in Hr by apply sso_key_not_secret. rewrite Hl1 in Hr. case_bool_decide as Hin; [done|].
    split; [|done]. intros Hid. apply Hin. apply list_elem_of_fmap in Hid as (e & -> & He).
    apply list_elem_of_fmap. by exists e.
Qed.

(** Rows whose column is on the list go, the others stay. *)
Definition purged {R} (column : R -> string) (gone : list string) (t t' : gmap string R) : Prop :=
  forall i r, (t' !! i = Some r) <-> (t !! i = Some r /\ column r ∉ gone).

Lemma purged_none {R} (column : R -> string) (t : gmap string R) : purged column [] t t.
Proof. intros i r. split; [|by intros []]. intros Hr. split; [done|apply not_elem_of_nil]. Qed.

Lemma purged_cons {R} (column : R -> string) x rest (t t1 t2 : gmap string R) :
  t1 = (delete_where (fun r => bool_decide (column r = x)) t).1 -> purged column rest t1 t2 -> purged column (x :: rest) t t2.
Proof.
  intros -> Hp i r. rewrite (Hp i r). unfold delete_where. simpl. rewrite map_lookup_filter_Some, bool_decide_eq_false.
  rewrite not_elem_of_cons. tauto.
Qed.

(** Of the tables, the links and the sessions changed. *)
Definition rest_kept (d d' : db) : Prop := d_settings d' = d_settings d /\ d_users d' = d_users d.

#[export] Instance rest_kept_preorder : PreOrder rest_kept.
Proof. split; [by intros d|]. intros d1 d2 d3 [? ?] [? ?]. split; congruence. Qed.

Lemma unlink_each_tx ids w ns w' :
  w_tx w = true -> map_each ids link_deleteByProvider w = (Ok ns, w') ->
  w_tx w' = true /\ rest_kept (w_db w) (w_db w') /\ ac_sessions (d_accounts (w_db w')) = ac_sessions (d_accounts (w_db w))
  /\ purged ui_provider_id ids (ac_links (d_accounts (w_db w))) (ac_links (d_accounts (w_db w'))).
Proof.
  revert w ns. induction ids as [|id rest IH]; intros w ns Ht H0; simpl in H0.
  - apply mret_ok in H0 as [_ ->]. split_and!; [done..|apply purged_none].
  - tx_bind H0 n w1 H1. apply statement_tx in H1 as [H1 Ht1]; [|done].
    destruct (links_deleteByProvider id (ac_links _)) as [rows k] eqn:Hd. injection H1 as _ Hd1.
    tx_bind H0 others w2 H2. apply mret_ok in H0 as [_ ->]. apply IH in H2 as (Ht' & Hk & Hs & Hp); [|done].
    split_and!; [done|etrans; [|exact Hk]; by rewrite <- Hd1|by rewrite Hs, <- Hd1|].
    eapply purged_cons; [|exact Hp]. rewrite <- Hd1.
    change (rows = (links_deleteByProvider id (ac_links (d_accounts (w_db w)))).1). by rewrite Hd.
Qed.

Lemma end_each_tx ids w ns w' :
  w_tx w = true -> map_each ids session_deleteForUser w = (Ok ns, w') ->
  w_tx w' = true /\ rest_kept (w_db w) (w_db w') /\ ac_links (d_accounts (w_db w')) = ac_links (d_accounts (w_db w))
  /\ purged ss_user_id ids (ac_sessions (d_accounts (w_db w))) (ac_sessions (d_accounts (w_db w'))).
Proof.
  revert w ns. induction ids as [|id rest IH]; intros w ns Ht H0; simpl in H0.
  - apply mret_ok in H0 as [_ ->]. split_and!; [done..|apply purged_none].
  - tx_bind H0 n w1 H1. apply statement_tx in H1 as [H1 Ht1]; [|done].
    destruct (sessions_deleteForUser id (ac_sessions _)) as [rows k] eqn:Hd. injection H1 as _ Hd1.
    tx_bind H0 others w2 H2. apply mret_ok in H0 as [_ ->]. apply IH in H2 as (Ht' & Hk & Hs & Hp); [|done].
    split_and!; [done|etrans; [|exact Hk]; by rewrite <- Hd1|by rewrite Hs, <- Hd1|].
    eapply purged_cons; [|exact Hp]. rewrite <- Hd1.
    change (rows = (sessions_deleteForUser id (ac_sessions (d_accounts (w_db w)))).1). by rewrite Hd.
Qed.

Lemma list_users_each_tx ids w found w' :
  w_tx w = true -> map_each ids link_listUserIdsByProvider w = (Ok found, w') ->
  w_tx w' = true /\ w_db w' = w_db w
  /\ found = map (fun id => links_listUserIdsByProvider id (ac_links (d_accounts (w_db w)))) ids.
Proof.
  revert w found. induction ids as [|id rest IH]; intros w found Ht H0; simpl in H0.
  - by apply mret_ok in H0 as [-> ->].
  - unfold link_listUserIdsByProvider in H0 at 1. tx_read H0 as users w1 Hu Hd1 Ht1. tx_bind H0 others w2 H2.
    apply mret_ok in H0 as [-> ->]. apply IH in H2 as (Ht' & Hd' & ->); [|done]. simpl. split_and!; [done|congruence|].
    by rewrite Hu, Hd1.
Qed.
End SaveSteps.

Lemma js_set_spec x items : forall seen, x ∈ js_set seen items <-> (x ∈ items /\ x ∉ seen).
Proof.
  induction items as [|y rest IH]; intros seen; simpl; [rewrite elem_of_nil; tauto|].
  destruct (decide (y ∈ seen)) as [Hy|Hy].
  - rewrite IH, elem_of_cons. split; [tauto|]. intros [[->|Hx] Hn]; tauto.
  - rewrite elem_of_cons, IH, !elem_of_cons. split; [intros [->|[Hx Hn]]; [tauto|]|intros [[->|Hx] Hn]; [tauto|]];
      destruct (decide (x = y)) as [->|]; tauto.
Qed.

Lemma users_by_provider_spec id u (t : gmap string UserIdentityRecord) :
  u ∈ links_listUserIdsByProvider id t <-> exists i l, t !! i = Some l /\ ui_provider_id l = id /\ ui_user_id l = u.
Proof.
  unfold links_listUserIdsByProvider. rewrite sort_by_elem, elem_of_remove_dups, list_elem_of_fmap. split.
  - intros (l & -> & Hl). apply rows_where_spec in Hl as (i & Hi & Hp). bool_to_prop. by exists i, l.
  - intros (i & l & Hi & Hp & <-). exists l. split; [done|]. apply rows_where_spec. exists i. by rewrite bool_decide_eq_true.
Qed.

(** The providers whose links go with them. *)
Definition unlinked (config : NexusConfig) (plan : SettingsPlan) : list string :=
  List.filter (fun id => negb (bool_decide (id ∈ env_ids (sso config)))) (sv_removed plan).

(** What the transaction of a save did. *)
Record saved (config : NexusConfig) (stored : StoredSsoSettings) (plan : SettingsPlan)
    (encrypted : list (string * option string)) (d d' : db) : Prop := {
  sd_read : stored_sso (d_settings d) = stored;
  sd_reissued : forall id, id ∈ sv_reissued plan -> forall i l, ac_links (d_accounts d) !! i = Some l -> ui_provider_id l <> id;
  sd_rebound : forall id, id ∈ sv_rebound plan -> settings_get (ssoClientSecretKey id) (d_settings d) = None;
  sd_row : exists r, settings_get SSO_SETTINGS_KEY (d_settings d') = Some r
             /\ s_value r = json_stringify (settings_json (sv_next plan)) /\ s_encrypted r = false;
  sd_secrets : forall id r, settings_get (ssoClientSecretKey id) (d_settings d') = Some r ->
    written encrypted id r \/ (~ id ∈ map fst encrypted /\ settings_get (ssoClientSecretKey id) (d_settings d) = Some r);
  sd_links : purged ui_provider_id (unlinked config plan) (ac_links (d_accounts d)) (ac_links (d_accounts d'));
  sd_sessions : forall i s, ac_sessions (d_accounts d') !! i = Some s <->
    ac_sessions (d_accounts d) !! i = Some s
    /\ ~ exists k l, ac_links (d_accounts d) !! k = Some l /\ ui_provider_id l ∈ cut_off config stored plan
                    /\ ui_user_id l = ss_user_id s;
  sd_users : d_users d' = d_users d;
}.

Lemma save_commit_tx `{SsoDeps} config actor stored plan encrypted ip w u w' :
  w_tx w = true -> save_commit config actor stored plan encrypted ip w = (Ok u, w') ->
  saved config stored plan encrypted (w_db w) (w_db w').
Proof.
  unfold save_commit. intros Ht H0. tx_bind H0 v1 w1 H1. apply check_unmoved_tx in H1 as (Ht1 & Hd1 & Hread & Hre & Hrb); [|done].
  tx_bind H0 v2 w2 H2. apply write_settings_tx in H2 as (Ht2 & Hset & Hrow & Hsec); [|done].
  tx_bind H0 users w3 H3. apply list_users_each_tx in H3 as (Ht3 & Hd3 & Husers); [|done].
  tx_bind H0 removed w4 H4. apply unlink_each_tx in H4 as (Ht4 & [Hset4 Hu4] & Hs4 & Hlinks); [|done].
  tx_bind H0 ended w5 H5. apply end_each_tx in H5 as (Ht5 & [Hset5 Hu5] & Hl5 & Hsessions); [|done].
  tx_bind H0 row w6 H6. apply mret_ok in H0 as [_ ->]. apply audit_record_tx in H6 as [Hd6 Ht6]; [|done].
  assert (Hset6 : d_settings (w_db w6) = d_settings (w_db w2)) by (rewrite Hd6; simpl; congruence).
  assert (Hacc : d_accounts (w_db w3) = d_accounts (w_db w)) by (rewrite Hd3, Hset, Hd1; done).
  assert (Hacc6 : d_accounts (w_db w6) = d_accounts (w_db w5)) by (by rewrite Hd6).
  assert (Husr : d_users (w_db w3) = d_users (w_db w)) by (rewrite Hd3, Hset, Hd1; done).
  rewrite Hacc in Hlinks, Hs4. rewrite Hset, Hd1 in Husers. simpl in Husers.
  split; [done| |done|by rewrite Hset6|by rewrite Hset6, <- Hd1| | |].
  - intros id Hid i l Hl Hp. specialize (Hre id Hid). unfold links_countByProvider in Hre.
    assert (Hin : l ∈ rows_where (fun r => bool_decide (ui_provider_id r = id)) (ac_links (d_accounts (w_db w)))).
    { apply rows_where_spec. exists i. by rewrite bool_decide_eq_true. }
    destruct (rows_where _ _); [by apply elem_of_nil in Hin|simpl in Hre; lia].
  - rewrite Hacc6, Hl5. exact Hlinks.
  - intros i s. rewrite Hacc6. rewrite (Hsessions i s), Hs4, js_set_spec. apply and_iff_compat_l.
    assert (Hiff : ss_user_id s ∈ concat users <-> exists k l, ac_links (d_accounts (w_db w)) !! k = Some l
              /\ ui_provider_id l ∈ cut_off config stored plan /\ ui_user_id l = ss_user_id s); [|rewrite Hiff; pose proof (not_elem_of_nil (ss_user_id s)); tauto].
    rewrite Husers, <- flat_map_concat_map. rewrite list_elem_of_In, in_flat_map. split.
    + intros (id & Hid & Hu). apply list_elem_of_In in Hid, Hu. apply users_by_provider_spec in Hu as (k & l & Hk & <- & Hu). eauto.
    + intros (k & l & Hk & Hcut & Hu). exists (ui_provider_id l). rewrite <- !list_elem_of_In. split; [done|].
      apply users_by_provider_spec. eauto.
  - rewrite Hd6. simpl. congruence.
Qed.

(** *** What a save was worked out to be *)

(** The secret a request carries for a provider. *)
Definition requested (patch : UpdateSsoSettingsRequest) (id : string) (secret : option string) : Prop :=
  exists providers p, us_providers patch = Some providers /\ (p, Some secret) ∈ providers /\ sp_id p = id.

(** The client of [p] is not the one [b] was registered as. *)
Definition moved (b p : SsoProviderSettings) : Prop := sp_issuer b <> sp_issuer p \/ sp_client_id b <> sp_client_id p.

Section PlanFacts.
Context `{SsoDeps} (config : NexusConfig) (stored : StoredSsoSettings).
Let previous := by_id (st_providers stored).

(** What the loop over the providers has gathered. *)
Record gathered (request : list (SsoProviderSettings * option (option string))) (plan : ProvidersPlan) : Prop := {
  ga_seen : pv_seen plan = map sp_id (pv_providers plan);
  ga_distinct : NoDup (pv_seen plan);
  ga_environment : forall id, id ∈ pv_seen plan -> id ∉ env_ids (sso config);
  ga_secrets : forall id s, (id, s) ∈ pv_secretWrites plan -> exists p, (p, Some s) ∈ request /\ sp_id p = id;
  ga_reissued : forall b p, p ∈ pv_providers plan -> map_of previous (sp_id p) = Some b -> sp_issuer b <> sp_issuer p ->
    sp_id p ∈ pv_reissued plan;
  ga_moved : forall b p, p ∈ pv_providers plan -> map_of previous (sp_id p) = Some b -> moved b p ->
    sp_id p ∈ pv_rebound plan \/ exists s, (sp_id p, s) ∈ pv_secretWrites plan;
}.

Lemma plan_provider_ok request plan settings secret w plan' w' :
  gathered request plan -> plan_provider config previous plan settings secret w = (Ok plan', w') ->
  gathered (request ++ [(settings, secret)]) plan'.
Proof.
  unfold plan_provider. intros [] H0. tx_ensure H0 as Hnew. tx_ensure H0 as Henv. tx_bind H0 u1 w1 H1.
  tx_bind H0 u2 w2 H2. tx_bind H0 u3 w3 H3. tx_bind H0 u4 w4 H4. tx_bind H0 domains w5 H5. apply mret_ok in H0 as [-> _].
  apply negb_true_iff in Hnew, Henv. bool_to_prop. split; simpl.
  - by rewrite map_app, <- ga_seen0.
  - apply NoDup_app. split_and!; [done| |apply NoDup_singleton]. by intros id Hid ->%list_elem_of_singleton.
  - intros id [Hid| ->%list_elem_of_singleton]%elem_of_app; [by apply ga_environment0|done].
  - intros id s [Hid|Hid]%elem_of_app.
    + apply ga_secrets0 in Hid as (p & Hp & <-). exists p. split; [apply elem_of_app; by left|done].
    + destruct secret as [x|]; [|by apply elem_of_nil in Hid]. apply list_elem_of_singleton in Hid as [= -> ->].
      exists settings. split; [|done]. apply elem_of_app. right. apply list_elem_of_here.
  - intros b p [Hp| ->%list_elem_of_singleton]%elem_of_app Hb Hd; apply elem_of_app; [left; by eapply ga_reissued0|right].
    simpl in *. rewrite Hb. rewrite bool_decide_eq_false_2 by done. apply list_elem_of_here.
  - intros b p [Hp| ->%list_elem_of_singleton]%elem_of_app Hb Hd.
    + destruct (ga_moved0 _ _ Hp Hb Hd) as [Hm|(s & Hs)]; [left; apply elem_of_app; by left|right; exists s; apply elem_of_app; by left].
    + simpl in *. rewrite Hb. destruct secret as [s|]; [right; exists s; apply elem_of_app; right; apply list_elem_of_here|left].
      apply elem_of_app. right. lazymatch goal with |- _ ∈ (if ?c then _ else _) => assert (c = true) as ->; [|apply list_elem_of_here] end.
      rewrite andb_true_iff, orb_true_iff, !negb_true_iff, !bool_decide_eq_false, bool_decide_eq_true. by split.
Qed.

Lemma plan_providers_ok rest : forall request plan w plan' w',
  gathered request plan -> plan_providers config previous plan rest w = (Ok plan', w') -> gathered (request ++ rest) plan'.
Proof.
  induction rest as [|[settings secret] rest IH]; intros request plan w plan' w' Hg H0; simpl in H0.
  - apply mret_ok in H0 as [-> _]. by rewrite app_nil_r.
  - tx_bind H0 next w1 H1. apply (plan_provider_ok request) in H1; [|done]. apply (IH (request ++ [(settings, secret)])) in H0; [|done].
    by rewrite <- app_assoc in H0.
Qed.
End PlanFacts.

(** The row that is written reads back. *)
Lemma json_wf_map {A} (f : A -> json) l : (forall a, json_wf (f a)) -> json_wf (JArr (map f l)).
Proof. intros Hf. induction l as [|a l IH]; simpl; [done|]. by split. Qed.

Ltac distinct_members := apply (bool_decide_unpack (NoDup _)); vm_compute; exact I.

Lemma provider_json_wf p : json_wf (provider_json p).
Proof.
  split; [distinct_members|]. split_and!; try done; try (by apply json_wf_map).
  - by destruct (sp_default_role p).
  - apply json_wf_map. intros m. split; [distinct_members|done].
  - apply json_wf_map. intros m. split; [distinct_members|done].
Qed.

Lemma settings_json_wf s : json_wf (settings_json s).
Proof. split; [distinct_members|]. split_and!; try done; apply json_wf_map; [done|apply provider_json_wf]. Qed.

Lemma encrypt_secrets_ok `{SsoDeps} writes w encrypted w' :
  encrypt_secrets writes w = (Ok encrypted, w') ->
  map fst encrypted = map fst writes
  /\ forall id blob, (id, Some blob) ∈ encrypted ->
       exists s iv, (id, Some s) ∈ writes /\ blob = encryptJson nexusCrypto (ssoClientSecretKey id) (JStr s) iv.
Proof.
  revert w encrypted w'. induction writes as [|[id secret] rest IH]; intros w encrypted w' H0; simpl in H0.
  - apply mret_ok in H0 as [-> _]. split; [done|]. by intros id blob Hin%elem_of_nil.
  - tx_bind H0 blob w1 H1. tx_bind H0 others w2 H2. apply mret_ok in H0 as [-> _]. apply IH in H2 as [Hids Hblobs]. simpl.
    split; [by rewrite Hids|]. intros i b [[= -> <-]|Hin]%elem_of_cons.
    + destruct secret as [s|]; [|by apply mret_ok in H1 as [? _]]. tx_bind H1 iv w3 H3. apply mret_ok in H1 as [[= ->] _].
      exists s, iv. split; [apply list_elem_of_here|done].
    + apply Hblobs in Hin as (s & iv & Hin & ->). exists s, iv. split; [by apply list_elem_of_further|done].
Qed.

(** What the fields of a request make of the stored settings. *)
Record planned (patch : UpdateSsoSettingsRequest) (stored : StoredSsoSettings) (plan : SettingsPlan) : Prop := {
  pn_policy : st_policy (sv_next plan) = default (st_policy stored) (us_policy patch);
  pn_access : st_deprovision_on_access_loss (sv_next plan) =
    default (st_deprovision_on_access_loss stored) (us_deprovision_on_access_loss patch);
  pn_unchanged : sv_changed plan = [] -> sv_next plan = stored;
  pn_kept : us_providers patch = None -> st_providers (sv_next plan) = st_providers stored;
  pn_removed : forall id, id ∈ sv_removed plan <->
    (id ∈ map sp_id (st_providers stored) /\ ~ id ∈ map sp_id (st_providers (sv_next plan)));
  pn_writes : forall id s, (id, Some s) ∈ sv_secretWrites plan -> requested patch id (Some s);
  pn_reissued : is_Some (us_providers patch) -> forall b p, p ∈ st_providers (sv_next plan) ->
    map_of (by_id (st_providers stored)) (sp_id p) = Some b -> sp_issuer b <> sp_issuer p -> sp_id p ∈ sv_reissued plan;
  pn_moved : is_Some (us_providers patch) -> forall b p, p ∈ st_providers (sv_next plan) ->
    map_of (by_id (st_providers stored)) (sp_id p) = Some b -> moved b p ->
    sp_id p ∈ sv_rebound plan \/ exists s, (sp_id p, s) ∈ sv_secretWrites plan;
}.

Lemma gathered_none `{SsoDeps} config stored : gathered config stored [] no_providers.
Proof. split; simpl; [done|apply NoDup_nil_2|..]; repeat intro; match goal with Hin : _ ∈ [] |- _ => by apply elem_of_nil in Hin end. Qed.

Lemma if_not_listed (b : bool) (x : string) : (if b then [] else [x]) = [] -> b = true.
Proof. by destruct b. Qed.

(** No field is reported changed, and none is. *)
Lemma unchanged stored policy domains access providers :
  ((if bool_decide (policy = st_policy stored) then [] else ["policy"%string])
   ++ (if bool_decide (domains = st_allowed_email_domains stored) then [] else ["allowed_email_domains"%string])
   ++ (if bool_decide (access = st_deprovision_on_access_loss stored) then [] else ["deprovision_on_access_loss"%string]))
  ++ (if bool_decide (providers = st_providers stored) then [] else ["providers"%string]) = [] ->
  {| st_policy := policy; st_allowed_email_domains := domains; st_deprovision_on_access_loss := access;
     st_providers := providers |} = stored.
Proof.
  intros Hn. apply app_eq_nil in Hn as [Hn Hp]. apply app_eq_nil in Hn as [Ha Hn]. apply app_eq_nil in Hn as [Hb Hc].
  apply if_not_listed in Ha, Hb, Hc, Hp. bool_to_prop. destruct stored. simpl in *. by subst.
Qed.

Lemma plan_settings_ok `{SsoDeps} config actorId stored patch w plan w' :
  plan_settings config actorId stored patch w = (Ok plan, w') -> planned patch stored plan.
Proof.
  unfold plan_settings, plan_scalars. intros H0. tx_bind H0 scalars w1 H1. tx_bind H1 domains w2 H2. apply mret_ok in H1 as [-> _].
  tx_bind H0 out w3 H3. tx_bind H0 u w4 H4. apply mret_ok in H0 as [-> _]. simpl in H3.
  destruct (us_providers patch) as [providers|] eqn:Hpatch.
  - tx_ensure H3 as Hmax. tx_bind H3 loop w5 H5. apply mret_ok in H3 as [-> _].
    apply (plan_providers_ok config stored providers []) in H5; [|apply gathered_none].
    destruct H5. split; simpl; rewrite ?Hpatch; try done; [apply unchanged| | |].
    + intros id. rewrite list_elem_of_In, filter_In, <- list_elem_of_In, js_set_spec, negb_true_iff, bool_decide_eq_false, ga_seen0.
      pose proof (not_elem_of_nil id). tauto.
    + intros id s [Hin|Hin]%elem_of_app.
      * apply ga_secrets0 in Hin as (p & Hp & <-). by exists providers, p.
      * by apply list_elem_of_fmap in Hin as (x & [=] & _).
    + intros _ b p Hp Hb Hm. destruct (ga_moved0 b p Hp Hb Hm) as [|(s & Hs)]; [by left|right]. exists s. apply elem_of_app. by left.
  - apply mret_ok in H3 as [-> _]. split; simpl; rewrite ?Hpatch; try done.
    + intros Hn. apply unchanged.
      rewrite (bool_decide_eq_true_2 (st_providers stored = st_providers stored)) by done. by rewrite app_nil_r.
    + intros id. rewrite elem_of_nil. tauto.
    + by intros id s Hin%elem_of_nil.
Qed.

(** What a save commits: [next] over [stored], from [d] to [d']. *)
Record saved_as `{SsoDeps} (config : NexusConfig) (patch : UpdateSsoSettingsRequest) (stored next : StoredSsoSettings) (d d' : db)
    : Prop := {
  sa_read : stored_sso (d_settings d) = stored;
  sa_row : exists r, settings_get SSO_SETTINGS_KEY (d_settings d') = Some r /\ s_encrypted r = false
             /\ setting_value r = settings_json next;
  sa_users : d_users d' = d_users d;
  sa_links : forall i l, ac_links (d_accounts d') !! i = Some l <->
    (ac_links (d_accounts d) !! i = Some l
     /\ ~ (ui_provider_id l ∈ map sp_id (st_providers stored) /\ ~ ui_provider_id l ∈ map sp_id (st_providers next)
            /\ ~ ui_provider_id l ∈ env_ids (sso config)));
  sa_sessions : forall i s, ac_sessions (d_accounts d') !! i = Some s -> ac_sessions (d_accounts d) !! i = Some s;
  sa_cut_off : forall p source, (p, source) ∈ providersInForce (sso config) stored -> sp_enabled p = true ->
    (forall q source', (q, source') ∈ providersInForce (sso config) next -> sp_id q = sp_id p -> sp_enabled q = false) ->
    forall i l, ac_links (d_accounts d) !! i = Some l -> ui_provider_id l = sp_id p ->
    forall k s, ac_sessions (d_accounts d') !! k = Some s -> ss_user_id s <> ui_user_id l;
  sa_issuer : is_Some (us_providers patch) -> forall b p, p ∈ st_providers next ->
    map_of (by_id (st_providers stored)) (sp_id p) = Some b -> sp_issuer b <> sp_issuer p ->
    forall i l, ac_links (d_accounts d) !! i = Some l -> ui_provider_id l <> sp_id p;
  sa_secret : is_Some (us_providers patch) -> forall b p, p ∈ st_providers next ->
    map_of (by_id (st_providers stored)) (sp_id p) = Some b -> moved b p ->
    forall r, settings_get (ssoClientSecretKey (sp_id p)) (d_settings d') = Some r ->
    exists secret iv, requested patch (sp_id p) (Some secret)
      /\ s_value r = json_stringify (JStr (encryptJson nexusCrypto (ssoClientSecretKey (sp_id p)) (JStr secret) iv));
}.

Lemma map_of_all {V} (entries : list (string * V)) key v :
  (forall x, (key, x) ∈ entries -> x = v) -> (exists x, (key, x) ∈ entries) -> map_of entries key = Some v.
Proof.
  intros Hall (x & Hx). unfold map_of. destruct (List.find _ (rev entries)) as [[k y]|] eqn:Hf.
  - apply List.find_some in Hf as [Hin Hk]. bool_to_prop. simpl in Hk. subst k. simpl. f_equal. apply Hall.
    by apply list_elem_of_In, in_rev in Hin || apply list_elem_of_In, in_rev.
  - apply find_none with (x := (key, x)) in Hf; [by bool_to_prop|]. by apply in_rev in Hx || (apply -> in_rev; by apply list_elem_of_In).
Qed.

Lemma providersInForce_spec config stored p source :
  (p, source) ∈ providersInForce config stored <->
  (source = FromEnvironment /\ p ∈ map ev_settings (sc_providers config))
  \/ (source = FromSettings /\ p ∈ st_providers stored /\ ~ sp_id p ∈ env_ids config).
Proof.
  unfold providersInForce. rewrite elem_of_app, !list_elem_of_fmap. split.
  - intros [(x & [= -> ->] & Hx)|(x & [= -> ->] & Hx)]; [left|right]; (split; [done|]).
    + by exists x.
    + apply list_elem_of_In, filter_In in Hx as [Hx Hn]. rewrite <- list_elem_of_In in Hx.
      by apply negb_true_iff, bool_decide_eq_false in Hn.
  - intros [[-> Hp]|(-> & Hp & Hn)]; [left|right].
    + destruct Hp as (x & -> & Hx). by exists x.
    + exists p. split; [done|]. apply list_elem_of_In, filter_In. rewrite <- list_elem_of_In, negb_true_iff, bool_decide_eq_false. done.
Qed.

Lemma cut_off_spec config stored plan p source :
  (forall id, id ∈ sv_removed plan <->
     (id ∈ map sp_id (st_providers stored) /\ ~ id ∈ map sp_id (st_providers (sv_next plan)))) ->
  (p, source) ∈ providersInForce (sso config) stored -> sp_enabled p = true ->
  (forall q source', (q, source') ∈ providersInForce (sso config) (sv_next plan) -> sp_id q = sp_id p -> sp_enabled q = false) ->
  sp_id p ∈ cut_off config stored plan.
Proof.
  intros Hremoved Hp Hen Hnext. unfold cut_off. apply js_set_spec. split; [|apply not_elem_of_nil]. apply elem_of_app.
  apply providersInForce_spec in Hp as Hc. destruct Hc as [[-> Henv]|(-> & Hstored & Hfree)]; [|].
  { rewrite (Hnext p FromEnvironment) in Hen; [done| |done]. apply providersInForce_spec. by left. }
  destruct (decide (sp_id p ∈ map sp_id (st_providers (sv_next plan)))) as [Hin|Hout].
  - right. apply list_elem_of_fmap. exists (p, FromSettings). split; [done|]. apply list_elem_of_In, filter_In. rewrite <- list_elem_of_In.
    split; [done|]. simpl. rewrite Hen. simpl. apply bool_decide_eq_true, map_of_all.
    + intros x Hx. apply list_elem_of_fmap in Hx as ([q source'] & [= Hid ->] & Hq). simpl. by eapply Hnext.
    + apply list_elem_of_fmap in Hin as (q & Hid & Hq). exists (sp_enabled q). apply list_elem_of_fmap. exists (q, FromSettings).
      simpl. split; [by rewrite Hid|]. apply providersInForce_spec. right. rewrite <- Hid. by split_and!.
  - left. apply list_elem_of_In, filter_In. rewrite <- list_elem_of_In, Hremoved, negb_true_iff, bool_decide_eq_false.
    split_and!; [|done|done]. apply list_elem_of_fmap. by exists p.
Qed.

(** What the transaction did is what the request asked for. *)
Lemma saved_as_of `{SsoDeps} config patch stored plan writes encrypted d d' :
  planned patch stored plan -> writes = sv_secretWrites plan -> map fst encrypted = map fst writes ->
  (forall id blob, (id, Some blob) ∈ encrypted ->
     exists s iv, (id, Some s) ∈ writes /\ blob = encryptJson nexusCrypto (ssoClientSecretKey id) (JStr s) iv) ->
  saved config stored plan encrypted d d' -> saved_as config patch stored (sv_next plan) d d'.
Proof.
  intros [] -> Hids Hblobs [].
  assert (Hunlinked : forall id, id ∈ unlinked config plan <-> id ∈ map sp_id (st_providers stored)
             /\ ~ id ∈ map sp_id (st_providers (sv_next plan)) /\ ~ id ∈ env_ids (sso config)).
  { intros id. unfold unlinked. rewrite list_elem_of_In, filter_In, <- list_elem_of_In, pn_removed0, negb_true_iff, bool_decide_eq_false.
    tauto. }
  split; [done| |done| | | | |].
  - destruct sd_row0 as (r & Hr & Hv & He). exists r. split_and!; [done..|]. unfold setting_value. rewrite Hv.
    by rewrite JSON_parse_stringify by apply settings_json_wf.
  - intros i l. by rewrite (sd_links0 i l), Hunlinked.
  - intros i s Hs. by apply sd_sessions0 in Hs as [Hs _].
  - intros p source Hp Hen Hnext i l Hl Hlp k s Hs Hu. apply sd_sessions0 in Hs as [_ Hn]. apply Hn. exists i, l.
    split_and!; [done| |done]. rewrite Hlp. exact (cut_off_spec config stored plan p source pn_removed0 Hp Hen Hnext).
  - intros Hpatch b p Hp Hb Hi i l Hl. exact (sd_reissued0 _ (pn_reissued0 Hpatch b p Hp Hb Hi) i l Hl).
  - intros Hpatch b p Hp Hb Hm r Hr. apply sd_secrets0 in Hr as [(blob & Hblob & Hv & _)|[Hout Hr]].
    + apply Hblobs in Hblob as (s & iv & Hs & ->). exists s, iv. split; [by apply pn_writes0|done].
    + exfalso. destruct (pn_moved0 Hpatch b p Hp Hb Hm) as [Hre|(s & Hs)]; [by rewrite (sd_rebound0 _ Hre) in Hr|].
      apply Hout. rewrite Hids. apply list_elem_of_fmap. by exists (sp_id p, s).
Qed.

(** From the section of a save to the transaction in it. *)
#[local] Instance no_invariant : AccountInvariant (fun _ _ => True).
Proof. by split. Qed.

Lemma save_settings_did `{SsoDeps} config env actor patch stored plan ip w u w' :
  w_env w = env -> w_tx w = false -> planned patch stored plan ->
  save_settings config actor stored plan ip w = (Ok u, w') ->
  exists d d', only_rivals env (w_db w) d /\ only_rivals env d' (w_db w') /\ saved_as config patch stored (sv_next plan) d d'
    /\ w_env w' = env /\ w_tx w' = false.
Proof.
  intros He Ht Hplan G. assert (Hany : account_rivals env (fun _ _ => True)) by (by intros n d).
  assert (Hkeep : keeps w w') by (eapply frame_inv, G; eapply (stays_frame env (fun _ _ => True)); by apply save_settings_stays).
  destruct Hkeep as (He' & Ht' & _).
  unfold save_settings, underProviderLocks in G. tx_bind G encrypted w1 G1. apply encrypt_secrets_ok in G1 as Henc.
  destruct Henc as [Hids Hblobs].
  apply (idle_run env) in G1 as (Ho1 & He1 & Ht1); [|intros P HP; by apply encrypt_secrets_stays|done..].
  assert (Hf : frame (save_commit config actor stored plan encrypted ip))
    by (eapply (stays_frame env (fun _ _ => True)), save_commit_stays; done).
  apply (locks_idle env) in G; [|by apply under_keys_frame, frame_locks, frame_transaction|done..].
  eapply idle_within_trans in G; [|intros v1 v2 Hv Hev Htv; eapply under_keys_idle, Hv; [by apply frame_locks, frame_transaction|done..]].
  eapply idle_within_trans in G; [|intros v1 v2 Hv Hev Htv; eapply locks_idle, Hv; [by apply frame_transaction|done..]].
  destruct G as (v1 & v2 & Hv & Hev & Htv & Ho2 & Ho3).
  apply (transaction_idle env) in Hv as (x1 & x2 & Hx & Htx & Hox & Hdx); [|done..].
  exists (w_db x1), (w_db x2). split_and!; [etrans; [exact Ho1|]; by etrans|by rewrite Hdx| |congruence..].
  apply save_commit_tx in Hx; [|done]. by eapply saved_as_of.
Qed.


(** The provider is stored, a member signs in through it, and the provider is removed:
    its link and the member's session go with it. *)
Definition corp_request (providers : list (SsoProviderSettings * option (option string))) : UpdateSsoSettingsRequest := {|
  us_policy := None; us_allowed_email_domains := None; us_deprovision_on_access_loss := None; us_providers := Some providers |}.

Definition corp_stored : world :=
  (updateAdminSettings sample_config "root" (Some super_admin) (corp_request [(corp, Some (Some "hush"%string))]) None sample_empty).2.
Definition corp_joined : world :=
  (callback sample_config "corp" (corp_query "state-1" []) (Some corp_cookie) None sample_context corp_stored).2.
Definition corp_removed : res exn SsoAdminSettings * world :=
  updateAdminSettings sample_config "root" (Some super_admin) (corp_request []) None corp_joined.

