(* ===== verification/CredentialStore.v ===== *)
(** * Calls on the credential tables

    The repository calls of [server/src/credentials/service.ts] as statements of
    the world, and what the service is handed: the gateway's calls on a
    consumer's credentials, the digest of [node:crypto], and the notices. *)

From S2P Require Import Prelude Json Roles Users AuditLog AccessTables CredentialTables World AccessStore Provisioner.
Open Scope Z_scope.

(** [edge.consumers] and the rest of [CredentialsServiceDeps]. *)
Class CredentialDeps : Type := {
  edge_addCredential : string -> CredentialType -> json -> string -> M unit;
  edge_deleteCredentialAt : string -> CredentialType -> nat -> string -> M unit;
  edge_deleteCredentialType : string -> CredentialType -> string -> M unit;
  edge_delete : string -> string -> M unit;
  edge_derivedId : string -> string;
  edge_getByUsername : string -> M (option EdgeConsumer);
  maxCredentialsPerType : nat;
  sha256Hex : string -> string;
  credentials_url : string;
  credential_notify : string -> string -> string -> string -> string -> M unit;
  credential_mail : UserRecord -> string -> list (string * string) -> M unit;
}.

Definition put_credentials (t : credential_table) (d : db) : db := with_credentials t d.

Definition credential_find (id : string) : M (option CredentialRecord) :=
  read (fun d => credentials_findById id (d_credentials d)).
Definition credential_findByFingerprint (fingerprint : string) : M (option CredentialRecord) :=
  read (fun d => credentials_findByFingerprint fingerprint (d_credentials d)).
Definition credential_listByConsumer (consumerId : string) (type : option CredentialType)
    (statuses : option (list CredentialStatus)) : M (list CredentialRecord) :=
  read (fun d => credentials_listByConsumer consumerId type statuses (d_credentials d)).
Definition credential_list (filter : CredentialFilter) (limit offset : option jsnum) : M (list CredentialRecord * Z) :=
  read (fun d => credentials_list filter limit offset (d_credentials d)).

(** [INSERT], with the new id and stamps; the ordinal is the store's. *)
Definition credential_create (input : string -> Z -> CredentialRecord) : M CredentialRecord :=
  statement (fun t d =>
    match credentials_create (refs_of d) None (input (t_ids t 0) (t_now t)) (d_credentials d) with
    | Ok (r, rows) => Ok (r, put_credentials rows d)
    | Throw e => Throw e
    end).

(** A patch of the status alone, the only one the service writes. *)
Definition credential_status_patch (s : CredentialStatus) : CredentialPatch :=
  {| cp_label := None; cp_status := Some s; cp_ferrum_credential_id := None; cp_rotated_from_id := None |}.

Definition credential_update (id : string) (s : CredentialStatus) : M (option CredentialRecord) :=
  statement (fun t d =>
    match credentials_update id (credential_status_patch s) (t_now t) (d_credentials d) with
    | Ok (r, rows) => Ok (r, put_credentials rows d)
    | Throw e => Throw e
    end).
Definition credential_updateIfStatus (id : string) (expected s : CredentialStatus) : M (option CredentialRecord) :=
  statement (fun t d =>
    match credentials_updateIfStatus id expected (credential_status_patch s) (t_now t) (d_credentials d) with
    | Ok (r, rows) => Ok (r, put_credentials rows d)
    | Throw e => Throw e
    end).
Definition credential_delete (id : string) : M bool :=
  statement_ok (fun _ d => let '(rows, ok) := credentials_delete id (d_credentials d) in (ok, put_credentials rows d)).

(** [credentials.findById] and the other calls of the identities. *)
Definition identity_findByUsername (namespace_ username : string) : M (option GatewayIdentityRecord) :=
  read (fun d => identities_findByUsername namespace_ username (d_identities d)).
Definition identity_listByUser (userId namespace_ : string) : M (list GatewayIdentityRecord) :=
  read (fun d => identities_listByUser userId namespace_ (d_identities d)).
Definition identity_claim (userId namespace_ username : string) (consumerId : option string) : M GatewayIdentityRecord :=
  statement (fun t d =>
    match identities_claim (refs_of d) userId namespace_ username consumerId (t_ids t 0) (t_now t) (d_identities d) with
    | Ok (r, rows) => Ok (r, with_identities rows d)
    | Throw e => Throw e
    end).
Definition identity_bindConsumer (id : string) (consumerId : option string) : M (option GatewayIdentityRecord) :=
  statement_ok (fun t d => let '(rows, r) := identities_bindConsumer id consumerId (t_now t) (d_identities d) in
                           (r, with_identities rows d)).
Definition identity_delete (id : string) : M bool :=
  statement_ok (fun _ d => let '(rows, ok) := identities_delete id (d_identities d) in (ok, with_identities rows d)).

(** [consumers.findByFerrumId], [listConsumers] and [consumers.delete]. *)
Definition consumer_findByFerrumId (ferrumConsumerId : string) : M (option ConsumerRecord) :=
  read (fun d => head (rows_where (fun c => bool_decide (cs_ferrum_consumer_id c = ferrumConsumerId))
                         (at_consumers (d_access d)))).
(** [listConsumers]: one page of an account's consumers, newest first. *)
Definition consumer_list (userId namespace_ : string) (limit offset : option jsnum) : M (list ConsumerRecord * Z) :=
  read (fun d => paged limit offset (sort_by (newest_first cs_created_at cs_id)
    (rows_where (fun c => bool_decide (cs_user_id c = userId) && bool_decide (cs_namespace c = namespace_)) (at_consumers (d_access d))))).
Definition consumer_delete (id : string) : M bool :=
  statement_ok (fun _ d => let rows := at_consumers (d_access d) in
    (bool_decide (is_Some (rows !! id)), with_access (with_consumers (delete id rows) (d_access d)) d)).
