(* ===== verification/Credentials.v ===== *)
(** * Gateway credentials: positions

    [server/src/credentials/service.ts] up to the revocation of one credential.
    The gateway keeps a consumer's credentials of a type in an array, addressed by
    index, and shows no identity of an entry; the rows say which entry is whose by
    the order they were appended in. This file has the resolution of an index, the
    repair of a lost acknowledgement, and [revokeCredentialRow]. *)

From S2P Require Import Prelude Json Roles Users AuditLog AccessTables CredentialTables World AccessStore LeaseFence KeyedSerializer Provisioner CredentialStore.
Open Scope Z_scope.

Definition CREDENTIAL_TYPES : list CredentialType := [keyauth; basicauth; jwt].
Definition LIVE_CREDENTIAL_STATUSES : list CredentialStatus := [CredentialActive; CredentialRetiring].
Definition is_live (r : CredentialRecord) : bool := bool_decide (cr_status r ∈ LIVE_CREDENTIAL_STATUSES).
Definition REDACTED_MATERIAL : string := "[REDACTED]".

Definition type_name (type : CredentialType) : string :=
  match type with keyauth => "keyauth" | basicauth => "basicauth" | jwt => "jwt" end.

Definition RECONCILE_MESSAGE : string :=
  "The gateway credential list does not match the portal. An administrator must reconcile this consumer — revoke the portal’s remaining credentials for it and issue new ones, or delete the entries added to the gateway by hand — before it can be rotated or revoked".
Definition AMBIGUOUS_MESSAGE : string :=
  "The gateway position of this credential cannot be determined: it predates the portal’s position tracking and shares that state with another live credential of the same type. An administrator must reconcile this consumer — clearing the credential type on the gateway and revoking its portal rows — after which new credentials can be issued".
Definition UNCONFIRMED_RETIRING_ONLY_MESSAGE : string :=
  "An earlier HTTP Basic credential change on this consumer was never confirmed by the gateway, which does not list HTTP Basic credentials, so no single one of them can be located safely. No active HTTP Basic credential remains: revoke the retiring credential, which clears every HTTP Basic credential of this consumer on the gateway, or have an administrator reconcile this consumer; then issue a new one".
Definition UNCONFIRMED_WITH_ACTIVE_MESSAGE : string :=
  "An earlier HTTP Basic credential change on this consumer was never confirmed by the gateway, which does not list HTTP Basic credentials, so no single one of them can be located safely. Revoke with clear_type=true, which removes every HTTP Basic credential of this consumer including the active ones, or have an administrator reconcile this consumer; then issue a new one".

(** [{ id: Uuid; role: Role }]. *)
Record Actor : Type := { act_id : string; act_role : Role }.
Definition audit_actor (a : Actor) : AuditActor := {| actor_id := Some (act_id a); actor_role := Some (act_role a) |}.
Definition acting (u : UserRecord) : Actor := {| act_id := u_id u; act_role := u_role u |}.
Definition on_credential (id : string) : AuditTarget := {| target_type := "credential"; target_id := Some id |}.
Definition on_consumer (id : string) : AuditTarget := {| target_type := "consumer"; target_id := Some id |}.
Definition json_nat (n : nat) : json := JNum (Z.of_nat n).
Definition named_type (type : CredentialType) : string * json := ("credential_type"%string, JStr (type_name type)).

(** ** Reads of the array *)

(** [credentials[type]] when it is an array. *)
Definition array_entries (credentials : json) (type : CredentialType) : option (list json) :=
  json_array (json_record (Some credentials) ≫= json_own (type_name type)).

Definition array_length (credentials : json) (type : CredentialType) : nat :=
  length (default [] (array_entries credentials type)).

(** [basicauth] is never shown: the rows are trusted. *)
Definition edgeArrayLength (credentials : json) (type : CredentialType) (fallback : nat) : nat :=
  if bool_decide (type = basicauth) then fallback else array_length credentials type.

Definition material_key (type : CredentialType) : string :=
  match type with keyauth => "key" | jwt => "secret" | basicauth => "password" end.

Definition credentialMaterial (entry : json) (type : CredentialType) : option string :=
  match json_string (json_record (Some entry) ≫= json_own (material_key type)) with
  | Some value => if bool_decide (value = REDACTED_MATERIAL) then None else Some value
  | None => None
  end.

(** ** Positions *)

Definition ordinal_order (a b : CredentialRecord) : bool :=
  leb_of (compare_null_first (cr_edge_ordinal a) (cr_edge_ordinal b)).

(** The rows that still occupy a slot, in array order; rows without an ordinal
    come first, in no order that means anything. *)
Definition liveRows (consumerId : string) (type : CredentialType) : M (list CredentialRecord) :=
  do rows <- credential_listByConsumer consumerId (Some type) (Some LIVE_CREDENTIAL_STATUSES);
  mret (sort_by ordinal_order (filter (fun r => is_live r = true) rows)).

(** ['whole-type'] and ['not-live']. *)
Inductive placement : Type := AtIndex (index : nat) | WholeType | NotLive.

#[export] Instance placement_eq_dec : EqDecision placement.
Proof. solve_decision. Defined.

Fixpoint findIndex {A} (p : A -> bool) (l : list A) : option nat :=
  match l with
  | [] => None
  | x :: rest => if p x then Some O else S <$> findIndex p rest
  end.

Definition has_id (id : string) (r : CredentialRecord) : bool := bool_decide (cr_id r = id).
Definition unplaced (r : CredentialRecord) : bool := bool_decide (cr_edge_ordinal r = None).

Definition resolveCredentialIndex (rows : list CredentialRecord) (target : CredentialRecord) (edgeLength : nat)
    : res exn placement :=
  match findIndex (has_id (cr_id target)) rows with
  | None => Ok NotLive
  | Some index =>
      if negb (length rows =? edgeLength)%nat then
        if (length rows =? 1)%nat then Ok WholeType
        else Throw (edgeError RECONCILE_MESSAGE [("expected", pretty (length rows)); ("actual", pretty edgeLength)]%string)
      else
        let unresolved := length (filter (fun r => unplaced r = true) rows) in
        if unplaced target && (1 <? unresolved)%nat then
          Throw (conflict AMBIGUOUS_MESSAGE
                   [("consumer_id", cr_ferrum_consumer_id target); ("credential_type", type_name (cr_credential_type target));
                    ("unresolved_credentials", pretty unresolved)]%string)
        else Ok (AtIndex index)
  end.

Definition assertPositionsConfirmed (rows : list CredentialRecord) (consumerId : string) (type : CredentialType)
    : res exn unit :=
  let unconfirmed := length (filter (fun r => has_credential_status CredentialRetiring r = true) rows) in
  let active := length (filter (fun r => has_credential_status CredentialActive r = true) rows) in
  if negb (bool_decide (type = basicauth)) || (unconfirmed =? 0)%nat then Ok tt
  else Throw (conflict (if (active =? 0)%nat then UNCONFIRMED_RETIRING_ONLY_MESSAGE else UNCONFIRMED_WITH_ACTIVE_MESSAGE)
                [("consumer_id", consumerId); ("credential_type", type_name type);
                 ("unconfirmed_credentials", pretty unconfirmed); ("active_credentials", pretty active)]%string).

Definition revokePosition (rows : list CredentialRecord) (target : CredentialRecord) (edgeLength : nat) (clearType : bool)
    : res exn placement :=
  if negb (bool_decide (cr_credential_type target = basicauth)) then resolveCredentialIndex rows target edgeLength
  else if negb (existsb (has_id (cr_id target)) rows) then Ok NotLive
  else if clearType then Ok WholeType
  else if forallb (fun r => has_id (cr_id target) r || negb (has_credential_status CredentialActive r)) rows then Ok WholeType
  else match assertPositionsConfirmed rows (cr_ferrum_consumer_id target) (cr_credential_type target) with
       | Throw e => Throw e
       | Ok _ => resolveCredentialIndex rows target edgeLength
       end.

(** [throw] what a check answers, or go on. *)
Definition checked {A} (r : res exn A) : M A := match r with Ok a => mret a | Throw e => mthrow e end.

Section Credentials.
Context `{EdgeClient} `{CredentialDeps}.

(** ** The repair of a lost acknowledgement *)

(** One row too many, one pending retirement: that row's entry is the one gone. *)
Definition lost_retirement (rows : list CredentialRecord) (edgeLength : nat) : option CredentialRecord :=
  if negb (length rows =? S edgeLength)%nat then None
  else match filter (fun r => has_credential_status CredentialRetiring r = true) rows with
       | [retired] => Some retired
       | _ => None
       end.

Definition settleLostRetirement (consumerId : string) (type : CredentialType) (rows : list CredentialRecord)
    (edgeLength : nat) (actor : Actor) (ip : option string) : M (list CredentialRecord) :=
  match lost_retirement rows edgeLength with
  | None => mret rows
  | Some retired =>
      do settled <- transaction (
        do fresh <- credential_find (cr_id retired);
        if negb (from_option (has_credential_status CredentialRetiring) false fresh) then mret false
        else
          do_ credential_update (cr_id retired) CredentialRevoked;
          do_ audit_record (audit_actor actor) "credential.settle" (on_credential (cr_id retired))
            [named_type type; ("consumer_id", JStr consumerId); ("last4", JStr (cr_last4 retired));
             ("owner_user_id", JStr (cr_user_id retired)); ("mirror_rows", json_nat (length rows));
             ("gateway_entries", json_nat edgeLength)]%string ip;
          mret true);
      mret (if settled : bool then filter (fun r => has_id (cr_id retired) r = false) rows else rows)
  end.

Definition deleteDidNotApply (consumerId : string) (type : CredentialType) (length_ : nat) : M bool :=
  if bool_decide (type = basicauth) then mret false
  else
    do live <- mattempt (edge_get consumerId true);
    mret (match live with
          | Ok (Some c) => (array_length (ec_credentials c) type =? length_)%nat
          | _ => false
          end).

(** The row back to [active], if it is still [retiring], and its audit row. *)
Definition withdraw_retirement_once (credential : CredentialRecord) (actor : Actor) (details : list (string * json))
    (ip : option string) (id : string) : M unit :=
  transaction (
    do moved <- credential_updateIfStatus (cr_id credential) CredentialRetiring CredentialActive;
    match moved with
    | None => mret tt
    | Some _ =>
        do_ audit_record_as id (audit_actor actor) "credential.revoke_rollback" (on_credential (cr_id credential)) details ip;
        mret tt
    end).

(** One attempt under a fresh row id: [true] when there is nothing left to do. *)
Definition withdraw_attempt (credential : CredentialRecord) (actor : Actor) (details : list (string * json))
    (ip : option string) : M bool :=
  do rowId <- randomUUID;
  do r <- mattempt (withdraw_retirement_once credential actor details ip rowId);
  match r with
  | Ok _ => mret true
  | Throw error => if isLeaseLost error then mret true else auditRowCommitted (on_credential (cr_id credential)) rowId
  end.

Definition withdrawRetirement (credential : CredentialRecord) (operation : string) (actor : Actor) (cause : exn)
    (ip : option string) : M unit :=
  let details :=
    ([named_type (cr_credential_type credential); ("consumer_id", JStr (cr_ferrum_consumer_id credential));
      ("last4", JStr (cr_last4 credential)); ("operation", JStr operation); ("cause", JStr (ex_message cause))]%string
     ++ if bool_decide (cr_user_id credential = act_id actor) then []
        else [("owner_user_id"%string, JStr (cr_user_id credential))]) in
  do settled <- withdraw_attempt credential actor details ip;
  if settled : bool then mret tt
  else
    do settled <- withdraw_attempt credential actor details ip;
    if settled : bool then mret tt
    else
      do moved <- mcatch (transaction (
                    do row <- credential_updateIfStatus (cr_id credential) CredentialRetiring CredentialActive;
                    mret (bool_decide (is_Some row)))) (fun _ => mret false);
      if negb moved then mret tt
      else ignore_errors (audit_record (audit_actor actor) "credential.revoke_rollback"
                            (on_credential (cr_id credential)) details ip).

(** ** One revocation *)

Definition removeAt (consumerId : string) (type : CredentialType) (position : placement) (subject : string) : M unit :=
  match position with
  | AtIndex i => edge_deleteCredentialAt consumerId type i subject
  | WholeType | NotLive => edge_deleteCredentialType consumerId type subject
  end.

Record revoke_options : Type := { clearType : bool; recovery : bool; recoveryCutoff : option Z }.

Definition not_ours_to_clear : exn :=
  forbidden "This consumer holds HTTP Basic credentials that belong to another account; an administrator must clear them".

(** Where the revocation deletes, and whether that is the recovery's fallback. *)
Definition place_revocation (rows : list CredentialRecord) (current : CredentialRecord) (edgeLength : nat)
    (options : revoke_options) : res exn (placement * bool) :=
  match revokePosition rows current edgeLength (clearType options) with
  | Ok position => Ok (position, false)
  | Throw error =>
      let notOursToEmpty r :=
        negb (bool_decide (cr_user_id r = cr_user_id current))
        || match recoveryCutoff options with Some cutoff => bool_decide (cutoff <= cr_created_at r) | None => false end in
      if negb (recovery options) || existsb notOursToEmpty rows then Throw error else Ok (WholeType, true)
  end.

(** What the removal from the gateway left to settle. *)
Record removal : Type := { rm_swept : list CredentialRecord; rm_whole_type : bool; rm_fallback : bool }.

(** The retirement is recorded, then the entry removed. *)
Definition retire_and_remove (target current : CredentialRecord) (actor : Actor) (ip : option string)
    (details : list (string * json)) (length_ : nat) (position : placement) : M unit :=
  let type := cr_credential_type target in
  let consumerId := cr_ferrum_consumer_id target in
  do_ transaction (
    do_ credential_update (cr_id current) CredentialRetiring;
    audit_record (audit_actor actor) "credential.revoke_start" (on_credential (cr_id target))
      ([named_type type; ("consumer_id", JStr consumerId); ("last4", JStr (cr_last4 target))]%string ++ details) ip);
  mcatch (removeAt consumerId type position (act_id actor))
    (fun error =>
       do unapplied <- deleteDidNotApply consumerId type length_;
       do_ (if unapplied : bool then withdrawRetirement current "revoke" actor error ip else mret tt);
       mthrow error).

Definition remove_from_gateway (target current : CredentialRecord) (actor : Actor) (ip : option string)
    (details : list (string * json)) (options : revoke_options) (bypassOwnership : bool) (live : list CredentialRecord)
    (consumer : EdgeConsumer) : M removal :=
  let type := cr_credential_type target in
  let consumerId := cr_ferrum_consumer_id target in
  let length_ := edgeArrayLength (ec_credentials consumer) type (length live) in
  do rows <- settleLostRetirement consumerId type live length_ actor ip;
  do placed <- checked (place_revocation rows current length_ options);
  let '(position, placementFallback) := placed in
  let wholeType := bool_decide (position = WholeType) in
  let swept := if wholeType then filter (fun r => has_id (cr_id current) r = false) rows else [] in
  do_ ensure (negb (wholeType && negb (clearType options) && negb bypassOwnership
                    && existsb (fun r => negb (bool_decide (cr_user_id r = act_id actor))) swept)) not_ours_to_clear;
  do_ (if bool_decide (position = NotLive) then mret tt
       else retire_and_remove target current actor ip details length_ position);
  mret {| rm_swept := swept; rm_whole_type := wholeType; rm_fallback := placementFallback |}.

(** The swept rows that still had the status they were seen in. *)
Fixpoint settle_swept (swept : list CredentialRecord) : M (list CredentialRecord) :=
  match swept with
  | [] => mret []
  | row :: rest =>
      do settled <- credential_updateIfStatus (cr_id row) (cr_status row) CredentialRevoked;
      do others <- settle_swept rest;
      mret (if settled : option CredentialRecord then row :: others else others)
  end.

Fixpoint record_swept (target : CredentialRecord) (actor : Actor) (ip : option string) (rows : list CredentialRecord)
    : M unit :=
  match rows with
  | [] => mret tt
  | row :: rest =>
      do_ audit_record (audit_actor actor) "credential.revoke" (on_credential (cr_id row))
        [named_type (cr_credential_type target); ("consumer_id", JStr (cr_ferrum_consumer_id target));
         ("last4", JStr (cr_last4 row)); ("swept_by", JStr (cr_id target)); ("owner_user_id", JStr (cr_user_id row));
         ("scope", JStr "whole-type")]%string ip;
      record_swept target actor ip rest
  end.

Definition settle_revocation (target current : CredentialRecord) (actor : Actor) (ip : option string)
    (details : list (string * json)) (removed : removal) : M unit :=
  transaction (
    do_ credential_update (cr_id current) CredentialRevoked;
    do settled <- settle_swept (rm_swept removed);
    do_ audit_record (audit_actor actor) "credential.revoke" (on_credential (cr_id target))
      ([named_type (cr_credential_type target); ("consumer_id", JStr (cr_ferrum_consumer_id target));
        ("last4", JStr (cr_last4 target))]%string
       ++ (if rm_whole_type removed then [("scope"%string, JStr "whole-type")] else [])
       ++ (if rm_fallback removed then [("placement"%string, JStr "whole-type-fallback")] else [])
       ++ (if bool_decide (settled = []) then []
           else [("swept_credential_ids"%string, json_strs (map cr_id settled))])
       ++ details) ip;
    record_swept target actor ip settled).

Definition revokeCredentialRow (target : CredentialRecord) (actor : Actor) (ip : option string)
    (details : list (string * json)) (options : revoke_options) : M bool :=
  let type := cr_credential_type target in
  let consumerId := cr_ferrum_consumer_id target in
  let bypassOwnership := recovery options || roleAtLeast (role_name (act_role actor)) (role_name admin) in
  locks consumerId
    (do found_ <- credential_find (cr_id target);
     match found_ with
     | None => mret false
     | Some current =>
         if negb (is_live current) then mret false
         else
           do consumer <- edge_get consumerId true;
           do live <- liveRows consumerId type;
           do_ ensure (negb (clearType options && negb bypassOwnership
                             && existsb (fun r => negb (bool_decide (cr_user_id r = act_id actor))) live)) not_ours_to_clear;
           do removed <- match consumer with
                         | None => mret {| rm_swept := []; rm_whole_type := false; rm_fallback := false |}
                         | Some c => remove_from_gateway target current actor ip details options bypassOwnership live c
                         end;
           do_ settle_revocation target current actor ip details removed;
           mret true
     end).

Definition loadForRevoke (user : UserRecord) (credentialId : string) : M CredentialRecord :=
  do row <- credential_find credentialId;
  do credential <- found row (notFound "Credential" (Some credentialId));
  do_ ensure (bool_decide (cr_user_id credential = u_id user) || roleAtLeast (role_name (u_role user)) (role_name admin))
    (forbidden "This credential belongs to another account");
  mret credential.

Definition revoke_credential (user : UserRecord) (credentialId : string) (ip : option string) (clear : bool) : M unit :=
  do target <- loadForRevoke user credentialId;
  do_ ensure (negb (clear && negb (bool_decide (cr_credential_type target = basicauth))))
    (validationFailed "clear_type applies only to HTTP Basic (basicauth) credentials"
       [("credential_type", type_name (cr_credential_type target))]%string);
  if has_credential_status CredentialRevoked target then mret tt
  else
    do_ revokeCredentialRow target (acting user) ip []
      {| clearType := clear; recovery := false; recoveryCutoff := None |};
    mret tt.

Definition revokeInvalidated (actor : Actor) (credentialId : string) (details : list (string * json)) (ip : option string)
    : M bool :=
  do target <- credential_find credentialId;
  match target with
  | None => mret false
  | Some t =>
      if has_credential_status CredentialRevoked t then mret false
      else revokeCredentialRow t actor ip details {| clearType := false; recovery := false; recoveryCutoff := None |}
  end.
End Credentials.
