(* ===== verification/CredentialIssue.v ===== *)
(** * Gateway credentials: issue and rotation

    [server/src/credentials/service.ts]: the append of an entry and its row, what
    is done when one of the two fails, [issueForConsumer], [issue] and [rotate]. *)

From Stdlib Require Import Ascii.
From S2P Require Import Prelude Json Roles Users JobQueues AuditLog AccessTables CredentialTables World AccessStore LeaseFence KeyedSerializer Provisioner AccountRecovery CredentialStore Credentials.
Open Scope Z_scope.

(** ** Material *)

Inductive ShowOnceSecret : Type :=
| SecretKey (key : string)
| SecretPassword (username password : string)
| SecretJwt (jwt_secret jwt_key : string).

Record GeneratedCredential : Type := {
  gc_material : string;
  gc_entry : json;
  gc_secret : ShowOnceSecret;
}.

(** [randomBytes(32)] in base64url, as the schedule draws it. *)
Definition randomToken : M string := randomNonce.

Definition generateCredential (type : CredentialType) (consumerUsername : string) : M GeneratedCredential :=
  do token <- randomToken;
  mret match type with
       | keyauth =>
           let key := ("nxs_" +:+ token)%string in
           {| gc_material := key; gc_entry := JObj [("key"%string, JStr key)]; gc_secret := SecretKey key |}
       | basicauth =>
           {| gc_material := token; gc_entry := JObj [("password"%string, JStr token)];
              gc_secret := SecretPassword consumerUsername token |}
       | jwt =>
           {| gc_material := token; gc_entry := JObj [("secret"%string, JStr token)];
              gc_secret := SecretJwt token consumerUsername |}
       end.

(** [secret.slice(-4)]. *)
Definition last4 (secret : string) : string :=
  if (String.length secret <=? 4)%nat then secret else slice_from (String.length secret - 4) secret.

(** [details.status] when it is a number. *)
Fixpoint decimal (s : string) (acc : Z) : option Z :=
  match s with
  | EmptyString => Some acc
  | String c rest =>
      let n := nat_of_ascii c in
      if ((48 <=? n) && (n <=? 57))%nat then decimal rest (10 * acc + Z.of_nat (n - 48)) else None
  end.

Definition error_status (e : exn) : option Z :=
  if negb (isNexusError e) then None
  else match List.find (fun p => bool_decide (p.1 = "status"%string)) (ex_details e) with
       | Some (_, EmptyString) | None => None
       | Some (_, text) => decimal text 0
       end.

(** A definite 4xx: Edge refused the append. *)
Definition definitely_refused (e : exn) : bool :=
  match error_status e with
  | Some status => bool_decide (400 <= status) && bool_decide (status < 500) && negb (bool_decide (status = 408))
  | None => false
  end.

(** ** Taking an append back *)

Record AppendWithdrawal : Type := {
  withdrawn : bool;
  arrayAsAppended : bool;
  arrayLength : option nat;
}.

Record append_context : Type := {
  ac_consumerId : string;
  ac_type : CredentialType;
  ac_operation : string;
  ac_retiredCredentialId : option string;
  ac_last4 : string;
  ac_appendIndex : nat;
  ac_ownerId : string;
  ac_actor : Actor;
  ac_ip : option string;
}.

Section Issue.
Context `{EdgeClient} `{CredentialDeps}.

(** [crypto.fingerprint]. *)
Definition fingerprint (secret : string) : string := sha256Hex secret.

(** What a re-read after a delete that threw shows. *)
Definition reread_withdrawal (consumerId : string) (type : CredentialType) (appendIndex : nat) : M AppendWithdrawal :=
  do after <- mattempt (edge_get consumerId true);
  mret match after with
       | Ok None => {| withdrawn := true; arrayAsAppended := true; arrayLength := Some O |}
       | Throw _ => {| withdrawn := false; arrayAsAppended := false; arrayLength := None |}
       | Ok (Some c) =>
           let n := array_length (ec_credentials c) type in
           if (n =? appendIndex)%nat then {| withdrawn := true; arrayAsAppended := true; arrayLength := Some n |}
           else if (n =? S appendIndex)%nat then {| withdrawn := false; arrayAsAppended := true; arrayLength := Some n |}
           else {| withdrawn := false; arrayAsAppended := false; arrayLength := Some n |}
       end.

Definition withdrawAppendedEntry (consumerId : string) (type : CredentialType) (appendIndex : nat) (print actorId : string)
    : M AppendWithdrawal :=
  if bool_decide (type = basicauth)
  then mret {| withdrawn := false; arrayAsAppended := false; arrayLength := None |}
  else
    do live <- mattempt (edge_get consumerId true);
    match live with
    | Ok None => mret {| withdrawn := true; arrayAsAppended := false; arrayLength := Some O |}
    | Throw _ => mret {| withdrawn := false; arrayAsAppended := false; arrayLength := None |}
    | Ok (Some c) =>
        let entries := default [] (array_entries (ec_credentials c) type) in
        let moved := mret {| withdrawn := false; arrayAsAppended := false; arrayLength := Some (length entries) |} in
        match entries !! appendIndex with
        | None => moved
        | Some entry =>
            if negb (length entries =? S appendIndex)%nat then moved
            else if match credentialMaterial entry type with
                    | Some material => negb (bool_decide (fingerprint material = print))
                    | None => false
                    end then moved
            else
              mcatch (do_ edge_deleteCredentialAt consumerId type appendIndex actorId;
                      mret {| withdrawn := true; arrayAsAppended := true; arrayLength := Some (length entries) |})
                (fun _ => reread_withdrawal consumerId type appendIndex)
        end
    end.

Definition recordAppendRollback (c : append_context) (gone : bool) (stranded : option string) (suspected : bool) (cause : exn)
    : M unit :=
  ignore_errors (audit_record (audit_actor (ac_actor c)) "credential.append_rollback" (on_consumer (ac_consumerId c))
    ([named_type (ac_type c); ("consumer_id", JStr (ac_consumerId c)); ("operation", JStr (ac_operation c));
      ("withdrawn", JBool gone); ("last4", JStr (ac_last4 c)); ("append_index", json_nat (ac_appendIndex c));
      ("owner_user_id", JStr (ac_ownerId c))]%string
     ++ match stranded with
        | Some id => if gone then [] else [("stranded_credential_id"%string, JStr id)]
        | None => []
        end
     ++ match ac_retiredCredentialId c with Some id => [("retired_credential_id"%string, JStr id)] | None => [] end
     ++ (if suspected then [("suspected"%string, JBool true)] else [])
     ++ [("cause"%string, JStr (ex_message cause))]) (ac_ip c)).

Definition reclaimUnacknowledgedAppend (c : append_context) (print : string) (cause : exn) : M unit :=
  do w <- withdrawAppendedEntry (ac_consumerId c) (ac_type c) (ac_appendIndex c) print (act_id (ac_actor c));
  if negb (arrayAsAppended w) && bool_decide (arrayLength w = Some (ac_appendIndex c)) then mret tt
  else recordAppendRollback c (withdrawn w) None (negb (arrayAsAppended w)) cause.

(** ** The append *)

Record append_input : Type := {
  ai_ownerId : string;
  ai_applicationId : option string;
  ai_actor : Actor;
  ai_consumerId : string;
  ai_consumerUsername : string;
  ai_type : CredentialType;
  ai_label : option string;
  ai_rotatedFromId : option string;
  ai_appendIndex : nat;
  ai_operation : string;
  ai_retiredCredentialId : option string;
  ai_ip : option string;
  ai_recordWithRow : option (CredentialRecord -> M unit);
}.

Record issued : Type := { is_credential : CredentialRecord; is_secret : ShowOnceSecret }.

Definition append_row (x : append_input) (generated : GeneratedCredential) (status : CredentialStatus) (id : string) (now : Z)
    : CredentialRecord := {|
  cr_id := id; cr_user_id := ai_ownerId x; cr_application_id := ai_applicationId x;
  cr_ferrum_consumer_id := ai_consumerId x; cr_credential_type := ai_type x;
  cr_ferrum_credential_id := (ai_consumerId x +:+ "/credentials/" +:+ type_name (ai_type x))%string;
  cr_fingerprint := fingerprint (gc_material generated); cr_last4 := last4 (gc_material generated);
  cr_label := ai_label x; cr_status := status; cr_rotated_from_id := ai_rotatedFromId x; cr_edge_ordinal := None;
  cr_created_at := now; cr_updated_at := now;
|}.

Definition append_context_of (x : append_input) (generated : GeneratedCredential) : append_context := {|
  ac_consumerId := ai_consumerId x; ac_type := ai_type x; ac_operation := ai_operation x;
  ac_retiredCredentialId := ai_retiredCredentialId x; ac_last4 := last4 (gc_material generated);
  ac_appendIndex := ai_appendIndex x; ac_ownerId := ai_ownerId x; ac_actor := ai_actor x; ac_ip := ai_ip x;
|}.

(** [recordWithRow], when there is one. *)
Definition record_row (x : append_input) (row : CredentialRecord) : M unit :=
  match ai_recordWithRow x with Some record => record row | None => mret tt end.

(** The pending row of a [basicauth] append is back to [retiring] if something
    revoked it meanwhile. *)
Definition restore_uncertainty (pendingId : string) : M unit :=
  mcatch (do_ transaction (credential_updateIfStatus pendingId CredentialRevoked CredentialRetiring); mret tt)
    (fun _ => ignore_errors (credential_updateIfStatus pendingId CredentialRevoked CredentialRetiring)).

(** [basicauth]: the row first, as [retiring], activated by an acknowledged append. *)
Definition append_hidden (x : append_input) (generated : GeneratedCredential) : M issued :=
  do pending <- transaction (credential_create (append_row x generated CredentialRetiring));
  let recordStranded cause suspected :=
    recordAppendRollback (append_context_of x generated) false (Some (cr_id pending)) suspected cause in
  do_ mcatch (edge_addCredential (ai_consumerId x) (ai_type x) (gc_entry generated) (act_id (ai_actor x)))
    (fun error =>
       if definitely_refused error then do_ transaction (credential_delete (cr_id pending)); mthrow error
       else do_ recordStranded error true; mthrow error);
  do credential <- mcatch
    (transaction (
       do activated <- credential_updateIfStatus (cr_id pending) CredentialRetiring CredentialActive;
       do row <- found activated (conflict "The credential was revoked while it was being issued" []);
       do_ record_row x row;
       mret row))
    (fun error => do_ restore_uncertainty (cr_id pending); do_ recordStranded error false; mthrow error);
  mret {| is_credential := credential; is_secret := gc_secret generated |}.

(** The other types: the entry first, its row after. *)
Definition append_shown (x : append_input) (generated : GeneratedCredential) : M issued :=
  let print := fingerprint (gc_material generated) in
  let c := append_context_of x generated in
  do_ mcatch (edge_addCredential (ai_consumerId x) (ai_type x) (gc_entry generated) (act_id (ai_actor x)))
    (fun error => do_ reclaimUnacknowledgedAppend c print error; mthrow error);
  do credential <- mcatch
    (match ai_recordWithRow x with
     | Some record =>
         transaction (
           do created <- credential_create (append_row x generated CredentialActive);
           do_ record created;
           mret created)
     | None => credential_create (append_row x generated CredentialActive)
     end)
    (fun error =>
       do w <- withdrawAppendedEntry (ai_consumerId x) (ai_type x) (ai_appendIndex x) print (act_id (ai_actor x));
       do_ recordAppendRollback c (withdrawn w) None false error;
       mthrow error);
  mret {| is_credential := credential; is_secret := gc_secret generated |}.

Definition appendCredential (x : append_input) : M issued :=
  do generated <- generateCredential (ai_type x) (ai_consumerUsername x);
  if bool_decide (ai_type x = basicauth) then append_hidden x generated else append_shown x generated.

(** ** Issue *)

Record issue_input : Type := {
  ii_user : UserRecord;
  ii_applicationId : option string;
  ii_consumerId : string;
  ii_consumerUsername : string;
  ii_credentialType : CredentialType;
  ii_label : option string;
  ii_skipCap : bool;
  ii_ip : option string;
  ii_recordWithRow : option (CredentialRecord -> M unit);
  ii_recoveryGate : bool;
}.

Definition assertOwnerActive (userId : string) : M unit :=
  do owner <- users_find userId;
  do user <- found owner (notFound "User" (Some userId));
  ensure (bool_decide (u_status user = UserActive))
    (userDisabled "This account has been disabled; its gateway access cannot be extended").

Definition cap_reached (held : nat) (type : CredentialType) : exn :=
  conflict ("You already hold " +:+ pretty held +:+ " live " +:+ type_name type +:+ " credentials (the gateway allows "
            +:+ pretty maxCredentialsPerType +:+ "); revoke or rotate one first")%string
    [("credential_type", type_name type); ("limit", pretty maxCredentialsPerType)]%string.

(** The checks under the consumer's key, down to where the entry will go. *)
Definition admit_issue (input : issue_input) : M nat :=
  let type := ii_credentialType input in
  do_ assertOwnerActive (u_id (ii_user input));
  do_ match ii_applicationId input with
      | Some applicationId =>
          do application <- applications_find applicationId;
          application_usable (u_id (ii_user input)) applicationId application
      | None => mret tt
      end;
  do found_ <- edge_get (ii_consumerId input) false;
  do consumer <- found found_ (edgeError "The gateway consumer for this account no longer exists" []);
  do live <- liveRows (ii_consumerId input) type;
  let length_ := edgeArrayLength (ec_credentials consumer) type (length live) in
  do rows <- settleLostRetirement (ii_consumerId input) type live length_ (acting (ii_user input)) (ii_ip input);
  do_ checked (assertPositionsConfirmed rows (ii_consumerId input) type);
  do_ ensure (ii_skipCap input || (length rows <? maxCredentialsPerType)%nat) (cap_reached (length rows) type);
  do_ (if ii_recoveryGate input then assertNoPendingRecovery (u_id (ii_user input)) else mret tt);
  mret length_.

Definition issueForConsumer (input : issue_input) : M issued :=
  locks (ii_consumerId input)
    (do appendIndex <- admit_issue input;
     appendCredential {|
       ai_ownerId := u_id (ii_user input); ai_applicationId := ii_applicationId input; ai_actor := acting (ii_user input);
       ai_consumerId := ii_consumerId input; ai_consumerUsername := ii_consumerUsername input;
       ai_type := ii_credentialType input; ai_label := ii_label input; ai_rotatedFromId := None;
       ai_appendIndex := appendIndex; ai_operation := "issue"; ai_retiredCredentialId := None; ai_ip := ii_ip input;
       ai_recordWithRow := ii_recordWithRow input |}).

Definition json_application (id : option string) : json := json_opt_str id.

Definition issue (user : UserRecord) (type : CredentialType) (applicationId label ip : option string)
    : M (issued * string) :=
  do_ assertNoPendingRecovery (u_id user);
  do consumer <- ensureConsumer user applicationId;
  do made <- issueForConsumer {|
    ii_user := user; ii_applicationId := applicationId; ii_consumerId := cs_ferrum_consumer_id consumer;
    ii_consumerUsername := cs_ferrum_username consumer; ii_credentialType := type; ii_label := label;
    ii_skipCap := false; ii_ip := ip;
    ii_recordWithRow := Some (fun created =>
      do_ audit_record (audit_actor (acting user)) "credential.issue" (on_credential (cr_id created))
        [named_type (cr_credential_type created); ("consumer_id", JStr (cs_ferrum_consumer_id consumer));
         ("application_id", json_application applicationId); ("last4", JStr (cr_last4 created))]%string ip;
      mret tt);
    ii_recoveryGate := true |};
  mret (made, cs_ferrum_username consumer).

(** ** Rotation *)

Definition assertRotatedByOwner (user : UserRecord) (credential : CredentialRecord) : M unit :=
  ensure (bool_decide (cr_user_id credential = u_id user))
    (forbidden "Only the owner of this credential can rotate it; an administrator can revoke it instead").

Definition loadForRotate (user : UserRecord) (credentialId : string) : M CredentialRecord :=
  do row <- credential_find credentialId;
  do credential <- found row (notFound "Credential" (Some credentialId));
  do_ assertRotatedByOwner user credential;
  mret credential.

Definition already_revoked : exn := conflict "This credential has already been revoked" [].

(** What the rotation acts on: the row re-read under the key, its index, and how
    long the array is. *)
Record rotation_plan : Type := {
  rp_current : CredentialRecord;
  rp_username : string;
  rp_length : nat;
  rp_position : nat;
}.

Definition plan_rotation (user : UserRecord) (target : CredentialRecord) (ip : option string) : M rotation_plan :=
  let type := cr_credential_type target in
  let consumerId := cr_ferrum_consumer_id target in
  do row <- credential_find (cr_id target);
  do current <- found row (notFound "Credential" (Some (cr_id target)));
  do_ assertRotatedByOwner user current;
  do_ ensure (is_live current) already_revoked;
  do_ assertOwnerActive (cr_user_id current);
  do_ match cr_application_id current with
      | Some applicationId =>
          do application <- applications_find applicationId;
          ensure (from_option (fun a => bool_decide (app_status a = ApplicationActive)) false application)
            (conflict "This credential belongs to a disabled application; re-enable it to rotate, or revoke the credential"
               [("application_id", applicationId)]%string)
      | None => mret tt
      end;
  do found_ <- edge_get consumerId false;
  do consumer <- found found_ (edgeError "The gateway consumer for this credential no longer exists" []);
  do live <- liveRows consumerId type;
  let length_ := edgeArrayLength (ec_credentials consumer) type (length live) in
  do rows <- settleLostRetirement consumerId type live length_ (acting user) ip;
  do_ checked (assertPositionsConfirmed rows consumerId type);
  do position <- checked (resolveCredentialIndex rows current length_);
  do index <- match position with
              | AtIndex i => mret i
              | NotLive => mthrow already_revoked
              | WholeType => mthrow (edgeError RECONCILE_MESSAGE
                               [("expected", pretty (length rows)); ("actual", pretty length_)]%string)
              end;
  do_ assertNoPendingRecovery (u_id user);
  mret {| rp_current := current; rp_username := ec_username consumer; rp_length := length_; rp_position := index |}.

Definition rotation_details (target : CredentialRecord) : list (string * json) :=
  [named_type (cr_credential_type target); ("consumer_id", JStr (cr_ferrum_consumer_id target));
   ("rotated_from", JStr (cr_id target)); ("previous_last4", JStr (cr_last4 target))]%string.

Definition record_rotation (user : UserRecord) (target replacement : CredentialRecord) (ip : option string) : M unit :=
  do_ audit_record (audit_actor (acting user)) "credential.rotate" (on_credential (cr_id replacement))
    (rotation_details target) ip;
  mret tt.

(** At the cap: the previous entry goes first. *)
Definition make_room (user : UserRecord) (target : CredentialRecord) (plan : rotation_plan) (ip : option string)
    : M CredentialRecord :=
  let current := rp_current plan in
  let type := cr_credential_type target in
  let consumerId := cr_ferrum_consumer_id target in
  do_ transaction (
    do_ credential_update (cr_id current) CredentialRetiring;
    audit_record (audit_actor (acting user)) "credential.revoke_start" (on_credential (cr_id current))
      [named_type type; ("consumer_id", JStr consumerId); ("last4", JStr (cr_last4 current));
       ("operation", JStr "rotate")]%string ip);
  do_ mcatch (removeAt consumerId type (AtIndex (rp_position plan)) (u_id user))
    (fun error =>
       do unapplied <- deleteDidNotApply consumerId type (rp_length plan);
       do_ (if unapplied : bool then withdrawRetirement current "rotate" (acting user) error ip else mret tt);
       mthrow error);
  do revoked <- credential_update (cr_id current) CredentialRevoked;
  mret (default current revoked).

Definition replacement_input (user : UserRecord) (target : CredentialRecord) (plan : rotation_plan) (label ip : option string)
    (appendFirst : bool) : append_input :=
  let current := rp_current plan in {|
  ai_ownerId := cr_user_id current; ai_applicationId := cr_application_id current; ai_actor := acting user;
  ai_consumerId := cr_ferrum_consumer_id target; ai_consumerUsername := rp_username plan;
  ai_type := cr_credential_type target;
  ai_label := match label with Some l => Some l | None => cr_label current end;
  ai_rotatedFromId := Some (cr_id current);
  ai_appendIndex := if appendFirst then rp_length plan else rp_length plan - 1;
  ai_operation := "rotate"; ai_retiredCredentialId := if appendFirst then None else Some (cr_id current); ai_ip := ip;
  ai_recordWithRow := if appendFirst then None else Some (fun replacement => record_rotation user target replacement ip) |}.

Definition replacement_lost (type : CredentialType) (current : CredentialRecord) (error : exn) : exn :=
  edgeError "The previous credential was removed from the gateway but its replacement could not be created; issue a new credential"
    [("credential_type", type_name type); ("revoked_credential_id", cr_id current); ("cause", ex_message error)]%string.

Definition stranded_message (w : AppendWithdrawal) (length_ : nat) (type : CredentialType) : string :=
  if bool_decide (arrayLength w = Some length_) then
    "The gateway did not acknowledge removing the previous credential and no longer holds it; the replacement created in its place is live but its secret was never delivered — revoke the credential named here and issue a new one"
  else if arrayAsAppended w then
    "The previous credential could not be removed from the gateway and the replacement created for it could not be taken back; the portal holds a live row for each — revoke the credential named here and try again"
  else if bool_decide (type = basicauth) then
    "The previous credential could not be confirmed removed from the gateway and the replacement created for it could not be taken back; revoke the credential named here, and the previous one if it is still listed, then issue a new one"
  else
    "The previous credential could not be removed from the gateway and the replacement created for it could not be taken back; an administrator must reconcile this consumer".

(** Append-first: the retirement failed, so the replacement is taken back. *)
Definition take_replacement_back (user : UserRecord) (target : CredentialRecord) (plan : rotation_plan) (created : issued)
    (c : append_context) (error : exn) : M unit :=
  let current := rp_current plan in
  let type := cr_credential_type target in
  let consumerId := cr_ferrum_consumer_id target in
  do w <- withdrawAppendedEntry consumerId type (rp_length plan) (cr_fingerprint (is_credential created)) (u_id user);
  do_ (if withdrawn w then ignore_errors (credential_delete (cr_id (is_credential created))) else mret tt);
  do_ (if arrayAsAppended w then ignore_errors (credential_update (cr_id current) CredentialActive) else mret tt);
  do_ recordAppendRollback c (withdrawn w) (Some (cr_id (is_credential created))) false error;
  if withdrawn w then mthrow error
  else mthrow (edgeError (stranded_message w (rp_length plan) type)
                [("credential_type", type_name type); ("consumer_id", consumerId);
                 ("stranded_credential_id", cr_id (is_credential created)); ("retired_credential_id", cr_id current);
                 ("cause", ex_message error)]%string).

Definition rotation_context (user : UserRecord) (target : CredentialRecord) (plan : rotation_plan) (created : issued)
    (retired : option string) (ip : option string) : append_context := {|
  ac_consumerId := cr_ferrum_consumer_id target; ac_type := cr_credential_type target; ac_operation := "rotate";
  ac_retiredCredentialId := retired; ac_last4 := cr_last4 (is_credential created); ac_appendIndex := rp_length plan;
  ac_ownerId := cr_user_id (rp_current plan); ac_actor := acting user; ac_ip := ip;
|}.

(** Append-first: the previous entry is retired, removed, and its row settled. *)
Definition retire_previous (user : UserRecord) (target : CredentialRecord) (plan : rotation_plan) (created : issued)
    (ip : option string) : M CredentialRecord :=
  let current := rp_current plan in
  let type := cr_credential_type target in
  let consumerId := cr_ferrum_consumer_id target in
  do_ mcatch
    (do_ credential_update (cr_id current) CredentialRetiring;
     removeAt consumerId type (AtIndex (rp_position plan)) (u_id user))
    (take_replacement_back user target plan created (rotation_context user target plan created None ip));
  mcatch
    (transaction (
       do retired <- credential_update (cr_id current) CredentialRevoked;
       do_ record_rotation user target (is_credential created) ip;
       mret (default current retired)))
    (fun error =>
       do_ recordAppendRollback (rotation_context user target plan created (Some (cr_id current)) ip) false
         (Some (cr_id (is_credential created))) false error;
       mthrow error).

Record rotated : Type := { ro_created : issued; ro_previous : CredentialRecord; ro_username : string }.

Definition rotate_section (user : UserRecord) (target : CredentialRecord) (label ip : option string) : M rotated :=
  do plan <- plan_rotation user target ip;
  let appendFirst := (rp_length plan <? maxCredentialsPerType)%nat in
  do settled <- (if appendFirst then mret (rp_current plan) else make_room user target plan ip);
  do created <- mcatch (appendCredential (replacement_input user target plan label ip appendFirst))
                  (fun error => if appendFirst then mthrow error
                                else mthrow (replacement_lost (cr_credential_type target) (rp_current plan) error));
  do previous <- (if appendFirst then retire_previous user target plan created ip else mret settled);
  mret {| ro_created := created; ro_previous := previous; ro_username := rp_username plan |}.

Definition rotate (user : UserRecord) (credentialId : string) (label ip : option string) : M rotated :=
  do_ assertNoPendingRecovery (u_id user);
  do target <- loadForRotate user credentialId;
  if has_credential_status CredentialRevoked target then mthrow already_revoked
  else
    do result <- locks (cr_ferrum_consumer_id target) (rotate_section user target label ip);
    do_ ignore_errors (credential_notify (u_id user) "credential_rotated" "A gateway credential was rotated"
      ("Your " +:+ type_name (cr_credential_type target) +:+ " credential ending …" +:+ cr_last4 target +:+ " was replaced.")
      "/credentials");
    do_ ignore_errors (credential_mail user "credential_rotated"
      [("recipient_name", u_display_name user); ("recipient_email", u_email user);
       ("credential_label", default (type_name (cr_credential_type target)) (cr_label (is_credential (ro_created result))));
       ("credential_last4", cr_last4 (is_credential (ro_created result))); ("credentials_url", credentials_url)]%string);
    mret result.

Definition list_credentials (actor : UserRecord) (targetUserId : option string) (status : option CredentialStatus)
    (application : option (option string)) (limit offset : option jsnum) : M (list CredentialRecord * Z) :=
  let userId := default (u_id actor) targetUserId in
  do_ ensure (bool_decide (userId = u_id actor) || roleAtLeast (role_name (u_role actor)) (role_name admin))
    (forbidden "Only an administrator can list another account’s credentials");
  credential_list {| cf_user_id := Some userId; cf_application_id := application; cf_status := status;
                     cf_credential_type := None; cf_ferrum_consumer_id := None |} limit offset.
End Issue.
