(* ===== verification/CredentialReconcile.v ===== *)
(** * Gateway credentials: reconciliation

    [reconcile] of [server/src/credentials/service.ts]: an administrator empties
    one type of a consumer the portal owns, on the gateway and in the rows,
    whatever drift there is between them. *)

From Stdlib Require Import Ascii.
From S2P Require Import Prelude Json Regexp Roles Users AuditLog AccessTables CredentialTables World AccessStore LeaseFence KeyedSerializer Provisioner AccountRecovery CredentialStore Credentials CredentialIssue.
Open Scope Z_scope.

Definition is_alnum (c : Ascii.ascii) : bool :=
  let n := Ascii.nat_of_ascii c in
  ((48 <=? n) && (n <=? 57) || (65 <=? n) && (n <=? 90) || (97 <=? n) && (n <=? 122))%nat.

(** [/^[A-Za-z0-9][A-Za-z0-9._-]{0,127}$/]. *)
Definition CONSUMER_ID_SHAPE : regexp :=
  RSeq (RClass is_alnum)
    (RUpTo 127 (RClass (fun c => is_alnum c || bool_decide (c ∈ ["."%char; "_"%char; "-"%char])))).

(** [[...new Set(l)]]: the first of each, in order. *)
Fixpoint distinct_from (seen l : list string) : list string :=
  match l with
  | [] => []
  | x :: rest => if bool_decide (x ∈ seen) then distinct_from seen rest else x :: distinct_from (x :: seen) rest
  end.
Definition new_set (l : list string) : list string := distinct_from [] l.

Definition TEST_CONSUMER_USERNAME_PREFIX : string := "nexus-test-".

Record reconcile_result : Type := { rr_gateway_cleared : bool; rr_revoked : list string; rr_owners : list string }.

Section Reconcile.
Context `{EdgeClient} `{CredentialDeps}.

Definition of_consumer (consumerId : string) : CredentialFilter := {|
  cf_user_id := None; cf_application_id := None; cf_status := None; cf_credential_type := None;
  cf_ferrum_consumer_id := Some consumerId;
|}.

(** The consumer of a row, by the name derived for the identity the row names. *)
Definition carries_name (row : CredentialRecord) (username : string) : M bool :=
  let derived := match cr_application_id row with
                 | None => consumerUsernameForUser (cr_user_id row)
                 | Some id => consumerUsernameForApplication id
                 end in
  if bool_decide (username = derived) then mret true
  else if negb (String.prefix TEST_CONSUMER_USERNAME_PREFIX username) then mret false
  else
    let apiId := slice_from (String.length TEST_CONSUMER_USERNAME_PREFIX) username in
    if bool_decide (apiId = EmptyString) then mret false
    else do api <- apis_find apiId; mret (bool_decide (is_Some api)).

(** A registered identity that names the id. *)
Definition registered_as (consumerId : string) (live : option EdgeConsumer) : M bool :=
  match live with
  | None => mret false
  | Some c =>
      do identity <- identity_findByUsername namespace (ec_username c);
      mret (match identity with
            | None => false
            | Some i => match gi_ferrum_consumer_id i with
                        | Some bound => bool_decide (bound = consumerId)
                        | None => bool_decide (edge_derivedId (ec_username c) = consumerId)
                        end
            end)
  end.

Definition portalOwnsConsumer (consumerId : string) (live : option EdgeConsumer) : M bool :=
  do mapping <- consumer_findByFerrumId consumerId;
  match mapping with
  | Some m =>
      mret (bool_decide (cs_namespace m = namespace)
            && match live with None => true | Some c => bool_decide (ec_username c = cs_ferrum_username m) end)
  | None =>
      do registered <- registered_as consumerId live;
      if registered : bool then mret true
      else
        do page <- credential_list (of_consumer consumerId) (Some (Fin 1)) (Some (Fin 0));
        match page.1, live with
        | [], _ => mret false
        | _ :: _, None => mret true
        | row :: _, Some c => carries_name row (ec_username c)
        end
  end.

Fixpoint revoke_rows (rows : list CredentialRecord) : M unit :=
  match rows with
  | [] => mret tt
  | row :: rest => do_ credential_update (cr_id row) CredentialRevoked; revoke_rows rest
  end.

Definition reconcile_rows (actor : UserRecord) (consumerId : string) (type : CredentialType) (reason ip : option string)
    (gatewayCleared : bool) : M reconcile_result :=
  transaction (
    do rows <- credential_listByConsumer consumerId (Some type) (Some LIVE_CREDENTIAL_STATUSES);
    do_ revoke_rows rows;
    let revokedIds := map cr_id rows in
    let owners := new_set (map cr_user_id rows) in
    do_ audit_record (audit_actor (acting actor)) "credential.reconcile" (on_consumer consumerId)
      ([named_type type; ("consumer_id", JStr consumerId); ("gateway_cleared", JBool gatewayCleared);
        ("revoked_credentials", json_nat (length revokedIds)); ("revoked_credential_ids", json_strs revokedIds);
        ("owner_user_ids", json_strs owners)]%string
       ++ match reason with Some EmptyString | None => [] | Some r => [("reason"%string, JStr r)] end) ip;
    mret {| rr_gateway_cleared := gatewayCleared; rr_revoked := revokedIds; rr_owners := owners |}).

Definition reconcile_section (actor : UserRecord) (consumerId : string) (type : CredentialType) (reason ip : option string)
    : M reconcile_result :=
  do live <- edge_get consumerId true;
  do owned <- portalOwnsConsumer consumerId live;
  do_ ensure owned
    (forbidden "This gateway consumer is not managed by the portal; only a consumer the portal created can be reconciled here");
  do_ (if bool_decide (is_Some live) then edge_deleteCredentialType consumerId type (u_id actor) else mret tt);
  reconcile_rows actor consumerId type reason ip (bool_decide (is_Some live)).

Fixpoint notify_owners (type : CredentialType) (owners : list string) : M unit :=
  match owners with
  | [] => mret tt
  | ownerId :: rest =>
      do_ ignore_errors (credential_notify ownerId "system" "Gateway credentials reset"
        ("Your " +:+ type_name type +:+ " credentials were reset by an administrator; issue new ones from the credentials page.")
        "/credentials");
      notify_owners type rest
  end.

Definition reconcile (actor : UserRecord) (consumerId : string) (type : CredentialType) (reason ip : option string)
    : M reconcile_result :=
  do_ ensure (roleAtLeast (role_name (u_role actor)) (role_name admin))
    (forbidden "Only an administrator can reconcile a gateway consumer’s credentials");
  do_ ensure (re_test CONSUMER_ID_SHAPE consumerId) (validationFailed "That is not a gateway consumer id" []);
  do result <- locks consumerId (reconcile_section actor consumerId type reason ip);
  do_ notify_owners type (rr_owners result);
  mret result.
End Reconcile.
