(* ===== verification/CredentialIdentities.v ===== *)
(** * Gateway credentials: the identities of an account

    [server/src/credentials/service.ts]: the registered identities that are not an
    account's own consumer (claimed, bound, abandoned, torn down), and the
    disabling and restoring of all the gateway access an account has. Logging is
    left out. A loop over the pages of a listing has fuel: one round per page. *)

From Stdlib Require Import Ascii.
From S2P Require Import Prelude Json Roles Users JobQueues AuditLog AccessTables CredentialTables World AccessStore LeaseFence KeyedSerializer Provisioner TeardownWorker AccountRecovery CredentialStore Credentials CredentialIssue CredentialReconcile.
Open Scope Z_scope.

Definition gatewayIdentityLockKey (username : string) : string := "test-consumer:" +:+ username.

Definition out_of_fuel : exn := driverError "a listing did not end".

(** The rows of all pages of a listing. *)
Fixpoint collect_pages {R} (fuel : nat) (page : Z -> M (list R * Z)) (offset : Z) (acc : list R) : M (list R) :=
  match fuel with
  | O => mthrow out_of_fuel
  | S fuel' =>
      do p <- page offset;
      let '(items, total) := p in
      let offset' := offset + Z.of_nat (length items) in
      if bool_decide (items = []) || bool_decide (total <= offset') then mret (acc ++ items)
      else collect_pages fuel' page offset' (acc ++ items)
  end.

(** The id of [/^nexus:api:([^:]+):mcp:(?:all|tool:[^:]+)$/]. *)
Definition mcp_api_id (group : string) : option string :=
  let literal s w := bool_decide (s = w) in
  match split_on ":"%char group with
  | [n; a; id; m; last_] =>
      if literal n "nexus"%string && literal a "api"%string && negb (literal id ""%string) && literal m "mcp"%string && literal last_ "all"%string
      then Some id else None
  | [n; a; id; m; t; tool] =>
      if literal n "nexus"%string && literal a "api"%string && negb (literal id ""%string) && literal m "mcp"%string && literal t "tool"%string
         && negb (literal tool ""%string)
      then Some id else None
  | _ => None
  end.

Definition apiIdFromAclGroup (group : string) : option string :=
  match mcp_api_id group with
  | Some id => Some id
  | None =>
      if negb (String.prefix ACL_GROUP_PREFIX group && endsWith ACL_GROUP_APPROVED_SUFFIX group) then None
      else
        let id := String.substring (String.length ACL_GROUP_PREFIX)
                    (String.length group - String.length ACL_GROUP_APPROVED_SUFFIX - String.length ACL_GROUP_PREFIX) group in
        if bool_decide (id = EmptyString) then None else Some id
  end.

Record TeardownGatewayIdentityResult : Type := {
  ti_consumer_id : option string;
  ti_revoked_credentials : nat;
  ti_registration_removed : bool;
  ti_consumer_deleted : bool;
}.

Record TeardownGatewayIdentityOptions : Type := {
  requireDisabledOwner : option string;
  whileHeld : option (TeardownGatewayIdentityResult -> M unit);
}.

(** [users.updateIfMatches] on the role and the status, with a patch of the status
    alone. *)
Definition touch_matching (id : string) (role : Role) (status : UserStatus) (at_ : Z) (t : user_table) : user_table * bool :=
  match t !! id with
  | Some u =>
      if bool_decide (u_role u = role) && bool_decide (u_status u = status)
      then (<[id := {|
              u_id := u_id u; u_email := u_email u; u_password_hash := u_password_hash u;
              u_display_name := u_display_name u; u_role := u_role u; u_org_id := u_org_id u; u_company := u_company u;
              u_phone := u_phone u; u_status := status; u_email_verified := u_email_verified u;
              u_last_login_at := u_last_login_at u; u_created_at := u_created_at u; u_updated_at := at_;
              u_email_fence := u_email_fence u |}]> t, true)
      else (t, false)
  | None => (t, false)
  end.

Section Identities.
Context `{EdgeClient} `{CredentialDeps}.

Definition listConsumers (fuel : nat) (userId : string) : M (list ConsumerRecord) :=
  collect_pages fuel (fun offset => consumer_list userId namespace (Some (Fin MAX_PAGE_SIZE)) (Some (Fin offset))) 0 [].

(** ** Rows *)

Definition revokeRowsFor (consumerId : string) : M nat :=
  transaction (
    do rows <- credential_listByConsumer consumerId None (Some LIVE_CREDENTIAL_STATUSES);
    do_ revoke_rows rows;
    mret (length rows)).

Definition assertStillDisabled (userId : string) : M unit :=
  do owner <- users_find userId;
  match owner with
  | None => mret tt
  | Some u => ensure (bool_decide (u_status u = UserDisabled))
                (conflict "That account is no longer disabled; its gateway access was left alone"
                   [("user_id", userId); ("status", match u_status u with UserActive => "active" | UserDisabled => "disabled" end)]%string)
  end.

Definition live_of_user (userId : string) (status : CredentialStatus) : CredentialFilter := {|
  cf_user_id := Some userId; cf_application_id := None; cf_status := Some status; cf_credential_type := None;
  cf_ferrum_consumer_id := None;
|}.

Definition live_rows_of (fuel : nat) (userId : string) (status : CredentialStatus) : M (list CredentialRecord) :=
  collect_pages fuel (fun offset => credential_list (live_of_user userId status) (Some (Fin MAX_PAGE_SIZE)) (Some (Fin offset))) 0 [].

(** The consumers with live rows of the account that are not [durable], in order. *)
Definition foreignConsumerIds (fuel : nat) (userId : string) (durable : list string) : M (list string) :=
  do active <- live_rows_of fuel userId CredentialActive;
  do retiring_ <- live_rows_of fuel userId CredentialRetiring;
  mret (sort_by (fun a b => leb_of (String.compare a b))
    (new_set (filter (fun c => c ∉ durable) (map cr_ferrum_consumer_id (active ++ retiring_))))).

Definition ensureTeardownOwed (userId : string) : M unit :=
  locks (userLifecycleLockKey userId)
    (transaction (
       do owner <- users_find userId;
       match owner with
       | Some u =>
           if negb (bool_decide (u_status u = UserDisabled)) then mret tt
           else
             do matched <- statement_ok (fun t d =>
                             let '(rows, ok) := touch_matching userId (u_role u) UserDisabled (t_now t) (d_users d) in (ok, with_users rows d));
             do_ ensure matched (conflict "That account changed while queuing gateway recovery" []);
             do now <- date_now;
             statement_ok (fun t d =>
               let '(q, _) := Teardown.upsertPending userId None now (t_ids t 0) (t_ids t 1) (d_teardown d) in (tt, with_teardown q d))
       | None => mret tt
       end)).

(** ** One identity *)

(** The consumer a registration leads to, or the derived one without. *)
Definition identity_consumer (username : string) (current : option GatewayIdentityRecord) : M (option EdgeConsumer) :=
  match current with
  | None => edge_get (edge_derivedId username) true
  | Some r =>
      match gi_ferrum_consumer_id r with
      | Some id => edge_get id true
      | None =>
          do derived <- edge_get (edge_derivedId username) true;
          match derived with Some c => mret (Some c) | None => edge_getByUsername username end
      end
  end.

(** The consumer and its rows, and the rows of the one the registration last knew. *)
Definition collect_identity (subject : string) (current : option GatewayIdentityRecord) (live : option EdgeConsumer) : M nat :=
  do revoked <- match live with
                | Some c => locks (ec_id c) (do_ edge_delete (ec_id c) subject; revokeRowsFor (ec_id c))
                | None => mret O
                end;
  match current ≫= gi_ferrum_consumer_id with
  | Some id => if bool_decide (Some id = ec_id <$> live) then mret revoked
               else do more <- revokeRowsFor id; mret (revoked + more)%nat
  | None => mret revoked
  end.

Definition nothing_collected : TeardownGatewayIdentityResult := {|
  ti_consumer_id := None; ti_revoked_credentials := 0; ti_registration_removed := false; ti_consumer_deleted := false;
|}.

(** The registration, once what follows the teardown is done. *)
Definition consume_registration (followed : bool) (current : GatewayIdentityRecord) (result : TeardownGatewayIdentityResult)
    : M TeardownGatewayIdentityResult :=
  mcatch (do_ transaction (identity_delete (gi_id current)); mret result)
    (fun error =>
       if negb followed || (bool_decide (ti_consumer_id result = None) && negb (ti_registration_removed result)) then mthrow error
       else mret {| ti_consumer_id := ti_consumer_id result; ti_revoked_credentials := ti_revoked_credentials result;
                    ti_registration_removed := false; ti_consumer_deleted := ti_consumer_deleted result |}).

Definition teardown_section (username subject : string) (options : TeardownGatewayIdentityOptions)
    : M TeardownGatewayIdentityResult :=
  do_ match requireDisabledOwner options with Some owner => assertStillDisabled owner | None => mret tt end;
  do current <- identity_findByUsername namespace username;
  if match requireDisabledOwner options with
     | Some owner => negb (bool_decide (Some owner = gi_user_id <$> current))
     | None => false
     end then mret nothing_collected
  else
    do live <- identity_consumer username current;
    do revoked <- collect_identity subject current live;
    let result := {|
      ti_consumer_id := match live with Some c => Some (ec_id c) | None => current ≫= gi_ferrum_consumer_id end;
      ti_revoked_credentials := revoked;
      ti_registration_removed := bool_decide (is_Some current);
      ti_consumer_deleted := bool_decide (is_Some live) |} in
    do_ match whileHeld options with Some follow => follow result | None => mret tt end;
    match current with
    | None => mret result
    | Some r => consume_registration (match whileHeld options with Some _ => true | None => false end) r result
    end.

Definition teardownIdentity (username subject : string) (options : TeardownGatewayIdentityOptions)
    : M TeardownGatewayIdentityResult :=
  locks (gatewayIdentityLockKey username) (teardown_section username subject options).

Definition claimGatewayIdentity (ownerId username : string) : M GatewayIdentityRecord :=
  locks (userLifecycleLockKey ownerId)
    (transaction (do_ assertOwnerActive ownerId; identity_claim ownerId namespace username None)).

Definition bindGatewayIdentity (identity : GatewayIdentityRecord) (consumerId : string) : M unit :=
  do_ transaction (identity_bindConsumer (gi_id identity) (Some consumerId)); mret tt.

(** The registration goes, if it is still this owner's. *)
Definition drop_registration (identity : GatewayIdentityRecord) : M unit :=
  ignore_errors (transaction (
    do current <- identity_findByUsername namespace (gi_ferrum_username identity);
    match current with
    | Some r => if bool_decide (gi_user_id r = gi_user_id identity) then do_ identity_delete (gi_id r); mret tt else mret tt
    | None => mret tt
    end)).

(** The incumbent a replacement by the same account is pointed back at. *)
Definition own_incumbent (identity : GatewayIdentityRecord) (consumerId attemptedConsumerId : option string)
    (replaced : option GatewayIdentityRecord) : option string :=
  match consumerId, attemptedConsumerId, replaced with
  | None, None, Some r => if bool_decide (gi_user_id r = gi_user_id identity) then gi_ferrum_consumer_id r else None
  | _, _, _ => None
  end.

Definition abandonGatewayIdentity (identity : GatewayIdentityRecord) (consumerId : option string) (subject : string)
    (attemptedConsumerId : option string) (replaced : option GatewayIdentityRecord) : M bool :=
  match own_incumbent identity consumerId attemptedConsumerId replaced with
  | Some incumbent =>
      do_ ignore_errors (transaction (identity_bindConsumer (gi_id identity) (Some incumbent)));
      mret false
  | None =>
      let kept := do_ ignore_errors (ensureTeardownOwed (gi_user_id identity)); mret false in
      do created <- match consumerId, attemptedConsumerId with
                    | None, Some attempted =>
                        mattempt (do c <- edge_get attempted true; mret (ec_id <$> c))
                    | _, _ => mret (Ok consumerId)
                    end;
      match created with
      | Throw _ => kept
      | Ok None => do_ drop_registration identity; mret false
      | Ok (Some live) =>
          do deleted <- mattempt (locks live (edge_delete live subject));
          match deleted with
          | Throw _ => kept
          | Ok _ => do_ drop_registration identity; mret true
          end
      end
  end.

(** ** All the access of an account *)

Fixpoint teardown_registered (userId subject : string) (identities : list GatewayIdentityRecord) : M (nat * list string) :=
  match identities with
  | [] => mret (O, [])
  | identity :: rest =>
      do outcome <- teardownIdentity (gi_ferrum_username identity) subject
                      {| requireDisabledOwner := Some userId; whileHeld := None |};
      do others <- teardown_registered userId subject rest;
      mret ((ti_revoked_credentials outcome + others.1)%nat,
            match ti_consumer_id outcome with Some id => id :: others.2 | None => others.2 end)
  end.

Definition teardown_foreign_one (userId subject foreignId : string) : M nat :=
  locks foreignId (
    do_ assertStillDisabled userId;
    do live <- edge_get foreignId true;
    do_ (if bool_decide (is_Some live) then edge_delete foreignId subject else mret tt);
    do count <- revokeRowsFor foreignId;
    do_ transaction (
      do cached <- consumer_findByFerrumId foreignId;
      match cached with
      | Some c => if bool_decide (cs_user_id c = userId) then do_ consumer_delete (cs_id c); mret tt else mret tt
      | None => mret tt
      end);
    mret count).

Fixpoint teardown_foreign (userId subject : string) (ids : list string) : M nat :=
  match ids with
  | [] => mret O
  | id :: rest => do n <- teardown_foreign_one userId subject id;
                  do others <- teardown_foreign userId subject rest;
                  mret (n + others)%nat
  end.

Fixpoint clear_types (consumerId subject : string) (types : list CredentialType) : M unit :=
  match types with
  | [] => mret tt
  | type :: rest => do_ edge_deleteCredentialType consumerId type subject; clear_types consumerId subject rest
  end.

(** A durable identity is stripped and kept. *)
Definition strip_durable (userId subject id : string) : M (nat * list string) :=
  locks id (
    do_ assertStillDisabled userId;
    do snapshot <- edge_verification id subject;
    do_ match snapshot with
        | Some (live, etag) =>
            do_ edge_replace id (consumerWithAclGroups live []) subject etag;
            clear_types id subject CREDENTIAL_TYPES
        | None => mret tt
        end;
    do n <- revokeRowsFor id;
    mret (n, match snapshot with Some (live, _) => ec_acl_groups live | None => [] end)).

Fixpoint strip_all (userId subject : string) (consumers : list ConsumerRecord) : M (nat * list string) :=
  match consumers with
  | [] => mret (O, [])
  | c :: rest =>
      do one <- strip_durable userId subject (cs_ferrum_consumer_id c);
      do others <- strip_all userId subject rest;
      mret ((one.1 + others.1)%nat, one.2 ++ others.2)
  end.

Definition disable_gateway_access (fuel : nat) (userId subject : string) : M GatewayTeardown :=
  do durableConsumers <- listConsumers fuel userId;
  let durableIds := map cs_ferrum_consumer_id durableConsumers in
  let canonical := List.find (fun c => bool_decide (cs_application_id c = None)) durableConsumers in
  do identities <- identity_listByUser userId namespace;
  do registered <- teardown_registered userId subject identities;
  do foreign <- foreignConsumerIds fuel userId durableIds;
  if bool_decide (durableConsumers = []) && bool_decide (foreign = []) then
    mret {| gt_consumer_id := None; gt_revoked_credentials := Z.of_nat registered.1; gt_removed_groups := [];
            gt_deleted_consumers := registered.2 |}
  else
    do n <- teardown_foreign userId subject foreign;
    do stripped <- strip_all userId subject durableConsumers;
    mret {| gt_consumer_id := cs_ferrum_consumer_id <$> canonical;
            gt_revoked_credentials := Z.of_nat (registered.1 + n + stripped.1);
            gt_removed_groups := new_set stripped.2; gt_deleted_consumers := registered.2 ++ foreign |}.

(** ** Access given back *)

Fixpoint grant_groups (grants : list GrantRecord) : M (list string) :=
  match grants with
  | [] => mret []
  | g :: rest =>
      do api <- apis_find (g_api_id g);
      do others <- grant_groups rest;
      mret (g_acl_group g
            :: (if bool_decide (is_Some (api ≫= api_agents)) then mcpGroupsForGrant (g_api_id g) (g_approved_tools g) else [])
            ++ others)
  end.

Definition restore_one (userId subject : string) (consumer : ConsumerRecord) : M unit :=
  locks (cs_ferrum_consumer_id consumer) (
    do owner <- users_find userId;
    do_ ensure (is_active_account owner) (userDisabled "This account is no longer active; gateway access was not restored");
    do grants <- read (fun d => grants_listActiveByUser userId (Some (cs_application_id consumer)) (at_grants (d_access d)));
    do snapshot <- edge_verification (cs_ferrum_consumer_id consumer) subject;
    match snapshot with
    | None => ensure (bool_decide (grants = [])) (edgeError "The gateway consumer for this identity no longer exists" [])
    | Some (live, etag) =>
        let current := ec_acl_groups live in
        do restored <- grant_groups grants;
        let groups := new_set (filter (fun g => apiIdFromAclGroup g = None) current ++ restored) in
        let stray := existsb (fun g => bool_decide (is_Some (apiIdFromAclGroup g)) && negb (bool_decide (g ∈ groups))) current in
        if bool_decide (grants = []) && negb stray then mret tt
        else do_ edge_replace (ec_id live) (consumerWithAclGroups live groups) subject etag; mret tt
    end).

Fixpoint restore_all (userId subject : string) (consumers : list ConsumerRecord) : M unit :=
  match consumers with
  | [] => mret tt
  | c :: rest => do_ restore_one userId subject c; restore_all userId subject rest
  end.

Definition ACCOUNT_IDENTITY : string := "account".

Definition restoreGatewayAccess (fuel : nat) (userId subject : string) : M unit :=
  do consumers <- listConsumers fuel userId;
  do grants <- read (fun d => grants_listActiveByUser userId None (at_grants (d_access d)));
  let mapped := map (fun c => default ACCOUNT_IDENTITY (cs_application_id c)) consumers in
  let unmapped := filter (fun i => i ∉ mapped) (new_set (map (fun g => default ACCOUNT_IDENTITY (g_application_id g)) grants)) in
  do_ ensure (bool_decide (unmapped = [])) (edgeError "Active grants have no gateway consumer mapping" []);
  restore_all userId subject consumers.
End Identities.
