(* ===== verification/CredentialSweep.v ===== *)
(** * Gateway credentials: the sweep of an account recovery

    [sweepForAccountRecovery] and [revokeForAccountRecovery] of
    [server/src/credentials/service.ts]: after a trusted password reset, every
    credential of the account created before the job stopped blocking is revoked,
    page by page, while the account may go on using the newer ones. [fuel] bounds
    the pages of one listing. *)

From S2P Require Import Prelude Json Roles Users AuditLog AccessTables CredentialTables World AccessStore LeaseFence KeyedSerializer Provisioner AccountRecovery CredentialStore Credentials CredentialIssue CredentialReconcile CredentialIdentities.
Open Scope Z_scope.

Definition RECOVERY_SWEEP_ROUNDS : nat := 5.

(** [consumerIds.add(id)]: a [Set] keeps the order its members came in. *)
Definition set_add (id : string) (s : list string) : list string :=
  if bool_decide (id ∈ s) then s else s ++ [id].

(** Created since the job stopped blocking. *)
Definition spared (cutoff : option Z) (row : CredentialRecord) : bool :=
  match cutoff with Some c => bool_decide (c <= cr_created_at row) | None => false end.

(** What one listing of a status has come to: [consumerIds], [revoked], the rows
    skipped, in order; [offset] is their number. *)
Record sweep_progress : Type := { sw_ids : list string; sw_revoked : nat; sw_skipped : list CredentialRecord }.

Definition restarted (s : sweep_progress) : sweep_progress := {| sw_ids := sw_ids s; sw_revoked := sw_revoked s; sw_skipped := [] |}.
Definition noted_consumer (row : CredentialRecord) (s : sweep_progress) : sweep_progress :=
  {| sw_ids := set_add (cr_ferrum_consumer_id row) (sw_ids s); sw_revoked := sw_revoked s; sw_skipped := sw_skipped s |}.
Definition skipping (row : CredentialRecord) (s : sweep_progress) : sweep_progress :=
  {| sw_ids := sw_ids s; sw_revoked := sw_revoked s; sw_skipped := sw_skipped s ++ [row] |}.
Definition revoking_one (done : bool) (s : sweep_progress) : sweep_progress :=
  {| sw_ids := sw_ids s; sw_revoked := sw_revoked s + (if done then 1 else 0); sw_skipped := sw_skipped s |}.

Definition kept_changing : exn :=
  conflict "Credentials kept changing while an account recovery revoked them" [("reason", "account_recovery_pending")]%string.

Section Sweep.
Context `{EdgeClient} `{CredentialDeps} (fuel : nat) (user : UserRecord) (ip : option string) (cutoff : option Z).

Definition recovery_options : revoke_options := {| clearType := false; recovery := true; recoveryCutoff := cutoff |}.

(** The rows of a page, in order. *)
Fixpoint sweep_rows (rows : list CredentialRecord) (s : sweep_progress) : M sweep_progress :=
  match rows with
  | [] => mret s
  | row :: rest =>
      let s := noted_consumer row s in
      if spared cutoff row then sweep_rows rest (skipping row s)
      else
        do done <- revokeCredentialRow row (acting user) ip [("reason", JStr "account_recovery")]%string recovery_options;
        sweep_rows rest (revoking_one done s)
  end.

(** The pages of a status, until an empty one. *)
Fixpoint sweep_pages (pages : nat) (status : CredentialStatus) (s : sweep_progress) : M sweep_progress :=
  match pages with
  | O => mthrow out_of_fuel
  | S pages' =>
      do page <- credential_list (live_of_user (u_id user) status) (Some (Fin MAX_PAGE_SIZE))
                   (Some (Fin (Z.of_nat (length (sw_skipped s)))));
      if bool_decide (page.1 = []) then mret s
      else do s' <- sweep_rows page.1 s; sweep_pages pages' status s'
  end.

(** Whether every skipped row is still as it was listed. *)
Fixpoint unmoved (status : CredentialStatus) (skipped : list CredentialRecord) : M bool :=
  match skipped with
  | [] => mret true
  | row :: rest =>
      do current <- credential_find (cr_id row);
      match current with
      | None => mret false
      | Some c =>
          if negb (has_credential_status status c) || negb (bool_decide (cr_updated_at c = cr_updated_at row)) then mret false
          else unmoved status rest
      end
  end.

Fixpoint sweep_rounds (rounds : nat) (status : CredentialStatus) (s : sweep_progress) : M sweep_progress :=
  match rounds with
  | O => mthrow kept_changing
  | S rounds' =>
      do s' <- sweep_pages fuel status (restarted s);
      do still <- unmoved status (sw_skipped s');
      if still : bool then mret s' else sweep_rounds rounds' status s'
  end.

Fixpoint sweep_statuses (statuses : list CredentialStatus) (s : sweep_progress) : M sweep_progress :=
  match statuses with
  | [] => mret s
  | status :: rest => do s' <- sweep_rounds RECOVERY_SWEEP_ROUNDS status s; sweep_statuses rest s'
  end.

Definition sweepForAccountRecovery (consumerIds : list string) : M sweep_progress :=
  sweep_statuses LIVE_CREDENTIAL_STATUSES {| sw_ids := consumerIds; sw_revoked := 0; sw_skipped := [] |}.

(** An empty section of each consumer: an append in flight is over. *)
Fixpoint wait_out (consumerIds : list string) : M unit :=
  match consumerIds with
  | [] => mret tt
  | id :: rest => do_ locks id (mret tt); wait_out rest
  end.

Definition revoke_for_account_recovery : M Z :=
  do first <- sweepForAccountRecovery [];
  do consumers <- listConsumers fuel (u_id user);
  do identities <- identity_listByUser (u_id user) namespace;
  let ids := foldl (fun s c => set_add (cs_ferrum_consumer_id c) s) (sw_ids first) consumers in
  let ids := foldl (fun s i => set_add (default (edge_derivedId (gi_ferrum_username i)) (gi_ferrum_consumer_id i)) s)
               ids identities in
  do_ wait_out ids;
  do second <- sweepForAccountRecovery ids;
  mret (Z.of_nat (sw_revoked first + sw_revoked second)).
End Sweep.

(** The revocation the account recovery worker calls. *)
Definition credentials_recovery `{EdgeClient} `{CredentialDeps} (fuel : nat) : RecoveryService := {|
  revokeForAccountRecovery := revoke_for_account_recovery fuel;
|}.
