(* ===== verification/CredentialMirror.v ===== *)
(** * The mirror of a credential array

    What the rows of a consumer's credentials of one type say about the array the
    gateway keeps ([mirrored]), which writes keep it true, and that the index
    [resolveCredentialIndex] answers is the target's own. *)

From S2P Require Import Prelude Roles AccessTables CredentialTables CredentialStore Credentials.
Open Scope nat_scope.

Definition ordinal_le (a b : CredentialRecord) : Prop := ordinal_order a b = true.
Definition ordinal_before (a b : CredentialRecord) : bool :=
  bool_decide (compare_null_first (cr_edge_ordinal a) (cr_edge_ordinal b) = Lt).

(** The live rows, in an order the ordinals allow. *)
Record live_order (t : credential_table) (L : list CredentialRecord) : Prop := {
  lo_rows : forall r, r ∈ L <-> t !! cr_id r = Some r /\ is_live r = true;
  lo_distinct : NoDup L;
  lo_sorted : StronglySorted ordinal_le L;
}.

(** The array holds entries of live rows only, in their order, and one for every
    active row: an entry may be missing for a row that is being retired. *)
Record mirrored (t : credential_table) (a : list string) : Prop := {
  mir_keyed : keyed cr_id t;
  mir_prints : forall r r', t !! cr_id r = Some r -> t !! cr_id r' = Some r' ->
    cr_fingerprint r = cr_fingerprint r' -> r = r';
  mir_ordinals : forall r r', t !! cr_id r = Some r -> t !! cr_id r' = Some r' ->
    cr_edge_ordinal r = cr_edge_ordinal r' -> is_Some (cr_edge_ordinal r) -> r = r';
  mir_order : exists L, live_order t L /\ a `sublist_of` map cr_fingerprint L;
  mir_active : forall r, t !! cr_id r = Some r -> has_credential_status CredentialActive r = true -> cr_fingerprint r ∈ a;
}.

(** ** Order *)

Lemma ordinal_le_iff a b : ordinal_le a b <-> compare_null_first (cr_edge_ordinal a) (cr_edge_ordinal b) <> Gt.
Proof. unfold ordinal_le, ordinal_order, leb_of. by destruct (compare_null_first _ _). Qed.

Lemma compare_null_first_antisym x y : compare_null_first x y = CompOpp (compare_null_first y x).
Proof. destruct x as [x|], y as [y|]; simpl; [apply Z.compare_antisym|done..]. Qed.

Lemma ordinal_le_total a b : ordinal_order a b = true \/ ordinal_order b a = true.
Proof.
  unfold ordinal_order, leb_of. rewrite (compare_null_first_antisym (cr_edge_ordinal b)).
  destruct (compare_null_first _ _); simpl; auto.
Qed.

Lemma ordinal_le_trans a b c : ordinal_order a b = true -> ordinal_order b c = true -> ordinal_order a c = true.
Proof.
  unfold ordinal_order, leb_of. destruct (cr_edge_ordinal a) as [x|], (cr_edge_ordinal b) as [y|], (cr_edge_ordinal c) as [z|];
    simpl; try done.
  destruct (Z.compare_spec x y), (Z.compare_spec y z), (Z.compare_spec x z); try done; lia.
Qed.

Lemma filter_all {A} (p : A -> bool) (l : list A) : Forall (fun y => p y = true) l -> filter (fun y => p y = true) l = l.
Proof. induction 1 as [|y l Hy _ IH]; [done|]. rewrite filter_cons_True by done. by rewrite IH. Qed.
Lemma filter_none {A} (p : A -> bool) (l : list A) : Forall (fun y => p y = false) l -> filter (fun y => p y = true) l = [].
Proof. induction 1 as [|y l Hy _ IH]; [done|]. rewrite filter_cons_False; [done|]. by rewrite Hy. Qed.

Lemma sorted_filter {A} (R : A -> A -> Prop) (p : A -> bool) b l :
  StronglySorted R l -> StronglySorted R (filter (fun x => p x = b) l).
Proof.
  induction 1 as [|y l Hs IH Hy]; [constructor|]. rewrite filter_cons. case_decide; [|done]. constructor; [done|].
  apply Forall_forall. intros z [_ Hz]%list_elem_of_filter. by eapply Forall_forall in Hy.
Qed.

(** In a sorted list, the place of an element comparable with all others is the
    number of elements before it. *)
Lemma sorted_place L i x : StronglySorted ordinal_le L -> NoDup L -> L !! i = Some x ->
  (forall y, y ∈ L -> y <> x -> ordinal_before y x = true \/ ordinal_before x y = true) ->
  i = length (filter (fun y => ordinal_before y x = true) L).
Proof.
  intros Hs Hnd Hi Hcmp. pose proof (take_drop_middle L i x Hi) as Hsplit.
  assert (Hlen : length (take i L) = i) by (apply length_take_le; apply lookup_lt_Some in Hi; lia).
  rewrite <- Hsplit, filter_app, filter_all, filter_cons_False, filter_none, app_nil_r; [by rewrite Hlen|..].
  - apply Forall_lookup_2. intros j y Hj. rewrite lookup_drop in Hj.
    assert (ordinal_le x y) as Hle by (eapply (sorted_lookup ordinal_le L i); [done| |done..]; lia).
    apply ordinal_le_iff in Hle. unfold ordinal_before. apply bool_decide_eq_false.
    rewrite (compare_null_first_antisym (cr_edge_ordinal y)). by destruct (compare_null_first _ _).
  - unfold ordinal_before. rewrite bool_decide_eq_true. destruct (cr_edge_ordinal x); simpl; [by rewrite Z.compare_refl|done].
  - apply Forall_lookup_2. intros j y Hj. apply lookup_take_Some in Hj as [Hj Hji].
    assert (Hne : y <> x) by (intros ->; pose proof (NoDup_lookup L j i x Hnd Hj Hi); lia).
    assert (ordinal_le y x) as Hle by (eapply (sorted_lookup ordinal_le L j i); done).
    destruct (Hcmp y) as [Hb|Hb]; [by eapply list_elem_of_lookup_2|done|done|].
    apply ordinal_le_iff in Hle. unfold ordinal_before in Hb. apply bool_decide_eq_true in Hb.
    by rewrite (compare_null_first_antisym (cr_edge_ordinal y)), Hb in Hle.
Qed.

Lemma live_orders_permuted t L R : live_order t L -> live_order t R -> L ≡ₚ R.
Proof.
  intros HL HR. apply NoDup_Permutation; [apply HL|apply HR|]. intros r. by rewrite (lo_rows _ _ HL), (lo_rows _ _ HR).
Qed.

(** Two orders of the live rows agree on a row comparable with all others. *)
Lemma live_orders_agree t L R i x : live_order t L -> live_order t R -> R !! i = Some x ->
  (forall y, y ∈ R -> y <> x -> ordinal_before y x = true \/ ordinal_before x y = true) -> L !! i = Some x.
Proof.
  intros HL HR Hi Hcmp. pose proof (live_orders_permuted _ _ _ HL HR) as Hp.
  assert (x ∈ L) as Hx by (rewrite Hp; by eapply list_elem_of_lookup_2).
  apply list_elem_of_lookup in Hx as [j Hj].
  rewrite (sorted_place R i x (lo_sorted _ _ HR) (lo_distinct _ _ HR) Hi Hcmp), <- Hp.
  rewrite <- (sorted_place L j x (lo_sorted _ _ HL) (lo_distinct _ _ HL) Hj); [done|].
  intros y Hy. apply Hcmp. by rewrite <- Hp.
Qed.

(** Comparable: the row has an ordinal, or is the only one without. *)
Lemma placed_comparable t a R x : mirrored t a -> live_order t R -> x ∈ R ->
  unplaced x = false \/ length (filter (fun r => unplaced r = true) R) <= 1 ->
  forall y, y ∈ R -> y <> x -> ordinal_before y x = true \/ ordinal_before x y = true.
Proof.
  intros Hm HR Hx Hplace y Hy Hne. unfold ordinal_before. rewrite !bool_decide_eq_true.
  apply (lo_rows _ _ HR) in Hx as Hx'. apply (lo_rows _ _ HR) in Hy as Hy'. destruct Hx' as [Hx' _], Hy' as [Hy' _].
  destruct (cr_edge_ordinal x) as [o|] eqn:Ho, (cr_edge_ordinal y) as [o'|] eqn:Ho'; simpl; [|by auto..|].
  - destruct (Z.compare_spec o' o) as [->|Hlt|Hgt]; [|by left|right; by apply Z.compare_lt_iff].
    destruct Hne. apply (mir_ordinals _ _ Hm); [done..|congruence|by eexists].
  - destruct Hplace as [Hp|Hone]; [unfold unplaced in Hp; rewrite Ho in Hp; by rewrite bool_decide_eq_false in Hp|].
    exfalso. assert (Hdup : [x; y] ⊆+ filter (fun r => unplaced r = true) R).
    { apply NoDup_submseteq; [repeat constructor; set_solver|]. intros z Hz. apply list_elem_of_filter.
      assert (z = x \/ z = y) as [->| ->] by set_solver; (split; [|done]); unfold unplaced;
        by rewrite bool_decide_eq_true. }
    apply submseteq_length in Hdup. simpl in Hdup. lia.
Qed.

(** ** The index of an entry *)

Lemma findIndex_Some {A} (p : A -> bool) l i : findIndex p l = Some i -> exists x, l !! i = Some x /\ p x = true.
Proof.
  revert i. induction l as [|x l IH]; intros i; simpl; [done|]. destruct (p x) eqn:Hp; [intros [= <-]; eauto|].
  intros (j & Hj & ->)%fmap_Some. by apply IH.
Qed.
Lemma findIndex_None {A} (p : A -> bool) l : findIndex p l = None -> forall x, x ∈ l -> p x = false.
Proof.
  induction l as [|y l IH]; simpl; [intros _ x Hx; by apply elem_of_nil in Hx|].
  destruct (p y) eqn:Hp; [done|]. intros Hn%fmap_None x [->|Hx]%elem_of_cons; [done|by apply IH].
Qed.

Lemma has_id_eq id r : has_id id r = true <-> cr_id r = id.
Proof. unfold has_id. by rewrite bool_decide_eq_true. Qed.

Lemma live_lookup t L r : live_order t L -> r ∈ L -> t !! cr_id r = Some r.
Proof. intros HL Hr. by apply (lo_rows _ _ HL) in Hr as [? _]. Qed.

Lemma live_prints_distinct t a L : mirrored t a -> live_order t L -> NoDup (map cr_fingerprint L).
Proof.
  intros Hm HL. apply NoDup_fmap_2_strong; [|apply HL]. intros r r' Hr Hr'.
  apply (mir_prints _ _ Hm); by eapply live_lookup.
Qed.

Lemma mirrored_distinct t a : mirrored t a -> NoDup a.
Proof. intros Hm. destruct (mir_order _ _ Hm) as (L & HL & Hs). eapply sublist_NoDup; [|exact Hs]. by eapply live_prints_distinct. Qed.

(** An entry is a live row's. *)
Lemma mirrored_entry t a f : mirrored t a -> f ∈ a -> exists r, t !! cr_id r = Some r /\ is_live r = true /\ cr_fingerprint r = f.
Proof.
  intros Hm Hf. destruct (mir_order _ _ Hm) as (L & HL & Hs). eapply elem_of_sublist in Hf; [|exact Hs].
  apply list_elem_of_fmap in Hf as (r & -> & Hr). apply (lo_rows _ _ HL) in Hr as []. by exists r.
Qed.

(** A row that is not live has no entry. *)
Lemma mirrored_dead t a c : mirrored t a -> t !! cr_id c = Some c -> is_live c = false -> cr_fingerprint c ∉ a.
Proof.
  intros Hm Hc Hd Hin. destruct (mirrored_entry _ _ _ Hm Hin) as (r & Hr & Hl & Hf).
  assert (r = c) as -> by (by apply (mir_prints _ _ Hm)). congruence.
Qed.

Lemma sublist_full {A} (l k : list A) : l `sublist_of` k -> length k <= length l -> l = k.
Proof.
  induction 1 as [|x l k Hs IH|x l k Hs _]; simpl; intros Hlen; [done|f_equal; apply IH; lia|].
  apply sublist_length in Hs. lia.
Qed.

(** As many entries as live rows: each has its own. *)
Lemma mirrored_full t a R : mirrored t a -> live_order t R -> length R = length a ->
  exists L, live_order t L /\ a = map cr_fingerprint L.
Proof.
  intros Hm HR Hlen. destruct (mir_order _ _ Hm) as (L & HL & Hs). exists L. split; [done|].
  apply sublist_full; [done|]. by rewrite length_map, <- Hlen, (live_orders_permuted _ _ _ HL HR).
Qed.

Lemma mirrored_place t a R i x : mirrored t a -> live_order t R -> length R = length a -> R !! i = Some x ->
  unplaced x = false \/ length (filter (fun r => unplaced r = true) R) <= 1 -> a !! i = Some (cr_fingerprint x).
Proof.
  intros Hm HR Hlen Hi Hplace. destruct (mirrored_full _ _ _ Hm HR Hlen) as (L & HL & ->).
  rewrite list_lookup_fmap, (live_orders_agree t L R i x HL HR Hi); [done|].
  eapply placed_comparable; [done..|by eapply list_elem_of_lookup_2|done].
Qed.

(** What an answer of [resolveCredentialIndex] means. *)
Lemma resolve_index t a R target i : mirrored t a -> live_order t R -> length R = length a ->
  resolveCredentialIndex R target (length a) = Ok (AtIndex i) ->
  (forall r, r ∈ R -> cr_id r = cr_id target -> cr_edge_ordinal r = cr_edge_ordinal target) ->
  exists r, r ∈ R /\ cr_id r = cr_id target /\ a !! i = Some (cr_fingerprint r).
Proof.
  intros Hm HR Hlen Hres Hord. unfold resolveCredentialIndex in Hres.
  destruct (findIndex _ R) as [j|] eqn:Hj; [|done]. apply findIndex_Some in Hj as (r & Hj & Hid%has_id_eq).
  rewrite Hlen, Nat.eqb_refl in Hres. simpl in Hres.
  assert (Hr : r ∈ R) by by eapply list_elem_of_lookup_2.
  assert (Hun : unplaced target = unplaced r) by (unfold unplaced; by rewrite (Hord r Hr Hid)).
  rewrite Hun in Hres. destruct (unplaced r && _) eqn:Hamb; [done|]. injection Hres as <-.
  exists r. split_and!; [done..|]. eapply mirrored_place; [done..|].
  apply andb_false_iff in Hamb as [?|Hamb]; [by left|right]. apply Nat.ltb_ge in Hamb. lia.
Qed.

Lemma resolve_not_live R target n : resolveCredentialIndex R target n = Ok NotLive -> forall r, r ∈ R -> cr_id r <> cr_id target.
Proof.
  unfold resolveCredentialIndex. destruct (findIndex _ R) as [j|] eqn:Hj.
  { destruct (negb _); [by destruct (_ =? 1)|by destruct (_ && _)]. }
  intros _ r Hr Hid. apply findIndex_None with (x := r) in Hj; [|done]. by rewrite (proj2 (has_id_eq _ _) Hid) in Hj.
Qed.

Lemma resolve_whole R target n : resolveCredentialIndex R target n = Ok WholeType ->
  length R <> n /\ exists r, R = [r] /\ cr_id r = cr_id target.
Proof.
  unfold resolveCredentialIndex. destruct (findIndex _ R) as [j|] eqn:Hj; [|done].
  apply findIndex_Some in Hj as (r & Hj & Hid%has_id_eq).
  destruct (negb _) eqn:Hn; [|by destruct (_ && _)]. apply negb_true_iff, Nat.eqb_neq in Hn.
  destruct (length R =? 1) eqn:H1; [|done]. intros _. split; [done|].
  destruct R as [|x [|? ?]]; [done| |done]. destruct j as [|j]; [|done]. injection Hj as ->. by exists r.
Qed.

(** An index is answered for a list as long as the array only. *)
Lemma resolve_length R target n i : resolveCredentialIndex R target n = Ok (AtIndex i) -> length R = n.
Proof.
  unfold resolveCredentialIndex. destruct (findIndex _ R); [|done].
  destruct (negb _) eqn:Hn; [by destruct (_ =? 1)|]. by apply negb_false_iff, Nat.eqb_eq in Hn.
Qed.

(** ** Writes that keep the mirror *)

(** [r'] is [r] with another status. *)
Definition restatus (r r' : CredentialRecord) : Prop :=
  cr_id r' = cr_id r /\ cr_fingerprint r' = cr_fingerprint r /\ cr_edge_ordinal r' = cr_edge_ordinal r.

Section Write.
Context (t : credential_table) (a : list string) (r r' : CredentialRecord).
Context (Hm : mirrored t a) (Hr : t !! cr_id r = Some r) (Hre : restatus r r').

Definition rewrite_row (x : CredentialRecord) : CredentialRecord := if has_id (cr_id r) x then r' else x.

Lemma written_lookup x : <[cr_id r := r']> t !! cr_id x = Some x <->
  (cr_id x = cr_id r /\ x = r') \/ (cr_id x <> cr_id r /\ t !! cr_id x = Some x).
Proof.
  destruct (decide (cr_id x = cr_id r)) as [He|Hne].
  - rewrite He, lookup_insert_eq. split; [intros [= ->]; by left|]. by intros [[_ ->]|[]].
  - rewrite lookup_insert_ne by done. split; [by right|]. by intros [[]|[]].
Qed.

(** Each row of the written table stands where a row of the table stood. *)
Lemma written_origin x : <[cr_id r := r']> t !! cr_id x = Some x -> exists y, t !! cr_id y = Some y /\ restatus y x /\ x = rewrite_row y.
Proof.
  destruct Hre as (Hi & Hf & Ho). intros [[He ->]|[Hne Hx]]%written_lookup.
  - exists r. split_and!; [done..|]. unfold rewrite_row. by rewrite (proj2 (has_id_eq _ _) eq_refl).
  - exists x. split_and!; [done..|]. unfold rewrite_row. destruct (has_id _ x) eqn:Hh; [by apply has_id_eq in Hh|done].
Qed.

Lemma rewrite_row_restatus x : t !! cr_id x = Some x -> restatus x (rewrite_row x).
Proof.
  intros Hx. unfold rewrite_row. destruct (has_id _ x) eqn:Hh; [|done]. apply has_id_eq in Hh.
  assert (x = r) as -> by congruence. done.
Qed.

Lemma restatus_le x x' y y' : restatus x x' -> restatus y y' -> ordinal_le x y -> ordinal_le x' y'.
Proof. intros (_ & _ & Hx) (_ & _ & Hy). unfold ordinal_le, ordinal_order. by rewrite Hx, Hy. Qed.

Lemma restatus_prints L : (forall x, x ∈ L -> t !! cr_id x = Some x) -> map cr_fingerprint (map rewrite_row L) = map cr_fingerprint L.
Proof.
  intros HL. rewrite map_map. apply map_ext_in. intros x Hx%list_elem_of_In. by apply rewrite_row_restatus, HL.
Qed.

(** The live order of the written table: the row rewritten in place, or dropped. *)
Definition written_order (L : list CredentialRecord) : list CredentialRecord := filter (fun x => is_live x = true) (map rewrite_row L).

Lemma live_order_written L : live_order t L -> (is_live r' = true -> is_live r = true) ->
  live_order (<[cr_id r := r']> t) (written_order L).
Proof.
  intros HL Hlive. assert (Hin : forall x, x ∈ L -> t !! cr_id x = Some x) by (intros x; by apply live_lookup).
  split.
  - intros x. unfold written_order. rewrite list_elem_of_filter, list_elem_of_fmap. split.
    + intros (Hl & y & -> & Hy). split; [|done]. apply written_lookup. unfold rewrite_row.
      destruct (has_id (cr_id r) y) eqn:Hh; [left; by split; [apply Hre|]|right].
      split; [intros He; by rewrite (proj2 (has_id_eq _ _) He) in Hh|by apply Hin].
    + intros [Hx Hl]. split; [done|]. destruct (written_origin x Hx) as (y & Hy & _ & ->). exists y. split; [done|].
      apply (lo_rows _ _ HL). split; [done|]. unfold rewrite_row in Hl. destruct (has_id _ y) eqn:Hh; [|done].
      apply has_id_eq in Hh. assert (y = r) as -> by congruence. by apply Hlive.
  - apply NoDup_filter, NoDup_fmap_2_strong; [|apply HL]. intros x y Hx%Hin Hy%Hin He.
    destruct (rewrite_row_restatus x Hx) as [H1 _], (rewrite_row_restatus y Hy) as [H2 _].
    assert (cr_id x = cr_id y) by congruence. congruence.
  - unfold written_order. generalize (lo_sorted _ _ HL). clear HL Hlive. induction L as [|x L IH]; intros Hs; [constructor|].
    inversion_clear Hs as [|? ? Hs' Hall]. specialize (IH (fun y Hy => Hin y (list_elem_of_further _ _ _ Hy)) Hs').
    simpl. rewrite filter_cons. destruct (decide _); [|done]. constructor; [done|].
    apply Forall_forall. intros z [_ (y & -> & Hy)%list_elem_of_fmap]%list_elem_of_filter.
    eapply restatus_le; [apply rewrite_row_restatus, Hin; by left|apply rewrite_row_restatus, Hin; by right|].
    by eapply Forall_forall in Hall.
Qed.

(** The array may change too: entries of the row may go. *)
Lemma mirrored_write a' : a' `sublist_of` a -> (is_live r' = true -> is_live r = true) ->
  (is_live r' = false -> cr_fingerprint r ∉ a') ->
  (has_credential_status CredentialActive r' = true -> cr_fingerprint r ∈ a') ->
  (forall x, t !! cr_id x = Some x -> x <> r -> has_credential_status CredentialActive x = true -> cr_fingerprint x ∈ a') ->
  mirrored (<[cr_id r := r']> t) a'.
Proof.
  intros Hs Hlive Hdead Hact Hothers. destruct Hre as (Hi & Hf & Ho). split.
  - intros k x. destruct (decide (k = cr_id r)) as [->|Hne]; [rewrite lookup_insert_eq; by intros [= <-]|].
    rewrite lookup_insert_ne by done. apply (mir_keyed _ _ Hm).
  - intros x x' (y & Hy & Hxy & ->)%written_origin (y' & Hy' & Hxy' & ->)%written_origin He.
    assert (y = y') as ->; [|done]. apply (mir_prints _ _ Hm); [done..|].
    destruct Hxy as (_ & <- & _), Hxy' as (_ & <- & _). done.
  - intros x x' (y & Hy & Hxy & ->)%written_origin (y' & Hy' & Hxy' & ->)%written_origin He Hsome.
    assert (y = y') as ->; [|done]. destruct Hxy as (_ & _ & Ex), Hxy' as (_ & _ & Ex'). rewrite Ex in He, Hsome. rewrite Ex' in He.
    by apply (mir_ordinals _ _ Hm).
  - destruct (mir_order _ _ Hm) as (L & HL & Hsub). exists (written_order L). split; [by apply live_order_written|].
    assert (Ha' : a' `sublist_of` map cr_fingerprint L) by (by etrans).
    assert (Hin : forall x, x ∈ L -> t !! cr_id x = Some x) by (intros x; by apply live_lookup).
    assert (Hll : forall x, x ∈ L -> is_live x = true) by (intros x Hx; by apply (lo_rows _ _ HL) in Hx as []).
    clear -Ha' Hdead Hin Hll Hr Hre. unfold written_order. revert a' Hdead Ha'.
    induction L as [|x L IH]; intros a' Hdead Ha'; simpl in *; [by inversion Ha'|].
    assert (Hx : t !! cr_id x = Some x) by (apply Hin; left).
    specialize (IH (fun y Hy => Hin y (list_elem_of_further _ _ _ Hy)) (fun y Hy => Hll y (list_elem_of_further _ _ _ Hy))).
    unfold rewrite_row at 1. rewrite filter_cons.
    destruct (has_id (cr_id r) x) eqn:Hh.
    + apply has_id_eq in Hh. assert (x = r) as -> by congruence. destruct (decide (is_live r' = true)) as [Hl|Hl]; simpl.
      * replace (cr_fingerprint r') with (cr_fingerprint r) by (symmetry; apply Hre).
        inversion Ha'; subst; [apply sublist_skip|apply sublist_cons]; (apply IH; [congruence|done]).
      * apply not_true_is_false in Hl. apply IH; [done|].
        inversion Ha'; subst; [destruct (Hdead Hl); by left|done].
    + destruct (decide _) as [|Hn]; [|destruct Hn; by apply Hll; left]. simpl.
      inversion Ha' as [|? l ? Hl|]; subst; [|by apply sublist_cons, IH].
      apply sublist_skip, IH; [|done]. intros Hd Hin'. apply (Hdead Hd). by right.
  - intros x [[He ->]|[Hne Hx]]%written_lookup Hax; [rewrite Hf; by apply Hact|]. apply Hothers; [done| |done]. by intros ->.
Qed.
End Write.

(** ** Entries that go *)

Lemma delete_gone {A} (a : list A) i f : NoDup a -> a !! i = Some f -> f ∉ delete i a.
Proof.
  intros Hnd Hi Hin. rewrite <- (take_drop_middle a i f Hi) in Hnd. rewrite delete_take_drop in Hin.
  apply NoDup_app in Hnd as (_ & Hdis & Hnd). apply NoDup_cons in Hnd as [Hnot _].
  apply elem_of_app in Hin as [Hin|Hin]; [|done]. apply (Hdis f Hin). by left.
Qed.

Lemma delete_others {A} (a : list A) i f g : a !! i = Some f -> g ∈ a -> g <> f -> g ∈ delete i a.
Proof.
  intros Hi Hg Hne. rewrite <- (take_drop_middle a i f Hi) in Hg. rewrite delete_take_drop.
  apply elem_of_app in Hg as [Hg|[->|Hg]%elem_of_cons]; [apply elem_of_app; by left|done|apply elem_of_app; by right].
Qed.

Lemma mirrored_shrink t a a' : mirrored t a -> a' `sublist_of` a ->
  (forall r, t !! cr_id r = Some r -> has_credential_status CredentialActive r = true -> cr_fingerprint r ∈ a') -> mirrored t a'.
Proof.
  intros Hm Hs Ha. split; [apply Hm..| |exact Ha]. destruct (mir_order _ _ Hm) as (L & HL & Hsub). exists L. split; [done|by etrans].
Qed.

Lemma active_live r : has_credential_status CredentialActive r = true -> is_live r = true.
Proof. unfold has_credential_status, is_live. rewrite !bool_decide_eq_true. intros ->. by left. Qed.
Lemma live_cases r : is_live r = true ->
  has_credential_status CredentialActive r = true \/ has_credential_status CredentialRetiring r = true.
Proof.
  unfold has_credential_status, is_live. rewrite !bool_decide_eq_true. unfold LIVE_CREDENTIAL_STATUSES.
  intros [?|[?|[]%elem_of_nil]%elem_of_cons]%elem_of_cons; auto.
Qed.
Lemma not_both r : has_credential_status CredentialActive r = true -> has_credential_status CredentialRetiring r = true -> False.
Proof. unfold has_credential_status. rewrite !bool_decide_eq_true. congruence. Qed.

Lemma lost_length R n x : lost_retirement R n = Some x -> length R = S n.
Proof. unfold lost_retirement. destruct (negb _) eqn:Hq; [done|]. intros _. by apply negb_false_iff, Nat.eqb_eq in Hq. Qed.

(** One live row more than entries, and one of them retiring: it is that row's
    entry that is missing. *)
Lemma lost_is_gone t a R x : mirrored t a -> live_order t R -> lost_retirement R (length a) = Some x ->
  x ∈ R /\ has_credential_status CredentialRetiring x = true /\ cr_fingerprint x ∉ a.
Proof.
  intros Hm HR Hl. unfold lost_retirement in Hl. destruct (negb _) eqn:Hlen; [done|].
  apply negb_false_iff, Nat.eqb_eq in Hlen.
  destruct (filter _ R) as [|y [|? ?]] eqn:Hf; [done| |done]. injection Hl as ->.
  assert (Hx : x ∈ R /\ has_credential_status CredentialRetiring x = true).
  { assert (x ∈ filter (fun r => has_credential_status CredentialRetiring r = true) R) as [? ?]%list_elem_of_filter
      by (rewrite Hf; by left). done. }
  destruct Hx as [Hx Hret]. split_and!; [done..|]. intros Hin.
  destruct (mir_order _ _ Hm) as (L & HL & Hs).
  assert (Hsub : map cr_fingerprint R ⊆+ a).
  { apply NoDup_submseteq; [by eapply live_prints_distinct|]. intros f (r & -> & Hr)%list_elem_of_fmap.
    destruct (live_cases r) as [Hact|Hr']; [by apply (lo_rows _ _ HR) in Hr as []| |].
    - apply (mir_active _ _ Hm); [exact (live_lookup _ _ _ HR Hr)|done].
    - assert (r ∈ filter (fun r => has_credential_status CredentialRetiring r = true) R) as Hr2
        by (by apply list_elem_of_filter). rewrite Hf in Hr2. apply list_elem_of_singleton in Hr2 as ->. done. }
  apply submseteq_length in Hsub. rewrite length_map in Hsub. lia.
Qed.

(** Without such a row, a single live row has its entry. *)
Lemma single_is_there t a x : mirrored t a -> live_order t [x] -> lost_retirement [x] (length a) = None -> length a = 1.
Proof.
  intros Hm HR Hl. destruct (mir_order _ _ Hm) as (L & HL & Hs).
  assert (length L = 1) as HlenL by by rewrite (live_orders_permuted _ _ _ HL HR).
  pose proof (sublist_length _ _ Hs) as Hlen. rewrite length_map in Hlen.
  destruct (length a) as [|n] eqn:Hn; [|lia]. apply nil_length_inv in Hn as ->.
  assert (Hx : x ∈ [x]) by by left. apply (lo_rows _ _ HR) in Hx as [Hx Hlive].
  destruct (live_cases x Hlive) as [Hact|Hret]; [by apply (mir_active _ _ Hm) in Hact; [apply elem_of_nil in Hact|]|].
  unfold lost_retirement in Hl. simpl in Hl. rewrite filter_cons_True in Hl by done. done.
Qed.

(** Where nothing is being retired, each live row has its entry. *)
Lemma all_active_full t a R : mirrored t a -> live_order t R ->
  filter (fun r => has_credential_status CredentialRetiring r = true) R = [] -> length R = length a.
Proof.
  intros Hm HR Hnone. destruct (mir_order _ _ Hm) as (L & HL & Hs).
  apply sublist_length in Hs. rewrite length_map, (live_orders_permuted _ _ _ HL HR) in Hs.
  assert (Hsub : map cr_fingerprint R ⊆+ a).
  { apply NoDup_submseteq; [exact (live_prints_distinct _ _ _ Hm HR)|]. intros f (r & -> & Hr)%list_elem_of_fmap.
    destruct (live_cases r) as [Hact|Hret]; [by apply (lo_rows _ _ HR) in Hr as []| |].
    - apply (mir_active _ _ Hm); [exact (live_lookup _ _ _ HR Hr)|done].
    - assert (r ∈ filter (fun r => has_credential_status CredentialRetiring r = true) R) as Hr2
        by (by apply list_elem_of_filter). rewrite Hnone in Hr2. by apply elem_of_nil in Hr2. }
  apply submseteq_length in Hsub. rewrite length_map in Hsub. lia.
Qed.

(** ** A row and an entry more *)

(** A row whose key and fingerprint nothing has, with an ordinal after all others. *)
Record newest (row : CredentialRecord) (t : credential_table) : Prop := {
  nw_key : t !! cr_id row = None;
  nw_print : forall r, t !! cr_id r = Some r -> cr_fingerprint r <> cr_fingerprint row;
  nw_ordinal : exists o, cr_edge_ordinal row = Some o /\
    forall r o', t !! cr_id r = Some r -> cr_edge_ordinal r = Some o' -> (o' < o)%Z;
}.

Section Append.
Context (t : credential_table) (a : list string) (row : CredentialRecord).
Context (Hm : mirrored t a) (Hnew : newest row t) (Hlive : is_live row = true).

Lemma added_lookup r : <[cr_id row := row]> t !! cr_id r = Some r <-> r = row \/ t !! cr_id r = Some r.
Proof.
  destruct (decide (cr_id r = cr_id row)) as [He|Hne].
  - rewrite He, lookup_insert_eq, (nw_key _ _ Hnew). split; [intros [= ->]; by left|]. by intros [->|[=]].
  - rewrite lookup_insert_ne by done. split; [by right|]. by intros [->|?].
Qed.

Lemma newest_last r : t !! cr_id r = Some r -> ordinal_le r row.
Proof.
  intros Hr. destruct (nw_ordinal _ _ Hnew) as (o & Ho & Hmax). apply ordinal_le_iff. rewrite Ho.
  destruct (cr_edge_ordinal r) as [o'|] eqn:Ho'; simpl; [|done]. by rewrite (proj2 (Z.compare_lt_iff _ _) (Hmax r o' Hr Ho')).
Qed.

Lemma live_order_added L : live_order t L -> live_order (<[cr_id row := row]> t) (L ++ [row]).
Proof.
  intros HL. assert (Hin : forall r, r ∈ L -> t !! cr_id r = Some r) by (intros r; by apply live_lookup).
  split.
  - intros r. rewrite elem_of_app, list_elem_of_singleton, added_lookup, (lo_rows _ _ HL). naive_solver.
  - apply NoDup_app. split; [apply HL|]. split; [|apply NoDup_singleton].
    intros r Hr%Hin ->%list_elem_of_singleton. by rewrite (nw_key _ _ Hnew) in Hr.
  - generalize (lo_sorted _ _ HL). clear HL. induction L as [|x L IH]; simpl; intros Hs; [by repeat constructor|].
    inversion_clear Hs as [|? ? Hs' Hall]. constructor; [apply IH; [intros r Hr; apply Hin; by right|done]|].
    apply Forall_app. split; [done|]. constructor; [apply newest_last, Hin; left|constructor].
Qed.

(** The row may have its entry, and has it if it is active. *)
Lemma mirrored_append a' : a' = a \/ a' = a ++ [cr_fingerprint row] ->
  (has_credential_status CredentialActive row = true -> a' = a ++ [cr_fingerprint row]) ->
  mirrored (<[cr_id row := row]> t) a'.
Proof.
  intros Ha Hact. destruct (nw_ordinal _ _ Hnew) as (o & Ho & Hmax).
  assert (Hsub : forall f, f ∈ a -> f ∈ a') by (intros f Hf; destruct Ha as [->| ->]; [done|apply elem_of_app; by left]).
  split.
  - intros k r. destruct (decide (k = cr_id row)) as [->|Hne]; [rewrite lookup_insert_eq; by intros [= <-]|].
    rewrite lookup_insert_ne by done. apply (mir_keyed _ _ Hm).
  - intros r r' [->|Hr]%added_lookup [->|Hr']%added_lookup He; [done| | |by apply (mir_prints _ _ Hm)].
    + by destruct (nw_print _ _ Hnew r' Hr').
    + by destruct (nw_print _ _ Hnew r Hr).
  - intros r r' [->|Hr]%added_lookup [->|Hr']%added_lookup He Hsome; [done| | |by apply (mir_ordinals _ _ Hm)].
    + rewrite Ho in He. specialize (Hmax r' o Hr' (eq_sym He)). lia.
    + rewrite Ho in He. specialize (Hmax r o Hr He). lia.
  - destruct (mir_order _ _ Hm) as (L & HL & Hs). exists (L ++ [row]). split; [by apply live_order_added|].
    rewrite map_app. simpl. destruct Ha as [->| ->]; [by apply sublist_inserts_r|by apply sublist_app].
  - intros r [->|Hr]%added_lookup Hra; [rewrite (Hact Hra); apply elem_of_app; right; by left|].
    apply Hsub. by apply (mir_active _ _ Hm).
Qed.
End Append.

(** A table of rows that stand as those of [t] do. *)
Definition standing (r r' : CredentialRecord) : Prop := restatus r r' /\ cr_status r' = cr_status r.

Lemma standing_live r r' : standing r r' -> is_live r' = is_live r.
Proof. intros [_ Hs]. unfold is_live. by rewrite Hs. Qed.

Lemma mirrored_standing t a (f : CredentialRecord -> CredentialRecord) : mirrored t a -> (forall r, standing r (f r)) -> mirrored (f <$> t) a.
Proof.
  intros Hm Hf. assert (Hat : forall r, (f <$> t) !! cr_id r = Some r -> exists y, r = f y /\ t !! cr_id y = Some y).
  { intros r Hr. rewrite lookup_fmap in Hr. apply fmap_Some in Hr as (y & Hy & ->). exists y. split; [done|].
    destruct (Hf y) as [(Hi & _) _]. by rewrite <- Hi. }
  assert (Hto : forall y, t !! cr_id y = Some y -> (f <$> t) !! cr_id (f y) = Some (f y)).
  { intros y Hy. destruct (Hf y) as [(Hi & _) _]. by rewrite Hi, lookup_fmap, Hy. }
  split.
  - intros k r Hr. rewrite lookup_fmap in Hr. apply fmap_Some in Hr as (y & Hy & ->).
    destruct (Hf y) as [(Hi & _) _]. rewrite Hi. by apply (mir_keyed _ _ Hm).
  - intros r r' (y & -> & Hy)%Hat (y' & -> & Hy')%Hat He. f_equal. destruct (Hf y) as [(_ & E & _) _], (Hf y') as [(_ & E' & _) _].
    apply (mir_prints _ _ Hm); congruence.
  - intros r r' (y & -> & Hy)%Hat (y' & -> & Hy')%Hat He Hsome. f_equal.
    destruct (Hf y) as [(_ & _ & E) _], (Hf y') as [(_ & _ & E') _]. rewrite E in He, Hsome. rewrite E' in He.
    by apply (mir_ordinals _ _ Hm).
  - destruct (mir_order _ _ Hm) as (L & HL & Hs). exists (map f L). split.
    + split.
      * intros r. rewrite list_elem_of_fmap. split.
        -- intros (y & -> & [Hy Hl]%(lo_rows _ _ HL)). split; [by apply Hto|]. by rewrite (standing_live _ _ (Hf y)).
        -- intros [(y & -> & Hy)%Hat Hl]. exists y. split; [done|]. apply (lo_rows _ _ HL). split; [done|].
           by rewrite <- (standing_live _ _ (Hf y)).
      * apply NoDup_fmap_2_strong; [|apply HL]. intros x y Hx%(live_lookup _ _ _ HL) Hy%(live_lookup _ _ _ HL) He.
        destruct (Hf x) as [(Ex & _) _], (Hf y) as [(Ey & _) _]. congruence.
      * generalize (lo_sorted _ _ HL). clear -Hf. induction 1 as [|x L Hs IH Hx]; simpl; [constructor|]. constructor; [done|].
        apply Forall_fmap. eapply Forall_impl; [exact Hx|]. intros y Hxy. simpl. eapply restatus_le; [apply Hf|apply Hf|done].
    + rewrite map_map. erewrite map_ext; [exact Hs|]. intros y. apply Hf.
  - intros r (y & -> & Hy)%Hat Hact. destruct (Hf y) as [(_ & Ef & _) Es]. rewrite Ef. apply (mir_active _ _ Hm); [done|].
    unfold has_credential_status in *. by rewrite <- Es.
Qed.
