(* ===== verification/CredentialLogic.v ===== *)
(** * The program logic of the credential sections

    [run P m Q E]: run outside a transaction where [P] holds of the pair's rows
    and the array the gateway keeps, beside others that leave both alone (they do
    not hold the consumer's key), [m] ends where [Q] of its answer holds, or [E] of
    what it throws. [txr] is the same for the body of a transaction, which does
    not touch the gateway. *)

From S2P Require Import Prelude Json Roles Leases Users AuditLog AccessTables CredentialTables World AccessStore LeaseFence KeyedSerializer Provisioner CredentialStore Credentials CredentialMirror.
Open Scope Z_scope.

Section Logic.
Context (env : nat -> turn) (cid : string) (ty : CredentialType) (held : list event -> list string).

Definition pair_rows (d : db) : credential_table := filter (fun '(_, r) => of_pair cid ty r = true) (d_credentials d).

Context (Hrivals : forall n d, pair_rows (t_rivals (env n) d) = pair_rows d).

Abbreviation pair_pred := (credential_table -> list string -> Prop).

Definition at_pair (P : pair_pred) (w : world) : Prop := P (pair_rows (w_db w)) (held (w_trace w)).

Definition run {A} (P : pair_pred) (m : M A) (Q : A -> pair_pred) (E : exn -> pair_pred) : Prop := forall w,
  w_env w = env -> w_tx w = false -> at_pair P w ->
  w_env (m w).2 = env /\ w_tx (m w).2 = false /\
  match (m w).1 with Ok x => at_pair (Q x) (m w).2 | Throw e => at_pair (E e) (m w).2 end.

Definition txr {A} (P : credential_table -> Prop) (m : M A) (Q : A -> credential_table -> Prop) : Prop := forall w,
  w_env w = env -> w_tx w = true -> P (pair_rows (w_db w)) ->
  w_env (m w).2 = env /\ w_tx (m w).2 = true /\ w_trace (m w).2 = w_trace w /\
  forall x, (m w).1 = Ok x -> Q x (pair_rows (w_db (m w).2)).

(** *** The monad's combinators *)

Lemma run_conseq {A} (P P' : pair_pred) (Q Q' : A -> pair_pred) (E E' : exn -> pair_pred) m :
  run P m Q E -> (forall t a, P' t a -> P t a) -> (forall x t a, Q x t a -> Q' x t a) ->
  (forall e t a, E e t a -> E' e t a) -> run P' m Q' E'.
Proof.
  intros Hm HP HQ HE w He Ht Hp. destruct (Hm w He Ht (HP _ _ Hp)) as (? & ? & Hr).
  split_and!; [done..|]. destruct (m w).1; [by apply HQ|by apply HE].
Qed.

Lemma run_pre {A} (P P' : pair_pred) (Q : A -> pair_pred) (E : exn -> pair_pred) m :
  run P m Q E -> (forall t a, P' t a -> P t a) -> run P' m Q E.
Proof. intros Hm HP. by eapply run_conseq. Qed.

Lemma run_err {A} (P : pair_pred) (Q : A -> pair_pred) (E E' : exn -> pair_pred) m :
  run P m Q E -> (forall e t a, E e t a -> E' e t a) -> run P m Q E'.
Proof. intros Hm HE. by eapply run_conseq. Qed.

Lemma run_pure {A} (phi : Prop) (P : pair_pred) (Q : A -> pair_pred) E m :
  (forall t a, P t a -> phi) -> (phi -> run P m Q E) -> run P m Q E.
Proof. intros Hphi Hm w He Ht Hp. apply Hm; [|done..]. by eapply Hphi. Qed.

(** What a precondition holds of may be fixed. *)
Lemma run_fix {A} (P : pair_pred) (Q : A -> pair_pred) E m :
  (forall t a, P t a -> run (fun t' a' => t' = t /\ a' = a) m Q E) -> run P m Q E.
Proof. intros Hm w He Ht Hp. by apply (Hm _ _ Hp w He Ht). Qed.

Lemma run_ret {A} (P : pair_pred) (Q : A -> pair_pred) E x : (forall t a, P t a -> Q x t a) -> run P (mret x) Q E.
Proof. intros HQ w He Ht Hp. split_and!; [done..|by apply HQ]. Qed.

Lemma run_throw {A} (P : pair_pred) (Q : A -> pair_pred) (E : exn -> pair_pred) e :
  (forall t a, P t a -> E e t a) -> run P (mthrow e) Q E.
Proof. intros HE w He Ht Hp. split_and!; [done..|by apply HE]. Qed.

Lemma run_bind {A B} (P : pair_pred) (R : A -> pair_pred) (Q : B -> pair_pred) E m k :
  run P m R E -> (forall x, run (R x) (k x) Q E) -> run P (mbind m k) Q E.
Proof.
  intros Hm Hk w He Ht Hp. destruct (Hm w He Ht Hp) as (He1 & Ht1 & Hr). unfold mbind.
  destruct (m w) as [[x|e] w1]; simpl in *; [by apply Hk|by split_and!].
Qed.

Lemma run_skip {A B} (P : pair_pred) (Q : B -> pair_pred) (E : exn -> pair_pred) (m : M A) k :
  run P m (fun _ => P) (fun _ => P) -> (forall e t a, P t a -> E e t a) -> (forall x, run P (k x) Q E) -> run P (mbind m k) Q E.
Proof.
  intros Hm HE Hk. eapply run_bind; [|exact Hk]. eapply run_conseq; [exact Hm|done..|]. intros e t a Hp. by apply HE.
Qed.

Lemma run_catch {A} (P : pair_pred) (Q : A -> pair_pred) (E F : exn -> pair_pred) m h :
  run P m Q F -> (forall e, run (F e) (h e) Q E) -> run P (mcatch m h) Q E.
Proof.
  intros Hm Hh w He Ht Hp. destruct (Hm w He Ht Hp) as (He1 & Ht1 & Hr). unfold mcatch.
  destruct (m w) as [[x|e] w1]; simpl in *; [by split_and!|by apply Hh].
Qed.

Lemma run_attempt {A} (P : pair_pred) (Q : A -> pair_pred) (F : exn -> pair_pred) E m :
  run P m Q F -> run P (mattempt m) (fun r => match r with Ok x => Q x | Throw e => F e end) E.
Proof.
  intros Hm w He Ht Hp. destruct (Hm w He Ht Hp) as (He1 & Ht1 & Hr). unfold mattempt.
  destruct (m w) as [[x|e] w1]; simpl in *; by split_and!.
Qed.

Lemma run_checked {A} (P : pair_pred) (Q : A -> pair_pred) (E : exn -> pair_pred) r :
  (forall x t a, r = Ok x -> P t a -> Q x t a) -> (forall e t a, r = Throw e -> P t a -> E e t a) -> run P (checked r) Q E.
Proof. intros HQ HE. destruct r as [x|e]; [apply run_ret|apply run_throw]; auto. Qed.

Lemma run_ensure (P : pair_pred) (E : exn -> pair_pred) c e :
  (forall t a, P t a -> E e t a) -> run P (ensure c e) (fun _ => P) E.
Proof. intros HE. destruct c; [by apply run_ret|by apply run_throw]. Qed.

Lemma run_found {A} (P : pair_pred) (E : exn -> pair_pred) (x : option A) e :
  (forall t a, P t a -> E e t a) -> run P (found x e) (fun y t a => x = Some y /\ P t a) E.
Proof. intros HE. destruct x; [by apply run_ret|by apply run_throw]. Qed.

(** Nothing the logic looks at changes. *)
Definition still {A} (m : M A) : Prop := forall P, run P m (fun _ => P) (fun _ => P).

Lemma run_still {A} (P : pair_pred) (E : exn -> pair_pred) (m : M A) :
  still m -> (forall e t a, P t a -> E e t a) -> run P m (fun _ => P) E.
Proof. intros Hm HE. eapply run_conseq; [apply (Hm P)|done..|]. intros e t a Hp. by apply HE. Qed.

(** *** Statements *)

(** What a statement that answers did to the pair's rows. *)
Definition does {A} (f : turn -> db -> res exn (A * db)) (R : credential_table -> A -> credential_table -> Prop) : Prop :=
  forall n d x d', f (env n) d = Ok (x, d') -> R (pair_rows d) x (pair_rows d').

Lemma run_statement {A} (P : pair_pred) (Q : A -> pair_pred) E (f : turn -> db -> res exn (A * db)) R :
  does f R -> (forall x t t' a, P t a -> R t x t' -> Q x t' a) -> (forall e t a, P t a -> E e t a) -> run P (statement f) Q E.
Proof.
  intros Hf HQ HE w He Ht Hp. unfold statement, cur, at_pair in *. rewrite Ht, He.
  rewrite <- (Hrivals (w_turn w)) in Hp. destruct (t_fault _); [split_and!; [done..|by apply HE]|].
  destruct (f _ _) as [[x d']|e] eqn:Hfd; (split_and!; simpl; [done..|]); [|by apply HE].
  eapply HQ; [exact Hp|by eapply Hf].
Qed.

Lemma txr_statement {A} P (Q : A -> credential_table -> Prop) (f : turn -> db -> res exn (A * db)) R :
  does f R -> (forall x t t', P t -> R t x t' -> Q x t') -> txr P (statement f) Q.
Proof.
  intros Hf HQ w He Ht Hp. unfold statement, cur. rewrite Ht, He.
  destruct (t_fault _); [split_and!; [done..|]; by intros x [=]|].
  destruct (f _ _) as [[x d']|e] eqn:Hfd; (split_and!; simpl; [done..|]); [|by intros y [=]].
  intros y [= <-]. eapply HQ; [exact Hp|by eapply Hf].
Qed.

Definition untouched {A} (f : turn -> db -> res exn (A * db)) : Prop := does f (fun t _ t' => t' = t).

Lemma still_statement {A} (f : turn -> db -> res exn (A * db)) : untouched f -> still (statement f).
Proof. intros Hf P. eapply run_statement; [exact Hf| |done]. by intros x t t' a Hp ->. Qed.
Lemma still_read {A} (f : db -> A) : still (read f).
Proof. apply still_statement. by intros n d x d' [= _ <-]. Qed.
Lemma still_ret {A} (x : A) : still (mret x).
Proof. intros P. by apply run_ret. Qed.
Lemma still_throw {A} e : still (A := A) (mthrow e).
Proof. intros P. by apply run_throw. Qed.
Lemma still_bind {A B} (m : M A) (k : A -> M B) : still m -> (forall x, still (k x)) -> still (mbind m k).
Proof. intros Hm Hk P. apply run_skip; [apply Hm|done|]. intros x. apply Hk. Qed.
Lemma still_catch {A} (m : M A) h : still m -> (forall e, still (h e)) -> still (mcatch m h).
Proof. intros Hm Hh P. eapply run_catch; [apply Hm|]. intros e. apply Hh. Qed.
Lemma still_date_now : still date_now.
Proof. intros P w He Ht Hp. by split_and!. Qed.
Lemma still_math_random : still math_random.
Proof. intros P w He Ht Hp. by split_and!. Qed.
Lemma still_randomNonce : still randomNonce.
Proof. intros P w He Ht Hp. by split_and!. Qed.
Lemma still_randomUUID : still randomUUID.
Proof. intros P w He Ht Hp. by split_and!. Qed.
Lemma still_await_turn {A} (f : turn -> A) : still (await_turn f).
Proof.
  intros P w He Ht Hp. unfold await_turn, at_pair, cur in *. simpl. rewrite Ht, He. split_and!; [done..|]. by rewrite Hrivals.
Qed.
Lemma still_ignore {A} (m : M A) : still m -> still (ignore_errors m).
Proof. intros Hm. apply still_catch; [apply still_bind; [done|]|]; intros; apply still_ret. Qed.

(** *** Transactions *)

Lemma txr_conseq {A} (P P' : credential_table -> Prop) (Q Q' : A -> credential_table -> Prop) m :
  txr P m Q -> (forall t, P' t -> P t) -> (forall x t, Q x t -> Q' x t) -> txr P' m Q'.
Proof. intros Hm HP HQ w He Ht Hp. destruct (Hm w He Ht (HP _ Hp)) as (? & ? & ? & Hr). split_and!; [done..|]. auto. Qed.
Lemma txr_ret {A} P (Q : A -> credential_table -> Prop) x : (forall t, P t -> Q x t) -> txr P (mret x) Q.
Proof. intros HQ w He Ht Hp. split_and!; [done..|]. intros y [= <-]. by apply HQ. Qed.
Lemma txr_throw {A} P (Q : A -> credential_table -> Prop) e : txr P (mthrow e) Q.
Proof. intros w He Ht Hp. split_and!; [done..|]. by intros y [=]. Qed.
Lemma txr_bind {A B} P R (Q : B -> credential_table -> Prop) (m : M A) k :
  txr P m R -> (forall x, txr (R x) (k x) Q) -> txr P (mbind m k) Q.
Proof.
  intros Hm Hk w He Ht Hp. destruct (Hm w He Ht Hp) as (He1 & Ht1 & Htr & Hr). unfold mbind.
  destruct (m w) as [[x|e] w1]; simpl in *; [|split_and!; [done..|]; by intros y [=]].
  destruct (Hk x w1 He1 Ht1 (Hr x eq_refl)) as (? & ? & ? & ?). split_and!; [done..|congruence|done].
Qed.
Lemma txr_pure {A} (phi : Prop) P (Q : A -> credential_table -> Prop) m : (forall t, P t -> phi) -> (phi -> txr P m Q) -> txr P m Q.
Proof. intros Hphi Hm w He Ht Hp. apply Hm; [|done..]. by eapply Hphi. Qed.
Lemma txr_untouched {A} P (f : turn -> db -> res exn (A * db)) : untouched f -> txr P (statement f) (fun _ => P).
Proof. intros Hf. eapply txr_statement; [exact Hf|]. by intros x t t' Hp ->. Qed.

Lemma txr_commit {A} (x : A) P fences : txr P (do_ assertLeaseFences fences; mret x) (fun y t => y = x /\ P t).
Proof.
  eapply txr_bind with (R := fun _ => P); [|intros; apply txr_ret; by split].
  induction fences as [|f fs IH]; simpl; [by apply txr_ret|].
  eapply txr_bind; [apply (txr_untouched P)|intros []; [exact IH|apply txr_throw]]. by intros n d y d' [= _ <-].
Qed.

(** A body that throws, a fence that refuses or a commit that fails leaves what
    was there; the gateway is not called. *)
Lemma run_transaction {A} (P : pair_pred) (Q : A -> pair_pred) (E : exn -> pair_pred) body :
  (forall t a, P t a -> txr (fun t' => t' = t) body (fun x t' => Q x t' a)) ->
  (forall e t a, P t a -> E e t a) -> run P (transaction body) Q E.
Proof.
  intros Hbody HE w He Ht Hp. unfold transaction. rewrite Ht. unfold at_pair in Hp.
  set (t0 := pair_rows (w_db w)) in *. set (a0 := held (w_trace w)) in *.
  set (d0 := t_rivals (cur w) (w_db w)). set (w0 := set_db d0 (advance w)).
  assert (Hd0 : pair_rows d0 = t0) by (subst d0 t0; unfold cur; by rewrite He, Hrivals).
  assert (Hbegin : statement_ok (fun _ d => (tt, d)) w
            = (match t_fault (cur w) with Some message => Throw (driverError message) | None => Ok tt end, w0)).
  { unfold statement_ok, statement. rewrite Ht. by destruct (t_fault (cur w)). }
  rewrite Hbegin. destruct (t_fault (cur w)).
  { split_and!; [done..|]. apply HE. unfold w0. simpl. by rewrite Hd0. }
  set (whole := (do result <- _; do_ _; mret result)).
  assert (Hwhole : txr (fun t' => t' = t0) whole (fun x t' => Q x t' a0)).
  { subst whole. eapply txr_bind with (R := fun x t' => Q x t' a0).
    - unfold fenceTransactionBody. destruct (heldLeaseFences _) as [|g gs]; [by apply Hbody|].
      eapply txr_bind; [by apply Hbody|]. intros x. eapply txr_conseq; [apply (txr_commit x (fun t' => Q x t' a0))|done|]. by intros y t [-> ?].
    - intros x. eapply txr_bind; [apply txr_untouched|intros []; by apply txr_ret]. by intros n d y d' [= _ <-]. }
  destruct (Hwhole (set_tx true w0) He eq_refl Hd0) as (He1 & Ht1 & Htr & Hq).
  destruct (whole (set_tx true w0)) as [[x|e] w1]; simpl in *; (split_and!; [done..|]).
  - unfold at_pair. simpl. rewrite Htr. by apply Hq.
  - unfold at_pair. simpl. rewrite Htr, Hd0. by apply HE.
Qed.

(** *** Sections under a lease *)

Lemma still_takeLease o fuel key token : still (takeLease o fuel key token).
Proof.
  unfold takeLease. apply still_bind; [apply still_date_now|]. intros now. generalize (now + waitMs o). intros deadline.
  induction fuel as [|fuel IH]; simpl; [apply still_ret|].
  apply still_bind; [apply still_date_now|]. intros now'. apply still_bind.
  { apply still_statement. intros n d x d' Hf. destruct (assertLeaseKeyLength key); [|done].
    destruct (lease_acquire _ _ _ _ _ _). by injection Hf as _ <-. }
  intros []; [apply still_ret|]. apply still_bind; [apply still_date_now|]. intros later.
  case_bool_decide; [apply still_throw|]. apply still_bind; [apply still_math_random|]. intros r.
  apply still_bind; [apply still_await_turn|]. intros _. apply IH.
Qed.

Lemma run_finally {A} (P : pair_pred) (Q : A -> pair_pred) (E : exn -> pair_pred) m f :
  run P m Q E -> still f -> never_throws f -> run P (mfinally m f) Q E.
Proof.
  intros Hm Hf Hn w He Ht Hp. destruct (Hm w He Ht Hp) as (He1 & Ht1 & Hr). unfold mfinally.
  destruct (m w) as [r w1]. simpl in *. destruct (Hn w1) as (u & w2 & Hu).
  destruct r as [x|e].
  - pose proof (Hf (Q x) w1 He1 Ht1 Hr) as (? & ? & ?). rewrite Hu in *. by split_and!.
  - pose proof (Hf (E e) w1 He1 Ht1 Hr) as (? & ? & ?). rewrite Hu in *. by split_and!.
Qed.

Lemma run_holdingLease {A} (P : pair_pred) (Q : A -> pair_pred) (E : exn -> pair_pred) key token m :
  run P m Q E -> run P (holdingLease key token m) Q E.
Proof.
  intros Hm w He Ht Hp. unfold holdingLease, in_context.
  destruct (Hm (set_held (w_held w ++ [{| hl_key := key; hl_token := token; hl_live := true |}]) w) He Ht Hp) as (He1 & Ht1 & Hr).
  destruct (m _) as [r w1]. by split_and!.
Qed.

Lemma run_locks {A} (P : pair_pred) (Q : A -> pair_pred) (E : exn -> pair_pred) key m :
  run P m Q E -> (forall e t a, P t a -> E e t a) -> run P (locks key m) Q E.
Proof.
  intros Hm HE. unfold locks. eapply run_bind with (R := fun r => match r with Some x => Q x | None => P end).
  2: { intros [x|]; [by apply run_ret|apply run_throw, HE]. }
  unfold underLease. apply run_skip; [apply still_randomUUID|done|]. intros token.
  apply run_skip; [apply still_takeLease|done|]. intros []; [|by apply run_ret].
  apply run_finally.
  - eapply run_bind; [by apply run_holdingLease|]. intros x. by apply run_ret.
  - apply still_catch; [|intros; apply still_ret]. apply still_bind; [|intros; apply still_ret].
    apply still_statement. intros n d x d' Hf. destruct (lease_release _ _ _). by injection Hf as _ <-.
  - apply never_throws_catch. intros. apply never_throws_ret.
Qed.
End Logic.
