(* ===== verification/CredentialStatements.v ===== *)
(** * What the statements do to a pair's rows

    The strongest posts of the repository calls on the rows of one consumer and
    type, and what the gateway promises of the array it keeps for them. Then the
    repair of a row or an entry a lost answer left. *)

From S2P Require Import Prelude Json Roles Users AuditLog AccessTables CredentialTables World AccessStore LeaseFence KeyedSerializer Provisioner AccountRecovery CredentialStore Credentials CredentialIssue CredentialMirror CredentialLogic.
Open Scope Z_scope.

(** [r'] is [r] after an update of its status to [s]. *)
Definition updated_to (s : CredentialStatus) (r r' : CredentialRecord) : Prop :=
  exists at_, r' = credentialUpdateColumns (credential_status_patch s) at_ r.

Lemma updated_restatus s r r' : updated_to s r r' -> restatus r r'.
Proof. by intros [at_ ->]. Qed.
Lemma updated_status s r r' : updated_to s r r' -> cr_status r' = s.
Proof. by intros [at_ ->]. Qed.

Section Pair.
Context (env : nat -> turn) (cid : string) (ty : CredentialType).
Abbreviation pair := (pair_rows cid ty).

Lemma pair_lookup d k r : pair d !! k = Some r <-> d_credentials d !! k = Some r /\ of_pair cid ty r = true.
Proof. unfold pair_rows. apply map_lookup_filter_Some. Qed.

Lemma pair_insert d k r : of_pair cid ty r = true -> pair (with_credentials (<[k := r]> (d_credentials d)) d) = <[k := r]> (pair d).
Proof. intros Hr. unfold pair_rows. simpl. by apply map_filter_insert_True. Qed.

Lemma updated_pair s r r' : updated_to s r r' -> of_pair cid ty r' = of_pair cid ty r.
Proof. by intros [at_ ->]. Qed.

(** *** Reads *)

Lemma does_find id : does env cid ty (fun _ d => Ok (credentials_findById id (d_credentials d), d))
  (fun t x t' => t' = t /\ forall r, t !! id = Some r -> x = Some r /\ of_pair cid ty r = true).
Proof. intros n d x d' [= <- <-]. split; [done|]. by intros r [? ?]%pair_lookup. Qed.

Lemma keyed_rows_distinct (t : credential_table) p : (forall k r, t !! k = Some r -> p r = true -> cr_id r = k) -> NoDup (rows_where p t).
Proof.
  intros Hk. unfold rows_where. apply NoDup_fmap_2_strong; [|apply NoDup_filter, NoDup_map_to_list].
  intros [k r] [k' r'] [Hp Hin]%list_elem_of_filter [Hp' Hin']%list_elem_of_filter He. simpl in *. subst r'.
  apply elem_of_map_to_list in Hin, Hin'. f_equal. by rewrite <- (Hk k r), <- (Hk k' r).
Qed.

Definition of_consumer_live (r : CredentialRecord) : bool :=
  bool_decide (cr_ferrum_consumer_id r = cid) && asked (Some ty) (fun x => bool_decide (cr_credential_type r = x))
  && asked (Some LIVE_CREDENTIAL_STATUSES) (fun l => bool_decide (cr_status r ∈ l)).

Lemma of_consumer_live_eq r : of_consumer_live r = of_pair cid ty r && is_live r.
Proof. done. Qed.

Lemma listed_order d : keyed cr_id (pair d) ->
  live_order (pair d) (sort_by ordinal_order (filter (fun r => is_live r = true)
    (credentials_listByConsumer cid (Some ty) (Some LIVE_CREDENTIAL_STATUSES) (d_credentials d)))).
Proof.
  intros Hk. unfold credentials_listByConsumer. change (fun r => _ && _ && _) with of_consumer_live.
  assert (Hin : forall r, r ∈ rows_where of_consumer_live (d_credentials d) <-> pair d !! cr_id r = Some r /\ is_live r = true).
  { intros r. rewrite rows_where_spec. split.
    - intros (k & Hr & [Hp Hl]%andb_true_iff). assert (Hr' : pair d !! k = Some r) by by apply pair_lookup.
      split; [|done]. by rewrite (Hk _ _ Hr').
    - intros [[Hr Hp]%pair_lookup Hl]. exists (cr_id r). split; [done|]. by rewrite of_consumer_live_eq, Hp. }
  split.
  - intros r. rewrite sort_by_perm, list_elem_of_filter, sort_by_perm, Hin. tauto.
  - rewrite sort_by_perm. apply NoDup_filter. rewrite sort_by_perm. apply keyed_rows_distinct.
    intros k r Hr [Hp Hl]%andb_true_iff. apply (Hk k r). by apply pair_lookup.
  - apply sort_by_sorted; [apply ordinal_le_total|apply ordinal_le_trans].
Qed.

(** *** Writes *)

Lemma pair_write d r r' s : pair d !! cr_id r = Some r -> updated_to s r r' ->
  pair (put_credentials (<[cr_id r := r']> (d_credentials d)) d) = <[cr_id r := r']> (pair d).
Proof. intros [_ Hp]%pair_lookup Hu. apply pair_insert. by rewrite (updated_pair s r). Qed.

Lemma does_update id s : does env cid ty
    (fun t d => match credentials_update id (credential_status_patch s) (t_now t) (d_credentials d) with
                | Ok (r, rows) => Ok (r, put_credentials rows d) | Throw e => Throw e end)
    (fun t x t' => forall r, t !! id = Some r -> cr_id r = id -> exists r', updated_to s r r' /\ x = Some r' /\ t' = <[id := r']> t).
Proof.
  intros n d x d' Hf r Hr Hid. apply pair_lookup in Hr as Hd. destruct Hd as [Hd _].
  unfold credentials_update in Hf. rewrite Hd in Hf. simpl in Hf. injection Hf as <- <-.
  eexists. split; [by eexists|]. split; [done|]. rewrite <- Hid in *. eapply pair_write; [done|by eexists].
Qed.

Lemma does_updateIfStatus id expected s : does env cid ty
    (fun t d => match credentials_updateIfStatus id expected (credential_status_patch s) (t_now t) (d_credentials d) with
                | Ok (r, rows) => Ok (r, put_credentials rows d) | Throw e => Throw e end)
    (fun t x t' => forall r, t !! id = Some r -> cr_id r = id ->
       if has_credential_status expected r then exists r', updated_to s r r' /\ x = Some r' /\ t' = <[id := r']> t
       else x = None /\ t' = t).
Proof.
  intros n d x d' Hf r Hr Hid. apply pair_lookup in Hr as Hd. destruct Hd as [Hd _].
  unfold credentials_updateIfStatus in Hf. rewrite Hd in Hf.
  destruct (has_credential_status expected r); [|by injection Hf as <- <-]. simpl in Hf. injection Hf as <- <-.
  eexists. split; [by eexists|]. split; [done|]. rewrite <- Hid in *. eapply pair_write; [done|by eexists].
Qed.

Lemma untouched_audit actor action target details ip id :
  untouched env cid ty (fun t d =>
    match auditLogs_create (audit_row actor action target details ip id (t_ids t 0) (t_now t)) (d_audit d) with
    | Ok (row, rows) => Ok (row, with_audit rows d) | Throw e => Throw e end).
Proof. intros n d x d' Hf. destruct (auditLogs_create _ _) as [[row rows]|e]; [|done]. by injection Hf as _ <-. Qed.

Lemma untouched_read {A} (f : db -> A) : untouched env cid ty (fun _ d => Ok (f d, d)).
Proof. by intros n d x d' [= _ <-]. Qed.
(** *** A new row *)

Lemma fold_max_ge l o x : (x <= o \/ x ∈ l)%Z -> (x <= fold_left Z.max l o)%Z.
Proof.
  revert o. induction l as [|y l IH]; simpl; intros o; [by intros [?|?%elem_of_nil]|].
  intros [Hx|Hx]; [apply IH; left; lia|]. apply elem_of_cons in Hx as [->|Hx]; apply IH; [left; lia|by right].
Qed.

Lemma next_ordinal_above d r o : of_pair cid ty r = true -> d !! cr_id r = Some r -> cr_edge_ordinal r = Some o ->
  (o < next_ordinal cid ty d)%Z.
Proof.
  intros Hp Hr Ho. assert (Hin : o ∈ omap cr_edge_ordinal (rows_where (of_pair cid ty) d)).
  { apply list_elem_of_omap. exists r. split; [|done]. apply rows_where_spec. by exists (cr_id r). }
  unfold next_ordinal. destruct (omap _ _) as [|x rest]; [by apply elem_of_nil in Hin|].
  apply elem_of_cons in Hin. assert (o <= fold_left Z.max rest x)%Z; [|lia].
  apply fold_max_ge. destruct Hin as [->|?]; [left; lia|by right].
Qed.

Lemma credentials_created refs row d r d' : credentials_create refs None row d = Ok (r, d') -> of_pair cid ty row = true ->
  d' = <[cr_id r := r]> d /\ of_pair cid ty r = true /\ cr_fingerprint r = cr_fingerprint row /\ cr_status r = cr_status row
  /\ cr_user_id r = cr_user_id row /\ cr_id r = cr_id row
  /\ d !! cr_id r = None /\ (forall k x, d !! k = Some x -> cr_fingerprint x <> cr_fingerprint r)
  /\ cr_edge_ordinal r = Some (next_ordinal cid ty d).
Proof.
  intros Hc Hp. unfold of_pair in Hp. apply andb_true_iff in Hp as [Hcid%bool_decide_eq_true Hty%bool_decide_eq_true].
  unfold credentials_create, map_conflict in Hc. set (x := {| cr_id := _ |}) in Hc.
  destruct (negb (negb (credential_clash x d))) eqn:Hu; [done|]. destruct (negb (credential_refs refs x d)); [done|].
  injection Hc as <- <-. apply negb_false_iff, negb_true_iff, orb_false_iff in Hu as [Hk%bool_decide_eq_false Hnone%bool_decide_eq_false].
  apply dec_stable in Hnone. simpl in *. rewrite Hcid, Hty in *. split_and!; try done.
  - unfold of_pair. simpl. by rewrite !bool_decide_eq_true_2.
  - by apply eq_None_not_Some.
  - intros k y Hx He. assert (y ∈ (@nil CredentialRecord)) as Hin; [|by apply elem_of_nil in Hin]. rewrite <- Hnone.
    apply rows_where_spec. exists k. split; [done|]. apply orb_true_iff. right. unfold fingerprint_taken. simpl.
    by apply bool_decide_eq_true.
Qed.

(** What is known of a row that was created. *)
Record created_from (row : string -> Z -> CredentialRecord) (t : credential_table) (r : CredentialRecord) : Prop := {
  cf_row : exists id now, cr_fingerprint r = cr_fingerprint (row id now) /\ cr_status r = cr_status (row id now)
             /\ cr_user_id r = cr_user_id (row id now);
  cf_newest : newest r t;
}.

Lemma does_create row : (forall id now, of_pair cid ty (row id now) = true) ->
  does env cid ty (fun t d => match credentials_create (refs_of d) None (row (t_ids t 0%nat) (t_now t)) (d_credentials d) with
                              | Ok (r, rows) => Ok (r, put_credentials rows d) | Throw e => Throw e end)
    (fun t r t' => keyed cr_id t -> created_from row t r /\ t' = <[cr_id r := r]> t).
Proof.
  intros Hrow n d r d' Hf Hkeyed. set (id := t_ids _ _) in Hf. set (now := t_now _) in Hf.
  destruct (credentials_create _ _ _ _) as [[r' rows]|e] eqn:Hc; [|done]. injection Hf as -> <-.
  destruct (credentials_created _ _ _ _ _ Hc (Hrow id now)) as (-> & Hp & Hf & Hs & Hu & Hi & Hk & Hpr & Ho).
  split; [split; [by exists id, now|]|by apply pair_insert]. split.
  - apply eq_None_not_Some. intros [x [Hx _]%pair_lookup]. congruence.
  - intros x [Hx _]%pair_lookup. by eapply Hpr.
  - eexists. split; [exact Ho|]. intros x o [Hx Hxp]%pair_lookup Hxo. by eapply next_ordinal_above.
Qed.

Lemma unlink_standing id r : standing r (unlink_rotation id r).
Proof. unfold unlink_rotation. by case_bool_decide. Qed.

Lemma unlink_pair id r : of_pair cid ty (unlink_rotation id r) = of_pair cid ty r.
Proof. unfold unlink_rotation. by case_bool_decide. Qed.

Lemma does_delete id : does env cid ty
    (fun _ d => Ok (let '(rows, ok) := credentials_delete id (d_credentials d) in (ok, put_credentials rows d)))
    (fun t ok t' => t' = t /\ t !! id = None \/ t' = unlink_rotation id <$> delete id t).
Proof.
  intros n d ok d' Hf. unfold credentials_delete in Hf. destruct (d_credentials d !! id) as [r|] eqn:Hr.
  - injection Hf as _ <-. right. apply map_eq. intros k. unfold pair_rows. simpl.
    rewrite map_lookup_filter, !lookup_fmap. destruct (decide (k = id)) as [->|Hne].
    + by rewrite !lookup_delete_eq.
    + rewrite !lookup_delete_ne, map_lookup_filter by done. destruct (d_credentials d !! k) as [x|]; [|done]. simpl.
      case_guard as Hg; case_guard as Hg'; [done|exfalso|exfalso|done]; rewrite unlink_pair in Hg; done.
  - injection Hf as _ <-. left. split; [done|]. apply eq_None_not_Some. intros [x [Hx _]%pair_lookup]. congruence.
Qed.
End Pair.

(** ** The gateway

    What the service relies on of the credentials the gateway keeps for a
    consumer: [GET] shows an array as long as the one that is there, a visible
    material is the entry's own, and a confirmed absence takes all with it;
    [POST] appends; [DELETE] takes the entry at an index, or all. A call that
    throws has been applied or has not; a definite refusal has not. [held] is the
    array, as fingerprints, after what left the process. *)
Definition shows `{CredentialDeps} (ty : CredentialType) (c : EdgeConsumer) (a : list string) : Prop :=
  ty <> basicauth ->
  length (default [] (array_entries (ec_credentials c) ty)) = length a
  /\ forall i entry m, default [] (array_entries (ec_credentials c) ty) !! i = Some entry ->
       credentialMaterial entry ty = Some m -> a !! i = Some (fingerprint m).

Class GatewayArray `{EdgeClient} `{CredentialDeps} (env : nat -> turn) (cid : string) (ty : CredentialType)
    (held : list event -> list string) : Prop := {
  array_get : forall P confirm, run env cid ty held P (edge_get cid confirm)
    (fun found t a => P t a /\ match found with Some c => shows ty c a | None => confirm = true -> a = [] end) (fun _ => P);
  array_add : forall P entry m subject, credentialMaterial entry ty = Some m ->
    run env cid ty held P (edge_addCredential cid ty entry subject)
      (fun _ t a => exists a0, P t a0 /\ a = a0 ++ [fingerprint m])
      (fun e t a => P t a \/ definitely_refused e = false /\ exists a0, P t a0 /\ a = a0 ++ [fingerprint m]);
  array_deleteAt : forall P i subject, run env cid ty held P (edge_deleteCredentialAt cid ty i subject)
    (fun _ t a => exists a0, P t a0 /\ a = delete i a0)
    (fun _ t a => exists a0, P t a0 /\ (a = a0 \/ a = delete i a0));
  array_clear : forall P subject, run env cid ty held P (edge_deleteCredentialType cid ty subject)
    (fun _ t a => exists a0, P t a0 /\ a = [])
    (fun _ t a => exists a0, P t a0 /\ (a = a0 \/ a = []));
}.

(** ** Reads, writes and the repair, in the logic

    The repository calls of the service as rules on a pair's rows, the list of the
    live rows, and the repair of a lost acknowledgement ([settleLostRetirement]):
    it revokes only a row whose entry is gone. *)

Section Repair.
Context `{EdgeClient} `{CredentialDeps} (env : nat -> turn) (cid : string) (ty : CredentialType) (held : list event -> list string).
Abbreviation pair := (pair_rows cid ty).
Context (Hrivals : forall n d, pair (t_rivals (env n) d) = pair d).
Abbreviation run := (run env cid ty held).
Abbreviation txr := (txr env cid ty).

Lemma txr_find id P : txr P (credential_find id) (fun x t => P t /\ forall r, t !! id = Some r -> x = Some r /\ of_pair cid ty r = true).
Proof. eapply txr_statement; [apply does_find|]. intros x t t' Hp [-> Hx]. by split. Qed.
Lemma txr_audit actor action on details ip P : txr P (audit_record actor action on details ip) (fun _ => P).
Proof. apply txr_untouched, untouched_audit. Qed.
Lemma txr_audit_as id actor action on details ip P : txr P (audit_record_as id actor action on details ip) (fun _ => P).
Proof. apply txr_untouched, untouched_audit. Qed.

Lemma txr_update r s t : t !! cr_id r = Some r ->
  txr (fun t' => t' = t) (credential_update (cr_id r) s) (fun _ t' => exists r', updated_to s r r' /\ t' = <[cr_id r := r']> t).
Proof.
  intros Hr. eapply txr_statement; [apply does_update|]. intros x t1 t' -> Hf.
  destruct (Hf r Hr eq_refl) as (r' & ? & _ & ->). eauto.
Qed.
Lemma txr_updateIfStatus r expected s t : t !! cr_id r = Some r ->
  txr (fun t' => t' = t) (credential_updateIfStatus (cr_id r) expected s)
    (fun x t' => if has_credential_status expected r then exists r', updated_to s r r' /\ x = Some r' /\ t' = <[cr_id r := r']> t
                 else x = None /\ t' = t).
Proof. intros Hr. eapply txr_statement; [apply does_updateIfStatus|]. intros x t1 t' -> Hf. by apply Hf. Qed.

Lemma run_find id (P : credential_table -> list string -> Prop) : (forall t a, P t a -> is_Some (t !! id)) ->
  run P (credential_find id)
    (fun x t a => exists r, x = Some r /\ t !! id = Some r /\ of_pair cid ty r = true /\ P t a) (fun _ => P).
Proof.
  intros Hsome. eapply run_statement; [done|apply does_find| |done]. intros x t t' a Hp [-> Hx].
  destruct (Hsome _ _ Hp) as [r Hr]. destruct (Hx r Hr) as [-> ?]. by exists r.
Qed.

Lemma run_liveRows (P : credential_table -> list string -> Prop) : (forall t a, P t a -> keyed cr_id t) ->
  run P (liveRows cid ty) (fun rows t a => live_order t rows /\ P t a) (fun _ => P).
Proof.
  intros Hk w He Ht Hp. unfold liveRows, credential_listByConsumer.
  assert (Hrun : run P (statement (fun _ d => Ok (sort_by ordinal_order (filter (fun r => is_live r = true)
      (credentials_listByConsumer cid (Some ty) (Some LIVE_CREDENTIAL_STATUSES) (d_credentials d))), d)))
      (fun rows t a => live_order t rows /\ P t a) (fun _ => P)).
  { eapply run_statement with (R := fun t x t' => t' = t /\ (keyed cr_id t -> live_order t x)); [done| | |done].
    - intros n d x d' [= <- <-]. split; [done|]. apply listed_order.
    - intros x t t' a HP [-> Hx]. split; [|done]. eapply Hx, Hk, HP. }
  specialize (Hrun w He Ht Hp). unfold read, statement_ok, mbind, statement in *. rewrite Ht in *.
  by destruct (t_fault (cur w)).
Qed.

Lemma not_live_revoked c : is_live c = false -> has_credential_status CredentialRevoked c = true.
Proof. unfold is_live, has_credential_status. destruct (cr_status c); vm_compute; done. Qed.


(** ** The repair *)

(** The rows [R] read are the live ones, and [n] is the length counted. *)
Record listed (R : list CredentialRecord) (n : nat) (t : credential_table) (a : list string) : Prop := {
  li_mirrored : mirrored t a;
  li_order : live_order t R;
  li_shown : ty <> basicauth -> n = length a;
  li_hidden : ty = basicauth -> n = length R;
}.

Lemma mirrored_settle t a r r' : mirrored t a -> t !! cr_id r = Some r -> updated_to CredentialRevoked r r' ->
  cr_fingerprint r ∉ a -> mirrored (<[cr_id r := r']> t) a.
Proof.
  intros Hm Hr Hu Hnot. pose proof (updated_status _ _ _ Hu) as Hst.
  apply (mirrored_write t a r r'); [done..|by eapply updated_restatus|done| | | |].
  - unfold is_live. by rewrite Hst.
  - done.
  - unfold has_credential_status. by rewrite Hst.
  - intros x Hx _. by apply (mir_active _ _ Hm).
Qed.

(** The list once the row [x] is revoked: without it. *)
Lemma settled_order t R x x' : live_order t R -> updated_to CredentialRevoked x x' ->
  live_order (<[cr_id x := x']> t) (filter (fun r => has_id (cr_id x) r = false) R).
Proof.
  intros HR Hu. assert (Hdead : is_live x' = false) by (unfold is_live; by rewrite (updated_status _ _ _ Hu)).
  pose proof (updated_restatus _ _ _ Hu) as (Hi & _). split.
  - intros r. rewrite list_elem_of_filter, (lo_rows _ _ HR). unfold has_id. rewrite bool_decide_eq_false. split.
    + intros [Hne [Hr Hl]]. by rewrite lookup_insert_ne.
    + intros [Hr Hl]. destruct (decide (cr_id r = cr_id x)) as [He|Hne].
      * rewrite He, lookup_insert_eq in Hr. injection Hr as <-. congruence.
      * rewrite lookup_insert_ne in Hr by done. done.
  - apply NoDup_filter, HR.
  - apply sorted_filter, HR.
Qed.

Lemma settled_list R n t a x x' : listed R n t a -> lost_retirement R n = Some x -> ty <> basicauth ->
  t !! cr_id x = Some x -> updated_to CredentialRevoked x x' -> cr_fingerprint x ∉ a ->
  let R' := filter (fun r => has_id (cr_id x) r = false) R in
  listed R' n (<[cr_id x := x']> t) a /\ lost_retirement R' n = None.
Proof.
  intros Hl Hlost Hb Hx Hu Hnot R'. split.
  - split; [by apply mirrored_settle; [apply Hl|..]|by apply settled_order; [apply Hl|]|apply Hl|done].
  - destruct (lost_retirement R' n) as [y|] eqn:Hy; [|done]. exfalso. apply lost_length in Hy.
    rewrite (li_shown _ _ _ _ Hl Hb) in Hlost.
    destruct (lost_is_gone _ _ _ _ (li_mirrored _ _ _ _ Hl) (li_order _ _ _ _ Hl) Hlost) as (HxR & _).
    apply lost_length in Hlost. rewrite <- (li_shown _ _ _ _ Hl Hb) in Hlost.
    assert (length R' < length R)%nat; [|lia]. apply (length_filter_lt _ _ x); [done|].
    unfold has_id. by rewrite bool_decide_eq_true_2.
Qed.

(** What a caller knows besides survives the repair of any row. *)
Definition settle_closed (I : credential_table -> list string -> Prop) : Prop := forall t a r r',
  I t a -> mirrored t a -> t !! cr_id r = Some r -> updated_to CredentialRevoked r r' ->
  has_credential_status CredentialRetiring r = true -> cr_fingerprint r ∉ a -> I (<[cr_id r := r']> t) a.

Lemma run_settle I R n actor ip : settle_closed I ->
  run (fun t a => I t a /\ listed R n t a) (settleLostRetirement cid ty R n actor ip)
    (fun R' t a => (I t a /\ listed R' n t a) /\ (ty <> basicauth -> lost_retirement R' n = None)) (fun _ => I).
Proof.
  intros HI. unfold settleLostRetirement. destruct (lost_retirement R n) as [x|] eqn:Hlost; [|apply run_ret; by intros t a Hc].
  assert (Hgone : forall t a, listed R n t a -> ty <> basicauth /\
            t !! cr_id x = Some x /\ has_credential_status CredentialRetiring x = true /\ cr_fingerprint x ∉ a).
  { intros t a Hl. assert (Hnb : ty <> basicauth).
    { intros Hb. pose proof (li_hidden _ _ _ _ Hl Hb) as Hn. apply lost_length in Hlost. lia. }
    rewrite (li_shown _ _ _ _ Hl Hnb) in Hlost.
    destruct (lost_is_gone _ _ _ _ (li_mirrored _ _ _ _ Hl) (li_order _ _ _ _ Hl) Hlost) as (Hx & ? & ?).
    split_and!; [done| |done..]. exact (live_lookup _ _ _ (li_order _ _ _ _ Hl) Hx). }
  eapply run_bind with (R := fun b t a => b = true /\
    let R' := filter (fun r => has_id (cr_id x) r = false) R in (I t a /\ listed R' n t a) /\ lost_retirement R' n = None).
  - apply run_transaction; [done| |by intros e t a []].
    intros t a [Hi Hl]. destruct (Hgone t a Hl) as (Hnb & Hx & Hret & Hnot).
    eapply txr_bind; [apply txr_find|]. intros fresh. eapply txr_pure; [intros t' [-> Hf]; exact (Hf x Hx)|]. intros [-> _].
    simpl. rewrite Hret. simpl. eapply txr_bind.
    { eapply txr_conseq; [apply (txr_update x CredentialRevoked t Hx)|by intros t' []|done]. }
    intros ?. eapply txr_bind; [apply txr_audit|]. intros ?. apply txr_ret.
    intros t' (x' & Hu & ->). split; [done|]. destruct (settled_list R n t a x x') as [? ?]; [done..|].
    split; [|done]. split; [|done]. apply HI; [done|apply Hl|done..].
  - intros settled. apply run_ret. intros t a (-> & Hc & Hnone). by split.
Qed.
End Repair.
