(* ===== verification/CredentialSample.v ===== *)
(** * A sample gateway

    A gateway that keeps its arrays as the events of the calls made on it, and
    loses the answer of a call while the schedule has a fault: it keeps the
    promises of [GatewayArray], so what is proved under them is not empty. *)

From S2P Require Import Prelude Json Roles Users AuditLog AccessTables CredentialTables World AccessStore LeaseFence KeyedSerializer Provisioner AccountRecovery CredentialStore Credentials CredentialIssue CredentialMirror CredentialLogic CredentialStatements.
Open Scope Z_scope.

Section Sample.
Context (cid : string) (ty : CredentialType).

(** One event on the array of a consumer and type. *)
Definition array_step (a : list string) (e : event) : list string :=
  match e with
  | CredentialAppended c k f => if bool_decide (c = cid /\ k = ty) then a ++ [f] else a
  | CredentialRemoved c k i => if bool_decide (c = cid /\ k = ty) then delete i a else a
  | CredentialsCleared c k => if bool_decide (c = cid /\ k = ty) then [] else a
  | _ => a
  end.

Definition sample_held (trace : list event) : list string := fold_left array_step trace [].

Lemma sample_held_step trace e : sample_held (trace ++ [e]) = array_step (sample_held trace) e.
Proof. unfold sample_held. by rewrite fold_left_app. Qed.
End Sample.

(** A call that takes effect; its answer is lost while there is a fault. *)
Definition sample_call (e : event) : M unit := fun w =>
  (match t_fault (cur w) with Some message => Throw (driverError message) | None => Ok tt end, emit e w).

Definition sample_entry (type : CredentialType) (f : string) : json := JObj [(material_key type, JStr f)].
Definition sample_array (id : string) (trace : list event) (type : CredentialType) : string * json :=
  (type_name type, JArr (map (sample_entry type) (sample_held id type trace))).
Definition sample_consumer (id : string) (trace : list event) : EdgeConsumer := {|
  ec_id := id; ec_labels := []; ec_username := "nexus-user-u1"; ec_custom_id := None;
  ec_credentials := JObj (map (sample_array id trace) CREDENTIAL_TYPES); ec_acl_groups := [];
|}.

#[export] Instance sample_edge : EdgeClient := {|
  namespace := "ferrum";
  edge_verification := fun id _ w => (Ok (Some (sample_consumer id (w_trace w), "tag-1"%string)), w);
  edge_replace := fun _ c _ _ => mret c;
  edge_get := fun id _ w => (Ok (Some (sample_consumer id (w_trace w))), w);
  edge_ensure := fun id _ _ w => (Ok (sample_consumer id (w_trace w)), w);
|}.

(** The digest is the material itself. *)
#[export] Instance sample_deps : CredentialDeps := {|
  edge_addCredential := fun id type entry _ => match credentialMaterial entry type with
                                               | Some m => sample_call (CredentialAppended id type m)
                                               | None => mret tt
                                               end;
  edge_deleteCredentialAt := fun id type i _ => sample_call (CredentialRemoved id type i);
  edge_deleteCredentialType := fun id type _ => sample_call (CredentialsCleared id type);
  edge_delete := fun _ _ => mret tt;
  edge_derivedId := fun name => name;
  edge_getByUsername := fun _ => mret None;
  maxCredentialsPerType := 3;
  sha256Hex := fun secret => secret;
  credentials_url := "https://nexus.example/credentials";
  credential_notify := fun _ _ _ _ _ => mret tt;
  credential_mail := fun _ _ _ => mret tt;
|}.

Section Keeps.
Context (env : nat -> turn) (cid : string) (ty : CredentialType).
Abbreviation run := (run env cid ty (sample_held cid ty)).

Lemma sample_entries trace : array_entries (ec_credentials (sample_consumer cid trace)) ty
  = Some (map (sample_entry ty) (sample_held cid ty trace)).
Proof. by destruct ty. Qed.

Lemma sample_shows trace : shows ty (sample_consumer cid trace) (sample_held cid ty trace).
Proof.
  intros _. rewrite sample_entries. simpl. split; [by rewrite length_map|]. intros i entry m Hi Hm.
  rewrite list_lookup_fmap in Hi. apply fmap_Some in Hi as (f & Hf & ->). rewrite Hf. f_equal.
  unfold credentialMaterial, sample_entry, fingerprint in *. simpl in *. destruct ty; simpl in Hm; by destruct (bool_decide _); simplify_eq.
Qed.

Lemma run_sample_call P e : run P (sample_call e)
  (fun _ t a => exists a0, P t a0 /\ a = array_step cid ty a0 e)
  (fun error t a => exists a0, P t a0 /\ definitely_refused error = false /\ a = array_step cid ty a0 e).
Proof.
  intros w He Ht Hp. unfold sample_call, at_pair in *. simpl. split_and!; [done..|].
  destruct (t_fault (cur w)); exists (sample_held cid ty (w_trace w)); (split_and!; [done..|]); apply sample_held_step.
Qed.

#[export] Instance sample_array_kept : GatewayArray env cid ty (sample_held cid ty).
Proof.
  assert (Hmine : bool_decide (cid = cid /\ ty = ty) = true) by by apply bool_decide_eq_true.
  split.
  - intros P confirm w He Ht Hp. split_and!; [done..|]. split; [done|apply sample_shows].
  - intros P entry m subject Hm. simpl. rewrite Hm. eapply run_conseq; [apply run_sample_call|done|..];
      simpl; rewrite Hmine; [done|]. intros e t a (a0 & Hp & Hd & ->). right. eauto.
  - intros P i subject. eapply run_conseq; [apply run_sample_call|done|..]; simpl; rewrite Hmine; [done|].
    intros e t a (a0 & Hp & _ & ->). eauto.
  - intros P subject. eapply run_conseq; [apply run_sample_call|done|..]; simpl; rewrite Hmine; [done|].
    intros e t a (a0 & Hp & _ & ->). eauto.
Qed.
End Keeps.

(** ** Two keys of one consumer *)

Definition sample_key (id f : string) (ordinal : Z) : CredentialRecord := {|
  cr_id := id; cr_user_id := "u1"; cr_application_id := None; cr_ferrum_consumer_id := "consumer-1";
  cr_credential_type := keyauth; cr_ferrum_credential_id := "consumer-1/credentials/keyauth"; cr_fingerprint := f;
  cr_last4 := f; cr_label := None; cr_status := CredentialActive; cr_rotated_from_id := None;
  cr_edge_ordinal := Some ordinal; cr_created_at := ordinal; cr_updated_at := ordinal;
|}.
Definition sample_first : CredentialRecord := sample_key "key-1" "nxs_one" 1.
Definition sample_second : CredentialRecord := sample_key "key-2" "nxs_two" 2.
Definition sample_rows : credential_table := {["key-1"%string := sample_first; "key-2"%string := sample_second]}.
Definition sample_user : UserRecord := {|
  u_id := "u1"; u_email := "u1@example.org"; u_password_hash := ""; u_display_name := "U1"; u_role := client;
  u_org_id := None; u_company := None; u_phone := None; u_status := UserActive; u_email_verified := true;
  u_last_login_at := None; u_created_at := 0; u_updated_at := 0; u_email_fence := "";
|}.
Definition sample_credentials : world :=
  emit (CredentialAppended "consumer-1" keyauth "nxs_two") (emit (CredentialAppended "consumer-1" keyauth "nxs_one")
    (world_of (with_credentials sample_rows (with_users {["u1"%string := sample_user]} db_empty)) sample_turn [])).

Lemma sample_row r : sample_rows !! cr_id r = Some r <-> r = sample_first \/ r = sample_second.
Proof.
  unfold sample_rows. split; [|by intros [-> | ->]].
  intros [[_ <-]|[_ [_ <-]%lookup_singleton_Some]]%lookup_insert_Some; auto.
Qed.

Lemma sample_mirrored : mirrored (pair_rows "consumer-1" keyauth (w_db sample_credentials))
  (sample_held "consumer-1" keyauth (w_trace sample_credentials)).
Proof.
  replace (pair_rows _ _ _) with sample_rows by (vm_compute; reflexivity).
  change (sample_held _ _ _) with ["nxs_one"%string; "nxs_two"%string]. split.
  - intros k r. unfold sample_rows. by intros [[<- <-]|[_ [<- <-]%lookup_singleton_Some]]%lookup_insert_Some.
  - by intros r r' [-> | ->]%sample_row [-> | ->]%sample_row.
  - by intros r r' [-> | ->]%sample_row [-> | ->]%sample_row.
  - exists [sample_first; sample_second]. split; [|by simpl]. split.
    + intros r. rewrite sample_row. split; [|intros [[-> | ->] _]; set_solver].
      intros [->|[->|[]%elem_of_nil]%elem_of_cons]%elem_of_cons; auto.
    + by apply (bool_decide_unpack _).
    + repeat constructor.
  - intros r [-> | ->]%sample_row _; simpl; set_solver.
Qed.
