(* ===== verification/CredentialRevocation.v ===== *)
(** * Revocation keeps the mirror

    A revocation of one credential, under the key of its consumer and with any
    statement or gateway call failing before or after it took effect, ends with
    the rows still a mirror of the gateway's array and with every other active
    credential where it was. *)

From S2P Require Import Prelude Json Roles Users AuditLog AccessTables CredentialTables World AccessStore LeaseFence KeyedSerializer Provisioner AccountRecovery CredentialStore Credentials CredentialIssue CredentialMirror CredentialLogic CredentialStatements CredentialSample.
Open Scope Z_scope.

Section Revocation.
Context `{EdgeClient} `{CredentialDeps} (env : nat -> turn) (target : CredentialRecord) (held : list event -> list string).
Abbreviation cid := (cr_ferrum_consumer_id target).
Abbreviation ty := (cr_credential_type target).
Abbreviation tid := (cr_id target).
Abbreviation pair := (pair_rows cid ty).
Context (Hrivals : forall n d, pair (t_rivals (env n) d) = pair d) `{!GatewayArray env cid ty held}.
Context (t0 : credential_table).
Abbreviation run := (run env cid ty held).
Abbreviation txr := (txr env cid ty).

(** The other rows that were active are as they were. *)
Definition keys_spared (t : credential_table) : Prop := forall r, cr_id r <> tid ->
  t0 !! cr_id r = Some r -> has_credential_status CredentialActive r = true -> t !! cr_id r = Some r.

Record sound (t : credential_table) (a : list string) : Prop := {
  so_mirrored : mirrored t a;
  so_spared : keys_spared t;
  so_target : is_Some (t !! tid);
  so_rows : forall k, is_Some (t !! k) <-> is_Some (t0 !! k);
}.

Lemma sound_write t a a' r r' s : sound t a -> t !! cr_id r = Some r -> updated_to s r r' ->
  (cr_id r = tid \/ has_credential_status CredentialActive r = false) ->
  a' `sublist_of` a -> (is_live r' = true -> is_live r = true) ->
  (is_live r' = false -> cr_fingerprint r ∉ a') ->
  (has_credential_status CredentialActive r' = true -> cr_fingerprint r ∈ a') ->
  (forall x, t !! cr_id x = Some x -> x <> r -> has_credential_status CredentialActive x = true -> cr_fingerprint x ∈ a') ->
  sound (<[cr_id r := r']> t) a'.
Proof.
  intros [Hm Hsp Ht Hk] Hr Hu Hmine Hs Hl Hdead Hact Hoth. split.
  - apply (mirrored_write t a r r'); try done; by eapply updated_restatus.
  - intros x Hne Hx Hax. specialize (Hsp x Hne Hx Hax). rewrite lookup_insert_ne; [done|]. intros He.
    assert (x = r) as -> by congruence. destruct Hmine; [done|congruence].
  - destruct (decide (tid = cr_id r)) as [->|Hne]; [rewrite lookup_insert_eq; by eexists|by rewrite lookup_insert_ne].
  - intros k. rewrite <- Hk. destruct (decide (k = cr_id r)) as [->|Hne]; [|by rewrite lookup_insert_ne].
    rewrite lookup_insert_eq, Hr. split; by eexists.
Qed.

(** A live row is given up: [retiring]. *)
Lemma sound_retire t a r r' : sound t a -> t !! cr_id r = Some r -> updated_to CredentialRetiring r r' ->
  (cr_id r = tid \/ has_credential_status CredentialActive r = false) -> is_live r = true -> sound (<[cr_id r := r']> t) a.
Proof.
  intros Hs Hr Hu Hmine Hl. pose proof (updated_status _ _ _ Hu) as Hst.
  eapply sound_write; [done..| | | |].
  - unfold is_live. rewrite Hst. done.
  - unfold is_live. by rewrite Hst.
  - unfold has_credential_status. by rewrite Hst.
  - intros x Hx _. by apply (mir_active _ _ (so_mirrored _ _ Hs)).
Qed.

(** A row without an entry is settled: [revoked]. *)
Lemma sound_settle t a r r' : sound t a -> t !! cr_id r = Some r -> updated_to CredentialRevoked r r' ->
  (cr_id r = tid \/ has_credential_status CredentialActive r = false) -> cr_fingerprint r ∉ a -> sound (<[cr_id r := r']> t) a.
Proof.
  intros Hs Hr Hu Hmine Hgone. pose proof (updated_status _ _ _ Hu) as Hst.
  eapply sound_write; [done..| | | |].
  - unfold is_live. rewrite Hst. done.
  - done.
  - unfold has_credential_status. by rewrite Hst.
  - intros x Hx _. by apply (mir_active _ _ (so_mirrored _ _ Hs)).
Qed.

(** A row whose entry is there is taken back: [active]. *)
Lemma sound_restore t a r r' : sound t a -> t !! cr_id r = Some r -> updated_to CredentialActive r r' ->
  cr_id r = tid -> is_live r = true -> cr_fingerprint r ∈ a -> sound (<[cr_id r := r']> t) a.
Proof.
  intros Hs Hr Hu Hmine Hl Hin. pose proof (updated_status _ _ _ Hu) as Hst.
  eapply sound_write; [done..|by left|done| | | |].
  - done.
  - unfold is_live. by rewrite Hst.
  - done.
  - intros x Hx _. by apply (mir_active _ _ (so_mirrored _ _ Hs)).
Qed.

(** *** The repair *)

Definition still_current (current : CredentialRecord) (t : credential_table) : Prop := forall r,
  t !! tid = Some r -> is_live r = true -> r = current.

(** What is known of the rows [R] read and the length [n] counted. *)
Record counted (current : CredentialRecord) (R : list CredentialRecord) (n : nat) (t : credential_table) (a : list string) : Prop := {
  co_sound : sound t a;
  co_order : live_order t R;
  co_shown : ty <> basicauth -> n = length a;
  co_hidden : ty = basicauth -> n = length R;
  co_current : still_current current t;
}.

Lemma keyed_lookup t a k r : sound t a -> t !! k = Some r -> t !! cr_id r = Some r /\ cr_id r = k.
Proof. intros Hs Hr. pose proof (mir_keyed _ _ (so_mirrored _ _ Hs) k r Hr) as Hk. simpl in Hk. by rewrite Hk. Qed.

Lemma counted_listed current R n t a :
  counted current R n t a <-> (sound t a /\ still_current current t) /\ listed ty R n t a.
Proof. split; [intros []; split_and!; [done..|]; by split; [apply so_mirrored|..]|]. by intros [[? ?] []]. Qed.

Lemma settle_sound current : settle_closed (fun t a => sound t a /\ still_current current t).
Proof.
  intros t a x x' [Hs Hcur] Hm Hx Hu Hret Hnot. split.
  - eapply sound_settle; [done..| |done]. right. apply not_true_is_false. intros Ha. by eapply not_both.
  - intros r Hr Hl. destruct (decide (tid = cr_id x)) as [He|Hne].
    + rewrite He, lookup_insert_eq in Hr. injection Hr as <-. unfold is_live in Hl. by rewrite (updated_status _ _ _ Hu) in Hl.
    + rewrite lookup_insert_ne in Hr by done. by apply Hcur.
Qed.

Lemma run_settle_counted current R n actor ip :
  run (counted current R n) (settleLostRetirement cid ty R n actor ip)
    (fun R' t a => counted current R' n t a /\ (ty <> basicauth -> lost_retirement R' n = None)) (fun _ => sound).
Proof.
  eapply run_conseq; [apply (run_settle env cid ty held Hrivals), (settle_sound current)|..].
  - intros t a. apply counted_listed.
  - intros R' t a [Hc Hn]. split; [by apply counted_listed|done].
  - by intros e t a [].
Qed.

(** *** Where the entry is *)

(** An index answered for a list as long as the array is the target's. *)
Lemma resolved_index current R n t a i : counted current R n t a -> cr_id current = tid -> length R = length a ->
  resolveCredentialIndex R current n = Ok (AtIndex i) ->
  t !! tid = Some current /\ is_live current = true /\ a !! i = Some (cr_fingerprint current).
Proof.
  intros Hc Hid Hlen Hres. pose proof (so_mirrored _ _ (co_sound _ _ _ _ _ Hc)) as Hm. pose proof (co_order _ _ _ _ _ Hc) as HR.
  pose proof (resolve_length _ _ _ _ Hres) as Hn. rewrite <- Hn, Hlen in Hres.
  assert (Hcur : forall r, r ∈ R -> cr_id r = cr_id current -> r = current).
  { intros r Hr He. apply (lo_rows _ _ HR) in Hr as [Hr Hl]. apply (co_current _ _ _ _ _ Hc); [congruence|done]. }
  destruct (resolve_index _ _ _ _ _ Hm HR Hlen Hres) as (r & Hr & He & Hi); [by intros r Hr ->%Hcur|].
  pose proof (Hcur r Hr He) as ->. apply (lo_rows _ _ HR) in Hr as [Hr Hl]. split_and!; [by rewrite <- Hid|done..].
Qed.

(** Where nothing hidden is unconfirmed, there are as many rows as entries. *)
Lemma confirmed_length current R n t a consumerId i : counted current R n t a -> assertPositionsConfirmed R consumerId ty = Ok tt ->
  resolveCredentialIndex R current n = Ok (AtIndex i) -> length R = length a.
Proof.
  intros Hc Hconf Hres. unfold assertPositionsConfirmed in Hconf. destruct (bool_decide (ty = basicauth)) eqn:Hb; simpl in Hconf.
  - destruct (_ =? 0)%nat eqn:Hz; [|done]. apply Nat.eqb_eq in Hz.
    eapply all_active_full; [apply (so_mirrored _ _ (co_sound _ _ _ _ _ Hc))|apply Hc|]. by apply nil_length_inv.
  - apply bool_decide_eq_false in Hb. rewrite <- (co_shown _ _ _ _ _ Hc Hb). by eapply resolve_length.
Qed.

Lemma placed_index current R n t a i : counted current R n t a -> of_pair cid ty current = true -> cr_id current = tid ->
  revokePosition R current n false = Ok (AtIndex i) ->
  t !! tid = Some current /\ is_live current = true /\ a !! i = Some (cr_fingerprint current).
Proof.
  intros Hc Hp Hid Hres. unfold of_pair in Hp. apply andb_true_iff in Hp as [Hcid Hty].
  apply bool_decide_eq_true in Hcid, Hty. unfold revokePosition in Hres. rewrite Hty in Hres.
  assert (Hres' : resolveCredentialIndex R current n = Ok (AtIndex i) /\ length R = length a).
  { destruct (bool_decide _) eqn:Hb; simpl in Hres.
    - destruct (existsb _ _); [|done]. simpl in Hres. destruct (forallb _ _); [done|]. rewrite Hcid in Hres.
      destruct (assertPositionsConfirmed R cid ty) as [[]|] eqn:Hconf; [|done]. split; [done|]. by eapply confirmed_length.
    - split; [done|]. apply bool_decide_eq_false in Hb. rewrite <- (co_shown _ _ _ _ _ Hc Hb). by eapply resolve_length. }
  destruct Hres' as [Hres' Hlen]. by eapply resolved_index.
Qed.

Lemma placed_whole current R n t a : counted current R n t a -> of_pair cid ty current = true -> cr_id current = tid ->
  (ty <> basicauth -> lost_retirement R n = None) -> revokePosition R current n false = Ok WholeType ->
  ty = basicauth /\ t !! tid = Some current /\ is_live current = true
  /\ forall r, t !! cr_id r = Some r -> cr_id r <> tid -> has_credential_status CredentialActive r = false.
Proof.
  intros Hc Hp Hid Hnl Hres. unfold of_pair in Hp. apply andb_true_iff in Hp as [Hcid Hty].
  apply bool_decide_eq_true in Hcid, Hty. unfold revokePosition in Hres. rewrite Hty, Hid in Hres.
  pose proof (so_mirrored _ _ (co_sound _ _ _ _ _ Hc)) as Hm. pose proof (co_order _ _ _ _ _ Hc) as HR.
  destruct (bool_decide _) eqn:Hb; simpl in Hres.
  - apply bool_decide_eq_true in Hb. split; [done|]. destruct (existsb _ _) eqn:Hex; [|done]. simpl in Hres.
    apply existsb_exists in Hex as (c & Hin%list_elem_of_In & Hci%has_id_eq). apply (lo_rows _ _ HR) in Hin as [Hct Hcl].
    rewrite Hci in Hct. rewrite <- (co_current _ _ _ _ _ Hc c Hct Hcl). split_and!; [done..|].
    destruct (forallb _ _) eqn:Hall.
    + intros r Hr Hne. destruct (has_credential_status CredentialActive r) eqn:Ha; [|done].
      assert (r ∈ R) as HrR by (apply (lo_rows _ _ HR); split; [done|by apply active_live]).
      rewrite forallb_forall in Hall. specialize (Hall r (proj1 (list_elem_of_In _ _) HrR)).
      apply orb_true_iff in Hall as [Hh%has_id_eq|Hn]; [done|]. by rewrite Ha in Hn.
    + destruct (assertPositionsConfirmed _ _ _); [|done]. destruct (resolve_whole _ _ _ Hres) as [Hlen _].
      by rewrite (co_hidden _ _ _ _ _ Hc Hb) in Hlen.
  - apply bool_decide_eq_false in Hb. destruct (resolve_whole _ _ _ Hres) as (Hlen & r & -> & _).
    rewrite (co_shown _ _ _ _ _ Hc Hb) in *. specialize (Hnl Hb).
    by rewrite (single_is_there _ _ _ Hm HR Hnl) in Hlen.
Qed.

Lemma placed_nowhere current R n : cr_id current = tid -> revokePosition R current n false = Ok NotLive ->
  forall r, r ∈ R -> cr_id r <> tid.
Proof.
  intros Hid Hres. unfold revokePosition in Hres. rewrite Hid in Hres. destruct (negb (bool_decide _)).
  { rewrite <- Hid. by eapply resolve_not_live. }
  destruct (existsb _ _) eqn:He; simpl in Hres.
  - destruct (forallb _ _); [done|]. destruct (assertPositionsConfirmed _ _ _); [|done]. rewrite <- Hid. by eapply resolve_not_live.
  - intros r Hr Hri. assert (existsb (has_id tid) R = true); [|congruence].
    apply existsb_exists. exists r. split; [by apply list_elem_of_In|by apply has_id_eq].
Qed.

(** *** Taking the entry off *)

Section Current.
Context (current : CredentialRecord) (Hid : cr_id current = tid).

(** The target still has its row, live, and its entry. *)
Definition with_entry (t : credential_table) (a : list string) : Prop :=
  sound t a /\ exists r, t !! tid = Some r /\ is_live r = true /\ cr_fingerprint r ∈ a.

Lemma with_entry_restored t a r r' : with_entry t a -> t !! cr_id r = Some r -> cr_id r = tid -> updated_to CredentialActive r r' ->
  with_entry (<[cr_id r := r']> t) a.
Proof.
  intros (Hs & c & Hc & Hl & Hin) Hr Hri Hu. assert (c = r) as -> by congruence.
  split; [by eapply sound_restore|]. exists r'. rewrite Hri, lookup_insert_eq. split; [done|].
  split; [by apply active_live; unfold has_credential_status; rewrite (updated_status _ _ _ Hu)|].
  by destruct (updated_restatus _ _ _ Hu) as (_ & -> & _).
Qed.

Lemma txr_withdraw (t : credential_table) (a : list string) : with_entry t a ->
  txr (fun t' => t' = t) (credential_updateIfStatus (cr_id current) CredentialRetiring CredentialActive) (fun _ t' => with_entry t' a).
Proof.
  intros Hw. pose proof Hw as (Hs & r & Hr & _). destruct (keyed_lookup _ _ _ _ Hs Hr) as [Hr' Hri].
  rewrite Hid, <- Hri. eapply txr_conseq; [by apply txr_updateIfStatus|done|]. intros x t'.
  destruct (has_credential_status _ _); [|by intros [_ ->]]. intros (r' & Hu & _ & ->). by eapply with_entry_restored.
Qed.

Lemma still_committed on id : still env cid ty held (auditRowCommitted on id).
Proof. apply still_catch; [by apply still_read|intros; apply still_ret]. Qed.

Lemma run_withdraw_attempt actor details ip :
  run with_entry (withdraw_attempt current actor details ip) (fun _ => with_entry) (fun _ => with_entry).
Proof.
  unfold withdraw_attempt. apply run_skip; [apply still_randomUUID|done|]. intros id.
  eapply run_bind.
  { apply run_attempt with (Q := fun _ => with_entry) (F := fun _ => with_entry). apply run_transaction; [done| |done].
    intros t a Hw. eapply txr_bind; [by apply txr_withdraw|]. intros [r|]; [|by apply txr_ret].
    eapply txr_bind; [apply txr_audit_as|]. intros ?. by apply txr_ret. }
  intros [x|e]; [by apply run_ret|]. destruct (isLeaseLost e); [by apply run_ret|]. apply still_committed.
Qed.

Lemma run_withdrawRetirement operation actor cause ip :
  run with_entry (withdrawRetirement current operation actor cause ip) (fun _ => with_entry) (fun _ => with_entry).
Proof.
  unfold withdrawRetirement. eapply run_bind; [apply run_withdraw_attempt|]. intros []; [by apply run_ret|].
  eapply run_bind; [apply run_withdraw_attempt|]. intros []; [by apply run_ret|].
  eapply run_bind with (R := fun _ => with_entry).
  - apply run_catch with (F := fun _ => with_entry); [|intros e; by apply run_ret]. apply run_transaction; [done| |done].
    intros t a Hw. eapply txr_bind; [by apply txr_withdraw|]. intros r. by apply txr_ret.
  - intros []; simpl; [|by apply run_ret]. apply still_ignore, still_statement, untouched_audit. done.
Qed.

Lemma run_deleteDidNotApply (P : credential_table -> list string -> Prop) E n :
  run P (deleteDidNotApply cid ty n) (fun b t a => P t a /\ (b = true -> ty <> basicauth /\ length a = n)) E.
Proof.
  unfold deleteDidNotApply. case_bool_decide as Hb; [by apply run_ret|].
  eapply run_bind; [eapply run_attempt, array_get|]. intros [[c|]|e]; apply run_ret; simpl; [|by intros t a []|done].
  intros t a [Hp Hs]. split; [done|]. intros Hn%Nat.eqb_eq. split; [done|]. destruct (Hs Hb) as [Hl _].
  unfold array_length in Hn. congruence.
Qed.

(** Where the delete lands: on the target's entry, or on all of a type of which
    nothing else is active. *)
Definition aimed (n : nat) (position : placement) (t : credential_table) (a : list string) : Prop :=
  match position with
  | AtIndex i => a !! i = Some (cr_fingerprint current) /\ (ty <> basicauth -> n = length a)
  | WholeType => ty = basicauth /\ forall r, t !! cr_id r = Some r -> cr_id r <> tid -> has_credential_status CredentialActive r = false
  | NotLive => False
  end.

Section Removal.
Context (b : list string).

(** The retirement is on record, the array still [b]. *)
Record retiring (n : nat) (position : placement) (t : credential_table) (a : list string) : Prop := {
  re_sound : sound t a;
  re_row : exists c, t !! tid = Some c /\ restatus current c /\ has_credential_status CredentialRetiring c = true;
  re_aimed : aimed n position t a;
  re_array : a = b;
}.

Definition removed_at (position : placement) (a : list string) : list string :=
  match position with AtIndex i => delete i a | _ => [] end.

(** The entry is gone. *)
Record gone (position : placement) (t : credential_table) (a : list string) : Prop := {
  go_sound : sound t a;
  go_row : exists c, t !! tid = Some c /\ restatus current c /\ cr_fingerprint c ∉ a;
  go_array : a = removed_at position b;
}.

Lemma retiring_only n position t a c r : retiring n position t a -> t !! tid = Some c ->
  t !! cr_id r = Some r -> has_credential_status CredentialActive r = true -> cr_id r <> tid.
Proof.
  intros Hre Hc Hr Ha He. destruct (re_row _ _ _ _ Hre) as (c' & Hc' & _ & Hret).
  assert (r = c') as -> by congruence. by eapply not_both.
Qed.

Lemma retiring_removed n position t a : retiring n position t a -> gone position t (removed_at position a).
Proof.
  intros Hre. pose proof (re_sound _ _ _ _ Hre) as Hs. pose proof (so_mirrored _ _ Hs) as Hm.
  destruct (re_row _ _ _ _ Hre) as (c & Hc & Hcc & Hret). destruct (keyed_lookup _ _ _ _ Hs Hc) as [Hc' Hci].
  pose proof (re_aimed _ _ _ _ Hre) as Haim.
  assert (Hfp : cr_fingerprint c = cr_fingerprint current) by apply Hcc.
  assert (Hgone : cr_fingerprint c ∉ removed_at position a).
  { destruct position as [i| |]; simpl in *; [|by intros ?%elem_of_nil|done]. rewrite Hfp.
    apply delete_gone; [by eapply mirrored_distinct|apply Haim]. }
  split; [|by exists c|by rewrite (re_array _ _ _ _ Hre)]. split; [|apply Hs..].
  eapply mirrored_shrink; [done|destruct position; [apply sublist_delete|apply sublist_nil_l..]|].
  intros r Hr Ha. assert (Hne : cr_id r <> tid) by by eapply retiring_only.
  destruct position as [i| |]; simpl in *; [|by rewrite (proj2 Haim r Hr Hne) in Ha|done].
  destruct Haim as [Hi _]. eapply delete_others; [exact Hi|by apply (mir_active _ _ Hm)|].
  rewrite <- Hfp. intros He. assert (r = c) as -> by (by apply (mir_prints _ _ Hm)). done.
Qed.

Lemma run_removeAt n position actorId :
  run (retiring n position) (removeAt cid ty position actorId) (fun _ => gone position)
    (fun _ t a => exists a0, retiring n position t a0 /\ (a = a0 \/ a = removed_at position a0)).
Proof.
  destruct position as [i| |]; simpl.
  - eapply run_conseq; [apply array_deleteAt|done| |done]. intros _ t a (a0 & Hre & ->). by apply (retiring_removed n (AtIndex i)).
  - eapply run_conseq; [apply array_clear|done| |done]. intros _ t a (a0 & Hre & ->). by apply (retiring_removed n WholeType t a0).
  - intros w He Ht Hp. destruct (re_aimed _ _ _ _ Hp).
Qed.

(** A delete that provably did not apply left the entry. *)
Lemma unapplied n position t a0 a : retiring n position t a0 -> a = a0 \/ a = removed_at position a0 ->
  ty <> basicauth -> length a = n -> with_entry t a.
Proof.
  intros Hre Ha Hb Hn. pose proof (re_aimed _ _ _ _ Hre) as Haim.
  destruct position as [i| |]; simpl in *; [|by destruct Haim|done]. destruct Haim as [Hi Hlen].
  assert (a = a0) as ->.
  { destruct Ha as [->| ->]; [done|]. pose proof (lookup_lt_Some _ _ _ Hi). specialize (Hlen Hb).
    rewrite length_delete in Hn by by eexists. lia. }
  split; [apply Hre|]. destruct (re_row _ _ _ _ Hre) as (c & Hc & (_ & Hf & _) & Hret). exists c. split; [done|].
  split; [|rewrite Hf; by eapply list_elem_of_lookup_2].
  unfold has_credential_status in Hret. apply bool_decide_eq_true in Hret. unfold is_live. by rewrite Hret.
Qed.

Lemma unsure_sound n position t a : (exists a0, retiring n position t a0 /\ (a = a0 \/ a = removed_at position a0)) -> sound t a.
Proof. intros (a0 & Hre & [->| ->]); [apply Hre|]. by eapply go_sound, retiring_removed. Qed.

Definition aiming (n : nat) (position : placement) (t : credential_table) (a : list string) : Prop :=
  sound t a /\ t !! tid = Some current /\ is_live current = true /\ aimed n position t a /\ a = b.

(** The retirement is recorded. *)
Lemma run_record_retirement n position actor action on details ip :
  run (aiming n position)
    (transaction (do_ credential_update (cr_id current) CredentialRetiring; audit_record actor action on details ip))
    (fun _ => retiring n position) (fun _ => sound).
Proof.
  apply run_transaction; [done| |by intros e t a []]. intros t a (Hs & Hc & Hl & Haim & Hb).
  assert (Hc' : t !! cr_id current = Some current) by by rewrite Hid.
  eapply txr_bind; [by apply txr_update|]. intros ?. eapply txr_conseq; [apply txr_audit|intros t' Ht'; exact Ht'|].
  intros ? t' (c & Hu & ->). pose proof (updated_restatus _ _ _ Hu) as Hre. split.
  - eapply sound_retire; [done..|by left|done].
  - exists c. rewrite Hid, lookup_insert_eq. split_and!; [done..|]. unfold has_credential_status. by rewrite (updated_status _ _ _ Hu).
  - destruct position; [done| |done]. split; [apply Haim|]. intros r Hr Hne. rewrite Hid, lookup_insert_ne in Hr by done.
    by apply Haim.
  - done.
Qed.

(** The entry is removed, or the retirement withdrawn where the removal provably
    did not apply. *)
Lemma run_remove_or_withdraw n position operation actorId actor ip :
  run (retiring n position)
    (mcatch (removeAt cid ty position actorId)
       (fun error =>
          do unapplied <- deleteDidNotApply cid ty n;
          do_ (if unapplied : bool then withdrawRetirement current operation actor error ip else mret tt);
          mthrow error))
    (fun _ => gone position) (fun _ => sound).
Proof.
  eapply run_catch; [apply run_removeAt|]. intros error.
  eapply run_bind; [apply run_deleteDidNotApply|]. intros unapplied_.
  eapply run_bind with (R := fun _ => sound); [|intros _; by apply run_throw]. destruct unapplied_.
  - eapply run_conseq; [apply run_withdrawRetirement| |by intros ??? []|by intros ??? []].
    intros t a [(a0 & Hre & Ha) Hn]. destruct (Hn eq_refl). by eapply unapplied.
  - apply run_ret. intros t a [Hu _]. by eapply unsure_sound.
Qed.

Lemma run_retire_and_remove actor ip details n position :
  run (aiming n position) (retire_and_remove target current actor ip details n position) (fun _ => gone position) (fun _ => sound).
Proof. eapply run_bind; [apply run_record_retirement|]. intros ?. apply run_remove_or_withdraw. Qed.

End Removal.

(** What the last transaction finds: an entry that is gone, and an empty array
    where rows are to be swept. *)
Record settleable (removed : removal) (t : credential_table) (a : list string) : Prop := {
  se_sound : sound t a;
  se_row : exists c, t !! tid = Some c /\ cr_fingerprint c ∉ a;
  se_swept : Forall (fun r => is_Some (t0 !! cr_id r) /\ a = []) (rm_swept removed);
}.

Lemma gone_settleable b position t a swept whole fallback : gone b position t a ->
  Forall (fun r => is_Some (t0 !! cr_id r)) swept -> (position = WholeType \/ swept = []) ->
  settleable {| rm_swept := swept; rm_whole_type := whole; rm_fallback := fallback |} t a.
Proof.
  intros [Hs (c & Hc & _ & Hnot) ->] Hsw Hcase. split; [done|by exists c|]. simpl.
  destruct Hcase as [Hp| ->]; [|constructor]. eapply Forall_impl; [exact Hsw|]. intros r Hr. by rewrite Hp.
Qed.

(** A row that is not live has no entry. *)
Lemma dead_no_entry t a c : sound t a -> t !! tid = Some c -> is_live c = false -> cr_fingerprint c ∉ a.
Proof. intros Hs Hc Hd. destruct (keyed_lookup _ _ _ _ Hs Hc) as [Hc' _]. by eapply mirrored_dead; [apply Hs|..]. Qed.

Context (Hpair : of_pair cid ty current = true).

(** A row of the list is not there any more: its entry is not either. *)
Lemma nowhere_settleable R n t a whole fallback : counted current R n t a -> revokePosition R current n false = Ok NotLive ->
  settleable {| rm_swept := []; rm_whole_type := whole; rm_fallback := fallback |} t a.
Proof.
  intros Hc Hres. pose proof (placed_nowhere _ _ _ Hid Hres) as Hno. pose proof (co_sound _ _ _ _ _ Hc) as Hs.
  destruct (so_target _ _ Hs) as [c Hct]. split; [done| |constructor]. exists c. split; [done|].
  destruct (keyed_lookup _ _ _ _ Hs Hct) as [Hct' Hci]. apply (dead_no_entry t); [done..|].
  apply not_true_is_false. intros Hl. apply (Hno c); [|done]. by apply (lo_rows _ _ (co_order _ _ _ _ _ Hc)).
Qed.

Lemma run_remove_from_gateway actor ip details options bypass R c :
  clearType options = false -> recovery options = false ->
  run (counted current R (edgeArrayLength (ec_credentials c) ty (length R)))
    (remove_from_gateway target current actor ip details options bypass R c) settleable (fun _ => sound).
Proof.
  intros Hclear Hrec. unfold remove_from_gateway. set (n := edgeArrayLength _ _ _).
  eapply run_bind; [apply run_settle_counted|]. intros R'.
  eapply run_bind with (R := fun placed t a => (counted current R' n t a /\ (ty <> basicauth -> lost_retirement R' n = None))
      /\ revokePosition R' current n false = Ok placed.1).
  { apply run_checked; [|by intros e t a _ [Hc _]; apply Hc]. intros [position fallback] t a Hp Hc. split; [done|].
    unfold place_revocation in Hp. rewrite Hclear, Hrec in Hp. destruct (revokePosition _ _ _ _); [|done]. by injection Hp as -> _. }
  intros [position fallback]. simpl.
  eapply run_pure; [intros t a [_ Hp]; exact Hp|]. intros Hpos.
  apply run_skip; [apply run_ensure; by intros|by intros e t a [[Hc _] _]; apply Hc|]. intros _.
  destruct (decide (position = NotLive)) as [->|Hnl]; [rewrite bool_decide_eq_true_2 by done|rewrite (bool_decide_eq_false_2 (position = NotLive)) by done].
  { apply run_skip; [by apply run_ret|by intros e t a [[Hc _] _]; apply Hc|]. intros _. apply run_ret. intros t a [[Hc _] _].
    by eapply nowhere_settleable. }
  eapply run_pure with (phi := Forall (fun r => is_Some (t0 !! cr_id r)) R').
  { intros t a [[Hc _] _]. apply Forall_forall. intros r Hr. apply (so_rows _ _ (co_sound _ _ _ _ _ Hc)).
    exists r. exact (live_lookup _ _ _ (co_order _ _ _ _ _ Hc) Hr). }
  intros Hall. apply run_fix. intros t1 b Hb. eapply run_bind; [eapply run_conseq; [apply (run_retire_and_remove b actor ip details n position)| |intros ? ? ? Hg; exact Hg|done]|].
  - intros t a [-> ->]. destruct Hb as [[Hc Hlost] _]. split; [apply Hc|]. destruct position as [i| |]; [| |done].
    + destruct (placed_index _ _ _ _ _ _ Hc Hpair Hid Hpos) as (Hrow & Hl & Hi). split_and!; [done..| |done].
      split; [done|apply (co_shown _ _ _ _ _ Hc)].
    + by destruct (placed_whole _ _ _ _ _ Hc Hpair Hid Hlost Hpos) as (Hba & Hrow & Hl & Hn).
  - intros ?. apply run_ret. intros t a Hg. eapply gone_settleable; [exact Hg| |].
    + case_bool_decide; [|constructor]. apply Forall_forall. intros r [_ Hr]%list_elem_of_filter. by eapply Forall_forall in Hall.
    + case_bool_decide; [by left|by right].
Qed.

(** *** The last transaction *)

(** The target is revoked. *)
Definition settled (t : credential_table) (a : list string) : Prop :=
  sound t a /\ exists c, t !! tid = Some c /\ has_credential_status CredentialRevoked c = true.

Lemma settled_sweep t r r' : settled t [] -> t !! cr_id r = Some r -> updated_to CredentialRevoked r r' -> settled (<[cr_id r := r']> t) [].
Proof.
  intros (Hs & c & Hc & Hrev) Hr Hu. assert (Hno : has_credential_status CredentialActive r = false).
  { apply not_true_is_false. intros Ha. apply (mir_active _ _ (so_mirrored _ _ Hs) r Hr) in Ha. by apply elem_of_nil in Ha. }
  split; [eapply sound_settle; [done..|by right|by intros ?%elem_of_nil]|].
  destruct (decide (tid = cr_id r)) as [->|Hne]; [|by exists c; rewrite lookup_insert_ne].
  exists r'. rewrite lookup_insert_eq. split; [done|]. unfold has_credential_status. by rewrite (updated_status _ _ _ Hu).
Qed.

Lemma txr_settle_swept a swept : Forall (fun r => is_Some (t0 !! cr_id r) /\ a = []) swept ->
  txr (fun t => settled t a) (settle_swept swept) (fun _ t => settled t a).
Proof.
  induction 1 as [|row rest [Hrow ->] _ IH]; [by apply txr_ret|]. cbn [settle_swept].
  eapply txr_bind with (R := fun _ t => settled t []).
  - eapply txr_statement; [apply does_updateIfStatus|]. intros x t t' Hs Hf.
    pose proof Hs as (Hso & _). apply (so_rows _ _ Hso) in Hrow as [r Hr].
    destruct (keyed_lookup _ _ _ _ Hso Hr) as [Hr' Hri]. specialize (Hf r Hr Hri).
    destruct (has_credential_status (cr_status row) r); [|by destruct Hf as [_ ->]].
    destruct Hf as (r' & Hu & _ & ->). rewrite <- Hri. by eapply settled_sweep.
  - intros moved. eapply txr_bind; [exact IH|]. intros others. by apply txr_ret.
Qed.

Lemma txr_record_swept actor ip rows P : txr P (record_swept target actor ip rows) (fun _ => P).
Proof. induction rows as [|row rest IH]; simpl; [by apply txr_ret|]. eapply txr_bind; [apply txr_audit|]. by intros ?. Qed.

Lemma run_settle_revocation actor ip details removed :
  run (settleable removed) (settle_revocation target current actor ip details removed) (fun _ => settled) (fun _ => sound).
Proof.
  unfold settle_revocation. apply run_transaction; [done| |by intros e t a []].
  intros t a [Hs (c & Hc & Hnot) Hsw]. destruct (keyed_lookup _ _ _ _ Hs Hc) as [Hc' Hci].
  eapply txr_bind with (R := fun _ t' => settled t' a).
  - rewrite Hid, <- Hci. eapply txr_conseq; [by apply txr_update|done|]. intros _ t' (c' & Hu & ->). split.
    + eapply sound_settle; [done..|by left|done].
    + exists c'. rewrite Hci, lookup_insert_eq. split; [done|]. unfold has_credential_status. by rewrite (updated_status _ _ _ Hu).
  - intros ?. eapply txr_bind; [by apply txr_settle_swept|]. intros moved.
    eapply txr_bind; [apply txr_audit|]. intros ?. apply txr_record_swept.
Qed.
End Current.

(** *** The revocation *)

Lemma sound_start t a : t = t0 /\ mirrored t a /\ is_Some (t !! tid) -> sound t a.
Proof. intros (-> & Hm & Ht). by split; [|intros r _| |]. Qed.

Lemma run_revokeCredentialRow actor ip details options : clearType options = false -> recovery options = false ->
  run (fun t a => t = t0 /\ mirrored t a /\ is_Some (t !! tid)) (revokeCredentialRow target actor ip details options)
    (fun _ => settled) (fun _ => sound).
Proof.
  intros Hclear Hrec. unfold revokeCredentialRow. apply run_locks; [done| |intros e; apply sound_start].
  eapply run_pre; [|apply sound_start].
  eapply run_bind; [apply run_find; [done|apply so_target]|]. intros found_.
  eapply run_pure with (phi := exists r, found_ = Some r /\ of_pair cid ty r = true /\ cr_id r = tid).
  { intros t a (r & -> & Hr & Hp & Hs). exists r. split_and!; [done..|]. by destruct (keyed_lookup _ _ _ _ Hs Hr). }
  intros (current & -> & Hp & Hid).
  apply run_pre with (P := fun t a => t !! tid = Some current /\ sound t a); [|intros t a (r & [= <-] & Hr & _ & Hs); by split].
  destruct (is_live current) eqn:Hl; simpl.
  2: { apply run_ret. intros t a [Hc Hs]. split; [done|]. exists current. split; [done|by apply not_live_revoked]. }
  eapply run_bind; [eapply run_err; [apply array_get|by intros e t a []]|]. intros consumer.
  eapply run_bind; [eapply run_err; [apply run_liveRows; [done|]|by intros e t a [[]]]|].
  { intros t a [[_ Hs] _]. apply (mir_keyed _ _ (so_mirrored _ _ Hs)). }
  intros live. apply run_skip; [by apply run_ensure|by intros e t a (_ & [_ Hs] & _)|]. intros ?.
  eapply run_bind with (R := settleable); [|intros removed; eapply run_bind; [by apply run_settle_revocation|]; intros ?; by apply run_ret].
  destruct consumer as [c|].
  - eapply run_pre; [by apply run_remove_from_gateway|]. intros t a (Hord & [Hc Hs] & Hshow). split; [done..| | |].
    + intros Hb. unfold edgeArrayLength. rewrite bool_decide_eq_false_2 by done. by apply Hshow.
    + intros Hb. unfold edgeArrayLength. by rewrite bool_decide_eq_true_2.
    + intros r Hr _. congruence.
  - apply run_ret. intros t a (_ & [Hc Hs] & Hnone). rewrite (Hnone eq_refl) in *.
    split; [done| |constructor]. exists current. split; [done|by intros ?%elem_of_nil].
Qed.
End Revocation.


Definition sample_revoke_options : revoke_options := {| clearType := false; recovery := false; recoveryCutoff := None |}.
Definition sample_owner : Actor := {| act_id := "u1"; act_role := client |}.
Definition sample_revoked : world :=
  (revokeCredentialRow sample_first sample_owner None [] sample_revoke_options sample_credentials).2.

