(* ===== verification/CredentialIssuance.v ===== *)
(** * Issue keeps the mirror

    [appendCredential] and [issueForConsumer]: an answer leaves a row and its
    entry at the end of the array; a failure leaves the rows a mirror of the array
    but for one entry at the end that is no row's, and of none where the array is
    hidden. *)

From S2P Require Import Prelude Json Roles Users AuditLog AccessTables CredentialTables World AccessStore LeaseFence KeyedSerializer Provisioner AccountRecovery CredentialStore Credentials CredentialIssue CredentialMirror CredentialLogic CredentialStatements CredentialSample.
Open Scope Z_scope.

Section Issuance.
Context `{EdgeClient} `{CredentialDeps} (env : nat -> turn) (cid : string) (ty : CredentialType) (held : list event -> list string).
Abbreviation pair := (pair_rows cid ty).
Context (Hrivals : forall n d, pair (t_rivals (env n) d) = pair d) `{!GatewayArray env cid ty held}.
Context (Hnonce : forall n, t_nonce (env n) <> REDACTED_MATERIAL).
Context (t0 : credential_table) (b : list string) (must : CredentialRecord -> bool).
Abbreviation run := (run env cid ty held).
Abbreviation txr := (txr env cid ty).

(** The rows there were, of those that matter, stand as they did. *)
Definition kept (t : credential_table) : Prop := forall r, t0 !! cr_id r = Some r ->
  must r = true -> exists r', t !! cr_id r = Some r' /\ standing r r'.

(** The rows mirror the array there was, [b]. *)
Record steady (t : credential_table) : Prop := {
  sy_mirrored : mirrored t b;
  sy_kept : kept t;
}.

(** The array has at most one entry more, at its end; where it is hidden, the rows
    mirror it with that. *)
Record stray (t : credential_table) (a : list string) : Prop := {
  sr_steady : steady t;
  sr_array : exists s, a = b ++ s /\ (length s <= 1)%nat;
  sr_hidden : ty = basicauth -> mirrored t a;
}.

Lemma steady_stray t a : steady t /\ a = b -> stray t a.
Proof. intros [Hs ->]. split; [done| |intros _; apply Hs]. exists []. rewrite app_nil_r. split; [done|simpl; lia]. Qed.

(** A write to a row that does not matter. *)
Lemma kept_write t r r' : kept t -> t !! cr_id r = Some r -> (forall x, standing x r -> must x = true -> False) -> kept (<[cr_id r := r']> t).
Proof.
  intros Hk Hr Hno x Hx Hact. destruct (Hk x Hx Hact) as (x' & Hx' & Hst). exists x'. split; [|done].
  destruct (decide (cr_id x = cr_id r)) as [He|Hne]; [|by rewrite lookup_insert_ne].
  rewrite He, Hr in Hx'. injection Hx' as <-. by destruct (Hno x Hst).
Qed.

Lemma kept_insert t r : kept t -> t !! cr_id r = None -> kept (<[cr_id r := r]> t).
Proof.
  intros Hk Hr x Hx Hact. destruct (Hk x Hx Hact) as (x' & Hx' & Hst). exists x'. split; [|done].
  rewrite lookup_insert_ne; [done|]. congruence.
Qed.

Lemma retiring_not_active r : has_credential_status CredentialRetiring r = true -> has_credential_status CredentialActive r = false.
Proof. intros Hr. apply not_true_is_false. intros Ha. by eapply not_both. Qed.
Lemma retiring_live r : has_credential_status CredentialRetiring r = true -> is_live r = true.
Proof. unfold has_credential_status, is_live. rewrite !bool_decide_eq_true. intros ->. set_solver. Qed.

Lemma steady_settle : (forall r, must r = true -> has_credential_status CredentialActive r = true) ->
  settle_closed (fun t a => steady t /\ a = b).
Proof.
  intros Hmust t a x x' [[_ Hk] ->] Hm Hx Hu Hret Hnot. split; [|done]. split; [by apply mirrored_settle|].
  apply kept_write; [done..|]. intros y [_ Hs] Hy%Hmust. apply (not_both x); [|done].
  unfold has_credential_status in *. by rewrite Hs.
Qed.

Lemma kept_standing t f : kept t -> (forall r, standing r (f r)) -> kept (f <$> t).
Proof.
  intros Hk Hf r Hr Hact. destruct (Hk r Hr Hact) as (r' & Hr' & Hst).
  exists (f r'). rewrite lookup_fmap, Hr'. split; [done|]. destruct Hst as [(E1 & E2 & E3) E4], (Hf r') as [(F1 & F2 & F3) F4].
  split_and!; try congruence. split_and!; congruence.
Qed.

(** *** What is drawn *)

Definition secret_material (s : ShowOnceSecret) : string :=
  match s with SecretKey k => k | SecretPassword _ p => p | SecretJwt j _ => j end.

Record drawn (g : GeneratedCredential) : Prop := {
  dr_entry : credentialMaterial (gc_entry g) ty = Some (gc_material g);
  dr_secret : gc_material g = secret_material (gc_secret g);
}.

Lemma run_generate username P E : run P (generateCredential ty username) (fun g t a => drawn g /\ P t a) E.
Proof.
  intros w He Ht Hp. unfold generateCredential, randomToken, randomNonce, mbind, mret. simpl. split_and!; [done..|].
  assert (Hn : t_nonce (cur w) <> REDACTED_MATERIAL) by (unfold cur; rewrite He; apply Hnonce).
  split; [|done]. split; [|by destruct ty].
  destruct ty; unfold credentialMaterial; simpl; rewrite ?bool_decide_eq_false_2; done.
Qed.

(** ** Taking an entry back *)

Section Withdraw.
Context (P : credential_table -> list string -> Prop) (place : nat) (Hshown : ty <> basicauth).
Context (HP : forall t a, P t a -> length a = S place -> P t (delete place a)).

Lemma run_reread E : run P (reread_withdrawal cid ty place) (fun _ => P) E.
Proof.
  unfold reread_withdrawal. eapply run_bind; [apply run_attempt with (Q := fun _ => P) (F := fun _ => P)|].
  - eapply run_conseq; [apply array_get|done|by intros ? ? ? []|done].
  - intros [[c|]|e]; by apply run_ret.
Qed.

(** Only the last of an array of the length expected goes. *)
Lemma run_withdrawAppendedEntry print actorId :
  run P (withdrawAppendedEntry cid ty place print actorId) (fun _ => P) (fun _ => P).
Proof.
  unfold withdrawAppendedEntry. rewrite bool_decide_eq_false_2 by done.
  eapply run_bind; [apply run_attempt, array_get|]. intros [[c|]|e]; [|by apply run_ret; intros t a []|by apply run_ret].
  eapply run_pre with (P := fun t a => P t a /\ length (default [] (array_entries (ec_credentials c) ty)) = length a).
  2: { intros t a [Hs Hc]. split; [done|]. by apply Hc. }
  set (entries := default [] _). destruct (entries !! place); [|by apply run_ret; intros t a []].
  destruct (length entries =? S place)%nat eqn:Hlen; simpl; [|by apply run_ret; intros t a []]. apply Nat.eqb_eq in Hlen.
  destruct (match credentialMaterial _ _ with Some _ => _ | None => _ end); [by apply run_ret; intros t a []|].
  eapply run_catch with (F := fun _ => P); [|intros; apply run_reread].
  eapply run_bind with (R := fun _ => P); [eapply run_conseq; [apply array_deleteAt|intros t a Hp; exact Hp| |]|].
  - intros _ t a (a0 & [Hs Ha] & ->). apply HP; [exact Hs|lia].
  - intros e t a (a0 & [Hs Ha] & [->| ->]); [done|]. apply HP; [done|lia].
  - intros ?. by apply run_ret.
Qed.
End Withdraw.

(** ** The append *)

Section Append.
Context (x : append_input) (Hcid : ai_consumerId x = cid) (Hty : ai_type x = ty).
Context (Hrecord : forall record row P, ai_recordWithRow x = Some record -> txr P (record row) (fun _ => P)).

Lemma append_row_pair g s id now : of_pair cid ty (append_row x g s id now) = true.
Proof. unfold of_pair, append_row. simpl. by rewrite !bool_decide_eq_true_2. Qed.

(** An answer: the row is active, of the secret handed out, and its entry is the
    last. *)
Record added (m : issued) (t : credential_table) (a : list string) : Prop := {
  ad_mirrored : mirrored t a;
  ad_kept : kept t;
  ad_array : a = b ++ [cr_fingerprint (is_credential m)];
  ad_row : t !! cr_id (is_credential m) = Some (is_credential m);
  ad_active : has_credential_status CredentialActive (is_credential m) = true;
  ad_secret : cr_fingerprint (is_credential m) = fingerprint (secret_material (is_secret m));
  ad_owner : cr_user_id (is_credential m) = ai_ownerId x;
}.

Lemma txr_record_row row P : txr P (record_row x row) (fun _ => P).
Proof. unfold record_row. destruct (ai_recordWithRow x) as [record|] eqn:Hr; [by apply Hrecord|by apply txr_ret]. Qed.

Lemma txr_create g s t : keyed cr_id t ->
  txr (fun t' => t' = t) (credential_create (append_row x g s))
    (fun r t' => created_from (append_row x g s) t r /\ t' = <[cr_id r := r]> t).
Proof.
  intros Hk. eapply txr_statement; [apply does_create, append_row_pair|]. intros r t1 t' -> Hr. by apply Hr.
Qed.

Lemma created_status g s t r : created_from (append_row x g s) t r -> cr_status r = s.
Proof. intros [(id & now & _ & Hs & _) _]. done. Qed.

Lemma still_recordAppendRollback c gone stranded suspected cause : still env cid ty held (recordAppendRollback c gone stranded suspected cause).
Proof. apply still_ignore, still_statement; [done|apply untouched_audit]. Qed.

(** *** The hidden type: the row first *)

Section Hidden.
Context (g : GeneratedCredential) (Hg : drawn g).

(** The pending row is in. *)
Definition pended (p : CredentialRecord) (t : credential_table) : Prop := exists t1,
  steady t1 /\ created_from (append_row x g CredentialRetiring) t1 p /\ t = <[cr_id p := p]> t1.

Lemma pended_retiring p t : pended p t -> has_credential_status CredentialRetiring p = true.
Proof. intros (t1 & _ & Hc & _). unfold has_credential_status. apply bool_decide_eq_true. by eapply created_status. Qed.

Lemma pended_row p t : pended p t -> t !! cr_id p = Some p.
Proof. intros (t1 & _ & _ & ->). apply lookup_insert_eq. Qed.

Lemma pended_kept p t : pended p t -> kept t.
Proof. intros (t1 & [_ Hk] & [_ Hn] & ->). apply kept_insert; [done|apply Hn]. Qed.

(** It may have its entry or not. *)
Lemma pended_mirrored p t a : pended p t -> a = b \/ a = b ++ [cr_fingerprint p] -> mirrored t a.
Proof.
  intros Hp Ha. pose proof (pended_retiring _ _ Hp) as Hret. destruct Hp as (t1 & [Hm _] & [_ Hn] & ->).
  eapply mirrored_append; [done..|by apply retiring_live|done|]. intros Hact. by destruct (not_both p).
Qed.

Lemma pended_stray p t a : pended p t -> a = b \/ a = b ++ [cr_fingerprint p] -> stray t a.
Proof.
  intros Hp Ha. split; [split; [by eapply pended_mirrored; [|left]|by eapply pended_kept]| |intros _; by eapply pended_mirrored].
  destruct Ha as [->| ->]; [exists []|by exists [cr_fingerprint p]]. rewrite app_nil_r. split; [done|simpl; lia].
Qed.

Lemma pended_dropped p t : pended p t -> steady (unlink_rotation (cr_id p) <$> delete (cr_id p) t).
Proof.
  intros (t1 & [Hm Hk] & [_ Hn] & ->). rewrite delete_insert_id by apply Hn.
  split; [apply mirrored_standing|apply kept_standing]; try done; intros r; apply unlink_standing.
Qed.

Definition placed (p : CredentialRecord) (t : credential_table) (a : list string) : Prop :=
  pended p t /\ a = b ++ [cr_fingerprint p].

Lemma placed_stray p t a : placed p t a -> stray t a.
Proof. intros [Hp ->]. eapply pended_stray; [done|by right]. Qed.

Lemma placed_active p t a p' : placed p t a -> updated_to CredentialActive p p' -> mirrored (<[cr_id p := p']> t) a /\ kept (<[cr_id p := p']> t).
Proof.
  intros [Hp ->] Hu. pose proof (pended_mirrored _ _ _ Hp (or_intror eq_refl)) as Hm.
  pose proof (pended_row _ _ Hp) as Hr. pose proof (pended_retiring _ _ Hp) as Hret.
  pose proof (updated_status _ _ _ Hu) as Hst. split.
  - apply (mirrored_write t (b ++ [cr_fingerprint p]) p p'); [done..|by eapply updated_restatus|done| | | |].
    + intros _. by apply retiring_live.
    + intros Hd. assert (is_live p' = true); [|congruence]. apply active_live. unfold has_credential_status. by rewrite Hst.
    + intros _. apply elem_of_app. right. by left.
    + intros y Hy _. by apply (mir_active _ _ Hm).
  - destruct Hp as (t1 & [_ Hk] & [_ Hn] & ->). rewrite insert_insert_eq.
    destruct (updated_restatus _ _ _ Hu) as [Hi _]. rewrite <- Hi. apply kept_insert; [done|]. rewrite Hi. apply Hn.
Qed.

Lemma run_restore p : run (placed p) (restore_uncertainty (cr_id p)) (fun _ => placed p) (fun _ => placed p).
Proof.
  assert (Hsame : forall t a, placed p t a -> txr (fun t' => t' = t)
            (credential_updateIfStatus (cr_id p) CredentialRevoked CredentialRetiring) (fun _ t' => placed p t' a)).
  { intros t a Hp. pose proof Hp as [Hpe _]. pose proof (pended_row _ _ Hpe) as Hr.
    pose proof (pended_retiring _ _ Hpe) as Hret. eapply txr_statement; [apply does_updateIfStatus|].
    intros r t1 t' -> Hf. specialize (Hf p Hr eq_refl). unfold has_credential_status in *.
    apply bool_decide_eq_true in Hret. rewrite Hret in Hf. by destruct Hf as [_ ->]. }
  assert (Hout : run (placed p) (credential_updateIfStatus (cr_id p) CredentialRevoked CredentialRetiring)
            (fun _ => placed p) (fun _ => placed p)).
  { eapply run_statement; [done|apply does_updateIfStatus| |done]. intros r t t' a Hp Hf.
    pose proof Hp as [Hpe _]. specialize (Hf p (pended_row _ _ Hpe) eq_refl).
    pose proof (pended_retiring _ _ Hpe) as Hret. unfold has_credential_status in *.
    apply bool_decide_eq_true in Hret. rewrite Hret in Hf. by destruct Hf as [_ ->]. }
  unfold restore_uncertainty. eapply run_catch with (F := fun _ => placed p).
  - eapply run_bind; [apply run_transaction; [done|exact Hsame|done]|]. intros r. by apply run_ret.
  - intros e. unfold ignore_errors. eapply run_catch with (F := fun _ => placed p); [|intros; by apply run_ret].
    eapply run_bind; [exact Hout|]. intros r. by apply run_ret.
Qed.

Lemma created_print p t : pended p t -> fingerprint (gc_material g) = cr_fingerprint p.
Proof. intros (t1 & _ & [(id & now & Hf & _) _] & _). by rewrite Hf. Qed.

(** What the answer of the gateway leaves. *)
Definition unsure (p : CredentialRecord) (refused : bool) (t : credential_table) (a : list string) : Prop :=
  pended p t /\ (a = b \/ refused = false /\ a = b ++ [cr_fingerprint p]).

Lemma run_add_hidden p : run (fun t a => pended p t /\ a = b) (edge_addCredential cid ty (gc_entry g) (act_id (ai_actor x)))
  (fun _ => placed p) (fun e => unsure p (definitely_refused e)).
Proof.
  eapply run_conseq; [apply array_add, Hg|intros t a Hp; exact Hp|..].
  - intros _ t a (a0 & [Hp ->] & ->). split; [done|]. by rewrite (created_print _ _ Hp).
  - intros e t a [[Hp ->]|(Hr & a0 & [Hp ->] & ->)]; (split; [done|]); [by left|right]. split; [done|].
    by rewrite (created_print _ _ Hp).
Qed.

Lemma unsure_stray p refused t a : unsure p refused t a -> stray t a.
Proof. intros [Hp Ha]. eapply pended_stray; [done|]. destruct Ha as [?|[_ ?]]; auto. Qed.

Lemma run_dropped p : run (unsure p true) (transaction (credential_delete (cr_id p))) (fun _ => stray) (fun _ => stray).
Proof.
  apply run_transaction; [done| |intros _; apply unsure_stray]. intros t a [Hp [->|[[=] _]]].
  unfold credential_delete, statement_ok. eapply txr_statement; [apply does_delete|].
  intros ok t1 t' -> [[-> _]| ->]; [by eapply pended_stray; [|left]|]. apply steady_stray. split; [by apply pended_dropped|done].
Qed.

Lemma placed_added p t a p' : placed p t a -> updated_to CredentialActive p p' ->
  added {| is_credential := p'; is_secret := gc_secret g |} (<[cr_id p := p']> t) a.
Proof.
  intros Hp Hu. pose proof (updated_restatus _ _ _ Hu) as (Hi & Hf & _). destruct (placed_active _ _ _ _ Hp Hu) as [Hm Hk].
  destruct Hp as [Hp ->]. split; simpl; [done|done| | | | |].
  - by rewrite Hf.
  - rewrite Hi. apply lookup_insert_eq.
  - unfold has_credential_status. by rewrite (updated_status _ _ _ Hu).
  - rewrite Hf, <- (created_print _ _ Hp). f_equal. apply Hg.
  - destruct Hu as [at_ ->]. by destruct Hp as (t1 & _ & [(id & now & _ & _ & Hu) _] & _).
Qed.

Lemma run_append_hidden : run (fun t a => steady t /\ a = b) (append_hidden x g) added (fun _ => stray).
Proof.
  unfold append_hidden. rewrite Hcid, Hty. eapply run_bind with (R := fun p t a => pended p t /\ a = b).
  { apply run_transaction; [done| |intros _; apply steady_stray]. intros t a [Hs ->]. eapply txr_conseq; [apply txr_create, Hs|done|].
    intros p t' [Hc ->]. split; [by exists t|done]. }
  intros p. eapply run_bind with (R := fun _ => placed p).
  { eapply run_catch; [apply run_add_hidden|]. intros e. simpl. destruct (definitely_refused e).
    - eapply run_bind; [apply run_dropped|]. intros ?. by apply run_throw.
    - apply run_skip; [apply still_recordAppendRollback|intros _; apply unsure_stray|]. intros ?. apply run_throw, unsure_stray. }
  intros ?. eapply run_bind with (R := fun row => added {| is_credential := row; is_secret := gc_secret g |});
    [|intros row; by apply run_ret].
  eapply run_catch with (F := fun _ => placed p).
  - apply run_transaction; [done| |done]. intros t a Hp. pose proof Hp as [Hpe _].
    pose proof (pended_retiring _ _ Hpe) as Hret. eapply txr_bind with (R := fun r t' => exists p', r = Some p'
      /\ added {| is_credential := p'; is_secret := gc_secret g |} t' a).
    { eapply txr_statement; [apply does_updateIfStatus|]. intros r t1 t' -> Hf. specialize (Hf p (pended_row _ _ Hpe) eq_refl).
      rewrite Hret in Hf. destruct Hf as (p' & Hu & -> & ->). exists p'. split; [done|by apply placed_added]. }
    intros r. eapply txr_pure with (phi := exists p', r = Some p'); [intros t' (p' & -> & _); by exists p'|].
    intros [p' ->]. simpl. eapply txr_bind with (R := fun row t' => row = p' /\ added {| is_credential := p'; is_secret := gc_secret g |} t' a).
    { apply txr_ret. by intros t' (q & [= <-] & Ha). }
    intros row. eapply txr_pure; [by intros t' [Hrow _]|]. intros ->. eapply txr_bind; [apply txr_record_row|].
    intros ?. by apply txr_ret; intros t' [_ ?].
  - intros e. simpl. apply run_skip; [apply run_restore|intros _; apply placed_stray|]. intros ?.
    apply run_skip; [apply still_recordAppendRollback|intros _; apply placed_stray|]. intros ?. apply run_throw, placed_stray.
Qed.
End Hidden.

(** *** The other types: the entry first *)

Section Shown.
Context (g : GeneratedCredential) (Hg : drawn g) (Hshown : ty <> basicauth) (Hplace : ai_appendIndex x = length b).

(** One entry more than rows answer for, at the place the append had. *)
Definition strayed (t : credential_table) (a : list string) : Prop := steady t /\ exists s, a = b ++ s /\ (length s <= 1)%nat.

Definition entered (t : credential_table) (a : list string) : Prop := steady t /\ a = b ++ [fingerprint (gc_material g)].

Lemma entered_strayed t a : entered t a -> strayed t a.
Proof. intros [Hs ->]. split; [done|]. by eexists. Qed.
Lemma strayed_stray t a : strayed t a -> stray t a.
Proof. by intros [? ?]. Qed.

Lemma strayed_deleted t a : strayed t a -> length a = S (length b) -> strayed t (delete (length b) a).
Proof.
  intros (Hs & s & -> & Hlen) Hl. rewrite length_app in Hl. split; [done|]. exists [].
  destruct s as [|f [|? ?]]; simpl in *; [lia| |lia]. rewrite app_nil_r. split; [|lia].
  rewrite delete_take_drop, take_app_length. replace (S (length b)) with (length (b ++ [f])) by (rewrite length_app; simpl; lia).
  by rewrite drop_all, app_nil_r.
Qed.

Lemma run_withdraw_stray print actorId :
  run strayed (withdrawAppendedEntry cid ty (ai_appendIndex x) print actorId) (fun _ => strayed) (fun _ => strayed).
Proof.
  rewrite Hplace. apply run_withdrawAppendedEntry; [done|]. intros t a Hs Hlen. by apply strayed_deleted.
Qed.

Lemma run_add_shown : run (fun t a => steady t /\ a = b) (edge_addCredential cid ty (gc_entry g) (act_id (ai_actor x)))
  (fun _ => entered) (fun _ => strayed).
Proof.
  eapply run_conseq; [apply array_add, Hg|intros t a Hp; exact Hp|..].
  - by intros _ t a (a0 & [Hs ->] & ->).
  - intros e t a [[Hs ->]|(_ & a0 & [Hs ->] & ->)]; [|by apply entered_strayed].
    split; [done|]. exists []. rewrite app_nil_r. split; [done|simpl; lia].
Qed.

Lemma created_added t a r : entered t a -> created_from (append_row x g CredentialActive) t r ->
  added {| is_credential := r; is_secret := gc_secret g |} (<[cr_id r := r]> t) a.
Proof.
  intros [[Hm Hk] ->] [(id & now & Hf & Hst & Hu) Hn]. simpl in Hf, Hst, Hu.
  assert (Hact : has_credential_status CredentialActive r = true) by (unfold has_credential_status; by rewrite Hst).
  split; simpl; [|by apply kept_insert; [|apply Hn]|by rewrite Hf|apply lookup_insert_eq|done| |done].
  - eapply mirrored_append; [done|done|by apply active_live|right; by rewrite Hf|by rewrite Hf].
  - rewrite Hf. f_equal. apply Hg.
Qed.

Lemma run_create_row :
  run entered
    (match ai_recordWithRow x with
     | Some record => transaction (do created <- credential_create (append_row x g CredentialActive); do_ record created; mret created)
     | None => credential_create (append_row x g CredentialActive)
     end) (fun row => added {| is_credential := row; is_secret := gc_secret g |}) (fun _ => entered).
Proof.
  destruct (ai_recordWithRow x) as [record|] eqn:Hr.
  - apply run_transaction; [done| |done]. intros t a He. assert (Hk : keyed cr_id t) by (destruct He as [[[] _] _]; done).
    eapply txr_bind; [by apply txr_create|]. intros created. eapply txr_bind; [by apply Hrecord|]. intros ?.
    apply txr_ret. intros t' [Hc ->]. by apply created_added.
  - eapply run_statement; [done|apply does_create, append_row_pair| |done]. intros row t t' a He Hc.
    destruct Hc as [Hc ->]; [by destruct He as [[[] _] _]|]. by apply created_added.
Qed.

Lemma run_append_shown : run (fun t a => steady t /\ a = b) (append_shown x g) added (fun _ => stray).
Proof.
  unfold append_shown. rewrite Hcid, Hty. eapply run_bind with (R := fun _ => entered).
  { eapply run_catch; [apply run_add_shown|]. intros e. simpl. apply run_skip with (E := fun _ => stray);
      [|intros _; apply strayed_stray|intros ?; apply run_throw, strayed_stray].
    unfold reclaimUnacknowledgedAppend, append_context_of. simpl. rewrite Hcid, Hty. eapply run_bind; [apply run_withdraw_stray|].
    intros w. destruct (_ && _); [by apply run_ret|apply still_recordAppendRollback]. }
  intros ?. eapply run_bind with (R := fun row => added {| is_credential := row; is_secret := gc_secret g |});
    [|intros row; by apply run_ret].
  eapply run_catch; [apply run_create_row|]. intros e. simpl.
  eapply run_pre; [|apply entered_strayed].
  apply run_skip; [apply run_withdraw_stray|intros _; apply strayed_stray|]. intros w.
  apply run_skip; [apply still_recordAppendRollback|intros _; apply strayed_stray|]. intros ?. apply run_throw, strayed_stray.
Qed.
End Shown.

Lemma run_appendCredential : (ty <> basicauth -> ai_appendIndex x = length b) ->
  run (fun t a => steady t /\ a = b) (appendCredential x) added (fun _ => stray).
Proof.
  intros Hplace. unfold appendCredential. rewrite Hty. eapply run_bind; [apply run_generate|]. intros g. simpl.
  eapply run_pure; [intros t a [Hd _]; exact Hd|]. intros Hd. case_bool_decide as Hb.
  - eapply run_pre; [by apply run_append_hidden|by intros t a (_ & ?)].
  - eapply run_pre; [apply run_append_shown; [done|done|by apply Hplace]|by intros t a (_ & ?)].
Qed.
End Append.

(** ** The section of an issue *)

Lemma still_assertOwnerActive userId : still env cid ty held (assertOwnerActive userId).
Proof.
  apply still_bind; [apply still_read; done|]. intros owner. apply still_bind; [destruct owner; [apply still_ret|apply still_throw]|].
  intros u. unfold ensure. case_match; [apply still_ret|apply still_throw].
Qed.
Lemma still_application userId id application : still env cid ty held (application_usable userId id application).
Proof. unfold application_usable. repeat case_match; [apply still_throw|apply still_throw|apply still_ret|apply still_throw]. Qed.
Lemma still_assertNoPendingRecovery userId : still env cid ty held (assertNoPendingRecovery userId).
Proof.
  apply still_bind; [by apply still_read|]. intros [job|]; [|apply still_ret]. destruct (recoveryBlocksIssuance job);
    [apply still_throw|apply still_ret].
Qed.

Lemma listed_length c R t a : live_order t R -> mirrored t a -> shows ty c a ->
  listed ty R (edgeArrayLength (ec_credentials c) ty (length R)) t a.
Proof.
  intros HR Hm Hc. split; [done..| |]; intros Hb; unfold edgeArrayLength.
  - rewrite bool_decide_eq_false_2 by done. by apply Hc.
  - by rewrite bool_decide_eq_true_2.
Qed.

Lemma run_admit_issue input : (forall r, must r = true -> has_credential_status CredentialActive r = true) ->
  ii_consumerId input = cid -> ii_credentialType input = ty ->
  run (fun t a => steady t /\ a = b) (admit_issue input) (fun n t a => (steady t /\ a = b) /\ (ty <> basicauth -> n = length b))
    (fun _ t a => steady t /\ a = b).
Proof.
  intros Hmust Hcid Hty. unfold admit_issue. rewrite Hcid, Hty. set (I := fun t a => steady t /\ a = b).
  apply run_skip; [apply still_assertOwnerActive|done|]. intros ?.
  apply run_skip; [|done|].
  { destruct (ii_applicationId input); [|apply still_ret]. apply still_bind; [by apply still_read|]. intros app. apply still_application. }
  intros ?. eapply run_bind; [apply array_get|]. intros found_.
  eapply run_bind; [apply run_found; by intros t a []|]. intros consumer.
  eapply run_pre with (P := fun t a => I t a /\ shows ty consumer a); [|intros t a (-> & Hs & Hc); done].
  eapply run_bind; [eapply run_err; [apply run_liveRows; [done|]|by intros e t a []]|].
  { intros t a [[[Hm _] _] _]. apply Hm. }
  intros live. simpl. set (n := edgeArrayLength _ _ _).
  eapply run_bind; [eapply run_pre; [apply (run_settle env cid ty held Hrivals I live n), steady_settle, Hmust|]|].
  { intros t a (HR & Hs & Hc). split; [done|]. pose proof Hs as [[Hm _] ->]. by apply listed_length. }
  intros rows. eapply run_pre with (P := fun t a => I t a /\ (ty <> basicauth -> n = length b)).
  2: { intros t a [[Hs Hl] _]. split; [done|]. pose proof Hs as [_ ->]. apply Hl. }
  apply run_skip; [by apply run_checked|by intros e t a []|]. intros ?.
  apply run_skip; [by apply run_ensure|by intros e t a []|]. intros ?.
  apply run_skip; [destruct (ii_recoveryGate input); [apply still_assertNoPendingRecovery|apply still_ret]|by intros e t a []|].
  intros ?. by apply run_ret.
Qed.
End Issuance.

Section Issue.
Context `{EdgeClient} `{CredentialDeps} (env : nat -> turn) (cid : string) (ty : CredentialType) (held : list event -> list string).
Context (Hrivals : forall n d, pair_rows cid ty (t_rivals (env n) d) = pair_rows cid ty d) `{!GatewayArray env cid ty held}.
Context (Hnonce : forall n, t_nonce (env n) <> REDACTED_MATERIAL).

(** The rows that were active stand, and the array grew at its end only. *)
Definition all_active : CredentialRecord -> bool := has_credential_status CredentialActive.

Lemma run_issueForConsumer t0 b input : ii_consumerId input = cid -> ii_credentialType input = ty ->
  (forall record row P, ii_recordWithRow input = Some record -> txr env cid ty P (record row) (fun _ => P)) ->
  run env cid ty held (fun t a => (t = t0 /\ a = b) /\ mirrored t a) (issueForConsumer input)
    (fun m t a => mirrored t a /\ kept t0 all_active t /\ a = b ++ [cr_fingerprint (is_credential m)]
       /\ t !! cr_id (is_credential m) = Some (is_credential m)
       /\ has_credential_status CredentialActive (is_credential m) = true
       /\ cr_fingerprint (is_credential m) = fingerprint (secret_material (is_secret m))
       /\ cr_user_id (is_credential m) = u_id (ii_user input))
    (fun _ => stray ty t0 b all_active).
Proof.
  intros Hcid Hty Hrec. assert (Hstart : forall t a, (t = t0 /\ a = b) /\ mirrored t a -> steady t0 b all_active t /\ a = b).
  { intros t a [[-> ->] Hm]. split; [|done]. split; [done|]. intros r Hr _. by exists r. }
  unfold issueForConsumer. rewrite Hcid. apply run_locks; [done| |intros _ t a Hs; by apply steady_stray, Hstart].
  eapply run_pre; [|exact Hstart]. eapply run_bind; [eapply run_err; [by apply run_admit_issue|intros ?; apply steady_stray]|].
  intros n. simpl. eapply run_pure; [intros t a [_ Hn]; exact Hn|]. intros Hn.
  eapply run_conseq; [apply (run_appendCredential env cid ty held Hrivals Hnonce t0 b all_active); [done|done|exact Hrec|exact Hn]|by intros t a []| |done].
  intros m t a []. by split_and!.
Qed.
End Issue.

(** C12: issuing a credential adds one row and one entry, and loses none. Where the
    rows mirrored the gateway's array, an answer leaves them a mirror of it still:
    the array has one entry more, at its end, and the new row is active, belongs to
    the account, has that entry and is of the secret that is handed out. Whatever
    failed instead, the array has at most one entry more at its end, the rows
    mirror what was there before it, and where the gateway hides the array, all of
    it. Either way every row that was active stands as it did. *)
Theorem issue_adds_one_entry `{EdgeClient} `{CredentialDeps} env held input w :
  let cid := ii_consumerId input in let ty := ii_credentialType input in let pair := pair_rows cid ty in
  (forall n d, pair (t_rivals (env n) d) = pair d) -> GatewayArray env cid ty held ->
  (forall n, t_nonce (env n) <> REDACTED_MATERIAL) ->
  (forall record row P, ii_recordWithRow input = Some record -> txr env cid ty P (record row) (fun _ => P)) ->
  w_env w = env -> w_tx w = false -> mirrored (pair (w_db w)) (held (w_trace w)) ->
  let w' := (issueForConsumer input w).2 in
  match (issueForConsumer input w).1 with
  | Ok made => mirrored (pair (w_db w')) (held (w_trace w'))
      /\ kept (pair (w_db w)) all_active (pair (w_db w'))
      /\ held (w_trace w') = held (w_trace w) ++ [cr_fingerprint (is_credential made)]
      /\ pair (w_db w') !! cr_id (is_credential made) = Some (is_credential made)
      /\ has_credential_status CredentialActive (is_credential made) = true
      /\ cr_fingerprint (is_credential made) = fingerprint (secret_material (is_secret made))
      /\ cr_user_id (is_credential made) = u_id (ii_user input)
  | Throw _ => stray ty (pair (w_db w)) (held (w_trace w)) all_active (pair (w_db w')) (held (w_trace w'))
  end.
Proof.
  intros cid ty pair Hrivals Hgateway Hnonce Hrec He Ht Hm w'.
  destruct (run_issueForConsumer env cid ty held Hrivals Hnonce (pair (w_db w)) (held (w_trace w)) input eq_refl eq_refl Hrec w He Ht)
    as (_ & _ & Hr); [done|]. subst w'. by destruct (issueForConsumer input w) as [[made|e] w'].
Qed.

Definition sample_recorded (created : CredentialRecord) : M unit :=
  do_ audit_record (audit_actor (acting sample_user)) "credential.issue" (on_credential (cr_id created)) [] None; mret tt.
Definition sample_issue_input : issue_input := {|
  ii_user := sample_user; ii_applicationId := None; ii_consumerId := "consumer-1";
  ii_consumerUsername := "nexus-user-u1"; ii_credentialType := keyauth; ii_label := None; ii_skipCap := false;
  ii_ip := None; ii_recordWithRow := Some sample_recorded; ii_recoveryGate := true;
|}.

Lemma issue_adds_one_entry_witness :
  w_trace (issueForConsumer sample_issue_input sample_credentials).2
    = w_trace sample_credentials ++ [CredentialAppended "consumer-1" keyauth "nxs_abcdefghijkl"]
  /\ (exists made, (issueForConsumer sample_issue_input sample_credentials).1 = Ok made)
  /\ match (issueForConsumer sample_issue_input sample_credentials).1 with
     | Ok made => mirrored (pair_rows "consumer-1" keyauth (w_db (issueForConsumer sample_issue_input sample_credentials).2))
                    (sample_held "consumer-1" keyauth (w_trace (issueForConsumer sample_issue_input sample_credentials).2))
     | Throw _ => False
     end.
Proof.
  split; [vm_compute; reflexivity|]. split; [eexists; vm_compute; reflexivity|].
  assert (Hrec : forall record row P, ii_recordWithRow sample_issue_input = Some record ->
            txr sample_turn "consumer-1" keyauth P (record row) (fun _ => P)).
  { intros record row P [= <-]. eapply txr_bind; [apply txr_audit|]. intros ?. by apply txr_ret. }
  pose proof (issue_adds_one_entry sample_turn (sample_held "consumer-1" keyauth) sample_issue_input sample_credentials
    (fun _ _ => eq_refl) (sample_array_kept _ _ _) (fun _ => ltac:(discriminate)) Hrec eq_refl eq_refl sample_mirrored) as Hall.
  cbv zeta in Hall. assert (Hok : exists made, (issueForConsumer sample_issue_input sample_credentials).1 = Ok made)
    by (eexists; vm_compute; reflexivity).
  destruct Hok as [made Hok]. rewrite Hok in Hall |- *. apply Hall.
Defined.
