(* ===== verification/CredentialRotation.v ===== *)
(** * Rotation replaces one credential

    [rotate] under the consumer's key: an answer leaves the array as it was with
    the previous entry out and the replacement's at the end; whatever fails, no
    other active credential loses its row or its entry. *)

From S2P Require Import Prelude Json Roles Users AuditLog AccessTables CredentialTables World AccessStore LeaseFence KeyedSerializer Provisioner AccountRecovery CredentialStore Credentials CredentialIssue CredentialMirror CredentialLogic CredentialStatements CredentialSample CredentialRevocation CredentialIssuance.
Open Scope Z_scope.

Section Rotation.
Context `{EdgeClient} `{CredentialDeps} (env : nat -> turn) (target : CredentialRecord) (held : list event -> list string).
Abbreviation cid := (cr_ferrum_consumer_id target).
Abbreviation ty := (cr_credential_type target).
Abbreviation tid := (cr_id target).
Abbreviation pair := (pair_rows cid ty).
Context (Hrivals : forall n d, pair (t_rivals (env n) d) = pair d) `{!GatewayArray env cid ty held}.
Context (Hnonce : forall n, t_nonce (env n) <> REDACTED_MATERIAL).
Context (t0 : credential_table) (a0 : list string).
Abbreviation run := (run env cid ty held).
Abbreviation txr := (txr env cid ty).
Abbreviation sound := (sound target t0).

(** The other credentials that were active. *)
Definition other (r : CredentialRecord) : Prop :=
  t0 !! cr_id r = Some r /\ has_credential_status CredentialActive r = true /\ cr_id r <> tid.

(** They stand, each with its entry. *)
Definition unharmed (t : credential_table) (a : list string) : Prop := forall r, other r ->
  (exists r', t !! cr_id r = Some r' /\ standing r r') /\ cr_fingerprint r ∈ a.

Lemma sound_unharmed t a : sound t a -> unharmed t a.
Proof.
  intros Hs r (Hr & Hact & Hne). pose proof (so_spared _ _ _ _ Hs r Hne Hr Hact) as Ht.
  split; [by exists r|]. by apply (mir_active _ _ (so_mirrored _ _ _ _ Hs)).
Qed.

(** Rows all standing still, and an array that lost nothing. *)
Lemma unharmed_kept t1 t a1 a : unharmed t1 a1 -> kept t1 (fun _ => true) t -> (forall r, other r -> cr_fingerprint r ∈ a1 -> cr_fingerprint r ∈ a) ->
  keyed cr_id t1 -> unharmed t a.
Proof.
  intros Hu Hk Ha Hkey r Ho. destruct (Hu r Ho) as [(r' & Hr' & [(E1 & E2 & E3) E4]) Hin]. split; [|by apply Ha].
  pose proof (Hkey _ _ Hr') as Hi. simpl in Hi. destruct (Hk r') as (r'' & Hr'' & [(F1 & F2 & F3) F4]); [by rewrite Hi|done|].
  exists r''. split; [by rewrite <- Hi|]. split_and!; try congruence. split_and!; congruence.
Qed.

(** A write to the target's row. *)
Lemma unharmed_write t a r : unharmed t a -> cr_id r = tid -> unharmed (<[cr_id r := r]> t) a.
Proof.
  intros Hu Hi x Ho. destruct (Hu x Ho) as [(x' & Hx & Hst) Hin]. split; [|done]. exists x'. split; [|done].
  destruct Ho as (_ & _ & Hne). rewrite lookup_insert_ne; [done|congruence].
Qed.

(** *** The plan *)

(** What the section found under the key: the target's row, live, and where its
    entry is. *)
Record planned (plan : rotation_plan) (t : credential_table) (a : list string) : Prop := {
  pl_sound : sound t a;
  pl_array : a = a0;
  pl_row : t !! tid = Some (rp_current plan);
  pl_live : is_live (rp_current plan) = true;
  pl_entry : a !! rp_position plan = Some (cr_fingerprint (rp_current plan));
  pl_length : rp_length plan = length a;
}.

Lemma run_plan_rotation user ip :
  run (fun t a => sound t a /\ a = a0) (plan_rotation user target ip)
    (fun plan t a => (cr_id (rp_current plan) = tid /\ of_pair cid ty (rp_current plan) = true) /\ planned plan t a) (fun _ => sound).
Proof.
  unfold plan_rotation. set (I := fun t a => sound t a /\ a = a0).
  assert (HI : forall t a, I t a -> sound t a) by by intros t a [].
  eapply run_bind; [eapply run_err; [apply run_find; [done|intros t a [Hs _]; apply Hs]|intros ?; exact HI]|]. intros row.
  eapply run_pure with (phi := exists r, row = Some r /\ of_pair cid ty r = true /\ cr_id r = tid).
  { intros t a (r & -> & Hr & Hp & Hs & _). exists r. split_and!; [done..|]. by destruct (keyed_lookup _ _ _ _ _ _ Hs Hr). }
  intros (current & -> & Hp & Hid).
  apply run_pre with (P := fun t a => t !! tid = Some current /\ I t a); [|intros t a (r & [= <-] & Hr & _ & Hs); by split].
  set (J := fun t a => t !! tid = Some current /\ I t a). assert (HJ : forall t a, J t a -> sound t a) by by intros t a [_ []].
  eapply run_bind with (R := fun c t a => c = current /\ J t a); [by apply run_ret|]. intros c.
  eapply run_pure; [by intros t a [Hc _]|]. intros ->. eapply run_pre with (P := J); [|by intros t a []].
  apply run_skip; [by apply run_ensure|intros _; apply HJ|]. intros ?.
  destruct (is_live current) eqn:Hl; simpl; [|eapply run_bind with (R := fun _ _ _ => False); [by apply run_throw|by intros _ w _ _ []]].
  apply run_skip; [by apply run_ret|intros _; apply HJ|]. intros ?.
  apply run_skip; [apply still_assertOwnerActive; done|intros _; apply HJ|]. intros ?.
  apply run_skip; [|intros _; apply HJ|].
  { destruct (cr_application_id current); [|apply still_ret]. apply still_bind; [by apply still_read|]. intros app.
    unfold ensure. case_match; [apply still_ret|apply still_throw]. }
  intros ?. eapply run_bind; [eapply run_err; [apply array_get|intros ?; exact HJ]|]. intros found_.
  eapply run_bind; [apply run_found; by intros t a [[_ []] _]|]. intros consumer.
  eapply run_pre with (P := fun t a => J t a /\ shows ty consumer a); [|intros t a (-> & Hj & Hc); done].
  eapply run_bind; [eapply run_err; [apply run_liveRows; [done|]|by intros e t a [[_ []]]]|].
  { intros t a [[_ [Hs _]] _]. apply (so_mirrored _ _ _ _ Hs). }
  intros live. simpl. set (n := edgeArrayLength _ _ _).
  set (K := fun t a => (sound t a /\ still_current target current t) /\ a = a0).
  assert (HK : settle_closed K).
  { intros t a y y' [Hk Ha] Hm Hx Hu Hret Hnot. split; [|done]. by apply (settle_sound target t0 current t a y y'). }
  eapply run_bind; [eapply run_conseq; [apply (run_settle env cid ty held Hrivals K live n _ _ HK)| |intros R t a Hr; exact Hr|by intros e t a [[]]]|].
  { intros t a (HR & [Hc [Hs Ha]] & Hsh). split.
    - split; [|done]. split; [done|]. intros r Hr _. congruence.
    - by apply listed_length; [|apply (so_mirrored _ _ _ _ Hs)|]. }
  intros rows. eapply run_pre with (P := fun t a => counted target t0 current rows n t a /\ a = a0).
  2: { intros t a [[[Hk Ha] Hlist] _]. split; [|done]. by apply counted_listed. }
  eapply run_bind with (R := fun _ t a => assertPositionsConfirmed rows cid ty = Ok tt /\ counted target t0 current rows n t a /\ a = a0).
  { apply run_checked; [intros [] t a; by split|by intros e t a _ [[] _]]. }
  intros _. eapply run_pure; [by intros t a [Hc _]|]. intros Hconf.
  eapply run_bind with (R := fun place t a => resolveCredentialIndex rows current n = Ok place /\ counted target t0 current rows n t a /\ a = a0).
  { apply run_checked; [by intros place t a Hr [_ ?]|by intros e t a _ (_ & [] & _)]. }
  intros place. eapply run_pure; [by intros t a [Hr _]|]. intros Hres.
  eapply run_bind with (R := fun i t a => place = AtIndex i /\ counted target t0 current rows n t a /\ a = a0).
  { destruct place as [i| |]; [by apply run_ret; intros t a [_ ?]|by apply run_throw; intros t a (_ & [] & _)..]. }
  intros i. eapply run_pure; [by intros t a [Hi _]|]. intros ->.
  apply run_skip; [apply still_assertNoPendingRecovery; done|by intros e t a (_ & [] & _)|]. intros ?.
  apply run_ret. intros t a (_ & Hc & Ha). split; [done|].
  pose proof (confirmed_length _ _ _ _ _ _ _ _ _ Hc Hconf Hres) as Hlen.
  destruct (resolved_index _ _ _ _ _ _ _ _ Hc Hid Hlen Hres) as (Hrow & _ & Hi).
  split; simpl; [apply Hc|done..|]. rewrite <- Hlen. symmetry. by eapply resolve_length.
Qed.

(** *** The replacement *)

Section Plan.
Context (user : UserRecord) (plan : rotation_plan) (label ip : option string).
Context (Hid : cr_id (rp_current plan) = tid) (Hpair : of_pair cid ty (rp_current plan) = true).
Abbreviation current := (rp_current plan).
Abbreviation index := (rp_position plan).

(** The array with the previous entry out. *)
Definition rest : list string := delete index a0.

(** The replacement of an array [b] is in. *)
Record replaced (b : list string) (m : issued) (t : credential_table) (a : list string) : Prop := {
  rl_mirrored : mirrored t a;
  rl_unharmed : unharmed t a;
  rl_array : a = b ++ [cr_fingerprint (is_credential m)];
  rl_row : t !! cr_id (is_credential m) = Some (is_credential m);
  rl_active : has_credential_status CredentialActive (is_credential m) = true;
  rl_secret : cr_fingerprint (is_credential m) = fingerprint (secret_material (is_secret m));
  rl_owner : cr_user_id (is_credential m) = cr_user_id current;
}.

Lemma txr_record_rotation replacement P : txr P (record_rotation user target replacement ip) (fun _ => P).
Proof. eapply txr_bind; [apply txr_audit|]. intros ?. by apply txr_ret. Qed.

(** The append to an array [b] of a table [t1], with what stands of the target's row. *)
Lemma run_replacement t1 b (appendFirst : bool) c : mirrored t1 b -> unharmed t1 b -> t1 !! tid = Some c ->
  (if appendFirst then rp_length plan else rp_length plan - 1)%nat = length b ->
  run (fun t a => t = t1 /\ a = b) (appendCredential (replacement_input user target plan label ip appendFirst))
    (fun m t a => replaced b m t a /\ exists c', t !! tid = Some c' /\ standing c c') (fun _ => unharmed).
Proof.
  intros Hm Hu Hc Hlen. set (x := replacement_input _ _ _ _ _ _).
  assert (Hkey : cr_id c = tid) by apply (mir_keyed _ _ Hm _ _ Hc).
  eapply run_conseq; [apply (run_appendCredential env cid ty held Hrivals Hnonce t1 b (fun _ => true) x eq_refl eq_refl)|..].
  - intros record row P Hr. simpl in Hr. destruct appendFirst; [done|]. injection Hr as <-. apply txr_record_rotation.
  - intros _. exact Hlen.
  - intros t a [-> ->]. split; [|done]. split; [done|]. intros r Hr _. by exists r.
  - intros m t a [Hm' Hk -> Hrow Hact Hsec Hown]. split.
    + split; [done| |done..]. eapply unharmed_kept; [done|done| |apply Hm]. intros r _ Hin. apply elem_of_app. by left.
    + destruct (Hk c) as (c' & Hc' & Hst); [by rewrite Hkey|done|]. exists c'. by rewrite Hkey in Hc'.
  - intros e t a [[_ Hk] (s & -> & _) _]. eapply unharmed_kept; [done|done| |apply Hm]. intros r _ Hin. apply elem_of_app. by left.
Qed.

(** The rotation is done: the previous row is revoked and its entry is out. *)
Definition turned (m : issued) (t : credential_table) (a : list string) : Prop :=
  replaced rest m t a /\ exists c, t !! tid = Some c /\ has_credential_status CredentialRevoked c = true
    /\ cr_fingerprint c = cr_fingerprint current /\ cr_fingerprint c ∉ a.

(** *** At the cap: the previous entry first *)

Definition gone_first (c : CredentialRecord) (t : credential_table) (a : list string) : Prop :=
  sound t a /\ a = rest /\ t !! tid = Some c /\ has_credential_status CredentialRevoked c = true
  /\ cr_fingerprint c = cr_fingerprint current.

Lemma revoked_not_live c : has_credential_status CredentialRevoked c = true -> is_live c = false.
Proof. unfold has_credential_status, is_live. by destruct (cr_status c). Qed.

Lemma planned_aiming t a : planned plan t a -> aiming target t0 current a0 (rp_length plan) (AtIndex index) t a.
Proof. intros [Hs -> Hr Hl Hi Hn]. by split_and!. Qed.

Lemma run_make_room : run (planned plan) (make_room user target plan ip) (fun _ t a => exists c, gone_first c t a) (fun _ => sound).
Proof.
  unfold make_room. eapply run_pre; [|exact planned_aiming].
  eapply run_bind; [apply (run_record_retirement env target held Hrivals t0 current Hid a0)|]. intros ?.
  eapply run_bind; [apply (run_remove_or_withdraw env target held Hrivals t0 current Hid a0)|]. intros ?.
  eapply run_bind with (R := fun _ t a => exists c, gone_first c t a); [|intros r; by apply run_ret].
  eapply run_statement; [done|apply does_update| |by intros e t a []].
  intros r t t' a [Hs (c & Hc & (Hi & Hf & _) & Hnot) ->] Hup. destruct (keyed_lookup _ _ _ _ _ _ Hs Hc) as [Hc' Hci].
  destruct (Hup c) as (c' & Hu & _ & ->); [by rewrite Hid|by rewrite Hid|]. exists c'.
  destruct (updated_restatus _ _ _ Hu) as (Hi' & Hf' & _). rewrite Hid. split_and!; [|done|apply lookup_insert_eq| |congruence].
  - rewrite <- Hci. eapply sound_settle; [done..|by left|done].
  - unfold has_credential_status. by rewrite (updated_status _ _ _ Hu).
Qed.

(** The previous row's entry is out, and it stays revoked. *)
Lemma turned_first m c t a : replaced rest m t a -> (exists c', t !! tid = Some c' /\ standing c c') ->
  has_credential_status CredentialRevoked c = true -> cr_fingerprint c = cr_fingerprint current -> turned m t a.
Proof.
  intros Hr (c' & Hc' & [(Hi & Hf & _) Hs]) Hrev Hfp. split; [done|]. exists c'.
  assert (Hrev' : has_credential_status CredentialRevoked c' = true) by (unfold has_credential_status in *; by rewrite Hs).
  split_and!; [done..|congruence|]. pose proof (mir_keyed _ _ (rl_mirrored _ _ _ _ Hr) _ _ Hc') as Hk. simpl in Hk.
  apply (mirrored_dead t); [apply Hr|by rewrite Hk|by apply revoked_not_live].
Qed.

Lemma run_room_filled : a0 !! index = Some (cr_fingerprint current) -> rp_length plan = length a0 ->
  run (fun t a => exists c, gone_first c t a) (appendCredential (replacement_input user target plan label ip false)) turned (fun _ => unharmed).
Proof.
  intros Hi Hn. apply run_fix. intros t1 b (c & Hs & -> & Hc & Hrev & Hfp). eapply run_conseq; [apply (run_replacement t1 rest false c)|..].
  - apply Hs.
  - by apply sound_unharmed.
  - done.
  - unfold rest. rewrite length_delete by by eexists. lia.
  - by intros t a [-> ->].
  - intros m t a [Hr Hst]. by eapply turned_first.
  - done.
Qed.

(** *** Below it: the replacement first *)

(** The previous row, [restatus] of the one planned for, in a status. *)
Definition previous (ok : CredentialRecord -> bool) (t : credential_table) : Prop :=
  exists c, t !! tid = Some c /\ restatus current c /\ ok c = true.

Section AppendFirst.
Context (m : issued) (Hentry : a0 !! index = Some (cr_fingerprint current)) (Hlength : rp_length plan = length a0).

Definition doubled (t : credential_table) (a : list string) : Prop := replaced a0 m t a /\ previous is_live t.
Definition outgoing (t : credential_table) (a : list string) : Prop :=
  replaced a0 m t a /\ previous (has_credential_status CredentialRetiring) t.
Definition swapped (t : credential_table) (a : list string) : Prop :=
  replaced rest m t a /\ previous (has_credential_status CredentialRetiring) t /\ cr_fingerprint current ∉ a.

Lemma previous_keyed ok t c : keyed cr_id t -> t !! tid = Some c -> previous ok t -> cr_id c = tid /\ t !! cr_id c = Some c /\ restatus current c /\ ok c = true.
Proof. intros Hk Hc (c' & Hc' & ? & ?). assert (c' = c) as -> by congruence. pose proof (Hk _ _ Hc) as Hi. simpl in Hi. by rewrite Hi. Qed.

(** The replacement is none of the rows there were. *)
Lemma replaced_apart t a f r : replaced a0 m t a -> f ∈ a0 -> t !! cr_id (is_credential m) = Some r -> cr_fingerprint r <> f.
Proof.
  intros Hr Hin Hm Hf. assert (r = is_credential m) as -> by (rewrite (rl_row _ _ _ _ Hr) in Hm; congruence).
  pose proof (mirrored_distinct _ _ (rl_mirrored _ _ _ _ Hr)) as Hnd. rewrite (rl_array _ _ _ _ Hr) in Hnd.
  apply NoDup_app in Hnd as (_ & Hd & _). apply (Hd f); [done|]. rewrite Hf. by left.
Qed.

Lemma entry_in : cr_fingerprint current ∈ a0.
Proof. by eapply list_elem_of_lookup_2. Qed.

(** A write of a status to the previous row, while its entry stays as it is. *)
Lemma replaced_write b t a c c' s : replaced b m t a -> t !! tid = Some c -> cr_id (is_credential m) <> tid -> updated_to s c c' ->
  mirrored (<[tid := c']> t) a -> replaced b m (<[tid := c']> t) a.
Proof.
  intros [Hm Hu Ha Hr Hact Hsec Hown] Hc Hne Hup Hm'. assert (Hi : cr_id c' = tid).
  { destruct (updated_restatus _ _ _ Hup) as [-> _]. apply (mir_keyed _ _ Hm _ _ Hc). }
  split; [done| |done| |done..]; [|by rewrite lookup_insert_ne].
  rewrite <- Hi. by apply unharmed_write.
Qed.

Lemma run_withdraw_previous : run doubled (credential_update (cr_id current) CredentialRetiring) (fun _ => outgoing) (fun _ => doubled).
Proof.
  eapply run_statement; [done|apply does_update| |done]. intros r t t' a [Hr (c & Hc & Hre & Hl)] Hup.
  pose proof (rl_mirrored _ _ _ _ Hr) as Hm. pose proof (mir_keyed _ _ Hm _ _ Hc) as Hi. simpl in Hi.
  destruct (Hup c) as (c' & Hu & _ & ->); [by rewrite Hid|congruence|]. rewrite Hid.
  pose proof (updated_restatus _ _ _ Hu) as Hre'. pose proof (updated_status _ _ _ Hu) as Hst. split.
  - eapply replaced_write; [done..| |done|].
    + intros He. apply (replaced_apart t a (cr_fingerprint current) c Hr entry_in); [by rewrite He|]. apply Hre.
    + rewrite <- Hi. apply (mirrored_write t a c c'); [done|by rewrite Hi|done..| | |].
      * unfold is_live. by rewrite Hst.
      * unfold has_credential_status. by rewrite Hst.
      * intros x Hx _. by apply (mir_active _ _ Hm).
  - exists c'. rewrite lookup_insert_eq. destruct Hre as (E1 & E2 & E3), Hre' as (F1 & F2 & F3).
    split_and!; [done|split_and!; congruence|]. unfold has_credential_status. by rewrite Hst.
Qed.

Lemma outgoing_swapped t a : outgoing t a -> swapped t (delete index a).
Proof.
  intros [Hr (c & Hc & Hre & Hret)]. pose proof (rl_mirrored _ _ _ _ Hr) as Hm.
  pose proof (mir_keyed _ _ Hm _ _ Hc) as Hi. simpl in Hi. destruct Hre as (E1 & E2 & E3).
  assert (Hat : a !! index = Some (cr_fingerprint c)).
  { rewrite (rl_array _ _ _ _ Hr), E2. by apply lookup_app_l_Some. }
  assert (Hne : forall r, t !! cr_id r = Some r -> cr_id r <> tid -> cr_fingerprint r ∈ a -> cr_fingerprint r ∈ delete index a).
  { intros r Hrow Hrne Hin. eapply delete_others; [done..|]. intros He. destruct Hrne.
    rewrite (mir_prints _ _ Hm r c); [done|done|by rewrite Hi|done]. }
  split; [|split; [by exists c|rewrite <- E2; apply delete_gone; [by eapply mirrored_distinct|done]]]. split; try apply Hr.
  - eapply mirrored_shrink; [done|apply sublist_delete|]. intros r Hrow Hact. apply Hne; [done| |by apply (mir_active _ _ Hm)].
    intros He. assert (r = c) as -> by congruence. by eapply not_both.
  - intros r Ho. destruct (rl_unharmed _ _ _ _ Hr r Ho) as [(r' & Hr' & Hst) Hin]. split; [by exists r'|].
    pose proof Hst as [(F1 & F2 & F3) _]. rewrite <- F2 in *. apply Hne; [by rewrite F1| |done]. rewrite F1. apply Ho.
  - rewrite (rl_array _ _ _ _ Hr). unfold rest. rewrite !delete_take_drop.
    pose proof (lookup_lt_Some _ _ _ Hentry) as Hlt. rewrite take_app_le, drop_app_le by lia. by rewrite app_assoc.
Qed.

Lemma run_remove_previous actorId : run outgoing (removeAt cid ty (AtIndex index) actorId) (fun _ => swapped) (fun _ t a => outgoing t a \/ swapped t a).
Proof.
  eapply run_conseq; [apply array_deleteAt|intros t a Hp; exact Hp|..].
  - intros _ t a (b & Ho & ->). by apply outgoing_swapped.
  - intros e t a (b & Ho & [->| ->]); [by left|right]. by apply outgoing_swapped.
Qed.

(** What taking the replacement back may leave. *)
Definition safe (t : credential_table) (a : list string) : Prop :=
  (exists base s, unharmed t base /\ a = base ++ s /\ (length s <= 1)%nat /\ (length base <= rp_length plan)%nat)
  /\ exists c, t !! tid = Some c /\ cr_id c = tid.

Lemma safe_unharmed t a : safe t a -> unharmed t a.
Proof.
  intros [(base & s & Hu & -> & _) _] r Ho. destruct (Hu r Ho) as [? ?]. split; [done|]. apply elem_of_app. by left.
Qed.

Lemma replaced_safe b t a : replaced b m t a -> (length b <= rp_length plan)%nat -> unharmed t b -> is_Some (t !! tid) -> safe t a.
Proof.
  intros Hr Hb Hu [c Hc]. split; [exists b, [cr_fingerprint (is_credential m)]; by rewrite (rl_array _ _ _ _ Hr)|].
  exists c. split; [done|]. apply (mir_keyed _ _ (rl_mirrored _ _ _ _ Hr) _ _ Hc).
Qed.

Lemma safe_deleted t a : safe t a -> length a = S (rp_length plan) -> safe t (delete (rp_length plan) a).
Proof.
  intros [(base & s & Hu & -> & Hs & Hb) Hc] Hlen. split; [|done]. rewrite length_app in Hlen. exists base, [].
  destruct s as [|f [|? ?]]; simpl in *; [lia| |lia]. replace (rp_length plan) with (length base) by lia.
  rewrite app_nil_r. split_and!; [done| |lia|lia].
  rewrite delete_take_drop, take_app_length. replace (S (length base)) with (length (base ++ [f])) by (rewrite length_app; simpl; lia).
  by rewrite drop_all, app_nil_r.
Qed.

Context (Hothers : forall r, other r -> cr_id r <> cr_id (is_credential m) /\ cr_fingerprint r ∈ a0).
Context (Hapart : cr_id (is_credential m) <> tid).

(** Rows other than the replacement's and the target's stand. *)
Lemma unharmed_dropped t a : unharmed t a -> unharmed (unlink_rotation (cr_id (is_credential m)) <$> delete (cr_id (is_credential m)) t) a.
Proof.
  intros Hu r Ho. destruct (Hu r Ho) as [(r' & Hr' & [(E1 & E2 & E3) E4]) Hin]. split; [|done].
  exists (unlink_rotation (cr_id (is_credential m)) r'). destruct (Hothers r Ho) as [Hne _].
  rewrite lookup_fmap, lookup_delete_ne, Hr' by done. split; [done|].
  destruct (unlink_standing (cr_id (is_credential m)) r') as [(F1 & F2 & F3) F4]. split_and!; [split_and!; congruence|congruence].
Qed.

Lemma safe_dropped : run safe (credential_delete (cr_id (is_credential m))) (fun _ => safe) (fun _ => safe).
Proof.
  unfold credential_delete, statement_ok. eapply run_statement; [done|apply does_delete| |done].
  intros ok t t' a [(base & s & Hu & -> & Hs & Hb) (c & Hc & Hi)] [[-> _]| ->]; [by split; [exists base, s|exists c]|]. split.
  - exists base, s. split_and!; [by apply unharmed_dropped|done..].
  - exists (unlink_rotation (cr_id (is_credential m)) c). rewrite lookup_fmap, lookup_delete_ne, Hc by done. split; [done|].
    destruct (unlink_standing (cr_id (is_credential m)) c) as [(F1 & _) _]. congruence.
Qed.

Lemma safe_restored : run safe (credential_update (cr_id current) CredentialActive) (fun _ => safe) (fun _ => safe).
Proof.
  eapply run_statement; [done|apply does_update| |done].
  intros r t t' a [(base & s & Hu & -> & Hs & Hb) (c & Hc & Hi)] Hup.
  destruct (Hup c) as (c' & Hu' & _ & ->); [by rewrite Hid|congruence|]. rewrite Hid.
  destruct (updated_restatus _ _ _ Hu') as [Hi' _]. split.
  - exists base, s. split_and!; [|done..]. replace tid with (cr_id c') by congruence. apply unharmed_write; [done|congruence].
  - exists c'. rewrite lookup_insert_eq. split; [done|congruence].
Qed.

Lemma run_ignored {A} (P : credential_table -> list string -> Prop) E (n : M A) : run P n (fun _ => P) (fun _ => P) -> run P (ignore_errors n) (fun _ => P) E.
Proof.
  intros Hn. eapply run_catch with (F := fun _ => P); [|intros; by apply run_ret].
  eapply run_bind; [exact Hn|]. intros ?. by apply run_ret.
Qed.

Lemma run_safe_withdraw print : run safe (withdrawAppendedEntry cid ty (rp_length plan) print (u_id user)) (fun _ => safe) (fun _ => safe).
Proof.
  destruct (decide (ty = basicauth)) as [Hb|Hb]; [|apply run_withdrawAppendedEntry; [exact _|exact Hb|exact safe_deleted]].
  unfold withdrawAppendedEntry. rewrite bool_decide_eq_true_2 by done. by apply run_ret.
Qed.

Lemma run_take_back c error : run safe (take_replacement_back user target plan m c error) (fun _ _ _ => False) (fun _ => unharmed).
Proof.
  unfold take_replacement_back. eapply run_bind; [eapply run_err; [apply run_safe_withdraw|intros ?; apply safe_unharmed]|]. intros w.
  apply run_skip; [destruct (withdrawn w); [apply run_ignored, safe_dropped|by apply run_ret]|intros _; apply safe_unharmed|]. intros ?.
  apply run_skip; [destruct (arrayAsAppended w); [apply run_ignored, safe_restored|by apply run_ret]|intros _; apply safe_unharmed|]. intros ?.
  apply run_skip; [by apply still_recordAppendRollback|intros _; apply safe_unharmed|]. intros ?.
  destruct (withdrawn w); apply run_throw, safe_unharmed.
Qed.

Context (Hrest : forall r, other r -> cr_fingerprint r ∈ rest).

Lemma standing_others b t a : unharmed t a -> (forall r, other r -> cr_fingerprint r ∈ b) -> unharmed t b.
Proof. intros Hu Hb r Ho. destruct (Hu r Ho) as [? _]. by split; [|apply Hb]. Qed.

Lemma doubled_safe t a : doubled t a -> safe t a.
Proof.
  intros [Hr (c & Hc & _)]. eapply replaced_safe; [exact Hr|by rewrite Hlength| |by exists c].
  eapply standing_others; [apply Hr|apply Hothers].
Qed.
Lemma outgoing_safe t a : outgoing t a -> safe t a.
Proof.
  intros [Hr (c & Hc & _)]. eapply replaced_safe; [exact Hr|by rewrite Hlength| |by exists c].
  eapply standing_others; [apply Hr|apply Hothers].
Qed.
Lemma swapped_safe t a : swapped t a -> safe t a.
Proof.
  intros [Hr [(c & Hc & _) _]]. eapply replaced_safe; [exact Hr| | |by exists c].
  - rewrite Hlength. unfold rest. rewrite length_delete by by eexists. lia.
  - eapply standing_others; [apply Hr|apply Hrest].
Qed.

Lemma run_settle_rotation : run swapped
  (transaction (
     do retired <- credential_update (cr_id current) CredentialRevoked;
     do_ record_rotation user target (is_credential m) ip;
     mret (default current retired))) (fun _ => turned m) (fun _ => swapped).
Proof.
  apply run_transaction; [done| |done]. intros t a [Hr [(c & Hc & Hre & Hret) Hnot]].
  pose proof (rl_mirrored _ _ _ _ Hr) as Hm. pose proof (mir_keyed _ _ Hm _ _ Hc) as Hi. simpl in Hi.
  eapply txr_bind with (R := fun _ t' => turned m t' a).
  - rewrite Hid, <- Hi. eapply txr_conseq; [apply txr_update; by rewrite Hi|done|]. intros _ t' (c' & Hu & ->). rewrite Hi.
    destruct Hre as (_ & E & _). split.
    + eapply replaced_write; [done..|]. rewrite <- Hi. apply mirrored_settle; [done|by rewrite Hi|done|by rewrite E].
    + exists c'. rewrite lookup_insert_eq. destruct (updated_restatus _ _ _ Hu) as (_ & F & _).
      split_and!; [done| |congruence|by rewrite F, E]. unfold has_credential_status. by rewrite (updated_status _ _ _ Hu).
  - intros retired. eapply txr_bind; [apply txr_record_rotation|]. intros ?. by apply txr_ret.
Qed.

Lemma run_retire_previous : run doubled (retire_previous user target plan m ip) (fun _ => turned m) (fun _ => unharmed).
Proof.
  unfold retire_previous. eapply run_bind with (R := fun _ => swapped).
  - eapply run_catch with (F := fun _ => safe).
    + eapply run_bind; [eapply run_err; [apply run_withdraw_previous|intros ?; apply doubled_safe]|]. intros ?.
      eapply run_err; [apply run_remove_previous|]. intros e t a [Ho|Hs]; [by apply outgoing_safe|by apply swapped_safe].
    + intros e. simpl. eapply run_conseq; [apply run_take_back|done|by intros ? ? ? []|done].
  - intros ?. eapply run_catch; [apply run_settle_rotation|]. intros e. simpl.
    apply run_skip; [by apply still_recordAppendRollback|intros _ t a Hs; by apply safe_unharmed, swapped_safe|].
    intros ?. apply run_throw. intros t a Hs. by apply safe_unharmed, swapped_safe.
Qed.
End AppendFirst.

(** What the plan says of the other credentials. *)
Lemma planned_others t a : planned plan t a -> forall r, other r -> cr_fingerprint r ∈ a0 /\ cr_fingerprint r ∈ rest.
Proof.
  intros Hp r Ho. pose proof (pl_sound _ _ _ Hp) as Hs. pose proof (so_mirrored _ _ _ _ Hs) as Hm.
  destruct (sound_unharmed _ _ Hs r Ho) as [(r' & Hr' & [(E1 & E2 & E3) E4]) Hin]. rewrite (pl_array _ _ _ Hp) in *.
  split; [done|]. pose proof (pl_entry _ _ _ Hp) as Hi. rewrite (pl_array _ _ _ Hp) in Hi. eapply delete_others; [done..|].
  intros He. destruct Ho as (_ & _ & Hne). rewrite <- E2 in He. apply Hne. rewrite <- E1, <- Hid. f_equal.
  apply (mir_prints _ _ Hm); [by rewrite E1|rewrite Hid; apply Hp|done].
Qed.

Lemma doubled_apart m t a : a0 !! index = Some (cr_fingerprint current) -> (forall r, other r -> cr_fingerprint r ∈ a0) ->
  doubled m t a -> (forall r, other r -> cr_id r <> cr_id (is_credential m)) /\ cr_id (is_credential m) <> tid.
Proof.
  intros Hi Ho [Hr (c & Hc & Hre & _)]. split.
  - intros r Hor He. destruct (rl_unharmed _ _ _ _ Hr r Hor) as [(r' & Hr' & [(E1 & E2 & E3) E4]) _].
    apply (replaced_apart m t a (cr_fingerprint r) r' Hr); [by apply Ho|by rewrite <- He|done].
  - intros He. apply (replaced_apart m t a (cr_fingerprint current) c Hr); [by eapply list_elem_of_lookup_2|by rewrite He|apply Hre].
Qed.
End Plan.

(** ** The section *)

Lemma run_append_first user plan label ip : cr_id (rp_current plan) = tid -> of_pair cid ty (rp_current plan) = true ->
  run (planned plan) (appendCredential (replacement_input user target plan label ip true))
    (fun m t a => doubled plan m t a) (fun _ => unharmed).
Proof.
  intros Hid Hpair. apply run_fix. intros t1 b Hp.
  eapply run_conseq; [apply (run_replacement user plan label ip t1 b true (rp_current plan))|..].
  - apply (pl_sound _ _ _ Hp).
  - apply sound_unharmed, (pl_sound _ _ _ Hp).
  - apply Hp.
  - apply Hp.
  - done.
  - intros m t a [Hr (c & Hc & [Hre Hs])]. rewrite (pl_array _ _ _ Hp) in Hr. split; [done|]. exists c. split_and!; [done..|].
    unfold is_live. rewrite Hs. apply Hp.
  - done.
Qed.

Lemma run_rotate_section user label ip :
  run (fun t a => sound t a /\ a = a0) (rotate_section user target label ip)
    (fun r t a => exists plan, a0 !! rp_position plan = Some (cr_fingerprint (rp_current plan)) /\ turned plan (ro_created r) t a)
    (fun _ => unharmed).
Proof.
  unfold rotate_section. eapply run_bind; [eapply run_err; [apply run_plan_rotation|intros ?; apply sound_unharmed]|]. intros plan.
  eapply run_pure; [intros t a [Hp _]; exact Hp|]. intros [Hid Hpair]. eapply run_pre with (P := planned plan); [|by intros t a []].
  eapply run_pure with (phi := (a0 !! rp_position plan = Some (cr_fingerprint (rp_current plan)) /\ rp_length plan = length a0)
      /\ forall r, other r -> cr_fingerprint r ∈ a0 /\ cr_fingerprint r ∈ rest plan).
  { intros t a Hp. split; [pose proof Hp as [_ -> _ _ ? ?]; done|by eapply planned_others]. }
  intros [[Hi Hn] Ho]. destruct (rp_length plan <? maxCredentialsPerType)%nat.
  - apply run_skip; [by apply run_ret|intros _ t a Hp; apply sound_unharmed, Hp|]. intros settled.
    eapply run_bind with (R := doubled plan); [eapply run_catch; [by apply run_append_first|intros e; by apply run_throw]|].
    intros m. eapply run_pure; [intros t a Hd; exact (doubled_apart plan m t a Hi (fun r Hr => proj1 (Ho r Hr)) Hd)|].
    intros [Hne Hapart]. eapply run_bind; [apply run_retire_previous; try done; intros r Hr; [split; [by apply Hne|]|]; by apply Ho|].
    intros previous_. apply run_ret. intros t a Ht. by exists plan.
  - eapply run_bind; [eapply run_err; [by apply run_make_room|intros ?; apply sound_unharmed]|]. intros settled.
    eapply run_bind with (R := turned plan); [eapply run_catch; [by apply run_room_filled|intros e; by apply run_throw]|].
    intros m. apply run_skip; [by apply run_ret|intros _ t a [Hr _]; apply Hr|]. intros previous_. apply run_ret. intros t a Ht. by exists plan.
Qed.
End Rotation.

(** What a rotation of the credential [id] makes of an array [a0] and its rows:
    the previous entry out, the replacement's at the end. *)
Definition rotates (id : string) (a0 : list string) (made : issued) (t : credential_table) (a : list string) : Prop :=
  mirrored t a
  /\ t !! cr_id (is_credential made) = Some (is_credential made)
  /\ has_credential_status CredentialActive (is_credential made) = true
  /\ exists c i, t !! id = Some c /\ has_credential_status CredentialRevoked c = true /\ a0 !! i = Some (cr_fingerprint c)
     /\ a = delete i a0 ++ [cr_fingerprint (is_credential made)] /\ cr_fingerprint c ∉ a.

(** C3: rotating a credential replaces it and harms no other. Where the rows
    mirrored the gateway's array, an answer of the section leaves them a mirror of
    it, and the array is what it was with the target's entry out and one at the end
    for the new row, which is active; the target's row is revoked. Whatever fails,
    and at whatever step - a statement, a transaction, a call on the gateway whose
    effect is not known - every other active credential keeps its row and its
    entry. *)
Theorem rotation_harms_no_other `{EdgeClient} `{CredentialDeps} env target held user label ip w :
  let pair := pair_rows (cr_ferrum_consumer_id target) (cr_credential_type target) in
  (forall n d, pair (t_rivals (env n) d) = pair d) ->
  GatewayArray env (cr_ferrum_consumer_id target) (cr_credential_type target) held ->
  (forall n, t_nonce (env n) <> REDACTED_MATERIAL) -> w_env w = env -> w_tx w = false ->
  mirrored (pair (w_db w)) (held (w_trace w)) -> is_Some (pair (w_db w) !! cr_id target) ->
  let outcome := locks (cr_ferrum_consumer_id target) (rotate_section user target label ip) w in
  let t := pair (w_db outcome.2) in let a := held (w_trace outcome.2) in
  match outcome.1 with
  | Ok r => rotates (cr_id target) (held (w_trace w)) (ro_created r) t a
  | Throw _ => True
  end /\ unharmed target (pair (w_db w)) t a.
Proof.
  intros pair Hrivals Hgateway Hnonce He Ht Hm Htarget outcome t a.
  assert (Hs : sound target (pair (w_db w)) (pair (w_db w)) (held (w_trace w))) by by apply sound_start.
  destruct (run_locks _ _ _ held Hrivals _ _ _ (cr_ferrum_consumer_id target) _
              (run_rotate_section env target held Hrivals Hnonce (pair (w_db w)) (held (w_trace w)) user label ip)
              ltac:(intros ? ? ? []; by apply sound_unharmed) w He Ht (conj Hs eq_refl)) as (_ & _ & Hr).
  subst outcome t a. destruct (locks _ _ w) as [[r|e] w']; simpl in *; [|by split].
  destruct Hr as (plan & Hi & [[] (c & Hc & Hrev & Hf & Hnot)]). split; [|done].
  split_and!; [done..|]. exists c, (rp_position plan). split_and!; [done..|by rewrite Hf|done|done].
Qed.

Lemma rotation_harms_no_other_witness :
  w_trace (locks "consumer-1" (rotate_section sample_user sample_first None None) sample_credentials).2
    = w_trace sample_credentials ++ [CredentialAppended "consumer-1" keyauth "nxs_abcdefghijkl"; CredentialRemoved "consumer-1" keyauth 0]
  /\ (exists r, (locks "consumer-1" (rotate_section sample_user sample_first None None) sample_credentials).1 = Ok r)
  /\ unharmed sample_first (pair_rows "consumer-1" keyauth (w_db sample_credentials))
       (pair_rows "consumer-1" keyauth (w_db (locks "consumer-1" (rotate_section sample_user sample_first None None) sample_credentials).2))
       (sample_held "consumer-1" keyauth
          (w_trace (locks "consumer-1" (rotate_section sample_user sample_first None None) sample_credentials).2)).
Proof.
  split; [vm_compute; reflexivity|]. split; [eexists; vm_compute; reflexivity|].
  apply (rotation_harms_no_other sample_turn sample_first (sample_held "consumer-1" keyauth) sample_user None None sample_credentials
    (fun _ _ => eq_refl) (sample_array_kept _ _ _) (fun _ => ltac:(discriminate)) eq_refl eq_refl sample_mirrored).
  exists sample_first. vm_compute. reflexivity.
Defined.
