(* ===== verification/CredentialReconciled.v ===== *)
(** * Reconciliation repairs any drift

    Whatever the rows and the gateway's array had become, an answered
    reconciliation leaves them a mirror again, and both empty; one that fails has
    changed no row. *)

From S2P Require Import Prelude Json Roles Users AuditLog AccessTables CredentialTables World AccessStore LeaseFence KeyedSerializer Provisioner AccountRecovery CredentialStore Credentials CredentialIssue CredentialReconcile CredentialMirror CredentialLogic CredentialStatements CredentialSample.
Open Scope Z_scope.

(** What the table's key and unique indexes keep true of any rows. *)
Record indexed (t : credential_table) : Prop := {
  ix_keyed : keyed cr_id t;
  ix_prints : forall r r', t !! cr_id r = Some r -> t !! cr_id r' = Some r' -> cr_fingerprint r = cr_fingerprint r' -> r = r';
  ix_ordinals : forall r r', t !! cr_id r = Some r -> t !! cr_id r' = Some r' ->
    cr_edge_ordinal r = cr_edge_ordinal r' -> is_Some (cr_edge_ordinal r) -> r = r';
}.

Definition none_live (t : credential_table) : Prop := forall r, t !! cr_id r = Some r -> is_live r = false.

Lemma mirrored_empty t : indexed t -> none_live t -> mirrored t [].
Proof.
  intros [Hk Hp Ho] Hn. split; [done..| |].
  - exists []. split; [|by simpl]. split; [|constructor|constructor].
    intros r. split; [by intros ?%elem_of_nil|]. intros [Hr Hl]. by rewrite (Hn r Hr) in Hl.
  - intros r Hr Ha%active_live. by rewrite (Hn r Hr) in Ha.
Qed.

Lemma indexed_write t r r' : indexed t -> t !! cr_id r = Some r -> restatus r r' -> indexed (<[cr_id r := r']> t).
Proof.
  intros [Hk Hp Ho] Hr Hre. pose proof Hre as (Hi & _ & _).
  assert (Hor : forall x, <[cr_id r := r']> t !! cr_id x = Some x -> exists y, t !! cr_id y = Some y /\ restatus y x /\ x = rewrite_row r r' y)
    by (intros x; by apply written_origin).
  split.
  - intros k x. destruct (decide (k = cr_id r)) as [->|Hne]; [rewrite lookup_insert_eq; by intros [= <-]|].
    rewrite lookup_insert_ne by done. apply Hk.
  - intros x x' (y & Hy & (_ & E & _) & ->)%Hor (y' & Hy' & (_ & E' & _) & ->)%Hor He. f_equal. apply Hp; congruence.
  - intros x x' (y & Hy & (_ & _ & E) & ->)%Hor (y' & Hy' & (_ & _ & E') & ->)%Hor He Hs. f_equal.
    rewrite E in He, Hs. rewrite E' in He. by apply Ho.
Qed.

Section Reconciled.
Context `{EdgeClient} `{CredentialDeps} (env : nat -> turn) (cid : string) (ty : CredentialType) (held : list event -> list string).
Abbreviation pair := (pair_rows cid ty).
Context (Hrivals : forall n d, pair (t_rivals (env n) d) = pair d) `{!GatewayArray env cid ty held}.
Context (t0 : credential_table) (Hindexed : indexed t0).
Abbreviation run := (run env cid ty held).
Abbreviation txr := (txr env cid ty).

(** Rows still to revoke: each as it was read, and no live one beside them. *)
Record revoking (rest : list CredentialRecord) (t : credential_table) : Prop := {
  rv_indexed : indexed t;
  rv_rest : forall r, r ∈ rest -> t !! cr_id r = Some r;
  rv_others : forall r, t !! cr_id r = Some r -> is_live r = true -> r ∈ rest;
}.

Lemma txr_revoke_rows rows : NoDup (map cr_id rows) -> txr (revoking rows) (revoke_rows rows) (fun _ t => indexed t /\ none_live t).
Proof.
  induction rows as [|row rest IH]; simpl; intros Hnd.
  - apply txr_ret. intros t [Hi _ Ho]. split; [done|]. intros r Hr. apply not_true_is_false. intros Hl.
    by apply Ho, elem_of_nil in Hl.
  - apply NoDup_cons in Hnd as [Hnot Hnd]. eapply txr_bind; [|intros ?; by apply IH].
    eapply txr_statement; [apply does_update|]. intros x t t' [Hi Hrest Ho] Hup.
    assert (Hr : t !! cr_id row = Some row) by (apply Hrest; left).
    destruct (Hup row Hr eq_refl) as (row' & Hu & _ & ->). pose proof (updated_restatus _ _ _ Hu) as Hre. split.
    + by apply indexed_write.
    + intros r Hin. rewrite lookup_insert_ne; [by apply Hrest; right|]. intros He. apply Hnot. rewrite He. by apply list_elem_of_fmap_2.
    + intros r Hrr Hl. destruct (decide (cr_id row = cr_id r)) as [He|Hne].
      * rewrite <- He, lookup_insert_eq in Hrr. injection Hrr as ->. unfold is_live in Hl. by rewrite (updated_status _ _ _ Hu) in Hl.
      * rewrite lookup_insert_ne in Hrr by done. specialize (Ho r Hrr Hl). apply elem_of_cons in Ho as [->|?]; done.
Qed.

Lemma txr_list t : keyed cr_id t ->
  txr (fun t' => t' = t) (credential_listByConsumer cid (Some ty) (Some LIVE_CREDENTIAL_STATUSES))
    (fun rows t' => t' = t /\ NoDup (map cr_id rows) /\ forall r, r ∈ rows <-> t !! cr_id r = Some r /\ is_live r = true).
Proof.
  intros Hk. unfold credential_listByConsumer, read, statement_ok.
  eapply txr_statement with (R := fun t x t' => t' = t /\ (keyed cr_id t -> NoDup (map cr_id x) /\ forall r, r ∈ x <-> t !! cr_id r = Some r /\ is_live r = true)).
  - intros n d x d' [= <- <-]. split; [done|]. intros Hkd. pose proof (listed_order cid ty d Hkd) as [Hr Hn _].
    assert (Hin : forall r, r ∈ credentials_listByConsumer cid (Some ty) (Some LIVE_CREDENTIAL_STATUSES) (d_credentials d)
              <-> pair d !! cr_id r = Some r /\ is_live r = true).
    { intros r. rewrite <- Hr, sort_by_perm, list_elem_of_filter. split; [|by intros [_ ?]]. intros Hin. split; [|done].
      unfold credentials_listByConsumer in Hin. rewrite sort_by_perm in Hin.
      apply rows_where_spec in Hin as (k & _ & Hp). by apply andb_true_iff in Hp as [_ Hp]. }
    split; [|done]. apply NoDup_fmap_2_strong.
    + intros r r' [Ha _]%Hin [Hb _]%Hin He. congruence.
    + unfold credentials_listByConsumer. rewrite sort_by_perm. apply keyed_rows_distinct. intros k r Hkr Hp.
      apply andb_true_iff in Hp as [Hp _]. apply (Hkd k r), pair_lookup. split; [done|]. exact Hp.
  - intros rows t1 t' -> [-> Hx]. destruct (Hx Hk) as [? ?]. by split_and!.
Qed.

Lemma run_reconcile_rows actor reason ip cleared :
  run (fun t a => t = t0 /\ a = []) (reconcile_rows actor cid ty reason ip cleared)
    (fun _ t a => (indexed t /\ none_live t) /\ a = []) (fun _ t _ => t = t0).
Proof.
  apply run_transaction; [done| |by intros e t a []]. intros t a [-> ->].
  eapply txr_bind; [apply txr_list, Hindexed|]. intros rows.
  eapply txr_pure; [intros t' (_ & Hn & _); exact Hn|]. intros Hnd.
  eapply txr_bind with (R := fun _ t' => indexed t' /\ none_live t').
  - eapply txr_conseq; [by apply txr_revoke_rows| |done]. intros t' (-> & _ & Hin). split; [done| |].
    + by intros r [? _]%Hin.
    + intros r Hr Hl. by apply Hin.
  - intros ?. eapply txr_bind; [apply txr_audit|]. intros ?. apply txr_ret. by intros t' Ht'.
Qed.

Lemma still_portalOwnsConsumer live : still env cid ty held (portalOwnsConsumer cid live).
Proof.
  apply still_bind; [by apply still_read|]. intros [m|]; [apply still_ret|].
  apply still_bind.
  { destruct live as [c|]; [|apply still_ret]. apply still_bind; [by apply still_read|]. intros i. apply still_ret. }
  intros []; [apply still_ret|]. apply still_bind; [by apply still_read|]. intros [[|row rows] n]; simpl; [apply still_ret|].
  destruct live as [c|]; [|apply still_ret]. unfold carries_name.
  repeat match goal with |- context [if ?b then _ else _] => destruct b; [apply still_ret|] || (destruct b; [|apply still_ret]) end;
    first [apply still_ret|apply still_bind; [by apply still_read|intros api; apply still_ret]].
Qed.

Lemma run_reconcile_section actor reason ip :
  run (fun t _ => t = t0) (reconcile_section actor cid ty reason ip)
    (fun _ t a => (indexed t /\ none_live t) /\ a = []) (fun _ t _ => t = t0).
Proof.
  unfold reconcile_section. eapply run_bind; [apply array_get|]. intros live.
  eapply run_pre with (P := fun t a => t = t0 /\ (live = None -> a = [])); [|by intros t a [Ht Ha]; split; [|intros ->; by apply Ha]].
  apply run_skip; [apply still_portalOwnsConsumer|by intros e t a []|]. intros owned.
  apply run_skip; [by apply run_ensure|by intros e t a []|]. intros ?.
  eapply run_bind with (R := fun _ t a => t = t0 /\ a = []); [|intros ?; apply run_reconcile_rows].
  case_bool_decide as Hlive.
  - eapply run_conseq; [apply array_clear|intros t a Hp; exact Hp| |].
    + by intros _ t a (b & [-> _] & ->).
    + by intros e t a (b & [-> _] & _).
  - apply run_ret. intros t a [Ht Ha]. split; [done|]. apply Ha. by apply eq_None_not_Some.
Qed.
End Reconciled.

(** C25: reconciling one type of a consumer repairs whatever drift there was.
    Nothing is asked of the rows and the array but the table's own indexes: after
    an answer no row is live, the gateway's array is empty, and the rows are a
    mirror of it, so that every operation on the pair can place an entry again.
    A reconciliation that fails has changed no row. *)
Theorem reconcile_restores_the_mirror `{EdgeClient} `{CredentialDeps} env held actor consumerId type reason ip w :
  let pair := pair_rows consumerId type in
  (forall n d, pair (t_rivals (env n) d) = pair d) -> GatewayArray env consumerId type held ->
  w_env w = env -> w_tx w = false -> indexed (pair (w_db w)) ->
  let outcome := locks consumerId (reconcile_section actor consumerId type reason ip) w in
  let t := pair (w_db outcome.2) in let a := held (w_trace outcome.2) in
  match outcome.1 with
  | Ok _ => none_live t /\ a = [] /\ mirrored t a
  | Throw _ => t = pair (w_db w)
  end.
Proof.
  intros pair Hrivals Hgateway He Ht Hix outcome t a.
  destruct (run_locks _ _ _ held Hrivals _ _ _ consumerId _
              (run_reconcile_section env consumerId type held Hrivals (pair (w_db w)) Hix actor reason ip)
              (fun _ _ _ Hp => Hp) w He Ht eq_refl) as (_ & _ & Hr).
  subst outcome t a. destruct (locks _ _ w) as [[r|e] w']; simpl in *; [|done].
  destruct Hr as [[Hi Hn] Ha]. unfold pair in *. rewrite Ha. split_and!; [done..|by apply mirrored_empty].
Qed.

Definition sample_admin : UserRecord := {|
  u_id := "u2"; u_email := "u2@example.org"; u_password_hash := ""; u_display_name := "U2"; u_role := admin;
  u_org_id := None; u_company := None; u_phone := None; u_status := UserActive; u_email_verified := true;
  u_last_login_at := None; u_created_at := 0; u_updated_at := 0; u_email_fence := "";
|}.

(** A key was added to the gateway by hand. *)
Lemma reconcile_restores_the_mirror_witness :
  sample_held "consumer-1" keyauth (w_trace (emit (CredentialAppended "consumer-1" keyauth "by_hand") sample_credentials))
    = ["nxs_one"%string; "nxs_two"%string; "by_hand"%string]
  /\ let drift := emit (CredentialAppended "consumer-1" keyauth "by_hand") sample_credentials in
     let outcome := locks "consumer-1" (reconcile_section sample_admin "consumer-1" keyauth None None) drift in
     (exists r, outcome.1 = Ok r /\ rr_revoked r = ["key-1"%string; "key-2"%string])
     /\ sample_held "consumer-1" keyauth (w_trace outcome.2) = [].
Proof.
  split; [vm_compute; reflexivity|]. intros drift outcome.
  assert (Hok : exists r, outcome.1 = Ok r /\ rr_revoked r = ["key-1"%string; "key-2"%string])
    by (eexists; split; vm_compute; reflexivity).
  split; [exact Hok|]. pose proof (reconcile_restores_the_mirror sample_turn (sample_held "consumer-1" keyauth) sample_admin "consumer-1"
    keyauth None None drift (fun _ _ => eq_refl) (sample_array_kept _ _ _) eq_refl eq_refl) as Hall.
  cbv zeta in Hall. fold outcome in Hall. destruct Hok as (r & Hr & _). rewrite Hr in Hall. apply Hall.
  pose proof sample_mirrored as [Hk Hp Ho _ _]. by split.
Defined.
