(* ===== verification/CredentialSteps.v ===== *)
(** * What the credentials service leaves in its table when it answers

    [answers P m Q]: run outside a transaction where [P] holds of the credentials
    table, [m] is done outside one too, and when it answers, [Q] of the answer
    holds of the table. Where it throws nothing is said, so that a handler that
    throws again costs nothing. The other writers keep what [beside] holds of.
    Then the pages of a listing of the table. *)

From stdpp Require Import sorting.
From S2P Require Import Prelude Json Roles Leases Users AuditLog AccessTables CredentialTables World AccessStore LeaseFence KeyedSerializer Provisioner AccountRecovery CredentialStore Credentials CredentialReconcile CredentialIdentities CredentialSweep CredentialStatements.
Open Scope Z_scope.

Abbreviation table_pred := (credential_table -> Prop).

Definition about (P : table_pred) : world_pred := fun d _ _ => P (d_credentials d).
Definition answered {A} (Q : A -> table_pred) (r : res exn A) : world_pred :=
  match r with Ok x => about (Q x) | Throw _ => fun _ _ _ => True end.

#[export] Hint Extern 2 (frame _) => apply frame_statement : nexus.

(** [frames], through transactions and sections. *)
Ltac framed :=
  repeat first [apply frame_transaction|apply frame_locks|apply frame_attempt|apply frame_catch; [|intro]|progress frames].

Section Steps.
Context (env : nat -> turn).

(** The other writers keep it. *)
Definition beside (P : table_pred) : Prop := forall n d, P (d_credentials d) -> P (d_credentials (t_rivals (env n) d)).

Definition answers_in (tx : bool) {A} (P : table_pred) (m : M A) (Q : A -> table_pred) : Prop :=
  moded env tx (about P) (answered Q) m.

Lemma beside_closed P : beside P -> rival_closed env (about P).
Proof. intros HP n d tr c. apply HP. Qed.
Lemma beside_true : beside (fun _ => True).
Proof. by intros n d _. Qed.
Lemma about_lease_closed P : lease_closed (about P).
Proof. by intros d t tr c. Qed.

(** *** The monad's combinators *)

Section Combinators.
Context (tx : bool).
Abbreviation answers := (answers_in tx).

Lemma answers_conseq {A} (P P' : table_pred) (Q Q' : A -> table_pred) m :
  answers P m Q -> (forall t, P' t -> P t) -> (forall x t, Q x t -> Q' x t) -> answers P' m Q'.
Proof. intros Hm HP HQ. eapply moded_weaken; [exact Hm|by intros d tr c; apply HP|]. intros [x|e] d tr c; [apply HQ|done]. Qed.

Lemma answers_pre {A} (P P' : table_pred) (Q : A -> table_pred) m : answers P m Q -> (forall t, P' t -> P t) -> answers P' m Q.
Proof. intros Hm HP. by eapply answers_conseq. Qed.
Lemma answers_post {A} (P : table_pred) (Q Q' : A -> table_pred) m :
  answers P m Q -> (forall x t, Q x t -> Q' x t) -> answers P m Q'.
Proof. intros Hm HQ. by eapply answers_conseq. Qed.

Lemma answers_ret {A} (P : table_pred) (Q : A -> table_pred) x : (forall t, P t -> Q x t) -> answers P (mret x) Q.
Proof. intros HQ. apply moded_ret. intros d tr c. apply HQ. Qed.
Lemma answers_throw {A} P (Q : A -> table_pred) e : answers P (mthrow e) Q.
Proof. by intros w He Ht _. Qed.

Lemma answers_bind {A B} P (R : A -> table_pred) (Q : B -> table_pred) m k :
  answers P m R -> (forall x, answers (R x) (k x) Q) -> answers P (mbind m k) Q.
Proof. intros Hm Hk. eapply moded_bind; [exact Hm|exact Hk|by intros e d tr c]. Qed.

(** A step that keeps what is known. *)
Lemma answers_skip {A B} P (Q : B -> table_pred) (m : M A) k :
  answers P m (fun _ => P) -> (forall x, answers P (k x) Q) -> answers P (mbind m k) Q.
Proof. intros Hm Hk. by eapply answers_bind. Qed.

Lemma answers_pure {A} (phi : Prop) (P : table_pred) (Q : A -> table_pred) m :
  (forall t, P t -> phi) -> (phi -> answers P m Q) -> answers P m Q.
Proof. intros Hphi Hm w He Ht Hp. apply Hm; [|done..]. by eapply Hphi. Qed.

(** What a precondition holds of may be fixed. *)
Lemma answers_fix {A} (P : table_pred) (Q : A -> table_pred) m :
  (forall t, P t -> answers (fun t' => t' = t) m Q) -> answers P m Q.
Proof. intros Hm w He Ht Hp. by apply (Hm _ Hp w He Ht). Qed.

Lemma answers_ensure P c e : answers P (ensure c e) (fun _ t => c = true /\ P t).
Proof. destruct c; [by apply answers_ret|apply answers_throw]. Qed.
Lemma answers_checked {A} P (r : res exn A) : answers P (checked r) (fun x t => r = Ok x /\ P t).
Proof. destruct r; [by apply answers_ret|apply answers_throw]. Qed.

(** A handler that always throws again. *)
Definition rethrows {A} (m : M A) : Prop := answers (fun _ => True) m (fun _ _ => False).

Lemma answers_catch {A} P (Q : A -> table_pred) m h :
  answers P m Q -> (forall e, rethrows (h e)) -> answers P (mcatch m h) Q.
Proof.
  intros Hm Hh. eapply moded_catch; [exact Hm|by intros x d tr c|]. intros e.
  eapply moded_weaken; [apply Hh|by intros d tr c|]. by intros [x|e'] d tr c.
Qed.

(** [frame] says it all where nothing is known. *)
Lemma answers_framed {A} (m : M A) P : frame m -> answers P m (fun _ _ => True).
Proof. intros Hf w He Ht _. destruct (Hf w) as (He' & Ht' & _). split_and!; [congruence..|]. by destruct (m w).1. Qed.

Lemma rethrows_after {A B} (m : M A) (e : exn) : frame m -> rethrows (A := B) (do_ m; mthrow e).
Proof. intros Hf. eapply answers_bind; [by apply answers_framed|]. intros x. apply answers_throw. Qed.
End Combinators.

(** ** Outside a transaction *)

Abbreviation answers := (answers_in false).

Lemma answers_leads {A} P (m : M A) : frame m -> leads env (about P) (about P) m -> answers P m (fun _ => P).
Proof.
  intros Hf Hm. eapply moded_weaken; [by apply moded_leads|by intros d tr c|]. by intros [x|e] d tr c.
Qed.

(** *** Statements *)

Definition statement_does {A} (f : turn -> db -> res exn (A * db)) (R : credential_table -> A -> table_pred) : Prop :=
  forall n d x d', f (env n) d = Ok (x, d') -> R (d_credentials d) x (d_credentials d').

Lemma answers_statement {A} P (Q : A -> table_pred) (f : turn -> db -> res exn (A * db)) R :
  beside P -> statement_does f R -> (forall t x t', P t -> R t x t' -> Q x t') -> answers P (statement f) Q.
Proof.
  intros HP Hf HQ w He Ht Hp. unfold statement, cur, at_world, about in *. rewrite Ht, He.
  apply (HP (w_turn w)) in Hp. destruct (t_fault _); [by split_and!|].
  destruct (f _ _) as [[x d']|e] eqn:Hfd; (split_and!; simpl; [done..|]); [|done].
  eapply HQ; [exact Hp|by eapply Hf].
Qed.

Lemma answers_read {A} P (f : db -> A) : beside P ->
  answers P (read f) (fun x t => P t /\ exists d, d_credentials d = t /\ x = f d).
Proof.
  intros HP. eapply answers_statement with (R := fun t x t' => t' = t /\ exists d, d_credentials d = t /\ x = f d).
  - exact HP.
  - intros n d x d' [= <- <-]. split; [done|by exists d].
  - by intros t x t' Hp [-> Hx].
Qed.

Lemma answers_look {A} P (f : db -> A) : beside P -> answers P (read f) (fun _ => P).
Proof. intros HP. eapply answers_post; [by apply answers_read|]. by intros x t [? _]. Qed.

(** A statement on another table. *)
Definition elsewhere {A} (f : turn -> db -> res exn (A * db)) : Prop := statement_does f (fun t _ t' => t' = t).
Lemma answers_elsewhere {A} P (f : turn -> db -> res exn (A * db)) :
  beside P -> elsewhere f -> answers P (statement f) (fun _ => P).
Proof. intros HP Hf. eapply answers_statement; [exact HP|exact Hf|]. by intros t x t' Hp ->. Qed.

(** *** Transactions *)

Lemma within_statement {A} P (Q : A -> table_pred) (f : turn -> db -> res exn (A * db)) R :
  statement_does f R -> (forall t x t', P t -> R t x t' -> Q x t') -> answers_in true P (statement f) Q.
Proof.
  intros Hf HQ. apply moded_statement. intros n d tr c Hp. split; [done|]. intros x d' Hd.
  eapply HQ; [exact Hp|by eapply Hf].
Qed.
Lemma within_read {A} P (f : db -> A) :
  answers_in true P (read f) (fun x t => P t /\ exists d, d_credentials d = t /\ x = f d).
Proof.
  eapply within_statement with (R := fun t x t' => t' = t /\ exists d, d_credentials d = t /\ x = f d).
  - intros n d x d' [= <- <-]. split; [done|by exists d].
  - by intros t x t' Hp [-> Hx].
Qed.
Lemma within_elsewhere {A} P (f : turn -> db -> res exn (A * db)) : elsewhere f -> answers_in true P (statement f) (fun _ => P).
Proof. intros Hf. eapply within_statement; [exact Hf|]. by intros t x t' Hp ->. Qed.

Lemma answers_transaction {A} P (Q : A -> table_pred) (body : M A) :
  frame body -> beside P -> (forall x, beside (Q x)) -> answers_in true P body Q -> answers P (transaction body) Q.
Proof.
  intros Hf HP HQ Hb. apply tops_transaction with (K := fun x => about (Q x)); [done|by apply beside_closed| |exact Hb|by intros x d tr c|by intros].
  intros x. by apply beside_closed.
Qed.

(** *** Sections under a key *)

Lemma answers_finally {A} P (Q : A -> table_pred) (m : M A) (f : M unit) :
  answers P m Q -> (forall x, answers (Q x) f (fun _ => Q x)) -> frame f -> answers P (mfinally m f) Q.
Proof.
  intros Hm Hf Hfr w He Ht Hp. destruct (Hm w He Ht Hp) as (He1 & Ht1 & Hr). unfold mfinally.
  destruct (m w) as [[x|e] w1]; simpl in *.
  - destruct (Hf x w1 He1 Ht1 Hr) as (He2 & Ht2 & Hq). by destruct (f w1) as [[[]|e] w2].
  - destruct (Hfr w1) as (He2 & Ht2 & _). destruct (f w1) as [[[]|e'] w2]; simpl in *; split_and!; done || congruence.
Qed.

Lemma answers_holdingLease {A} P (Q : A -> table_pred) key token m :
  answers P m Q -> answers P (holdingLease key token m) Q.
Proof.
  intros Hm w He Ht Hp. unfold holdingLease, in_context.
  destruct (Hm (set_held (w_held w ++ [{| hl_key := key; hl_token := token; hl_live := true |}]) w) He Ht Hp) as (He1 & Ht1 & Hr).
  destruct (m _) as [r w1]. by split_and!.
Qed.

Lemma answers_locks {A} P (Q : A -> table_pred) key m :
  beside P -> (forall x, beside (Q x)) -> answers P m Q -> answers P (locks key m) Q.
Proof.
  intros HP HQ Hm. unfold locks.
  eapply answers_bind with (R := fun r t => match r with Some x => Q x t | None => True end).
  2: { intros [x|]; [by apply answers_ret|apply answers_throw]. }
  unfold underLease. apply answers_skip; [apply answers_leads; [auto with nexus|apply leads_randomUUID]|]. intros token.
  apply answers_skip. { apply answers_leads; [auto with nexus|]. apply leads_takeLease; [by apply beside_closed|apply about_lease_closed]. }
  intros []; [|by apply answers_ret].
  apply answers_finally; [|intros x|].
  - eapply answers_bind; [by apply answers_holdingLease|]. intros x. by apply answers_ret.
  - set (P' := fun t => match x with Some y => Q y t | None => True end).
    assert (HP' : beside P') by (subst P'; destruct x; [apply HQ|apply beside_true]).
    change (answers P' (mcatch (do_ leases_release key token; mret tt) (fun _ => mret tt)) (fun _ => P')).
    apply answers_leads; [frames|]. apply leads_catch with (K := about P'); [|intros e; apply leads_ret; by intros d tr c|by intros d tr c].
    eapply leads_bind; [|intros u; apply leads_ret; by intros d tr c|by intros d tr c].
    apply leads_statement; [by apply beside_closed|by intros d tr c|]. intros n d tr c Hp r d' Hd.
    destruct (lease_release _ _ _). by injection Hd as _ <-.
  - frames.
Qed.

(** *** The gateway *)

(** A call on another service: the store is left to the other writers. *)
Definition outside {A} (m : M A) : Prop := frame m /\ forall P, beside P -> leads env (about P) (about P) m.

Lemma answers_outside {A} P (m : M A) : outside m -> beside P -> answers P m (fun _ => P).
Proof. intros [Hf Hm] HP. apply answers_leads; [done|by apply Hm]. Qed.
End Steps.

Abbreviation answers env := (answers_in env false).
Abbreviation within env := (answers_in env true).

Class GatewayCalls `{EdgeClient} `{CredentialDeps} (env : nat -> turn) : Prop := {
  calls_get : forall id confirm, outside env (edge_get id confirm);
  calls_verification : forall id subject, outside env (edge_verification id subject);
  calls_replace : forall id c subject tag, outside env (edge_replace id c subject tag);
  calls_getByUsername : forall name, outside env (edge_getByUsername name);
  calls_deleteAt : forall id type i subject, outside env (edge_deleteCredentialAt id type i subject);
  calls_deleteType : forall id type subject, outside env (edge_deleteCredentialType id type subject);
  calls_delete : forall id subject, outside env (edge_delete id subject);
}.

(** ** The newest-first listing of an account's live credentials

    [credentials.list] of one status, read page by page while the table changes:
    the rows a sweep spares come first, so what the offset steps past is read off
    their prefix of the listing. *)

(** ** Positions in sorted lists *)

Abbreviation row_key := (Z * string)%type.
Definition key (r : CredentialRecord) : row_key := (cr_created_at r, cr_id r).

Definition key_le (x y : row_key) : bool := leb_of (then_by (Z.compare y.1 x.1) (String.compare y.2 x.2)).
Abbreviation key_sorted := (StronglySorted (fun x y => key_le x y = true)).

Lemma key_le_spec x y : key_le x y = true <-> (y.1 < x.1 \/ x.1 = y.1 /\ string_leb y.2 x.2 = true).
Proof.
  unfold key_le, string_leb, then_by, leb_of. destruct (Z.compare_spec y.1 x.1) as [He|Hl|Hg].
  - split; [intros Hc; by right|]. intros [?|[_ Hc]]; [lia|done].
  - split; [by left|done].
  - split; [done|]. intros [?|[? _]]; lia.
Qed.

Lemma key_le_total x y : key_le x y = true \/ key_le y x = true.
Proof.
  rewrite !key_le_spec. destruct (Z.lt_trichotomy y.1 x.1) as [?|[He|?]]; [by left; left| |by right; left].
  destruct (string_leb_total x.2 y.2); [right|left]; right; (split; [congruence|done]).
Qed.
Lemma key_le_trans x y z : key_le x y = true -> key_le y z = true -> key_le x z = true.
Proof.
  rewrite !key_le_spec. intros [?|[? ?]] [?|[? ?]]; try (left; lia).
  right. split; [lia|]. by eapply string_leb_trans.
Qed.
Lemma key_le_antisym x y : key_le x y = true -> key_le y x = true -> x = y.
Proof.
  rewrite !key_le_spec. intros [?|[He ?]] [?|[? ?]]; try lia. destruct x, y. simpl in *. subst. f_equal. by apply string_leb_antisym.
Qed.

(** Elements of a prefix stay, others may go, what joins is in [I]: the prefix of
    the same length holds no other element. *)
Lemma prefix_after_change (I : row_key -> Prop) l l' n :
  key_sorted l -> key_sorted l' -> NoDup l -> NoDup l' -> (n <= length l)%nat ->
  (forall k, k ∈ take n l -> k ∈ l') -> (forall k, k ∈ l' -> k ∈ l \/ I k) ->
  (n <= length l')%nat /\ forall k, k ∈ take n l' -> k ∈ take n l \/ I k.
Proof.
  intros Hs Hs' Hn Hn' Hlen Hstay Hnew.
  assert (Hp : NoDup (take n l)) by (by eapply sublist_NoDup; [|apply sublist_take]).
  assert (Hpl : length (take n l) = n) by (rewrite length_take; lia).
  split. { rewrite <- Hpl. by apply submseteq_length, NoDup_submseteq. }
  intros k Hk. destruct (Hnew k) as [Hkl|HI]; [by apply elem_of_take in Hk as (i & ? & _); eapply list_elem_of_lookup_2|left|by right].
  rewrite <- (take_drop n l) in Hkl. apply elem_of_app in Hkl as [?|Hkd]; [done|exfalso].
  apply list_elem_of_lookup in Hk as [i Hi]. apply lookup_take_Some in Hi as [Hi Hin].
  assert (Hbelow : forall y, y ∈ take n l -> key_le y k = true /\ y <> k).
  { intros y Hy. split.
    - rewrite <- (take_drop n l) in Hs. exact (StronglySorted_app_1_elem_of _ _ _ _ _ Hs Hy Hkd).
    - intros ->. rewrite <- (take_drop n l) in Hn. apply NoDup_app in Hn as (_ & Hd & _). by apply (Hd k). }
  assert (Hearly : forall y, y ∈ take n l -> y ∈ take i l').
  { intros y Hy. destruct (Hbelow y Hy) as [Hle Hne]. pose proof (Hstay y Hy) as [j Hj]%list_elem_of_lookup.
    apply list_elem_of_lookup. exists j. apply lookup_take_Some. split; [done|].
    destruct (Nat.lt_trichotomy j i) as [?|[->|Hgt]]; [done|congruence|].
    exfalso. apply Hne, key_le_antisym; [done|]. exact (sorted_lookup _ l' i j k y Hs' Hgt Hi Hj). }
  pose proof (submseteq_length _ _ (NoDup_submseteq _ _ Hp Hearly)) as Hlt. rewrite Hpl, length_take in Hlt. lia.
Qed.

Lemma filter_every {A} (P : A -> Prop) `{!forall x, Decision (P x)} l : Forall P l -> filter P l = l.
Proof. induction 1 as [|x l Hx _ IH]; [done|]. rewrite filter_cons_True by done. by rewrite IH. Qed.
Lemma filter_no {A} (P : A -> Prop) `{!forall x, Decision (P x)} l : Forall (fun x => ~ P x) l -> filter P l = [].
Proof. induction 1 as [|x l Hx _ IH]; [done|]. by rewrite filter_cons_False. Qed.

(** A sorted list whose first elements are those of [p]. *)
Lemma sorted_split {A} (R : A -> A -> Prop) (p : A -> bool) l :
  StronglySorted R l -> (forall x y, R x y -> p y = true -> p x = true) ->
  l = filter (fun x => p x = true) l ++ filter (fun x => p x = false) l.
Proof.
  intros Hs Hp. induction Hs as [|x l Hs IH Hx]; [done|]. rewrite !filter_cons. destruct (p x) eqn:Hpx; simpl.
  - by rewrite <- IH.
  - assert (Hall : Forall (fun y => p y = false) l).
    { eapply Forall_impl; [exact Hx|]. intros y Hy. destruct (p y) eqn:Hpy; [|done]. by rewrite (Hp x y Hy Hpy) in Hpx. }
    rewrite filter_no, filter_every; [done..|]. eapply Forall_impl; [exact Hall|]. by intros y ->.
Qed.

(** ** The listing *)

Section Listing.
Context (userId : string) (cutoff : option Z).

Definition listing (status : CredentialStatus) (t : credential_table) : list CredentialRecord :=
  sort_by (newest_first cr_created_at cr_id) (rows_where (credentialWhere (live_of_user userId status)) t).

(** A row of the account with a status. *)
Definition listed (status : CredentialStatus) (t : credential_table) (r : CredentialRecord) : Prop :=
  t !! cr_id r = Some r /\ cr_user_id r = userId /\ cr_status r = status.

Lemma listing_page status t n :
  credentials_list (live_of_user userId status) (Some (Fin MAX_PAGE_SIZE)) (Some (Fin (Z.of_nat n))) t
  = (take 200 (drop n (listing status t)), Z.of_nat (length (listing status t))).
Proof.
  unfold credentials_list, paged, listing. f_equal. change (Z.to_nat (clampPageSize (Some (Fin MAX_PAGE_SIZE)))) with 200%nat.
  do 2 f_equal. unfold page_offset. case_decide; lia.
Qed.

Lemma listing_elem status t r : keyed cr_id t -> r ∈ listing status t <-> listed status t r.
Proof.
  intros Hk. unfold listing, listed. rewrite sort_by_elem, rows_where_spec. unfold credentialWhere, live_of_user, has_credential_status. simpl.
  split.
  - intros (k & Hr & Hp). bool_to_prop. pose proof (Hk k r Hr) as Hid. simpl in Hid. subst k. by split_and!.
  - intros (Hr & Hu & Hs). exists (cr_id r). split; [done|]. rewrite !bool_decide_eq_true_2 by done. done.
Qed.

Lemma listing_newest status t : StronglySorted (fun x y => newest_first cr_created_at cr_id x y = true) (listing status t).
Proof.
  exact (sort_by_sorted (newest_first cr_created_at cr_id) (fun x y => key_le_total (key x) (key y))
    (fun x y z => key_le_trans (key x) (key y) (key z)) (rows_where (credentialWhere (live_of_user userId status)) t)).
Qed.

Lemma listing_sorted status t : key_sorted (map key (listing status t)).
Proof.
  pose proof (listing_newest status t) as Hs. induction Hs as [|x l _ IH Hx]; simpl; constructor; [done|].
  apply Forall_map. exact Hx.
Qed.

Lemma listing_ids status t : keyed cr_id t -> NoDup (map cr_id (listing status t)).
Proof.
  intros Hk. unfold listing. rewrite (sort_by_perm _ _).
  apply NoDup_fmap_2_strong; [|apply keyed_rows_distinct; by intros k r Hr%Hk].
  intros r r' (k & Hr & _)%rows_where_spec (k' & Hr' & _)%rows_where_spec He.
  pose proof (Hk k r Hr) as Hi. pose proof (Hk k' r' Hr') as Hi'. simpl in *. congruence.
Qed.

Lemma listing_distinct status t : keyed cr_id t -> NoDup (map key (listing status t)).
Proof. intros Hk. apply (NoDup_fmap_1 snd). rewrite <- list_fmap_compose. by apply listing_ids. Qed.

(** Tables with the same rows of the account list the same. *)
Lemma listing_ext status t t' : keyed cr_id t -> keyed cr_id t' ->
  (forall r, listed status t' r <-> listed status t r) -> listing status t' = listing status t.
Proof.
  intros Hk Hk' Hsame. assert (Hin : forall r, r ∈ listing status t' <-> r ∈ listing status t) by (intros r; by rewrite !listing_elem).
  eapply StronglySorted_unique_strong; [|apply listing_newest..|].
  - intros x y Hx Hy Hxy Hyx. assert (He : key x = key y) by by apply key_le_antisym. apply Hin in Hx.
    apply listing_elem in Hx as [Hx _], Hy as [Hy _]; [|done..]. apply (f_equal snd) in He. simpl in He. congruence.
  - apply NoDup_Permutation; [by apply (NoDup_fmap_1 cr_id), listing_ids..|done].
Qed.

(** The rows a sweep spares come first. *)
Definition spared_rows status t := filter (fun r => spared cutoff r = true) (listing status t).
Definition older_rows status t := filter (fun r => spared cutoff r = false) (listing status t).
Definition spared_keys status t : list row_key := map key (spared_rows status t).

Lemma spared_key r r' : key r = key r' -> spared cutoff r = spared cutoff r'.
Proof. intros [= He _]. unfold spared. by rewrite He. Qed.

Lemma listing_split status t : listing status t = spared_rows status t ++ older_rows status t.
Proof.
  eapply sorted_split; [apply listing_newest|]. intros x y Hle. unfold spared.
  change (key_le (key x) (key y) = true) in Hle. apply key_le_spec in Hle. simpl in Hle.
  destruct cutoff as [c|]; [|done]. rewrite !bool_decide_eq_true. lia.
Qed.

Lemma spared_keys_spec status t : keyed cr_id t ->
  key_sorted (spared_keys status t) /\ NoDup (spared_keys status t)
  /\ forall k, k ∈ spared_keys status t <-> exists r, listed status t r /\ spared cutoff r = true /\ key r = k.
Proof.
  intros Hk. pose proof (listing_sorted status t) as Hs. pose proof (listing_distinct status t Hk) as Hn.
  rewrite listing_split, map_app in Hs, Hn. apply StronglySorted_app in Hs as (_ & Hs & _). apply NoDup_app in Hn as (Hn & _ & _).
  split_and!; [done..|]. intros k. unfold spared_keys, spared_rows. rewrite list_elem_of_fmap. split.
  - intros (r & -> & [Hsp Hr]%list_elem_of_filter). apply listing_elem in Hr; [|done]. by exists r.
  - intros (r & Hr & Hsp & <-). exists r. split; [done|]. apply list_elem_of_filter. by rewrite listing_elem.
Qed.

(** The page read at an offset within the spared rows. *)
Lemma page_split status t n :
  (n <= length (spared_rows status t))%nat ->
  filter (fun r => spared cutoff r = true) (take 200 (drop n (listing status t))) = take 200 (drop n (spared_rows status t)).
Proof.
  intros Hn. rewrite listing_split, drop_app_le, take_app by done. rewrite filter_app.
  rewrite filter_every, filter_no, app_nil_r; [done|..].
  - apply Forall_take, Forall_forall. intros r [Hr _]%list_elem_of_filter. by rewrite Hr.
  - apply Forall_take, Forall_drop, Forall_forall. by intros r [? _]%list_elem_of_filter.
Qed.
End Listing.
