(* ===== verification/CredentialSweeping.v ===== *)
(** * How the credentials table may change during a recovery sweep

    [sweeping]: keys of the account only leave, except those issued meanwhile,
    which stay. The other writers are assumed to keep to it, and one revocation
    of the sweep does. *)

From S2P Require Import Prelude Json Roles Leases Users AuditLog AccessTables CredentialTables World AccessStore LeaseFence KeyedSerializer Provisioner AccountRecovery CredentialStore Credentials CredentialIssue CredentialReconcile CredentialIdentities CredentialSweep CredentialStatements CredentialSteps.
Open Scope Z_scope.

Definition same_key (r r' : CredentialRecord) : Prop := key r' = key r /\ cr_user_id r' = cr_user_id r.

#[export] Instance same_key_equiv : Equivalence same_key.
Proof. split; [by split|intros r r' [? ?]; by split|intros r1 r2 r3 [? ?] [? ?]; split; by etrans]. Qed.

Lemma same_key_id r r' : same_key r r' -> cr_id r' = cr_id r.
Proof. by intros [[= _ ->] _]. Qed.

Section Sweeping.
Context (userId : string) (cutoff : option Z) (issued : string -> Prop).

(** The table is indexed by the id of its rows; a key issued meanwhile is active
    and newer than the cutoff. *)
Record good (t : credential_table) : Prop := {
  gd_keyed : keyed cr_id t;
  gd_issued : forall r, t !! cr_id r = Some r -> issued (cr_id r) -> cr_user_id r = userId ->
    cr_status r = CredentialActive /\ spared cutoff r = true;
}.

(** Of the account, what is live afterwards was issued meanwhile or was there with
    its status, but an older key may start to retire; what was issued meanwhile
    stays. Nothing is said of the row [but], save that it is the same one. *)
Record sweeping (but : option string) (t t' : credential_table) : Prop := {
  sg_good : good t';
  sg_present : forall r', t' !! cr_id r' = Some r' ->
    issued (cr_id r') \/ exists r, t !! cr_id r' = Some r /\ same_key r r';
  sg_live : forall r', t' !! cr_id r' = Some r' -> cr_user_id r' = userId -> is_live r' = true -> Some (cr_id r') <> but ->
    issued (cr_id r') \/ exists r, t !! cr_id r' = Some r /\ same_key r r' /\
      (cr_status r = cr_status r' \/ cr_status r = CredentialActive /\ spared cutoff r = false);
  sg_issued : forall r, t !! cr_id r = Some r -> issued (cr_id r) ->
    exists r', t' !! cr_id r = Some r' /\ same_key r r' /\ (cr_user_id r = userId -> cr_status r' = cr_status r);
}.

Lemma sweeping_refl but t : good t -> sweeping but t t.
Proof.
  intros Hg. split; [done| | |].
  - intros r Hr. right. by exists r.
  - intros r Hr _ _ _. right. exists r. split_and!; [done..|by left].
  - intros r Hr _. by exists r.
Qed.

Lemma sweeping_weaken but t t' : sweeping None t t' -> sweeping but t t'.
Proof. intros [Hg Hp Hl Hi]. split; [done..| |done]. intros r Hr Hu Hlive _. by apply Hl. Qed.

Lemma sweeping_trans but t1 t2 t3 : sweeping but t1 t2 -> sweeping but t2 t3 -> sweeping but t1 t3.
Proof.
  intros [Hg Hp Hl Hi] [Hg' Hp' Hl' Hi']. split; [done| | |].
  - intros r Hr. destruct (Hp' r Hr) as [?|(r2 & Hr2 & Hs)]; [by left|].
    pose proof (same_key_id _ _ Hs) as Hid. rewrite Hid in *.
    destruct (Hp r2 Hr2) as [?|(r1 & Hr1 & Hs1)]; [by left|]. right. exists r1. split; [done|by etrans].
  - intros r Hr Hu Hlive Hne. destruct (Hl' r Hr Hu Hlive Hne) as [?|(r2 & Hr2 & Hs & Hst)]; [by left|].
    pose proof (same_key_id _ _ Hs) as Hid. rewrite Hid in *. pose proof Hs as [Hk Hu2].
    assert (Hlive2 : is_live r2 = true).
    { unfold is_live in *. destruct Hst as [->|[-> _]]; [done|by apply (bool_decide_unpack _)]. }
    destruct (Hl r2 Hr2) as [?|(r1 & Hr1 & Hs1 & Hst1)]; [congruence|done|done|by left|].
    right. exists r1. split_and!; [done|by etrans|]. destruct Hst1 as [->|Hst1]; [|by right].
    destruct Hst as [->|[-> Ho]]; [by left|right]. split; [done|]. destruct Hs1 as [Hk1 _]. by rewrite <- (spared_key _ _ _ Hk1).
  - intros r Hr Hiss. destruct (Hi r Hr Hiss) as (r2 & Hr2 & Hs & Hst). pose proof (same_key_id _ _ Hs) as Hid.
    rewrite <- Hid in Hr2, Hiss. destruct (Hi' r2 Hr2 Hiss) as (r3 & Hr3 & Hs3 & Hst3). exists r3. rewrite <- Hid.
    split_and!; [done|by etrans|]. intros Hu. rewrite Hst3, Hst; [done..|]. destruct Hs as [_ ->]. done.
Qed.

(** A key that is not the account's or not issued meanwhile. *)
Definition apart (r : CredentialRecord) : Prop := issued (cr_id r) -> cr_user_id r <> userId.

Lemma updated_same_key st r r' : updated_to st r r' -> same_key r r'.
Proof. intros [at_ ->]. by split. Qed.

(** A key that is revoked, or the row [but] in any status. *)
Lemma sweeping_write but st t r r' :
  good t -> t !! cr_id r = Some r -> apart r -> updated_to st r r' ->
  st = CredentialRevoked \/ Some (cr_id r) = but -> sweeping but t (<[cr_id r := r']> t).
Proof.
  intros Hg Hr Hap Hup Hst. pose proof (updated_same_key _ _ _ Hup) as Hsame. pose proof (same_key_id _ _ Hsame) as Hid.
  assert (Hat : forall x, <[cr_id r := r']> t !! cr_id x = Some x -> x = r' /\ cr_id x = cr_id r \/ t !! cr_id x = Some x).
  { intros x. destruct (decide (cr_id r = cr_id x)) as [He|Hne].
    - rewrite He, lookup_insert_eq. intros [= ->]. by left.
    - rewrite lookup_insert_ne by done. by right. }
  split.
  - split.
    + intros k x. destruct (decide (k = cr_id r)) as [->|Hne]; [rewrite lookup_insert_eq; by intros [= <-]|].
      rewrite lookup_insert_ne by done. apply (gd_keyed _ Hg).
    + intros x [[-> Hi]|Hx]%Hat Hiss Hu; [|by apply (gd_issued _ Hg)].
      destruct Hsame as [_ Hsu]. rewrite Hsu in Hu. rewrite Hi in Hiss. by destruct (Hap Hiss).
  - intros x [[-> Hi]|Hx]%Hat; right; [exists r|by exists x]. by rewrite Hi.
  - intros x Hx%Hat Hu Hlive Hne. destruct Hx as [[-> Hi]|Hx]; right; [|exists x; by split_and!; [..|left]].
    exfalso. destruct Hst as [->|Hb]; [|congruence]. unfold is_live in Hlive. by rewrite (updated_status _ _ _ Hup) in Hlive.
  - intros x Hx Hiss. destruct (decide (cr_id r = cr_id x)) as [He|Hne].
    + rewrite <- He in *. rewrite Hr in Hx. injection Hx as <-. rewrite lookup_insert_eq. exists r'. split_and!; [done..|].
      intros Hu. by destruct (Hap Hiss).
    + rewrite lookup_insert_ne by done. by exists x.
Qed.

(** The row left out is settled. *)
Lemma sweeping_settled k t t' :
  sweeping (Some k) t t' -> (forall r, t' !! k = Some r -> cr_id r = k -> is_live r = false) -> sweeping None t t'.
Proof.
  intros [Hg Hp Hl Hi] Hk. split; [done..| |done]. intros r Hr Hu Hlive _. apply Hl; [done..|].
  intros [= <-]. by rewrite (Hk r Hr eq_refl) in Hlive.
Qed.

(** An id the sweep may revoke the row of. *)
Definition away (t : credential_table) (id : string) : Prop :=
  ~ issued id \/ exists r, t !! id = Some r /\ cr_user_id r <> userId.

Lemma away_later but t t' id : good t -> sweeping but t t' -> away t id -> away t' id.
Proof.
  intros Hg Hs [Hn|(r & Hr & Hu)]; [by left|]. destruct (decide (t' !! id = None)) as [Hnone|Hsome].
  - left. intros Hiss. pose proof (gd_keyed _ Hg _ _ Hr) as Hid. simpl in Hid. subst id.
    destruct (sg_issued _ _ _ Hs r Hr Hiss) as (r' & Hr' & _). congruence.
  - destruct (t' !! id) as [r'|] eqn:Hr'; [|done]. pose proof (gd_keyed _ (sg_good _ _ _ Hs) _ _ Hr') as Hid'. simpl in Hid'.
    subst id. destruct (sg_present _ _ _ Hs r' Hr') as [Hiss|(r1 & Hr1 & [_ Hsu])].
    + right. exists r'. split; [done|]. pose proof (gd_keyed _ Hg _ _ Hr) as Hid. simpl in Hid. rewrite <- Hid in Hr, Hiss, Hr'.
      destruct (sg_issued _ _ _ Hs r Hr Hiss) as (r2 & Hr2 & [_ Hsu] & _). assert (r2 = r') as -> by congruence. congruence.
    + right. exists r'. split; [done|]. assert (r1 = r) as -> by congruence. congruence.
Qed.

Lemma away_row t r : good t -> t !! cr_id r = Some r -> cr_status r <> CredentialActive \/ spared cutoff r = false -> away t (cr_id r).
Proof.
  intros Hg Hr Hst. destruct (decide (cr_user_id r = userId)) as [Hu|Hu]; [left|right; by exists r].
  intros Hiss. destruct (gd_issued _ Hg r Hr Hiss Hu) as [Ha Hs]. destruct Hst; congruence.
Qed.

(** Since [t0], with these ids for the sweep to revoke. *)
Definition since (but : option string) (t0 : credential_table) (ids : list string) (t : credential_table) : Prop :=
  sweeping but t0 t /\ Forall (away t) ids.

Lemma since_step but t0 ids t t' : since but t0 ids t -> sweeping but t t' -> since but t0 ids t'.
Proof.
  intros [Hs Ha] Hst. split; [by eapply sweeping_trans|]. eapply Forall_impl; [exact Ha|]. intros id.
  eapply away_later; [apply (sg_good _ _ _ Hs)|exact Hst].
Qed.

Lemma since_sweeps but t0 ids t id r r' st :
  since but t0 ids t -> id ∈ ids -> t !! id = Some r -> updated_to st r r' -> st = CredentialRevoked \/ Some id = but ->
  sweeping but t (<[cr_id r := r']> t).
Proof.
  intros [Hsw Ha] Hin Hr Hup Hst. pose proof (sg_good _ _ _ Hsw) as Hg.
  pose proof (gd_keyed _ Hg _ _ Hr) as Hid. simpl in Hid. subst id.
  eapply sweeping_write; [done|done| |exact Hup|done]. intros Hiss.
  rewrite Forall_forall in Ha. destruct (Ha _ Hin) as [?|(x & Hx & Hu)]; [done|congruence].
Qed.

(** Kept by what the others and the sweep itself do. *)
Definition kept (X : credential_table -> Prop) : Prop := forall t t', good t -> sweeping None t t' -> X t -> X t'.

Lemma kept_and (X Y : credential_table -> Prop) : kept X -> kept Y -> kept (fun t => X t /\ Y t).
Proof. intros HX HY t t' Hg Hs [? ?]. split; [by eapply HX|by eapply HY]. Qed.

Lemma kept_since t0 ids : kept (since None t0 ids).
Proof. intros t t' _ Hs Hsince. by eapply since_step. Qed.

(** A key of the account that is gone for good. *)
Definition settled (id : string) (t : credential_table) : Prop :=
  ~ issued id -> forall r, t !! id = Some r -> cr_user_id r = userId -> is_live r = false.

Lemma settled_kept id : kept (settled id).
Proof.
  intros t t' Hg Hs Hset Hni r Hr Hu. apply not_true_is_false. intros Hlive.
  pose proof (gd_keyed _ (sg_good _ _ _ Hs) _ _ Hr) as Hid. simpl in Hid. subst id.
  destruct (sg_live _ _ _ Hs r Hr Hu Hlive) as [?|(r0 & Hr0 & [Hk Hu0] & Hst)]; [done..|].
  specialize (Hset Hni r0 Hr0). unfold is_live in *. destruct Hst as [Hst|[Hst _]].
  - rewrite Hst in Hset. rewrite Hset in Hlive; [done|congruence].
  - rewrite Hst in Hset. discriminate Hset. congruence.
Qed.
End Sweeping.

(** ** The statements on the whole table *)

Lemma does_row_update env id st : statement_does env
    (fun t d => match credentials_update id (credential_status_patch st) (t_now t) (d_credentials d) with
                | Ok (r, rows) => Ok (r, put_credentials rows d) | Throw e => Throw e end)
    (fun t _ t' => t' = t /\ t !! id = None
       \/ exists r r', t !! id = Some r /\ updated_to st r r' /\ t' = <[cr_id r := r']> t).
Proof.
  intros n d x d' Hf. unfold credentials_update in Hf. destruct (d_credentials d !! id) as [r|] eqn:Hr.
  - injection Hf as _ <-. right. exists r. eexists. split; [done|]. split; [by eexists|done].
  - injection Hf as _ <-. by left.
Qed.

Lemma does_row_updateIfStatus env id expected st : statement_does env
    (fun t d => match credentials_updateIfStatus id expected (credential_status_patch st) (t_now t) (d_credentials d) with
                | Ok (r, rows) => Ok (r, put_credentials rows d) | Throw e => Throw e end)
    (fun t _ t' => t' = t \/ exists r r', t !! id = Some r /\ updated_to st r r' /\ t' = <[cr_id r := r']> t).
Proof.
  intros n d x d' Hf. unfold credentials_updateIfStatus in Hf. destruct (d_credentials d !! id) as [r|] eqn:Hr.
  - destruct (has_credential_status expected r); injection Hf as _ <-; [right|by left].
    exists r. eexists. split; [done|]. split; [by eexists|done].
  - injection Hf as _ <-. by left.
Qed.

Lemma within_audit env P actor action target details ip :
  within env P (audit_record actor action target details ip) (fun _ => P).
Proof.
  apply within_elsewhere. intros n d x d' Hf. destruct (auditLogs_create _ _) as [[row rows]|e]; [|done]. by injection Hf as _ <-.
Qed.

(** ** One revocation of the sweep *)

Section Revocation.
Context `{EdgeClient} `{CredentialDeps} (env : nat -> turn) `{!GatewayCalls env}.
Context (userId : string) (cutoff : option Z) (issued : string -> Prop).
Abbreviation good := (good userId cutoff issued).
Abbreviation sweeping := (sweeping userId cutoff issued).
Abbreviation since := (since userId cutoff issued).
Abbreviation away := (away userId issued).
Abbreviation kept := (kept userId cutoff issued).
Abbreviation settled := (settled userId issued).
Context (Hrivals : forall n d, good (d_credentials d) -> sweeping None (d_credentials d) (d_credentials (t_rivals (env n) d))).

Lemma beside_since but t0 ids : beside env (since but t0 ids).
Proof.
  intros n d Hs. eapply since_step; [exact Hs|]. apply sweeping_weaken, Hrivals. by destruct Hs as [[? _ _ _] _].
Qed.
Hint Resolve beside_since : core.

Lemma since_good but t0 ids t : since but t0 ids t -> good t.
Proof. by intros [[? _ _ _] _]. Qed.

Lemma beside_kept_since X t0 ids : kept X -> beside env (fun t => since None t0 ids t /\ X t).
Proof.
  intros HX n d [Hs Hx]. split; [by apply beside_since|]. eapply HX; [by eapply since_good|by apply Hrivals; eapply since_good|done].
Qed.

Lemma within_update but t0 ids id st : id ∈ ids -> st = CredentialRevoked \/ Some id = but ->
  within env (since but t0 ids) (credential_update id st)
    (fun _ t => since but t0 ids t /\ forall r, t !! id = Some r -> cr_status r = st).
Proof.
  intros Hin Hst. eapply within_statement; [apply does_row_update|].
  intros t x t' Hs [[-> Hn]|(r & r' & Hr & Hup & ->)]; [split; [done|congruence]|].
  pose proof (gd_keyed _ _ _ _ (since_good _ _ _ _ Hs) _ _ Hr) as Hid. simpl in Hid.
  split; [eapply since_step; [exact Hs|by eapply since_sweeps]|].
  intros y. rewrite Hid, lookup_insert_eq. intros [= <-]. by eapply updated_status.
Qed.

Lemma within_settle X t0 ids id expected : kept X -> id ∈ ids ->
  within env (fun t => since None t0 ids t /\ X t) (credential_updateIfStatus id expected CredentialRevoked)
    (fun _ t => since None t0 ids t /\ X t).
Proof.
  intros HX Hin. eapply within_statement; [apply does_row_updateIfStatus|].
  intros t x t' [Hs Hx] [->|(r & r' & Hr & Hup & ->)]; [done|].
  assert (Hsw : sweeping None t (<[cr_id r := r']> t)) by (eapply since_sweeps; [done..|by left]).
  split; [by eapply since_step|]. eapply HX; [by eapply since_good|done..].
Qed.

(** *** The gateway *)

Lemma frame_edge_get id confirm : frame (edge_get id confirm).
Proof. apply (calls_get id confirm). Qed.
Lemma frame_removeAt cid ty i subject : frame (removeAt cid ty i subject).
Proof. destruct i; simpl; [apply (calls_deleteAt cid)|apply (calls_deleteType cid)..]. Qed.
Hint Resolve frame_edge_get frame_removeAt : nexus.

Lemma answers_removeAt P cid ty i subject : beside env P -> answers env P (removeAt cid ty i subject) (fun _ => P).
Proof. intros HP. destruct i; simpl; apply answers_outside; [apply calls_deleteAt|done|apply calls_deleteType|done..|apply calls_deleteType|done]. Qed.

Lemma frame_deleteDidNotApply cid ty n : frame (deleteDidNotApply cid ty n).
Proof. unfold deleteDidNotApply. framed. Qed.
Lemma frame_withdrawRetirement r op actor e ip : frame (withdrawRetirement r op actor e ip).
Proof. unfold withdrawRetirement, withdraw_attempt, withdraw_retirement_once, auditRowCommitted, ignore_errors. framed. Qed.
Hint Resolve frame_deleteDidNotApply frame_withdrawRetirement : nexus.

(** *** The steps of a revocation *)

(** A row another key of the account cannot be mistaken for. *)
Definition revocable (r : CredentialRecord) : Prop := cr_status r <> CredentialActive \/ spared cutoff r = false.
Instance revocable_dec r : Decision (revocable r).
Proof. unfold revocable. apply _. Defined.

Lemma answers_settleLostRetirement t0 ids cid ty rows n actor ip :
  (forall r, r ∈ rows -> revocable r -> cr_id r ∈ ids) ->
  answers env (since None t0 ids) (settleLostRetirement cid ty rows n actor ip)
    (fun rows' t => since None t0 ids t /\ forall r, r ∈ rows' -> r ∈ rows).
Proof.
  intros Hids. unfold settleLostRetirement. destruct (lost_retirement rows n) as [retired|] eqn:Hlost; [|by apply answers_ret].
  assert (Hin : cr_id retired ∈ ids).
  { unfold lost_retirement in Hlost. destruct (negb _); [done|].
    destruct (filter _ rows) as [|x [|]] eqn:Hf; simplify_eq. assert (Hx : retired ∈ [retired]) by left.
    rewrite <- Hf in Hx. apply list_elem_of_filter in Hx as [Hs Hx]. apply Hids; [done|left].
    unfold has_credential_status in Hs. apply bool_decide_eq_true in Hs. congruence. }
  apply answers_bind with (R := fun _ => since None t0 ids).
  - apply answers_transaction; [framed|auto..|]. apply answers_skip; [eapply answers_post; [apply within_read|by intros x t [? _]]|].
    intros fresh. destruct (negb _); [by apply answers_ret|].
    eapply answers_bind; [eapply answers_post; [apply within_update; [done|by left]|intros x t [Hs _]; exact Hs]|].
    intros x. apply answers_skip; [apply within_audit|]. intros y. by apply answers_ret.
  - intros settled. apply answers_ret. intros t Hs. split; [done|]. intros r. destruct settled; [|done].
    by intros [_ ?]%list_elem_of_filter.
Qed.

Lemma whole_type_revocable rows current n r fallback :
  place_revocation rows current n (recovery_options cutoff) = Ok (WholeType, fallback) ->
  r ∈ rows -> has_id (cr_id current) r = false -> revocable r.
Proof.
  intros Hp Hr Hother. unfold place_revocation in Hp. simpl in Hp.
  assert (Hresolved : resolveCredentialIndex rows current n = Ok WholeType -> revocable r).
  { unfold resolveCredentialIndex. destruct (findIndex _ _) as [i|] eqn:Hi; [|done].
    destruct (negb _); [|by destruct (_ && _)]. destruct (length rows =? 1)%nat eqn:Hone; [|done]. intros _. exfalso.
    apply Nat.eqb_eq in Hone. destruct rows as [|x [|]]; [done| |done]. apply list_elem_of_singleton in Hr as ->.
    simpl in Hi. by rewrite Hother in Hi. }
  destruct (revokePosition rows current n false) as [position|error] eqn:Hpos.
  - injection Hp as -> _. unfold revokePosition in Hpos. destruct (negb (bool_decide _)); [by apply Hresolved|].
    destruct (negb (existsb _ _)); [done|]. destruct (forallb _ rows) eqn:Hall.
    + left. rewrite forallb_forall in Hall. specialize (Hall r). rewrite <- list_elem_of_In in Hall. specialize (Hall Hr).
      rewrite Hother in Hall. simpl in Hall. apply negb_true_iff in Hall. unfold has_credential_status in Hall. by apply bool_decide_eq_false in Hall.
    + destruct (assertPositionsConfirmed _ _ _); [by apply Hresolved|done].
  - right. destruct (existsb _ rows) eqn:Hall; [done|]. apply not_true_iff_false in Hall. apply not_true_is_false. intros Hsp.
    apply Hall, existsb_exists. exists r. split; [by apply list_elem_of_In|]. unfold spared in Hsp. apply orb_true_iff. by right.
Qed.

Lemma answers_retire_and_remove t0 ids target current actor ip details n position :
  cr_id current ∈ ids ->
  answers env (since None t0 ids) (retire_and_remove target current actor ip details n position)
    (fun _ => since (Some (cr_id current)) t0 ids).
Proof.
  intros Hin. unfold retire_and_remove. apply answers_bind with (R := fun _ => since (Some (cr_id current)) t0 ids).
  - apply answers_transaction; [framed|auto..|].
    eapply answers_bind; [|intros x; apply within_audit]. eapply answers_conseq; [apply within_update; [done|by right]| |intros x t [Hs _]; exact Hs].
    intros t [Hs Ha]. split; [by apply sweeping_weaken|done].
  - intros row. apply answers_catch; [by apply answers_removeAt|]. intros e.
    eapply answers_bind; [apply answers_framed; auto with nexus|]. intros unapplied. apply rethrows_after.
    destruct unapplied; auto with nexus.
Qed.

Lemma answers_remove_from_gateway t0 ids target current actor ip details bypass live consumer :
  cr_id current ∈ ids -> (forall r, r ∈ live -> revocable r -> cr_id r ∈ ids) ->
  answers env (since None t0 ids) (remove_from_gateway target current actor ip details (recovery_options cutoff) bypass live consumer)
    (fun removed t => since (Some (cr_id current)) t0 ids t /\ forall r, r ∈ rm_swept removed -> cr_id r ∈ ids).
Proof.
  intros Hin Hids. unfold remove_from_gateway.
  eapply answers_bind; [by apply answers_settleLostRetirement|]. intros rows. simpl.
  eapply answers_pure; [intros t [_ Hr]; exact Hr|]. intros Hrows.
  eapply answers_bind; [apply answers_checked|]. intros [position fallback].
  eapply answers_pure; [intros t [Hp _]; exact Hp|]. intros Hp.
  set (swept := if bool_decide (position = WholeType) then _ else []).
  assert (Hswept : forall r, r ∈ swept -> cr_id r ∈ ids).
  { intros r. subst swept. case_bool_decide as Hw; [|by intros ?%elem_of_nil]. subst position. intros [Hother Hr]%list_elem_of_filter.
    apply Hids; [by apply Hrows|]. by eapply whole_type_revocable. }
  eapply answers_pre with (P := since None t0 ids); [|by intros t (_ & Hs & _)].
  eapply answers_bind; [apply answers_ensure|]. intros u.
  eapply answers_pre with (P := since None t0 ids); [|by intros t [_ Hs]].
  eapply answers_bind with (R := fun _ => since (Some (cr_id current)) t0 ids); [|intros v; by apply answers_ret].
  case_bool_decide; [|by apply answers_retire_and_remove]. apply answers_ret. intros t [Hs Ha]. split; [by apply sweeping_weaken|done].
Qed.

Lemma within_settle_swept X t0 ids rows : kept X -> (forall r, r ∈ rows -> cr_id r ∈ ids) ->
  within env (fun t => since None t0 ids t /\ X t) (settle_swept rows) (fun _ t => since None t0 ids t /\ X t).
Proof.
  intros HX. induction rows as [|r rows IH]; simpl; intros Hids; [by apply answers_ret|].
  apply answers_skip; [apply within_settle; [done|apply Hids; left]|]. intros x.
  apply answers_skip; [apply IH; intros y Hy; apply Hids; by right|]. intros others. by apply answers_ret.
Qed.

Lemma frame_settle_swept rows : frame (settle_swept rows).
Proof. induction rows as [|r rows IH]; simpl; framed; apply IH. Qed.
Lemma frame_record_swept target actor ip rows : frame (record_swept target actor ip rows).
Proof. induction rows as [|r rows IH]; simpl; framed; apply IH. Qed.
Hint Resolve frame_settle_swept frame_record_swept : nexus.

Lemma within_record_swept P target actor ip rows : within env P (record_swept target actor ip rows) (fun _ => P).
Proof.
  induction rows as [|r rows IH]; simpl; [by apply answers_ret|]. apply answers_skip; [apply within_audit|]. intros x. apply IH.
Qed.

Lemma answers_settle_revocation t0 ids target current actor ip details removed :
  cr_id current ∈ ids -> (forall r, r ∈ rm_swept removed -> cr_id r ∈ ids) ->
  answers env (since (Some (cr_id current)) t0 ids) (settle_revocation target current actor ip details removed)
    (fun _ t => since None t0 ids t /\ settled (cr_id current) t).
Proof.
  intros Hin Hids. unfold settle_revocation. set (P := fun t => since None t0 ids t /\ settled (cr_id current) t).
  assert (HP : beside env P) by (apply beside_kept_since, settled_kept).
  apply answers_transaction; [framed|auto|done|]. apply answers_bind with (R := fun _ => P).
  - eapply answers_post; [apply within_update; [done|by left]|]. intros x t [[Hs Ha] Hst].
    assert (Hdead : forall r, t !! cr_id current = Some r -> is_live r = false) by (intros r Hr; unfold is_live; by rewrite (Hst r Hr)).
    split; [|by intros _ r Hr _; apply Hdead]. split; [|done]. eapply sweeping_settled; [exact Hs|]. by intros r Hr _; apply Hdead.
  - intros x. apply answers_skip; [apply within_settle_swept; [apply settled_kept|done]|]. intros rows.
    apply answers_skip; [apply within_audit|]. intros row. apply within_record_swept.
Qed.

Lemma answers_liveRows P cid ty : beside env P -> (forall t, P t -> good t) ->
  answers env P (liveRows cid ty) (fun rows t => P t /\ forall r, r ∈ rows -> t !! cr_id r = Some r).
Proof.
  intros HP Hg. unfold liveRows. eapply answers_bind; [by apply answers_read|]. intros rows. apply answers_ret.
  intros t (Hp & d & <- & ->). split; [done|]. intros r [_ Hr]%sort_by_elem%list_elem_of_filter.
  unfold credentials_listByConsumer in Hr. apply sort_by_elem, rows_where_spec in Hr as (k & Hk & _).
  pose proof (gd_keyed _ _ _ _ (Hg _ Hp) _ _ Hk) as Hid. simpl in Hid. congruence.
Qed.

(** One revocation, of a row another key cannot be mistaken for. *)
Lemma answers_revokeCredentialRow t0 target actor ip details :
  answers env (since None t0 [cr_id target]) (revokeCredentialRow target actor ip details (recovery_options cutoff))
    (fun _ t => since None t0 [cr_id target] t /\ settled (cr_id target) t).
Proof.
  unfold revokeCredentialRow. set (P := since None t0 [cr_id target]).
  assert (HQ : beside env (fun t => P t /\ settled (cr_id target) t)) by (apply beside_kept_since, settled_kept).
  apply answers_locks; [apply beside_since|done|].
  eapply answers_bind; [apply answers_read, beside_since|]. intros [current|].
  2: { apply answers_ret. intros t (Hs & d & <- & Hn). split; [done|]. intros _ r Hr. unfold credentials_findById in Hn. congruence. }
  eapply answers_pure with (phi := cr_id current = cr_id target).
  { intros t (Hs & d & <- & Hc). by eapply (gd_keyed _ _ _ _ (since_good _ _ _ _ Hs)). }
  intros Hid. destruct (negb (is_live current)) eqn:Hdead.
  { apply answers_ret. intros t (Hs & d & <- & Hc). split; [done|]. intros _ r Hr _. unfold credentials_findById in Hc.
    rewrite Hr in Hc. injection Hc as <-. by apply negb_true_iff in Hdead. }
  eapply answers_pre with (P := P); [|by intros t [? _]].
  apply answers_skip; [apply answers_outside; [apply calls_get|apply beside_since]|]. intros consumer.
  eapply answers_bind; [apply answers_liveRows; [apply beside_since|by intros t; apply since_good]|]. intros live. simpl.
  set (ids := cr_id target :: map cr_id (filter revocable live)).
  eapply answers_pre with (P := since None t0 ids).
  2: { intros t [[Hs Ha] Hlive]. split; [done|]. apply Forall_cons in Ha as [Ha _]. apply Forall_cons. split; [done|].
       apply Forall_map, Forall_forall. intros r [Hr Hin]%list_elem_of_filter.
       eapply away_row; [exact (sg_good _ _ _ _ _ _ Hs)|by apply Hlive|exact Hr]. }
  assert (Hids : forall r, r ∈ live -> revocable r -> cr_id r ∈ ids).
  { intros r Hr Hrev. right. apply list_elem_of_fmap_2, list_elem_of_filter. by split. }
  assert (Hin : cr_id current ∈ ids) by (rewrite Hid; left).
  apply answers_skip; [by apply answers_ret|]. intros u.
  eapply answers_bind with (R := fun removed t => since (Some (cr_id current)) t0 ids t /\ forall r, r ∈ rm_swept removed -> cr_id r ∈ ids).
  { destruct consumer; [by apply answers_remove_from_gateway|]. apply answers_ret. intros t [Hs Ha]. split; [|by intros r ?%elem_of_nil].
    split; [by apply sweeping_weaken|done]. }
  intros removed. eapply answers_pure; [intros t [_ Hsw]; exact Hsw|]. intros Hsw.
  eapply answers_pre with (P := since (Some (cr_id current)) t0 ids); [|by intros t [Hs _]].
  eapply answers_bind; [by apply answers_settle_revocation|]. intros v. apply answers_ret.
  intros t [[Hs Ha] Hset]. rewrite Hid in Hset. split; [|done]. split; [done|]. apply Forall_cons in Ha as [Ha _]. by apply Forall_singleton.
Qed.
End Revocation.
