(* ===== verification/CredentialRecovered.v ===== *)
(** * A recovery sweep misses no key

    The offset of [sweepForAccountRecovery] steps past the rows it spares, while
    the listing changes under it: what the re-listing guards against is proved
    enough for every key older than the cutoff to be found. Then that a sweep ends. *)

From S2P Require Import Prelude Json Roles Leases Users AuditLog AccessTables CredentialTables World AccessStore LeaseFence KeyedSerializer Provisioner AccountRecovery CredentialStore Credentials CredentialIssue CredentialReconcile CredentialIdentities CredentialSweep CredentialStatements CredentialSample CredentialSteps CredentialSweeping.
Open Scope Z_scope.

Section Positions.
Context (userId : string) (cutoff : option Z) (issued : string -> Prop) `{!forall id, Decision (issued id)}.
Abbreviation good := (good userId cutoff issued).
Abbreviation sweeping := (sweeping userId cutoff issued).
Abbreviation kept := (kept userId cutoff issued).
Abbreviation listed := (listed userId).
Abbreviation spared := (spared cutoff).
Abbreviation spared_keys := (spared_keys userId cutoff).

Definition no_older (status : CredentialStatus) (t : credential_table) : Prop := forall r, listed status t r -> spared r = true.

(** A skipped row is one the listing spared; if its id is still there, it is that row's. *)
Definition traced (skipped : list CredentialRecord) (t : credential_table) : Prop := forall r, r ∈ skipped ->
  spared r = true /\ cr_user_id r = userId
  /\ forall c, t !! cr_id r = Some c -> ~ issued (cr_id r) -> same_key r c.

Definition stands (status : CredentialStatus) (t : credential_table) (r : CredentialRecord) : Prop :=
  ~ issued (cr_id r) -> exists c, t !! cr_id r = Some c /\ cr_status c = status.

(** While the skipped rows stand, the offset is within the spared rows, and what
    it steps past was skipped or issued meanwhile. *)
Definition within_spared (status : CredentialStatus) (skipped : list CredentialRecord) (t : credential_table) : Prop :=
  (forall r, r ∈ skipped -> stands status t r) ->
  (length skipped <= length (spared_keys status t))%nat
  /\ forall k, k ∈ take (length skipped) (spared_keys status t) -> k ∈ map key skipped \/ issued k.2.

Lemma good_after t t' : sweeping None t t' -> good t'.
Proof. by intros [? _ _ _]. Qed.

Lemma kept_traced skipped : kept (traced skipped).
Proof.
  intros t t' Hg Hs Ht r Hr. destruct (Ht r Hr) as (Hsp & Hu & Hc). split_and!; [done..|]. intros c Hc' Hni.
  pose proof (gd_keyed _ _ _ _ (good_after _ _ Hs) _ _ Hc') as Hid. simpl in Hid. rewrite <- Hid in Hc', Hni.
  destruct (sg_present _ _ _ _ _ _ Hs c Hc') as [?|(c0 & Hc0 & Hsame)]; [done|]. rewrite Hid in Hc0, Hni. etrans; [by apply Hc|done].
Qed.

(** What is spared and listed was listed, or was issued meanwhile. *)
Lemma listed_before status t t' r : status ∈ LIVE_CREDENTIAL_STATUSES -> sweeping None t t' -> listed status t' r -> spared r = true ->
  issued (cr_id r) \/ exists r0, listed status t r0 /\ spared r0 = true /\ key r0 = key r.
Proof.
  intros Hlive Hs (Hr & Hu & Hst) Hsp.
  destruct (sg_live _ _ _ _ _ _ Hs r Hr Hu) as [?|(r0 & Hr0 & [Hk Hu0] & Hst0)];
    [unfold is_live; rewrite Hst; by apply bool_decide_eq_true|done|by left|right].
  exists r0. pose proof (spared_key cutoff _ _ Hk) as Hsame. destruct Hst0 as [Hst0|[_ Hold]]; [|congruence].
  pose proof (f_equal snd Hk) as Hid. simpl in Hid. split; [|split; [congruence|done]].
  split_and!; [by rewrite <- Hid|congruence..].
Qed.

(** A row that stands stood before. *)
Lemma stood status skipped t t' r : status ∈ LIVE_CREDENTIAL_STATUSES -> sweeping None t t' -> traced skipped t' ->
  r ∈ skipped -> stands status t' r -> stands status t r.
Proof.
  intros Hlive Hs Htr Hr Hst Hni. destruct (Hst Hni) as (c & Hc & Hcs). destruct (Htr r Hr) as (Hsp & Hu & Hsame).
  pose proof (Hsame c Hc Hni) as [Hk Huc]. pose proof (f_equal snd Hk) as Hid. simpl in Hid. rewrite <- Hid in Hc.
  destruct (listed_before status t t' c) as [?|(c0 & (Hc0 & _ & Hs0) & _ & Hk0)]; [done..| | | |].
  - split_and!; [done|congruence|done].
  - by rewrite (spared_key cutoff c r).
  - congruence.
  - pose proof (f_equal snd Hk0) as Hid0. simpl in Hid0. exists c0. rewrite <- Hid, <- Hid0. by split.
Qed.

Lemma kept_within_spared status skipped : status ∈ LIVE_CREDENTIAL_STATUSES ->
  kept (fun t => traced skipped t /\ within_spared status skipped t).
Proof.
  intros Hlive t t' Hg Hs [Htr Hw]. pose proof (kept_traced skipped t t' Hg Hs Htr) as Htr'. split; [done|]. intros Hst'.
  destruct Hw as [Hlen Hfirst]; [intros r Hr; by apply (stood status skipped t t'); [..|apply Hst']|]. pose proof (good_after _ _ Hs) as Hg'.
  destruct (spared_keys_spec userId cutoff status t (gd_keyed _ _ _ _ Hg)) as (Hsort & Hnd & Hin).
  destruct (spared_keys_spec userId cutoff status t' (gd_keyed _ _ _ _ Hg')) as (Hsort' & Hnd' & Hin').
  assert (Hstay : forall k, k ∈ take (length skipped) (spared_keys status t) -> k ∈ spared_keys status t').
  { intros k Hk. destruct (decide (issued k.2)) as [Hiss|Hni].
    - apply elem_of_take in Hk as (i & Hi & _). apply list_elem_of_lookup_2, Hin in Hi as (r & (Hr & Hu & Hst) & Hsp & <-).
      destruct (sg_issued _ _ _ _ _ _ Hs r Hr Hiss) as (r' & Hr' & [Hkk Huu] & Hss). pose proof (f_equal snd Hkk) as Hid. simpl in Hid.
      apply Hin'. exists r'. split_and!; [|by rewrite (spared_key cutoff r' r)|done].
      split_and!; [by rewrite Hid|congruence|by rewrite Hss].
    - destruct (Hfirst k Hk) as [Hsk|]; [|done]. apply list_elem_of_fmap in Hsk as (r & -> & Hr). simpl in Hni.
      destruct (Htr' r Hr) as (Hsp & Hu & Hsame). destruct (Hst' r Hr Hni) as (c & Hc & Hcs).
      pose proof (Hsame c Hc Hni) as [Hkk Huu]. pose proof (f_equal snd Hkk) as Hid. simpl in Hid.
      apply Hin'. exists c. split_and!; [|by rewrite (spared_key cutoff c r)|done].
      split_and!; [by rewrite Hid|congruence|done]. }
  destruct (prefix_after_change (fun k => issued k.2) _ _ (length skipped) Hsort Hsort' Hnd Hnd' Hlen Hstay) as [Hlen' Hfirst'].
  - intros k (r & Hr & Hsp & <-)%Hin'. destruct (listed_before status t t' r Hlive Hs Hr Hsp) as [?|(r0 & Hr0 & Hsp0 & Hk0)]; [by right|left].
    apply Hin. by exists r0.
  - split; [done|]. intros k [Hk|?]%Hfirst'; [by apply Hfirst|by right].
Qed.

(** A page that was read: its spared rows are the next of the listing. *)
Lemma page_within status skipped t :
  good t -> traced skipped t -> within_spared status skipped t ->
  let page := take 200 (drop (length skipped) (listing userId status t)) in
  let skipped' := skipped ++ filter (fun r => spared r = true) page in
  traced skipped' t /\ within_spared status skipped' t.
Proof.
  intros Hg Htr Hw page skipped'. split.
  - intros r [Hr|[Hsp Hr]%list_elem_of_filter]%elem_of_app; [by apply Htr|]. subst page.
    apply elem_of_take in Hr as (i & Hi & _). rewrite lookup_drop in Hi. apply list_elem_of_lookup_2, listing_elem in Hi as (Hr & Hu & _); [|apply Hg].
    split_and!; [done..|]. intros c Hc _. assert (c = r) as -> by congruence. done.
  - intros Hst. destruct Hw as [Hlen Hfirst]; [intros r Hr; apply Hst, elem_of_app; by left|].
    set (rows := spared_rows userId cutoff status t) in *.
    assert (Hrows : length (spared_keys status t) = length rows) by apply length_map. rewrite Hrows in *.
    assert (Hns : filter (fun r => spared r = true) page = take 200 (drop (length skipped) rows)) by by apply page_split.
    subst skipped'. rewrite Hns in *. set (ns := take 200 (drop (length skipped) rows)) in *.
    assert (Hnl : (length skipped + length ns <= length rows)%nat) by (subst ns; rewrite length_take, length_drop; lia).
    rewrite length_app. split; [done|]. intros k Hk. rewrite map_app.
    assert (Hsplit : take (length skipped + length ns) (spared_keys status t) = take (length skipped) (spared_keys status t) ++ map key ns).
    { rewrite <- take_take_drop. f_equal. change (spared_keys status t) with (map key rows). rewrite <- fmap_drop, <- fmap_take.
      f_equal. subst ns. by rewrite length_take, <- take_take, firstn_all. }
    rewrite Hsplit in Hk. apply elem_of_app in Hk as [Hk|Hk]; [|left; apply elem_of_app; by right].
    destruct (Hfirst k Hk); [left; apply elem_of_app; by left|by right].
Qed.

(** No row after the spared ones is left to read. *)
Lemma exhausted status skipped t :
  good t -> within_spared status skipped t -> take 200 (drop (length skipped) (listing userId status t)) = [] ->
  (forall r, r ∈ skipped -> stands status t r) -> no_older status t.
Proof.
  intros Hg Hw Hempty Hst r Hr. destruct (Hw Hst) as [Hlen _]. unfold CredentialSteps.spared_keys in Hlen. rewrite length_map in Hlen.
  apply (f_equal length) in Hempty. rewrite length_take, length_drop in Hempty. change (length []) with 0%nat in Hempty.
  pose proof (f_equal length (listing_split userId cutoff status t)) as Hsplit. rewrite length_app in Hsplit.
  destruct (spared r) eqn:Hsp; [done|]. assert (Hin : r ∈ older_rows userId cutoff status t).
  { apply list_elem_of_filter. split; [done|]. by apply listing_elem; [apply Hg|]. }
  apply list_elem_of_lookup in Hin as [i Hi%lookup_lt_Some]. lia.
Qed.

Lemma kept_no_older_active : kept (no_older CredentialActive).
Proof.
  intros t t' Hg Hs Hno r (Hr & Hu & Hst).
  destruct (sg_live _ _ _ _ _ _ Hs r Hr Hu) as [Hiss|(r0 & Hr0 & [Hk Hu0] & Hst0)]; [unfold is_live; by rewrite Hst|done| |].
  - by apply (gd_issued _ _ _ _ (good_after _ _ Hs)).
  - rewrite (spared_key cutoff r r0 Hk). pose proof (f_equal snd Hk) as Hid. simpl in Hid. apply Hno.
    split; [congruence|split; [congruence|]]. by destruct Hst0 as [->|[-> _]].
Qed.

Lemma kept_no_older : kept (fun t => no_older CredentialActive t /\ no_older CredentialRetiring t).
Proof.
  intros t t' Hg Hs [Hno Hno']. split; [by apply (kept_no_older_active t)|]. intros r (Hr & Hu & Hst).
  destruct (sg_live _ _ _ _ _ _ Hs r Hr Hu) as [Hiss|(r0 & Hr0 & [Hk Hu0] & Hst0)]; [unfold is_live; by rewrite Hst|done| |].
  - by apply (gd_issued _ _ _ _ (good_after _ _ Hs)).
  - rewrite (spared_key cutoff r r0 Hk). pose proof (f_equal snd Hk) as Hid. simpl in Hid.
    destruct Hst0 as [Hst0|[Hst0 _]]; [apply Hno'|apply Hno]; (split; [congruence|split; congruence]).
Qed.
End Positions.

(** ** The loops *)

Section Recovered.
Context `{EdgeClient} `{CredentialDeps} (env : nat -> turn) `{!GatewayCalls env}.
Context (user : UserRecord) (ip : option string) (cutoff : option Z) (issued : string -> Prop) `{!forall id, Decision (issued id)}.
Abbreviation good := (good (u_id user) cutoff issued).
Abbreviation sweeping := (sweeping (u_id user) cutoff issued).
Abbreviation away := (away (u_id user) issued).
Abbreviation kept := (kept (u_id user) cutoff issued).
Abbreviation traced := (traced (u_id user) cutoff issued).
Abbreviation stands := (stands issued).
Abbreviation within_spared := (within_spared (u_id user) cutoff issued).
Abbreviation no_older := (no_older (u_id user) cutoff).
Context (Hrivals : forall n d, good (d_credentials d) -> sweeping None (d_credentials d) (d_credentials (t_rivals (env n) d))).

Definition sound (X : table_pred) : table_pred := fun t => good t /\ X t.

Lemma beside_sound X : kept X -> beside env (sound X).
Proof.
  intros HX n d [Hg Hx]. pose proof (Hrivals n d Hg) as Hs. split; [by eapply good_after|eapply HX; [exact Hg|exact Hs|exact Hx]].
Qed.

Lemma answers_kept {A} X (m : M A) :
  kept X -> (forall t, good t -> answers env (sweeping None t) m (fun _ => sweeping None t)) -> answers env (sound X) m (fun _ => sound X).
Proof.
  intros HX Hm. apply answers_fix. intros t [Hg Hx].
  eapply answers_conseq; [by apply (Hm t)|intros t' ->; by apply sweeping_refl|].
  simpl. intros x t' Hs. split; [by eapply good_after|eapply HX; [exact Hg|exact Hs|exact Hx]].
Qed.

(** An older row of a page is not another key's. *)
Definition revocable_ids (rows : list CredentialRecord) : list string :=
  map cr_id (filter (fun r => spared cutoff r = false) rows).

Lemma kept_away ids : kept (fun t => Forall (away t) ids).
Proof. intros t t' Hg Hs Ha. eapply Forall_impl; [exact Ha|]. intros id. by eapply away_later. Qed.

Definition settled_ids (rows : list CredentialRecord) (t : credential_table) : Prop :=
  Forall (fun id => settled (u_id user) issued id t) (revocable_ids rows).

Lemma answers_sweep_rows X rows s : kept X ->
  answers env (sound (fun t => X t /\ Forall (away t) (revocable_ids rows))) (sweep_rows user ip cutoff rows s)
    (fun s' t => sound X t /\ sw_skipped s' = sw_skipped s ++ filter (fun r => spared cutoff r = true) rows /\ settled_ids rows t).
Proof.
  revert X s. induction rows as [|row rows IH]; intros X s HX; simpl.
  - apply answers_ret. intros t (Hg & Hx & _). split; [by split|]. split; [by rewrite app_nil_r|constructor].
  - unfold settled_ids, revocable_ids in *. rewrite !filter_cons. destruct (spared cutoff row) eqn:Hsp; simpl.
    + eapply answers_post; [by apply IH|]. intros s' t (Hs & -> & Hset). split; [done|]. simpl. by rewrite <- app_assoc.
    + set (X1 := fun t => X t /\ settled (u_id user) issued (cr_id row) t).
      assert (HX1 : kept X1) by (apply kept_and; [done|apply settled_kept]).
      apply answers_bind with (R := fun _ => sound (fun t => X1 t /\ Forall (away t) (revocable_ids rows))).
      2: { intros done. eapply answers_post; [by apply (IH X1)|]. intros s' t ([Hg [Hx Hset]] & -> & Hall). split_and!; [done..|].
           by apply Forall_cons. }
      set (X' := fun t => X t /\ Forall (away t) (revocable_ids rows)).
      assert (HX' : kept X') by (apply kept_and; [done|apply kept_away]).
      apply answers_fix. intros t (Hg & Hx & Ha). apply Forall_cons in Ha as [Ha Hrest].
      eapply answers_conseq; [apply (answers_revokeCredentialRow env _ _ _ Hrivals t)|..].
      * intros t' ->. split; [by apply sweeping_refl|by apply Forall_singleton].
      * intros x t' [[Hs _] Hset]. destruct (HX' t t' Hg Hs (conj Hx Hrest)) as [Hx' Hrest'].
        split; [by eapply good_after|]. by split.
Qed.

Lemma answers_sweep_pages X status pages s : kept X -> status ∈ LIVE_CREDENTIAL_STATUSES ->
  answers env (sound (fun t => X t /\ traced (sw_skipped s) t /\ within_spared status (sw_skipped s) t)) (sweep_pages user ip cutoff pages status s)
    (fun s' t => sound X t /\ traced (sw_skipped s') t /\ ((forall r, r ∈ sw_skipped s' -> stands status t r) -> no_older status t)).
Proof.
  intros HX Hlive. revert s. induction pages as [|pages IH]; intros s; simpl; [apply answers_throw|].
  eapply answers_bind; [apply answers_read, beside_sound, kept_and; [done|by apply kept_within_spared]|]. intros page.
  apply answers_pre with (P := fun t => sound (fun t => X t /\ traced (sw_skipped s) t /\ within_spared status (sw_skipped s) t) t
      /\ page.1 = take 200 (drop (length (sw_skipped s)) (listing (u_id user) status t))).
  2: { intros t (Hs & d & <- & ->). split; [done|]. by rewrite listing_page. }
  case_bool_decide as Hempty.
  - apply answers_ret. intros t [(Hg & Hx & Htr & Hw) Hp]. split_and!; [done..|]. intros Hst. rewrite Hempty in Hp.
    by eapply exhausted.
  - set (rows := page.1) in *. eapply answers_bind; [|intros s'; apply IH].
    set (skipped' := sw_skipped s ++ filter (fun r => spared cutoff r = true) rows).
    eapply answers_conseq; [apply (answers_sweep_rows (fun t => X t /\ traced skipped' t /\ within_spared status skipped' t))|..].
    + apply kept_and; [done|by apply kept_within_spared].
    + intros t [(Hg & Hx & Htr & Hw) Hp]. split; [done|]. pose proof (page_within _ _ _ _ _ _ Hg Htr Hw) as Hpage. simpl in Hpage.
      rewrite <- Hp in Hpage. split; [by split|]. apply Forall_map, Forall_forall. intros r [Hold Hr]%list_elem_of_filter.
      rewrite Hp in Hr. apply elem_of_take in Hr as (i & Hi & _). rewrite lookup_drop in Hi.
      apply list_elem_of_lookup_2, listing_elem in Hi as (Hr & _ & _); [|apply Hg]. by eapply away_row; [exact Hg| |right].
    + by intros s' t (Hs & -> & _).
Qed.

Lemma beside_sweeping t0 : beside env (sweeping None t0).
Proof. intros n d Hs. eapply sweeping_trans; [exact Hs|]. eapply Hrivals, good_after, Hs. Qed.

Lemma answers_unmoved te status skipped rest :
  good te -> status ∈ LIVE_CREDENTIAL_STATUSES -> traced skipped te -> (forall r, r ∈ rest -> r ∈ skipped) ->
  answers env (sweeping None te) (unmoved status rest)
    (fun still t => sweeping None te t /\ (still = true -> forall r, r ∈ rest -> stands status te r)).
Proof.
  intros Hg Hlive Htr. induction rest as [|row rest IH]; intros Hin; simpl.
  - apply answers_ret. intros t Hs. split; [done|]. by intros _ r ?%elem_of_nil.
  - eapply answers_bind; [apply answers_read, beside_sweeping|]. intros current.
    apply answers_pre with (P := fun t => sweeping None te t /\ current = t !! cr_id row); [|by intros t (Hs & d & <- & ->)].
    assert (Hno : answers env (fun t => sweeping None te t /\ current = t !! cr_id row) (mret false)
      (fun still t => sweeping None te t /\ (still = true -> forall r, r ∈ row :: rest -> stands status te r)))
      by (apply answers_ret; by intros t [Hs _]).
    destruct current as [c|]; [|exact Hno]. destruct (negb (has_credential_status status c) || _) eqn:Hc; [exact Hno|].
    apply orb_false_iff in Hc as [Hc _]. apply negb_false_iff, bool_decide_eq_true in Hc.
    apply answers_pure with (phi := stands status te row); [|intros Hrow].
    + intros t [Hs Hcur]. apply (stood (u_id user) cutoff issued status skipped te t row Hlive Hs); [|by apply Hin; left|by exists c].
      by apply (kept_traced _ _ _ _ _ _ Hg Hs).
    + eapply answers_conseq; [apply IH; intros r Hr; apply Hin; by right|by intros t [Hs _]|].
      intros still t [Hs Hall]. split; [done|]. intros Hst r [->|Hr]%elem_of_cons; [done|by apply Hall].
Qed.

Lemma answers_sweep_rounds X fuel status rounds s :
  kept X -> status ∈ LIVE_CREDENTIAL_STATUSES -> kept (fun t => X t /\ no_older status t) ->
  answers env (sound X) (sweep_rounds fuel user ip cutoff rounds status s) (fun _ => sound (fun t => X t /\ no_older status t)).
Proof.
  intros HX Hlive HXn. revert s. induction rounds as [|rounds IH]; intros s; simpl; [apply answers_throw|].
  eapply answers_bind; [eapply answers_pre; [by apply (answers_sweep_pages X)|]|].
  { intros t [Hg Hx]. split; [done|]. split; [done|]. split; [by intros r ?%elem_of_nil|]. intros _. simpl. split; [lia|]. by intros k ?%elem_of_nil. }
  intros s'. apply answers_fix. intros te ([Hg Hx] & Htr & Hno).
  eapply answers_bind; [eapply answers_pre; [by apply (answers_unmoved te status (sw_skipped s') (sw_skipped s'))|]|].
  { intros t ->. by apply sweeping_refl. }
  intros still. simpl. destruct still.
  - apply answers_ret. intros t [Hs Hst]. split; [by eapply good_after|]. eapply (HXn te); [done..|]. split; [done|]. apply Hno. by apply Hst.
  - eapply answers_pre; [apply IH|]. intros t [Hs _]. split; [by eapply good_after|by eapply (HX te)].
Qed.

Definition swept_clean (t : credential_table) : Prop := no_older CredentialActive t /\ no_older CredentialRetiring t.

Lemma answers_sweepForAccountRecovery fuel ids :
  answers env good (sweepForAccountRecovery fuel user ip cutoff ids) (fun _ => sound swept_clean).
Proof.
  unfold sweepForAccountRecovery, LIVE_CREDENTIAL_STATUSES. cbn [sweep_statuses]. set (start := {| sw_ids := ids; sw_revoked := 0; sw_skipped := [] |}).
  apply answers_bind with (R := fun _ => sound (no_older CredentialActive)).
  - eapply answers_conseq; [apply (answers_sweep_rounds (fun _ => True))|..].
    + by intros t t'.
    + left.
    + apply kept_and; [by intros t t'|apply kept_no_older_active].
    + by intros t Hg.
    + intros x t (Hg & _ & Hno). by split.
  - intros s1. eapply answers_bind; [apply answers_sweep_rounds; [apply kept_no_older_active|right; left|apply kept_no_older]|].
    intros s2. by apply answers_ret.
Qed.

Lemma answers_collect_pages {R} P fuel (page : Z -> M (list R * Z)) offset acc :
  (forall o, answers env P (page o) (fun _ => P)) -> answers env P (collect_pages fuel page offset acc) (fun _ => P).
Proof.
  intros Hpage. revert offset acc. induction fuel as [|fuel IH]; intros offset acc; simpl; [apply answers_throw|].
  eapply answers_bind; [apply Hpage|]. intros [items total]. destruct (_ || _); [by apply answers_ret|apply IH].
Qed.

Lemma answers_wait_out P ids : beside env P -> answers env P (wait_out ids) (fun _ => P).
Proof.
  intros HP. induction ids as [|id ids IH]; simpl; [by apply answers_ret|]. apply answers_skip; [|by intros _].
  apply answers_locks; [done|by intros _|by apply answers_ret].
Qed.

Lemma beside_good : beside env good.
Proof. intros n d Hg. by eapply good_after, Hrivals. Qed.

Lemma answers_recovery fuel :
  answers env good (revoke_for_account_recovery fuel user ip cutoff) (fun _ => sound swept_clean).
Proof.
  unfold revoke_for_account_recovery. eapply answers_bind; [apply answers_sweepForAccountRecovery|]. intros first.
  apply answers_pre with (P := good); [|by intros t [Hg _]].
  apply answers_skip. { apply answers_collect_pages. intros o. apply answers_look, beside_good. } intros consumers.
  apply answers_skip; [apply answers_look, beside_good|]. intros identities.
  apply answers_skip; [apply answers_wait_out, beside_good|]. intros u.
  eapply answers_bind; [apply answers_sweepForAccountRecovery|]. intros second. by apply answers_ret.
Qed.
End Recovered.

(** ** The sample gateway answers for its own arrays only *)

Lemma outside_sample_call env e : outside env (sample_call e).
Proof.
  split; [|by intros P HP w He Hp]. intros w. split_and!; [done..|]. by apply prefix_app_r.
Qed.

Lemma outside_pure {A} env (f : world -> res exn A) : outside env (fun w => (f w, w)).
Proof. split; [intros w; by split_and!|by intros P HP w He Hp]. Qed.

#[export] Instance sample_calls env : GatewayCalls env.
Proof.
  split; intros; simpl; try apply outside_sample_call; apply outside_pure.
Qed.



(** ** A recovery sweep ends

    Every page of a listing spares a row for good or revokes one, so that while no
    key is issued the pages of a listing are at most one more than the live keys:
    the bound the model puts on them is never met. *)

(** ** Programs that agree where a precondition holds *)

Section Agree.
Context (env : nat -> turn).

Definition agree {A} (P : table_pred) (m m' : M A) : Prop := forall w,
  w_env w = env -> w_tx w = false -> P (d_credentials (w_db w)) -> m w = m' w.

Lemma agree_refl {A} P (m : M A) : agree P m m.
Proof. by intros w. Qed.

Lemma agree_bind {A B} P (Q : A -> table_pred) (m m' : M A) (k k' : A -> M B) :
  agree P m m' -> answers env P m Q -> (forall x, agree (Q x) (k x) (k' x)) -> agree P (mbind m k) (mbind m' k').
Proof.
  intros Hm Ha Hk w He Ht Hp. destruct (Ha w He Ht Hp) as (He1 & Ht1 & Hq). unfold mbind. rewrite <- (Hm w He Ht Hp).
  destruct (m w) as [[x|e] w1]; simpl in *; [by apply Hk|done].
Qed.

Lemma agree_pure {A} (phi : Prop) (P : table_pred) (m m' : M A) :
  (forall t, P t -> phi) -> (phi -> agree P m m') -> agree P m m'.
Proof. intros Hphi Hm w He Ht Hp. apply Hm; [|done..]. by eapply Hphi. Qed.

Lemma agree_pre {A} (P P' : table_pred) (m m' : M A) : agree P m m' -> (forall t, P' t -> P t) -> agree P' m m'.
Proof. intros Hm HP w He Ht Hp. apply Hm; [done..|by apply HP]. Qed.

Lemma agree_fix {A} (P : table_pred) (m m' : M A) : (forall t, P t -> agree (fun t' => t' = t) m m') -> agree P m m'.
Proof. intros Hm w He Ht Hp. by apply (Hm _ Hp w He Ht). Qed.
End Agree.

(** ** The live keys that are left *)

Section Load.
Context (userId : string) (cutoff : option Z).
Definition none_issued (id : string) : Prop := False.
#[export] Instance none_issued_dec id : Decision (none_issued id).
Proof. right. by intros []. Defined.
Abbreviation good := (good userId cutoff none_issued).
Abbreviation sweeping := (sweeping userId cutoff none_issued).

Definition live_key (r : CredentialRecord) : bool := bool_decide (cr_user_id r = userId) && is_live r.
Definition live_ids (t : credential_table) : list string := map cr_id (rows_where live_key t).
Definition backlog (t : credential_table) : nat := length (live_ids t).

Lemma live_ids_spec t id : keyed cr_id t -> id ∈ live_ids t <-> exists r, t !! id = Some r /\ live_key r = true.
Proof.
  intros Hk. unfold live_ids. rewrite list_elem_of_fmap. split.
  - intros (r & -> & (k & Hr & Hl)%rows_where_spec). pose proof (Hk k r Hr) as Hid. simpl in Hid. subst k. by exists r.
  - intros (r & Hr & Hl). pose proof (Hk id r Hr) as Hid. simpl in Hid. exists r. split; [done|]. apply rows_where_spec. by exists id.
Qed.

Lemma live_ids_distinct t : keyed cr_id t -> NoDup (live_ids t).
Proof.
  intros Hk. unfold live_ids. apply NoDup_fmap_2_strong; [|apply keyed_rows_distinct; by intros k r Hr%Hk].
  intros r r' (k & Hr & _)%rows_where_spec (k' & Hr' & _)%rows_where_spec He.
  pose proof (Hk k r Hr) as Hi. pose proof (Hk k' r' Hr') as Hi'. simpl in *. congruence.
Qed.

(** Keys only leave, and what was settled has left. *)
Lemma load_shrinks t t' ids : good t -> sweeping None t t' -> NoDup ids -> (forall id, id ∈ ids -> id ∈ live_ids t) ->
  Forall (fun id => settled userId none_issued id t') ids -> (backlog t' + length ids <= backlog t)%nat.
Proof.
  intros Hg Hs Hnd Hin Hset. pose proof (gd_keyed _ _ _ _ Hg) as Hk. pose proof (gd_keyed _ _ _ _ (good_after _ _ _ _ _ Hs)) as Hk'.
  unfold backlog. rewrite <- length_app. apply submseteq_length, NoDup_submseteq.
  - apply NoDup_app. split_and!; [by apply live_ids_distinct| |done].
    intros id (r & Hr & [Hu Hl]%andb_true_iff)%live_ids_spec Hi; [|done]. rewrite Forall_forall in Hset.
    apply bool_decide_eq_true in Hu. rewrite (Hset id Hi (fun H => H) r Hr Hu) in Hl. done.
  - intros id [Hi|Hi]%elem_of_app; [|by apply Hin]. apply live_ids_spec in Hi as (r & Hr & [Hu Hl]%andb_true_iff); [|done].
    apply bool_decide_eq_true in Hu. pose proof (Hk' id r Hr) as Hid. simpl in Hid. subst id.
    destruct (sg_live _ _ _ _ _ _ Hs r Hr Hu Hl) as [[]|(r0 & Hr0 & [_ Hu0] & Hst)]; [done|].
    apply live_ids_spec; [done|]. exists r0. split; [done|]. unfold live_key, is_live in *. apply andb_true_iff.
    split; [apply bool_decide_eq_true; congruence|]. destruct Hst as [->|[-> _]]; [done|by apply (bool_decide_unpack _)].
Qed.

Lemma kept_load n : kept userId cutoff none_issued (fun t => (backlog t <= n)%nat).
Proof.
  intros t t' Hg Hs Hl. pose proof (load_shrinks t t' [] Hg Hs) as Hsh. simpl in Hsh.
  enough (backlog t' + 0 <= backlog t)%nat by lia. apply Hsh; [constructor|by intros id ?%elem_of_nil|constructor].
Qed.

(** A page that was swept leaves less to read. *)
Lemma page_progress status t t' n :
  status ∈ LIVE_CREDENTIAL_STATUSES -> good t -> sweeping None t t' ->
  let page := take 200 (drop n (listing userId status t)) in
  page <> [] -> Forall (fun id => settled userId none_issued id t') (map cr_id (filter (fun r => spared cutoff r = false) page)) ->
  (backlog t' - (n + length (filter (fun r => spared cutoff r = true) page)) < backlog t - n)%nat.
Proof.
  intros Hlive Hg Hs page Hne Hset. pose proof (gd_keyed _ _ _ _ Hg) as Hk.
  assert (Hsub : page `sublist_of` listing userId status t) by (etrans; [apply sublist_take|apply sublist_drop]).
  set (old := filter (fun r => spared cutoff r = false) page) in *. set (new := filter (fun r => spared cutoff r = true) page).
  assert (Hparts : length page = (length new + length old)%nat).
  { subst new old. clear. induction page as [|r page IH]; [done|]. rewrite !filter_cons. destruct (spared cutoff r); simpl; rewrite IH; lia. }
  assert (Hlisted : forall r, r ∈ listing userId status t -> cr_id r ∈ live_ids t).
  { intros r (Hr & Hu & Hst)%listing_elem; [|done]. apply live_ids_spec; [done|]. exists r. split; [done|].
    unfold live_key, is_live. rewrite Hst. apply andb_true_iff. split; by apply bool_decide_eq_true. }
  assert (Hall : (length (listing userId status t) <= backlog t)%nat).
  { rewrite <- (length_map cr_id). apply submseteq_length, NoDup_submseteq; [by apply listing_ids|].
    intros id (r & -> & Hr)%list_elem_of_fmap. by apply Hlisted. }
  assert (Hold : (backlog t' + length (map cr_id old) <= backlog t)%nat).
  { apply load_shrinks; [done..| | |done].
    - eapply sublist_NoDup; [by apply (listing_ids userId status t)|]. apply fmap_sublist. etrans; [apply sublist_filter|done].
    - intros id (r & -> & [_ Hr]%list_elem_of_filter)%list_elem_of_fmap. apply Hlisted. by eapply elem_of_sublist. }
  rewrite length_map in Hold. assert (Hpos : (0 < length page)%nat) by (destruct page; [done|simpl; lia]).
  assert (Hn : (n < length (listing userId status t))%nat).
  { apply Nat.nle_gt. intros Hge. apply Hne. subst page. by rewrite drop_ge. }
  lia.
Qed.
End Load.

(** ** The loops *)

Section Ends.
Context `{EdgeClient} `{CredentialDeps} (env : nat -> turn) `{!GatewayCalls env}.
Context (user : UserRecord) (ip : option string) (cutoff : option Z).
Abbreviation good := (good (u_id user) cutoff none_issued).
Abbreviation sweeping := (sweeping (u_id user) cutoff none_issued).
Abbreviation sound := (sound user cutoff none_issued).
Abbreviation backlog := (backlog (u_id user)).
Context (Hrivals : forall n d, good (d_credentials d) -> sweeping None (d_credentials d) (d_credentials (t_rivals (env n) d))).

(** At most [n] live keys. *)
Definition bounded (n : nat) : table_pred := sound (fun t => (backlog t <= n)%nat).

Lemma beside_bounded n : beside env (bounded n).
Proof. apply beside_sound; [done|]. apply kept_load. Qed.

Lemma agree_sweep_pages status n m s : status ∈ LIVE_CREDENTIAL_STATUSES ->
  agree env (sound (fun t => (backlog t - length (sw_skipped s) < n)%nat /\ (backlog t - length (sw_skipped s) < m)%nat))
    (sweep_pages user ip cutoff n status s) (sweep_pages user ip cutoff m status s).
Proof.
  intros Hlive. revert m s. induction n as [|n IH]; intros m s; [by intros w _ _ (_ & ? & _); lia|].
  destruct m as [|m]; [by intros w _ _ (_ & _ & ?); lia|]. cbn [sweep_pages].
  eapply agree_bind; [apply agree_refl| |].
  { apply answers_read, beside_sound; [done|]. intros t t' Hg Hs [Hn Hm].
    pose proof (kept_load (u_id user) cutoff (backlog t) t t' Hg Hs (Nat.le_refl _)). simpl in *. lia. }
  intros page. simpl. case_bool_decide as Hempty; [apply agree_refl|].
  apply agree_fix. intros t ((Hg & Hn & Hm) & d & <- & Hpage). set (t := d_credentials d) in *. rewrite listing_page in Hpage.
  apply (f_equal fst) in Hpage. simpl in Hpage.
  eapply agree_bind; [apply agree_refl|eapply answers_pre; [apply (answers_sweep_rows env user ip cutoff none_issued Hrivals (sweeping None t))|]|].
  - intros t1 t2 _ Hs Ht. by eapply sweeping_trans.
  - intros t' ->. split; [done|]. split; [by apply sweeping_refl|]. apply Forall_forall. intros id _. left. by intros [].
  - intros s'. eapply agree_pre; [apply IH|]. intros t' ([_ Hs] & Hsk & Hset). split; [by eapply good_after|].
    pose proof (page_progress (u_id user) cutoff status t t' (length (sw_skipped s)) Hlive Hg Hs) as Hprog. simpl in Hprog.
    rewrite <- Hpage in Hprog. specialize (Hprog Hempty Hset). rewrite Hsk, length_app. lia.
Qed.

Lemma answers_unmoved_reads P status rows : beside env P -> answers env P (unmoved status rows) (fun _ => P).
Proof.
  intros HP. induction rows as [|r rows IH]; simpl; [by apply answers_ret|].
  apply answers_skip; [by apply answers_look|]. intros [c|]; [|by apply answers_ret]. destruct (_ || _); [by apply answers_ret|done].
Qed.

Lemma agree_sweep_rounds status n m k rounds s : status ∈ LIVE_CREDENTIAL_STATUSES -> (k < n)%nat -> (k < m)%nat ->
  agree env (bounded k) (sweep_rounds n user ip cutoff rounds status s) (sweep_rounds m user ip cutoff rounds status s).
Proof.
  intros Hlive Hn Hm. revert s. induction rounds as [|rounds IH]; intros s; [apply agree_refl|]. cbn [sweep_rounds].
  eapply agree_bind.
  - eapply agree_pre; [by apply agree_sweep_pages|]. intros t [Hg Hl]. split; [done|]. simpl. lia.
  - eapply answers_pre; [apply (answers_sweep_pages env user ip cutoff none_issued Hrivals (fun t => (backlog t <= k)%nat)); [apply kept_load|done]|].
    intros t [Hg Hl]. split; [done|]. split; [done|]. split; [by intros r ?%elem_of_nil|]. intros _. simpl. split; [lia|]. by intros x ?%elem_of_nil.
  - intros s'. simpl. eapply agree_pre with (P := bounded k); [|by intros t [Hs _]].
    eapply agree_bind; [apply agree_refl| |].
    + apply answers_unmoved_reads, beside_bounded.
    + intros [|]; [apply agree_refl|apply IH].
Qed.

Lemma agree_sweepForAccountRecovery n m k ids : (k < n)%nat -> (k < m)%nat ->
  agree env (bounded k) (sweepForAccountRecovery n user ip cutoff ids) (sweepForAccountRecovery m user ip cutoff ids).
Proof.
  intros Hn Hm. unfold sweepForAccountRecovery, LIVE_CREDENTIAL_STATUSES. cbn [sweep_statuses].
  eapply agree_bind; [apply (agree_sweep_rounds _ n m k); [left|done..]| |].
  - apply (answers_sweep_rounds env user ip cutoff none_issued Hrivals (fun t => (backlog t <= k)%nat)); [apply kept_load|left|].
    apply kept_and; [apply kept_load|apply kept_no_older_active].
  - intros s1. eapply agree_pre with (P := bounded k); [|by intros t (Hg & Hl & _)]. intros w He Ht Hb.
    assert (Hs : sweep_rounds n user ip cutoff RECOVERY_SWEEP_ROUNDS CredentialRetiring s1 w
              = sweep_rounds m user ip cutoff RECOVERY_SWEEP_ROUNDS CredentialRetiring s1 w).
    { apply (agree_sweep_rounds CredentialRetiring n m k); [right; left|done..]. }
    unfold mbind. by rewrite Hs.
Qed.
End Ends.

(** C26: a sweep of the recovery ends. Its listing loop has no bound in the code:
    it reads until a page is empty. While no key of the account is issued, whatever
    else the others do to its keys and whatever fails, every bound on the pages
    above the number of live keys gives the same sweep, so that the bound of the
    model is never met and the code's loop ends. *)
Theorem recovery_sweep_ends `{EdgeClient} `{CredentialDeps} (env : nat -> turn) `{!GatewayCalls env}
    (user : UserRecord) (ip : option string) (cutoff : option Z) (consumerIds : list string) (n m : nat) (w : world) :
  let keys d := d_credentials d in
  (forall n d, good (u_id user) cutoff none_issued (keys d) ->
     sweeping (u_id user) cutoff none_issued None (keys d) (keys (t_rivals (env n) d))) ->
  w_env w = env -> w_tx w = false -> good (u_id user) cutoff none_issued (keys (w_db w)) ->
  (backlog (u_id user) (keys (w_db w)) < n)%nat -> (backlog (u_id user) (keys (w_db w)) < m)%nat ->
  sweepForAccountRecovery n user ip cutoff consumerIds w = sweepForAccountRecovery m user ip cutoff consumerIds w.
Proof.
  intros keys Hrivals He Ht Hg Hn Hm.
  apply (agree_sweepForAccountRecovery env user ip cutoff Hrivals n m (backlog (u_id user) (keys (w_db w)))); [done..|].
  split; [done|]. by apply Nat.le_refl.
Qed.

(** Two live keys: three pages are enough. *)
Lemma recovery_sweep_ends_witness :
  sweepForAccountRecovery 3 sample_user None None [] sample_credentials
    = sweepForAccountRecovery 50 sample_user None None [] sample_credentials
  /\ exists s, (sweepForAccountRecovery 3 sample_user None None [] sample_credentials).1 = Ok s /\ sw_revoked s = 2%nat.
Proof.
  split; [|eexists; split; vm_compute; reflexivity].
  apply (recovery_sweep_ends sample_turn).
  - intros n d Hg. by apply sweeping_refl.
  - reflexivity.
  - reflexivity.
  - split; [|done]. intros k r. unfold sample_credentials; simpl. unfold sample_rows.
    by intros [[<- <-]|[_ [<- <-]%lookup_singleton_Some]]%lookup_insert_Some.
  - vm_compute. lia.
  - vm_compute. lia.
Defined.
