(* ===== verification/CredentialDisabled.v ===== *)
(** * Disabling an account leaves it no live credential

    [disable_gateway_access] finds the consumers of the account's live rows by a
    paged listing and settles them one consumer at a time; when it answers, no row
    of the account is live. *)

From S2P Require Import Prelude Json Roles Leases Users JobQueues AuditLog AccessTables CredentialTables World AccessStore LeaseFence KeyedSerializer Provisioner TeardownWorker AccountRecovery CredentialStore Credentials CredentialIssue CredentialReconcile CredentialIdentities CredentialSweep CredentialStatements CredentialSample CredentialSteps CredentialSweeping CredentialRecovered.
Open Scope Z_scope.

Section Disabled.
Context (userId : string).

Abbreviation indexed_rows := (fun t : credential_table => keyed cr_id t).

Definition live_row (t : credential_table) (r : CredentialRecord) : Prop :=
  t !! cr_id r = Some r /\ cr_user_id r = userId /\ is_live r = true.

(** The other writers leave the account's rows alone. *)
Definition left_alone (t t' : credential_table) : Prop :=
  keyed cr_id t' /\ forall r, cr_user_id r = userId -> t' !! cr_id r = Some r <-> t !! cr_id r = Some r.

(** Every live row of the account is of one of these consumers. *)
Definition owes (consumers : list string) (t : credential_table) : Prop :=
  keyed cr_id t /\ forall r, live_row t r -> cr_ferrum_consumer_id r ∈ consumers.

Lemma left_alone_owes consumers t t' : left_alone t t' -> owes consumers t -> owes consumers t'.
Proof. intros [Hk Hs] [_ Ho]. split; [done|]. intros r (Hr & Hu & Hl). apply Ho. split; [by apply Hs|done]. Qed.

Lemma left_alone_listing status t t' : keyed cr_id t -> left_alone t t' -> listing userId status t' = listing userId status t.
Proof.
  intros Hk [Hk' Hs]. apply listing_ext; [done..|]. intros r. unfold listed. split; intros (Hr & Hu & Hst); (split; [by apply Hs|done]).
Qed.

Lemma left_alone_trans t1 t2 t3 : left_alone t1 t2 -> left_alone t2 t3 -> left_alone t1 t3.
Proof. intros [_ H1] [Hk H2]. split; [done|]. intros r Hu. by rewrite H2, H1. Qed.

(** A row that is revoked. *)
Lemma updated_keyed st t r r' : keyed cr_id t -> t !! cr_id r = Some r -> updated_to st r r' -> keyed cr_id (<[cr_id r := r']> t).
Proof.
  intros Hk Hr [at_ ->] k x. destruct (decide (k = cr_id r)) as [->|Hne]; [rewrite lookup_insert_eq; by intros [= <-]|].
  rewrite lookup_insert_ne by done. apply Hk.
Qed.

Section Program.
Context `{EdgeClient} `{CredentialDeps} (env : nat -> turn) `{!GatewayCalls env}.
Context (Hrivals : forall n d, keyed cr_id (d_credentials d) -> left_alone (d_credentials d) (d_credentials (t_rivals (env n) d))).

Lemma beside_keyed : beside env indexed_rows.
Proof. intros n d Hk. by apply Hrivals. Qed.
Lemma beside_owes consumers : beside env (owes consumers).
Proof. intros n d Ho. eapply left_alone_owes; [|exact Ho]. apply Hrivals, Ho. Qed.
Hint Resolve beside_keyed beside_owes : core.

(** Rows of one consumer that are still to revoke. *)
Definition clearing (consumers : list string) (consumerId : string) (ids : list string) (t : credential_table) : Prop :=
  owes consumers t /\ forall r, live_row t r -> cr_ferrum_consumer_id r = consumerId -> cr_id r ∈ ids.

Lemma within_revoke_rows consumers consumerId rows :
  within env (clearing consumers consumerId (map cr_id rows)) (revoke_rows rows) (fun _ => clearing consumers consumerId []).
Proof.
  induction rows as [|row rows IH]; simpl; [by apply answers_ret|].
  eapply answers_bind; [|intros x; exact IH]. eapply within_statement; [apply does_row_update|].
  intros t x t' [[Hk Ho] Hc] Ht.
  assert (Hold : forall r, live_row t' r -> live_row t r /\ cr_id r <> cr_id row).
  { intros r (Hr & Hu & Hl). destruct Ht as [[-> Hn]|(r0 & r1 & Hr0 & Hup & ->)].
    - split; [done|]. intros He. congruence.
    - pose proof (Hk _ _ Hr0) as Hid. simpl in Hid. rewrite Hid in Hr. destruct (decide (cr_id row = cr_id r)) as [He|Hne].
      + rewrite He, lookup_insert_eq in Hr. injection Hr as ->. unfold is_live in Hl. by rewrite (updated_status _ _ _ Hup) in Hl.
      + rewrite lookup_insert_ne in Hr by done. split; [done|congruence]. }
  split.
  - split; [|intros r [Hr _]%Hold; by apply Ho]. destruct Ht as [[-> _]|(r0 & r1 & Hr0 & Hup & ->)]; [done|].
    pose proof (Hk _ _ Hr0) as Hid. simpl in Hid. eapply updated_keyed; [done|congruence|exact Hup].
  - intros r [Hr Hne]%Hold He. specialize (Hc r Hr He). by apply elem_of_cons in Hc as [?|?].
Qed.

Lemma frame_revoke_rows rows : frame (revoke_rows rows).
Proof. induction rows as [|r rows IH]; simpl; framed; apply IH. Qed.
Hint Resolve frame_revoke_rows : nexus.

Definition without (consumerId : string) (consumers : list string) : list string := filter (fun c => c <> consumerId) consumers.

Lemma answers_revokeRowsFor consumers consumerId :
  answers env (owes consumers) (revokeRowsFor consumerId) (fun _ => owes (without consumerId consumers)).
Proof.
  unfold revokeRowsFor. apply answers_transaction; [framed|auto..|].
  eapply answers_bind; [apply within_read|]. intros rows.
  eapply answers_pre with (P := clearing consumers consumerId (map cr_id rows)).
  2: { intros t ([Hk Ho] & d & <- & ->). split; [done|]. intros r (Hr & Hu & Hl) Hc. apply list_elem_of_fmap_2.
       unfold credentials_listByConsumer. rewrite sort_by_elem, rows_where_spec. exists (cr_id r). split; [done|]. simpl.
       by rewrite bool_decide_eq_true_2. }
  eapply answers_bind; [apply within_revoke_rows|]. intros u. apply answers_ret. intros t [[Hk Ho] Hc]. split; [done|].
  intros r Hr. apply list_elem_of_filter. split; [|by apply Ho]. intros He. by apply (Hc r Hr), elem_of_nil in He.
Qed.

Lemma owes_mono consumers consumers' t : owes consumers t -> (forall c, c ∈ consumers -> c ∈ consumers') -> owes consumers' t.
Proof. intros [Hk Ho] Hsub. split; [done|]. intros r Hr. by apply Hsub, Ho. Qed.

Lemma answers_revokeRowsFor_keyed consumerId : answers env indexed_rows (revokeRowsFor consumerId) (fun _ => indexed_rows).
Proof.
  unfold revokeRowsFor. apply answers_transaction; [framed|auto|auto|].
  apply answers_skip; [eapply answers_post; [apply within_read|by intros x t [? _]]|]. intros rows.
  apply answers_skip; [|intros u; by apply answers_ret].
  induction rows as [|row rows IH]; simpl; [by apply answers_ret|]. apply answers_skip; [|by intros _].
  eapply within_statement; [apply does_row_update|]. intros t x t' Hk [[-> _]|(r & r' & Hr & Hup & ->)]; [done|].
  pose proof (Hk _ _ Hr) as Hid. simpl in Hid. eapply updated_keyed; [done|congruence|exact Hup].
Qed.

(** *** What is read *)

Lemma answers_pages P status l fuel n acc :
  beside env P -> (forall t, P t -> listing userId status t = l) -> acc = take n l ->
  answers env P (collect_pages fuel (fun offset => credential_list (live_of_user userId status) (Some (Fin MAX_PAGE_SIZE)) (Some (Fin offset))) (Z.of_nat n) acc)
    (fun rows t => P t /\ rows = l).
Proof.
  intros HP Hl. revert n acc. induction fuel as [|fuel IH]; intros n acc ->; simpl; [apply answers_throw|].
  eapply answers_bind; [by apply answers_read|]. intros [items total].
  apply answers_pre with (P := fun t => P t /\ items = take 200 (drop n l) /\ total = Z.of_nat (length l)).
  2: { intros t (Hp & d & <- & Hpage). rewrite listing_page, Hl in Hpage by done. by injection Hpage as -> ->. }
  eapply answers_pure; [intros t [_ Hpage]; exact Hpage|]. intros [Hitems ->].
  eapply answers_pre with (P := P); [|by intros t [? _]].
  assert (Hlen : length items = (200 `min` (length l - n))%nat) by (by rewrite Hitems, length_take, length_drop).
  assert (Hacc : take n l ++ items = take (n + length items) l).
  { rewrite <- take_take_drop, Hlen. f_equal. rewrite Hitems. destruct (decide (200 <= length l - n)%nat).
    - by rewrite Nat.min_l.
    - rewrite Nat.min_r by lia. by rewrite !take_ge by (rewrite length_drop; lia). }
  destruct (_ || _) eqn:Hend.
  - apply answers_ret. intros t Hp. split; [done|]. rewrite Hacc. apply take_ge. apply orb_true_iff in Hend as [He|He].
    + apply bool_decide_eq_true in He. rewrite He in Hlen |- *. change (length []) with 0%nat in *. lia.
    + apply bool_decide_eq_true in He. lia.
  - rewrite Hacc, <- Nat2Z.inj_add. by apply IH.
Qed.

Lemma distinct_from_elem x seen l : x ∈ distinct_from seen l <-> x ∈ l /\ x ∉ seen.
Proof.
  revert seen. induction l as [|y l IH]; intros seen; simpl; [set_solver|].
  case_bool_decide as Hy; [rewrite IH; set_solver|]. rewrite elem_of_cons, IH. destruct (decide (x = y)); set_solver.
Qed.

Lemma answers_foreignConsumerIds fuel durable :
  answers env indexed_rows (foreignConsumerIds fuel userId durable) (fun ids => owes (durable ++ ids)).
Proof.
  apply answers_fix. intros t0 Hk0. apply answers_pre with (P := left_alone t0); [|intros t ->; by split].
  assert (Hbeside : beside env (left_alone t0)) by (intros n d Hs; eapply left_alone_trans; [exact Hs|apply Hrivals, Hs]).
  assert (Hlist : forall status t, left_alone t0 t -> listing userId status t = listing userId status t0) by (intros status t; by apply left_alone_listing).
  unfold foreignConsumerIds, live_rows_of.
  eapply answers_bind; [apply (answers_pages (left_alone t0) CredentialActive (listing userId CredentialActive t0) fuel 0); [done|by intros t; apply Hlist|done]|].
  intros active. eapply answers_pure; [intros t [_ Ha]; exact Ha|]. intros ->.
  eapply answers_bind; [eapply answers_pre; [apply (answers_pages (left_alone t0) CredentialRetiring (listing userId CredentialRetiring t0) fuel 0); [done|by intros t; apply Hlist|done]|by intros t [? _]]|].
  intros retiring_. apply answers_ret. intros t [[Hk Hs] ->]. split; [done|]. intros r (Hr & Hu & Hl). apply elem_of_app.
  destruct (decide (cr_ferrum_consumer_id r ∈ durable)) as [?|Hnot]; [by left|right].
  rewrite sort_by_elem. apply distinct_from_elem. split; [|by intros ?%elem_of_nil]. apply list_elem_of_filter. split; [done|].
  apply list_elem_of_fmap_2. apply Hs in Hr; [|done]. unfold is_live in Hl. apply bool_decide_eq_true in Hl.
  apply elem_of_app. apply elem_of_cons in Hl as [Hst|Hst%list_elem_of_singleton]; [left|right]; by apply listing_elem.
Qed.

(** *** Registered identities *)

Lemma answers_users_find P id : beside env P -> answers env P (users_find id) (fun _ => P).
Proof. intros HP. by apply answers_elsewhere; [|intros n d x d' [= _ <-]]. Qed.

Lemma answers_assertStillDisabled P : beside env P -> answers env P (assertStillDisabled userId) (fun _ => P).
Proof.
  intros HP. apply answers_skip; [by apply answers_users_find|]. intros [u|]; [|by apply answers_ret].
  eapply answers_post; [apply answers_ensure|]. by intros x t [_ ?].
Qed.

Lemma answers_identity_consumer P name current : beside env P -> answers env P (identity_consumer name current) (fun _ => P).
Proof.
  intros HP. unfold identity_consumer. destruct current as [r|]; [|by apply answers_outside; [apply calls_get|]].
  destruct (gi_ferrum_consumer_id r); [by apply answers_outside; [apply calls_get|]|].
  apply answers_skip; [by apply answers_outside; [apply calls_get|]|]. intros [c|]; [by apply answers_ret|].
  by apply answers_outside; [apply calls_getByUsername|].
Qed.

Lemma answers_collect_identity subject current live :
  answers env indexed_rows (collect_identity subject current live) (fun _ => indexed_rows).
Proof.
  unfold collect_identity. apply answers_skip.
  - destruct live as [c|]; [|by apply answers_ret]. apply answers_locks; [auto|auto|].
    apply answers_skip; [apply answers_outside; [apply calls_delete|auto]|]. intros u. apply answers_revokeRowsFor_keyed.
  - intros revoked. destruct (current ≫= _); [|by apply answers_ret]. case_bool_decide; [by apply answers_ret|].
    apply answers_skip; [apply answers_revokeRowsFor_keyed|]. intros more. by apply answers_ret.
Qed.

Lemma frame_identity_delete id : frame (identity_delete id).
Proof. apply frame_statement. Qed.

Lemma answers_identity_delete P id : beside env P -> answers env P (transaction (identity_delete id)) (fun _ => P).
Proof.
  intros HP. apply answers_transaction; [apply frame_identity_delete|done|by intros x|].
  apply within_elsewhere. intros n d x d' Hf. destruct (identities_delete _ _). by injection Hf as _ <-.
Qed.

Lemma answers_consume_registration P current result :
  beside env P -> answers env P (consume_registration false current result) (fun _ => P).
Proof.
  intros HP. unfold consume_registration. apply answers_catch; [|intros e; apply answers_throw].
  apply answers_skip; [by apply answers_identity_delete|]. intros u. by apply answers_ret.
Qed.

Definition by_the_owner : TeardownGatewayIdentityOptions := {| requireDisabledOwner := Some userId; whileHeld := None |}.

Lemma answers_teardownIdentity name subject :
  answers env indexed_rows (teardownIdentity name subject by_the_owner) (fun _ => indexed_rows).
Proof.
  apply answers_locks; [auto|auto|]. unfold teardown_section, by_the_owner. simpl.
  apply answers_skip; [apply answers_assertStillDisabled; auto|]. intros u.
  apply answers_skip; [apply answers_look; auto|]. intros current. destruct (negb _); [by apply answers_ret|].
  apply answers_skip; [apply answers_identity_consumer; auto|]. intros live.
  apply answers_skip; [apply answers_collect_identity|]. intros revoked.
  apply answers_skip; [by apply answers_ret|]. intros v. destruct current; [|by apply answers_ret].
  apply answers_consume_registration. auto.
Qed.

Lemma answers_teardown_registered subject identities :
  answers env indexed_rows (teardown_registered userId subject identities) (fun _ => indexed_rows).
Proof.
  induction identities as [|i identities IH]; simpl; [by apply answers_ret|].
  apply answers_skip; [apply answers_teardownIdentity|]. intros outcome. apply answers_skip; [done|]. intros others. by apply answers_ret.
Qed.

(** *** One consumer after another *)

Lemma answers_teardown_foreign_one consumers subject id :
  answers env (owes consumers) (teardown_foreign_one userId subject id) (fun _ => owes (without id consumers)).
Proof.
  apply answers_locks; [auto|auto|].
  apply answers_skip; [apply answers_assertStillDisabled; auto|]. intros u.
  apply answers_skip; [apply answers_outside; [apply calls_get|auto]|]. intros live.
  apply answers_skip. { case_bool_decide; [apply answers_outside; [apply calls_delete|auto]|by apply answers_ret]. } intros v.
  eapply answers_bind; [apply answers_revokeRowsFor|]. intros count.
  apply answers_skip; [|intros x; by apply answers_ret].
  apply answers_transaction; [framed|auto|auto|]. apply answers_skip; [eapply answers_post; [apply within_read|by intros x t [? _]]|].
  intros [c|]; [|by apply answers_ret]. case_bool_decide; [|by apply answers_ret].
  apply answers_skip; [|intros x; by apply answers_ret]. apply within_elsewhere. intros n d x d' Hf. by injection Hf as _ <-.
Qed.

Lemma answers_clear_types P id subject types : beside env P -> answers env P (clear_types id subject types) (fun _ => P).
Proof.
  intros HP. induction types as [|type types IH]; simpl; [by apply answers_ret|].
  apply answers_skip; [by apply answers_outside; [apply calls_deleteType|]|by intros _].
Qed.

Lemma answers_strip_durable consumers subject id :
  answers env (owes consumers) (strip_durable userId subject id) (fun _ => owes (without id consumers)).
Proof.
  apply answers_locks; [auto|auto|].
  apply answers_skip; [apply answers_assertStillDisabled; auto|]. intros u.
  apply answers_skip; [apply answers_outside; [apply calls_verification|auto]|]. intros snapshot.
  apply answers_skip.
  { destruct snapshot as [[live etag]|]; [|by apply answers_ret].
    apply answers_skip; [apply answers_outside; [apply calls_replace|auto]|]. intros v. apply answers_clear_types. auto. }
  intros v. eapply answers_bind; [apply answers_revokeRowsFor|]. intros n. by apply answers_ret.
Qed.

Lemma answers_teardown_foreign consumers subject ids rest :
  (forall c, c ∈ consumers -> c ∈ ids ++ rest) ->
  answers env (owes consumers) (teardown_foreign userId subject ids) (fun _ => owes rest).
Proof.
  revert consumers. induction ids as [|id ids IH]; intros consumers Hc; simpl.
  - apply answers_ret. intros t Ho. by eapply owes_mono.
  - eapply answers_bind; [apply answers_teardown_foreign_one|]. intros n.
    eapply answers_bind; [apply IH|intros others; by apply answers_ret].
    intros c [Hne Hin]%list_elem_of_filter. specialize (Hc c Hin). by apply elem_of_cons in Hc as [?|?].
Qed.

Lemma answers_strip_all consumers subject durable :
  (forall c, c ∈ consumers -> c ∈ map cs_ferrum_consumer_id durable) ->
  answers env (owes consumers) (strip_all userId subject durable) (fun _ => owes []).
Proof.
  revert consumers. induction durable as [|d durable IH]; intros consumers Hc; simpl.
  - apply answers_ret. intros t Ho. by eapply owes_mono.
  - eapply answers_bind; [apply answers_strip_durable|]. intros n.
    eapply answers_bind; [apply IH|intros others; by apply answers_ret].
    intros c [Hne Hin]%list_elem_of_filter. specialize (Hc c Hin). by apply elem_of_cons in Hc as [?|?].
Qed.

Lemma answers_disable fuel subject :
  answers env indexed_rows (disable_gateway_access fuel userId subject) (fun _ => owes []).
Proof.
  unfold disable_gateway_access.
  apply answers_skip. { apply answers_collect_pages. intros o. apply answers_look. auto. } intros durable.
  apply answers_skip; [apply answers_look; auto|]. intros identities.
  apply answers_skip; [apply answers_teardown_registered|]. intros registered.
  eapply answers_bind; [apply answers_foreignConsumerIds|]. intros foreign.
  destruct (bool_decide (durable = []) && bool_decide (foreign = [])) eqn:Hnone.
  - apply andb_true_iff in Hnone as [->%bool_decide_eq_true ->%bool_decide_eq_true]. by apply answers_ret.
  - eapply answers_bind; [apply answers_teardown_foreign with (rest := map cs_ferrum_consumer_id durable)|].
    { intros c. rewrite !elem_of_app. tauto. }
    intros n. eapply answers_bind; [by apply answers_strip_all|]. intros stripped. by apply answers_ret.
Qed.
End Program.
End Disabled.


Definition sample_disabled_user : UserRecord := {|
  u_id := "u1"; u_email := "u1@example.org"; u_password_hash := ""; u_display_name := "U1"; u_role := client;
  u_org_id := None; u_company := None; u_phone := None; u_status := UserDisabled; u_email_verified := true;
  u_last_login_at := None; u_created_at := 0; u_updated_at := 0; u_email_fence := "";
|}.
Definition sample_disabled : world :=
  set_db (with_users {["u1"%string := sample_disabled_user]} (w_db sample_credentials)) sample_credentials.

